(* ===== verification/_CoqProject ===== *)
-Q . S2P
Prelude.v
PrimTypes.v
Opcodes.v
IntWords.v
IntWordsFacts.v
IntDivFacts.v
IntVal.v
IntValFacts.v
IntValArith.v
IntValOrder.v
IntValCount.v
IntValDiv.v
IntValSpec.v
IntValTyped.v
IntConst.v
IntConstFacts.v
ConstantFold.v
ConstantFoldFacts.v
ConstantFoldExpr.v
ExprMem.v
ConstantFoldTree.v
ExprTree.v
ExprTreeFacts.v
ExprMemFacts.v
ConstantFoldPair.v
ConstantFoldUnary.v
ConstantFoldExtract.v
ConstantFoldValues.v
ConstantFoldOperands.v
ConstantFoldBinary.v
ConstantFoldLeft.v
ConstantFoldRight.v
ConstantFoldBits.v
ConstantFoldNode.v
ConstantFoldCompare.v
ConstantFoldRelation.v
ConstantFoldSpec.v
ConstantFoldExamples.v
BitValue.v
BitValueFacts.v
UnionFind.v
UnionFindFacts.v
A64ImmTable.v
A64Imm.v
A64ImmFacts.v
A64MoveFacts.v
A64Insn.v
A64Split.v
A64Sem.v
A64MoveSplit.v
A64SplitFacts.v
A64MemSplit.v
A64SplitSpec.v
BinCodec.v
BinStrings.v
BinTypes.v
BinTypesFacts.v
BinTypesTotal.v
BinTypesSpec.v
BinExamples.v
Dominance.v
DominanceGraph.v
DominanceWalk.v
DominanceTree.v
DominanceFixpoint.v
DominanceFrontier.v
DominanceIterated.v
DominanceOrder.v
DominanceSpec.v
CfgMst.v
CfgMstFacts.v
CfgMstEdges.v
ProfUse.v
ProfUseFacts.v
ProfUseTotal.v
ProfSpec.v
Scc.v
SccTarjan.v
SccSearch.v
SccSpec.v
