(* ===== verification/Prelude.v ===== *)
(** * A verification development for the Maple compiler (mapleall)

    The repository is an ahead-of-time compiler.  Its front end (hir2mpl)
    produces MapleIR, the shared core under src/src/mapleall transforms it
    (mpl2mpl, maple_me, maple_ipa) and maple_be generates code.  All of these
    rest on a small computational core: integers of the widths of the target
    program, the tables of primitive types and opcodes, interned constants, the
    evaluation of constant expressions, analyses of known bits, dominators, strongly connected components, the
    spanning trees of edge profiles, and the union-find structure of the alias
    analyses.  This development models that
    core and proves what the compiler relies on.

    ** How the code is modelled

    Stateful C++ is explicit state passing.  A function that can stop is a
    value of [res], defined below: [Ret] of the result, or [Fault] of what
    stopped it, which is an ASSERT, a CHECK_FATAL, an access outside an array, the use
    of a null pointer, a read of the inactive member of a union, what C++ leaves
    undefined, or a loop whose fuel ran out.  ASSERT is
    modelled as in a checked build, where it stops the compiler.  [wp m Q] says
    that [m] returns and that its result satisfies [Q], so every theorem stated
    with it includes the absence of faults.  Machine words are integers with
    the reductions of C written out ([wrap], [swrap], [shl], [shr]).  A shift by the
    width of the word or more is undefined in C++: where an input of a theorem can
    reach one, as every comparison of words by BitwiseCompare does, the model tests
    the count ([CHECK_SHIFT]) and is [Fault Undefined].  So is a search of unordered_map
    whose keys break the requirements of the container.  memmove_s of libboundscheck
    fails for a destination of no words, as it is documented to do, and the
    CHECK_FATAL around it stops ([memmove_s] of [IntWords]).

    ** The files and the code they model

    - [Prelude]: machine words, [res] and its loops, the rules of [wp],
      little-endian arrays of words and their value [eval].
    - [PrimTypes]: maple_ir/include/prim_types.def, cfg_primitive_types.h and
      the functions on primitive types of mir_type.h and mir_type.cpp.  The
      class [Target] is the one parameter they depend on, the pointer size.
    - [Opcodes]: opcodes.def, opcodes.h, opcode_info.h and opcode_info.cpp.
    - [IntWords]: the static functions of maple_util/src/mpl_int_val.cpp on word
      arrays; [IntWordsFacts] and [IntDivFacts] prove them correct on the value
      of the array, the second the schoolbook division.
    - [IntVal]: the class IntVal of maple_util/include/mpl_int_val.h and
      mpl_int_val.cpp, member by member.  [IntValFacts] has the invariant [wf],
      the abstract integer [ival] and the canonical value [repr]; [IntValArith],
      [IntValOrder], [IntValCount] and [IntValDiv] give each operator as an
      equation in terms of [repr]; [IntValSpec] is the specification: an IntVal
      implements the integers of a fixed width and sign.  [IntValTyped] has the
      operations in terms of a primitive type that folding uses.
    - [IntConst]: MIRIntConst (mir_const.h) and IntConstTable (global_tables.h
      and .cpp), with the look-up of the parallel phases as atomic steps of
      threads; [IntConstFacts] proves that the table interns.
    - [ConstantFold]: the folds of integer constants of
      mpl2mpl/src/constantfold.cpp, on the IntVal model and the table of
      constants; [ConstantFoldFacts] and [ConstantFoldExpr] prove that they
      compute the value of the operation.
    - [ExprMem]: expression nodes (maple_ir/include/mir_nodes.h) as cells of a
      memory, shared by pointer and changed in place.  [ConstantFoldTree]: the
      folding of whole integer expressions in that memory, from
      ConstantFold::Fold down, with PairToExpr, NegateTree, FoldUnary,
      FoldTypeCvt, FoldExtractbits, FoldBinary, FoldCompare and the
      simplification of comparisons of comparisons.
    - [ExprTree]: the specification of expressions, that is the tree that nodes
      represent, its value, its typing rules and the side conditions of
      folding.  [ExprTreeFacts] has its lemmas and [ExprMemFacts] the
      representation of trees on disjoint cells and what a change of the memory
      leaves alone.
    - the correctness of folding, one file for each part of it:
      [ConstantFoldPair] (PairToExpr and new nodes), [ConstantFoldUnary] (unary
      nodes, negation and conversions, and the contract [fold_spec] of a fold),
      [ConstantFoldExtract], [ConstantFoldValues] (algebraic laws of the
      operators), [ConstantFoldOperands] (folded operands),
      [ConstantFoldBinary], [ConstantFoldLeft], [ConstantFoldRight],
      [ConstantFoldBits] and [ConstantFoldNode] (binary nodes),
      [ConstantFoldCompare] and [ConstantFoldRelation] (comparisons),
      [ConstantFoldSpec] (the fuel and the whole).
      [ConstantFoldExamples] applies the theorems to a concrete memory and shows
      expressions that the code gets wrong.
    - [BitValue]: maple_util/include/bit_value.h, bit_value.cpp and the
      demanded-bits simplification of maple_me/src/me_expr_utils.cpp;
      [BitValueFacts] proves soundness of the known bits and of the
      simplification.
    - [UnionFind]: maple_me/include/union_find.h; [UnionFindFacts] proves that it
      maintains a partition, with paths of logarithmic length.
    - [Dominance]: the class Dominance of maple_util/include/dominance.h, for
      dominators and post-dominators, as a function from a graph to the fields of
      the object.  [DominanceGraph] defines dominance by the paths of the graph,
      and the numberings that a post-order gives; [DominanceWalk] proves
      PostOrderWalk and GenPostOrderID, [DominanceTree] Intersect and the body of
      the loop of ComputeDominance, [DominanceFixpoint] the loop, by an invariant
      on the tree of the dominators found so far; [DominanceFrontier] Dominate and
      ComputeDomFrontiers, [DominanceIterated] ComputeIterDomFrontiers,
      [DominanceOrder] the children, the pre-order and its places.
      [DominanceSpec] joins them in Init and has the theorems, and tests that
      decide their conditions on a graph.
    - edge profiles, of maple_pgo and maple_be/src/cg/cg_pgo_use.cpp: [CfgMst] is
      cfg_mst.h and cfg_mst.cpp, which choose a spanning tree of the control-flow
      graph, and instrument.h and instrument.cpp, which choose the blocks to
      count; [ProfUse] the part of CGProfUse that computes all counts from those.
      [CfgMstFacts] has forests as lists of edges, with the leaf that every forest
      has, and proves that the groups of CFGMST are the components and the tree is
      the heaviest; [CfgMstEdges] that, with a counted block taken apart
      into its two sides, the edges whose count is open are a forest.
      [ProfUseFacts] proves each step of CGProfUse sound for any flow through the
      graph, [ProfUseTotal] that no count stays unknown and what the blocks get;
      [ProfSpec] makes the flow of a list of runs, and has the theorems.
    - [Scc]: mpl2mpl/include/scc.h, the strongly connected components of the call
      graph and of basic blocks, with the two local stacks of BuildSCCDFS.
      [SccTarjan] has Tarjan's invariant on numberings of the nodes and that its
      steps keep it, [SccSearch] that BuildSCCDFS takes these steps and makes one
      object for each component, [SccSpec] the theorems on BuildSCC.
    - [A64Imm]: aarch64_imm_valid.cpp and .h of maple_be, with the table of
      valid_bitmask_imm.txt ([A64ImmTable]), and the immediates of moves in
      operand.cpp.  [A64ImmFacts] derives the table from the architecture's
      definition of logical immediates and proves the bit tricks of
      IsBitmaskImmediate against it; [A64MoveFacts] does the same for moves.
    - [A64Insn]: the machine instructions whose immediates may be split, their
      operands (operand.h), their rows in aarch64_md.def and the validity
      functions of aarch64_mop_valid.h behind Insn::VerifySelf.  [A64Split]:
      the split functions of aarch64_mop_split.h behind Insn::SplitSelf, in a
      state monad that numbers virtual registers.
    - [A64Sem]: the specification of these instructions, a machine of registers,
      flags and memory after the Arm architecture manual.  [A64MoveSplit],
      [A64SplitFacts] and [A64MemSplit] prove the splits of moves, of additions
      and subtractions, and of loads and stores correct on that machine;
      [A64SplitSpec] joins them and lists what is not split correctly.
    - the binary form of MapleIR, maple_ir/src/bin_mpl_export.cpp and
      bin_mpl_import.cpp, as writers and readers in a state monad:
      [BinCodec] has the buffers, numbers and words, and a program logic for a
      writer and the reader that follows it; [BinStrings] the tables of strings;
      [BinTypes] the types of mir_type.h with OutputType and ImportTypeNonJava.
      [BinTypesFacts] relates an exported graph of types to the imported one,
      [BinTypesTotal] shows that export returns, [BinTypesSpec] has the theorems
      and [BinExamples] their instances on a recursive struct, with the types
      that do not survive.

    ** The claims

    C1 to C6, C10 and C11 are the contract of IntVal: ring operations, bitwise
    operators, division, order, shifts, conversions, the exactness of the schoolbook
    division (Algorithm D) without ever reaching its CHECK_FATAL, and the operations
    in a primitive type.  On values of more than 64 bits C3, C4 and C11 say what runs
    into the undefined shift of BitwiseCompare, which is every division and every
    order but that of signed operands of which one is negative, and that division is
    right given the answer of that comparison; C5 says that a shift of them by their
    full width stops. C7 and C20 are the strongly connected components: which
    nodes share one, and the order and the neighbours of the components. C8 and C21
    are the edge profiles: the counters of the instrumented blocks give back what
    the runs of the function executed, and the tree that decides which blocks these
    are is the heaviest. C9, C12, C26 and C27 are the dominators: immediate
    dominators and the test for dominance, dominance frontiers, iterated frontiers,
    and the tree in pre-order, each as the paths of the graph define it. C13 checks
    the tables of primitive types. C15 and C16 are the soundness of the known-bits
    analysis and of the simplification by demanded bits, for any value of the opaque
    leaves. C17 to C19 are the termination, the partition and the invariant of the
    union-find structure under all its operations. C22 to C24 are the table of
    constants: interning, 128-bit constants, which are interned as long as no other
    type has the same words, and every interleaving of parallel look-ups. C25, C28, C30, C32 and
    C34 to C37 are constant folding: C25, C28 and C30 the folds of constants, C32
    the building of expressions, and C34 to C37 the folding of whole expressions,
    which preserves the value of the expressions that satisfy [foldable], leaves all
    other expressions alone, does not fold divisions of constants that trap, with one
    exception that it states, and terminates. C38 to C40 are the immediates of the
    AArch64 code generator: C38 the logical immediates against their definition in
    the architecture, C39 the constants that one move loads, and C40 the splitting
    of instructions whose immediate does not fit, for those in [splittable], against
    a machine that runs both forms. The other four are the binary form of MapleIR: the round trips of numbers
    (C29), of strings (C33) and of types (C14), which gives back a graph of types
    bisimilar to the exported one, and the termination of the export of recursive
    types (C31). The [Example]s at the end of the files are inputs on which the code
    departs from what it stands for.

    ** Bounds and fuel

    An IntVal is well formed with a width of 1 to 64 bits or a multiple of 64 up to
    255 words, because its number of words is kept in 8 bits. The loop of
    UnionFind::Root takes as fuel the binary logarithm of the number of members,
    which C17 proves sufficient; the correction loop of a digit of Algorithm D takes
    3 iterations, the bound the code checks itself, and C10 proves that 2 are
    enough. The folding of expressions takes as fuel the height of the expression,
    which C37 proves sufficient; the loop of SimplifyDoubleCompare along conversions
    takes the number of nodes. The other loops run over an array or a tree and are
    structural. Insn::SplitSelf takes as fuel the depth to which splits nest, and
    C40 proves that 4 is enough for any immediate but INT64_MIN. The loop of
    ComputeDominance takes the square of the number of nodes, since every pass but
    the last moves a dominator up a path of at most that length; the climbs of
    Intersect, of the runners of ComputeDomFrontiers and of Dominate take the number
    of nodes; C9 and C12 prove that these are enough. The search of BuildSCCDFS
    takes the number of nodes and edges, as C7 proves. The passes of
    CGProfUse::ComputeEdgeFreq take the number of edges and blocks, one of which
    becomes known in every pass but the last, and CFGMST::FindGroup the number of
    blocks; C8 and C21 prove that these are enough. The loop of WriteNum takes 9, of
    ReadNum the size of the buffer, which C29 proves sufficient. OutputType and
    ImportTypeNonJava take the depth to which types nest: C31 proves that twice the
    number of types and two is enough for export, and C14 that the import gets by
    with the fuel of the export.

    ** What is not modelled

    Floating-point constants, dumping, memory pools and the allocation of
    arrays are left out.  The arguments of a call are evaluated from left to
    right, where C++ leaves the order open; the order decides only in which
    order new nodes are allocated.  Of constant folding, the folds of
    sizeoftype, iread, depositbits, select, array and retype and the
    simplification of statements are not modelled; the theorems on folding are
    about expressions whose operands share no node, with integer types of at
    most 64 bits, and under the conditions that [foldable] lists, each of which
    excludes expressions for which the theorem fails or that the types of
    MapleIR do not admit.  The other expression simplifications of maple_me,
    which rewrite shared nodes of the SSA form, and the textual form of MapleIR are
    not modelled.

    The graph of the dominators is a parameter: its nodes and their successors and
    predecessors, which the basic blocks and call graph nodes of other parts
    supply.  The theorems hold for graphs whose common entry has no predecessor and
    whose edges are listed at both ends, but for those of the common entry, which
    the basic blocks do not list; for the frontiers, whose joins and the
    predecessors of these can be reached.  An [Example] of [DominanceSpec] shows
    what is lost when the first block is a loop header.  The getters that only
    return a member and DumpDoms are left out, and so is the second
    implementation in the code generator.

    The graph of the strongly connected components is a parameter, with ids below
    the number of nodes it is given for and no null successors.  The dumps are left
    out, and so are the other copies of the algorithm, for the blocks of MeCFG, and
    what the call graph does with its components.

    Of edge profiles, the graph of blocks is a parameter as well.  C8 is about
    functions as [wf_cfg] describes them: the lists of successors and predecessors
    agree and have no block twice, the first block has no predecessor, the common
    exit is reached from blocks without successors, and no edge is critical, since
    these are split before.  The layout of the blocks by their counts, the code of
    the counters, the tables of counters in the module and the reading of profiles
    are not modelled; nor is the copy of the spanning tree for the mid-end.

    Of the binary form, classes, interfaces, generic types, the member functions
    of structs, initial values of fields, constants, symbols, functions and
    statements are not modelled, nor is the import into Java modules; a path that
    reaches one of them is [Fault NotModelled].  The hash table of types, which
    the import only fills, is left out.  The marks that the exporter keeps by node
    are kept by index, as the type table has one node for each.

    Of the code generator only the immediates and their splits are modelled.  An
    operand that code shares between instructions is a value here: the splits
    change the immediate of the instruction that they replace, and no other
    instruction that holds the same operand is considered.  Null operands,
    comments and debug positions are left out, and a basic block is the list of
    instructions that take the place of one.  The symbol of a literal-pool
    operand is known by the three answers that its validity asks for. *)

From Stdlib Require Export ZArith Lia Bool List.
From stdpp Require Export base list numbers list_numbers.
#[global] Open Scope Z_scope.

(** ** Machine words

    A w-bit unsigned integer is a [Z] in [0, 2^w); [wrap w] is the reduction
    C performs on unsigned arithmetic, [swrap w] the conversion to the signed
    type of the same width (two's complement). *)

Definition wrap (w x : Z) : Z := x mod 2 ^ w.

Definition swrap (w x : Z) : Z :=
  let y := wrap w x in if y <? 2 ^ (w - 1) then y else y - 2 ^ w.

(** Shifts of a [tb]-bit word by a count below [tb].  C++ leaves other counts
    undefined; the reduction of the count only makes these functions total.
    [shift_defined] is the condition, which [CHECK_SHIFT] tests. *)
Definition shl (tb x n : Z) : Z := wrap tb (Z.shiftl x (n mod tb)).
Definition shr (tb x n : Z) : Z := Z.shiftr x (n mod tb).
Definition shift_defined (tb n : Z) : bool := (0 <=? n) && (n <? tb).

(** Bitwise complement of a [tb]-bit word. *)
Definition notw (tb x : Z) : Z := wrap tb (Z.lnot x).

(** [kAllOnes] of IntVal: [uint64(~0)]. *)
Definition ones (tb : Z) : Z := Z.ones tb.

Notation "'in_word' tb x" := (0 <= x < 2 ^ tb) (at level 10, tb at level 9, x at level 9, only parsing).

(** ** Faults

    What stops the compiler in a checked build: an [ASSERT], a [CHECK_FATAL],
    an access outside an array or through a null pointer, a read of the inactive
    member of a union, a division by zero.  [Undefined] is what C++ leaves
    undefined and no check stops: a shift by the width of the word, a broken
    requirement of a standard container.  [OutOfFuel] marks a loop whose bound was too small, and
    [NotModelled] a path of the code on which the model ends. *)
Inductive fault : Type :=
  | AssertFail
  | CheckFatal
  | OutOfBounds
  | WrongMember
  | DivByZero
  | Undefined
  | OutOfFuel
  | NotModelled.

#[export] Instance fault_eq_dec : EqDecision fault.
Proof. solve_decision. Defined.

Inductive res (A : Type) : Type :=
  | Ret (a : A)
  | Fault (f : fault).
Arguments Ret {A} a.
Arguments Fault {A} f.

#[export] Instance res_ret : MRet res := fun A a => Ret a.
#[export] Instance res_bind : MBind res := fun A B k m =>
  match m with Ret a => k a | Fault f => Fault f end.

(** [ASSERT(b, ...)] and [CHECK_FATAL(b, ...)]. *)
Definition ASSERT (b : bool) : res unit := if b then Ret tt else Fault AssertFail.
Definition CHECK_FATAL (b : bool) : res unit := if b then Ret tt else Fault CheckFatal.
Definition CHECK_SHIFT (tb n : Z) : res unit := if shift_defined tb n then Ret tt else Fault Undefined.

Lemma CHECK_SHIFT_ok (tb n : Z) : 0 <= n < tb -> CHECK_SHIFT tb n = Ret tt.
Proof.
  intros Hn. unfold CHECK_SHIFT, shift_defined. by rewrite (proj2 (Z.leb_le 0 n)), (proj2 (Z.ltb_lt n tb)) by lia.
Qed.

Lemma CHECK_SHIFT_undefined (tb n : Z) : tb <= n -> CHECK_SHIFT tb n = Fault Undefined.
Proof.
  intros Hn. unfold CHECK_SHIFT, shift_defined. by rewrite (proj2 (Z.ltb_ge n tb)), andb_false_r by lia.
Qed.

(** Array accesses.  [ws .[ i ]] reads word [i]; the default 0 is never reached
    by the code, whose reads go through [rd]. *)
Notation "ws .[ i ]" := (nth i ws 0%Z) (at level 1, left associativity, format "ws .[ i ]").

Definition rd (ws : list Z) (i : nat) : res Z :=
  match ws !! i with Some x => Ret x | None => Fault OutOfBounds end.
Definition wr (ws : list Z) (i : nat) (x : Z) : res (list Z) :=
  if (i <? length ws)%nat then Ret (<[i := x]> ws) else Fault OutOfBounds.

(** [memcpy]/[memmove]/[memset] of whole words: read [n] words at [o]; overwrite
    the words at [o].  The [_s] variants of the code return [EOK] when the
    ranges are inside the buffers, which the [CHECK_FATAL] after each call
    tests. *)
Definition slice (src : list Z) (o n : nat) : res (list Z) :=
  if (o + n <=? length src)%nat then Ret (take n (drop o src)) else Fault OutOfBounds.
Definition blit (dst : list Z) (o : nat) (src : list Z) : res (list Z) :=
  if (o + length src <=? length dst)%nat
  then Ret (take o dst ++ src ++ drop (o + length src) dst) else Fault OutOfBounds.

(** Loops.  [for_up k i body s] runs the body at [i], ..., [i+k-1];
    [for_down k lo body s] at [lo+k-1], ..., [lo]; [while_up] is [for_up] that
    stops when the condition on the state fails. *)
Fixpoint for_up {S : Type} (k i : nat) (body : nat -> S -> res S) (s : S) : res S :=
  match k with
  | O => Ret s
  | Datatypes.S k' => s' ← body i s; for_up k' (Datatypes.S i) body s'
  end.

Fixpoint for_down {S : Type} (k lo : nat) (body : nat -> S -> res S) (s : S) : res S :=
  match k with
  | O => Ret s
  | Datatypes.S k' => s' ← body (lo + k')%nat s; for_down k' lo body s'
  end.

Fixpoint while_up {S : Type} (k i : nat) (cond : S -> bool) (body : nat -> S -> res S)
    (s : S) : res S :=
  match k with
  | O => Ret s
  | Datatypes.S k' =>
      if cond s then s' ← body i s; while_up k' (Datatypes.S i) cond body s' else Ret s
  end.

(** A general [while] loop with fuel. *)
Fixpoint while_fuel {S : Type} (fuel : nat) (cond : S -> bool) (body : S -> res S)
    (s : S) : res S :=
  if cond s then
    match fuel with
    | O => Fault OutOfFuel
    | Datatypes.S fuel' => s' ← body s; while_fuel fuel' cond body s'
    end
  else Ret s.

(** ** Total correctness: [wp m Q] says that [m] returns, and that what it
    returns satisfies [Q]. *)
Definition wp {A : Type} (m : res A) (Q : A -> Prop) : Prop :=
  match m with Ret a => Q a | Fault _ => False end.

Section WpRules.
Context {A B : Type}.
Implicit Types (m : res A) (Q : A -> Prop).

Lemma wp_ret (a : A) Q : Q a -> wp (Ret a) Q.
Proof. done. Qed.

Lemma wp_bind m (k : A -> res B) (Q : B -> Prop) :
  wp m (fun a => wp (k a) Q) -> wp (m ≫= k) Q.
Proof. by destruct m. Qed.

Lemma wp_mono m Q Q' : wp m Q -> (forall a, Q a -> Q' a) -> wp m Q'.
Proof. destruct m; simpl; auto. Qed.

Lemma wp_conj m Q Q' : wp m Q -> wp m Q' -> wp m (fun a => Q a /\ Q' a).
Proof. destruct m; simpl; auto. Qed.

Lemma wp_returns m Q : wp m Q -> exists a, m = Ret a /\ Q a.
Proof. destruct m as [a|]; simpl; [eauto | done]. Qed.

Lemma wp_eq m (a : A) : wp m (fun x => x = a) -> m = Ret a.
Proof. destruct m; simpl; [by intros -> | done]. Qed.

Lemma wp_from_eq m (a : A) Q : m = Ret a -> Q a -> wp m Q.
Proof. by intros ->. Qed.
End WpRules.

Lemma wp_assert (b : bool) (Q : unit -> Prop) : b = true -> Q tt -> wp (ASSERT b) Q.
Proof. by intros ->. Qed.

Lemma wp_check (b : bool) (Q : unit -> Prop) : b = true -> Q tt -> wp (CHECK_FATAL b) Q.
Proof. by intros ->. Qed.

Lemma wp_rd (ws : list Z) (i : nat) (Q : Z -> Prop) :
  (i < length ws)%nat -> Q ws.[i] -> wp (rd ws i) Q.
Proof.
  intros Hi HQ. unfold rd. destruct (lookup_lt_is_Some_2 ws i Hi) as [x Hx].
  rewrite Hx. by rewrite (nth_lookup_Some _ _ _ _ Hx) in HQ.
Qed.

Lemma wp_wr (ws : list Z) (i : nat) (x : Z) (Q : list Z -> Prop) :
  (i < length ws)%nat -> Q (<[i := x]> ws) -> wp (wr ws i x) Q.
Proof. intros Hi HQ. unfold wr. apply Nat.ltb_lt in Hi. by rewrite Hi. Qed.

Lemma wp_slice (src : list Z) (o n : nat) (Q : list Z -> Prop) :
  (o + n <= length src)%nat -> Q (take n (drop o src)) -> wp (slice src o n) Q.
Proof. intros H HQ. unfold slice. apply Nat.leb_le in H. by rewrite H. Qed.

Lemma wp_blit (dst : list Z) (o : nat) (src : list Z) (Q : list Z -> Prop) :
  (o + length src <= length dst)%nat ->
  Q (take o dst ++ src ++ drop (o + length src) dst) -> wp (blit dst o src) Q.
Proof. intros H HQ. unfold blit. apply Nat.leb_le in H. by rewrite H. Qed.

Section LoopRules.
Context {S : Type} (I : nat -> S -> Prop).

Lemma wp_for_up (k i : nat) (body : nat -> S -> res S) (s : S) :
  I i s ->
  (forall j t, (i <= j < i + k)%nat -> I j t -> wp (body j t) (I (Datatypes.S j))) ->
  wp (for_up k i body s) (I (i + k)%nat).
Proof.
  revert i s. induction k as [|k IH]; intros i s H0 Hstep; cbn [for_up].
  - by rewrite Nat.add_0_r.
  - apply wp_bind. eapply wp_mono; [apply Hstep; [lia|done]|].
    intros t Ht. replace (i + Datatypes.S k)%nat with (Datatypes.S i + k)%nat by lia.
    apply IH; [done|]. intros j u Hj. apply Hstep. lia.
Qed.

Lemma wp_for_down (k lo : nat) (body : nat -> S -> res S) (s : S) :
  I (lo + k)%nat s ->
  (forall j t, (lo <= j < lo + k)%nat -> I (Datatypes.S j) t -> wp (body j t) (I j)) ->
  wp (for_down k lo body s) (I lo).
Proof.
  revert s. induction k as [|k IH]; intros s H0 Hstep; cbn [for_down].
  - by rewrite Nat.add_0_r in H0.
  - apply wp_bind. eapply wp_mono.
    + apply Hstep; [lia|]. by replace (Datatypes.S (lo + k)) with (lo + Datatypes.S k)%nat by lia.
    + intros t Ht. apply IH; [done|]. intros j u Hj. apply Hstep. lia.
Qed.

Lemma wp_while_up (k i : nat) (cond : S -> bool) (body : nat -> S -> res S) (s : S) :
  I i s ->
  (forall j t, (i <= j < i + k)%nat -> I j t -> cond t = true ->
     wp (body j t) (I (Datatypes.S j))) ->
  wp (while_up k i cond body s)
    (fun t => exists j, (i <= j <= i + k)%nat /\ I j t /\ (j = (i + k)%nat \/ cond t = false)).
Proof.
  revert i s. induction k as [|k IH]; intros i s H0 Hstep; cbn [while_up].
  - exists i. rewrite Nat.add_0_r. auto.
  - destruct (cond s) eqn:Hc; [|exists i; split_and!; auto; lia].
    apply wp_bind. eapply wp_mono; [apply Hstep; [lia|done|done]|].
    intros t Ht. eapply wp_mono; [apply IH; [done|]|].
    + intros j u Hj. apply Hstep. lia.
    + intros u (j & Hj & HI & Hend). exists j. split_and!; [lia|lia|done|].
      destruct Hend; [left; lia|by right].
Qed.
End LoopRules.

Lemma wp_while_fuel {S : Type} (I : S -> Prop) (measure : S -> nat) (fuel : nat)
    (cond : S -> bool) (body : S -> res S) (s : S) :
  I s -> (measure s <= fuel)%nat ->
  (forall t, I t -> cond t = true ->
     wp (body t) (fun t' => I t' /\ (measure t' < measure t)%nat)) ->
  wp (while_fuel fuel cond body s) (fun t => I t /\ cond t = false).
Proof.
  revert s. induction fuel as [|fuel IH]; intros s HI Hf Hstep; cbn [while_fuel].
  - destruct (cond s) eqn:Hc; [|done].
    destruct (body s) eqn:Hb; pose proof (Hstep s HI Hc) as Hs; rewrite Hb in Hs;
      simpl in Hs; [lia|done].
  - destruct (cond s) eqn:Hc; [|done].
    apply wp_bind. eapply wp_mono; [by apply Hstep|].
    intros t [Ht Hm]. apply IH; [done|lia|done].
Qed.

(** One step of symbolic execution. *)
Ltac wp_step :=
  first
    [ apply wp_ret
    | apply wp_bind
    | apply wp_assert
    | apply wp_check
    | apply wp_rd
    | apply wp_wr
    | apply wp_slice
    | apply wp_blit ].

(** Case analysis on the comparisons of the goal. *)
Ltac bool_cases :=
  repeat match goal with
  | |- context [?a <=? ?b] => destruct (Z.leb_spec a b)
  | |- context [?a <? ?b] => destruct (Z.ltb_spec a b)
  | |- context [?a =? ?b] => destruct (Z.eqb_spec a b)
  | |- context [(?a <=? ?b)%nat] => destruct (Nat.leb_spec a b)
  | |- context [(?a <? ?b)%nat] => destruct (Nat.ltb_spec a b)
  | |- context [(?a =? ?b)%nat] => destruct (Nat.eqb_spec a b)
  end; cbn [andb orb negb]; try lia; try done.

(** ** Lemmas on words *)

Lemma pow2_pos (w : Z) : 0 <= w -> 0 < 2 ^ w.
Proof. intros. apply Z.pow_pos_nonneg; lia. Qed.

Lemma pow2_nz (w : Z) : 0 <= w -> 2 ^ w <> 0.
Proof. intros. pose proof (pow2_pos w). lia. Qed.

Lemma wrap_range (w x : Z) : 0 <= w -> 0 <= wrap w x < 2 ^ w.
Proof. intros. apply Z.mod_pos_bound, pow2_pos. done. Qed.

Lemma wrap_small (w x : Z) : 0 <= x < 2 ^ w -> wrap w x = x.
Proof. apply Z.mod_small. Qed.

Lemma wrap_wrap (w x : Z) : 0 <= w -> wrap w (wrap w x) = wrap w x.
Proof. intros. apply Z.mod_mod, pow2_nz. done. Qed.

Lemma wrap_wrap_le (w v x : Z) : 0 <= w <= v -> wrap w (wrap v x) = wrap w x.
Proof.
  intros. unfold wrap. replace v with (w + (v - w)) by lia.
  rewrite Z.pow_add_r by lia. rewrite Z.rem_mul_r; try apply pow2_nz; try apply pow2_pos; try lia.
  rewrite Z.mul_comm, Z.mod_add by (apply pow2_nz; lia).
  apply Z.mod_mod, pow2_nz. lia.
Qed.

Lemma wrap_add_l (w x y : Z) : wrap w (wrap w x + y) = wrap w (x + y).
Proof. unfold wrap. by rewrite Zplus_mod_idemp_l. Qed.
Lemma wrap_add_r (w x y : Z) : wrap w (x + wrap w y) = wrap w (x + y).
Proof. unfold wrap. by rewrite Zplus_mod_idemp_r. Qed.
Lemma wrap_sub_l (w x y : Z) : wrap w (wrap w x - y) = wrap w (x - y).
Proof. unfold wrap. by rewrite Zminus_mod_idemp_l. Qed.
Lemma wrap_sub_r (w x y : Z) : wrap w (x - wrap w y) = wrap w (x - y).
Proof. unfold wrap. by rewrite Zminus_mod_idemp_r. Qed.
Lemma wrap_mul_l (w x y : Z) : wrap w (wrap w x * y) = wrap w (x * y).
Proof. unfold wrap. by rewrite Zmult_mod_idemp_l. Qed.
Lemma wrap_mul_r (w x y : Z) : wrap w (x * wrap w y) = wrap w (x * y).
Proof. unfold wrap. by rewrite Zmult_mod_idemp_r. Qed.

(** The quotient that a reduction drops. *)
Lemma wrap_quot (w x : Z) : 0 <= w -> wrap w x = x - 2 ^ w * (x / 2 ^ w).
Proof. intros. unfold wrap. pose proof (Z.div_mod x (2 ^ w) (pow2_nz w H)). lia. Qed.

Lemma wrap_unique (w x r q : Z) : 0 <= r < 2 ^ w -> x = 2 ^ w * q + r -> wrap w x = r.
Proof. intros Hr ->. unfold wrap. symmetry. by apply (Z.mod_unique_pos _ _ q). Qed.

Lemma wrap_congr (w x y q : Z) : 0 <= w -> x = y + 2 ^ w * q -> wrap w x = wrap w y.
Proof.
  intros Hw ->. unfold wrap. rewrite Z.mul_comm. apply Z.mod_add, pow2_nz. done.
Qed.

(** ** Bits *)

Lemma testbit_wrap (w x i : Z) :
  0 <= w -> Z.testbit (wrap w x) i = (i <? w) && Z.testbit x i.
Proof.
  intros Hw. unfold wrap. destruct (Z.ltb_spec i w) as [Hi|Hi]; simpl.
  - by apply Z.mod_pow2_bits_low.
  - apply Z.mod_pow2_bits_high. lia.
Qed.

Lemma testbit_above (w x i : Z) : 0 <= x < 2 ^ w -> w <= i -> Z.testbit x i = false.
Proof.
  intros Hx Hi. destruct (decide (0 <= w)) as [Hw|Hw].
  - rewrite <- (wrap_small w x Hx), testbit_wrap by done.
    by destruct (Z.ltb_spec i w); [lia|].
  - rewrite Z.pow_neg_r in Hx by lia. lia.
Qed.

Lemma testbit_shiftl (x n i : Z) :
  0 <= i -> Z.testbit (Z.shiftl x n) i = Z.testbit x (i - n).
Proof. intros. by apply Z.shiftl_spec. Qed.

Lemma testbit_ones (n i : Z) :
  0 <= n -> Z.testbit (Z.ones n) i = (0 <=? i) && (i <? n).
Proof. intros. by apply Z.testbit_ones. Qed.

(** Bit extensionality for words. *)
Lemma bits_ext (x y : Z) :
  (forall i, 0 <= i -> Z.testbit x i = Z.testbit y i) -> x = y.
Proof. apply Z.bits_inj'. Qed.

Lemma in_word_bits (w x : Z) :
  0 <= w -> 0 <= x -> (forall i, w <= i -> Z.testbit x i = false) -> 0 <= x < 2 ^ w.
Proof.
  intros Hw Hx Hb. replace x with (wrap w x); [by apply wrap_range|].
  apply bits_ext. intros i Hi. rewrite testbit_wrap by done.
  destruct (Z.ltb_spec i w); simpl; [done|]. symmetry. by apply Hb.
Qed.

Lemma land_in_word (w x y : Z) : 0 <= w -> 0 <= x < 2 ^ w -> 0 <= y -> 0 <= Z.land x y < 2 ^ w.
Proof.
  intros Hw Hx Hy. apply in_word_bits; [done|apply Z.land_nonneg; lia|].
  intros i Hi. by rewrite Z.land_spec, (testbit_above w).
Qed.

Lemma lor_in_word (w x y : Z) :
  0 <= w -> 0 <= x < 2 ^ w -> 0 <= y < 2 ^ w -> 0 <= Z.lor x y < 2 ^ w.
Proof.
  intros Hw Hx Hy. apply in_word_bits; [done|apply Z.lor_nonneg; lia|].
  intros i Hi. by rewrite Z.lor_spec, !(testbit_above w).
Qed.

Lemma lxor_in_word (w x y : Z) :
  0 <= w -> 0 <= x < 2 ^ w -> 0 <= y < 2 ^ w -> 0 <= Z.lxor x y < 2 ^ w.
Proof.
  intros Hw Hx Hy. apply in_word_bits; [done|apply Z.lxor_nonneg; lia|].
  intros i Hi. by rewrite Z.lxor_spec, !(testbit_above w).
Qed.

Lemma shiftr_in_word (w x n : Z) : 0 <= n -> 0 <= x < 2 ^ w -> 0 <= Z.shiftr x n < 2 ^ w.
Proof.
  intros Hn Hx. rewrite Z.shiftr_div_pow2 by done. split.
  - apply Z.div_pos; [lia|by apply pow2_pos].
  - apply Z.div_lt_upper_bound; [by apply pow2_pos|].
    pose proof (pow2_pos n Hn). nia.
Qed.

Lemma land_ones_wrap (w x : Z) : 0 <= w -> Z.land x (Z.ones w) = wrap w x.
Proof. intros. by apply Z.land_ones. Qed.

(** [kAllOnes >> (tb - w)] is the mask of the low [w] bits. *)
Lemma shr_ones (tb w : Z) :
  0 < w <= tb -> shr tb (Z.ones tb) (tb - w) = Z.ones w.
Proof.
  intros Hw. unfold shr. rewrite Z.mod_small by lia. apply bits_ext. intros i Hi.
  rewrite Z.shiftr_spec, !testbit_ones by lia.
  destruct (Z.leb_spec 0 i), (Z.leb_spec 0 (i + (tb - w))),
    (Z.ltb_spec i w), (Z.ltb_spec (i + (tb - w)) tb); simpl; lia || done.
Qed.

Lemma notw_spec (w x : Z) : 0 <= w -> 0 <= x < 2 ^ w -> notw w x = 2 ^ w - 1 - x.
Proof.
  intros Hw Hx. unfold notw. apply (wrap_unique _ _ _ (-1)); [lia|].
  unfold Z.lnot. lia.
Qed.

(** Signed reading of a word. *)
Lemma swrap_range (w x : Z) : 0 < w -> - 2 ^ (w - 1) <= swrap w x < 2 ^ (w - 1).
Proof.
  intros Hw. unfold swrap. pose proof (wrap_range w x ltac:(lia)).
  assert (2 ^ w = 2 * 2 ^ (w - 1)) as Hp.
  { rewrite <- Z.pow_succ_r by lia. f_equal. lia. }
  destruct (Z.ltb_spec (wrap w x) (2 ^ (w - 1))); lia.
Qed.

Lemma swrap_congr (w x : Z) : 0 < w -> wrap w (swrap w x) = wrap w x.
Proof.
  intros Hw. unfold swrap. destruct (_ <? _).
  - apply wrap_wrap. lia.
  - rewrite (wrap_congr w _ (wrap w x) (-1)) by lia. apply wrap_wrap. lia.
Qed.

Lemma swrap_wrap (w x : Z) : 0 <= w -> swrap w (wrap w x) = swrap w x.
Proof. intros. unfold swrap. by rewrite wrap_wrap. Qed.

Lemma swrap_small (w x : Z) : 0 < w -> - 2 ^ (w - 1) <= x < 2 ^ (w - 1) -> swrap w x = x.
Proof.
  intros Hw Hx.
  assert (2 ^ w = 2 * 2 ^ (w - 1)) as Hp.
  { rewrite <- Z.pow_succ_r by lia. f_equal. lia. }
  unfold swrap. destruct (decide (0 <= x)).
  - rewrite wrap_small by lia. by destruct (Z.ltb_spec x (2 ^ (w - 1))); [|lia].
  - rewrite (wrap_unique w x (x + 2 ^ w) (-1)) by lia.
    destruct (Z.ltb_spec (x + 2 ^ w) (2 ^ (w - 1))); lia.
Qed.

Lemma pow2_half (w : Z) : 0 < w -> 2 ^ w = 2 * 2 ^ (w - 1).
Proof. intros. rewrite <- Z.pow_succ_r by lia. f_equal. lia. Qed.

(** The top bit of a word decides its sign. *)
Lemma testbit_top (w x : Z) :
  0 < w -> 0 <= x < 2 ^ w -> Z.testbit x (w - 1) = (2 ^ (w - 1) <=? x).
Proof.
  intros Hw Hx. rewrite (pow2_half w Hw) in Hx.
  destruct (Z.leb_spec (2 ^ (w - 1)) x).
  - rewrite Z.testbit_true by lia.
    rewrite <- (Z.div_unique x (2 ^ (w - 1)) 1 (x - 2 ^ (w - 1))); [done|left; lia|lia].
  - apply (testbit_above (w - 1)); lia.
Qed.

Lemma swrap_top (w x : Z) :
  0 < w -> 0 <= x < 2 ^ w ->
  swrap w x = if Z.testbit x (w - 1) then x - 2 ^ w else x.
Proof.
  intros Hw Hx. rewrite testbit_top by done. unfold swrap. rewrite wrap_small by done.
  destruct (Z.ltb_spec x (2 ^ (w - 1))), (Z.leb_spec (2 ^ (w - 1)) x); lia || done.
Qed.

(** ** Reading and updating word arrays *)

Lemma at_insert_eq (ws : list Z) (i : nat) (x : Z) :
  (i < length ws)%nat -> (<[i := x]> ws).[i] = x.
Proof. intros. apply nth_lookup_Some. by apply list_lookup_insert_eq. Qed.

Lemma at_insert_ne (ws : list Z) (i j : nat) (x : Z) : i <> j -> (<[i := x]> ws).[j] = ws.[j].
Proof. intros. rewrite !nth_lookup. by rewrite list_lookup_insert_ne. Qed.

Lemma at_replicate (k n : nat) (x : Z) : (k < n)%nat -> (replicate n x).[k] = x.
Proof. intros. apply nth_lookup_Some. by apply lookup_replicate_2. Qed.

Lemma at_over (ws : list Z) (i : nat) : (length ws <= i)%nat -> ws.[i] = 0.
Proof. intros. by apply nth_overflow. Qed.

Lemma at_lookup (ws : list Z) (i : nat) : (i < length ws)%nat -> ws !! i = Some ws.[i].
Proof.
  intros Hi. destruct (lookup_lt_is_Some_2 ws i Hi) as [x Hx].
  by rewrite Hx, (nth_lookup_Some _ _ _ _ Hx).
Qed.

Lemma at_ext (us vs : list Z) :
  length us = length vs -> (forall i, (i < length us)%nat -> us.[i] = vs.[i]) -> us = vs.
Proof.
  intros Hl H. apply list_eq. intros i. destruct (decide (i < length us)%nat).
  - rewrite !at_lookup by lia. f_equal. by apply H.
  - by rewrite !lookup_ge_None_2 by lia.
Qed.

(** ** Multi-word integers: little-endian lists of [tb]-bit words *)

Fixpoint eval (tb : Z) (ws : list Z) : Z :=
  match ws with [] => 0 | w :: t => w + 2 ^ tb * eval tb t end.

Definition words (tb : Z) (ws : list Z) : Prop := Forall (fun w => 0 <= w < 2 ^ tb) ws.

Section Limbs.
Context (tb : Z) (Htb : 0 < tb).
Implicit Types ws us vs : list Z.

Lemma pow_limb (n : nat) : 2 ^ (tb * Z.of_nat (S n)) = 2 ^ tb * 2 ^ (tb * Z.of_nat n).
Proof. rewrite <- Z.pow_add_r by nia. f_equal. nia. Qed.

Lemma eval_app us vs :
  eval tb (us ++ vs) = eval tb us + 2 ^ (tb * Z.of_nat (length us)) * eval tb vs.
Proof.
  induction us as [|u us IH]; [rewrite Z.mul_0_r; simpl; lia|].
  change (length (u :: us)) with (S (length us)). rewrite pow_limb. simpl.
  rewrite IH. ring.
Qed.

Lemma eval_range ws : words tb ws -> 0 <= eval tb ws < 2 ^ (tb * Z.of_nat (length ws)).
Proof.
  induction 1 as [|w ws Hw Hws IH].
  { change (Z.of_nat (length (@nil Z))) with 0. rewrite Z.mul_0_r. simpl. lia. }
  change (length (w :: ws)) with (S (length ws)). rewrite pow_limb. simpl. nia.
Qed.

Lemma eval_insert ws (i : nat) (x : Z) :
  (i < length ws)%nat ->
  eval tb (<[i := x]> ws) = eval tb ws + (x - ws.[i]) * 2 ^ (tb * Z.of_nat i).
Proof.
  revert i. induction ws as [|w ws IH]; intros i Hi; [simpl in Hi; lia|].
  destruct i as [|i]; [change (Z.of_nat 0) with 0; rewrite Z.mul_0_r; cbn; ring|].
  cbn [length] in Hi. rewrite pow_limb. cbn -[Z.pow Z.mul Z.of_nat].
  rewrite IH by lia. ring.
Qed.

Lemma words_insert ws (i : nat) (x : Z) :
  words tb ws -> 0 <= x < 2 ^ tb -> words tb (<[i := x]> ws).
Proof. intros. by apply Forall_insert. Qed.

Lemma words_lookup ws (i : nat) :
  words tb ws -> 0 <= ws.[i] < 2 ^ tb.
Proof.
  intros Hws. destruct (decide (i < length ws)%nat) as [Hi|Hi].
  - exact (Forall_lookup_1 _ _ _ _ Hws (at_lookup ws i Hi)).
  - rewrite at_over by lia. pose proof (pow2_pos tb). lia.
Qed.

Lemma eval_replicate_0 (n : nat) : eval tb (replicate n 0) = 0.
Proof. induction n as [|n IH]; simpl; [done|]. rewrite IH. lia. Qed.

Lemma words_replicate (n : nat) (x : Z) : 0 <= x < 2 ^ tb -> words tb (replicate n x).
Proof. intros. by apply Forall_replicate. Qed.

(** Two word lists of the same length and value are equal. *)
Lemma eval_inj us vs :
  words tb us -> words tb vs -> length us = length vs -> eval tb us = eval tb vs -> us = vs.
Proof.
  intros Hu. revert vs. induction Hu as [|u us Hu Hus IH]; intros vs Hv Hl He.
  { by destruct vs. }
  destruct vs as [|v vs]; [done|]. apply Forall_cons in Hv as [Hv Hvs].
  simpl in He, Hl.
  assert (eval tb us = eval tb vs) as He'.
  { rewrite (Z.div_unique_pos (u + 2 ^ tb * eval tb us) (2 ^ tb) (eval tb us) u) by lia.
    rewrite He. symmetry. by apply (Z.div_unique_pos _ _ _ v); lia. }
  rewrite He' in He. assert (u = v) as -> by lia.
  f_equal. apply IH; [done|lia|done].
Qed.

Lemma eval_ge0 ws : words tb ws -> 0 <= eval tb ws.
Proof. intros H. apply (eval_range ws H). Qed.

Lemma eval_take_S ws (i : nat) :
  (i < length ws)%nat ->
  eval tb (take (S i) ws) = eval tb (take i ws) + ws.[i] * 2 ^ (tb * Z.of_nat i).
Proof.
  intros Hi. rewrite (take_S_r _ _ _ (at_lookup ws i Hi)), eval_app.
  rewrite length_take_le by lia. simpl. ring.
Qed.

Lemma eval_take_drop ws (i : nat) :
  (i <= length ws)%nat ->
  eval tb ws = eval tb (take i ws) + 2 ^ (tb * Z.of_nat i) * eval tb (drop i ws).
Proof.
  intros Hi. rewrite <- (take_drop i ws) at 1. rewrite eval_app.
  by rewrite length_take_le.
Qed.

(** Bit [i] of a multi-word integer is bit [i mod tb] of word [i / tb]. *)
Lemma testbit_eval ws (i : Z) :
  words tb ws -> 0 <= i ->
  Z.testbit (eval tb ws) i = Z.testbit ws.[Z.to_nat (i / tb)] (i mod tb).
Proof.
  intros Hws. revert i. induction Hws as [|w ws Hw Hws IH]; intros i Hi.
  { rewrite at_over by (simpl; lia). by rewrite !Z.testbit_0_l. }
  cbn [eval]. destruct (decide (i < tb)) as [Hlt|Hge].
  - rewrite Z.div_small, Z.mod_small by lia. change (w :: ws).[Z.to_nat 0] with w.
    rewrite <- (Z.mod_pow2_bits_low _ tb) by lia.
    rewrite Z.mul_comm, Z.mod_add by (apply pow2_nz; lia).
    by rewrite Z.mod_small.
  - assert (i / tb = 1 + (i - tb) / tb) as ->.
    { rewrite <- (Z.div_add_l 1 tb) by lia. f_equal. lia. }
    assert (0 <= (i - tb) / tb) by (apply Z.div_pos; lia).
    replace (Z.to_nat (1 + (i - tb) / tb)) with (S (Z.to_nat ((i - tb) / tb))) by lia.
    cbn [nth].
    assert (i mod tb = (i - tb) mod tb) as ->.
    { rewrite <- (Z.mod_add (i - tb) 1 tb) by lia. f_equal. lia. }
    rewrite <- IH by lia.
    replace i with ((i - tb) + tb) at 1 by lia.
    rewrite <- Z.div_pow2_bits by lia.
    rewrite Z.mul_comm, Z.div_add, Z.div_small by (try apply pow2_nz; lia).
    done.
Qed.
End Limbs.
