(* ===== verification/PrimTypes.v ===== *)
(** * Primitive types of Maple IR

    maple_ir/include/prim_types.def (the enumeration and the property table),
    cfg_primitive_types.h (the getters with their overloads for u32/u64),
    mir_type.h and mir_type.cpp (classification, sizes, signed/unsigned
    versions, conversions that need no code).  The build defines DYNAMICLANG,
    so the dynamic types are part of the enumeration. *)
From S2P Require Import Prelude.

Inductive PrimType : Set :=
  | PTY_begin
  | PTY_void
  | PTY_i8
  | PTY_i16
  | PTY_i32
  | PTY_i64
  | PTY_i128
  | PTY_u8
  | PTY_u16
  | PTY_u32
  | PTY_u64
  | PTY_u128
  | PTY_u1
  | PTY_ptr
  | PTY_ref
  | PTY_a32
  | PTY_a64
  | PTY_f32
  | PTY_f64
  | PTY_f128
  | PTY_c64
  | PTY_c128
  | PTY_simplestr
  | PTY_simpleobj
  | PTY_dynany
  | PTY_dynundef
  | PTY_dynnull
  | PTY_dynbool
  | PTY_dyni32
  | PTY_dynstr
  | PTY_dynobj
  | PTY_dynf64
  | PTY_dynf32
  | PTY_dynnone
  | PTY_constStr
  | PTY_gen
  | PTY_agg
  | PTY_v2i64
  | PTY_v4i32
  | PTY_v8i16
  | PTY_v16i8
  | PTY_v2u64
  | PTY_v4u32
  | PTY_v8u16
  | PTY_v16u8
  | PTY_v2f64
  | PTY_v4f32
  | PTY_v2i32
  | PTY_v4i16
  | PTY_v8i8
  | PTY_v2u32
  | PTY_v4u16
  | PTY_v8u8
  | PTY_v2f32
  | PTY_v1i64
  | PTY_v1u64
  | PTY_reservedpty1
  | PTY_reservedpty2
  | PTY_reservedpty3
  | PTY_reservedpty4
  | PTY_reservedpty5
  | PTY_reservedpty6
  | PTY_reservedpty7
  | PTY_reservedpty8
  | PTY_reservedpty9
  | PTY_reservedpty10
  | PTY_unknown
  | PTY_end.

#[export] Instance PrimType_eq_dec : EqDecision PrimType.
Proof. solve_decision. Defined.

Definition pty_eqb (a b : PrimType) : bool := bool_decide (a = b).

(** Every constructor, in the order of the enumeration. *)
Definition all_PrimType : list PrimType :=
  [ PTY_begin; PTY_void; PTY_i8; PTY_i16; PTY_i32; PTY_i64;
    PTY_i128; PTY_u8; PTY_u16; PTY_u32; PTY_u64; PTY_u128;
    PTY_u1; PTY_ptr; PTY_ref; PTY_a32; PTY_a64; PTY_f32;
    PTY_f64; PTY_f128; PTY_c64; PTY_c128; PTY_simplestr; PTY_simpleobj;
    PTY_dynany; PTY_dynundef; PTY_dynnull; PTY_dynbool; PTY_dyni32; PTY_dynstr;
    PTY_dynobj; PTY_dynf64; PTY_dynf32; PTY_dynnone; PTY_constStr; PTY_gen;
    PTY_agg; PTY_v2i64; PTY_v4i32; PTY_v8i16; PTY_v16i8; PTY_v2u64;
    PTY_v4u32; PTY_v8u16; PTY_v16u8; PTY_v2f64; PTY_v4f32; PTY_v2i32;
    PTY_v4i16; PTY_v8i8; PTY_v2u32; PTY_v4u16; PTY_v8u8; PTY_v2f32;
    PTY_v1i64; PTY_v1u64; PTY_reservedpty1; PTY_reservedpty2; PTY_reservedpty3; PTY_reservedpty4;
    PTY_reservedpty5; PTY_reservedpty6; PTY_reservedpty7; PTY_reservedpty8; PTY_reservedpty9; PTY_reservedpty10;
    PTY_unknown; PTY_end ].

(** ** The target: the size of a pointer is the only thing the types depend on
    ([Triple::kGnuIlp32] or not; the 32-bit targets behave like ilp32). *)
Class Target : Set := is_ilp32 : bool.

Definition GetPointerSize `{Target} : Z := if is_ilp32 then 4 else 8.
Definition GetP2Size `{Target} : Z := if is_ilp32 then 2 else 3.
Definition GetLoweredPtrType `{Target} : PrimType := if is_ilp32 then PTY_a32 else PTY_a64.
Definition GetExactPtrPrimType `{Target} : PrimType :=
  if GetPointerSize =? 8 then PTY_a64 else PTY_a32.

Record PrimitiveTypeProperty : Set := PTProperty {
  type : PrimType;
  isInteger : bool;
  isUnsigned : bool;
  isAddress : bool;
  isFloat : bool;
  isPointer : bool;
  isSimple : bool;
  isDynamic : bool;
  isDynamicAny : bool;
  isDynamicNone : bool;
  isVector : bool
}.

Definition GetPrimitiveTypeProperty (pType : PrimType) : PrimitiveTypeProperty :=
  match pType with
  | PTY_begin => PTProperty PTY_begin false false false false false false false false false false
  | PTY_void => PTProperty PTY_void false false false false false false false false false false
  | PTY_i8 => PTProperty PTY_i8 true false false false false false false false false false
  | PTY_i16 => PTProperty PTY_i16 true false false false false false false false false false
  | PTY_i32 => PTProperty PTY_i32 true false false false false false false false false false
  | PTY_i64 => PTProperty PTY_i64 true false false false false false false false false false
  | PTY_i128 => PTProperty PTY_i128 true false false false false false false false false false
  | PTY_u8 => PTProperty PTY_u8 true true false false false false false false false false
  | PTY_u16 => PTProperty PTY_u16 true true false false false false false false false false
  | PTY_u32 => PTProperty PTY_u32 true true false false false false false false false false
  | PTY_u64 => PTProperty PTY_u64 true true true false true false false false false false
  | PTY_u128 => PTProperty PTY_u128 true true false false false false false false false false
  | PTY_u1 => PTProperty PTY_u1 true true false false false false false false false false
  | PTY_ptr => PTProperty PTY_ptr true true true false true false false false false false
  | PTY_ref => PTProperty PTY_ref true true true false true false false false false false
  | PTY_a32 => PTProperty PTY_a32 true true true false true false false false false false
  | PTY_a64 => PTProperty PTY_a64 true true true false true false false false false false
  | PTY_f32 => PTProperty PTY_f32 false false false true false false false false false false
  | PTY_f64 => PTProperty PTY_f64 false false false true false false false false false false
  | PTY_f128 => PTProperty PTY_f128 false false false true false false false false false false
  | PTY_c64 => PTProperty PTY_c64 false false false false false false false false false false
  | PTY_c128 => PTProperty PTY_c128 false false false false false false false false false false
  | PTY_simplestr => PTProperty PTY_simplestr false false true false false true false false false false
  | PTY_simpleobj => PTProperty PTY_simpleobj false false true false false true false false false false
  | PTY_dynany => PTProperty PTY_dynany false false false false false false true true false false
  | PTY_dynundef => PTProperty PTY_dynundef false false false false false false true false false false
  | PTY_dynnull => PTProperty PTY_dynnull false false false false false false true false false false
  | PTY_dynbool => PTProperty PTY_dynbool true false false false false false true false false false
  | PTY_dyni32 => PTProperty PTY_dyni32 true false false false false false true false false false
  | PTY_dynstr => PTProperty PTY_dynstr false false false false false false true false false false
  | PTY_dynobj => PTProperty PTY_dynobj false false false false false false true false false false
  | PTY_dynf64 => PTProperty PTY_dynf64 false false false true false false true false false false
  | PTY_dynf32 => PTProperty PTY_dynf32 false false false true false false true false false false
  | PTY_dynnone => PTProperty PTY_dynnone false false false false false false true false true false
  | PTY_constStr => PTProperty PTY_constStr false false false false true false false false false false
  | PTY_gen => PTProperty PTY_gen false false false false false false false false false false
  | PTY_agg => PTProperty PTY_agg false false false false false false false false false false
  | PTY_v2i64 => PTProperty PTY_v2i64 true false false false false false false false false true
  | PTY_v4i32 => PTProperty PTY_v4i32 true false false false false false false false false true
  | PTY_v8i16 => PTProperty PTY_v8i16 true false false false false false false false false true
  | PTY_v16i8 => PTProperty PTY_v16i8 true false false false false false false false false true
  | PTY_v2u64 => PTProperty PTY_v2u64 true true false false false false false false false true
  | PTY_v4u32 => PTProperty PTY_v4u32 true true false false false false false false false true
  | PTY_v8u16 => PTProperty PTY_v8u16 true true false false false false false false false true
  | PTY_v16u8 => PTProperty PTY_v16u8 true true false false false false false false false true
  | PTY_v2f64 => PTProperty PTY_v2f64 false false false true false false false false false true
  | PTY_v4f32 => PTProperty PTY_v4f32 false false false true false false false false false true
  | PTY_v2i32 => PTProperty PTY_v2i32 true false false false false false false false false true
  | PTY_v4i16 => PTProperty PTY_v4i16 true false false false false false false false false true
  | PTY_v8i8 => PTProperty PTY_v8i8 true false false false false false false false false true
  | PTY_v2u32 => PTProperty PTY_v2u32 true true false false false false false false false true
  | PTY_v4u16 => PTProperty PTY_v4u16 true true false false false false false false false true
  | PTY_v8u8 => PTProperty PTY_v8u8 true true false false false false false false false true
  | PTY_v2f32 => PTProperty PTY_v2f32 false false false true false false false false false true
  | PTY_v1i64 => PTProperty PTY_v1i64 true false false false false false false false false true
  | PTY_v1u64 => PTProperty PTY_v1u64 true true false false false false false false false true
  | PTY_reservedpty1 => PTProperty PTY_reservedpty1 false false false false false false false false false false
  | PTY_reservedpty2 => PTProperty PTY_reservedpty2 false false false false false false false false false false
  | PTY_reservedpty3 => PTProperty PTY_reservedpty3 false false false false false false false false false false
  | PTY_reservedpty4 => PTProperty PTY_reservedpty4 false false false false false false false false false false
  | PTY_reservedpty5 => PTProperty PTY_reservedpty5 false false false false false false false false false false
  | PTY_reservedpty6 => PTProperty PTY_reservedpty6 false false false false false false false false false false
  | PTY_reservedpty7 => PTProperty PTY_reservedpty7 false false false false false false false false false false
  | PTY_reservedpty8 => PTProperty PTY_reservedpty8 false false false false false false false false false false
  | PTY_reservedpty9 => PTProperty PTY_reservedpty9 false false false false false false false false false false
  | PTY_reservedpty10 => PTProperty PTY_reservedpty10 false false false false false false false false false false
  | PTY_unknown => PTProperty PTY_unknown false false false false false false false false false false
  | PTY_end => PTProperty PTY_end false false false false false false false false false true
  end.

(** ** Classification *)
Section Classification.
Context `{Target}.
Implicit Types primType pty : PrimType.

Definition IsAddress primType : bool :=
  if pty_eqb primType PTY_u64 || pty_eqb primType PTY_u32 then
    (pty_eqb primType PTY_u64 && (GetPointerSize =? 8))
    || (pty_eqb primType PTY_u32 && (GetPointerSize =? 4))
  else isAddress (GetPrimitiveTypeProperty primType).

Definition IsPrimitivePoint primType : bool :=
  if pty_eqb primType PTY_u64 || pty_eqb primType PTY_u32 then
    (pty_eqb primType PTY_u64 && (GetPointerSize =? 8))
    || (pty_eqb primType PTY_u32 && (GetPointerSize =? 4))
  else isPointer (GetPrimitiveTypeProperty primType).

Definition IsPossible64BitAddress tp : bool :=
  pty_eqb tp PTY_ptr || pty_eqb tp PTY_ref || pty_eqb tp PTY_u64 || pty_eqb tp PTY_a64.
Definition IsPossible32BitAddress tp : bool :=
  pty_eqb tp PTY_ptr || pty_eqb tp PTY_ref || pty_eqb tp PTY_u32 || pty_eqb tp PTY_a32.
Definition MustBeAddress tp : bool :=
  pty_eqb tp PTY_ptr || pty_eqb tp PTY_ref || pty_eqb tp PTY_a64 || pty_eqb tp PTY_a32.
Definition IsInt128Ty tp : bool := pty_eqb tp PTY_u128 || pty_eqb tp PTY_i128.

Definition IsPrimitivePureScalar primType : bool :=
  let p := GetPrimitiveTypeProperty primType in
  isInteger p && negb (IsAddress primType) && negb (isDynamic p) && negb (isVector p).

Definition IsPrimitiveUnsigned primType : bool :=
  isUnsigned (GetPrimitiveTypeProperty primType).

Definition IsUnsignedInteger primType : bool :=
  let p := GetPrimitiveTypeProperty primType in
  IsPrimitiveUnsigned primType && isInteger p && negb (isDynamic p).

Definition IsSignedInteger primType : bool :=
  let p := GetPrimitiveTypeProperty primType in
  negb (isUnsigned p) && isInteger p && negb (isDynamic p).

Definition IsPrimitiveInteger primType : bool :=
  let p := GetPrimitiveTypeProperty primType in
  isInteger p && negb (isDynamic p) && negb (isVector p).

Definition IsPrimitiveDynType primType : bool :=
  isDynamic (GetPrimitiveTypeProperty primType).
Definition IsPrimitiveDynInteger primType : bool :=
  let p := GetPrimitiveTypeProperty primType in isDynamic p && isInteger p.
Definition IsPrimitiveDynFloat primType : bool :=
  let p := GetPrimitiveTypeProperty primType in isDynamic p && isFloat p.
Definition IsPrimitiveFloat primType : bool :=
  let p := GetPrimitiveTypeProperty primType in
  isFloat p && negb (isDynamic p) && negb (isVector p).
Definition IsPrimitiveScalar primType : bool :=
  let p := GetPrimitiveTypeProperty primType in
  isInteger p || isFloat p || (isDynamic p && negb (isDynamicNone p)) || isSimple p.
Definition IsPrimitiveValid primType : bool :=
  IsPrimitiveScalar primType && negb (isDynamicAny (GetPrimitiveTypeProperty primType)).
Definition IsPrimitiveVector primType : bool :=
  isVector (GetPrimitiveTypeProperty primType).
Definition IsPrimitiveVectorFloat primType : bool :=
  let p := GetPrimitiveTypeProperty primType in isVector p && isFloat p.
Definition IsPrimitiveVectorInteger primType : bool :=
  let p := GetPrimitiveTypeProperty primType in isVector p && isInteger p.
Definition IsPrimitiveUnSignedVector primType : bool :=
  let p := GetPrimitiveTypeProperty primType in isUnsigned p && isVector p.
End Classification.

(** ** Related types *)

Definition GetRegPrimType (primType : PrimType) : PrimType :=
  match primType with
  | PTY_i8 | PTY_i16 => PTY_i32
  | PTY_u1 | PTY_u8 | PTY_u16 => PTY_u32
  | _ => primType
  end.

Definition GetReg64PrimType (primType : PrimType) : PrimType :=
  match primType with
  | PTY_i8 | PTY_i16 | PTY_i32 => PTY_i64
  | PTY_u1 | PTY_u8 | PTY_u16 | PTY_u32 => PTY_u64
  | _ => primType
  end.

Definition VerifyPrimType (primType1 primType2 : PrimType) : bool :=
  match primType1 with
  | PTY_u1 | PTY_u8 | PTY_u16 | PTY_u32 | PTY_a32 => IsUnsignedInteger primType2
  | PTY_i8 | PTY_i16 | PTY_i32 => IsSignedInteger primType2
  | _ => pty_eqb primType1 primType2
  end.

Definition GetDynType (primType : PrimType) : PrimType :=
  match primType with
  | PTY_u1 => PTY_dynbool
  | PTY_i32 => PTY_dyni32
  | PTY_simplestr => PTY_dynstr
  | PTY_simpleobj => PTY_dynobj
  | PTY_f32 => PTY_dynf32
  | PTY_f64 => PTY_dynf64
  | _ => primType
  end.

Definition GetNonDynType (primType : PrimType) : PrimType :=
  match primType with
  | PTY_dynbool => PTY_u1
  | PTY_dyni32 => PTY_i32
  | PTY_dynstr => PTY_simplestr
  | PTY_dynobj => PTY_simpleobj
  | PTY_dynf32 => PTY_f32
  | PTY_dynf64 => PTY_f64
  | _ => primType
  end.

Definition GetIntegerPrimTypeBySizeAndSign (sizeBit : Z) (isSign : bool) : PrimType :=
  if sizeBit =? 1 then (if isSign then PTY_begin else PTY_u1)
  else if sizeBit =? 8 then (if isSign then PTY_i8 else PTY_u8)
  else if sizeBit =? 16 then (if isSign then PTY_i16 else PTY_u16)
  else if sizeBit =? 32 then (if isSign then PTY_i32 else PTY_u32)
  else if sizeBit =? 64 then (if isSign then PTY_i64 else PTY_u64)
  else PTY_begin.

Definition IsNoCvtNeeded (toType fromType : PrimType) : bool :=
  if pty_eqb toType fromType then true
  else match toType with
  | PTY_i32 => pty_eqb fromType PTY_i16 || pty_eqb fromType PTY_i8
  | PTY_u32 => pty_eqb fromType PTY_u16 || pty_eqb fromType PTY_u8
  | PTY_u1 | PTY_u8 | PTY_u16 => pty_eqb fromType PTY_u32
  | PTY_i8 | PTY_i16 => pty_eqb fromType PTY_i32
  | PTY_i64 | PTY_u64 | PTY_a64 | PTY_ptr =>
      pty_eqb fromType PTY_ptr || pty_eqb fromType PTY_u64
      || pty_eqb fromType PTY_a64 || pty_eqb fromType PTY_i64
  | _ => false
  end.

Definition GetSignedPrimType (pty : PrimType) : PrimType :=
  match pty with
  | PTY_ptr | PTY_ref | PTY_a64 | PTY_u64 => PTY_i64
  | PTY_u8 => PTY_i8
  | PTY_u16 => PTY_i16
  | PTY_a32 | PTY_u32 => PTY_i32
  | _ => pty
  end.

Definition GetUnsignedPrimType (pty : PrimType) : PrimType :=
  match pty with
  | PTY_i64 => PTY_u64
  | PTY_i8 => PTY_u8
  | PTY_i16 => PTY_u16
  | PTY_i32 => PTY_u32
  | _ => pty
  end.

Definition MinValOfSignedInteger (primType : PrimType) : res Z :=
  match primType with
  | PTY_i8 => Ret (- 2 ^ 7)
  | PTY_i16 => Ret (- 2 ^ 15)
  | PTY_i32 => Ret (- 2 ^ 31)
  | PTY_i64 => Ret (- 2 ^ 63)
  | _ => Fault CheckFatal
  end.

(** ** Sizes *)
Section Sizes.
Context `{Target}.

Definition GetPrimTypeSize (primType : PrimType) : Z :=
  match primType with
  | PTY_void | PTY_agg => 0
  | PTY_ptr | PTY_ref => GetPointerSize
  | PTY_u1 | PTY_i8 | PTY_u8 => 1
  | PTY_i16 | PTY_u16 => 2
  | PTY_a32 | PTY_f32 | PTY_i32 | PTY_u32 | PTY_simplestr | PTY_simpleobj => 4
  | PTY_a64 | PTY_c64 | PTY_f64 | PTY_i64 | PTY_u64
  | PTY_v2i32 | PTY_v4i16 | PTY_v8i8 | PTY_v2u32 | PTY_v4u16 | PTY_v8u8 | PTY_v2f32
  | PTY_v1i64 | PTY_v1u64 => 8
  | PTY_u128 | PTY_i128 | PTY_c128 | PTY_f128
  | PTY_v2i64 | PTY_v4i32 | PTY_v8i16 | PTY_v16i8
  | PTY_v2u64 | PTY_v4u32 | PTY_v8u16 | PTY_v16u8 | PTY_v2f64 | PTY_v4f32 => 16
  | PTY_dynf32 | PTY_dyni32 | PTY_dynstr | PTY_dynobj | PTY_dynundef
  | PTY_dynnull | PTY_dynbool => 8
  | PTY_dynany | PTY_dynf64 => 8
  | _ => 0
  end.

(** The answer is [n] when the size is [2^n] bytes; the default branch
    asserts. *)
Definition GetPrimTypeP2Size (primType : PrimType) : res Z :=
  match primType with
  | PTY_ptr | PTY_ref => Ret GetP2Size
  | PTY_u1 | PTY_i8 | PTY_u8 => Ret 0
  | PTY_i16 | PTY_u16 => Ret 1
  | PTY_a32 | PTY_f32 | PTY_i32 | PTY_u32 | PTY_simplestr | PTY_simpleobj => Ret 2
  | PTY_a64 | PTY_c64 | PTY_f64 | PTY_i64 | PTY_u64
  | PTY_v2i32 | PTY_v4i16 | PTY_v8i8 | PTY_v2u32 | PTY_v4u16 | PTY_v8u8 | PTY_v2f32 =>
      Ret 3
  | PTY_c128 | PTY_f128
  | PTY_v2i64 | PTY_v4i32 | PTY_v8i16 | PTY_v16i8
  | PTY_v2u64 | PTY_v4u32 | PTY_v8u16 | PTY_v16u8 | PTY_v2f64 | PTY_v4f32 => Ret 4
  | PTY_dynf32 | PTY_dyni32 | PTY_dynstr | PTY_dynobj | PTY_dynundef
  | PTY_dynnull | PTY_dynbool | PTY_dynany | PTY_dynf64 => Ret 3
  | _ => Fault AssertFail
  end.

Definition NeedCvtOrRetype (origin compared : PrimType) : bool :=
  negb (GetPrimTypeSize origin =? GetPrimTypeSize compared)
  || negb (eqb (IsSignedInteger origin) (IsSignedInteger compared)).

Definition GetPrimTypeBitSize (primType : PrimType) : Z :=
  Z.shiftl (GetPrimTypeSize primType) 3.

Definition GetAlignedPrimTypeBitSize (primType : PrimType) : Z :=
  let size := GetPrimTypeBitSize primType in if size <=? 32 then 32 else 64.

Definition GetPrimTypeActualBitSize (primType : PrimType) : Z :=
  if pty_eqb primType PTY_u1 then 1 else Z.shiftl (GetPrimTypeSize primType) 3.
End Sizes.

(** ** Vectors: element size in bits, number of lanes, element type *)

Definition GetVecEleSize (primType : PrimType) : res Z :=
  match primType with
  | PTY_v2i64 | PTY_v2u64 | PTY_v2f64 | PTY_v1i64 | PTY_v1u64 | PTY_i64 | PTY_u64 => Ret 64
  | PTY_v2i32 | PTY_v2u32 | PTY_v2f32 | PTY_v4i32 | PTY_v4u32 | PTY_v4f32 => Ret 32
  | PTY_v4i16 | PTY_v4u16 | PTY_v8i16 | PTY_v8u16 => Ret 16
  | PTY_v8i8 | PTY_v8u8 | PTY_v16i8 | PTY_v16u8 => Ret 8
  | PTY_f64 => Ret 0
  | _ => Fault CheckFatal
  end.

Definition GetVecLanes (primType : PrimType) : Z :=
  match primType with
  | PTY_v2i32 | PTY_v2u32 | PTY_v2f32 | PTY_v2i64 | PTY_v2u64 | PTY_v2f64 => 2
  | PTY_v4i16 | PTY_v4u16 | PTY_v4i32 | PTY_v4u32 | PTY_v4f32 => 4
  | PTY_v8i8 | PTY_v8u8 | PTY_v8i16 | PTY_v8u16 => 8
  | PTY_v16i8 | PTY_v16u8 | PTY_f128 => 16
  | PTY_v1i64 | PTY_v1u64 => 1
  | _ => 0
  end.

Definition GetVecElemPrimType (primType : PrimType) : PrimType :=
  match primType with
  | PTY_v2i32 | PTY_v4i32 => PTY_i32
  | PTY_v2u32 | PTY_v4u32 => PTY_u32
  | PTY_v2i64 => PTY_i64
  | PTY_v2u64 => PTY_u64
  | PTY_v16i8 | PTY_v8i8 => PTY_i8
  | PTY_v16u8 | PTY_v8u8 => PTY_u8
  | PTY_v8i16 | PTY_v4i16 => PTY_i16
  | PTY_v8u16 | PTY_v4u16 => PTY_u16
  | PTY_v2f32 | PTY_v4f32 => PTY_f32
  | PTY_v2f64 => PTY_f64
  | _ => PTY_begin
  end.

(** ** Theorems *)

Lemma all_PrimType_complete (t : PrimType) : In t all_PrimType.
Proof. destruct t; vm_compute; tauto. Qed.

(** A boolean test that holds of every constructor holds of every type. *)
Lemma PrimType_forallb (P : PrimType -> bool) :
  forallb P all_PrimType = true -> forall t, P t = true.
Proof.
  intros HP t. rewrite forallb_forall in HP. apply HP, all_PrimType_complete.
Qed.

Ltac prim_cases := intros; repeat match goal with t : PrimType |- _ => destruct t end;
  repeat match goal with t : Target |- _ => destruct t end; vm_compute in *; try done.

(** Integer types (scalar, not dynamic) have one of six widths, and signedness
    is decided. *)
Lemma integer_width `{Target} (t : PrimType) :
  IsPrimitiveInteger t = true ->
  In (GetPrimTypeActualBitSize t) [1; 8; 16; 32; 64; 128].
Proof.
  intros Ht. destruct t; try discriminate Ht; destruct H; vm_compute; tauto.
Qed.

Lemma integer_signedness `{Target} (t : PrimType) :
  IsPrimitiveInteger t = true -> IsUnsignedInteger t = negb (IsSignedInteger t).
Proof. intros Ht. destruct t; try discriminate Ht; reflexivity. Qed.

(** The size tables agree, as one decidable check. *)
Definition sizes_agree `{Target} (t : PrimType) : bool :=
  match GetPrimTypeP2Size t with
  | Ret n => 2 ^ n =? GetPrimTypeSize t
  | Fault _ => (GetPrimTypeSize t =? 0) || IsInt128Ty t || pty_eqb t PTY_v1i64 || pty_eqb t PTY_v1u64
  end
  && (if IsPrimitiveVector t && negb (pty_eqb t PTY_end) then
        match GetVecEleSize t with
        | Ret e => (GetVecLanes t * e =? GetPrimTypeBitSize t) &&
                   (pty_eqb t PTY_v1i64 || pty_eqb t PTY_v1u64
                    || ((GetPrimTypeBitSize (GetVecElemPrimType t) =? e) &&
                        eqb (IsSignedInteger (GetVecElemPrimType t)) (IsSignedInteger t)))
        | Fault _ => false
        end
      else true).

Lemma sizes_agree_all `{Target} t : sizes_agree t = true.
Proof. destruct t, H; reflexivity. Qed.

(** C13: the tables of primitive types agree.  GetPrimTypeP2Size is the binary
    logarithm of GetPrimTypeSize wherever it answers, and it answers for every
    type with a size but the 128-bit integers and the one-lane vectors; a
    vector type is as wide as its lanes together. *)
Theorem prim_type_sizes `{Target} (t : PrimType) :
  (forall n, GetPrimTypeP2Size t = Ret n -> GetPrimTypeSize t = 2 ^ n) /\
  (GetPrimTypeSize t <> 0 -> IsInt128Ty t = false -> t <> PTY_v1i64 -> t <> PTY_v1u64 ->
     exists n, GetPrimTypeP2Size t = Ret n) /\
  (IsPrimitiveVector t = true -> t <> PTY_end ->
     exists e, GetVecEleSize t = Ret e /\ GetVecLanes t * e = GetPrimTypeBitSize t).
Proof.
  pose proof (sizes_agree_all t) as E. unfold sizes_agree in E. apply andb_true_iff in E as [E1 E2].
  split_and!.
  - intros n Hn. rewrite Hn in E1. apply Z.eqb_eq in E1. done.
  - intros Hs Hi H1 H2. destruct (GetPrimTypeP2Size t) as [n|]; [by exists n|].
    rewrite Hi in E1. unfold pty_eqb in E1. rewrite !bool_decide_eq_false_2 in E1 by done.
    apply orb_true_iff in E1 as [E1|E1]; [|done]. repeat (apply orb_true_iff in E1 as [E1|E1]; [|done]).
    by apply Z.eqb_eq in E1.
  - intros Hv Hne. rewrite Hv in E2. unfold pty_eqb in E2 at 1.
    rewrite bool_decide_eq_false_2 in E2 by done. cbn [negb andb] in E2.
    destruct (GetVecEleSize t) as [e|]; [|done]. apply andb_true_iff in E2 as [E2 _].
    exists e. split; [done|]. by apply Z.eqb_eq.
Qed.

Lemma prim_type_sizes_witness : exists e, GetVecEleSize PTY_v4i32 = Ret e /\ 4 * e = 128.
Proof.
  exact (proj2 (proj2 (@prim_type_sizes false PTY_v4i32)) eq_refl ltac:(discriminate)).
Defined.

(** The signed and the unsigned version of an integer type have its width,
    except the 128-bit types and u1, which have only themselves; taking both
    versions in turn is idempotent, and the register type of a type of at most
    64 bits keeps its signedness and holds all its values. *)
Theorem prim_type_signs `{Target} (t : PrimType) :
  IsPrimitiveInteger t = true -> IsInt128Ty t = false -> t <> PTY_u1 ->
  IsSignedInteger (GetSignedPrimType t) = true /\
  (t <> PTY_ptr -> t <> PTY_ref -> GetPrimTypeSize (GetSignedPrimType t) = GetPrimTypeSize t) /\
  GetUnsignedPrimType (GetSignedPrimType (GetUnsignedPrimType (GetSignedPrimType t))) =
    GetUnsignedPrimType (GetSignedPrimType t) /\
  GetIntegerPrimTypeBySizeAndSign (GetPrimTypeActualBitSize (GetSignedPrimType t)) true =
    GetSignedPrimType t /\
  IsSignedInteger (GetRegPrimType t) = IsSignedInteger t /\
  GetPrimTypeSize t <= GetPrimTypeSize (GetRegPrimType t).
Proof.
  intros Hi H128 H1. destruct t; try discriminate Hi; try discriminate H128; try done;
    destruct H; vm_compute; split_and!; done || (intros; congruence).
Qed.

Lemma prim_type_signs_witness : IsSignedInteger (GetSignedPrimType PTY_u16) = true.
Proof. exact (proj1 (@prim_type_signs false PTY_u16 eq_refl eq_refl ltac:(discriminate))). Defined.

(** The 128-bit types have no other version. *)
Example signed_u128 : GetSignedPrimType PTY_u128 = PTY_u128 /\ GetUnsignedPrimType PTY_i128 = PTY_i128.
Proof. split; reflexivity. Qed.

(** GetPrimTypeP2Size asserts on types whose size is a power of two. *)
Example P2Size_missing :
  @GetPrimTypeSize false PTY_u128 = 16 /\ @GetPrimTypeP2Size false PTY_u128 = Fault AssertFail.
Proof. split; reflexivity. Qed.
