(* ===== verification/Opcodes.v ===== *)
(** * Opcodes of MapleIR

    The enumeration of opcodes.h, built from opcodes.def, the table of
    opcode_info.cpp with the flags, names and instruction sizes of opcodes.def,
    and the predicates of opcodes.h and opcode_info.h.  An enumerator is its
    position in the enumeration ([opcode_num]). *)
From S2P Require Import Prelude.
From stdpp Require Import strings.
#[local] Open Scope Z_scope.
#[local] Notation "a .| b" := (Z.lor a b) (at level 50, left associativity).

Inductive Opcode : Set :=
  | OP_undef | OP_dassign | OP_piassign | OP_maydassign | OP_iassign | OP_block | OP_doloop
  | OP_dowhile | OP_if | OP_while | OP_switch | OP_multiway | OP_foreachelem | OP_comment
  | OP_eval | OP_free | OP_calcassertge | OP_calcassertlt | OP_assertge | OP_assertlt
  | OP_callassertle | OP_returnassertle | OP_assignassertle | OP_abort | OP_assertnonnull
  | OP_assignassertnonnull | OP_callassertnonnull | OP_returnassertnonnull | OP_dread
  | OP_iread | OP_addrof | OP_iaddrof | OP_sizeoftype | OP_fieldsdist | OP_array
  | OP_iassignoff | OP_iassignfpoff | OP_regassign | OP_goto | OP_brfalse | OP_brtrue
  | OP_return | OP_rangegoto | OP_call | OP_virtualcall | OP_superclasscall | OP_interfacecall
  | OP_customcall | OP_polymorphiccall | OP_icall | OP_interfaceicall | OP_virtualicall
  | OP_intrinsiccall | OP_intrinsiccallwithtype | OP_xintrinsiccall | OP_callassigned
  | OP_virtualcallassigned | OP_superclasscallassigned | OP_interfacecallassigned
  | OP_customcallassigned | OP_polymorphiccallassigned | OP_icallassigned
  | OP_interfaceicallassigned | OP_virtualicallassigned | OP_intrinsiccallassigned
  | OP_intrinsiccallwithtypeassigned | OP_xintrinsiccallassigned | OP_callinstant
  | OP_callinstantassigned | OP_virtualcallinstant | OP_virtualcallinstantassigned
  | OP_superclasscallinstant | OP_superclasscallinstantassigned | OP_interfacecallinstant
  | OP_interfacecallinstantassigned | OP_jstry | OP_try | OP_cpptry | OP_throw | OP_jscatch
  | OP_catch | OP_cppcatch | OP_finally | OP_cleanuptry | OP_endtry | OP_safe | OP_endsafe
  | OP_unsafe | OP_endunsafe | OP_gosub | OP_retsub | OP_syncenter | OP_syncexit | OP_decref
  | OP_incref | OP_decrefreset | OP_membaracquire | OP_membarrelease | OP_membarstoreload
  | OP_membarstorestore | OP_label | OP_ireadoff | OP_ireadfpoff | OP_regread | OP_addroffunc
  | OP_addroflabel | OP_constval | OP_conststr | OP_conststr16 | OP_ceil | OP_cvt | OP_floor
  | OP_retype | OP_round | OP_trunc | OP_abs | OP_bnot | OP_lnot | OP_neg | OP_recip | OP_sqrt
  | OP_sext | OP_zext | OP_alloca | OP_malloc | OP_gcmalloc | OP_gcpermalloc | OP_stackmalloc
  | OP_gcmallocjarray | OP_gcpermallocjarray | OP_stackmallocjarray | OP_resolveinterfacefunc
  | OP_resolvevirtualfunc | OP_add | OP_sub | OP_mul | OP_div | OP_rem | OP_ashr | OP_lshr
  | OP_shl | OP_ror | OP_max | OP_min | OP_band | OP_bior | OP_bxor | OP_CG_array_elem_add
  | OP_eq | OP_ge | OP_gt | OP_le | OP_lt | OP_ne | OP_cmp | OP_cmpl | OP_cmpg | OP_land
  | OP_lior | OP_cand | OP_cior | OP_select | OP_intrinsicop | OP_intrinsicopwithtype
  | OP_extractbits | OP_depositbits | OP_iassignpcoff | OP_ireadpcoff | OP_checkpoint
  | OP_addroffpc | OP_igoto | OP_asm | OP_dreadoff | OP_addrofoff | OP_dassignoff
  | OP_iassignspoff | OP_blkassignoff | OP_icallproto | OP_icallprotoassigned | OP_last.

(** Every enumerator, in the order of the enumeration. *)
Definition all_Opcode : list Opcode := [
  OP_undef; OP_dassign; OP_piassign; OP_maydassign; OP_iassign; OP_block; OP_doloop;
  OP_dowhile; OP_if; OP_while; OP_switch; OP_multiway; OP_foreachelem; OP_comment; OP_eval;
  OP_free; OP_calcassertge; OP_calcassertlt; OP_assertge; OP_assertlt; OP_callassertle;
  OP_returnassertle; OP_assignassertle; OP_abort; OP_assertnonnull; OP_assignassertnonnull;
  OP_callassertnonnull; OP_returnassertnonnull; OP_dread; OP_iread; OP_addrof; OP_iaddrof;
  OP_sizeoftype; OP_fieldsdist; OP_array; OP_iassignoff; OP_iassignfpoff; OP_regassign;
  OP_goto; OP_brfalse; OP_brtrue; OP_return; OP_rangegoto; OP_call; OP_virtualcall;
  OP_superclasscall; OP_interfacecall; OP_customcall; OP_polymorphiccall; OP_icall;
  OP_interfaceicall; OP_virtualicall; OP_intrinsiccall; OP_intrinsiccallwithtype;
  OP_xintrinsiccall; OP_callassigned; OP_virtualcallassigned; OP_superclasscallassigned;
  OP_interfacecallassigned; OP_customcallassigned; OP_polymorphiccallassigned;
  OP_icallassigned; OP_interfaceicallassigned; OP_virtualicallassigned;
  OP_intrinsiccallassigned; OP_intrinsiccallwithtypeassigned; OP_xintrinsiccallassigned;
  OP_callinstant; OP_callinstantassigned; OP_virtualcallinstant; OP_virtualcallinstantassigned;
  OP_superclasscallinstant; OP_superclasscallinstantassigned; OP_interfacecallinstant;
  OP_interfacecallinstantassigned; OP_jstry; OP_try; OP_cpptry; OP_throw; OP_jscatch; OP_catch;
  OP_cppcatch; OP_finally; OP_cleanuptry; OP_endtry; OP_safe; OP_endsafe; OP_unsafe;
  OP_endunsafe; OP_gosub; OP_retsub; OP_syncenter; OP_syncexit; OP_decref; OP_incref;
  OP_decrefreset; OP_membaracquire; OP_membarrelease; OP_membarstoreload; OP_membarstorestore;
  OP_label; OP_ireadoff; OP_ireadfpoff; OP_regread; OP_addroffunc; OP_addroflabel; OP_constval;
  OP_conststr; OP_conststr16; OP_ceil; OP_cvt; OP_floor; OP_retype; OP_round; OP_trunc; OP_abs;
  OP_bnot; OP_lnot; OP_neg; OP_recip; OP_sqrt; OP_sext; OP_zext; OP_alloca; OP_malloc;
  OP_gcmalloc; OP_gcpermalloc; OP_stackmalloc; OP_gcmallocjarray; OP_gcpermallocjarray;
  OP_stackmallocjarray; OP_resolveinterfacefunc; OP_resolvevirtualfunc; OP_add; OP_sub; OP_mul;
  OP_div; OP_rem; OP_ashr; OP_lshr; OP_shl; OP_ror; OP_max; OP_min; OP_band; OP_bior; OP_bxor;
  OP_CG_array_elem_add; OP_eq; OP_ge; OP_gt; OP_le; OP_lt; OP_ne; OP_cmp; OP_cmpl; OP_cmpg;
  OP_land; OP_lior; OP_cand; OP_cior; OP_select; OP_intrinsicop; OP_intrinsicopwithtype;
  OP_extractbits; OP_depositbits; OP_iassignpcoff; OP_ireadpcoff; OP_checkpoint; OP_addroffpc;
  OP_igoto; OP_asm; OP_dreadoff; OP_addrofoff; OP_dassignoff; OP_iassignspoff; OP_blkassignoff;
  OP_icallproto; OP_icallprotoassigned; OP_last ].

(** The value of an enumerator. *)
Definition opcode_num (o : Opcode) : N :=
  match o with
  | OP_undef => 0 | OP_dassign => 1 | OP_piassign => 2 | OP_maydassign => 3 | OP_iassign => 4
  | OP_block => 5 | OP_doloop => 6 | OP_dowhile => 7 | OP_if => 8 | OP_while => 9
  | OP_switch => 10 | OP_multiway => 11 | OP_foreachelem => 12 | OP_comment => 13
  | OP_eval => 14 | OP_free => 15 | OP_calcassertge => 16 | OP_calcassertlt => 17
  | OP_assertge => 18 | OP_assertlt => 19 | OP_callassertle => 20 | OP_returnassertle => 21
  | OP_assignassertle => 22 | OP_abort => 23 | OP_assertnonnull => 24
  | OP_assignassertnonnull => 25 | OP_callassertnonnull => 26 | OP_returnassertnonnull => 27
  | OP_dread => 28 | OP_iread => 29 | OP_addrof => 30 | OP_iaddrof => 31 | OP_sizeoftype => 32
  | OP_fieldsdist => 33 | OP_array => 34 | OP_iassignoff => 35 | OP_iassignfpoff => 36
  | OP_regassign => 37 | OP_goto => 38 | OP_brfalse => 39 | OP_brtrue => 40 | OP_return => 41
  | OP_rangegoto => 42 | OP_call => 43 | OP_virtualcall => 44 | OP_superclasscall => 45
  | OP_interfacecall => 46 | OP_customcall => 47 | OP_polymorphiccall => 48 | OP_icall => 49
  | OP_interfaceicall => 50 | OP_virtualicall => 51 | OP_intrinsiccall => 52
  | OP_intrinsiccallwithtype => 53 | OP_xintrinsiccall => 54 | OP_callassigned => 55
  | OP_virtualcallassigned => 56 | OP_superclasscallassigned => 57
  | OP_interfacecallassigned => 58 | OP_customcallassigned => 59
  | OP_polymorphiccallassigned => 60 | OP_icallassigned => 61 | OP_interfaceicallassigned => 62
  | OP_virtualicallassigned => 63 | OP_intrinsiccallassigned => 64
  | OP_intrinsiccallwithtypeassigned => 65 | OP_xintrinsiccallassigned => 66
  | OP_callinstant => 67 | OP_callinstantassigned => 68 | OP_virtualcallinstant => 69
  | OP_virtualcallinstantassigned => 70 | OP_superclasscallinstant => 71
  | OP_superclasscallinstantassigned => 72 | OP_interfacecallinstant => 73
  | OP_interfacecallinstantassigned => 74 | OP_jstry => 75 | OP_try => 76 | OP_cpptry => 77
  | OP_throw => 78 | OP_jscatch => 79 | OP_catch => 80 | OP_cppcatch => 81 | OP_finally => 82
  | OP_cleanuptry => 83 | OP_endtry => 84 | OP_safe => 85 | OP_endsafe => 86 | OP_unsafe => 87
  | OP_endunsafe => 88 | OP_gosub => 89 | OP_retsub => 90 | OP_syncenter => 91
  | OP_syncexit => 92 | OP_decref => 93 | OP_incref => 94 | OP_decrefreset => 95
  | OP_membaracquire => 96 | OP_membarrelease => 97 | OP_membarstoreload => 98
  | OP_membarstorestore => 99 | OP_label => 100 | OP_ireadoff => 101 | OP_ireadfpoff => 102
  | OP_regread => 103 | OP_addroffunc => 104 | OP_addroflabel => 105 | OP_constval => 106
  | OP_conststr => 107 | OP_conststr16 => 108 | OP_ceil => 109 | OP_cvt => 110
  | OP_floor => 111 | OP_retype => 112 | OP_round => 113 | OP_trunc => 114 | OP_abs => 115
  | OP_bnot => 116 | OP_lnot => 117 | OP_neg => 118 | OP_recip => 119 | OP_sqrt => 120
  | OP_sext => 121 | OP_zext => 122 | OP_alloca => 123 | OP_malloc => 124 | OP_gcmalloc => 125
  | OP_gcpermalloc => 126 | OP_stackmalloc => 127 | OP_gcmallocjarray => 128
  | OP_gcpermallocjarray => 129 | OP_stackmallocjarray => 130 | OP_resolveinterfacefunc => 131
  | OP_resolvevirtualfunc => 132 | OP_add => 133 | OP_sub => 134 | OP_mul => 135
  | OP_div => 136 | OP_rem => 137 | OP_ashr => 138 | OP_lshr => 139 | OP_shl => 140
  | OP_ror => 141 | OP_max => 142 | OP_min => 143 | OP_band => 144 | OP_bior => 145
  | OP_bxor => 146 | OP_CG_array_elem_add => 147 | OP_eq => 148 | OP_ge => 149 | OP_gt => 150
  | OP_le => 151 | OP_lt => 152 | OP_ne => 153 | OP_cmp => 154 | OP_cmpl => 155
  | OP_cmpg => 156 | OP_land => 157 | OP_lior => 158 | OP_cand => 159 | OP_cior => 160
  | OP_select => 161 | OP_intrinsicop => 162 | OP_intrinsicopwithtype => 163
  | OP_extractbits => 164 | OP_depositbits => 165 | OP_iassignpcoff => 166
  | OP_ireadpcoff => 167 | OP_checkpoint => 168 | OP_addroffpc => 169 | OP_igoto => 170
  | OP_asm => 171 | OP_dreadoff => 172 | OP_addrofoff => 173 | OP_dassignoff => 174
  | OP_iassignspoff => 175 | OP_blkassignoff => 176 | OP_icallproto => 177
  | OP_icallprotoassigned => 178 | OP_last => 179
  end%N.

(** ** The properties of an opcode, as bits of the flag *)

Definition kOpcodePropIsStmt : Z := 1.
Definition kOpcodePropIsVarSize : Z := 2.
Definition kOpcodePropNotMMPL : Z := 3.
Definition kOpcodePropIsCompare : Z := 4.
Definition kOpcodePropIsTypeCvt : Z := 5.
Definition kOpcodePropHasSSAUse : Z := 6.
Definition kOpcodePropHasSSADef : Z := 7.
Definition kOpcodePropIsCall : Z := 8.
Definition kOpcodePropIsCallAssigned : Z := 9.
Definition kOpcodePropNotPure : Z := 10.
Definition kOpcodePropMayThrowException : Z := 11.
Definition kOpcodePropIsAssertNonnull : Z := 12.
Definition kOpcodePropIsAssertUpperBoundary : Z := 13.
Definition kOpcodePropIsAssertLowerBoundary : Z := 14.

Definition OPCODEISSTMT : Z := Z.shiftl 1 kOpcodePropIsStmt.
Definition OPCODEISVARSIZE : Z := Z.shiftl 1 kOpcodePropIsVarSize.
Definition OPCODENOTMMPL : Z := Z.shiftl 1 kOpcodePropNotMMPL.
Definition OPCODEISCOMPARE : Z := Z.shiftl 1 kOpcodePropIsCompare.
Definition OPCODEISTYPECVT : Z := Z.shiftl 1 kOpcodePropIsTypeCvt.
Definition OPCODEHASSSAUSE : Z := Z.shiftl 1 kOpcodePropHasSSAUse.
Definition OPCODEHASSSADEF : Z := Z.shiftl 1 kOpcodePropHasSSADef.
Definition OPCODEISCALL : Z := Z.shiftl 1 kOpcodePropIsCall.
Definition OPCODEISCALLASSIGNED : Z := Z.shiftl 1 kOpcodePropIsCallAssigned.
Definition OPCODENOTPURE : Z := Z.shiftl 1 kOpcodePropNotPure.
Definition OPCODEMAYTHROWEXCEPTION : Z := Z.shiftl 1 kOpcodePropMayThrowException.
Definition OPCODEASSERTNONNULL : Z := Z.shiftl 1 kOpcodePropIsAssertNonnull.
Definition OPCODEASSERTUPPERBOUNDARY : Z := Z.shiftl 1 kOpcodePropIsAssertUpperBoundary.
Definition OPCODEASSERTLOWERBOUNDARY : Z := Z.shiftl 1 kOpcodePropIsAssertLowerBoundary.

(** ** The table *)

Record OpcodeDesc : Set := MkOpcodeDesc { name : string; flag : Z; instrucSize : Z }.

(** The rows of opcodes.def; the flag is stored in 16 bits.  The row of an
    opcode without an entry there is zero-initialised. *)
Definition opcode_row (o : Opcode) : OpcodeDesc :=
  match o with
  | OP_dassign => MkOpcodeDesc "dassign" (OPCODEISSTMT .| OPCODENOTMMPL .| OPCODEHASSSADEF) 8
  | OP_piassign => MkOpcodeDesc "piassign" (OPCODEISSTMT .| OPCODENOTMMPL .| OPCODEHASSSADEF) 8
  | OP_maydassign =>
      MkOpcodeDesc "maydassign" (OPCODEISSTMT .| OPCODENOTMMPL .| OPCODEHASSSADEF) 8
  | OP_iassign => MkOpcodeDesc "iassign" (OPCODEISSTMT .| OPCODENOTMMPL .| OPCODEHASSSADEF) 12
  | OP_block => MkOpcodeDesc "block" (OPCODEISSTMT .| OPCODENOTMMPL) 0
  | OP_doloop => MkOpcodeDesc "doloop" (OPCODEISSTMT .| OPCODENOTMMPL) 0
  | OP_dowhile => MkOpcodeDesc "dowhile" (OPCODEISSTMT .| OPCODENOTMMPL) 0
  | OP_if => MkOpcodeDesc "if" (OPCODEISSTMT .| OPCODENOTMMPL) 0
  | OP_while => MkOpcodeDesc "while" (OPCODEISSTMT .| OPCODENOTMMPL) 0
  | OP_switch => MkOpcodeDesc "switch" (OPCODEISSTMT .| OPCODENOTMMPL) 8
  | OP_multiway => MkOpcodeDesc "multiway" (OPCODEISSTMT .| OPCODENOTMMPL) 8
  | OP_foreachelem => MkOpcodeDesc "foreachelem" (OPCODEISSTMT .| OPCODENOTMMPL) 0
  | OP_comment => MkOpcodeDesc "comment" (OPCODEISSTMT .| OPCODENOTMMPL) 0
  | OP_eval => MkOpcodeDesc "eval" (OPCODEISSTMT .| OPCODENOTMMPL) 8
  | OP_free => MkOpcodeDesc "free" (OPCODEISSTMT .| OPCODENOTMMPL) 8
  | OP_calcassertge =>
      MkOpcodeDesc "calcassertge" (OPCODEISSTMT .| OPCODENOTMMPL .| OPCODEASSERTLOWERBOUNDARY) 8
  | OP_calcassertlt =>
      MkOpcodeDesc "calcassertlt" (OPCODEISSTMT .| OPCODENOTMMPL .| OPCODEASSERTUPPERBOUNDARY) 8
  | OP_assertge =>
      MkOpcodeDesc "assertge" (OPCODEISSTMT .| OPCODENOTMMPL .| OPCODEASSERTLOWERBOUNDARY) 8
  | OP_assertlt =>
      MkOpcodeDesc "assertlt" (OPCODEISSTMT .| OPCODENOTMMPL .| OPCODEASSERTUPPERBOUNDARY) 8
  | OP_callassertle =>
      MkOpcodeDesc "callassertle" (OPCODEISSTMT .| OPCODENOTMMPL .| OPCODEASSERTUPPERBOUNDARY) 8
  | OP_returnassertle =>
      MkOpcodeDesc "returnassertle" (OPCODEISSTMT .| OPCODENOTMMPL .| OPCODEASSERTUPPERBOUNDARY) 8
  | OP_assignassertle =>
      MkOpcodeDesc "assignassertle" (OPCODEISSTMT .| OPCODENOTMMPL .| OPCODEASSERTUPPERBOUNDARY) 8
  | OP_abort => MkOpcodeDesc "abort" (OPCODEISSTMT .| OPCODENOTMMPL) 8
  | OP_assertnonnull =>
      MkOpcodeDesc "assertnonnull" (OPCODEISSTMT .| OPCODENOTMMPL .| OPCODEASSERTNONNULL) 8
  | OP_assignassertnonnull =>
      MkOpcodeDesc "assignassertnonnull" (OPCODEISSTMT .| OPCODENOTMMPL .| OPCODEASSERTNONNULL) 8
  | OP_callassertnonnull =>
      MkOpcodeDesc "callassertnonnull" (OPCODEISSTMT .| OPCODENOTMMPL .| OPCODEASSERTNONNULL) 8
  | OP_returnassertnonnull =>
      MkOpcodeDesc "returnassertnonnull" (OPCODEISSTMT .| OPCODENOTMMPL .| OPCODEASSERTNONNULL) 8
  | OP_dread => MkOpcodeDesc "dread" (OPCODENOTMMPL .| OPCODEHASSSAUSE) 12
  | OP_iread => MkOpcodeDesc "iread" (OPCODENOTMMPL .| OPCODEHASSSAUSE) 12
  | OP_addrof => MkOpcodeDesc "addrof" (OPCODENOTMMPL) 12
  | OP_iaddrof => MkOpcodeDesc "iaddrof" (OPCODENOTMMPL) 12
  | OP_sizeoftype => MkOpcodeDesc "sizeoftype" (OPCODENOTMMPL) 8
  | OP_fieldsdist => MkOpcodeDesc "fieldsdist" (OPCODENOTMMPL) 8
  | OP_array =>
      MkOpcodeDesc "array" (OPCODEISVARSIZE .| OPCODENOTMMPL .| OPCODEMAYTHROWEXCEPTION) 8
  | OP_iassignoff => MkOpcodeDesc "iassignoff" (OPCODEISSTMT) 8
  | OP_iassignfpoff => MkOpcodeDesc "iassignfpoff" (OPCODEISSTMT) 8
  | OP_regassign => MkOpcodeDesc "regassign" (OPCODEISSTMT .| OPCODEHASSSADEF) 8
  | OP_goto => MkOpcodeDesc "goto" (OPCODEISSTMT) 8
  | OP_brfalse => MkOpcodeDesc "brfalse" (OPCODEISSTMT) 8
  | OP_brtrue => MkOpcodeDesc "brtrue" (OPCODEISSTMT) 8
  | OP_return => MkOpcodeDesc "return" (OPCODEISSTMT .| OPCODEISVARSIZE .| OPCODEHASSSAUSE) 0
  | OP_rangegoto => MkOpcodeDesc "rangegoto" (OPCODEISSTMT) 8
  | OP_call =>
      MkOpcodeDesc "call" (OPCODEISSTMT .| OPCODEISVARSIZE .| OPCODEHASSSAUSE .| OPCODEHASSSADEF .| OPCODEISCALL) 8
  | OP_virtualcall =>
      MkOpcodeDesc "virtualcall" (OPCODEISSTMT .| OPCODEISVARSIZE .| OPCODEHASSSAUSE .| OPCODEHASSSADEF .| OPCODEISCALL) 8
  | OP_superclasscall =>
      MkOpcodeDesc "superclasscall" (OPCODEISSTMT .| OPCODEISVARSIZE .| OPCODEHASSSAUSE .| OPCODEHASSSADEF .| OPCODEISCALL) 8
  | OP_interfacecall =>
      MkOpcodeDesc "interfacecall" (OPCODEISSTMT .| OPCODEISVARSIZE .| OPCODEHASSSAUSE .| OPCODEHASSSADEF .| OPCODEISCALL) 8
  | OP_customcall =>
      MkOpcodeDesc "customcall" (OPCODEISSTMT .| OPCODEISVARSIZE .| OPCODEHASSSAUSE .| OPCODEHASSSADEF .| OPCODEISCALL) 8
  | OP_polymorphiccall =>
      MkOpcodeDesc "polymorphiccall" (OPCODEISSTMT .| OPCODEISVARSIZE .| OPCODEHASSSAUSE .| OPCODEHASSSADEF .| OPCODEISCALL) 12
  | OP_icall =>
      MkOpcodeDesc "icall" (OPCODEISSTMT .| OPCODEISVARSIZE .| OPCODEHASSSAUSE .| OPCODEHASSSADEF .| OPCODEISCALL) 8
  | OP_interfaceicall =>
      MkOpcodeDesc "interfaceicall" (OPCODEISSTMT .| OPCODEISVARSIZE .| OPCODEHASSSAUSE .| OPCODEHASSSADEF .| OPCODEISCALL) 8
  | OP_virtualicall =>
      MkOpcodeDesc "virtualicall" (OPCODEISSTMT .| OPCODEISVARSIZE .| OPCODEHASSSAUSE .| OPCODEHASSSADEF .| OPCODEISCALL) 8
  | OP_intrinsiccall =>
      MkOpcodeDesc "intrinsiccall" (OPCODEISSTMT .| OPCODEISVARSIZE .| OPCODEHASSSAUSE .| OPCODEHASSSADEF .| OPCODEISCALL) 8
  | OP_intrinsiccallwithtype =>
      MkOpcodeDesc "intrinsiccallwithtype" (OPCODEISSTMT .| OPCODEISVARSIZE .| OPCODEHASSSAUSE .| OPCODEHASSSADEF .| OPCODEISCALL) 12
  | OP_xintrinsiccall =>
      MkOpcodeDesc "xintrinsiccall" (OPCODEISSTMT .| OPCODEISVARSIZE .| OPCODEHASSSAUSE .| OPCODEHASSSADEF .| OPCODEISCALL) 8
  | OP_callassigned =>
      MkOpcodeDesc "callassigned" (OPCODEISSTMT .| OPCODEISVARSIZE .| OPCODEHASSSAUSE .| OPCODEHASSSADEF .| OPCODEISCALL .| OPCODEISCALLASSIGNED) 0
  | OP_virtualcallassigned =>
      MkOpcodeDesc "virtualcallassigned" (OPCODEISSTMT .| OPCODEISVARSIZE .| OPCODEHASSSAUSE .| OPCODEHASSSADEF .| OPCODEISCALL .| OPCODEISCALLASSIGNED) 0
  | OP_superclasscallassigned =>
      MkOpcodeDesc "superclasscallassigned" (OPCODEISSTMT .| OPCODEISVARSIZE .| OPCODEHASSSAUSE .| OPCODEHASSSADEF .| OPCODEISCALL .| OPCODEISCALLASSIGNED) 0
  | OP_interfacecallassigned =>
      MkOpcodeDesc "interfacecallassigned" (OPCODEISSTMT .| OPCODEISVARSIZE .| OPCODEHASSSAUSE .| OPCODEHASSSADEF .| OPCODEISCALL .| OPCODEISCALLASSIGNED) 0
  | OP_customcallassigned =>
      MkOpcodeDesc "customcallassigned" (OPCODEISSTMT .| OPCODEISVARSIZE .| OPCODEHASSSAUSE .| OPCODEHASSSADEF .| OPCODEISCALL .| OPCODEISCALLASSIGNED) 0
  | OP_polymorphiccallassigned =>
      MkOpcodeDesc "polymorphiccallassigned" (OPCODEISSTMT .| OPCODEISVARSIZE .| OPCODEHASSSAUSE .| OPCODEHASSSADEF .| OPCODEISCALL .| OPCODEISCALLASSIGNED) 0
  | OP_icallassigned =>
      MkOpcodeDesc "icallassigned" (OPCODEISSTMT .| OPCODEISVARSIZE .| OPCODEHASSSAUSE .| OPCODEHASSSADEF .| OPCODEISCALL .| OPCODEISCALLASSIGNED) 0
  | OP_interfaceicallassigned =>
      MkOpcodeDesc "interfaceicallassigned" (OPCODEISSTMT .| OPCODEISVARSIZE .| OPCODEHASSSAUSE .| OPCODEHASSSADEF .| OPCODEISCALL .| OPCODEISCALLASSIGNED) 0
  | OP_virtualicallassigned =>
      MkOpcodeDesc "virtualicallassigned" (OPCODEISSTMT .| OPCODEISVARSIZE .| OPCODEHASSSAUSE .| OPCODEHASSSADEF .| OPCODEISCALL .| OPCODEISCALLASSIGNED) 0
  | OP_intrinsiccallassigned =>
      MkOpcodeDesc "intrinsiccallassigned" (OPCODEISSTMT .| OPCODEISVARSIZE .| OPCODEHASSSAUSE .| OPCODEHASSSADEF .| OPCODEISCALL .| OPCODEISCALLASSIGNED) 0
  | OP_intrinsiccallwithtypeassigned =>
      MkOpcodeDesc "intrinsiccallwithtypeassigned" (OPCODEISSTMT .| OPCODEISVARSIZE .| OPCODEHASSSAUSE .| OPCODEHASSSADEF .| OPCODEISCALL .| OPCODEISCALLASSIGNED) 0
  | OP_xintrinsiccallassigned =>
      MkOpcodeDesc "xintrinsiccallassigned" (OPCODEISSTMT .| OPCODEISVARSIZE .| OPCODEHASSSAUSE .| OPCODEHASSSADEF .| OPCODEISCALL .| OPCODEISCALLASSIGNED) 0
  | OP_callinstant =>
      MkOpcodeDesc "callinstant" (OPCODEISSTMT .| OPCODEISVARSIZE .| OPCODEHASSSAUSE .| OPCODEHASSSADEF .| OPCODEISCALL) 0
  | OP_callinstantassigned =>
      MkOpcodeDesc "callinstantassigned" (OPCODEISSTMT .| OPCODEISVARSIZE .| OPCODEHASSSAUSE .| OPCODEHASSSADEF .| OPCODEISCALL .| OPCODEISCALLASSIGNED) 0
  | OP_virtualcallinstant =>
      MkOpcodeDesc "virtualcallinstant" (OPCODEISSTMT .| OPCODEISVARSIZE .| OPCODEHASSSAUSE .| OPCODEHASSSADEF .| OPCODEISCALL) 0
  | OP_virtualcallinstantassigned =>
      MkOpcodeDesc "virtualcallinstantassigned" (OPCODEISSTMT .| OPCODEISVARSIZE .| OPCODEHASSSAUSE .| OPCODEHASSSADEF .| OPCODEISCALL .| OPCODEISCALLASSIGNED) 0
  | OP_superclasscallinstant =>
      MkOpcodeDesc "superclasscallinstant" (OPCODEISSTMT .| OPCODEISVARSIZE .| OPCODEHASSSAUSE .| OPCODEHASSSADEF .| OPCODEISCALL) 0
  | OP_superclasscallinstantassigned =>
      MkOpcodeDesc "superclasscallinstantassigned" (OPCODEISSTMT .| OPCODEISVARSIZE .| OPCODEHASSSAUSE .| OPCODEHASSSADEF .| OPCODEISCALL .| OPCODEISCALLASSIGNED) 0
  | OP_interfacecallinstant =>
      MkOpcodeDesc "interfacecallinstant" (OPCODEISSTMT .| OPCODEISVARSIZE .| OPCODEHASSSAUSE .| OPCODEHASSSADEF .| OPCODEISCALL) 0
  | OP_interfacecallinstantassigned =>
      MkOpcodeDesc "interfacecallinstantassigned" (OPCODEISSTMT .| OPCODEISVARSIZE .| OPCODEHASSSAUSE .| OPCODEHASSSADEF .| OPCODEISCALL .| OPCODEISCALLASSIGNED) 0
  | OP_jstry => MkOpcodeDesc "jstry" (OPCODEISSTMT) 8
  | OP_try => MkOpcodeDesc "try" (OPCODEISSTMT .| OPCODENOTMMPL) 8
  | OP_cpptry => MkOpcodeDesc "cpptry" (OPCODEISSTMT .| OPCODENOTMMPL) 8
  | OP_throw => MkOpcodeDesc "throw" (OPCODEISSTMT .| OPCODEHASSSAUSE) 0
  | OP_jscatch => MkOpcodeDesc "jscatch" (OPCODEISSTMT) 4
  | OP_catch => MkOpcodeDesc "catch" (OPCODEISSTMT) 8
  | OP_cppcatch => MkOpcodeDesc "cppcatch" (OPCODEISSTMT) 8
  | OP_finally => MkOpcodeDesc "finally" (OPCODEISSTMT) 6
  | OP_cleanuptry => MkOpcodeDesc "cleanuptry" (OPCODEISSTMT) 6
  | OP_endtry => MkOpcodeDesc "endtry" (OPCODEISSTMT) 6
  | OP_safe => MkOpcodeDesc "safe" (OPCODEISSTMT) 6
  | OP_endsafe => MkOpcodeDesc "endsafe" (OPCODEISSTMT) 6
  | OP_unsafe => MkOpcodeDesc "unsafe" (OPCODEISSTMT) 6
  | OP_endunsafe => MkOpcodeDesc "endunsafe" (OPCODEISSTMT) 6
  | OP_gosub => MkOpcodeDesc "gosub" (OPCODEISSTMT .| OPCODEHASSSAUSE) 8
  | OP_retsub => MkOpcodeDesc "retsub" (OPCODEISSTMT .| OPCODEHASSSAUSE) 6
  | OP_syncenter =>
      MkOpcodeDesc "syncenter" (OPCODEISSTMT .| OPCODEHASSSADEF .| OPCODEHASSSAUSE) 0
  | OP_syncexit => MkOpcodeDesc "syncexit" (OPCODEISSTMT .| OPCODEHASSSADEF .| OPCODEHASSSAUSE) 0
  | OP_decref => MkOpcodeDesc "decref" (OPCODEISSTMT .| OPCODEHASSSAUSE .| OPCODENOTMMPL) 0
  | OP_incref => MkOpcodeDesc "incref" (OPCODEISSTMT .| OPCODEHASSSAUSE .| OPCODENOTMMPL) 0
  | OP_decrefreset =>
      MkOpcodeDesc "decrefreset" (OPCODEISSTMT .| OPCODEHASSSAUSE .| OPCODENOTMMPL) 0
  | OP_membaracquire => MkOpcodeDesc "membaracquire" (OPCODEISSTMT) 6
  | OP_membarrelease => MkOpcodeDesc "membarrelease" (OPCODEISSTMT) 6
  | OP_membarstoreload => MkOpcodeDesc "membarstoreload" (OPCODEISSTMT) 6
  | OP_membarstorestore => MkOpcodeDesc "membarstorestore" (OPCODEISSTMT) 6
  | OP_label => MkOpcodeDesc "label" (OPCODEISSTMT) 8
  | OP_ireadoff => MkOpcodeDesc "ireadoff" 0 8
  | OP_ireadfpoff => MkOpcodeDesc "ireadfpoff" 0 8
  | OP_regread => MkOpcodeDesc "regread" (OPCODEHASSSAUSE) 8
  | OP_addroffunc => MkOpcodeDesc "addroffunc" 0 8
  | OP_addroflabel => MkOpcodeDesc "addroflabel" 0 8
  | OP_constval => MkOpcodeDesc "constval" 0 8
  | OP_conststr => MkOpcodeDesc "conststr" (OPCODENOTMMPL) 8
  | OP_conststr16 => MkOpcodeDesc "conststr16" (OPCODENOTMMPL) 8
  | OP_ceil => MkOpcodeDesc "ceil" (OPCODEISTYPECVT) 8
  | OP_cvt => MkOpcodeDesc "cvt" (OPCODEISTYPECVT) 8
  | OP_floor => MkOpcodeDesc "floor" (OPCODEISTYPECVT) 8
  | OP_retype => MkOpcodeDesc "retype" (OPCODEISTYPECVT) 8
  | OP_round => MkOpcodeDesc "round" (OPCODEISTYPECVT) 8
  | OP_trunc => MkOpcodeDesc "trunc" (OPCODEISTYPECVT) 8
  | OP_abs => MkOpcodeDesc "abs" 0 0
  | OP_bnot => MkOpcodeDesc "bnot" 0 0
  | OP_lnot => MkOpcodeDesc "lnot" 0 0
  | OP_neg => MkOpcodeDesc "neg" 0 0
  | OP_recip => MkOpcodeDesc "recip" 0 0
  | OP_sqrt => MkOpcodeDesc "sqrt" 0 0
  | OP_sext => MkOpcodeDesc "sext" 0 8
  | OP_zext => MkOpcodeDesc "zext" 0 8
  | OP_alloca => MkOpcodeDesc "alloca" (OPCODENOTPURE) 0
  | OP_malloc => MkOpcodeDesc "malloc" (OPCODENOTPURE) 0
  | OP_gcmalloc => MkOpcodeDesc "gcmalloc" (OPCODENOTPURE) 8
  | OP_gcpermalloc => MkOpcodeDesc "gcpermalloc" (OPCODENOTPURE) 8
  | OP_stackmalloc => MkOpcodeDesc "stackmalloc" (OPCODENOTPURE) 8
  | OP_gcmallocjarray => MkOpcodeDesc "gcmallocjarray" (OPCODENOTPURE) 12
  | OP_gcpermallocjarray => MkOpcodeDesc "gcpermallocjarray" (OPCODENOTPURE) 12
  | OP_stackmallocjarray => MkOpcodeDesc "stackmallocjarray" (OPCODENOTPURE) 12
  | OP_resolveinterfacefunc => MkOpcodeDesc "resolveinterfacefunc" 0 8
  | OP_resolvevirtualfunc => MkOpcodeDesc "resolvevirtualfunc" 0 8
  | OP_add => MkOpcodeDesc "add" 0 0
  | OP_sub => MkOpcodeDesc "sub" 0 0
  | OP_mul => MkOpcodeDesc "mul" 0 0
  | OP_div => MkOpcodeDesc "div" (OPCODEMAYTHROWEXCEPTION) 0
  | OP_rem => MkOpcodeDesc "rem" (OPCODEMAYTHROWEXCEPTION) 0
  | OP_ashr => MkOpcodeDesc "ashr" 0 0
  | OP_lshr => MkOpcodeDesc "lshr" 0 0
  | OP_shl => MkOpcodeDesc "shl" 0 0
  | OP_ror => MkOpcodeDesc "ror" 0 0
  | OP_max => MkOpcodeDesc "max" 0 0
  | OP_min => MkOpcodeDesc "min" 0 0
  | OP_band => MkOpcodeDesc "band" 0 0
  | OP_bior => MkOpcodeDesc "bior" 0 0
  | OP_bxor => MkOpcodeDesc "bxor" 0 0
  | OP_CG_array_elem_add => MkOpcodeDesc "CG_array_elem_add" 0 0
  | OP_eq => MkOpcodeDesc "eq" (OPCODEISCOMPARE) 8
  | OP_ge => MkOpcodeDesc "ge" (OPCODEISCOMPARE) 8
  | OP_gt => MkOpcodeDesc "gt" (OPCODEISCOMPARE) 8
  | OP_le => MkOpcodeDesc "le" (OPCODEISCOMPARE) 8
  | OP_lt => MkOpcodeDesc "lt" (OPCODEISCOMPARE) 8
  | OP_ne => MkOpcodeDesc "ne" (OPCODEISCOMPARE) 8
  | OP_cmp => MkOpcodeDesc "cmp" (OPCODEISCOMPARE) 8
  | OP_cmpl => MkOpcodeDesc "cmpl" (OPCODEISCOMPARE) 8
  | OP_cmpg => MkOpcodeDesc "cmpg" (OPCODEISCOMPARE) 8
  | OP_land => MkOpcodeDesc "land" 0 0
  | OP_lior => MkOpcodeDesc "lior" 0 0
  | OP_cand => MkOpcodeDesc "cand" (OPCODENOTMMPL) 0
  | OP_cior => MkOpcodeDesc "cior" (OPCODENOTMMPL) 0
  | OP_select => MkOpcodeDesc "select" 0 0
  | OP_intrinsicop => MkOpcodeDesc "intrinsicop" (OPCODEISVARSIZE) 8
  | OP_intrinsicopwithtype => MkOpcodeDesc "intrinsicopwithtype" (OPCODEISVARSIZE) 12
  | OP_extractbits => MkOpcodeDesc "extractbits" 0 8
  | OP_depositbits => MkOpcodeDesc "depositbits" 0 8
  | OP_iassignpcoff => MkOpcodeDesc "iassignpcoff" (OPCODEISSTMT) 0
  | OP_ireadpcoff => MkOpcodeDesc "ireadpcoff" 0 0
  | OP_checkpoint => MkOpcodeDesc "checkpoint" (OPCODEISSTMT) 0
  | OP_addroffpc => MkOpcodeDesc "addroffpc" 0 0
  | OP_igoto => MkOpcodeDesc "igoto" (OPCODEISSTMT) 0
  | OP_asm =>
      MkOpcodeDesc "asm" (OPCODEISSTMT .| OPCODEHASSSAUSE .| OPCODEHASSSADEF .| OPCODEISCALLASSIGNED) 0
  | OP_dreadoff => MkOpcodeDesc "dreadoff" (OPCODEHASSSAUSE) 12
  | OP_addrofoff => MkOpcodeDesc "addrofoff" 0 12
  | OP_dassignoff => MkOpcodeDesc "dassignoff" (OPCODEISSTMT .| OPCODEHASSSADEF) 8
  | OP_iassignspoff => MkOpcodeDesc "iassignspoff" (OPCODEISSTMT) 8
  | OP_blkassignoff => MkOpcodeDesc "blkassignoff" (OPCODEISSTMT) 8
  | OP_icallproto =>
      MkOpcodeDesc "icallproto" (OPCODEISSTMT .| OPCODEISVARSIZE .| OPCODEHASSSAUSE .| OPCODEHASSSADEF .| OPCODEISCALL) 8
  | OP_icallprotoassigned =>
      MkOpcodeDesc "icallprotoassigned" (OPCODEISSTMT .| OPCODEISVARSIZE .| OPCODEHASSSAUSE .| OPCODEHASSSADEF .| OPCODEISCALL .| OPCODEISCALLASSIGNED) 8
  | OP_undef | OP_last => MkOpcodeDesc "" 0 0
  end.

(** OpcodeTable::OpcodeTable: the rows, with the name of maydassign replaced. *)
Definition OpcodeTable (o : Opcode) : OpcodeDesc :=
  let d := opcode_row o in
  match o with
  | OP_maydassign => MkOpcodeDesc "dassign" (wrap 16 (flag d)) (instrucSize d)
  | _ => MkOpcodeDesc (name d) (wrap 16 (flag d)) (instrucSize d)
  end.

(** [table[o].flag & mask] as a condition *)
Definition has_flag (mask : Z) (o : Opcode) : bool := negb (Z.land (flag (OpcodeTable o)) mask =? 0).

(** [ASSERT(o < OP_last, ...)] before each access of the table *)
Definition at_table {A : Type} (o : Opcode) (a : A) : res A :=
  _ ← ASSERT (opcode_num o <? opcode_num OP_last)%N; Ret a.

Definition op_eqb (a b : Opcode) : bool := (opcode_num a =? opcode_num b)%N.
Definition one_of (l : list Opcode) (o : Opcode) : bool := existsb (op_eqb o) l.

Definition GetTableItemAt (o : Opcode) : res OpcodeDesc := at_table o (OpcodeTable o).
Definition IsStmt (o : Opcode) : res bool := at_table o (has_flag OPCODEISSTMT o).
Definition IsVarSize (o : Opcode) : res bool := at_table o (has_flag OPCODEISVARSIZE o).
Definition NotMMPL (o : Opcode) : res bool := at_table o (has_flag OPCODENOTMMPL o).
Definition IsCompare (o : Opcode) : res bool := at_table o (has_flag OPCODEISCOMPARE o).
Definition IsTypeCvt (o : Opcode) : res bool := at_table o (has_flag OPCODEISTYPECVT o).
Definition HasSSAUse (o : Opcode) : res bool := at_table o (has_flag OPCODEHASSSAUSE o).
Definition HasSSADef (o : Opcode) : res bool := at_table o (has_flag OPCODEHASSSADEF o).
Definition IsCall (o : Opcode) : res bool := at_table o (has_flag OPCODEISCALL o).
(** OpcodeTable::IsCallAssigned; the function of opcodes.h is [IsCallAssigned]. *)
Definition table_IsCallAssigned (o : Opcode) : res bool :=
  at_table o (has_flag OPCODEISCALLASSIGNED o).
Definition IsICall (o : Opcode) : res bool :=
  at_table o (one_of [OP_icall; OP_icallassigned; OP_icallproto; OP_icallprotoassigned;
    OP_virtualicall; OP_virtualicallassigned; OP_interfaceicall; OP_interfaceicallassigned] o).
Definition NotPure (o : Opcode) : res bool := at_table o (has_flag OPCODENOTPURE o).
Definition MayThrowException (o : Opcode) : res bool := at_table o (has_flag OPCODEMAYTHROWEXCEPTION o).
Definition HasSideEffect (o : Opcode) : res bool :=
  _ ← at_table o tt; MayThrowException o.
Definition GetName (o : Opcode) : res string := at_table o (name (OpcodeTable o)).
Definition IsCondBr (o : Opcode) : res bool := at_table o (one_of [OP_brtrue; OP_brfalse] o).
Definition AssignActualVar (o : Opcode) : res bool := at_table o (one_of [OP_dassign; OP_regassign] o).
Definition IsAssertNonnull (o : Opcode) : res bool := at_table o (has_flag OPCODEASSERTNONNULL o).
Definition IsCallAssertNonnull (o : Opcode) : res bool := at_table o (one_of [OP_callassertnonnull] o).
Definition IsAssertBoundary (o : Opcode) : res bool :=
  at_table o (has_flag (OPCODEASSERTUPPERBOUNDARY .| OPCODEASSERTLOWERBOUNDARY) o).
Definition IsAssertUpperBoundary (o : Opcode) : res bool := at_table o (has_flag OPCODEASSERTUPPERBOUNDARY o).
Definition IsAssertLowerBoundary (o : Opcode) : res bool := at_table o (has_flag OPCODEASSERTLOWERBOUNDARY o).
Definition IsCallAssertBoundary (o : Opcode) : res bool := at_table o (one_of [OP_callassertle] o).
Definition IsAssertLeBoundary (o : Opcode) : res bool :=
  at_table o (one_of [OP_callassertle; OP_returnassertle; OP_assignassertle] o).
Definition IsCalcAssertBoundary (o : Opcode) : res bool :=
  at_table o (one_of [OP_calcassertlt; OP_calcassertge] o).
Definition IsAccessAssertBoundary (o : Opcode) : res bool :=
  at_table o (one_of [OP_assertlt; OP_assertge] o).

(** ** The predicates of opcodes.h *)

(** The cases of CASE_OP_ASSERT_NONNULL and CASE_OP_ASSERT_BOUNDARY *)
Definition CASE_OP_ASSERT_NONNULL : list Opcode :=
  [OP_assertnonnull; OP_assignassertnonnull; OP_callassertnonnull; OP_returnassertnonnull].
Definition CASE_OP_ASSERT_BOUNDARY : list Opcode :=
  [OP_assertge; OP_assertlt; OP_calcassertge; OP_calcassertlt; OP_callassertle;
   OP_returnassertle; OP_assignassertle].

Definition IsDAssign : Opcode -> bool := one_of [OP_dassign; OP_maydassign].

Definition IsCallAssigned : Opcode -> bool :=
  one_of [OP_callassigned; OP_virtualcallassigned; OP_virtualicallassigned; OP_superclasscallassigned;
    OP_interfacecallassigned; OP_interfaceicallassigned; OP_customcallassigned;
    OP_polymorphiccallassigned; OP_icallassigned; OP_icallprotoassigned; OP_intrinsiccallassigned;
    OP_xintrinsiccallassigned; OP_intrinsiccallwithtypeassigned].

Definition IsBranch : Opcode -> bool := one_of [OP_goto; OP_brtrue; OP_brfalse; OP_switch; OP_igoto].

Definition IsShift (opcode : Opcode) : bool :=
  (opcode_num OP_ashr <=? opcode_num opcode)%N && (opcode_num opcode <=? opcode_num OP_shl)%N.

Definition IsLogicalShift : Opcode -> bool := one_of [OP_lshr; OP_shl].

Definition IsCommutative (opcode : Opcode) : bool :=
  match opcode with
  | OP_add | OP_mul | OP_max | OP_min | OP_band | OP_bior | OP_bxor | OP_eq | OP_ne
  | OP_land | OP_lior => true
  | _ => false
  end.

Definition IsStmtMustRequire : Opcode -> bool :=
  one_of ([OP_jstry; OP_throw; OP_try; OP_catch; OP_jscatch; OP_finally; OP_endtry; OP_cleanuptry;
    OP_gosub; OP_retsub; OP_return; OP_call; OP_virtualcall; OP_virtualicall; OP_superclasscall;
    OP_interfacecall; OP_interfaceicall; OP_customcall; OP_polymorphiccall; OP_callassigned;
    OP_virtualcallassigned; OP_virtualicallassigned; OP_superclasscallassigned;
    OP_interfacecallassigned; OP_interfaceicallassigned; OP_customcallassigned;
    OP_polymorphiccallassigned; OP_icall; OP_icallassigned; OP_icallproto; OP_icallprotoassigned;
    OP_xintrinsiccall; OP_intrinsiccallassigned; OP_xintrinsiccallassigned; OP_intrinsiccallwithtype;
    OP_intrinsiccallwithtypeassigned; OP_asm; OP_syncenter; OP_syncexit; OP_membaracquire;
    OP_membarrelease; OP_membarstoreload; OP_membarstorestore]
    ++ CASE_OP_ASSERT_NONNULL ++ CASE_OP_ASSERT_BOUNDARY
    ++ [OP_free; OP_incref; OP_decref; OP_decrefreset]).

Definition IsCompareHasReverseOp : Opcode -> bool :=
  one_of [OP_eq; OP_ne; OP_ge; OP_gt; OP_le; OP_lt].

Definition GetSwapCmpOp (op : Opcode) : res Opcode :=
  match op with
  | OP_eq => Ret OP_eq | OP_ne => Ret OP_ne | OP_ge => Ret OP_le
  | OP_gt => Ret OP_lt | OP_le => Ret OP_ge | OP_lt => Ret OP_gt
  | _ => Fault CheckFatal
  end.

Definition GetReverseCmpOp (op : Opcode) : res Opcode :=
  match op with
  | OP_eq => Ret OP_ne | OP_ne => Ret OP_eq | OP_ge => Ret OP_lt
  | OP_gt => Ret OP_le | OP_le => Ret OP_gt | OP_lt => Ret OP_ge
  | _ => Fault CheckFatal
  end.

Definition IsSupportedOpForCopyInPhasesLoopUnrollAndVRP (op : Opcode) (supportSwitch : bool) : bool :=
  if one_of ([OP_return; OP_comment; OP_goto; OP_dassign; OP_regassign; OP_brfalse; OP_brtrue;
    OP_maydassign; OP_iassign] ++ CASE_OP_ASSERT_NONNULL ++ CASE_OP_ASSERT_BOUNDARY ++
    [OP_call; OP_callassigned; OP_virtualcallassigned; OP_virtualicallassigned;
    OP_interfaceicallassigned; OP_interfacecallassigned; OP_intrinsiccall; OP_intrinsiccallassigned;
    OP_intrinsiccallwithtype; OP_intrinsiccallwithtypeassigned; OP_membaracquire;
    OP_membarstorestore; OP_membarstoreload; OP_membarrelease; OP_icall; OP_icallassigned;
    OP_icallproto; OP_icallprotoassigned; OP_asm; OP_eval; OP_incref; OP_decref; OP_decrefreset]) op
  then true
  else match op with OP_switch => supportSwitch | _ => false end.

(** ** Facts *)

Lemma opcode_num_inj a b : opcode_num a = opcode_num b -> a = b.
Proof.
  assert (forall o, nth_error all_Opcode (N.to_nat (opcode_num o)) = Some o) as Hn by (intros o; by destruct o).
  intros E. pose proof (Hn a) as Ha. rewrite E, (Hn b) in Ha. congruence.
Qed.

#[export] Instance Opcode_eq_dec : EqDecision Opcode.
Proof.
  intros a b. destruct (decide (opcode_num a = opcode_num b)) as [E|E].
  - left. by apply opcode_num_inj.
  - right. congruence.
Defined.

Lemma op_eqb_spec a b : op_eqb a b = true <-> a = b.
Proof.
  unfold op_eqb. rewrite N.eqb_eq. split; [apply opcode_num_inj|congruence].
Qed.

Lemma one_of_spec l o : one_of l o = true <-> In o l.
Proof.
  unfold one_of. rewrite existsb_exists. split.
  - intros (a & Ha & E). apply op_eqb_spec in E. by subst.
  - intros Ho. exists o. split; [done|]. by apply op_eqb_spec.
Qed.

Lemma all_Opcode_complete o : In o all_Opcode.
Proof.
  apply (nth_error_In _ (N.to_nat (opcode_num o))). by destruct o.
Qed.

(** A decidable statement on all opcodes, or on all pairs, is checked by
    evaluation. *)
Lemma opcode_check (p : Opcode -> bool) :
  forallb p all_Opcode = true -> forall o, p o = true.
Proof. intros Hp o. rewrite forallb_forall in Hp. apply Hp, all_Opcode_complete. Qed.

Lemma opcode_check2 (p : Opcode -> Opcode -> bool) :
  forallb (fun a => forallb (p a) all_Opcode) all_Opcode = true -> forall a b, p a b = true.
Proof.
  intros Hp a b. exact (opcode_check (p a) (opcode_check _ Hp a) b).
Qed.

Definition ret_b (r : res bool) : bool := match r with Ret b => b | Fault _ => false end.

Definition instant_assigned : list Opcode :=
  [OP_callinstantassigned; OP_virtualcallinstantassigned; OP_superclasscallinstantassigned;
   OP_interfacecallinstantassigned].

Lemma same_name_check a b :
  negb (bool_decide (name (OpcodeTable a) = name (OpcodeTable b))) || op_eqb a b
  || (IsDAssign a && IsDAssign b) || (one_of [OP_undef; OP_last] a && one_of [OP_undef; OP_last] b)
  = true.
Proof. revert a b. apply opcode_check2. vm_compute. reflexivity. Qed.

Lemma name_inj a b : a <> OP_undef -> a <> OP_last -> GetName a = GetName b ->
  a = b \/ (IsDAssign a = true /\ IsDAssign b = true).
Proof.
  intros Hu Hl E. pose proof (same_name_check a b) as H.
  assert (GetName a = Ret (name (OpcodeTable a))) as Ea by (by destruct a).
  rewrite Ea in E. destruct (decide (b = OP_last)) as [->|Hb]; [discriminate E|].
  assert (GetName b = Ret (name (OpcodeTable b))) as Eb by (by destruct b).
  rewrite Eb in E. injection E as E. rewrite bool_decide_eq_true_2 in H by done.
  rewrite !orb_true_iff, !andb_true_iff, op_eqb_spec, !one_of_spec in H. cbn in H.
  intuition congruence.
Qed.

(** ** The claims *)

(** The table of opcodes is consistent with the predicates on opcodes.
    Every opcode but OP_last has a row; a call that assigns its result is a
    call, and a call is a statement of variable size that uses and defines SSA
    names; the two IsCallAssigned agree but on the inline assembly and on the
    generic calls; the assertion opcodes are the ones flagged; the shifts are
    the three opcodes between ashr and shl; statements that must be kept are
    statements; and no two opcodes share a name, but dassign and maydassign. *)
Theorem opcode_table_consistent o :
  o <> OP_last ->
  (exists d, GetTableItemAt o = Ret d /\ 0 <= flag d < 2 ^ 16) /\
  (IsCallAssigned o = true -> table_IsCallAssigned o = Ret true) /\
  (table_IsCallAssigned o = Ret true ->
     IsCallAssigned o = true \/ o = OP_asm \/ In o instant_assigned) /\
  (table_IsCallAssigned o = Ret true \/ IsICall o = Ret true -> o <> OP_asm -> IsCall o = Ret true) /\
  (IsCall o = Ret true -> IsStmt o = Ret true /\ IsVarSize o = Ret true /\
     HasSSAUse o = Ret true /\ HasSSADef o = Ret true) /\
  IsAssertNonnull o = Ret (one_of CASE_OP_ASSERT_NONNULL o) /\
  IsAssertBoundary o = Ret (one_of CASE_OP_ASSERT_BOUNDARY o) /\
  (IsShift o = true <-> o = OP_ashr \/ o = OP_lshr \/ o = OP_shl) /\
  (IsStmtMustRequire o = true \/ IsBranch o = true -> IsStmt o = Ret true) /\
  (forall o', o <> OP_undef -> GetName o = GetName o' ->
     o = o' \/ (IsDAssign o = true /\ IsDAssign o' = true)).
Proof.
  intros Hlast. split_and!.
  - exists (OpcodeTable o). destruct o; done || (split; [reflexivity|vm_compute; split; congruence]).
  - destruct o; done.
  - destruct o; vm_compute; tauto || (intros; congruence).
  - destruct o; vm_compute; intros [?|?] ?; congruence.
  - destruct o; vm_compute; intros; (split_and!; reflexivity) || congruence.
  - destruct o; done.
  - destruct o; done.
  - destruct o; vm_compute; intuition congruence.
  - destruct o; vm_compute; intros [?|?]; congruence.
  - intros o' Hu E. by apply name_inj.
Qed.

Lemma opcode_table_consistent_witness : IsCall OP_virtualicallassigned = Ret true.
Proof.
  refine (proj1 (proj2 (proj2 (proj2 (opcode_table_consistent OP_virtualicallassigned ltac:(discriminate))))) _ _);
    [by left|discriminate].
Defined.

(** What a comparison opcode decides. *)
Definition cmp_sem (op : Opcode) (a b : Z) : option bool :=
  match op with
  | OP_eq => Some (a =? b) | OP_ne => Some (negb (a =? b))
  | OP_lt => Some (a <? b) | OP_le => Some (a <=? b)
  | OP_gt => Some (b <? a) | OP_ge => Some (b <=? a)
  | _ => None
  end.

(** Exactly the opcodes with a reverse are comparisons of integers; the
    reverse opcode decides the negation, the swapped opcode decides the same
    with the operands exchanged, both are involutions, and on any other opcode
    both functions stop. *)
Theorem compare_ops op :
  (IsCompareHasReverseOp op = true ->
     exists rev swap, GetReverseCmpOp op = Ret rev /\ GetSwapCmpOp op = Ret swap /\
       GetReverseCmpOp rev = Ret op /\ GetSwapCmpOp swap = Ret op /\
       forall a b, exists r, cmp_sem op a b = Some r /\ cmp_sem rev a b = Some (negb r) /\
         cmp_sem swap b a = Some r) /\
  (IsCompareHasReverseOp op = false ->
     (forall a b, cmp_sem op a b = None) /\
     GetReverseCmpOp op = Fault CheckFatal /\ GetSwapCmpOp op = Fault CheckFatal).
Proof.
  split; [|destruct op; done]. intros Hop.
  destruct op; try discriminate Hop; do 2 eexists; (split_and!; [reflexivity..|]);
    intros a b; eexists; (split; [reflexivity|]); cbn;
    rewrite ?negb_involutive, ?(Z.eqb_sym b a), ?Z.ltb_antisym, ?Z.leb_antisym, ?negb_involutive; done.
Qed.

Lemma compare_ops_witness : GetReverseCmpOp OP_lt = Ret OP_ge.
Proof.
  destruct (proj1 (compare_ops OP_lt) eq_refl) as (rev & _ & E & _ & E' & _).
  rewrite E. vm_compute in E. congruence.
Defined.

(** OPCODEISCOMPARE is documented as the six comparisons; cmp, cmpl and cmpg
    carry it too. *)
Example nine_compares :
  length (filter (fun o => ret_b (IsCompare o) = true) all_Opcode) = 9%nat.
Proof. vm_compute. reflexivity. Qed.
