(* ===== verification/IntWords.v ===== *)
(** * Word arrays of IntVal

    The file-local helpers of maple_util/src/mpl_int_val.cpp: carries and
    borrows, bit counts, 64x64 multiplication from 32-bit halves, shifts and
    comparison of word arrays, and the schoolbook division with remainder on
    32-bit words.  [tb] is the template parameter [T] (32 for uint32, 64 for
    uint64); an array is a list of words, least significant first, and [eval]
    is the integer it stands for. *)
From S2P Require Import Prelude.

(** ** Carries and borrows: the new word and the carry out *)

Definition SubBorrow (tb dst src : Z) : Z * Z :=
  let tmp := dst in
  let dst := wrap tb (dst - src) in
  (dst, if tmp <? dst then 1 else 0).

Definition AddCarry (tb dst src : Z) : Z * Z :=
  let dst := wrap tb (dst + src) in
  (dst, if dst <? src then 1 else 0).

(** ** Bit counts ([__builtin_clz] and friends are defined on non-zero words) *)

Definition builtin_clz (tb word : Z) : Z := tb - 1 - Z.log2 word.

Fixpoint pos_ctz (p : positive) : Z :=
  match p with xO q => 1 + pos_ctz q | _ => 0 end.
Definition builtin_ctz (word : Z) : Z :=
  match word with Zpos p => pos_ctz p | _ => 0 end.

Fixpoint pos_popcount (p : positive) : Z :=
  match p with xO q => pos_popcount q | xI q => 1 + pos_popcount q | xH => 1 end.
Definition builtin_popcount (word : Z) : Z :=
  match word with Zpos p => pos_popcount p | _ => 0 end.

Definition CountLeadingZeros_word (tb word : Z) : Z :=
  if word =? 0 then tb else builtin_clz tb word.
Definition CountLeadingOnes_word (tb word : Z) : Z :=
  if word =? ones tb then tb else builtin_clz tb (notw tb word).
Definition CountTrallingZeros_word (tb word : Z) : Z :=
  if word =? 0 then tb else builtin_ctz word.
Definition CountTrallingOnes_word (tb word : Z) : Z :=
  if word =? ones tb then tb else builtin_ctz (notw tb word).

(** ** 64-bit words as pairs of 32-bit halves *)

Record LoHi : Set := MkLoHi { lo : Z; hi : Z }.

Definition GetLoHi (value : Z) : LoHi :=
  MkLoHi (wrap 32 value) (wrap 32 (shr 64 value 32)).

Definition CombineLoHi (halfs : LoHi) : Z :=
  wrap 64 (shl 64 (hi halfs) 32 + lo halfs).

(** The pair {overflow, result}. *)
Definition MulOverflow (src0 src1 : LoHi) : res (Z * Z) :=
  let mulLo0Lo1 := GetLoHi (wrap 64 (lo src0 * lo src1)) in
  let mulLo0Hi1 := GetLoHi (wrap 64 (lo src0 * hi src1)) in
  let mulHi0Lo1 := GetLoHi (wrap 64 (hi src0 * lo src1)) in
  let mulHi0Hi1 := GetLoHi (wrap 64 (hi src0 * hi src1)) in
  let resultLo := lo mulLo0Lo1 in
  let '(resultHi, c1) := AddCarry 32 (hi mulLo0Lo1) (lo mulLo0Hi1) in
  let '(resultHi, c2) := AddCarry 32 resultHi (lo mulHi0Lo1) in
  let result := CombineLoHi (MkLoHi resultLo resultHi) in
  let overflowLo := wrap 32 (c1 + c2) in
  let '(overflowLo, d1) := AddCarry 32 overflowLo (hi mulLo0Hi1) in
  let '(overflowLo, d2) := AddCarry 32 overflowLo (hi mulHi0Lo1) in
  let '(overflowLo, d3) := AddCarry 32 overflowLo (lo mulHi0Hi1) in
  let carry := wrap 32 (d1 + d2 + d3) in
  let overflowHi := wrap 32 (hi mulHi0Hi1 + carry) in
  _ ← ASSERT (carry <=? overflowHi);
  Ret (CombineLoHi (MkLoHi overflowLo overflowHi), result).

(** dst += ((src * multiplier) << 64 * part), on the [numParts] words of dst *)
Definition MulPart (dst src : list Z) (multiplier : Z) (part numParts : nat) : res (list Z) :=
  _ ← ASSERT (part <? numParts)%nat;
  for_up (numParts - part) 0 (fun i dst =>
    s ← rd src i;
    mul ← MulOverflow (GetLoHi s) (GetLoHi multiplier);
    let '(overflow, result) := mul in
    _ ← ASSERT (result =? wrap 64 (s * multiplier));
    d ← rd dst (part + i);
    let '(d, carry) := AddCarry 64 d result in
    dst ← wr dst (part + i) d;
    if (part + i + 1 <? numParts)%nat then
      d ← rd dst (part + i + 1);
      let '(d, carry) := AddCarry 64 d carry in
      let '(d, carry') := AddCarry 64 d overflow in
      dst ← wr dst (part + i + 1) d;
      r ← while_up (numParts - (part + i + 2)) (part + i + 2)
            (fun st => negb (snd st =? 0))
            (fun j st =>
               d ← rd (fst st) j;
               let '(d, carry) := AddCarry 64 d (snd st) in
               dst ← wr (fst st) j d;
               Ret (dst, carry))
            (dst, carry + carry');
      Ret (fst r)
    else Ret dst) dst.

(** ** Shifts of word arrays, in place

    memmove_s of libboundscheck, of as many words to [o] as there is room for: it
    is documented to report an error, which is fatal here, for a destination of
    size 0.  memset_s reports one for such a destination only if there is something
    to write, so the fills are a [blit] of any size. *)

Definition memmove_s (dst : list Z) (o : nat) (src : list Z) : res (list Z) :=
  _ ← CHECK_FATAL (0 <? length src)%nat;
  blit dst o src.

Definition ShiftLeft (tb : Z) (dst : list Z) (numWords : nat) (bits : Z) : res (list Z) :=
  _ ← ASSERT (bits <=? Z.of_nat numWords * tb);
  if bits =? 0 then Ret dst
  else
    let shiftWords := Z.to_nat (bits / tb) in
    let shiftBits := bits mod tb in
    dst ← (if shiftBits =? 0 then
             src ← slice dst 0 (numWords - shiftWords);
             memmove_s dst shiftWords src
           else
             for_down (numWords - shiftWords) shiftWords (fun i dst =>
               x ← rd dst (i - shiftWords);
               dst ← wr dst i (shl tb x shiftBits);
               if (shiftWords <? i)%nat then
                 y ← rd dst i;
                 z ← rd dst (i - (shiftWords + 1));
                 wr dst i (Z.lor y (shr tb z (tb - shiftBits)))
               else Ret dst) dst);
    blit dst 0 (replicate shiftWords 0).

Definition ShiftRight (tb : Z) (dst : list Z) (numWords : nat) (bits : Z)
    (negRemainder : bool) : res (list Z) :=
  if bits =? 0 then Ret dst
  else
    _ ← ASSERT (bits <=? Z.of_nat numWords * tb);
    let shiftWords := Z.to_nat (bits / tb) in
    let shiftBits := bits mod tb in
    dst ← (if shiftBits =? 0 then
             src ← slice dst shiftWords (numWords - shiftWords);
             memmove_s dst 0 src
           else
             for_up (numWords - shiftWords) shiftWords (fun i dst =>
               tmp ← rd dst i;
               dst ← wr dst (i - shiftWords) (shr tb tmp shiftBits);
               if (shiftWords + 1 <=? i)%nat then
                 y ← rd dst (i - (shiftWords + 1));
                 wr dst (i - (shiftWords + 1)) (Z.lor y (shl tb tmp (tb - shiftBits)))
               else Ret dst) dst);
    let remainderFiller := if negRemainder then ones tb else 0 in
    dst ← blit dst (numWords - shiftWords) (replicate shiftWords remainderFiller);
    if negb (shiftBits =? 0) then
      y ← rd dst (numWords - (shiftWords + 1));
      wr dst (numWords - (shiftWords + 1)) (Z.lor y (shl tb remainderFiller (tb - shiftBits)))
    else Ret dst.

(** ** Unsigned comparison of the low [comparedWidth] bits of two arrays

    The mask of the last word is [uint64(~0) >> (bitSize - remain)], a shift by 64
    for uint64 words and a multiple of 64 bits. *)

Fixpoint compare_below (lhs rhs : list Z) (i : nat) : res Z :=
  match i with
  | O => Ret 0
  | S i =>
      l ← rd lhs i;
      r ← rd rhs i;
      if negb (l =? r) then Ret (if l <? r then -1 else 1) else compare_below lhs rhs i
  end.

(** The last word under the mask, then the words below it *)
Definition compare_words (mask : Z) (lhs rhs : list Z) (i : nat) : res Z :=
  l ← rd lhs i;
  r ← rd rhs i;
  if negb (Z.land l mask =? Z.land r mask)
  then Ret (if Z.land l mask <? Z.land r mask then -1 else 1)
  else compare_below lhs rhs i.

Definition BitwiseCompare (tb : Z) (lhs rhs : list Z) (comparedWidth : Z) : res Z :=
  let remain := comparedWidth mod tb in
  let numWords := wrap 16 (comparedWidth + tb - 1) / tb in
  _ ← ASSERT (negb (numWords =? 0));
  let i := Z.to_nat (numWords - 1) in
  _ ← CHECK_SHIFT 64 (tb - remain);
  let mask := shr 64 (ones 64) (tb - remain) in
  compare_words mask lhs rhs i.

(** ** Division on 32-bit words *)

Definition GetNumHalfWords (bitWidth : Z) : Z := wrap 16 (bitWidth + 32 - 1) / 32.

(** dst = dst - src0 * src1; the words and the overflow (borrow) *)
Definition MulSubOverflow (dst src0 : list Z) (src1 : Z) (numWords : nat) : res (list Z * Z) :=
  for_up numWords 0 (fun i st =>
    let '(dst, overflow) := st in
    s ← rd src0 i;
    let mulRes := GetLoHi (wrap 64 (s * src1)) in
    d ← rd dst i;
    let '(d, borrow) := SubBorrow 32 d (lo mulRes) in
    dst ← wr dst i d;
    let borrow := wrap 32 (borrow + hi mulRes) in
    r ← while_up (numWords - (i + 1)) (i + 1)
          (fun st => negb (snd st =? 0))
          (fun j st =>
             d ← rd (fst st) j;
             let '(d, borrow) := SubBorrow 32 d (snd st) in
             dst ← wr (fst st) j d;
             Ret (dst, borrow))
          (dst, borrow);
    Ret (fst r, wrap 32 (overflow + snd r))) (dst, 0).

(** dst = dst + src0 * src1; the words and the overflow (carry) *)
Definition MulAddOverflow (dst src0 : list Z) (src1 : Z) (numWords : nat) : res (list Z * Z) :=
  for_up numWords 0 (fun i st =>
    let '(dst, overflow) := st in
    s ← rd src0 i;
    let mulRes := GetLoHi (wrap 64 (s * src1)) in
    d ← rd dst i;
    let '(d, carry) := AddCarry 32 d (lo mulRes) in
    dst ← wr dst i d;
    let carry := wrap 32 (carry + hi mulRes) in
    r ← while_up (numWords - (i + 1)) (i + 1)
          (fun st => negb (snd st =? 0))
          (fun j st =>
             d ← rd (fst st) j;
             let '(d, carry) := AddCarry 32 d (snd st) in
             dst ← wr (fst st) j d;
             Ret (dst, carry))
          (dst, carry);
    Ret (fst r, wrap 32 (overflow + snd r))) (dst, 0).

(** Shift so that the top word of [b] has no leading zero: {k, A * 2^k, B * 2^k}. *)
Definition Normalize (a b : list Z) (n m : nat) : res (Z * list Z * list Z) :=
  _ ← ASSERT (0 <? n)%nat;
  top ← rd b (n - 1);
  let shift := CountLeadingZeros_word 32 top in
  _ ← ASSERT (shift <? 32);
  b ← ShiftLeft 32 b n shift;
  a ← ShiftLeft 32 a (n + m) shift;
  Ret (shift, a, b).

(** The array bShifted: B * 2^(32 j) on [n + m] words. *)
Definition BShifted (b : list Z) (n m j : nat) : res (list Z) :=
  src ← slice b 0 n;
  bShifted ← blit (replicate (n + m) 0) 0 src;
  bShifted ← blit bShifted n (replicate m 0);
  ShiftLeft 32 bShifted (n + m) (Z.of_nat j * 32).

(** One digit of the quotient: the estimate from the two top words of [a] and
    the top word of [b], the multiplication-subtraction, and at most two
    corrections. *)
Definition BasecaseDigit (b : list Z) (n m j : nat) (st : list Z * list Z)
    : res (list Z * list Z) :=
  let '(q, a) := st in
  a0 ← rd a (n + j - 1);
  a1 ← rd a (n + j);
  btop ← rd b (n - 1);
  _ ← (if btop =? 0 then Fault DivByZero else Ret tt);
  let quotient := CombineLoHi (MkLoHi a0 a1) / btop in
  let quotientLoHi := GetLoHi quotient in
  let qj := if negb (hi quotientLoHi =? 0) then ones 32 else lo quotientLoHi in
  q ← wr q j qj;
  bShifted ← BShifted b n m j;
  sub ← MulSubOverflow a bShifted qj (n + m);
  r ← while_fuel 3
        (fun st => let '(_, _, borrow, _) := st in negb (borrow =? 0))
        (fun st =>
           let '(qj, a, borrow, counter) := st in
           _ ← CHECK_FATAL (counter <? 2);
           let qj := wrap 32 (qj - 1) in
           add ← MulAddOverflow a bShifted 1 (n + m);
           Ret (qj, fst add, wrap 32 (borrow - snd add), counter + 1))
        (qj, fst sub, snd sub, 0);
  let '(qj, a, _, _) := r in
  q ← wr q j qj;
  Ret (q, a).

(** Quotient [q] (m + 1 words) and remainder (n + m words) of [a] by [b]. *)
Definition BasecaseDivRem (q a b : list Z) (n m : nat) : res (list Z * list Z) :=
  _ ← ASSERT ((0 <? n)%nat && (1 <=? m)%nat);
  bShifted ← BShifted b n m m;
  cmp ← BitwiseCompare 32 a bShifted (wrap 16 (Z.of_nat (n + m) * 32));
  qa ← (if cmp <? 0 then
          q ← wr q m 0;
          Ret (q, a)
        else
          q ← wr q m 1;
          sub ← MulSubOverflow a bShifted 1 (n + m);
          Ret (q, fst sub));
  qa ← for_down m 0 (BasecaseDigit b n m) qa;
  r ← slice (snd qa) 0 (n + m);
  Ret (fst qa, r).

(** The 32-bit view of an array of 64-bit words (little-endian host), and
    back with zero filling. *)
Definition as_uint32 (ws : list Z) : list Z :=
  flat_map (fun w => [lo (GetLoHi w); hi (GetLoHi w)]) ws.

Fixpoint as_uint64 (hs : list Z) : list Z :=
  match hs with
  | l :: h :: t => CombineLoHi (MkLoHi l h) :: as_uint64 t
  | [l] => [CombineLoHi (MkLoHi l 0)]
  | [] => []
  end.

Definition CopyUint32ToUint64 (dstSize : nat) (src : list Z) (srcSize : nat) : res (list Z) :=
  _ ← ASSERT (srcSize * 4 <=? dstSize * 8)%nat;
  s ← slice src 0 srcSize;
  dst ← blit (replicate (2 * dstSize) 0) 0 s;
  Ret (as_uint64 dst).
