(* ===== verification/IntWordsFacts.v ===== *)
(** * Correctness of the word-array helpers

    Carries, products and array shifts computed by the helpers of
    mpl_int_val.cpp, stated on the integers ([eval]) the arrays stand for. *)
From S2P Require Import Prelude.
From S2P Require Import IntWords.

(** ** Carries and products of words *)

Lemma AddCarry_spec (tb d s : Z) :
  0 <= tb -> 0 <= d < 2 ^ tb -> 0 <= s < 2 ^ tb ->
  exists d' c, AddCarry tb d s = (d', c) /\ d' + 2 ^ tb * c = d + s /\
    0 <= d' < 2 ^ tb /\ 0 <= c <= 1.
Proof.
  intros Htb Hd Hs. unfold AddCarry. eexists _, _. split; [done|].
  destruct (decide (d + s < 2 ^ tb)).
  - rewrite wrap_small by lia. destruct (Z.ltb_spec (d + s) s); lia.
  - rewrite (wrap_unique tb _ (d + s - 2 ^ tb) 1) by lia.
    destruct (Z.ltb_spec (d + s - 2 ^ tb) s); lia.
Qed.

Lemma SubBorrow_spec (tb d s : Z) :
  0 <= tb -> 0 <= d < 2 ^ tb -> 0 <= s < 2 ^ tb ->
  exists d' c, SubBorrow tb d s = (d', c) /\ d' - 2 ^ tb * c = d - s /\
    0 <= d' < 2 ^ tb /\ 0 <= c <= 1.
Proof.
  intros Htb Hd Hs. unfold SubBorrow. eexists _, _. split; [done|].
  destruct (decide (s <= d)).
  - rewrite wrap_small by lia. destruct (Z.ltb_spec d (d - s)); lia.
  - rewrite (wrap_unique tb _ (d - s + 2 ^ tb) (-1)) by lia.
    destruct (Z.ltb_spec d (d - s + 2 ^ tb)); lia.
Qed.

Lemma GetLoHi_spec (v : Z) :
  0 <= v < 2 ^ 64 ->
  lo (GetLoHi v) + 2 ^ 32 * hi (GetLoHi v) = v /\
  0 <= lo (GetLoHi v) < 2 ^ 32 /\ 0 <= hi (GetLoHi v) < 2 ^ 32.
Proof.
  intros Hv. unfold GetLoHi, shr. cbn [lo hi]. rewrite (Z.mod_small 32) by lia.
  rewrite Z.shiftr_div_pow2 by lia.
  assert (0 <= v / 2 ^ 32 < 2 ^ 32) as Hq.
  { split; [apply Z.div_pos; lia|apply Z.div_lt_upper_bound; lia]. }
  rewrite (wrap_small 32 (v / 2 ^ 32)) by done.
  split; [|split; [apply wrap_range; lia|done]].
  pose proof (Z.div_mod v (2 ^ 32)). unfold wrap. lia.
Qed.

Lemma CombineLoHi_spec (l h : Z) :
  0 <= l < 2 ^ 32 -> 0 <= h < 2 ^ 32 -> CombineLoHi (MkLoHi l h) = l + 2 ^ 32 * h.
Proof.
  intros Hl Hh. unfold CombineLoHi, shl. cbn [lo hi].
  rewrite (Z.mod_small 32) by lia. rewrite Z.shiftl_mul_pow2 by lia.
  rewrite (wrap_small 64 (h * 2 ^ 32)) by lia. rewrite wrap_small; lia.
Qed.

Lemma mul_bound (B a b : Z) : 0 <= a < B -> 0 <= b < B -> 0 <= a * b < B * B.
Proof. nia. Qed.

(** Product of two words, halves of the result. *)
Lemma GetLoHi_mul (a b : Z) :
  0 <= a < 2 ^ 32 -> 0 <= b < 2 ^ 32 ->
  exists l h, GetLoHi (wrap 64 (a * b)) = MkLoHi l h /\ l + 2 ^ 32 * h = a * b /\
    0 <= l < 2 ^ 32 /\ 0 <= h < 2 ^ 32 - 1.
Proof.
  intros Ha Hb. pose proof (mul_bound (2 ^ 32 - 1 + 1) a b).
  assert (0 <= a * b <= (2 ^ 32 - 1) * (2 ^ 32 - 1)) by nia.
  rewrite wrap_small by lia.
  destruct (GetLoHi_spec (a * b)) as (He & Hl & Hh); [lia|].
  destruct (GetLoHi (a * b)) as [l h]. cbn [lo hi] in *.
  exists l, h. split_and!; try done; lia.
Qed.

Ltac add_carry d' c :=
  match goal with
  | |- context [AddCarry ?tb ?d ?s] =>
      let H := fresh "Hac" in
      let Hr := fresh "Hr" in let Hc := fresh "Hc" in let E := fresh "E" in
      destruct (AddCarry_spec tb d s) as (d' & c & E & H & Hr & Hc);
      [lia|lia|lia|rewrite E; clear E]
  end.

Lemma MulOverflow_spec (a b : Z) :
  0 <= a < 2 ^ 64 -> 0 <= b < 2 ^ 64 ->
  exists ov r, MulOverflow (GetLoHi a) (GetLoHi b) = Ret (ov, r) /\
    r + 2 ^ 64 * ov = a * b /\ 0 <= r < 2 ^ 64 /\ 0 <= ov < 2 ^ 64 - 1 /\
    r = wrap 64 (a * b).
Proof.
  intros Ha Hb.
  destruct (GetLoHi_spec a Ha) as (Ea & Ha0 & Ha1).
  destruct (GetLoHi_spec b Hb) as (Eb & Hb0 & Hb1).
  destruct (GetLoHi a) as [a0 a1]. destruct (GetLoHi b) as [b0 b1]. cbn [lo hi] in *.
  unfold MulOverflow. cbn [lo hi].
  destruct (GetLoHi_mul a0 b0) as (l00 & h00 & -> & E00 & ? & ?); [done..|].
  destruct (GetLoHi_mul a0 b1) as (l01 & h01 & -> & E01 & ? & ?); [done..|].
  destruct (GetLoHi_mul a1 b0) as (l10 & h10 & -> & E10 & ? & ?); [done..|].
  destruct (GetLoHi_mul a1 b1) as (l11 & h11 & -> & E11 & ? & ?); [done..|].
  cbn [lo hi].
  assert (a * b = a0 * b0 + 2 ^ 32 * (a0 * b1 + a1 * b0) + 2 ^ 64 * (a1 * b1)) as Eab.
  { rewrite <- Ea, <- Eb. ring. }
  assert (0 <= a * b <= (2 ^ 64 - 1) * (2 ^ 64 - 1)) as Hab by nia.
  add_carry r1 c1. add_carry r2 c2.
  rewrite (wrap_small 32 (c1 + c2)) by lia.
  add_carry o1 d1. add_carry o2 d2. add_carry o3 d3.
  rewrite (wrap_small 32 (d1 + d2 + d3)) by lia.
  rewrite (wrap_small 32 (h11 + (d1 + d2 + d3))) by lia.
  rewrite !CombineLoHi_spec by lia.
  unfold ASSERT. destruct (Z.leb_spec (d1 + d2 + d3) (h11 + (d1 + d2 + d3))); [|lia].
  cbn. eexists _, _. split; [done|].
  split_and!; try lia.
  symmetry. apply (wrap_unique 64 _ _ (o3 + 2 ^ 32 * (h11 + (d1 + d2 + d3)))); lia.
Qed.

(** ** Carry propagation through an array

    The inner [while] loops of MulPart, MulSubOverflow and MulAddOverflow:
    what is carried past word [j] is either absorbed or leaves at the top. *)

Definition array_ok (tb : Z) (n : nat) (ws : list Z) : Prop := words tb ws /\ length ws = n.

Lemma array_ok_wr (tb : Z) (n : nat) (ws : list Z) (i : nat) (x : Z) :
  array_ok tb n ws -> 0 <= x < 2 ^ tb -> array_ok tb n (<[i := x]> ws).
Proof. intros [Hw Hl] Hx. split; [by apply words_insert|by rewrite length_insert]. Qed.

Lemma array_ok_at (tb : Z) (n : nat) (ws : list Z) (i : nat) :
  0 < tb -> array_ok tb n ws -> 0 <= ws.[i] < 2 ^ tb.
Proof. intros Htb [Hw _]. by apply words_lookup. Qed.

Lemma array_ok_length (tb : Z) (n : nat) (ws : list Z) : array_ok tb n ws -> length ws = n.
Proof. by intros []. Qed.

Lemma array_ok_eval (tb : Z) (n : nat) (ws : list Z) :
  0 < tb -> array_ok tb n ws -> 0 <= eval tb ws < 2 ^ (tb * Z.of_nat n).
Proof. intros Htb [Hw <-]. by apply eval_range. Qed.

Create HintDb arrays.
#[export] Hint Resolve array_ok_wr array_ok_at : arrays.

Lemma pow_limb_add (tb : Z) (i k : nat) :
  0 <= tb -> 2 ^ (tb * Z.of_nat (i + k)) = 2 ^ (tb * Z.of_nat i) * 2 ^ (tb * Z.of_nat k).
Proof. intros. rewrite <- Z.pow_add_r by nia. f_equal. nia. Qed.

Section CarryLoops.
Context (tb : Z) (Htb : 0 < tb) (n : nat).

Definition add_body (j : nat) (st : list Z * Z) : res (list Z * Z) :=
  d ← rd (fst st) j;
  let '(d, carry) := AddCarry tb d (snd st) in
  dst ← wr (fst st) j d;
  Ret (dst, carry).

Definition sub_body (j : nat) (st : list Z * Z) : res (list Z * Z) :=
  d ← rd (fst st) j;
  let '(d, borrow) := SubBorrow tb d (snd st) in
  dst ← wr (fst st) j d;
  Ret (dst, borrow).

Lemma carry_loop (j : nat) (dst : list Z) (c : Z) :
  array_ok tb n dst -> 0 <= c < 2 ^ tb -> (j <= n)%nat ->
  wp (while_up (n - j) j (fun st => negb (snd st =? 0)) add_body (dst, c))
    (fun st => array_ok tb n (fst st) /\ 0 <= snd st < 2 ^ tb /\
       eval tb (fst st) + snd st * 2 ^ (tb * Z.of_nat n) =
       eval tb dst + c * 2 ^ (tb * Z.of_nat j)).
Proof.
  intros Hd Hc Hj.
  set (V := eval tb dst + c * 2 ^ (tb * Z.of_nat j)).
  eapply wp_mono; [apply (wp_while_up (fun k st => array_ok tb n (fst st) /\
    0 <= snd st < 2 ^ tb /\ eval tb (fst st) + snd st * 2 ^ (tb * Z.of_nat k) = V))|].
  - done.
  - intros k [ws b] Hk (Hws & Hb & HV) _. unfold add_body. cbn [fst snd] in *.
    apply wp_bind, wp_rd; [rewrite (array_ok_length _ _ _ Hws); lia|].
    destruct (AddCarry_spec tb ws.[k] b) as (d' & c' & -> & Hac & Hd' & Hc');
      [lia|eauto with arrays|done|].
    apply wp_bind, wp_wr; [rewrite (array_ok_length _ _ _ Hws); lia|].
    apply wp_ret. cbn [fst snd]. split; [eauto with arrays|]. split; [pose proof (Z.pow_gt_1 2 tb); lia|].
    rewrite eval_insert by (rewrite ?(array_ok_length _ _ _ Hws); lia).
    rewrite pow_limb by done. nia.
  - intros [ws b] (k & Hk & (Hws & Hb & HV) & Hend). cbn [fst snd] in *.
    split; [done|]. split; [done|].
    destruct Hend as [->|Hz]; [by replace (j + (n - j))%nat with n in HV by lia|].
    apply negb_false_iff, Z.eqb_eq in Hz. subst b. lia.
Qed.

Lemma borrow_loop (j : nat) (dst : list Z) (c : Z) :
  array_ok tb n dst -> 0 <= c < 2 ^ tb -> (j <= n)%nat ->
  wp (while_up (n - j) j (fun st => negb (snd st =? 0)) sub_body (dst, c))
    (fun st => array_ok tb n (fst st) /\ 0 <= snd st < 2 ^ tb /\
       eval tb (fst st) - snd st * 2 ^ (tb * Z.of_nat n) =
       eval tb dst - c * 2 ^ (tb * Z.of_nat j)).
Proof.
  intros Hd Hc Hj.
  set (V := eval tb dst - c * 2 ^ (tb * Z.of_nat j)).
  eapply wp_mono; [apply (wp_while_up (fun k st => array_ok tb n (fst st) /\
    0 <= snd st < 2 ^ tb /\ eval tb (fst st) - snd st * 2 ^ (tb * Z.of_nat k) = V))|].
  - done.
  - intros k [ws b] Hk (Hws & Hb & HV) _. unfold sub_body. cbn [fst snd] in *.
    apply wp_bind, wp_rd; [rewrite (array_ok_length _ _ _ Hws); lia|].
    destruct (SubBorrow_spec tb ws.[k] b) as (d' & c' & -> & Hac & Hd' & Hc');
      [lia|eauto with arrays|done|].
    apply wp_bind, wp_wr; [rewrite (array_ok_length _ _ _ Hws); lia|].
    apply wp_ret. cbn [fst snd]. split; [eauto with arrays|]. split; [pose proof (Z.pow_gt_1 2 tb); lia|].
    rewrite eval_insert by (rewrite ?(array_ok_length _ _ _ Hws); lia).
    rewrite pow_limb by done. nia.
  - intros [ws b] (k & Hk & (Hws & Hb & HV) & Hend). cbn [fst snd] in *.
    split; [done|]. split; [done|].
    destruct Hend as [->|Hz]; [by replace (j + (n - j))%nat with n in HV by lia|].
    apply negb_false_iff, Z.eqb_eq in Hz. subst b. lia.
Qed.
End CarryLoops.

(** ** dst += (src * multiplier) << 64 * part, modulo the width of dst *)

(** What one step of the loop must establish: the product of one word, added
    at word [p] with its carries, the ones past word [n] dropped. *)
Definition mul_step (n p : nat) (ws : list Z) (r ov : Z) (dst' : list Z) : Prop :=
  array_ok 64 n dst' /\
  exists c, eval 64 dst' + c * 2 ^ (64 * Z.of_nat n) =
    eval 64 ws + (r + 2 ^ 64 * ov) * 2 ^ (64 * Z.of_nat p).

(** The high half of the product and the carry go to the next word, and
    their carries to the words after it. *)
Lemma MulPart_propagate (n p : nat) (ws1 : list Z) (c1 ov : Z) :
  array_ok 64 n ws1 -> 0 <= c1 <= 1 -> 0 <= ov < 2 ^ 64 -> (p + 1 < n)%nat ->
  wp (d ← rd ws1 (p + 1);
      let '(d, carry) := AddCarry 64 d c1 in
      let '(d, carry') := AddCarry 64 d ov in
      dst ← wr ws1 (p + 1) d;
      r ← while_up (n - (p + 2)) (p + 2) (fun st => negb (snd st =? 0))
            (fun j st =>
               d ← rd (fst st) j;
               let '(d, carry) := AddCarry 64 d (snd st) in
               dst ← wr (fst st) j d;
               Ret (dst, carry))
            (dst, carry + carry');
      Ret (fst r))
    (fun dst' => array_ok 64 n dst' /\
       exists c, eval 64 dst' + c * 2 ^ (64 * Z.of_nat n) =
         eval 64 ws1 + (c1 + ov) * 2 ^ (64 * Z.of_nat (p + 1))).
Proof.
  intros Hws1 Hc1 Hov Hpn.
  apply wp_bind, wp_rd; [rewrite (array_ok_length _ _ _ Hws1); lia|].
  pose proof (array_ok_at 64 n ws1 (p + 1) ltac:(lia) Hws1) as Hwp1.
  destruct (AddCarry_spec 64 ws1.[p + 1] c1) as (d2 & c2 & -> & H2 & Hd2 & Hc2); [lia..|].
  destruct (AddCarry_spec 64 d2 ov) as (d3 & c3 & -> & H3 & Hd3 & Hc3); [lia..|].
  apply wp_bind, wp_wr; [rewrite (array_ok_length _ _ _ Hws1); lia|].
  set (ws2 := <[(p + 1)%nat := d3]> ws1).
  assert (array_ok 64 n ws2) as Hws2 by eauto with arrays.
  assert (eval 64 ws2 = eval 64 ws1 + (c1 + ov - 2 ^ 64 * (c2 + c3)) * 2 ^ (64 * Z.of_nat (p + 1))) as E2.
  { unfold ws2. rewrite eval_insert by (rewrite ?(array_ok_length _ _ _ Hws1); lia).
    f_equal. f_equal. lia. }
  apply wp_bind. eapply wp_mono; [apply (carry_loop 64 ltac:(lia) n (p + 2)); [done|lia|lia]|].
  intros [ws3 c] (Hws3 & Hc & E3). cbn [fst snd] in *. apply wp_ret.
  split; [done|]. exists c.
  rewrite !pow_limb_add in E2, E3 |- * by lia.
  change (2 ^ (64 * Z.of_nat 1)) with (2 ^ 64) in *.
  change (2 ^ (64 * Z.of_nat 2)) with (2 ^ 64 * 2 ^ 64) in *. lia.
Qed.

Lemma MulPart_spec (dst src : list Z) (m : Z) (part n : nat) :
  array_ok 64 n dst -> array_ok 64 n src -> 0 <= m < 2 ^ 64 -> (part < n)%nat ->
  wp (MulPart dst src m part n)
    (fun dst' => array_ok 64 n dst' /\
       exists q, eval 64 dst' + q * 2 ^ (64 * Z.of_nat n) =
         eval 64 dst + m * eval 64 (take (n - part) src) * 2 ^ (64 * Z.of_nat part)).
Proof.
  intros Hdst Hsrc Hm Hp. unfold MulPart.
  apply wp_bind, wp_assert; [by apply Nat.ltb_lt|].
  apply (wp_for_up (fun i ws => array_ok 64 n ws /\
    exists q, eval 64 ws + q * 2 ^ (64 * Z.of_nat n) =
      eval 64 dst + m * eval 64 (take i src) * 2 ^ (64 * Z.of_nat part))).
  { split; [done|]. exists 0. rewrite take_0. cbn [eval]. lia. }
  intros i ws Hi [Hws [q Hq]].
  apply wp_bind, wp_rd; [rewrite (array_ok_length _ _ _ Hsrc); lia|].
  pose proof (array_ok_at 64 n src i ltac:(lia) Hsrc) as Hs.
  destruct (MulOverflow_spec src.[i] m Hs Hm) as (ov & r & -> & Hov & Hr & Hovr & Erw).
  cbn [mbind res_bind]. rewrite Erw, Z.eqb_refl. cbn [ASSERT mbind res_bind]. rewrite <- Erw.
  rewrite eval_take_S by (rewrite ?(array_ok_length _ _ _ Hsrc); lia).
  set (p := (part + i)%nat) in *.
  assert (2 ^ (64 * Z.of_nat i) * 2 ^ (64 * Z.of_nat part) = 2 ^ (64 * Z.of_nat p)) as Ep.
  { subst p. rewrite pow_limb_add by lia. ring. }
  eapply (wp_mono _ (mul_step n p ws r ov)).
  2:{ intros dst' [Hdst' [c Ec]]. split; [done|]. exists (q + c).
      assert (m * (eval 64 (take i src) + src.[i] * 2 ^ (64 * Z.of_nat i)) * 2 ^ (64 * Z.of_nat part)
        = m * eval 64 (take i src) * 2 ^ (64 * Z.of_nat part)
          + (r + 2 ^ 64 * ov) * 2 ^ (64 * Z.of_nat p)) as -> by (rewrite Hov, <- Ep; ring).
      lia. }
  apply wp_bind, wp_rd; [rewrite (array_ok_length _ _ _ Hws); lia|].
  pose proof (array_ok_at 64 n ws p ltac:(lia) Hws) as Hwp.
  destruct (AddCarry_spec 64 ws.[p] r) as (d1 & c1 & -> & H1 & Hd1 & Hc1); [lia..|].
  apply wp_bind, wp_wr; [rewrite (array_ok_length _ _ _ Hws); lia|].
  set (ws1 := <[p := d1]> ws).
  assert (array_ok 64 n ws1) as Hws1 by eauto with arrays.
  assert (eval 64 ws1 = eval 64 ws + (r - 2 ^ 64 * c1) * 2 ^ (64 * Z.of_nat p)) as E1.
  { unfold ws1. rewrite eval_insert by (rewrite ?(array_ok_length _ _ _ Hws); lia). f_equal. f_equal. lia. }
  unfold mul_step. destruct (Nat.ltb_spec (p + 1) n) as [Hpn|Hpn].
  - eapply wp_mono; [apply MulPart_propagate; [done|lia..]|].
    intros dst' [Hdst' [c Ec]]. split; [done|]. exists c.
    rewrite pow_limb_add in Ec by lia. change (2 ^ (64 * Z.of_nat 1)) with (2 ^ 64) in *. lia.
  - apply wp_ret. split; [done|]. exists (c1 + ov).
    assert (2 ^ (64 * Z.of_nat n) = 2 ^ 64 * 2 ^ (64 * Z.of_nat p)) as ->; [|lia].
    rewrite <- pow_limb by lia. f_equal. lia.
Qed.

(** ** dst -= src * m and dst += src * m on 32-bit words, with the overflow *)

Lemma eval_take_range (n i : nat) (src : list Z) :
  array_ok 32 n src -> (i <= n)%nat -> 0 <= eval 32 (take i src) < 2 ^ (32 * Z.of_nat n).
Proof.
  intros [Hw Hl] Hi.
  pose proof (eval_range 32 ltac:(lia) (take i src) ltac:(by apply Forall_take)) as H.
  rewrite length_take_le in H by lia.
  pose proof (Z.pow_le_mono_r 2 (32 * Z.of_nat i) (32 * Z.of_nat n)). lia.
Qed.

Lemma MulSubOverflow_spec (dst src : list Z) (m : Z) (n : nat) :
  array_ok 32 n dst -> array_ok 32 n src -> 0 <= m < 2 ^ 32 ->
  wp (MulSubOverflow dst src m n)
    (fun r => array_ok 32 n (fst r) /\ 0 <= snd r < 2 ^ 32 /\
       eval 32 (fst r) - snd r * 2 ^ (32 * Z.of_nat n) = eval 32 dst - m * eval 32 src).
Proof.
  intros Hdst Hsrc Hm. unfold MulSubOverflow.
  replace (eval 32 src) with (eval 32 (take n src))
    by (rewrite take_ge; [done|rewrite (array_ok_length _ _ _ Hsrc); lia]).
  apply (wp_for_up (fun i r => array_ok 32 n (fst r) /\ 0 <= snd r < 2 ^ 32 /\
    eval 32 (fst r) - snd r * 2 ^ (32 * Z.of_nat n) = eval 32 dst - m * eval 32 (take i src))).
  { rewrite take_0. cbn [fst snd eval]. split; [done|]. lia. }
  intros i [ws ov] Hi (Hws & Hov & HV). cbn [fst snd] in *.
  pose proof (array_ok_at 32 n src i ltac:(lia) Hsrc) as Hs.
  pose proof (array_ok_at 32 n ws i ltac:(lia) Hws) as Hd.
  apply wp_bind, wp_rd; [rewrite (array_ok_length _ _ _ Hsrc); lia|].
  destruct (GetLoHi_mul src.[i] m) as (l & h & -> & Elh & Hl & Hh); [done..|]. cbn [lo hi].
  apply wp_bind, wp_rd; [rewrite (array_ok_length _ _ _ Hws); lia|].
  destruct (SubBorrow_spec 32 ws.[i] l) as (d' & c & -> & Hc & Hd' & Hc'); [lia..|].
  apply wp_bind, wp_wr; [rewrite (array_ok_length _ _ _ Hws); lia|].
  rewrite (wrap_small 32 (c + h)) by lia.
  set (ws1 := <[i := d']> ws). assert (array_ok 32 n ws1) as Hws1 by eauto with arrays.
  assert (eval 32 ws1 = eval 32 ws + (d' - ws.[i]) * 2 ^ (32 * Z.of_nat i)) as E1.
  { apply eval_insert; [done|]. rewrite (array_ok_length _ _ _ Hws); lia. }
  apply wp_bind. eapply wp_mono; [apply (borrow_loop 32 ltac:(lia) n (i + 1)); [done|lia|lia]|].
  intros [ws2 b] (Hws2 & Hb & E2). cbn [fst snd] in *. apply wp_ret. cbn [fst snd].
  rewrite pow_limb_add in E2 by lia. change (2 ^ (32 * Z.of_nat 1)) with (2 ^ 32) in E2.
  pose proof (eval_take_range n (S i) src Hsrc ltac:(lia)) as HT.
  pose proof (array_ok_eval 32 n ws2 ltac:(lia) Hws2) as HE2.
  pose proof (array_ok_eval 32 n dst ltac:(lia) Hdst) as HE0.
  set (P := 2 ^ (32 * Z.of_nat n)) in *.
  assert (eval 32 ws2 - (ov + b) * P = eval 32 dst - m * eval 32 (take (S i) src)) as HV'.
  { rewrite eval_take_S by (rewrite ?(array_ok_length _ _ _ Hsrc); lia).
    replace (m * _) with (m * eval 32 (take i src) + (l + 2 ^ 32 * h) * 2 ^ (32 * Z.of_nat i))
      by (rewrite Elh; ring). lia. }
  rewrite wrap_small by nia. split; [done|]. split; [nia|done].
Qed.

Lemma MulAddOverflow_spec (dst src : list Z) (m : Z) (n : nat) :
  array_ok 32 n dst -> array_ok 32 n src -> 0 <= m < 2 ^ 32 ->
  wp (MulAddOverflow dst src m n)
    (fun r => array_ok 32 n (fst r) /\ 0 <= snd r < 2 ^ 32 /\
       eval 32 (fst r) + snd r * 2 ^ (32 * Z.of_nat n) = eval 32 dst + m * eval 32 src).
Proof.
  intros Hdst Hsrc Hm. unfold MulAddOverflow.
  replace (eval 32 src) with (eval 32 (take n src))
    by (rewrite take_ge; [done|rewrite (array_ok_length _ _ _ Hsrc); lia]).
  apply (wp_for_up (fun i r => array_ok 32 n (fst r) /\ 0 <= snd r < 2 ^ 32 /\
    eval 32 (fst r) + snd r * 2 ^ (32 * Z.of_nat n) = eval 32 dst + m * eval 32 (take i src))).
  { rewrite take_0. cbn [fst snd eval]. split; [done|]. lia. }
  intros i [ws ov] Hi (Hws & Hov & HV). cbn [fst snd] in *.
  pose proof (array_ok_at 32 n src i ltac:(lia) Hsrc) as Hs.
  pose proof (array_ok_at 32 n ws i ltac:(lia) Hws) as Hd.
  apply wp_bind, wp_rd; [rewrite (array_ok_length _ _ _ Hsrc); lia|].
  destruct (GetLoHi_mul src.[i] m) as (l & h & -> & Elh & Hl & Hh); [done..|]. cbn [lo hi].
  apply wp_bind, wp_rd; [rewrite (array_ok_length _ _ _ Hws); lia|].
  destruct (AddCarry_spec 32 ws.[i] l) as (d' & c & -> & Hc & Hd' & Hc'); [lia..|].
  apply wp_bind, wp_wr; [rewrite (array_ok_length _ _ _ Hws); lia|].
  rewrite (wrap_small 32 (c + h)) by lia.
  set (ws1 := <[i := d']> ws). assert (array_ok 32 n ws1) as Hws1 by eauto with arrays.
  assert (eval 32 ws1 = eval 32 ws + (d' - ws.[i]) * 2 ^ (32 * Z.of_nat i)) as E1.
  { apply eval_insert; [done|]. rewrite (array_ok_length _ _ _ Hws); lia. }
  apply wp_bind. eapply wp_mono; [apply (carry_loop 32 ltac:(lia) n (i + 1)); [done|lia|lia]|].
  intros [ws2 b] (Hws2 & Hb & E2). cbn [fst snd] in *. apply wp_ret. cbn [fst snd].
  rewrite pow_limb_add in E2 by lia. change (2 ^ (32 * Z.of_nat 1)) with (2 ^ 32) in E2.
  pose proof (eval_take_range n (S i) src Hsrc ltac:(lia)) as HT.
  pose proof (array_ok_eval 32 n ws2 ltac:(lia) Hws2) as HE2.
  pose proof (array_ok_eval 32 n dst ltac:(lia) Hdst) as HE0.
  set (P := 2 ^ (32 * Z.of_nat n)) in *.
  assert (eval 32 ws2 + (ov + b) * P = eval 32 dst + m * eval 32 (take (S i) src)) as HV'.
  { rewrite eval_take_S by (rewrite ?(array_ok_length _ _ _ Hsrc); lia).
    replace (m * _) with (m * eval 32 (take i src) + (l + 2 ^ 32 * h) * 2 ^ (32 * Z.of_nat i))
      by (rewrite Elh; ring). lia. }
  rewrite wrap_small by nia. split; [done|]. split; [nia|done].
Qed.

(** ** Bits of word arrays *)

Lemma testbit_eval_at (tb : Z) (ws : list Z) (k : nat) (r : Z) :
  0 < tb -> words tb ws -> 0 <= r < tb ->
  Z.testbit (eval tb ws) (tb * Z.of_nat k + r) = Z.testbit ws.[k] r.
Proof.
  intros Htb Hw Hr. rewrite testbit_eval by (done || nia).
  rewrite (Z.mul_comm tb), Z.div_add_l, Z.div_small, Z.add_0_r, Nat2Z.id by lia.
  by rewrite Z.add_comm, Z.mod_add, Z.mod_small by lia.
Qed.

(** An array whose words are the slices of [x] stands for [x] modulo its width. *)
Lemma eval_of_bits (tb : Z) (n : nat) (ws : list Z) (x : Z) :
  0 < tb -> array_ok tb n ws ->
  (forall k r, (k < n)%nat -> 0 <= r < tb ->
     Z.testbit ws.[k] r = Z.testbit x (tb * Z.of_nat k + r)) ->
  eval tb ws = wrap (tb * Z.of_nat n) x.
Proof.
  intros Htb Hok H. pose proof (array_ok_eval tb n ws Htb Hok) as Hr.
  apply bits_ext. intros i Hi. rewrite testbit_wrap by nia.
  destruct (Z.ltb_spec i (tb * Z.of_nat n)); simpl;
    [|by apply (testbit_above (tb * Z.of_nat n))].
  set (k := Z.to_nat (i / tb)). assert (0 <= i / tb) by (apply Z.div_pos; lia).
  pose proof (Z.div_mod i tb ltac:(lia)) as Hdm. pose proof (Z.mod_pos_bound i tb Htb).
  assert (i = tb * Z.of_nat k + i mod tb) as Ei by (unfold k; rewrite Z2Nat.id by lia; lia).
  rewrite Ei, testbit_eval_at by (apply Hok || lia).
  apply H; [|lia]. apply Nat2Z.inj_lt. nia.
Qed.

Lemma shl_bits (tb x s r : Z) :
  0 < tb -> 0 <= s < tb -> 0 <= r < tb ->
  Z.testbit (shl tb x s) r = Z.testbit x (r - s).
Proof.
  intros. unfold shl. rewrite testbit_wrap, (Z.mod_small s), Z.shiftl_spec by lia.
  by destruct (Z.ltb_spec r tb); [|lia].
Qed.

Lemma shr_bits (tb x s r : Z) :
  0 < tb -> 0 <= s < tb -> 0 <= r ->
  Z.testbit (shr tb x s) r = Z.testbit x (r + s).
Proof. intros. unfold shr. by rewrite (Z.mod_small s), Z.shiftr_spec by lia. Qed.

Lemma shl_in_word (tb x s : Z) : 0 < tb -> 0 <= shl tb x s < 2 ^ tb.
Proof. intros. apply wrap_range. lia. Qed.

Lemma shr_in_word (tb x s : Z) : 0 < tb -> 0 <= x < 2 ^ tb -> 0 <= shr tb x s < 2 ^ tb.
Proof. intros. apply shiftr_in_word; [|done]. pose proof (Z.mod_pos_bound s tb). lia. Qed.

#[export] Hint Resolve shl_in_word shr_in_word : arrays.

(** Two shifts of adjacent words, joined. *)
Definition join_words (tb : Z) (high low s : Z) : Z :=
  Z.lor (shl tb high s) (shr tb low (tb - s)).

Lemma join_words_ok (tb h l s : Z) :
  0 < tb -> 0 <= h < 2 ^ tb -> 0 <= l < 2 ^ tb -> 0 <= join_words tb h l s < 2 ^ tb.
Proof. intros. apply lor_in_word; [lia|eauto with arrays..]. Qed.

Lemma join_words_bits (tb h l s r : Z) :
  0 < s < tb -> 0 <= l < 2 ^ tb -> 0 <= r < tb ->
  Z.testbit (join_words tb h l s) r =
  if r <? s then Z.testbit l (r + (tb - s)) else Z.testbit h (r - s).
Proof.
  intros Hs Hl Hr. unfold join_words. rewrite Z.lor_spec, shl_bits, shr_bits by lia.
  destruct (Z.ltb_spec r s).
  - by rewrite (Z.testbit_neg_r h) by lia.
  - by rewrite (testbit_above tb l) by lia; rewrite orb_false_r.
Qed.

(** ** Left shift of an array *)

Section ShiftLeft.
Context (tb : Z) (Htb : 0 < tb) (n : nat) (dst : list Z) (Hdst : array_ok tb n dst).
Context (sw : nat) (sb : Z).

Definition left_word (k : nat) : Z :=
  if (sw <? k)%nat then join_words tb dst.[k - sw] dst.[k - (sw + 1)] sb
  else shl tb dst.[k - sw] sb.

Lemma shift_left_loop :
  0 < sb < tb -> (sw <= n)%nat ->
  wp (for_down (n - sw) sw (fun i ws =>
        x ← rd ws (i - sw);
        ws ← wr ws i (shl tb x sb);
        if (sw <? i)%nat then
          y ← rd ws i;
          z ← rd ws (i - (sw + 1));
          wr ws i (Z.lor y (shr tb z (tb - sb)))
        else Ret ws) dst)
    (fun ws => array_ok tb n ws /\
       (forall k, (k < sw)%nat -> ws.[k] = dst.[k]) /\
       (forall k, (sw <= k < n)%nat -> ws.[k] = left_word k)).
Proof.
  intros Hsb Hsw.
  apply (wp_for_down (fun j ws => array_ok tb n ws /\
    (forall k, (k < j)%nat -> ws.[k] = dst.[k]) /\
    (forall k, (j <= k < n)%nat -> ws.[k] = left_word k))).
  { split; [done|]. split; [done|lia]. }
  intros j ws Hj (Hws & Hlow & Hhigh). pose proof (array_ok_length _ _ _ Hws) as Hl.
  apply wp_bind, wp_rd; [lia|]. apply wp_bind, wp_wr; [lia|]. rewrite Hlow by lia.
  set (ws1 := <[j := _]> ws).
  assert (array_ok tb n ws1) as Hws1 by eauto with arrays.
  assert (forall k, (k < j)%nat -> ws1.[k] = dst.[k]) as Hlow1.
  { intros k Hk. unfold ws1. rewrite at_insert_ne by lia. apply Hlow. lia. }
  assert (forall k, (S j <= k < n)%nat -> ws1.[k] = left_word k) as Hhigh1.
  { intros k Hk. unfold ws1. rewrite at_insert_ne by lia. by apply Hhigh. }
  assert (ws1.[j] = shl tb dst.[j - sw] sb) as Hj1 by (apply at_insert_eq; lia).
  pose proof (array_ok_length _ _ _ Hws1) as Hl1.
  destruct (Nat.ltb_spec sw j) as [Hlt|Hge].
  - apply wp_bind, wp_rd; [lia|]. apply wp_bind, wp_rd; [lia|]. apply wp_wr; [lia|].
    rewrite Hj1, Hlow1 by lia. change (Z.lor _ _) with (join_words tb dst.[j - sw] dst.[j - (sw + 1)] sb).
    split; [apply array_ok_wr; [done|apply join_words_ok; eauto with arrays]|].
    split; intros k Hk.
    + rewrite at_insert_ne by lia. by apply Hlow1.
    + destruct (decide (k = j)) as [->|].
      * rewrite at_insert_eq by lia. unfold left_word. by destruct (Nat.ltb_spec sw j); [|lia].
      * rewrite at_insert_ne by lia. apply Hhigh1. lia.
  - apply wp_ret. split; [done|]. split; [done|]. intros k Hk.
    destruct (decide (k = j)) as [->|]; [|apply Hhigh1; lia].
    rewrite Hj1. unfold left_word. by destruct (Nat.ltb_spec sw j); [lia|].
Qed.

Lemma left_word_bits (k : nat) (r : Z) :
  0 < sb < tb -> (sw <= k < n)%nat -> 0 <= r < tb ->
  Z.testbit (left_word k) r =
  Z.testbit (Z.shiftl (eval tb dst) (tb * Z.of_nat sw + sb)) (tb * Z.of_nat k + r).
Proof.
  intros Hsb Hk Hr. destruct Hdst as [Hdw Hdl]. rewrite Z.shiftl_spec by nia.
  unfold left_word. destruct (Nat.ltb_spec sw k) as [Hlt|Hle].
  - rewrite join_words_bits by (done || by apply words_lookup).
    destruct (Z.ltb_spec r sb).
    + rewrite <- (testbit_eval_at tb dst (k - (sw + 1))) by (done || lia). f_equal. nia.
    + rewrite <- (testbit_eval_at tb dst (k - sw)) by (done || lia). f_equal. nia.
  - assert (k = sw) as -> by lia. rewrite Nat.sub_diag, shl_bits by lia.
    destruct (decide (r < sb)).
    + by rewrite !Z.testbit_neg_r by lia.
    + rewrite <- (testbit_eval_at tb dst 0) by (done || lia). f_equal. nia.
Qed.
End ShiftLeft.

Lemma blit_at (dst src : list Z) (o k : nat) :
  (o + length src <= length dst)%nat ->
  (take o dst ++ src ++ drop (o + length src) dst).[k] =
  if (k <? o)%nat then dst.[k]
  else if (k <? o + length src)%nat then src.[k - o] else dst.[k].
Proof.
  intros H. rewrite !nth_lookup.
  destruct (Nat.ltb_spec k o); [|destruct (Nat.ltb_spec k (o + length src))].
  - rewrite lookup_app_l by (rewrite length_take; lia). by rewrite lookup_take_lt.
  - rewrite lookup_app_r by (rewrite length_take; lia). rewrite length_take_le by lia.
    by rewrite lookup_app_l by lia.
  - rewrite lookup_app_r by (rewrite length_take; lia). rewrite length_take_le by lia.
    rewrite lookup_app_r by lia. rewrite lookup_drop. f_equal. f_equal. lia.
Qed.

Lemma blit_ok (tb : Z) (n : nat) (dst src : list Z) (o : nat) :
  (o + length src <= n)%nat -> array_ok tb n dst -> words tb src ->
  array_ok tb n (take o dst ++ src ++ drop (o + length src) dst).
Proof.
  intros Ho [Hw Hl] Hs. split.
  - apply Forall_app_2; [by apply Forall_take|]. apply Forall_app_2; [done|by apply Forall_drop].
  - rewrite !length_app, length_take, length_drop. lia.
Qed.

Lemma at_take (ws : list Z) (n k : nat) : (k < n)%nat -> (take n ws).[k] = ws.[k].
Proof. intros. rewrite !nth_lookup. by rewrite lookup_take_lt. Qed.

Lemma at_drop (ws : list Z) (n k : nat) : (drop n ws).[k] = ws.[n + k].
Proof. rewrite !nth_lookup. by rewrite lookup_drop. Qed.

Lemma zeros_ok (tb : Z) (k : nat) : 0 <= tb -> words tb (replicate k 0).
Proof. intros. apply Forall_replicate. pose proof (pow2_pos tb). lia. Qed.

Lemma wp_memmove_s (dst src : list Z) (o : nat) (Q : list Z -> Prop) :
  (0 < length src)%nat -> (o + length src <= length dst)%nat ->
  Q (take o dst ++ src ++ drop (o + length src) dst) -> wp (memmove_s dst o src) Q.
Proof.
  intros H1 H2 HQ. unfold memmove_s. apply wp_bind, wp_check; [by apply Nat.ltb_lt|]. by apply wp_blit.
Qed.

(** Splitting a shift count into whole words and bits. *)
Lemma shift_split (tb bits : Z) (n : nat) :
  0 < tb -> 0 <= bits < Z.of_nat n * tb ->
  exists sw sb, Z.to_nat (bits / tb) = sw /\ bits mod tb = sb /\
    bits = tb * Z.of_nat sw + sb /\ 0 <= sb < tb /\ (sw < n)%nat.
Proof.
  intros Htb Hb. exists (Z.to_nat (bits / tb)), (bits mod tb).
  pose proof (Z.div_mod bits tb ltac:(lia)). pose proof (Z.mod_pos_bound bits tb Htb).
  assert (0 <= bits / tb) by (apply Z.div_pos; lia).
  split; [done|]. split; [done|]. rewrite Z2Nat.id by done. split; [done|]. split; [done|].
  apply Nat2Z.inj_lt. rewrite Z2Nat.id by done. nia.
Qed.

(** A shift by all the bits leaves memmove_s no room. *)
Lemma full_shift (tb : Z) (n : nat) :
  0 < tb -> (0 < n)%nat ->
  (Z.of_nat n * tb =? 0) = false /\ Z.to_nat (Z.of_nat n * tb / tb) = n /\ Z.of_nat n * tb mod tb = 0.
Proof. intros Htb Hn. rewrite Z.div_mul, Z.mod_mul, Nat2Z.id by lia. split; [apply Z.eqb_neq; nia|done]. Qed.

Lemma ShiftLeft_full (tb : Z) (n : nat) (dst : list Z) :
  0 < tb -> (0 < n)%nat -> ShiftLeft tb dst n (Z.of_nat n * tb) = Fault CheckFatal.
Proof.
  intros Htb Hn. unfold ShiftLeft. destruct (full_shift tb n Htb Hn) as (-> & -> & ->).
  by rewrite Z.leb_refl, Nat.sub_diag.
Qed.

Theorem ShiftLeft_spec (tb : Z) (n : nat) (dst : list Z) (bits : Z) :
  0 < tb -> array_ok tb n dst -> 0 <= bits < Z.of_nat n * tb ->
  wp (ShiftLeft tb dst n bits) (fun ws => array_ok tb n ws /\
    eval tb ws = wrap (tb * Z.of_nat n) (Z.shiftl (eval tb dst) bits)).
Proof.
  intros Htb Hdst Hb. unfold ShiftLeft. apply wp_bind, wp_assert; [apply Z.leb_le; lia|].
  destruct (Z.eqb_spec bits 0) as [->|Hnz].
  { split; [done|]. rewrite Z.shiftl_0_r, wrap_small; [done|by apply array_ok_eval]. }
  destruct (shift_split tb bits n Htb Hb) as (sw & sb & -> & -> & -> & Hsb & Hsw).
  pose proof (array_ok_length _ _ _ Hdst) as Hl.
  apply wp_bind. eapply wp_mono with (Q := fun ws => array_ok tb n ws /\
    forall k r, (sw <= k < n)%nat -> 0 <= r < tb ->
      Z.testbit ws.[k] r =
      Z.testbit (Z.shiftl (eval tb dst) (tb * Z.of_nat sw + sb)) (tb * Z.of_nat k + r)).
  - destruct (Z.eqb_spec sb 0) as [->|Hsb0].
    + apply wp_bind, wp_slice; [lia|]. rewrite drop_0.
      apply wp_memmove_s; [rewrite length_take; lia..|].
      split. { apply blit_ok; [rewrite length_take; lia|done|apply Forall_take, Hdst]. }
      intros k r Hk Hr. rewrite blit_at by (rewrite length_take; lia). rewrite length_take_le by lia.
      destruct (Nat.ltb_spec k sw); [lia|]. destruct (Nat.ltb_spec k (sw + (n - sw))); [|lia].
      rewrite at_take by lia. rewrite Z.add_0_r, Z.shiftl_spec by nia.
      rewrite <- (testbit_eval_at tb dst (k - sw)) by (done || apply Hdst). f_equal. nia.
    + eapply wp_mono; [apply (shift_left_loop tb Htb n dst Hdst); lia|].
      intros ws (Hws & Hlow & Hhigh). split; [done|]. intros k r Hk Hr.
      rewrite Hhigh by done. apply (left_word_bits tb Htb n dst Hdst); lia.
  - intros ws (Hws & Hbits). apply wp_blit; [rewrite length_replicate, (array_ok_length _ _ _ Hws); lia|].
    assert (array_ok tb n (take 0 ws ++ replicate sw 0 ++ drop (0 + length (replicate sw 0)) ws)) as Hok.
    { apply blit_ok; [rewrite length_replicate; lia|done|apply zeros_ok; lia]. }
    split; [done|]. apply (eval_of_bits tb n); [done|done|]. intros k r Hk Hr.
    rewrite blit_at by (rewrite length_replicate, (array_ok_length _ _ _ Hws); lia).
    rewrite length_replicate. destruct (Nat.ltb_spec k 0); [lia|].
    destruct (Nat.ltb_spec k (0 + sw)); [|apply Hbits; lia].
    rewrite at_replicate, Z.testbit_0_l by lia. symmetry. rewrite Z.shiftl_spec by nia.
    apply Z.testbit_neg_r. assert (Z.of_nat k + 1 <= Z.of_nat sw) by lia. nia.
Qed.

(** ** Right shift of an array, logical or with sign filling *)

(** The integer an array stands for when its top is filled with the sign. *)
Definition signed_fill (W E : Z) (neg : bool) : Z := if neg then E - 2 ^ W else E.

Lemma signed_fill_bits (W E : Z) (neg : bool) (i : Z) :
  0 <= W -> 0 <= E < 2 ^ W -> 0 <= i ->
  Z.testbit (signed_fill W E neg) i = if i <? W then Z.testbit E i else neg.
Proof.
  intros HW HE Hi. unfold signed_fill. destruct neg.
  - destruct (Z.ltb_spec i W).
    + rewrite <- (wrap_unique W (E - 2 ^ W) E (-1)) at 2 by lia.
      rewrite testbit_wrap by done. by destruct (Z.ltb_spec i W); [|lia].
    + replace (E - 2 ^ W) with (Z.lnot (2 ^ W - 1 - E)) by (unfold Z.lnot; lia).
      rewrite Z.lnot_spec by done. by rewrite (testbit_above W) by lia.
  - destruct (Z.ltb_spec i W); [done|]. by apply (testbit_above W).
Qed.

Section ShiftRight.
Context (tb : Z) (Htb : 0 < tb) (n : nat) (dst : list Z) (Hdst : array_ok tb n dst).
Context (sw : nat) (sb : Z).

Definition right_word (k : nat) : Z :=
  Z.lor (shr tb dst.[k + sw] sb) (shl tb dst.[k + sw + 1] (tb - sb)).

Lemma shift_right_loop :
  0 < sb < tb -> (sw < n)%nat ->
  wp (for_up (n - sw) sw (fun i ws =>
        tmp ← rd ws i;
        ws ← wr ws (i - sw) (shr tb tmp sb);
        if (sw + 1 <=? i)%nat then
          y ← rd ws (i - (sw + 1));
          wr ws (i - (sw + 1)) (Z.lor y (shl tb tmp (tb - sb)))
        else Ret ws) dst)
    (fun ws => array_ok tb n ws /\
       (forall k, (k + sw + 1 < n)%nat -> ws.[k] = right_word k) /\
       ws.[n - (sw + 1)] = shr tb dst.[n - 1] sb).
Proof.
  intros Hsb Hsw.
  eapply wp_mono; [apply (wp_for_up (fun j ws => array_ok tb n ws /\
    (forall k, (j <= k + sw)%nat -> ws.[k] = dst.[k]) /\
    (forall k, (k + sw + 1 < j)%nat -> ws.[k] = right_word k) /\
    (forall k, (k + sw + 1)%nat = j -> (sw < j)%nat -> ws.[k] = shr tb dst.[k + sw] sb)))|].
  { split; [done|]. split; [done|]. split; intros; lia. }
  - intros j ws Hj (Hws & Hkeep & Hdone & Hlast). pose proof (array_ok_length _ _ _ Hws) as Hl.
    apply wp_bind, wp_rd; [lia|]. apply wp_bind, wp_wr; [lia|]. rewrite Hkeep by lia.
    set (ws1 := <[(j - sw)%nat := _]> ws).
    assert (array_ok tb n ws1) as Hws1 by eauto with arrays.
    assert (ws1.[j - sw] = shr tb dst.[j] sb) as Hj1 by (apply at_insert_eq; lia).
    assert (forall k, k <> (j - sw)%nat -> ws1.[k] = ws.[k]) as Hoth
      by (intros; by apply at_insert_ne).
    pose proof (array_ok_length _ _ _ Hws1) as Hl1.
    destruct (Nat.leb_spec (sw + 1) j) as [Hlt|Hge].
    + apply wp_bind, wp_rd; [lia|]. apply wp_wr; [lia|].
      rewrite Hoth by lia. rewrite (Hlast (j - (sw + 1))%nat) by lia.
      assert (forall x y, 0 <= x < 2 ^ tb -> 0 <= y < 2 ^ tb -> 0 <= Z.lor x y < 2 ^ tb)
        as Hlor by (intros; apply lor_in_word; lia).
      split; [apply array_ok_wr; eauto with arrays|].
      split; [|split]; intros k Hk.
      * rewrite at_insert_ne, Hoth by lia. apply Hkeep. lia.
      * destruct (decide (k = (j - (sw + 1))%nat)) as [->|].
        -- rewrite at_insert_eq by lia. unfold right_word. do 4 f_equal; lia.
        -- rewrite at_insert_ne, Hoth by lia. apply Hdone. lia.
      * intros _. assert (k = (j - sw)%nat) as -> by lia.
        rewrite at_insert_ne, Hj1 by lia. do 2 f_equal. lia.
    + apply wp_ret. split; [done|]. split; [|split]; intros k Hk.
      * rewrite Hoth by lia. apply Hkeep. lia.
      * lia.
      * intros _. assert (k = (j - sw)%nat) as -> by lia. rewrite Hj1. do 2 f_equal. lia.
  - intros ws (Hws & _ & Hdone & Hlast). replace (sw + (n - sw))%nat with n in * by lia.
    split; [done|]. split; [apply Hdone|].
    rewrite (Hlast (n - (sw + 1))%nat) by lia. do 2 f_equal. lia.
Qed.

Lemma right_word_bits (k : nat) (r : Z) (neg : bool) :
  0 < sb < tb -> 0 <= r < tb -> (k + sw + 1 < n)%nat ->
  Z.testbit (right_word k) r =
  Z.testbit (Z.shiftr (signed_fill (tb * Z.of_nat n) (eval tb dst) neg) (tb * Z.of_nat sw + sb))
    (tb * Z.of_nat k + r).
Proof.
  intros Hsb Hr Hk. pose proof (array_ok_eval tb n dst Htb Hdst) as HE.
  destruct Hdst as [Hdw Hdl]. unfold right_word.
  rewrite Z.shiftr_spec, signed_fill_bits, Z.lor_spec, shr_bits, shl_bits by nia.
  assert (tb * Z.of_nat k + r + (tb * Z.of_nat sw + sb) =
          tb * Z.of_nat (k + sw) + (r + sb)) as -> by nia.
  destruct (Z.ltb_spec (tb * Z.of_nat (k + sw) + (r + sb)) (tb * Z.of_nat n)); [|nia].
  destruct (decide (r + sb < tb)).
  - rewrite testbit_eval_at, (Z.testbit_neg_r _ (r - (tb - sb))) by (done || lia).
    apply orb_false_r.
  - rewrite (testbit_above tb dst.[k + sw]) by (by apply words_lookup || lia).
    rewrite <- (testbit_eval_at tb dst (k + sw + 1)) by (done || lia). simpl. f_equal. nia.
Qed.

Lemma top_word_bits (r : Z) (neg : bool) :
  0 < sb < tb -> 0 <= r < tb -> (sw < n)%nat ->
  Z.testbit (Z.lor (shr tb dst.[n - 1] sb) (shl tb (if neg then ones tb else 0) (tb - sb))) r =
  Z.testbit (Z.shiftr (signed_fill (tb * Z.of_nat n) (eval tb dst) neg) (tb * Z.of_nat sw + sb))
    (tb * Z.of_nat (n - (sw + 1)) + r).
Proof.
  intros Hsb Hr Hk. pose proof (array_ok_eval tb n dst Htb Hdst) as HE.
  destruct Hdst as [Hdw Hdl].
  rewrite Z.shiftr_spec, signed_fill_bits, Z.lor_spec, shr_bits, shl_bits by nia.
  assert (tb * Z.of_nat (n - (sw + 1)) + r + (tb * Z.of_nat sw + sb) =
          tb * Z.of_nat (n - 1) + (r + sb)) as -> by nia.
  assert (forall j, j < tb -> Z.testbit (if neg then ones tb else 0) j = neg && (0 <=? j)) as Hf.
  { intros j Hj. destruct neg; [|apply Z.testbit_0_l]. unfold ones.
    rewrite testbit_ones by lia. destruct (Z.ltb_spec j tb); [|lia]. by rewrite andb_true_r. }
  rewrite Hf by lia.
  destruct (Z.ltb_spec (tb * Z.of_nat (n - 1) + (r + sb)) (tb * Z.of_nat n)).
  - assert (r + sb < tb) by nia. rewrite testbit_eval_at by (done || lia).
    destruct (Z.leb_spec 0 (r - (tb - sb))); [lia|]. by rewrite andb_false_r, orb_false_r.
  - assert (tb <= r + sb) by nia.
    rewrite (testbit_above tb dst.[n - 1]) by (by apply words_lookup || lia).
    destruct (Z.leb_spec 0 (r - (tb - sb))); [|lia]. by rewrite andb_true_r.
Qed.
End ShiftRight.

Lemma filler_ok (tb : Z) (k : nat) (neg : bool) :
  0 < tb -> words tb (replicate k (if neg then ones tb else 0)).
Proof.
  intros. apply Forall_replicate. pose proof (pow2_pos tb). unfold ones.
  destruct neg; [rewrite Z.ones_equiv|]; lia.
Qed.

Lemma filler_bits (tb r : Z) (neg : bool) :
  0 <= r < tb -> Z.testbit (if neg then ones tb else 0) r = neg.
Proof.
  intros Hr. destruct neg; [|apply Z.testbit_0_l]. unfold ones. rewrite testbit_ones by lia.
  destruct (Z.leb_spec 0 r), (Z.ltb_spec r tb); lia || done.
Qed.

(** The words that are whole after the moving loop; the filled words are set after it. *)
Lemma ShiftRight_moved (tb : Z) (n : nat) (dst : list Z) (sw : nat) (sb : Z) (neg : bool) :
  0 < tb -> array_ok tb n dst -> 0 <= sb < tb -> (sw < n)%nat ->
  wp (if sb =? 0 then src ← slice dst sw (n - sw); memmove_s dst 0 src
      else
        for_up (n - sw) sw (fun i dst =>
          tmp ← rd dst i;
          dst ← wr dst (i - sw) (shr tb tmp sb);
          if (sw + 1 <=? i)%nat then
            y ← rd dst (i - (sw + 1));
            wr dst (i - (sw + 1)) (Z.lor y (shl tb tmp (tb - sb)))
          else Ret dst) dst)
    (fun ws => array_ok tb n ws /\
       (forall k r, (k < n - sw)%nat -> (sb <> 0 -> (k + sw + 1 < n)%nat) -> 0 <= r < tb ->
          Z.testbit ws.[k] r =
          Z.testbit (Z.shiftr (signed_fill (tb * Z.of_nat n) (eval tb dst) neg)
            (tb * Z.of_nat sw + sb)) (tb * Z.of_nat k + r)) /\
       (sb <> 0 -> ws.[n - (sw + 1)] = shr tb dst.[n - 1] sb)).
Proof.
  intros Htb Hdst Hsb Hsw. pose proof (array_ok_length _ _ _ Hdst) as Hl.
  pose proof (array_ok_eval tb n dst Htb Hdst) as HE.
  destruct (Z.eqb_spec sb 0) as [->|Hsb0].
  - apply wp_bind, wp_slice; [lia|].
    assert (length (take (n - sw) (drop sw dst)) = (n - sw)%nat) as Hls
      by (rewrite length_take, length_drop; lia).
    apply wp_memmove_s; [lia..|]. split; [|split; [|done]].
    { apply blit_ok; [lia|done|apply Forall_take, Forall_drop, Hdst]. }
    intros k r Hk _ Hr. rewrite blit_at, Hls by lia.
    destruct (Nat.ltb_spec k 0); [lia|]. destruct (Nat.ltb_spec k (0 + (n - sw))); [|lia].
    rewrite at_take, at_drop by lia.
    rewrite Z.shiftr_spec, signed_fill_bits by nia.
    destruct (Z.ltb_spec (tb * Z.of_nat k + r + (tb * Z.of_nat sw + 0)) (tb * Z.of_nat n)); [|nia].
    rewrite <- (testbit_eval_at tb dst) by (done || apply Hdst). f_equal. nia.
  - eapply wp_mono; [apply (shift_right_loop tb Htb n dst Hdst); lia|].
    intros ws (Hws & Hdone & Htop). split; [done|]. split; [|done].
    intros k r Hk Hk' Hr. rewrite Hdone by auto.
    apply (right_word_bits tb Htb n dst Hdst); auto; lia.
Qed.

Lemma ShiftRight_full (tb : Z) (n : nat) (dst : list Z) (neg : bool) :
  0 < tb -> (0 < n)%nat -> length dst = n -> ShiftRight tb dst n (Z.of_nat n * tb) neg = Fault CheckFatal.
Proof.
  intros Htb Hn Hl. unfold ShiftRight. destruct (full_shift tb n Htb Hn) as (-> & -> & ->).
  rewrite Z.leb_refl, Nat.sub_diag. unfold slice. rewrite (proj2 (Nat.leb_le _ _)) by lia. done.
Qed.

Theorem ShiftRight_spec (tb : Z) (n : nat) (dst : list Z) (bits : Z) (neg : bool) :
  0 < tb -> array_ok tb n dst -> 0 <= bits < Z.of_nat n * tb ->
  wp (ShiftRight tb dst n bits neg) (fun ws => array_ok tb n ws /\
    eval tb ws = wrap (tb * Z.of_nat n)
      (Z.shiftr (signed_fill (tb * Z.of_nat n) (eval tb dst) neg) bits)).
Proof.
  intros Htb Hdst Hb. unfold ShiftRight. pose proof (array_ok_eval tb n dst Htb Hdst) as HE.
  destruct (Z.eqb_spec bits 0) as [->|Hnz].
  { split; [done|]. rewrite Z.shiftr_0_r. symmetry.
    apply (wrap_unique _ _ _ (if neg then -1 else 0)); [done|]. unfold signed_fill. destruct neg; lia. }
  apply wp_bind, wp_assert; [apply Z.leb_le; lia|].
  destruct (shift_split tb bits n Htb Hb) as (sw & sb & -> & -> & -> & Hsb & Hsw).
  apply wp_bind. eapply wp_mono; [apply (ShiftRight_moved tb n dst sw sb neg); auto|].
  intros ws (Hws & Hbits & Htop). pose proof (array_ok_length _ _ _ Hws) as Hlw.
  apply wp_bind, wp_blit; [rewrite length_replicate; lia|].
  set (fill := replicate sw (if neg then ones tb else 0)).
  assert (length fill = sw) as Hlf by apply length_replicate.
  set (ws1 := take (n - sw) ws ++ fill ++ drop (n - sw + length fill) ws).
  assert (array_ok tb n ws1) as Hws1.
  { apply blit_ok; [lia|done|by apply filler_ok]. }
  pose proof (array_ok_length _ _ _ Hws1) as Hl1.
  assert (forall k, (k < n)%nat -> ws1.[k] =
    if (k <? n - sw)%nat then ws.[k] else if neg then ones tb else 0) as Hat.
  { intros k Hk. unfold ws1. rewrite blit_at by lia. destruct (Nat.ltb_spec k (n - sw)); [done|].
    destruct (Nat.ltb_spec k (n - sw + length fill)); [|lia]. apply at_replicate. lia. }
  assert (forall k r, (k < n)%nat -> (sb <> 0 -> k <> (n - (sw + 1))%nat) -> 0 <= r < tb ->
    Z.testbit ws1.[k] r =
    Z.testbit (Z.shiftr (signed_fill (tb * Z.of_nat n) (eval tb dst) neg)
      (tb * Z.of_nat sw + sb)) (tb * Z.of_nat k + r)) as Hfull.
  { intros k r Hk Hne Hr. rewrite Hat by done. destruct (Nat.ltb_spec k (n - sw)).
    - apply Hbits; [done| |done]. intros. specialize (Hne H0). lia.
    - rewrite filler_bits, Z.shiftr_spec, signed_fill_bits by nia.
      destruct (Z.ltb_spec (tb * Z.of_nat k + r + (tb * Z.of_nat sw + sb)) (tb * Z.of_nat n));
        [nia|done]. }
  destruct (Z.eqb_spec sb 0) as [->|Hsb0]; cbn [negb].
  - apply wp_ret. split; [done|]. apply (eval_of_bits tb n); [done|done|].
    intros k r Hk Hr. by apply Hfull.
  - apply wp_bind, wp_rd; [lia|]. apply wp_wr; [lia|].
    rewrite Hat by lia. destruct (Nat.ltb_spec (n - (sw + 1)) (n - sw)); [|lia].
    rewrite Htop by done. set (top := Z.lor _ _).
    assert (array_ok tb n (<[(n - (sw + 1))%nat := top]> ws1)) as Hok.
    { apply array_ok_wr; [done|]. apply lor_in_word; [lia|..]; eauto with arrays. }
    split; [done|]. apply (eval_of_bits tb n); [done|done|]. intros k r Hk Hr.
    destruct (decide (k = (n - (sw + 1))%nat)) as [->|Hne].
    + rewrite at_insert_eq by lia. apply (top_word_bits tb Htb n dst Hdst); lia.
    + rewrite at_insert_ne by done. by apply Hfull.
Qed.

(** ** Comparison of arrays *)

(** The three-way result of the comparison functions. *)
Definition cmp3 (x y : Z) : Z := if x <? y then -1 else if x =? y then 0 else 1.

Lemma cmp3_shift (B P x y a b : Z) :
  0 <= x < P -> 0 <= y < P -> a <> b ->
  cmp3 (x + P * a) (y + P * b) = if a <? b then -1 else 1.
Proof.
  intros Hx Hy Hab. unfold cmp3.
  destruct (Z.ltb_spec a b), (Z.ltb_spec (x + P * a) (y + P * b)); try done; [nia| |].
  - nia.
  - destruct (Z.eqb_spec (x + P * a) (y + P * b)); [nia|done].
Qed.

Section Compare.
Context (tb : Z) (Htb : 0 < tb) (n : nat) (l r : list Z).
Context (Hl : array_ok tb n l) (Hr : array_ok tb n r).

Lemma cmp3_top (i : nat) :
  (i < n)%nat ->
  cmp3 (eval tb (take (S i) l)) (eval tb (take (S i) r)) =
  if negb (l.[i] =? r.[i]) then (if l.[i] <? r.[i] then -1 else 1)
  else cmp3 (eval tb (take i l)) (eval tb (take i r)).
Proof.
  intros Hi. destruct Hl as [Hlw Hll]. destruct Hr as [Hrw Hrl].
  rewrite !eval_take_S by lia. rewrite !(Z.mul_comm _ (2 ^ (tb * Z.of_nat i))).
  assert (forall ws, words tb ws -> length ws = n ->
    0 <= eval tb (take i ws) < 2 ^ (tb * Z.of_nat i)) as Hrange.
  { intros ws Hw Hlen. pose proof (eval_range tb Htb (take i ws) (Forall_take _ _ _ Hw)) as H.
    by rewrite length_take_le in H by lia. }
  destruct (Z.eqb_spec l.[i] r.[i]) as [E|E]; cbn [negb].
  - rewrite E. unfold cmp3. set (c := _ * r.[i]).
    destruct (Z.ltb_spec (eval tb (take i l) + c) (eval tb (take i r) + c)),
      (Z.ltb_spec (eval tb (take i l)) (eval tb (take i r))); lia || (try done).
    destruct (Z.eqb_spec (eval tb (take i l) + c) (eval tb (take i r) + c)),
      (Z.eqb_spec (eval tb (take i l)) (eval tb (take i r))); lia || done.
  - apply (cmp3_shift 0); auto.
Qed.

Lemma compare_below_spec (i : nat) :
  (i <= n)%nat ->
  compare_below l r i = Ret (cmp3 (eval tb (take i l)) (eval tb (take i r))).
Proof.
  induction i as [|i IH]; intros Hi; [by rewrite !take_0|].
  cbn [compare_below]. unfold rd. rewrite !at_lookup by (rewrite ?(proj2 Hl), ?(proj2 Hr); lia).
  cbn [mbind res_bind]. rewrite cmp3_top by lia.
  destruct (negb _); [by destruct (_ <? _)|]. apply IH. lia.
Qed.
End Compare.

(** With a mask of all the bits the comparison decides the order. *)
Lemma compare_words_spec (tb : Z) (n : nat) (l r : list Z) :
  0 < tb -> array_ok tb n l -> array_ok tb n r -> (0 < n)%nat ->
  compare_words (ones tb) l r (n - 1) = Ret (cmp3 (eval tb l) (eval tb r)).
Proof.
  intros Htb Hl Hr Hn. unfold compare_words, ones.
  assert (forall x, 0 <= x < 2 ^ tb -> Z.land x (Z.ones tb) = x) as Hmask
    by (intros x Hx; rewrite Z.land_ones by lia; by apply Z.mod_small).
  unfold rd. rewrite !at_lookup by (rewrite ?(proj2 Hl), ?(proj2 Hr); lia).
  cbn [mbind res_bind]. rewrite !Hmask by eauto with arrays.
  rewrite (compare_below_spec tb Htb n) by (done || lia).
  assert (cmp3 (eval tb l) (eval tb r) =
          cmp3 (eval tb (take (S (n - 1)) l)) (eval tb (take (S (n - 1)) r))) as ->.
  { by rewrite !take_ge by (rewrite ?(proj2 Hl), ?(proj2 Hr); lia). }
  rewrite (cmp3_top tb Htb n) by (done || lia).
  by destruct (negb _); [destruct (_ <? _)|].
Qed.

(** The words and the mask that BitwiseCompare takes for [n] whole words *)
Lemma BitwiseCompare_whole (tb : Z) (n : nat) (l r : list Z) :
  0 < tb -> (0 < n)%nat -> Z.of_nat n * tb + tb < 2 ^ 16 ->
  BitwiseCompare tb l r (tb * Z.of_nat n) =
  (_ ← CHECK_SHIFT 64 tb; compare_words (shr 64 (ones 64) tb) l r (n - 1)).
Proof.
  intros Htb Hn Hlt. unfold BitwiseCompare. rewrite wrap_small by lia.
  assert ((tb * Z.of_nat n + tb - 1) / tb = Z.of_nat n) as ->.
  { symmetry. apply (Z.div_unique_pos _ _ _ (tb - 1)); lia. }
  destruct (Z.eqb_spec (Z.of_nat n) 0); [lia|]. cbn [negb ASSERT mbind res_bind].
  replace (Z.to_nat (Z.of_nat n - 1)) with (n - 1)%nat by lia.
  by rewrite Z.mul_comm, Z.mod_mul, Z.sub_0_r by lia.
Qed.

Theorem BitwiseCompare_spec (n : nat) (l r : list Z) :
  array_ok 32 n l -> array_ok 32 n r -> (0 < n)%nat -> Z.of_nat n * 32 + 32 < 2 ^ 16 ->
  BitwiseCompare 32 l r (32 * Z.of_nat n) = Ret (cmp3 (eval 32 l) (eval 32 r)).
Proof.
  intros Hl Hr Hn Hlt. rewrite BitwiseCompare_whole, CHECK_SHIFT_ok by lia.
  change (shr 64 (ones 64) 32) with (ones 32). by apply (compare_words_spec 32).
Qed.

(** On whole 64-bit words the mask is the undefined shift. *)
Theorem BitwiseCompare_undefined (n : nat) (l r : list Z) :
  (0 < n)%nat -> Z.of_nat n * 64 + 64 < 2 ^ 16 ->
  BitwiseCompare 64 l r (64 * Z.of_nat n) = Fault Undefined.
Proof. intros Hn Hlt. by rewrite BitwiseCompare_whole, CHECK_SHIFT_undefined by lia. Qed.

(** ** Trailing bits: [run b v r w] says that the lowest [r] of the [w] bits of
    [v] are [b], and that bit [r], if there is one, is not. *)

Definition run (b : bool) (v r w : Z) : Prop :=
  0 <= r <= w /\ (forall i, 0 <= i < r -> Z.testbit v i = b) /\
  (r < w -> Z.testbit v r = negb b).

Lemma run_unique b v r r' w : run b v r w -> run b v r' w -> r = r'.
Proof.
  intros (H1 & H2 & H3) (H1' & H2' & H3'). destruct (Z.lt_trichotomy r r') as [H|[H|H]]; [|done|].
  - rewrite (H2' r) in H3 by lia. specialize (H3 ltac:(lia)). by destruct b.
  - rewrite (H2 r') in H3' by lia. specialize (H3' ltac:(lia)). by destruct b.
Qed.

Lemma pos_ctz_spec p :
  0 <= pos_ctz p /\ Z.testbit (Zpos p) (pos_ctz p) = true /\
  forall i, 0 <= i < pos_ctz p -> Z.testbit (Zpos p) i = false.
Proof.
  induction p as [p IH|p IH|]; cbn [pos_ctz]; [split_and!; [done..|lia]| |split_and!; [done..|lia]].
  destruct IH as (H0 & H1 & H2). split; [lia|]. change (Zpos p~0) with (2 * Zpos p).
  split; [by rewrite Z.add_1_l, Z.testbit_even_succ by lia|]. intros i Hi.
  destruct (decide (i = 0)) as [->|]; [by rewrite Z.testbit_even_0|].
  replace i with (Z.succ (i - 1)) by lia. rewrite Z.testbit_even_succ by lia. apply H2. lia.
Qed.

Lemma ctz_word_run w : 0 <= w < 2 ^ 64 -> run false w (CountTrallingZeros_word 64 w) 64.
Proof.
  intros Hw. unfold CountTrallingZeros_word. destruct (Z.eqb_spec w 0) as [->|Hnz].
  { split; [lia|]. split; [intros; apply Z.testbit_0_l|lia]. }
  destruct w as [|p|p]; try lia. cbn [builtin_ctz]. destruct (pos_ctz_spec p) as (H0 & H1 & H2).
  split; [|split; [done|by rewrite H1]]. split; [done|]. apply Z.nlt_ge. intros H.
  rewrite (testbit_above 64) in H1 by lia. done.
Qed.

Lemma notw_range w : 0 <= notw 64 w < 2 ^ 64.
Proof. apply wrap_range. lia. Qed.
