(* ===== verification/IntDivFacts.v ===== *)
(** * Correctness of the 32-bit schoolbook division (BasecaseDivRem)

    Digit estimation from the leading words of the normalised operands is at
    most two too large, so the correction loop of the code runs at most twice
    and its CHECK_FATAL cannot fire; quotient and remainder are exact. *)
From S2P Require Import Prelude.
From S2P Require Import IntWords.
From S2P Require Import IntWordsFacts.

(** ** Leading zeros and normalisation *)

Lemma builtin_clz_spec (tb w : Z) :
  0 < w < 2 ^ tb -> 0 <= tb ->
  0 <= builtin_clz tb w < tb /\ 2 ^ (tb - 1) <= w * 2 ^ builtin_clz tb w < 2 ^ tb.
Proof.
  intros Hw Htb. unfold builtin_clz. pose proof (Z.log2_spec w ltac:(lia)) as Hlog.
  pose proof (Z.log2_nonneg w). assert (Z.log2 w < tb) by (apply Z.log2_lt_pow2; lia).
  split; [lia|]. set (k := tb - 1 - Z.log2 w). assert (0 < 2 ^ k) by (apply pow2_pos; lia).
  assert (2 ^ (tb - 1) = 2 ^ Z.log2 w * 2 ^ k) as ->.
  { rewrite <- Z.pow_add_r by lia. f_equal. lia. }
  assert (2 ^ tb = 2 ^ Z.succ (Z.log2 w) * 2 ^ k) as ->.
  { rewrite <- Z.pow_add_r by lia. f_equal. lia. }
  nia.
Qed.

(** The value of an array, top word apart. *)
Lemma eval_top (tb : Z) (n : nat) (ws : list Z) :
  0 < tb -> array_ok tb n ws -> (0 < n)%nat ->
  exists low, eval tb ws = low + ws.[n - 1] * 2 ^ (tb * Z.of_nat (n - 1)) /\
    0 <= low < 2 ^ (tb * Z.of_nat (n - 1)).
Proof.
  intros Htb [Hw Hl] Hn. exists (eval tb (take (n - 1) ws)). split.
  - rewrite <- (take_ge ws (S (n - 1))) at 1 by lia. apply eval_take_S; lia.
  - pose proof (eval_range tb Htb (take (n - 1) ws) (Forall_take _ _ _ Hw)) as H.
    by rewrite length_take_le in H by lia.
Qed.

Lemma shifted_top (n : nat) (b b' : list Z) (k : Z) :
  array_ok 32 n b -> (0 < n)%nat -> array_ok 32 n b' ->
  eval 32 b' = eval 32 b * 2 ^ k -> 0 <= k ->
  2 ^ 31 <= b.[n - 1] * 2 ^ k -> 2 ^ 31 <= b'.[n - 1].
Proof.
  intros Hb Hn Hb' He Hk Htop.
  destruct (eval_top 32 n b ltac:(lia) Hb Hn) as (l & Hl & Hl0).
  destruct (eval_top 32 n b' ltac:(lia) Hb' Hn) as (l' & Hl' & Hl0').
  set (P := 2 ^ (32 * Z.of_nat (n - 1))) in *. rewrite Hl, Hl' in He.
  pose proof (pow2_pos k Hk). nia.
Qed.

Lemma Normalize_spec (a b : list Z) (n m : nat) :
  array_ok 32 n b -> array_ok 32 (n + m) a -> (0 < n)%nat -> (1 <= m)%nat ->
  b.[n - 1] <> 0 -> eval 32 a < 2 ^ (32 * Z.of_nat (n + m - 1)) ->
  wp (Normalize a b n m) (fun r => let '(k, a', b') := r in
    0 <= k < 32 /\ array_ok 32 n b' /\ array_ok 32 (n + m) a' /\
    eval 32 a' = eval 32 a * 2 ^ k /\ eval 32 b' = eval 32 b * 2 ^ k /\
    2 ^ 31 <= b'.[n - 1]).
Proof.
  intros Hb Ha Hn Hm Hnz Hsmall. unfold Normalize.
  apply wp_bind, wp_assert; [by apply Nat.ltb_lt|].
  apply wp_bind, wp_rd; [rewrite (array_ok_length _ _ _ Hb); lia|].
  pose proof (array_ok_at 32 n b (n - 1) ltac:(lia) Hb) as Htop.
  unfold CountLeadingZeros_word. destruct (Z.eqb_spec b.[n - 1] 0); [done|].
  destruct (builtin_clz_spec 32 b.[n - 1]) as [Hk Htopk]; [lia|lia|].
  set (k := builtin_clz 32 b.[n - 1]) in *. pose proof (pow2_pos k ltac:(lia)) as Hkpos.
  apply wp_bind, wp_assert; [apply Z.ltb_lt; lia|].
  apply wp_bind. eapply wp_mono; [apply (ShiftLeft_spec 32 n); [lia|done|nia]|].
  intros b' [Hb' Eb']. apply wp_bind.
  eapply wp_mono; [apply (ShiftLeft_spec 32 (n + m)); [lia|done|nia]|].
  intros a' [Ha' Ea']. apply wp_ret.
  pose proof (array_ok_eval 32 (n + m) a ltac:(lia) Ha) as Hra.
  destruct (eval_top 32 n b ltac:(lia) Hb Hn) as (l & El & Hl).
  rewrite Z.shiftl_mul_pow2 in Ea', Eb' by lia.
  rewrite wrap_small in Ea'.
  2: { split; [nia|]. replace (n + m)%nat with (S (n + m - 1)) by lia. rewrite pow_limb by lia.
       assert (2 ^ k < 2 ^ 32) by (apply Z.pow_lt_mono_r; lia). nia. }
  rewrite wrap_small in Eb'.
  2: { rewrite El.
       assert (2 ^ (32 * Z.of_nat n) = 2 ^ 32 * 2 ^ (32 * Z.of_nat (n - 1))) as ->.
       { rewrite <- pow_limb by lia. do 2 f_equal. lia. }
       split; [nia|]. set (P := 2 ^ (32 * Z.of_nat (n - 1))) in *.
       assert (exists c, 2 ^ 32 = c * 2 ^ k) as [c Hc].
       { exists (2 ^ (32 - k)). rewrite <- Z.pow_add_r by lia. f_equal. lia. }
       rewrite Hc. assert (b.[n - 1] * 2 ^ k < c * 2 ^ k) by lia.
       assert (b.[n - 1] + 1 <= c) by nia. nia. }
  split; [done|]. split; [done|]. split; [done|]. split; [done|]. split; [done|].
  by apply (shifted_top n b b' k); lia || done.
Qed.

Lemma BShifted_spec (b : list Z) (n m j : nat) :
  array_ok 32 n b -> (0 < n)%nat -> (j <= m)%nat ->
  wp (BShifted b n m j) (fun ws => array_ok 32 (n + m) ws /\
    eval 32 ws = eval 32 b * 2 ^ (32 * Z.of_nat j)).
Proof.
  intros Hb Hn Hj. pose proof (array_ok_length _ _ _ Hb) as Hl.
  pose proof (array_ok_eval 32 n b ltac:(lia) Hb) as Hr. unfold BShifted.
  apply wp_bind, wp_slice; [lia|]. rewrite drop_0, take_ge by lia.
  apply wp_bind, wp_blit; [rewrite length_replicate; lia|].
  rewrite take_0, drop_replicate, Hl. cbn [app].
  replace (n + m - (0 + n))%nat with m by lia.
  apply wp_bind, wp_blit; [rewrite length_app, !length_replicate; lia|].
  rewrite take_app_length', drop_ge by (rewrite ?length_app, ?length_replicate; lia).
  rewrite app_nil_r.
  assert (array_ok 32 (n + m) (b ++ replicate m 0)) as Hok.
  { split; [apply Forall_app_2; [apply Hb|apply zeros_ok; lia]|].
    rewrite length_app, length_replicate. lia. }
  assert (eval 32 (b ++ replicate m 0) = eval 32 b) as Ee.
  { rewrite eval_app, eval_replicate_0 by lia. lia. }
  eapply wp_mono; [apply (ShiftLeft_spec 32 (n + m)); [lia|done|nia]|].
  intros ws [Hws E]. split; [done|]. rewrite E, Ee, Z.shiftl_mul_pow2, (Z.mul_comm _ 32) by lia.
  apply wrap_small. rewrite pow_limb_add by lia. pose proof (pow2_pos (32 * Z.of_nat j) ltac:(lia)).
  assert (2 ^ (32 * Z.of_nat j) <= 2 ^ (32 * Z.of_nat m)) by (apply Z.pow_le_mono_r; lia). nia.
Qed.

(** ** The digit estimate

    With [A < S * beta], [S] the shifted divisor and [T], [bt] the leading
    parts of [A] and [S], the estimate [min (T / bt) (beta - 1)] is never too
    small and at most two too large. *)
Lemma digit_estimate (beta R S A bt T bl al qh : Z) :
  0 < beta -> 0 < R -> beta <= 2 * bt -> 0 <= bl < R -> 0 <= al < R -> 0 <= T ->
  S = bt * R + bl -> A = T * R + al -> A < beta * S ->
  qh = Z.min (T / bt) (beta - 1) ->
  0 <= qh < beta /\ - (2 * S) < A - qh * S < S.
Proof.
  intros Hb HR Hbt Hbl Hal HT HS HA Hlt Hq.
  assert (0 < bt) by lia.
  pose proof (Z.div_mod T bt ltac:(lia)) as Hdm. pose proof (Z.mod_pos_bound T bt ltac:(lia)).
  assert (0 <= T / bt) by (apply Z.div_pos; lia).
  set (q0 := T / bt) in *. split; [lia|].
  assert (qh * bt <= T) by nia.
  assert (0 <= qh <= beta - 1) by lia. split.
  - assert (qh * bl <= (beta - 1) * (R - 1)) by nia.
    assert (qh * S = qh * bt * R + qh * bl) by (subst S; ring).
    assert (qh * bt * R <= T * R) by nia. nia.
  - destruct (decide (q0 <= beta - 1)).
    + assert (qh = q0) as -> by lia. assert (T + 1 <= (q0 + 1) * bt) by nia.
      assert ((T + 1) * R <= (q0 + 1) * bt * R) by nia. nia.
    + assert (qh = beta - 1) as -> by lia. lia.
Qed.

(** ** Two leading words of an array whose higher words are zero *)
Lemma leading_words (N k : nat) (a : list Z) :
  array_ok 32 N a -> (k + 1 < N)%nat ->
  eval 32 a < 2 ^ (32 * Z.of_nat (k + 2)) ->
  exists low, eval 32 a = (a.[k] + 2 ^ 32 * a.[k + 1]) * 2 ^ (32 * Z.of_nat k) + low /\
    0 <= low < 2 ^ (32 * Z.of_nat k).
Proof.
  intros [Hw Hl] Hk Hlt. exists (eval 32 (take k a)).
  pose proof (eval_range 32 ltac:(lia) (take k a) (Forall_take _ _ _ Hw)) as Hlow.
  rewrite length_take_le in Hlow by lia. split; [|done].
  pose proof (eval_take_drop 32 ltac:(lia) a (k + 2) ltac:(lia)) as E.
  pose proof (eval_ge0 32 ltac:(lia) (drop (k + 2) a) (Forall_drop _ _ _ Hw)) as Hd.
  pose proof (eval_ge0 32 ltac:(lia) (take (k + 2) a) (Forall_take _ _ _ Hw)) as Ht.
  pose proof (pow2_pos (32 * Z.of_nat (k + 2)) ltac:(lia)) as Hp.
  assert (eval 32 (drop (k + 2) a) = 0) as Hz by nia.
  rewrite E, Hz.
  replace (k + 2)%nat with (S (k + 1)) by lia. rewrite eval_take_S by lia.
  replace (take (k + 1) a) with (take (S k) a) by (f_equal; lia). rewrite eval_take_S by lia.
  replace (k + 1)%nat with (S k) by lia. rewrite pow_limb by lia. ring.
Qed.

(** ** The correction loop *)

Section Correction.
Context (N : nat) (bs : list Z) (Hbs : array_ok 32 N bs).
Context (Hroom : 2 * eval 32 bs <= 2 ^ (32 * Z.of_nat N)).
Let S := eval 32 bs.
Let P := 2 ^ (32 * Z.of_nat N).

(** The signed remainder a state stands for. *)
Definition state_value (a : list Z) (borrow : Z) : Z := eval 32 a - borrow * P.

Lemma borrow_range (a : list Z) (borrow : Z) :
  array_ok 32 N a -> - (2 * S) < state_value a borrow < S ->
  0 <= borrow <= 1 /\ (borrow = 0 <-> 0 <= state_value a borrow).
Proof.
  intros Ha Hv. pose proof (array_ok_eval 32 N a ltac:(lia) Ha) as HE.
  pose proof (array_ok_eval 32 N bs ltac:(lia) Hbs) as HS. fold S P in HE, HS, Hroom.
  unfold state_value in *. assert (0 <= borrow <= 1) by nia.
  split; [done|]. split; [intros ->; lia|]. intros. nia.
Qed.

Lemma correction_loop (A qh : Z) (a : list Z) (borrow : Z) :
  array_ok 32 N a -> 0 <= A -> 0 <= qh < 2 ^ 32 ->
  state_value a borrow = A - qh * S -> - (2 * S) < A - qh * S < S ->
  wp (while_fuel 3
        (fun st => let '(_, _, borrow, _) := st in negb (borrow =? 0))
        (fun st =>
           let '(qj, a, borrow, counter) := st in
           _ ← CHECK_FATAL (counter <? 2);
           let qj := wrap 32 (qj - 1) in
           add ← MulAddOverflow a bs 1 N;
           Ret (qj, fst add, wrap 32 (borrow - snd add), counter + 1))
        (qh, a, borrow, 0))
    (fun st => let '(qj, a, _, _) := st in array_ok 32 N a /\ 0 <= qj < 2 ^ 32 /\
       eval 32 a = A - qj * S /\ 0 <= eval 32 a < S).
Proof.
  intros Ha HA Hq Hv Hrange.
  eapply wp_mono; [apply (wp_while_fuel (fun st : Z * list Z * Z * Z =>
      let '(qj, a, borrow, counter) := st in
      array_ok 32 N a /\ 0 <= qj < 2 ^ 32 /\ state_value a borrow = A - qj * S /\
      0 <= counter <= 2 /\ - ((2 - counter) * S) < A - qj * S < S)
    (fun st => let '(_, _, _, counter) := st in Z.to_nat (2 - counter)))|].
  - split; [done|]. split; [done|]. split; [done|]. lia.
  - simpl. lia.
  - intros [[[qj ws] b] c] (Hws & Hqj & Hb & Hc & Hr) Hcond.
    assert (0 <= S) as HS0 by apply (array_ok_eval 32 N bs ltac:(lia) Hbs).
    destruct (borrow_range ws b Hws) as [Hb01 Hbz]; [nia|].
    apply negb_true_iff, Z.eqb_neq in Hcond.
    assert (A - qj * S < 0) as Hneg by lia.
    assert (c < 2) by nia. assert (1 <= qj) by nia.
    apply wp_bind, wp_check; [apply Z.ltb_lt; lia|].
    apply wp_bind. eapply wp_mono; [apply (MulAddOverflow_spec ws bs 1 N); [done|done|lia]|].
    intros [ws' add] (Hws' & Hadd & E). cbn [fst snd] in *. apply wp_ret.
    rewrite (wrap_small 32 (qj - 1)) by lia. fold S in E.
    assert (state_value ws' (b - add) = A - (qj - 1) * S) as Hv'
      by (unfold state_value, P in *; lia).
    destruct (borrow_range ws' (b - add) Hws') as [Hb' _]; [nia|].
    rewrite wrap_small by lia.
    split; [|lia]. split; [done|]. split; [lia|]. split; [done|]. split; [lia|]. nia.
  - intros [[[qj ws] b] c] ((Hws & Hqj & Hb & Hc & Hr) & Hcond).
    apply negb_false_iff, Z.eqb_eq in Hcond. subst b. unfold state_value in Hb.
    pose proof (array_ok_eval 32 N ws ltac:(lia) Hws).
    split; [done|]. split; [done|]. lia.
Qed.
End Correction.

(** ** One digit *)

(** The estimate of the code: quotient of the two leading words, cut at 2^32 - 1. *)
Lemma estimate_min (t bt : Z) :
  0 <= t < 2 ^ 64 -> 2 ^ 31 <= bt ->
  (if negb (hi (GetLoHi (t / bt)) =? 0) then ones 32 else lo (GetLoHi (t / bt))) =
  Z.min (t / bt) (2 ^ 32 - 1).
Proof.
  intros Ht Hbt. assert (0 <= t / bt) by (apply Z.div_pos; lia).
  assert (t / bt < 2 ^ 64) by (apply Z.div_lt_upper_bound; nia).
  destruct (GetLoHi_spec (t / bt)) as (E & Hl & Hh); [lia|].
  change (ones 32) with (2 ^ 32 - 1).
  destruct (Z.eqb_spec (hi (GetLoHi (t / bt))) 0); cbn [negb]; lia.
Qed.

Section Digit.
Context (n m : nat) (b : list Z).
Context (Hn : (0 < n)%nat) (Hb : array_ok 32 n b) (Hnorm : 2 ^ 31 <= b.[n - 1]).
Let B := eval 32 b.
Let beta := 2 ^ 32.

Definition weight (j : nat) : Z := 2 ^ (32 * Z.of_nat j).

Lemma weight_S (j : nat) : weight (S j) = beta * weight j.
Proof. unfold weight, beta. by apply pow_limb. Qed.

Lemma weight_pos (j : nat) : 0 < weight j.
Proof. apply pow2_pos. lia. Qed.

Lemma divisor_range : 0 < B < weight n.
Proof.
  pose proof (array_ok_eval 32 n b ltac:(lia) Hb) as H.
  destruct (eval_top 32 n b ltac:(lia) Hb Hn) as (l & E & Hl). fold B in E, H.
  pose proof (pow2_pos (32 * Z.of_nat (n - 1)) ltac:(lia)). unfold weight. nia.
Qed.

Lemma BasecaseDigit_spec (j : nat) (q a : list Z) :
  (j < m)%nat -> (j < length q)%nat -> array_ok 32 (n + m) a ->
  eval 32 a < B * weight (S j) ->
  wp (BasecaseDigit b n m j (q, a)) (fun st => exists d,
    fst st = <[j := d]> q /\ 0 <= d < 2 ^ 32 /\ array_ok 32 (n + m) (snd st) /\
    eval 32 a = d * (B * weight j) + eval 32 (snd st) /\
    0 <= eval 32 (snd st) < B * weight j).
Proof.
  intros Hj Hq Ha Hlt. pose proof divisor_range as HB. pose proof (weight_pos j) as Hwj.
  pose proof (array_ok_length _ _ _ Ha) as Hla. pose proof (array_ok_length _ _ _ Hb) as Hlb.
  unfold BasecaseDigit.
  apply wp_bind, wp_rd; [lia|]. apply wp_bind, wp_rd; [lia|]. apply wp_bind, wp_rd; [lia|].
  destruct (Z.eqb_spec b.[n - 1] 0); [lia|]. cbn [mbind res_bind].
  pose proof (array_ok_at 32 _ a (n + j - 1) ltac:(lia) Ha) as H0.
  pose proof (array_ok_at 32 _ a (n + j) ltac:(lia) Ha) as H1.
  rewrite CombineLoHi_spec by done.
  set (T := a.[n + j - 1] + 2 ^ 32 * a.[n + j]). rewrite estimate_min by (subst T; lia).
  destruct (leading_words (n + m) (n + j - 1) a Ha) as (al & EA & Hal); [lia|..].
  { replace (n + j - 1 + 2)%nat with (n + S j)%nat by lia. rewrite pow_limb_add by lia.
    unfold weight in *. pose proof (pow2_pos (32 * Z.of_nat (S j)) ltac:(lia)). nia. }
  replace (n + j - 1 + 1)%nat with (n + j)%nat in EA by lia. fold T in EA.
  destruct (eval_top 32 n b ltac:(lia) Hb Hn) as (bl & EB & Hbl). fold B in EB.
  assert (2 ^ (32 * Z.of_nat (n + j - 1)) = 2 ^ (32 * Z.of_nat (n - 1)) * weight j) as ER.
  { unfold weight. rewrite <- pow_limb_add by lia. do 2 f_equal. lia. }
  rewrite weight_S in Hlt.
  destruct (digit_estimate beta (2 ^ (32 * Z.of_nat (n + j - 1))) (B * weight j) (eval 32 a)
    b.[n - 1] T (bl * weight j) al (Z.min (T / b.[n - 1]) (2 ^ 32 - 1))) as [Hqh Hrange];
    [done|apply pow2_pos; lia|unfold beta; lia|rewrite ER; nia|done|subst T; lia|
     rewrite ER, EB; ring|done|lia|done|].
  set (qh := Z.min _ _) in *.
  apply wp_bind, wp_wr; [done|].
  apply wp_bind. eapply wp_mono; [apply (BShifted_spec b n m j); [done|lia|lia]|].
  intros bs [Hbs Ebs]. fold B (weight j) in Ebs.
  assert (2 * eval 32 bs <= 2 ^ (32 * Z.of_nat (n + m))) as Hroom.
  { rewrite Ebs. replace (n + m)%nat with (S (n + m - 1)) by lia. fold (weight (S (n + m - 1))).
    rewrite weight_S. assert (weight n * weight j <= weight (n + m - 1)) as Hw.
    { unfold weight. rewrite <- pow_limb_add by lia. apply Z.pow_le_mono_r; lia. }
    unfold beta. nia. }
  apply wp_bind. eapply wp_mono; [apply (MulSubOverflow_spec a bs qh (n + m)); done|].
  intros [a1 br] (Ha1 & Hbr & E1). cbn [fst snd] in *.
  pose proof (array_ok_eval 32 _ a ltac:(lia) Ha).
  apply wp_bind. eapply wp_mono;
    [apply (correction_loop (n + m) bs Hbs Hroom (eval 32 a) qh a1 br); try done|].
  - lia.
  - by rewrite Ebs.
  - intros [[[d a2] b2] c2] (Ha2 & Hd & Ea2 & Hr2).
    apply wp_bind, wp_wr; [by rewrite length_insert|]. apply wp_ret. cbn [fst snd].
    exists d. rewrite list_insert_insert_eq. rewrite Ebs in *. split; [done|].
    split; [done|]. split; [done|]. split; [lia|done].
Qed.
End Digit.

(** ** Quotient and remainder *)

Section DivRem.
Context (n m : nat) (b : list Z).
Hypothesis Hn : (0 < n)%nat.
Hypothesis Hm : (1 <= m)%nat.
Hypothesis Hb : array_ok 32 n b.
Hypothesis Hnorm : 2 ^ 31 <= b.[n - 1].

(** A normalised divisor, shifted to the top, is at least half of the dividend. *)
Lemma normalised_double (a : list Z) :
  array_ok 32 (n + m) a -> eval 32 a < 2 * (eval 32 b * weight m).
Proof.
  intros Ha. pose proof (array_ok_eval 32 _ a ltac:(lia) Ha) as HA.
  rewrite pow_limb_add in HA by lia. fold (weight n) (weight m) in HA.
  destruct (eval_top 32 n b ltac:(lia) Hb Hn) as (bl & EB & Hbl).
  assert (weight n = 2 ^ 32 * 2 ^ (32 * Z.of_nat (n - 1))) as Ewn.
  { unfold weight. rewrite <- pow_limb by lia. do 2 f_equal. lia. }
  assert (weight n <= 2 * eval 32 b) by nia. pose proof (weight_pos m). nia.
Qed.

(** The invariant of the digits found so far, digits [j] to [m]. *)
Definition digits_ok (a : list Z) (j : nat) (st : list Z * list Z) : Prop :=
  array_ok 32 (m + 1) (fst st) /\ array_ok 32 (n + m) (snd st) /\
  eval 32 (snd st) < eval 32 b * weight j /\
  eval 32 a = eval 32 b * weight j * eval 32 (drop j (fst st)) + eval 32 (snd st).

(** The leading digit is 0 or 1. *)
Lemma leading_digit (q a bs : list Z) :
  array_ok 32 (m + 1) q -> array_ok 32 (n + m) a ->
  array_ok 32 (n + m) bs -> eval 32 bs = eval 32 b * weight m ->
  wp (if cmp3 (eval 32 a) (eval 32 bs) <? 0 then
        q ← wr q m 0; Ret (q, a)
      else
        q ← wr q m 1; sub ← MulSubOverflow a bs 1 (n + m); Ret (q, fst sub))
     (digits_ok a m).
Proof.
  intros Hq Ha Hbs Ebs. pose proof (normalised_double a Ha) as Hdouble.
  pose proof (array_ok_length _ _ _ Hq) as Hlq.
  pose proof (array_ok_eval 32 _ a ltac:(lia) Ha) as HA.
  assert (forall v, eval 32 (drop m (<[m := v]> q)) = v) as Htop.
  { intros v. rewrite (drop_S _ v m) by (apply list_lookup_insert_eq; lia).
    rewrite drop_ge by (rewrite length_insert; lia). cbn [eval]. lia. }
  unfold cmp3. rewrite Ebs. destruct (Z.ltb_spec (eval 32 a) (eval 32 b * weight m)).
  - cbn [Z.ltb Z.compare]. apply wp_bind, wp_wr; [lia|]. apply wp_ret.
    unfold digits_ok. cbn [fst snd]. rewrite Htop.
    split; [apply array_ok_wr; [done|lia]|]. split; [done|]. lia.
  - assert (((if eval 32 a =? eval 32 b * weight m then 0 else 1) <? 0) = false) as ->
      by by destruct (_ =? _).
    apply wp_bind, wp_wr; [lia|]. apply wp_bind.
    eapply wp_mono; [apply (MulSubOverflow_spec a bs 1 (n + m)); [done|done|lia]|].
    intros [a1 br] (Ha1 & Hbr & E1). cbn [fst snd] in *. apply wp_ret.
    unfold digits_ok. cbn [fst snd]. rewrite Htop.
    pose proof (array_ok_eval 32 _ a1 ltac:(lia) Ha1).
    assert (br = 0) as -> by nia.
    split; [apply array_ok_wr; [done|lia]|]. split; [done|]. lia.
Qed.

(** Each further digit keeps the invariant. *)
Lemma next_digit (a : list Z) (j : nat) (st : list Z * list Z) :
  (j < m)%nat -> digits_ok a (S j) st -> wp (BasecaseDigit b n m j st) (digits_ok a j).
Proof.
  destruct st as [q1 a1]. intros Hj (Hq1 & Ha1 & Hlt1 & E1). cbn [fst snd] in *.
  eapply wp_mono; [apply (BasecaseDigit_spec n m b Hn Hb Hnorm j q1 a1);
    [lia|rewrite (proj2 Hq1); lia|done|done]|].
  unfold digits_ok. intros [q2 a2] (d & -> & Hd & Ha2 & E2 & Hr2). cbn [fst snd] in *.
  split; [by apply array_ok_wr|]. split; [done|]. split; [lia|].
  assert (drop j (<[j := d]> q1) = d :: drop (S j) q1) as ->.
  { rewrite (drop_S _ d) by (apply list_lookup_insert_eq; rewrite (proj2 Hq1); lia).
    f_equal. apply drop_insert_lt. lia. }
  cbn [eval]. rewrite weight_S in E1. lia.
Qed.
End DivRem.

Theorem BasecaseDivRem_spec (n m : nat) (q a b : list Z) :
  (0 < n)%nat -> (1 <= m)%nat -> Z.of_nat (n + m) * 32 + 32 < 2 ^ 16 ->
  array_ok 32 n b -> 2 ^ 31 <= b.[n - 1] ->
  array_ok 32 (n + m) a -> array_ok 32 (m + 1) q ->
  wp (BasecaseDivRem q a b n m) (fun r =>
    array_ok 32 (m + 1) (fst r) /\ array_ok 32 (n + m) (snd r) /\
    eval 32 a = eval 32 (fst r) * eval 32 b + eval 32 (snd r) /\
    0 <= eval 32 (snd r) < eval 32 b).
Proof.
  intros Hn Hm Hbound Hb Hnorm Ha Hq. unfold BasecaseDivRem.
  pose proof (divisor_range n b Hn Hb Hnorm) as HB.
  apply wp_bind, wp_assert.
  { apply andb_true_intro. split; [by apply Nat.ltb_lt|by apply Nat.leb_le]. }
  apply wp_bind. eapply wp_mono; [apply (BShifted_spec b n m m); [done|lia|lia]|].
  intros bs [Hbs Ebs]. fold (weight m) in Ebs.
  rewrite wrap_small, Z.mul_comm by lia.
  rewrite (BitwiseCompare_spec (n + m)) by (auto || lia). cbn [mbind res_bind].
  apply wp_bind. eapply wp_mono; [by apply leading_digit|]. intros [q0 a0] H0.
  apply wp_bind. eapply wp_mono; [apply (wp_for_down (digits_ok n m b a))|].
  - done.
  - intros j st Hj Hst. apply next_digit; [done..|lia|done].
  - intros [q2 a2] (Hq2 & Ha2 & Hlt2 & E2). cbn [fst snd] in *. rewrite drop_0 in E2.
    change (weight 0) with 1 in *.
    apply wp_bind, wp_slice; [rewrite (proj2 Ha2); lia|].
    rewrite drop_0, take_ge by (rewrite (proj2 Ha2); lia). apply wp_ret. cbn [fst snd].
    pose proof (array_ok_eval 32 _ a2 ltac:(lia) Ha2).
    split; [done|]. split; [done|]. lia.
Qed.
