(* ===== verification/IntVal.v ===== *)
(** * IntVal: integers of arbitrary bit width

    The class of maple_util/include/mpl_int_val.h and src/mpl_int_val.cpp, one
    definition per member function.  A member that changes the object returns
    the new object; one that can reach an ASSERT, a CHECK_FATAL, an access
    outside the words of a wide value or the inactive member of the storage
    union returns in [res].  Storage is freed and reallocated by the code; the
    model keeps the contents only. *)
From S2P Require Import Prelude.
From S2P Require Import PrimTypes.
From S2P Require Import IntWords.

(** union U { uint64 value; uint64 *pValue; } *)
Inductive Storage : Set :=
  | Value (value : Z)
  | PValue (pValue : list Z).

Record IntVal : Set := MkIntVal { u : Storage; width : Z; sign : bool }.

Definition kWordBitSize : Z := 64.
Definition kAllOnes : Z := ones 64.

Definition u_value (x : IntVal) : res Z :=
  match u x with Value v => Ret v | PValue _ => Fault WrongMember end.
Definition u_pValue (x : IntVal) : res (list Z) :=
  match u x with PValue ws => Ret ws | Value _ => Fault WrongMember end.
Definition set_u (x : IntVal) (s : Storage) : IntVal := MkIntVal s (width x) (sign x).

(** uint8 GetNumWords(uint16 bitWidth) *)
Definition GetNumWords_of (bitWidth : Z) : Z := wrap 8 ((bitWidth + kWordBitSize - 1) / kWordBitSize).
Definition GetNumWords (x : IntVal) : Z := GetNumWords_of (width x).
Definition numWords (x : IntVal) : nat := Z.to_nat (GetNumWords x).
Definition WordNumber (bitPos : Z) : Z := bitPos / kWordBitSize.
Definition BitNumber (bitPos : Z) : Z := bitPos mod kWordBitSize.

Definition IsOneWord_width (w : Z) : bool := w <=? kWordBitSize.
Definition IsOneWord (x : IntVal) : bool := IsOneWord_width (width x).

Definition GetBitWidth (x : IntVal) : Z := width x.
Definition IsSigned (x : IntVal) : bool := sign x.

Definition same_type (x y : IntVal) : bool := (width x =? width y) && eqb (sign x) (sign y).

(** ** Construction *)

Definition WideInit_val (numWords : nat) (sign : bool) (val : Z) : res (list Z) :=
  match numWords with
  | O => Fault OutOfBounds
  | S k => Ret (val :: replicate k (if sign && (swrap 64 val <? 0) then kAllOnes else 0))
  end.

Definition WideInit_ptr (numWords : nat) (val : list Z) : res (list Z) := slice val 0 numWords.

Definition Init_val (w : Z) (sg : bool) (val : Z) : res Storage :=
  if IsOneWord_width w then Ret (Value val)
  else ws ← WideInit_val (Z.to_nat (GetNumWords_of w)) sg val; Ret (PValue ws).

Definition Init_ptr (w : Z) (pVal : list Z) : res Storage :=
  if IsOneWord_width w then v ← rd pVal 0; Ret (Value v)
  else ws ← WideInit_ptr (Z.to_nat (GetNumWords_of w)) pVal; Ret (PValue ws).

(** Init(const Storage &unionVal, bool isPointer) *)
Definition Init_union (w : Z) (sg : bool) (src : IntVal) : res Storage :=
  if negb (IsOneWord src) then ws ← u_pValue src; Init_ptr w ws
  else v ← u_value src; Init_val w sg v.

Definition TruncInPlace_to (x : IntVal) (bitWidth : Z) : res IntVal :=
  _ ← ASSERT ((bitWidth <=? width x) || (bitWidth =? 0));
  _ ← ASSERT ((bitWidth =? 0) || (width x =? 0) || (GetNumWords x =? GetNumWords_of bitWidth));
  s ← (if IsOneWord x then
         let truncWidth := if negb (bitWidth =? 0) then bitWidth else width x in
         v ← u_value x;
         Ret (Value (Z.land v (shr 64 kAllOnes (kWordBitSize - truncWidth))))
       else
         let truncWidth := if bitWidth =? 0 then bitWidth else width x in
         let lastWord := Z.to_nat (wrap 16 (GetNumWords x - 1)) in
         ws ← u_pValue x;
         w ← rd ws lastWord;
         ws ← wr ws lastWord (Z.land w (shr 64 kAllOnes (truncWidth mod kWordBitSize)));
         Ret (PValue ws));
  Ret (MkIntVal s (if negb (bitWidth =? 0) then bitWidth else width x) (sign x)).

Definition TruncInPlace (x : IntVal) : res IntVal := TruncInPlace_to x 0.

(** IntVal(T val, uint16 bitWidth, bool isSigned), for an integer and for a
    pointer; IntVal(const IntVal &val, uint16 bitWidth, bool isSigned);
    IntVal(const IntVal &val, bool isSigned); the copy constructor. *)
Definition IntVal_int (val bitWidth : Z) (isSigned : bool) : res IntVal :=
  s ← Init_val bitWidth isSigned (wrap 64 val);
  TruncInPlace (MkIntVal s bitWidth isSigned).

Definition IntVal_ptr (val : list Z) (bitWidth : Z) (isSigned : bool) : res IntVal :=
  s ← Init_ptr bitWidth val;
  TruncInPlace (MkIntVal s bitWidth isSigned).

Definition IntVal_from (val : IntVal) (bitWidth : Z) (isSigned : bool) : res IntVal :=
  s ← Init_union bitWidth isSigned val;
  TruncInPlace (MkIntVal s bitWidth isSigned).

Definition IntVal_resign (val : IntVal) (isSigned : bool) : res IntVal :=
  s ← Init_union (width val) isSigned val;
  Ret (MkIntVal s (width val) isSigned).

Definition IntVal_copy (val : IntVal) : res IntVal :=
  s ← Init_union (width val) (sign val) val;
  TruncInPlace (MkIntVal s (width val) (sign val)).

Definition IntVal_default : IntVal := MkIntVal (Value 0) 0 false.

(** Assign, copy-assignment and assignment of a uint64 (the old object first) *)
Definition Assign (x other : IntVal) : res IntVal :=
  s ← Init_union (width other) (sign other) other;
  Ret (MkIntVal s (width other) (sign other)).

Definition assign_copy (x other : IntVal) : res IntVal :=
  _ ← (if width x =? 0 then Ret tt else ASSERT (same_type x other));
  Assign x other.

(** operator=(IntVal &&): the words are taken over from [other] *)
Definition assign_move (x other : IntVal) : res IntVal :=
  _ ← (if width x =? 0 then Ret tt else ASSERT (same_type x other));
  Ret other.

Definition assign_uint64 (x : IntVal) (other : Z) : res IntVal :=
  _ ← ASSERT (negb (width x =? 0));
  s ← Init_val (width x) (sign x) other;
  TruncInPlace (set_u x s).

(** ** Bits *)

Definition GetBit (x : IntVal) (bit : Z) : res bool :=
  _ ← ASSERT (bit <? width x);
  if IsOneWord x then
    v ← u_value x;
    Ret (negb (Z.land v (shl 64 1 bit) =? 0))
  else
    let word := wrap 8 (GetNumWords_of (wrap 16 (bit + 1)) - 1) in
    let wordOffset := bit mod kWordBitSize in
    ws ← u_pValue x;
    w ← rd ws (Z.to_nat word);
    Ret (negb (Z.land w (shl 64 1 wordOffset) =? 0)).

Definition GetSignBit (x : IntVal) : res bool := GetBit x (wrap 16 (width x - 1)).

Definition ClearBit (x : IntVal) (bit : Z) : res IntVal :=
  _ ← ASSERT (bit <? width x);
  let mask := notw 64 (shl 64 1 (bit mod kWordBitSize)) in
  if IsOneWord x then
    v ← u_value x; Ret (set_u x (Value (Z.land v mask)))
  else
    let word := Z.to_nat (WordNumber bit) in
    ws ← u_pValue x;
    w ← rd ws word;
    ws ← wr ws word (Z.land w mask);
    Ret (set_u x (PValue ws)).

Definition SetBit (x : IntVal) (bit : Z) : res IntVal :=
  _ ← ASSERT (bit <? width x);
  let mask := shl 64 1 (bit mod kWordBitSize) in
  if IsOneWord x then
    v ← u_value x; Ret (set_u x (Value (Z.lor v mask)))
  else
    let word := Z.to_nat (wrap 16 (GetNumWords_of (wrap 16 (bit + 1)) - 1)) in
    ws ← u_pValue x;
    w ← rd ws word;
    ws ← wr ws word (Z.lor w mask);
    Ret (set_u x (PValue ws)).

Definition SetSignBit (x : IntVal) : res IntVal := SetBit x (wrap 16 (width x - 1)).

Definition WideSetBits (ws : list Z) (low high : Z) : res (list Z) :=
  let lWord := WordNumber low in
  let hWord := WordNumber high in
  let lMask := shl 64 kAllOnes (BitNumber low) in
  r ← (if negb (BitNumber high =? 0) then
         let hMask := shr 64 kAllOnes (kWordBitSize - BitNumber high) in
         if lWord =? hWord then Ret (Z.land lMask hMask, ws)
         else
           w ← rd ws (Z.to_nat hWord);
           ws ← wr ws (Z.to_nat hWord) (Z.lor w hMask);
           Ret (lMask, ws)
       else Ret (lMask, ws));
  let '(lMask, ws) := r in
  w ← rd ws (Z.to_nat lWord);
  ws ← wr ws (Z.to_nat lWord) (Z.lor w lMask);
  for_up (Z.to_nat (hWord - (lWord + 1))) (Z.to_nat (lWord + 1))
    (fun i ws => wr ws i kAllOnes) ws.

Definition SetBits (x : IntVal) (low high : Z) : res IntVal :=
  _ ← ASSERT (high <=? width x);
  _ ← ASSERT (low <=? width x);
  _ ← ASSERT (low <=? high);
  if low =? high then Ret x
  else if (low <? kWordBitSize) && (high <=? kWordBitSize) then
    let mask := shl 64 (shr 64 kAllOnes (kWordBitSize - (high - low))) low in
    if IsOneWord x then v ← u_value x; Ret (set_u x (Value (Z.lor v mask)))
    else
      ws ← u_pValue x;
      w ← rd ws 0;
      ws ← wr ws 0 (Z.lor w mask);
      Ret (set_u x (PValue ws))
  else
    ws ← u_pValue x;
    ws ← WideSetBits ws low high;
    Ret (set_u x (PValue ws)).

(** ** Counts *)

Fixpoint leading_ones_loop (ws : list Z) (i : nat) (count : Z) : res Z :=
  w ← rd ws i;
  let ones := CountLeadingOnes_word 64 w in
  let count := wrap 16 (count + ones) in
  match i with
  | S i' => if negb (ones =? 0) then leading_ones_loop ws i' count else Ret count
  | O => Ret count
  end.

Definition CountLeadingOnes (x : IntVal) : res Z :=
  let startPos := width x mod kWordBitSize in
  let mask := if negb (startPos =? 0) then shl 64 kAllOnes (kWordBitSize - startPos) else 0 in
  if IsOneWord x then
    v ← u_value x;
    Ret (wrap 16 (CountLeadingOnes_word 64 (Z.lor v mask) - startPos))
  else
    ws ← u_pValue x;
    let i := wrap 16 (GetNumWords x - 1) in
    w ← rd ws (Z.to_nat i);
    let ones := wrap 8 (CountLeadingOnes_word 64 (Z.lor w mask) - startPos) in
    if ones =? 0 then Ret 0
    else leading_ones_loop ws (Z.to_nat (wrap 16 (i - 1))) ones.

(** Number of leading (low) words that satisfy [p], among the first [n]. *)
Fixpoint words_while (p : Z -> bool) (ws : list Z) (n i : nat) : res nat :=
  match n with
  | O => Ret i
  | S n' =>
      w ← rd ws i;
      if p w then words_while p ws n' (S i) else Ret i
  end.

Definition CountTrallingOnes (x : IntVal) : res Z :=
  if IsOneWord x then v ← u_value x; Ret (CountTrallingOnes_word 64 v)
  else
    ws ← u_pValue x;
    i ← words_while (fun w => w =? kAllOnes) ws (numWords x) 0;
    let count := wrap 16 (kWordBitSize * Z.of_nat i) in
    if (i <? numWords x)%nat then
      w ← rd ws i;
      Ret (Z.min (wrap 16 (count + CountTrallingOnes_word 64 w)) (width x))
    else Ret (Z.min count (width x)).

Fixpoint leading_zeros_loop (ws : list Z) (k : nat) (count : Z) : res Z :=
  match k with
  | O => Ret count
  | S i =>
      w ← rd ws i;
      let zeros := CountLeadingZeros_word 64 w in
      let count := wrap 16 (count + zeros) in
      if negb (zeros =? kWordBitSize) then Ret count else leading_zeros_loop ws i count
  end.

Definition CountLeadingZeros (x : IntVal) : res Z :=
  let emptyBits := wrap 16 (kWordBitSize * GetNumWords x - width x) in
  if IsOneWord x then
    v ← u_value x;
    Ret (wrap 16 (CountLeadingZeros_word 64 v - emptyBits))
  else
    ws ← u_pValue x;
    count ← leading_zeros_loop ws (numWords x) 0;
    _ ← ASSERT (emptyBits <=? count);
    Ret (wrap 16 (count - emptyBits)).

Definition CountTrallingZeros (x : IntVal) : res Z :=
  if IsOneWord x then v ← u_value x; Ret (CountTrallingZeros_word 64 v)
  else
    ws ← u_pValue x;
    i ← words_while (fun w => w =? 0) ws (numWords x) 0;
    let count := wrap 16 (kWordBitSize * Z.of_nat i) in
    if (i <? numWords x)%nat then
      w ← rd ws i;
      Ret (Z.min (wrap 16 (count + CountTrallingZeros_word 64 w)) (width x))
    else Ret (Z.min count (width x)).

Definition CountSignificantBits (x : IntVal) : res Z :=
  let minSignificantSize := if sign x then 2 else 1 in
  nonSignificantBits ←
    (if sign x then
       sb ← GetSignBit x;
       n ← (if sb : bool then CountLeadingOnes x else CountLeadingZeros x);
       Ret (if negb (n =? 0) then n - 1 else n)
     else CountLeadingZeros x);
  _ ← ASSERT (nonSignificantBits <=? width x);
  Ret (Z.max (wrap 16 (width x - nonSignificantBits)) minSignificantSize).

Definition CountPopulation (x : IntVal) : res Z :=
  if IsOneWord x then v ← u_value x; Ret (builtin_popcount v)
  else
    ws ← u_pValue x;
    for_up (numWords x) 0 (fun i count =>
      w ← rd ws i; Ret (wrap 16 (count + builtin_popcount w))) 0.

Definition IsOneSignificantWord (x : IntVal) : res bool :=
  if IsOneWord x then Ret true
  else n ← CountSignificantBits x; Ret (n <=? kWordBitSize).

(** ** Extended values *)

Definition low_word (x : IntVal) : res Z :=
  if IsOneWord x then u_value x else ws ← u_pValue x; rd ws 0.

Definition GetZXTValue_size (x : IntVal) (size : Z) : res Z :=
  one ← IsOneSignificantWord x;
  _ ← ASSERT one;
  value ← low_word x;
  _ ← ASSERT (size <=? kWordBitSize);
  Ret (if negb (size =? 0)
       then shr 64 (shl 64 value (kWordBitSize - size)) (kWordBitSize - size) else value).

Definition GetSXTValue_size (x : IntVal) (size : Z) : res Z :=
  one ← IsOneSignificantWord x;
  _ ← ASSERT one;
  value ← low_word x;
  let bitWidth := if negb (size =? 0) then size else wrap 8 (width x) in
  _ ← ASSERT (size <=? width x);
  let shift := wrap 8 (wrap 32 (kWordBitSize - bitWidth)) in
  _ ← CHECK_SHIFT 64 shift;
  let value := shl 64 value shift in
  let leadingOnes := shl 64 kAllOnes (if bitWidth <? kWordBitSize then bitWidth else 63) in
  if negb (bitWidth =? 0) then
    b ← GetBit x (wrap 16 (bitWidth - 1));
    Ret (swrap 64 (if b : bool then Z.lor (shr 64 value shift) leadingOnes
                   else shr 64 value shift))
  else Ret 0.

Definition GetZXTValue (x : IntVal) : res Z := GetZXTValue_size x 0.
Definition GetSXTValue (x : IntVal) : res Z := GetSXTValue_size x 0.

Definition GetExtValue_size (x : IntVal) (size : Z) : res Z :=
  if sign x then GetSXTValue_size x size
  else v ← GetZXTValue_size x size; Ret (swrap 64 v).

Definition GetExtValue (x : IntVal) : res Z := GetExtValue_size x 0.

(** ** Tests on the whole value *)

Definition AreAllBitsOne (x : IntVal) : res bool :=
  if IsOneWord x then
    v ← u_value x; Ret (v =? shr 64 kAllOnes (kWordBitSize - width x))
  else n ← CountTrallingOnes x; Ret (n =? width x).

Definition AreAllBitsZeros (x : IntVal) : res bool :=
  if IsOneWord x then v ← u_value x; Ret (v =? 0)
  else n ← CountTrallingZeros x; Ret (n =? width x).

Definition IsPowerOf2 (x : IntVal) : res bool :=
  if IsOneWord x then
    v ← u_value x; Ret (negb (v =? 0) && (Z.land v (wrap 64 (v - 1)) =? 0))
  else n ← CountPopulation x; Ret (n =? 1).

Definition WideIsMaxValue (x : IntVal) : res bool :=
  if sign x then
    b ← GetSignBit x;
    if b : bool then Ret false
    else n ← CountTrallingOnes x; Ret (n =? width x - 1)
  else AreAllBitsOne x.

Definition WideIsMinValue (x : IntVal) : res bool :=
  if sign x then
    b ← GetSignBit x;
    if b : bool then n ← CountTrallingZeros x; Ret (n =? width x - 1)
    else Ret false
  else AreAllBitsZeros x.

Definition IsMaxValue (x : IntVal) : res bool :=
  if IsOneWord x then
    if sign x then v ← u_value x; Ret (v =? wrap 64 (shl 64 1 (width x - 1) - 1))
    else AreAllBitsOne x
  else WideIsMaxValue x.

Definition IsMinValue (x : IntVal) : res bool :=
  if IsOneWord x then
    v ← u_value x; Ret (if sign x then v =? shl 64 1 (width x - 1) else v =? 0)
  else WideIsMinValue x.

(** memset of the words of a wide value *)
Definition fill_words (x : IntVal) (filler : Z) : res IntVal :=
  ws ← u_pValue x;
  ws ← blit ws 0 (replicate (numWords x) filler);
  Ret (set_u x (PValue ws)).

Definition WideSetMaxValue (x : IntVal) : res IntVal :=
  x ← fill_words x kAllOnes;
  x ← (if sign x then
         let shift := wrap 8 (width x mod kWordBitSize + 1) in
         ws ← u_pValue x;
         ws ← wr ws (numWords x - 1) (shr 64 kAllOnes shift);
         Ret (set_u x (PValue ws))
       else Ret x);
  TruncInPlace x.

Definition WideSetMinValue (x : IntVal) : res IntVal :=
  x ← fill_words x 0;
  x ← (if sign x then
         let shift := wrap 8 (Z.rem (kWordBitSize - (width x + 1)) kWordBitSize) in
         ws ← u_pValue x;
         ws ← wr ws (numWords x - 1) (shl 64 1 shift);
         Ret (set_u x (PValue ws))
       else Ret x);
  TruncInPlace x.

Definition SetMaxValue_to (x : IntVal) (isSigned : bool) (bitWidth : Z) : res IntVal :=
  _ ← ASSERT (IsOneWord x || (GetNumWords x =? GetNumWords_of bitWidth));
  let x := MkIntVal (u x) bitWidth isSigned in
  if IsOneWord x then
    Ret (set_u x (Value (if sign x then wrap 64 (shl 64 1 (width x - 1) - 1)
                         else shr 64 kAllOnes (kWordBitSize - width x))))
  else WideSetMaxValue x.

Definition SetMinValue_to (x : IntVal) (isSigned : bool) (bitWidth : Z) : res IntVal :=
  _ ← ASSERT (IsOneWord x || (GetNumWords x =? GetNumWords_of bitWidth));
  let x := MkIntVal (u x) bitWidth isSigned in
  if IsOneWord x then
    Ret (set_u x (Value (if sign x then shl 64 1 (width x - 1) else 0)))
  else WideSetMinValue x.

Definition SetMaxValue (x : IntVal) : res IntVal := SetMaxValue_to x (sign x) (width x).
Definition SetMinValue (x : IntVal) : res IntVal := SetMinValue_to x (sign x) (width x).

Definition WideIsSubsetOf (x rhs : IntVal) : res bool :=
  ws ← u_pValue x;
  rs ← u_pValue rhs;
  for_up (numWords x) 0 (fun i (acc : bool) =>
    if acc then
      w ← rd ws i;
      r ← rd rs i;
      Ret (Z.land w (notw 64 r) =? 0)
    else Ret false) true.

Definition IsSubsetOf (x rhs : IntVal) : res bool :=
  _ ← ASSERT (same_type x rhs);
  if IsOneWord x then
    v ← u_value x; r ← u_value rhs; Ret (Z.land v (notw 64 r) =? 0)
  else WideIsSubsetOf x rhs.

(** ** Comparison *)

Definition WideCompare (lhs rhs : IntVal) : res Z :=
  _ ← ASSERT (negb (IsOneWord lhs) && negb (IsOneWord rhs));
  _ ← ASSERT (same_type lhs rhs);
  l ← u_pValue lhs;
  r ← u_pValue rhs;
  if sign lhs then
    lhsSign ← GetSignBit lhs;
    rhsSign ← GetSignBit rhs;
    if negb (eqb lhsSign rhsSign) then Ret (if lhsSign : bool then -1 else 1)
    else BitwiseCompare 64 l r (width lhs)
  else BitwiseCompare 64 l r (width lhs).

Definition op_eq (x rhs : IntVal) : res bool :=
  _ ← ASSERT (same_type x rhs);
  if IsOneWord x then
    v ← u_value x; r ← u_value rhs; Ret (v =? r)
  else
    ws ← u_pValue x;
    rs ← u_pValue rhs;
    l ← slice ws 0 (numWords x);
    r ← slice rs 0 (numWords x);
    Ret (bool_decide (l = r)).

Definition op_lt (x rhs : IntVal) : res bool :=
  _ ← ASSERT (same_type x rhs);
  if IsOneWord x then
    if sign x then a ← GetSXTValue x; b ← GetSXTValue rhs; Ret (a <? b)
    else a ← u_value x; b ← u_value rhs; Ret (a <? b)
  else c ← WideCompare x rhs; Ret (c <? 0).

Definition op_gt (x rhs : IntVal) : res bool :=
  _ ← ASSERT (same_type x rhs);
  if IsOneWord x then
    if sign x then a ← GetSXTValue x; b ← GetSXTValue rhs; Ret (b <? a)
    else a ← u_value x; b ← u_value rhs; Ret (b <? a)
  else c ← WideCompare x rhs; Ret (0 <? c).

Definition op_ne (x rhs : IntVal) : res bool := b ← op_eq x rhs; Ret (negb b).
Definition op_le (x rhs : IntVal) : res bool := b ← op_gt x rhs; Ret (negb b).
Definition op_ge (x rhs : IntVal) : res bool := b ← op_lt x rhs; Ret (negb b).

(** operator==(int64) *)
Definition op_eq_int64 (x : IntVal) (val : Z) : res bool :=
  one ← IsOneSignificantWord x;
  if one : bool then v ← GetExtValue x; Ret (v =? val)
  else y ← IntVal_int val (width x) (sign x); op_eq x y.

(** ** Addition, subtraction, complement, negation *)

(** A wide operation works in place on the words of a copy of [*this]. *)
Definition on_words (x : IntVal) (f : list Z -> res (list Z)) : res IntVal :=
  ws ← u_pValue x; ws ← f ws; Ret (set_u x (PValue ws)).

Definition WideAddInPlace (x rhs : IntVal) : res IntVal :=
  _ ← ASSERT (negb (IsOneWord x));
  _ ← ASSERT (same_type x rhs);
  rs ← u_pValue rhs;
  on_words x (fun ws =>
    r ← for_up (numWords x) 0 (fun i st =>
          let '(ws, carry) := st in
          w ← rd ws i;
          r ← rd rs i;
          let w := wrap 64 (w + wrap 64 (r + (if carry : bool then 1 else 0))) in
          ws ← wr ws i w;
          Ret (ws, if carry then w <=? r else w <? r)) (ws, false);
    Ret (fst r)).

Definition WideAddInPlace_u64 (x : IntVal) (val : Z) : res IntVal :=
  _ ← ASSERT (negb (IsOneWord x));
  on_words x (fun ws =>
    w ← rd ws 0;
    let '(w, carry) := AddCarry 64 w val in
    ws ← wr ws 0 w;
    r ← while_up (numWords x - 1) 1 (fun st => snd st =? 1)
          (fun i st =>
             w ← rd (fst st) i;
             let '(w, carry) := AddCarry 64 w (snd st) in
             ws ← wr (fst st) i w;
             Ret (ws, carry)) (ws, carry);
    Ret (fst r)).

Definition WideSubInPlace (x rhs : IntVal) : res IntVal :=
  _ ← ASSERT (negb (IsOneWord x));
  _ ← ASSERT (same_type x rhs);
  rs ← u_pValue rhs;
  on_words x (fun ws =>
    r ← for_up (numWords x) 0 (fun i st =>
          let '(ws, borrow) := st in
          src ← rd ws i;
          r ← rd rs i;
          let w := wrap 64 (src - wrap 64 (r + (if borrow : bool then 1 else 0))) in
          ws ← wr ws i w;
          Ret (ws, if borrow then src <=? w else src <? w)) (ws, false);
    Ret (fst r)).

Definition WideSubInPlace_u64 (x : IntVal) (val : Z) : res IntVal :=
  _ ← ASSERT (negb (IsOneWord x));
  on_words x (fun ws =>
    src ← rd ws 0;
    let w := wrap 64 (src - val) in
    ws ← wr ws 0 w;
    r ← while_up (numWords x - 1) 1 snd
          (fun i st =>
             w ← rd (fst st) i;
             let w := wrap 64 (w - (if snd st : bool then 1 else 0)) in
             ws ← wr (fst st) i w;
             Ret (ws, 1 <=? w)) (ws, src <? w);
    Ret (fst r)).

Definition WideNotInPlace (x : IntVal) : res IntVal :=
  _ ← ASSERT (negb (IsOneWord x));
  on_words x (fun ws =>
    for_up (numWords x) 0 (fun i ws => w ← rd ws i; wr ws i (notw 64 w)) ws).

Definition WideNegInPlace (x : IntVal) : res IntVal :=
  _ ← ASSERT (negb (IsOneWord x));
  x ← WideNotInPlace x;
  WideAddInPlace_u64 x 1.

Definition WideAdd (x rhs : IntVal) : res IntVal := r ← IntVal_copy x; WideAddInPlace r rhs.
Definition WideSub (x rhs : IntVal) : res IntVal := r ← IntVal_copy x; WideSubInPlace r rhs.
Definition WideNot (x : IntVal) : res IntVal :=
  _ ← ASSERT (negb (IsOneWord x)); r ← IntVal_copy x; WideNotInPlace r.
Definition WideNeg (x : IntVal) : res IntVal :=
  _ ← ASSERT (negb (IsOneWord x)); r ← IntVal_copy x; WideNegInPlace r.

Definition op_add (x val : IntVal) : res IntVal :=
  _ ← ASSERT (same_type x val);
  if IsOneWord x then
    a ← u_value x; b ← u_value val; IntVal_int (wrap 64 (a + b)) (width x) (sign x)
  else WideAdd x val.

Definition op_sub (x val : IntVal) : res IntVal :=
  _ ← ASSERT (same_type x val);
  if IsOneWord x then
    a ← u_value x; b ← u_value val; IntVal_int (wrap 64 (a - b)) (width x) (sign x)
  else WideSub x val.

Definition op_not (x : IntVal) : res IntVal :=
  if IsOneWord x then a ← u_value x; IntVal_int (notw 64 a) (width x) (sign x)
  else WideNot x.

Definition op_neg (x : IntVal) : res IntVal :=
  if IsOneWord x then a ← u_value x; IntVal_int (wrap 64 (notw 64 a + 1)) (width x) (sign x)
  else WideNeg x.

Definition op_incr (x : IntVal) : res IntVal :=
  x ← (if IsOneWord x then a ← u_value x; Ret (set_u x (Value (wrap 64 (a + 1))))
       else WideAddInPlace_u64 x 1);
  TruncInPlace x.

Definition op_decr (x : IntVal) : res IntVal :=
  x ← (if IsOneWord x then a ← u_value x; Ret (set_u x (Value (wrap 64 (a - 1))))
       else WideSubInPlace_u64 x 1);
  TruncInPlace x.

(** static IntVal Abs(const IntVal &val) *)
Definition Abs (val : IntVal) : res IntVal :=
  if negb (sign val) then IntVal_copy val
  else
    ret ← IntVal_resign val false;
    b ← GetSignBit val;
    if b : bool then op_neg ret else IntVal_copy ret.

(** ** Multiplication *)

Definition WideMul (x rhs : IntVal) : res IntVal :=
  _ ← ASSERT (negb (IsOneWord x));
  _ ← ASSERT (same_type x rhs);
  src0 ← u_pValue x;
  src1 ← u_pValue rhs;
  let n := numWords x in
  dst ← for_up n 0 (fun i dst => m ← rd src1 i; MulPart dst src0 m i n) (replicate n 0);
  IntVal_ptr dst (width x) (sign x).

Definition op_mul (x val : IntVal) : res IntVal :=
  _ ← ASSERT (same_type x val);
  if IsOneWord x then
    a ← u_value x; b ← u_value val; IntVal_int (wrap 64 (a * b)) (width x) (sign x)
  else WideMul x val.

(** ** Bitwise operators *)

(** The word-by-word loop of WideAndInPlace, WideOrInPlace and WideXorInPlace *)
Definition WideBitwise (f : Z -> Z -> Z) (x rhs : IntVal) : res IntVal :=
  _ ← ASSERT (negb (IsOneWord x));
  _ ← ASSERT (same_type x rhs);
  x ← IntVal_copy x;
  rs ← u_pValue rhs;
  on_words x (fun ws =>
    for_up (numWords x) 0 (fun i ws =>
      w ← rd ws i; r ← rd rs i; wr ws i (f w r)) ws).

Definition WideAnd : IntVal -> IntVal -> res IntVal := WideBitwise Z.land.
Definition WideOr : IntVal -> IntVal -> res IntVal := WideBitwise Z.lor.
Definition WideXor : IntVal -> IntVal -> res IntVal := WideBitwise Z.lxor.

Definition op_and (x val : IntVal) : res IntVal :=
  _ ← ASSERT (same_type x val);
  if IsOneWord x then
    a ← u_value x; b ← u_value val; IntVal_int (Z.land a b) (width x) (sign x)
  else WideAnd x val.

Definition op_or (x val : IntVal) : res IntVal :=
  _ ← ASSERT (same_type x val);
  if IsOneWord x then
    a ← u_value x; b ← u_value val; IntVal_int (Z.lor a b) (width x) (sign x)
  else WideOr x val.

Definition op_xor (x val : IntVal) : res IntVal :=
  _ ← ASSERT (same_type x val);
  if IsOneWord x then
    a ← u_value x; b ← u_value val; IntVal_int (Z.lxor a b) (width x) (sign x)
  else WideXor x val.

(** ** Shifts *)

Definition WideShlInPlace (x : IntVal) (bits : Z) : res IntVal :=
  _ ← ASSERT (negb (IsOneWord x));
  _ ← ASSERT (bits <=? width x);
  on_words x (fun ws => ShiftLeft 64 ws (numWords x) (wrap 16 bits)).

Definition WideShl (x : IntVal) (bits : Z) : res IntVal :=
  _ ← ASSERT (negb (IsOneWord x));
  _ ← ASSERT (bits <=? width x);
  r ← IntVal_copy x;
  WideShlInPlace r bits.

Definition WideAShrInPlace (x : IntVal) (bits : Z) : res IntVal :=
  _ ← ASSERT (negb (IsOneWord x));
  _ ← ASSERT (bits <=? width x);
  neg ← (if sign x then GetSignBit x else Ret false);
  on_words x (fun ws => ShiftRight 64 ws (numWords x) (wrap 16 bits) neg).

Definition WideAShr (x : IntVal) (bits : Z) : res IntVal :=
  _ ← ASSERT (negb (IsOneWord x));
  _ ← ASSERT (bits <=? width x);
  r ← IntVal_copy x;
  WideAShrInPlace r bits.

Definition WideLShrInPlace (x : IntVal) (bits : Z) : res IntVal :=
  _ ← ASSERT (negb (IsOneWord x));
  _ ← ASSERT (bits <=? width x);
  on_words x (fun ws => ShiftRight 64 ws (numWords x) (wrap 16 bits) false).

Definition WideLShr (x : IntVal) (bits : Z) : res IntVal :=
  _ ← ASSERT (negb (IsOneWord x));
  _ ← ASSERT (bits <=? width x);
  r ← IntVal_copy x;
  WideLShrInPlace r bits.

(** operator<<(uint64) and operator>>(uint64) *)
Definition op_shl (x : IntVal) (bits : Z) : res IntVal :=
  _ ← ASSERT (bits <=? width x);
  if IsOneWord x then
    v ← u_value x; _ ← CHECK_SHIFT 64 bits; IntVal_int (shl 64 v bits) (width x) (sign x)
  else WideShl x bits.

(** The host shifts a signed 64-bit word arithmetically. *)
Definition sar64 (v bits : Z) : Z := Z.shiftr v (bits mod 64).

Definition op_shr (x : IntVal) (bits : Z) : res IntVal :=
  _ ← ASSERT (bits <=? width x);
  if IsOneWord x then
    if sign x then
      v ← GetSXTValue x; _ ← CHECK_SHIFT 64 bits; IntVal_int (wrap 64 (sar64 v bits)) (width x) (sign x)
    else v ← u_value x; _ ← CHECK_SHIFT 64 bits; IntVal_int (shr 64 v bits) (width x) (sign x)
  else WideAShr x bits.

(** operator<<(const IntVal &) and operator>>(const IntVal &) *)
Definition op_shl_IntVal (x bits : IntVal) : res IntVal :=
  neg ← GetSignBit bits;
  _ ← ASSERT (negb neg);
  if IsOneWord bits then v ← u_value bits; op_shl x v
  else
    one ← IsOneSignificantWord bits;
    _ ← ASSERT one;
    v ← low_word bits; op_shl x v.

Definition op_shr_IntVal (x bits : IntVal) : res IntVal :=
  if IsOneWord bits then v ← u_value bits; op_shr x v
  else
    one ← IsOneSignificantWord bits;
    _ ← ASSERT one;
    v ← low_word bits; op_shr x v.

(** LShr(uint64 shift) *)
Definition LShr_own (x : IntVal) (shift : Z) : res IntVal :=
  _ ← ASSERT (shift <=? width x);
  if IsOneWord x then
    v ← u_value x; _ ← CHECK_SHIFT 64 shift; IntVal_int (shr 64 v shift) (width x) (sign x)
  else WideLShr x shift.

(** ** Truncation and extension *)

Definition Trunc_width (x : IntVal) (newWidth : Z) (isSigned : bool) : res IntVal :=
  if IsOneWord x then v ← u_value x; IntVal_int v newWidth isSigned
  else ws ← u_pValue x; IntVal_ptr ws newWidth isSigned.

Definition ExtendToWideInt (x : IntVal) (newWidth : Z) (isSigned : bool) : res IntVal :=
  _ ← ASSERT (width x <? newWidth);
  let oldNumWords := numWords x in
  let newNumWords := Z.to_nat (GetNumWords_of newWidth) in
  let numExtendBits := wrap 16 (newWidth - width x) mod kWordBitSize in
  src ← (if IsOneWord x then v ← u_value x; Ret [v]
         else ws ← u_pValue x; slice ws 0 oldNumWords);
  newValue ← blit (replicate newNumWords 0) 0 src;
  neg ← (if sign x then GetSignBit x else Ret false);
  newValue ← (if negb (numExtendBits =? 0) && (neg : bool) then
                w ← rd newValue (oldNumWords - 1);
                wr newValue (oldNumWords - 1)
                  (Z.lor w (shl 64 kAllOnes (kWordBitSize - numExtendBits)))
              else Ret newValue);
  newValue ← blit newValue oldNumWords
               (replicate (newNumWords - oldNumWords) (if neg : bool then kAllOnes else 0));
  IntVal_ptr newValue newWidth isSigned.

Definition Extend_width (x : IntVal) (newWidth : Z) (isSigned : bool) : res IntVal :=
  _ ← ASSERT (width x <? newWidth);
  if IsOneWord x && (newWidth <=? kWordBitSize) then
    v ← GetExtValue x; IntVal_int v newWidth isSigned
  else ExtendToWideInt x newWidth isSigned.

Definition TruncOrExtend_width (x : IntVal) (newWidth : Z) (isSigned : bool) : res IntVal :=
  if newWidth <=? width x then Trunc_width x newWidth isSigned
  else Extend_width x newWidth isSigned.

(** ** Division *)

Definition WideUnsignedDivRem (delimer divisor : IntVal) : res (IntVal * IntVal) :=
  _ ← ASSERT (same_type delimer divisor);
  _ ← ASSERT (negb (sign delimer) && negb (IsOneWord delimer));
  one1 ← IsOneSignificantWord delimer;
  one2 ← (if one1 : bool then IsOneSignificantWord divisor else Ret false);
  dws ← u_pValue delimer;
  vws ← u_pValue divisor;
  if one2 : bool then
    delimerVal ← rd dws 0;
    divisorVal ← rd vws 0;
    _ ← (if divisorVal =? 0 then Fault DivByZero else Ret tt);
    quot ← IntVal_int (delimerVal / divisorVal) (width divisor) false;
    rem ← IntVal_int (delimerVal mod divisorVal) (width divisor) false;
    Ret (quot, rem)
  else
    sigb ← CountSignificantBits divisor;
    siga ← CountSignificantBits delimer;
    let n := GetNumHalfWords sigb in
    let m := wrap 16 (wrap 16 (GetNumHalfWords siga - n) + 1) in
    let n := Z.to_nat n in
    let m := Z.to_nat m in
    asrc ← slice (as_uint32 dws) 0 (n + m - 1);
    a ← blit (replicate (n + m) 0) 0 asrc;
    a ← wr a (n + m - 1) 0;
    b ← slice (as_uint32 vws) 0 n;
    norm ← Normalize a b n m;
    let '(k, a, b) := norm in
    qr ← BasecaseDivRem (replicate (m + 1) 0) a b n m;
    let '(q, r) := qr in
    r ← ShiftRight 32 r (n + m) k false;
    qm ← rd q m;
    _ ← ASSERT (qm =? 0);
    quotient ← CopyUint32ToUint64 (numWords delimer) q m;
    remainder ← CopyUint32ToUint64 (numWords delimer) r (n + m - 1);
    uQuotient ← IntVal_ptr quotient (width delimer) (sign delimer);
    uRemainder ← IntVal_ptr remainder (width delimer) (sign delimer);
    Ret (uQuotient, uRemainder).

(** The end of WideDivRem, from the comparison [delimer < divisor] of the
    magnitudes on *)
Definition WideDivRem_compared (x delimer divisor : IntVal) (isResultNeg isDelimerNeg less : bool)
    : res (IntVal * IntVal) :=
  if less then
    zero ← IntVal_int 0 (width x) (sign x);
    self ← IntVal_copy x;
    Ret (zero, self)
  else
    same ← op_eq delimer divisor;
    if same : bool then
      quot ← IntVal_int (if isResultNeg then kAllOnes else 1) (width x) (sign x);
      zero ← IntVal_int 0 (width x) (sign x);
      Ret (quot, zero)
    else
      uRes ← WideUnsignedDivRem delimer divisor;
      q ← IntVal_resign (fst uRes) (sign x);
      quotient ← (if isResultNeg then op_neg q else Ret q);
      r ← IntVal_resign (snd uRes) (sign x);
      remainder ← (if (isDelimerNeg : bool) then op_neg r else Ret r);
      Ret (quotient, remainder).

Definition WideDivRem (x rhs : IntVal) : res (IntVal * IntVal) :=
  _ ← ASSERT (negb (IsOneWord x));
  _ ← ASSERT (same_type x rhs);
  isDivizorNeg ← (if sign rhs then GetSignBit rhs else Ret false);
  divisor ← Abs rhs;
  isDelimerNeg ← (if sign x then GetSignBit x else Ret false);
  delimer ← Abs x;
  let isResultNeg := negb (eqb isDivizorNeg isDelimerNeg) in
  less ← op_lt delimer divisor;
  WideDivRem_compared x delimer divisor isResultNeg isDelimerNeg less.

(** The assertions of operator/ and operator%, and their one-word branches up
    to the unsigned operation on the magnitudes. *)
Definition div_asserts (x divisor : IntVal) : res unit :=
  _ ← ASSERT (same_type x divisor);
  z ← AreAllBitsZeros divisor;
  _ ← ASSERT (negb z);
  if sign x then
    mn ← IsMinValue x;
    if negb mn then Ret tt
    else o ← AreAllBitsOne divisor; ASSERT (negb o)
  else Ret tt.

Definition magnitude (x : IntVal) (isNeg : bool) : res Z :=
  if isNeg then n ← op_neg x; u_value n else u_value x.

Definition op_div (x divisor : IntVal) : res IntVal :=
  _ ← div_asserts x divisor;
  if IsOneWord x then
    isNeg ← (if sign x then GetSignBit x else Ret false);
    isDivisorNeg ← (if sign divisor then GetSignBit divisor else Ret false);
    dividendVal ← magnitude x isNeg;
    divisorVal ← magnitude divisor isDivisorNeg;
    _ ← (if divisorVal =? 0 then Fault DivByZero else Ret tt);
    q ← IntVal_int (dividendVal / divisorVal) (width x) (sign x);
    if negb (eqb isNeg isDivisorNeg) then op_neg q else Ret q
  else r ← WideDivRem x divisor; Ret (fst r).

Definition op_rem (x divisor : IntVal) : res IntVal :=
  _ ← div_asserts x divisor;
  if IsOneWord x then
    isNeg ← (if sign x then GetSignBit x else Ret false);
    isDivisorNeg ← (if sign divisor then GetSignBit divisor else Ret false);
    dividendVal ← magnitude x isNeg;
    divisorVal ← magnitude divisor isDivisorNeg;
    _ ← (if divisorVal =? 0 then Fault DivByZero else Ret tt);
    r ← IntVal_int (dividendVal mod divisorVal) (width x) (sign x);
    if (isNeg : bool) then op_neg r else Ret r
  else r ← WideDivRem x divisor; Ret (snd r).

(** ** Byte swap *)

Fixpoint bswap_bytes (n : nat) (v acc : Z) : Z :=
  match n with
  | O => acc
  | S n' => bswap_bytes n' (Z.shiftr v 8) (Z.lor (Z.shiftl acc 8) (wrap 8 v))
  end.
(** __builtin_bswap16/32/64 *)
Definition builtin_bswap (bytes : nat) (v : Z) : Z := bswap_bytes bytes v 0.

Definition ByteSwap (x : IntVal) : res IntVal :=
  if width x =? 16 then v ← u_value x; IntVal_int (builtin_bswap 2 (wrap 16 v)) (width x) (sign x)
  else if width x =? 32 then
    v ← u_value x; IntVal_int (builtin_bswap 4 (wrap 32 v)) (width x) (sign x)
  else if width x =? 64 then v ← u_value x; IntVal_int (builtin_bswap 8 v) (width x) (sign x)
  else
    _ ← CHECK_FATAL (width x mod 64 =? 0);
    res0 ← IntVal_int 0 (width x) (sign x);
    ws ← u_pValue x;
    on_words res0 (fun rs =>
      for_up (numWords x) 0 (fun i rs =>
        w ← rd ws (numWords x - i - 1); wr rs i (builtin_bswap 8 w)) rs).

(** ** Operations in terms of a primitive type *)
Section Typed.
Context `{Target}.

(** static_cast<uint16>(GetPrimTypeActualBitSize(type)) *)
Definition type_width (pType : PrimType) : Z := wrap 16 (GetPrimTypeActualBitSize pType).

(** IntVal(T val, PrimType type) and IntVal(const IntVal &val, PrimType type) *)
Definition IntVal_typed (val : Z) (type : PrimType) : res IntVal :=
  x ← IntVal_int val (type_width type) (IsSignedInteger type);
  _ ← ASSERT (IsPrimitiveInteger type || IsPrimitiveVectorInteger type);
  Ret x.

Definition IntVal_as (val : IntVal) (type : PrimType) : res IntVal :=
  _ ← ASSERT (IsPrimitiveInteger type);
  IntVal_from val (type_width type) (IsSignedInteger type).

Definition Trunc (x : IntVal) (newType : PrimType) : res IntVal :=
  Trunc_width x (type_width newType) (IsSignedInteger newType).
Definition Extend (x : IntVal) (newType : PrimType) : res IntVal :=
  Extend_width x (type_width newType) (IsSignedInteger newType).
Definition TruncOrExtend (x : IntVal) (newType : PrimType) : res IntVal :=
  TruncOrExtend_width x (type_width newType) (IsSignedInteger newType).

(** Both operands are converted, then the operator of the class applies. *)
Definition typed {A : Type} (op : IntVal -> IntVal -> res A) (x val : IntVal)
    (pType : PrimType) : res A :=
  a ← TruncOrExtend x pType; b ← TruncOrExtend val pType; op a b.

Definition Equal : IntVal -> IntVal -> PrimType -> res bool := typed op_eq.
Definition Less : IntVal -> IntVal -> PrimType -> res bool := typed op_lt.
Definition Greater : IntVal -> IntVal -> PrimType -> res bool := typed op_gt.
Definition Add : IntVal -> IntVal -> PrimType -> res IntVal := typed op_add.
Definition Sub : IntVal -> IntVal -> PrimType -> res IntVal := typed op_sub.
Definition Mul : IntVal -> IntVal -> PrimType -> res IntVal := typed op_mul.
Definition Div : IntVal -> IntVal -> PrimType -> res IntVal := typed op_div.
Definition Rem : IntVal -> IntVal -> PrimType -> res IntVal := typed op_rem.
Definition And : IntVal -> IntVal -> PrimType -> res IntVal := typed op_and.
Definition Or : IntVal -> IntVal -> PrimType -> res IntVal := typed op_or.
Definition Xor : IntVal -> IntVal -> PrimType -> res IntVal := typed op_xor.

(** SDiv/UDiv/SRem/URem: division in terms of a width *)
Definition div_in (op : IntVal -> IntVal -> res IntVal) (isSigned : bool)
    (x divisor : IntVal) (bitWidth : Z) : res IntVal :=
  a ← TruncOrExtend_width x bitWidth isSigned;
  b ← TruncOrExtend_width divisor bitWidth isSigned;
  op a b.
Definition SDiv := div_in op_div true.
Definition UDiv := div_in op_div false.
Definition SRem := div_in op_rem true.
Definition URem := div_in op_rem false.

Definition Shl (x : IntVal) (shift : Z) (pType : PrimType) : res IntVal :=
  a ← TruncOrExtend x pType; op_shl a shift.

Definition LShr (x : IntVal) (shift : Z) (pType : PrimType) : res IntVal :=
  if IsOneWord x then
    ret ← TruncOrExtend x pType;
    _ ← ASSERT (shift <=? GetBitWidth ret);
    v ← u_value ret;
    _ ← CHECK_SHIFT 64 shift;
    Ret (set_u ret (Value (shr 64 v shift)))
  else ret ← TruncOrExtend x pType; WideLShr ret shift.

Definition AShr (x : IntVal) (shift : Z) (pType : PrimType) : res IntVal :=
  ret ← TruncOrExtend x pType;
  _ ← ASSERT (shift <=? width ret);
  ret ← (if IsOneWord x then
           v ← GetSXTValue ret;
           w ← IntVal_typed v PTY_i64;
           w ← op_shr w shift;
           e ← GetExtValue w;
           (* the assignment to ret.u.value needs the one-word member *)
           _ ← u_value ret;
           Ret (set_u ret (Value (wrap 64 e)))
         else WideAShrInPlace ret shift);
  TruncInPlace ret.

(** The overloads whose shift count is an IntVal *)
Definition shift_count (shift : IntVal) : res Z :=
  one ← IsOneSignificantWord shift; _ ← ASSERT one; low_word shift.
Definition Shl_IntVal (x shift : IntVal) (pType : PrimType) : res IntVal :=
  s ← u_value shift; Shl x s pType.
Definition LShr_IntVal (x shift : IntVal) (pType : PrimType) : res IntVal :=
  s ← shift_count shift; LShr x s pType.
Definition AShr_IntVal (x shift : IntVal) (pType : PrimType) : res IntVal :=
  s ← shift_count shift; AShr x s pType.

(** Min and Max in terms of newType *)
Definition Min (a b : IntVal) (newType : PrimType) : res IntVal :=
  l ← Less a b newType;
  if l : bool then IntVal_as a newType else IntVal_as b newType.

Definition Max (a b : IntVal) (newType : PrimType) : res IntVal :=
  m ← Min a b newType;
  e ← op_eq m a;
  if e : bool then IntVal_copy b else IntVal_copy a.
End Typed.

(** Min and Max of values of one type *)
Definition Min_same (a b : IntVal) : res IntVal :=
  l ← op_lt a b; if l : bool then IntVal_copy a else IntVal_copy b.
Definition Max_same (a b : IntVal) : res IntVal :=
  m ← Min_same a b;
  e ← op_eq m a;
  if e : bool then IntVal_copy b else IntVal_copy a.

(** ** Operators between an IntVal and a uint64, in the type of the IntVal *)
Definition with_uint64 (op : IntVal -> IntVal -> res IntVal) (v1 : IntVal) (v2 : Z)
    : res IntVal :=
  y ← IntVal_int v2 (width v1) (sign v1); op v1 y.
Definition uint64_with (op : IntVal -> IntVal -> res IntVal) (v1 : Z) (v2 : IntVal)
    : res IntVal :=
  y ← IntVal_int v1 (width v2) (sign v2); op y v2.

Definition add_u64 := with_uint64 op_add.
Definition sub_u64 := with_uint64 op_sub.
Definition u64_sub := uint64_with op_sub.
Definition mul_u64 := with_uint64 op_mul.
Definition div_u64 := with_uint64 op_div.
Definition u64_div := uint64_with op_div.
Definition rem_u64 := with_uint64 op_rem.
Definition u64_rem := uint64_with op_rem.
Definition and_u64 := with_uint64 op_and.
