(* ===== verification/IntValFacts.v ===== *)
(** * Representation of IntVal and its basic operations

    A well-formed IntVal is the canonical representation [repr w s v] of an
    integer modulo 2^w.  The equations of this file turn the construction,
    bit and counting members into arithmetic on that integer. *)
From S2P Require Import Prelude.
From S2P Require Import PrimTypes.
From S2P Require Import IntWords.
From S2P Require Import IntWordsFacts.
From S2P Require Import IntDivFacts.
From S2P Require Import IntVal.

(** ** Well-formed values

    One word: 1 to 64 bits, the unused high bits zero.  Wide: a multiple of 64
    bits, up to the 255 words that [GetNumWords] can count in a uint8. *)
Inductive wf : IntVal -> Prop :=
  | wf_one v w s : 0 < w <= 64 -> 0 <= v < 2 ^ w -> wf (MkIntVal (Value v) w s)
  | wf_wide ws n s : (2 <= n <= 255)%nat -> array_ok 64 n ws ->
      wf (MkIntVal (PValue ws) (64 * Z.of_nat n) s).

Definition valid_width (w : Z) : Prop :=
  0 < w <= 64 \/ exists n : nat, (2 <= n <= 255)%nat /\ w = 64 * Z.of_nat n.

(** The unsigned integer a value stands for, and the one its sign selects. *)
Definition uval (x : IntVal) : Z :=
  match u x with Value v => v | PValue ws => eval 64 ws end.
Definition ival (x : IntVal) : Z := if sign x then swrap (width x) (uval x) else uval x.

Lemma wf_valid x : wf x -> valid_width (width x).
Proof. intros []; cbn; [by left|right; eauto]. Qed.

Lemma valid_width_range w : valid_width w -> 0 < w <= 16320.
Proof. intros [?|(n & Hn & ->)]; lia. Qed.

Lemma wf_width x : wf x -> 0 < width x <= 16320.
Proof. intros H. by apply valid_width_range, wf_valid. Qed.

Lemma wf_uval x : wf x -> 0 <= uval x < 2 ^ width x.
Proof. intros []; cbn; [done|]. by apply array_ok_eval. Qed.

#[export] Hint Resolve wf_valid wf_uval : arrays.

(** ** Canonical representation *)

Fixpoint limbs (n : nat) (v : Z) : list Z :=
  match n with O => [] | S n => wrap 64 v :: limbs n (Z.shiftr v 64) end.

Definition repr (w : Z) (s : bool) (v : Z) : IntVal :=
  MkIntVal (if IsOneWord_width w then Value (wrap w v)
            else PValue (limbs (Z.to_nat (w / 64)) v)) w s.

Lemma limbs_length n v : length (limbs n v) = n.
Proof. revert v. induction n; intros; cbn; auto. Qed.

Lemma limbs_words n v : words 64 (limbs n v).
Proof. revert v. induction n; intros; constructor; [apply wrap_range; lia|apply IHn]. Qed.

Lemma limbs_ok n v : array_ok 64 n (limbs n v).
Proof. split; [apply limbs_words|apply limbs_length]. Qed.

Lemma eval_limbs n v : eval 64 (limbs n v) = wrap (64 * Z.of_nat n) v.
Proof.
  revert v. induction n as [|n IH]; intros v.
  { cbn [limbs eval]. unfold wrap. by rewrite Z.mul_0_r, Z.pow_0_r, Z.mod_1_r. }
  cbn [limbs eval]. rewrite IH. unfold wrap.
  rewrite Z.shiftr_div_pow2, pow_limb by lia.
  rewrite (Z.rem_mul_r v (2 ^ 64)); [done|lia|apply pow2_pos; lia].
Qed.

Lemma IsOneWord_wide n : (2 <= n)%nat -> IsOneWord_width (64 * Z.of_nat n) = false.
Proof. intros. apply Z.leb_gt. unfold kWordBitSize. lia. Qed.

Lemma IsOneWord_small w : w <= 64 -> IsOneWord_width w = true.
Proof. intros. by apply Z.leb_le. Qed.

Lemma GetNumWords_wide n : (n <= 255)%nat -> GetNumWords_of (64 * Z.of_nat n) = Z.of_nat n.
Proof.
  intros. unfold GetNumWords_of, kWordBitSize.
  rewrite <- (Z.div_unique_pos (64 * Z.of_nat n + 64 - 1) 64 (Z.of_nat n) 63) by lia.
  apply wrap_small. lia.
Qed.

Lemma div_64 n : 64 * Z.of_nat n / 64 = Z.of_nat n.
Proof. rewrite Z.mul_comm. apply Z.div_mul. lia. Qed.

Lemma mod_64 n : (64 * Z.of_nat n) mod 64 = 0.
Proof. rewrite Z.mul_comm. apply Z.mod_mul. lia. Qed.

Lemma uval_repr w s v : valid_width w -> uval (repr w s v) = wrap w v.
Proof.
  intros [Hw|(n & Hn & ->)]; unfold uval, repr; cbn [u].
  - by rewrite IsOneWord_small by lia.
  - by rewrite IsOneWord_wide, div_64, Nat2Z.id, eval_limbs by lia.
Qed.

Lemma repr_wf w s v : valid_width w -> wf (repr w s v).
Proof.
  intros [Hw|(n & Hn & ->)]; unfold repr.
  - rewrite IsOneWord_small by lia. constructor; [done|apply wrap_range; lia].
  - rewrite IsOneWord_wide, div_64, Nat2Z.id by lia. constructor; [done|apply limbs_ok].
Qed.

#[export] Hint Resolve repr_wf : arrays.

(** The representation is unique. *)
Lemma wf_inj x y :
  wf x -> wf y -> width x = width y -> sign x = sign y -> uval x = uval y -> x = y.
Proof.
  intros [v w s Hw Hv|ws n s Hn Hws] Hy Ew Es Eu; inversion Hy; subst; cbn in *; subst; try lia.
  - done.
  - assert (n = n0) as <- by lia. f_equal. f_equal.
    apply (eval_inj 64 ltac:(lia)); [apply Hws|apply H0| |done].
    by rewrite (proj2 Hws), (proj2 H0).
Qed.

Lemma repr_of_wf x : wf x -> x = repr (width x) (sign x) (uval x).
Proof.
  intros Hx. pose proof (wf_valid x Hx) as Hw. pose proof (wf_uval x Hx).
  apply wf_inj; [done|by apply repr_wf|done|done|].
  by rewrite uval_repr, wrap_small.
Qed.

Lemma repr_congr w s v v' : valid_width w -> wrap w v = wrap w v' -> repr w s v = repr w s v'.
Proof.
  intros Hw E. apply wf_inj; [by apply repr_wf..|done|done|]. by rewrite !uval_repr.
Qed.

Lemma repr_wrap w s v : valid_width w -> repr w s (wrap w v) = repr w s v.
Proof.
  intros Hw. apply repr_congr; [done|]. apply wrap_wrap. pose proof (valid_width_range w Hw). lia.
Qed.

(** An operation whose result is well formed, of type (w, s) and value v
    modulo 2^w returns [repr w s v]. *)
Lemma ret_repr (m : res IntVal) w s v :
  valid_width w ->
  wp m (fun r => wf r /\ width r = w /\ sign r = s /\ uval r = wrap w v) ->
  m = Ret (repr w s v).
Proof.
  intros Hw Hm. destruct (wp_returns m _ Hm) as (r & -> & Hr & <- & <- & Hu). f_equal.
  rewrite (repr_of_wf r Hr) at 1. rewrite Hu. by apply repr_wrap.
Qed.

Lemma ret_repr_wf (m : res IntVal) w s v :
  valid_width w -> m = Ret (repr w s v) ->
  wp m (fun r => wf r /\ width r = w /\ sign r = s /\ uval r = wrap w v).
Proof.
  intros Hw ->. split; [by apply repr_wf|]. split; [done|]. split; [done|]. by apply uval_repr.
Qed.

Lemma ival_range x : wf x ->
  if sign x then - 2 ^ (width x - 1) <= ival x < 2 ^ (width x - 1)
  else 0 <= ival x < 2 ^ width x.
Proof.
  intros Hx. pose proof (wf_width x Hx). pose proof (wf_uval x Hx). unfold ival.
  destruct (sign x); [apply swrap_range; lia|done].
Qed.

Lemma wrap_ival x : wf x -> wrap (width x) (ival x) = uval x.
Proof.
  intros Hx. pose proof (wf_width x Hx). pose proof (wf_uval x Hx). unfold ival.
  destruct (sign x); [rewrite swrap_congr by lia|]; by apply wrap_small.
Qed.

Lemma ival_repr w s v :
  valid_width w -> ival (repr w s v) = if s then swrap w v else wrap w v.
Proof.
  intros Hw. pose proof (valid_width_range w Hw). unfold ival. cbn [sign width repr].
  rewrite uval_repr by done. destruct s; [apply swrap_wrap; lia|done].
Qed.

(** ** Truncation in place and construction *)

Lemma and_low_mask v w : 0 < w <= 64 -> Z.land v (shr 64 kAllOnes (kWordBitSize - w)) = wrap w v.
Proof.
  intros Hw. unfold kAllOnes, ones, kWordBitSize. rewrite shr_ones by done. apply land_ones_wrap. lia.
Qed.

Lemma TruncInPlace_one v w s :
  0 < w <= 64 -> TruncInPlace (MkIntVal (Value v) w s) = Ret (MkIntVal (Value (wrap w v)) w s).
Proof.
  intros Hw. unfold TruncInPlace, TruncInPlace_to, IsOneWord, u_value. cbn [width u sign].
  rewrite IsOneWord_small by lia. rewrite Z.eqb_refl, orb_true_r. cbn -[shr kAllOnes wrap].
  by rewrite and_low_mask.
Qed.

Lemma TruncInPlace_wide ws n s :
  (2 <= n <= 255)%nat -> array_ok 64 n ws ->
  TruncInPlace (MkIntVal (PValue ws) (64 * Z.of_nat n) s) =
  Ret (MkIntVal (PValue ws) (64 * Z.of_nat n) s).
Proof.
  intros Hn Hws. pose proof (array_ok_length _ _ _ Hws) as Hl.
  unfold TruncInPlace, TruncInPlace_to, IsOneWord, GetNumWords, u_pValue. cbn [width u sign].
  rewrite IsOneWord_wide, GetNumWords_wide by lia. rewrite Z.eqb_refl, orb_true_r.
  cbn [orb ASSERT mbind res_bind negb]. rewrite (wrap_small 16) by lia.
  apply wp_eq, wp_bind, wp_bind, wp_rd; [lia|].
  set (i := Z.to_nat (Z.of_nat n - 1)). assert (i < n)%nat as Hi by (subst i; lia).
  change (shr 64 kAllOnes (0 mod kWordBitSize)) with (Z.ones 64).
  rewrite land_ones_wrap, wrap_small by (lia || by apply (array_ok_at 64 n)).
  apply wp_bind, wp_wr; [lia|]. apply wp_ret, wp_ret. do 2 f_equal.
  apply list_insert_id. apply at_lookup. lia.
Qed.

Lemma TruncInPlace_wf x : wf x -> TruncInPlace x = Ret x.
Proof.
  intros [v w s Hw Hv|ws n s Hn Hws].
  - rewrite TruncInPlace_one by done. by rewrite wrap_small.
  - by apply TruncInPlace_wide.
Qed.

(** The words that extend the sign of a value. *)
Definition sign_word (neg : bool) : Z := if neg then kAllOnes else 0.

Lemma sign_words_ok n neg : words 64 (replicate n (sign_word neg)).
Proof. apply Forall_replicate. unfold sign_word. change kAllOnes with (2 ^ 64 - 1). destruct neg; lia. Qed.

Lemma eval_sign_words n neg :
  eval 64 (replicate n (sign_word neg)) = if neg then 2 ^ (64 * Z.of_nat n) - 1 else 0.
Proof.
  destruct neg; [|by apply eval_replicate_0]. induction n as [|n IH]; [done|].
  cbn [replicate eval]. rewrite IH, pow_limb by lia. unfold sign_word, kAllOnes, ones.
  rewrite Z.ones_equiv. lia.
Qed.

Lemma IntVal_int_spec val w s :
  valid_width w ->
  IntVal_int val w s = Ret (repr w s (if s then swrap 64 val else wrap 64 val)).
Proof.
  intros Hw. unfold IntVal_int, Init_val, repr. destruct Hw as [Hw|(n & Hn & ->)].
  - rewrite IsOneWord_small by lia. cbn [mbind res_bind]. rewrite TruncInPlace_one by done.
    do 3 f_equal. rewrite wrap_wrap_le by lia.
    destruct s; [|by rewrite wrap_wrap_le by lia].
    rewrite <- (wrap_wrap_le w 64 (swrap 64 val)), swrap_congr, wrap_wrap_le by lia. done.
  - rewrite IsOneWord_wide, GetNumWords_wide, div_64, Nat2Z.id by lia.
    destruct n as [|n]; [lia|]. cbn [WideInit_val mbind res_bind].
    rewrite swrap_wrap by lia.
    change (if s && (swrap 64 val <? 0) then kAllOnes else 0) with (sign_word (s && (swrap 64 val <? 0))).
    set (fill := sign_word (s && (swrap 64 val <? 0))).
    assert (words 64 (replicate n fill)) as Hfill by apply sign_words_ok.
    assert (array_ok 64 (S n) (wrap 64 val :: replicate n fill)) as Hok.
    { split; [constructor; [apply wrap_range; lia|done]|]. cbn. by rewrite length_replicate. }
    rewrite TruncInPlace_wide by done. do 3 f_equal.
    apply (eval_inj 64 ltac:(lia)); [apply Hok|apply limbs_words|by rewrite limbs_length, (proj2 Hok)|].
    rewrite eval_limbs. symmetry. cbn [eval].
    unfold fill. rewrite eval_sign_words.
    pose proof (wrap_range 64 val ltac:(lia)). pose proof (pow2_pos (64 * Z.of_nat n) ltac:(lia)).
    set (P := 2 ^ (64 * Z.of_nat n)) in *.
    assert (forall y q r, 0 <= r < 2 ^ 64 * P -> y = r + 2 ^ 64 * P * q ->
      wrap (64 * Z.of_nat (S n)) y = r) as Hun.
    { intros y q r Hr ->. apply (wrap_unique _ _ _ q); rewrite pow_limb by lia; fold P; lia. }
    destruct s; cbn [andb].
    + unfold swrap. destruct (Z.ltb_spec (wrap 64 val) (2 ^ (64 - 1))).
      * destruct (Z.ltb_spec (wrap 64 val) 0); [lia|]. apply (Hun _ 0); nia.
      * destruct (Z.ltb_spec (wrap 64 val - 2 ^ 64) 0); [|lia]. apply (Hun _ (-1)); nia.
    + apply (Hun _ 0); nia.
Qed.

Lemma eval_take_wrap n ws :
  words 64 ws -> (n <= length ws)%nat -> eval 64 (take n ws) = wrap (64 * Z.of_nat n) (eval 64 ws).
Proof.
  intros Hw Hn. symmetry. rewrite (eval_take_drop 64 ltac:(lia) ws n Hn).
  apply (wrap_unique _ _ _ (eval 64 (drop n ws))); [|lia].
  pose proof (eval_range 64 ltac:(lia) (take n ws) (Forall_take _ _ _ Hw)) as H.
  by rewrite length_take_le in H by done.
Qed.

Lemma words_wide_repr ws n s :
  (2 <= n <= 255)%nat -> array_ok 64 n ws ->
  MkIntVal (PValue ws) (64 * Z.of_nat n) s = repr (64 * Z.of_nat n) s (eval 64 ws).
Proof. intros Hn Hws. by apply (repr_of_wf (MkIntVal (PValue ws) _ s)), wf_wide. Qed.

Lemma IntVal_ptr_spec ws w s :
  valid_width w -> words 64 ws -> (0 < length ws)%nat ->
  (64 < w -> w <= 64 * Z.of_nat (length ws)) ->
  IntVal_ptr ws w s = Ret (repr w s (eval 64 ws)).
Proof.
  intros Hw Hws Hl0 Hl. unfold IntVal_ptr, Init_ptr. destruct Hw as [Hw|(n & Hn & ->)].
  - rewrite IsOneWord_small by lia. apply wp_eq, wp_bind, wp_bind, wp_rd; [done|].
    apply wp_ret. rewrite TruncInPlace_one by done. apply wp_ret.
    unfold repr. rewrite IsOneWord_small by lia. do 2 f_equal.
    destruct ws as [|v ws]; [done|]. cbn [nth eval].
    apply (wrap_congr _ _ _ (- (2 ^ (64 - w) * eval 64 ws))); [lia|].
    replace (2 ^ 64) with (2 ^ w * 2 ^ (64 - w)); [ring|].
    rewrite <- Z.pow_add_r by lia. f_equal. lia.
  - rewrite IsOneWord_wide, GetNumWords_wide, Nat2Z.id by lia.
    apply wp_eq, wp_bind, wp_bind. unfold WideInit_ptr. apply wp_slice; [lia|]. rewrite drop_0.
    apply wp_ret. assert (array_ok 64 n (take n ws)) as Hok.
    { split; [by apply Forall_take|]. rewrite length_take. lia. }
    rewrite TruncInPlace_wide by done. apply wp_ret.
    rewrite words_wide_repr by done. rewrite eval_take_wrap by (done || lia).
    apply repr_wrap. right. eauto.
Qed.

(** Re-typing: the new width and sign of the same integer. *)
Lemma Init_union_one v w0 s0 w s :
  0 < w0 <= 64 -> Init_union w s (MkIntVal (Value v) w0 s0) = Init_val w s v.
Proof.
  intros. unfold Init_union, IsOneWord. cbn [width u u_value].
  by rewrite IsOneWord_small by lia.
Qed.

Lemma Init_union_wide ws n s0 w s :
  (2 <= n)%nat -> Init_union w s (MkIntVal (PValue ws) (64 * Z.of_nat n) s0) = Init_ptr w ws.
Proof.
  intros. unfold Init_union, IsOneWord. cbn [width u u_pValue].
  by rewrite IsOneWord_wide by lia.
Qed.

Lemma Init_union_same x s :
  wf x -> Init_union (width x) s x = Ret (u x).
Proof.
  intros [v w s0 Hw Hv|ws n s0 Hn Hws]; cbn [width u].
  - rewrite Init_union_one by done. unfold Init_val. by rewrite IsOneWord_small by lia.
  - rewrite Init_union_wide by lia. unfold Init_ptr. rewrite IsOneWord_wide, GetNumWords_wide, Nat2Z.id by lia.
    apply wp_eq, wp_bind. unfold WideInit_ptr. pose proof (array_ok_length _ _ _ Hws).
    apply wp_slice; [lia|]. apply wp_ret. by rewrite drop_0, take_ge by lia.
Qed.

Lemma IntVal_copy_spec x : wf x -> IntVal_copy x = Ret x.
Proof.
  intros Hx. unfold IntVal_copy. rewrite Init_union_same by done. cbn [mbind res_bind].
  destruct x as [ux wx sx]. by apply TruncInPlace_wf.
Qed.

Lemma IntVal_resign_spec x s : wf x -> IntVal_resign x s = Ret (repr (width x) s (uval x)).
Proof.
  intros Hx. unfold IntVal_resign. rewrite Init_union_same by done. cbn [mbind res_bind]. f_equal.
  assert (wf (MkIntVal (u x) (width x) s)) as H by (destruct Hx; by constructor).
  exact (repr_of_wf _ H).
Qed.

Lemma Assign_spec x y : wf y -> Assign x y = Ret y.
Proof.
  intros Hy. unfold Assign. rewrite Init_union_same by done. by destruct y.
Qed.
