(* ===== verification/IntValArith.v ===== *)
(** * IntVal arithmetic is arithmetic modulo 2^width

    Addition, subtraction, negation, complement, multiplication, the bitwise
    operators and the shifts, on one word and on many, return the canonical
    representation of the result modulo 2^width. *)
From S2P Require Import Prelude.
From S2P Require Import PrimTypes.
From S2P Require Import IntWords.
From S2P Require Import IntWordsFacts.
From S2P Require Import IntDivFacts.
From S2P Require Import IntVal.
From S2P Require Import IntValFacts.

(** ** Shape lemmas for the two storage cases *)

Lemma IsOneWord_one v w s : 0 < w <= 64 -> IsOneWord (MkIntVal (Value v) w s) = true.
Proof. intros. unfold IsOneWord. cbn [width]. apply IsOneWord_small. lia. Qed.

Lemma IsOneWord_many ws n s :
  (2 <= n)%nat -> IsOneWord (MkIntVal (PValue ws) (64 * Z.of_nat n) s) = false.
Proof. intros. unfold IsOneWord. cbn [width]. by apply IsOneWord_wide. Qed.

Lemma numWords_many st n s :
  (n <= 255)%nat -> numWords (MkIntVal st (64 * Z.of_nat n) s) = n.
Proof. intros. unfold numWords, GetNumWords. cbn [width]. by rewrite GetNumWords_wide, Nat2Z.id. Qed.

Lemma GetNumWords_many st n s :
  (n <= 255)%nat -> GetNumWords (MkIntVal st (64 * Z.of_nat n) s) = Z.of_nat n.
Proof. intros. unfold GetNumWords. cbn [width]. by rewrite GetNumWords_wide. Qed.

Lemma same_type_spec x y : same_type x y = true <-> width x = width y /\ sign x = sign y.
Proof.
  unfold same_type. rewrite andb_true_iff, Z.eqb_eq, eqb_true_iff. done.
Qed.

Lemma same_type_intro x y : width x = width y -> sign x = sign y -> same_type x y = true.
Proof. intros. by apply same_type_spec. Qed.

(** The wide branch of an operation, once its loop is known to compute [v]. *)
Lemma wide_result (m : res (list Z)) n s v :
  (2 <= n <= 255)%nat ->
  wp m (fun ws => array_ok 64 n ws /\ eval 64 ws = wrap (64 * Z.of_nat n) v) ->
  (ws ← m; Ret (MkIntVal (PValue ws) (64 * Z.of_nat n) s)) = Ret (repr (64 * Z.of_nat n) s v).
Proof.
  intros Hn Hm. destruct (wp_returns m _ Hm) as (ws & -> & Hok & He). cbn. f_equal.
  rewrite words_wide_repr by done. rewrite He. apply repr_wrap. right. eauto.
Qed.

(** A pair of operands of one type: both one word, or both [n] words. *)
Lemma operands_cases x y :
  wf x -> wf y -> width x = width y -> sign x = sign y ->
  (exists v v' w s, 0 < w <= 64 /\ 0 <= v < 2 ^ w /\ 0 <= v' < 2 ^ w /\
     x = MkIntVal (Value v) w s /\ y = MkIntVal (Value v') w s) \/
  (exists us vs n s, (2 <= n <= 255)%nat /\ array_ok 64 n us /\ array_ok 64 n vs /\
     x = MkIntVal (PValue us) (64 * Z.of_nat n) s /\
     y = MkIntVal (PValue vs) (64 * Z.of_nat n) s).
Proof.
  intros [v w s Hw Hv|us n s Hn Hus] [v' w' s' Hw' Hv'|vs n' s' Hn' Hvs] Ew Es; cbn in Ew, Es; try lia.
  - subst. left. by exists v, v', w', s'.
  - subst. assert (n = n') as -> by lia. right. by exists us, vs, n', s'.
Qed.

Ltac operands x y Hx Hy Ew Es :=
  destruct (operands_cases x y Hx Hy Ew Es) as
    [(v & v' & w & s & Hw & Hv & Hv' & -> & ->)|(us & vs & n & s & Hn & Hus & Hvs & -> & ->)].

(** One-word results: any expression of the word arithmetic. *)
Lemma one_word_result e w s v :
  0 < w <= 64 -> wrap w e = wrap w v -> IntVal_int (wrap 64 e) w s = Ret (repr w s v).
Proof.
  intros Hw He. rewrite IntVal_int_spec by (by left). f_equal. apply repr_congr; [by left|].
  rewrite <- He. destruct s; [|by rewrite !wrap_wrap_le by lia].
  rewrite swrap_wrap by lia. rewrite <- (wrap_wrap_le w 64 (swrap 64 e)), swrap_congr by lia.
  by rewrite wrap_wrap_le by lia.
Qed.

Lemma one_word_result' e w s v :
  0 < w <= 64 -> 0 <= e < 2 ^ 64 -> wrap w e = wrap w v ->
  IntVal_int e w s = Ret (repr w s v).
Proof. intros Hw He E. rewrite <- (wrap_small 64 e He). by apply one_word_result. Qed.

Lemma word64 w v : 0 < w <= 64 -> 0 <= v < 2 ^ w -> 0 <= v < 2 ^ 64.
Proof. intros. pose proof (Z.pow_le_mono_r 2 w 64). lia. Qed.

(** ** Single bits *)

Lemma shl_1 b : 0 <= b < 64 -> shl 64 1 b = 2 ^ b.
Proof.
  intros. unfold shl. rewrite Z.mod_small, Z.shiftl_1_l by lia. apply wrap_small.
  split; [pose proof (pow2_pos b); lia|]. apply Z.pow_lt_mono_r; lia.
Qed.

Lemma land_bit v b : 0 <= b < 64 -> negb (Z.land v (shl 64 1 b) =? 0) = Z.testbit v b.
Proof.
  intros Hb. rewrite shl_1 by done. destruct (Z.eqb_spec (Z.land v (2 ^ b)) 0) as [E|E]; cbn [negb].
  - apply (f_equal (fun z => Z.testbit z b)) in E.
    rewrite Z.land_spec, Z.pow2_bits_true, Z.testbit_0_l, andb_true_r in E by lia. done.
  - destruct (Z.testbit v b) eqn:Hv; [done|]. contradict E. apply bits_ext. intros i Hi.
    rewrite Z.land_spec, Z.testbit_0_l. destruct (decide (i = b)) as [->|].
    + by rewrite Hv.
    + by rewrite Z.pow2_bits_false, andb_false_r by lia.
Qed.

Theorem GetBit_spec x bit :
  wf x -> 0 <= bit < width x -> GetBit x bit = Ret (Z.testbit (uval x) bit).
Proof.
  intros [v w s Hw Hv|ws n s Hn Hws] Hb; cbn [width] in Hb; unfold GetBit; cbn [width].
  - rewrite IsOneWord_one by done. unfold ASSERT. destruct (Z.ltb_spec bit w); [|lia].
    cbn [mbind res_bind u_value u]. by rewrite land_bit by lia.
  - rewrite IsOneWord_many by lia. unfold ASSERT. destruct (Z.ltb_spec bit (64 * Z.of_nat n)); [|lia].
    cbn [mbind res_bind u_pValue u].
    assert (GetNumWords_of (wrap 16 (bit + 1)) = bit / 64 + 1) as ->.
    { rewrite wrap_small by lia. unfold GetNumWords_of, kWordBitSize.
      replace (bit + 1 + 64 - 1) with (1 * 64 + bit) by lia. rewrite Z.div_add_l by lia.
      rewrite wrap_small; [lia|]. assert (bit / 64 < 255) by (apply Z.div_lt_upper_bound; lia).
      pose proof (Z.div_pos bit 64). lia. }
    pose proof (Z.div_pos bit 64 ltac:(lia) ltac:(lia)).
    assert (bit / 64 < Z.of_nat n) by (apply Z.div_lt_upper_bound; lia).
    rewrite wrap_small by lia. replace (bit / 64 + 1 - 1) with (bit / 64) by lia.
    apply wp_eq, wp_bind, wp_rd; [rewrite (proj2 Hws); lia|]. apply wp_ret. unfold kWordBitSize.
    rewrite land_bit by (apply Z.mod_pos_bound; lia). cbn [uval u].
    symmetry. apply testbit_eval; [lia|apply Hws|lia].
Qed.

Lemma GetSignBit_spec x : wf x -> GetSignBit x = Ret (Z.testbit (uval x) (width x - 1)).
Proof.
  intros Hx. pose proof (wf_width x Hx). unfold GetSignBit. rewrite wrap_small by lia.
  apply GetBit_spec; [done|lia].
Qed.

(** The sign bit is the sign of the signed reading. *)
Lemma sign_bit_swrap x :
  wf x -> Z.testbit (uval x) (width x - 1) = (swrap (width x) (uval x) <? 0).
Proof.
  intros Hx. pose proof (wf_width x Hx). pose proof (wf_uval x Hx).
  rewrite swrap_top by lia. destruct (Z.testbit _ _); symmetry; [apply Z.ltb_lt|apply Z.ltb_ge]; lia.
Qed.

(** ** Addition and subtraction *)

Lemma add_with_carry w r (c : bool) :
  0 <= w < 2 ^ 64 -> 0 <= r < 2 ^ 64 ->
  let s := wrap 64 (w + wrap 64 (r + (if c then 1 else 0))) in
  let c' := if c then s <=? r else s <? r in
  s + 2 ^ 64 * Z.b2z c' = w + r + Z.b2z c /\ 0 <= s < 2 ^ 64.
Proof.
  intros Hw Hr s c'. split; [|apply wrap_range; lia]. subst s c'. rewrite wrap_add_r.
  destruct c; cbn [Z.b2z].
  - destruct (decide (w + (r + 1) < 2 ^ 64)).
    + rewrite wrap_small by lia. destruct (Z.leb_spec (w + (r + 1)) r); cbn [Z.b2z]; lia.
    + rewrite (wrap_unique 64 _ (w + (r + 1) - 2 ^ 64) 1) by lia.
      destruct (Z.leb_spec (w + (r + 1) - 2 ^ 64) r); cbn [Z.b2z]; lia.
  - destruct (decide (w + (r + 0) < 2 ^ 64)).
    + rewrite wrap_small by lia. destruct (Z.ltb_spec (w + (r + 0)) r); cbn [Z.b2z]; lia.
    + rewrite (wrap_unique 64 _ (w + (r + 0) - 2 ^ 64) 1) by lia.
      destruct (Z.ltb_spec (w + (r + 0) - 2 ^ 64) r); cbn [Z.b2z]; lia.
Qed.

Lemma sub_with_borrow w r (c : bool) :
  0 <= w < 2 ^ 64 -> 0 <= r < 2 ^ 64 ->
  let s := wrap 64 (w - wrap 64 (r + (if c then 1 else 0))) in
  let c' := if c then w <=? s else w <? s in
  s - 2 ^ 64 * Z.b2z c' = w - r - Z.b2z c /\ 0 <= s < 2 ^ 64.
Proof.
  intros Hw Hr s c'. split; [|apply wrap_range; lia]. subst s c'. rewrite wrap_sub_r.
  destruct c; cbn [Z.b2z].
  - destruct (decide (0 <= w - (r + 1))).
    + rewrite wrap_small by lia. destruct (Z.leb_spec w (w - (r + 1))); cbn [Z.b2z]; lia.
    + rewrite (wrap_unique 64 _ (w - (r + 1) + 2 ^ 64) (-1)) by lia.
      destruct (Z.leb_spec w (w - (r + 1) + 2 ^ 64)); cbn [Z.b2z]; lia.
  - destruct (decide (0 <= w - (r + 0))).
    + rewrite wrap_small by lia. destruct (Z.ltb_spec w (w - (r + 0))); cbn [Z.b2z]; lia.
    + rewrite (wrap_unique 64 _ (w - (r + 0) + 2 ^ 64) (-1)) by lia.
      destruct (Z.ltb_spec w (w - (r + 0) + 2 ^ 64)); cbn [Z.b2z]; lia.
Qed.

Lemma take_all n (ws : list Z) : array_ok 64 n ws -> take n ws = ws.
Proof. intros [_ Hl]. apply take_ge. lia. Qed.

Lemma wide_add_loop n us vs :
  array_ok 64 n us -> array_ok 64 n vs ->
  wp (for_up n 0 (fun i st =>
        let '(ws, carry) := st in
        w ← rd ws i;
        r ← rd vs i;
        let w := wrap 64 (w + wrap 64 (r + (if carry : bool then 1 else 0))) in
        ws ← wr ws i w;
        Ret (ws, if carry then w <=? r else w <? r)) (us, false))
    (fun st => array_ok 64 n (fst st) /\
       eval 64 (fst st) + Z.b2z (snd st) * 2 ^ (64 * Z.of_nat n) = eval 64 us + eval 64 vs).
Proof.
  intros Hus Hvs. replace (eval 64 vs) with (eval 64 (take n vs)) by (by rewrite take_all).
  apply (wp_for_up (fun i st => array_ok 64 n (fst st) /\
    eval 64 (fst st) + Z.b2z (snd st) * 2 ^ (64 * Z.of_nat i) = eval 64 us + eval 64 (take i vs))).
  { rewrite take_0. cbn [fst snd eval Z.b2z]. split; [done|lia]. }
  intros i [ws c] Hi [Hws HV]. cbn [fst snd] in *.
  apply wp_bind, wp_rd; [rewrite (proj2 Hws); lia|].
  apply wp_bind, wp_rd; [rewrite (proj2 Hvs); lia|].
  destruct (add_with_carry ws.[i] vs.[i] c) as [E Hs]; [by apply (array_ok_at 64 n)..|].
  apply wp_bind, wp_wr; [rewrite (proj2 Hws); lia|]. apply wp_ret. cbn [fst snd].
  split; [by apply array_ok_wr|].
  rewrite eval_insert, eval_take_S, pow_limb by (rewrite ?(proj2 Hws), ?(proj2 Hvs); lia).
  cbv zeta in E. nia.
Qed.

Lemma wide_sub_loop n us vs :
  array_ok 64 n us -> array_ok 64 n vs ->
  wp (for_up n 0 (fun i st =>
        let '(ws, borrow) := st in
        src ← rd ws i;
        r ← rd vs i;
        let w := wrap 64 (src - wrap 64 (r + (if borrow : bool then 1 else 0))) in
        ws ← wr ws i w;
        Ret (ws, if borrow then src <=? w else src <? w)) (us, false))
    (fun st => array_ok 64 n (fst st) /\
       eval 64 (fst st) - Z.b2z (snd st) * 2 ^ (64 * Z.of_nat n) = eval 64 us - eval 64 vs).
Proof.
  intros Hus Hvs. replace (eval 64 vs) with (eval 64 (take n vs)) by (by rewrite take_all).
  apply (wp_for_up (fun i st => array_ok 64 n (fst st) /\
    eval 64 (fst st) - Z.b2z (snd st) * 2 ^ (64 * Z.of_nat i) = eval 64 us - eval 64 (take i vs))).
  { rewrite take_0. cbn [fst snd eval Z.b2z]. split; [done|lia]. }
  intros i [ws c] Hi [Hws HV]. cbn [fst snd] in *.
  apply wp_bind, wp_rd; [rewrite (proj2 Hws); lia|].
  apply wp_bind, wp_rd; [rewrite (proj2 Hvs); lia|].
  destruct (sub_with_borrow ws.[i] vs.[i] c) as [E Hs]; [by apply (array_ok_at 64 n)..|].
  apply wp_bind, wp_wr; [rewrite (proj2 Hws); lia|]. apply wp_ret. cbn [fst snd].
  split; [by apply array_ok_wr|].
  rewrite eval_insert, eval_take_S, pow_limb by (rewrite ?(proj2 Hws), ?(proj2 Hvs); lia).
  cbv zeta in E. nia.
Qed.

Lemma wrap_of_sum n e q v :
  0 <= e < 2 ^ (64 * Z.of_nat n) -> e + q * 2 ^ (64 * Z.of_nat n) = v ->
  e = wrap (64 * Z.of_nat n) v.
Proof. intros He <-. symmetry. apply (wrap_unique _ _ _ q); [done|lia]. Qed.

Lemma op_add_eq x y :
  wf x -> wf y -> width x = width y -> sign x = sign y ->
  op_add x y = Ret (repr (width x) (sign x) (uval x + uval y)).
Proof.
  intros Hx Hy Ew Es. pose proof (same_type_intro x y Ew Es) as Hst.
  unfold op_add. rewrite Hst. operands x y Hx Hy Ew Es; cbn [ASSERT mbind res_bind].
  - rewrite IsOneWord_one by done. cbn. by apply one_word_result.
  - rewrite IsOneWord_many by lia. unfold WideAdd. rewrite IntVal_copy_spec by done.
    cbn [mbind res_bind]. unfold WideAddInPlace. rewrite IsOneWord_many, Hst by lia.
    cbn [negb ASSERT mbind res_bind u_pValue u on_words]. rewrite numWords_many by lia.
    apply wide_result; [done|]. apply wp_bind. eapply wp_mono; [by apply wide_add_loop|].
    intros [ws c] [Hws E]. apply wp_ret. split; [done|]. cbn [fst snd uval u] in *.
    apply (wrap_of_sum n _ (Z.b2z c)); [by apply array_ok_eval|done].
Qed.

Lemma op_sub_eq x y :
  wf x -> wf y -> width x = width y -> sign x = sign y ->
  op_sub x y = Ret (repr (width x) (sign x) (uval x - uval y)).
Proof.
  intros Hx Hy Ew Es. pose proof (same_type_intro x y Ew Es) as Hst.
  unfold op_sub. rewrite Hst. operands x y Hx Hy Ew Es; cbn [ASSERT mbind res_bind].
  - rewrite IsOneWord_one by done. cbn. by apply one_word_result.
  - rewrite IsOneWord_many by lia. unfold WideSub. rewrite IntVal_copy_spec by done.
    cbn [mbind res_bind]. unfold WideSubInPlace. rewrite IsOneWord_many, Hst by lia.
    cbn [negb ASSERT mbind res_bind u_pValue u on_words]. rewrite numWords_many by lia.
    apply wide_result; [done|]. apply wp_bind. eapply wp_mono; [by apply wide_sub_loop|].
    intros [ws c] [Hws E]. apply wp_ret. split; [done|]. cbn [fst snd uval u] in *.
    apply (wrap_of_sum n _ (- Z.b2z c)); [by apply array_ok_eval|lia].
Qed.

(** ** Complement and negation *)

(** Word-by-word loops: the words of the result are [f] of the words of the operands. *)
Lemma wide_map_loop n us (g : nat -> Z -> Z) :
  array_ok 64 n us ->
  (forall i w, (i < n)%nat -> 0 <= w < 2 ^ 64 -> 0 <= g i w < 2 ^ 64) ->
  wp (for_up n 0 (fun i ws => w ← rd ws i; wr ws i (g i w)) us)
    (fun ws => array_ok 64 n ws /\ forall k, (k < n)%nat -> ws.[k] = g k us.[k]).
Proof.
  intros Hus Hg. eapply wp_mono; [apply (wp_for_up (fun i ws => array_ok 64 n ws /\
    (forall k, (k < i)%nat -> ws.[k] = g k us.[k]) /\
    (forall k, (i <= k)%nat -> ws.[k] = us.[k])))|].
  - split; [done|]. split; [lia|done].
  - intros i ws Hi (Hws & Hlow & Hhigh). pose proof (proj2 Hws) as Hl.
    apply wp_bind, wp_rd; [lia|]. apply wp_wr; [lia|].
    split; [apply array_ok_wr; [done|apply Hg; [lia|by apply (array_ok_at 64 n)]]|].
    split; intros k Hk.
    + destruct (decide (k = i)) as [->|]; [by rewrite at_insert_eq, Hhigh by lia|].
      rewrite at_insert_ne by lia. apply Hlow. lia.
    + rewrite at_insert_ne by lia. apply Hhigh. lia.
  - intros ws (Hws & Hlow & _). split; [done|]. intros. apply Hlow. lia.
Qed.

Lemma notw_bits w i : 0 <= i < 64 -> Z.testbit (notw 64 w) i = negb (Z.testbit w i).
Proof.
  intros. unfold notw. rewrite testbit_wrap, Z.lnot_spec by lia.
  by destruct (Z.ltb_spec i 64); [|lia].
Qed.

Lemma WideNotInPlace_eq us n s :
  (2 <= n <= 255)%nat -> array_ok 64 n us ->
  WideNotInPlace (MkIntVal (PValue us) (64 * Z.of_nat n) s) =
  Ret (repr (64 * Z.of_nat n) s (Z.lnot (eval 64 us))).
Proof.
  intros Hn Hus. unfold WideNotInPlace. rewrite IsOneWord_many by lia.
  cbn [negb ASSERT mbind res_bind on_words u_pValue u]. rewrite numWords_many by lia.
  apply wide_result; [done|].
  eapply wp_mono; [apply (wide_map_loop n us (fun _ => notw 64)); [done|]|].
  - intros. apply wrap_range. lia.
  - intros ws [Hws Hk]. split; [done|]. apply (eval_of_bits 64 n); [lia|done|].
    intros k r Hkn Hr. rewrite Hk, notw_bits, Z.lnot_spec by lia. f_equal.
    symmetry. apply testbit_eval_at; [lia|apply Hus|done].
Qed.

Lemma WideAddInPlace_u64_eq us n s v :
  (2 <= n <= 255)%nat -> array_ok 64 n us -> 0 <= v < 2 ^ 64 ->
  WideAddInPlace_u64 (MkIntVal (PValue us) (64 * Z.of_nat n) s) v =
  Ret (repr (64 * Z.of_nat n) s (eval 64 us + v)).
Proof.
  intros Hn Hus Hv. unfold WideAddInPlace_u64. rewrite IsOneWord_many by lia.
  cbn [negb ASSERT mbind res_bind on_words u_pValue u]. rewrite numWords_many by lia.
  pose proof (proj2 Hus) as Hl. apply wide_result; [done|].
  apply wp_bind, wp_rd; [lia|].
  destruct (AddCarry_spec 64 us.[0] v) as (w & c & -> & E & Hw & Hc);
    [lia|by apply (array_ok_at 64 n)|done|].
  apply wp_bind, wp_wr; [lia|]. apply wp_bind.
  eapply wp_mono; [apply (wp_while_up (fun i st => array_ok 64 n (fst st) /\ 0 <= snd st <= 1 /\
    eval 64 (fst st) + snd st * 2 ^ (64 * Z.of_nat i) = eval 64 us + v))|].
  - cbn [fst snd]. split; [by apply array_ok_wr|]. split; [done|].
    rewrite eval_insert by lia. change (2 ^ (64 * Z.of_nat 0)) with 1.
    change (2 ^ (64 * Z.of_nat 1)) with (2 ^ 64). lia.
  - intros i [ws d] Hi (Hws & Hd & HV) _. cbn [fst snd] in *.
    apply wp_bind, wp_rd; [rewrite (proj2 Hws); lia|].
    destruct (AddCarry_spec 64 ws.[i] d) as (w' & c' & -> & E' & Hw' & Hc');
      [lia|by apply (array_ok_at 64 n)|lia|].
    apply wp_bind, wp_wr; [rewrite (proj2 Hws); lia|]. apply wp_ret. cbn [fst snd].
    split; [by apply array_ok_wr|]. split; [done|].
    rewrite eval_insert, pow_limb by (rewrite ?(proj2 Hws); lia). nia.
  - intros [ws d] (i & Hi & (Hws & Hd & HV) & Hend). cbn [fst snd] in *. apply wp_ret.
    split; [done|]. pose proof (array_ok_eval 64 n ws ltac:(lia) Hws). cbn [fst].
    destruct Hend as [->|Hz].
    + replace (1 + (n - 1))%nat with n in HV by lia. by apply (wrap_of_sum n _ d).
    + apply Z.eqb_neq in Hz. assert (d = 0) as -> by lia.
      apply (wrap_of_sum n _ 0); [done|lia].
Qed.

(** The complement and the negation of an already negated or complemented wide value. *)
Lemma op_not_eq x : wf x -> op_not x = Ret (repr (width x) (sign x) (Z.lnot (uval x))).
Proof.
  intros [v w s Hw Hv|us n s Hn Hus]; unfold op_not.
  - rewrite IsOneWord_one by done. cbn [u_value u mbind res_bind width sign uval].
    unfold notw. by apply one_word_result.
  - rewrite IsOneWord_many by lia. unfold WideNot. rewrite IsOneWord_many by lia.
    cbn [negb ASSERT mbind res_bind]. rewrite IntVal_copy_spec by (by constructor).
    cbn [mbind res_bind]. by apply WideNotInPlace_eq.
Qed.

Lemma op_neg_eq x : wf x -> op_neg x = Ret (repr (width x) (sign x) (- uval x)).
Proof.
  intros [v w s Hw Hv|us n s Hn Hus]; unfold op_neg.
  - rewrite IsOneWord_one by done. cbn [u_value u mbind res_bind width sign uval].
    apply one_word_result; [done|]. rewrite <- (wrap_wrap_le w 64) by lia.
    unfold notw. rewrite wrap_add_l, wrap_wrap_le by lia. f_equal. unfold Z.lnot. lia.
  - rewrite IsOneWord_many by lia. unfold WideNeg. rewrite IsOneWord_many by lia.
    cbn [negb ASSERT mbind res_bind]. rewrite IntVal_copy_spec by (by constructor).
    cbn [mbind res_bind]. unfold WideNegInPlace. rewrite IsOneWord_many by lia.
    cbn [negb ASSERT mbind res_bind]. rewrite WideNotInPlace_eq by done.
    cbn [mbind res_bind]. unfold repr. rewrite IsOneWord_wide, div_64, Nat2Z.id by lia.
    rewrite WideAddInPlace_u64_eq by (done || apply limbs_ok || lia). f_equal.
    cbn [width sign uval u]. apply repr_congr; [right; eauto|].
    rewrite eval_limbs, wrap_add_l. f_equal. unfold Z.lnot. lia.
Qed.

Lemma op_incr_eq x : wf x -> op_incr x = Ret (repr (width x) (sign x) (uval x + 1)).
Proof.
  intros [v w s Hw Hv|us n s Hn Hus]; unfold op_incr.
  - rewrite IsOneWord_one by done. cbn [u_value u mbind res_bind width sign uval set_u].
    unfold set_u. cbn [width sign]. rewrite TruncInPlace_one by done. f_equal. unfold repr. rewrite IsOneWord_small by lia.
    by rewrite wrap_wrap_le by lia.
  - rewrite IsOneWord_many by lia. rewrite WideAddInPlace_u64_eq by (done || lia).
    cbn [mbind res_bind]. apply TruncInPlace_wf, repr_wf. right. eauto.
Qed.

(** ** Multiplication *)

Lemma eval_take_mul n k vs :
  array_ok 64 n vs -> (k <= n)%nat ->
  exists q, eval 64 (take (n - k) vs) * 2 ^ (64 * Z.of_nat k) =
    eval 64 vs * 2 ^ (64 * Z.of_nat k) + q * 2 ^ (64 * Z.of_nat n).
Proof.
  intros [Hw Hl] Hk. exists (- eval 64 (drop (n - k) vs)).
  pose proof (eval_take_drop 64 ltac:(lia) vs (n - k) ltac:(lia)) as E.
  assert (2 ^ (64 * Z.of_nat n) = 2 ^ (64 * Z.of_nat (n - k)) * 2 ^ (64 * Z.of_nat k)) as ->.
  { rewrite <- pow_limb_add by lia. do 2 f_equal. lia. }
  rewrite E. ring.
Qed.

Lemma wide_mul_loop n us vs :
  array_ok 64 n us -> array_ok 64 n vs ->
  wp (for_up n 0 (fun i dst => m ← rd vs i; MulPart dst us m i n) (replicate n 0))
    (fun ws => array_ok 64 n ws /\
       exists q, eval 64 ws + q * 2 ^ (64 * Z.of_nat n) = eval 64 us * eval 64 vs).
Proof.
  intros Hus Hvs. replace (eval 64 vs) with (eval 64 (take n vs)) by (by rewrite take_all).
  apply (wp_for_up (fun i ws => array_ok 64 n ws /\
    exists q, eval 64 ws + q * 2 ^ (64 * Z.of_nat n) = eval 64 us * eval 64 (take i vs))).
  { split; [split; [apply zeros_ok; lia|apply length_replicate]|]. exists 0.
    rewrite take_0, eval_replicate_0 by lia. cbn [eval]. lia. }
  intros i ws Hi [Hws [q Hq]]. apply wp_bind, wp_rd; [rewrite (proj2 Hvs); lia|].
  eapply wp_mono; [apply MulPart_spec; [done|done|by apply (array_ok_at 64 n)|lia]|].
  intros ws' [Hws' [q' Hq']]. split; [done|].
  destruct (eval_take_mul n i us Hus ltac:(lia)) as [q2 Hq2].
  exists (q + q' - vs.[i] * q2).
  rewrite eval_take_S by (rewrite ?(proj2 Hvs); lia).
  replace (vs.[i] * eval 64 (take (n - i) us) * 2 ^ (64 * Z.of_nat i))
    with (vs.[i] * (eval 64 (take (n - i) us) * 2 ^ (64 * Z.of_nat i))) in Hq' by ring.
  rewrite Hq2 in Hq'. lia.
Qed.

Lemma op_mul_eq x y :
  wf x -> wf y -> width x = width y -> sign x = sign y ->
  op_mul x y = Ret (repr (width x) (sign x) (uval x * uval y)).
Proof.
  intros Hx Hy Ew Es. pose proof (same_type_intro x y Ew Es) as Hst.
  unfold op_mul. rewrite Hst. operands x y Hx Hy Ew Es; cbn [ASSERT mbind res_bind].
  - rewrite IsOneWord_one by done. cbn. by apply one_word_result.
  - rewrite IsOneWord_many by lia. unfold WideMul. rewrite IsOneWord_many, Hst by lia.
    cbn [negb ASSERT mbind res_bind u_pValue u]. rewrite numWords_many by lia.
    destruct (wp_returns _ _ (wide_mul_loop n us vs Hus Hvs)) as (ws & -> & Hws & q & E).
    cbn [mbind res_bind width sign uval u]. pose proof (proj2 Hws).
    assert (valid_width (64 * Z.of_nat n)) as Hvw by (right; eauto).
    rewrite IntVal_ptr_spec by (done || apply Hws || lia). f_equal.
    apply repr_congr; [done|]. symmetry. apply (wrap_congr _ _ _ q); lia.
Qed.

(** ** Bitwise operators *)

Section Bitwise.
(** [f] acts bit by bit as [b]; 0 is not changed into 1. *)
Context (f : Z -> Z -> Z) (b : bool -> bool -> bool).
Context (Hf : forall x y i, Z.testbit (f x y) i = b (Z.testbit x i) (Z.testbit y i)).
Context (Hword : forall w x y, 0 <= w -> 0 <= x < 2 ^ w -> 0 <= y < 2 ^ w ->
  0 <= f x y < 2 ^ w).

Lemma wide_zip_loop n us vs :
  array_ok 64 n us -> array_ok 64 n vs ->
  wp (for_up n 0 (fun i ws => w ← rd ws i; r ← rd vs i; wr ws i (f w r)) us)
    (fun ws => array_ok 64 n ws /\ eval 64 ws = wrap (64 * Z.of_nat n) (f (eval 64 us) (eval 64 vs))).
Proof using f b Hf Hword.
  intros Hus Hvs. eapply wp_mono; [apply (wp_for_up (fun i ws => array_ok 64 n ws /\
    (forall k, (k < i)%nat -> ws.[k] = f us.[k] vs.[k]) /\
    (forall k, (i <= k)%nat -> ws.[k] = us.[k])))|].
  - split; [done|]. split; [lia|done].
  - intros i ws Hi (Hws & Hlow & Hhigh). pose proof (proj2 Hws) as Hl. pose proof (proj2 Hvs).
    apply wp_bind, wp_rd; [lia|]. apply wp_bind, wp_rd; [lia|]. apply wp_wr; [lia|].
    split; [apply array_ok_wr; [done|apply Hword; [lia|by apply (array_ok_at 64 n)..]]|].
    split; intros k Hk.
    + destruct (decide (k = i)) as [->|]; [by rewrite at_insert_eq, Hhigh by lia|].
      rewrite at_insert_ne by lia. apply Hlow. lia.
    + rewrite at_insert_ne by lia. apply Hhigh. lia.
  - intros ws (Hws & Hlow & _). split; [done|]. apply (eval_of_bits 64 n); [lia|done|].
    intros k r Hk Hr. rewrite Hlow, !Hf by lia.
    by rewrite !testbit_eval_at by (lia || apply Hus || apply Hvs).
Qed.

Lemma WideBitwise_eq us vs n s :
  (2 <= n <= 255)%nat -> array_ok 64 n us -> array_ok 64 n vs ->
  WideBitwise f (MkIntVal (PValue us) (64 * Z.of_nat n) s) (MkIntVal (PValue vs) (64 * Z.of_nat n) s)
  = Ret (repr (64 * Z.of_nat n) s (f (eval 64 us) (eval 64 vs))).
Proof using f b Hf Hword.
  intros Hn Hus Hvs. unfold WideBitwise. rewrite IsOneWord_many by lia.
  rewrite same_type_intro by done. cbn [negb ASSERT mbind res_bind].
  rewrite IntVal_copy_spec by (by constructor).
  cbn [mbind res_bind u_pValue u on_words]. rewrite numWords_many by lia.
  apply wide_result; [done|]. by apply wide_zip_loop.
Qed.
End Bitwise.

Lemma land_word w x y : 0 <= w -> 0 <= x < 2 ^ w -> 0 <= y < 2 ^ w -> 0 <= Z.land x y < 2 ^ w.
Proof. intros. apply land_in_word; lia. Qed.

Lemma op_and_eq x y :
  wf x -> wf y -> width x = width y -> sign x = sign y ->
  op_and x y = Ret (repr (width x) (sign x) (Z.land (uval x) (uval y))).
Proof.
  intros Hx Hy Ew Es. pose proof (same_type_intro x y Ew Es) as Hst.
  unfold op_and. rewrite Hst. operands x y Hx Hy Ew Es; cbn [ASSERT mbind res_bind].
  - rewrite IsOneWord_one by done. cbn. apply one_word_result'; [done| |done].
    apply land_in_word; [lia|by apply (word64 w)|lia].
  - rewrite IsOneWord_many by lia. apply (WideBitwise_eq Z.land andb); auto using Z.land_spec, land_word.
Qed.

Lemma op_or_eq x y :
  wf x -> wf y -> width x = width y -> sign x = sign y ->
  op_or x y = Ret (repr (width x) (sign x) (Z.lor (uval x) (uval y))).
Proof.
  intros Hx Hy Ew Es. pose proof (same_type_intro x y Ew Es) as Hst.
  unfold op_or. rewrite Hst. operands x y Hx Hy Ew Es; cbn [ASSERT mbind res_bind].
  - rewrite IsOneWord_one by done. cbn. apply one_word_result'; [done| |done].
    apply lor_in_word; [lia|by apply (word64 w)..].
  - rewrite IsOneWord_many by lia. apply (WideBitwise_eq Z.lor orb); auto using Z.lor_spec, lor_in_word.
Qed.

Lemma op_xor_eq x y :
  wf x -> wf y -> width x = width y -> sign x = sign y ->
  op_xor x y = Ret (repr (width x) (sign x) (Z.lxor (uval x) (uval y))).
Proof.
  intros Hx Hy Ew Es. pose proof (same_type_intro x y Ew Es) as Hst.
  unfold op_xor. rewrite Hst. operands x y Hx Hy Ew Es; cbn [ASSERT mbind res_bind].
  - rewrite IsOneWord_one by done. cbn. apply one_word_result'; [done| |done].
    apply lxor_in_word; [lia|by apply (word64 w)..].
  - rewrite IsOneWord_many by lia. apply (WideBitwise_eq Z.lxor xorb); auto using Z.lxor_spec, lxor_in_word.
Qed.

(** ** Extended values *)

Lemma IsOneSignificantWord_one x : width x <= 64 -> IsOneSignificantWord x = Ret true.
Proof.
  intros Hw. unfold IsOneSignificantWord, IsOneWord. by rewrite IsOneWord_small.
Qed.

Lemma sign_extend_or v w :
  0 < w < 64 -> 0 <= v < 2 ^ w -> Z.lor v (shl 64 kAllOnes w) = v + (2 ^ 64 - 2 ^ w).
Proof.
  intros Hw Hv.
  assert (2 ^ w < 2 ^ 64) by (apply Z.pow_lt_mono_r; lia).
  assert (shl 64 kAllOnes w = 2 ^ w * (2 ^ (64 - w) - 1)) as ->.
  { assert (2 ^ 64 = 2 ^ w * 2 ^ (64 - w)) by (rewrite <- Z.pow_add_r by lia; f_equal; lia).
    unfold shl. rewrite Z.mod_small, Z.shiftl_mul_pow2 by lia.
    change kAllOnes with (2 ^ 64 - 1). apply (wrap_unique _ _ _ (2 ^ w - 1)); nia. }
  assert (2 ^ 64 = 2 ^ w * 2 ^ (64 - w)) as -> by (rewrite <- Z.pow_add_r by lia; f_equal; lia).
  assert (Z.land v (2 ^ w * (2 ^ (64 - w) - 1)) = 0) as Hland.
  { apply bits_ext. intros i Hi. rewrite Z.land_spec, Z.testbit_0_l, (Z.mul_comm (2 ^ w)),
      Z.mul_pow2_bits by lia.
    destruct (decide (i < w)); [by rewrite (Z.testbit_neg_r _ (i - w)), andb_false_r by lia
                               |by rewrite (testbit_above w v) by lia]. }
  rewrite <- Z.lxor_lor, <- Z.add_nocarry_lxor by done. lia.
Qed.

(** Shifting a [w]-bit value up to the top of a word and back down is the identity. *)
Lemma shl_shr_low v w :
  0 < w <= 64 -> 0 <= v < 2 ^ w -> shr 64 (shl 64 v (64 - w)) (64 - w) = v.
Proof.
  intros Hw Hv. unfold shr, shl. destruct (decide (w = 64)) as [->|].
  { change ((64 - 64) mod 64) with 0. rewrite Z.shiftl_0_r, Z.shiftr_0_r. by apply wrap_small. }
  rewrite Z.mod_small, wrap_small by lia || (rewrite Z.shiftl_mul_pow2 by lia;
    assert (2 ^ 64 = 2 ^ w * 2 ^ (64 - w)) as -> by (rewrite <- Z.pow_add_r by lia; f_equal; lia);
    pose proof (pow2_pos (64 - w) ltac:(lia)); nia).
  rewrite Z.shiftr_shiftl_l by lia. by rewrite Z.sub_diag, Z.shiftl_0_r.
Qed.

(** Setting the bits from the sign bit up reads as the negative value. *)
Lemma negative_word v w :
  0 < w <= 64 -> 0 <= v < 2 ^ w -> Z.testbit v (w - 1) = true ->
  swrap 64 (Z.lor v (shl 64 kAllOnes (if w <? 64 then w else 63))) = v - 2 ^ w.
Proof.
  intros Hw Hv Hb. destruct (Z.ltb_spec w 64).
  - rewrite sign_extend_or by lia. pose proof (pow2_half w). rewrite testbit_top in Hb by lia.
    apply Z.leb_le in Hb. assert (2 ^ w <= 2 ^ 63) by (apply Z.pow_le_mono_r; lia).
    rewrite swrap_top by lia. rewrite testbit_top by lia.
    destruct (Z.leb_spec (2 ^ (64 - 1)) (v + (2 ^ 64 - 2 ^ w))); lia.
  - assert (w = 64) as -> by lia. change (64 - 1) with 63 in Hb.
    assert (Z.lor v (shl 64 kAllOnes 63) = v) as ->.
    { apply bits_ext. intros i Hi. rewrite Z.lor_spec. change (shl 64 kAllOnes 63) with (2 ^ 63).
      destruct (decide (i = 63)) as [->|]; [by rewrite Hb|].
      by rewrite Z.pow2_bits_false, orb_false_r by lia. }
    rewrite swrap_top by lia. change (64 - 1) with 63. by rewrite Hb.
Qed.

Lemma GetSXTValue_one v w s :
  0 < w <= 64 -> 0 <= v < 2 ^ w -> GetSXTValue (MkIntVal (Value v) w s) = Ret (swrap w v).
Proof.
  intros Hw Hv. set (x := MkIntVal (Value v) w s). assert (wf x) as Hx by by constructor.
  unfold GetSXTValue, GetSXTValue_size. rewrite IsOneSignificantWord_one by (cbn; lia).
  cbn [ASSERT mbind res_bind]. unfold low_word. subst x. rewrite IsOneWord_one by done.
  cbn [u_value u mbind res_bind width Z.eqb negb]. change (0 <=? w) with (0 <=? w).
  destruct (Z.leb_spec 0 w); [|lia]. cbn [ASSERT mbind res_bind].
  rewrite (wrap_small 8 w) by lia. destruct (Z.eqb_spec w 0); [lia|]. cbn [negb].
  rewrite (wrap_small 16) by lia. rewrite GetBit_spec by (done || cbn; lia).
  cbn [mbind res_bind uval u]. unfold kWordBitSize.
  rewrite (wrap_small 32), (wrap_small 8) by lia. rewrite CHECK_SHIFT_ok by lia. cbn [mbind res_bind].
  rewrite shl_shr_low by done.
  rewrite (swrap_top w v) by lia. destruct (Z.testbit v (w - 1)) eqn:Hb; f_equal.
  - by apply negative_word.
  - destruct (decide (w = 64)) as [->|]; [rewrite swrap_top by lia; by rewrite Hb|].
    apply swrap_small; [lia|]. assert (2 ^ w <= 2 ^ 63) by (apply Z.pow_le_mono_r; lia). lia.
Qed.

Theorem GetExtValue_one x : wf x -> width x <= 64 -> GetExtValue x = Ret (swrap 64 (ival x)).
Proof.
  intros [v w s Hw Hv|us n s Hn Hus] H64; cbn [width] in H64; [|lia].
  unfold GetExtValue, GetExtValue_size, ival. cbn [sign width uval u]. destruct s.
  - change (GetSXTValue_size ?x 0) with (GetSXTValue x). rewrite GetSXTValue_one by done. f_equal.
    pose proof (swrap_range w v). assert (2 ^ (w - 1) <= 2 ^ 63) by (apply Z.pow_le_mono_r; lia).
    rewrite (swrap_small 64); lia.
  - unfold GetZXTValue_size. rewrite IsOneSignificantWord_one by (cbn; lia).
    cbn [ASSERT mbind res_bind]. unfold low_word. by rewrite IsOneWord_one by done.
Qed.
