(* ===== verification/IntValOrder.v ===== *)
(** * IntVal: order, shifts and change of type

    The comparison operators decide the order of the integers that the two
    values stand for; the shifts are the arithmetic shifts of those integers;
    truncation and extension keep the integer modulo the new width. *)
From S2P Require Import Prelude.
From S2P Require Import PrimTypes.
From S2P Require Import IntWords.
From S2P Require Import IntWordsFacts.
From S2P Require Import IntDivFacts.
From S2P Require Import IntVal.
From S2P Require Import IntValFacts.
From S2P Require Import IntValArith.

(** ** Equality and order *)

Lemma swrap_inj w v v' :
  0 < w -> 0 <= v < 2 ^ w -> 0 <= v' < 2 ^ w -> swrap w v = swrap w v' -> v = v'.
Proof.
  intros Hw Hv Hv' E. rewrite <- (wrap_small w v), <- (wrap_small w v') by done.
  by rewrite <- (swrap_congr w v), <- (swrap_congr w v'), E by lia.
Qed.

Lemma ival_eqb x y :
  wf x -> wf y -> width x = width y -> sign x = sign y ->
  (uval x =? uval y) = (ival x =? ival y).
Proof.
  intros Hx Hy Ew Es. pose proof (wf_width x Hx). pose proof (wf_uval x Hx) as Hux.
  pose proof (wf_uval y Hy) as Huy. unfold ival. rewrite <- Ew in *. rewrite <- Es.
  destruct (sign x); [|done].
  destruct (Z.eqb_spec (uval x) (uval y)) as [E|E]; symmetry.
  - rewrite E. apply Z.eqb_refl.
  - apply Z.eqb_neq. contradict E. by apply (swrap_inj (width x)); [lia|..].
Qed.

Lemma op_eq_eq x y :
  wf x -> wf y -> width x = width y -> sign x = sign y ->
  op_eq x y = Ret (ival x =? ival y).
Proof.
  intros Hx Hy Ew Es. rewrite <- (ival_eqb x y) by done.
  unfold op_eq. rewrite same_type_intro by done. operands x y Hx Hy Ew Es; cbn [ASSERT mbind res_bind].
  - by rewrite IsOneWord_one by done.
  - rewrite IsOneWord_many by lia. cbn [u_pValue u uval mbind res_bind].
    rewrite numWords_many by lia. unfold slice.
    rewrite (proj2 Hus), (proj2 Hvs), Nat.leb_refl, !drop_0. cbn [mbind res_bind]. f_equal.
    rewrite !(take_all n) by done. destruct (Z.eqb_spec (eval 64 us) (eval 64 vs)) as [E|E].
    + apply bool_decide_eq_true. apply (eval_inj 64 ltac:(lia)); [apply Hus|apply Hvs| |done].
      by rewrite (proj2 Hus), (proj2 Hvs).
    + apply bool_decide_eq_false. congruence.
Qed.

Lemma cmp3_lt a b : (cmp3 a b <? 0) = (a <? b).
Proof. unfold cmp3. destruct (a <? b); [done|]. by destruct (a =? b). Qed.

Lemma cmp3_gt a b : (0 <? cmp3 a b) = (b <? a).
Proof.
  unfold cmp3. destruct (Z.ltb_spec a b), (Z.ltb_spec b a), (Z.eqb_spec a b); lia || done.
Qed.

(** Values of more than one word whose order is not that of their signs: their
    words are compared, with the mask that the width leaves undefined. *)
Definition words_compared (x y : IntVal) : Prop :=
  64 < width x /\ (sign x = true -> (ival x <? 0) = (ival y <? 0)).

#[export] Instance words_compared_dec x y : Decision (words_compared x y).
Proof. unfold words_compared. apply _. Defined.

Lemma IsOneWord_above x : 64 < width x -> IsOneWord x = false.
Proof. intros H. unfold IsOneWord, IsOneWord_width, kWordBitSize. by apply Z.leb_gt. Qed.

Lemma wide_words x : wf x -> 64 < width x -> exists us, u x = PValue us.
Proof. intros [v w s Hw Hv|us n s Hn Hus]; cbn [width]; [lia|by exists us]. Qed.

Lemma sign_of_ival x : wf x -> sign x = true -> GetSignBit x = Ret (ival x <? 0).
Proof. intros Hx Hs. rewrite GetSignBit_spec, sign_bit_swrap by done. unfold ival. by rewrite Hs. Qed.

Lemma WideCompare_eq x y :
  wf x -> wf y -> width x = width y -> sign x = sign y -> 64 < width x ->
  WideCompare x y =
  if decide (words_compared x y) then Fault Undefined else Ret (cmp3 (ival x) (ival y)).
Proof.
  intros Hx Hy Ew Es Hwide. unfold WideCompare. rewrite same_type_intro by done.
  assert (IsOneWord x = false /\ IsOneWord y = false) as [-> ->]
    by (split; apply IsOneWord_above; congruence).
  cbn [negb andb ASSERT mbind res_bind]. unfold u_pValue.
  destruct (wide_words x Hx Hwide) as (us & ->), (wide_words y Hy ltac:(congruence)) as (vs & ->).
  assert (BitwiseCompare 64 us vs (width x) = Fault Undefined) as HB.
  { destruct (wf_valid x Hx) as [?|(n & Hn & ->)]; [lia|]. apply BitwiseCompare_undefined; lia. }
  cbn [mbind res_bind]. rewrite HB. destruct (sign x) eqn:Hs.
  - rewrite !sign_of_ival by congruence. cbn [mbind res_bind].
    destruct (decide (words_compared x y)) as [[_ H]|H].
    + by rewrite (H Hs), eqb_reflx.
    + assert ((ival x <? 0) <> (ival y <? 0)) as E by (intros E; apply H; by split).
      unfold cmp3. destruct (Z.ltb_spec (ival x) 0), (Z.ltb_spec (ival y) 0); try done;
        cbn [negb eqb]; repeat case_match; done || lia.
  - by rewrite decide_True by (split; [lia|congruence]).
Qed.

(** The one-word branches compare sign-extended words, or words. *)
Lemma one_word_ival v w (s : bool) :
  0 < w <= 64 -> 0 <= v < 2 ^ w ->
  (if s then GetSXTValue (MkIntVal (Value v) w s) else u_value (MkIntVal (Value v) w s)) =
  Ret (ival (MkIntVal (Value v) w s)).
Proof. intros Hw Hv. destruct s; [by rewrite GetSXTValue_one|done]. Qed.

(** What a comparison of the order answers, [r] being the truth *)
Definition ordered {A} (x y : IntVal) (r : A) : res A :=
  if decide (words_compared x y) then Fault Undefined else Ret r.

Lemma ordered_small {A} x y (r : A) : width x <= 64 -> ordered x y r = Ret r.
Proof. intros H. unfold ordered. by rewrite decide_False by (intros [? _]; lia). Qed.

Lemma words_compared_sym x y :
  width x = width y -> sign x = sign y -> words_compared y x <-> words_compared x y.
Proof. unfold words_compared. intros <- <-. split; intros [? H]; (split; [done|]); intros; symmetry; auto. Qed.

Lemma ordered_bind {A B} x y (a : A) (f : A -> B) :
  (r ← ordered x y a; Ret (f r)) = ordered x y (f a).
Proof. unfold ordered. by destruct (decide _). Qed.

Lemma op_lt_eq x y :
  wf x -> wf y -> width x = width y -> sign x = sign y ->
  op_lt x y = ordered x y (ival x <? ival y).
Proof.
  intros Hx Hy Ew Es. unfold op_lt. rewrite same_type_intro by done.
  destruct (decide (64 < width x)) as [Hwide|Hone].
  - rewrite IsOneWord_above, WideCompare_eq by done. cbn [ASSERT mbind res_bind].
    unfold ordered. case_decide; [done|]. cbn [mbind res_bind]. by rewrite cmp3_lt.
  - rewrite ordered_small by lia. operands x y Hx Hy Ew Es; cbn [width ASSERT mbind res_bind] in *; [|lia].
    rewrite IsOneWord_one by done. pose proof (one_word_ival v w s Hw Hv) as E.
    pose proof (one_word_ival v' w s Hw Hv') as E'. cbn [sign]. by destruct s; rewrite E, E'.
Qed.

Lemma op_gt_eq x y :
  wf x -> wf y -> width x = width y -> sign x = sign y ->
  op_gt x y = ordered x y (ival y <? ival x).
Proof.
  intros Hx Hy Ew Es. unfold op_gt. rewrite same_type_intro by done.
  destruct (decide (64 < width x)) as [Hwide|Hone].
  - rewrite IsOneWord_above, WideCompare_eq by done. cbn [ASSERT mbind res_bind].
    unfold ordered. case_decide; [done|]. cbn [mbind res_bind]. by rewrite cmp3_gt.
  - rewrite ordered_small by lia. operands x y Hx Hy Ew Es; cbn [width ASSERT mbind res_bind] in *; [|lia].
    rewrite IsOneWord_one by done. pose proof (one_word_ival v w s Hw Hv) as E.
    pose proof (one_word_ival v' w s Hw Hv') as E'. cbn [sign]. by destruct s; rewrite E, E'.
Qed.

Lemma op_ne_eq x y :
  wf x -> wf y -> width x = width y -> sign x = sign y ->
  op_ne x y = Ret (negb (ival x =? ival y)).
Proof. intros. unfold op_ne. by rewrite op_eq_eq. Qed.

Lemma op_le_eq x y :
  wf x -> wf y -> width x = width y -> sign x = sign y ->
  op_le x y = ordered x y (ival x <=? ival y).
Proof. intros. unfold op_le. by rewrite op_gt_eq, ordered_bind, Z.leb_antisym by done. Qed.

Lemma op_ge_eq x y :
  wf x -> wf y -> width x = width y -> sign x = sign y ->
  op_ge x y = ordered x y (ival y <=? ival x).
Proof. intros. unfold op_ge. by rewrite op_lt_eq, ordered_bind, Z.leb_antisym by done. Qed.

(** A value is determined by its type and its integer. *)
Lemma wf_ival_inj x y :
  wf x -> wf y -> width x = width y -> sign x = sign y -> ival x = ival y -> x = y.
Proof.
  intros Hx Hy Ew Es E. apply wf_inj; try done. apply Z.eqb_eq. rewrite ival_eqb by done.
  by apply Z.eqb_eq.
Qed.

(** ** Minimum and maximum of values of one type *)

Lemma Min_same_eq x y :
  wf x -> wf y -> width x = width y -> sign x = sign y ->
  Min_same x y = ordered x y (if ival x <? ival y then x else y).
Proof.
  intros Hx Hy Ew Es. unfold Min_same. rewrite op_lt_eq by done. unfold ordered.
  case_decide; [done|]. cbn [mbind res_bind]. destruct (_ <? _); by rewrite IntVal_copy_spec.
Qed.

Lemma Max_same_eq x y :
  wf x -> wf y -> width x = width y -> sign x = sign y ->
  Max_same x y = ordered x y (if ival x <? ival y then y else x).
Proof.
  intros Hx Hy Ew Es. unfold Max_same. rewrite Min_same_eq by done. unfold ordered.
  case_decide; [done|]. cbn [mbind res_bind].
  destruct (Z.ltb_spec (ival x) (ival y)).
  - rewrite op_eq_eq by done. rewrite Z.eqb_refl. cbn. by rewrite IntVal_copy_spec.
  - rewrite op_eq_eq by done. cbn [mbind res_bind].
    destruct (Z.eqb_spec (ival y) (ival x)); rewrite IntVal_copy_spec by done; f_equal.
    by apply wf_ival_inj.
Qed.

(** ** Shifts

    The code asserts [bits <= width].  A count of the whole width is right below
    64 bits only: it is an undefined shift of a 64-bit word, and leaves memmove_s
    no room in a wider value. *)

Definition shift_ok (x : IntVal) (bits : Z) : Prop := 0 <= bits <= width x /\ (bits < width x \/ bits < 64).

Lemma wrap_shl w v bits :
  0 < w <= 64 -> 0 <= bits < 64 -> wrap w (shl 64 v bits) = wrap w (Z.shiftl v bits).
Proof. intros. unfold shl. by rewrite Z.mod_small, wrap_wrap_le by lia. Qed.

Lemma assert_le a b : a <= b -> ASSERT (a <=? b) = Ret tt.
Proof. intros. unfold ASSERT. by destruct (Z.leb_spec a b); [|lia]. Qed.

Lemma assert_lt a b : a < b -> ASSERT (a <? b) = Ret tt.
Proof. intros. unfold ASSERT. by destruct (Z.ltb_spec a b); [|lia]. Qed.

Lemma op_shl_eq x bits :
  wf x -> shift_ok x bits ->
  op_shl x bits = Ret (repr (width x) (sign x) (Z.shiftl (uval x) bits)).
Proof.
  intros [v w s Hw Hv|us n s Hn Hus] [Hb Hb']; cbn [width] in *; unfold op_shl; cbn [width];
    rewrite assert_le by lia; cbn [mbind res_bind].
  - rewrite IsOneWord_one by done. cbn [u_value u mbind res_bind width sign uval].
    rewrite CHECK_SHIFT_ok by lia. cbn [mbind res_bind].
    apply one_word_result'; [done|apply shl_in_word; lia|apply wrap_shl; lia].
  - rewrite IsOneWord_many by lia. unfold WideShl. rewrite IsOneWord_many by lia.
    cbn [negb ASSERT mbind res_bind width]. rewrite assert_le by lia. cbn [mbind res_bind].
    rewrite IntVal_copy_spec by (by constructor). cbn [mbind res_bind].
    unfold WideShlInPlace. rewrite IsOneWord_many by lia. cbn [negb ASSERT mbind res_bind width].
    rewrite assert_le by lia. cbn [mbind res_bind on_words u_pValue u sign uval].
    rewrite numWords_many, (wrap_small 16) by lia. apply wide_result; [done|].
    apply ShiftLeft_spec; [lia|done|lia].
Qed.

(** The right shift of the words of a wide value, with or without sign filling. *)
Lemma wide_shift_right us n s bits neg :
  (2 <= n <= 255)%nat -> array_ok 64 n us -> 0 <= bits < 64 * Z.of_nat n ->
  on_words (MkIntVal (PValue us) (64 * Z.of_nat n) s)
    (fun ws => ShiftRight 64 ws (numWords (MkIntVal (PValue us) (64 * Z.of_nat n) s)) (wrap 16 bits) neg)
  = Ret (repr (64 * Z.of_nat n) s (Z.shiftr (signed_fill (64 * Z.of_nat n) (eval 64 us) neg) bits)).
Proof.
  intros Hn Hus Hb. cbn [on_words u_pValue u mbind res_bind].
  rewrite numWords_many, (wrap_small 16) by lia. apply wide_result; [done|].
  apply ShiftRight_spec; [lia|done|lia].
Qed.

Lemma WideAShrInPlace_eq us n s bits :
  (2 <= n <= 255)%nat -> array_ok 64 n us -> 0 <= bits < 64 * Z.of_nat n ->
  let x := MkIntVal (PValue us) (64 * Z.of_nat n) s in
  WideAShrInPlace x bits = Ret (repr (64 * Z.of_nat n) s (Z.shiftr (ival x) bits)).
Proof.
  intros Hn Hus Hb x. assert (wf x) as Hx by by constructor. unfold WideAShrInPlace.
  rewrite GetSignBit_spec by done. subst x. rewrite IsOneWord_many by lia.
  cbn [negb ASSERT mbind res_bind width sign uval u]. rewrite assert_le by lia. cbn [mbind res_bind].
  pose proof (wf_uval _ Hx) as Hu. cbn [uval u width] in Hu.
  destruct s; cbn [mbind res_bind]; rewrite wide_shift_right by done; [|done].
  do 3 f_equal. unfold ival, signed_fill. cbn [sign width uval u]. by rewrite swrap_top by lia.
Qed.

Lemma WideLShr_eq us n s bits :
  (2 <= n <= 255)%nat -> array_ok 64 n us -> 0 <= bits < 64 * Z.of_nat n ->
  WideLShr (MkIntVal (PValue us) (64 * Z.of_nat n) s) bits =
  Ret (repr (64 * Z.of_nat n) s (Z.shiftr (eval 64 us) bits)).
Proof.
  intros Hn Hus Hb. unfold WideLShr. rewrite IntVal_copy_spec by (by constructor).
  rewrite IsOneWord_many by lia. cbn [negb ASSERT mbind res_bind width].
  rewrite assert_le by lia. cbn [mbind res_bind]. unfold WideLShrInPlace.
  rewrite IsOneWord_many by lia. cbn [negb ASSERT mbind res_bind width].
  rewrite assert_le by lia. cbn [mbind res_bind]. by rewrite wide_shift_right.
Qed.

Lemma sar64_range v bits : 0 <= bits < 64 -> sar64 v bits = Z.shiftr v bits.
Proof. intros. unfold sar64. by rewrite Z.mod_small. Qed.

Lemma op_shr_eq x bits :
  wf x -> shift_ok x bits ->
  op_shr x bits = Ret (repr (width x) (sign x) (Z.shiftr (ival x) bits)).
Proof.
  intros [v w s Hw Hv|us n s Hn Hus] [Hb Hb']; cbn [width] in *; unfold op_shr; cbn [width];
    rewrite assert_le by lia; cbn [mbind res_bind].
  - rewrite IsOneWord_one by done. cbn [sign width]. unfold ival. cbn [sign width uval u].
    destruct s.
    + rewrite GetSXTValue_one by done. cbn [mbind res_bind]. rewrite CHECK_SHIFT_ok, sar64_range by lia.
      by apply one_word_result.
    + cbn [u_value u mbind res_bind]. rewrite CHECK_SHIFT_ok by lia. cbn [mbind res_bind]. unfold shr. rewrite Z.mod_small by lia.
      apply one_word_result'; [done| |done]. apply (shiftr_in_word 64); [lia|].
      by apply (word64 w).
  - rewrite IsOneWord_many by lia. unfold WideAShr. rewrite IsOneWord_many by lia.
    cbn [negb ASSERT mbind res_bind width]. rewrite assert_le by lia. cbn [mbind res_bind].
    rewrite IntVal_copy_spec by (by constructor). cbn [mbind res_bind].
    apply WideAShrInPlace_eq; [done..|lia].
Qed.

Lemma LShr_own_eq x bits :
  wf x -> shift_ok x bits ->
  LShr_own x bits = Ret (repr (width x) (sign x) (Z.shiftr (uval x) bits)).
Proof.
  intros [v w s Hw Hv|us n s Hn Hus] [Hb Hb']; cbn [width] in *; unfold LShr_own; cbn [width];
    rewrite assert_le by lia; cbn [mbind res_bind].
  - rewrite IsOneWord_one by done. cbn [u_value u mbind res_bind sign width uval].
    rewrite CHECK_SHIFT_ok by lia. cbn [mbind res_bind]. unfold shr. rewrite Z.mod_small by lia. apply one_word_result'; [done| |done].
    apply (shiftr_in_word 64); [lia|]. by apply (word64 w).
  - rewrite IsOneWord_many by lia. apply WideLShr_eq; [done..|lia].
Qed.

(** A count of the whole width *)
Lemma full_width_shift x :
  wf x -> 64 <= width x ->
  let f := if width x =? 64 then Undefined else CheckFatal in
  op_shl x (width x) = Fault f /\ op_shr x (width x) = Fault f /\ LShr_own x (width x) = Fault f.
Proof.
  intros [v w s Hw Hv|us n s Hn Hus]; cbn [width]; intros H64.
  - assert (w = 64) as -> by lia. unfold op_shl, op_shr, LShr_own. cbn [width].
    rewrite IsOneWord_one, assert_le by lia. cbn [mbind res_bind u_value u sign].
    rewrite CHECK_SHIFT_undefined by lia. destruct s; [|done]. by rewrite GetSXTValue_one by done.
  - assert (wf (MkIntVal (PValue us) (64 * Z.of_nat n) s)) as Hx by by constructor.
    rewrite (proj2 (Z.eqb_neq (64 * Z.of_nat n) 64)) by lia.
    unfold op_shl, op_shr, LShr_own, WideShl, WideAShr, WideLShr. cbn [width].
    rewrite !IsOneWord_many, assert_le by lia. rewrite !IntVal_copy_spec by done.
    cbn [negb ASSERT mbind res_bind]. unfold WideShlInPlace, WideAShrInPlace, WideLShrInPlace. cbn [width sign].
    rewrite !IsOneWord_many, assert_le, GetSignBit_spec by (lia || done).
    cbn [negb ASSERT mbind res_bind on_words u_pValue u].
    rewrite numWords_many, (wrap_small 16), (Z.mul_comm 64) by lia.
    rewrite ShiftLeft_full, !ShiftRight_full by (lia || apply Hus). cbn [mbind res_bind].
    destruct s; cbn [mbind res_bind]; by rewrite ?ShiftRight_full by (lia || apply Hus).
Qed.

(** ** Truncation and extension *)

Lemma Trunc_width_eq x w s :
  wf x -> valid_width w -> w <= width x ->
  Trunc_width x w s = Ret (repr w s (uval x)).
Proof.
  intros [v w0 s0 Hw0 Hv|us n s0 Hn Hus] Hw Hle; cbn [width] in Hle; unfold Trunc_width.
  - rewrite IsOneWord_one by done. cbn [u_value u mbind res_bind uval].
    apply one_word_result'; [destruct Hw as [?|(?&?&?)]; lia|by apply (word64 w0)|done].
  - rewrite IsOneWord_many by lia. cbn [u_pValue u mbind res_bind uval].
    pose proof (proj2 Hus). by apply IntVal_ptr_spec; [|apply Hus|lia|lia].
Qed.

Lemma Extend_one_word x w s :
  wf x -> width x < w -> w <= 64 -> Extend_width x w s = Ret (repr w s (ival x)).
Proof.
  intros Hx Hlt Hle. unfold Extend_width, ASSERT. destruct (Z.ltb_spec (width x) w); [|lia].
  cbn [mbind res_bind]. unfold IsOneWord. rewrite IsOneWord_small by lia.
  destruct (Z.leb_spec w kWordBitSize); unfold kWordBitSize in *; [|lia]. cbn [andb].
  rewrite GetExtValue_one by (done || lia). cbn [mbind res_bind].
  pose proof (wf_width x Hx). rewrite IntVal_int_spec by (left; lia). f_equal.
  apply repr_congr; [left; lia|].
  destruct s; rewrite <- (wrap_wrap_le w 64) by lia;
    rewrite ?swrap_congr, ?wrap_wrap, ?swrap_congr, ?wrap_wrap_le by lia; done.
Qed.

(** Extension to a wide type: the words, the filled top bits of the last one,
    and whole words of the sign.  The first [m] words after the top of the last one is filled. *)
Lemma fill_top_word us m w0 (neg : bool) :
  array_ok 64 m us -> (1 <= m)%nat -> 0 < w0 <= 64 * Z.of_nat m ->
  (m = 1%nat \/ w0 = 64 * Z.of_nat m) -> 0 <= eval 64 us < 2 ^ w0 ->
  exists us', array_ok 64 m us' /\
    eval 64 us' = eval 64 us + (if neg then 2 ^ (64 * Z.of_nat m) - 2 ^ w0 else 0) /\
    forall N, (m <= N)%nat ->
    (let e := (64 * Z.of_nat N - w0) mod 64 in
     if negb (e =? 0) && neg then
       w ← rd (us ++ replicate (N - m) 0) (m - 1);
       wr (us ++ replicate (N - m) 0) (m - 1) (Z.lor w (shl 64 kAllOnes (64 - e)))
     else Ret (us ++ replicate (N - m) 0)) = Ret (us' ++ replicate (N - m) 0).
Proof.
  intros Hus Hm Hw0 Hcase Hr. destruct neg.
  2:{ exists us. split; [done|]. split; [lia|]. intros ? ?. cbv zeta. by rewrite andb_false_r. }
  destruct (decide (w0 = 64 * Z.of_nat m)) as [->|Hne].
  { exists us. split; [done|]. split; [lia|]. intros N HN. cbv zeta.
    replace (64 * Z.of_nat N - 64 * Z.of_nat m) with ((Z.of_nat N - Z.of_nat m) * 64) by ring.
    by rewrite Z.mod_mul by lia. }
  destruct Hcase as [->|?]; [|lia]. destruct us as [|v []]; try (destruct Hus; done).
  cbn [eval] in *. rewrite Z.mul_0_r, Z.add_0_r in Hr. change (64 * Z.of_nat 1) with 64 in *.
  exists [v + (2 ^ 64 - 2 ^ w0)]. assert (2 ^ w0 < 2 ^ 64) by (apply Z.pow_lt_mono_r; lia).
  split; [split; [|done]; constructor; [lia|done]|]. split; [cbn [eval]; lia|].
  intros N HN. cbv zeta.
  assert ((64 * Z.of_nat N - w0) mod 64 = 64 - w0) as ->.
  { symmetry. apply (Z.mod_unique_pos _ _ (Z.of_nat N - 1)); lia. }
  destruct (Z.eqb_spec (64 - w0) 0); [lia|]. cbn [negb andb].
  replace (64 - (64 - w0)) with w0 by lia. cbn [rd lookup list_lookup app Nat.sub mbind res_bind].
  rewrite sign_extend_or by lia. done.
Qed.

Lemma ExtendToWideInt_words us m w0 n w s (neg : bool) :
  array_ok 64 m us -> (1 <= m < n)%nat -> (n <= 255)%nat -> 0 < w0 <= 64 * Z.of_nat m ->
  (m = 1%nat \/ w0 = 64 * Z.of_nat m) -> 0 <= eval 64 us < 2 ^ w0 -> w = 64 * Z.of_nat n ->
  (newValue ← blit (replicate n 0) 0 us;
   newValue ← (if negb (wrap 16 (w - w0) mod kWordBitSize =? 0) && neg then
                 w1 ← rd newValue (m - 1);
                 wr newValue (m - 1)
                   (Z.lor w1 (shl 64 kAllOnes (kWordBitSize - wrap 16 (w - w0) mod kWordBitSize)))
               else Ret newValue);
   newValue ← blit newValue m (replicate (n - m) (if neg then kAllOnes else 0));
   IntVal_ptr newValue w s) = Ret (repr w s (signed_fill w0 (eval 64 us) neg)).
Proof.
  intros Hus Hm Hn Hw0 Hcase Hr ->. pose proof (proj2 Hus) as Hl.
  destruct (fill_top_word us m w0 neg Hus ltac:(lia) Hw0 Hcase Hr) as (us' & Hus' & He & Hfill).
  specialize (Hfill n ltac:(lia)). cbv zeta in Hfill.
  rewrite (wrap_small 16) by lia. unfold kWordBitSize.
  apply wp_eq, wp_bind. unfold blit at 1. rewrite length_replicate.
  destruct (Nat.leb_spec (0 + length us) n); [|lia]. apply wp_ret.
  rewrite take_0, drop_replicate. cbn [app Nat.add]. rewrite Hl.
  apply wp_bind. rewrite Hfill. apply wp_ret, wp_bind.
  change (if neg then kAllOnes else 0) with (sign_word neg).
  pose proof (proj2 Hus') as Hl'. apply wp_blit; [rewrite length_app, !length_replicate; lia|].
  rewrite length_replicate, take_app_le, take_ge, drop_app_ge, drop_replicate by lia.
  replace (n - m - (m + (n - m) - length us'))%nat with 0%nat by lia. rewrite app_nil_r.
  rewrite IntVal_ptr_spec.
  2:{ right. exists n. lia. }
  2:{ apply Forall_app; split; [apply Hus'|apply sign_words_ok]. }
  2,3: rewrite length_app, length_replicate; lia.
  apply wp_ret. apply repr_congr; [right; exists n; lia|].
  rewrite eval_app, eval_sign_words, He, Hl' by lia. unfold signed_fill. destruct neg; [|f_equal; lia].
  apply (wrap_congr _ _ _ 1); [lia|].
  assert (2 ^ (64 * Z.of_nat n) = 2 ^ (64 * Z.of_nat m) * 2 ^ (64 * Z.of_nat (n - m))) as ->.
  { rewrite <- pow_limb_add by lia. do 2 f_equal. lia. }
  lia.
Qed.

Lemma signed_fill_ival x :
  wf x -> signed_fill (width x) (uval x) (if sign x then Z.testbit (uval x) (width x - 1) else false)
          = ival x.
Proof.
  intros Hx. pose proof (wf_width x Hx). pose proof (wf_uval x Hx). unfold ival, signed_fill.
  destruct (sign x); [|done]. by rewrite swrap_top by lia.
Qed.

Lemma ExtendToWideInt_eq x w s :
  wf x -> valid_width w -> width x < w -> 64 < w ->
  ExtendToWideInt x w s = Ret (repr w s (ival x)).
Proof.
  intros Hx [?|(n & Hn & ->)] Hlt Hw64; [lia|].
  unfold ExtendToWideInt, ASSERT. destruct (Z.ltb_spec (width x) (64 * Z.of_nat n)); [|lia].
  cbn [mbind res_bind]. rewrite GetNumWords_wide, Nat2Z.id by lia.
  rewrite <- (signed_fill_ival x Hx).
  assert ((neg ← (if sign x then GetSignBit x else Ret false); Ret neg) =
    Ret (if sign x then Z.testbit (uval x) (width x - 1) else false)) as Hneg.
  { destruct (sign x); [|done]. by rewrite GetSignBit_spec. }
  set (neg := if sign x then Z.testbit _ _ else false) in *.
  assert ((if sign x then GetSignBit x else Ret false) = Ret neg) as Hneg'.
  { destruct (if sign x then GetSignBit x else Ret false); cbn in Hneg; congruence. }
  rewrite Hneg'. clearbody neg. clear Hneg Hneg'.
  destruct Hx as [v w0 s0 Hw0 Hv|us m s0 Hm Hus]; cbn [width sign uval u].
  - rewrite IsOneWord_one by done. cbn [u_value u mbind res_bind].
    assert (numWords (MkIntVal (Value v) w0 s0) = 1%nat) as ->.
    { unfold numWords, GetNumWords, GetNumWords_of, kWordBitSize. cbn [width].
      rewrite <- (Z.div_unique_pos (w0 + 64 - 1) 64 1 (w0 - 1)) by lia. done. }
    pose proof (word64 w0 v Hw0 Hv).
    assert (eval 64 [v] = v) as E by (cbn [eval]; lia). rewrite <- E at 2.
    apply (ExtendToWideInt_words [v] 1 w0 n); rewrite ?E; try lia.
    split; [by constructor|done].
  - rewrite IsOneWord_many by lia. cbn [u_pValue u mbind res_bind].
    rewrite numWords_many by lia. unfold slice. rewrite drop_0, (proj2 Hus), Nat.leb_refl.
    cbn [mbind res_bind]. rewrite take_all by done.
    cbn [width] in *. apply (ExtendToWideInt_words us m); first [done|lia|by right|by apply array_ok_eval].
Qed.

Lemma TruncOrExtend_width_eq x w s :
  wf x -> valid_width w ->
  TruncOrExtend_width x w s = Ret (repr w s (ival x)).
Proof.
  intros Hx Hw. pose proof (valid_width_range w Hw). unfold TruncOrExtend_width.
  destruct (Z.leb_spec w (width x)).
  - rewrite Trunc_width_eq by done. f_equal. apply repr_congr; [done|].
    by rewrite <- wrap_ival, wrap_wrap_le by (done || lia).
  - destruct (decide (w <= 64)); [by apply Extend_one_word|].
    unfold Extend_width, ASSERT. destruct (Z.ltb_spec (width x) w); [|lia]. cbn [mbind res_bind].
    destruct (Z.leb_spec w kWordBitSize); unfold kWordBitSize in *; [lia|].
    rewrite andb_false_r. apply ExtendToWideInt_eq; auto; lia.
Qed.
