(* ===== verification/IntValCount.v ===== *)
(** * IntVal: bit counts and tests on the whole value

    Leading and trailing bit counts, significant bits, and the tests and
    assignments of the extreme values of a type. *)
From S2P Require Import Prelude.
From S2P Require Import PrimTypes.
From S2P Require Import IntWords.
From S2P Require Import IntWordsFacts.
From S2P Require Import IntDivFacts.
From S2P Require Import IntVal.
From S2P Require Import IntValFacts.
From S2P Require Import IntValArith.
From S2P Require Import IntValOrder.

(** ** Number of bits of an unsigned integer *)

Definition nbits (v : Z) : Z := if v =? 0 then 0 else Z.log2 v + 1.

Lemma nbits_0 : nbits 0 = 0.
Proof. done. Qed.

Lemma nbits_lower v : 0 < v -> 2 ^ (nbits v - 1) <= v < 2 ^ nbits v.
Proof.
  intros Hv. unfold nbits. destruct (Z.eqb_spec v 0); [lia|].
  replace (Z.log2 v + 1 - 1) with (Z.log2 v) by lia. rewrite Z.add_1_r. by apply Z.log2_spec.
Qed.

Lemma nbits_upper v : 0 <= v -> v < 2 ^ nbits v.
Proof. intros Hv. destruct (decide (v = 0)) as [->|]; [done|]. apply nbits_lower. lia. Qed.

Lemma nbits_ge0 v : 0 <= nbits v.
Proof. unfold nbits. pose proof (Z.log2_nonneg v). destruct (_ =? _); lia. Qed.

Lemma nbits_le v w : 0 <= w -> 0 <= v < 2 ^ w -> nbits v <= w.
Proof.
  intros Hw Hv. destruct (decide (v = 0)) as [->|]; [by rewrite nbits_0|].
  pose proof (nbits_lower v ltac:(lia)). apply Z.nlt_ge. intros Hgt.
  assert (2 ^ w <= 2 ^ (nbits v - 1)) by (apply Z.pow_le_mono_r; lia). lia.
Qed.

Lemma nbits_le_iff v w : 0 <= w -> 0 <= v -> nbits v <= w <-> v < 2 ^ w.
Proof.
  intros Hw Hv. split; [|intros; by apply nbits_le]. intros H.
  eapply Z.lt_le_trans; [by apply nbits_upper|]. apply Z.pow_le_mono_r; lia.
Qed.

(** The highest non-zero part decides. *)
Lemma nbits_high e v w : 0 <= w -> 0 <= e < 2 ^ w -> 0 < v -> nbits (e + 2 ^ w * v) = w + nbits v.
Proof.
  intros Hw He Hv. pose proof (nbits_lower v Hv) as Hn. pose proof (nbits_ge0 v).
  assert (0 < nbits v) by (unfold nbits; destruct (Z.eqb_spec v 0); pose proof (Z.log2_nonneg v); lia).
  pose proof (pow2_pos w Hw). unfold nbits at 1. destruct (Z.eqb_spec (e + 2 ^ w * v) 0); [nia|].
  rewrite (Z.log2_unique _ (w + nbits v - 1)); [lia|lia|].
  replace (Z.succ (w + nbits v - 1)) with (w + nbits v) by lia.
  replace (w + nbits v - 1) with (w + (nbits v - 1)) by lia. rewrite !Z.pow_add_r by lia. nia.
Qed.

Lemma CountLeadingZeros_word_spec w : 0 <= w < 2 ^ 64 -> CountLeadingZeros_word 64 w = 64 - nbits w.
Proof.
  intros Hw. unfold CountLeadingZeros_word, nbits, builtin_clz. destruct (_ =? _); lia.
Qed.

Lemma leading_zeros_loop_spec ws k count :
  words 64 ws -> (k <= length ws)%nat -> 0 <= count -> count + 64 * Z.of_nat k < 2 ^ 16 ->
  leading_zeros_loop ws k count =
  Ret (count + 64 * Z.of_nat k - nbits (eval 64 (take k ws))).
Proof.
  intros Hws. revert count. induction k as [|k IH]; intros count Hk Hc Hlt.
  { rewrite take_0. cbn [leading_zeros_loop eval]. rewrite nbits_0. f_equal. lia. }
  cbn [leading_zeros_loop]. unfold rd. rewrite at_lookup by lia. cbn [mbind res_bind].
  pose proof (words_lookup 64 ltac:(lia) ws k Hws) as Hw.
  rewrite CountLeadingZeros_word_spec by done. pose proof (nbits_le _ 64 ltac:(lia) Hw).
  pose proof (nbits_ge0 ws.[k]). rewrite eval_take_S by lia. unfold kWordBitSize.
  pose proof (eval_range 64 ltac:(lia) (take k ws) (Forall_take _ _ _ Hws)) as Hr.
  rewrite length_take_le in Hr by lia. rewrite wrap_small by lia.
  destruct (Z.eqb_spec (64 - nbits ws.[k]) 64) as [E|E]; cbn [negb].
  - assert (ws.[k] = 0) as ->.
    { pose proof (nbits_upper ws.[k] ltac:(lia)) as Hup. replace (nbits ws.[k]) with 0 in Hup by lia. lia. }
    rewrite nbits_0, IH by lia. f_equal. rewrite Z.mul_0_l, Z.add_0_r. lia.
  - rewrite (Z.mul_comm ws.[k]), nbits_high; [f_equal; lia|lia|done|].
    destruct (decide (ws.[k] = 0)) as [E0|]; [rewrite E0, nbits_0 in E; lia|lia].
Qed.

Lemma CountLeadingZeros_eq x : wf x -> CountLeadingZeros x = Ret (width x - nbits (uval x)).
Proof.
  intros [v w s Hw Hv|us n s Hn Hus]; unfold CountLeadingZeros.
  - rewrite IsOneWord_one by done. cbn [u_value u mbind res_bind width uval].
    rewrite CountLeadingZeros_word_spec by (by apply (word64 w)).
    unfold GetNumWords, GetNumWords_of, kWordBitSize. cbn [width].
    rewrite <- (Z.div_unique_pos (w + 64 - 1) 64 1 (w - 1)) by lia.
    rewrite (wrap_small 8) by lia. rewrite (wrap_small 16 (64 * 1 - w)) by lia.
    pose proof (nbits_le v w ltac:(lia) Hv). pose proof (nbits_ge0 v).
    rewrite wrap_small by lia. f_equal. lia.
  - rewrite IsOneWord_many by lia. cbn [u_pValue u mbind res_bind width uval].
    rewrite numWords_many, GetNumWords_many by lia. unfold kWordBitSize.
    rewrite Z.sub_diag. change (wrap 16 0) with 0. pose proof (proj2 Hus).
    rewrite leading_zeros_loop_spec by (apply Hus || lia). cbn [mbind res_bind].
    rewrite take_all by done. pose proof (array_ok_eval 64 n us ltac:(lia) Hus) as Hr.
    pose proof (nbits_le _ (64 * Z.of_nat n) ltac:(lia) Hr). pose proof (nbits_ge0 (eval 64 us)).
    rewrite assert_le by lia. cbn [mbind res_bind]. rewrite wrap_small by lia. f_equal. lia.
Qed.

Lemma CountSignificantBits_unsigned x :
  wf x -> sign x = false -> CountSignificantBits x = Ret (Z.max (nbits (uval x)) 1).
Proof.
  intros Hx Hs. unfold CountSignificantBits. rewrite Hs, CountLeadingZeros_eq by done.
  pose proof (wf_width x Hx). pose proof (nbits_le _ (width x) ltac:(lia) (wf_uval x Hx)).
  pose proof (nbits_ge0 (uval x)). cbn [mbind res_bind]. rewrite assert_le by lia.
  cbn [mbind res_bind]. rewrite wrap_small by lia. f_equal. lia.
Qed.

Lemma IsOneSignificantWord_unsigned x :
  wf x -> sign x = false -> IsOneSignificantWord x = Ret (nbits (uval x) <=? 64).
Proof.
  intros Hx Hs. unfold IsOneSignificantWord. destruct (IsOneWord x) eqn:E.
  - f_equal. symmetry. apply Z.leb_le. pose proof (wf_width x Hx).
    apply Z.leb_le in E. unfold kWordBitSize in E.
    pose proof (nbits_le _ (width x) ltac:(lia) (wf_uval x Hx)). lia.
  - rewrite CountSignificantBits_unsigned by done. cbn [mbind res_bind]. f_equal.
    unfold kWordBitSize. pose proof (nbits_ge0 (uval x)).
    destruct (Z.leb_spec (nbits (uval x)) 64), (Z.leb_spec (Z.max (nbits (uval x)) 1) 64); lia || done.
Qed.

(** ** Trailing bits *)

Lemma cto_word_run w : 0 <= w < 2 ^ 64 -> run true w (CountTrallingOnes_word 64 w) 64.
Proof.
  intros Hw. unfold CountTrallingOnes_word. destruct (Z.eqb_spec w (ones 64)) as [->|Hnz].
  { split; [lia|]. split; [|lia]. intros i Hi. unfold ones. rewrite testbit_ones by lia.
    destruct (Z.leb_spec 0 i), (Z.ltb_spec i 64); lia || done. }
  pose proof (ctz_word_run (notw 64 w) (notw_range w)) as (H0 & H1 & H2).
  unfold CountTrallingZeros_word in *. destruct (Z.eqb_spec (notw 64 w) 0) as [E|_].
  { rewrite notw_spec in E by lia. contradict Hnz. change (ones 64) with (2 ^ 64 - 1). lia. }
  split; [done|]. split.
  - intros i Hi. specialize (H1 i Hi). rewrite notw_bits in H1 by lia. by apply negb_false_iff.
  - intros Hlt. specialize (H2 Hlt). rewrite notw_bits in H2 by lia. by apply negb_true_iff.
Qed.

(** Words that are all [b]. *)
Lemma words_while_spec p ws n i :
  (i + n <= length ws)%nat ->
  wp (words_while p ws n i) (fun j => (i <= j <= i + n)%nat /\
    (forall k, (i <= k < j)%nat -> p ws.[k] = true) /\ ((j < i + n)%nat -> p ws.[j] = false)).
Proof.
  revert i. induction n as [|n IH]; intros i Hi; cbn [words_while].
  { split; [lia|]. split; intros; lia. }
  apply wp_bind, wp_rd; [lia|]. destruct (p ws.[i]) eqn:Hp.
  - eapply wp_mono; [apply IH; lia|]. intros j (Hj & Hall & Hend). split; [lia|]. split.
    + intros k Hk. destruct (decide (k = i)) as [->|]; [done|]. apply Hall. lia.
    + intros. apply Hend. lia.
  - split; [lia|]. split; [intros; lia|done].
Qed.

Lemma all_words_run b us n j :
  array_ok 64 n us -> (j <= n)%nat ->
  (forall k, (k < j)%nat -> us.[k] = sign_word b) ->
  forall i, 0 <= i < 64 * Z.of_nat j -> Z.testbit (eval 64 us) i = b.
Proof.
  intros Hus Hj Hall i Hi. rewrite testbit_eval by (apply Hus || lia).
  pose proof (Z.div_pos i 64 ltac:(lia) ltac:(lia)).
  assert (i / 64 < Z.of_nat j) by (apply Z.div_lt_upper_bound; lia).
  rewrite Hall by lia. pose proof (Z.mod_pos_bound i 64 ltac:(lia)).
  destruct b; cbn [sign_word]; [|apply Z.testbit_0_l]. unfold kAllOnes, ones.
  rewrite testbit_ones by lia.
  destruct (Z.leb_spec 0 (i mod 64)), (Z.ltb_spec (i mod 64) 64); lia || done.
Qed.

Lemma wide_run b us n j c :
  array_ok 64 n us -> (j < n)%nat -> (forall k, (k < j)%nat -> us.[k] = sign_word b) ->
  run b us.[j] c 64 -> us.[j] <> sign_word b ->
  run b (eval 64 us) (64 * Z.of_nat j + c) (64 * Z.of_nat n).
Proof.
  intros Hus Hj Hall (Hc & Hlow & Htop) Hne. pose proof (array_ok_at 64 n us j ltac:(lia) Hus) as Hw.
  assert (c < 64) as Hlt.
  { apply Z.nle_gt. intros H. assert (c = 64) as -> by lia. contradict Hne. apply bits_ext.
    intros i Hi. destruct (decide (i < 64)).
    - rewrite Hlow by lia. destruct b; cbn [sign_word]; [|by rewrite Z.testbit_0_l].
      unfold kAllOnes, ones. rewrite testbit_ones by lia.
      destruct (Z.leb_spec 0 i), (Z.ltb_spec i 64); lia || done.
    - rewrite (testbit_above 64) by lia. symmetry. apply (testbit_above 64); [|lia].
      unfold sign_word. change kAllOnes with (2 ^ 64 - 1). destruct b; lia. }
  split; [lia|]. split; [|intros _; rewrite testbit_eval_at by (apply Hus || lia); auto].
  intros i Hi. destruct (decide (i < 64 * Z.of_nat j)); [apply (all_words_run b us n j); auto; lia|].
  replace i with (64 * Z.of_nat j + (i - 64 * Z.of_nat j)) by lia.
  rewrite testbit_eval_at by (apply Hus || lia). apply Hlow. lia.
Qed.

(** The two trailing counts share their wide branch. *)
Section Trailing.
Context (b : bool) (count_word : Z -> Z).
Context (Hcount : forall w, 0 <= w < 2 ^ 64 -> run b w (count_word w) 64).

Lemma wide_trailing us n s :
  (2 <= n <= 255)%nat -> array_ok 64 n us ->
  let x := MkIntVal (PValue us) (64 * Z.of_nat n) s in
  wp (i ← words_while (fun w => w =? sign_word b) us (numWords x) 0;
      let count := wrap 16 (kWordBitSize * Z.of_nat i) in
      if (i <? numWords x)%nat then
        w ← rd us i;
        Ret (Z.min (wrap 16 (count + count_word w)) (width x))
      else Ret (Z.min count (width x)))
    (fun r => run b (uval x) r (width x)).
Proof using Hcount.
  intros Hn Hus x. subst x. cbn [width uval u]. rewrite numWords_many by lia.
  pose proof (proj2 Hus) as Hl. apply wp_bind.
  eapply wp_mono; [apply words_while_spec; lia|]. intros j (Hj & Hall & Hend).
  unfold kWordBitSize. rewrite (wrap_small 16) by lia.
  assert (forall k, (k < j)%nat -> us.[k] = sign_word b) as Hwords
    by (intros; apply Z.eqb_eq, Hall; lia).
  destruct (Nat.ltb_spec j n) as [Hlt|Hge].
  - apply wp_bind, wp_rd; [lia|]. apply wp_ret.
    pose proof (Hcount us.[j] ltac:(by apply (array_ok_at 64 n))) as Hrun.
    assert (0 <= count_word us.[j] <= 64) by apply Hrun.
    rewrite wrap_small, Z.min_l by lia.
    apply wide_run; auto. apply Z.eqb_neq, Hend. lia.
  - apply wp_ret. assert (j = n) as -> by lia. rewrite Z.min_l by lia.
    split; [lia|]. split; [|lia]. apply (all_words_run b us n n); auto.
Qed.
End Trailing.

Lemma CountTrallingZeros_wide x :
  wf x -> 64 < width x -> wp (CountTrallingZeros x) (fun r => run false (uval x) r (width x)).
Proof.
  intros [v w s Hw Hv|us n s Hn Hus] H; cbn [width] in H; [lia|]. unfold CountTrallingZeros.
  rewrite IsOneWord_many by lia. cbn [u_pValue u mbind res_bind].
  exact (wide_trailing false (CountTrallingZeros_word 64) ctz_word_run us n s Hn Hus).
Qed.

Lemma CountTrallingOnes_wide x :
  wf x -> 64 < width x -> wp (CountTrallingOnes x) (fun r => run true (uval x) r (width x)).
Proof.
  intros [v w s Hw Hv|us n s Hn Hus] H; cbn [width] in H; [lia|]. unfold CountTrallingOnes.
  rewrite IsOneWord_many by lia. cbn [u_pValue u mbind res_bind].
  exact (wide_trailing true (CountTrallingOnes_word 64) cto_word_run us n s Hn Hus).
Qed.

(** ** The extreme patterns *)

Lemma run_all b v w :
  0 <= w -> 0 <= v < 2 ^ w -> run b v w w <-> v = if b then 2 ^ w - 1 else 0.
Proof.
  intros Hw Hv. split.
  - intros (_ & Hall & _). apply bits_ext. intros i Hi. destruct (decide (i < w)).
    + rewrite Hall by lia. destruct b; [|by rewrite Z.testbit_0_l].
      rewrite <- Z.sub_1_r, <- Z.ones_equiv || rewrite Z.sub_1_r, <- Z.ones_equiv.
      rewrite testbit_ones by lia. destruct (Z.leb_spec 0 i), (Z.ltb_spec i w); lia || done.
    + rewrite (testbit_above w) by lia. symmetry. apply (testbit_above w); [destruct b; lia|lia].
  - intros ->. split; [lia|]. split; [|lia]. intros i Hi. destruct b; [|by rewrite Z.testbit_0_l].
    rewrite Z.sub_1_r, <- Z.ones_equiv, testbit_ones by lia.
    destruct (Z.leb_spec 0 i), (Z.ltb_spec i w); lia || done.
Qed.

Lemma run_eqb b x r w v : run b x r w -> (run b x v w <-> r = v).
Proof. intros H. split; [intros H'; by apply (run_unique b x r v w)|by intros <-]. Qed.

Lemma wide_all_eq b x (m : res Z) :
  wf x -> wp m (fun r => run b (uval x) r (width x)) ->
  (n ← m; Ret (n =? width x)) = Ret (uval x =? if b then 2 ^ width x - 1 else 0).
Proof.
  intros Hx Hm. destruct (wp_returns m _ Hm) as (r & -> & Hr). cbn [mbind res_bind]. f_equal.
  pose proof (wf_width x Hx). pose proof (wf_uval x Hx). apply eq_true_iff_eq.
  rewrite !Z.eqb_eq, <- run_all by (done || lia). symmetry. by apply run_eqb.
Qed.

Lemma AreAllBitsZeros_eq x : wf x -> AreAllBitsZeros x = Ret (uval x =? 0).
Proof.
  intros Hx. unfold AreAllBitsZeros. destruct (decide (width x <= 64)).
  - destruct Hx as [v w s Hw Hv|us n s Hn Hus]; cbn [width] in *; [|lia]. by rewrite IsOneWord_one.
  - unfold IsOneWord, IsOneWord_width, kWordBitSize. destruct (Z.leb_spec (width x) 64); [lia|].
    apply (wide_all_eq false); [done|]. by apply CountTrallingZeros_wide.
Qed.

Lemma shr_all_ones w : 0 < w <= 64 -> shr 64 kAllOnes (kWordBitSize - w) = 2 ^ w - 1.
Proof.
  intros. unfold kAllOnes, ones, kWordBitSize. rewrite shr_ones, Z.ones_equiv by done. lia.
Qed.

Lemma AreAllBitsOne_eq x : wf x -> AreAllBitsOne x = Ret (uval x =? 2 ^ width x - 1).
Proof.
  intros Hx. unfold AreAllBitsOne. destruct (decide (width x <= 64)).
  - destruct Hx as [v w s Hw Hv|us n s Hn Hus]; cbn [width] in *; [|lia].
    rewrite IsOneWord_one by done. cbn [u_value u mbind res_bind uval]. by rewrite shr_all_ones.
  - unfold IsOneWord, IsOneWord_width, kWordBitSize. destruct (Z.leb_spec (width x) 64); [lia|].
    apply (wide_all_eq true); [done|]. by apply CountTrallingOnes_wide.
Qed.

(** ** Minimum and maximum of a type *)

Definition min_of (w : Z) (s : bool) : Z := if s then - 2 ^ (w - 1) else 0.
Definition max_of (w : Z) (s : bool) : Z := if s then 2 ^ (w - 1) - 1 else 2 ^ w - 1.

Lemma ival_min_iff x :
  wf x -> sign x = true -> ival x = min_of (width x) true <-> uval x = 2 ^ (width x - 1).
Proof.
  intros Hx Hs. pose proof (wf_width x Hx). pose proof (wf_uval x Hx). unfold ival, min_of.
  rewrite Hs, swrap_top, testbit_top by lia. pose proof (pow2_half (width x)).
  pose proof (pow2_pos (width x - 1)).
  destruct (Z.leb_spec (2 ^ (width x - 1)) (uval x)); lia.
Qed.

Lemma ival_max_iff x :
  wf x -> sign x = true -> ival x = max_of (width x) true <-> uval x = 2 ^ (width x - 1) - 1.
Proof.
  intros Hx Hs. pose proof (wf_width x Hx). pose proof (wf_uval x Hx). unfold ival, max_of.
  rewrite Hs, swrap_top, testbit_top by lia. pose proof (pow2_half (width x)).
  destruct (Z.leb_spec (2 ^ (width x - 1)) (uval x)); lia.
Qed.

(** A signed value whose sign bit is [negb b] and whose other bits are all [b]. *)
Lemma sign_run b v w :
  0 < w -> 0 <= v < 2 ^ w -> Z.testbit v (w - 1) = negb b ->
  run b v (w - 1) w <-> v = if b then 2 ^ (w - 1) - 1 else 2 ^ (w - 1).
Proof.
  intros Hw Hv Hb. pose proof (pow2_half w Hw). pose proof (pow2_pos (w - 1) ltac:(lia)).
  assert (run b v (w - 1) w <-> run b (wrap (w - 1) v) (w - 1) (w - 1)) as ->.
  { unfold run. split; intros (H1 & H2 & H3); (split; [lia|]; split; [|lia || auto]);
      intros i Hi; specialize (H2 i Hi); rewrite testbit_wrap in * by lia;
      destruct (Z.ltb_spec i (w - 1)); lia || done. }
  rewrite run_all by (lia || apply wrap_range; lia).
  rewrite testbit_top in Hb by lia.
  destruct (Z.leb_spec (2 ^ (w - 1)) v), b; cbn [negb] in Hb; try done.
  - rewrite (wrap_unique (w - 1) v (v - 2 ^ (w - 1)) 1) by lia. lia.
  - rewrite wrap_small by lia. done.
Qed.

Lemma wide_sign_count b x (m : res Z) :
  wf x -> Z.testbit (uval x) (width x - 1) = negb b ->
  wp m (fun r => run b (uval x) r (width x)) ->
  (n ← m; Ret (n =? width x - 1)) =
  Ret (uval x =? if b then 2 ^ (width x - 1) - 1 else 2 ^ (width x - 1)).
Proof.
  intros Hx Hb Hm. destruct (wp_returns m _ Hm) as (r & -> & Hr). cbn [mbind res_bind]. f_equal.
  pose proof (wf_width x Hx). pose proof (wf_uval x Hx). apply eq_true_iff_eq.
  rewrite !Z.eqb_eq, <- sign_run by (done || lia). symmetry. by apply run_eqb.
Qed.

Lemma eqb_of_iff a b c d : (a = b <-> c = d) -> (a =? b) = (c =? d).
Proof. intros H. apply eq_true_iff_eq. by rewrite !Z.eqb_eq. Qed.

Lemma unsigned_ival x : sign x = false -> ival x = uval x.
Proof. unfold ival. by intros ->. Qed.

Lemma IsMinValue_eq x : wf x -> IsMinValue x = Ret (ival x =? min_of (width x) (sign x)).
Proof.
  intros Hx. pose proof (wf_width x Hx). unfold IsMinValue.
  destruct (decide (width x <= 64)) as [H64|H64].
  - assert (IsOneWord x = true) as -> by by apply IsOneWord_small.
    destruct Hx as [v w s Hw Hv|us n s Hn Hus]; cbn [width] in *; [|lia].
    assert (wf (MkIntVal (Value v) w s)) as Hx by by constructor.
    cbn [u_value u mbind res_bind sign width]. f_equal. destruct s; [|done].
    rewrite shl_1 by lia. apply eqb_of_iff. symmetry. by apply (ival_min_iff _ Hx).
  - unfold IsOneWord, IsOneWord_width, kWordBitSize. destruct (Z.leb_spec (width x) 64); [lia|].
    unfold WideIsMinValue. destruct (sign x) eqn:Hs.
    + rewrite GetSignBit_spec by done. cbn [mbind res_bind].
      rewrite (eqb_of_iff _ _ _ _ (ival_min_iff x Hx Hs)).
      destruct (Z.testbit (uval x) (width x - 1)) eqn:Hb.
      * apply (wide_sign_count false); auto. apply CountTrallingZeros_wide; [done|lia].
      * f_equal. symmetry. apply Z.eqb_neq. intros E. pose proof (wf_uval x Hx).
        rewrite testbit_top, E, Z.leb_refl in Hb by lia. done.
    + rewrite AreAllBitsZeros_eq by done. by rewrite unsigned_ival.
Qed.

Lemma IsMaxValue_eq x : wf x -> IsMaxValue x = Ret (ival x =? max_of (width x) (sign x)).
Proof.
  intros Hx. pose proof (wf_width x Hx). unfold IsMaxValue.
  destruct (decide (width x <= 64)) as [H64|H64].
  - assert (IsOneWord x = true) as -> by by apply IsOneWord_small.
    destruct (sign x) eqn:Hs; [|rewrite AreAllBitsOne_eq by done; by rewrite unsigned_ival].
    rewrite (eqb_of_iff _ _ _ _ (ival_max_iff x Hx Hs)).
    destruct Hx as [v w s Hw Hv|us n s Hn Hus]; cbn [width] in *; [|lia].
    cbn [u_value u mbind res_bind sign width uval]. rewrite shl_1 by lia. f_equal.
    rewrite wrap_small; [done|]. pose proof (pow2_pos (w - 1)).
    assert (2 ^ (w - 1) < 2 ^ 64) by (apply Z.pow_lt_mono_r; lia). lia.
  - unfold IsOneWord, IsOneWord_width, kWordBitSize. destruct (Z.leb_spec (width x) 64); [lia|].
    unfold WideIsMaxValue. destruct (sign x) eqn:Hs.
    + rewrite GetSignBit_spec by done. cbn [mbind res_bind].
      rewrite (eqb_of_iff _ _ _ _ (ival_max_iff x Hx Hs)).
      destruct (Z.testbit (uval x) (width x - 1)) eqn:Hb.
      * f_equal. symmetry. apply Z.eqb_neq. intros E. pose proof (wf_uval x Hx).
        rewrite testbit_top, E in Hb by lia. apply Z.leb_le in Hb. lia.
      * apply (wide_sign_count true); auto. apply CountTrallingOnes_wide; [done|lia].
    + rewrite AreAllBitsOne_eq by done. by rewrite unsigned_ival.
Qed.

(** The assignments of the extreme values: every word is filled and the top word
    is rewritten. *)
Lemma filled_top n (f t : Z) :
  (1 <= n)%nat ->
  <[(n - 1)%nat := t]> (replicate n f) = replicate (n - 1) f ++ [t].
Proof.
  intros Hn. replace n with ((n - 1) + 1)%nat at 2 by lia. rewrite replicate_add.
  rewrite insert_app_r_alt by (rewrite length_replicate; lia).
  by rewrite length_replicate, Nat.sub_diag.
Qed.

Lemma fill_words_eq us n s f :
  (2 <= n <= 255)%nat -> array_ok 64 n us ->
  fill_words (MkIntVal (PValue us) (64 * Z.of_nat n) s) f =
  Ret (MkIntVal (PValue (replicate n f)) (64 * Z.of_nat n) s).
Proof.
  intros Hn Hus. unfold fill_words. cbn [u_pValue u mbind res_bind]. rewrite numWords_many by lia.
  pose proof (proj2 Hus) as Hl. apply wp_eq, wp_bind, wp_blit; [rewrite length_replicate; lia|].
  rewrite take_0, length_replicate, drop_ge by lia. cbn [app]. by rewrite app_nil_r.
Qed.

(** All words [sign_word b] but the top one, which is [t]. *)
Lemma filled_value n s (b : bool) t v :
  (2 <= n <= 255)%nat -> 0 <= t < 2 ^ 64 ->
  wrap (64 * Z.of_nat n) ((if b then 2 ^ (64 * Z.of_nat (n - 1)) - 1 else 0) +
     2 ^ (64 * Z.of_nat (n - 1)) * t) = wrap (64 * Z.of_nat n) v ->
  TruncInPlace (MkIntVal (PValue (replicate (n - 1) (sign_word b) ++ [t])) (64 * Z.of_nat n) s) =
  Ret (repr (64 * Z.of_nat n) s v).
Proof.
  intros Hn Ht E.
  assert (array_ok 64 n (replicate (n - 1) (sign_word b) ++ [t])) as Hok.
  { split; [apply Forall_app; split; [apply sign_words_ok|by constructor]|].
    rewrite length_app, length_replicate. cbn. lia. }
  rewrite TruncInPlace_wide by done. f_equal. rewrite words_wide_repr by done.
  apply repr_congr; [right; eauto|]. rewrite <- E, eval_app, eval_sign_words, length_replicate by lia.
  cbn [eval]. f_equal. lia.
Qed.

Lemma SetMaxValue_eq x :
  wf x -> SetMaxValue x = Ret (repr (width x) (sign x) (max_of (width x) (sign x))).
Proof.
  intros [v w s Hw Hv|us n s Hn Hus]; unfold SetMaxValue, SetMaxValue_to; cbn [width sign u].
  - rewrite IsOneWord_one by done. cbn [orb ASSERT mbind res_bind width sign u].
    unfold set_u. cbn [width sign]. f_equal. unfold repr.
    rewrite IsOneWord_small by lia. do 2 f_equal. unfold max_of.
    pose proof (pow2_half w). pose proof (pow2_pos (w - 1)).
    destruct s; [rewrite shl_1 by lia|rewrite shr_all_ones by lia]; rewrite !wrap_small by
      (try apply (word64 w); lia); lia.
  - rewrite IsOneWord_many, GetNumWords_many, GetNumWords_wide, Z.eqb_refl by lia.
    cbn [orb ASSERT mbind res_bind width sign u].
    unfold WideSetMaxValue. rewrite fill_words_eq by done. cbn [mbind res_bind sign].
    assert (64 * Z.of_nat n = 64 * Z.of_nat (n - 1) + 64) as EW by lia.
    pose proof (pow2_pos (64 * Z.of_nat (n - 1)) ltac:(lia)). destruct s.
    + cbn [u_pValue u mbind res_bind width]. rewrite numWords_many, mod_64 by lia.
      change (shr 64 kAllOnes (wrap 8 (0 + 1))) with (2 ^ 63 - 1). unfold wr.
      rewrite length_replicate. destruct (Nat.ltb_spec (n - 1) n); [|lia]. cbn [mbind res_bind].
      unfold set_u. cbn [width sign]. rewrite filled_top by lia.
      apply (filled_value n true true); [done|lia|]. unfold max_of. f_equal.
      replace (64 * Z.of_nat n - 1) with (64 * Z.of_nat (n - 1) + 63) by lia.
      rewrite Z.pow_add_r by lia. lia.
    + cbn [mbind res_bind]. replace (replicate n kAllOnes)
        with (replicate (n - 1) (sign_word true) ++ [kAllOnes]).
      2:{ cbn [sign_word]. rewrite <- (filled_top n kAllOnes kAllOnes) by lia. apply list_insert_id.
          apply lookup_replicate. lia. }
      apply (filled_value n false true); [done|change kAllOnes with (2 ^ 64 - 1); lia|].
      unfold max_of. f_equal. rewrite EW, Z.pow_add_r by lia. change kAllOnes with (2 ^ 64 - 1). lia.
Qed.

Lemma SetMinValue_eq x :
  wf x -> SetMinValue x = Ret (repr (width x) (sign x) (min_of (width x) (sign x))).
Proof.
  intros [v w s Hw Hv|us n s Hn Hus]; unfold SetMinValue, SetMinValue_to; cbn [width sign u].
  - rewrite IsOneWord_one by done. cbn [orb ASSERT mbind res_bind width sign u].
    unfold set_u. cbn [width sign]. f_equal. unfold repr.
    rewrite IsOneWord_small by lia. do 2 f_equal. unfold min_of.
    pose proof (pow2_half w). pose proof (pow2_pos (w - 1)).
    destruct s; [|done]. rewrite shl_1 by lia. symmetry. apply (wrap_unique _ _ _ (-1)); lia.
  - rewrite IsOneWord_many, GetNumWords_many, GetNumWords_wide, Z.eqb_refl by lia.
    cbn [orb ASSERT mbind res_bind width sign u].
    unfold WideSetMinValue. rewrite fill_words_eq by done. cbn [mbind res_bind sign].
    pose proof (pow2_pos (64 * Z.of_nat (n - 1)) ltac:(lia)). destruct s.
    + cbn [u_pValue u mbind res_bind width]. rewrite numWords_many by lia.
      assert (wrap 8 (Z.rem (kWordBitSize - (64 * Z.of_nat n + 1)) kWordBitSize) = 255) as ->.
      { unfold kWordBitSize. replace (64 - (64 * Z.of_nat n + 1)) with (- (1 + Z.of_nat (n - 1) * 64)) by lia.
        by rewrite Z.rem_opp_l, Z.rem_add by lia. }
      change (shl 64 1 255) with (2 ^ 63). unfold wr.
      rewrite length_replicate. destruct (Nat.ltb_spec (n - 1) n); [|lia]. cbn [mbind res_bind].
      unfold set_u. cbn [width sign]. rewrite filled_top by lia.
      apply (filled_value n true false); [done|lia|]. unfold min_of.
      apply (wrap_congr _ _ _ 1); [lia|].
      replace (64 * Z.of_nat n - 1) with (64 * Z.of_nat (n - 1) + 63) by lia.
      replace (64 * Z.of_nat n) with (64 * Z.of_nat (n - 1) + 64) by lia.
      rewrite !Z.pow_add_r by lia. lia.
    + cbn [mbind res_bind]. replace (replicate n 0) with (replicate (n - 1) (sign_word false) ++ [0]).
      2:{ cbn [sign_word]. rewrite <- (filled_top n 0 0) by lia. apply list_insert_id. apply lookup_replicate. lia. }
      apply (filled_value n false false); [done|lia|]. f_equal. unfold min_of. lia.
Qed.

(** ** Setting and clearing a bit *)

Lemma lor_bit v b : 0 <= b < 64 -> Z.lor v (shl 64 1 b) = Z.setbit v b.
Proof. intros. rewrite shl_1 by done. by rewrite <- Z.setbit_spec'. Qed.

Lemma land_not_bit v b :
  0 <= b < 64 -> 0 <= v < 2 ^ 64 -> Z.land v (notw 64 (shl 64 1 b)) = Z.clearbit v b.
Proof.
  intros Hb Hv. rewrite shl_1 by done. apply bits_ext. intros i Hi.
  rewrite Z.land_spec, Z.clearbit_eqb by lia. destruct (decide (i < 64)).
  - rewrite notw_bits, Z.pow2_bits_eqb by lia. done.
  - by rewrite (testbit_above 64 v) by lia.
Qed.

Section BitUpdate.
(** [f v b] is [v] with bit [b] replaced by [c]. *)
Context (f : Z -> Z -> Z) (c : bool).
Context (Hf : forall v b i, 0 <= b -> 0 <= i ->
  Z.testbit (f v b) i = if b =? i then c else Z.testbit v i).
Context (Hpos : forall v b, 0 <= v -> 0 <= b -> 0 <= f v b).

Lemma bit_update_range w v b : 0 <= b < w -> 0 <= v < 2 ^ w -> 0 <= f v b < 2 ^ w.
Proof using f c Hf Hpos.
  intros Hb Hv. apply in_word_bits; [lia|apply Hpos; lia|]. intros i Hi.
  rewrite Hf by lia. destruct (Z.eqb_spec b i); [lia|]. by apply (testbit_above w).
Qed.

Lemma wide_bit_update n us bit s :
  (2 <= n <= 255)%nat -> array_ok 64 n us -> 0 <= bit < 64 * Z.of_nat n ->
  let k := Z.to_nat (bit / 64) in
  (k < n)%nat /\
  MkIntVal (PValue (<[k := f us.[k] (bit mod 64)]> us)) (64 * Z.of_nat n) s =
  repr (64 * Z.of_nat n) s (f (eval 64 us) bit).
Proof using f c Hf Hpos.
  intros Hn Hus Hbit k. pose proof (Z.mod_pos_bound bit 64 ltac:(lia)) as Hm.
  pose proof (Z.div_mod bit 64 ltac:(lia)) as Hdm. pose proof (Z.div_pos bit 64 ltac:(lia) ltac:(lia)).
  assert (Z.of_nat k = bit / 64) as Ek by (subst k; lia). clearbody k.
  assert (k < n)%nat as Hk by lia. split; [done|]. pose proof (proj2 Hus) as Hl.
  assert (array_ok 64 n (<[k := f us.[k] (bit mod 64)]> us)) as Hok.
  { apply array_ok_wr; [done|]. apply bit_update_range; [lia|]. by apply (array_ok_at 64 n). }
  rewrite words_wide_repr by done. apply repr_congr; [right; eauto|].
  rewrite (eval_of_bits 64 n _ (f (eval 64 us) bit)); [apply wrap_wrap; lia|lia|done|].
  intros j r Hj Hr. rewrite (Hf (eval 64 us)), testbit_eval_at by (lia || apply Hus).
  destruct (decide (j = k)) as [->|Hne].
  - rewrite at_insert_eq, Hf by lia. destruct (Z.eqb_spec (bit mod 64) r),
      (Z.eqb_spec bit (64 * Z.of_nat k + r)); lia || done.
  - rewrite at_insert_ne by done. destruct (Z.eqb_spec bit (64 * Z.of_nat j + r)); [lia|done].
Qed.
End BitUpdate.

Lemma setbit_bits v b i : 0 <= b -> 0 <= i -> Z.testbit (Z.setbit v b) i = if b =? i then true else Z.testbit v i.
Proof. intros. rewrite Z.setbit_eqb by done. by destruct (b =? i). Qed.

Lemma clearbit_bits v b i : 0 <= b -> 0 <= i -> Z.testbit (Z.clearbit v b) i = if b =? i then false else Z.testbit v i.
Proof. intros. rewrite Z.clearbit_eqb by done. by destruct (b =? i), (Z.testbit v i). Qed.

Lemma setbit_pos v b : 0 <= v -> 0 <= b -> 0 <= Z.setbit v b.
Proof. intros. rewrite Z.setbit_spec'. apply Z.lor_nonneg. pose proof (pow2_pos b). lia. Qed.

Lemma clearbit_pos v b : 0 <= v -> 0 <= b -> 0 <= Z.clearbit v b.
Proof. intros. rewrite Z.clearbit_spec'. apply Z.ldiff_nonneg. lia. Qed.

Lemma GetNumWords_bit bit : 0 <= bit < 16320 -> GetNumWords_of (wrap 16 (bit + 1)) - 1 = bit / 64.
Proof.
  intros Hb. rewrite wrap_small by lia. unfold GetNumWords_of, kWordBitSize.
  replace (bit + 1 + 64 - 1) with (1 * 64 + bit) by lia. rewrite Z.div_add_l by lia.
  pose proof (Z.div_pos bit 64). assert (bit / 64 < 255) by (apply Z.div_lt_upper_bound; lia).
  rewrite wrap_small; lia.
Qed.

Lemma SetBit_eq x bit :
  wf x -> 0 <= bit < width x ->
  SetBit x bit = Ret (repr (width x) (sign x) (Z.setbit (uval x) bit)).
Proof.
  intros [v w s Hw Hv|us n s Hn Hus] Hb; cbn [width] in Hb; unfold SetBit; cbn [width];
    rewrite assert_lt by lia; cbn [mbind res_bind].
  - rewrite IsOneWord_one by done. cbn [u_value u mbind res_bind uval sign]. unfold kWordBitSize.
    rewrite Z.mod_small, lor_bit by lia. unfold set_u. cbn [width sign].
    rewrite (repr_of_wf (MkIntVal _ w s)); [done|].
    constructor; [done|]. by apply (bit_update_range Z.setbit true setbit_bits setbit_pos).
  - rewrite IsOneWord_many by lia. cbn [u_pValue u mbind res_bind uval sign]. unfold kWordBitSize.
    pose proof (Z.div_pos bit 64 ltac:(lia) ltac:(lia)).
    assert (bit / 64 < 255) by (apply Z.div_lt_upper_bound; lia).
    rewrite GetNumWords_bit, (wrap_small 16 (bit / 64)) by lia.
    destruct (wide_bit_update Z.setbit true setbit_bits setbit_pos n us bit s Hn Hus Hb) as [Hk E].
    pose proof (proj2 Hus). apply wp_eq, wp_bind, wp_rd; [lia|].
    rewrite lor_bit by (apply Z.mod_pos_bound; lia). apply wp_bind, wp_wr; [lia|]. by apply wp_ret.
Qed.

Lemma ClearBit_eq x bit :
  wf x -> 0 <= bit < width x ->
  ClearBit x bit = Ret (repr (width x) (sign x) (Z.clearbit (uval x) bit)).
Proof.
  intros [v w s Hw Hv|us n s Hn Hus] Hb; cbn [width] in Hb; unfold ClearBit; cbn [width];
    rewrite assert_lt by lia; cbn [mbind res_bind].
  - rewrite IsOneWord_one by done. cbn [u_value u mbind res_bind uval sign]. unfold kWordBitSize.
    rewrite Z.mod_small, land_not_bit by (lia || by apply (word64 w)). unfold set_u. cbn [width sign].
    rewrite (repr_of_wf (MkIntVal _ w s)); [done|].
    constructor; [done|]. by apply (bit_update_range Z.clearbit false clearbit_bits clearbit_pos).
  - rewrite IsOneWord_many by lia. cbn [u_pValue u mbind res_bind uval sign].
    unfold kWordBitSize, WordNumber, kWordBitSize.
    destruct (wide_bit_update Z.clearbit false clearbit_bits clearbit_pos n us bit s Hn Hus Hb) as [Hk E].
    pose proof (proj2 Hus). apply wp_eq, wp_bind, wp_rd; [lia|].
    rewrite land_not_bit by (try (by apply (array_ok_at 64 n)); apply Z.mod_pos_bound; lia).
    apply wp_bind, wp_wr; [lia|]. by apply wp_ret.
Qed.

(** ** Setting a range of bits *)

Definition in_range (low high i : Z) : bool := (low <=? i) && (i <? high).

(** The masks of the code. *)
Lemma range_mask low high i :
  0 <= low < high -> high <= 64 -> 0 <= i ->
  Z.testbit (shl 64 (shr 64 kAllOnes (kWordBitSize - (high - low))) low) i = in_range low high i.
Proof.
  intros Hl Hh Hi. rewrite shr_all_ones by lia. unfold shl. rewrite Z.mod_small by lia.
  rewrite testbit_wrap, Z.shiftl_spec, Z.sub_1_r, <- Z.ones_equiv, testbit_ones by lia.
  unfold in_range. destruct (Z.ltb_spec i 64), (Z.leb_spec 0 (i - low)), (Z.ltb_spec (i - low) (high - low)),
    (Z.leb_spec low i), (Z.ltb_spec i high); lia || done.
Qed.

Lemma low_mask b i : 0 <= b < 64 -> 0 <= i < 64 -> Z.testbit (shl 64 kAllOnes b) i = (b <=? i).
Proof.
  intros Hb Hi. unfold shl, kAllOnes, ones. rewrite Z.mod_small by lia.
  rewrite testbit_wrap, Z.shiftl_spec, testbit_ones by lia.
  destruct (Z.ltb_spec i 64), (Z.leb_spec 0 (i - b)), (Z.ltb_spec (i - b) 64), (Z.leb_spec b i); lia || done.
Qed.

Lemma high_mask b i :
  0 < b < 64 -> 0 <= i -> Z.testbit (shr 64 kAllOnes (kWordBitSize - b)) i = (i <? b).
Proof.
  intros Hb Hi. rewrite shr_all_ones, Z.sub_1_r, <- Z.ones_equiv, testbit_ones by lia.
  by destruct (Z.leb_spec 0 i); [|lia].
Qed.

Lemma wp_or_word ws n k m (Q : list Z -> Prop) :
  array_ok 64 n ws -> (k < n)%nat -> Q (<[k := Z.lor ws.[k] m]> ws) ->
  wp (w ← rd ws k; wr ws k (Z.lor w m)) Q.
Proof. intros [_ Hl] Hk HQ. apply wp_bind, wp_rd; [lia|]. by apply wp_wr; [lia|]. Qed.

(** The words between the two ends are filled. *)
Lemma fill_loop n k i ws :
  array_ok 64 n ws -> (i + k <= n)%nat ->
  wp (for_up k i (fun i ws => wr ws i kAllOnes) ws) (fun ws' => array_ok 64 n ws' /\
    forall j, ws'.[j] = if ((i <=? j) && (j <? i + k))%nat then kAllOnes else ws.[j]).
Proof.
  intros Hws Hle. apply (wp_for_up (fun p ws' => array_ok 64 n ws' /\
    forall j, ws'.[j] = if ((i <=? j) && (j <? p))%nat then kAllOnes else ws.[j])).
  - split; [done|]. intros j. by destruct (Nat.leb_spec i j), (Nat.ltb_spec j i); try lia.
  - intros p ws' Hp [Hws' Hj]. apply wp_wr; [rewrite (proj2 Hws'); lia|]. split.
    + apply array_ok_wr; [done|]. change kAllOnes with (2 ^ 64 - 1). lia.
    + intros j. destruct (decide (j = p)) as [->|].
      * rewrite at_insert_eq by (rewrite (proj2 Hws'); lia).
        by destruct (Nat.leb_spec i p), (Nat.ltb_spec p (S p)); try lia.
      * rewrite at_insert_ne, Hj by lia.
        destruct (Nat.leb_spec i j), (Nat.ltb_spec j p), (Nat.ltb_spec j (S p)); lia || done.
Qed.

Section WideSetBits.
Context (n : nat) (ws : list Z) (Hws : array_ok 64 n ws) (low high : Z).
Context (Hlow : 0 <= low < high) (Hhigh : high <= 64 * Z.of_nat n).

Let lw : nat := Z.to_nat (low / 64).
Let hw : nat := Z.to_nat (high / 64).

Lemma words_split : 
  Z.of_nat lw = low / 64 /\ Z.of_nat hw = high / 64 /\ low = 64 * Z.of_nat lw + low mod 64 /\
  high = 64 * Z.of_nat hw + high mod 64 /\ 0 <= low mod 64 < 64 /\ 0 <= high mod 64 < 64 /\
  (lw < n)%nat /\ (lw <= hw)%nat.
Proof using Hlow Hhigh.
  pose proof (Z.div_mod low 64 ltac:(lia)). pose proof (Z.mod_pos_bound low 64 ltac:(lia)).
  pose proof (Z.div_mod high 64 ltac:(lia)). pose proof (Z.mod_pos_bound high 64 ltac:(lia)).
  pose proof (Z.div_pos low 64). pose proof (Z.div_pos high 64).
  assert (Z.of_nat lw = low / 64) by (unfold lw; lia). assert (Z.of_nat hw = high / 64) by (unfold hw; lia).
  split_and!; lia.
Qed.

(** The two ends: the mask of the low word, and the high word when it is another one. *)
Lemma set_high_end :
  wp (let lMask := shl 64 kAllOnes (low mod 64) in
      if negb (high mod 64 =? 0) then
        let hMask := shr 64 kAllOnes (kWordBitSize - high mod 64) in
        if low / 64 =? high / 64 then Ret (Z.land lMask hMask, ws)
        else
          w ← rd ws hw;
          ws ← wr ws hw (Z.lor w hMask);
          Ret (lMask, ws)
      else Ret (lMask, ws))
    (fun r => array_ok 64 n (snd r) /\ 0 <= fst r < 2 ^ 64 /\
      (forall r', 0 <= r' < 64 -> Z.testbit (fst r) r' = in_range low high (64 * Z.of_nat lw + r')) /\
      (forall k r', (k < n)%nat -> 0 <= r' < 64 -> Z.testbit (snd r).[k] r' =
         ((k =? hw)%nat && negb (lw =? hw)%nat && (r' <? high mod 64)) || Z.testbit ws.[k] r')).
Proof using Hws Hlow Hhigh.
  destruct words_split as (El & Eh & Elow & Ehigh & Hlr & Hhr & Hln & Hlh). pose proof (proj2 Hws) as Hl.
  assert (0 <= shl 64 kAllOnes (low mod 64) < 2 ^ 64) as HlM by (apply shl_in_word; lia).
  assert (0 <= shr 64 kAllOnes (kWordBitSize - high mod 64) < 2 ^ 64) as HhM.
  { apply shr_in_word; [lia|]. change kAllOnes with (2 ^ 64 - 1). lia. }
  cbv zeta. destruct (Z.eqb_spec (high mod 64) 0) as [E0|E0]; cbn [negb].
  - apply wp_ret. cbn [fst snd]. split_and!; [done|lia|lia| |].
    + intros r Hr. rewrite low_mask by lia. unfold in_range. bool_cases.
    + intros k r Hk Hr. rewrite E0. bool_cases.
  - destruct (Z.eqb_spec (low / 64) (high / 64)) as [Esame|Ediff].
    + apply wp_ret. cbn [fst snd]. split; [done|]. split; [apply land_in_word; lia|]. split.
      * intros r Hr. rewrite Z.land_spec, low_mask, high_mask by lia. unfold in_range. bool_cases.
      * intros k r Hk Hr. bool_cases.
    + apply wp_bind, wp_rd; [lia|]. apply wp_bind, wp_wr; [lia|]. apply wp_ret. cbn [fst snd].
      split; [apply array_ok_wr; [done|]; apply lor_in_word; [lia|by apply (array_ok_at 64 n)|done]|].
      split; [done|]. split.
      * intros r Hr. rewrite low_mask by lia. unfold in_range. bool_cases.
      * intros k r Hk Hr. destruct (decide (k = hw)) as [->|Hne].
        -- rewrite at_insert_eq, Z.lor_spec, high_mask by lia. rewrite orb_comm. bool_cases.
        -- rewrite at_insert_ne by done. bool_cases.
Qed.

Lemma WideSetBits_spec :
  wp (WideSetBits ws low high) (fun ws' => array_ok 64 n ws' /\ forall k r, (k < n)%nat -> 0 <= r < 64 ->
    Z.testbit ws'.[k] r = in_range low high (64 * Z.of_nat k + r) || Z.testbit ws.[k] r).
Proof using Hws Hlow Hhigh.
  destruct words_split as (El & Eh & Elow & Ehigh & Hlr & Hhr & Hln & Hlh).
  apply wp_bind. eapply wp_mono; [exact set_high_end|].
  intros [lMask ws1] (Hws1 & HlM & Hbits & Hold). cbn [fst snd] in *. pose proof (proj2 Hws1).
  apply wp_bind, wp_rd; [exact (eq_ind_r _ Hln H)|]. apply wp_bind, wp_wr; [exact (eq_ind_r _ Hln H)|].
  unfold WordNumber, kWordBitSize. fold lw.
  replace (Z.to_nat (high / 64 - (low / 64 + 1))) with (hw - (lw + 1))%nat by lia.
  replace (Z.to_nat (low / 64 + 1)) with (lw + 1)%nat by lia.
  eapply wp_mono; [apply (fill_loop n); [apply array_ok_wr; [done|]|lia]|].
  { apply lor_in_word; [lia|by apply (array_ok_at 64 n)|done]. }
  intros ws' [Hws' Hj]. split; [done|]. intros k r Hk Hr. rewrite Hj. clear Hj.
  destruct ((lw + 1 <=? k) && (k <? lw + 1 + (hw - (lw + 1))))%nat eqn:Ein.
  - apply andb_true_iff in Ein as [E1 E2]. apply Nat.leb_le in E1. apply Nat.ltb_lt in E2.
    unfold kAllOnes, ones. rewrite testbit_ones by lia. unfold in_range. bool_cases.
  - assert (k <= lw \/ hw <= k)%nat as Hout.
    { apply andb_false_iff in Ein as [E|E]; [apply Nat.leb_gt in E|apply Nat.ltb_ge in E]; lia. }
    destruct (decide (k = lw)) as [->|Hne].
    + rewrite at_insert_eq, Z.lor_spec, Hbits, Hold by lia.
      destruct (Nat.eqb_spec lw hw); cbn [negb andb orb]; apply orb_comm.
    + rewrite at_insert_ne, Hold by done. unfold in_range. bool_cases.
Qed.
End WideSetBits.

Lemma SetBits_spec x low high :
  wf x -> 0 <= low <= high -> high <= width x ->
  wp (SetBits x low high) (fun r => wf r /\ width r = width x /\ sign r = sign x /\
    forall i, 0 <= i -> Z.testbit (uval r) i = in_range low high i || Z.testbit (uval x) i).
Proof.
  intros Hx Hlow Hhigh. unfold SetBits. rewrite !assert_le by lia. cbn [mbind res_bind].
  destruct (Z.eqb_spec low high) as [->|Hne].
  { apply wp_ret. split_and!; try done. intros i Hi. unfold in_range. bool_cases. }
  destruct ((low <? kWordBitSize) && (high <=? kWordBitSize)) eqn:Hsmall; unfold kWordBitSize at 1 2 in Hsmall.
  - apply andb_true_iff in Hsmall as [Hs1 Hs2]. apply Z.ltb_lt in Hs1. apply Z.leb_le in Hs2.
    set (mask := shl 64 _ low).
    assert (forall i, 0 <= i -> Z.testbit mask i = in_range low high i) as Hmask
      by (intros; apply range_mask; lia).
    assert (0 <= mask < 2 ^ 64) as HmR by (apply shl_in_word; lia).
    destruct Hx as [v w s Hw Hv|us n s Hn Hus]; cbn [width] in *.
    + rewrite IsOneWord_one by done. apply wp_ret. unfold set_u. cbn [width sign uval u].
      split_and!; try done.
      * constructor; [done|]. apply in_word_bits; [lia|apply Z.lor_nonneg; lia|].
        intros i Hi. rewrite Z.lor_spec, (testbit_above w), Hmask by lia. unfold in_range. bool_cases.
      * intros i Hi. by rewrite Z.lor_spec, Hmask, orb_comm.
    + rewrite IsOneWord_many by lia. cbn [u_pValue u mbind res_bind]. pose proof (proj2 Hus).
      apply wp_bind, wp_rd; [lia|]. apply wp_bind, wp_wr; [lia|]. apply wp_ret.
      unfold set_u. cbn [width sign uval u].
      assert (array_ok 64 n (<[0%nat := Z.lor us.[0] mask]> us)) as Hok.
      { apply array_ok_wr; [done|]. apply lor_in_word; [lia|by apply (array_ok_at 64 n)|done]. }
      split_and!; try done; [by constructor|]. intros i Hi.
      rewrite !testbit_eval by (lia || apply Hok || apply Hus).
      pose proof (Z.div_mod i 64 ltac:(lia)). pose proof (Z.mod_pos_bound i 64 ltac:(lia)).
      pose proof (Z.div_pos i 64 ltac:(lia) ltac:(lia)).
      destruct (decide (i < 64)).
      * rewrite Z.div_small, Z.mod_small by lia. change (Z.to_nat 0) with 0%nat.
        by rewrite at_insert_eq, Z.lor_spec, Hmask, orb_comm by lia.
      * rewrite at_insert_ne by lia. unfold in_range. bool_cases.
  - destruct Hx as [v w s Hw Hv|us n s Hn Hus]; cbn [width] in *.
    { exfalso. apply andb_false_iff in Hsmall as [E|E]; [apply Z.ltb_ge in E|apply Z.leb_gt in E]; lia. }
    cbn [u_pValue u mbind res_bind]. apply wp_bind.
    eapply wp_mono; [apply (WideSetBits_spec n us Hus low high); lia|].
    intros ws' [Hws' Hb]. apply wp_ret. unfold set_u. cbn [width sign uval u].
    split_and!; try done; [by constructor|]. intros i Hi.
    destruct (decide (i < 64 * Z.of_nat n)).
    + pose proof (Z.div_mod i 64 ltac:(lia)). pose proof (Z.mod_pos_bound i 64 ltac:(lia)).
      pose proof (Z.div_pos i 64 ltac:(lia) ltac:(lia)).
      rewrite !testbit_eval, Hb by (lia || apply Hws' || apply Hus). do 2 f_equal. lia.
    + rewrite !(testbit_above (64 * Z.of_nat n)) by (lia || by apply array_ok_eval).
      unfold in_range. bool_cases.
Qed.
