(* ===== verification/IntValDiv.v ===== *)
(** * IntVal: absolute value, division and remainder

    The quotient truncates towards zero and the remainder has the sign of the
    dividend, for one word and for the schoolbook division on many. *)
From S2P Require Import Prelude.
From S2P Require Import PrimTypes.
From S2P Require Import IntWords.
From S2P Require Import IntWordsFacts.
From S2P Require Import IntDivFacts.
From S2P Require Import IntVal.
From S2P Require Import IntValFacts.
From S2P Require Import IntValArith.
From S2P Require Import IntValOrder.
From S2P Require Import IntValCount.

Lemma Abs_eq x : wf x -> Abs x = Ret (repr (width x) false (Z.abs (ival x))).
Proof.
  intros Hx. pose proof (wf_width x Hx). pose proof (wf_uval x Hx) as Hu.
  pose proof (wf_valid x Hx) as Hw. unfold Abs. destruct (sign x) eqn:Hs; cbn [negb].
  - rewrite IntVal_resign_spec by done. cbn [mbind res_bind].
    rewrite GetSignBit_spec by done. cbn [mbind res_bind].
    assert (ival x = if Z.testbit (uval x) (width x - 1) then uval x - 2 ^ width x else uval x) as ->.
    { unfold ival. rewrite Hs. apply swrap_top; lia. }
    destruct (Z.testbit (uval x) (width x - 1)).
    + rewrite op_neg_eq by (by apply repr_wf). cbn [width sign repr]. f_equal.
      apply repr_congr; [done|]. rewrite uval_repr by done. rewrite (wrap_small _ (uval x)) by done.
      rewrite Z.abs_neq by lia. apply (wrap_congr _ _ _ (-1)); lia.
    + rewrite IntVal_copy_spec by (by apply repr_wf). by rewrite Z.abs_eq by lia.
  - rewrite IntVal_copy_spec by done. f_equal. rewrite unsigned_ival, Z.abs_eq by (done || lia).
    rewrite <- Hs. by apply repr_of_wf.
Qed.

(** ** The 32-bit view of the words *)

Lemma as_uint32_spec ws n :
  array_ok 64 n ws -> array_ok 32 (2 * n) (as_uint32 ws) /\ eval 32 (as_uint32 ws) = eval 64 ws.
Proof.
  intros [Hw <-]. induction Hw as [|w ws Hw Hws [[IH1 IH2] IH3]]; [by repeat constructor|].
  destruct (GetLoHi_spec w Hw) as (E & Hl & Hh).
  cbn [as_uint32 flat_map app]. fold (as_uint32 ws). split; [split|].
  - constructor; [done|]. by constructor.
  - cbn [length]. rewrite IH2. cbn [length]. lia.
  - cbn [eval]. rewrite IH3. change (2 ^ 64) with (2 ^ 32 * 2 ^ 32). lia.
Qed.

Lemma as_uint64_spec n hs :
  array_ok 32 (2 * n) hs -> array_ok 64 n (as_uint64 hs) /\ eval 64 (as_uint64 hs) = eval 32 hs.
Proof.
  revert hs. induction n as [|n IH]; intros hs [Hw Hl].
  { destruct hs; [|done]. by repeat constructor. }
  destruct hs as [|l [|h hs]]; cbn in Hl; try lia.
  apply Forall_cons in Hw as [Hlo Hw]. apply Forall_cons in Hw as [Hhi Hw].
  destruct (IH hs) as [[IH1 IH2] IH3]; [split; [done|lia]|].
  pose proof (CombineLoHi_spec l h Hlo Hhi) as E. cbn [as_uint64 eval]. split; [split|].
  - constructor; [lia|done].
  - cbn [length]. lia.
  - rewrite IH3, E. change (2 ^ 64) with (2 ^ 32 * 2 ^ 32). lia.
Qed.

Lemma CopyUint32ToUint64_spec n src k :
  words 32 src -> (k <= length src)%nat -> (k <= 2 * n)%nat ->
  wp (CopyUint32ToUint64 n src k) (fun ws => array_ok 64 n ws /\ eval 64 ws = eval 32 (take k src)).
Proof.
  intros Hw Hk Hn. unfold CopyUint32ToUint64. apply wp_bind, wp_assert; [apply Nat.leb_le; lia|].
  apply wp_bind, wp_slice; [lia|]. rewrite drop_0.
  apply wp_bind, wp_blit; [rewrite length_replicate, length_take; lia|]. apply wp_ret.
  rewrite take_0, drop_replicate. cbn [app].
  assert (array_ok 32 (2 * n) (take k src ++ replicate (2 * n - (0 + length (take k src))) 0)) as Hok.
  { split; [apply Forall_app; split; [by apply Forall_take|apply zeros_ok; lia]|].
    rewrite length_app, length_replicate, length_take. lia. }
  destruct (as_uint64_spec n _ Hok) as [H1 H2]. split; [done|].
  by rewrite H2, eval_app, eval_replicate_0, Z.mul_0_r, Z.add_0_r by lia.
Qed.

(** ** Unsigned division of wide values *)

Lemma GetNumHalfWords_spec b :
  0 < b <= 16320 ->
  1 <= GetNumHalfWords b /\ 32 * (GetNumHalfWords b - 1) < b <= 32 * GetNumHalfWords b.
Proof.
  intros Hb. unfold GetNumHalfWords. rewrite wrap_small by lia.
  pose proof (Z.div_mod (b + 32 - 1) 32 ltac:(lia)).
  pose proof (Z.mod_pos_bound (b + 32 - 1) 32 ltac:(lia)). lia.
Qed.

(** The low [k] words hold a value of at most [tb k] bits. *)
Lemma eval_take_small tb n ws k :
  0 < tb -> array_ok tb n ws -> (k <= n)%nat -> eval tb ws < 2 ^ (tb * Z.of_nat k) ->
  eval tb (take k ws) = eval tb ws.
Proof.
  intros Htb [Hw Hl] Hk Hlt. pose proof (eval_take_drop tb Htb ws k ltac:(lia)) as Ed.
  pose proof (eval_range tb Htb (take k ws) (Forall_take _ _ _ Hw)) as Ht.
  pose proof (eval_ge0 tb Htb (drop k ws) (Forall_drop _ _ _ Hw)).
  pose proof (pow2_pos (tb * Z.of_nat k) ltac:(lia)).
  destruct (decide (eval tb (drop k ws) = 0)) as [E0|]; [rewrite E0 in Ed; lia|].
  rewrite length_take_le in Ht by lia. nia.
Qed.

Lemma low_halves ws n k :
  array_ok 64 n ws -> (k <= 2 * n)%nat -> eval 64 ws < 2 ^ (32 * Z.of_nat k) ->
  array_ok 32 k (take k (as_uint32 ws)) /\ eval 32 (take k (as_uint32 ws)) = eval 64 ws.
Proof.
  intros Hws Hk Hlt. destruct (as_uint32_spec ws n Hws) as [Hok E]. destruct Hok as [Hw Hl].
  split; [split; [by apply Forall_take|rewrite length_take; lia]|].
  rewrite (eval_take_small 32 (2 * n) (as_uint32 ws) k ltac:(lia) (conj Hw Hl)); [done|done|by rewrite E].
Qed.

(** The top word of a value of more than [tb (k - 1)] bits is not zero. *)
Lemma top_nonzero tb k ws :
  0 < tb -> array_ok tb k ws -> (1 <= k)%nat -> 2 ^ (tb * Z.of_nat (k - 1)) <= eval tb ws ->
  ws.[k - 1] <> 0.
Proof.
  intros Htb Hws Hk Hge E0. destruct (eval_top tb k ws Htb Hws Hk) as (l & E & Hl).
  rewrite E0 in E. lia.
Qed.

Lemma top_zero tb k ws :
  0 < tb -> array_ok tb k ws -> (1 <= k)%nat -> eval tb ws < 2 ^ (tb * Z.of_nat (k - 1)) ->
  ws.[k - 1] = 0.
Proof.
  intros Htb Hws Hk Hlt. destruct (eval_top tb k ws Htb Hws Hk) as (l & E & Hl).
  pose proof (array_ok_at tb k ws (k - 1) Htb Hws). nia.
Qed.

(** Normalisation, division and the shift back: quotient and remainder of [a]
    by [b], before they are copied out. *)
Lemma divide_halves n m a b (K : list Z -> list Z -> res (IntVal * IntVal)) Q :
  (1 <= n)%nat -> (1 <= m)%nat -> Z.of_nat (n + m) * 32 + 32 < 2 ^ 16 ->
  array_ok 32 (n + m) a -> array_ok 32 n b -> eval 32 a < 2 ^ (32 * Z.of_nat (n + m - 1)) ->
  2 ^ (32 * Z.of_nat (n - 1)) <= eval 32 b ->
  (forall q r, array_ok 32 (m + 1) q -> array_ok 32 (n + m) r ->
     eval 32 q = eval 32 a / eval 32 b -> eval 32 r = eval 32 a mod eval 32 b -> wp (K q r) Q) ->
  wp (norm ← Normalize a b n m;
      let '(k, a, b) := norm in
      qr ← BasecaseDivRem (replicate (m + 1) 0) a b n m;
      let '(q, r) := qr in
      r ← ShiftRight 32 r (n + m) k false;
      K q r) Q.
Proof.
  intros Hn Hm Hsz Ha Hb HA HB HK. apply wp_bind.
  eapply wp_mono; [apply Normalize_spec; auto; apply (top_nonzero 32 n); auto; lia|].
  intros [[k a'] b'] (Hk & Hb' & Ha' & Ea' & Eb' & Htop).
  apply wp_bind. eapply wp_mono; [apply BasecaseDivRem_spec; auto|].
  { split; [apply zeros_ok; lia|apply length_replicate]. }
  intros [q r] (Hq & Hr & Eq & Hrr). cbn [fst snd] in *.
  pose proof (pow2_pos k ltac:(lia)) as Hpk. rewrite Ea', Eb' in Eq. rewrite Eb' in Hrr.
  set (A := eval 32 a) in *. set (B := eval 32 b) in *.
  assert (eval 32 r = (A - eval 32 q * B) * 2 ^ k) as Er by lia.
  apply wp_bind. eapply wp_mono; [apply ShiftRight_spec; [lia|done|lia]|].
  intros r' [Hr' Er']. cbn [signed_fill] in Er'.
  rewrite Er, Z.shiftr_div_pow2, Z.div_mul in Er' by lia.
  assert (0 <= A - eval 32 q * B < B) as HR by nia.
  pose proof (array_ok_eval 32 n b ltac:(lia) Hb) as HBr. fold B in HBr.
  assert (2 ^ (32 * Z.of_nat n) <= 2 ^ (32 * Z.of_nat (n + m))) by (apply Z.pow_le_mono_r; lia).
  rewrite wrap_small in Er' by lia. apply HK; [done|done| |].
  - apply (Z.div_unique_pos _ _ _ (A - eval 32 q * B)); lia.
  - rewrite Er'. apply (Z.mod_unique_pos _ _ (eval 32 q)); lia.
Qed.

(** The quotient of [n + m - 1] halves by [n] significant halves has [m]. *)
Lemma quotient_halves n m A B :
  (1 <= n)%nat -> (1 <= m)%nat -> 0 <= A < 2 ^ (32 * Z.of_nat (n + m - 1)) ->
  2 ^ (32 * Z.of_nat (n - 1)) <= B -> 0 <= A / B < 2 ^ (32 * Z.of_nat m).
Proof.
  intros Hn Hm HA HB. pose proof (pow2_pos (32 * Z.of_nat (n - 1)) ltac:(lia)).
  split; [apply Z.div_pos; lia|]. apply Z.div_lt_upper_bound; [lia|].
  assert (2 ^ (32 * Z.of_nat (n + m - 1)) = 2 ^ (32 * Z.of_nat (n - 1)) * 2 ^ (32 * Z.of_nat m)) as E.
  { rewrite <- pow_limb_add by lia. do 2 f_equal. lia. }
  pose proof (pow2_pos (32 * Z.of_nat m) ltac:(lia)). nia.
Qed.

(** The copies of the operands: [n] halves of the divisor, and [n + m - 1]
    halves of the dividend below a zero. *)
Lemma operand_halves dws vws nw n m (K : list Z -> list Z -> res (IntVal * IntVal)) Q :
  array_ok 64 nw dws -> array_ok 64 nw vws ->
  (1 <= n)%nat -> (1 <= m)%nat -> (n + m - 1 <= 2 * nw)%nat ->
  eval 64 dws < 2 ^ (32 * Z.of_nat (n + m - 1)) -> eval 64 vws < 2 ^ (32 * Z.of_nat n) ->
  (forall a b, array_ok 32 (n + m) a -> array_ok 32 n b -> eval 32 a = eval 64 dws ->
     eval 32 b = eval 64 vws -> wp (K a b) Q) ->
  wp (asrc ← slice (as_uint32 dws) 0 (n + m - 1);
      a ← blit (replicate (n + m) 0) 0 asrc;
      a ← wr a (n + m - 1) 0;
      b ← slice (as_uint32 vws) 0 n;
      K a b) Q.
Proof.
  intros Hd Hv Hn Hm Hsz HA HB HK.
  destruct (low_halves dws nw (n + m - 1) Hd Hsz HA) as [Ha0 Ea0].
  destruct (low_halves vws nw n Hv ltac:(lia) HB) as [Hb Eb].
  destruct (as_uint32_spec dws nw Hd) as [[_ Hld] _]. destruct (as_uint32_spec vws nw Hv) as [[_ Hlv] _].
  apply wp_bind, wp_slice; [lia|]. rewrite drop_0.
  set (a0 := take (n + m - 1) (as_uint32 dws)) in *. pose proof (proj2 Ha0) as Hla.
  apply wp_bind, wp_blit; [rewrite length_replicate; lia|].
  rewrite take_0, drop_replicate, Hla. cbn [app].
  replace (n + m - (0 + (n + m - 1)))%nat with 1%nat by lia.
  apply wp_bind, wp_wr; [rewrite length_app; cbn; lia|].
  rewrite insert_app_r_alt by lia. rewrite Hla, Nat.sub_diag.
  change (<[0%nat := 0]> (replicate 1 0)) with [0].
  apply wp_bind, wp_slice; [lia|]. rewrite drop_0. apply HK; [|done| |done].
  - split; [apply Forall_app; split; [apply Ha0|repeat constructor; lia]|].
    rewrite length_app. cbn. lia.
  - rewrite eval_app by lia. cbn [eval]. lia.
Qed.

Lemma IntVal_ptr_words ws n s :
  (2 <= n <= 255)%nat -> array_ok 64 n ws ->
  IntVal_ptr ws (64 * Z.of_nat n) s = Ret (repr (64 * Z.of_nat n) s (eval 64 ws)).
Proof.
  intros Hn Hws. pose proof (proj2 Hws). apply IntVal_ptr_spec; [right; eauto|apply Hws|lia|lia].
Qed.

(** The case of two significant words or more. *)
Lemma wide_division dws vws nw :
  (2 <= nw <= 255)%nat -> array_ok 64 nw dws -> array_ok 64 nw vws ->
  0 < eval 64 vws <= eval 64 dws ->
  let n := GetNumHalfWords (Z.max (nbits (eval 64 vws)) 1) in
  let m := wrap 16 (wrap 16 (GetNumHalfWords (Z.max (nbits (eval 64 dws)) 1) - n) + 1) in
  let n := Z.to_nat n in
  let m := Z.to_nat m in
  wp (asrc ← slice (as_uint32 dws) 0 (n + m - 1);
      a ← blit (replicate (n + m) 0) 0 asrc;
      a ← wr a (n + m - 1) 0;
      b ← slice (as_uint32 vws) 0 n;
      norm ← Normalize a b n m;
      let '(k, a, b) := norm in
      qr ← BasecaseDivRem (replicate (m + 1) 0) a b n m;
      let '(q, r) := qr in
      r ← ShiftRight 32 r (n + m) k false;
      qm ← rd q m;
      _ ← ASSERT (qm =? 0);
      quotient ← CopyUint32ToUint64 nw q m;
      remainder ← CopyUint32ToUint64 nw r (n + m - 1);
      uQuotient ← IntVal_ptr quotient (64 * Z.of_nat nw) false;
      uRemainder ← IntVal_ptr remainder (64 * Z.of_nat nw) false;
      Ret (uQuotient, uRemainder))
    (fun qr => qr = (repr (64 * Z.of_nat nw) false (eval 64 dws / eval 64 vws),
                     repr (64 * Z.of_nat nw) false (eval 64 dws mod eval 64 vws))).
Proof.
  intros Hnw Hd Hv Hle.
  pose proof (array_ok_eval 64 nw dws ltac:(lia) Hd) as HdR.
  pose proof (array_ok_eval 64 nw vws ltac:(lia) Hv) as HvR.
  pose proof (nbits_le _ (64 * Z.of_nat nw) ltac:(lia) HdR) as Hnd.
  pose proof (nbits_lower (eval 64 dws) ltac:(lia)) as Bd.
  pose proof (nbits_lower (eval 64 vws) ltac:(lia)) as Bv.
  assert (0 < nbits (eval 64 vws)) as Hv0.
  { apply Z.nle_gt. intros H0. apply nbits_le_iff in H0; [|lia..]. lia. }
  assert (nbits (eval 64 vws) <= nbits (eval 64 dws)) as Hmono.
  { apply nbits_le_iff; [apply nbits_ge0|lia|]. lia. }
  rewrite !Z.max_l by lia. cbv zeta.
  destruct (GetNumHalfWords_spec (nbits (eval 64 vws)) ltac:(lia)) as [Hn1 Hnb].
  destruct (GetNumHalfWords_spec (nbits (eval 64 dws)) ltac:(lia)) as [Hd1 Hdb].
  set (hv := GetNumHalfWords (nbits (eval 64 vws))) in *.
  set (hd := GetNumHalfWords (nbits (eval 64 dws))) in *.
  rewrite (wrap_small 16 (hd - hv)), (wrap_small 16 (hd - hv + 1)) by lia.
  set (n := Z.to_nat hv) in *. set (m := Z.to_nat (hd - hv + 1)) in *.
  assert (eval 64 dws < 2 ^ (32 * Z.of_nat (n + m - 1))) as HA.
  { eapply Z.lt_le_trans; [apply Bd|]. apply Z.pow_le_mono_r; lia. }
  assert (2 ^ (32 * Z.of_nat (n - 1)) <= eval 64 vws < 2 ^ (32 * Z.of_nat n)) as HB.
  { split; [etrans; [|apply Bv]|eapply Z.lt_le_trans; [apply Bv|]]; apply Z.pow_le_mono_r; lia. }
  apply (operand_halves dws vws nw n m); auto; try lia. intros a b Ha Hb Ea Eb.
  apply divide_halves; auto; try lia. intros q r Hq Hr Eq Er. rewrite Ea, Eb in Eq, Er.
  destruct (quotient_halves n m (eval 64 dws) (eval 64 vws)) as [Hq0 HqR]; try lia.
  apply wp_bind, wp_rd; [rewrite (proj2 Hq); lia|].
  assert (q.[m] = 0) as ->.
  { replace m with (m + 1 - 1)%nat by lia. apply (top_zero 32 (m + 1)); [lia|done|lia|].
    rewrite Eq. by replace (m + 1 - 1)%nat with m by lia. }
  apply wp_bind, wp_assert; [done|]. apply wp_bind.
  eapply wp_mono; [apply CopyUint32ToUint64_spec; [apply Hq|rewrite (proj2 Hq); lia|lia]|].
  intros q64 [Hq64 Eq64]. apply wp_bind.
  eapply wp_mono; [apply CopyUint32ToUint64_spec; [apply Hr|rewrite (proj2 Hr); lia|lia]|].
  intros r64 [Hr64 Er64].
  rewrite (eval_take_small 32 (m + 1)) in Eq64 by (lia || done).
  rewrite (eval_take_small 32 (n + m)) in Er64; [|lia|done|lia|].
  2:{ rewrite Er. pose proof (Z.mod_pos_bound (eval 64 dws) (eval 64 vws) ltac:(lia)). lia. }
  rewrite !IntVal_ptr_words by done. cbn [mbind res_bind]. apply wp_ret. congruence.
Qed.

Lemma WideUnsignedDivRem_eq x y :
  wf x -> wf y -> width x = width y -> sign x = false -> sign y = false -> 64 < width x ->
  0 < uval y <= uval x ->
  WideUnsignedDivRem x y =
  Ret (repr (width x) false (uval x / uval y), repr (width x) false (uval x mod uval y)).
Proof.
  intros Hx Hy Ew Hsx Hsy Hwide Hle.
  unfold WideUnsignedDivRem. rewrite same_type_intro by congruence.
  rewrite !IsOneSignificantWord_unsigned, !CountSignificantBits_unsigned by done.
  rewrite Hsx. unfold IsOneWord, IsOneWord_width, kWordBitSize.
  destruct (Z.leb_spec (width x) 64); [lia|]. cbn [negb andb ASSERT mbind res_bind].
  pose proof (wf_uval y Hy) as Huy. pose proof (wf_valid x Hx) as Hvw.
  operands x y Hx Hy Ew (eq_trans Hsx (eq_sym Hsy)); cbn [width] in *; [lia|].
  cbn [u_pValue u mbind res_bind width sign uval] in *. subst s.
  pose proof (proj2 Hus). pose proof (proj2 Hvs).
  destruct (Z.leb_spec (nbits (eval 64 us)) 64) as [Hsmall|Hbig]; cbn [mbind res_bind];
    [destruct (Z.leb_spec (nbits (eval 64 vs)) 64) as [Hs2|Hs2]; cbn [mbind res_bind]|].
  - apply nbits_le_iff in Hsmall; [|lia..]. apply nbits_le_iff in Hs2; [|lia..].
    assert (forall ws, array_ok 64 n ws -> eval 64 ws < 2 ^ 64 -> ws.[0] = eval 64 ws) as Hlow.
    { intros ws Hws Hlt. rewrite <- (eval_take_small 64 n ws 1) by (done || lia).
      rewrite eval_take_S, take_0 by (rewrite ?(proj2 Hws); lia). cbn [eval].
      change (2 ^ (64 * Z.of_nat 0)) with 1. lia. }
    apply wp_eq, wp_bind, wp_rd; [lia|]. apply wp_bind, wp_rd; [lia|].
    rewrite !Hlow by done. destruct (Z.eqb_spec (eval 64 vs) 0); [lia|]. cbn [mbind res_bind].
    rewrite !IntVal_int_spec by done. cbn [mbind res_bind]. apply wp_ret.
    pose proof (Z.mod_pos_bound (eval 64 us) (eval 64 vs) ltac:(lia)).
    assert (0 <= eval 64 us / eval 64 vs < 2 ^ 64).
    { split; [apply Z.div_pos; lia|]. apply Z.div_lt_upper_bound; nia. }
    by rewrite !wrap_small by lia.
  - exfalso. apply Z.nle_gt in Hs2. apply Hs2. apply nbits_le_iff; [lia..|].
    apply nbits_le_iff in Hsmall; lia.
  - rewrite numWords_many by lia. apply wp_eq. by apply wide_division.
Qed.

(** ** Signed and unsigned division *)

(** Quotient and remainder from those of the magnitudes. *)
Lemma quot_of_abs a b :
  b <> 0 ->
  Z.quot a b = (if negb (eqb (b <? 0) (a <? 0)) then - (Z.abs a / Z.abs b) else Z.abs a / Z.abs b) /\
  Z.rem a b = (if a <? 0 then - (Z.abs a mod Z.abs b) else Z.abs a mod Z.abs b).
Proof.
  intros Hb. pose proof (Z.quot_div a b Hb) as Hq. pose proof (Z.rem_mod a b Hb) as Hr.
  destruct (Z.ltb_spec a 0), (Z.ltb_spec b 0); cbn [eqb negb];
    rewrite ?(Z.sgn_neg a), ?(Z.sgn_neg b), ?(Z.sgn_pos b) in * by lia;
    (destruct (decide (a = 0)) as [->|]; [rewrite Z.abs_0, Z.quot_0_l, Z.rem_0_l, Z.div_0_l, Z.mod_0_l by lia; lia|]);
    rewrite ?(Z.sgn_pos a) in * by lia; lia.
Qed.

(** The sign test of the operands. *)
Lemma is_neg_eq x : wf x -> (if sign x then GetSignBit x else Ret false) = Ret (ival x <? 0).
Proof.
  intros Hx. unfold ival. destruct (sign x).
  - by rewrite GetSignBit_spec, sign_bit_swrap by done.
  - f_equal. symmetry. apply Z.ltb_ge. apply (wf_uval x Hx).
Qed.

Lemma abs_range x : wf x -> 0 <= Z.abs (ival x) < 2 ^ width x.
Proof.
  intros Hx. pose proof (ival_range x Hx) as Hr. pose proof (wf_width x Hx).
  pose proof (pow2_half (width x)). pose proof (pow2_pos (width x - 1)). destruct (sign x); lia.
Qed.

Lemma uval_abs x : wf x -> uval (repr (width x) false (Z.abs (ival x))) = Z.abs (ival x).
Proof.
  intros Hx. pose proof (abs_range x Hx).
  rewrite uval_repr by (by apply wf_valid). by apply wrap_small.
Qed.

Lemma neg_resigned w s v (b : bool) :
  valid_width w -> 
  (q ← IntVal_resign (repr w false v) s; if b then op_neg q else Ret q) =
  Ret (repr w s (if b then - v else v)).
Proof.
  intros Hw. pose proof (valid_width_range w Hw).
  rewrite IntVal_resign_spec by (by apply repr_wf). cbn [mbind res_bind width repr].
  rewrite uval_repr, repr_wrap by done. destruct b; [|done].
  rewrite op_neg_eq by (by apply repr_wf). cbn [width sign repr]. f_equal.
  apply repr_congr; [done|]. rewrite uval_repr by done.
  rewrite <- Z.sub_0_l, wrap_sub_r. f_equal.
Qed.

(** Only a signed quotient can be negative. *)
Lemma unsigned_same_sign x y :
  wf x -> wf y -> sign x = sign y ->
  negb (eqb (ival y <? 0) (ival x <? 0)) = sign x && negb (eqb (ival y <? 0) (ival x <? 0)).
Proof.
  intros Hx Hy Es. pose proof (ival_range x Hx). pose proof (ival_range y Hy). rewrite <- Es in *.
  destruct (sign x); [done|]. destruct (Z.ltb_spec (ival y) 0), (Z.ltb_spec (ival x) 0); lia || done.
Qed.

(** The magnitude of a value, of its width *)
Definition magnitude_of (x : IntVal) : IntVal := repr (width x) false (Z.abs (ival x)).

(** Given the comparison of the magnitudes, WideDivRem divides. *)
Lemma WideDivRem_compared_eq x y :
  wf x -> wf y -> width x = width y -> sign x = sign y -> 64 < width x -> ival y <> 0 ->
  WideDivRem_compared x (magnitude_of x) (magnitude_of y) (negb (eqb (ival y <? 0) (ival x <? 0)))
    (ival x <? 0) (Z.abs (ival x) <? Z.abs (ival y)) =
  Ret (repr (width x) (sign x) (Z.quot (ival x) (ival y)), repr (width x) (sign x) (Z.rem (ival x) (ival y))).
Proof.
  intros Hx Hy Ew Es Hwide Hnz. pose proof (wf_valid x Hx) as Hvx.
  destruct (quot_of_abs (ival x) (ival y) Hnz) as [-> ->]. unfold WideDivRem_compared, magnitude_of. rewrite <- Ew.
  set (X := repr (width x) false (Z.abs (ival x))). set (Y := repr (width x) false (Z.abs (ival y))).
  assert (wf X) as HX by by apply repr_wf. assert (wf Y) as HY by by apply repr_wf.
  assert (uval X = Z.abs (ival x)) as EX by by apply uval_abs.
  assert (uval Y = Z.abs (ival y)) as EY by (subst Y; rewrite Ew; by apply uval_abs).
  pose proof (abs_range x Hx). pose proof (abs_range y Hy).
  destruct (Z.ltb_spec (Z.abs (ival x)) (Z.abs (ival y))) as [Hlt|Hge].
  { rewrite IntVal_int_spec, IntVal_copy_spec by done. cbn [mbind res_bind].
    rewrite Z.div_small, Z.mod_small by lia. do 2 f_equal.
    - f_equal. by destruct (sign x), (negb _).
    - rewrite (repr_of_wf x Hx) at 1. apply repr_congr; [done|].
      rewrite <- (wrap_ival x Hx), wrap_wrap by (pose proof (wf_width x Hx); lia).
      f_equal. destruct (Z.ltb_spec (ival x) 0); lia. }
  rewrite op_eq_eq by done. rewrite (unsigned_ival X), (unsigned_ival Y), EX, EY by done. cbn [mbind res_bind].
  destruct (Z.eqb_spec (Z.abs (ival x)) (Z.abs (ival y))) as [Heq|Hne].
  - rewrite !IntVal_int_spec by done. cbn [mbind res_bind].
    rewrite Heq, Z.div_same, Z.mod_same by lia. do 2 f_equal.
    + f_equal. rewrite (unsigned_same_sign x y) by done. by destruct (negb _), (sign x).
    + f_equal. by destruct (sign x), (_ <? _).
  - rewrite WideUnsignedDivRem_eq by (done || lia). rewrite EX, EY.
    change (width X) with (width x). cbn [mbind res_bind fst snd].
    pose proof (neg_resigned (width x) (sign x) (Z.abs (ival x) / Z.abs (ival y))
      (negb (eqb (ival y <? 0) (ival x <? 0))) Hvx) as EQ.
    pose proof (neg_resigned (width x) (sign x) (Z.abs (ival x) mod Z.abs (ival y))
      (ival x <? 0) Hvx) as ER.
    rewrite !IntVal_resign_spec in * by (by apply repr_wf). cbn [mbind res_bind] in *.
    rewrite EQ. cbn [mbind res_bind]. rewrite ER. done.
Qed.

(** The comparison is of words, so WideDivRem does not get there. *)
Lemma WideDivRem_undefined x y :
  wf x -> wf y -> width x = width y -> sign x = sign y -> 64 < width x -> WideDivRem x y = Fault Undefined.
Proof.
  intros Hx Hy Ew Es Hwide. pose proof (wf_valid x Hx) as Hvx. unfold WideDivRem.
  rewrite (same_type_intro x y), !is_neg_eq, IsOneWord_above by done.
  cbn [negb ASSERT mbind res_bind]. rewrite !Abs_eq by done. cbn [mbind res_bind].
  rewrite op_lt_eq by (done || apply repr_wf; congruence). unfold ordered.
  by rewrite decide_True by (by split).
Qed.

(** What the assertions of the division operators ask for. *)
Definition div_ok (x y : IntVal) : Prop :=
  ival y <> 0 /\ ~ (sign x = true /\ ival x = min_of (width x) true /\ ival y = -1).

Lemma ival_all_ones y :
  wf y -> sign y = true -> (uval y =? 2 ^ width y - 1) = (ival y =? -1).
Proof.
  intros Hy Hs. pose proof (wf_width y Hy). pose proof (wf_uval y Hy). unfold ival.
  rewrite Hs, swrap_top, testbit_top by lia. pose proof (pow2_half (width y)).
  pose proof (pow2_pos (width y - 1)). apply eqb_of_iff.
  destruct (Z.leb_spec (2 ^ (width y - 1)) (uval y)); lia.
Qed.

Lemma ival_zero y : wf y -> (uval y =? 0) = (ival y =? 0).
Proof.
  intros Hy. pose proof (wf_width y Hy). pose proof (wf_uval y Hy). unfold ival.
  destruct (sign y); [|done]. rewrite swrap_top, testbit_top by lia. apply eqb_of_iff.
  pose proof (pow2_pos (width y - 1)).
  destruct (Z.leb_spec (2 ^ (width y - 1)) (uval y)); lia.
Qed.

Lemma div_asserts_eq x y :
  wf x -> wf y -> width x = width y -> sign x = sign y -> div_ok x y -> div_asserts x y = Ret tt.
Proof.
  intros Hx Hy Ew Es [Hnz Hov]. unfold div_asserts. rewrite same_type_intro by done.
  rewrite AreAllBitsZeros_eq, ival_zero by done. cbn [ASSERT mbind res_bind].
  destruct (Z.eqb_spec (ival y) 0); [lia|]. cbn [negb ASSERT mbind res_bind].
  destruct (sign x) eqn:Hs; [|done]. rewrite IsMinValue_eq, Hs by done. cbn [mbind res_bind].
  destruct (Z.eqb_spec (ival x) (min_of (width x) true)) as [Emin|]; cbn [negb]; [|done].
  rewrite AreAllBitsOne_eq, ival_all_ones by done. cbn [mbind res_bind].
  destruct (Z.eqb_spec (ival y) (-1)); [by destruct Hov|done].
Qed.

(** A zero divisor and the overflowing signed division are caught. *)
Lemma div_asserts_fail x y :
  wf x -> wf y -> width x = width y -> sign x = sign y -> ~ div_ok x y ->
  div_asserts x y = Fault AssertFail.
Proof.
  intros Hx Hy Ew Es Hno. unfold div_asserts. rewrite same_type_intro by done.
  rewrite AreAllBitsZeros_eq, ival_zero by done. cbn [ASSERT mbind res_bind].
  destruct (Z.eqb_spec (ival y) 0) as [E0|E0]; cbn [negb ASSERT mbind res_bind]; [done|].
  destruct (decide (sign x = true /\ ival x = min_of (width x) true /\ ival y = -1))
    as [(Hs & Emin & E1)|H]; [|destruct Hno; by split].
  rewrite Hs, IsMinValue_eq, Hs, Emin, Z.eqb_refl by done. cbn [mbind res_bind negb].
  rewrite AreAllBitsOne_eq, ival_all_ones, E1 by (done || congruence). done.
Qed.

Lemma magnitude_eq v w s :
  0 < w <= 64 -> 0 <= v < 2 ^ w ->
  let x := MkIntVal (Value v) w s in
  magnitude x (ival x <? 0) = Ret (Z.abs (ival x)).
Proof.
  intros Hw Hv x. assert (wf x) as Hx by by constructor. unfold magnitude.
  pose proof (abs_range x Hx) as Hr. destruct (Z.ltb_spec (ival x) 0) as [Hneg|Hpos].
  - rewrite op_neg_eq by done. cbn [mbind res_bind]. unfold u_value, repr. cbn [u width sign].
    rewrite IsOneWord_small by (cbn; lia). f_equal. subst x. cbn [width uval u] in *.
    unfold ival in *. cbn [sign width uval u] in *. destruct s; [|lia].
    rewrite swrap_top in * by lia. destruct (Z.testbit v (w - 1)); [|lia].
    apply (wrap_unique _ _ _ (-1)); lia.
  - rewrite Z.abs_eq by lia. cbn [u_value u x]. f_equal. unfold ival in *. cbn [sign width uval u x] in *.
    destruct s; [|done]. rewrite swrap_top in * by lia. destruct (Z.testbit v (w - 1)); [lia|done].
Qed.

(** The one-word branch of either operator, up to the sign of the result. *)
Lemma one_word_divrem w s a v (b : bool) :
  0 < w <= 64 -> 0 <= v < 2 ^ 64 -> v = Z.abs a -> a = (if b then - v else v) ->
  (q ← IntVal_int v w s; if b then op_neg q else Ret q) = Ret (repr w s a).
Proof.
  intros Hw Hv _ ->. assert (valid_width w) as Hvw by by left.
  rewrite (one_word_result' v w s v) by done. cbn [mbind res_bind]. destruct b; [|done].
  rewrite op_neg_eq by (by apply repr_wf). cbn [width sign repr]. f_equal.
  apply repr_congr; [done|]. rewrite uval_repr by done. rewrite <- Z.sub_0_l, wrap_sub_r. f_equal.
Qed.

Lemma divrem_range a b m : 0 <= a < m -> 0 < b -> 0 <= a / b < m /\ 0 <= a mod b < m.
Proof.
  intros Ha Hb. split.
  - split; [apply Z.div_pos; lia|]. apply Z.div_lt_upper_bound; nia.
  - split; [apply Z.mod_pos_bound; lia|]. eapply Z.le_lt_trans; [apply Z.mod_le; lia|lia].
Qed.

Lemma op_div_eq x y :
  wf x -> wf y -> width x = width y -> sign x = sign y -> width x <= 64 -> div_ok x y ->
  op_div x y = Ret (repr (width x) (sign x) (Z.quot (ival x) (ival y))).
Proof.
  intros Hx Hy Ew Es Hone Hok. unfold op_div. rewrite div_asserts_eq by done. cbn [mbind res_bind].
  destruct Hok as [Hnz _]. rewrite !is_neg_eq by done. cbn [mbind res_bind].
  pose proof (abs_range x Hx) as Hax. pose proof (abs_range y Hy).
  destruct (quot_of_abs (ival x) (ival y) Hnz) as [Hq _].
  operands x y Hx Hy Ew Es; cbn [width] in *; [|lia]. rewrite IsOneWord_one by done.
  rewrite !magnitude_eq by done. cbn [mbind res_bind width sign].
  set (a := ival (MkIntVal (Value v) w s)) in *. set (b := ival (MkIntVal (Value v') w s)) in *. destruct (Z.eqb_spec (Z.abs b) 0); [lia|].
  cbn [mbind res_bind]. destruct (divrem_range (Z.abs a) (Z.abs b) (2 ^ w)) as [Hr _]; [done|lia|].
  apply one_word_divrem; [done|by apply (word64 w)| |].
  - rewrite Hq. destruct (negb _); lia.
  - rewrite Hq. by destruct (a <? 0), (b <? 0).
Qed.

Lemma op_rem_eq x y :
  wf x -> wf y -> width x = width y -> sign x = sign y -> width x <= 64 -> div_ok x y ->
  op_rem x y = Ret (repr (width x) (sign x) (Z.rem (ival x) (ival y))).
Proof.
  intros Hx Hy Ew Es Hone Hok. unfold op_rem. rewrite div_asserts_eq by done. cbn [mbind res_bind].
  destruct Hok as [Hnz _]. rewrite !is_neg_eq by done. cbn [mbind res_bind].
  pose proof (abs_range x Hx) as Hax. pose proof (abs_range y Hy).
  destruct (quot_of_abs (ival x) (ival y) Hnz) as [_ Hq].
  operands x y Hx Hy Ew Es; cbn [width] in *; [|lia]. rewrite IsOneWord_one by done.
  rewrite !magnitude_eq by done. cbn [mbind res_bind width sign].
  set (a := ival (MkIntVal (Value v) w s)) in *. set (b := ival (MkIntVal (Value v') w s)) in *. destruct (Z.eqb_spec (Z.abs b) 0); [lia|].
  cbn [mbind res_bind]. destruct (divrem_range (Z.abs a) (Z.abs b) (2 ^ w)) as [_ Hr]; [done|lia|].
  apply one_word_divrem; [done|by apply (word64 w)| |done].
  rewrite Hq. destruct (a <? 0); lia.
Qed.

Lemma divrem_wide x y :
  wf x -> wf y -> width x = width y -> sign x = sign y -> 64 < width x -> div_ok x y ->
  op_div x y = Fault Undefined /\ op_rem x y = Fault Undefined.
Proof.
  intros Hx Hy Ew Es Hwide Hok. unfold op_div, op_rem. rewrite div_asserts_eq by done. cbn [mbind res_bind].
  rewrite IsOneWord_above by done. by rewrite WideDivRem_undefined by done.
Qed.
