(* ===== verification/IntValSpec.v ===== *)
(** * IntVal implements fixed-width integers

    The abstract value of an IntVal is the integer [ival x] of its type
    [(width, sign)]; [norm w s v] is the value of that type that [v] converts
    to.  The theorems of this file say that every operator returns, and that
    the integer of the result is the mathematical result reduced to the type.
    The typed operations, which convert their operands first, follow. *)
From S2P Require Import Prelude.
From S2P Require Import PrimTypes.
From S2P Require Import IntWords.
From S2P Require Import IntWordsFacts.
From S2P Require Import IntDivFacts.
From S2P Require Import IntVal.
From S2P Require Import IntValFacts.
From S2P Require Import IntValArith.
From S2P Require Import IntValOrder.
From S2P Require Import IntValCount.
From S2P Require Import IntValDiv.

(** ** The abstract type *)

Definition norm (w : Z) (s : bool) (v : Z) : Z := if s then swrap w v else wrap w v.

(** [is_int w s v r]: [r] is a well-formed IntVal of type [(w, s)] that stands
    for [v] reduced to the type. *)
Definition is_int (w : Z) (s : bool) (v : Z) (r : IntVal) : Prop :=
  wf r /\ width r = w /\ sign r = s /\ ival r = norm w s v.

Definition same_ty (x y : IntVal) : Prop := width x = width y /\ sign x = sign y.

Lemma is_int_repr w s v : valid_width w -> is_int w s v (repr w s v).
Proof. intros Hw. split; [by apply repr_wf|]. split; [done|]. split; [done|]. by apply ival_repr. Qed.

Lemma ret_is_int (m : res IntVal) w s v :
  valid_width w -> m = Ret (repr w s v) -> wp m (is_int w s v).
Proof. intros Hw ->. by apply is_int_repr. Qed.

Lemma ret_is_int' (m : res IntVal) w s v v' :
  valid_width w -> m = Ret (repr w s v) -> wrap w v = wrap w v' -> wp m (is_int w s v').
Proof. intros Hw -> E. rewrite (repr_congr w s v v') by done. by apply is_int_repr. Qed.

Lemma norm_small w s v : 0 < w -> min_of w s <= v <= max_of w s -> norm w s v = v.
Proof.
  intros Hw. unfold norm, min_of, max_of. destruct s; intros Hv;
    [apply swrap_small; lia|apply wrap_small; lia].
Qed.

(** Congruence modulo 2^w of the operands. *)
Lemma wrap_land w a b : 0 <= w -> wrap w (Z.land (wrap w a) (wrap w b)) = wrap w (Z.land a b).
Proof.
  intros Hw. apply bits_ext. intros i Hi. rewrite !testbit_wrap, !Z.land_spec, !testbit_wrap by done.
  by destruct (i <? w).
Qed.
Lemma wrap_lor w a b : 0 <= w -> wrap w (Z.lor (wrap w a) (wrap w b)) = wrap w (Z.lor a b).
Proof.
  intros Hw. apply bits_ext. intros i Hi. rewrite !testbit_wrap, !Z.lor_spec, !testbit_wrap by done.
  by destruct (i <? w).
Qed.
Lemma wrap_lxor w a b : 0 <= w -> wrap w (Z.lxor (wrap w a) (wrap w b)) = wrap w (Z.lxor a b).
Proof.
  intros Hw. apply bits_ext. intros i Hi. rewrite !testbit_wrap, !Z.lxor_spec, !testbit_wrap by done.
  by destruct (i <? w).
Qed.
Lemma wrap_lnot w a : 0 <= w -> wrap w (Z.lnot (wrap w a)) = wrap w (Z.lnot a).
Proof.
  intros Hw. assert (forall z, Z.lnot z = -1 - z) as E by (intros; unfold Z.lnot; lia).
  by rewrite !E, wrap_sub_r.
Qed.
Lemma wrap_opp w a : wrap w (- wrap w a) = wrap w (- a).
Proof. by rewrite <- (Z.sub_0_l (wrap w a)), wrap_sub_r. Qed.
Lemma wrap_add_lr w a b : wrap w (wrap w a + wrap w b) = wrap w (a + b).
Proof. by rewrite wrap_add_l, wrap_add_r. Qed.
Lemma wrap_sub_lr w a b : wrap w (wrap w a - wrap w b) = wrap w (a - b).
Proof. by rewrite wrap_sub_l, wrap_sub_r. Qed.
Lemma wrap_mul_lr w a b : wrap w (wrap w a * wrap w b) = wrap w (a * b).
Proof. by rewrite wrap_mul_l, wrap_mul_r. Qed.
Lemma wrap_shiftl w a n : 0 <= n -> wrap w (Z.shiftl (wrap w a) n) = wrap w (Z.shiftl a n).
Proof. intros. by rewrite !Z.shiftl_mul_pow2, wrap_mul_l by done. Qed.

(** ** Arithmetic on the integers of a type *)

Section Binary.
Context (op : IntVal -> IntVal -> res IntVal) (f : Z -> Z -> Z).
Context (Hop : forall x y, wf x -> wf y -> width x = width y -> sign x = sign y ->
  op x y = Ret (repr (width x) (sign x) (f (uval x) (uval y)))).
Context (Hf : forall w a b, 0 <= w -> wrap w (f (wrap w a) (wrap w b)) = wrap w (f a b)).

Lemma binary_is_int x y :
  wf x -> wf y -> same_ty x y -> wp (op x y) (is_int (width x) (sign x) (f (ival x) (ival y))).
Proof using op f Hop Hf.
  intros Hx Hy [Ew Es]. pose proof (wf_width x Hx).
  eapply ret_is_int'; [by apply wf_valid|by apply Hop|].
  rewrite <- (wrap_ival x Hx), <- (wrap_ival y Hy), <- Ew. apply Hf. lia.
Qed.

Lemma binary_typed `{Target} x y t :
  wf x -> wf y -> valid_width (type_width t) ->
  typed op x y t = Ret (repr (type_width t) (IsSignedInteger t) (f (ival x) (ival y))).
Proof using op f Hop Hf.
  intros Hx Hy Hw. pose proof (valid_width_range _ Hw).
  unfold typed, TruncOrExtend. rewrite !TruncOrExtend_width_eq by done. cbn [mbind res_bind].
  rewrite Hop by (done || by apply repr_wf). cbn [width sign repr]. f_equal.
  apply repr_congr; [done|]. rewrite !uval_repr by done. apply Hf. lia.
Qed.
End Binary.

Lemma add_is_int x y :
  wf x -> wf y -> same_ty x y -> wp (op_add x y) (is_int (width x) (sign x) (ival x + ival y)).
Proof. apply (binary_is_int op_add Z.add op_add_eq). auto using wrap_add_lr. Qed.

Lemma sub_is_int x y :
  wf x -> wf y -> same_ty x y -> wp (op_sub x y) (is_int (width x) (sign x) (ival x - ival y)).
Proof. apply (binary_is_int op_sub Z.sub op_sub_eq). auto using wrap_sub_lr. Qed.

Lemma mul_is_int x y :
  wf x -> wf y -> same_ty x y -> wp (op_mul x y) (is_int (width x) (sign x) (ival x * ival y)).
Proof. apply (binary_is_int op_mul Z.mul op_mul_eq). auto using wrap_mul_lr. Qed.

Lemma and_is_int x y :
  wf x -> wf y -> same_ty x y -> wp (op_and x y) (is_int (width x) (sign x) (Z.land (ival x) (ival y))).
Proof. apply (binary_is_int op_and Z.land op_and_eq wrap_land). Qed.

Lemma or_is_int x y :
  wf x -> wf y -> same_ty x y -> wp (op_or x y) (is_int (width x) (sign x) (Z.lor (ival x) (ival y))).
Proof. apply (binary_is_int op_or Z.lor op_or_eq wrap_lor). Qed.

Lemma xor_is_int x y :
  wf x -> wf y -> same_ty x y -> wp (op_xor x y) (is_int (width x) (sign x) (Z.lxor (ival x) (ival y))).
Proof. apply (binary_is_int op_xor Z.lxor op_xor_eq wrap_lxor). Qed.

Section Unary.
Context (op : IntVal -> res IntVal) (f : Z -> Z).
Context (Hop : forall x, wf x -> op x = Ret (repr (width x) (sign x) (f (uval x)))).
Context (Hf : forall w a, 0 <= w -> wrap w (f (wrap w a)) = wrap w (f a)).

Lemma unary_is_int x : wf x -> wp (op x) (is_int (width x) (sign x) (f (ival x))).
Proof using op f Hop Hf.
  intros Hx. pose proof (wf_width x Hx). eapply ret_is_int'; [by apply wf_valid|by apply Hop|].
  rewrite <- (wrap_ival x Hx). apply Hf. lia.
Qed.
End Unary.

Lemma neg_is_int x : wf x -> wp (op_neg x) (is_int (width x) (sign x) (- ival x)).
Proof. apply (unary_is_int op_neg Z.opp op_neg_eq). auto using wrap_opp. Qed.

Lemma not_is_int x : wf x -> wp (op_not x) (is_int (width x) (sign x) (Z.lnot (ival x))).
Proof. apply (unary_is_int op_not Z.lnot op_not_eq wrap_lnot). Qed.

Lemma incr_is_int x : wf x -> wp (op_incr x) (is_int (width x) (sign x) (ival x + 1)).
Proof. apply (unary_is_int op_incr (fun z => z + 1) op_incr_eq). auto using wrap_add_l. Qed.

(** ** The claims on the operators of the class *)

(** C1: addition, subtraction, multiplication, negation and increment of
    well-formed values of one type return a well-formed value of that type
    whose integer is the exact result reduced to the type, for every width
    from 1 to 64 bits and every multiple of 64 up to 255 words. *)
Theorem intval_ring x y :
  wf x -> wf y -> same_ty x y ->
  wp (op_add x y) (is_int (width x) (sign x) (ival x + ival y)) /\
  wp (op_sub x y) (is_int (width x) (sign x) (ival x - ival y)) /\
  wp (op_mul x y) (is_int (width x) (sign x) (ival x * ival y)) /\
  wp (op_neg x) (is_int (width x) (sign x) (- ival x)) /\
  wp (op_incr x) (is_int (width x) (sign x) (ival x + 1)).
Proof.
  intros. split_and!; [by apply add_is_int|by apply sub_is_int|by apply mul_is_int
    |by apply neg_is_int|by apply incr_is_int].
Qed.

(** Concrete values for the witnesses: -7 as i8, 2^70 + 5 and -3 as i128. *)
Definition i8_m7 : IntVal := repr 8 true (-7).
Definition i128_a : IntVal := repr 128 true (2 ^ 70 + 5).
Definition i128_m3 : IntVal := repr 128 true (-3).

Lemma valid_8 : valid_width 8.
Proof. left. lia. Qed.
Lemma valid_128 : valid_width 128.
Proof. right. exists 2%nat. lia. Qed.
Lemma wf_i128_a : wf i128_a.
Proof. apply repr_wf, valid_128. Qed.
Lemma wf_i128_m3 : wf i128_m3.
Proof. apply repr_wf, valid_128. Qed.

Lemma intval_ring_witness :
  wp (op_mul i128_a i128_m3) (is_int 128 true ((2 ^ 70 + 5) * -3)).
Proof. exact (proj1 (proj2 (proj2 (intval_ring i128_a i128_m3 wf_i128_a wf_i128_m3 (conj eq_refl eq_refl))))). Defined.

(** C2: the bitwise operators act on the two's complement integers. *)
Theorem intval_bitwise x y :
  wf x -> wf y -> same_ty x y ->
  wp (op_and x y) (is_int (width x) (sign x) (Z.land (ival x) (ival y))) /\
  wp (op_or x y) (is_int (width x) (sign x) (Z.lor (ival x) (ival y))) /\
  wp (op_xor x y) (is_int (width x) (sign x) (Z.lxor (ival x) (ival y))) /\
  wp (op_not x) (is_int (width x) (sign x) (Z.lnot (ival x))).
Proof.
  intros. split_and!; [by apply and_is_int|by apply or_is_int|by apply xor_is_int|by apply not_is_int].
Qed.

Lemma intval_bitwise_witness :
  wp (op_and i128_a i128_m3) (is_int 128 true (Z.land (2 ^ 70 + 5) (-3))).
Proof. exact (proj1 (intval_bitwise i128_a i128_m3 wf_i128_a wf_i128_m3 (conj eq_refl eq_refl))). Defined.

(** C3: division truncates towards zero and the remainder has the sign of the
    dividend.  A zero divisor and the signed quotient that overflows stop at an
    assertion.  Values of at most 64 bits are divided.  On wider ones both
    operators reach the undefined shift of BitwiseCompare, in the comparison of
    the magnitudes; given the answer of that comparison, the rest of WideDivRem,
    the schoolbook division on many words, returns quotient and remainder. *)
Theorem intval_division x y :
  wf x -> wf y -> same_ty x y ->
  (~ div_ok x y -> op_div x y = Fault AssertFail /\ op_rem x y = Fault AssertFail) /\
  (div_ok x y -> width x <= 64 ->
     wp (op_div x y) (is_int (width x) (sign x) (Z.quot (ival x) (ival y))) /\
     wp (op_rem x y) (is_int (width x) (sign x) (Z.rem (ival x) (ival y)))) /\
  (div_ok x y -> 64 < width x ->
     op_div x y = Fault Undefined /\ op_rem x y = Fault Undefined /\
     wp (WideDivRem_compared x (magnitude_of x) (magnitude_of y) (negb (eqb (ival y <? 0) (ival x <? 0)))
           (ival x <? 0) (Z.abs (ival x) <? Z.abs (ival y)))
       (fun r => is_int (width x) (sign x) (Z.quot (ival x) (ival y)) (fst r) /\
                 is_int (width x) (sign x) (Z.rem (ival x) (ival y)) (snd r))).
Proof.
  intros Hx Hy [Ew Es]. pose proof (wf_valid x Hx). split_and!.
  - intros Hno. unfold op_div, op_rem. by rewrite div_asserts_fail.
  - intros Hok Hone. split; apply ret_is_int; auto using op_div_eq, op_rem_eq.
  - intros Hok Hwide. destruct (divrem_wide x y) as [-> ->]; [done..|]. split_and!; [done..|].
    rewrite WideDivRem_compared_eq by (done || apply Hok). split; by apply is_int_repr.
Qed.

Lemma intval_division_witness :
  wp (op_rem i8_m7 (repr 8 true 3)) (is_int 8 true (-1)) /\
  op_div i128_a i128_m3 = Fault Undefined.
Proof.
  destruct (intval_division i8_m7 (repr 8 true 3) (repr_wf _ _ _ valid_8) (repr_wf _ _ _ valid_8)
    (conj eq_refl eq_refl)) as (_ & H1 & _).
  destruct (intval_division i128_a i128_m3 wf_i128_a wf_i128_m3 (conj eq_refl eq_refl)) as (_ & _ & H2).
  split.
  - refine (proj2 (H1 _ _)); [|vm_compute; discriminate].
    split; [vm_compute; discriminate|]. intros (_ & H & _). vm_compute in H. discriminate H.
  - refine (proj1 (H2 _ _)); [|reflexivity].
    split; [vm_compute; discriminate|]. intros (_ & H & _). vm_compute in H. discriminate H.
Defined.

(** C4: equality is decided at every width.  The order, and Min and Max of one
    type, are decided for values of at most 64 bits and for signed values of
    which one is negative; between other wide values the words are compared,
    and every one of these operators reaches the undefined shift by 64 in
    BitwiseCompare. *)
Theorem intval_order x y :
  wf x -> wf y -> same_ty x y ->
  op_eq x y = Ret (ival x =? ival y) /\ op_ne x y = Ret (negb (ival x =? ival y)) /\
  (~ words_compared x y ->
     op_lt x y = Ret (ival x <? ival y) /\ op_le x y = Ret (ival x <=? ival y) /\
     op_gt x y = Ret (ival y <? ival x) /\ op_ge x y = Ret (ival y <=? ival x) /\
     Min_same x y = Ret (if ival x <? ival y then x else y) /\
     Max_same x y = Ret (if ival x <? ival y then y else x)) /\
  (words_compared x y ->
     op_lt x y = Fault Undefined /\ op_le x y = Fault Undefined /\
     op_gt x y = Fault Undefined /\ op_ge x y = Fault Undefined /\
     Min_same x y = Fault Undefined /\ Max_same x y = Fault Undefined).
Proof.
  intros Hx Hy [Ew Es].
  rewrite op_eq_eq, op_ne_eq, op_lt_eq, op_le_eq, op_gt_eq, op_ge_eq, Min_same_eq, Max_same_eq by done.
  unfold ordered. split_and!; [done..|intros H|intros H]; [by rewrite !decide_False|by rewrite !decide_True].
Qed.

Lemma intval_order_witness :
  op_lt i128_m3 i128_a = Ret true /\ op_lt i8_m7 (repr 8 true 3) = Ret true /\ op_lt i128_a i128_a = Fault Undefined.
Proof.
  destruct (intval_order i128_m3 i128_a wf_i128_m3 wf_i128_a (conj eq_refl eq_refl)) as (_ & _ & H1 & _).
  destruct (intval_order i8_m7 (repr 8 true 3) (repr_wf _ _ _ valid_8) (repr_wf _ _ _ valid_8)
    (conj eq_refl eq_refl)) as (_ & _ & H2 & _).
  destruct (intval_order i128_a i128_a wf_i128_a wf_i128_a (conj eq_refl eq_refl)) as (_ & _ & _ & H3).
  split; [|split].
  - refine (proj1 (H1 _)). intros [_ H]. specialize (H eq_refl). vm_compute in H. discriminate H.
  - refine (proj1 (H2 _)). intros [H _]. vm_compute in H. discriminate H.
  - refine (proj1 (H3 _)). split; [reflexivity|]. intros _. reflexivity.
Defined.

(** C5: the left shift multiplies by a power of two, operator>> and LShr divide
    the signed and the unsigned reading of the value, for counts below the width
    (and, below 64 bits, the width itself).  A larger count stops at an assertion.
    The width as the count passes it, but a 64-bit word cannot be shifted so far,
    and memmove_s, with no words to move, reports an error, which is fatal. *)
Theorem intval_shift x bits :
  wf x -> 0 <= bits ->
  (shift_ok x bits ->
     wp (op_shl x bits) (is_int (width x) (sign x) (ival x * 2 ^ bits)) /\
     wp (op_shr x bits) (is_int (width x) (sign x) (ival x / 2 ^ bits)) /\
     wp (LShr_own x bits) (is_int (width x) (sign x) (uval x / 2 ^ bits))) /\
  (width x < bits ->
     op_shl x bits = Fault AssertFail /\ op_shr x bits = Fault AssertFail /\ LShr_own x bits = Fault AssertFail) /\
  (bits = width x -> 64 <= width x ->
     let f := if width x =? 64 then Undefined else CheckFatal in
     op_shl x bits = Fault f /\ op_shr x bits = Fault f /\ LShr_own x bits = Fault f).
Proof.
  intros Hx Hb. pose proof (wf_valid x Hx) as Hw. split_and!.
  - intros Hok. rewrite <- !Z.shiftr_div_pow2, <- Z.shiftl_mul_pow2 by lia. split_and!.
    + eapply ret_is_int'; [done|by apply op_shl_eq|].
      rewrite <- (wrap_ival x Hx). apply wrap_shiftl. lia.
    + apply ret_is_int; [done|]. by apply op_shr_eq.
    + apply ret_is_int; [done|]. by apply LShr_own_eq.
  - intros Hlt. unfold op_shl, op_shr, LShr_own. by rewrite (proj2 (Z.leb_gt _ _)) by done.
  - intros -> H64. by apply full_width_shift.
Qed.

Lemma intval_shift_witness :
  wp (op_shr i128_m3 65) (is_int 128 true (-3 / 2 ^ 65)) /\ op_shr i128_m3 128 = Fault CheckFatal.
Proof.
  destruct (intval_shift i128_m3 65 wf_i128_m3 ltac:(lia)) as (H1 & _).
  destruct (intval_shift i128_m3 128 wf_i128_m3 ltac:(lia)) as (_ & _ & H2).
  split.
  - refine (proj1 (proj2 (H1 _))). split; [cbn; lia|left; cbn; lia].
  - refine (proj1 (proj2 (H2 _ _))); [reflexivity|cbn; lia].
Defined.

(** ** Conversions *)

Lemma trunc_or_extend_is_int x w s :
  wf x -> valid_width w -> wp (TruncOrExtend_width x w s) (is_int w s (ival x)).
Proof. intros Hx Hw. apply ret_is_int; [done|]. by apply TruncOrExtend_width_eq. Qed.

(** C6: changing the type keeps the integer modulo 2^width, so a value that
    fits the new type is kept, and widening followed by narrowing back to the
    old type returns the value itself. *)
Theorem intval_conversion x w s :
  wf x -> valid_width w ->
  wp (TruncOrExtend_width x w s) (fun r =>
    is_int w s (ival x) r /\
    (min_of w s <= ival x <= max_of w s -> ival r = ival x) /\
    (width x <= w -> TruncOrExtend_width r (width x) (sign x) = Ret x)).
Proof.
  intros Hx Hw. pose proof (valid_width_range w Hw). pose proof (wf_width x Hx).
  pose proof (trunc_or_extend_is_int x w s Hx Hw) as Ht.
  eapply wp_mono; [exact Ht|]. intros r Hr. split; [done|].
  destruct Hr as (Hr & Ewr & Esr & Er). split.
  - intros Hfit. rewrite Er. by apply norm_small; [lia|].
  - intros Hle. rewrite TruncOrExtend_width_eq by auto using wf_valid. f_equal.
    rewrite (repr_of_wf x Hx) at 3. apply repr_congr; [by apply wf_valid|].
    rewrite <- (wrap_ival x Hx), wrap_wrap, Er by lia. unfold norm.
    destruct s; [|by apply wrap_wrap_le; lia].
    rewrite <- (wrap_wrap_le (width x) w), swrap_congr, wrap_wrap_le by lia. done.
Qed.

Lemma intval_conversion_witness :
  wp (TruncOrExtend_width i8_m7 128 true) (fun r => ival r = -7).
Proof.
  eapply wp_mono; [exact (intval_conversion i8_m7 128 true (repr_wf _ _ _ valid_8) valid_128)|].
  intros r (_ & H & _). apply H. vm_compute. split; discriminate.
Defined.

(** ** Extreme values and counts *)

Lemma extreme_norm w s : 0 < w -> norm w s (min_of w s) = min_of w s /\ norm w s (max_of w s) = max_of w s.
Proof.
  intros Hw. pose proof (pow2_pos (w - 1)). pose proof (pow2_half w).
  split; apply norm_small; auto; unfold min_of, max_of; destruct s; lia.
Qed.

(** SetMinValue and SetMaxValue store the least and the greatest integer of
    the type, IsMinValue and IsMaxValue recognise exactly these, and every value
    of the type lies between them. *)
Theorem intval_extremes x :
  wf x ->
  wp (SetMinValue x) (fun r => wf r /\ ival r = min_of (width x) (sign x)) /\
  wp (SetMaxValue x) (fun r => wf r /\ ival r = max_of (width x) (sign x)) /\
  IsMinValue x = Ret (ival x =? min_of (width x) (sign x)) /\
  IsMaxValue x = Ret (ival x =? max_of (width x) (sign x)) /\
  min_of (width x) (sign x) <= ival x <= max_of (width x) (sign x).
Proof.
  intros Hx. pose proof (wf_width x Hx). pose proof (wf_valid x Hx) as Hw.
  destruct (extreme_norm (width x) (sign x) ltac:(lia)) as [Emin Emax].
  rewrite SetMinValue_eq, SetMaxValue_eq by done. split_and!; try (apply wp_ret; split).
  - by apply repr_wf.
  - rewrite ival_repr by done. exact Emin.
  - by apply repr_wf.
  - rewrite ival_repr by done. exact Emax.
  - by apply IsMinValue_eq.
  - by apply IsMaxValue_eq.
  - pose proof (ival_range x Hx). unfold min_of. destruct (sign x); lia.
  - pose proof (ival_range x Hx). unfold max_of. destruct (sign x); lia.
Qed.

Lemma intval_extremes_witness : IsMinValue i128_m3 = Ret false.
Proof. exact (proj1 (proj2 (proj2 (intval_extremes i128_m3 wf_i128_m3)))). Defined.

(** The leading-zero count, the significant-bit count of an unsigned value
    and, on wide values, the trailing counts are exact. *)
Theorem intval_counts x :
  wf x ->
  wp (CountLeadingZeros x) (fun r => 0 <= r <= width x /\ uval x < 2 ^ (width x - r) /\
    (r < width x -> 2 ^ (width x - r - 1) <= uval x)) /\
  (sign x = false -> wp (CountSignificantBits x) (fun r => uval x < 2 ^ r /\
    forall r', 1 <= r' -> uval x < 2 ^ r' -> r <= r')) /\
  (64 < width x ->
    wp (CountTrallingZeros x) (fun r => run false (uval x) r (width x)) /\
    wp (CountTrallingOnes x) (fun r => run true (uval x) r (width x))).
Proof.
  intros Hx. pose proof (wf_width x Hx). pose proof (wf_uval x Hx) as Hu.
  pose proof (nbits_ge0 (uval x)). pose proof (nbits_le _ (width x) ltac:(lia) Hu).
  pose proof (nbits_upper (uval x) ltac:(lia)). split_and!.
  - rewrite CountLeadingZeros_eq by done. apply wp_ret.
    replace (width x - (width x - nbits (uval x))) with (nbits (uval x)) by lia.
    split; [lia|]. split; [done|]. intros Hlt. apply nbits_lower.
    destruct (decide (uval x = 0)) as [E|]; [rewrite E, nbits_0 in Hlt|]; lia.
  - intros Hs. rewrite CountSignificantBits_unsigned by done. apply wp_ret. split.
    + eapply Z.lt_le_trans; [eassumption|]. apply Z.pow_le_mono_r; lia.
    + intros r' Hr' Hlt. pose proof (nbits_le (uval x) r' ltac:(lia) ltac:(lia)). lia.
  - intros Hwide. split; [by apply CountTrallingZeros_wide|by apply CountTrallingOnes_wide].
Qed.

Lemma intval_counts_witness :
  wp (CountTrallingOnes i128_a) (fun r => run true (2 ^ 70 + 5) r 128).
Proof.
  exact (proj2 (proj2 (proj2 (intval_counts i128_a wf_i128_a)) ltac:(cbn; lia))).
Defined.

(** A bit that is set or cleared reads back, and the other bits keep their
    value; GetSignBit is the sign of a signed value. *)
Theorem intval_bits x bit :
  wf x -> 0 <= bit < width x ->
  wp (SetBit x bit) (fun r => wf r /\ forall i, 0 <= i < width x ->
    GetBit r i = if bit =? i then Ret true else GetBit x i) /\
  wp (ClearBit x bit) (fun r => wf r /\ forall i, 0 <= i < width x ->
    GetBit r i = if bit =? i then Ret false else GetBit x i) /\
  (sign x = true -> GetSignBit x = Ret (ival x <? 0)).
Proof.
  intros Hx Hb. pose proof (wf_valid x Hx) as Hw. pose proof (wf_uval x Hx) as Hu.
  rewrite SetBit_eq, ClearBit_eq by done. split_and!.
  - apply wp_ret. split; [by apply repr_wf|]. intros i Hi.
    rewrite !GetBit_spec by (done || by apply repr_wf). rewrite uval_repr by done.
    rewrite testbit_wrap, setbit_bits by lia.
    destruct (Z.ltb_spec i (width x)); [|lia]. cbn [andb]. by destruct (bit =? i).
  - apply wp_ret. split; [by apply repr_wf|]. intros i Hi.
    rewrite !GetBit_spec by (done || by apply repr_wf). rewrite uval_repr by done.
    rewrite testbit_wrap, clearbit_bits by lia.
    destruct (Z.ltb_spec i (width x)); [|lia]. cbn [andb]. by destruct (bit =? i).
  - intros Hs. rewrite GetSignBit_spec, sign_bit_swrap by done. unfold ival. by rewrite Hs.
Qed.

Lemma intval_bits_witness : GetSignBit i128_m3 = Ret true.
Proof. exact (proj2 (proj2 (intval_bits i128_m3 100 wf_i128_m3 ltac:(cbn; lia))) eq_refl). Defined.

(** A value built from an integer is the integer reduced to 64 bits and
    then to the type; GetExtValue reads an integer of at most 64 bits back. *)
Theorem intval_of_integer val w s :
  valid_width w ->
  wp (IntVal_int val w s) (fun r => is_int w s (norm 64 s val) r /\
    (w <= 64 -> min_of w s <= val <= max_of w s -> GetExtValue r = Ret (swrap 64 val))).
Proof.
  intros Hw. pose proof (valid_width_range w Hw). rewrite IntVal_int_spec by done. apply wp_ret.
  split; [by apply is_int_repr|]. intros Hle Hfit. rewrite GetExtValue_one by (done || by apply repr_wf).
  do 2 f_equal. rewrite ival_repr by done. change (norm w s (norm 64 s val) = val).
  assert (norm 64 s val = val) as ->; [|by apply norm_small; [lia|]].
  apply norm_small; [lia|]. unfold min_of, max_of in *.
  destruct s; [pose proof (Z.pow_le_mono_r 2 (w - 1) (64 - 1))|pose proof (Z.pow_le_mono_r 2 w 64)]; lia.
Qed.

Lemma intval_of_integer_witness :
  wp (IntVal_int (-7) 8 true) (fun r => GetExtValue r = Ret (-7)).
Proof.
  eapply wp_mono; [exact (intval_of_integer (-7) 8 true valid_8)|].
  intros r [_ H]. apply H; [lia|]. vm_compute. split; discriminate.
Defined.

(** C10: the schoolbook division on 32-bit words (BasecaseDivRem, Knuth's
    Algorithm D) returns the exact quotient and remainder of a normalised
    divisor: each digit estimate needs at most two corrections, so the
    CHECK_FATAL on a third one and every array access are never reached. *)
Theorem basecase_divrem n m q a b :
  (0 < n)%nat -> (1 <= m)%nat -> Z.of_nat (n + m) * 32 + 32 < 2 ^ 16 ->
  array_ok 32 n b -> 2 ^ 31 <= b.[n - 1] ->
  array_ok 32 (n + m) a -> array_ok 32 (m + 1) q ->
  wp (BasecaseDivRem q a b n m) (fun r =>
    array_ok 32 (m + 1) (fst r) /\ array_ok 32 (n + m) (snd r) /\
    eval 32 (fst r) = eval 32 a / eval 32 b /\ eval 32 (snd r) = eval 32 a mod eval 32 b).
Proof.
  intros. eapply wp_mono; [by apply BasecaseDivRem_spec|]. intros r (Hq & Hr & E & Hlt).
  split; [done|]. split; [done|]. split.
  - apply (Z.div_unique_pos _ _ _ (eval 32 (snd r))); lia.
  - apply (Z.mod_unique_pos _ _ (eval 32 (fst r))); lia.
Qed.

Lemma basecase_divrem_witness :
  wp (BasecaseDivRem [0; 0; 0] [0; 0; 2 ^ 31 - 1; 2 ^ 31] [2 ^ 32 - 1; 2 ^ 31] 2 2) (fun r =>
    eval 32 (fst r) = eval 32 [0; 0; 2 ^ 31 - 1; 2 ^ 31] / eval 32 [2 ^ 32 - 1; 2 ^ 31]).
Proof.
  eapply wp_mono; [apply (basecase_divrem 2 2 [0; 0; 0] [0; 0; 2 ^ 31 - 1; 2 ^ 31] [2 ^ 32 - 1; 2 ^ 31])|].
  - lia.
  - lia.
  - lia.
  - repeat constructor; lia.
  - cbn. lia.
  - repeat constructor; lia.
  - repeat constructor; lia.
  - intros r (_ & _ & E & _). exact E.
Defined.

(** ** Typed operations *)

Section TypedFacts.
Context `{Target}.

Lemma type_width_cases t :
  IsPrimitiveInteger t = true -> In (type_width t) [1; 8; 16; 32; 64; 128].
Proof.
  intros Ht. pose proof (integer_width t Ht) as Hin. unfold type_width.
  repeat (destruct Hin as [<-|Hin]; [vm_compute; tauto|]). destruct Hin.
Qed.

Lemma type_width_valid t : IsPrimitiveInteger t = true -> valid_width (type_width t).
Proof.
  intros Ht. pose proof (type_width_cases t Ht) as Hin.
  repeat (destruct Hin as [<-|Hin]; [(left; lia) || apply valid_128|]). destruct Hin.
Qed.

Lemma typed_pair {A} (op : IntVal -> IntVal -> res A) x y t :
  wf x -> wf y -> IsPrimitiveInteger t = true ->
  typed op x y t = op (repr (type_width t) (IsSignedInteger t) (ival x))
                      (repr (type_width t) (IsSignedInteger t) (ival y)).
Proof.
  intros Hx Hy Ht. pose proof (type_width_valid t Ht). unfold typed, TruncOrExtend.
  by rewrite !TruncOrExtend_width_eq.
Qed.

(** The value [v] in the type [t]. *)
Definition in_type (t : PrimType) (v : Z) : Z := norm (type_width t) (IsSignedInteger t) v.
Definition typed_int (t : PrimType) (v : Z) : IntVal -> Prop :=
  is_int (type_width t) (IsSignedInteger t) v.

Lemma ival_in_type t v :
  IsPrimitiveInteger t = true ->
  ival (repr (type_width t) (IsSignedInteger t) v) = in_type t v.
Proof. intros Ht. by apply ival_repr, type_width_valid. Qed.

Lemma typed_ring t x y :
  wf x -> wf y -> IsPrimitiveInteger t = true ->
  wp (Add x y t) (typed_int t (ival x + ival y)) /\
  wp (Sub x y t) (typed_int t (ival x - ival y)) /\
  wp (Mul x y t) (typed_int t (ival x * ival y)) /\
  wp (And x y t) (typed_int t (Z.land (ival x) (ival y))) /\
  wp (Or x y t) (typed_int t (Z.lor (ival x) (ival y))) /\
  wp (Xor x y t) (typed_int t (Z.lxor (ival x) (ival y))).
Proof.
  intros Hx Hy Ht. pose proof (type_width_valid t Ht). split_and!; (apply ret_is_int; [done|]).
  - apply (binary_typed op_add Z.add op_add_eq); auto using wrap_add_lr.
  - apply (binary_typed op_sub Z.sub op_sub_eq); auto using wrap_sub_lr.
  - apply (binary_typed op_mul Z.mul op_mul_eq); auto using wrap_mul_lr.
  - apply (binary_typed op_and Z.land op_and_eq wrap_land); auto.
  - apply (binary_typed op_or Z.lor op_or_eq wrap_lor); auto.
  - apply (binary_typed op_xor Z.lxor op_xor_eq wrap_lxor); auto.
Qed.

(** The order is decided for types of at most 64 bits, and for signed values of
    which one is negative. *)
Definition order_decided (t : PrimType) (a b : Z) : Prop :=
  type_width t <= 64 \/ IsSignedInteger t = true /\ (a <? 0) <> (b <? 0).

Lemma typed_words_compared t x y :
  IsPrimitiveInteger t = true ->
  words_compared (repr (type_width t) (IsSignedInteger t) (ival x)) (repr (type_width t) (IsSignedInteger t) (ival y))
  <-> ~ order_decided t (in_type t (ival x)) (in_type t (ival y)).
Proof.
  intros Ht. unfold words_compared, order_decided. rewrite !ival_in_type by done. cbn [width sign repr].
  destruct (Bool.bool_dec (in_type t (ival x) <? 0) (in_type t (ival y) <? 0)) as [E|E]; split.
  - intros [H1 _] [?|[_ ?]]; [lia|done].
  - intros H1. split; [|done]. apply Z.nle_gt. tauto.
  - intros [H1 H2] [?|[? ?]]; [lia|]. by apply E, H2.
  - intros H1. split; [apply Z.nle_gt; tauto|]. intros Hs. destruct H1. by right.
Qed.

Lemma typed_compare t x y :
  wf x -> wf y -> IsPrimitiveInteger t = true ->
  let a := in_type t (ival x) in let b := in_type t (ival y) in
  Equal x y t = Ret (a =? b) /\
  (order_decided t a b -> Less x y t = Ret (a <? b) /\ Greater x y t = Ret (b <? a)) /\
  (~ order_decided t a b -> Less x y t = Fault Undefined /\ Greater x y t = Fault Undefined).
Proof.
  intros Hx Hy Ht a b. pose proof (type_width_valid t Ht) as Hw. unfold Equal, Less, Greater.
  rewrite !typed_pair by done. rewrite op_eq_eq, op_lt_eq, op_gt_eq by (done || by apply repr_wf).
  pose proof (typed_words_compared t x y Ht) as Hc. rewrite !ival_in_type by done. unfold ordered.
  split_and!; [done|intros H1|intros H1]; [rewrite !decide_False by tauto|rewrite !decide_True by tauto]; done.
Qed.

(** C11: the operations in terms of a primitive integer type convert both
    operands to the type first: arithmetic is arithmetic modulo the type's
    width, whatever the types of the operands, and comparisons compare the
    converted integers: equality at every width, the order for types of at most
    64 bits and for integers of opposite signs; otherwise Less and Greater reach
    the undefined shift of BitwiseCompare. *)
Theorem intval_typed x y t :
  wf x -> wf y -> IsPrimitiveInteger t = true ->
  let a := in_type t (ival x) in let b := in_type t (ival y) in
  wp (Add x y t) (typed_int t (ival x + ival y)) /\
  wp (Sub x y t) (typed_int t (ival x - ival y)) /\
  wp (Mul x y t) (typed_int t (ival x * ival y)) /\
  wp (And x y t) (typed_int t (Z.land (ival x) (ival y))) /\
  wp (Or x y t) (typed_int t (Z.lor (ival x) (ival y))) /\
  wp (Xor x y t) (typed_int t (Z.lxor (ival x) (ival y))) /\
  Equal x y t = Ret (a =? b) /\
  (order_decided t a b -> Less x y t = Ret (a <? b) /\ Greater x y t = Ret (b <? a)) /\
  (~ order_decided t a b -> Less x y t = Fault Undefined /\ Greater x y t = Fault Undefined).
Proof.
  intros Hx Hy Ht a b. destruct (typed_ring t x y Hx Hy Ht) as (H1 & H2 & H3 & H4 & H5 & H6).
  repeat (split; [assumption|]). by apply typed_compare.
Qed.
End TypedFacts.

Lemma intval_typed_witness :
  wp (@Add false i8_m7 i128_a PTY_u16) (@typed_int false PTY_u16 (-7 + (2 ^ 70 + 5))).
Proof.
  exact (proj1 (@intval_typed false i8_m7 i128_a PTY_u16 (repr_wf _ _ _ valid_8) wf_i128_a eq_refl)).
Defined.

(** The binary operators require operands of one type: on well-formed
    operands of different types each stops at its assertion, before it reads a
    word. *)
Theorem intval_type_mismatch x y :
  ~ same_ty x y ->
  op_add x y = Fault AssertFail /\ op_sub x y = Fault AssertFail /\
  op_mul x y = Fault AssertFail /\ op_div x y = Fault AssertFail /\
  op_rem x y = Fault AssertFail /\ op_and x y = Fault AssertFail /\
  op_or x y = Fault AssertFail /\ op_xor x y = Fault AssertFail /\
  op_eq x y = Fault AssertFail /\ op_lt x y = Fault AssertFail /\ op_gt x y = Fault AssertFail.
Proof.
  intros Hne. assert (same_type x y = false) as E.
  { destruct (same_type x y) eqn:E; [|done]. destruct Hne. by apply same_type_spec. }
  unfold op_add, op_sub, op_mul, op_div, op_rem, div_asserts, op_and, op_or, op_xor, op_eq, op_lt, op_gt.
  by rewrite E.
Qed.

Lemma intval_type_mismatch_witness : op_add i8_m7 i128_a = Fault AssertFail.
Proof. apply (intval_type_mismatch i8_m7 i128_a). intros [H _]. discriminate H. Defined.

(** ** Where the code departs from the integers it stands for *)

(** CountLeadingOnes shifts its mask by [64 - width mod 64] and then subtracts
    [width mod 64], so the eight leading ones of an 8-bit -1 are not counted. *)
Example CountLeadingOnes_i8 : CountLeadingOnes (repr 8 true (-1)) = Ret 0.
Proof. reflexivity. Qed.

(** On wide values the loop of CountLeadingOnes continues below a word that is
    not all ones: -2^64 - 1 of 128 bits counts 127 leading ones, and passes for
    one significant word. *)
Example leading_ones_wrong :
  ival (repr 128 true (- 2 ^ 64 - 1)) = - 2 ^ 64 - 1 /\
  CountLeadingOnes (repr 128 true (- 2 ^ 64 - 1)) = Ret 127 /\
  IsOneSignificantWord (repr 128 true (- 2 ^ 64 - 1)) = Ret true.
Proof. repeat split. Qed.

(** GetSXTValue of a wide value that fits a word shifts by 64 minus the width,
    192 as a uint8; so does operator== with an int64. *)
Example GetSXTValue_wide :
  GetSXTValue (repr 128 true (-1)) = Fault Undefined /\ op_eq_int64 (repr 128 true 5) 5 = Fault Undefined.
Proof. split; reflexivity. Qed.

(** The borrow of WideSubInPlace(uint64) is taken from the new word being at
    least 1: the decrement of 5 * 2^64 + 7 * 2^128 loses a further 2^128. *)
Example op_decr_wrong :
  uval (repr 192 false (5 * 2 ^ 64 + 7 * 2 ^ 128)) = 5 * 2 ^ 64 + 7 * 2 ^ 128 /\
  op_decr (repr 192 false (5 * 2 ^ 64 + 7 * 2 ^ 128)) =
  Ret (repr 192 false (5 * 2 ^ 64 + 7 * 2 ^ 128 - 1 - 2 ^ 128)).
Proof. split; reflexivity. Qed.

(** TruncInPlace of a wide value computes the width to keep from the condition
    [bitWidth == 0] reversed: the bits above the width of a 100-bit value stay. *)
Example TruncInPlace_wide_keeps :
  TruncInPlace (MkIntVal (PValue [0; ones 64]) 100 false) =
  Ret (MkIntVal (PValue [0; ones 64]) 100 false).
Proof. reflexivity. Qed.

(** CountTrallingZeros of a one-word zero is 64 whatever the width; a wide zero
    gives its width. *)
Example CountTrallingZeros_zero :
  CountTrallingZeros (repr 8 false 0) = Ret 64 /\ CountTrallingZeros (repr 128 false 0) = Ret 128.
Proof. split; reflexivity. Qed.

(** LShr with a type wider than 64 bits reads the one-word member of a wide value. *)
Example LShr_widening : @LShr false (repr 32 false 5) 1 PTY_u128 = Fault WrongMember.
Proof. reflexivity. Qed.

(** Max with a type other than that of its operands compares Min's result, which
    has the new type, with an operand, which has not, and stops at the assertion. *)
Example Max_other_type :
  @Max false (repr 32 true 5) (repr 32 true 9) PTY_i32 = Ret (repr 32 true 9) /\
  exists f, @Max false (repr 32 true 5) (repr 32 true 9) PTY_i64 = Fault f.
Proof. split; [reflexivity|]. eexists. reflexivity. Qed.
