(* ===== verification/IntValTyped.v ===== *)
(** * The operations of IntVal in terms of a primitive type

    Division, shifts, minimum and maximum convert their operands to a type
    first; the cases of at most 64 bits, as constant folding uses them. *)
From S2P Require Import Prelude.
From S2P Require Import PrimTypes.
From S2P Require Import IntWords.
From S2P Require Import IntWordsFacts.
From S2P Require Import IntDivFacts.
From S2P Require Import IntVal.
From S2P Require Import IntValFacts.
From S2P Require Import IntValArith.
From S2P Require Import IntValOrder.
From S2P Require Import IntValCount.
From S2P Require Import IntValDiv.
From S2P Require Import IntValSpec.

Lemma norm_congr w b v v' : wrap w v = wrap w v' -> norm w b v = norm w b v'.
Proof. intros E. unfold norm, swrap. by rewrite E. Qed.

Lemma wrap_norm w b v : 0 < w -> wrap w (norm w b v) = wrap w v.
Proof. intros Hw. unfold norm. destruct b; [by apply swrap_congr|by apply wrap_wrap; lia]. Qed.

Lemma norm_norm w b b' v : 0 < w -> norm w b (norm w b' v) = norm w b v.
Proof. intros Hw. apply norm_congr. by apply wrap_norm. Qed.

Lemma wrap_norm_le w w' b v : 0 < w <= w' -> wrap w (norm w' b v) = wrap w v.
Proof.
  intros Hw. rewrite <- (wrap_wrap_le w w') by lia. rewrite wrap_norm by lia. by apply wrap_wrap_le; lia.
Qed.

Lemma is_int_congr w b v v' x : wrap w v = wrap w v' -> is_int w b v x -> is_int w b v' x.
Proof. intros E (Hx & Ew & Es & Ev). split_and!; try done. rewrite Ev. by apply norm_congr. Qed.

Lemma is_int_wf w b v x : is_int w b v x -> wf x.
Proof. by intros [? _]. Qed.

(** A value of type [(w, b)] is determined by its integer. *)
Lemma is_int_repr_eq w b v x : is_int w b v x -> x = repr w b v.
Proof.
  intros (Hx & Ew & Es & Ev). pose proof (wf_width x Hx). rewrite (repr_of_wf x Hx), Ew, Es.
  apply repr_congr; [rewrite <- Ew; by apply wf_valid|].
  by rewrite <- (wrap_ival x Hx), Ew, Ev, wrap_norm, wrap_wrap by lia.
Qed.

Section Typed.
Context `{Target}.
Implicit Types (x y : IntVal) (t : PrimType).

Lemma typed_int_congr t v v' x :
  wrap (type_width t) v = wrap (type_width t) v' -> typed_int t v x -> typed_int t v' x.
Proof. apply is_int_congr. Qed.

(** A type of at most 64 bits *)
Definition small_int t : Prop := IsPrimitiveInteger t = true /\ IsInt128Ty t = false.

Lemma small_width t : small_int t -> 0 < type_width t <= 64.
Proof.
  intros [Ht H128]. pose proof (type_width_cases t Ht) as Hin.
  destruct t; try discriminate Ht; try discriminate H128; destruct H; vm_compute; split; congruence.
Qed.

Lemma small_valid t : small_int t -> valid_width (type_width t).
Proof. intros [Ht _]. by apply type_width_valid. Qed.

Lemma TruncOrExtend_eq x t :
  wf x -> IsPrimitiveInteger t = true ->
  TruncOrExtend x t = Ret (repr (type_width t) (IsSignedInteger t) (ival x)).
Proof. intros Hx Ht. apply TruncOrExtend_width_eq; [done|]. by apply type_width_valid. Qed.

Lemma IntVal_typed_eq v t :
  IsPrimitiveInteger t = true ->
  IntVal_typed v t = Ret (repr (type_width t) (IsSignedInteger t) (norm 64 (IsSignedInteger t) v)).
Proof.
  intros Ht. unfold IntVal_typed. rewrite IntVal_int_spec by (by apply type_width_valid).
  cbn [mbind res_bind]. by rewrite Ht.
Qed.

(** The dividend and the divisor can be divided in the type. *)
Definition div_ok_in t (a b : Z) : Prop :=
  in_type t b <> 0 /\
  ~ (IsSignedInteger t = true /\ in_type t a = min_of (type_width t) true /\ in_type t b = -1).

Lemma typed_div x y t :
  wf x -> wf y -> small_int t -> div_ok_in t (ival x) (ival y) ->
  wp (Div x y t) (typed_int t (Z.quot (in_type t (ival x)) (in_type t (ival y)))) /\
  wp (Rem x y t) (typed_int t (Z.rem (in_type t (ival x)) (in_type t (ival y)))).
Proof.
  intros Hx Hy Hsmall Hok. pose proof (small_width t Hsmall) as H64. destruct Hsmall as [Ht _].
  pose proof (type_width_valid t Ht) as Hw. unfold Div, Rem.
  rewrite !typed_pair by done.
  assert (div_ok (repr (type_width t) (IsSignedInteger t) (ival x))
            (repr (type_width t) (IsSignedInteger t) (ival y))) as Hd.
  { unfold div_ok. rewrite !ival_in_type by done. exact Hok. }
  split; (apply ret_is_int; [done|]); rewrite <- !(ival_in_type t) by done.
  - rewrite op_div_eq by (done || (by apply repr_wf) || cbn; lia). done.
  - rewrite op_rem_eq by (done || (by apply repr_wf) || cbn; lia). done.
Qed.

Lemma typed_shl x n t :
  wf x -> IsPrimitiveInteger t = true -> 0 <= n <= type_width t -> (n < type_width t \/ n < 64) ->
  wp (Shl x n t) (typed_int t (ival x * 2 ^ n)).
Proof.
  intros Hx Ht Hn Hn64. pose proof (type_width_valid t Ht) as Hw. unfold Shl.
  rewrite TruncOrExtend_eq by done. cbn [mbind res_bind].
  eapply ret_is_int'; [done|apply op_shl_eq; [by apply repr_wf|by split]|].
  rewrite uval_repr by done. rewrite wrap_shiftl, Z.shiftl_mul_pow2 by lia. done.
Qed.

Lemma shiftr_word w v n : 0 <= n -> 0 <= v < 2 ^ w -> 0 <= Z.shiftr v n < 2 ^ w.
Proof.
  intros Hn Hv. rewrite Z.shiftr_div_pow2 by done. pose proof (pow2_pos n Hn).
  split; [apply Z.div_pos; lia|]. apply Z.div_lt_upper_bound; nia.
Qed.

Lemma typed_lshr x n t :
  wf x -> width x <= 64 -> small_int t -> 0 <= n <= type_width t -> n < 64 ->
  wp (LShr x n t) (typed_int t (wrap (type_width t) (ival x) / 2 ^ n)).
Proof.
  intros Hx Hx64 Ht Hn Hn64. pose proof (small_valid t Ht) as Hw. pose proof (small_width t Ht).
  unfold LShr, IsOneWord. rewrite IsOneWord_small by done. rewrite TruncOrExtend_eq by (done || apply Ht).
  cbn [mbind res_bind]. unfold GetBitWidth, repr at 1. rewrite IsOneWord_small by lia.
  cbn [width u repr]. rewrite assert_le by lia. cbn [mbind res_bind]. unfold repr. rewrite IsOneWord_small by lia.
  cbn [u_value u mbind res_bind set_u width sign]. rewrite CHECK_SHIFT_ok by lia. cbn [mbind res_bind].
  eapply ret_is_int; [done|]. unfold repr. rewrite IsOneWord_small by lia. do 3 f_equal.
  unfold shr. rewrite Z.mod_small, <- Z.shiftr_div_pow2 by lia. unfold set_u. cbn [width sign]. do 2 f_equal.
  symmetry. apply wrap_small, shiftr_word; [lia|]. apply wrap_range. lia.
Qed.

(** The arithmetic shift reads the value as signed whatever the type. *)
Lemma typed_ashr x n t :
  wf x -> width x <= 64 -> small_int t -> 0 <= n <= type_width t -> n < 64 ->
  wp (AShr x n t) (typed_int t (swrap (type_width t) (ival x) / 2 ^ n)).
Proof.
  intros Hx Hx64 Ht Hn Hn64. pose proof (small_valid t Ht) as Hw. pose proof (small_width t Ht) as Hr.
  unfold AShr, IsOneWord. rewrite TruncOrExtend_eq by (done || apply Ht). cbn [mbind res_bind width repr].
  rewrite assert_le by lia. cbn [mbind res_bind]. rewrite IsOneWord_small by done.
  unfold repr. rewrite IsOneWord_small by lia.
  rewrite GetSXTValue_one by (done || apply wrap_range; lia). cbn [mbind res_bind].
  rewrite swrap_wrap by lia. set (v := swrap (type_width t) (ival x)).
  assert (- 2 ^ 63 <= v < 2 ^ 63) as Hv.
  { pose proof (swrap_range (type_width t) (ival x)) as Hs. fold v in Hs.
    pose proof (Z.pow_le_mono_r 2 (type_width t - 1) 63). lia. }
  rewrite IntVal_typed_eq by done. cbn [mbind res_bind].
  change (type_width PTY_i64) with 64. change (IsSignedInteger PTY_i64) with true.
  assert (valid_width 64) as H64 by (left; lia).
  rewrite op_shr_eq by (by apply repr_wf || (split; cbn; lia)). cbn [mbind res_bind width sign repr].
  rewrite GetExtValue_one by (done || by apply repr_wf). cbn [mbind res_bind u_value u set_u width sign].
  rewrite !ival_repr by done. cbn [norm].
  unfold set_u. cbn [width sign mbind res_bind].
  rewrite TruncInPlace_one by lia. apply ret_is_int; [done|]. unfold repr.
  rewrite IsOneWord_small by lia. do 3 f_equal. rewrite wrap_wrap_le by lia.
  rewrite (swrap_small 64 v), (swrap_small 64 v) by lia.
  rewrite Z.shiftr_div_pow2 by lia.
  rewrite <- (wrap_wrap_le _ 64) by lia. rewrite !swrap_congr by lia. by rewrite wrap_wrap_le by lia.
Qed.

(** [x] has the type [t]. *)
Definition has_type t x : Prop := width x = type_width t /\ sign x = IsSignedInteger t.

Lemma IntVal_as_same x t : wf x -> IsPrimitiveInteger t = true -> has_type t x -> IntVal_as x t = Ret x.
Proof.
  intros Hx Ht [Ew Es]. unfold IntVal_as, IntVal_from. rewrite Ht, <- Ew, <- Es.
  cbn [ASSERT mbind res_bind]. rewrite Init_union_same by done. cbn [mbind res_bind].
  destruct x. by apply TruncInPlace_wf.
Qed.

Lemma in_type_same x t : wf x -> has_type t x -> in_type t (ival x) = ival x.
Proof.
  intros Hx [Ew Es]. pose proof (wf_width x Hx). pose proof (ival_range x Hx) as Hr.
  unfold in_type. rewrite <- Ew, <- Es. apply norm_small; [lia|].
  unfold min_of, max_of. destruct (sign x); lia.
Qed.

Lemma has_type_is_int x t : wf x -> has_type t x -> typed_int t (ival x) x.
Proof.
  intros Hx Hty. pose proof Hty as [Ew Es]. split_and!; try done. symmetry. by apply in_type_same.
Qed.

Lemma typed_min x y t :
  wf x -> wf y -> small_int t -> has_type t x -> has_type t y ->
  Min x y t = Ret (if ival x <? ival y then x else y).
Proof.
  intros Hx Hy Hsmall Tx Ty. pose proof (small_width t Hsmall) as H64. destruct Hsmall as [Ht _].
  unfold Min, Less. rewrite typed_pair by done.
  pose proof (type_width_valid t Ht). rewrite op_lt_eq by (done || by apply repr_wf).
  rewrite ordered_small by (cbn; lia).
  rewrite !ival_in_type, !in_type_same by done. cbn [mbind res_bind].
  destruct (_ <? _); by apply IntVal_as_same.
Qed.

Lemma typed_max x y t :
  wf x -> wf y -> small_int t -> has_type t x -> has_type t y ->
  Max x y t = Ret (if ival x <? ival y then y else x).
Proof.
  intros Hx Hy Ht Tx Ty. unfold Max. rewrite typed_min by done. cbn [mbind res_bind].
  assert (width x = width y /\ sign x = sign y) as [Ew Es] by (destruct Tx, Ty; split; congruence).
  destruct (Z.ltb_spec (ival x) (ival y)).
  - rewrite op_eq_eq, Z.eqb_refl by done. cbn [mbind res_bind]. by apply IntVal_copy_spec.
  - rewrite op_eq_eq by done. cbn [mbind res_bind].
    destruct (Z.eqb_spec (ival y) (ival x)); rewrite IntVal_copy_spec by done; [|done].
    f_equal. by apply wf_ival_inj.
Qed.
End Typed.

(** Min with a wider type than its operands' copies their bits without
    extending the sign: the least of -7 and 3 of 8 bits is 249 in 32 bits. *)
Example Min_widening :
  @Min false (repr 8 true (-7)) (repr 8 true 3) PTY_i32 = Ret (repr 32 true 249).
Proof. reflexivity. Qed.
