(* ===== verification/IntConst.v ===== *)
(** * Integer constants of the IR and the table that interns them

    MIRIntConst of maple_ir/include/mir_const.h and IntConstTable of
    maple_ir/include/global_tables.h and maple_ir/src/global_tables.cpp, with
    the part of TypeTable that gives the type of a primitive type.

    A [MIRType &] refers to an entry of the type table, which its index
    identifies.  A [MIRIntConst *] is an index into the store of the objects
    created so far.  The 64-bit table is a finite map, since its comparison and
    hash functions agree.  The comparison of 128-bit keys leaves out the type,
    which the hash does not, while unordered_map requires keys that compare equal
    to have one hash code: the 128-bit table is the list of its entries, and a
    search is [Fault Undefined] when it meets an equal key with another code. *)
From S2P Require Import Prelude.
From S2P Require Import PrimTypes.
From S2P Require Import IntWords.
From S2P Require Import IntVal.
From stdpp Require Import gmap.
#[local] Open Scope Z_scope.

(** ** Types *)

Record MIRType : Set := MkMIRType { GetTypeIndex : Z; type_prim : PrimType }.

Fixpoint index_of (t : PrimType) (l : list PrimType) : nat :=
  match l with
  | [] => 0
  | x :: l => if pty_eqb x t then 0 else S (index_of t l)
  end.

(** The value of an enumerator, and the enumerator of a value. *)
Definition pty_num (t : PrimType) : nat := index_of t all_PrimType.
Definition pty_of_num (n : nat) : PrimType := nth n all_PrimType PTY_begin.

Definition CreateMirType (primTypeIdx : nat) : MIRType :=
  MkMIRType (Z.of_nat primTypeIdx) (pty_of_num primTypeIdx).

(** TypeTable::TypeTable: a null entry, then one type per primitive type. *)
Definition TypeTable_init : list (option MIRType) :=
  None :: map (fun i => Some (CreateMirType i)) (seq (pty_num PTY_begin + 1) (pty_num PTY_end)).

(** TypeTable::GetPrimType; the entries are dereferenced by the callers. *)
Definition GetPrimType_of (typeTable : list (option MIRType)) (primType : PrimType) : res MIRType :=
  _ ← ASSERT (pty_num primType <? length typeTable)%nat;
  match typeTable !! pty_num primType with
  | Some (Some ty) => Ret ty
  | _ => Fault OutOfBounds
  end.

(** ** Constants *)

Record MIRIntConst : Set := MkMIRIntConst { GetValue : IntVal; GetType : MIRType }.

Section Constants.
Context `{Target}.
Implicit Types (c : MIRIntConst) (type : MIRType).

(** IntVal(const uint64 *val, PrimType type) *)
Definition IntVal_ptr_typed (pVal : list Z) (type : PrimType) : res IntVal :=
  x ← IntVal_ptr pVal (type_width type) (IsSignedInteger type);
  _ ← ASSERT (IsPrimitiveInteger type || IsPrimitiveVectorInteger type);
  Ret x.

(** The three constructors *)
Definition MIRIntConst_val (val : Z) type : res MIRIntConst :=
  v ← IntVal_typed val (type_prim type); Ret (MkMIRIntConst v type).
Definition MIRIntConst_ptr (pVal : list Z) type : res MIRIntConst :=
  v ← IntVal_ptr_typed pVal (type_prim type); Ret (MkMIRIntConst v type).
Definition MIRIntConst_IntVal (val : IntVal) type : res MIRIntConst :=
  v ← IntVal_as val (type_prim type);
  _ ← ASSERT (IsPrimitiveInteger (type_prim type)
              && (GetPrimTypeActualBitSize (type_prim type) <=? GetBitWidth v));
  Ret (MkMIRIntConst v type).

Definition GetActualBitWidth c : res Z := CountSignificantBits (GetValue c).
Definition MIRIntConst_Trunc c (width : Z) : res MIRIntConst :=
  v ← TruncInPlace_to (GetValue c) width; Ret (MkMIRIntConst v (GetType c)).
Definition IsNegative c : res bool :=
  if IsSigned (GetValue c) then GetSignBit (GetValue c) else Ret false.
Definition IsPositive c : res bool :=
  n ← IsNegative c;
  if n : bool then Ret false else z ← op_eq_int64 (GetValue c) 0; Ret (negb z).
Definition IsZero c : res bool := op_eq_int64 (GetValue c) 0.
Definition IsOne c : res bool := op_eq_int64 (GetValue c) 1.
(** [value = -value]: the constant is changed in place. *)
Definition Neg c : res MIRIntConst :=
  n ← op_neg (GetValue c); v ← assign_copy (GetValue c) n; Ret (MkMIRIntConst v (GetType c)).
(** SetValue is not usable on an interned constant. *)
Definition SetValue (val : Z) : res unit := CHECK_FATAL false.
(** operator==, with the identity of the objects passed in *)
Definition MIRIntConst_eq (same_object : bool) c (rhs : MIRIntConst) : res bool :=
  if same_object then Ret true
  else if GetTypeIndex (GetType rhs) =? GetTypeIndex (GetType c)
       then op_eq (GetValue rhs) (GetValue c) else Ret false.
End Constants.

(** ** The table *)

(** Keys.  IntConstKey converts the value to int64; Int128ConstKey copies two
    words. *)
Definition IntConstKey : Type := Z * Z.
Definition mk_IntConstKey (v tyIdx : Z) : IntConstKey := (swrap 64 v, tyIdx).

Record Int128ConstKey : Set := MkInt128ConstKey { key_val : list Z; key_tyIdx : Z }.
Definition mk_Int128ConstKey (v : list Z) (tyIdx : Z) : res Int128ConstKey :=
  w ← slice v 0 2; Ret (MkInt128ConstKey w tyIdx).

(** std::hash<uint64> is a parameter of the standard library. *)
Class StdHash : Type := std_hash : Z -> Z.

Definition IntConstHash `{StdHash} (key : Int128ConstKey) : res Z :=
  a ← rd (key_val key) 0;
  b ← rd (key_val key) 1;
  Ret (Z.lxor (Z.lxor (std_hash a) (std_hash b)) (shl 64 (std_hash (key_tyIdx key)) 1)).

Definition IntConstCmp (lkey rkey : Int128ConstKey) : res bool :=
  l0 ← rd (key_val lkey) 0; r0 ← rd (key_val rkey) 0;
  l1 ← rd (key_val lkey) 1; r1 ← rd (key_val rkey) 1;
  Ret ((l0 =? r0) && (l1 =? r1)).

Record IntConstTable : Type := MkIntConstTable {
  objects : list MIRIntConst;                     (* every constant created *)
  intConstTable : gmap IntConstKey nat;
  int128ConstTable : list (Int128ConstKey * nat)
}.

Definition IntConstTable_empty : IntConstTable := MkIntConstTable [] ∅ [].

Section Table.
Context `{Target} `{StdHash}.
Implicit Types (s : IntConstTable) (type : MIRType).

(** new MIRIntConst(...) *)
Definition new_const s (c : MIRIntConst) : IntConstTable * nat :=
  (MkIntConstTable (objects s ++ [c]) (intConstTable s) (int128ConstTable s), length (objects s)).

(** [intConstTable[key] = p] *)
Definition set64 s (key : IntConstKey) (p : nat) : IntConstTable :=
  MkIntConstTable (objects s) (<[key := p]> (intConstTable s)) (int128ConstTable s).

Definition DoGetOrCreateIntConst s (val : Z) type : res (IntConstTable * nat) :=
  let key := mk_IntConstKey val (GetTypeIndex type) in
  match intConstTable s !! key with
  | Some p => Ret (s, p)
  | None =>
      c ← MIRIntConst_val val type;
      let '(s, p) := new_const s c in
      Ret (set64 s key p, p)
  end.

(** unordered_map::find: the entry whose key compares equal to [key] *)
Fixpoint find128 (key : Int128ConstKey) (l : list (Int128ConstKey * nat)) : res (option nat) :=
  match l with
  | [] => Ret None
  | (k, p) :: l =>
      e ← IntConstCmp k key;
      if e : bool then
        hk ← IntConstHash k; h ← IntConstHash key;
        if hk =? h then Ret (Some p) else Fault Undefined
      else find128 key l
  end.

Definition DoGetOrCreateInt128Const s (pVal : list Z) type : res (IntConstTable * nat) :=
  key ← mk_Int128ConstKey pVal (GetTypeIndex type);
  found ← find128 key (int128ConstTable s);
  match found with
  | Some p => Ret (s, p)
  | None =>
      c ← MIRIntConst_ptr pVal type;
      let '(s, p) := new_const s c in
      Ret (MkIntConstTable (objects s) (intConstTable s) (int128ConstTable s ++ [(key, p)]), p)
  end.

(** IntVal::GetRawData: the words the pointer may be read at *)
Definition GetRawData (x : IntVal) : res (list Z) :=
  if IsOneWord x then v ← u_value x; Ret [v] else u_pValue x.

(** GetOrCreateIntConst(uint64, type) and GetOrCreateIntConst(const IntVal &,
    type) outside the parallel phases *)
Definition GetOrCreateIntConst s (val : Z) type : res (IntConstTable * nat) :=
  DoGetOrCreateIntConst s val type.

Definition GetOrCreateIntConst_IntVal s (val : IntVal) type : res (IntConstTable * nat) :=
  if IsInt128Ty (type_prim type) then
    ws ← GetRawData val; DoGetOrCreateInt128Const s ws type
  else v ← GetExtValue val; DoGetOrCreateIntConst s (wrap 64 v) type.

(** The constants the destructor deletes *)
Definition IntConstTable_dtor s : list nat := map snd (map_to_list (intConstTable s)).

(** *** The parallel phases

    DoGetOrCreateIntConstTreadSafe takes two atomic steps: the search under
    the shared lock, and after a miss the creation under the exclusive lock.
    A thread is where it stands in the function. *)
Inductive thread : Type :=
  | Searching (val : Z) (type : MIRType)
  | Creating (val : Z) (type : MIRType)
  | Returned (val : Z) (type : MIRType) (p : nat).

Definition thread_step s (t : thread) : res (IntConstTable * thread) :=
  match t with
  | Searching val type =>
      Ret (s, match intConstTable s !! mk_IntConstKey val (GetTypeIndex type) with
              | Some p => Returned val type p
              | None => Creating val type
              end)
  | Creating val type =>
      c ← MIRIntConst_val val type;
      let '(s, p) := new_const s c in
      Ret (set64 s (mk_IntConstKey val (GetTypeIndex type)) p, Returned val type p)
  | Returned _ _ _ => Ret (s, t)
  end.

(** One step of one of the threads *)
Inductive par_step : IntConstTable * list thread -> IntConstTable * list thread -> Prop :=
  | par_step_intro s ts i t s' t' :
      ts !! i = Some t -> thread_step s t = Ret (s', t') ->
      par_step (s, ts) (s', <[i := t']> ts).

(** The interleaving chosen by a schedule *)
Fixpoint par_run (sched : list nat) (st : IntConstTable * list thread)
    : res (IntConstTable * list thread) :=
  match sched with
  | [] => Ret st
  | i :: sched =>
      match snd st !! i with
      | None => Fault OutOfBounds
      | Some t => r ← thread_step (fst st) t; par_run sched (fst r, <[i := snd r]> (snd st))
      end
  end.
End Table.
