(* ===== verification/IntConstFacts.v ===== *)
(** * The table of integer constants interns them

    The invariant of IntConstTable: each entry leads to a constant of the type
    and value of its key, and every constant belongs to exactly one entry. *)
From S2P Require Import Prelude.
From S2P Require Import PrimTypes.
From S2P Require Import IntWords.
From S2P Require Import IntWordsFacts.
From S2P Require Import IntDivFacts.
From S2P Require Import IntVal.
From S2P Require Import IntValFacts.
From S2P Require Import IntValArith.
From S2P Require Import IntValSpec.
From S2P Require Import IntValTyped.
From S2P Require Import IntConst.
From stdpp Require Import gmap.
#[local] Open Scope Z_scope.

(** ** Types *)

Lemma TypeTable_init_spec t :
  t <> PTY_begin -> TypeTable_init !! pty_num t = Some (Some (MkMIRType (Z.of_nat (pty_num t)) t)).
Proof. intros Ht. by destruct t. Qed.

Lemma GetPrimType_of_spec typeTable t :
  TypeTable_init `prefix_of` typeTable -> t <> PTY_begin ->
  GetPrimType_of typeTable t = Ret (MkMIRType (Z.of_nat (pty_num t)) t).
Proof.
  intros [l ->] Ht. pose proof (TypeTable_init_spec t Ht) as E.
  pose proof (lookup_lt_Some _ _ _ E) as Hlt. unfold GetPrimType_of.
  rewrite length_app, (proj2 (Nat.ltb_lt _ _)) by lia. cbn [ASSERT mbind res_bind].
  by rewrite lookup_app_l, E by done.
Qed.

Lemma pty_num_range t : 0 <= Z.of_nat (pty_num t) < 2 ^ 32.
Proof. destruct t; vm_compute; split; congruence. Qed.

Section Facts.
Context `{Target} `{StdHash}.
(** The entries of the type table. *)
Context (typeTable : list (option MIRType)).

(** [ty] is the entry of its index. *)
Definition type_ok (ty : MIRType) : Prop :=
  typeTable !! Z.to_nat (GetTypeIndex ty) = Some (Some ty) /\ 0 <= GetTypeIndex ty < 2 ^ 32 /\
  IsPrimitiveInteger (type_prim ty) = true.

Lemma type_ok_inj ty ty' :
  type_ok ty -> type_ok ty' -> GetTypeIndex ty = GetTypeIndex ty' -> ty = ty'.
Proof. intros (E & _) (E' & _) Ei. rewrite Ei in E. congruence. Qed.

(** The object at [p] is the constant [v] of type [ty]. *)
Definition const_at (objs : list MIRIntConst) (p : nat) (ty : MIRType) (v : Z) : Prop :=
  exists c, objs !! p = Some c /\ GetType c = ty /\ typed_int (type_prim ty) v (GetValue c).

(** What the 64-bit value [v] is taken for in a type. *)
Definition ext64 (ty : MIRType) (v : Z) : Z := norm 64 (IsSignedInteger (type_prim ty)) v.

Lemma ext64_key ty v : ext64 ty (swrap 64 v) = ext64 ty v.
Proof.
  unfold ext64, norm. destruct IsSignedInteger; [|by rewrite swrap_congr].
  by rewrite <- (swrap_wrap 64 (swrap 64 v)), swrap_congr, swrap_wrap by lia.
Qed.

Lemma ext64_wrap ty v : ext64 ty (wrap 64 v) = ext64 ty v.
Proof. unfold ext64, norm. destruct IsSignedInteger; [by apply swrap_wrap|by apply wrap_wrap]. Qed.

Lemma wide_ival_128 ws n b :
  (2 <= n <= 255)%nat -> array_ok 64 n ws ->
  wrap 128 (ival (MkIntVal (PValue ws) (64 * Z.of_nat n) b)) = wrap 128 (eval 64 ws).
Proof.
  intros Hn Hws. pose proof (wf_wide ws n b Hn Hws) as Hx.
  rewrite <- (wrap_wrap_le 128 (64 * Z.of_nat n) (ival _)) by lia.
  f_equal. exact (wrap_ival _ Hx).
Qed.

Definition entry64_ok (objs : list MIRIntConst) (key : IntConstKey) (p : nat) : Prop :=
  exists ty, type_ok ty /\ GetTypeIndex ty = snd key /\ const_at objs p ty (ext64 ty (fst key)).

Definition entry128_ok (objs : list MIRIntConst) (key : Int128ConstKey) (p : nat) : Prop :=
  exists ty, type_ok ty /\ GetTypeIndex ty = key_tyIdx key /\ IsInt128Ty (type_prim ty) = true /\
    array_ok 64 2 (key_val key) /\ const_at objs p ty (eval 64 (key_val key)).

Definition entries_ok (s : IntConstTable) : Prop :=
  (forall key p, intConstTable s !! key = Some p -> entry64_ok (objects s) key p) /\
  Forall (fun e => entry128_ok (objects s) (fst e) (snd e)) (int128ConstTable s).

(** The objects the entries lead to *)
Definition owned (s : IntConstTable) : list nat :=
  IntConstTable_dtor s ++ map snd (int128ConstTable s).

Definition table_ok (s : IntConstTable) : Prop :=
  entries_ok s /\ owned s ≡ₚ seq 0 (length (objects s)).

Lemma table_ok_empty : table_ok IntConstTable_empty.
Proof.
  split; [split|done].
  - intros key p E. cbn in E. by rewrite lookup_empty in E.
  - constructor.
Qed.

Lemma const_at_app objs objs' p ty v : const_at objs p ty v -> const_at (objs ++ objs') p ty v.
Proof.
  intros (c & E & Hc). exists c. split; [|done]. apply lookup_app_l_Some. done.
Qed.

Lemma const_at_new objs c ty v :
  GetType c = ty -> typed_int (type_prim ty) v (GetValue c) ->
  const_at (objs ++ [c]) (length objs) ty v.
Proof. intros Ht Hv. exists c. split; [|done]. by apply list_lookup_middle. Qed.

Lemma entry64_app objs objs' key p : entry64_ok objs key p -> entry64_ok (objs ++ objs') key p.
Proof. intros (ty & Ht & Hi & Hc). exists ty. eauto using const_at_app. Qed.

Lemma entry128_app objs objs' key p : entry128_ok objs key p -> entry128_ok (objs ++ objs') key p.
Proof. intros (ty & Ht & Hi & Hp & Hk & Hc). exists ty. eauto 10 using const_at_app. Qed.

Lemma MIRIntConst_val_spec val ty :
  IsPrimitiveInteger (type_prim ty) = true ->
  wp (MIRIntConst_val val ty) (fun c =>
    GetType c = ty /\ typed_int (type_prim ty) (ext64 ty val) (GetValue c)).
Proof.
  intros Ht. pose proof (type_width_valid _ Ht) as Hw. unfold MIRIntConst_val, IntVal_typed.
  rewrite IntVal_int_spec by done. cbn [mbind res_bind]. rewrite Ht. cbn. split; [done|].
  by apply is_int_repr.
Qed.

(** A new constant and its entry keep the entries that were there. *)
Lemma set64_entries s val ty c :
  entries_ok s -> type_ok ty -> GetType c = ty ->
  typed_int (type_prim ty) (ext64 ty val) (GetValue c) ->
  entries_ok (set64 (fst (new_const s c)) (mk_IntConstKey val (GetTypeIndex ty)) (length (objects s))).
Proof.
  intros [H64 H128] Ht Hc Hv. split; cbn.
  - intros key p. rewrite lookup_insert_Some. intros [[<- <-]|[_ E]].
    + exists ty. split; [done|]. split; [done|]. cbn. rewrite ext64_key. by apply const_at_new.
    + apply entry64_app. by apply H64.
  - eapply Forall_impl; [exact H128|]. intros [k p]. apply entry128_app.
Qed.

Lemma seq_snoc n : seq 0 (length (A := MIRIntConst) n + 1) = seq 0 (length n) ++ [length n].
Proof. by rewrite seq_app. Qed.

(** Entries are never removed, and constants are neither moved nor changed. *)
Definition extends (s s' : IntConstTable) : Prop :=
  objects s `prefix_of` objects s' /\ intConstTable s ⊆ intConstTable s' /\
  int128ConstTable s `prefix_of` int128ConstTable s'.

Lemma extends_refl s : extends s s.
Proof. by split_and!. Qed.

Lemma DoGetOrCreate_spec s val ty :
  table_ok s -> type_ok ty ->
  wp (DoGetOrCreateIntConst s val ty) (fun r =>
    table_ok (fst r) /\ extends s (fst r) /\ const_at (objects (fst r)) (snd r) ty (ext64 ty val) /\
    intConstTable (fst r) !! mk_IntConstKey val (GetTypeIndex ty) = Some (snd r) /\
    int128ConstTable (fst r) = int128ConstTable s).
Proof.
  intros [He Hp] Ht. unfold DoGetOrCreateIntConst.
  destruct (intConstTable s !! _) as [p|] eqn:E.
  - apply wp_ret. split; [by split|]. split; [apply extends_refl|]. split; [|done]. cbn.
    destruct (proj1 He _ _ E) as (ty' & Ht' & Hi & Hc). cbn in Hi, Hc.
    rewrite ext64_key in Hc. by rewrite (type_ok_inj ty ty') in * by done.
  - apply wp_bind. eapply wp_mono; [apply MIRIntConst_val_spec, Ht|]. intros c [Hc Hv].
    apply wp_ret. cbn [fst snd]. split_and!.
    + split; [by apply set64_entries|]. unfold owned, IntConstTable_dtor in *. cbn.
      rewrite map_to_list_insert by done. rewrite length_app. cbn. rewrite seq_snoc, <- Hp.
      apply Permutation_cons_append.
    + split_and!; cbn; [by apply prefix_app_r|by apply insert_subseteq|done].
    + by apply const_at_new.
    + by apply lookup_insert_eq.
    + done.
Qed.

(** *** The 128-bit table *)

Lemma array_ok_pair ws : array_ok 64 2 ws -> exists a b, ws = [a; b].
Proof. intros [_ Hl]. destruct ws as [|a [|b [|]]]; try discriminate Hl. eauto. Qed.

(** Two keys compare equal when their words do. *)
Lemma IntConstCmp_eq k key :
  array_ok 64 2 (key_val k) -> array_ok 64 2 (key_val key) ->
  IntConstCmp k key = Ret (bool_decide (key_val k = key_val key)).
Proof.
  intros Hk Hkey. destruct (array_ok_pair _ Hk) as (a' & b' & Ek), (array_ok_pair _ Hkey) as (a & b & E).
  unfold IntConstCmp. rewrite Ek, E. cbn [rd lookup list_lookup mbind res_bind]. f_equal.
  apply eq_bool_prop_intro. rewrite Is_true_true, bool_decide_spec, andb_true_iff, !Z.eqb_eq. naive_solver.
Qed.

Lemma IntConstHash_ret k : array_ok 64 2 (key_val k) -> exists h, IntConstHash k = Ret h.
Proof. intros Hk. destruct (array_ok_pair _ Hk) as (a & b & E). unfold IntConstHash. rewrite E. by eexists. Qed.

(** The keys of the entries have words, and no two have the same. *)
Definition words_distinct (s : IntConstTable) : Prop := NoDup (map (fun e => key_val (fst e)) (int128ConstTable s)).

Section Find.
Context (key : Int128ConstKey) (Hkey : array_ok 64 2 (key_val key)).
Implicit Types (l : list (Int128ConstKey * nat)).

Definition key_arrays l : Prop := Forall (fun e => array_ok 64 2 (key_val (fst e))) l.

Lemma find128_none l :
  key_arrays l -> Forall (fun e => key_val (fst e) <> key_val key) l -> find128 key l = Ret None.
Proof using Hkey.
  intros Hl. induction Hl as [|[k p] l Hk Hl IH]; intros Hne; [done|]. apply Forall_cons in Hne as [Hne Hl'].
  cbn [find128 fst] in *. rewrite IntConstCmp_eq, bool_decide_eq_false_2 by done. by apply IH.
Qed.

(** The entry with the words of the key: found if the hash codes agree *)
Lemma find128_hit l k p l' :
  key_arrays l -> Forall (fun e => key_val (fst e) <> key_val key) l -> key_val k = key_val key ->
  find128 key (l ++ (k, p) :: l') =
  (hk ← IntConstHash k; h ← IntConstHash key; if hk =? h then Ret (Some p) else Fault Undefined).
Proof using Hkey.
  intros Hl Hne E. induction Hl as [|[k' p'] l Hk Hl IH]; cbn [app find128].
  - by rewrite IntConstCmp_eq, bool_decide_eq_true_2 by (by rewrite ?E).
  - apply Forall_cons in Hne as [Hne Hl']. cbn [fst] in *.
    rewrite IntConstCmp_eq, bool_decide_eq_false_2 by done. by apply IH.
Qed.

Lemma find128_same l p l' :
  key_arrays l -> Forall (fun e => key_val (fst e) <> key_val key) l ->
  find128 key (l ++ (key, p) :: l') = Ret (Some p).
Proof using Hkey.
  intros Hl Hne. rewrite find128_hit by done. destruct (IntConstHash_ret key Hkey) as [h ->].
  cbn [mbind res_bind]. by rewrite Z.eqb_refl.
Qed.

(** Every list either has no entry with the words of the key, or a first one. *)
Lemma find_split l :
  Forall (fun e => key_val (fst e) <> key_val key) l \/
  exists l1 k p l2, l = l1 ++ (k, p) :: l2 /\ key_val k = key_val key /\
    Forall (fun e => key_val (fst e) <> key_val key) l1.
Proof.
  induction l as [|[k p] l [IH|(l1 & k' & p' & l2 & -> & E & Hne)]]; [by left| |];
    (destruct (decide (key_val k = key_val key)) as [Ek|Ek]; [right; by exists [], k, p; eexists|]).
  - left. by constructor.
  - right. exists ((k, p) :: l1), k', p', l2. split_and!; [done|done|by constructor].
Qed.
End Find.

Lemma find128_app key l l' p :
  find128 key l = Ret (Some p) -> find128 key (l ++ l') = Ret (Some p).
Proof.
  induction l as [|[k q] l IH]; [done|]. cbn [find128 app].
  destruct (IntConstCmp k key) as [[|]|]; cbn [mbind res_bind]; auto.
Qed.

Lemma int128_width t : IsInt128Ty t = true -> type_width t = 128.
Proof. destruct t; try discriminate 1; done. Qed.

Lemma MIRIntConst_ptr_spec ws ty :
  IsPrimitiveInteger (type_prim ty) = true -> IsInt128Ty (type_prim ty) = true ->
  words 64 ws -> (2 <= length ws)%nat ->
  wp (MIRIntConst_ptr ws ty) (fun c =>
    GetType c = ty /\ typed_int (type_prim ty) (eval 64 (take 2 ws)) (GetValue c)).
Proof.
  intros Ht H128 Hw Hl. unfold MIRIntConst_ptr, IntVal_ptr_typed, typed_int.
  rewrite (int128_width _ H128), IntVal_ptr_spec by (done || lia || apply valid_128).
  rewrite Ht. cbn [orb ASSERT mbind res_bind]. split; [done|]. cbn [GetValue].
  rewrite (repr_congr 128 _ (eval 64 ws) (eval 64 (take 2 ws))); [by apply is_int_repr, valid_128
    |apply valid_128|]. rewrite eval_take_wrap by done. by rewrite wrap_wrap by lia.
Qed.

Lemma array_ok_take ws : words 64 ws -> (2 <= length ws)%nat -> array_ok 64 2 (take 2 ws).
Proof. intros Hw Hl. split; [by apply Forall_take|]. rewrite length_take. lia. Qed.

Lemma entries_arrays objs l :
  Forall (fun e => entry128_ok objs (fst e) (snd e)) l -> key_arrays l.
Proof. intros Hl. eapply Forall_impl; [exact Hl|]. by intros [k p] (ty & _ & _ & _ & Ha & _). Qed.

(** The words are in the table for another type. *)
Definition other_type (s : IntConstTable) (ws : list Z) (ty : MIRType) : Prop :=
  exists k p, In (k, p) (int128ConstTable s) /\ key_val k = ws /\ key_tyIdx k <> GetTypeIndex ty.

(** A new constant of 128 bits and its entry keep the invariant. *)
Lemma new128_ok s c key ty :
  table_ok s -> type_ok ty -> IsInt128Ty (type_prim ty) = true -> array_ok 64 2 (key_val key) ->
  GetTypeIndex ty = key_tyIdx key -> GetType c = ty -> typed_int (type_prim ty) (eval 64 (key_val key)) (GetValue c) ->
  table_ok (MkIntConstTable (objects s ++ [c]) (intConstTable s) (int128ConstTable s ++ [(key, length (objects s))])).
Proof.
  intros [He Hp] Ht H128 Hk Hi Hc Hv. split.
  - split; cbn; [intros k p Ek; apply entry64_app; by apply (proj1 He)|].
    apply Forall_app. split; [eapply Forall_impl; [exact (proj2 He)|intros [k p]; apply entry128_app]|].
    constructor; [|done]. exists ty. split_and!; try done. by apply const_at_new.
  - unfold owned, IntConstTable_dtor in *. cbn. rewrite length_app, map_app, app_assoc, Hp. cbn. by rewrite seq_snoc.
Qed.

Lemma DoGetOrCreate128_spec s ws ty :
  table_ok s -> words_distinct s -> type_ok ty -> IsInt128Ty (type_prim ty) = true ->
  words 64 ws -> (2 <= length ws)%nat -> ~ other_type s (take 2 ws) ty ->
  wp (DoGetOrCreateInt128Const s ws ty) (fun r =>
    table_ok (fst r) /\ words_distinct (fst r) /\ extends s (fst r) /\
    const_at (objects (fst r)) (snd r) ty (eval 64 (take 2 ws)) /\
    find128 (MkInt128ConstKey (take 2 ws) (GetTypeIndex ty)) (int128ConstTable (fst r)) = Ret (Some (snd r))).
Proof.
  intros Hs Hd Ht H128 Hw Hl Hno. pose proof Hs as [He Hp]. pose proof (array_ok_take ws Hw Hl) as Hk.
  unfold DoGetOrCreateInt128Const, mk_Int128ConstKey, slice.
  rewrite (proj2 (Nat.leb_le _ _)) by lia. cbn [mbind res_bind]. rewrite drop_0.
  set (key := MkInt128ConstKey _ _). pose proof (entries_arrays _ _ (proj2 He)) as Harr.
  destruct (find_split key (int128ConstTable s)) as [Hnone|(l1 & k & p & l2 & El & Ek & Hne)].
  - rewrite find128_none by done. cbn [mbind res_bind].
    apply wp_bind. eapply wp_mono; [by apply MIRIntConst_ptr_spec; [apply Ht|..]|].
    intros c [Hc Hv]. apply wp_ret. cbn [new_const fst snd objects intConstTable int128ConstTable].
    split_and!.
    + by apply (new128_ok s c key ty).
    + unfold words_distinct. cbn [int128ConstTable]. rewrite map_app. apply NoDup_app. split_and!; [done| |apply NoDup_singleton].
      intros w Hin. intros ->%list_elem_of_singleton. apply list_elem_of_fmap in Hin as (e & E & Hin).
      rewrite Forall_forall in Hnone. by apply (Hnone e Hin).
    + split_and!; cbn; [by apply prefix_app_r|done|by apply prefix_app_r].
    + by apply const_at_new.
    + by apply find128_same.
  - pose proof (proj2 He) as Hall. rewrite El in Hall, Harr |- *.
    apply Forall_app in Hall as [_ Hall], Harr as [Harr _]. apply Forall_cons in Hall as [(ty' & Ht' & Hi & _ & _ & Hc) _].
    cbn [fst snd] in *. assert (key_tyIdx k = GetTypeIndex ty) as Eidx.
    { destruct (decide (key_tyIdx k = GetTypeIndex ty)) as [|Hn]; [done|]. destruct Hno. exists k, p.
      split_and!; [rewrite El; apply in_app_iff; right; by left|done|done]. }
    assert (k = key) as -> by (destruct k; cbn in *; unfold key; congruence).
    rewrite find128_same by done. cbn [mbind res_bind wp fst snd].
    rewrite (type_ok_inj ty ty') in * by (done || by rewrite Hi).
    split_and!; [done|done|apply extends_refl|done|]. rewrite El. by apply find128_same.
Qed.

(** With the words under another type the search is undefined, or answers with
    the constant of that type. *)
Lemma DoGetOrCreate128_other s ws ty :
  table_ok s -> words_distinct s -> words 64 ws -> (2 <= length ws)%nat -> other_type s (take 2 ws) ty ->
  DoGetOrCreateInt128Const s ws ty = Fault Undefined \/
  exists p ty', DoGetOrCreateInt128Const s ws ty = Ret (s, p) /\ ty' <> ty /\ IsInt128Ty (type_prim ty') = true /\
    const_at (objects s) p ty' (eval 64 (take 2 ws)).
Proof.
  intros [He _] Hd Hw Hl (k & p & Hin & Ek & Hi). pose proof (array_ok_take ws Hw Hl) as Hk.
  unfold DoGetOrCreateInt128Const, mk_Int128ConstKey, slice.
  rewrite (proj2 (Nat.leb_le _ _)) by lia. cbn [mbind res_bind]. rewrite drop_0. set (key := MkInt128ConstKey _ _).
  pose proof (entries_arrays _ _ (proj2 He)) as Harr. apply list_elem_of_In, list_elem_of_split in Hin as (l1 & l2 & El).
  unfold words_distinct in Hd. pose proof (proj2 He) as Hall. rewrite El in *. rewrite map_app in Hd.
  apply NoDup_app in Hd as (_ & Hd & _). apply Forall_app in Harr as [Harr _].
  apply Forall_app in Hall as [_ Hall]. apply Forall_cons in Hall as [(ty' & _ & Hi' & H128 & Ha & Hc) _]. cbn [fst snd] in *.
  rewrite find128_hit; [|done|done| |done].
  - destruct (IntConstHash_ret k Ha) as [hk ->], (IntConstHash_ret key Hk) as [h ->]. cbn [mbind res_bind].
    destruct (hk =? h); [right|by left]. exists p, ty'. split_and!; [done|congruence|done|by rewrite <- Ek].
  - apply Forall_forall. intros e He' E. apply (Hd (key_val k)); [|by left].
    apply list_elem_of_fmap. exists e. split; [by rewrite Ek|done].
Qed.

(** ** The claims *)

(** C22: the table interns.  A call returns a constant of the given type
    whose value is the given 64 bits in that type, keeps the constants and
    entries that exist, and every later call with the same arguments returns
    the same constant and changes nothing.  Each constant belongs to one
    entry, so the destructor deletes no constant twice. *)
Theorem const_table_interns s val ty :
  table_ok s -> type_ok ty ->
  wp (GetOrCreateIntConst s val ty) (fun r =>
    table_ok (fst r) /\ extends s (fst r) /\ const_at (objects (fst r)) (snd r) ty (ext64 ty val) /\
    (forall s', extends (fst r) s' -> GetOrCreateIntConst s' val ty = Ret (s', snd r)) /\
    NoDup (IntConstTable_dtor (fst r))).
Proof.
  intros Hs Ht. eapply wp_mono; [by apply DoGetOrCreate_spec|].
  intros [s1 p] (Hs1 & Hext & Hc & Hkey & _). cbn [fst snd] in *. split_and!; try done.
  - intros s' (_ & Hsub & _). unfold GetOrCreateIntConst, DoGetOrCreateIntConst.
    by rewrite (lookup_weaken _ _ _ _ Hkey Hsub).
  - apply (NoDup_app _ (map snd (int128ConstTable s1))). rewrite (proj2 Hs1). apply NoDup_seq.
Qed.

(** The words of a value of 128 bits or more *)
Lemma raw_words x :
  wf x -> 128 <= width x ->
  exists ws, words 64 ws /\ (2 <= length ws)%nat /\ GetRawData x = Ret ws /\ eval 64 (take 2 ws) = wrap 128 (ival x).
Proof.
  intros [v w sg Hw0 Hv|ws n sg Hn Hws] Hw; cbn [width] in Hw; [lia|]. exists ws.
  pose proof (array_ok_length _ _ _ Hws) as Hl. split_and!; [apply Hws|lia| |].
  - unfold GetRawData, IsOneWord. cbn [width u u_pValue]. by rewrite IsOneWord_wide by lia.
  - rewrite wide_ival_128 by done. apply eval_take_wrap; [apply Hws|lia].
Qed.

(** C23: interning of a value of any width.  A 128-bit constant is looked up by
    its two low words; the comparison of two keys leaves the type out, but the
    hash does not.  If no other type has the same words in the table, the call
    interns the value, and every later call with it returns the same constant and
    changes nothing.  If another type has, the search breaks the requirement of
    unordered_map and is undefined, or the hash codes happen to agree and the
    constant that is returned is of the other type. *)
Theorem const_table_interns_IntVal s x ty :
  table_ok s -> words_distinct s -> type_ok ty -> wf x ->
  (if IsInt128Ty (type_prim ty) then 128 <= width x else width x <= 64) ->
  let clash := IsInt128Ty (type_prim ty) = true /\
    exists k p, In (k, p) (int128ConstTable s) /\ eval 64 (key_val k) = wrap 128 (ival x) /\
      key_tyIdx k <> GetTypeIndex ty in
  (~ clash -> wp (GetOrCreateIntConst_IntVal s x ty) (fun r =>
    table_ok (fst r) /\ words_distinct (fst r) /\ extends s (fst r) /\
    const_at (objects (fst r)) (snd r) ty
      (if IsInt128Ty (type_prim ty) then ival x else ext64 ty (ival x)) /\
    (forall s', extends (fst r) s' -> GetOrCreateIntConst_IntVal s' x ty = Ret (s', snd r)))) /\
  (clash -> GetOrCreateIntConst_IntVal s x ty = Fault Undefined \/
    exists p ty', GetOrCreateIntConst_IntVal s x ty = Ret (s, p) /\ ty' <> ty /\
      const_at (objects s) p ty' (ival x)).
Proof.
  intros Hs Hd Ht Hx. destruct (IsInt128Ty (type_prim ty)) eqn:E128; intros Hw clash.
  - destruct (raw_words x Hx Hw) as (ws & Hww & Hl & Hraw & Ev).
    assert (clash <-> other_type s (take 2 ws) ty) as ->.
    { unfold clash, other_type. setoid_rewrite <- Ev. split; [intros [_ (k & p & Hin & E & Hi)]|intros (k & p & Hin & <- & Hi); eauto 6].
      exists k, p. split_and!; [done| |done]. pose proof (array_ok_take ws Hww Hl) as Hk.
      pose proof (entries_arrays _ _ (proj2 (proj1 Hs))) as Harr. unfold key_arrays in Harr. rewrite Forall_forall in Harr.
      specialize (Harr (k, p) (proj2 (list_elem_of_In _ _) Hin)). cbn [fst] in Harr.
      apply (eval_inj 64 ltac:(lia)); [apply Harr|apply Hk| |done]. by rewrite (array_ok_length _ _ _ Harr), (array_ok_length _ _ _ Hk). }
    assert (forall s', GetOrCreateIntConst_IntVal s' x ty = DoGetOrCreateInt128Const s' ws ty) as Edo.
    { intros s'. unfold GetOrCreateIntConst_IntVal. by rewrite E128, Hraw. }
    assert (forall objs p ty', const_at objs p ty' (eval 64 (take 2 ws)) -> IsInt128Ty (type_prim ty') = true ->
      const_at objs p ty' (ival x)) as Hval.
    { intros objs p ty' (c & Ec & Etc & Hc) E'. exists c. split; [done|]. split; [done|]. eapply typed_int_congr; [|exact Hc].
      by rewrite int128_width, Ev, wrap_wrap by (done || lia). }
    split.
    + intros Hno. rewrite Edo. eapply wp_mono; [by apply DoGetOrCreate128_spec|].
      intros [s1 p] (Hs1 & Hd1 & Hext & Hc & Hkey). cbn [fst snd] in *. split_and!; [done..|by apply Hval|].
      intros s' (_ & _ & [l El]). rewrite Edo. unfold DoGetOrCreateInt128Const, mk_Int128ConstKey, slice.
      rewrite (proj2 (Nat.leb_le _ _)) by lia. cbn [mbind res_bind]. rewrite drop_0, El.
      by rewrite (find128_app _ _ _ _ Hkey).
    + intros Hother. rewrite Edo.
      destruct (DoGetOrCreate128_other s ws ty) as [E|(p & ty' & E & Hne & H128 & Hc)]; [done..|by left|right].
      exists p, ty'. split_and!; [done|done|by apply Hval].
  - split; [intros _|intros [E _]; discriminate E]. unfold GetOrCreateIntConst_IntVal. rewrite E128, GetExtValue_one by done.
    cbn [mbind res_bind]. eapply wp_mono; [by apply DoGetOrCreate_spec|].
    intros [s1 p] (Hs1 & Hext & Hc & Hkey & E1). cbn [fst snd] in *. split_and!; try done.
    + unfold words_distinct. by rewrite E1.
    + by rewrite ext64_wrap, ext64_key in Hc.
    + intros s' (_ & Hsub & _). unfold DoGetOrCreateIntConst.
      by rewrite (lookup_weaken _ _ _ _ Hkey Hsub).
Qed.

(** *** The parallel phases *)

Definition request (t : thread) : Z * MIRType :=
  match t with Searching v ty | Creating v ty | Returned v ty _ => (v, ty) end.
(** The steps a thread has left. *)
Definition pending (t : thread) : nat :=
  match t with Searching _ _ => 2 | Creating _ _ => 1 | Returned _ _ _ => 0 end.
Definition answer_ok (objs : list MIRIntConst) (t : thread) : Prop :=
  match t with Returned v ty p => const_at objs p ty (ext64 ty v) | _ => True end.
Definition thread_ok (objs : list MIRIntConst) (t : thread) : Prop :=
  type_ok (snd (request t)) /\ answer_ok objs t.

Lemma thread_ok_app objs objs' t : thread_ok objs t -> thread_ok (objs ++ objs') t.
Proof. intros [Ht Ha]. split; [done|]. destruct t; [done|done|]. by apply const_at_app. Qed.

(** A step of a thread neither faults nor changes what it was asked for. *)
Lemma thread_step_ok s t :
  entries_ok s -> thread_ok (objects s) t ->
  wp (thread_step s t) (fun r =>
    entries_ok (fst r) /\ thread_ok (objects (fst r)) (snd r) /\
    objects s `prefix_of` objects (fst r) /\ request (snd r) = request t /\
    (pending (snd r) <= pred (pending t))%nat).
Proof.
  intros Hs Hok. pose proof Hok as [Ht Ha]. destruct t as [v ty|v ty|v ty p]; cbn [request snd] in Ht; cbn [thread_step].
  - apply wp_ret. cbn [fst snd]. destruct (intConstTable s !! _) as [p|] eqn:E.
    + split_and!; try done; [|cbn; lia]. split; [done|].
      destruct (proj1 Hs _ _ E) as (ty' & Ht' & Hi & Hc). cbn in Hi, Hc. cbn [answer_ok].
      rewrite ext64_key in Hc. by rewrite (type_ok_inj ty ty') in * by done.
    + split_and!; done.
  - apply wp_bind. eapply wp_mono; [apply MIRIntConst_val_spec, Ht|]. intros c [Hc Hv].
    apply wp_ret. cbn [fst snd]. split_and!; try done.
    + by apply set64_entries.
    + split; [done|]. by apply const_at_new.
    + by apply prefix_app_r.
  - apply wp_ret. by split_and!.
Qed.

Definition par_ok (st : IntConstTable * list thread) : Prop :=
  entries_ok (fst st) /\ Forall (thread_ok (objects (fst st))) (snd st).

Lemma par_step_ok st st' :
  par_step st st' -> par_ok st ->
  par_ok st' /\ objects (fst st) `prefix_of` objects (fst st') /\
  map request (snd st') = map request (snd st).
Proof.
  intros [s ts i t s' t' Hi Hstep] [Hs Hts]. cbn [fst snd] in *.
  pose proof (thread_step_ok s t Hs (Forall_lookup_1 _ _ _ _ Hts Hi)) as Hw. rewrite Hstep in Hw.
  destruct Hw as (Hs' & Ht' & [l El] & Hreq & _). cbn [fst snd] in *. split_and!.
  - split; [done|]. cbn. apply Forall_insert; [|done].
    rewrite El. eapply Forall_impl; [exact Hts|]. intros. by apply thread_ok_app.
  - by exists l.
  - apply list_eq. intros j.
    rewrite !list_lookup_fmap. destruct (decide (i = j)) as [<-|Hne].
    + rewrite list_lookup_insert_eq, Hi by (by eapply lookup_lt_Some). cbn. by rewrite Hreq.
    + by rewrite list_lookup_insert_ne.
Qed.

(** C24: in every interleaving of threads that look up constants, the entries
    stay right and no constant is changed; a thread never faults, is done
    after two of its own steps, and has the constant it asked for. *)
Theorem const_table_parallel s reqs s' ts' :
  entries_ok s -> Forall (fun r => type_ok (snd r)) reqs ->
  rtc par_step (s, map (fun r => Searching (fst r) (snd r)) reqs) (s', ts') ->
  entries_ok s' /\ objects s `prefix_of` objects s' /\ map request ts' = reqs /\
  (forall i v ty p, ts' !! i = Some (Returned v ty p) -> const_at (objects s') p ty (ext64 ty v)) /\
  (forall i t, ts' !! i = Some t -> exists s2 t2, thread_step s' t = Ret (s2, t2) /\
     (pending t2 <= pred (pending t))%nat).
Proof.
  intros Hs Hreqs Hsteps.
  assert (par_ok (s', ts') /\ objects s `prefix_of` objects s' /\ map request ts' = reqs)
    as ([Hs' Hts'] & Hpre & Hmap).
  { apply (rtc_ind_r (R := par_step) (fun st => par_ok st /\ objects s `prefix_of` objects (fst st) /\
      map request (snd st) = reqs) (s, map (fun r => Searching (fst r) (snd r)) reqs)); [| |done].
    - split_and!; [split; [done|]|done|].
      + apply List.Forall_map. eapply Forall_impl; [exact Hreqs|]. by intros r Hr.
      + cbn. rewrite map_map. cbn. rewrite <- (map_id reqs) at 2. apply map_ext. by intros [].
    - intros st1 st2 _ Hstep (Hok & Hpre & Hmap).
      destruct (par_step_ok _ _ Hstep Hok) as (Hok' & Hpre' & Hmap'). split_and!; [done| |congruence].
      by etrans. }
  split_and!; try done.
  - intros i v ty p Ei. exact (proj2 (Forall_lookup_1 _ _ _ _ Hts' Ei)).
  - intros i t Ei. destruct (wp_returns _ _ (thread_step_ok s' t Hs' (Forall_lookup_1 _ _ _ _ Hts' Ei)))
      as ([s2 t2] & E & _ & _ & _ & _ & Hp). by exists s2, t2.
Qed.
End Facts.

Lemma par_run_steps `{Target} sched st st' : par_run sched st = Ret st' -> rtc par_step st st'.
Proof.
  revert st. induction sched as [|i sched IH]; intros [s ts]; cbn [par_run fst snd].
  - intros [= <-]. apply rtc_refl.
  - destruct (ts !! i) as [t|] eqn:Ei; [|done].
    destruct (thread_step s t) as [[s1 t1]|] eqn:Et; [|done]. cbn [mbind res_bind fst snd]. intros Hrun.
    eapply rtc_l; [by econstructor|]. by apply IH.
Qed.

(** ** Concrete tables *)

Definition id_hash : StdHash := fun z => z.
Definition ty_of (t : PrimType) : MIRType := MkMIRType (Z.of_nat (pty_num t)) t.

Lemma type_ok_prim `{Target} t : IsPrimitiveInteger t = true -> type_ok TypeTable_init (ty_of t).
Proof.
  intros Ht. split; [|split; [apply pty_num_range|done]]. cbn. rewrite Nat2Z.id.
  apply TypeTable_init_spec. by intros ->.
Qed.

Lemma const_table_interns_witness :
  wp (@GetOrCreateIntConst false IntConstTable_empty 300 (ty_of PTY_u8)) (fun r =>
    @const_at false (objects (fst r)) (snd r) (ty_of PTY_u8) 300).
Proof.
  eapply wp_mono.
  - exact (@const_table_interns false TypeTable_init IntConstTable_empty 300 (ty_of PTY_u8)
             (@table_ok_empty false TypeTable_init) (@type_ok_prim false PTY_u8 eq_refl)).
  - intros r (_ & _ & Hc & _). exact Hc.
Defined.

Lemma const_table_interns_IntVal_witness :
  wp (@GetOrCreateIntConst_IntVal false id_hash IntConstTable_empty i128_m3 (ty_of PTY_i128)) (fun r =>
    @const_at false (objects (fst r)) (snd r) (ty_of PTY_i128) (-3)).
Proof.
  eapply wp_mono.
  - refine (proj1 (@const_table_interns_IntVal false id_hash TypeTable_init IntConstTable_empty i128_m3
      (ty_of PTY_i128) (@table_ok_empty false TypeTable_init) _ (@type_ok_prim false PTY_i128 eq_refl)
      wf_i128_m3 _) _).
    + constructor.
    + vm_compute. congruence.
    + intros (_ & k & p & Hin & _). destruct Hin.
  - intros r (_ & _ & _ & Hc & _). exact Hc.
Defined.

Definition race_start : IntConstTable * list thread :=
  (IntConstTable_empty, map (fun r => Searching (fst r) (snd r)) [(5, ty_of PTY_i32); (5, ty_of PTY_i32)]).

Lemma const_table_parallel_witness :
  exists s' ts', @par_run false [0; 1; 0; 1]%nat race_start = Ret (s', ts') /\
    forall i v ty p, ts' !! i = Some (Returned v ty p) -> @const_at false (objects s') p ty (@ext64 ty v).
Proof.
  destruct (@par_run false [0; 1; 0; 1]%nat race_start) as [[s' ts']|] eqn:E;
    [|vm_compute in E; discriminate E].
  exists s', ts'. split; [done|].
  refine (proj1 (proj2 (proj2 (proj2 (@const_table_parallel false TypeTable_init IntConstTable_empty
    [(5, ty_of PTY_i32); (5, ty_of PTY_i32)] s' ts' (proj1 (@table_ok_empty false TypeTable_init)) _
    (@par_run_steps false _ _ _ E)))))).
  repeat constructor; apply (@type_ok_prim false PTY_i32 eq_refl).
Defined.

(** ** Where the table departs from interning *)

(** Two threads that miss before either creates get two constants for one key:
    the search is not repeated under the exclusive lock.  The table keeps the
    second, so the destructor deletes one of the two. *)
Example race_two_constants :
  exists s', @par_run false [0; 1; 0; 1]%nat race_start =
      Ret (s', [Returned 5 (ty_of PTY_i32) 0; Returned 5 (ty_of PTY_i32) 1]) /\
    length (objects s') = 2%nat /\ IntConstTable_dtor s' = [1%nat].
Proof. eexists. split; [vm_compute; reflexivity|]. split; reflexivity. Qed.

(** The comparison of 128-bit keys ignores the type, which the hash does not: with
    most hash functions the search for the signed constant is undefined beside the
    unsigned one; with one that sends the two type indices to one code, the
    unsigned constant is returned for the signed type. *)
Example int128_clash :
  (r ← @GetOrCreateIntConst_IntVal false id_hash IntConstTable_empty
         (repr 128 false 7) (ty_of PTY_u128);
   @GetOrCreateIntConst_IntVal false id_hash (fst r) (repr 128 true 7) (ty_of PTY_i128)) = Fault Undefined.
Proof. vm_compute. reflexivity. Qed.

Example int128_wrong_type :
  (r ← @GetOrCreateIntConst_IntVal false (fun _ => 0) IntConstTable_empty
         (repr 128 false 7) (ty_of PTY_u128);
   r ← @GetOrCreateIntConst_IntVal false (fun _ => 0) (fst r) (repr 128 true 7) (ty_of PTY_i128);
   Ret (GetType <$> objects (fst r) !! snd r)) = Ret (Some (ty_of PTY_u128)).
Proof. vm_compute. reflexivity. Qed.

(** The 128-bit constants are not deleted with the table. *)
Example int128_not_deleted :
  (r ← @GetOrCreateIntConst_IntVal false id_hash IntConstTable_empty i128_m3 (ty_of PTY_i128);
   Ret (length (objects (fst r)), IntConstTable_dtor (fst r))) = Ret (1%nat, []).
Proof. vm_compute. reflexivity. Qed.

(** A one-word value is read past its word when the type has 128 bits. *)
Example int128_from_one_word :
  @GetOrCreateIntConst_IntVal false id_hash IntConstTable_empty (repr 32 true 5) (ty_of PTY_i128)
  = Fault OutOfBounds.
Proof. vm_compute. reflexivity. Qed.
