(* ===== verification/ConstantFold.v ===== *)
(** * Folding of integer constants

    The part of mpl2mpl/src/constantfold.cpp that computes on integer constants:
    the folding of comparisons, binary and unary operators and conversions to
    one constant, and the arithmetic on the constant that DispatchFold carries
    beside an expression.  Constants are interned, so a fold takes and returns the
    table of constants. *)
From S2P Require Import Prelude.
From S2P Require Import PrimTypes.
From S2P Require Import Opcodes.
From S2P Require Import IntWords.
From S2P Require Import IntVal.
From S2P Require Import IntConst.

Definition kJsTypeNumber : Z := 4.
Definition kJsTypeNumberInHigh32Bit : Z := Z.shiftl kJsTypeNumber 32.

(** enum CompareRes : int64 *)
Definition kLess : Z := -1.
Definition kEqual : Z := 0.
Definition kGreater : Z := 1.

(** ** Tests on 64-bit words *)

Definition ContiguousBitsOf1 (x : Z) : bool :=
  if x =? 0 then false
  else Z.land (notw 64 x) (wrap 64 (x + 1)) =? wrap 64 (x + 1).

Definition IsPowerOf2_u64 (num : Z) : bool :=
  if num =? 0 then false
  else Z.land (notw 64 (wrap 64 (num - 1))) num =? num.

(** The operation overflows the type; [cstA] and [cstB] are int64. *)
Definition IntegerOpIsOverflow `{Target} (op : Opcode) (primType : PrimType) (cstA cstB : Z) : bool :=
  let sign_flag v := shr 64 (wrap 64 v) (GetPrimTypeBitSize primType - 1) in
  match op with
  | OP_add =>
      let res := swrap 64 (wrap 64 (wrap 64 cstA + wrap 64 cstB)) in
      if IsUnsignedInteger primType then wrap 64 res <? wrap 64 cstA
      else negb (sign_flag res =? sign_flag cstA) && negb (sign_flag res =? sign_flag cstB)
  | OP_sub =>
      if IsUnsignedInteger primType then cstA <? cstB
      else
        let res := swrap 64 (wrap 64 (wrap 64 cstA - wrap 64 cstB)) in
        negb (sign_flag cstA =? sign_flag cstB) && negb (sign_flag res =? sign_flag cstA)
  | _ => false
  end.

Section Fold.
Context `{Target}.
(** The entries of the type table *)
Context (typeTable : list (option MIRType)).
Implicit Types (s : IntConstTable) (resultType opndType : PrimType).

(** ** The constant beside an expression *)

(** operator* on std::optional<IntVal> *)
Definition opt_mul (v1 v2 : option IntVal) : res (option IntVal) :=
  match v1, v2 with
  | None, None => Ret None
  | Some a, Some b => r ← Mul a b PTY_i64; Ret (Some r)
  | _, _ => r ← IntVal_typed 0 PTY_i64; Ret (Some r)
  end.

Definition AddSub (v1 v2 : option IntVal) (isAdd : bool) : res (option IntVal) :=
  match v1, v2 with
  | None, None => Ret None
  | Some a, Some b => r ← (if isAdd then Add a b PTY_i64 else Sub a b PTY_i64); Ret (Some r)
  | Some a, None => r ← TruncOrExtend a PTY_i64; Ret (Some r)
  | None, Some b =>
      r ← TruncOrExtend b PTY_i64;
      if isAdd then Ret (Some r) else r ← op_neg r; Ret (Some r)
  end.

(** The constant is added as it is: it is positive in the result type, or the
    least integer of the result type or of int64. *)
Definition added_as_is resultType (v : IntVal) (neg : bool) : res bool :=
  pos ← (if negb neg then
           x ← GetSXTValue_size v (wrap 8 (GetPrimTypeBitSize resultType));
           Ret (0 <? x)
         else Ret false);
  if pos : bool then Ret true
  else
    t ← TruncOrExtend v resultType;
    m ← IsMinValue t;
    if m : bool then Ret true
    else x ← GetSXTValue v; Ret (x =? - 2 ^ 63).

(** ** Folding to a constant *)

(** The end of the folds: the type, and the constant of the bits *)
Definition form_constant s resultType (bits : Z) : res (IntConstTable * nat) :=
  type ← GetPrimType_of typeTable resultType;
  if pty_eqb (type_prim type) PTY_dyni32 then
    r ← GetOrCreateIntConst s 0 type;
    _ ← SetValue (swrap 64 (Z.lor kJsTypeNumberInHigh32Bit bits));
    Ret r
  else GetOrCreateIntConst s bits type.

Definition FoldIntConstComparisonMIRConst s (opcode : Opcode) resultType opndType
    (intConst0 intConst1 : MIRIntConst) : res (IntConstTable * nat) :=
  greater ← Greater (GetValue intConst0) (GetValue intConst1) opndType;
  equal ← Equal (GetValue intConst0) (GetValue intConst1) opndType;
  less ← Less (GetValue intConst0) (GetValue intConst1) opndType;
  result ← (match opcode with
            | OP_eq => Ret (Z.b2z equal)
            | OP_ge => Ret (if greater || equal then 1 else 0)
            | OP_gt => Ret (Z.b2z greater)
            | OP_le => Ret (if less || equal then 1 else 0)
            | OP_lt => Ret (Z.b2z less)
            | OP_ne => Ret (Z.b2z (negb equal))
            | OP_cmp => Ret (if greater : bool then kGreater else if equal : bool then kEqual
                             else if less : bool then wrap 64 kLess else 0)
            | _ => Fault AssertFail
            end);
  form_constant s resultType result.

(** [intVal1.GetZXTValue() % GetAlignedPrimTypeBitSize(resultType)] *)
Definition fold_shift_count (intVal1 : IntVal) resultType : res Z :=
  n ← GetZXTValue intVal1; Ret (n mod GetAlignedPrimTypeBitSize resultType).

(** [v.GetExtValue()] as a condition *)
Definition ext_nonzero (v : IntVal) : res bool := e ← GetExtValue v; Ret (negb (e =? 0)).

Definition FoldIntConstBinary_value (opcode : Opcode) resultType (intVal0 intVal1 : IntVal) : res IntVal :=
  match opcode with
  | OP_add => Add intVal0 intVal1 resultType
  | OP_sub => Sub intVal0 intVal1 resultType
  | OP_mul => Mul intVal0 intVal1 resultType
  | OP_div => Div intVal0 intVal1 resultType
  | OP_rem => Rem intVal0 intVal1 resultType
  | OP_ashr => n ← fold_shift_count intVal1 resultType; AShr intVal0 n resultType
  | OP_lshr => n ← fold_shift_count intVal1 resultType; LShr intVal0 n resultType
  | OP_shl => n ← fold_shift_count intVal1 resultType; Shl intVal0 n resultType
  | OP_max => Max intVal0 intVal1 resultType
  | OP_min => Min intVal0 intVal1 resultType
  | OP_band => And intVal0 intVal1 resultType
  | OP_bior => Or intVal0 intVal1 resultType
  | OP_bxor => Xor intVal0 intVal1 resultType
  | OP_cand | OP_land =>
      a ← ext_nonzero intVal0;
      b ← (if a : bool then ext_nonzero intVal1 else Ret false);
      IntVal_typed (Z.b2z b) resultType
  | OP_cior | OP_lior =>
      a ← ext_nonzero intVal0;
      b ← (if a : bool then Ret true else ext_nonzero intVal1);
      IntVal_typed (Z.b2z b) resultType
  | _ => Fault AssertFail
  end.

Definition FoldIntConstBinaryMIRConst s (opcode : Opcode) resultType
    (intConst0 intConst1 : MIRIntConst) : res (IntConstTable * nat) :=
  intVal0 ← IntVal_copy (GetValue intConst0);
  intVal1 ← IntVal_copy (GetValue intConst1);
  result ← IntVal_typed 0 resultType;
  v ← FoldIntConstBinary_value opcode resultType intVal0 intVal1;
  result ← assign_move result v;
  e ← GetExtValue result;
  form_constant s resultType (wrap 64 e).

Definition FoldIntConstUnaryMIRConst s (opcode : Opcode) resultType (constNode : MIRIntConst)
    : res (IntConstTable * nat) :=
  result ← TruncOrExtend (GetValue constNode) resultType;
  result ← (match opcode with
            | OP_abs =>
                neg ← (if IsSignedInteger (type_prim (GetType constNode))
                       then GetSignBit result else Ret false);
                if neg : bool then n ← op_neg result; assign_move result n else Ret result
            | OP_bnot => n ← op_not result; assign_move result n
            | OP_lnot =>
                z ← op_eq_int64 result 0;
                n ← IntVal_typed (if z : bool then 1 else 0) resultType;
                assign_move result n
            | OP_neg => n ← op_neg result; assign_move result n
            | _ => Fault AssertFail
            end);
  e ← GetExtValue result;
  form_constant s resultType (wrap 64 e).

(** ** Conversions *)

Definition FoldSignExtendMIRConst s (opcode : Opcode) resultType (size : Z) (val : IntVal)
    : res (IntConstTable * nat) :=
  result ← (if op_eqb opcode OP_sext then v ← GetSXTValue_size val size; Ret (wrap 64 v)
            else GetZXTValue_size val size);
  type ← GetPrimType_of typeTable resultType;
  GetOrCreateIntConst s result type.

Definition FoldSignExtend s (opcode : Opcode) resultType (size : Z) (intCst : MIRIntConst)
    : res (IntConstTable * nat) :=
  val ← TruncOrExtend_width (GetValue intCst) size (op_eqb opcode OP_sext);
  FoldSignExtendMIRConst s opcode resultType size val.

(** The width of a type in a conversion: u1 has one bit. *)
Definition cvt_size (t : PrimType) : Z := if pty_eqb t PTY_u1 then 1 else GetPrimTypeBitSize t.

(** FoldTypeCvtMIRConst; [on_float] stands for the three cases with a
    floating-point type, whose constants are not integers. *)
Definition FoldTypeCvtMIRConst s (on_float : PrimType -> PrimType -> res (option (IntConstTable * nat)))
    (cst : MIRIntConst) (fromType toType : PrimType) : res (option (IntConstTable * nat)) :=
  if IsPrimitiveDynType fromType || IsPrimitiveDynType toType
     || IsPrimitiveVector fromType || IsPrimitiveVector toType then Ret None
  else if pty_eqb fromType PTY_f128 || pty_eqb toType PTY_f128 then Ret None
  else if IsPrimitiveInteger fromType && IsPrimitiveInteger toType then
    let fromSize := cvt_size fromType in
    if fromSize <? cvt_size toType then
      let op := if IsSignedInteger fromType then OP_sext else OP_zext in
      v ← TruncOrExtend (GetValue cst) fromType;
      r ← FoldSignExtendMIRConst s op toType (wrap 8 fromSize) v;
      Ret (Some r)
    else
      type ← GetPrimType_of typeTable toType;
      e ← GetExtValue (GetValue cst);
      r ← GetOrCreateIntConst s (wrap 64 e) type;
      Ret (Some r)
  else if (IsPrimitiveFloat fromType && IsPrimitiveFloat toType)
          || (IsPrimitiveFloat fromType && IsPrimitiveInteger toType)
          || (IsPrimitiveInteger fromType && IsPrimitiveFloat toType) then on_float fromType toType
  else Fault CheckFatal.
End Fold.
