(* ===== verification/ConstantFoldFacts.v ===== *)
(** * Constant folding computes the value of the operation

    A folded constant has the result type and the value of the operation in
    that type, whatever the types of the operands. *)
From S2P Require Import Prelude.
From S2P Require Import PrimTypes.
From S2P Require Import Opcodes.
From S2P Require Import IntWords.
From S2P Require Import IntWordsFacts.
From S2P Require Import IntDivFacts.
From S2P Require Import IntVal.
From S2P Require Import IntValFacts.
From S2P Require Import IntValArith.
From S2P Require Import IntValOrder.
From S2P Require Import IntValCount.
From S2P Require Import IntValDiv.
From S2P Require Import IntValSpec.
From S2P Require Import IntValTyped.
From S2P Require Import IntConst.
From S2P Require Import IntConstFacts.
From S2P Require Import ConstantFold.

Section Facts.
Context `{HT : Target}.
Context (typeTable : list (option MIRType)).
Context (Htt : TypeTable_init `prefix_of` typeTable).
Implicit Types (s : IntConstTable) (t : PrimType).

Lemma type_ok_of t : IsPrimitiveInteger t = true -> type_ok typeTable (ty_of t).
Proof using HT Htt.
  intros Ht. destruct (type_ok_prim t Ht) as (E & Hr). split; [|done].
  destruct Htt as [l ->]. by apply lookup_app_l_Some.
Qed.

Lemma integer_not_begin t : IsPrimitiveInteger t = true -> t <> PTY_begin.
Proof. by intros Ht ->. Qed.

(** What a fold leaves: the table, extended, and a pointer to the constant
    [v] of type [t]. *)
Definition folds_to s t (v : Z) (r : IntConstTable * nat) : Prop :=
  table_ok typeTable (fst r) /\ extends s (fst r) /\ const_at (objects (fst r)) (snd r) (ty_of t) v.

Lemma intern_spec s t bits :
  table_ok typeTable s -> IsPrimitiveInteger t = true ->
  wp (GetOrCreateIntConst s bits (ty_of t)) (folds_to s t (norm 64 (IsSignedInteger t) bits)).
Proof using HT Htt.
  intros Hs Ht. eapply wp_mono; [apply (DoGetOrCreate_spec typeTable); [done|by apply type_ok_of]|].
  intros r (Hr & He & Hc & _). by split_and!.
Qed.

Lemma form_constant_spec s t bits :
  table_ok typeTable s -> IsPrimitiveInteger t = true ->
  wp (form_constant typeTable s t bits) (folds_to s t (norm 64 (IsSignedInteger t) bits)).
Proof using HT Htt.
  intros Hs Ht. unfold form_constant.
  rewrite GetPrimType_of_spec by (done || by apply integer_not_begin). cbn [mbind res_bind type_prim].
  assert (pty_eqb t PTY_dyni32 = false) as -> by (apply bool_decide_eq_false; by intros ->).
  by apply intern_spec.
Qed.

Lemma const_at_congr objs p t v v' :
  wrap (type_width t) v = wrap (type_width t) v' ->
  const_at objs p (ty_of t) v -> const_at objs p (ty_of t) v'.
Proof.
  intros E (c & Hp & Ht & Hv). exists c. split_and!; try done. by eapply typed_int_congr.
Qed.

Lemma folds_to_congr s t v v' r :
  wrap (type_width t) v = wrap (type_width t) v' -> folds_to s t v r -> folds_to s t v' r.
Proof. intros E (Hr & He & Hc). split_and!; try done. by eapply const_at_congr. Qed.

(** A value of the result type goes through its 64-bit extension unchanged. *)
Lemma store_spec s t v x :
  table_ok typeTable s -> small_int t -> typed_int t v x ->
  wp (e ← GetExtValue x; form_constant typeTable s t (wrap 64 e)) (folds_to s t v).
Proof using HT Htt.
  intros Hs Ht Hx. pose proof (small_width t Ht) as Hw. pose proof Hx as (Hwf & Ew & _ & Ev).
  rewrite GetExtValue_one by (done || lia). cbn [mbind res_bind].
  eapply wp_mono; [by apply form_constant_spec; [|apply Ht]|]. intros r. apply folds_to_congr.
  rewrite wrap_norm_le, wrap_wrap_le by lia.
  rewrite <- (wrap_wrap_le _ 64), swrap_congr, wrap_wrap_le by lia. rewrite Ev. by apply wrap_norm; lia.
Qed.

(** ** Binary operators *)

(** A constant of at most 64 bits *)
Definition small_val (x : IntVal) : Prop := wf x /\ width x <= 64.

Lemma GetZXTValue_one x : small_val x -> GetZXTValue x = Ret (uval x).
Proof.
  intros [Hx Hw]. unfold GetZXTValue, GetZXTValue_size. rewrite IsOneSignificantWord_one by done.
  destruct Hx as [v w b Hw0 Hv|ws n b Hn Hws]; cbn [width] in Hw; [|lia].
  unfold low_word. by rewrite IsOneWord_one by done.
Qed.

Lemma small_ival_range x : small_val x -> - 2 ^ 63 <= ival x < 2 ^ 64.
Proof.
  intros [Hx Hw]. pose proof (wf_width x Hx). pose proof (ival_range x Hx) as Hr.
  destruct (sign x); [pose proof (Z.pow_le_mono_r 2 (width x - 1) 63)
    |pose proof (Z.pow_le_mono_r 2 (width x) 64)]; lia.
Qed.

Lemma ext_nonzero_eq x : small_val x -> ext_nonzero x = Ret (negb (ival x =? 0)).
Proof.
  intros Hx. pose proof (small_ival_range x Hx) as Hr. unfold ext_nonzero.
  rewrite GetExtValue_one by apply Hx. cbn [mbind res_bind]. do 2 f_equal.
  destruct (Z.eqb_spec (ival x) 0) as [->|Hne]; [done|]. apply Z.eqb_neq. intros E. apply Hne.
  assert (wrap 64 (ival x) = 0) as E0 by (rewrite <- (swrap_congr 64), E by lia; done).
  unfold wrap in E0. apply Z.mod_divide in E0 as [k Ek]; [|lia]. nia.
Qed.

Lemma aligned_width t :
  small_int t -> 32 <= type_width t -> GetAlignedPrimTypeBitSize t = type_width t.
Proof.
  intros [Ht H128] Hw. destruct t; try discriminate Ht; try discriminate H128; destruct HT;
    vm_compute in Hw; reflexivity || (exfalso; apply Hw; reflexivity).
Qed.

Lemma bool_int t (b : bool) :
  small_int t -> wp (IntVal_typed (Z.b2z b) t) (typed_int t (Z.b2z b)).
Proof.
  intros Ht. rewrite IntVal_typed_eq by apply Ht. pose proof (small_width t Ht) as Hw.
  eapply ret_is_int'; [by apply small_valid|done|]. by apply wrap_norm_le.
Qed.

(** The value of a binary operator in the type [t]: shift counts are taken
    modulo the width of the register, shifts and divisions work on the
    operand in the type. *)
Definition fold_value (op : Opcode) t (x y : IntVal) : option Z :=
  let a := ival x in let b := ival y in let w := type_width t in
  let n := uval y mod w in
  match op with
  | OP_add => Some (a + b)
  | OP_sub => Some (a - b)
  | OP_mul => Some (a * b)
  | OP_div => Some (Z.quot (in_type t a) (in_type t b))
  | OP_rem => Some (Z.rem (in_type t a) (in_type t b))
  | OP_shl => Some (a * 2 ^ n)
  | OP_lshr => Some (wrap w a / 2 ^ n)
  | OP_ashr => Some (swrap w a / 2 ^ n)
  | OP_max => Some (Z.max a b)
  | OP_min => Some (Z.min a b)
  | OP_band => Some (Z.land a b)
  | OP_bior => Some (Z.lor a b)
  | OP_bxor => Some (Z.lxor a b)
  | OP_land | OP_cand => Some (Z.b2z (negb (a =? 0) && negb (b =? 0)))
  | OP_lior | OP_cior => Some (Z.b2z (negb (a =? 0) || negb (b =? 0)))
  | _ => None
  end.

(** What an operator needs beyond that *)
Definition fold_ok (op : Opcode) t (x y : IntVal) : Prop :=
  match op with
  | OP_div | OP_rem => div_ok_in t (ival x) (ival y)
  | OP_shl | OP_lshr | OP_ashr => 32 <= type_width t
  | OP_max | OP_min => has_type t x /\ has_type t y
  | _ => True
  end.

Lemma fold_shift_count_eq t y :
  small_val y -> small_int t -> 32 <= type_width t ->
  fold_shift_count y t = Ret (uval y mod type_width t).
Proof.
  intros Hy Ht Hw. unfold fold_shift_count. rewrite GetZXTValue_one by done. cbn [mbind res_bind].
  by rewrite aligned_width.
Qed.

Lemma fold_shifts t x y :
  small_val x -> small_val y -> small_int t -> 32 <= type_width t ->
  let n := uval y mod type_width t in
  wp (FoldIntConstBinary_value OP_shl t x y) (typed_int t (ival x * 2 ^ n)) /\
  wp (FoldIntConstBinary_value OP_lshr t x y) (typed_int t (wrap (type_width t) (ival x) / 2 ^ n)) /\
  wp (FoldIntConstBinary_value OP_ashr t x y) (typed_int t (swrap (type_width t) (ival x) / 2 ^ n)).
Proof.
  intros [Hx Hxw] Hy Ht Hw n. pose proof (small_width t Ht) as Hr.
  assert (0 <= n < type_width t) as Hn by (apply Z.mod_pos_bound; lia).
  cbn [FoldIntConstBinary_value]. rewrite fold_shift_count_eq by done. cbn [mbind res_bind]. fold n.
  split_and!; [apply typed_shl|apply typed_lshr|apply typed_ashr]; try done; try lia. apply Ht.
Qed.

Lemma fold_minmax t x y :
  wf x -> wf y -> small_int t -> has_type t x -> has_type t y ->
  wp (Max x y t) (typed_int t (Z.max (ival x) (ival y))) /\
  wp (Min x y t) (typed_int t (Z.min (ival x) (ival y))).
Proof.
  intros Hx Hy Ht Tx Ty. rewrite typed_max, typed_min by done. destruct Ht as [Ht _].
  destruct (Z.ltb_spec (ival x) (ival y));
    [rewrite Z.max_r, Z.min_l by lia|rewrite Z.max_l, Z.min_r by lia];
    split; by apply has_type_is_int.
Qed.

Lemma fold_logical t x y :
  small_val x -> small_val y -> small_int t ->
  wp (FoldIntConstBinary_value OP_land t x y)
    (typed_int t (Z.b2z (negb (ival x =? 0) && negb (ival y =? 0)))) /\
  wp (FoldIntConstBinary_value OP_lior t x y)
    (typed_int t (Z.b2z (negb (ival x =? 0) || negb (ival y =? 0)))).
Proof.
  intros Hx Hy Ht. cbn [FoldIntConstBinary_value]. rewrite !ext_nonzero_eq by done.
  cbn [mbind res_bind]. destruct (ival x =? 0); cbn [negb andb orb mbind res_bind];
    split; by apply bool_int.
Qed.

Lemma fold_value_spec op t x y v :
  small_val x -> small_val y -> small_int t -> fold_ok op t x y -> fold_value op t x y = Some v ->
  wp (FoldIntConstBinary_value op t x y) (typed_int t v).
Proof.
  intros Hx Hy Ht Hok Hv. pose proof (proj1 Hx) as Hxw. pose proof (proj1 Hy) as Hyw.
  pose proof (proj1 Ht) as Hint.
  destruct (typed_ring t x y Hxw Hyw Hint) as (H1 & H2 & H3 & H4 & H5 & H6).
  destruct (fold_logical t x y Hx Hy Ht) as [H7 H8].
  destruct op; try discriminate Hv; injection Hv as <-; cbn [fold_ok] in Hok.
  - exact H1.
  - exact H2.
  - exact H3.
  - exact (proj1 (typed_div x y t Hxw Hyw Ht Hok)).
  - exact (proj2 (typed_div x y t Hxw Hyw Ht Hok)).
  - exact (proj2 (proj2 (fold_shifts t x y Hx Hy Ht Hok))).
  - exact (proj1 (proj2 (fold_shifts t x y Hx Hy Ht Hok))).
  - exact (proj1 (fold_shifts t x y Hx Hy Ht Hok)).
  - exact (proj1 (fold_minmax t x y Hxw Hyw Ht (proj1 Hok) (proj2 Hok))).
  - exact (proj2 (fold_minmax t x y Hxw Hyw Ht (proj1 Hok) (proj2 Hok))).
  - exact H4.
  - exact H5.
  - exact H6.
  - exact H7.
  - exact H8.
  - exact H7.
  - exact H8.
Qed.

(** ** The claims *)

(** A folded binary operator interns the constant of its value. *)
Lemma fold_binary_folds s op t c0 c1 v :
  table_ok typeTable s -> small_int t -> small_val (GetValue c0) -> small_val (GetValue c1) ->
  fold_value op t (GetValue c0) (GetValue c1) = Some v ->
  fold_ok op t (GetValue c0) (GetValue c1) ->
  wp (FoldIntConstBinaryMIRConst typeTable s op t c0 c1) (folds_to s t v).
Proof using HT Htt.
  intros Hs Ht H0 H1 Hv Hok. unfold FoldIntConstBinaryMIRConst.
  rewrite !IntVal_copy_spec by (apply H0 || apply H1). rewrite IntVal_typed_eq by apply Ht.
  cbn [mbind res_bind]. apply wp_bind. eapply wp_mono; [by apply fold_value_spec|].
  intros x Hx. pose proof Hx as (_ & Ew & Es & _). unfold assign_move.
  rewrite same_type_intro by (cbn; congruence).
  pose proof (small_width t Ht). rewrite (proj2 (Z.eqb_neq _ _)) by (cbn; lia).
  cbn [ASSERT mbind res_bind]. by apply store_spec.
Qed.

(** A division that would trap stops at the assertion of IntVal. *)
Lemma fold_binary_traps s op t c0 c1 :
  small_int t -> small_val (GetValue c0) -> small_val (GetValue c1) -> op = OP_div \/ op = OP_rem ->
  ~ fold_ok op t (GetValue c0) (GetValue c1) -> FoldIntConstBinaryMIRConst typeTable s op t c0 c1 = Fault AssertFail.
Proof.
  intros Ht H0 H1 Hop Hno. pose proof (small_valid t Ht) as Hw. unfold FoldIntConstBinaryMIRConst.
  rewrite !IntVal_copy_spec by (apply H0 || apply H1). rewrite IntVal_typed_eq by apply Ht. cbn [mbind res_bind].
  revert Hno. destruct Hop as [-> | ->]; intros Hno; cbn [FoldIntConstBinary_value]; unfold Div, Rem, op_div, op_rem;
    rewrite typed_pair by (apply H0 || apply H1 || apply Ht);
    (rewrite div_asserts_fail; [done|by apply repr_wf|by apply repr_wf|done|done|]);
    unfold div_ok; rewrite !ival_in_type by apply Ht; exact Hno.
Qed.

(** C25: folding a binary operator on constants of at most 64 bits interns the
    constant of the result type with the value of the operator in that type;
    a division by zero, an overflowing signed division and an opcode without
    a folding stop at an assertion. *)
Theorem fold_int_binary s op t c0 c1 :
  table_ok typeTable s -> small_int t -> small_val (GetValue c0) -> small_val (GetValue c1) ->
  (forall v, fold_value op t (GetValue c0) (GetValue c1) = Some v ->
     fold_ok op t (GetValue c0) (GetValue c1) ->
     wp (FoldIntConstBinaryMIRConst typeTable s op t c0 c1) (folds_to s t v)) /\
  (fold_value op t (GetValue c0) (GetValue c1) = None ->
     FoldIntConstBinaryMIRConst typeTable s op t c0 c1 = Fault AssertFail) /\
  (op = OP_div \/ op = OP_rem -> ~ fold_ok op t (GetValue c0) (GetValue c1) ->
     FoldIntConstBinaryMIRConst typeTable s op t c0 c1 = Fault AssertFail).
Proof using HT Htt.
  intros Hs Ht H0 H1. split; [intros v Hv Hok; by apply fold_binary_folds|].
  split; [|intros Hop Hno; by apply fold_binary_traps]. unfold FoldIntConstBinaryMIRConst.
  rewrite !IntVal_copy_spec by (apply H0 || apply H1). rewrite IntVal_typed_eq by apply Ht.
  intros Hnone. by destruct op.
Qed.

(** The value of a comparison: 0 or 1, or the order as -1, 0 or 1. *)
Definition compare_value (op : Opcode) (a b : Z) : option Z :=
  match op with
  | OP_cmp => Some (if b <? a then kGreater else if a =? b then kEqual else kLess)
  | _ => Z.b2z <$> cmp_sem op a b
  end.

Lemma fold_comparison_folds s op t opndType c0 c1 :
  table_ok typeTable s -> IsPrimitiveInteger t = true -> IsPrimitiveInteger opndType = true ->
  wf (GetValue c0) -> wf (GetValue c1) ->
  order_decided opndType (in_type opndType (ival (GetValue c0))) (in_type opndType (ival (GetValue c1))) ->
  match compare_value op (in_type opndType (ival (GetValue c0))) (in_type opndType (ival (GetValue c1))) with
  | Some v => wp (FoldIntConstComparisonMIRConst typeTable s op t opndType c0 c1)
                (folds_to s t (norm 64 (IsSignedInteger t) v))
  | None => FoldIntConstComparisonMIRConst typeTable s op t opndType c0 c1 = Fault AssertFail
  end.
Proof using HT Htt.
  intros Hs Ht Ho H0 H1 Hdec. unfold FoldIntConstComparisonMIRConst.
  destruct (typed_compare opndType _ _ H0 H1 Ho) as (-> & H & _).
  destruct (H Hdec) as [-> ->]. cbn [mbind res_bind].
  set (a := in_type _ _). set (b := in_type _ _).
  assert (forall r v, wrap 64 r = wrap 64 v ->
    wp (form_constant typeTable s t r) (folds_to s t (norm 64 (IsSignedInteger t) v))) as Hform.
  { intros r v E. rewrite (norm_congr 64 _ v r) by done. by apply form_constant_spec. }
  destruct op; cbn [compare_value cmp_sem]; try done; apply Hform; try reflexivity.
  - destruct (Z.ltb_spec b a), (Z.eqb_spec a b), (Z.leb_spec b a); done || lia.
  - destruct (Z.ltb_spec a b), (Z.eqb_spec a b), (Z.leb_spec a b); done || lia.
  - destruct (Z.ltb_spec b a), (Z.eqb_spec a b), (Z.ltb_spec a b); done || lia.
Qed.

(** Folding a comparison interns the truth value, or the order, of the
    operands as integers of the operand type, where the order is decided; other opcodes, among them cmpl
    and cmpg, stop at an assertion. *)
Theorem fold_int_comparison s op t opndType c0 c1 :
  table_ok typeTable s -> IsPrimitiveInteger t = true -> IsPrimitiveInteger opndType = true ->
  wf (GetValue c0) -> wf (GetValue c1) ->
  order_decided opndType (in_type opndType (ival (GetValue c0))) (in_type opndType (ival (GetValue c1))) ->
  match compare_value op (in_type opndType (ival (GetValue c0))) (in_type opndType (ival (GetValue c1))) with
  | Some v => wp (FoldIntConstComparisonMIRConst typeTable s op t opndType c0 c1)
                (folds_to s t (norm 64 (IsSignedInteger t) v))
  | None => FoldIntConstComparisonMIRConst typeTable s op t opndType c0 c1 = Fault AssertFail
  end.
Proof using HT Htt. apply fold_comparison_folds. Qed.

(** ** Unary operators *)

(** The value of a unary operator; [signed]: the operand's type is signed. *)
Definition unary_value (op : Opcode) (signed : bool) t (a : Z) : option Z :=
  match op with
  | OP_abs => Some (if signed && Z.testbit a (type_width t - 1) then - a else a)
  | OP_bnot => Some (Z.lnot a)
  | OP_lnot => Some (Z.b2z (in_type t a =? 0))
  | OP_neg => Some (- a)
  | _ => None
  end.

Lemma op_eq_int64_0 x : small_val x -> op_eq_int64 x 0 = Ret (ival x =? 0).
Proof.
  intros Hx. unfold op_eq_int64. rewrite IsOneSignificantWord_one by apply Hx. cbn [mbind res_bind].
  pose proof (ext_nonzero_eq x Hx) as E. unfold ext_nonzero in E.
  destruct (GetExtValue x) as [e|]; [|discriminate E]. cbn [mbind res_bind] in *. injection E as E.
  f_equal. apply negb_sym in E. by rewrite negb_involutive in E.
Qed.

Lemma move_typed t v x y :
  small_int t -> typed_int t v x -> has_type t y -> wf y -> wp (assign_move y x) (typed_int t v).
Proof.
  intros Ht Hx [Ew Es] Hy. pose proof Hx as (_ & Ewx & Esx & _). unfold assign_move.
  rewrite same_type_intro by congruence. pose proof (wf_width y Hy).
  rewrite (proj2 (Z.eqb_neq _ _)) by lia. exact Hx.
Qed.

Lemma fold_unary_folds s op t c :
  table_ok typeTable s -> small_int t -> wf (GetValue c) ->
  match unary_value op (IsSignedInteger (type_prim (GetType c))) t (ival (GetValue c)) with
  | Some v => wp (FoldIntConstUnaryMIRConst typeTable s op t c) (folds_to s t v)
  | None => FoldIntConstUnaryMIRConst typeTable s op t c = Fault AssertFail
  end.
Proof using HT Htt.
  intros Hs Ht Hc. pose proof (small_valid t Ht) as Hw. pose proof (small_width t Ht) as Hr.
  unfold FoldIntConstUnaryMIRConst. rewrite TruncOrExtend_eq by (done || apply Ht). cbn [mbind res_bind].
  set (a := ival (GetValue c)). set (x := repr (type_width t) (IsSignedInteger t) a).
  assert (wf x) as Hx by (by apply repr_wf). assert (has_type t x) as Tx by done.
  assert (typed_int t a x) as Ta by (by apply is_int_repr).
  assert (forall m v, wp m (typed_int t v) -> wp (n ← m; assign_move x n) (typed_int t v)) as Hmove.
  { intros m v Hm. apply wp_bind. eapply wp_mono; [exact Hm|]. intros y Hy. by apply move_typed. }
  assert (forall m v, wp m (typed_int t v) ->
    wp (r ← m; e ← GetExtValue r; form_constant typeTable s t (wrap 64 e)) (folds_to s t v)) as Hstore.
  { intros m v Hm. apply wp_bind. eapply wp_mono; [exact Hm|]. intros y Hy. by apply store_spec. }
  assert (wp (op_neg x) (typed_int t (- a))) as Hneg.
  { eapply ret_is_int'; [done|by apply op_neg_eq|]. unfold x. rewrite uval_repr by done. apply wrap_opp. }
  destruct op; cbn [unary_value];
    lazymatch goal with |- _ = _ => reflexivity | _ => apply Hstore end.
  - destruct (IsSignedInteger (type_prim (GetType c))); cbn [andb]; [|exact Ta].
    rewrite GetSignBit_spec by done. cbn [mbind res_bind]. unfold x. rewrite uval_repr by done. fold x.
    cbn [repr width x]. rewrite testbit_wrap by lia. rewrite (proj2 (Z.ltb_lt _ _)) by lia. cbn [andb].
    destruct (Z.testbit a (type_width t - 1)); [by apply Hmove|exact Ta].
  - apply Hmove. eapply ret_is_int'; [done|by apply op_not_eq|]. unfold x. rewrite uval_repr by done.
    apply wrap_lnot. lia.
  - rewrite op_eq_int64_0 by (by split; [|cbn; lia]). cbn [mbind res_bind]. apply Hmove.
    unfold x. rewrite ival_in_type by apply Ht. destruct (in_type t a =? 0); [by apply (bool_int t true)|by apply (bool_int t false)].
  - by apply Hmove.
Qed.

(** Folding a unary operator interns its value in the result type.  The
    absolute value negates when the operand's type is signed and the operand
    is negative in the result type. *)
Theorem fold_int_unary s op t c :
  table_ok typeTable s -> small_int t -> wf (GetValue c) ->
  match unary_value op (IsSignedInteger (type_prim (GetType c))) t (ival (GetValue c)) with
  | Some v => wp (FoldIntConstUnaryMIRConst typeTable s op t c) (folds_to s t v)
  | None => FoldIntConstUnaryMIRConst typeTable s op t c = Fault AssertFail
  end.
Proof using HT Htt. apply fold_unary_folds. Qed.

(** ** Conversions *)

Lemma GetSXTValue_size_own x :
  small_val x -> GetSXTValue_size x (width x) = Ret (swrap (width x) (uval x)).
Proof.
  intros [Hx Hw]. destruct Hx as [v w b Hw0 Hv|ws n b Hn Hws]; cbn [width] in *; [|lia].
  cbn [uval u]. rewrite <- (GetSXTValue_one v w b) by done. unfold GetSXTValue, GetSXTValue_size.
  cbn [width]. rewrite (proj2 (Z.eqb_neq w 0)), (wrap_small 8 w) by lia.
  rewrite (proj2 (Z.leb_le w w)), (proj2 (Z.leb_le 0 w)) by lia. done.
Qed.

Lemma GetZXTValue_size_own x : small_val x -> GetZXTValue_size x (width x) = Ret (uval x).
Proof.
  intros [Hx Hw]. destruct Hx as [v w b Hw0 Hv|ws n b Hn Hws]; cbn [width] in *; [|lia].
  unfold GetZXTValue_size. rewrite IsOneSignificantWord_one by done. unfold low_word.
  rewrite IsOneWord_one by done. cbn [u_value u mbind res_bind ASSERT uval].
  rewrite assert_le, (proj2 (Z.eqb_neq w 0)) by (unfold kWordBitSize; lia).
  cbn [negb mbind res_bind]. unfold kWordBitSize. by rewrite shl_shr_low.
Qed.

Lemma sign_extend_spec s op t x :
  table_ok typeTable s -> small_int t -> small_val x ->
  wp (FoldSignExtendMIRConst typeTable s op t (width x) x)
    (folds_to s t (if op_eqb op OP_sext then swrap (width x) (uval x) else uval x)).
Proof using HT Htt.
  intros Hs Ht Hx. pose proof (small_width t Ht) as Hr. unfold FoldSignExtendMIRConst.
  rewrite GetSXTValue_size_own, GetZXTValue_size_own by done.
  rewrite GetPrimType_of_spec by (done || apply integer_not_begin, Ht).
  destruct (op_eqb op OP_sext); cbn [mbind res_bind];
    (eapply wp_mono; [apply intern_spec; [done|apply Ht]|]); intros r; apply folds_to_congr;
    rewrite wrap_norm_le by lia; [apply wrap_wrap_le; lia|done].
Qed.

Lemma cvt_size_eq t : small_int t -> cvt_size t = type_width t.
Proof.
  intros [Ht H128]. destruct t; try discriminate Ht; try discriminate H128; by destruct HT.
Qed.

Lemma small_plain t :
  small_int t -> IsPrimitiveDynType t || IsPrimitiveVector t || pty_eqb t PTY_f128 = false.
Proof. intros [Ht H128]. by destruct t. Qed.

Lemma cvt_int_spec s on_float from to c :
  table_ok typeTable s -> small_val (GetValue c) -> small_int from -> small_int to ->
  wp (FoldTypeCvtMIRConst typeTable s on_float c from to) (fun o =>
    exists r, o = Some r /\ folds_to s to (in_type from (ival (GetValue c))) r).
Proof using HT Htt.
  intros Hs Hc Hfrom Hto. pose proof (small_width from Hfrom) as Hw. pose proof (small_width to Hto) as Hwto.
  pose proof (small_plain from Hfrom) as E. pose proof (small_plain to Hto) as E'.
  apply orb_false_iff in E as [E E1], E' as [E' E1'].
  apply orb_false_iff in E as [Ed Ev], E' as [Ed' Ev'].
  unfold FoldTypeCvtMIRConst. rewrite Ed, Ev, E1, Ed', Ev', E1', (proj1 Hfrom), (proj1 Hto).
  cbn [orb andb]. rewrite !cvt_size_eq by done. destruct (Z.ltb_spec (type_width from) (type_width to)).
  - rewrite TruncOrExtend_eq by (apply Hc || apply Hfrom). cbn [mbind res_bind].
    rewrite wrap_small by lia. set (x := repr _ _ _).
    assert (small_val x) as Hx by (split; [by apply repr_wf, small_valid|cbn; lia]).
    apply wp_bind. change (type_width from) with (width x).
    eapply wp_mono; [by apply (sign_extend_spec s _ to x)|]. intros r Hr. apply wp_ret. exists r.
    split; [done|]. revert Hr. apply folds_to_congr. f_equal. unfold x. cbn [width repr].
    rewrite uval_repr by by apply small_valid. unfold in_type, norm.
    destruct (IsSignedInteger from); [by apply swrap_wrap; lia|done].
  - rewrite GetPrimType_of_spec by (done || apply integer_not_begin, Hto). cbn [mbind res_bind].
    rewrite GetExtValue_one by apply Hc. cbn [mbind res_bind]. apply wp_bind.
    eapply wp_mono; [apply intern_spec; [done|apply Hto]|]. intros r Hr. apply wp_ret. exists r.
    split; [done|]. revert Hr. apply folds_to_congr. unfold in_type.
    rewrite !wrap_norm_le, wrap_wrap_le by lia.
    by rewrite <- (wrap_wrap_le _ 64), swrap_congr, wrap_wrap_le by lia.
Qed.

Lemma sign_extend_folds s op t size c :
  table_ok typeTable s -> small_val (GetValue c) -> small_int t -> 1 <= size <= 64 ->
  wp (FoldSignExtend typeTable s op t size c)
    (folds_to s t (norm size (op_eqb op OP_sext) (ival (GetValue c)))).
Proof using HT Htt.
  intros Hs Hc Hto Hsize. unfold FoldSignExtend.
  assert (valid_width size) as Hv by (left; lia). rewrite TruncOrExtend_width_eq by (done || apply Hc).
  cbn [mbind res_bind]. set (x := repr _ _ _).
  assert (small_val x) as Hx by (split; [by apply repr_wf|cbn; lia]).
  change size with (width x) at 1. eapply wp_mono; [by apply (sign_extend_spec s op t x)|].
  intros r. apply folds_to_congr. f_equal. unfold x. cbn [width repr]. rewrite uval_repr by done.
  unfold norm. destruct (op_eqb op OP_sext); [by apply swrap_wrap; lia|done].
Qed.

(** C28: folding an integer conversion between types of at most 64 bits takes
    the constant's value in the source type to the target type; sext and zext
    read the low bits as a signed and as an unsigned integer; dynamic, vector
    and 128-bit floating-point types are not folded. *)
Theorem fold_conversion s on_float from to op size c :
  table_ok typeTable s -> small_val (GetValue c) -> small_int to ->
  (small_int from ->
     wp (FoldTypeCvtMIRConst typeTable s on_float c from to) (fun o =>
       exists r, o = Some r /\ folds_to s to (in_type from (ival (GetValue c))) r)) /\
  (1 <= size <= 64 ->
     wp (FoldSignExtend typeTable s op to size c)
       (folds_to s to (norm size (op_eqb op OP_sext) (ival (GetValue c))))) /\
  (IsPrimitiveDynType from = true \/ IsPrimitiveVector from = true \/ from = PTY_f128 ->
     FoldTypeCvtMIRConst typeTable s on_float c from to = Ret None).
Proof using HT Htt.
  intros Hs Hc Hto. split_and!.
  - intros Hfrom. by apply cvt_int_spec.
  - intros Hsize. by apply sign_extend_folds.
  - intros Hno. unfold FoldTypeCvtMIRConst.
    destruct Hno as [-> |[-> | ->]]; [done|by rewrite orb_true_r|by destruct (_ || _)].
Qed.
End Facts.
