(* ===== verification/ConstantFoldExpr.v ===== *)
(** * The words, the overflow test and the expressions of constant folding

    The tests on 64-bit words, the overflow test of additions and subtractions,
    the arithmetic on the constant carried beside an expression, and the
    expressions built from the two. *)
From S2P Require Import Prelude.
From S2P Require Import PrimTypes.
From S2P Require Import Opcodes.
From S2P Require Import IntWords.
From S2P Require Import IntWordsFacts.
From S2P Require Import IntDivFacts.
From S2P Require Import IntVal.
From S2P Require Import IntValFacts.
From S2P Require Import IntValArith.
From S2P Require Import IntValOrder.
From S2P Require Import IntValCount.
From S2P Require Import IntValDiv.
From S2P Require Import IntValSpec.
From S2P Require Import IntValTyped.
From S2P Require Import IntConst.
From S2P Require Import IntConstFacts.
From S2P Require Import ConstantFold.
From S2P Require Import ConstantFoldFacts.

(** ** Words *)

(** A positive number without a bit in common with its predecessor *)
Lemma land_pred_pow2 y : 0 < y -> Z.land y (y - 1) = 0 <-> y = 2 ^ Z.log2 y.
Proof.
  intros Hy. pose proof (Z.log2_spec y Hy) as [Hlo Hhi]. pose proof (Z.log2_nonneg y).
  set (k := Z.log2 y) in *. pose proof (pow2_pos k). split.
  - intros Hl. destruct (decide (y = 2 ^ k)) as [|Hne]; [done|exfalso].
    assert (forall z, 2 ^ k <= z < 2 ^ Z.succ k -> Z.testbit z k = true) as Hbit.
    { intros z Hz. rewrite Z.pow_succ_r in Hz by lia. apply Z.testbit_true; [lia|].
      replace (z / 2 ^ k) with 1; [done|]. apply (Z.div_unique z (2 ^ k) 1 (z - 2 ^ k)); lia. }
    assert (Z.testbit (Z.land y (y - 1)) k = true) as Hb by (rewrite Z.land_spec, !Hbit by lia; done).
    by rewrite Hl, Z.testbit_0_l in Hb.
  - intros E. rewrite E, Z.sub_1_r, <- Z.ones_equiv, Z.land_ones, Z.mod_same by lia. done.
Qed.

Lemma land_notw x y : 0 <= x < 2 ^ 64 -> 0 <= y < 2 ^ 64 -> (Z.land (notw 64 x) y =? y) = (Z.land y x =? 0).
Proof.
  intros Hx Hy. apply eq_true_iff_eq. rewrite !Z.eqb_eq. split; intros E; apply bits_ext; intros i Hi.
  - rewrite Z.land_spec, Z.testbit_0_l. pose proof (f_equal (fun z => Z.testbit z i) E) as Ei. cbn in Ei.
    rewrite Z.land_spec in Ei. destruct (decide (i < 64)); [|by rewrite (testbit_above 64 y) by lia].
    rewrite notw_bits in Ei by lia. by destruct (Z.testbit x i), (Z.testbit y i).
  - pose proof (f_equal (fun z => Z.testbit z i) E) as Ei. cbn in Ei.
    rewrite Z.land_spec, Z.testbit_0_l in Ei. rewrite Z.land_spec.
    destruct (decide (i < 64)); [|by rewrite (testbit_above 64 y), andb_false_r by lia].
    rewrite notw_bits by lia. by destruct (Z.testbit x i), (Z.testbit y i).
Qed.

Lemma word_tests_small x :
  0 <= x < 2 ^ 64 ->
  (ContiguousBitsOf1 x = true <-> exists n, 1 <= n <= 64 /\ x = 2 ^ n - 1) /\
  (IsPowerOf2_u64 x = true <-> exists n, 0 <= n < 64 /\ x = 2 ^ n).
Proof.
  intros Hx. split.
  - unfold ContiguousBitsOf1. destruct (Z.eqb_spec x 0) as [->|Hne].
    { split; [done|]. intros (n & Hn & E). pose proof (Z.pow_le_mono_r 2 1 n). lia. }
    rewrite land_notw by (done || by apply wrap_range). rewrite Z.eqb_eq.
    destruct (decide (x = 2 ^ 64 - 1)) as [->|Hm]; [split; [by exists 64|done]|].
    rewrite wrap_small by lia. pose proof (land_pred_pow2 (x + 1) ltac:(lia)) as Hp.
    replace (x + 1 - 1) with x in Hp by lia. rewrite Hp. split.
    + intros E. exists (Z.log2 (x + 1)). split; [|lia]. split.
      * apply Z.log2_le_pow2; lia.
      * pose proof (Z.log2_lt_pow2 (x + 1) 64 ltac:(lia)). lia.
    + intros (n & Hn & ->). replace (2 ^ n - 1 + 1) with (2 ^ n) by lia. by rewrite Z.log2_pow2 by lia.
  - unfold IsPowerOf2_u64. destruct (Z.eqb_spec x 0) as [->|Hne].
    { split; [done|]. intros (n & Hn & E). pose proof (pow2_pos n). lia. }
    rewrite (wrap_small 64 (x - 1)) by lia. rewrite land_notw by lia. rewrite Z.eqb_eq.
    rewrite land_pred_pow2 by lia. split.
    + intros E. exists (Z.log2 x). split; [|done]. split; [apply Z.log2_nonneg|].
      apply Z.log2_lt_pow2; lia.
    + intros (n & Hn & ->). by rewrite Z.log2_pow2 by lia.
Qed.

(** ContiguousBitsOf1 recognises the words whose bits are a group of ones
    from bit 0, and IsPowerOf2 the powers of two. *)
Theorem word_tests x :
  0 <= x < 2 ^ 64 ->
  (ContiguousBitsOf1 x = true <-> exists n, 1 <= n <= 64 /\ x = 2 ^ n - 1) /\
  (IsPowerOf2_u64 x = true <-> exists n, 0 <= n < 64 /\ x = 2 ^ n).
Proof. apply word_tests_small. Qed.

Lemma word_tests_witness : IsPowerOf2_u64 4096 = true.
Proof.
  apply (proj2 (word_tests 4096 ltac:(lia))). exists 12. split; [lia|reflexivity].
Defined.

(** ** Overflow *)

Section Overflow.
(** [P = 2^(w-1)] and [Q = 2^(65-w)]. *)
Context (w : Z) (Hw : 0 < w <= 64).

(** The bits of the 64-bit word [v] from the sign bit of the type up *)
Definition sign_flag (v : Z) : Z := shr 64 (wrap 64 v) (w - 1).

Lemma flag_split : 2 ^ 64 = 2 ^ (w - 1) * 2 ^ (65 - w) /\ 2 <= 2 ^ (65 - w).
Proof using Hw.
  split; [rewrite <- Z.pow_add_r by lia; f_equal; lia|].
  pose proof (Z.pow_le_mono_r 2 1 (65 - w)). lia.
Qed.

(** The flag tells in which quarter a sum of two values of the type lies. *)
Lemma sign_flag_eq r :
  - 2 * 2 ^ (w - 1) <= r < 2 * 2 ^ (w - 1) ->
  sign_flag r = if r <? - 2 ^ (w - 1) then 2 ^ (65 - w) - 2 else if r <? 0 then 2 ^ (65 - w) - 1
                else if r <? 2 ^ (w - 1) then 0 else 1.
Proof using Hw.
  intros Hr. unfold sign_flag, shr. rewrite (Z.mod_small (w - 1)), Z.shiftr_div_pow2 by lia.
  destruct flag_split as [E HQ]. pose proof (pow2_pos (w - 1)) as HP.
  assert (wrap 64 r = if r <? 0 then 2 ^ 64 + r else r) as ->.
  { destruct (Z.ltb_spec r 0); [apply (wrap_unique _ _ _ (-1))|apply (wrap_unique _ _ _ 0)]; nia. }
  set (P := 2 ^ (w - 1)) in *. set (Q := 2 ^ (65 - w)) in *. rewrite E.
  destruct (Z.ltb_spec r 0), (Z.ltb_spec r (- P)), (Z.ltb_spec r P); try lia; symmetry.
  - apply (Z.div_unique _ _ _ (r + 2 * P)); lia.
  - apply (Z.div_unique _ _ _ (r + P)); lia.
  - apply (Z.div_unique _ _ _ r); lia.
  - apply (Z.div_unique _ _ _ (r - P)); lia.
Qed.

Lemma sign_flag_swrap r : sign_flag (swrap 64 (wrap 64 r)) = sign_flag r.
Proof. unfold sign_flag. by rewrite swrap_congr, wrap_wrap by lia. Qed.

Lemma sign_flag_congr r r' : wrap 64 r = wrap 64 r' -> sign_flag r = sign_flag r'.
Proof. unfold sign_flag. by intros ->. Qed.

(** The flag of a value of the type *)
Lemma sign_flag_value a :
  - 2 ^ (w - 1) <= a < 2 ^ (w - 1) -> sign_flag a = if a <? 0 then 2 ^ (65 - w) - 1 else 0.
Proof using Hw.
  intros Ha. rewrite sign_flag_eq by lia.
  destruct (Z.ltb_spec a (- 2 ^ (w - 1))), (Z.ltb_spec a 0), (Z.ltb_spec a (2 ^ (w - 1))); done || lia.
Qed.

Definition outside (r : Z) : bool := (r <? - 2 ^ (w - 1)) || (2 ^ (w - 1) <=? r).

Lemma sum_overflow a b :
  - 2 ^ (w - 1) <= a < 2 ^ (w - 1) -> - 2 ^ (w - 1) <= b < 2 ^ (w - 1) ->
  negb (sign_flag (a + b) =? sign_flag a) && negb (sign_flag (a + b) =? sign_flag b) = outside (a + b).
Proof using Hw.
  intros Ha Hb. rewrite (sign_flag_eq (a + b)), !sign_flag_value by lia. unfold outside.
  destruct flag_split as [_ HQ]. apply eq_true_iff_eq.
  rewrite andb_true_iff, orb_true_iff, !negb_true_iff, !Z.eqb_neq, Z.ltb_lt, Z.leb_le.
  destruct (Z.ltb_spec a 0), (Z.ltb_spec b 0), (Z.ltb_spec (a + b) (- 2 ^ (w - 1))),
    (Z.ltb_spec (a + b) 0), (Z.ltb_spec (a + b) (2 ^ (w - 1))); lia.
Qed.

Lemma difference_overflow a b :
  - 2 ^ (w - 1) <= a < 2 ^ (w - 1) -> - 2 ^ (w - 1) <= b < 2 ^ (w - 1) ->
  negb (sign_flag a =? sign_flag b) && negb (sign_flag (a - b) =? sign_flag a) = outside (a - b).
Proof using Hw.
  intros Ha Hb. rewrite (sign_flag_eq (a - b)), !sign_flag_value by lia. unfold outside.
  destruct flag_split as [_ HQ]. apply eq_true_iff_eq.
  rewrite andb_true_iff, orb_true_iff, !negb_true_iff, !Z.eqb_neq, Z.ltb_lt, Z.leb_le.
  destruct (Z.ltb_spec a 0), (Z.ltb_spec b 0), (Z.ltb_spec (a - b) (- 2 ^ (w - 1))),
    (Z.ltb_spec (a - b) 0), (Z.ltb_spec (a - b) (2 ^ (w - 1))); lia.
Qed.
End Overflow.

Lemma signed_bit_size `{Target} t :
  small_int t -> IsSignedInteger t = true ->
  GetPrimTypeBitSize t = type_width t /\ IsUnsignedInteger t = false.
Proof.
  intros [Ht H128] Hs. destruct t; try discriminate Ht; try discriminate H128; try discriminate Hs;
    by destruct H.
Qed.

(** C30: IntegerOpIsOverflow is exact on signed types of at most 64 bits, for
    additions of 64-bit unsigned numbers, and for subtractions of unsigned
    numbers below 2^63. *)
Theorem integer_op_overflow `{Target} t a b :
  small_int t ->
  (IsSignedInteger t = true -> min_of (type_width t) true <= a <= max_of (type_width t) true ->
     min_of (type_width t) true <= b <= max_of (type_width t) true ->
     IntegerOpIsOverflow OP_add t a b = negb (in_type t (a + b) =? a + b) /\
     IntegerOpIsOverflow OP_sub t a b = negb (in_type t (a - b) =? a - b)) /\
  (IsUnsignedInteger t = true -> type_width t = 64 -> 0 <= a < 2 ^ 64 -> 0 <= b < 2 ^ 64 ->
     IntegerOpIsOverflow OP_add t (swrap 64 a) (swrap 64 b) = negb (in_type t (a + b) =? a + b)) /\
  (IsUnsignedInteger t = true -> 0 <= a < 2 ^ 63 -> 0 <= b < 2 ^ 63 ->
     IntegerOpIsOverflow OP_sub t (swrap 64 a) (swrap 64 b) = (a - b <? 0)).
Proof.
  intros Ht. pose proof (small_width t Ht) as Hw. split_and!.
  - intros Hs Ha Hb. destruct (signed_bit_size t Ht Hs) as [Esize Eu]. unfold min_of, max_of in *.
    assert (forall r, outside (type_width t) r = negb (in_type t r =? r)) as Hout.
    { intros r. unfold outside, in_type, norm. rewrite Hs. apply eq_true_iff_eq.
      rewrite orb_true_iff, Z.ltb_lt, Z.leb_le, negb_true_iff, Z.eqb_neq.
      pose proof (swrap_range (type_width t) r (proj1 Hw)) as Hr. split; [lia|]. intros Hne.
      destruct (decide (r < - 2 ^ (type_width t - 1))), (decide (2 ^ (type_width t - 1) <= r)); auto.
      destruct Hne. apply swrap_small; lia. }
    unfold IntegerOpIsOverflow. rewrite Eu, Esize.
    assert (forall v, shr 64 (wrap 64 v) (type_width t - 1) = sign_flag (type_width t) v) as Ef by done.
    rewrite !Ef, !sign_flag_swrap.
    rewrite (sign_flag_congr _ (wrap 64 a + wrap 64 b) (a + b)) by by rewrite wrap_add_lr.
    rewrite (sign_flag_congr _ (wrap 64 a - wrap 64 b) (a - b)) by by rewrite wrap_sub_lr.
    rewrite sum_overflow, difference_overflow, !Hout by (done || lia). done.
  - intros Hu E64 Ha Hb. unfold IntegerOpIsOverflow. rewrite Hu.
    assert (IsSignedInteger t = false) as Es.
    { rewrite integer_signedness in Hu by apply Ht. by apply negb_true_iff. }
    rewrite !swrap_congr by lia. rewrite wrap_add_lr, !wrap_wrap, (wrap_small 64 a) by lia.
    unfold in_type, norm. rewrite Es, E64. apply eq_true_iff_eq.
    rewrite Z.ltb_lt, negb_true_iff, Z.eqb_neq.
    destruct (decide (a + b < 2 ^ 64)); [rewrite wrap_small by lia; lia|].
    rewrite (wrap_unique 64 (a + b) (a + b - 2 ^ 64) 1) by lia. lia.
  - intros Hu Ha Hb. unfold IntegerOpIsOverflow. rewrite Hu, !swrap_small by lia.
    apply eq_true_iff_eq. rewrite !Z.ltb_lt. lia.
Qed.

Lemma integer_op_overflow_witness : @IntegerOpIsOverflow false OP_add PTY_i8 100 100 = true.
Proof.
  refine (proj1 (proj1 (@integer_op_overflow false PTY_i8 100 100 (conj eq_refl eq_refl)) eq_refl _ _));
    vm_compute; split; discriminate.
Defined.

(** Sums of narrower unsigned types are tested against 2^64, and differences of
    unsigned numbers are compared as signed. *)
Example overflow_u32_missed : @IntegerOpIsOverflow false OP_add PTY_u32 (2 ^ 32 - 1) 1 = false.
Proof. reflexivity. Qed.
Example overflow_u64_sub :
  @IntegerOpIsOverflow false OP_sub PTY_u64 (swrap 64 (2 ^ 63)) 1 = true /\
  @IntegerOpIsOverflow false OP_sub PTY_u64 1 (swrap 64 (2 ^ 63)) = false.
Proof. split; reflexivity. Qed.

(** ** The constant beside an expression *)

Section Pairs.
Context `{HT : Target}.
Context (typeTable : list (option MIRType)).
Context (Htt : TypeTable_init `prefix_of` typeTable).

(** An absent constant is 0. *)
Definition opt_value (o : option IntVal) : Z :=
  match o with Some v => ival v | None => 0 end.
Definition opt_wf (o : option IntVal) : Prop := match o with Some v => wf v | None => True end.
(** The result is absent when both are, and an i64 otherwise. *)
Definition opt_result (v1 v2 : option IntVal) (r : Z) (o : option IntVal) : Prop :=
  match o with
  | None => v1 = None /\ v2 = None
  | Some x => typed_int PTY_i64 r x
  end.

Lemma small_i64 : small_int PTY_i64.
Proof. done. Qed.

Lemma neg_typed t v x : IsPrimitiveInteger t = true -> typed_int t v x -> wp (op_neg x) (typed_int t (- v)).
Proof.
  intros Ht Hx. pose proof (type_width_valid t Ht) as Hw. rewrite (is_int_repr_eq _ _ _ _ Hx).
  eapply ret_is_int'; [done|by apply op_neg_eq, repr_wf|]. rewrite uval_repr by done. apply wrap_opp.
Qed.

Lemma wp_some {A} (m : res A) (Q : option A -> Prop) :
  wp m (fun a => Q (Some a)) -> wp (r ← m; Ret (Some r)) Q.
Proof. by destruct m. Qed.

Lemma optional_spec v1 v2 :
  opt_wf v1 -> opt_wf v2 ->
  wp (AddSub v1 v2 true) (opt_result v1 v2 (opt_value v1 + opt_value v2)) /\
  wp (AddSub v1 v2 false) (opt_result v1 v2 (opt_value v1 - opt_value v2)) /\
  wp (opt_mul v1 v2) (opt_result v1 v2 (opt_value v1 * opt_value v2)).
Proof.
  intros H1 H2. destruct v1 as [a|], v2 as [b|]; cbn [opt_wf opt_value AddSub opt_mul] in *.
  - destruct (typed_ring PTY_i64 a b H1 H2 eq_refl) as (Ha & Hs & Hm & _).
    split_and!; apply wp_some; [exact Ha|exact Hs|exact Hm].
  - rewrite TruncOrExtend_eq, Z.add_0_r, Z.sub_0_r, Z.mul_0_r by done. cbn [mbind res_bind].
    split_and!; [by apply is_int_repr, type_width_valid..|apply wp_some]. by apply (bool_int PTY_i64 false).
  - rewrite TruncOrExtend_eq, Z.mul_0_l by done. cbn [mbind res_bind].
    assert (typed_int PTY_i64 (ival b) (repr (type_width PTY_i64) (IsSignedInteger PTY_i64) (ival b)))
      as Hb by by apply is_int_repr, type_width_valid.
    split_and!; [exact Hb|apply wp_some; by apply (neg_typed PTY_i64)|apply wp_some].
    by apply (bool_int PTY_i64 false).
  - by split_and!.
Qed.

(** The operators on optional constants compute in i64, with an absent
    constant for 0, and are absent only when both operands are. *)
Theorem optional_arithmetic v1 v2 :
  opt_wf v1 -> opt_wf v2 ->
  wp (AddSub v1 v2 true) (opt_result v1 v2 (opt_value v1 + opt_value v2)) /\
  wp (AddSub v1 v2 false) (opt_result v1 v2 (opt_value v1 - opt_value v2)) /\
  wp (opt_mul v1 v2) (opt_result v1 v2 (opt_value v1 * opt_value v2)).
Proof. apply optional_spec. Qed.

Lemma in_type_congr t a b : wrap (type_width t) a = wrap (type_width t) b -> in_type t a = in_type t b.
Proof. apply norm_congr. Qed.

Lemma wrap_in_type t a : small_int t -> wrap (type_width t) (in_type t a) = wrap (type_width t) a.
Proof. intros Ht. pose proof (small_width t Ht). apply wrap_norm. lia. Qed.

Lemma added_as_is_returns t v neg :
  small_int t -> small_val v -> GetPrimTypeBitSize t <= width v -> 0 < GetPrimTypeBitSize t ->
  exists b, added_as_is t v neg = Ret b.
Proof.
  intros Ht [Hv Hw] Hsize Hpos. pose proof (wf_width v Hv) as Hwv. pose proof (small_width t Ht).
  assert (forall n, 0 < n <= width v -> exists x, GetSXTValue_size v n = Ret x) as Hsxt.
  { intros n Hn. unfold GetSXTValue_size. rewrite IsOneSignificantWord_one by done.
    pose proof Hv as Hwf. destruct Hv as [u w b Hw0 Hu|]; cbn [width] in *; [|lia].
    unfold low_word. rewrite IsOneWord_one by done. cbn [u_value IntVal.u mbind res_bind ASSERT].
    rewrite assert_le, (proj2 (Z.eqb_neq n 0)) by lia. cbn [negb mbind res_bind].
    rewrite (wrap_small 16) by lia.
    rewrite GetBit_spec by (exact Hwf || (cbn [width]; lia)). unfold kWordBitSize.
    rewrite (wrap_small 32), (wrap_small 8), CHECK_SHIFT_ok by lia.
    cbn [mbind res_bind]. destruct (negb (n =? 0)); by eexists. }
  assert (exists x, GetSXTValue v = Ret x) as [x Hx].
  { destruct Hv as [u w b Hw0 Hu|]; cbn [width] in *; [|lia]. eexists. by apply GetSXTValue_one. }
  assert (forall b, exists c, (if b : bool then Ret true else
    t0 ← TruncOrExtend v t; m ← IsMinValue t0;
    if m : bool then Ret true else x ← GetSXTValue v; Ret (x =? - 2 ^ 63)) = Ret c) as Htail.
  { intros [|]; [by eexists|]. rewrite TruncOrExtend_eq by (done || apply Ht). cbn [mbind res_bind].
    rewrite IsMinValue_eq by by apply repr_wf, small_valid. cbn [mbind res_bind].
    destruct (_ =? _); [by eexists|]. rewrite Hx. by eexists. }
  unfold added_as_is. destruct neg; cbn [negb].
  - exact (Htail false).
  - rewrite wrap_small by lia. destruct (Hsxt (GetPrimTypeBitSize t)) as [y ->]; [lia|].
    cbn [mbind res_bind]. apply Htail.
Qed.

Lemma bit_size_bounds t :
  small_int t -> 0 < GetPrimTypeBitSize t /\ type_width t <= GetPrimTypeBitSize t.
Proof.
  intros [Ht H128]. destruct t; try discriminate Ht; try discriminate H128;
    destruct HT; vm_compute; split; congruence.
Qed.

End Pairs.

(** ** Concrete folds *)

Definition mir (t : PrimType) (v : Z) : MIRIntConst :=
  MkMIRIntConst (repr (@type_width false t) (IsSignedInteger t) v) (ty_of t).

Lemma small_mir t v : small_int t -> small_val (GetValue (mir t v)).
Proof.
  intros Ht. split; [by apply repr_wf, (@small_valid false)|]. exact (proj2 (@small_width false t Ht)).
Qed.

Lemma empty_ok : @table_ok false TypeTable_init IntConstTable_empty.
Proof. apply table_ok_empty. Qed.
Lemma no_prefix : TypeTable_init `prefix_of` TypeTable_init.
Proof. done. Qed.
Lemma valid_64 : valid_width 64.
Proof. left. lia. Qed.

Lemma fold_int_binary_witness :
  wp (@FoldIntConstBinaryMIRConst false TypeTable_init IntConstTable_empty OP_div PTY_i32
        (mir PTY_i32 (-7)) (mir PTY_i32 2))
     (@folds_to false TypeTable_init IntConstTable_empty PTY_i32 (-3)).
Proof.
  refine (proj1 (@fold_int_binary false TypeTable_init no_prefix IntConstTable_empty OP_div PTY_i32
    (mir PTY_i32 (-7)) (mir PTY_i32 2) empty_ok (conj eq_refl eq_refl)
    (small_mir PTY_i32 _ (conj eq_refl eq_refl)) (small_mir PTY_i32 _ (conj eq_refl eq_refl))) (-3) eq_refl _).
  split; [vm_compute; discriminate|]. intros (_ & E & _). vm_compute in E. discriminate E.
Defined.

Lemma fold_int_comparison_witness :
  wp (@FoldIntConstComparisonMIRConst false TypeTable_init IntConstTable_empty OP_lt PTY_u1 PTY_u8
        (mir PTY_i32 (-7)) (mir PTY_i32 2))
     (@folds_to false TypeTable_init IntConstTable_empty PTY_u1 0).
Proof.
  refine (@fold_int_comparison false TypeTable_init no_prefix IntConstTable_empty OP_lt PTY_u1 PTY_u8
    (mir PTY_i32 (-7)) (mir PTY_i32 2) empty_ok eq_refl eq_refl
    (proj1 (small_mir PTY_i32 _ (conj eq_refl eq_refl))) (proj1 (small_mir PTY_i32 _ (conj eq_refl eq_refl))) _).
  left. vm_compute. discriminate.
Defined.

Lemma fold_int_unary_witness :
  wp (@FoldIntConstUnaryMIRConst false TypeTable_init IntConstTable_empty OP_abs PTY_i32 (mir PTY_i32 (-7)))
     (@folds_to false TypeTable_init IntConstTable_empty PTY_i32 7).
Proof.
  exact (@fold_int_unary false TypeTable_init no_prefix IntConstTable_empty OP_abs PTY_i32 (mir PTY_i32 (-7))
    empty_ok (conj eq_refl eq_refl) (proj1 (small_mir PTY_i32 _ (conj eq_refl eq_refl)))).
Defined.

Lemma fold_conversion_witness :
  wp (@FoldTypeCvtMIRConst false TypeTable_init IntConstTable_empty (fun _ _ => Ret None)
        (mir PTY_i32 (-7)) PTY_u16 PTY_i64)
     (fun o => exists r, o = Some r /\
        @folds_to false TypeTable_init IntConstTable_empty PTY_i64 (2 ^ 16 - 7) r).
Proof.
  exact (proj1 (@fold_conversion false TypeTable_init no_prefix IntConstTable_empty (fun _ _ => Ret None)
    PTY_u16 PTY_i64 OP_sext 8 (mir PTY_i32 (-7)) empty_ok (small_mir PTY_i32 _ (conj eq_refl eq_refl))
    (conj eq_refl eq_refl)) (conj eq_refl eq_refl)).
Defined.

Lemma optional_arithmetic_witness :
  wp (@AddSub false None (Some (repr 64 true 5)) false) (fun o =>
    match o with Some x => ival x = -5 | None => False end).
Proof.
  eapply wp_mono.
  - exact (proj1 (proj2 (@optional_arithmetic false None (Some (repr 64 true 5)) I
             (repr_wf 64 true 5 valid_64)))).
  - intros [x|]; [|intros [_ H]; discriminate H]. intros (_ & _ & _ & E). exact E.
Defined.

(** ** Where folding departs from the operation *)

Definition folded_value (m : res (IntConstTable * nat)) : option Z :=
  match m with
  | Ret r => ival <$> (GetValue <$> objects (fst r) !! snd r)
  | Fault _ => None
  end.

(** The shift counts of 128-bit operands are reduced modulo 64. *)
Example fold_shl_u128 :
  folded_value (@FoldIntConstBinaryMIRConst false TypeTable_init IntConstTable_empty OP_shl PTY_u128
    (mir PTY_u128 1) (mir PTY_i32 70)) = Some (2 ^ 6).
Proof. vm_compute. reflexivity. Qed.

(** A 128-bit result goes through a 64-bit word: one that does not fit stops at
    the assertion of GetExtValue. *)
Example fold_mul_i128 :
  @FoldIntConstBinaryMIRConst false TypeTable_init IntConstTable_empty OP_mul PTY_i128
    (mir PTY_i128 (2 ^ 40)) (mir PTY_i128 (2 ^ 40)) = Fault AssertFail.
Proof. vm_compute. reflexivity. Qed.

(** Conversions to 128 bits: the unsigned 2^63 becomes negative, and -1
    becomes 2^64 - 1. *)
Definition cvt_value (c : MIRIntConst) (from to : PrimType) : option Z :=
  match @FoldTypeCvtMIRConst false TypeTable_init IntConstTable_empty (fun _ _ => Ret None) c from to with
  | Ret (Some r) => folded_value (Ret r)
  | _ => None
  end.

Example cvt_to_int128 :
  cvt_value (mir PTY_u64 (2 ^ 63)) PTY_u64 PTY_i128 = Some (- 2 ^ 63) /\
  cvt_value (mir PTY_i64 (-1)) PTY_i64 PTY_u128 = Some (2 ^ 64 - 1).
Proof. vm_compute. split; reflexivity. Qed.

(** The maximum of constants of another type than the result's stops at an
    assertion. *)
Example fold_max_other_type :
  @FoldIntConstBinaryMIRConst false TypeTable_init IntConstTable_empty OP_max PTY_i64
    (mir PTY_i32 3) (mir PTY_i32 5) = Fault AssertFail.
Proof. vm_compute. reflexivity. Qed.
