(* ===== verification/ExprMem.v ===== *)
(** * Expression nodes in memory

    The expression nodes of maple_ir/include/mir_nodes.h that the folding of
    integer expressions handles.  Nodes are objects in memory that are shared
    by pointer, compared by identity and changed in place, so a node is an
    index into a store of cells, a child is the index of a cell, and the
    functions on nodes thread the store and the table of constants: a
    computation [M A] takes the memory and returns the memory it leaves. *)
From S2P Require Import Prelude.
From S2P Require Import PrimTypes.
From S2P Require Import Opcodes.
From S2P Require Import IntConst.

(** ** Nodes *)

(** One constructor per class; [LeafCell] stands for the classes whose
    operands the folding does not look at (dread, regread, addrof, ...), whose
    other fields the number [id] identifies. *)
Inductive Cell : Set :=
  | ConstvalCell (ptyp : PrimType) (constVal : nat)
  | UnaryCell (op : Opcode) (ptyp : PrimType) (uOpnd : nat)
  | TypeCvtCell (op : Opcode) (ptyp fromPrimType : PrimType) (uOpnd : nat)
  | ExtractbitsCell (op : Opcode) (ptyp : PrimType) (bitsOffset bitsSize : Z) (uOpnd : nat)
  | BinaryCell (op : Opcode) (ptyp : PrimType) (bOpnd0 bOpnd1 : nat)
  | CompareCell (op : Opcode) (ptyp opndType : PrimType) (bOpnd0 bOpnd1 : nat)
  | LeafCell (op : Opcode) (ptyp : PrimType) (id : nat).

Definition GetOpCode (c : Cell) : Opcode :=
  match c with
  | ConstvalCell _ _ => OP_constval
  | UnaryCell op _ _ | TypeCvtCell op _ _ _ | ExtractbitsCell op _ _ _ _
  | BinaryCell op _ _ _ | CompareCell op _ _ _ _ | LeafCell op _ _ => op
  end.

Definition GetPrimType (c : Cell) : PrimType :=
  match c with
  | ConstvalCell t _ | UnaryCell _ t _ | TypeCvtCell _ t _ _ | ExtractbitsCell _ t _ _ _
  | BinaryCell _ t _ _ | CompareCell _ t _ _ _ | LeafCell _ t _ => t
  end.

Definition IsUnaryNode (c : Cell) : bool :=
  match c with UnaryCell _ _ _ | TypeCvtCell _ _ _ _ | ExtractbitsCell _ _ _ _ _ => true | _ => false end.

(** Opnd(i); a class without the operand is not the one the caller casts to. *)
Definition Opnd (c : Cell) (i : nat) : res nat :=
  match c, i with
  | UnaryCell _ _ a, 0%nat | TypeCvtCell _ _ _ a, 0%nat | ExtractbitsCell _ _ _ _ a, 0%nat => Ret a
  | BinaryCell _ _ a _, 0%nat | CompareCell _ _ _ a _, 0%nat => Ret a
  | BinaryCell _ _ _ b, 1%nat | CompareCell _ _ _ _ b, 1%nat => Ret b
  | _, _ => Fault WrongMember
  end.

(** safe_cast<ConstvalNode>: the constant of a constant node *)
Definition constval_of (c : Cell) : option nat :=
  match c with ConstvalCell _ p => Some p | _ => None end.

Definition set_PrimType (t : PrimType) (c : Cell) : Cell :=
  match c with
  | ConstvalCell _ p => ConstvalCell t p
  | UnaryCell op _ a => UnaryCell op t a
  | TypeCvtCell op _ f a => TypeCvtCell op t f a
  | ExtractbitsCell op _ o s a => ExtractbitsCell op t o s a
  | BinaryCell op _ a b => BinaryCell op t a b
  | CompareCell op _ ot a b => CompareCell op t ot a b
  | LeafCell op _ i => LeafCell op t i
  end.

(** SetOpCode; the code only changes the opcode of comparisons. *)
Definition set_OpCode (op : Opcode) (c : Cell) : Cell :=
  match c with
  | ConstvalCell t p => ConstvalCell t p
  | UnaryCell _ t a => UnaryCell op t a
  | TypeCvtCell _ t f a => TypeCvtCell op t f a
  | ExtractbitsCell _ t o s a => ExtractbitsCell op t o s a
  | BinaryCell _ t a b => BinaryCell op t a b
  | CompareCell _ t ot a b => CompareCell op t ot a b
  | LeafCell _ t i => LeafCell op t i
  end.

(** SetOpnd(p, 0) of a unary node *)
Definition set_Opnd0 (p : nat) (c : Cell) : Cell :=
  match c with
  | UnaryCell op t _ => UnaryCell op t p
  | TypeCvtCell op t f _ => TypeCvtCell op t f p
  | ExtractbitsCell op t o s _ => ExtractbitsCell op t o s p
  | _ => c
  end.

(** ** Memory *)

Record Mem : Type := MkMem { cells : list Cell; constants : IntConstTable }.

Definition M (A : Type) : Type := Mem -> res (Mem * A).

#[export] Instance M_ret : MRet M := fun A a st => Ret (st, a).
#[export] Instance M_bind : MBind M := fun A B k m st =>
  match m st with Ret r => k (snd r) (fst r) | Fault f => Fault f end.

(** A computation without effect on the memory *)
Definition lift {A : Type} (m : res A) : M A := fun st =>
  match m with Ret a => Ret (st, a) | Fault f => Fault f end.

(** Dereference, allocation and update of a node *)
Definition get (p : nat) : M Cell := fun st =>
  match cells st !! p with Some c => Ret (st, c) | None => Fault OutOfBounds end.

Definition New (c : Cell) : M nat := fun st =>
  Ret (MkMem (cells st ++ [c]) (constants st), length (cells st)).

Definition modify (p : nat) (f : Cell -> Cell) : M unit := fun st =>
  match cells st !! p with
  | Some c => Ret (MkMem (<[p := f c]> (cells st)) (constants st), tt)
  | None => Fault OutOfBounds
  end.

Definition SetPrimType (p : nat) (t : PrimType) : M unit := modify p (set_PrimType t).
Definition SetOpCode (p : nat) (op : Opcode) : M unit := modify p (set_OpCode op).
Definition SetOpnd0 (p q : nat) : M unit := modify p (set_Opnd0 q).

(** The type of a node, an operand of a node, the opcode of a node *)
Definition type_of_node (p : nat) : M PrimType := c ← get p; mret (GetPrimType c).
Definition opcode_of_node (p : nat) : M Opcode := c ← get p; mret (GetOpCode c).
Definition opnd_of_node (p i : nat) : M nat := c ← get p; lift (Opnd c i).

(** A step of the table of constants, and the constant it gives *)
Definition in_table {A : Type} (f : IntConstTable -> res (IntConstTable * A)) : M A := fun st =>
  match f (constants st) with Ret r => Ret (MkMem (cells st) (fst r), snd r) | Fault e => Fault e end.

Definition get_const (p : nat) : M MIRIntConst := fun st =>
  match objects (constants st) !! p with Some c => Ret (st, c) | None => Fault OutOfBounds end.

(** ** Total correctness of a computation on the memory *)

Definition wpm {A : Type} (m : M A) (st : Mem) (Q : Mem -> A -> Prop) : Prop :=
  match m st with Ret r => Q (fst r) (snd r) | Fault _ => False end.

Section WpmRules.
Context {A B : Type}.
Implicit Types (m : M A) (st : Mem) (Q : Mem -> A -> Prop).

Lemma wpm_ret (a : A) st Q : Q st a -> wpm (mret a) st Q.
Proof. done. Qed.

Lemma wpm_bind m (k : A -> M B) st (Q : Mem -> B -> Prop) :
  wpm m st (fun st' a => wpm (k a) st' Q) -> wpm (m ≫= k) st Q.
Proof. unfold wpm, mbind, M_bind. by destruct (m st) as [[st' a]|]. Qed.

Lemma wpm_mono m st Q Q' :
  wpm m st Q -> (forall st' a, Q st' a -> Q' st' a) -> wpm m st Q'.
Proof. unfold wpm. destruct (m st); auto. Qed.

Lemma wpm_lift (r : res A) st Q : wp r (Q st) -> wpm (lift r) st Q.
Proof. unfold wpm, lift. by destruct r. Qed.

Lemma wpm_lift_eq (r : res A) (a : A) st Q : r = Ret a -> Q st a -> wpm (lift r) st Q.
Proof. by intros ->. Qed.

Lemma wpm_in_table (f : IntConstTable -> res (IntConstTable * A)) st Q :
  wp (f (constants st)) (fun r => Q (MkMem (cells st) (fst r)) (snd r)) -> wpm (in_table f) st Q.
Proof. unfold wpm, in_table. by destruct (f (constants st)). Qed.

(** A step without effect on the memory may be done first. *)
Lemma wpm_commute_lift (c : res B) m st (Q : Mem -> A * B -> Prop) :
  wp c (fun b => wpm m st (fun st' a => Q st' (a, b))) -> wpm (a ← m; b ← lift c; mret (a, b)) st Q.
Proof. unfold wpm, mbind, M_bind, lift, mret, M_ret. destruct c; [|done]. by destruct (m st). Qed.

Lemma wpm_returns m st Q : wpm m st Q -> exists st' a, m st = Ret (st', a) /\ Q st' a.
Proof. unfold wpm. destruct (m st) as [[st' a]|]; [eauto|done]. Qed.
End WpmRules.

(** The last of three steps ends a computation of its own. *)
Lemma wpm_seq3 {A B C D : Type} (m : M A) (k : A -> M B) (l : A -> B -> M C) (f : C -> M D) st (Q : Mem -> D -> Prop) :
  wpm (x ← m; y ← k x; l x y) st (fun st' z => wpm (f z) st' Q) -> wpm (x ← m; y ← k x; z ← l x y; f z) st Q.
Proof.
  unfold wpm, mbind, M_bind. destruct (m st) as [[st1 x]|]; [|done]. cbn [fst snd].
  destruct (k x st1) as [[st2 y]|]; [|done]. cbn [fst snd]. by destruct (l x y st2).
Qed.

Lemma wpm_get p c st (Q : Mem -> Cell -> Prop) :
  cells st !! p = Some c -> Q st c -> wpm (get p) st Q.
Proof. unfold wpm, get. by intros ->. Qed.

Lemma wpm_type p c st (Q : Mem -> PrimType -> Prop) :
  cells st !! p = Some c -> Q st (GetPrimType c) -> wpm (type_of_node p) st Q.
Proof. intros Hc HQ. apply wpm_bind. by eapply wpm_get. Qed.

Lemma wpm_opcode p c st (Q : Mem -> Opcode -> Prop) :
  cells st !! p = Some c -> Q st (GetOpCode c) -> wpm (opcode_of_node p) st Q.
Proof. intros Hc HQ. apply wpm_bind. by eapply wpm_get. Qed.

Lemma wpm_opnd p c i a st (Q : Mem -> nat -> Prop) :
  cells st !! p = Some c -> Opnd c i = Ret a -> Q st a -> wpm (opnd_of_node p i) st Q.
Proof. intros Hc Ha HQ. apply wpm_bind. eapply wpm_get; [done|]. by eapply wpm_lift_eq. Qed.

Lemma wpm_get_const p c st (Q : Mem -> MIRIntConst -> Prop) :
  objects (constants st) !! p = Some c -> Q st c -> wpm (get_const p) st Q.
Proof. unfold wpm, get_const. by intros ->. Qed.

Lemma wpm_new c st (Q : Mem -> nat -> Prop) :
  Q (MkMem (cells st ++ [c]) (constants st)) (length (cells st)) -> wpm (New c) st Q.
Proof. done. Qed.

Lemma wpm_modify p c f st (Q : Mem -> unit -> Prop) :
  cells st !! p = Some c -> Q (MkMem (<[p := f c]> (cells st)) (constants st)) tt ->
  wpm (modify p f) st Q.
Proof. unfold wpm, modify. by intros ->. Qed.
