(* ===== verification/ConstantFoldTree.v ===== *)
(** * Constant folding of expressions

    The recursive descent of mpl2mpl/src/constantfold.cpp on integer expressions:
    DispatchFold and the folds of unary, binary and comparison nodes,
    conversions and bit-field extractions.  A fold returns a node and,
    optionally, a constant that is to be added to it; PairToExpr builds the
    sum.  The nodes and constants are in the memory of [ExprMem]; the
    recursion takes fuel. *)
From S2P Require Import Prelude.
From S2P Require Import PrimTypes.
From S2P Require Import Opcodes.
From S2P Require Import IntWords.
From S2P Require Import IntVal.
From S2P Require Import IntConst.
From S2P Require Import ConstantFold.
From S2P Require Import ExprMem.

Section Tree.
Context `{Target}.
(** The entries of the type table *)
Context (typeTable : list (option MIRType)).
(** The MIR type of what a dread or iread leaf reads, by its primitive type and
    its size in bytes; [None] when its field is not one of a structure. *)
Context (accessed : nat -> option (PrimType * Z)).

Definition kMaxOffset : Z := 2 ^ 31 - 1 - 8.

(** std::pair<BaseNode*, std::optional<IntVal>> *)
Definition pair : Type := nat * option IntVal.

(** ** Building nodes *)

(** A new constant node *)
Definition NewConstval (ptyp : PrimType) (f : IntConstTable -> res (IntConstTable * nat)) : M nat :=
  p ← in_table f; New (ConstvalCell ptyp p).

(** MIRBuilder::CreateIntConst(uint64, PrimType) *)
Definition CreateIntConst (val : Z) (pty : PrimType) : M nat :=
  NewConstval pty (fun s => type ← GetPrimType_of typeTable pty; GetOrCreateIntConst s val type).

Definition NewBinaryNode (old : nat) (op : Opcode) (primType : PrimType) (lhs rhs : nat) : M nat :=
  c ← get old;
  match c with
  | BinaryCell o t a b =>
      if op_eqb o op && pty_eqb t primType && (a =? lhs)%nat && (b =? rhs)%nat then mret old
      else New (BinaryCell op primType lhs rhs)
  | _ => lift (Fault WrongMember)
  end.

Definition NewUnaryNode (old : nat) (op : Opcode) (primType : PrimType) (expr : nat) : M nat :=
  c ← get old;
  a ← lift (Opnd c 0);
  if op_eqb (GetOpCode c) op && pty_eqb (GetPrimType c) primType && (a =? expr)%nat then mret old
  else New (UnaryCell op primType expr).

(** +-a, 5 -> a + 5; +-a, -5 -> a - 5 *)
Definition add_or_sub (resultType : PrimType) (first : nat) (v : IntVal) (neg : bool) : M nat :=
  add ← lift (added_as_is resultType v neg);
  if add : bool then
    e ← lift (GetExtValue v);
    val ← CreateIntConst (wrap 64 e) resultType;
    New (BinaryCell OP_add resultType first val)
  else
    n ← lift (op_neg v);
    e ← lift (GetExtValue n);
    val ← CreateIntConst (wrap 64 e) resultType;
    New (BinaryCell OP_sub resultType first val).

Definition PairToExpr (resultType : PrimType) (p : pair) : M nat :=
  match snd p with
  | None => mret (fst p)
  | Some v =>
      z ← lift (op_eq_int64 v 0);
      if z : bool then mret (fst p)
      else
        c ← get (fst p);
        neg ← lift (GetSignBit v);
        if op_eqb (GetOpCode c) OP_neg && negb neg then
          e ← lift (GetExtValue v);
          val ← CreateIntConst (wrap 64 e) resultType;
          r ← lift (Opnd c 0);
          New (BinaryCell OP_sub resultType val r)
        else add_or_sub resultType (fst p) v neg
  end.

Definition FoldBase (node : nat) : M pair := mret (node, None).

(** ** Negation *)

Definition Negate_base (node : nat) : M nat :=
  t ← type_of_node node; New (UnaryCell OP_neg t node).

Definition Negate_unary (node : nat) : M nat :=
  c ← get node;
  if op_eqb (GetOpCode c) OP_neg then lift (Opnd c 0)
  else NewUnaryNode node OP_neg (GetPrimType c) node.

(** The copy of the node refers to the same constant, which is negated in place. *)
Definition neg_const (p : nat) (s : IntConstTable) : res (IntConstTable * unit) :=
  match objects s !! p with
  | Some c =>
      n ← Neg c;
      Ret (MkIntConstTable (<[p := n]> (objects s)) (intConstTable s) (int128ConstTable s), tt)
  | None => Fault OutOfBounds
  end.

Definition Negate_constval (node : nat) : M nat :=
  c ← get node;
  match c with
  | ConstvalCell t p => copy ← New (ConstvalCell t p); _ ← in_table (neg_const p); mret copy
  | _ => lift (Fault WrongMember)
  end.

Definition NegateTree (node : nat) : M nat :=
  c ← get node;
  if IsUnaryNode c then Negate_unary node
  else if op_eqb (GetOpCode c) OP_constval then Negate_constval node
  else Negate_base node.

(** ** Folds of constants

    The constants of the model are integers: a fold that takes them for
    floating-point constants reads a member they do not have. *)

Definition FoldConstUnary (opcode : Opcode) (resultType : PrimType) (cst : nat) : M nat :=
  if IsPrimitiveInteger resultType || IsPrimitiveDynInteger resultType then
    c ← get_const cst;
    NewConstval resultType (fun s => FoldIntConstUnaryMIRConst typeTable s opcode resultType c)
  else if pty_eqb resultType PTY_f32 || pty_eqb resultType PTY_f64 || pty_eqb resultType PTY_f128 then
    lift (Fault WrongMember)
  else lift (Fault AssertFail).

Definition FoldConstBinary (opcode : Opcode) (resultType : PrimType) (const0 const1 : nat) : M nat :=
  if IsPrimitiveInteger resultType || IsPrimitiveDynInteger resultType then
    c0 ← get_const const0;
    c1 ← get_const const1;
    NewConstval resultType (fun s => FoldIntConstBinaryMIRConst typeTable s opcode resultType c0 c1)
  else if pty_eqb resultType PTY_f32 || pty_eqb resultType PTY_f64 then lift (Fault WrongMember)
  else lift (Fault AssertFail).

Definition FoldConstComparison (opcode : Opcode) (resultType opndType : PrimType) (const0 const1 : nat)
    : M nat :=
  if IsPrimitiveInteger opndType || IsPrimitiveDynInteger opndType then
    c0 ← get_const const0;
    c1 ← get_const const1;
    NewConstval resultType
      (fun s => FoldIntConstComparisonMIRConst typeTable s opcode resultType opndType c0 c1)
  else if pty_eqb opndType PTY_f32 || pty_eqb opndType PTY_f64 then lift (Fault WrongMember)
  else lift (Fault AssertFail).

(** FoldTypeCvt(const ConstvalNode &, ...): no node when the types are not folded *)
Definition FoldTypeCvt_constval (cst : nat) (fromType toType : PrimType) : M (option nat) :=
  c ← get_const cst;
  o ← in_table (fun s =>
        o ← FoldTypeCvtMIRConst typeTable s (fun _ _ => Fault WrongMember) c fromType toType;
        match o with Some r => Ret (fst r, Some (snd r)) | None => Ret (s, None) end);
  match o with
  | Some p => k ← get_const p; n ← New (ConstvalCell (type_prim (GetType k)) p); mret (Some n)
  | None => mret None
  end.

Definition FoldSignExtend_constval (opcode : Opcode) (resultType : PrimType) (size : Z) (cst : nat) : M nat :=
  c ← get_const cst;
  p ← in_table (fun s => FoldSignExtend typeTable s opcode resultType size c);
  k ← get_const p;
  New (ConstvalCell (type_prim (GetType k)) p).

Definition FoldConstComparisonReverse (opcode : Opcode) (resultType opndType : PrimType) (l r : nat) : M nat :=
  op ← lift (match opcode with
             | OP_gt => Ret OP_lt | OP_lt => Ret OP_gt | OP_ge => Ret OP_le | OP_le => Ret OP_ge
             | OP_eq | OP_ne => Ret opcode
             | _ => Fault AssertFail
             end);
  New (CompareCell op resultType opndType r l).

(** IsDivSafe of maple_ir/src/mir_const.cpp *)
Definition IsDivSafe (dividend divisor : MIRIntConst) (pType : PrimType) : res bool :=
  z ← op_eq_int64 (GetValue divisor) 0;
  if IsUnsignedInteger pType then Ret (negb z)
  else if z : bool then Ret false
  else
    m ← IsMinValue (GetValue dividend);
    if m : bool then o ← AreAllBitsOne (GetValue divisor); Ret (negb o) else Ret true.

(** ** Unary nodes *)

Section Dispatch.
(** The recursive call *)
Context (DispatchFold : nat -> M pair).

(** The end of FoldUnary for a negated integer; [origPtyp] is the type of the
    node. *)
Definition FoldUnary_neg (node opnd : nat) (origPtyp : PrimType) (p : pair) : M pair :=
  result ← NegateTree (fst p);
  rc ← get result;
  let newPtyp := GetPrimType rc in
  if op_eqb (GetOpCode rc) OP_neg && negb (pty_eqb newPtyp origPtyp)
     && negb (GetPrimTypeSize newPtyp =? GetPrimTypeSize origPtyp) then
    (* do not fold explicit cvt *)
    t ← type_of_node opnd;
    e ← PairToExpr t p;
    c ← get node;
    n ← NewUnaryNode node (GetOpCode c) origPtyp e;
    mret (n, None)
  else
    result ← (if op_eqb (GetOpCode rc) OP_neg then
                if pty_eqb newPtyp origPtyp then
                  a ← lift (Opnd rc 0);
                  mret (if (a =? opnd)%nat then node else result)
                else _ ← SetPrimType result origPtyp; mret result
              else mret result);
    match snd p with
    | Some v => n ← lift (op_neg v); mret (result, Some n)
    | None => mret (result, None)
    end.

Definition FoldUnary (node : nat) : M pair :=
  c ← get node;
  opnd ← lift (Opnd c 0);
  p ← DispatchFold opnd;
  c ← get node;
  pc ← get (fst p);
  match constval_of pc with
  | Some cst => r ← FoldConstUnary (GetOpCode c) (GetPrimType c) cst; mret (r, None)
  | None =>
      if IsPrimitiveInteger (GetPrimType c) && op_eqb (GetOpCode c) OP_neg
         && negb (pty_eqb (GetPrimType pc) PTY_u1) then
        FoldUnary_neg node opnd (GetPrimType c) p
      else
        t ← type_of_node opnd;
        e ← PairToExpr t p;
        r ← NewUnaryNode node (GetOpCode c) (GetPrimType c) e;
        mret (r, None)
  end.

(** ** Conversions *)

Definition FoldTypeCvt (node : nat) : M pair :=
  c ← get node;
  opnd ← lift (Opnd c 0);
  p ← DispatchFold opnd;
  c ← get node;
  match c with
  | TypeCvtCell op destPtyp fromPtyp _ =>
      pc ← get (fst p);
      let redundant :=
        op_eqb op OP_cvt && (GetPrimTypeSize fromPtyp =? GetPrimTypeSize destPtyp) &&
        ((IsPossible64BitAddress fromPtyp && IsPossible64BitAddress destPtyp)
         || (IsPossible32BitAddress fromPtyp && IsPossible32BitAddress destPtyp)
         || (IsPrimitivePureScalar fromPtyp && IsPrimitivePureScalar destPtyp)) in
      let rebuild :=
        t ← type_of_node opnd;
        e ← PairToExpr t p;
        if negb (e =? opnd)%nat then n ← New (TypeCvtCell op destPtyp fromPtyp e); mret (n, None)
        else mret (node, None) in
      match constval_of pc with
      | Some cst =>
          result ← (match op with
                    | OP_cvt => FoldTypeCvt_constval cst fromPtyp destPtyp
                    | OP_ceil | OP_floor | OP_round | OP_trunc => lift (Fault WrongMember)
                    | _ => lift (Fault AssertFail)
                    end);
          match result with Some r => mret (r, None) | None => rebuild end
      | None =>
          if redundant then
            match snd p with
            | Some v => w ← lift (IntVal_as v destPtyp); mret (fst p, Some w)
            | None => mret (fst p, None)
            end
          else rebuild
      end
  | _ => lift (Fault WrongMember)
  end.

(** ** Extraction of bits *)

(** The truncation [x] repeats what reading its operand does. *)
Definition ExtractbitsRedundant (x : nat) : M bool :=
  xc ← get x;
  match xc with
  | ExtractbitsCell xop xt _ xsize opnd =>
      if GetPrimTypeSize xt =? 8 then mret false
      else
        oc ← get opnd;
        match oc with
        | LeafCell OP_dread _ i | LeafCell OP_iread _ i =>
            match accessed i with
            | None => mret false
            | Some (mt, msize) =>
                mret (IsPrimitiveInteger mt && (msize * 8 =? xsize) && pty_eqb mt xt)
            end
        | ExtractbitsCell OP_extractbits ot _ osize _ =>
            mret ((osize <? xsize) && op_eqb xop OP_zext && pty_eqb xt ot && IsUnsignedInteger ot)
        | _ => mret false
        end
  | _ => lift (Fault WrongMember)
  end.

Definition is_extract (op : Opcode) : bool := one_of [OP_extractbits; OP_sext; OP_zext] op.

(** The same bits extracted twice: the inner extraction is deleted. *)
Definition delete_redundant (result : nat) (offset size : Z) : M unit :=
  opnd ← opnd_of_node result 0;
  oc ← get opnd;
  match oc with
  | ExtractbitsCell oop _ opndOffset opndSize inner =>
      if is_extract oop && (offset =? opndOffset) && (size =? opndSize) then SetOpnd0 result inner
      else mret tt
  | _ => mret tt
  end.

Definition FoldExtractbits (node : nat) : M pair :=
  c ← get node;
  match c with
  | ExtractbitsCell opcode ptyp offset size opnd =>
      p ← DispatchFold opnd;
      pc ← get (fst p);
      match constval_of pc, one_of [OP_sext; OP_zext] opcode with
      | Some cst, true =>
          r ← FoldSignExtend_constval opcode ptyp size cst; mret (r, None)
      | _, _ =>
          t ← type_of_node opnd;
          e ← PairToExpr t p;
          result ← (if negb (e =? opnd)%nat then New (ExtractbitsCell opcode ptyp offset size e)
                    else mret node);
          _ ← delete_redundant result offset size;
          red ← (if (offset =? 0) && (8 <=? size) && IsPowerOf2_u64 size
                 then ExtractbitsRedundant result else mret false);
          if red : bool then o ← opnd_of_node result 0; mret (o, None)
          else mret (result, None)
      end
  | _ => lift (Fault WrongMember)
  end.

(** ** Binary nodes *)

(** [o.has_value() && *o != 0], and [!o.has_value() || o == 0] *)
Definition has_nonzero (o : option IntVal) : res bool :=
  match o with None => Ret false | Some v => z ← op_eq_int64 v 0; Ret (negb z) end.
Definition none_or_zero (o : option IntVal) : res bool :=
  match o with None => Ret true | Some v => op_eq_int64 v 0 end.

(** IntegerOpIsOverflow on two IntVals *)
Definition values_overflow (op : Opcode) (t : PrimType) (a b : IntVal) : res bool :=
  x ← GetExtValue a; y ← GetExtValue b; Ret (IntegerOpIsOverflow op t x y).

Definition convert_to (primType : PrimType) (result : nat) : M nat :=
  t ← type_of_node result;
  if IsNoCvtNeeded t primType then mret result else New (TypeCvtCell OP_cvt primType t result).

(** Both operands are constants. *)
Definition FoldBinary_consts (node : nat) (op : Opcode) (primType : PrimType) (l r pl pr : nat) : M pair :=
  c0 ← get_const pl;
  c1 ← get_const pr;
  unsafe ← lift (if one_of [OP_div; OP_rem] op && IsPrimitiveInteger primType
                 then b ← IsDivSafe c0 c1 primType; Ret (negb b) else Ret false);
  result ← (if unsafe : bool then NewBinaryNode node op primType l r
            else FoldConstBinary op primType pl pr);
  mret (result, None).

(** The left operand is the constant [cp] of the node [l]. *)
Definition lconst_result (node : nat) (op : Opcode) (primType rPrimTypes : PrimType)
    (l cp : nat) (rp : pair) : M pair :=
  c ← get_const cp;
  let cstTyp := type_prim (GetType c) in
  let r := fst rp in
  cst ← lift (IntVal_copy (GetValue c));
  rt ← type_of_node r;
  is0 ← lift (op_eq_int64 cst 0);
  is1 ← lift (op_eq_int64 cst 1);
  isM1 ← lift (op_eq_int64 cst (-1));
  nonzero ← lift (has_nonzero (snd rp));
  let rebuild := e ← PairToExpr rPrimTypes rp; b ← NewBinaryNode node op primType l e; mret (b, None) in
  let not_zero :=
    z ← CreateIntConst 0 rt; n ← New (CompareCell OP_ne primType rt r z); mret (n, None) in
  if op_eqb op OP_add then
    over ← lift (match snd rp with
                 | Some v => if IsSignedInteger cstTyp then values_overflow OP_add cstTyp cst v else Ret false
                 | None => Ret false
                 end);
    if over : bool then rebuild
    else s ← lift (AddSub (Some cst) (snd rp) true); mret (r, s)
  else if op_eqb op OP_sub && negb (pty_eqb rt PTY_u1) then
    s ← lift (AddSub (Some cst) (snd rp) false);
    r ← (if GetPrimTypeSize rPrimTypes <? GetPrimTypeSize primType
         then New (TypeCvtCell OP_cvt primType rPrimTypes r) else mret r);
    n ← NegateTree r;
    mret (n, s)
  else if one_of [OP_mul; OP_div; OP_rem; OP_ashr; OP_lshr; OP_shl; OP_band; OP_cand; OP_land] op && is0 then
    z ← CreateIntConst 0 cstTyp; mret (z, None)
  else if op_eqb op OP_mul && is1 then mret (r, snd rp)
  else if op_eqb op OP_bior && isM1 then
    z ← CreateIntConst (wrap 64 (-1)) cstTyp; mret (z, None)
  else if op_eqb op OP_mul && nonzero then
    s ← lift (opt_mul (Some cst) (snd rp));
    first ← (if GetPrimTypeSize rt <? GetPrimTypeSize primType
             then New (TypeCvtCell OP_cvt primType PTY_i32 r) else mret r);
    b ← NewBinaryNode node OP_mul primType l first;
    mret (b, s)
  else if one_of [OP_lior; OP_cior] op then
    if negb is0 then z ← CreateIntConst 1 cstTyp; mret (z, None) else not_zero
  else if one_of [OP_cand; OP_land] op && negb is0 then not_zero
  else if one_of [OP_bior; OP_bxor] op && is0 then mret (r, snd rp)
  else rebuild.

(** X * Y / Y -> X, for a constant Y *)
Definition fold_mul_div (l : nat) (cst : IntVal) : M (option nat) :=
  lc ← get l;
  x ← lift (Opnd lc 0);
  y ← lift (Opnd lc 1);
  xc ← get x;
  yc ← get y;
  let signed := IsSignedInteger (GetPrimType xc) && IsSignedInteger (GetPrimType yc) in
  let same (p res : nat) : M (option nat) :=
    k ← get_const p;
    mulCst ← lift (IntVal_copy (GetValue k));
    if (GetBitWidth mulCst =? GetBitWidth cst) && Bool.eqb (IsSigned mulCst) (IsSigned cst) then
      a ← lift (GetExtValue mulCst);
      b ← lift (GetExtValue cst);
      mret (if a =? b then Some res else None)
    else mret None in
  match constval_of yc, constval_of xc with
  | Some p, None => if signed then same p x else mret None
  | None, Some p => if signed then same p y else mret None
  | _, _ => mret None
  end.

(** The number of bits of a word, by the loop of the code *)
Definition count_bits (ucst : Z) : res Z :=
  r ← while_fuel 64 (fun st => negb (snd st =? 0)) (fun st => Ret (fst st + 1, shr 64 (snd st) 1))
        (1, shr 64 ucst 1);
  Ret (fst r).

(** (X >> n) & mask becomes an extraction of bits. *)
Definition fold_to_extractbits (primType : PrimType) (l : nat) (cst : IntVal) : M (option nat) :=
  lc ← get l;
  match lc with
  | BinaryCell lop _ x n =>
      nc ← get n;
      match one_of [OP_ashr; OP_lshr] lop, constval_of nc with
      | true, Some p =>
          k ← get_const p;
          shrAmt ← lift (GetExtValue (GetValue k));
          ucst ← lift (GetZXTValue cst);
          bsize ← lift (count_bits ucst);
          let width := GetPrimTypeSize primType * 8 in
          if (shrAmt + bsize <=? width) && (wrap 64 shrAmt <? width) then
            e ← New (ExtractbitsCell OP_extractbits (GetUnsignedPrimType primType)
                       (wrap 8 shrAmt) (wrap 8 bsize) x);
            mret (Some e)
          else mret None
      | _, _ => mret None
      end
  | _ => mret None
  end.

(** X ^ 1 where X is a conversion from u1: the operation is done in u1. *)
Definition fold_bxor_bool (node : nat) (primType : PrimType) (lp : pair) (result : nat) : M nat :=
  lc ← get (fst lp);
  zero ← lift (none_or_zero (snd lp));
  if op_eqb (GetOpCode lc) OP_cvt && zero then
    base ← lift (Opnd lc 0);
    bt ← type_of_node base;
    if pty_eqb bt PTY_u1 then
      constValue ← CreateIntConst 1 bt;
      p ← DispatchFold base;
      e ← PairToExpr bt p;
      temp ← NewBinaryNode node OP_bxor PTY_u1 e constValue;
      New (TypeCvtCell OP_cvt primType PTY_u1 temp)
    else mret result
  else mret result.

(** The right operand is the constant [cp] of the node [fst rp]. *)
Definition rconst_result (node : nat) (op : Opcode) (primType lPrimTypes rPrimTypes : PrimType)
    (lp rp : pair) (cp : nat) : M pair :=
  c ← get_const cp;
  let cstTyp := type_prim (GetType c) in
  let l := fst lp in
  let r := fst rp in
  cst ← lift (IntVal_copy (GetValue c));
  lc ← get l;
  is0 ← lift (op_eq_int64 cst 0);
  is1 ← lift (op_eq_int64 cst 1);
  isM1 ← lift (op_eq_int64 cst (-1));
  isMin ← lift (if op_eqb op OP_sub then IsMinValue cst else Ret false);
  nonzero ← lift (has_nonzero (snd lp));
  zero ← lift (none_or_zero (snd lp));
  low ← lift (match snd lp with
              | Some v =>
                  if op_eqb op OP_mul && nonzero then x ← GetSXTValue v; Ret (- kMaxOffset <? x) else Ret false
              | None => Ret false
              end);
  mask ← lift (if op_eqb op OP_band && negb is0 && negb isM1
               then z ← GetZXTValue cst; Ret (ContiguousBitsOf1 z) else Ret false);
  let rebuild := e ← PairToExpr lPrimTypes lp; b ← NewBinaryNode node op primType e r; mret (b, None) in
  if op_eqb op OP_add then
    over ← lift (match snd lp with
                 | Some v => values_overflow op cstTyp v cst
                 | None => Ret false
                 end);
    if over : bool then
      a ← PairToExpr lPrimTypes lp;
      b ← PairToExpr rPrimTypes rp;
      n ← NewBinaryNode node op primType a b;
      mret (n, None)
    else s ← lift (AddSub (snd lp) (Some cst) true); mret (l, s)
  else if op_eqb op OP_sub && (negb (IsSigned cst) || negb isMin) then
    s ← lift (AddSub (snd lp) (Some cst) false); mret (l, s)
  else if one_of [OP_mul; OP_band; OP_cand; OP_land] op && is0 then
    z ← CreateIntConst 0 cstTyp; mret (z, None)
  else if one_of [OP_mul; OP_div] op && is1 then mret (l, snd lp)
  else if op_eqb op OP_div && (match snd lp with None => true | Some _ => false end)
          && op_eqb (GetOpCode lc) OP_mul
          && IsSignedInteger primType && IsSignedInteger lPrimTypes && IsSignedInteger rPrimTypes then
    o ← fold_mul_div l cst;
    match o with Some x => mret (x, None) | None => rebuild end
  else if op_eqb op OP_mul && nonzero && low then
    s ← lift (opt_mul (snd lp) (Some cst));
    first ← (if GetPrimTypeSize (GetPrimType lc) <? GetPrimTypeSize primType
             then New (TypeCvtCell OP_cvt primType PTY_i32 l) else mret l);
    fc ← get first;
    if op_eqb (GetOpCode fc) OP_neg && isM1 then a ← lift (Opnd fc 0); mret (a, s)
    else b ← NewBinaryNode node OP_mul primType first r; mret (b, s)
  else if op_eqb op OP_band && isM1 then mret (l, snd lp)
  else if op_eqb op OP_band && mask && zero then
    o ← fold_to_extractbits primType l cst;
    match o with Some e => mret (e, None) | None => rebuild end
  else if op_eqb op OP_bior && isM1 then
    z ← CreateIntConst (wrap 64 (-1)) cstTyp; mret (z, None)
  else if one_of [OP_lior; OP_cior] op then
    if is0 : bool then mret (l, snd lp)
    else
      neg ← lift (GetSignBit cst);
      if negb neg then z ← CreateIntConst 1 cstTyp; mret (z, None) else rebuild
  else if one_of [OP_ashr; OP_lshr; OP_shl; OP_bior; OP_bxor] op && is0 then mret (l, snd lp)
  else if op_eqb op OP_bxor && is1 && negb (pty_eqb primType PTY_u1) then
    a ← PairToExpr lPrimTypes lp;
    b ← PairToExpr rPrimTypes rp;
    result ← NewBinaryNode node op primType a b;
    result ← fold_bxor_bool node primType lp result;
    mret (result, None)
  else if op_eqb op OP_rem && is1 then
    z ← CreateIntConst 0 cstTyp; mret (z, None)
  else rebuild.

Definition is_none {A : Type} (o : option A) : bool := match o with None => true | Some _ => false end.

(** After the operands are folded *)
Definition FoldBinary_folded (node : nat) (op : Opcode) (primType lPrimTypes rPrimTypes : PrimType)
    (opnd1 : nat) (lp rp : pair) : M pair :=
  lc ← get (fst lp);
  rc ← get (fst rp);
  let isInt := IsPrimitiveInteger primType in
  match constval_of lc, constval_of rc with
  | Some pl, Some pr => FoldBinary_consts node op primType (fst lp) (fst rp) pl pr
  | Some pl, None =>
      if isInt then
        p ← lconst_result node op primType rPrimTypes (fst lp) pl rp;
        e ← convert_to primType (fst p);
        mret (e, snd p)
      else
        a ← PairToExpr lPrimTypes lp; b ← PairToExpr rPrimTypes rp;
        n ← NewBinaryNode node op primType a b; mret (n, None)
  | None, Some pr =>
      if isInt then
        p ← rconst_result node op primType lPrimTypes rPrimTypes lp rp pr;
        e ← convert_to primType (fst p);
        mret (e, snd p)
      else
        a ← PairToExpr lPrimTypes lp; b ← PairToExpr rPrimTypes rp;
        n ← NewBinaryNode node op primType a b; mret (n, None)
  | None, None =>
      o1 ← opcode_of_node opnd1;
      if isInt && op_eqb op OP_add then
        n ← NewBinaryNode node op primType (fst lp) (fst rp);
        s ← lift (AddSub (snd lp) (snd rp) true);
        mret (n, s)
      else if isInt && op_eqb op OP_sub then
        if op_eqb o1 OP_sub && op_eqb (GetOpCode rc) OP_neg then
          (* (x - (y - z)) -> (x - neg(z)) - y could cross the int limit *)
          mret (node, None)
        else
          n ← NewBinaryNode node op primType (fst lp) (fst rp);
          s ← lift (AddSub (snd lp) (snd rp) false);
          mret (n, s)
      else
        a ← PairToExpr lPrimTypes lp; b ← PairToExpr rPrimTypes rp;
        n ← NewBinaryNode node op primType a b; mret (n, None)
  end.

Definition FoldBinary (node : nat) : M pair :=
  c ← get node;
  opnd0 ← lift (Opnd c 0);
  opnd1 ← lift (Opnd c 1);
  lPrimTypes ← type_of_node opnd0;
  rPrimTypes ← type_of_node opnd1;
  if pty_eqb lPrimTypes PTY_f128 || pty_eqb rPrimTypes PTY_f128 || pty_eqb (GetPrimType c) PTY_f128 then
    (* folding of non-unary float128 is not supported yet *)
    mret (node, None)
  else
    lp ← DispatchFold opnd0;
    rp ← DispatchFold opnd1;
    FoldBinary_folded node (GetOpCode c) (GetPrimType c) lPrimTypes rPrimTypes opnd1 lp rp.

(** ** Comparisons *)

(** The constant of the node is 0. *)
Definition const_is_zero (c : Cell) : M bool :=
  match c with
  | ConstvalCell _ p => k ← get_const p; lift (IsZero k)
  | _ => mret false
  end.

(** A comparison of a cmp with 0 compares the operands of the cmp. *)
Definition SimplifyDoubleConstvalCompare (node : nat) (isRConstval isGtOrLt : bool) : M nat :=
  c ← get node;
  l ← lift (Opnd c 0);
  r ← lift (Opnd c 1);
  lc ← get l;
  rc ← get r;
  zero ← const_is_zero (if isRConstval then rc else lc);
  if zero : bool then
    match (if isRConstval then lc else rc) with
    | CompareCell _ _ opndType a b =>
        if negb isRConstval && isGtOrLt
        then New (CompareCell (GetOpCode c) (GetPrimType c) opndType b a)
        else New (CompareCell (GetOpCode c) (GetPrimType c) opndType a b)
    | _ => lift (Fault WrongMember)
    end
  else mret node.

(** ne (X, 0), where X converts a u1 node: that node.  The loop follows the
    conversions; [l_is_ne_eq]: the left operand is itself eq or ne. *)
Fixpoint find_bool (fuel : nat) (l_is_ne_eq : bool) (opnd : nat) : M (option nat) :=
  match fuel with
  | O => lift (Fault OutOfFuel)
  | Datatypes.S fuel =>
      c ← get opnd;
      if pty_eqb (GetPrimType c) PTY_u1 || l_is_ne_eq then mret (Some opnd)
      else if op_eqb (GetOpCode c) OP_cvt then a ← lift (Opnd c 0); find_bool fuel l_is_ne_eq a
      else mret None
  end.

(** The number of nodes bounds a chain of conversions. *)
Definition memory_size : M nat := fun st => Ret (st, length (cells st)).

Definition SimplifyDoubleCompare (compareNode : nat) : M nat :=
  c ← get compareNode;
  l ← lift (Opnd c 0);
  r ← lift (Opnd c 1);
  lc ← get l;
  rc ← get r;
  let l_cmp := op_eqb (GetOpCode lc) OP_cmp && op_eqb (GetOpCode rc) OP_constval in
  let r_cmp := op_eqb (GetOpCode rc) OP_cmp && op_eqb (GetOpCode lc) OP_constval in
  let l_ne_eq := one_of [OP_ne; OP_eq] (GetOpCode lc) in
  let op := GetOpCode c in
  if one_of [OP_ne; OP_eq] op then
    if l_cmp || r_cmp then SimplifyDoubleConstvalCompare compareNode l_cmp false
    else if op_eqb op OP_ne && op_eqb (GetOpCode rc) OP_constval then
      zero ← const_is_zero rc;
      if zero : bool then
        n ← memory_size;
        o ← find_bool n l_ne_eq l;
        mret (match o with Some x => x | None => compareNode end)
      else mret compareNode
    else if op_eqb op OP_eq && op_eqb (GetOpCode rc) OP_constval then
      zero ← const_is_zero rc;
      if zero && l_ne_eq then
        _ ← SetOpCode l (if op_eqb (GetOpCode lc) OP_ne then OP_eq else OP_ne);
        mret l
      else mret compareNode
    else mret compareNode
  else if one_of [OP_gt; OP_lt] op then
    if l_cmp || r_cmp then SimplifyDoubleConstvalCompare compareNode l_cmp true else mret compareNode
  else mret compareNode.

Definition FoldCompare (node : nat) : M pair :=
  c ← get node;
  opnd0 ← lift (Opnd c 0);
  opnd1 ← lift (Opnd c 1);
  lp ← DispatchFold opnd0;
  rp ← DispatchFold opnd1;
  lc ← get (fst lp);
  rc ← get (fst rp);
  match c with
  | CompareCell opcode ptyp opndType _ _ =>
      if pty_eqb opndType PTY_f128 || pty_eqb ptyp PTY_f128 then mret (node, None)
      else
        let rebuild :=
          lt ← type_of_node opnd0;
          l ← PairToExpr lt lp;
          rt ← type_of_node opnd1;
          r ← PairToExpr rt rp;
          result ← (if negb (l =? opnd0)%nat || negb (r =? opnd1)%nat
                    then New (CompareCell opcode ptyp opndType l r) else mret node);
          result ← SimplifyDoubleCompare result;
          mret (result, None) in
        match constval_of lc, constval_of rc with
        | Some pl, Some pr =>
            if negb (IsPrimitiveDynType opndType) then
              result ← FoldConstComparison opcode ptyp opndType pl pr; mret (result, None)
            else rebuild
        | Some _, None =>
            if negb (op_eqb opcode OP_cmp) then
              rt ← type_of_node opnd1;
              r ← PairToExpr rt rp;
              result ← FoldConstComparisonReverse opcode ptyp opndType (fst lp) r;
              mret (result, None)
            else rebuild
        | None, _ => rebuild
        end
  | _ => lift (Fault WrongMember)
  end.
End Dispatch.

(** ** The dispatch *)

Definition fold_unary_op : Opcode -> bool := one_of [OP_abs; OP_bnot; OP_lnot; OP_neg; OP_recip; OP_sqrt].
Definition fold_cvt_op : Opcode -> bool := one_of [OP_ceil; OP_floor; OP_round; OP_trunc; OP_cvt].
Definition OP_CASE_GROUP : list Opcode :=
  [OP_ashr; OP_band; OP_bior; OP_bxor; OP_cand; OP_cior; OP_div; OP_land; OP_lior; OP_lshr;
   OP_max; OP_min; OP_mul; OP_rem; OP_shl; OP_sub].
Definition fold_binary_op : Opcode -> bool := one_of (OP_add :: OP_CASE_GROUP).
Definition fold_compare_op : Opcode -> bool := one_of [OP_eq; OP_ne; OP_ge; OP_gt; OP_le; OP_lt; OP_cmp].
(** The other opcodes with a fold, whose classes the memory does not have *)
Definition fold_other_op : Opcode -> bool :=
  one_of [OP_sizeoftype; OP_iaddrof; OP_iread; OP_depositbits; OP_select; OP_array; OP_retype;
          OP_gcmallocjarray; OP_gcpermallocjarray].

Fixpoint DispatchFold (fuel : nat) (node : nat) : M pair :=
  match fuel with
  | O => lift (Fault OutOfFuel)
  | Datatypes.S fuel =>
      op ← opcode_of_node node;
      if fold_unary_op op then FoldUnary (DispatchFold fuel) node
      else if fold_cvt_op op then FoldTypeCvt (DispatchFold fuel) node
      else if is_extract op then FoldExtractbits (DispatchFold fuel) node
      else if fold_binary_op op then FoldBinary (DispatchFold fuel) node
      else if fold_compare_op op then FoldCompare (DispatchFold fuel) node
      else if fold_other_op op then lift (Fault WrongMember)
      else FoldBase node
  end.

(** [None] stands for the null pointer: the node is to be kept. *)
Definition Fold (fuel : nat) (node : nat) : M (option nat) :=
  op ← opcode_of_node node;
  stmt ← lift (IsStmt op);
  if stmt : bool then mret None
  else
    p ← DispatchFold fuel node;
    t ← type_of_node node;
    result ← PairToExpr t p;
    mret (if (result =? node)%nat then None else Some result).
End Tree.
