(* ===== verification/ExprTree.v ===== *)
(** * Expressions: their values and their types

    The specification side of expression folding: the tree that the nodes in
    memory represent, the value of a tree, the types its operands need, and
    what the folds of [ConstantFoldTree] rely on beyond the types. *)
From S2P Require Import Prelude.
From S2P Require Import PrimTypes.
From S2P Require Import Opcodes.
From S2P Require Import IntVal.
From S2P Require Import IntValFacts.
From S2P Require Import IntValSpec.
From S2P Require Import IntValTyped.
From S2P Require Import IntConst.
From S2P Require Import IntConstFacts.
From S2P Require Import ConstantFold.
From S2P Require Import ConstantFoldFacts.

(** A constant refers to its object by a pointer into the table. *)
Inductive BaseNode : Set :=
  | ConstvalNode (ptyp : PrimType) (constVal : nat)
  | UnaryNode (op : Opcode) (ptyp : PrimType) (opnd : BaseNode)
  | TypeCvtNode (op : Opcode) (ptyp from : PrimType) (opnd : BaseNode)
  | ExtractbitsNode (op : Opcode) (ptyp : PrimType) (offset size : Z) (opnd : BaseNode)
  | BinaryNode (op : Opcode) (ptyp : PrimType) (lhs rhs : BaseNode)
  | CompareNode (op : Opcode) (ptyp opndType : PrimType) (lhs rhs : BaseNode)
  | LeafNode (op : Opcode) (ptyp : PrimType) (id : nat).

Definition node_op (n : BaseNode) : Opcode :=
  match n with
  | ConstvalNode _ _ => OP_constval
  | UnaryNode op _ _ | TypeCvtNode op _ _ _ | ExtractbitsNode op _ _ _ _ | BinaryNode op _ _ _
  | CompareNode op _ _ _ _ | LeafNode op _ _ => op
  end.

Definition node_ptyp (n : BaseNode) : PrimType :=
  match n with
  | ConstvalNode t _ | UnaryNode _ t _ | TypeCvtNode _ t _ _ | ExtractbitsNode _ t _ _ _
  | BinaryNode _ t _ _ | CompareNode _ t _ _ _ | LeafNode _ t _ => t
  end.

Fixpoint height (n : BaseNode) : nat :=
  match n with
  | ConstvalNode _ _ | LeafNode _ _ _ => 1
  | UnaryNode _ _ a | TypeCvtNode _ _ _ a | ExtractbitsNode _ _ _ _ a => S (height a)
  | BinaryNode _ _ a b | CompareNode _ _ _ a b => S (Nat.max (height a) (height b))
  end.

Section Trees.
Context `{HT : Target}.

(** ** The value of an expression *)

(** The value of a binary operator in the type [t] on [a] and [b], where [c] is
    the unsigned reading of the right operand, a shift count. *)
Definition bin_value (op : Opcode) t (a b c : Z) : option Z :=
  let w := type_width t in
  let n := c mod w in
  match op with
  | OP_add => Some (a + b)
  | OP_sub => Some (a - b)
  | OP_mul => Some (a * b)
  | OP_div => Some (Z.quot (in_type t a) (in_type t b))
  | OP_rem => Some (Z.rem (in_type t a) (in_type t b))
  | OP_shl => Some (a * 2 ^ n)
  | OP_lshr => Some (wrap w a / 2 ^ n)
  | OP_ashr => Some (swrap w a / 2 ^ n)
  | OP_max => Some (Z.max a b)
  | OP_min => Some (Z.min a b)
  | OP_band => Some (Z.land a b)
  | OP_bior => Some (Z.lor a b)
  | OP_bxor => Some (Z.lxor a b)
  | OP_land | OP_cand => Some (Z.b2z (negb (a =? 0) && negb (b =? 0)))
  | OP_lior | OP_cior => Some (Z.b2z (negb (a =? 0) || negb (b =? 0)))
  | _ => None
  end.

Lemma fold_value_bin op t x y : fold_value op t x y = bin_value op t (ival x) (ival y) (uval y).
Proof. reflexivity. Qed.

(** The sign extends the extracted bits. *)
Definition extract_signed (op : Opcode) t : bool :=
  match op with OP_sext => true | OP_zext => false | _ => IsSignedInteger t end.

Definition extract_value (op : Opcode) t (offset size a : Z) : Z :=
  norm size (extract_signed op t) (a / 2 ^ offset).

(** The value of the leaves *)
Context (leaf : nat -> Z).
Implicit Types (objs : list MIRIntConst) (n a b : BaseNode).

Definition const_value objs (p : nat) : Z :=
  match objs !! p with Some c => ival (GetValue c) | None => 0 end.

Fixpoint node_value objs n : Z :=
  match n with
  | ConstvalNode t p => in_type t (const_value objs p)
  | UnaryNode op t a => in_type t (default 0 (unary_value op (IsSignedInteger t) t (node_value objs a)))
  | TypeCvtNode _ t f a => in_type t (in_type f (node_value objs a))
  | ExtractbitsNode op t o s a => in_type t (extract_value op t o s (node_value objs a))
  | BinaryNode op t a b =>
      let y := node_value objs b in
      in_type t (default 0 (bin_value op t (node_value objs a) y (wrap (type_width (node_ptyp b)) y)))
  | CompareNode op t ot a b =>
      in_type t (default 0 (compare_value op (in_type ot (node_value objs a)) (in_type ot (node_value objs b))))
  | LeafNode _ t i => in_type t (leaf i)
  end.

(** ** Types *)

(** An operand of the width of the operation, or a truth value *)
Definition fits t n : Prop := type_width (node_ptyp n) = type_width t \/ node_ptyp n = PTY_u1.

(** The types of arithmetic *)
Definition arith t : Prop := small_int t /\ t <> PTY_u1.

Definition is_extract_op (op : Opcode) : Prop := op = OP_extractbits \/ op = OP_sext \/ op = OP_zext.

(** The type [t] suits the operator, given the operands. *)
Definition unary_type (op : Opcode) t : Prop :=
  match op with
  | OP_neg | OP_abs => arith t
  | OP_bnot | OP_lnot => small_int t
  | _ => False
  end.

Definition binary_type (op : Opcode) t : Prop :=
  match op with
  | OP_add | OP_sub | OP_mul | OP_div | OP_rem | OP_max | OP_min => arith t
  | OP_ashr | OP_lshr | OP_shl => arith t /\ 32 <= type_width t
  | OP_band | OP_bior | OP_bxor => small_int t
  | OP_land | OP_lior | OP_cand | OP_cior => t = PTY_u1
  | _ => False
  end.

Definition is_shift (op : Opcode) : bool :=
  match op with OP_ashr | OP_lshr | OP_shl => true | _ => false end.

Definition compare_type (op : Opcode) t : Prop :=
  match op with
  | OP_cmp => arith t
  | OP_eq | OP_ne | OP_ge | OP_gt | OP_le | OP_lt => t = PTY_u1
  | _ => False
  end.

(** The leaves are nodes that DispatchFold leaves alone. *)
Definition leaf_op (op : Opcode) : Prop :=
  op <> OP_constval /\
  ~ In op [OP_abs; OP_bnot; OP_lnot; OP_neg; OP_recip; OP_sqrt; OP_ceil; OP_floor; OP_round; OP_trunc;
    OP_cvt; OP_sext; OP_zext; OP_extractbits; OP_add; OP_ashr; OP_band; OP_bior; OP_bxor; OP_cand;
    OP_cior; OP_div; OP_land; OP_lior; OP_lshr; OP_max; OP_min; OP_mul; OP_rem; OP_shl; OP_sub; OP_eq;
    OP_ne; OP_ge; OP_gt; OP_le; OP_lt; OP_cmp; OP_sizeoftype; OP_iaddrof; OP_iread; OP_depositbits;
    OP_select; OP_array; OP_retype; OP_gcmallocjarray; OP_gcpermallocjarray].

Fixpoint wt objs n : Prop :=
  match n with
  | ConstvalNode t p => small_int t /\ exists v, const_at objs p (ty_of t) v
  | LeafNode op t _ => small_int t /\ leaf_op op
  | UnaryNode op t a => unary_type op t /\ fits t a /\ wt objs a
  | TypeCvtNode op t f a => op = OP_cvt /\ small_int t /\ small_int f /\ fits f a /\ wt objs a
  | ExtractbitsNode op t o s a =>
      is_extract_op op /\ arith t /\ fits t a /\ 0 <= o /\ 1 <= s /\ o + s <= type_width t /\
      (op <> OP_extractbits -> o = 0) /\ wt objs a
  | BinaryNode op t a b =>
      binary_type op t /\ fits t a /\ (is_shift op = true \/ fits t b) /\ wt objs a /\ wt objs b
  | CompareNode op t ot a b =>
      compare_type op t /\ small_int ot /\ fits ot a /\ fits ot b /\ wt objs a /\ wt objs b
  end.

(** ** What folding relies on beyond the types *)

(** Properties of the nodes of a tree *)
Inductive feature : Set := FMul | FExtract | FCmp | FBool | FTruth | FUnsigned | FNegConst.

Definition is_const n : Prop := match n with ConstvalNode _ _ => True | _ => False end.

Definition unsigned_type t : Prop := IsUnsignedInteger t = true /\ t <> PTY_u1.

(** What a type brings *)
Definition type_has (x : feature) t : Prop :=
  match x with FTruth => t = PTY_u1 | FUnsigned => unsigned_type t | _ => False end.

(** An operator on truth values has FBool, and so has bxor on an operand with
    truth values below. *)
Definition op_has (x : feature) (op : Opcode) t : Prop :=
  match x with
  | FMul => op = OP_mul
  | FExtract => op = OP_extractbits \/ op = OP_band
  | FCmp => op = OP_cmp
  | FBool | FTruth => t = PTY_u1
  | FUnsigned => unsigned_type t \/ op = OP_band
  | FNegConst => False
  end.

Fixpoint has (x : feature) n : Prop :=
  match n with
  | ConstvalNode t _ | LeafNode _ t _ => type_has x t
  | UnaryNode op t a => op_has x op t \/ has x a \/ (x = FNegConst /\ op = OP_neg /\ is_const a)
  | TypeCvtNode op t _ a | ExtractbitsNode op t _ _ a => op_has x op t \/ has x a
  | BinaryNode op t a b =>
      op_has x op t \/ has x a \/ has x b \/ (x = FBool /\ op = OP_bxor /\ has FTruth a)
  | CompareNode op t _ a b => op_has x op t \/ has x a \/ has x b
  end.

(** Constants and leaves *)
Definition atom n : Prop := match n with ConstvalNode _ _ | LeafNode _ _ _ => True | _ => False end.

(** A comparison: its value is 0 or 1, and no constant is split off it. *)
Definition boolean n : Prop := match n with CompareNode op _ _ _ _ => op <> OP_cmp | _ => False end.

(** Folding changes no node of the tree in place. *)
Fixpoint calm n : Prop :=
  match n with
  | ConstvalNode _ _ | LeafNode _ _ _ => True
  | UnaryNode op _ a => op <> OP_neg /\ calm a
  | TypeCvtNode _ _ _ a => calm a
  | ExtractbitsNode _ _ _ _ _ => False
  | BinaryNode _ _ a b => calm a /\ calm b
  | CompareNode op _ _ a b => op <> OP_eq /\ calm a /\ calm b
  end.

(** - the operands of abs, max and min have exactly the type of the node;
    - a conversion to u1 is not from another type of one byte;
    - bits above the lowest are not extracted from what may become an
      extraction, and sext and zext agree with the type;
    - no product is divided (X * Y / Y becomes X), and a signed dividend has
      no unsigned part (the test of IsDivSafe looks at the constant's type);
    - x - (y - z) is left alone only where folding changes no node in place;
    - a mask is not taken of what may become an extraction;
    - bxor is on truth values, or not on what becomes one;
    - the operands of the logical operators are comparisons;
    - the order of cmp is not compared as unsigned. *)
Definition binary_foldable (op : Opcode) t a b : Prop :=
  match op with
  | OP_max | OP_min => atom a /\ atom b /\ node_ptyp a = t /\ node_ptyp b = t
  | OP_div => ~ has FMul a /\ (IsUnsignedInteger t = true \/ ~ has FUnsigned a)
  | OP_rem => IsUnsignedInteger t = true \/ ~ has FUnsigned a
  | OP_sub => node_op b = OP_sub -> calm a /\ calm b
  | OP_band => ~ has FExtract a
  | OP_bxor => t = PTY_u1 \/ ~ has FBool a
  | OP_land | OP_lior | OP_cand | OP_cior => boolean a /\ boolean b
  | _ => True
  end.

Fixpoint foldable n : Prop :=
  match n with
  | ConstvalNode _ _ | LeafNode _ _ _ => True
  | UnaryNode op t a => foldable a /\ (op = OP_abs -> atom a /\ node_ptyp a = t)
  | TypeCvtNode op t f a => foldable a /\ (t = PTY_u1 -> f = PTY_u1 \/ 8 < type_width f)
  | ExtractbitsNode op t o s a =>
      foldable a /\ (o = 0 \/ ~ has FExtract a) /\
      (op = OP_sext -> IsSignedInteger t = true) /\ (op = OP_zext -> IsSignedInteger t = false)
  | BinaryNode op t a b => foldable a /\ foldable b /\ binary_foldable op t a b
  | CompareNode op t ot a b =>
      foldable a /\ foldable b /\
      (op = OP_gt \/ op = OP_lt -> IsSignedInteger ot = true \/ (~ has FCmp a /\ ~ has FCmp b))
  end.
End Trees.
