(* ===== verification/ExprTreeFacts.v ===== *)
(** * Facts on the values and types of expressions

    The value of an operator in a type depends on its operands modulo the width
    of the type only, and on the table of constants not at all once the
    constants are there. *)
From S2P Require Import Prelude.
From S2P Require Import PrimTypes.
From S2P Require Import Opcodes.
From S2P Require Import IntVal.
From S2P Require Import IntValFacts.
From S2P Require Import IntValSpec.
From S2P Require Import IntValTyped.
From S2P Require Import IntConst.
From S2P Require Import IntConstFacts.
From S2P Require Import ConstantFold.
From S2P Require Import ConstantFoldFacts.
From S2P Require Import ConstantFoldExpr.
From S2P Require Import ExprTree.

Section Facts.
Context `{HT : Target}.
Implicit Types (objs : list MIRIntConst) (n a b : BaseNode) (t : PrimType).

(** ** Types *)

Lemma width_1 t : small_int t -> type_width t = 1 -> t = PTY_u1.
Proof. intros [Ht H128] Hw. by destruct t, HT. Qed.

Lemma u1_width : type_width PTY_u1 = 1.
Proof. done. Qed.

Lemma u1_small : small_int PTY_u1.
Proof. done. Qed.

Lemma arith_width t : arith t -> 8 <= type_width t <= 64 /\ GetPrimTypeBitSize t = type_width t.
Proof.
  intros [[Ht H128] Hu]. destruct t; try discriminate Ht; try discriminate H128; try done;
    destruct HT; vm_compute; split_and!; congruence.
Qed.

Lemma arith_small t : arith t -> small_int t.
Proof. by intros []. Qed.

Lemma unary_type_small op t : unary_type op t -> small_int t.
Proof. destruct op; try done; apply arith_small. Qed.

Lemma binary_type_small op t : binary_type op t -> small_int t.
Proof. destruct op; cbn [binary_type]; try done; try apply arith_small; try (intros []; by apply arith_small); by intros ->. Qed.

Lemma compare_type_small op t : compare_type op t -> small_int t.
Proof. destruct op; cbn [compare_type]; try done; [by intros ->..|apply arith_small]. Qed.

Lemma wt_small objs n : wt objs n -> small_int (node_ptyp n).
Proof.
  destruct n; cbn [wt node_ptyp]; [tauto| |tauto| | | |tauto]; intros (H & H' & _).
  - by eapply unary_type_small.
  - by apply arith_small.
  - by eapply binary_type_small.
  - by eapply compare_type_small.
Qed.

Lemma fits_refl n : fits (node_ptyp n) n.
Proof. by left. Qed.

Lemma fits_u1 objs n : wt objs n -> fits PTY_u1 n -> node_ptyp n = PTY_u1.
Proof. intros Hn [E|]; [|done]. apply width_1; [by eapply wt_small|done]. Qed.

Lemma fits_trans objs t n m : wt objs m -> fits t n -> fits (node_ptyp n) m -> fits t m.
Proof.
  intros Hm [E|E] H; [|right; rewrite E in H; by eapply fits_u1].
  destruct H as [E'|E']; [left; congruence|by right].
Qed.

Lemma fits_congr t t' n : type_width t = type_width t' -> fits t n -> fits t' n.
Proof. unfold fits. by intros ->. Qed.

(** ** Values *)

Lemma in_type_idem t v : small_int t -> in_type t (in_type t v) = in_type t v.
Proof. intros Ht. apply norm_norm. apply small_width in Ht. lia. Qed.

Lemma in_type_congr_iff t v v' :
  small_int t -> in_type t v = in_type t v' <-> wrap (type_width t) v = wrap (type_width t) v'.
Proof.
  intros Ht. split; [|apply in_type_congr]. intros E.
  rewrite <- (wrap_in_type t v), <- (wrap_in_type t v') by done. by rewrite E.
Qed.

Lemma in_type_range t v : small_int t ->
  if IsSignedInteger t then - 2 ^ (type_width t - 1) <= in_type t v < 2 ^ (type_width t - 1)
  else 0 <= in_type t v < 2 ^ type_width t.
Proof.
  intros Ht. apply small_width in Ht. unfold in_type, norm.
  destruct (IsSignedInteger t); [apply swrap_range|apply wrap_range]; lia.
Qed.

(** Truth values are in every type. *)
Lemma in_type_bool t v : small_int t -> 0 <= v <= 1 -> in_type t v = v.
Proof.
  intros Ht Hv. destruct (decide (t = PTY_u1)) as [->|Hne].
  - apply wrap_small. change (type_width PTY_u1) with 1. lia.
  - pose proof (arith_width t (conj Ht Hne)) as [Hw _]. unfold in_type, norm.
    pose proof (Z.pow_le_mono_r 2 2 (type_width t - 1)). pose proof (Z.pow_le_mono_r 2 2 (type_width t)).
    destruct (IsSignedInteger t); [apply swrap_small|apply wrap_small]; lia.
Qed.

Lemma const_at_prefix objs objs' p ty v :
  objs `prefix_of` objs' -> const_at objs p ty v -> const_at objs' p ty v.
Proof. intros [l ->]. apply const_at_app. Qed.

Lemma wt_prefix objs objs' n : objs `prefix_of` objs' -> wt objs n -> wt objs' n.
Proof.
  intros Hp. induction n; cbn [wt]; try tauto. intros (Ht & v & Hc). split; [done|].
  exists v. by eapply const_at_prefix.
Qed.

Section Values.
Context (leaf : nat -> Z).

Lemma value_in_type objs n :
  wt objs n -> in_type (node_ptyp n) (node_value leaf objs n) = node_value leaf objs n.
Proof. intros Hn. apply wt_small in Hn. destruct n; by apply in_type_idem. Qed.

Lemma u1_range objs n :
  wt objs n -> node_ptyp n = PTY_u1 -> 0 <= node_value leaf objs n <= 1.
Proof.
  intros Hn Ht. rewrite <- value_in_type by done. rewrite Ht.
  pose proof (in_type_range PTY_u1 (node_value leaf objs n) u1_small) as H.
  change (0 <= in_type PTY_u1 (node_value leaf objs n) < 2 ^ 1) in H. lia.
Qed.

Lemma const_at_value objs p t v :
  const_at objs p (ty_of t) v -> const_value objs p = in_type t v.
Proof. intros (c & Hc & Ht & _ & _ & _ & Ev). unfold const_value. by rewrite Hc. Qed.

Lemma node_value_prefix objs objs' n :
  objs `prefix_of` objs' -> wt objs n -> node_value leaf objs' n = node_value leaf objs n.
Proof.
  intros Hp. induction n as [t p|op t a IH|op t f a IH|op t o s a IH|op t a IHa b IHb|op t ot a IHa b IHb|];
    cbn [wt node_value].
  - intros (_ & v & Hc). f_equal. erewrite !const_at_value; [done|done|by eapply const_at_prefix].
  - intros (_ & _ & Ha). by rewrite (IH Ha).
  - intros (_ & _ & _ & _ & Ha). by rewrite (IH Ha).
  - intros (_ & _ & _ & _ & _ & _ & _ & Ha). by rewrite (IH Ha).
  - intros (_ & _ & _ & Ha & Hb). by rewrite (IHa Ha), (IHb Hb).
  - intros (_ & _ & _ & _ & Ha & Hb). by rewrite (IHa Ha), (IHb Hb).
  - done.
Qed.

End Values.

(** ** Operands modulo the width *)

Section Modulo.
Context (t : PrimType) (Ht : small_int t).
#[local] Abbreviation w := (type_width t).

Lemma w_pos : 0 < w <= 64.
Proof using Ht. by apply small_width. Qed.

Lemma wrap_add_congr v v' u u' : wrap w v = wrap w v' -> wrap w u = wrap w u' -> wrap w (v + u) = wrap w (v' + u').
Proof. intros Ev Eu. by rewrite <- wrap_add_l, <- wrap_add_r, Ev, Eu, wrap_add_r, wrap_add_l. Qed.
Lemma wrap_sub_congr v v' u u' : wrap w v = wrap w v' -> wrap w u = wrap w u' -> wrap w (v - u) = wrap w (v' - u').
Proof. intros Ev Eu. by rewrite <- wrap_sub_l, <- wrap_sub_r, Ev, Eu, wrap_sub_r, wrap_sub_l. Qed.
Lemma wrap_mul_congr v v' u u' : wrap w v = wrap w v' -> wrap w u = wrap w u' -> wrap w (v * u) = wrap w (v' * u').
Proof. intros Ev Eu. by rewrite <- wrap_mul_l, <- wrap_mul_r, Ev, Eu, wrap_mul_r, wrap_mul_l. Qed.

Lemma wrap_bits_eq v v' i : wrap w v = wrap w v' -> i < w -> Z.testbit v i = Z.testbit v' i.
Proof using Ht.
  intros E Hi. pose proof (f_equal (fun z => Z.testbit z i) E) as Eb. cbn in Eb. pose proof w_pos.
  rewrite !testbit_wrap in Eb by lia. by rewrite (proj2 (Z.ltb_lt i w)) in Eb.
Qed.

Lemma wrap_bitwise (f : Z -> Z -> Z) (g : bool -> bool -> bool) v v' u u' :
  (forall x y i, Z.testbit (f x y) i = g (Z.testbit x i) (Z.testbit y i)) ->
  wrap w v = wrap w v' -> wrap w u = wrap w u' -> wrap w (f v u) = wrap w (f v' u').
Proof using Ht.
  intros Hf Ev Eu. apply bits_ext. intros i Hi. pose proof w_pos. rewrite !testbit_wrap by lia.
  destruct (Z.ltb_spec i w); [|done]. cbn [andb].
  by rewrite !Hf, (wrap_bits_eq v v') , (wrap_bits_eq u u') by done.
Qed.

Lemma swrap_congr' v v' : wrap w v = wrap w v' -> swrap w v = swrap w v'.
Proof. unfold swrap. by intros ->. Qed.

(** The operators that work modulo the width *)
Definition modular (op : Opcode) : bool :=
  match op with
  | OP_max | OP_min | OP_land | OP_lior | OP_cand | OP_cior => false
  | _ => true
  end.

Lemma bin_value_congr op v v' u u' c c' :
  modular op = true -> wrap w v = wrap w v' -> (is_shift op = true \/ wrap w u = wrap w u') ->
  (is_shift op = true -> c = c') ->
  wrap w (default 0 (bin_value op t v u c)) = wrap w (default 0 (bin_value op t v' u' c')).
Proof using Ht.
  intros Hop Ev Eu Ec. pose proof (in_type_congr t v v' Ev) as Tv.
  destruct op; try discriminate Hop; try reflexivity; cbn [bin_value is_shift default] in *;
    try (rewrite (Ec eq_refl));
    try (destruct Eu as [Eu|Eu]; [discriminate Eu|]); try pose proof (in_type_congr t u u' Eu) as Tu.
  - by apply wrap_add_congr.
  - by apply wrap_sub_congr.
  - by apply wrap_mul_congr.
  - by cbn; rewrite Tv, Tu.
  - by cbn; rewrite Tv, Tu.
  - cbn. by rewrite (swrap_congr' v v').
  - cbn. by rewrite Ev.
  - cbn. by apply wrap_mul_congr.
  - apply (wrap_bitwise Z.land andb); [apply Z.land_spec|done..].
  - apply (wrap_bitwise Z.lor orb); [apply Z.lor_spec|done..].
  - apply (wrap_bitwise Z.lxor xorb); [apply Z.lxor_spec|done..].
Qed.

Lemma unary_value_congr op v v' :
  wrap w v = wrap w v' ->
  wrap w (default 0 (unary_value op (IsSignedInteger t) t v))
  = wrap w (default 0 (unary_value op (IsSignedInteger t) t v')).
Proof using Ht.
  intros E. assert (wrap w (- v) = wrap w (- v')) as Eneg.
  { rewrite <- (Z.sub_0_l v), <- (Z.sub_0_l v'). by apply wrap_sub_congr. }
  destruct op; try reflexivity; cbn [unary_value default].
  - cbn. rewrite (wrap_bits_eq v v') by (done || lia). by destruct (_ && _).
  - apply bits_ext. intros i Hi. pose proof w_pos. cbn. rewrite !testbit_wrap by lia.
    destruct (Z.ltb_spec i w); [|done]. cbn [andb]. rewrite !Z.lnot_spec by done.
    by rewrite (wrap_bits_eq v v').
  - cbn. by rewrite (in_type_congr t v v').
  - exact Eneg.
Qed.

Lemma extract_value_congr op o s v v' :
  0 <= o -> 1 <= s -> o + s <= w -> wrap w v = wrap w v' ->
  extract_value op t o s v = extract_value op t o s v'.
Proof using Ht.
  intros Ho Hs Hos E. unfold extract_value. apply norm_congr. apply bits_ext. intros i Hi.
  rewrite !testbit_wrap by lia. destruct (Z.ltb_spec i s); [|done]. cbn [andb].
  rewrite !Z.div_pow2_bits by lia. apply wrap_bits_eq; [done|lia].
Qed.
End Modulo.
End Facts.
