(* ===== verification/ExprMemFacts.v ===== *)
(** * Trees in memory

    The nodes at a pointer represent a tree, on a set of cells of their own:
    two operands share no node.  What lies outside the cells a computation
    changes stays what it was, so a tree can be moved from one memory to a
    later one. *)
From S2P Require Import Prelude.
From S2P Require Import PrimTypes.
From S2P Require Import Opcodes.
From S2P Require Import IntVal.
From S2P Require Import IntValSpec.
From S2P Require Import IntValTyped.
From S2P Require Import IntConst.
From S2P Require Import IntConstFacts.
From S2P Require Import ConstantFoldFacts.
From S2P Require Import ExprMem.
From S2P Require Import ExprTree.
From S2P Require Import ExprTreeFacts.
From stdpp Require Import gmap.
#[local] Open Scope Z_scope.

(** ** Representation *)

Implicit Types (cs : list Cell) (F G : gset nat) (n a b : BaseNode) (st : Mem).

(** The cells [F] from [p] on are the nodes of the tree. *)
Fixpoint rep cs (p : nat) n F : Prop :=
  match n with
  | ConstvalNode t c => cs !! p = Some (ConstvalCell t c) /\ F = {[p]}
  | LeafNode op t i => cs !! p = Some (LeafCell op t i) /\ F = {[p]}
  | UnaryNode op t a =>
      exists q G, cs !! p = Some (UnaryCell op t q) /\ rep cs q a G /\ (p ∉ G) /\ F = ({[p]} ∪ G)
  | TypeCvtNode op t f a =>
      exists q G, cs !! p = Some (TypeCvtCell op t f q) /\ rep cs q a G /\ (p ∉ G) /\ F = ({[p]} ∪ G)
  | ExtractbitsNode op t o s a =>
      exists q G, cs !! p = Some (ExtractbitsCell op t o s q) /\ rep cs q a G /\ (p ∉ G) /\ F = ({[p]} ∪ G)
  | BinaryNode op t a b =>
      exists q r G G', cs !! p = Some (BinaryCell op t q r) /\ rep cs q a G /\ rep cs r b G' /\
        G ## G' /\ (p ∉ G ∪ G') /\ F = ({[p]} ∪ (G ∪ G'))
  | CompareNode op t ot a b =>
      exists q r G G', cs !! p = Some (CompareCell op t ot q r) /\ rep cs q a G /\ rep cs r b G' /\
        G ## G' /\ (p ∉ G ∪ G') /\ F = ({[p]} ∪ (G ∪ G'))
  end.

(** The cell of a tree, its children by their pointers. *)
Definition cell_of (c : Cell) n : Prop :=
  GetOpCode c = node_op n /\ GetPrimType c = node_ptyp n /\
  constval_of c = (match n with ConstvalNode _ p => Some p | _ => None end).

Lemma rep_cell cs p n F : rep cs p n F -> exists c, cs !! p = Some c /\ cell_of c n.
Proof.
  destruct n; cbn [rep]; [intros [H _]|intros (q & G & H & _)|intros (q & G & H & _)|intros (q & G & H & _)
    |intros (q & r & G & G' & H & _)|intros (q & r & G & G' & H & _)|intros [H _]]; by eexists.
Qed.

Lemma rep_has_root cs p n F : rep cs p n F -> p ∈ F.
Proof.
  destruct n; cbn [rep]; [intros [_ ->]|intros (q & G & _ & _ & _ & ->)|intros (q & G & _ & _ & _ & ->)
    |intros (q & G & _ & _ & _ & ->)|intros (q & r & G & G' & _ & _ & _ & _ & _ & ->)
    |intros (q & r & G & G' & _ & _ & _ & _ & _ & ->)|intros [_ ->]]; set_solver.
Qed.

Lemma rep_bound cs p n F : rep cs p n F -> forall q, q ∈ F -> (q < length cs)%nat.
Proof.
  revert p F. induction n; cbn [rep]; intros p F HF q Hq;
    [destruct HF as [Hp ->]| | | | | |destruct HF as [Hp ->]];
    try (apply elem_of_singleton in Hq as ->; by eapply lookup_lt_Some).
  1-3: destruct HF as (r & G & Hp & HG & _ & ->); apply elem_of_union in Hq as [->%elem_of_singleton|Hq];
    [by eapply lookup_lt_Some|by eapply IHn].
  1-2: destruct HF as (r & r' & G & G' & Hp & HG & HG' & _ & _ & ->);
    apply elem_of_union in Hq as [->%elem_of_singleton|[Hq|Hq]%elem_of_union];
    [by eapply lookup_lt_Some|by eapply IHn1|by eapply IHn2].
Qed.

(** A tree depends on its cells only. *)
Lemma rep_frame cs cs' p n F :
  rep cs p n F -> (forall q, q ∈ F -> cs' !! q = cs !! q) -> rep cs' p n F.
Proof.
  revert p F. induction n; cbn [rep]; intros p F HF Hq;
    [destruct HF as [Hp ->]| | | | | |destruct HF as [Hp ->]];
    try (split; [|done]; rewrite Hq; [done|set_solver]).
  1-3: destruct HF as (r & G & Hp & HG & Hn & ->); exists r, G; split_and!; try done;
    [rewrite Hq; [done|set_solver]|apply IHn; [done|set_solver]].
  1-2: destruct HF as (r & r' & G & G' & Hp & HG & HG' & Hd & Hn & ->); exists r, r', G, G';
    split_and!; try done; [rewrite Hq; [done|set_solver]|apply IHn1; [done|set_solver]|apply IHn2; [done|set_solver]].
Qed.

Lemma rep_prefix cs cs' p n F : cs `prefix_of` cs' -> rep cs p n F -> rep cs' p n F.
Proof.
  intros [l ->] H. eapply rep_frame; [done|]. intros q Hq. apply lookup_app_l. by eapply rep_bound.
Qed.

(** The height of a tree is at most the number of cells. *)
Lemma rep_height cs p n F : rep cs p n F -> (height n <= size F)%nat.
Proof.
  revert p F. induction n; cbn [rep height]; intros p F HF;
    [destruct HF as [Hp ->]| | | | | |destruct HF as [Hp ->]]; rewrite ?size_singleton; try lia.
  1-3: destruct HF as (r & G & Hp & HG & Hn & ->); rewrite size_union, size_singleton by set_solver;
    specialize (IHn _ _ HG); lia.
  1-2: destruct HF as (r & r' & G & G' & Hp & HG & HG' & Hd & Hn & ->);
    rewrite size_union, size_singleton, size_union by set_solver;
    specialize (IHn1 _ _ HG); specialize (IHn2 _ _ HG'); lia.
Qed.

Lemma rep_height_memory cs p n F : rep cs p n F -> (height n <= length cs)%nat.
Proof.
  intros H. etrans; [by eapply rep_height|].
  transitivity (size (set_seq 0 (length cs) : gset nat)).
  - apply subseteq_size. intros q Hq. apply elem_of_set_seq. pose proof (rep_bound _ _ _ _ H q Hq). lia.
  - by rewrite size_set_seq.
Qed.

(** ** Changes of the memory *)

(** [F'] consists of cells of [F] and of cells allocated after the first [k]. *)
Definition within (k : nat) F' F : Prop := forall q, q ∈ F' -> q ∈ F \/ (k <= q)%nat.

Lemma within_refl k F : within k F F.
Proof. by left. Qed.

Lemma within_trans k k' F1 F2 F3 :
  (k <= k')%nat -> within k' F1 F2 -> within k F2 F3 -> within k F1 F3.
Proof. intros Hk H1 H2 q Hq. destruct (H1 q Hq) as [H|H]; [by apply H2|right; lia]. Qed.

Lemma within_sub k F F1 F2 : F1 ⊆ F2 -> within k F F1 -> within k F F2.
Proof. intros Hs H q Hq. destruct (H q Hq); [left; set_solver|by right]. Qed.

Lemma within_subset k F1 F2 : F1 ⊆ F2 -> within k F1 F2.
Proof. intros Hs q Hq. left. set_solver. Qed.

Lemma within_union k F1 F2 F : within k F1 F -> within k F2 F -> within k (F1 ∪ F2) F.
Proof. intros H1 H2 q [Hq|Hq]%elem_of_union; [by apply H1|by apply H2]. Qed.

Lemma within_fresh k p F : (k <= p)%nat -> within k {[p]} F.
Proof. intros Hk q ->%elem_of_singleton. by right. Qed.

(** The cells of a node whose operand was rebuilt *)
Lemma within_root k k' p F' F1 F2 :
  (k <= k')%nat -> within k' F' ({[p]} ∪ F1) -> within k F1 F2 -> within k F' ({[p]} ∪ F2).
Proof.
  intros Hk H H1. eapply within_trans; [exact Hk|exact H|].
  apply within_union; [apply within_subset, union_subseteq_l|].
  eapply within_sub; [apply union_subseteq_r|exact H1].
Qed.

(** What lies below the bound and outside [F] is disjoint. *)
Lemma within_disjoint k F' F G :
  within k F' F -> F ## G -> (forall q, q ∈ G -> (q < k)%nat) -> F' ## G.
Proof.
  intros Hw Hd Hb q Hq HG. destruct (Hw q Hq) as [H|H]; [set_solver|]. specialize (Hb q HG). lia.
Qed.

Section Memory.
Context `{HT : Target}.
Context (typeTable : list (option MIRType)).

Definition objs st : list MIRIntConst := objects (constants st).
Definition size_of st : nat := length (cells st).

Lemma extends_trans s1 s2 s3 : extends s1 s2 -> extends s2 s3 -> extends s1 s3.
Proof.
  intros (A1 & A2 & A3) (B1 & B2 & B3). split_and!; [by etrans|by etrans|by etrans].
Qed.

(** Nodes and constants are only added. *)
Definition grow st st' : Prop :=
  cells st `prefix_of` cells st' /\ extends (constants st) (constants st') /\
  table_ok typeTable (constants st').

(** Only the nodes [F] are changed, and nodes and constants added. *)
Definition change F st st' : Prop :=
  (size_of st <= size_of st')%nat /\
  (forall q, (q < size_of st)%nat -> q ∉ F -> cells st' !! q = cells st !! q) /\
  extends (constants st) (constants st') /\ table_ok typeTable (constants st').

Lemma grow_refl st : table_ok typeTable (constants st) -> grow st st.
Proof. intros H. split; [done|split; [apply extends_refl|done]]. Qed.

Lemma grow_trans st1 st2 st3 : grow st1 st2 -> grow st2 st3 -> grow st1 st3.
Proof. intros (A1 & A2 & _) (B1 & B2 & B3). split; [by etrans|split; [by eapply extends_trans|done]]. Qed.

Lemma grow_size st st' : grow st st' -> (size_of st <= size_of st')%nat.
Proof. intros [H _]. by apply prefix_length. Qed.

Lemma grow_objs st st' : grow st st' -> objs st `prefix_of` objs st'.
Proof. intros (_ & (H & _) & _). exact H. Qed.

Lemma grow_change F st st' : grow st st' -> change F st st'.
Proof.
  intros H. pose proof (grow_size _ _ H). destruct H as ([l El] & He & Ht). split_and!; try done.
  intros q Hq _. rewrite El. by apply lookup_app_l.
Qed.

Lemma change_objs F st st' : change F st st' -> objs st `prefix_of` objs st'.
Proof. intros (_ & _ & (H & _) & _). exact H. Qed.

Lemma change_trans F G st1 st2 st3 :
  change F st1 st2 -> change G st2 st3 -> within (size_of st1) G F -> change F st1 st3.
Proof.
  intros (A1 & A2 & A3 & _) (B1 & B2 & B3 & B4) Hw. split_and!; [lia| |by eapply extends_trans|done].
  intros q Hq HF. rewrite B2; [by apply A2|lia|]. intros HG. destruct (Hw q HG) as [H|H]; [done|lia].
Qed.

Lemma change_sub F G st st' : F ⊆ G -> change F st st' -> change G st st'.
Proof. intros Hs (A1 & A2 & A3). split; [done|]. split; [|exact A3]. intros q Hq HG. apply A2; [done|]. contradict HG. by apply Hs. Qed.

(** [p] owns the well-typed tree [n] on the cells [F]. *)
Definition own st (p : nat) n F : Prop := rep (cells st) p n F /\ wt (objs st) n.

Lemma own_root st p n F : own st p n F -> p ∈ F.
Proof. intros [H _]. by eapply rep_has_root. Qed.

Lemma own_bound st p n F : own st p n F -> forall q, q ∈ F -> (q < size_of st)%nat.
Proof. intros [H _]. by eapply rep_bound. Qed.

Lemma own_grow st st' p n F : own st p n F -> grow st st' -> own st' p n F.
Proof.
  intros [H Hw] Hg. split; [apply (rep_prefix _ _ _ _ _ (proj1 Hg) H)|].
  exact (wt_prefix _ _ _ (grow_objs _ _ Hg) Hw).
Qed.

Lemma own_change st st' p n F G : own st p n F -> change G st st' -> F ## G -> own st' p n F.
Proof.
  intros H Hc Hd. pose proof (own_bound _ _ _ _ H) as Hb. destruct H as [H Hw]. split.
  - eapply rep_frame; [done|]. intros q Hq. apply Hc; [by apply Hb|set_solver].
  - exact (wt_prefix _ _ _ (change_objs _ _ _ Hc) Hw).
Qed.

Lemma own_small st p n F : own st p n F -> small_int (node_ptyp n).
Proof. intros [_ H]. by eapply wt_small. Qed.

Lemma own_cell st p n F : own st p n F -> exists c, cells st !! p = Some c /\ cell_of c n.
Proof. intros [H _]. by eapply rep_cell. Qed.

(** ** Allocation *)

Lemma grow_new st c : table_ok typeTable (constants st) -> grow st (MkMem (cells st ++ [c]) (constants st)).
Proof. intros H. split; [by apply prefix_app_r|split; [apply extends_refl|done]]. Qed.

Lemma new_cell st c : (cells st ++ [c]) !! size_of st = Some c.
Proof. rewrite lookup_app_r, Nat.sub_diag; done. Qed.

Lemma fresh_root st p n F : own st p n F -> size_of st ∉ F.
Proof. intros H Hin. pose proof (own_bound _ _ _ _ H _ Hin). lia. Qed.

(** A new node over trees on disjoint cells *)
Section New.
Context (st : Mem).
#[local] Abbreviation new c := (MkMem (cells st ++ [c]) (constants st)).

Lemma own_new_unary op t q a G :
  own st q a G -> wt (objs st) (UnaryNode op t a) ->
  own (new (UnaryCell op t q)) (size_of st) (UnaryNode op t a) ({[size_of st]} ∪ G).
Proof.
  intros H Hw. split; [|done]. exists q, G. split_and!; [apply new_cell| |by eapply fresh_root|done].
  eapply rep_prefix; [|apply H]. by apply prefix_app_r.
Qed.

Lemma own_new_cvt op t f q a G :
  own st q a G -> wt (objs st) (TypeCvtNode op t f a) ->
  own (new (TypeCvtCell op t f q)) (size_of st) (TypeCvtNode op t f a) ({[size_of st]} ∪ G).
Proof.
  intros H Hw. split; [|done]. exists q, G. split_and!; [apply new_cell| |by eapply fresh_root|done].
  eapply rep_prefix; [|apply H]. by apply prefix_app_r.
Qed.

Lemma own_new_extract op t o s q a G :
  own st q a G -> wt (objs st) (ExtractbitsNode op t o s a) ->
  own (new (ExtractbitsCell op t o s q)) (size_of st) (ExtractbitsNode op t o s a) ({[size_of st]} ∪ G).
Proof.
  intros H Hw. split; [|done]. exists q, G. split_and!; [apply new_cell| |by eapply fresh_root|done].
  eapply rep_prefix; [|apply H]. by apply prefix_app_r.
Qed.

Lemma own_new_binary op t q r a b G G' :
  own st q a G -> own st r b G' -> G ## G' -> wt (objs st) (BinaryNode op t a b) ->
  own (new (BinaryCell op t q r)) (size_of st) (BinaryNode op t a b) ({[size_of st]} ∪ (G ∪ G')).
Proof.
  intros Ha Hb Hd Hw. split; [|done]. exists q, r, G, G'.
  assert (size_of st ∉ G ∪ G') by (apply not_elem_of_union; split; by eapply fresh_root).
  split_and!; [apply new_cell| | |done..]; (eapply rep_prefix; [by apply prefix_app_r|apply Ha || apply Hb]).
Qed.

Lemma own_new_compare op t ot q r a b G G' :
  own st q a G -> own st r b G' -> G ## G' -> wt (objs st) (CompareNode op t ot a b) ->
  own (new (CompareCell op t ot q r)) (size_of st) (CompareNode op t ot a b) ({[size_of st]} ∪ (G ∪ G')).
Proof.
  intros Ha Hb Hd Hw. split; [|done]. exists q, r, G, G'.
  assert (size_of st ∉ G ∪ G') by (apply not_elem_of_union; split; by eapply fresh_root).
  split_and!; [apply new_cell| | |done..]; (eapply rep_prefix; [by apply prefix_app_r|apply Ha || apply Hb]).
Qed.
End New.
End Memory.
