(* ===== verification/ConstantFoldPair.v ===== *)
(** * Building expressions

    What the functions of [ConstantFoldTree] that build nodes leave in memory:
    new constants, new operators, the sum of an expression and the constant
    beside it, comparisons with the operands exchanged. *)
From S2P Require Import Prelude.
From S2P Require Import PrimTypes.
From S2P Require Import Opcodes.
From S2P Require Import IntWords.
From S2P Require Import IntVal.
From S2P Require Import IntValFacts.
From S2P Require Import IntValArith.
From S2P Require Import IntValOrder.
From S2P Require Import IntValCount.
From S2P Require Import IntValSpec.
From S2P Require Import IntValTyped.
From S2P Require Import IntConst.
From S2P Require Import IntConstFacts.
From S2P Require Import ConstantFold.
From S2P Require Import ConstantFoldFacts.
From S2P Require Import ConstantFoldExpr.
From S2P Require Import ExprMem.
From S2P Require Import ExprTree.
From S2P Require Import ExprTreeFacts.
From S2P Require Import ExprMemFacts.
From S2P Require Import ConstantFoldTree.
From stdpp Require Import gmap.
#[local] Open Scope Z_scope.

Lemma op_eqb_refl op : op_eqb op op = true.
Proof. apply N.eqb_refl. Qed.
Lemma pty_eqb_refl t : pty_eqb t t = true.
Proof. by apply bool_decide_eq_true. Qed.
Lemma pty_eqb_ne t t' : t <> t' -> pty_eqb t t' = false.
Proof. intros. by apply bool_decide_eq_false. Qed.
Lemma pty_eqb_true t t' : pty_eqb t t' = true -> t = t'.
Proof. apply bool_decide_eq_true. Qed.

Section Trees.
Context `{HT : Target}.
Implicit Types (st : Mem) (t : PrimType) (n a b : BaseNode) (F G : gset nat).

(** ** Features *)

Lemma op_has_type x op t : type_has x t -> op_has x op t.
Proof. destruct x; cbn [type_has op_has]; tauto. Qed.

Lemma has_type_of x n : type_has x (node_ptyp n) -> has x n.
Proof. destruct n; cbn [has node_ptyp]; intros H; try exact H; left; by apply op_has_type. Qed.

Lemma has_unsigned n : unsigned_type (node_ptyp n) -> has FUnsigned n.
Proof. apply (has_type_of FUnsigned). Qed.

Lemma type_has_arith x t : t <> PTY_u1 -> type_has x t -> x = FUnsigned /\ unsigned_type t.
Proof. destruct x; cbn [type_has]; try tauto. Qed.

(** The operators that bring no feature but that of their type *)
Definition plain_op (op : Opcode) : Prop :=
  op <> OP_mul /\ op <> OP_extractbits /\ op <> OP_band /\ op <> OP_cmp.

Lemma op_has_plain x op t :
  plain_op op -> t <> PTY_u1 -> op_has x op t -> x = FUnsigned /\ unsigned_type t.
Proof. unfold plain_op. destruct x; cbn [op_has]; try tauto. Qed.

(** ** Cells of trees *)

(** The node is not a constant. *)
Definition nonconst st (p : nat) : Prop := exists c, cells st !! p = Some c /\ constval_of c = None.

Lemma nonconst_tree st p n F : nonconst st p -> own st p n F -> ~ is_const n.
Proof.
  intros (c & Hc & E) Hn Hcon. destruct (own_cell _ _ _ _ Hn) as (c' & Hc' & _ & _ & E').
  rewrite Hc in Hc'. injection Hc' as <-. rewrite E in E'. by destruct n.
Qed.

Lemma nonconst_intro st p n F : own st p n F -> ~ is_const n -> nonconst st p.
Proof.
  intros Hn Hcon. destruct (own_cell _ _ _ _ Hn) as (c & Hc & _ & _ & E). exists c. split; [done|].
  rewrite E. by destruct n.
Qed.

Lemma own_op st p n F c : own st p n F -> cells st !! p = Some c -> GetOpCode c = node_op n.
Proof. intros H Hc. destruct (own_cell _ _ _ _ H) as (c' & Hc' & E & _). congruence. Qed.

Lemma own_type st p n F c : own st p n F -> cells st !! p = Some c -> GetPrimType c = node_ptyp n.
Proof. intros H Hc. destruct (own_cell _ _ _ _ H) as (c' & Hc' & _ & E & _). congruence. Qed.

(** A well-typed node with opcode neg negates its operand. *)
Lemma own_neg st p n F :
  own st p n F -> node_op n = OP_neg ->
  exists t a q G, n = UnaryNode OP_neg t a /\ cells st !! p = Some (UnaryCell OP_neg t q) /\
    own st q a G /\ (p ∉ G) /\ G ⊆ F /\ arith t /\ fits t a.
Proof.
  intros [H Hw] Hop. destruct n as [| op t a|op t f a|op t o s a|op t a b|op t ot a b|op t i];
    cbn [node_op] in Hop; subst; try done; cbn [wt] in Hw.
  - destruct H as (q & G & Hp & Hq & Hn & ->). exists t, a, q, G.
    split; [done|]. split; [done|]. split; [split; [done|apply Hw]|]. split; [done|].
    split; [apply union_subseteq_r|]. split; apply Hw.
  - by destruct Hw.
  - by destruct Hw as ([|[|]] & _).
  - by destruct Hw.
  - by destruct Hw.
  - destruct Hw as (_ & _ & Hno). exfalso. apply Hno. cbn. tauto.
Qed.

End Trees.

Section Building.
Context `{HT : Target}.
Context (typeTable : list (option MIRType)).
Context (Htt : TypeTable_init `prefix_of` typeTable).
Context (leaf : nat -> Z).
Implicit Types (st : Mem) (t : PrimType) (n a b : BaseNode) (F G : gset nat) (X : feature -> Prop).

#[local] Abbreviation grow := (grow typeTable).

Definition value st n : Z := node_value leaf (objs st) n.
Definition mem_ok st : Prop := table_ok typeTable (constants st).

Lemma value_grow st st' n : wt (objs st) n -> grow st st' -> value st' n = value st n.
Proof. intros Hw Hg. apply node_value_prefix; [by eapply grow_objs|done]. Qed.

Lemma value_own st p n F : own st p n F -> in_type (node_ptyp n) (value st n) = value st n.
Proof. intros [_ Hw]. by apply value_in_type. Qed.

Lemma grow_ok st st' : grow st st' -> mem_ok st'.
Proof. intros H. apply H. Qed.

(** ** Outcomes *)

(** The constant beside an expression of type [t] has at least the type's
    bits; truth values have none. *)
Definition sum_ok t (o : option IntVal) : Prop :=
  match o with
  | None => True
  | Some v => t <> PTY_u1 /\ small_val v /\ GetPrimTypeBitSize t <= width v
  end.

(** The node and the constant stand for [v] in the type [t]; there is no
    constant beside a constant node; the tree uses cells of [F] and cells from
    [k] on, and has features [X] only. *)
Definition outcome st (k : nat) F t (v : Z) X (r : pair) : Prop :=
  exists n F', own st (fst r) n F' /\ within k F' F /\ fits t n /\
    wrap (type_width t) (value st n + opt_value (snd r)) = wrap (type_width t) v /\
    sum_ok t (snd r) /\ (is_const n -> snd r = None) /\ forall x, has x n -> X x.

(** The same after a computation that only adds nodes and constants *)
Definition gives st F t v X st' (r : pair) : Prop :=
  grow st st' /\ outcome st' (size_of st) F t v X r.

Definition gives_node st F t v X st' (p : nat) : Prop := gives st F t v X st' (p, None).

(** A new operator *)
Definition gives_op st F t v X st' (p : nat) : Prop := gives_node st F t v X st' p /\ nonconst st' p.

Lemma outcome_grow st st' k F t v X r : outcome st k F t v X r -> grow st st' -> outcome st' k F t v X r.
Proof.
  intros (n & F' & H & Hw & Hf & Hv & Hs & Hc & HX) Hg. exists n, F'. split_and?; try done.
  - exact (own_grow _ _ _ _ _ _ H Hg).
  - rewrite (value_grow st st'); [done|apply H|done].
Qed.

Lemma outcome_weaken st k k' F F0 t v v' X X' r :
  outcome st k F t v X r -> (k' <= k)%nat -> within k' F F0 ->
  wrap (type_width t) v = wrap (type_width t) v' -> (forall x, X x -> X' x) ->
  outcome st k' F0 t v' X' r.
Proof.
  intros (n & F' & H & Hw & Hf & Hv & Hs & Hc & HX) Hk HF E HXX. exists n, F'. split_and?; try done.
  - eapply within_trans; [|exact Hw|exact HF]. done.
  - congruence.
  - intros x Hx. by apply HXX, HX.
Qed.

(** A computation continued in a later memory *)
Lemma gives_later st st1 st2 F F1 t v v' X X' r :
  grow st st1 -> gives st1 F1 t v X st2 r -> within (size_of st) F1 F ->
  wrap (type_width t) v = wrap (type_width t) v' -> (forall x, X x -> X' x) ->
  gives st F t v' X' st2 r.
Proof.
  intros Hg [Hg' Ho] Hw E HX. split; [by eapply grow_trans|].
  eapply outcome_weaken; [done| |done..]. by apply (grow_size _ _ _ Hg).
Qed.

Lemma gives_same st F G t v X p n s :
  mem_ok st -> own st p n G -> G ⊆ F -> fits t n ->
  wrap (type_width t) (value st n + opt_value s) = wrap (type_width t) v ->
  sum_ok t s -> (is_const n -> s = None) -> (forall x, has x n -> X x) -> gives st F t v X st (p, s).
Proof.
  intros Hok H HG Hf E Hs Hc HX. split; [by apply grow_refl|]. exists n, G. split_and?; try done.
  by apply within_subset.
Qed.

(** ** Constants *)

Lemma own_const st p c t v :
  (cells st) !! p = Some (ConstvalCell t c) -> small_int t -> const_at (objs st) c (ty_of t) v ->
  own st p (ConstvalNode t c) {[p]} /\ value st (ConstvalNode t c) = in_type t v.
Proof.
  intros Hp Ht Hc. split; [split; [done|split; [done|by exists v]]|].
  unfold value. cbn [node_value]. rewrite (const_at_value _ _ _ _ Hc). by apply in_type_idem.
Qed.

(** The new node of the constant [v] *)
Definition is_new_const st t v st' (p : nat) : Prop :=
  grow st st' /\ p = size_of st /\
  exists c, own st' p (ConstvalNode t c) {[p]} /\ value st' (ConstvalNode t c) = in_type t v.

Lemma new_const_node st0 s' t c v :
  grow st0 (MkMem (cells st0) s') -> small_int t -> const_at (objects s') c (ty_of t) v ->
  wpm (New (ConstvalCell t c)) (MkMem (cells st0) s') (is_new_const st0 t v).
Proof.
  intros Hg Ht Hc. apply wpm_new. split; [|split; [done|]].
  - eapply grow_trans; [done|]. apply (grow_new typeTable (MkMem (cells st0) s')). by eapply grow_ok.
  - exists c. apply own_const; [|done|done]. by apply (new_cell st0).
Qed.

Lemma grow_table st s' :
  extends (constants st) s' -> table_ok typeTable s' -> grow st (MkMem (cells st) s').
Proof. done. Qed.

Lemma NewConstval_spec st t v f :
  small_int t -> wp (f (constants st)) (folds_to typeTable (constants st) t v) ->
  wpm (NewConstval t f) st (is_new_const st t v).
Proof.
  intros Ht Hf. apply wpm_bind, wpm_in_table. eapply wp_mono; [exact Hf|].
  intros [s' c] (Hs & He & Hc). cbn [fst snd] in *. by apply new_const_node.
Qed.

Lemma CreateIntConst_spec st t bits v :
  mem_ok st -> small_int t -> wrap (type_width t) bits = wrap (type_width t) v ->
  wpm (CreateIntConst typeTable bits t) st (is_new_const st t v).
Proof using Htt.
  intros Hok Ht E. apply NewConstval_spec; [done|].
  rewrite GetPrimType_of_spec by (done || apply integer_not_begin, Ht). cbn [mbind res_bind].
  eapply wp_mono; [apply (intern_spec typeTable Htt); [done|apply Ht]|]. intros r. apply folds_to_congr.
  pose proof (small_width t Ht). rewrite <- E. apply wrap_norm_le. lia.
Qed.

(** The 64-bit word of a value has the value's low bits. *)
Lemma wrap_ext t v : small_int t -> wrap (type_width t) (wrap 64 (swrap 64 v)) = wrap (type_width t) v.
Proof.
  intros Ht. pose proof (small_width t Ht).
  rewrite wrap_wrap_le, <- (wrap_wrap_le _ 64), swrap_congr by lia. apply wrap_wrap_le. lia.
Qed.

Lemma const_features t c x : has x (ConstvalNode t c) -> type_has x t.
Proof. done. Qed.

(** A new constant, as an outcome *)
Lemma new_const_gives st st' F t t' v v' X p :
  is_new_const st t v st' p -> small_int t' -> (type_width t = type_width t' \/ t = PTY_u1) ->
  wrap (type_width t') (in_type t v) = wrap (type_width t') v' ->
  (forall x, type_has x t -> X x) -> gives_node st F t' v' X st' p.
Proof.
  intros (Hg & -> & c & Hc & Ev) Ht' Hf E HX. split; [done|]. exists (ConstvalNode t c), {[size_of st]}.
  split_and?; try done.
  - by apply within_fresh.
  - cbn [snd opt_value]. by rewrite Ev, Z.add_0_r.
Qed.

(** ** Operators *)

Lemma NewBinaryNode_spec st old o t0 q0 r0 op t q r a b G G' :
  mem_ok st -> cells st !! old = Some (BinaryCell o t0 q0 r0) ->
  own st q a G -> own st r b G' -> G ## G' -> old ∉ G ∪ G' -> wt (objs st) (BinaryNode op t a b) ->
  wpm (NewBinaryNode old op t q r) st (fun st' p =>
    grow st st' /\ exists F', own st' p (BinaryNode op t a b) F' /\
      within (size_of st) F' ({[old]} ∪ (G ∪ G'))).
Proof.
  intros Hok Hc Ha Hb Hd Ho Hw. eapply wpm_bind, wpm_get; [done|]. cbn iota.
  destruct (op_eqb o op && pty_eqb t0 t && (q0 =? q)%nat && (r0 =? r)%nat) eqn:E.
  - apply andb_true_iff in E as [E E4]. apply andb_true_iff in E as [E E3]. apply andb_true_iff in E as [E1 E2].
    apply op_eqb_spec in E1 as ->. apply pty_eqb_true in E2 as ->. apply Nat.eqb_eq in E3 as ->, E4 as ->.
    apply wpm_ret. split; [by apply grow_refl|]. exists ({[old]} ∪ (G ∪ G')). split; [|apply within_refl].
    split; [|done]. exists q, r, G, G'. split_and!; try done; apply Ha || apply Hb.
  - apply wpm_new. split; [by apply grow_new|]. exists ({[size_of st]} ∪ (G ∪ G')). split.
    + by apply own_new_binary.
    + apply within_union; [by apply within_fresh|apply within_subset, union_subseteq_r].
Qed.

Lemma NewUnaryNode_spec st old c op t q q0 a G :
  mem_ok st -> cells st !! old = Some c -> Opnd c 0 = Ret q0 ->
  (GetOpCode c = op -> c = UnaryCell op (GetPrimType c) q0) ->
  own st q a G -> old ∉ G -> wt (objs st) (UnaryNode op t a) ->
  wpm (NewUnaryNode old op t q) st (fun st' p =>
    grow st st' /\ exists F', own st' p (UnaryNode op t a) F' /\ within (size_of st) F' ({[old]} ∪ G)).
Proof.
  intros Hok Hc Hq Hcell Ha Ho Hw. eapply wpm_bind, wpm_get; [done|]. rewrite Hq.
  eapply wpm_bind, wpm_lift_eq; [done|].
  destruct (op_eqb (GetOpCode c) op && pty_eqb (GetPrimType c) t && (q0 =? q)%nat) eqn:E.
  - apply andb_true_iff in E as [E E3]. apply andb_true_iff in E as [E1 E2].
    apply op_eqb_spec in E1. apply pty_eqb_true in E2. apply Nat.eqb_eq in E3 as ->.
    specialize (Hcell E1). rewrite E2 in Hcell.
    apply wpm_ret. split; [by apply grow_refl|]. exists ({[old]} ∪ G). split; [|apply within_refl].
    split; [|done]. exists q, G. split_and!; try done; [by rewrite Hc, Hcell|apply Ha].
  - apply wpm_new. split; [by apply grow_new|]. exists ({[size_of st]} ∪ G). split.
    + by apply own_new_unary.
    + apply within_union; [by apply within_fresh|apply within_subset, union_subseteq_r].
Qed.

(** The value of a new operator *)
Definition uread st n : Z := wrap (type_width (node_ptyp n)) (value st n).

Lemma value_binary st op t a b :
  value st (BinaryNode op t a b) = in_type t (default 0 (bin_value op t (value st a) (value st b) (uread st b))).
Proof. done. Qed.

Lemma new_binary_gives st0 st q r a b G G' F op t v X :
  grow st0 st -> own st q a G -> own st r b G' -> G ## G' ->
  within (size_of st0) G F -> within (size_of st0) G' F -> wt (objs st) (BinaryNode op t a b) ->
  wrap (type_width t) (default 0 (bin_value op t (value st a) (value st b) (uread st b)))
    = wrap (type_width t) v ->
  (forall x, has x (BinaryNode op t a b) -> X x) ->
  wpm (New (BinaryCell op t q r)) st (gives_op st0 F t v X).
Proof.
  intros Hg Ha Hb Hd Hwa Hwb Hw E HX. apply wpm_new. split; [|by eexists; split; [apply new_cell|]].
  assert (grow st (MkMem (cells st ++ [BinaryCell op t q r]) (constants st))) as Hg'
    by (apply grow_new; by eapply grow_ok).
  split; [by eapply grow_trans|]. exists (BinaryNode op t a b), ({[size_of st]} ∪ (G ∪ G')). split_and?.
  - by apply own_new_binary.
  - apply within_union; [apply within_fresh, (grow_size _ _ _ Hg)|by apply within_union].
  - by left.
  - cbn [fst snd opt_value]. rewrite Z.add_0_r, (value_grow st), value_binary by done.
    rewrite wrap_in_type; [done|]. exact (binary_type_small _ _ (proj1 Hw)).
  - done.
  - done.
  - done.
Qed.

(** ** An expression and the constant beside it *)

Lemma sum_arith t v : small_int t -> sum_ok t (Some v) -> arith t.
Proof. by intros Ht [Hne _]. Qed.

Lemma const_wt st p c t G : own st p (ConstvalNode t c) G -> wt (objs st) (ConstvalNode t c).
Proof. by intros []. Qed.

Lemma const_cells st p c t G : own st p (ConstvalNode t c) G -> G = {[p]}.
Proof. by intros [[_ ->] _]. Qed.

(** The constant [e] is made, and joined to a tree by [op]. *)
Lemma with_constant_r st t e q a G F op v X :
  mem_ok st -> arith t -> (op = OP_add \/ op = OP_sub) -> own st q a G -> G ⊆ F -> fits t a ->
  wrap (type_width t) (default 0 (bin_value op t (value st a) e 0)) = wrap (type_width t) v ->
  (forall x, has x a -> X x) -> (unsigned_type t -> X FUnsigned) ->
  wpm (val ← CreateIntConst typeTable (wrap 64 (swrap 64 e)) t; New (BinaryCell op t q val)) st
    (gives_op st F t v X).
Proof using Htt.
  intros Hok Ht Hop Ha HG Hf E HX HU. pose proof (arith_small t Ht) as Hts.
  apply wpm_bind. eapply wpm_mono; [by apply CreateIntConst_spec, wrap_ext|].
  intros st1 p (Hg & -> & c & Hc & Ev).
  eapply (new_binary_gives st st1 q _ a (ConstvalNode t c) G {[size_of st]}); try done.
  - exact (own_grow _ _ _ _ _ _ Ha Hg).
  - apply disjoint_singleton_r. by eapply fresh_root.
  - by apply within_subset.
  - by apply within_fresh.
  - split_and!; [by destruct Hop as [->| ->]|done|right; by left| |by eapply const_wt].
    eapply wt_prefix; [by eapply grow_objs|apply Ha].
  - rewrite <- E. pose proof (value_grow st st1 a (proj2 Ha) Hg) as ->. rewrite Ev.
    destruct Hop as [-> | ->]; cbn [bin_value default];
      [by apply (wrap_add_congr t); [|apply wrap_in_type]|by apply (wrap_sub_congr t); [|apply wrap_in_type]].
  - intros x [Hx|[Hx|[Hx|(_ & E' & _)]]]; [|by apply HX| |by destruct Hop; subst].
    2:{ apply type_has_arith in Hx as [-> Hu]; [by apply HU|apply Ht]. }
    apply op_has_plain in Hx as [-> Hu]; [by apply HU|by destruct Hop as [-> | ->]|apply Ht].
Qed.

Lemma with_constant_l st t e q a G F v X :
  mem_ok st -> arith t -> own st q a G -> G ⊆ F -> fits t a ->
  wrap (type_width t) (e - value st a) = wrap (type_width t) v ->
  (forall x, has x a -> X x) -> (unsigned_type t -> X FUnsigned) ->
  wpm (val ← CreateIntConst typeTable (wrap 64 (swrap 64 e)) t; New (BinaryCell OP_sub t val q)) st
    (gives_op st F t v X).
Proof using Htt.
  intros Hok Ht Ha HG Hf E HX HU. pose proof (arith_small t Ht) as Hts.
  apply wpm_bind. eapply wpm_mono; [by apply CreateIntConst_spec, wrap_ext|].
  intros st1 p (Hg & -> & c & Hc & Ev).
  eapply (new_binary_gives st st1 _ q (ConstvalNode t c) a {[size_of st]} G); try done.
  - exact (own_grow _ _ _ _ _ _ Ha Hg).
  - apply disjoint_singleton_l. by eapply fresh_root.
  - by apply within_fresh.
  - by apply within_subset.
  - split_and!; [done|by left|by right|by eapply const_wt|].
    eapply wt_prefix; [by eapply grow_objs|apply Ha].
  - rewrite <- E. pose proof (value_grow st st1 a (proj2 Ha) Hg) as ->. rewrite Ev.
    cbn [bin_value default]. by apply (wrap_sub_congr t); [apply wrap_in_type|].
  - intros x [Hx|[Hx|[Hx|(_ & E' & _)]]]; [| |by apply HX|done].
    2:{ apply type_has_arith in Hx as [-> Hu]; [by apply HU|apply Ht]. }
    apply op_has_plain in Hx as [-> Hu]; [by apply HU|done|apply Ht].
Qed.

Lemma add_or_sub_spec st t q n G v neg X :
  mem_ok st -> small_int t -> own st q n G -> fits t n -> sum_ok t (Some v) ->
  (forall x, has x n -> X x) -> (unsigned_type t -> X FUnsigned) ->
  wpm (add_or_sub typeTable t q v neg) st (gives_op st G t (value st n + ival v) X).
Proof using Htt.
  intros Hok Ht Hn Hf Hs HX HU. pose proof (sum_arith t v Ht Hs) as Har.
  destruct Hs as (_ & Hsv & Hsize). destruct (bit_size_bounds t Ht) as [Hpos Hle].
  pose proof (small_width t Ht) as Hw. unfold add_or_sub. apply wpm_bind.
  destruct (added_as_is_returns t v neg Ht Hsv Hsize Hpos) as [add ->]. apply wpm_lift, wp_ret.
  destruct add.
  - rewrite GetExtValue_one by apply Hsv. apply wpm_bind, wpm_lift, wp_ret.
    apply (with_constant_r st t (ival v) q n G); try done; by left.
  - destruct Hsv as [Hvw Hv64]. pose proof (wf_valid v Hvw). rewrite op_neg_eq by done.
    apply wpm_bind, wpm_lift, wp_ret. rewrite GetExtValue_one by (done || by apply repr_wf).
    apply wpm_bind, wpm_lift, wp_ret. apply (with_constant_r st t _ q n G); try done; [by right|].
    cbn [bin_value default]. rewrite ival_repr by done.
    change (if sign v then swrap (width v) (- uval v) else wrap (width v) (- uval v))
      with (norm (width v) (sign v) (- uval v)).
    cbn. rewrite <- wrap_sub_r, wrap_norm_le, wrap_sub_r by lia.
    rewrite <- (wrap_ival v Hvw), Z.sub_opp_r.
    by rewrite <- wrap_add_r, wrap_wrap_le, wrap_add_r by lia.
Qed.

Lemma PairToExpr_spec st t p s n F X :
  mem_ok st -> small_int t -> own st p n F -> fits t n -> sum_ok t s ->
  (forall x, has x n -> X x) -> (unsigned_type t -> X FUnsigned) ->
  wpm (PairToExpr typeTable t (p, s)) st (fun st' q =>
    gives_node st F t (value st n + opt_value s) X st' q /\ (s = None -> st' = st /\ q = p) /\
    (~ is_const n -> nonconst st' q)).
Proof using Htt.
  intros Hok Ht Hn Hf Hs HX HU. unfold PairToExpr. cbn [fst snd].
  assert (forall v, wrap (type_width t) (value st n) = wrap (type_width t) v ->
    gives_node st F t v X st p) as Hsame.
  { intros v E. eapply gives_same; try done. cbn [opt_value]. by rewrite Z.add_0_r. }
  pose proof (nonconst_intro _ _ _ _ Hn) as Hnc.
  destruct s as [v|]; [|apply wpm_ret; split; [|done]; apply Hsame; cbn; by rewrite Z.add_0_r].
  pose proof Hs as (Hne & Hsv & Hsize). pose proof (sum_arith t v Ht Hs) as Har.
  rewrite op_eq_int64_0 by done. apply wpm_bind, wpm_lift, wp_ret.
  destruct (Z.eqb_spec (ival v) 0) as [E0|_].
  { apply wpm_ret. split; [|done]. apply Hsame. cbn [opt_value]. by rewrite E0, Z.add_0_r. }
  destruct (own_cell _ _ _ _ Hn) as (c & Hc & Eop & _). eapply wpm_bind, wpm_get; [done|].
  rewrite GetSignBit_spec by apply Hsv. apply wpm_bind, wpm_lift, wp_ret. set (neg := Z.testbit _ _).
  apply (wpm_mono _ _ (gives_op st F t (value st n + ival v) X)); [|intros st' q [Hq Hnq]; by split].
  destruct (op_eqb (GetOpCode c) OP_neg && negb neg) eqn:E; [|by apply add_or_sub_spec].
  apply andb_true_iff in E as [E _]. apply op_eqb_spec in E. rewrite Eop in E.
  destruct (own_neg _ _ _ _ Hn E) as (t' & a & q & G & -> & Hp & Ha & _ & HG & Har' & Hfa).
  rewrite Hc in Hp. injection Hp as ->. rewrite GetExtValue_one by apply Hsv.
  apply wpm_bind, wpm_lift, wp_ret.
  assert (type_width t' = type_width t) as Ew by (destruct Hf as [|Eu]; [done|by destruct Har']).
  apply (with_constant_l st t (ival v) q a G F); try done.
  - by eapply fits_congr.
  - change (value st (UnaryNode OP_neg t' a)) with (in_type t' (- value st a)).
    rewrite <- Ew. rewrite <- (wrap_add_l _ (in_type t' _)), wrap_in_type, wrap_add_l by apply Har'.
    f_equal. lia.
  - intros x Hx. apply HX. by right; left.
Qed.

(** ** Conversion to the type of the node *)

Lemma new_cvt_spec st q a G t f :
  mem_ok st -> own st q a G -> small_int t -> small_int f -> fits f a ->
  wpm (New (TypeCvtCell OP_cvt t f q)) st (fun st' p =>
    grow st st' /\ p = size_of st /\ own st' p (TypeCvtNode OP_cvt t f a) ({[p]} ∪ G) /\
    value st' (TypeCvtNode OP_cvt t f a) = in_type t (in_type f (value st a))).
Proof.
  intros Hok Ha Ht Hfs Hf. apply wpm_new.
  assert (grow st (MkMem (cells st ++ [TypeCvtCell OP_cvt t f q]) (constants st))) as Hg by by apply grow_new.
  assert (wt (objs st) (TypeCvtNode OP_cvt t f a)) as Hw by (split_and!; try done; apply Ha).
  split; [done|]. split; [done|]. split; [by apply own_new_cvt|].
  by rewrite (value_grow st).
Qed.

Lemma cvt_features x t f a X :
  has x (TypeCvtNode OP_cvt t f a) -> (forall x, has x a -> X x) -> (t = PTY_u1 -> X FBool) ->
  (forall x, type_has x t -> X x) -> X x.
Proof.
  intros [Hx|Hx] HX HB HU; [|by apply HX]. destruct x; cbn [op_has] in Hx; try done; try (by destruct Hx).
  - by apply HB.
  - by apply HU.
  - destruct Hx as [Hx|Hx]; [by apply HU|done].
Qed.

Lemma convert_to_spec st k F t v X p s :
  mem_ok st -> small_int t -> (k <= size_of st)%nat -> outcome st k F t v X (p, s) ->
  (t = PTY_u1 -> X FBool) -> (forall x, type_has x t -> X x) ->
  wpm (convert_to t p) st (fun st' q => grow st st' /\ outcome st' k F t v X (q, s)).
Proof.
  intros Hok Ht Hk (n & G & Hn & HG & Hf & Ev & Hs & Hcs & HX) HB HU. cbn [fst snd] in *. unfold convert_to.
  destruct (own_cell _ _ _ _ Hn) as (c & Hc & _ & Et & _). eapply wpm_bind, wpm_type; [done|]. rewrite Et.
  destruct (IsNoCvtNeeded (node_ptyp n) t).
  { apply wpm_ret. split; [by apply grow_refl|]. by exists n, G. }
  pose proof (own_small _ _ _ _ Hn) as Hts.
  eapply wpm_mono; [by apply (new_cvt_spec st p n G t (node_ptyp n)); [..|left]|].
  intros st' q (Hg & -> & Hq & Evq). split; [done|].
  exists (TypeCvtNode OP_cvt t (node_ptyp n) n), ({[size_of st]} ∪ G). split_and?; [done| | | |done|done|].
  - by apply within_union; [apply within_fresh|].
  - by left.
  - cbn [fst snd]. rewrite Evq, (value_own st p n G Hn).
    by rewrite <- wrap_add_l, wrap_in_type, wrap_add_l.
  - intros x Hx. by eapply cvt_features.
Qed.

(** ** Comparisons with the operands exchanged *)

Lemma reverse_value op (a b v : Z) :
  compare_value op a b = Some v -> op <> OP_cmp ->
  exists op', (match op with
               | OP_gt => Ret OP_lt | OP_lt => Ret OP_gt | OP_ge => Ret OP_le | OP_le => Ret OP_ge
               | OP_eq | OP_ne => Ret op
               | _ => Fault AssertFail
               end) = Ret op' /\ compare_value op' b a = Some v /\ op' <> OP_cmp.
Proof.
  intros Hv Hop. destruct op; try done; eexists; (split; [reflexivity|]); (split; [|done]); rewrite <- Hv;
    cbn [compare_value cmp_sem fmap option_fmap option_map]; by rewrite 1?Z.eqb_sym.
Qed.

Lemma compare_type_reverse op op' t :
  compare_type op t -> op <> OP_cmp -> op' <> OP_cmp -> (exists a b v : Z, compare_value op' a b = Some v) ->
  compare_type op' t.
Proof.
  intros H Hop Hop' (a & b & v & E). assert (t = PTY_u1) as -> by by destruct op.
  by destruct op'.
Qed.

Lemma relation_value op t (a b : Z) : compare_type op t -> exists v, compare_value op a b = Some v.
Proof. destruct op; try done; by eexists. Qed.

Lemma FoldConstComparisonReverse_spec st op t ot q r a b G G' F X :
  mem_ok st -> own st q a G -> own st r b G' -> G ## G' -> G ⊆ F -> G' ⊆ F ->
  wt (objs st) (CompareNode op t ot a b) -> op <> OP_cmp ->
  (forall x, has x (CompareNode op t ot a b) -> X x) ->
  wpm (FoldConstComparisonReverse op t ot q r) st
    (gives_node st F t (value st (CompareNode op t ot a b)) X).
Proof.
  intros Hok Ha Hb Hd HG HG' Hw Hop HX. unfold FoldConstComparisonReverse.
  pose proof Hw as (Ht & Hot & Hfa & Hfb & Hwa & Hwb).
  set (u := in_type ot (value st a)). set (v := in_type ot (value st b)).
  destruct (relation_value op t u v Ht) as [z Hz].
  destruct (reverse_value op u v z Hz Hop) as (op' & E & Hz' & Hop').
  eapply wpm_bind, wpm_lift_eq; [exact E|]. apply wpm_new.
  assert (compare_type op' t) as Ht' by (eapply compare_type_reverse; try done; by exists v, u, z).
  assert (wt (objs st) (CompareNode op' t ot b a)) as Hw' by by split_and?.
  assert (grow st (MkMem (cells st ++ [CompareCell op' t ot r q]) (constants st))) as Hg by by apply grow_new.
  split; [done|]. exists (CompareNode op' t ot b a), ({[size_of st]} ∪ (G' ∪ G)). split_and?.
  - by apply own_new_compare.
  - apply within_union; [by apply within_fresh|]. apply within_subset, union_least; done.
  - by left.
  - cbn [fst snd opt_value]. rewrite Z.add_0_r, (value_grow st) by done.
    unfold value. cbn [node_value]. fold (value st a) (value st b). fold u v. by rewrite Hz, Hz'.
  - done.
  - done.
  - intros x Hx. apply HX. cbn [has] in *. destruct Hx as [Hx|[Hx|Hx]]; [|tauto..]. left.
    destruct x; cbn [op_has] in *; try done; try (by destruct op'); destruct Hx as [Hx|Hx]; tauto || by destruct op'.
Qed.

(** C32: the expression built from a node and the constant beside it stands
    for their sum in the result type, whichever of addition and subtraction
    is chosen and in whichever type the constant is kept, as long as that
    type is at least as wide as the result's; the nodes in memory are left as
    they are, and without a constant the expression is the node itself. *)
Theorem pair_to_expr st t first second n F :
  mem_ok st -> small_int t -> own st first n F -> fits t n -> sum_ok t second ->
  wpm (PairToExpr typeTable t (first, second)) st (fun st' p =>
    grow st st' /\ (second = None -> st' = st /\ p = first) /\
    exists n' F', own st' p n' F' /\
      wrap (type_width t) (value st' n') = wrap (type_width t) (value st n + opt_value second)).
Proof using Htt.
  intros Hok Ht Hn Hf Hs. eapply wpm_mono; [by apply (PairToExpr_spec st t first second n F (fun _ => True))|].
  intros st' p [(Hg & n' & F' & Hn' & _ & _ & Ev & _) [Hsame _]]. split; [done|]. split; [done|].
  exists n', F'. split; [done|]. cbn [fst snd opt_value] in Ev. by rewrite Z.add_0_r in Ev.
Qed.

(** A comparison with its operands exchanged has the reversed opcode
    and the same value; an opcode without one stops at an assertion. *)
Theorem comparison_reverse st op t opndType l r a b G G' :
  mem_ok st -> own st l a G -> own st r b G' -> G ## G' ->
  (op <> OP_cmp -> wt (objs st) (CompareNode op t opndType a b) ->
     wpm (FoldConstComparisonReverse op t opndType l r) st (fun st' p =>
       grow st st' /\ exists n F', own st' p n F' /\
         wrap (type_width t) (value st' n)
           = wrap (type_width t) (value st (CompareNode op t opndType a b)))) /\
  (IsCompareHasReverseOp op = false ->
     FoldConstComparisonReverse op t opndType l r st = Fault AssertFail).
Proof.
  intros Hok Ha Hb Hd. split.
  - intros Hop Hw. eapply wpm_mono;
      [by apply (FoldConstComparisonReverse_spec st op t opndType l r a b G G' (G ∪ G') (fun _ => True));
        [..|apply union_subseteq_l|apply union_subseteq_r| | |]|].
    intros st' p (Hg & n & F' & Hn & _ & _ & Ev & _). split; [done|]. exists n, F'. split; [done|].
    cbn [fst snd opt_value] in Ev. by rewrite Z.add_0_r in Ev.
  - intros Hop. by destruct op.
Qed.
End Building.
