(* ===== verification/ConstantFoldUnary.v ===== *)
(** * Folding of unary nodes, conversions and extractions

    What a fold must leave ([folded]), and that the folds of nodes with one
    operand do, given that the fold of the operand does. *)
From S2P Require Import Prelude.
From S2P Require Import PrimTypes.
From S2P Require Import Opcodes.
From S2P Require Import IntWords.
From S2P Require Import IntVal.
From S2P Require Import IntValFacts.
From S2P Require Import IntValArith.
From S2P Require Import IntValSpec.
From S2P Require Import IntValTyped.
From S2P Require Import IntConst.
From S2P Require Import IntConstFacts.
From S2P Require Import ConstantFold.
From S2P Require Import ConstantFoldFacts.
From S2P Require Import ConstantFoldExpr.
From S2P Require Import ExprMem.
From S2P Require Import ExprTree.
From S2P Require Import ExprTreeFacts.
From S2P Require Import ExprMemFacts.
From S2P Require Import ConstantFoldTree.
From S2P Require Import ConstantFoldPair.
From stdpp Require Import gmap.
#[local] Open Scope Z_scope.

Section Unary.
Context `{HT : Target}.
Context (typeTable : list (option MIRType)).
Context (Htt : TypeTable_init `prefix_of` typeTable).
Context (leaf : nat -> Z).
Implicit Types (st : Mem) (t : PrimType) (n a b : BaseNode) (F G : gset nat) (X : feature -> Prop).

#[local] Abbreviation grow := (grow typeTable).
#[local] Abbreviation change := (change typeTable).
#[local] Abbreviation mem_ok := (mem_ok typeTable).
#[local] Abbreviation value := (value leaf).
#[local] Abbreviation outcome := (outcome leaf).
#[local] Abbreviation gives := (gives typeTable leaf).

(** ** What a fold leaves *)

(** The features of the tree, of which the negation of a constant is none
    after folding. *)
Definition allowed n (x : feature) : Prop := match x with FNegConst => False | _ => has x n end.

(** The root keeps its opcode and its type. *)
Definition root_kept st p n : Prop :=
  exists c, cells st !! p = Some c /\ GetOpCode c = node_op n /\ GetPrimType c = node_ptyp n.

(** Folding the tree [n] at [p] changes cells of the tree only, and none when
    the tree is calm; the result stands for the value of the tree.  An atom is
    its own result. *)
Definition folded st p F n st' (r : pair) : Prop :=
  change F st st' /\ (calm n -> grow st st') /\ root_kept st' p n /\
  (atom n -> st' = st /\ r = (p, None)) /\
  outcome st' (size_of st) F (node_ptyp n) (value st n) (allowed n) r.

Definition fold_spec (fold : nat -> M pair) n : Prop :=
  forall st p F, mem_ok st -> own st p n F -> wpm (fold p) st (folded st p F n).

Lemma allowed_unsigned n : unsigned_type (node_ptyp n) -> allowed n FUnsigned.
Proof. intros H. by apply has_unsigned. Qed.

(** ** Trees with one operand *)

Lemma own_unary st p op t a F :
  own st p (UnaryNode op t a) F -> exists q G,
    cells st !! p = Some (UnaryCell op t q) /\ own st q a G /\ (p ∉ G) /\ F = ({[p]} ∪ G).
Proof. intros [(q & G & Hp & Hq & Hn & HF) (_ & _ & Hw)]. by exists q, G. Qed.

Lemma own_cvt st p op t f a F :
  own st p (TypeCvtNode op t f a) F -> exists q G,
    cells st !! p = Some (TypeCvtCell op t f q) /\ own st q a G /\ (p ∉ G) /\ F = ({[p]} ∪ G).
Proof. intros [(q & G & Hp & Hq & Hn & HF) (_ & _ & _ & _ & Hw)]. by exists q, G. Qed.

Lemma own_extract st p op t o s a F :
  own st p (ExtractbitsNode op t o s a) F -> exists q G,
    cells st !! p = Some (ExtractbitsCell op t o s q) /\ own st q a G /\ (p ∉ G) /\ F = ({[p]} ∪ G).
Proof. intros [(q & G & Hp & Hq & Hn & HF) (_ & _ & _ & _ & _ & _ & _ & Hw)]. by exists q, G. Qed.

Lemma own_compare st p op t ot a b F :
  own st p (CompareNode op t ot a b) F -> exists q r G G',
    cells st !! p = Some (CompareCell op t ot q r) /\ own st q a G /\ own st r b G' /\ G ## G' /\
    (p ∉ G ∪ G') /\ F = ({[p]} ∪ (G ∪ G')).
Proof.
  intros [(q & r & G & G' & Hp & Hq & Hr & Hd & Hn & HF) (_ & _ & _ & _ & Hwa & Hwb)].
  by exists q, r, G, G'.
Qed.

Lemma own_binary st p op t a b F :
  own st p (BinaryNode op t a b) F -> exists q r G G',
    cells st !! p = Some (BinaryCell op t q r) /\ own st q a G /\ own st r b G' /\ G ## G' /\
    (p ∉ G ∪ G') /\ F = ({[p]} ∪ (G ∪ G')).
Proof.
  intros [(q & r & G & G' & Hp & Hq & Hr & Hd & Hn & HF) (_ & _ & _ & Hwa & Hwb)].
  by exists q, r, G, G'.
Qed.

Lemma own_const_inv st p t c F :
  own st p (ConstvalNode t c) F ->
  cells st !! p = Some (ConstvalCell t c) /\ small_int t /\ exists v, const_at (objs st) c (ty_of t) v /\
    value st (ConstvalNode t c) = in_type t v.
Proof.
  intros [[Hp _] (Ht & v & Hc)]. split; [done|]. split; [done|]. exists v. split; [done|].
  unfold ConstantFoldPair.value. cbn [node_value]. rewrite (const_at_value _ _ _ _ Hc). by apply in_type_idem.
Qed.

(** A node that extracts bits *)
Lemma own_extract_cell st p n F op t o s q :
  own st p n F -> cells st !! p = Some (ExtractbitsCell op t o s q) ->
  exists a G, n = ExtractbitsNode op t o s a /\ own st q a G /\ F = ({[p]} ∪ G) /\ (p ∉ G).
Proof.
  intros H Hc. pose proof H as [Hrep _].
  destruct n; cbn [rep] in Hrep;
    repeat match goal with E : _ /\ _ |- _ => destruct E | E : exists _, _ |- _ => destruct E end; simplify_eq.
  destruct (own_extract _ _ _ _ _ _ _ _ H) as (q' & G & Hp & Ha & Hn & ->).
  rewrite Hc in Hp. injection Hp as <-. by eexists _, G.
Qed.

Lemma own_leaf st p n F op t i :
  own st p n F -> cells st !! p = Some (LeafCell op t i) -> n = LeafNode op t i.
Proof.
  intros [Hrep _] Hc. destruct n; cbn [rep] in Hrep;
    repeat match goal with E : _ /\ _ |- _ => destruct E | E : exists _, _ |- _ => destruct E end; by simplify_eq.
Qed.

(** A node with a constant is a constant. *)
Lemma own_constval st p n F c k :
  own st p n F -> cells st !! p = Some c -> constval_of c = Some k ->
  exists t, n = ConstvalNode t k.
Proof.
  intros H Hc Hk. destruct (own_cell _ _ _ _ H) as (c' & Hc' & _ & _ & E).
  rewrite Hc in Hc'. injection Hc' as <-. rewrite Hk in E. destruct n; try done. injection E as <-. by eexists.
Qed.

Lemma own_not_const st p n F c :
  own st p n F -> cells st !! p = Some c -> constval_of c = None -> ~ is_const n.
Proof.
  intros H Hc Hk Hn. destruct (own_cell _ _ _ _ H) as (c' & Hc' & _ & _ & E).
  rewrite Hc in Hc'. injection Hc' as <-. rewrite Hk in E. by destruct n.
Qed.

(** ** From the type of an operand to the type of the operation *)

Lemma sum_ok_type st n t o :
  small_int t -> small_int (node_ptyp n) -> fits t n -> sum_ok (node_ptyp n) o -> sum_ok t o.
Proof.
  intros Ht Hn Hf Hs. destruct o as [v|]; [|done]. destruct Hs as (Hne & Hv & Hsize).
  destruct Hf as [Ew|Eu]; [|done].
  assert (t <> PTY_u1) as Ht1 by (intros ->; by apply Hne, width_1).
  split; [done|]. split; [done|].
  rewrite (proj2 (arith_width t (conj Ht Ht1))), <- Ew.
  by rewrite (proj2 (arith_width _ (conj Hn Hne))) in Hsize.
Qed.

(** An operand that fits stands for its value in the type of the operation. *)
Lemma outcome_type st0 st a k F t v X r :
  wt (objs st0) a -> small_int t -> fits t a -> v = value st0 a ->
  outcome st k F (node_ptyp a) v X r -> outcome st k F t v X r.
Proof.
  intros Hwa Ht Hf -> (n & G & Hn & HG & Hfn & Ev & Hs & Hc & HX).
  pose proof (wt_small _ _ Hwa) as Hsa. exists n, G. split_and?; try done.
  - exact (fits_trans _ _ a n (proj2 Hn) Hf Hfn).
  - destruct Hf as [<-|Eu]; [done|]. rewrite Eu in *. destruct r as [q [s|]]; [by destruct Hs|].
    cbn [snd opt_value] in *. rewrite !Z.add_0_r in *. f_equal.
    assert (node_ptyp n = PTY_u1) as En by (eapply fits_u1; [apply Hn|done]).
    pose proof (u1_range leaf _ _ (proj2 Hn) En). pose proof (u1_range leaf _ _ Hwa Eu).
    change (type_width PTY_u1) with 1 in Ev.
    rewrite !wrap_small in Ev by (unfold ConstantFoldPair.value; lia). done.
  - by eapply sum_ok_type.
Qed.

(** PairToExpr on an outcome, in the type of the operand *)
Lemma pair_outcome st k F t v X p s :
  mem_ok st -> small_int t -> (k <= size_of st)%nat -> outcome st k F t v X (p, s) ->
  (unsigned_type t -> X FUnsigned) ->
  wpm (PairToExpr typeTable t (p, s)) st (fun st' q =>
    grow st st' /\ outcome st' k F t v X (q, None) /\ (s = None -> st' = st /\ q = p) /\
    (nonconst st p -> nonconst st' q)).
Proof using Htt.
  intros Hok Ht Hk (n & G & Hn & HG & Hf & Ev & Hs & Hc & HX) HU. cbn [fst snd] in *.
  eapply wpm_mono; [by apply (PairToExpr_spec typeTable Htt leaf st t p s n G X)|].
  intros st' q [[Hg Ho] [Hsame Hnc]]. split; [done|].
  split; [|split; [exact Hsame|intros H; by apply Hnc, (nonconst_tree _ _ _ _ H Hn)]].
  eapply outcome_weaken; [exact Ho|done|done|done|done].
Qed.

(** ** Putting a fold together *)

Lemma cell_kept st st1 p c G :
  change G st st1 -> cells st !! p = Some c -> (p ∉ G) -> cells st1 !! p = Some c.
Proof. intros (_ & H & _) Hc Hp. rewrite H; [done|by eapply lookup_lt_Some|done]. Qed.

Lemma cell_grow st st' p c : grow st st' -> cells st !! p = Some c -> cells st' !! p = Some c.
Proof. intros [[l ->] _] Hc. by apply lookup_app_l_Some. Qed.

Lemma change_grow F st st1 st2 : change F st st1 -> grow st1 st2 -> change F st st2.
Proof.
  intros H Hg. eapply change_trans; [done|by apply (grow_change _ ∅)|]. intros q Hq. by apply not_elem_of_empty in Hq.
Qed.

Lemma change_ok F st st' : change F st st' -> mem_ok st'.
Proof. intros H. apply H. Qed.

Lemma change_size F st st' : change F st st' -> (size_of st <= size_of st')%nat.
Proof. intros H. apply H. Qed.

(** The rest of the fold only adds nodes and constants. *)
Lemma folded_intro st st1 st' p c F G n r :
  own st p n F -> cells st !! p = Some c -> (p ∉ G) -> G ⊆ F ->
  change G st st1 -> (calm n -> grow st st1) -> grow st1 st' -> ~ atom n ->
  outcome st' (size_of st) F (node_ptyp n) (value st n) (allowed n) r -> folded st p F n st' r.
Proof using Type.
  intros Hn Hc Hp HG Hch Hcalm Hg Hat Ho. unfold folded. split_and?.
  - eapply change_grow; [|exact Hg]. exact (change_sub _ _ _ _ _ HG Hch).
  - intros H. exact (grow_trans _ _ _ _ (Hcalm H) Hg).
  - exists c. destruct (own_cell _ _ _ _ Hn) as (c' & Hc' & E1 & E2 & _). rewrite Hc in Hc'. injection Hc' as <-.
    split; [|done]. eapply cell_grow; [exact Hg|]. exact (cell_kept _ _ _ _ _ Hch Hc Hp).
  - intros H. by destruct (Hat H).
  - exact Ho.
Qed.

(** The rest of the fold changes the operand's result in place. *)
Lemma folded_change st st1 st' p c G G' F n r :
  own st p n F -> cells st !! p = Some c -> (p ∉ G) -> change G st st1 -> change G' st1 st' ->
  within (size_of st) G' G -> F = {[p]} ∪ G -> ~ calm n -> ~ atom n -> 
  outcome st' (size_of st) F (node_ptyp n) (value st n) (allowed n) r -> folded st p F n st' r.
Proof.
  intros Hn Hc HpG Hch Hch' Hw -> Hcalm Hat Ho.
  pose proof (change_trans _ _ _ _ _ _ Hch Hch' Hw) as Hall. unfold folded. split_and?.
  - eapply change_sub; [apply union_subseteq_r|exact Hall].
  - done.
  - exists c. destruct (own_cell _ _ _ _ Hn) as (c' & Hc' & E1 & E2 & _). rewrite Hc in Hc'. injection Hc' as <-.
    split; [|done]. by eapply cell_kept.
  - done.
  - exact Ho.
Qed.

(** ** Negation *)

Lemma NegateTree_spec st p n F :
  mem_ok st -> own st p n F -> nonconst st p -> node_ptyp n <> PTY_u1 ->
  ~ has FNegConst n ->
  wpm (NegateTree p) st (fun st' q =>
    grow st st' /\ nonconst st' q /\ exists m G, own st' q m G /\ within (size_of st) G F /\
      fits (node_ptyp n) m /\
      wrap (type_width (node_ptyp n)) (value st' m) = wrap (type_width (node_ptyp n)) (- value st n) /\
      forall x, has x m -> has x n).
Proof.
  intros Hok Hn Hnc Hu HX. pose proof (own_small _ _ _ _ Hn) as Hs.
  pose proof (nonconst_tree _ _ _ _ Hnc Hn) as Hcon.
  assert (arith (node_ptyp n)) as Har by done.
  assert (wpm (New (UnaryCell OP_neg (node_ptyp n) p)) st (fun st' q =>
    grow st st' /\ nonconst st' q /\ exists m G, own st' q m G /\ within (size_of st) G F /\
      fits (node_ptyp n) m /\
      wrap (type_width (node_ptyp n)) (value st' m) = wrap (type_width (node_ptyp n)) (- value st n) /\
      forall x, has x m -> has x n)) as Hnew.
  { apply wpm_new.
    assert (grow st (MkMem (cells st ++ [UnaryCell OP_neg (node_ptyp n) p]) (constants st))) as Hg by by apply grow_new.
    assert (wt (objs st) (UnaryNode OP_neg (node_ptyp n) n)) as Hw by (split; [done|split; [by left|apply Hn]]).
    split; [done|]. split; [by eexists; split; [apply new_cell|]|].
    exists (UnaryNode OP_neg (node_ptyp n) n), ({[size_of st]} ∪ F). split_and?.
    - by apply own_new_unary.
    - apply within_union; [by apply within_fresh|apply within_refl].
    - by left.
    - rewrite (value_grow typeTable leaf st) by done.
      change (value st (UnaryNode OP_neg (node_ptyp n) n)) with (in_type (node_ptyp n) (- value st n)).
      by rewrite wrap_in_type.
    - intros x [Hx|[Hx|(-> & _ & Hc)]]; [|done|done].
      apply op_has_plain in Hx as [-> Hx]; [by apply has_unsigned|done|done]. }
  unfold NegateTree. destruct (own_cell _ _ _ _ Hn) as (c & Hc & Eop & Ety & _).
  eapply wpm_bind, wpm_get; [done|]. destruct (IsUnaryNode c) eqn:Eu.
  - unfold Negate_unary. eapply wpm_bind, wpm_get; [done|]. destruct (op_eqb (GetOpCode c) OP_neg) eqn:En.
    + apply op_eqb_spec in En. rewrite Eop in En.
      destruct (own_neg _ _ _ _ Hn En) as (t & a & q & G & -> & Hp & Ha & _ & HG & Hat & Hfa).
      rewrite Hc in Hp. injection Hp as ->. apply wpm_lift, wp_ret. split; [by apply grow_refl|].
      assert (~ is_const a) as Hca by (intros H; apply HX; right; right; done).
      split; [by eapply nonconst_intro|]. exists a, G. split_and?; try done.
      * by apply within_subset.
      * cbn [node_ptyp].
        change (value st (UnaryNode OP_neg t a)) with (in_type t (- value st a)).
        rewrite <- (Z.sub_0_l (in_type t _)), <- wrap_sub_r, wrap_in_type, wrap_sub_r by done. f_equal. lia.
      * intros x Hx. by right; left.
    + unfold NewUnaryNode. eapply wpm_bind, wpm_get; [done|].
      assert (exists q, Opnd c 0 = Ret q) as [q Hq] by (destruct c; try discriminate Eu; by eexists).
      eapply wpm_bind, wpm_lift_eq; [exact Hq|]. rewrite En, Ety. exact Hnew.
  - assert (op_eqb (GetOpCode c) OP_constval = false) as ->.
    { apply not_true_is_false. intros E. apply op_eqb_spec in E. rewrite Eop in E.
      destruct Hn as [_ Hw]. destruct n; cbn [node_op] in E; subst; cbn [wt] in Hw; try done; try (by destruct Hw).
      - by destruct Hw as ([|[|]] & _).
      - by destruct Hw as (_ & Hl & _). }
    unfold Negate_base. eapply wpm_bind, wpm_type; [done|]. rewrite Ety. exact Hnew.
Qed.

Lemma arith_size t t' :
  arith t -> arith t' -> type_width t = type_width t' -> GetPrimTypeSize t = GetPrimTypeSize t'.
Proof.
  intros Ht Ht' E. destruct (arith_width t Ht) as [_ E1], (arith_width t' Ht') as [_ E2].
  rewrite <- E1, <- E2 in E. unfold GetPrimTypeBitSize in E. rewrite !Z.shiftl_mul_pow2 in E by lia. lia.
Qed.

(** The negation of the constant beside an expression *)
Lemma neg_sum_spec t (s : option IntVal) st p (R : Mem -> pair -> Prop) :
  small_int t -> sum_ok t s ->
  (forall s', sum_ok t s' -> (s = None -> s' = None) ->
     wrap (type_width t) (opt_value s') = wrap (type_width t) (- opt_value s) -> R st (p, s')) ->
  wpm (match s with
       | Some v => n ← lift (op_neg v); mret (p, Some n)
       | None => mret (p, None)
       end) st R.
Proof.
  intros Ht Hs HR. destruct s as [v|]; [|apply wpm_ret; by apply HR].
  destruct Hs as (Hne & [Hv Hv64] & Hsize). pose proof (wf_valid v Hv) as Hvw.
  destruct (arith_width t (conj Ht Hne)) as [Hw Ebits].
  rewrite op_neg_eq by done. apply wpm_bind, wpm_lift, wp_ret, wpm_ret, HR; [|done|].
  - split; [done|]. split; [split; [by apply repr_wf|done]|done].
  - cbn [opt_value]. rewrite ival_repr by done.
    change (if sign v then swrap (width v) (- uval v) else wrap (width v) (- uval v))
      with (norm (width v) (sign v) (- uval v)).
    rewrite wrap_norm_le by lia. rewrite <- (wrap_ival v Hv), <- (Z.sub_0_l (wrap _ _)), <- (Z.sub_0_l (ival v)).
    by rewrite <- wrap_sub_r, wrap_wrap_le, wrap_sub_r by lia.
Qed.

(** A node is changed in place. *)
Lemma change_cell st p c :
  mem_ok st -> change {[p]} st (MkMem (<[p := c]> (cells st)) (constants st)).
Proof.
  intros Hok. split; [unfold size_of; cbn; by rewrite length_insert|]. split; [|split; [apply extends_refl|done]].
  intros q Hq Hqp. cbn. apply list_lookup_insert_ne. intros ->. by apply Hqp, elem_of_singleton.
Qed.

(** The root of an owned negation is given another type. *)
Lemma SetPrimType_neg st p t t' y G F a (R : Mem -> Prop) :
  mem_ok st -> cells st !! p = Some (UnaryCell OP_neg t y) -> (p ∉ G) -> own st y a G -> G ⊆ F -> p ∈ F ->
  (forall st', change F st st' -> objs st' = objs st ->
     cells st' !! p = Some (UnaryCell OP_neg t' y) -> own st' y a G -> R st') ->
  wpm (SetPrimType p t') st (fun st' _ => R st').
Proof.
  intros Hok Hp Hn Ha HG HF HR. eapply wpm_modify; [done|]. cbn [set_PrimType].
  pose proof (change_cell st p (UnaryCell OP_neg t' y) Hok) as Hch.
  apply HR.
  - eapply change_sub; [|done]. set_solver.
  - done.
  - cbn. apply list_lookup_insert_eq. by eapply lookup_lt_Some.
  - eapply own_change; [done|done|]. set_solver.
Qed.

Lemma fits_width t n : fits t n -> node_ptyp n <> PTY_u1 -> type_width (node_ptyp n) = type_width t.
Proof. by intros [|]. Qed.

(** What FoldUnary_neg leaves: the negated operand with the negated constant *)
Definition negated st p G t (v : Z) n st' (r : pair) : Prop :=
  change G st st' /\
  outcome st' (size_of st) ({[p]} ∪ G) t v (fun x => has x n \/ (x = FUnsigned /\ unsigned_type t)) r.

Lemma FoldUnary_neg_spec st p t q q' s n G :
  mem_ok st -> arith t -> cells st !! p = Some (UnaryCell OP_neg t q) -> (p ∉ G) ->
  own st q' n G -> nonconst st q' -> node_ptyp n <> PTY_u1 -> fits t n -> ~ has FNegConst n ->
  sum_ok t s ->
  wpm (FoldUnary_neg typeTable p q t (q', s)) st
    (negated st p G t (- (value st n + opt_value s)) n).
Proof.
  intros Hok Ht Hp HpG Hn Hnc Hu Hf HX Hs. unfold FoldUnary_neg. cbn [fst snd].
  pose proof (fits_width _ _ Hf Hu) as Ewn. pose proof (arith_small t Ht) as Hts.
  apply wpm_bind. eapply wpm_mono; [by apply NegateTree_spec|].
  intros st2 r (Hg2 & Hr & m & Gm & Hm & HGm & Hfm & Evm & HXm). rewrite Ewn in Evm.
  pose proof (fits_congr _ _ _ Ewn Hfm) as Hfm'.
  pose proof (cell_grow _ _ _ _ Hg2 Hp) as Hp2.
  assert (within (size_of st) Gm ({[p]} ∪ G)) as HGm' by (eapply within_sub; [|done]; set_solver).
  assert (p ∉ Gm) as HpGm.
  { intros H. destruct (HGm p H) as [|Hge]; [done|]. pose proof (lookup_lt_Some _ _ _ Hp). unfold size_of in Hge. lia. }
  (* the end of the fold, in a memory with the result [r2] *)
  assert (forall st3 r2 m2 G2, change G st st3 -> own st3 r2 m2 G2 -> ~ is_const m2 ->
    within (size_of st) G2 ({[p]} ∪ G) -> fits t m2 -> value st3 m2 = value st2 m \/
      wrap (type_width t) (value st3 m2) = wrap (type_width t) (value st2 m) ->
    (forall x, has x m2 -> has x n \/ (x = FUnsigned /\ unsigned_type t)) ->
    wpm (match s with Some v => n ← lift (op_neg v); mret (r2, Some n) | None => mret (r2, None) end) st3
      (negated st p G t (- (value st n + opt_value s)) n)) as Hend.
  { intros st3 r2 m2 G2 Hch Hm2 Hcm2 HG2 Hf2 Ev2 HX2. apply neg_sum_spec with (t := t); [done|done|].
    intros s' Hs' Hnone Es. split; [done|]. exists m2, G2. split_and?; try done. cbn [snd].
    assert (wrap (type_width t) (value st3 m2) = wrap (type_width t) (- value st n)) as E
      by (rewrite <- Evm; destruct Ev2 as [->|]; done).
    rewrite Z.opp_add_distr. by apply (wrap_add_congr t). }
  destruct (own_cell _ _ _ _ Hm) as (rc & Hrc & Eop & Ety & _). eapply wpm_bind, wpm_get; [done|].
  pose proof (nonconst_tree _ _ _ _ Hr Hm) as Hcm.
  destruct (op_eqb (GetOpCode rc) OP_neg) eqn:En; cbn [andb].
  2:{ apply wpm_bind, wpm_ret. apply (Hend st2 r m Gm); try done.
      - by apply grow_change.
      - by left.
      - intros x Hx. left. by apply HXm. }
  apply op_eqb_spec in En. rewrite Eop in En.
  destruct (own_neg _ _ _ _ Hm En) as (t' & a & y & Gy & -> & Hrp & Ha & HrGy & HGy & Hat & Hfa).
  rewrite Hrc in Hrp. injection Hrp as ->. cbn [GetPrimType node_ptyp Opnd] in *.
  assert (type_width t' = type_width t) as Ew by by destruct Hfm' as [|E]; [|by destruct Hat].
  rewrite (arith_size t' t Hat Ht Ew), Z.eqb_refl. cbn [negb]. rewrite andb_false_r.
  assert (change G st st2) as Hch2 by by apply grow_change.
  destruct (pty_eqb t' t) eqn:Et.
  - apply pty_eqb_true in Et as ->. apply wpm_bind, wpm_bind, wpm_lift, wp_ret, wpm_ret.
    destruct (Nat.eqb_spec y q) as [->|_].
    + apply (Hend st2 p (UnaryNode OP_neg t a) ({[p]} ∪ Gy)); [done| |done| |by left|by left|].
      * split; [|apply Hm]. exists q, Gy. split; [done|]. split; [apply Ha|]. split; [set_solver|done].
      * apply within_union; [apply within_subset; set_solver|]. intros z Hz. by apply HGm', HGy.
      * intros x Hx. left. by apply HXm.
    + apply (Hend st2 r (UnaryNode OP_neg t a) Gm); [done|done|done|done|by left|by left|].
      intros x Hx. left. by apply HXm.
  - apply wpm_bind, wpm_bind.
    apply (SetPrimType_neg st2 r t' t y Gy Gm a); [by eapply grow_ok|done|done|done|done|by eapply own_root|].
    intros st3 Hch3 Eobjs Hr3 Ha3. apply wpm_ret.
    apply (Hend st3 r (UnaryNode OP_neg t a) ({[r]} ∪ Gy)); [| |done| |by left| |].
    + eapply change_trans; [exact Hch2|exact Hch3|exact HGm].
    + split; [exists y, Gy; split; [done|]; split; [apply Ha3|]; split; done|].
      split; [done|]. split; [by eapply fits_congr|apply Ha3].
    + apply within_union; [|intros z Hz; by apply HGm', HGy].
      intros z ->%elem_of_singleton. apply HGm'. by eapply own_root.
    + right. unfold ConstantFoldPair.value. rewrite Eobjs. cbn [node_value unary_value default].
      rewrite wrap_in_type by done. cbn. rewrite <- Ew. by rewrite wrap_in_type by apply Hat.
    + intros x [Hx|[Hx|(-> & _ & Hc)]].
      * apply op_has_plain in Hx as [-> Hx]; [by right|done|apply Ht].
      * left. apply HXm. by right; left.
      * left. apply HXm. by right; right.
Qed.

(** ** The operand of a node *)

Lemma value_change F st st' n : wt (objs st) n -> change F st st' -> value st' n = value st n.
Proof. intros Hw Hc. apply node_value_prefix; [by eapply change_objs|done]. Qed.

Lemma within_not_in k p G' G : within k G' G -> (p < k)%nat -> (p ∉ G) -> p ∉ G'.
Proof. intros Hw Hp Hn Hin. destruct (Hw p Hin); [done|lia]. Qed.

Lemma cell_bound st p c : cells st !! p = Some c -> (p < size_of st)%nat.
Proof. apply lookup_lt_Some. Qed.

(** The operand [a] at [q] of a node at [p] of type [t], after its fold *)
Definition operand_folded st st1 p c a G t (r : pair) : Prop :=
  mem_ok st1 /\ cells st1 !! p = Some c /\ change G st st1 /\ (calm a -> grow st st1) /\
  outcome st1 (size_of st) G t (value st a) (allowed a) r /\
  outcome st1 (size_of st) G (node_ptyp a) (value st a) (allowed a) r.

Lemma operand_intro st st1 p c q a G t r :
  own st q a G -> cells st !! p = Some c -> (p ∉ G) -> small_int t -> fits t a ->
  folded st q G a st1 r -> operand_folded st st1 p c a G t r.
Proof.
  intros Ha Hc Hp Ht Hf (Hch & Hcalm & _ & _ & Ho). unfold operand_folded. split_and?; try done.
  - by eapply change_ok.
  - by eapply cell_kept.
  - eapply (outcome_type st); try done. apply Ha.
Qed.

(** The operand as one expression [e] *)
Definition operand_expr st st2 p c a G t (e : nat) m Gm : Prop :=
  own st2 e m Gm /\ within (size_of st) Gm G /\ cells st2 !! p = Some c /\ (p ∉ Gm) /\ fits t m /\
  wrap (type_width t) (value st2 m) = wrap (type_width t) (value st a) /\
  forall x, has x m -> allowed a x.

Lemma pair_operand st st1 p c q a G t r :
  own st q a G -> cells st !! p = Some c -> (p ∉ G) -> small_int t -> fits t a ->
  operand_folded st st1 p c a G t r ->
  wpm (PairToExpr typeTable (node_ptyp a) r) st1 (fun st2 e =>
    grow st1 st2 /\ (snd r = None -> st2 = st1 /\ e = fst r) /\
    exists m Gm, operand_expr st st2 p c a G t e m Gm /\ (nonconst st1 (fst r) -> ~ is_const m)).
Proof using Htt.
  intros Ha Hc Hp Ht Hf (Hok & Hc1 & Hch & _ & _ & Ho). destruct r as [q' s]. cbn [fst snd].
  eapply wpm_mono.
  - apply pair_outcome; [done|by eapply own_small|by eapply change_size|done|by apply allowed_unsigned].
  - intros st2 e (Hg & Ho2 & Hsame & Hnc). split; [done|]. split; [done|].
    pose proof (outcome_type st _ a _ _ t _ _ _ (proj2 Ha) Ht Hf eq_refl Ho2) as (m & Gm & Hm & HGm & Hfm & Ev & _ & _ & HX).
    cbn [fst snd opt_value] in *. rewrite Z.add_0_r in Ev. exists m, Gm. split.
    + unfold operand_expr. split_and?; try done; [by eapply cell_grow|]. eapply within_not_in; [done|by eapply cell_bound|done].
    + intros H. by eapply nonconst_tree; [apply Hnc|].
Qed.

(** ** Unary operators *)

Lemma const_small_val objs k t v c :
  small_int t -> const_at objs k (ty_of t) v -> objs !! k = Some c ->
  small_val (GetValue c) /\ ival (GetValue c) = in_type t v /\ GetType c = ty_of t.
Proof.
  intros Ht (c' & Hc' & Ety & Hwf & Ew & Es & Ev) Hc. rewrite Hc in Hc'. injection Hc' as <-.
  pose proof (small_width t Ht). cbn [type_prim ty_of] in *. split_and?; try done. split; [done|lia].
Qed.

(** A new constant as the outcome of a fold that started in [st] *)
Lemma new_const_outcome st st1 st2 F t t' v v' X p :
  is_new_const typeTable leaf st1 t v st2 p -> (size_of st <= size_of st1)%nat -> small_int t' ->
  (type_width t = type_width t' \/ t = PTY_u1) ->
  wrap (type_width t') (in_type t v) = wrap (type_width t') v' -> (forall x, type_has x t -> X x) ->
  outcome st2 (size_of st) F t' v' X (p, None).
Proof.
  intros Hnew Hsize Ht Hf E HX.
  destruct (new_const_gives typeTable leaf st1 st2 F t t' v v' X p Hnew Ht Hf E HX) as [_ Ho].
  eapply outcome_weaken; [exact Ho|done|apply within_refl|done|done].
Qed.

Lemma value_compare st op t ot a b :
  value st (CompareNode op t ot a b)
  = in_type t (default 0 (compare_value op (in_type ot (value st a)) (in_type ot (value st b)))).
Proof. done. Qed.

Lemma value_unary st op t a :
  value st (UnaryNode op t a) = in_type t (default 0 (unary_value op (IsSignedInteger t) t (value st a))).
Proof. done. Qed.

Lemma unary_type_op op t :
  unary_type op t -> op = OP_neg \/ op = OP_abs \/ op = OP_bnot \/ op = OP_lnot.
Proof. destruct op; cbn [unary_type]; tauto. Qed.

Lemma FoldConstUnary_spec st p op t t' k G :
  mem_ok st -> unary_type op t -> own st p (ConstvalNode t' k) G -> (op = OP_abs -> t' = t) ->
  wpm (FoldConstUnary typeTable op t k) st
    (is_new_const typeTable leaf st t
       (default 0 (unary_value op (IsSignedInteger t) t (value st (ConstvalNode t' k))))).
Proof using Htt.
  intros Hok Hty Hn Habs. destruct (own_const_inv _ _ _ _ _ Hn) as (_ & Ht' & v & Hk & Ev).
  pose proof (unary_type_small op t Hty) as Ht. unfold FoldConstUnary. rewrite (proj1 Ht). cbn [orb].
  pose proof Hk as (c & Hc & _). destruct (const_small_val _ _ _ _ _ Ht' Hk Hc) as (Hsv & Ei & Ety).
  eapply wpm_bind, wpm_get_const; [exact Hc|]. apply NewConstval_spec; [done|].
  pose proof (fold_unary_folds typeTable Htt (constants st) op t c Hok Ht (proj1 Hsv)) as Hf.
  rewrite Ei, <- Ev, Ety in Hf. cbn [type_prim ty_of] in Hf.
  destruct (unary_type_op _ _ Hty) as [-> |[-> |[-> | ->]]]; cbn [unary_value default] in *; try exact Hf.
  by rewrite Habs in Hf |- * by done.
Qed.

Lemma FoldUnary_spec fold st p op t a F :
  mem_ok st -> own st p (UnaryNode op t a) F -> fold_spec fold a -> (op = OP_abs -> atom a /\ node_ptyp a = t) ->
  wpm (FoldUnary typeTable fold p) st (folded st p F (UnaryNode op t a)).
Proof using Htt.
  intros Hok Hn Hfold Habs. pose proof Hn as [_ (Hty & Hfa & _)].
  pose proof (unary_type_small op t Hty) as Ht.
  destruct (own_unary _ _ _ _ _ _ Hn) as (q & G & Hc & Ha & HpG & ->).
  unfold FoldUnary. eapply wpm_bind, wpm_get; [exact Hc|]. cbn [Opnd]. apply wpm_bind, wpm_lift, wp_ret, wpm_bind.
  eapply wpm_mono; [by apply Hfold|]. intros st1 r Hr.
  pose proof Hr as (_ & _ & (ac & Hac & _ & Eac) & Hatom & _).
  pose proof (operand_intro _ _ _ _ _ _ _ t _ Ha Hc HpG Ht Hfa Hr) as Hop.
  pose proof Hop as (Hok1 & Hc1 & Hch & Hcalm & (n & Gn & Hon & HGn & Hfn & Evn & Hs & Hcn & HX) & _).
  eapply wpm_bind, wpm_get; [exact Hc1|].
  destruct (own_cell _ _ _ _ Hon) as (pc & Hpc & Epo & Ept & Epk). eapply wpm_bind, wpm_get; [exact Hpc|].
  cbn [GetOpCode GetPrimType].
  assert (p ∉ Gn) as Hpn by (eapply within_not_in; [done|by eapply cell_bound|done]).
  assert (forall x, op_has x op t \/ allowed a x -> allowed (UnaryNode op t a) x) as Hallow.
  { intros x [Hx|Hx]; destruct x; cbn [allowed has] in *; tauto. }
  destruct (constval_of pc) as [k|] eqn:Ek.
  - destruct (own_constval _ _ _ _ _ _ Hon Hpc Ek) as [t' ->].
    apply wpm_bind. eapply wpm_mono; [apply (FoldConstUnary_spec st1 (fst r) op t t' k Gn); try done|].
    + intros E. destruct (Habs E) as [Hat Et]. destruct (Hatom Hat) as [-> ->]. cbn [fst] in *.
      pose proof (own_type _ _ _ _ _ Ha Hpc) as E1. rewrite Ept, Et in E1. exact E1.
    + intros st2 r2 Hnew. pose proof (Hcn I) as E. rewrite E in Evn. cbn [opt_value] in Evn.
      rewrite Z.add_0_r in Evn. apply wpm_ret.
      apply (folded_intro st st1 st2 p _ _ G _ _ Hn Hc HpG);
        [apply union_subseteq_r|exact Hch|intros [_ Hca]; by apply Hcalm|apply Hnew|by intros []|].
      eapply new_const_outcome; [exact Hnew|by eapply change_size|exact Ht|by left| |].
      * rewrite wrap_in_type by done. rewrite value_unary, wrap_in_type by done. by apply (unary_value_congr t).
      * intros x Hx. apply Hallow. by left; apply op_has_type.
  - destruct (IsPrimitiveInteger t && op_eqb op OP_neg && negb (pty_eqb (GetPrimType pc) PTY_u1)) eqn:E.
    + apply andb_true_iff in E as [E Eu]. apply andb_true_iff in E as [_ E]. apply op_eqb_spec in E as ->.
      rewrite Ept in Eu. assert (node_ptyp n <> PTY_u1) as Hu by (intros E; by rewrite E in Eu).
      destruct r as [q' s]. cbn [fst snd] in *.
      eapply wpm_mono; [apply (FoldUnary_neg_spec st1 p t q q' s n Gn); try done|].
      * by exists pc.
      * intros Hx. exact (HX FNegConst Hx).
      * intros st2 r2 (Hch2 & Ho).
        apply (folded_change st st1 st2 p _ G Gn _ (UnaryNode OP_neg t a) r2 Hn Hc HpG Hch Hch2 HGn);
          [done|by intros []|by intros []|].
        eapply outcome_weaken; [exact Ho|by eapply change_size| | |].
        -- apply within_union; [apply within_subset, union_subseteq_l|].
           eapply within_sub; [apply union_subseteq_r|exact HGn].
        -- cbn [node_ptyp]. rewrite (value_unary st), wrap_in_type by done.
           change (default 0 (unary_value OP_neg (IsSignedInteger t) t (value st a))) with (- value st a).
           rewrite <- (Z.sub_0_l (_ + _)), <- (Z.sub_0_l (value st a)). by apply (wrap_sub_congr t).
        -- intros x [Hx|[-> Hu']]; apply Hallow; [by right; apply HX|by left; left].
    + eapply wpm_bind, wpm_type; [exact Hac|]. rewrite Eac. apply wpm_bind. destruct r as [q' s].
      eapply wpm_mono; [by apply (pair_operand st st1 p (UnaryCell op t q) q a G t)|].
      intros st2 e (Hg & _ & m & Gm & (Hm & HGm & Hc2 & Hpm & Hfm & Evm & HXm) & Hncm).
      assert (wt (objs st2) (UnaryNode op t m)) as Hw by (split; [done|split; [done|apply Hm]]).
      apply wpm_bind. eapply wpm_mono;
        [apply (NewUnaryNode_spec typeTable st2 p _ op t e q m Gm (grow_ok _ _ _ Hg) Hc2 eq_refl); done|].
      intros st3 r3 (Hg3 & F3 & H3 & HF3). apply wpm_ret.
      apply (folded_intro st st1 st3 p _ _ G _ _ Hn Hc HpG);
        [apply union_subseteq_r|exact Hch|intros [_ Hca]; by apply Hcalm|by eapply grow_trans|by intros []|].
      exists (UnaryNode op t m), F3. split_and?; [exact H3| |by left| |done|done|].
      * eapply within_root; [|exact HF3|exact HGm].
        etrans; [by eapply change_size|by eapply grow_size].
      * cbn [fst snd opt_value]. rewrite Z.add_0_r, (value_grow typeTable leaf st2 st3) by done.
        rewrite !value_unary, !wrap_in_type by done. by apply (unary_value_congr t).
      * intros x [Hx|[Hx|(-> & _ & Hx)]]; [by apply Hallow; left|by apply Hallow; right; apply HXm|].
        exfalso. apply Hncm; [by exists pc|done].
Qed.

(** ** Conversions *)

Lemma IntVal_as_small x t :
  small_val x -> small_int t ->
  IntVal_as x t = Ret (repr (type_width t) (IsSignedInteger t) (uval x)).
Proof.
  intros [Hx Hw] Ht. pose proof (small_width t Ht). unfold IntVal_as, IntVal_from. rewrite (proj1 Ht).
  destruct Hx as [v w b Hw0 Hv|ws n b Hn Hws]; cbn [width] in Hw; [|lia].
  rewrite Init_union_one by done. unfold Init_val. rewrite IsOneWord_small by lia.
  cbn [ASSERT mbind res_bind]. rewrite TruncInPlace_one by done. cbn [uval u].
  unfold repr. by rewrite IsOneWord_small by lia.
Qed.

Lemma value_cvt st op t f a : value st (TypeCvtNode op t f a) = in_type t (in_type f (value st a)).
Proof. done. Qed.

Lemma FoldTypeCvt_constval_spec st p t f t' k G :
  mem_ok st -> small_int t -> small_int f -> own st p (ConstvalNode t' k) G ->
  wpm (FoldTypeCvt_constval typeTable k f t) st (fun st' o => exists q, o = Some q /\
    is_new_const typeTable leaf st t (in_type f (value st (ConstvalNode t' k))) st' q).
Proof using Htt.
  intros Hok Ht Hf Hn. destruct (own_const_inv _ _ _ _ _ Hn) as (_ & Ht' & v & Hk & Ev).
  pose proof Hk as (c & Hc & _). destruct (const_small_val _ _ _ _ _ Ht' Hk Hc) as (Hsv & Ei & _).
  unfold FoldTypeCvt_constval. eapply wpm_bind, wpm_get_const; [exact Hc|].
  apply wpm_bind, wpm_in_table, wp_bind. rewrite Ev, <- Ei. eapply wp_mono; [by apply (cvt_int_spec typeTable Htt)|].
  intros o ([s1 k1] & -> & (Hs1 & He1 & Hk1)). cbn [fst snd] in *. apply wp_ret. cbn [fst snd].
  pose proof Hk1 as (c1 & Hc1 & Ety & _). eapply wpm_bind, wpm_get_const; [exact Hc1|]. rewrite Ety.
  apply wpm_bind. eapply wpm_mono; [by apply (new_const_node typeTable leaf st s1 t k1)|].
  intros st' q Hq. apply wpm_ret. by exists q.
Qed.

Lemma arith_width_eq t t' :
  arith t -> arith t' -> GetPrimTypeSize t = GetPrimTypeSize t' -> type_width t = type_width t'.
Proof.
  intros Ht Ht' E. rewrite <- (proj2 (arith_width t Ht)), <- (proj2 (arith_width t' Ht')).
  unfold GetPrimTypeBitSize. by rewrite E.
Qed.

(** A conversion between types of one size keeps the operand. *)
Lemma redundant_cvt_spec st k F t f v X q s :
  small_int t -> small_int f -> GetPrimTypeSize f = GetPrimTypeSize t ->
  (t = PTY_u1 -> f = PTY_u1 \/ 8 < type_width f) -> outcome st k F f v X (q, s) ->
  wpm (match s with
       | Some c => w ← lift (IntVal_as c t); mret (q, Some w)
       | None => mret (q, None)
       end) st (fun st' r => st' = st /\ outcome st k F t (in_type f v) X r).
Proof.
  intros Ht Hf Esize Hu (n & G & Hn & HG & Hfn & Ev & Hs & Hc & HX). cbn [fst snd] in *.
  destruct (decide (f = PTY_u1)) as [->|Hf1].
  - destruct s as [c|]; [by destruct Hs|]. cbn [opt_value] in Ev. rewrite Z.add_0_r in Ev.
    apply wpm_ret. split; [done|].
    pose proof (fits_u1 _ _ (proj2 Hn) Hfn) as En. exists n, G. split_and?; try done; [by right|].
    cbn [snd opt_value]. rewrite Z.add_0_r, <- (in_type_congr PTY_u1 _ _ Ev), <- En. by erewrite value_own.
  - assert (t <> PTY_u1) as Ht1.
    { intros ->. destruct (Hu eq_refl) as [|Hw]; [done|].
      pose proof (proj2 (arith_width f (conj Hf Hf1))) as E. unfold GetPrimTypeBitSize in E. rewrite Esize in E.
      change (Z.shiftl (GetPrimTypeSize PTY_u1) 3) with 8 in E. lia. }
    pose proof (arith_width_eq f t (conj Hf Hf1) (conj Ht Ht1) Esize) as Ew.
    assert (fits t n) as Hfn' by (by eapply fits_congr).
    assert (wrap (type_width t) (in_type f v) = wrap (type_width t) v) as Ei by (rewrite <- Ew; by apply wrap_in_type).
    destruct s as [c|].
    + destruct Hs as (_ & Hsv & Hsize). rewrite IntVal_as_small by done. apply wpm_bind, wpm_lift, wp_ret, wpm_ret.
      pose proof (small_valid t Ht) as Hvw. pose proof (small_width t Ht).
      destruct (arith_width t (conj Ht Ht1)) as [_ Et].
      destruct (arith_width f (conj Hf Hf1)) as [_ Ef].
      split; [done|]. exists n, G. split_and?; try done.
      * rewrite Ei, <- Ew, <- Ev, Ew. cbn [snd opt_value]. apply (wrap_add_congr t); [done|].
        rewrite ival_in_type by apply Ht. rewrite wrap_in_type by done.
        pose proof (wrap_ival c (proj1 Hsv)) as Ec. rewrite <- Ec, wrap_wrap_le by lia. done.
      * cbn [snd sum_ok]. split; [done|]. split; [|cbn; lia]. split; [by apply repr_wf|cbn; lia].
      * intros Hcon. by specialize (Hc Hcon).
    + apply wpm_ret. split; [done|]. exists n, G. split_and?; try done. by rewrite Ei, <- Ew.
Qed.

Lemma FoldTypeCvt_spec fold st p op t f a F :
  mem_ok st -> own st p (TypeCvtNode op t f a) F -> fold_spec fold a ->
  (t = PTY_u1 -> f = PTY_u1 \/ 8 < type_width f) ->
  wpm (FoldTypeCvt typeTable fold p) st (folded st p F (TypeCvtNode op t f a)).
Proof using Htt.
  intros Hok Hn Hfold Hu. pose proof Hn as [_ (-> & Ht & Hfs & Hfa & _)].
  destruct (own_cvt _ _ _ _ _ _ _ Hn) as (q & G & Hc & Ha & HpG & ->).
  unfold FoldTypeCvt. eapply wpm_bind, wpm_get; [exact Hc|]. cbn [Opnd]. apply wpm_bind, wpm_lift, wp_ret, wpm_bind.
  eapply wpm_mono; [by apply Hfold|]. intros st1 [q' s] Hr.
  pose proof Hr as (_ & _ & (ac & Hac & _ & Eac) & _).
  pose proof (operand_intro _ _ _ _ _ _ _ f _ Ha Hc HpG Hfs Hfa Hr) as Hop.
  pose proof Hop as (Hok1 & Hc1 & Hch & Hcalm & Ho & _).
  eapply wpm_bind, wpm_get; [exact Hc1|]. cbn iota.
  assert (forall x, op_has x OP_cvt t \/ allowed a x -> allowed (TypeCvtNode OP_cvt t f a) x) as Hallow.
  { intros x [Hx|Hx]; destruct x; cbn [allowed has] in *; tauto. }
  (* what is left to show of the result *)
  assert (forall st2 r, grow st1 st2 ->
    outcome st2 (size_of st) ({[p]} ∪ G) t (in_type f (value st a)) (allowed (TypeCvtNode OP_cvt t f a)) r ->
    folded st p ({[p]} ∪ G) (TypeCvtNode OP_cvt t f a) st2 r) as Hend.
  { intros st2 r Hg Ho2.
    apply (folded_intro st st1 st2 p _ _ G _ _ Hn Hc HpG);
      [apply union_subseteq_r|exact Hch|intros Hca; by apply Hcalm|exact Hg|by intros []|].
    eapply outcome_weaken; [exact Ho2|done|apply within_refl| |done].
    cbn [node_ptyp]. by rewrite value_cvt, wrap_in_type. }
  destruct Ho as (n & Gn & Hon & HGn & Hfn & Evn & Hs & Hcn & HX). cbn [fst snd] in *.
  destruct (own_cell _ _ _ _ Hon) as (pc & Hpc & _ & _ & _).
  eapply wpm_bind, wpm_get; [exact Hpc|].
  destruct (constval_of pc) as [k|] eqn:Ek.
  { destruct (own_constval _ _ _ _ _ _ Hon Hpc Ek) as [t' ->]. apply wpm_bind.
    eapply wpm_mono; [by eapply FoldTypeCvt_constval_spec|]. intros st2 o (z & -> & Hnew). apply wpm_ret.
    rewrite (Hcn I) in Evn. cbn [opt_value] in Evn. rewrite Z.add_0_r in Evn.
    apply Hend; [apply Hnew|]. eapply new_const_outcome; [exact Hnew|by eapply change_size|exact Ht|by left| |].
    - rewrite wrap_in_type by done. f_equal. by apply in_type_congr.
    - intros x Hx. apply Hallow. by left; apply op_has_type. }
  match goal with |- wpm (if ?b then _ else _) _ _ => destruct b eqn:Er end.
  { apply andb_true_iff in Er as [Er _]. apply andb_true_iff in Er as [_ Esize]. apply Z.eqb_eq in Esize.
    eapply wpm_mono; [apply (redundant_cvt_spec st1 (size_of st) ({[p]} ∪ G) t f (value st a)
      (allowed (TypeCvtNode OP_cvt t f a))); try done|].
    - exists n, Gn. split_and?; try done; [eapply within_sub; [apply union_subseteq_r|exact HGn]|].
      intros x Hx. by apply Hallow; right; apply HX.
    - intros st2 r [-> Ho2]. apply Hend; [by apply grow_refl|exact Ho2]. }
  eapply wpm_bind, wpm_type; [exact Hac|]. rewrite Eac. apply wpm_bind.
  eapply wpm_mono; [by apply (pair_operand st st1 p (TypeCvtCell OP_cvt t f q) q a G f)|].
  intros st2 e (Hg & _ & m & Gm & (Hm & HGm & Hc2 & Hpm & Hfm & Evm & HXm) & _).
  assert (wt (objs st2) (TypeCvtNode OP_cvt t f m)) as Hw by (split_and!; try done; apply Hm).
  assert (forall st3 r F3, grow st2 st3 -> own st3 r (TypeCvtNode OP_cvt t f m) F3 ->
    within (size_of st2) F3 ({[p]} ∪ Gm) -> folded st p ({[p]} ∪ G) (TypeCvtNode OP_cvt t f a) st3 (r, None)) as Hrec.
  { intros st3 r F3 Hg3 H3 HF3. apply Hend; [by eapply grow_trans|].
    exists (TypeCvtNode OP_cvt t f m), F3. split_and?; [exact H3| |by left| |done|done|].
    - eapply within_root; [|exact HF3|exact HGm]. etrans; [by eapply change_size|by eapply grow_size].
    - cbn [fst snd opt_value]. rewrite Z.add_0_r, (value_grow typeTable leaf st2 st3), value_cvt by done.
      rewrite !wrap_in_type by done. f_equal. by apply in_type_congr.
    - intros x [Hx|Hx]; apply Hallow; [by left|by right; apply HXm]. }
  destruct (Nat.eqb_spec e q) as [->|_]; cbn [negb].
  - apply wpm_ret. apply (Hrec st2 p ({[p]} ∪ Gm)); [apply grow_refl; by eapply grow_ok| |apply within_refl].
    split; [|done]. exists q, Gm. split_and?; try done. apply Hm.
  - apply wpm_bind. eapply wpm_mono; [by apply (new_cvt_spec typeTable leaf st2 e m Gm t f); [eapply grow_ok|..]|].
    intros st3 r (Hg3 & -> & H3 & _). apply wpm_ret. eapply Hrec; [done|exact H3|].
    apply within_union; [by apply within_fresh|apply within_subset, union_subseteq_r].
Qed.
End Unary.
