(* ===== verification/ConstantFoldExtract.v ===== *)
(** * Folding of bit-field extractions

    The fold of extractbits, sext and zext: of a constant, of an extraction
    that repeats the one below it, and of an extraction that repeats the read
    of its operand. *)
From S2P Require Import Prelude.
From S2P Require Import PrimTypes.
From S2P Require Import Opcodes.
From S2P Require Import IntVal.
From S2P Require Import IntValFacts.
From S2P Require Import IntValCount.
From S2P Require Import IntValSpec.
From S2P Require Import IntValTyped.
From S2P Require Import IntConst.
From S2P Require Import IntConstFacts.
From S2P Require Import ConstantFold.
From S2P Require Import ConstantFoldFacts.
From S2P Require Import ConstantFoldExpr.
From S2P Require Import ExprMem.
From S2P Require Import ExprTree.
From S2P Require Import ExprTreeFacts.
From S2P Require Import ExprMemFacts.
From S2P Require Import ConstantFoldTree.
From S2P Require Import ConstantFoldPair.
From S2P Require Import ConstantFoldUnary.
From stdpp Require Import gmap.
#[local] Open Scope Z_scope.

Section Extract.
Context `{HT : Target}.
Context (typeTable : list (option MIRType)).
Context (Htt : TypeTable_init `prefix_of` typeTable).
Context (leaf : nat -> Z).
Implicit Types (st : Mem) (t : PrimType) (n a b : BaseNode) (F G : gset nat) (X : feature -> Prop).

#[local] Abbreviation grow := (grow typeTable).
#[local] Abbreviation change := (change typeTable).
#[local] Abbreviation mem_ok := (mem_ok typeTable).
#[local] Abbreviation value := (value leaf).
#[local] Abbreviation outcome := (outcome leaf).
#[local] Abbreviation fold_spec := (fold_spec typeTable leaf).
#[local] Abbreviation folded := (folded typeTable leaf).

Lemma value_extract st op t o s a :
  value st (ExtractbitsNode op t o s a) = in_type t (extract_value op t o s (value st a)).
Proof. done. Qed.

Lemma is_extract_spec op : is_extract op = true <-> is_extract_op op.
Proof.
  unfold is_extract, one_of, is_extract_op. cbn [existsb]. rewrite !orb_true_iff, !op_eqb_spec. intuition congruence.
Qed.

(** ** Constants *)

Lemma FoldSignExtend_constval_spec st p op t t' k s G :
  mem_ok st -> small_int t -> own st p (ConstvalNode t' k) G -> 1 <= s <= 64 ->
  wpm (FoldSignExtend_constval typeTable op t s k) st
    (is_new_const typeTable leaf st t (norm s (op_eqb op OP_sext) (value st (ConstvalNode t' k)))).
Proof using Htt.
  intros Hok Ht Hn Hs. destruct (own_const_inv leaf _ _ _ _ _ Hn) as (_ & Ht' & v & Hk & Ev).
  pose proof Hk as (c & Hc & _). destruct (const_small_val _ _ _ _ _ Ht' Hk Hc) as (Hsv & Ei & _).
  unfold FoldSignExtend_constval. eapply wpm_bind, wpm_get_const; [exact Hc|].
  apply wpm_bind, wpm_in_table. rewrite Ev, <- Ei.
  eapply wp_mono; [by apply (sign_extend_folds typeTable Htt)|].
  intros [s1 k1] (Hs1 & He1 & Hk1). cbn [fst snd] in *.
  pose proof Hk1 as (c1 & Hc1 & Ety & _). eapply wpm_bind, wpm_get_const; [exact Hc1|]. rewrite Ety.
  by apply (new_const_node typeTable leaf st s1 t k1).
Qed.

(** ** Extractions that repeat an extraction *)

(** The same bits are extracted twice. *)
Lemma extract_twice op t op' t' s v :
  1 <= s <= type_width t' ->
  extract_value op t 0 s (in_type t' (extract_value op' t' 0 s v)) = extract_value op t 0 s v.
Proof.
  intros Hs. unfold extract_value. apply norm_congr. rewrite !Z.div_1_r. unfold in_type.
  by rewrite !wrap_norm_le by lia.
Qed.

Definition extract_node st r op t o s e m Gm : Prop :=
  cells st !! r = Some (ExtractbitsCell op t o s e) /\ own st e m Gm /\ (r ∉ Gm) /\ fits t m.

Lemma extract_node_own st r op t o s e m Gm :
  extract_node st r op t o s e m Gm -> is_extract_op op -> arith t -> 0 <= o -> 1 <= s ->
  o + s <= type_width t -> (op <> OP_extractbits -> o = 0) ->
  own st r (ExtractbitsNode op t o s m) ({[r]} ∪ Gm).
Proof.
  intros (Hr & Hm & Hn & Hf) Hop Ht Ho Hs Hw Hz. split; [exists e, Gm; split_and?; try done; apply Hm|].
  split_and!; try done. apply Hm.
Qed.

Lemma delete_redundant_spec st r op t o s e m Gm :
  mem_ok st -> extract_node st r op t o s e m Gm -> (o = 0 \/ ~ has FExtract m) -> 1 <= s ->
  wpm (delete_redundant r o s) st (fun st' _ =>
    change {[r]} st st' /\ exists e' m' Gm', extract_node st' r op t o s e' m' Gm' /\ Gm' ⊆ Gm /\
      extract_value op t o s (value st' m') = extract_value op t o s (value st m) /\
      forall x, has x m' -> has x m).
Proof.
  intros Hok Hr Hext Hs1. pose proof Hr as (Hrc & Hm & Hrn & Hf).
  assert (change {[r]} st st /\ exists e' m' Gm', extract_node st r op t o s e' m' Gm' /\ Gm' ⊆ Gm /\
    extract_value op t o s (value st m') = extract_value op t o s (value st m) /\
    forall x, has x m' -> has x m) as Hsame.
  { split; [by apply grow_change, grow_refl|]. by exists e, m, Gm. }
  unfold delete_redundant. eapply wpm_bind, wpm_opnd; [exact Hrc|reflexivity|].
  destruct (own_cell _ _ _ _ Hm) as (oc & Hoc & Eop & _). eapply wpm_bind, wpm_get; [exact Hoc|].
  destruct oc as [| | |oop ot oo os inner| | |]; try exact Hsame.
  destruct (is_extract oop && (o =? oo) && (s =? os)) eqn:E; [|exact Hsame].
  apply andb_true_iff in E as [E E3]. apply andb_true_iff in E as [E1 E2].
  apply Z.eqb_eq in E2 as <-, E3 as <-. apply is_extract_spec in E1.
  destruct (own_extract_cell _ _ _ _ _ _ _ _ _ Hm Hoc) as (a & G & -> & Ha & HG & HGn).
  pose proof Hm as [_ (_ & Hot & Hfa & _ & _ & Hos & Hoz & _)].
  assert (o = 0) as ->.
  { destruct Hext as [|Hext]; [done|]. apply Hoz. intros ->. apply Hext. left. by left. }
  assert (type_width ot = type_width t) as Ew by (destruct Hf as [|Eu]; [done|by destruct Hot]).
  eapply wpm_modify; [exact Hrc|]. cbn [set_Opnd0].
  assert (change {[r]} st (MkMem (<[r:=ExtractbitsCell op t 0 s inner]> (cells st)) (constants st))) as Hch.
  { by apply change_cell. }
  split; [done|]. exists inner, a, G. split_and?.
  - split; [cbn; apply list_lookup_insert_eq; by eapply lookup_lt_Some|].
    split; [eapply own_change; [exact Ha|exact Hch|]|split; [|by eapply fits_congr]].
    + apply disjoint_singleton_r. contradict Hrn. rewrite HG. by apply elem_of_union_r.
    + contradict Hrn. rewrite HG. by apply elem_of_union_r.
  - rewrite HG. apply union_subseteq_r.
  - rewrite (value_change typeTable leaf _ _ _ a (proj2 Ha) Hch).
    rewrite value_extract. by rewrite extract_twice by lia.
  - intros x Hx. by right.
Qed.
(** ** Extractions that repeat a read *)

(** The MIR type of what a leaf reads, and its size in bytes *)
Context (accessed : nat -> option (PrimType * Z)).
(** What is read is a value of that many bits. *)
Definition accessed_ok : Prop := forall i mt size,
  accessed i = Some (mt, size) -> IsPrimitiveInteger mt = true ->
  norm (size * 8) (IsSignedInteger mt) (leaf i) = leaf i.
Context (Hacc : accessed_ok).

(** Reading a small value again changes nothing. *)
Lemma extract_small op t s v :
  1 <= s -> min_of s (extract_signed op t) <= v <= max_of s (extract_signed op t) ->
  extract_value op t 0 s v = v.
Proof. intros Hs Hv. unfold extract_value. rewrite Z.div_1_r. by apply norm_small; [lia|]. Qed.

Lemma extract_bool op t s v : 2 <= s -> 0 <= v <= 1 -> extract_value op t 0 s v = v.
Proof.
  intros Hs Hv. apply extract_small; [lia|]. unfold min_of, max_of.
  pose proof (Z.pow_le_mono_r 2 1 (s - 1)). pose proof (Z.pow_le_mono_r 2 1 s).
  destruct (extract_signed op t); lia.
Qed.

Lemma leaf_redundant op t s lt i :
  small_int lt -> type_width lt = type_width t \/ lt = PTY_u1 -> 8 <= s <= type_width t ->
  norm s (extract_signed op t) (leaf i) = leaf i ->
  wrap (type_width t) (extract_value op t 0 s (in_type lt (leaf i))) = wrap (type_width t) (in_type lt (leaf i)).
Proof.
  intros Hlt Hf Hs E. destruct Hf as [Ew| ->].
  - unfold extract_value. rewrite Z.div_1_r. rewrite <- !Ew in *.
    rewrite (norm_congr s _ _ (leaf i)) by (unfold in_type; by rewrite wrap_norm_le by lia).
    by rewrite E, wrap_in_type.
  - rewrite extract_bool; [done|lia|]. pose proof (in_type_range PTY_u1 (leaf i) u1_small) as H.
    change (0 <= in_type PTY_u1 (leaf i) < 2 ^ 1) in H. lia.
Qed.

Lemma zext_redundant t os op v :
  arith t -> 1 <= os <= type_width t -> IsSignedInteger t = false ->
  forall o s, os < s -> op = OP_zext ->
  extract_value op t 0 s (in_type t (extract_value OP_extractbits t o os v))
  = in_type t (extract_value OP_extractbits t o os v).
Proof.
  intros Ht Hos Hsg o s Hs ->. apply extract_small; [lia|]. unfold extract_value, extract_signed, in_type.
  rewrite Hsg. cbn [norm]. pose proof (wrap_range os (v / 2 ^ o) ltac:(lia)) as Hr.
  pose proof (Z.pow_lt_mono_r 2 os s). pose proof (Z.pow_le_mono_r 2 os (type_width t)).
  unfold norm. rewrite (wrap_small (type_width t)) by lia. unfold min_of, max_of. lia.
Qed.

Lemma unsigned_not_signed t : IsUnsignedInteger t = true -> IsSignedInteger t = false.
Proof. by destruct t. Qed.

Lemma ExtractbitsRedundant_spec st r op t s e m Gm :
  extract_node st r op t 0 s e m Gm -> arith t -> 8 <= s <= type_width t ->
  extract_signed op t = IsSignedInteger t ->
  wpm (ExtractbitsRedundant accessed r) st (fun st' (b : bool) => st' = st /\
    (b = true -> wrap (type_width t) (extract_value op t 0 s (value st m)) = wrap (type_width t) (value st m))).
Proof using Hacc.
  intros (Hr & Hm & _ & Hf) Ht Hs Hsign. unfold ExtractbitsRedundant. eapply wpm_bind, wpm_get; [exact Hr|].
  cbn iota. destruct (_ =? 8); [by apply wpm_ret|].
  destruct (own_cell _ _ _ _ Hm) as (oc & Hoc & _). eapply wpm_bind, wpm_get; [exact Hoc|].
  destruct oc as [| | |oop ot oo os inner| | |lop lt i]; try by apply wpm_ret.
  - assert (oop = OP_extractbits ->
      wpm (mret ((os <? s) && op_eqb op OP_zext && pty_eqb t ot && IsUnsignedInteger ot)) st (fun st' (b : bool) => st' = st /\
        (b = true -> wrap (type_width t) (extract_value op t 0 s (value st m)) = wrap (type_width t) (value st m)))) as Hx.
    { intros ->. apply wpm_ret. split; [done|]. intros E. apply andb_true_iff in E as [E E4].
      apply andb_true_iff in E as [E E3]. apply andb_true_iff in E as [E1 E2].
      apply Z.ltb_lt in E1. apply op_eqb_spec in E2. apply pty_eqb_true in E3 as <-.
      destruct (own_extract_cell _ _ _ _ _ _ _ _ _ Hm Hoc) as (a & G & -> & _).
      pose proof Hm as [_ (_ & _ & _ & Ho & Hos & Hw & _)]. rewrite value_extract. f_equal.
      apply zext_redundant; try done; [lia|]. by apply unsigned_not_signed. }
    destruct oop; (by apply wpm_ret) || (by apply Hx).
  - assert (wpm (match accessed i with
        | None => mret false
        | Some (mt, msize) => mret (IsPrimitiveInteger mt && (msize * 8 =? s) && pty_eqb mt t)
        end) st (fun st' (b : bool) => st' = st /\
        (b = true -> wrap (type_width t) (extract_value op t 0 s (value st m)) = wrap (type_width t) (value st m)))) as Hx.
    { destruct (accessed i) as [[mt msize]|] eqn:Ea; [|by apply wpm_ret]. apply wpm_ret. split; [done|].
      intros E. apply andb_true_iff in E as [E E3]. apply andb_true_iff in E as [E1 E2].
      apply Z.eqb_eq in E2 as <-. apply pty_eqb_true in E3 as ->.
      pose proof (own_leaf _ _ _ _ _ _ _ Hm Hoc) as ->. pose proof Hm as [_ [Hlt _]].
      apply leaf_redundant; try done. rewrite Hsign. by apply Hacc. }
    destruct lop; (by apply wpm_ret) || exact Hx.
Qed.

(** ** The fold *)

(** A node that extracts from [m], the root of what FoldExtractbits leaves *)
Definition extract_root st p G op t o s st' r m : Prop :=
  change ({[p]} ∪ G) st st' /\ mem_ok st' /\
  (exists c, cells st' !! p = Some c /\ GetOpCode c = op /\ GetPrimType c = t) /\
  exists e Gm, extract_node st' r op t o s e m Gm /\ within (size_of st) ({[r]} ∪ Gm) ({[p]} ∪ G).

Lemma extract_rebuild st st2 p q a G op t o s e m Gm (R : Mem -> nat -> Prop) :
  own st q a G -> (p ∉ G) -> change G st st2 ->
  operand_expr leaf st st2 p (ExtractbitsCell op t o s q) a G t e m Gm ->
  (forall st3 r, extract_root st p G op t o s st3 r m -> value st3 m = value st2 m -> R st3 r) ->
  wpm (if negb (e =? q)%nat then New (ExtractbitsCell op t o s e) else mret p) st2 R.
Proof.
  intros Ha HpG Hch (Hm & HGm & Hc2 & Hpm & Hfm & Evm & HXm) HR.
  assert (mem_ok st2) as Hok2 by by eapply change_ok.
  assert (change ({[p]} ∪ G) st st2) as Hch' by (eapply change_sub; [apply union_subseteq_r|exact Hch]).
  destruct (Nat.eqb_spec e q) as [->|_]; cbn [negb].
  - apply wpm_ret, HR; [|done]. split; [done|]. split; [done|]. split; [by eexists|]. exists q, Gm.
    split; [done|]. apply within_union; [apply within_subset, union_subseteq_l|].
    eapply within_sub; [apply union_subseteq_r|exact HGm].
  - apply wpm_new. pose proof (grow_new typeTable st2 (ExtractbitsCell op t o s e) Hok2) as Hg.
    apply HR; [|by eapply value_grow; [apply Hm|exact Hg]].
    split; [by eapply change_grow|]. split; [done|]. split; [eexists; split; [by eapply cell_grow|done]|].
    exists e, Gm. split.
    + split; [apply new_cell|]. split; [by eapply own_grow|]. split; [by eapply fresh_root|done].
    + apply within_union; [apply within_fresh; by eapply change_size|].
      eapply within_sub; [apply union_subseteq_r|exact HGm].
Qed.

Lemma extract_delete st st3 p G op t o s r m :
  extract_root st p G op t o s st3 r m -> (o = 0 \/ ~ has FExtract m) -> 1 <= s ->
  wpm (delete_redundant r o s) st3 (fun st4 _ => exists m',
    extract_root st p G op t o s st4 r m' /\
    extract_value op t o s (value st4 m') = extract_value op t o s (value st3 m) /\
    forall x, has x m' -> has x m).
Proof.
  intros (Hch & Hok & Hroot & e & Gm & Hr & HGm) Hext Hs.
  eapply wpm_mono; [by eapply delete_redundant_spec|].
  intros st4 _ (Hch4 & e' & m' & Gm' & Hr' & HGm' & Ev & HX). exists m'. split; [|done].
  split; [|split; [by eapply change_ok|split]].
  - eapply change_trans; [exact Hch|exact Hch4|]. intros z Hz. apply HGm. by apply elem_of_union_l.
  - destruct (decide (p = r)) as [->|Hne]; [eexists; split; [apply Hr'|done]|].
    destruct Hroot as (c & Hc & Hc'). exists c. split; [|done].
    eapply cell_kept; [exact Hch4|exact Hc|]. by intros ->%elem_of_singleton.
  - exists e', Gm'. split; [done|]. intros z Hz. apply HGm. set_solver.
Qed.

Lemma FoldExtractbits_spec fold st p op t o s a F :
  mem_ok st -> own st p (ExtractbitsNode op t o s a) F -> fold_spec fold a ->
  (o = 0 \/ ~ has FExtract a) -> extract_signed op t = IsSignedInteger t ->
  wpm (FoldExtractbits typeTable accessed fold p) st (folded st p F (ExtractbitsNode op t o s a)).
Proof using Htt Hacc.
  intros Hok Hn Hfold Hext Hsign. pose proof Hn as [_ (Hop & Har & Hfa & Ho & Hs & Hos & Hoz & _)].
  pose proof (arith_small t Har) as Ht. pose proof (small_width t Ht) as Hw.
  destruct (own_extract _ _ _ _ _ _ _ _ Hn) as (q & G & Hc & Ha & HpG & ->).
  unfold FoldExtractbits. eapply wpm_bind, wpm_get; [exact Hc|]. cbn iota. apply wpm_bind.
  eapply wpm_mono; [by apply Hfold|]. intros st1 r Hr.
  pose proof Hr as (_ & _ & (ac & Hac & _ & Eac) & _).
  pose proof (operand_intro typeTable leaf _ _ _ _ _ _ _ t _ Ha Hc HpG Ht Hfa Hr) as Hopd.
  pose proof Hopd as (Hok1 & Hc1 & Hch & Hcalm & (n & Gn & Hon & HGn & Hfn & Evn & _ & Hcn & HX) & _).
  assert (forall x, op_has x op t \/ allowed a x -> allowed (ExtractbitsNode op t o s a) x) as Hallow.
  { intros x [Hx|Hx]; destruct x; cbn [allowed has] in *; tauto. }
  destruct (own_cell _ _ _ _ Hon) as (pc & Hpc & _). eapply wpm_bind, wpm_get; [exact Hpc|].
  assert (wpm (
      t0 ← type_of_node q; e ← PairToExpr typeTable t0 r;
      result ← (if negb (e =? q)%nat then New (ExtractbitsCell op t o s e) else mret p);
      _ ← delete_redundant result o s;
      red ← (if (o =? 0) && (8 <=? s) && IsPowerOf2_u64 s
             then ExtractbitsRedundant accessed result else mret false);
      (if red : bool then o ← opnd_of_node result 0; mret (o, None) else mret (result, None)))
    st1 (folded st p ({[p]} ∪ G) (ExtractbitsNode op t o s a))) as Htail.
  { eapply wpm_bind, wpm_type; [exact Hac|]. rewrite Eac. apply wpm_bind.
    eapply wpm_mono; [by apply (pair_operand typeTable Htt leaf st st1 p (ExtractbitsCell op t o s q) q a G t)|].
    intros st2 e (Hg & _ & m & Gm & Hexpr & _). apply wpm_bind.
    apply (extract_rebuild st st2 p q a G op t o s e m Gm); [done|done|by eapply change_grow|done|].
    intros st3 res Hroot Ev3. apply wpm_bind.
    pose proof Hexpr as (_ & _ & _ & _ & _ & Evm & HXm).
    eapply wpm_mono; [apply (extract_delete _ _ _ _ _ _ _ _ _ m Hroot); [|done]|].
    { destruct Hext as [|Hext]; [by left|right]. intros H. apply Hext. exact (HXm FExtract H). }
    intros st4 _ (m' & (Hch4 & Hok4 & Hkept & e' & Gm' & Hnode & HGm') & Ev4 & HX4).
    rewrite Ev3 in Ev4. rewrite (extract_value_congr t Ht op o s _ _ Ho Hs Hos Evm) in Ev4.
    assert (forall r5 m5 G5, own st4 r5 m5 G5 -> within (size_of st) G5 ({[p]} ∪ G) -> fits t m5 ->
      wrap (type_width t) (value st4 m5) = wrap (type_width t) (extract_value op t o s (value st4 m')) ->
      (forall x, has x m5 -> op_has x op t \/ has x m') ->
      folded st p ({[p]} ∪ G) (ExtractbitsNode op t o s a) st4 (r5, None)) as Hend.
    { intros r5 m5 G5 H5 HG5 Hf5 Ev5 HX5. split; [done|]. split; [done|]. split; [done|]. split; [done|].
      exists m5, G5. split_and?; try done.
      - cbn [snd opt_value node_ptyp]. by rewrite Z.add_0_r, value_extract, wrap_in_type, Ev5, Ev4.
      - intros x Hx. apply Hallow. destruct (HX5 x Hx); [by left|right]. by apply HXm, HX4. }
    apply wpm_bind. apply (wpm_mono _ _ (fun st5 (b : bool) => st5 = st4 /\ (b = true -> o = 0 /\
      wrap (type_width t) (extract_value op t 0 s (value st4 m')) = wrap (type_width t) (value st4 m')))).
    { destruct (Z.eqb_spec o 0) as [->|], (Z.leb_spec 8 s); cbn [andb]; try by apply wpm_ret.
      destruct (IsPowerOf2_u64 s); [|by apply wpm_ret].
      eapply wpm_mono; [apply (ExtractbitsRedundant_spec st4 res op t s e' m' Gm'); [done|done|lia|done]|]. intros st5 b [-> Hb]. split; [done|].
      intros E. split; [done|by apply Hb]. }
    intros st5 red [-> Hred]. destruct red.
    - destruct (Hred eq_refl) as [-> Ered]. eapply wpm_bind, wpm_opnd; [apply Hnode|reflexivity|]. apply wpm_ret.
      apply (Hend e' m' Gm'); try apply Hnode; [|done|by right].
      intros z Hz. apply HGm'. by apply elem_of_union_r.
    - apply wpm_ret. apply (Hend res (ExtractbitsNode op t o s m') ({[res]} ∪ Gm')); [|done|by left| |].
      + by eapply extract_node_own.
      + by rewrite value_extract, wrap_in_type.
      + done. }
  destruct (constval_of pc) as [k|] eqn:Ek; [|exact Htail].
  destruct (own_constval _ _ _ _ _ _ Hon Hpc Ek) as [t' ->].
  destruct (one_of [OP_sext; OP_zext] op) eqn:Eop; [|exact Htail]. apply wpm_bind.
  eapply wpm_mono; [eapply FoldSignExtend_constval_spec; [done|done|done|lia]|].
  intros st2 z Hnew. apply wpm_ret. rewrite (Hcn I) in Evn. cbn [opt_value] in Evn. rewrite Z.add_0_r in Evn.
  apply (folded_intro typeTable leaf st st1 st2 p _ _ G _ _ Hn Hc HpG);
    [apply union_subseteq_r|exact Hch|intros []|apply Hnew|by intros []|].
  eapply new_const_outcome; [exact Hnew|by eapply change_size|exact Ht|by left| |].
  - cbn [node_ptyp]. rewrite wrap_in_type, value_extract, wrap_in_type by done. f_equal.
    rewrite <- (extract_value_congr t Ht op o s _ _ Ho Hs Hos Evn).
    unfold one_of in Eop. cbn [existsb] in Eop. rewrite orb_false_r in Eop.
    apply orb_true_iff in Eop as [E|E]; apply op_eqb_spec in E as ->; rewrite Hoz by done;
      unfold extract_value; by rewrite Z.div_1_r.
  - intros x Hx. apply Hallow. by left; apply op_has_type.
Qed.
End Extract.
