(* ===== verification/ConstantFoldValues.v ===== *)
(** * Operators at constants

    The values of the binary operators when one operand is 0, 1, -1 or a mask
    of low bits, modulo the width of the type. *)
From S2P Require Import Prelude.
From S2P Require Import PrimTypes.
From S2P Require Import Opcodes.
From S2P Require Import IntVal.
From S2P Require Import IntValSpec.
From S2P Require Import IntValTyped.
From S2P Require Import IntConstFacts.
From S2P Require Import ConstantFoldFacts.
From S2P Require Import ConstantFoldExpr.
From S2P Require Import ExprTree.
From S2P Require Import ExprTreeFacts.
#[local] Open Scope Z_scope.

Section Values.
Context `{HT : Target}.
Context (t : PrimType) (Ht : small_int t).
#[local] Abbreviation w := (type_width t).
#[local] Abbreviation bin op x y c := (default 0 (bin_value op t x y c)).

Lemma in_type_0 : in_type t 0 = 0.
Proof using Ht. by apply in_type_bool. Qed.
Lemma in_type_1 : in_type t 1 = 1.
Proof using Ht. by apply in_type_bool. Qed.

Lemma swrap_0 : swrap w 0 = 0.
Proof using Ht.
  pose proof (small_width t Ht). apply swrap_small; [lia|]. pose proof (pow2_pos (w - 1)). lia.
Qed.

Lemma bin_zero_left op y c :
  In op [OP_mul; OP_div; OP_rem; OP_ashr; OP_lshr; OP_shl; OP_band; OP_cand; OP_land] -> bin op 0 y c = 0.
Proof using Ht.
  intros Hop. cbn [In] in Hop. destruct_or! Hop; subst op; cbn [bin_value default]; cbn;
    rewrite ?in_type_0, ?swrap_0; done.
Qed.

Lemma bin_zero_right op x c : In op [OP_mul; OP_band; OP_cand; OP_land] -> bin op x 0 c = 0.
Proof using Type.
  intros Hop. cbn [In] in Hop. destruct_or! Hop; subst op; cbn [bin_value default]; cbn;
    rewrite ?Z.mul_0_r, ?Z.land_0_r, ?andb_false_r; done.
Qed.

Lemma bin_neutral_zero op x :
  In op [OP_ashr; OP_lshr; OP_shl; OP_bior; OP_bxor] -> wrap w (bin op x 0 0) = wrap w x.
Proof using Ht.
  pose proof (small_width t Ht). intros Hop. cbn [In] in Hop. destruct_or! Hop; subst op;
    cbn [bin_value default]; rewrite ?Z.mod_0_l by lia; cbn;
    rewrite ?Z.div_1_r, ?Z.mul_1_r, ?Z.lor_0_r, ?Z.lxor_0_r; try done.
  - by apply swrap_congr; lia.
  - by apply wrap_wrap; lia.
Qed.

Lemma bin_neutral_one op x c : In op [OP_mul; OP_div] -> wrap w (bin op x 1 c) = wrap w x.
Proof using Ht.
  intros Hop. cbn [In] in Hop. destruct_or! Hop; subst op; cbn [bin_value default]; cbn.
  - by rewrite Z.mul_1_r.
  - rewrite in_type_1, Z.quot_1_r. by apply wrap_in_type.
Qed.

Lemma bin_rem_one x c : bin OP_rem x 1 c = 0.
Proof using Ht. cbn [bin_value default]. cbn. by rewrite in_type_1, Z.rem_1_r. Qed.

Lemma wrap_lor_ones v y : wrap w v = wrap w (-1) -> wrap w (Z.lor v y) = wrap w (-1).
Proof using Ht.
  intros E. transitivity (wrap w (Z.lor (-1) y)); [|by rewrite Z.lor_m1_l].
  by apply (wrap_bitwise t Ht Z.lor orb); [apply Z.lor_spec|..].
Qed.

Lemma wrap_land_ones v y : wrap w v = wrap w (-1) -> wrap w (Z.land y v) = wrap w y.
Proof using Ht.
  intros E. transitivity (wrap w (Z.land y (-1))); [|by rewrite Z.land_m1_r].
  by apply (wrap_bitwise t Ht Z.land andb); [apply Z.land_spec|..].
Qed.
End Values.
