(* ===== verification/ConstantFoldOperands.v ===== *)
(** * Folded operands of a binary node

    What the fold of a binary node starts from: two trees that stand for its
    operands, and the operator applied to them; and the fold of two constants
    with the test that a division is safe. *)
From S2P Require Import Prelude.
From S2P Require Import PrimTypes.
From S2P Require Import Opcodes.
From S2P Require Import IntWords.
From S2P Require Import IntVal.
From S2P Require Import IntValFacts.
From S2P Require Import IntValArith.
From S2P Require Import IntValOrder.
From S2P Require Import IntValCount.
From S2P Require Import IntValDiv.
From S2P Require Import IntValSpec.
From S2P Require Import IntValTyped.
From S2P Require Import IntConst.
From S2P Require Import IntConstFacts.
From S2P Require Import ConstantFold.
From S2P Require Import ConstantFoldFacts.
From S2P Require Import ConstantFoldExpr.
From S2P Require Import ExprMem.
From S2P Require Import ExprTree.
From S2P Require Import ExprTreeFacts.
From S2P Require Import ExprMemFacts.
From S2P Require Import ConstantFoldTree.
From S2P Require Import ConstantFoldPair.
From S2P Require Import ConstantFoldUnary.
From stdpp Require Import gmap.
#[local] Open Scope Z_scope.

Section Binary.
Context `{HT : Target}.
Context (typeTable : list (option MIRType)).
Context (Htt : TypeTable_init `prefix_of` typeTable).
Context (leaf : nat -> Z).
Implicit Types (st : Mem) (t : PrimType) (n a b : BaseNode) (F G : gset nat) (X : feature -> Prop).

#[local] Abbreviation grow := (grow typeTable).
#[local] Abbreviation change := (change typeTable).
#[local] Abbreviation mem_ok := (mem_ok typeTable).
#[local] Abbreviation value := (value leaf).
#[local] Abbreviation outcome := (outcome leaf).
#[local] Abbreviation fold_spec := (fold_spec typeTable leaf).
#[local] Abbreviation folded := (folded typeTable leaf).


(** ** Trees that stand for an operand *)

(** In [st] the tree [n] has the value that [a] has in [st0]. *)
Definition stands st0 a st n : Prop :=
  wt (objs st) n /\ fits (node_ptyp a) n /\
  wrap (type_width (node_ptyp a)) (value st n) = wrap (type_width (node_ptyp a)) (value st0 a) /\
  (atom a -> node_ptyp n = node_ptyp a /\ value st n = value st0 a).

Lemma stands_bool st0 a st n :
  wt (objs st0) a -> stands st0 a st n -> node_ptyp a = PTY_u1 ->
  node_ptyp n = PTY_u1 /\ value st n = value st0 a.
Proof.
  intros Ha (Hn & Hf & Ev & _) Eu. rewrite Eu in *.
  assert (node_ptyp n = PTY_u1) as En by (eapply fits_u1; done). split; [done|].
  pose proof (u1_range leaf _ _ Hn En). pose proof (u1_range leaf _ _ Ha Eu).
  change (type_width PTY_u1) with 1 in Ev. rewrite !wrap_small in Ev by (unfold ConstantFoldPair.value; lia). done.
Qed.

Lemma stands_value st0 a st n t :
  wt (objs st0) a -> stands st0 a st n -> fits t a ->
  fits t n /\ wrap (type_width t) (value st n) = wrap (type_width t) (value st0 a).
Proof.
  intros Ha Hs Hf. pose proof Hs as (Hn & Hfn & Ev & _). split; [by eapply fits_trans|].
  destruct Hf as [<-|Eu]; [done|]. by destruct (stands_bool _ _ _ _ Ha Hs Eu) as [_ ->].
Qed.

(** The unsigned readings are the same. *)
Lemma stands_uread st0 a st n :
  wt (objs st0) a -> stands st0 a st n -> uread leaf st n = uread leaf st0 a.
Proof.
  intros Ha Hs. pose proof Hs as (Hn & Hfn & Ev & _). unfold uread. destruct Hfn as [->|Eu]; [exact Ev|].
  rewrite <- Ev, Eu. pose proof (u1_range leaf _ _ Hn Eu). pose proof (wt_small _ _ Ha) as Hsm.
  apply small_width in Hsm. pose proof (Z.pow_le_mono_r 2 1 (type_width (node_ptyp a))).
  change (type_width PTY_u1) with 1. rewrite !wrap_small by (unfold ConstantFoldPair.value; lia). done.
Qed.

Definition bin_of st (op : Opcode) t n m : Z :=
  default 0 (bin_value op t (value st n) (value st m) (uread leaf st m)).

Lemma value_bin st op t a b : value st (BinaryNode op t a b) = in_type t (bin_of st op t a b).
Proof. done. Qed.

Lemma binary_value op t x y c : binary_type op t -> exists v, bin_value op t x y c = Some v.
Proof. destruct op; intros []; by eexists. Qed.

Lemma modular_or op t a b :
  binary_foldable op t a b ->
  modular op = true \/ (atom a /\ atom b) \/ (boolean a /\ boolean b).
Proof. destruct op; cbn [binary_foldable modular]; tauto. Qed.

Lemma boolean_u1 objs a : wt objs a -> boolean a -> node_ptyp a = PTY_u1.
Proof.
  destruct a as [| | | | |op t ot a b|]; try done. intros (Ht & _) Hop. cbn [boolean node_ptyp] in *. by destruct op.
Qed.

(** The operands may be in different memories. *)
Lemma bin_value_stands st0 st st' op t a b n m c :
  wt (objs st0) (BinaryNode op t a b) -> binary_foldable op t a b ->
  stands st0 a st n -> stands st0 b st' m ->
  wrap (type_width t) (default 0 (bin_value op t (value st n) (value st' m) c))
  = wrap (type_width t) (default 0 (bin_value op t (value st0 a) (value st0 b) c)).
Proof.
  intros (Hty & Hfa & Hfb & Ha & Hb) Hfold Hn Hm. pose proof (binary_type_small op t Hty) as Ht.
  destruct (stands_value _ _ _ _ t Ha Hn Hfa) as [_ En].
  destruct (modular_or op t a b Hfold) as [Hmod|[[Ata Atb]|[Ba Bb]]].
  - apply (bin_value_congr t Ht); try done. destruct Hfb as [Hfb|Hfb]; [by left|right].
    by apply (stands_value _ _ _ _ t Hb Hm Hfb).
  - destruct Hn as (_ & _ & _ & Hn), Hm as (_ & _ & _ & Hm).
    by rewrite (proj2 (Hn Ata)), (proj2 (Hm Atb)).
  - apply (boolean_u1 _ _ Ha) in Ba. apply (boolean_u1 _ _ Hb) in Bb.
    by rewrite (proj2 (stands_bool _ _ _ _ Ha Hn Ba)), (proj2 (stands_bool _ _ _ _ Hb Hm Bb)).
Qed.

Lemma stands_refl st a : wt (objs st) a -> stands st a st a.
Proof. intros Ha. split; [done|]. split; [by left|]. done. Qed.

Lemma bin_stands st0 st op t a b n m :
  wt (objs st0) (BinaryNode op t a b) -> binary_foldable op t a b ->
  stands st0 a st n -> stands st0 b st m ->
  wt (objs st) (BinaryNode op t n m) /\
  wrap (type_width t) (bin_of st op t n m) = wrap (type_width t) (bin_of st0 op t a b).
Proof.
  intros Hw Hfold Hn Hm. pose proof Hw as (Hty & Hfa & Hfb & Ha & Hb).
  destruct (stands_value _ _ _ _ t Ha Hn Hfa) as [Hfn _]. split.
  - split; [done|]. split; [done|]. split; [|split; [apply Hn|apply Hm]].
    destruct Hfb as [Hfb|Hfb]; [by left|right]. by apply (stands_value _ _ _ _ t Hb Hm Hfb).
  - unfold bin_of. rewrite (stands_uread _ _ _ _ Hb Hm). by apply (bin_value_stands st0 st st).
Qed.

(** ** Division *)

Lemma IsDivSafe_spec c0 c1 t :
  small_val (GetValue c0) -> small_val (GetValue c1) ->
  exists safe, IsDivSafe c0 c1 t = Ret safe /\ (safe = true ->
    ival (GetValue c1) <> 0 /\
    (IsUnsignedInteger t = false ->
       ival (GetValue c0) = min_of (width (GetValue c0)) (sign (GetValue c0)) ->
       uval (GetValue c1) <> 2 ^ width (GetValue c1) - 1)).
Proof.
  intros H0 H1. unfold IsDivSafe. rewrite op_eq_int64_0 by done. cbn [mbind res_bind].
  rewrite IsMinValue_eq by apply H0. rewrite AreAllBitsOne_eq by apply H1. cbn [mbind res_bind].
  destruct (Z.eqb_spec (ival (GetValue c1)) 0) as [E|E], (IsUnsignedInteger t);
    try (eexists; split; [reflexivity|]; done).
  destruct (Z.eqb_spec (ival (GetValue c0)) (min_of (width (GetValue c0)) (sign (GetValue c0))));
    cbn [mbind res_bind]; (eexists; split; [reflexivity|]); [|done].
  intros Hn. apply negb_true_iff, Z.eqb_neq in Hn. done.
Qed.

Lemma signed_or_unsigned t : small_int t -> IsUnsignedInteger t = false -> IsSignedInteger t = true.
Proof. intros [Ht _]. by destruct t. Qed.

(** The value of a constant in the type of the operation *)
Lemma const_in_type t t' v :
  small_int t -> small_int t' -> type_width t' = type_width t \/ t' = PTY_u1 ->
  in_type t' v = v -> t' = PTY_u1 /\ 0 <= v <= 1 /\ in_type t v = v \/
    type_width t' = type_width t /\ (IsSignedInteger t = IsSignedInteger t' -> in_type t v = v).
Proof.
  intros Ht Ht' Hf Ev. destruct Hf as [Ew| ->]; [right|left].
  - split; [done|]. intros Es. rewrite <- Ev at 2. unfold in_type. by rewrite Ew, Es.
  - assert (0 <= v <= 1).
    { rewrite <- Ev. pose proof (in_type_range PTY_u1 v u1_small) as H. cbn [IsSignedInteger] in H.
      change (0 <= in_type PTY_u1 v < 2 ^ 1) in H. lia. }
    split; [done|]. split; [done|]. by apply in_type_bool.
Qed.

Lemma div_safe_ok t t1 t2 x y :
  arith t -> small_int t1 -> small_int t2 ->
  type_width t1 = type_width t \/ t1 = PTY_u1 -> type_width t2 = type_width t \/ t2 = PTY_u1 ->
  in_type t1 x = x -> in_type t2 y = y -> IsUnsignedInteger t = true \/ ~ unsigned_type t1 -> y <> 0 ->
  (IsUnsignedInteger t = false -> x = min_of (type_width t1) (IsSignedInteger t1) ->
     wrap (type_width t2) y <> 2 ^ type_width t2 - 1) ->
  div_ok_in t x y.
Proof.
  intros Har Ht1 Ht2 Hf1 Hf2 Ex Ey Hun Hy Hsafe. pose proof (arith_small t Har) as Ht.
  pose proof (small_width t Ht) as Hw.
  pose proof (const_in_type t t1 x Ht Ht1 Hf1 Ex) as Cx. pose proof (const_in_type t t2 y Ht Ht2 Hf2 Ey) as Cy. split.
  - intros E. destruct Cy as [(_ & _ & E')|[Ew _]]; [congruence|]. apply Hy.
    rewrite <- Ey. replace 0 with (in_type t2 0) by (by apply in_type_bool). apply in_type_congr. rewrite Ew.
    rewrite <- (wrap_in_type t y Ht), E. done.
  - intros (Hs & Emin & Eone). assert (IsUnsignedInteger t = false) as Hu by (by destruct t).
    assert (min_of (type_width t) true < 0) as Hneg by (unfold min_of; pose proof (pow2_pos (type_width t - 1)); lia).
    destruct Cx as [(_ & Hx & E)|[Ew1 Es1]]; [lia|]. destruct Cy as [(_ & Hy' & E)|[Ew2 _]]; [lia|].
    assert (t1 <> PTY_u1) as Hne.
    { intros ->. change (type_width PTY_u1) with 1 in Ew1. pose proof (arith_width t Har). lia. }
    assert (IsSignedInteger t1 = true) as Hs1.
    { apply signed_or_unsigned; [done|]. destruct (IsUnsignedInteger t1) eqn:E; [|done].
      destruct Hun as [Hun|Hun]; [congruence|]. by destruct Hun. }
    apply (Hsafe Hu); [rewrite Hs1, Ew1, <- Emin; symmetry; apply Es1; congruence|].
    rewrite Ew2, <- (wrap_in_type t y Ht), Eone. apply (wrap_unique _ _ _ (-1)); pose proof (pow2_pos (type_width t)); lia.
Qed.

(** The pairs of constants that cannot be divided are found out, but for an
    overflow whose dividend is a constant of an unsigned type. *)
Lemma overflow_values t t1 t2 x y :
  arith t -> small_int t1 -> small_int t2 ->
  type_width t1 = type_width t \/ t1 = PTY_u1 -> type_width t2 = type_width t \/ t2 = PTY_u1 ->
  in_type t1 x = x -> in_type t2 y = y ->
  IsSignedInteger t = true -> in_type t x = min_of (type_width t) true -> in_type t y = -1 ->
  x = (if IsUnsignedInteger t1 then 2 ^ (type_width t1 - 1) else min_of (type_width t1) (IsSignedInteger t1)) /\
  wrap (type_width t2) y = 2 ^ type_width t2 - 1.
Proof.
  intros Har Ht1 Ht2 Hf1 Hf2 Ex Ey Hs Emin Eone. pose proof (arith_small t Har) as Ht.
  pose proof (arith_width t Har) as Hw. pose proof (pow2_half (type_width t)) as Hhalf.
  pose proof (pow2_pos (type_width t - 1)) as Hpos. unfold min_of in *.
  pose proof (const_in_type t t1 x Ht Ht1 Hf1 Ex) as Cx. pose proof (const_in_type t t2 y Ht Ht2 Hf2 Ey) as Cy.
  destruct Cx as [(_ & Hx & E)|[Ew1 Es1]]; [lia|]. destruct Cy as [(_ & Hy' & E)|[Ew2 _]]; [lia|]. split.
  - rewrite integer_signedness by apply Ht1. rewrite Ew1. destruct (IsSignedInteger t1) eqn:Es; cbn [negb].
    + rewrite <- Es1 by congruence. exact Emin.
    + pose proof (in_type_range t1 x Ht1) as Hr. rewrite Es, Ex, Ew1 in Hr.
      pose proof (wrap_in_type t x Ht) as E. rewrite Emin, (wrap_small _ x) in E by lia. rewrite <- E.
      apply (wrap_unique _ _ _ (-1)); lia.
  - rewrite Ew2, <- (wrap_in_type t y Ht), Eone. apply (wrap_unique _ _ _ (-1)); lia.
Qed.

Lemma IsDivSafe_trap c0 c1 t t1 t2 :
  arith t -> small_val (GetValue c0) -> small_val (GetValue c1) ->
  has_type t1 (GetValue c0) -> has_type t2 (GetValue c1) -> small_int t1 -> small_int t2 ->
  type_width t1 = type_width t \/ t1 = PTY_u1 -> type_width t2 = type_width t \/ t2 = PTY_u1 ->
  in_type t1 (ival (GetValue c0)) = ival (GetValue c0) -> in_type t2 (ival (GetValue c1)) = ival (GetValue c1) ->
  ~ div_ok_in t (ival (GetValue c0)) (ival (GetValue c1)) ->
  IsDivSafe c0 c1 t = Ret (negb (in_type t (ival (GetValue c1)) =? 0) && IsUnsignedInteger t1).
Proof.
  intros Har H0 H1 [W0 Z0] [W1 Z1] Ht1 Ht2 Hf1 Hf2 E0 E1 Hno. pose proof (arith_small t Har) as Ht.
  unfold IsDivSafe. rewrite op_eq_int64_0 by done. cbn [mbind res_bind].
  rewrite IsMinValue_eq by apply H0. rewrite AreAllBitsOne_eq by apply H1. cbn [mbind res_bind].
  rewrite <- (wrap_ival _ (proj1 H1)), W0, Z0, W1. set (x := ival (GetValue c0)) in *. set (y := ival (GetValue c1)) in *.
  destruct (Z.eqb_spec y 0) as [->|Hy].
  { rewrite (in_type_bool t 0) by (done || lia). by destruct (IsUnsignedInteger t). }
  assert (in_type t y <> 0) as Hy'.
  { intros E. apply Hy. rewrite <- E1. rewrite <- (in_type_bool t2 0) by (done || lia). apply in_type_congr.
    destruct (const_in_type t t2 y Ht Ht2 Hf2 E1) as [(_ & _ & E')|[-> _]]; [by rewrite <- E', E|].
    by rewrite <- (wrap_in_type t y Ht), E. }
  rewrite (proj2 (Z.eqb_neq _ _) Hy'). cbn [negb andb]. rewrite integer_signedness by apply Ht.
  destruct (decide (IsSignedInteger t = true /\ in_type t x = min_of (type_width t) true /\ in_type t y = -1))
    as [(Es & Ea & Eb)|Hn]; [|by destruct Hno].
  destruct (overflow_values t t1 t2 x y Har Ht1 Ht2 Hf1 Hf2 E0 E1 Es Ea Eb) as [Ex ->]. rewrite Es, Z.eqb_refl. cbn [negb].
  rewrite Ex, integer_signedness by apply Ht1. pose proof (pow2_pos (type_width t1 - 1)). pose proof (small_width t1 Ht1).
  destruct (IsSignedInteger t1); cbn [negb min_of]; [by rewrite Z.eqb_refl|].
  rewrite (proj2 (Z.eqb_neq _ _)) by lia. done.
Qed.

(** ** The folded operands *)

(** The operand [a] of the memory [st0] was folded to [r]: the tree [n] and the
    constant beside it. *)
Definition side st0 a G st (r : pair) n Gn : Prop :=
  own st (fst r) n Gn /\ within (size_of st0) Gn G /\ fits (node_ptyp a) n /\
  wrap (type_width (node_ptyp a)) (value st n + opt_value (snd r)) = wrap (type_width (node_ptyp a)) (value st0 a) /\
  sum_ok (node_ptyp a) (snd r) /\ (is_const n -> snd r = None) /\ (forall x, has x n -> allowed a x) /\
  (atom a -> snd r = None /\ node_ptyp n = node_ptyp a /\ value st n = value st0 a).

(** The tree [n] at [z] is an expression for the operand. *)
Definition expr st0 a G st (z : nat) n Gn : Prop :=
  own st z n Gn /\ within (size_of st0) Gn G /\ stands st0 a st n /\ (forall x, has x n -> allowed a x).

Lemma own_atom st p a G n Gn : own st p a G -> atom a -> own st p n Gn -> n = a.
Proof.
  intros Ha Hat Hn. destruct a as [t k| | | | | |op t i]; try done.
  - destruct (own_const_inv leaf _ _ _ _ _ Ha) as (Hc & _).
    destruct (own_constval _ _ _ _ _ k Hn Hc eq_refl) as [t' ->]. by rewrite (own_type _ _ _ _ _ Hn Hc : t = t').
  - destruct Ha as [[Hc _] _]. by apply (own_leaf _ _ _ _ _ _ _ Hn Hc).
Qed.

Lemma folded_side st0 st q a G r :
  own st0 q a G -> folded st0 q G a st r -> exists n Gn, side st0 a G st r n Gn.
Proof.
  intros Ha (_ & _ & _ & Hat & n & Gn & Hn & HG & Hf & Ev & Hs & Hc & HX). exists n, Gn.
  unfold side. split_and?; try done. intros Hatom. destruct (Hat Hatom) as [-> ->]. cbn [fst snd] in *.
  by rewrite (own_atom _ _ _ _ _ _ Ha Hatom Hn).
Qed.

Lemma side_grow st0 a G st st' r n Gn : side st0 a G st r n Gn -> grow st st' -> side st0 a G st' r n Gn.
Proof.
  intros (Hn & HG & Hf & Ev & Hs & Hc & HX & Hat) Hg. pose proof (value_grow typeTable leaf st st' n (proj2 Hn) Hg) as E.
  unfold side. rewrite E. split_and?; try done. by eapply own_grow.
Qed.

(** A fold elsewhere leaves the operand alone. *)
Lemma side_change st0 a G G' st st' r n Gn :
  side st0 a G st r n Gn -> change G' st st' -> Gn ## G' -> side st0 a G st' r n Gn.
Proof.
  intros (Hn & HG & Hf & Ev & Hs & Hc & HX & Hat) Hch Hd.
  pose proof (value_change typeTable leaf G' st st' n (proj2 Hn) Hch) as E.
  unfold side. rewrite E. split_and?; try done. by eapply own_change.
Qed.

Lemma expr_grow st0 a G st st' z n Gn : expr st0 a G st z n Gn -> grow st st' -> expr st0 a G st' z n Gn.
Proof.
  intros (Hn & HG & (Hw & Hf & Ev & Hat) & HX) Hg. pose proof (value_grow typeTable leaf st st' n Hw Hg) as E.
  pose proof (own_grow typeTable _ _ _ _ _ Hn Hg) as Hn'. unfold expr, stands. rewrite E.
  split_and?; try done. apply Hn'.
Qed.

(** Without a constant the tree is the expression. *)
Lemma side_alone st0 a G st r n Gn : side st0 a G st r n Gn -> snd r = None -> expr st0 a G st (fst r) n Gn.
Proof.
  intros (Hn & HG & Hf & Ev & Hs & Hc & HX & Hat) E. rewrite E in *. cbn [opt_value] in Ev. rewrite Z.add_0_r in Ev.
  unfold expr, stands. split_and?; try done; [apply Hn|]. intros H. by apply Hat.
Qed.

Lemma side_expr st0 a G st r n Gn :
  mem_ok st -> (size_of st0 <= size_of st)%nat -> small_int (node_ptyp a) -> side st0 a G st r n Gn ->
  wpm (PairToExpr typeTable (node_ptyp a) r) st (fun st' z =>
    grow st st' /\ exists n' Gn', expr st0 a G st' z n' Gn' /\ within (size_of st) Gn' Gn).
Proof using Htt.
  intros Hok Hsize Ht Hside. destruct r as [z [v|]].
  - pose proof Hside as (Hn & HG & Hf & Ev & Hs & Hc & HX & Hat). cbn [fst snd opt_value] in *.
    eapply wpm_mono.
    { apply (PairToExpr_spec typeTable Htt leaf st (node_ptyp a) z (Some v) n Gn (allowed a)); try done.
      by apply allowed_unsigned. }
    intros st' z' [[Hg (n' & Gn' & Hn' & HGn' & Hf' & Ev' & _ & _ & HX')] _]. split; [done|].
    exists n', Gn'. split; [|done]. cbn [fst snd opt_value] in *. rewrite Z.add_0_r, Ev in Ev'.
    unfold expr, stands. split_and?; try done.
    + by eapply within_trans.
    + apply Hn'.
    + intros H. by destruct (Hat H).
  - apply wpm_ret. split; [by apply grow_refl|]. exists n, Gn. split; [|apply within_refl].
    by apply (side_alone _ _ _ _ (z, None)).
Qed.

(** An operand in the type of the operation *)
Lemma side_in_type st0 a G st r n Gn t :
  wt (objs st0) a -> small_int t -> fits t a -> side st0 a G st r n Gn ->
  fits t n /\ wrap (type_width t) (value st n + opt_value (snd r)) = wrap (type_width t) (value st0 a) /\
  sum_ok t (snd r).
Proof.
  intros Ha Ht Hf Hs. pose proof (side_alone _ _ _ _ _ _ _ Hs) as Halone.
  destruct Hs as (Hn & _ & Hfn & Ev & Hsum & _ & _ & _). split; [exact (fits_trans _ _ _ _ (proj2 Hn) Hf Hfn)|].
  split; [|eapply (sum_ok_type st); try done; by eapply wt_small]. destruct Hf as [<-|Eu]; [done|].
  destruct (snd r) as [v|] eqn:E; [rewrite Eu in Hsum; by destruct Hsum|].
  destruct (Halone eq_refl) as (_ & _ & Hst & _). destruct (stands_bool _ _ _ _ Ha Hst Eu) as [_ ->].
  cbn [opt_value]. by rewrite Z.add_0_r.
Qed.

Lemma side_opt_wf st0 a G st r n Gn : side st0 a G st r n Gn -> opt_wf (snd r).
Proof. intros (_ & _ & _ & _ & Hs & _). destruct (snd r); [|done]. apply Hs. Qed.

(** The arithmetic on the constants is right in every type. *)
Lemma sum_i64 t v1 v2 z o :
  arith t -> opt_result v1 v2 z o -> (v1 = None -> v2 = None -> z = 0) ->
  sum_ok t o /\ wrap (type_width t) (opt_value o) = wrap (type_width t) z.
Proof.
  intros Har Ho Hz. pose proof (arith_width t Har) as [Hw Eb]. destruct o as [x|]; cbn [opt_result] in Ho.
  - destruct Ho as (Hx & Ew & _ & Ev). split; [|cbn [opt_value]; rewrite Ev; apply wrap_norm_le; change (type_width PTY_i64) with 64; lia].
    change (type_width PTY_i64) with 64 in Ew. split; [apply Har|]. split; [split; [done|lia]|lia].
  - destruct Ho as [-> ->]. by rewrite (Hz eq_refl eq_refl).
Qed.

Lemma AddSub_ok t v1 v2 (isAdd : bool) :
  arith t -> opt_wf v1 -> opt_wf v2 ->
  wp (AddSub v1 v2 isAdd) (fun o => sum_ok t o /\ (v1 = None -> v2 = None -> o = None) /\
    wrap (type_width t) (opt_value o)
      = wrap (type_width t) (if isAdd then opt_value v1 + opt_value v2 else opt_value v1 - opt_value v2)).
Proof.
  intros Har H1 H2. destruct (optional_spec v1 v2 H1 H2) as (Ha & Hs & _).
  assert (v1 = None -> v2 = None -> AddSub v1 v2 isAdd = Ret None) as Hnone by (by intros -> ->).
  assert (wp (AddSub v1 v2 isAdd) (opt_result v1 v2
    (if isAdd then opt_value v1 + opt_value v2 else opt_value v1 - opt_value v2))) as H by by destruct isAdd.
  destruct (AddSub v1 v2 isAdd) as [o|] eqn:E; [|done].
  destruct (sum_i64 t v1 v2 _ o Har H) as [Ho Ev]; [intros -> ->; by destruct isAdd|].
  split; [done|]. split; [|done]. intros E1 E2. specialize (Hnone E1 E2). congruence.
Qed.

Lemma opt_mul_ok t v1 v2 :
  arith t -> opt_wf v1 -> opt_wf v2 ->
  wp (opt_mul v1 v2) (fun o => sum_ok t o /\
    wrap (type_width t) (opt_value o) = wrap (type_width t) (opt_value v1 * opt_value v2)).
Proof.
  intros Har H1 H2. destruct (optional_spec v1 v2 H1 H2) as (_ & _ & H).
  eapply wp_mono; [exact H|]. intros o Ho. apply (sum_i64 t v1 v2); [done|done|]. by intros -> ->.
Qed.

(** An operand of a product is converted to the type of the node when it is
    smaller; only a truth value is. *)
Lemma widen_spec st z k Gk t :
  mem_ok st -> arith t -> own st z k Gk -> fits t k ->
  wpm (if GetPrimTypeSize (node_ptyp k) <? GetPrimTypeSize t then New (TypeCvtCell OP_cvt t PTY_i32 z) else mret z) st
    (fun st' z' => grow st st' /\ ((st' = st /\ z' = z) \/ exists c, cells st' !! z' = Some c /\ GetOpCode c = OP_cvt) /\
      exists k' Gk', own st' z' k' Gk' /\ within (size_of st) Gk' Gk /\ fits t k' /\
        wrap (type_width t) (value st' k') = wrap (type_width t) (value st k) /\
        forall x, has x k' -> type_has x t \/ has x k).
Proof.
  intros Hok Har Hk Hf. pose proof (arith_small t Har) as Ht. destruct (Z.ltb_spec (GetPrimTypeSize (node_ptyp k)) (GetPrimTypeSize t)).
  - assert (node_ptyp k = PTY_u1) as Eu.
    { destruct Hf as [Ew|Eu]; [|done]. destruct (decide (node_ptyp k = PTY_u1)) as [|Hne]; [done|].
      pose proof (arith_size (node_ptyp k) t (conj (own_small _ _ _ _ Hk) Hne) Har Ew). lia. }
    eapply wpm_mono; [by apply (new_cvt_spec typeTable leaf st z k Gk t PTY_i32); [..|by right]|].
    intros st' z' (Hg & Ez & Hz & Ev). split; [done|]. split.
    { right. destruct (own_cell _ _ _ _ Hz) as (c & Hc & Eop & _). by exists c. }
    exists (TypeCvtNode OP_cvt t PTY_i32 k), ({[z']} ∪ Gk). split_and?; [done| |by left| |].
    + apply within_union; [apply within_fresh; by rewrite Ez|apply within_refl].
    + rewrite Ev, wrap_in_type by done. pose proof (u1_range leaf _ _ (proj2 Hk) Eu).
      by rewrite in_type_bool.
    + intros x [Hx|Hx]; [left|by right]. apply op_has_plain in Hx as [-> Hx]; [done|done|apply Har].
  - apply wpm_ret. split; [by apply grow_refl|]. split; [by left|]. exists k, Gk. split_and?; try done; [apply within_refl|].
    intros x Hx. by right.
Qed.

(** ** Reading a constant *)

Lemma op_eq_int64_small x v : small_val x -> op_eq_int64 x v = Ret (swrap 64 (ival x) =? v).
Proof.
  intros Hx. unfold op_eq_int64. rewrite IsOneSignificantWord_one by apply Hx. cbn [mbind res_bind].
  by rewrite GetExtValue_one by apply Hx.
Qed.

Lemma values_overflow_returns op t x y :
  small_val x -> small_val y -> exists over, values_overflow op t x y = Ret over.
Proof.
  intros Hx Hy. unfold values_overflow. rewrite !GetExtValue_one by (apply Hx || apply Hy). by eexists.
Qed.

Lemma has_nonzero_eq t o : sum_ok t o -> has_nonzero o = Ret (negb (opt_value o =? 0)).
Proof.
  destruct o as [v|]; [|done]. intros (_ & Hv & _). cbn [has_nonzero]. by rewrite op_eq_int64_0.
Qed.

Lemma none_or_zero_eq t o : sum_ok t o -> none_or_zero o = Ret (opt_value o =? 0).
Proof. destruct o as [v|]; [|done]. intros (_ & Hv & _). cbn [none_or_zero]. by rewrite op_eq_int64_0. Qed.

(** What the folds read of a constant operand *)
Record const_read st (t1 : PrimType) (k : nat) (c : MIRIntConst) : Prop := {
  read_cell : objs st !! k = Some c;
  read_val : small_val (GetValue c);
  read_prim : type_prim (GetType c) = t1;
  read_type : has_type t1 (GetValue c);
  read_small : small_int t1;
  read_value : ival (GetValue c) = value st (ConstvalNode t1 k);
}.

Lemma const_reads st p t1 k G : own st p (ConstvalNode t1 k) G -> exists c, const_read st t1 k c.
Proof.
  intros H. destruct (own_const_inv leaf _ _ _ _ _ H) as (_ & Ht & v & Hk & Ev).
  pose proof Hk as (c & Hc & _ & (_ & W & Z & _)). cbn [type_prim ty_of] in *.
  destruct (const_small_val _ _ _ _ _ Ht Hk Hc) as (S & E & T). exists c. split; try done; [by rewrite T|by rewrite Ev].
Qed.

Lemma read_uval st t1 k c : const_read st t1 k c -> uval (GetValue c) = uread leaf st (ConstvalNode t1 k).
Proof.
  intros [Hc Hv Ht Hty Hs He]. unfold uread. cbn [node_ptyp]. rewrite <- He, <- (proj1 Hty).
  symmetry. by apply wrap_ival, Hv.
Qed.

(** The tests on the constant *)
Lemma read_0 st t1 k c : const_read st t1 k c -> (swrap 64 (ival (GetValue c)) =? 0) = (ival (GetValue c) =? 0).
Proof.
  intros H. pose proof (op_eq_int64_small _ 0 (read_val _ _ _ _ H)) as E.
  rewrite op_eq_int64_0 in E by apply H. by injection E.
Qed.

Lemma read_eq st t1 k c z :
  const_read st t1 k c -> (swrap 64 (ival (GetValue c)) =? z) = true ->
  wrap (type_width t1) (value st (ConstvalNode t1 k)) = wrap (type_width t1) z.
Proof.
  intros H E. apply Z.eqb_eq in E. rewrite <- (read_value _ _ _ _ H), <- E.
  pose proof (small_width t1 (read_small _ _ _ _ H)).
  by rewrite <- (wrap_wrap_le _ 64 (swrap _ _)), swrap_congr, wrap_wrap_le by lia.
Qed.

(** A truth value is not -1. *)
Lemma read_m1 st t1 k c :
  const_read st t1 k c -> (swrap 64 (ival (GetValue c)) =? -1) = true -> t1 <> PTY_u1.
Proof.
  intros H E ->. apply Z.eqb_eq in E. pose proof (read_value _ _ _ _ H) as Ev.
  unfold ConstantFoldPair.value in Ev. cbn [node_value] in Ev.
  pose proof (in_type_range PTY_u1 (const_value (objs st) k) u1_small) as Hr.
  change (0 <= in_type PTY_u1 (const_value (objs st) k) < 2 ^ 1) in Hr. rewrite <- Ev in Hr.
  rewrite swrap_small in E by lia. lia.
Qed.

Lemma read_1 st t1 k c :
  const_read st t1 k c -> (swrap 64 (ival (GetValue c)) =? 1) = true -> value st (ConstvalNode t1 k) = 1.
Proof.
  intros H E. apply Z.eqb_eq in E. rewrite <- (read_value _ _ _ _ H).
  pose proof (small_ival_range _ (read_val _ _ _ _ H)) as Hr. set (z := ival (GetValue c)) in *.
  destruct (decide (z < 2 ^ 63)) as [Hz|Hz]; [by rewrite swrap_small in E by lia|].
  unfold swrap in E. rewrite wrap_small in E by lia. destruct (Z.ltb_spec z (2 ^ (64 - 1))); lia.
Qed.

Lemma own_mul st z k Gk : own st z k Gk -> node_op k = OP_mul -> has FMul k.
Proof.
  intros [_ Hw] Hop. destruct k as [|o t' y|o t' f y|o t' i s y|o t' x y|o t' ot x y|o t' i];
    cbn [node_op] in Hop; try discriminate Hop; try (by left). subst o. cbn [wt] in Hw.
  destruct Hw as (_ & _ & Hno). exfalso. apply Hno. cbn. tauto.
Qed.

Lemma GetSXTValue_returns v : small_val v -> exists x, GetSXTValue v = Ret x.
Proof.
  intros [Hv Hw]. destruct Hv as [u w sg Hw0 Hu|ws k sg Hk Hws]; cbn [width] in *; [|lia].
  eexists. by apply GetSXTValue_one.
Qed.
End Binary.
