(* ===== verification/ConstantFoldBinary.v ===== *)
(** * Folding of binary nodes

    What the fold of a binary node leaves, given its folded operands: the
    folds of two constants, of one constant and of none. *)
From S2P Require Import Prelude.
From S2P Require Import PrimTypes.
From S2P Require Import Opcodes.
From S2P Require Import IntWords.
From S2P Require Import IntVal.
From S2P Require Import IntValFacts.
From S2P Require Import IntValArith.
From S2P Require Import IntValOrder.
From S2P Require Import IntValCount.
From S2P Require Import IntValDiv.
From S2P Require Import IntValSpec.
From S2P Require Import IntValTyped.
From S2P Require Import IntConst.
From S2P Require Import IntConstFacts.
From S2P Require Import ConstantFold.
From S2P Require Import ConstantFoldFacts.
From S2P Require Import ConstantFoldExpr.
From S2P Require Import ExprMem.
From S2P Require Import ExprTree.
From S2P Require Import ExprTreeFacts.
From S2P Require Import ExprMemFacts.
From S2P Require Import ConstantFoldTree.
From S2P Require Import ConstantFoldPair.
From S2P Require Import ConstantFoldUnary.
From S2P Require Import ConstantFoldOperands.
From stdpp Require Import gmap.
#[local] Open Scope Z_scope.

Section Binary.
Context `{HT : Target}.
Context (typeTable : list (option MIRType)).
Context (Htt : TypeTable_init `prefix_of` typeTable).
Context (leaf : nat -> Z).
Implicit Types (st : Mem) (t : PrimType) (n a b : BaseNode) (F G : gset nat) (X : feature -> Prop).

#[local] Abbreviation grow := (grow typeTable).
#[local] Abbreviation change := (change typeTable).
#[local] Abbreviation mem_ok := (mem_ok typeTable).
#[local] Abbreviation value := (value leaf).
#[local] Abbreviation outcome := (outcome leaf).
#[local] Abbreviation fold_spec := (fold_spec typeTable leaf).
#[local] Abbreviation folded := (folded typeTable leaf).


#[local] Abbreviation side := (side leaf).
#[local] Abbreviation expr := (expr leaf).
#[local] Abbreviation bin_of := (bin_of leaf).

(** The binary node at [p] of the memory [st0], before its operands are folded *)
Section Node.
Context (st0 : Mem) (p q r : nat) (op : Opcode) (t : PrimType) (a b : BaseNode) (G G' : gset nat).
Context (Hwt : wt (objs st0) (BinaryNode op t a b)) (Hfold : binary_foldable op t a b).
Context (Hp : (p < size_of st0)%nat) (HpG : p ∉ G ∪ G').

#[local] Abbreviation N := (BinaryNode op t a b).
#[local] Abbreviation F := ({[p]} ∪ (G ∪ G')).

Lemma node_small : small_int t.
Proof using Hwt. exact (binary_type_small op t (proj1 Hwt)). Qed.
Lemma left_wt : wt (objs st0) a.
Proof using Hwt. apply Hwt. Qed.
Lemma right_wt : wt (objs st0) b.
Proof using Hwt. apply Hwt. Qed.

Lemma allowed_op x : op_has x op t -> allowed N x.
Proof using Type. intros H. destruct x; cbn [allowed has]; exact H || (left; exact H). Qed.
Lemma allowed_left x : allowed a x -> allowed N x.
Proof using Type. intros H. destruct x; cbn [allowed has] in *; exact H || (right; left; exact H). Qed.
Lemma allowed_right x : allowed b x -> allowed N x.
Proof using Type. intros H. destruct x; cbn [allowed has] in *; exact H || (right; right; left; exact H). Qed.
Lemma allowed_truth : op = OP_bxor -> has FTruth a -> allowed N FBool.
Proof using Type. intros E H. right; right; right. exact (conj eq_refl (conj E H)). Qed.

(** What the fold leaves in [st'], when the folded operands were in [st] *)
Definition bin_result st st' (res : pair) : Prop :=
  grow st st' /\ outcome st' (size_of st0) F t (value st0 N) (allowed N) res.

Lemma result_intro st st' z k Gk s :
  grow st st' -> own st' z k Gk -> within (size_of st0) Gk F -> fits t k ->
  wrap (type_width t) (value st' k + opt_value s) = wrap (type_width t) (bin_of st0 op t a b) ->
  sum_ok t s -> (is_const k -> s = None) -> (forall x, has x k -> allowed N x) -> bin_result st st' (z, s).
Proof using Hwt.
  intros Hg Hk HG Hf Ev Hs Hc HX. split; [done|]. exists k, Gk. split_and?; try done.
  rewrite value_bin, wrap_in_type; [done|exact node_small].
Qed.

(** The folded operands in memory *)
Definition operands st (lp rp : pair) n Gn m Gm : Prop :=
  mem_ok st /\ (size_of st0 <= size_of st)%nat /\ cells st !! p = Some (BinaryCell op t q r) /\
  side st0 a G st lp n Gn /\ side st0 b G' st rp m Gm /\ Gn ## Gm.

Lemma within_left k Gk : within k Gk G -> within k Gk F.
Proof using Type. apply within_sub. intros z Hz. apply elem_of_union_r, elem_of_union_l, Hz. Qed.
Lemma within_right k Gk : within k Gk G' -> within k Gk F.
Proof using Type. apply within_sub. intros z Hz. apply elem_of_union_r, elem_of_union_r, Hz. Qed.

(** A new constant *)
Lemma result_const st t' v :
  mem_ok st -> (size_of st0 <= size_of st)%nat -> (type_width t' = type_width t \/ t' = PTY_u1) ->
  wrap (type_width t) (in_type t' v) = wrap (type_width t) (bin_of st0 op t a b) ->
  (forall x, type_has x t' -> allowed N x) ->
  forall st' z, is_new_const typeTable leaf st t' v st' z -> bin_result st st' (z, None).
Proof using Hwt.
  intros Hok Hsize Hf E HX st' z Hnew. split; [apply Hnew|].
  eapply (new_const_outcome typeTable leaf st0 st st'); try done; [exact node_small|].
  rewrite value_bin, wrap_in_type; [done|exact node_small].
Qed.

(** One of the operands, with a constant beside it *)
Lemma keep_left st lp rp n Gn m Gm s :
  operands st lp rp n Gn m Gm -> (is_const n -> s = None) -> sum_ok t s ->
  wrap (type_width t) (value st n + opt_value s) = wrap (type_width t) (bin_of st0 op t a b) ->
  bin_result st st (fst lp, s).
Proof using Hwt.
  intros (Hok & _ & _ & Hl & _) Hc Hs Ev. pose proof Hwt as (_ & Hfa & _).
  destruct Hl as (Hn & HGn & Hfn & _ & _ & _ & HXn & _).
  eapply (result_intro st st _ n Gn); try done.
  - by apply within_left.
  - exact (fits_trans _ _ _ _ (proj2 Hn) Hfa Hfn).
  - intros x Hx. by apply allowed_left, HXn.
Qed.

Lemma keep_right st lp rp n Gn m Gm s :
  operands st lp rp n Gn m Gm -> (is_const m -> s = None) -> fits t b -> sum_ok t s ->
  wrap (type_width t) (value st m + opt_value s) = wrap (type_width t) (bin_of st0 op t a b) ->
  bin_result st st (fst rp, s).
Proof using Hwt.
  intros (Hok & _ & _ & _ & Hr & _) Hc Hfb Hs Ev. destruct Hr as (Hm & HGm & Hfm & _ & _ & _ & HXm & _).
  eapply (result_intro st st _ m Gm); try done.
  - by apply within_right.
  - exact (fits_trans _ _ _ _ (proj2 Hm) Hfb Hfm).
  - intros x Hx. by apply allowed_right, HXm.
Qed.

(** The value of the node, by the value of an operand that is a constant *)
Lemma left_value st lp rp n Gn m Gm :
  operands st lp rp n Gn m Gm -> is_const n ->
  wrap (type_width t) (bin_of st0 op t a b)
  = wrap (type_width t) (default 0 (bin_value op t (value st n) (value st0 b) (uread leaf st0 b))).
Proof using Hwt Hfold.
  intros (_ & _ & _ & Hl & _) Hc. pose proof (side_alone leaf _ _ _ _ _ _ _ Hl) as Hel.
  destruct Hl as (_ & _ & _ & _ & _ & Hcn & _). destruct (Hel (Hcn Hc)) as (_ & _ & Hs & _). symmetry.
  by apply (bin_value_stands leaf st0 st st0 op t a b n b); [..|apply stands_refl, right_wt].
Qed.

Lemma right_value st lp rp n Gn m Gm :
  operands st lp rp n Gn m Gm -> is_const m ->
  wrap (type_width t) (bin_of st0 op t a b)
  = wrap (type_width t) (default 0 (bin_value op t (value st0 a) (value st m) (uread leaf st m))).
Proof using Hwt Hfold.
  intros (_ & _ & _ & _ & Hr & _) Hc. pose proof (side_alone leaf _ _ _ _ _ _ _ Hr) as Her.
  destruct Hr as (_ & _ & _ & _ & _ & Hcm & _). destruct (Her (Hcm Hc)) as (_ & _ & Hs & _). symmetry.
  rewrite (stands_uread leaf _ _ _ _ right_wt Hs).
  by apply (bin_value_stands leaf st0 st0 st op t a b a m); [..|apply stands_refl, left_wt|].
Qed.

(** A tree for each operand, on cells of that operand *)
Definition joined st z z' n Gn m Gm : Prop :=
  own st z n Gn /\ own st z' m Gm /\ within (size_of st0) Gn G /\ within (size_of st0) Gm G' /\ Gn ## Gm /\
  wt (objs st) (BinaryNode op t n m) /\ (forall x, has x n -> allowed N x) /\ (forall x, has x m -> allowed N x) /\
  (op = OP_bxor -> has FTruth n -> has FTruth a).

(** The operator on the two, with a constant beside *)
Lemma result_new st st1 z z' n Gn m Gm s :
  grow st st1 -> (size_of st0 <= size_of st)%nat -> cells st1 !! p = Some (BinaryCell op t q r) ->
  joined st1 z z' n Gn m Gm -> sum_ok t s ->
  wrap (type_width t) (bin_of st1 op t n m + opt_value s) = wrap (type_width t) (bin_of st0 op t a b) ->
  wpm (NewBinaryNode p op t z z') st1 (fun st' res => bin_result st st' (res, s)).
Proof using Hwt Hp HpG.
  intros Hg Hsize Hc (Hn & Hm & HGn & HGm & Hd & Hw & HXn & HXm & Htruth) Hs Ev.
  assert (p ∉ Gn ∪ Gm) as Hpn.
  { apply not_elem_of_union in HpG as [H1 H2].
    apply not_elem_of_union; split; by eapply within_not_in. }
  eapply wpm_mono; [apply (NewBinaryNode_spec typeTable st1 p op t q r op t z z' n m Gn Gm);
    [by eapply grow_ok|done..]|].
  intros st' res (Hg' & F' & Hres & HF'). eapply (result_intro _ _ _ _ F'); [by eapply grow_trans|exact Hres| |by left| |done|done|].
  - eapply within_trans; [|exact HF'|].
    + etrans; [exact Hsize|]. by eapply grow_size.
    + apply within_union; [apply within_subset, union_subseteq_l|].
      apply within_union; [by apply within_left|by apply within_right].
  - rewrite (value_grow typeTable leaf st1 st'), value_bin by done.
    rewrite <- wrap_add_l, wrap_in_type, wrap_add_l by exact node_small. exact Ev.
  - intros x [Hx|[Hx|[Hx|(-> & Ho & Hx)]]]; [by apply allowed_op|by apply HXn|by apply HXm|].
    apply allowed_truth; [done|]. by apply Htruth.
Qed.

(** The two operands as expressions, joined again *)
Lemma result_binary st st1 z z' n Gn m Gm :
  grow st st1 -> (size_of st0 <= size_of st)%nat -> cells st1 !! p = Some (BinaryCell op t q r) ->
  expr st0 a G st1 z n Gn -> expr st0 b G' st1 z' m Gm -> Gn ## Gm ->
  wpm (NewBinaryNode p op t z z') st1 (fun st' res => bin_result st st' (res, None)).
Proof using Hwt Hfold Hp HpG.
  intros Hg Hsize Hc (Hn & HGn & Hsn & HXn) (Hm & HGm & Hsm & HXm) Hd.
  destruct (bin_stands leaf st0 st1 op t a b n m Hwt Hfold Hsn Hsm) as [Hw Ev].
  apply (result_new st st1 z z' n Gn m Gm None); try done.
  - unfold joined. split_and?; try done; intros x Hx; [by apply allowed_left, HXn|by apply allowed_right, HXm|].
    exact (HXn FTruth Hx).
  - cbn [opt_value]. by rewrite Z.add_0_r.
Qed.

Lemma rebuild_node st lp rp n Gn m Gm :
  operands st lp rp n Gn m Gm ->
  wpm (e ← PairToExpr typeTable (node_ptyp a) lp; e' ← PairToExpr typeTable (node_ptyp b) rp;
       NewBinaryNode p op t e e') st (fun st' res => bin_result st st' (res, None)).
Proof using Htt Hwt Hfold Hp HpG.
  intros (Hok & Hsize & Hc & Hl & Hr & Hd). apply wpm_bind.
  eapply wpm_mono; [by apply (side_expr typeTable Htt leaf st0 a G st lp n Gn); [..|eapply wt_small; exact left_wt|]|].
  intros st1 z (Hg1 & n1 & Gn1 & He1 & Hw1). pose proof (side_grow typeTable leaf _ _ _ _ _ _ _ _ Hr Hg1) as Hr1.
  assert (Gn1 ## Gm) as Hd1 by (eapply within_disjoint; [exact Hw1|done|by eapply own_bound; apply Hr]).
  apply wpm_bind. eapply wpm_mono; [apply (side_expr typeTable Htt leaf st0 b G' st1 rp m Gm);
    [by eapply grow_ok|etrans; [exact Hsize|by eapply grow_size]|eapply wt_small; exact right_wt|exact Hr1]|].
  intros st2 z' (Hg2 & m2 & Gm2 & He2 & Hw2). apply (result_binary st st2 z z' n1 Gn1 m2 Gm2); try done.
  - by eapply grow_trans.
  - eapply cell_grow; [exact Hg2|]. by eapply cell_grow.
  - by eapply expr_grow.
  - symmetry. eapply within_disjoint; [exact Hw2|done|]. by eapply own_bound; apply He1.
Qed.

Lemma rebuild_spec st lp rp n Gn m Gm :
  operands st lp rp n Gn m Gm ->
  wpm (e ← PairToExpr typeTable (node_ptyp a) lp; e' ← PairToExpr typeTable (node_ptyp b) rp;
       res ← NewBinaryNode p op t e e'; mret (res, None)) st (bin_result st).
Proof using Htt Hwt Hfold Hp HpG.
  intros H. apply wpm_seq3. eapply wpm_mono; [by eapply rebuild_node|]. intros st' z Hz. by apply wpm_ret.
Qed.

(** ** Two constants *)

Lemma consts_ok st lp rp t1 pl Gn t2 pr Gm c0 c1 :
  operands st lp rp (ConstvalNode t1 pl) Gn (ConstvalNode t2 pr) Gm ->
  objs st !! pl = Some c0 -> objs st !! pr = Some c1 ->
  small_val (GetValue c0) /\ small_val (GetValue c1) /\
  fold_value op t (GetValue c0) (GetValue c1) =
    bin_value op t (value st (ConstvalNode t1 pl)) (value st (ConstvalNode t2 pr)) (uread leaf st (ConstvalNode t2 pr)) /\
  (forall safe, IsDivSafe c0 c1 t = Ret safe -> safe = true \/ one_of [OP_div; OP_rem] op = false ->
     fold_ok op t (GetValue c0) (GetValue c1)).
Proof using Hwt Hfold.
  intros (_ & _ & _ & Hl & Hr & _) Hc0 Hc1. pose proof node_small as Ht.
  destruct Hl as (Hn & _ & Hfn & _ & _ & _ & HXn & Hatn), Hr as (Hm & _ & Hfm & _ & _ & _ & _ & Hatm).
  destruct (own_const_inv leaf _ _ _ _ _ Hn) as (_ & Ht1 & v1 & Hk1 & Ev1).
  destruct (own_const_inv leaf _ _ _ _ _ Hm) as (_ & Ht2 & v2 & Hk2 & Ev2).
  destruct (const_small_val _ _ _ _ _ Ht1 Hk1 Hc0) as (S0 & E0 & T0).
  destruct (const_small_val _ _ _ _ _ Ht2 Hk2 Hc1) as (S1 & E1 & T1).
  pose proof Hk1 as (c0' & Hc0' & _ & W0). rewrite Hc0 in Hc0'. injection Hc0' as <-.
  pose proof Hk2 as (c1' & Hc1' & _ & W1). rewrite Hc1 in Hc1'. injection Hc1' as <-.
  destruct W0 as (_ & W0 & Z0 & _), W1 as (_ & W1 & Z1 & _). cbn [type_prim ty_of] in *.
  pose proof (wrap_ival _ (proj1 S0)) as U0. pose proof (wrap_ival _ (proj1 S1)) as U1.
  split; [done|]. split; [done|]. split.
  - rewrite fold_value_bin, Ev1, Ev2, <- E0, <- E1. unfold uread. cbn [node_ptyp].
    by rewrite Ev2, <- E1, <- W1, U1.
  - intros safe Hs Hor. pose proof Hwt as (Hty & Hfa & Hfb & _).
    assert (type_width t1 = type_width t \/ t1 = PTY_u1) as F1 by exact (fits_trans _ _ _ _ (proj2 Hn) Hfa Hfn).
    assert (arith t -> safe = true -> (is_shift op = true -> False) ->
      IsUnsignedInteger t = true \/ ~ has FUnsigned a -> div_ok_in t (ival (GetValue c0)) (ival (GetValue c1))) as Hdiv.
    { intros Har -> Hns Hun. destruct Hfb as [Hfb|Hfb]; [by destruct Hns|].
      assert (type_width t2 = type_width t \/ t2 = PTY_u1) as F2 by exact (fits_trans _ _ _ _ (proj2 Hm) Hfb Hfm).
      destruct (IsDivSafe_spec c0 c1 t S0 S1) as (safe & E & Hsafe). rewrite Hs in E. injection E as <-.
      destruct (Hsafe eq_refl) as [Hne Hmin]. rewrite W0, Z0, W1, <- U1, W1 in Hmin.
      apply (div_safe_ok t t1 t2); try done; [rewrite E0; by apply in_type_idem|rewrite E1; by apply in_type_idem|].
      destruct Hun as [|Hun]; [by left|right]. intros Hu. apply Hun. exact (HXn FUnsigned Hu). }
    destruct op; cbn [fold_ok binary_type binary_foldable is_shift] in *; try done;
      try (destruct Hor as [Hor|Hor]; [|discriminate Hor]; apply Hdiv; done || apply Hfold);
      try (apply Hty).
    + destruct Hfold as (Hata & Hatb & Ea & Eb). destruct (Hatn Hata) as (_ & En & _), (Hatm Hatb) as (_ & Em & _).
      cbn [node_ptyp] in *. rewrite En, Ea in *. rewrite Em, Eb in *. by split.
    + destruct Hfold as (Hata & Hatb & Ea & Eb). destruct (Hatn Hata) as (_ & En & _), (Hatm Hatb) as (_ & Em & _).
      cbn [node_ptyp] in *. rewrite En, Ea in *. rewrite Em, Eb in *. by split.
Qed.

Lemma FoldConstBinary_spec st lp rp t1 pl Gn t2 pr Gm c0 c1 :
  operands st lp rp (ConstvalNode t1 pl) Gn (ConstvalNode t2 pr) Gm ->
  objs st !! pl = Some c0 -> objs st !! pr = Some c1 -> fold_ok op t (GetValue c0) (GetValue c1) ->
  wpm (FoldConstBinary typeTable op t pl pr) st (fun st' z => bin_result st st' (z, None)).
Proof using Htt Hwt Hfold.
  intros Hops Hc0 Hc1 Hok. pose proof Hops as (Hmem & Hsize & _ & Hl & Hr & _). pose proof node_small as Ht.
  destruct (consts_ok _ _ _ _ _ _ _ _ _ _ _ Hops Hc0 Hc1) as (S0 & S1 & Ev & _).
  set (n := ConstvalNode t1 pl) in *. set (m := ConstvalNode t2 pr) in *.
  destruct (binary_value op t (value st n) (value st m) (uread leaf st m) (proj1 Hwt)) as [v Hv].
  pose proof (side_alone leaf _ _ _ _ _ _ _ Hl) as Hel. pose proof (side_alone leaf _ _ _ _ _ _ _ Hr) as Her.
  destruct Hl as (_ & _ & _ & _ & _ & Hcn & _), Hr as (_ & _ & _ & _ & _ & Hcm & _).
  destruct (Hel (Hcn I)) as (_ & _ & Hsn & _), (Her (Hcm I)) as (_ & _ & Hsm & _).
  destruct (bin_stands leaf st0 st op t a b n m Hwt Hfold Hsn Hsm) as [_ Eb].
  unfold FoldConstBinary. rewrite (proj1 Ht). cbn [orb].
  eapply wpm_bind, wpm_get_const; [exact Hc0|]. eapply wpm_bind, wpm_get_const; [exact Hc1|].
  eapply wpm_mono.
  - apply (NewConstval_spec typeTable leaf st t v); [done|].
    apply (fold_binary_folds typeTable Htt); try done. by rewrite Ev.
  - apply (result_const st t v); [done|done|by left| |intros x Hx; by apply allowed_op, op_has_type].
    rewrite wrap_in_type, <- Eb by done. unfold ConstantFoldOperands.bin_of. by rewrite Hv.
Qed.

Lemma FoldBinary_consts_spec st lp rp t1 pl Gn t2 pr Gm :
  operands st lp rp (ConstvalNode t1 pl) Gn (ConstvalNode t2 pr) Gm ->
  wpm (FoldBinary_consts typeTable p op t (fst lp) (fst rp) pl pr) st (bin_result st).
Proof using Htt Hwt Hfold Hp HpG.
  intros Hops. pose proof Hops as (Hmem & Hsize & Hc & Hl & Hr & Hd). pose proof node_small as Ht.
  destruct (own_const_inv leaf _ _ _ _ _ (proj1 Hl)) as (_ & _ & v1 & (c0 & Hc0 & _) & _).
  destruct (own_const_inv leaf _ _ _ _ _ (proj1 Hr)) as (_ & _ & v2 & (c1 & Hc1 & _) & _).
  destruct (consts_ok _ _ _ _ _ _ _ _ _ _ _ Hops Hc0 Hc1) as (S0 & S1 & _ & Hok).
  unfold FoldBinary_consts. eapply wpm_bind, wpm_get_const; [exact Hc0|]. eapply wpm_bind, wpm_get_const; [exact Hc1|].
  destruct (IsDivSafe_spec c0 c1 t S0 S1) as (safe & Esafe & _). rewrite (proj1 Ht), andb_true_r, Esafe.
  apply wpm_bind, wpm_lift.
  assert (fold_ok op t (GetValue c0) (GetValue c1) ->
    wpm (r ← FoldConstBinary typeTable op t pl pr; mret (r, None)) st (bin_result st)) as Hfoldc.
  { intros H. apply wpm_bind. eapply wpm_mono; [by eapply FoldConstBinary_spec|]. done. }
  destruct (one_of [OP_div; OP_rem] op) eqn:Eop; [|apply Hfoldc; apply (Hok safe); [done|by right]].
  cbn [mbind res_bind]. apply wp_ret. destruct safe; cbn [negb]; [apply Hfoldc; apply (Hok true); [done|by left]|].
  apply wpm_bind. pose proof (side_alone leaf _ _ _ _ _ _ _ Hl) as Hel. pose proof (side_alone leaf _ _ _ _ _ _ _ Hr) as Her.
  destruct Hl as (_ & _ & _ & _ & _ & Hcn & _), Hr as (_ & _ & _ & _ & _ & Hcm & _).
  eapply wpm_mono; [apply (result_binary st st (fst lp) (fst rp) (ConstvalNode t1 pl) Gn (ConstvalNode t2 pr) Gm); try done|done].
  - by apply Hel, Hcn.
  - by apply Her, Hcm.
Qed.

(** ** No constant *)

(** The operands joined with their constants beside *)
Lemma result_sum st lp rp n Gn m Gm (isAdd : bool) :
  operands st lp rp n Gn m Gm -> op = (if isAdd then OP_add else OP_sub) ->
  wpm (z ← NewBinaryNode p op t (fst lp) (fst rp); s ← lift (AddSub (snd lp) (snd rp) isAdd); mret (z, s))
    st (bin_result st).
Proof using Hwt Hp HpG.
  intros (Hok & Hsize & Hc & Hl & Hr & Hd) Eop. pose proof node_small as Ht.
  pose proof Hwt as (Hty & Hfa & Hfb & Hwa & Hwb).
  assert (arith t) as Har by (rewrite Eop in Hty; by destruct isAdd).
  assert (fits t b) as Hfb' by (destruct Hfb as [E|]; [|done]; rewrite Eop in E; by destruct isAdd).
  destruct (side_in_type leaf _ _ _ _ _ _ _ t Hwa Ht Hfa Hl) as (Hfn & En & Hsn).
  destruct (side_in_type leaf _ _ _ _ _ _ _ t Hwb Ht Hfb' Hr) as (Hfm & Em & Hsm).
  pose proof (side_opt_wf leaf _ _ _ _ _ _ _ Hl) as Wl. pose proof (side_opt_wf leaf _ _ _ _ _ _ _ Hr) as Wr.
  destruct Hl as (Hn & HGn & _ & _ & _ & _ & HXn & _), Hr as (Hm & HGm & _ & _ & _ & _ & HXm & _).
  apply (wpm_commute_lift (AddSub (snd lp) (snd rp) isAdd)). eapply wp_mono; [by apply (AddSub_ok t)|].
  intros s (Hs & _ & Es). apply (result_new st st (fst lp) (fst rp) n Gn m Gm); try done.
  - unfold joined. split_and?; try done.
    + split; [done|split; [done|split; [by right|split; [apply Hn|apply Hm]]]].
    + intros x Hx. by apply allowed_left, HXn.
    + intros x Hx. by apply allowed_right, HXm.
    + intros Ho. rewrite Eop in Ho. by destruct isAdd.
  - transitivity (wrap (type_width t) (if isAdd then (value st n + opt_value (snd lp)) + (value st m + opt_value (snd rp))
      else (value st n + opt_value (snd lp)) - (value st m + opt_value (snd rp)))).
    + rewrite <- wrap_add_r, Es, wrap_add_r. f_equal. unfold ConstantFoldOperands.bin_of. rewrite Eop.
      destruct isAdd; cbn [bin_value default]; cbn; lia.
    + unfold ConstantFoldOperands.bin_of. rewrite Eop.
      destruct isAdd; cbn [bin_value default]; [by apply (wrap_add_congr t)|by apply (wrap_sub_congr t)].
Qed.
End Node.
End Binary.
