(* ===== verification/ConstantFoldLeft.v ===== *)
(** * Folding of a binary node with a constant on the left

    The folds of FoldBinary when the left operand is a constant and the right
    one is not: each leaves the value of the node. *)
From S2P Require Import Prelude.
From S2P Require Import PrimTypes.
From S2P Require Import Opcodes.
From S2P Require Import IntWords.
From S2P Require Import IntVal.
From S2P Require Import IntValFacts.
From S2P Require Import IntValArith.
From S2P Require Import IntValOrder.
From S2P Require Import IntValCount.
From S2P Require Import IntValDiv.
From S2P Require Import IntValSpec.
From S2P Require Import IntValTyped.
From S2P Require Import IntConst.
From S2P Require Import IntConstFacts.
From S2P Require Import ConstantFold.
From S2P Require Import ConstantFoldFacts.
From S2P Require Import ConstantFoldExpr.
From S2P Require Import ExprMem.
From S2P Require Import ExprTree.
From S2P Require Import ExprTreeFacts.
From S2P Require Import ExprMemFacts.
From S2P Require Import ConstantFoldTree.
From S2P Require Import ConstantFoldPair.
From S2P Require Import ConstantFoldUnary.
From S2P Require Import ConstantFoldValues.
From S2P Require Import ConstantFoldOperands.
From S2P Require Import ConstantFoldBinary.
From stdpp Require Import gmap.
#[local] Open Scope Z_scope.

Section Binary.
Context `{HT : Target}.
Context (typeTable : list (option MIRType)).
Context (Htt : TypeTable_init `prefix_of` typeTable).
Context (leaf : nat -> Z).
Implicit Types (st : Mem) (t : PrimType) (n a b : BaseNode) (F G : gset nat) (X : feature -> Prop).

#[local] Abbreviation grow := (grow typeTable).
#[local] Abbreviation change := (change typeTable).
#[local] Abbreviation mem_ok := (mem_ok typeTable).
#[local] Abbreviation value := (value leaf).
#[local] Abbreviation outcome := (outcome leaf).
#[local] Abbreviation fold_spec := (fold_spec typeTable leaf).
#[local] Abbreviation folded := (folded typeTable leaf).


#[local] Abbreviation side := (side leaf).
#[local] Abbreviation expr := (expr leaf).
#[local] Abbreviation bin_of := (bin_of leaf).

(** The binary node at [p] of the memory [st0], before its operands are folded *)
Section Node.
Context (st0 : Mem) (p q r : nat) (op : Opcode) (t : PrimType) (a b : BaseNode) (G G' : gset nat).
Context (Hwt : wt (objs st0) (BinaryNode op t a b)) (Hfold : binary_foldable op t a b).
Context (Hp : (p < size_of st0)%nat) (HpG : p ∉ G ∪ G').

#[local] Abbreviation N := (BinaryNode op t a b).
#[local] Abbreviation F := ({[p]} ∪ (G ∪ G')).


#[local] Abbreviation operands := (operands typeTable leaf st0 p q r op t a b G G').
#[local] Abbreviation bin_result := (bin_result typeTable leaf st0 p op t a b G G').

(** ** The cases *)

(** The right operand, not a constant, beside the constant [cp] *)
Definition left_const st (lp rp : pair) t1 cp Gn m Gm c : Prop :=
  operands st lp rp (ConstvalNode t1 cp) Gn m Gm /\ ~ is_const m /\ const_read leaf st t1 cp c.

Lemma left_fits st lp rp t1 cp Gn m Gm c :
  left_const st lp rp t1 cp Gn m Gm c -> type_width t1 = type_width t \/ t1 = PTY_u1.
Proof using Htt Hwt Hfold Hp HpG.
  intros ((_ & _ & _ & Hl & _) & _). destruct Hl as (Hn & _ & Hfn & _).
  exact (fits_trans _ _ _ _ (proj2 Hn) (proj1 (proj2 Hwt)) Hfn).
Qed.

(** A constant of the type of the left one *)
Lemma left_new_const st lp rp t1 cp Gn m Gm c bits v :
  left_const st lp rp t1 cp Gn m Gm c -> wrap (type_width t1) bits = wrap (type_width t1) v ->
  wrap (type_width t) (in_type t1 v) = wrap (type_width t) (bin_of st0 op t a b) ->
  wpm (z ← CreateIntConst typeTable bits (type_prim (GetType c)); mret (z, None)) st (bin_result st).
Proof using Htt Hwt Hfold Hp HpG.
  intros Hlc Eb Ev. pose proof (left_fits _ _ _ _ _ _ _ _ _ Hlc) as Hf.
  destruct Hlc as ((Hok & Hsize & _ & Hl & _) & _ & Hc). rewrite (read_prim _ _ _ _ _ Hc).
  apply wpm_bind. eapply wpm_mono; [apply (CreateIntConst_spec typeTable Htt leaf st t1 bits v); try done; apply Hc|].
  intros st' z Hz. apply wpm_ret. eapply (result_const typeTable leaf st0 p op t a b G G' Hwt st t1 v); try done.
  intros x Hx. apply allowed_left. destruct Hl as (_ & _ & _ & _ & _ & _ & HX & _). apply HX. exact Hx.
Qed.

Lemma left_zero st lp rp t1 cp Gn m Gm c :
  left_const st lp rp t1 cp Gn m Gm c -> ival (GetValue c) = 0 ->
  In op [OP_mul; OP_div; OP_rem; OP_ashr; OP_lshr; OP_shl; OP_band; OP_cand; OP_land] ->
  wpm (z ← CreateIntConst typeTable 0 (type_prim (GetType c)); mret (z, None)) st (bin_result st).
Proof using Htt Hwt Hfold Hp HpG.
  intros Hlc E0 Hop. pose proof Hlc as (Hops & _ & Hc). apply (left_new_const st lp rp t1 cp Gn m Gm c 0 0); try done.
  rewrite (left_value typeTable leaf st0 p q r op t a b G G' Hwt Hfold _ _ _ _ _ _ _ Hops I).
  rewrite <- (read_value _ _ _ _ _ Hc), E0, bin_zero_left by (done || by eapply node_small).
  f_equal. apply in_type_0, Hc.
Qed.

Lemma left_ones st lp rp t1 cp Gn m Gm c :
  left_const st lp rp t1 cp Gn m Gm c -> (swrap 64 (ival (GetValue c)) =? -1) = true -> op = OP_bior ->
  wpm (z ← CreateIntConst typeTable (wrap 64 (-1)) (type_prim (GetType c)); mret (z, None)) st (bin_result st).
Proof using Htt Hwt Hfold Hp HpG.
  intros Hlc E1 Eop. pose proof Hlc as (Hops & _ & Hc). pose proof (node_small st0 op t a b Hwt) as Ht.
  pose proof (small_width t Ht). pose proof (small_width t1 (read_small _ _ _ _ _ Hc)).
  pose proof (left_fits _ _ _ _ _ _ _ _ _ Hlc) as Hf.
  assert (type_width t1 = type_width t) as Ew by (destruct Hf as [|Eu]; [done|by apply (read_m1 leaf _ _ _ _ Hc) in E1]).
  apply (left_new_const st lp rp t1 cp Gn m Gm c (wrap 64 (-1)) (-1)); try done; [by apply wrap_wrap_le; lia|].
  rewrite (left_value typeTable leaf st0 p q r op t a b G G' Hwt Hfold _ _ _ _ _ _ _ Hops I).
  rewrite <- Ew, wrap_in_type, Ew by apply Hc. rewrite Eop. cbn [bin_value default]. symmetry.
  apply wrap_lor_ones; [done|]. rewrite <- Ew. by apply (read_eq leaf st t1 cp c).
Qed.

Lemma left_rebuild st lp rp t1 cp Gn m Gm c :
  left_const st lp rp t1 cp Gn m Gm c ->
  wpm (e ← PairToExpr typeTable (node_ptyp b) rp; z ← NewBinaryNode p op t (fst lp) e; mret (z, None)) st
    (bin_result st).
Proof using Htt Hwt Hfold Hp HpG.
  intros (Hops & _ & _). pose proof Hops as (_ & _ & _ & Hl & _). destruct Hl as (_ & _ & _ & _ & _ & Hcn & _).
  pose proof (rebuild_spec typeTable Htt leaf st0 p q r op t a b G G' Hwt Hfold Hp HpG _ _ _ _ _ _ _ Hops) as H.
  destruct lp as [l [v|]]; [discriminate (Hcn I)|]. exact H.
Qed.

(** The right operand in the type of the operation *)
Lemma left_other st lp rp t1 cp Gn m Gm c :
  left_const st lp rp t1 cp Gn m Gm c -> is_shift op = false ->
  fits t b /\ fits t m /\ sum_ok t (snd rp) /\
  wrap (type_width t) (value st m + opt_value (snd rp)) = wrap (type_width t) (value st0 b).
Proof using Htt Hwt Hfold Hp HpG.
  intros ((_ & _ & _ & _ & Hr & _) & _) Hsh. pose proof Hwt as (_ & _ & [E|Hfb] & _); [congruence|].
  destruct (side_in_type leaf _ _ _ _ _ _ _ t (right_wt st0 op t a b Hwt) (node_small st0 op t a b Hwt) Hfb Hr)
    as (Hfm & Ev & Hs). done.
Qed.

(** The node with its left operand read and its right operand as it is *)
Lemma left_modular st lp rp t1 cp Gn m Gm c :
  left_const st lp rp t1 cp Gn m Gm c -> is_shift op = false -> modular op = true ->
  wrap (type_width t) (bin_of st0 op t a b)
  = wrap (type_width t) (default 0 (bin_value op t (ival (GetValue c)) (value st m + opt_value (snd rp)) 0)).
Proof using Htt Hwt Hfold Hp HpG.
  intros Hlc Hsh Hmod. destruct (left_other _ _ _ _ _ _ _ _ _ Hlc Hsh) as (_ & _ & _ & Ev).
  destruct Hlc as (Hops & _ & Hc). rewrite (read_value _ _ _ _ _ Hc).
  rewrite (left_value typeTable leaf st0 p q r op t a b G G' Hwt Hfold _ _ _ _ _ _ _ Hops I).
  apply (bin_value_congr t (node_small st0 op t a b Hwt)); try done; [by right|congruence].
Qed.

Lemma left_wf st lp rp t1 cp Gn m Gm c :
  left_const st lp rp t1 cp Gn m Gm c -> opt_wf (Some (GetValue c)) /\ opt_wf (snd rp).
Proof using Htt Hwt Hfold Hp HpG.
  intros ((_ & _ & _ & _ & Hr & _) & _ & Hc). split; [apply (read_val _ _ _ _ _ Hc)|by eapply side_opt_wf].
Qed.

Lemma left_add st lp rp t1 cp Gn m Gm c :
  left_const st lp rp t1 cp Gn m Gm c -> op = OP_add ->
  wpm (s ← lift (AddSub (Some (GetValue c)) (snd rp) true); mret (fst rp, s)) st (bin_result st).
Proof using Htt Hwt Hfold Hp HpG.
  intros Hlc Eop. pose proof (left_wf _ _ _ _ _ _ _ _ _ Hlc) as [W1 W2].
  assert (is_shift op = false) as Hsh by by rewrite Eop. assert (modular op = true) as Hmod by by rewrite Eop.
  pose proof (left_modular _ _ _ _ _ _ _ _ _ Hlc Hsh Hmod) as Ev.
  destruct (left_other _ _ _ _ _ _ _ _ _ Hlc Hsh) as (Hfb & _ & _ & _).
  assert (arith t) as Har by (pose proof (proj1 Hwt) as H; by rewrite Eop in H).
  apply wpm_bind, wpm_lift. eapply wp_mono; [by apply (AddSub_ok t)|]. intros s (Hs & _ & Es). apply wpm_ret.
  pose proof Hlc as (Hops & Hm & _).
  apply (keep_right typeTable leaf st0 p q r op t a b G G' Hwt st lp rp _ _ m Gm s Hops); try done.
  rewrite Ev, Eop. cbn [bin_value default opt_value] in *.
  rewrite <- wrap_add_r, Es, wrap_add_r. f_equal. cbn; lia.
Qed.

Lemma left_sub st lp rp t1 cp Gn m Gm c :
  left_const st lp rp t1 cp Gn m Gm c -> op = OP_sub -> node_ptyp m <> PTY_u1 -> nonconst st (fst rp) ->
  wpm (s ← lift (AddSub (Some (GetValue c)) (snd rp) false);
       e ← (if GetPrimTypeSize (node_ptyp b) <? GetPrimTypeSize t
            then New (TypeCvtCell OP_cvt t (node_ptyp b) (fst rp)) else mret (fst rp));
       z ← NegateTree e; mret (z, s)) st (bin_result st).
Proof using Htt Hwt Hfold Hp HpG.
  intros Hlc Eop Hu Hnc. pose proof (left_wf _ _ _ _ _ _ _ _ _ Hlc) as [W1 W2].
  assert (is_shift op = false) as Hsh by by rewrite Eop. assert (modular op = true) as Hmod by by rewrite Eop.
  pose proof (left_modular _ _ _ _ _ _ _ _ _ Hlc Hsh Hmod) as Ev.
  destruct (left_other _ _ _ _ _ _ _ _ _ Hlc Hsh) as (Hfb & Hfm & _ & _).
  assert (arith t) as Har by (pose proof (proj1 Hwt) as H; by rewrite Eop in H).
  pose proof (node_small st0 op t a b Hwt) as Ht.
  apply wpm_bind, wpm_lift. eapply wp_mono; [by apply (AddSub_ok t)|]. intros s (Hs & _ & Es).
  destruct Hlc as ((Hok & Hsize & _ & _ & (Hm & HGm & Hfbm & _ & _ & _ & HXm & _) & _) & Hmc & _).
  assert (GetPrimTypeSize (node_ptyp b) = GetPrimTypeSize t) as ->.
  { assert (node_ptyp b <> PTY_u1) as Hbu by (intros E; rewrite E in Hfbm; apply Hu; by eapply fits_u1; [apply Hm|]).
    apply arith_size; [split; [eapply wt_small; exact (right_wt st0 op t a b Hwt)|done]|done|by destruct Hfb]. }
  rewrite Z.ltb_irrefl. apply wpm_bind, wpm_ret, wpm_bind.
  eapply wpm_mono; [apply (NegateTree_spec typeTable leaf st (fst rp) m Gm Hok Hm Hnc Hu); intros H; exact (HXm FNegConst H)|].
  intros st' z (Hg & Hnz & m2 & G2 & Hm2 & HG2 & Hf2 & Ev2 & HX2). apply wpm_ret.
  rewrite (fits_width _ _ Hfm Hu) in Ev2.
  pose proof (nonconst_tree _ _ _ _ Hnz Hm2) as Hm2c.
  apply (result_intro typeTable leaf st0 p op t a b G G' Hwt st st' z m2 G2 s); try done.
  - apply within_right. eapply within_trans; [exact Hsize|exact HG2|exact HGm].
  - eapply fits_congr; [|exact Hf2]. by apply fits_width.
  - rewrite Ev, Eop. cbn [bin_value default opt_value] in *.
    transitivity (wrap (type_width t) (- value st m + (ival (GetValue c) - opt_value (snd rp)))); [by apply (wrap_add_congr t)|].
    f_equal. cbn; lia.
  - intros x Hx. apply allowed_right, HXm. by apply HX2.
Qed.

Lemma left_mul st lp rp t1 cp Gn m Gm c :
  left_const st lp rp t1 cp Gn m Gm c -> op = OP_mul ->
  wpm (s ← lift (opt_mul (Some (GetValue c)) (snd rp));
       e ← (if GetPrimTypeSize (node_ptyp m) <? GetPrimTypeSize t
            then New (TypeCvtCell OP_cvt t PTY_i32 (fst rp)) else mret (fst rp));
       z ← NewBinaryNode p OP_mul t (fst lp) e; mret (z, s)) st (bin_result st).
Proof using Htt Hwt Hfold Hp HpG.
  intros Hlc Eop. pose proof (left_wf _ _ _ _ _ _ _ _ _ Hlc) as [W1 W2].
  assert (is_shift op = false) as Hsh by by rewrite Eop. assert (modular op = true) as Hmod by by rewrite Eop.
  pose proof (left_modular _ _ _ _ _ _ _ _ _ Hlc Hsh Hmod) as Ev. pose proof (left_fits _ _ _ _ _ _ _ _ _ Hlc) as Hf1.
  destruct (left_other _ _ _ _ _ _ _ _ _ Hlc Hsh) as (_ & Hfm & _ & _).
  assert (arith t) as Har by (pose proof (proj1 Hwt) as H; by rewrite Eop in H).
  pose proof (node_small st0 op t a b Hwt) as Ht.
  apply wpm_bind, wpm_lift. eapply wp_mono; [by apply (opt_mul_ok t)|]. intros s (Hs & Es).
  destruct Hlc as ((Hok & Hsize & Hc & (Hn & HGn & _ & _ & _ & _ & HXn & _) & (Hm & HGm & _ & _ & _ & _ & HXm & _) & Hd) & _ & Hrd).
  apply wpm_bind. eapply wpm_mono; [by apply (widen_spec typeTable leaf st (fst rp) m Gm t)|].
  intros st1 e (Hg & _ & k & Gk & Hk & HGk & Hfk & Ek & HXk). apply wpm_bind. rewrite <- Eop.
  eapply wpm_mono; [apply (result_new typeTable leaf st0 p q r op t a b G G' Hwt Hp HpG st st1 (fst lp) e
    (ConstvalNode t1 cp) Gn k Gk s); try done|done].
  - by eapply cell_grow.
  - pose proof (own_grow typeTable _ _ _ _ _ Hn Hg) as Hn1. unfold joined. split_and?; try done.
    + by eapply within_trans.
    + symmetry. eapply within_disjoint; [exact HGk|done|by eapply own_bound].
    + split; [exact (proj1 Hwt)|]. split; [exact Hf1|]. split; [by right|]. split; [apply Hn1|apply Hk].
    + intros x Hx. by apply allowed_left, HXn.
    + intros x Hx. destruct (HXk x Hx) as [Hx'|Hx']; [by apply allowed_op, op_has_type|by apply allowed_right, HXm].
    + by rewrite Eop.
  - rewrite Ev. unfold ConstantFoldOperands.bin_of. rewrite Eop. cbn [bin_value default opt_value] in *.
    rewrite (value_grow typeTable leaf st st1), <- (read_value _ _ _ _ _ Hrd) by (done || apply Hn).
    transitivity (wrap (type_width t) (ival (GetValue c) * value st m + ival (GetValue c) * opt_value (snd rp)));
      [by apply (wrap_add_congr t); [by apply (wrap_mul_congr t)|]|]. f_equal. cbn; lia.
Qed.

(** *** Logical operators *)

Lemma logical_u1 : In op [OP_cand; OP_land; OP_lior; OP_cior] ->
  t = PTY_u1 /\ node_ptyp a = PTY_u1 /\ node_ptyp b = PTY_u1.
Proof using Htt Hwt Hfold Hp HpG leaf.
  intros Hop. pose proof (boolean_u1 _ _ (left_wt st0 op t a b Hwt)) as Ha.
  pose proof (boolean_u1 _ _ (right_wt st0 op t a b Hwt)) as Hb. pose proof (proj1 Hwt) as Hty.
  cbn [In] in Hop. destruct_or! Hop; subst op; cbn [binary_foldable binary_type] in *; tauto.
Qed.

(** The right operand of a logical operator *)
Lemma logical_right st lp rp n Gn m Gm :
  operands st lp rp n Gn m Gm -> In op [OP_cand; OP_land; OP_lior; OP_cior] ->
  snd rp = None /\ node_ptyp m = PTY_u1 /\ value st m = value st0 b /\ 0 <= value st0 b <= 1.
Proof using Htt Hwt Hfold Hp HpG.
  intros (_ & _ & _ & _ & Hr & _) Hop. destruct (logical_u1 Hop) as (_ & _ & Eb).
  pose proof (side_alone leaf _ _ _ _ _ _ _ Hr) as Her. pose proof (u1_range leaf _ _ (right_wt st0 op t a b Hwt) Eb) as Hrg.
  destruct Hr as (_ & _ & _ & _ & Hs & _). rewrite Eb in Hs. destruct (snd rp); [by destruct Hs|].
  destruct (Her eq_refl) as (_ & _ & Hst & _).
  destruct (stands_bool leaf _ _ _ _ (right_wt st0 op t a b Hwt) Hst Eb) as [Em Ev]. done.
Qed.

(** The comparison of the right operand with 0 *)
Lemma left_not_zero st lp rp t1 cp Gn m Gm c :
  left_const st lp rp t1 cp Gn m Gm c ->
  (In op [OP_cand; OP_land] /\ ival (GetValue c) <> 0) \/ (In op [OP_lior; OP_cior] /\ ival (GetValue c) = 0) ->
  wpm (z ← CreateIntConst typeTable 0 (node_ptyp m); e ← New (CompareCell OP_ne t (node_ptyp m) (fst rp) z);
       mret (e, None)) st (bin_result st).
Proof using Htt Hwt Hfold Hp HpG.
  intros (Hops & Hmc & Hc) Hor.
  assert (In op [OP_cand; OP_land; OP_lior; OP_cior]) as Hop by (destruct Hor as [[Hop _]|[Hop _]]; cbn [In] in *; tauto).
  assert (wrap (type_width t) (bin_of st0 op t a b) = wrap (type_width t) (Z.b2z (negb (value st0 b =? 0)))) as Ev.
  { rewrite (left_value typeTable leaf st0 p q r op t a b G G' Hwt Hfold _ _ _ _ _ _ _ Hops I).
    rewrite <- (read_value _ _ _ _ _ Hc). f_equal. destruct Hor as [[Ho E]|[Ho E]];
      [apply Z.eqb_neq in E|apply Z.eqb_eq in E]; cbn [In] in Ho; destruct_or! Ho; rewrite <- Ho;
      cbn [bin_value default]; cbn; by rewrite E. }
  destruct (logical_right _ _ _ _ _ _ _ Hops Hop) as (_ & Em & Evm & Hrg).
  destruct (logical_u1 Hop) as (Et & _ & _). destruct Hops as (Hok & Hsize & _ & _ & (Hm & HGm & _ & _ & _ & _ & HXm & _) & _).
  rewrite Em. apply wpm_bind. eapply wpm_mono; [by apply (CreateIntConst_spec typeTable Htt leaf st PTY_u1 0 0)|].
  intros st1 z (Hg & -> & k & Hk & Evk). pose proof (own_grow typeTable _ _ _ _ _ Hm Hg) as Hm1.
  apply wpm_bind, wpm_new, wpm_ret.
  pose proof (grow_new typeTable st1 (CompareCell OP_ne t PTY_u1 (fst rp) (size_of st)) (grow_ok _ _ _ Hg)) as Hg2.
  assert (wt (objs st1) (CompareNode OP_ne t PTY_u1 m (ConstvalNode PTY_u1 k))) as Hw
    by (split; [done|]; split; [done|]; split; [by right|]; split; [by right|]; split; [apply Hm1|apply Hk]).
  apply (result_intro typeTable leaf st0 p op t a b G G' Hwt st _ _
    (CompareNode OP_ne t PTY_u1 m (ConstvalNode PTY_u1 k)) ({[size_of st1]} ∪ (Gm ∪ {[size_of st]})) None); try done.
  - by eapply grow_trans.
  - apply own_new_compare; [done|done| |done]. apply disjoint_singleton_r. by eapply fresh_root.
  - apply within_union; [apply within_fresh; etrans; [exact Hsize|by eapply grow_size]|].
    apply within_union; [by apply within_right|by apply within_fresh].
  - by left.
  - cbn [opt_value]. rewrite Z.add_0_r, (value_grow typeTable leaf st1), value_compare by done.
    rewrite Evk, (value_grow typeTable leaf st st1), Evm, Ev by (done || apply Hm).
    rewrite wrap_in_type by (by rewrite Et).
    change (in_type PTY_u1 (in_type PTY_u1 0)) with 0.
    by rewrite (in_type_bool PTY_u1 (value st0 b)).
  - intros x [Hx|[Hx|Hx]].
    + apply allowed_op. destruct x; cbn [op_has] in *; try done; (by destruct Hx) || (left; by destruct Hx).
    + by apply allowed_right, HXm.
    + apply allowed_op, op_has_type. by rewrite Et.
Qed.

Lemma left_one st lp rp t1 cp Gn m Gm c :
  left_const st lp rp t1 cp Gn m Gm c -> ival (GetValue c) <> 0 -> In op [OP_lior; OP_cior] ->
  wpm (z ← CreateIntConst typeTable 1 (type_prim (GetType c)); mret (z, None)) st (bin_result st).
Proof using Htt Hwt Hfold Hp HpG.
  intros Hlc Hne Hop. pose proof Hlc as (Hops & _ & Hc).
  apply (left_new_const st lp rp t1 cp Gn m Gm c 1 1); try done.
  rewrite (left_value typeTable leaf st0 p q r op t a b G G' Hwt Hfold _ _ _ _ _ _ _ Hops I).
  rewrite (in_type_1 t1 (read_small _ _ _ _ _ Hc)), <- (read_value _ _ _ _ _ Hc).
  apply Z.eqb_neq in Hne. cbn [In] in Hop. destruct_or! Hop; rewrite <- Hop; cbn [bin_value default]; cbn; by rewrite Hne.
Qed.

(** The right operand is the result. *)
Lemma left_same st lp rp t1 cp Gn m Gm c :
  left_const st lp rp t1 cp Gn m Gm c ->
  (op = OP_mul /\ ival (GetValue c) = 1) \/ (In op [OP_bior; OP_bxor] /\ ival (GetValue c) = 0) ->
  bin_result st st (fst rp, snd rp).
Proof using Htt Hwt Hfold Hp HpG.
  intros Hlc Hor. assert (is_shift op = false /\ modular op = true) as [Hsh Hmod].
  { destruct Hor as [[Eop _]|[Hop _]]; [by rewrite Eop|]. cbn [In] in Hop. by destruct_or! Hop; rewrite <- Hop. }
  pose proof (left_modular _ _ _ _ _ _ _ _ _ Hlc Hsh Hmod) as Ev.
  destruct (left_other _ _ _ _ _ _ _ _ _ Hlc Hsh) as (Hfb & _ & Hs & _). destruct Hlc as (Hops & Hm & _).
  apply (keep_right typeTable leaf st0 p q r op t a b G G' Hwt st lp rp _ _ m Gm (snd rp) Hops); try done.
  rewrite Ev. f_equal. destruct Hor as [[Eop Ec]|[Hop Ec]]; rewrite Ec.
  - rewrite Eop. cbn [bin_value default]. cbn; lia.
  - cbn [In] in Hop. destruct_or! Hop; rewrite <- Hop; cbn [bin_value default]; cbn; by rewrite ?Z.lor_0_l, ?Z.lxor_0_l.
Qed.

(** ** The fold *)

Lemma lconst_result_spec st lp rp t1 cp Gn m Gm :
  operands st lp rp (ConstvalNode t1 cp) Gn m Gm -> nonconst st (fst rp) ->
  wpm (lconst_result typeTable p op t (node_ptyp b) (fst lp) cp rp) st (bin_result st).
Proof using Htt Hwt Hfold Hp HpG.
  intros Hops Hnc. pose proof Hops as (Hok & _ & _ & Hl & Hr & _).
  destruct (const_reads leaf _ _ _ _ _ (proj1 Hl)) as [c Hc]. pose proof (read_val _ _ _ _ _ Hc) as Hv.
  assert (left_const st lp rp t1 cp Gn m Gm c) as Hlc
    by (split; [done|split; [exact (nonconst_tree _ _ _ _ Hnc (proj1 Hr))|done]]).
  pose proof Hr as (Hm & _ & _ & _ & Hs & _). destruct (own_cell _ _ _ _ Hm) as (rc & Hrc & _ & Ert & _).
  unfold lconst_result. eapply wpm_bind, wpm_get_const; [exact (read_cell _ _ _ _ _ Hc)|].
  rewrite IntVal_copy_spec by apply Hv. apply wpm_bind, wpm_lift, wp_ret.
  eapply wpm_bind, wpm_type; [exact Hrc|]. rewrite Ert, !op_eq_int64_small by done.
  apply wpm_bind, wpm_lift, wp_ret, wpm_bind, wpm_lift, wp_ret, wpm_bind, wpm_lift, wp_ret.
  rewrite (has_nonzero_eq _ _ Hs). apply wpm_bind, wpm_lift, wp_ret. rewrite (read_0 leaf _ _ _ _ Hc).
  cbv zeta. pose proof (left_rebuild _ _ _ _ _ _ _ _ _ Hlc) as Hrebuild.
  destruct (op_eqb op OP_add) eqn:Eadd.
  { apply op_eqb_spec in Eadd. apply wpm_bind.
    assert (exists over, match snd rp with
        | Some v => if IsSignedInteger (type_prim (GetType c)) then values_overflow OP_add (type_prim (GetType c)) (GetValue c) v else Ret false
        | None => Ret false end = Ret over) as [over ->].
    { destruct (snd rp) as [v|]; [|by eexists]. destruct (IsSignedInteger _); [|by eexists].
      apply values_overflow_returns; [done|apply Hs]. }
    apply wpm_lift, wp_ret. destruct over; [exact Hrebuild|by eapply left_add]. }
  destruct (op_eqb op OP_sub && negb (pty_eqb (node_ptyp m) PTY_u1)) eqn:Esub.
  { apply andb_true_iff in Esub as [Esub Eu]. apply op_eqb_spec in Esub.
    eapply left_sub; try done. intros E. by rewrite E in Eu. }
  destruct (one_of [OP_mul; OP_div; OP_rem; OP_ashr; OP_lshr; OP_shl; OP_band; OP_cand; OP_land] op
            && (ival (GetValue c) =? 0)) eqn:Ezero.
  { apply andb_true_iff in Ezero as [Eop E0]. apply one_of_spec in Eop. apply Z.eqb_eq in E0. by eapply left_zero. }
  destruct (op_eqb op OP_mul && (swrap 64 (ival (GetValue c)) =? 1)) eqn:Eone.
  { apply andb_true_iff in Eone as [Eop E1]. apply op_eqb_spec in Eop. apply wpm_ret.
    eapply left_same; [exact Hlc|left]. split; [done|]. rewrite (read_value _ _ _ _ _ Hc). by eapply read_1. }
  destruct (op_eqb op OP_bior && (swrap 64 (ival (GetValue c)) =? -1)) eqn:Eones.
  { apply andb_true_iff in Eones as [Eop E1]. apply op_eqb_spec in Eop. by eapply left_ones. }
  destruct (op_eqb op OP_mul && negb (opt_value (snd rp) =? 0)) eqn:Emul.
  { apply andb_true_iff in Emul as [Eop _]. apply op_eqb_spec in Eop. by eapply left_mul. }
  destruct (one_of [OP_lior; OP_cior] op) eqn:Eior.
  { apply one_of_spec in Eior. destruct (Z.eqb_spec (ival (GetValue c)) 0) as [E0|Hne]; cbn [negb]; [|by eapply left_one].
    eapply left_not_zero; [exact Hlc|by right]. }
  destruct (one_of [OP_cand; OP_land] op && negb (ival (GetValue c) =? 0)) eqn:Eand.
  { apply andb_true_iff in Eand as [Eop E0]. apply one_of_spec in Eop. apply negb_true_iff, Z.eqb_neq in E0.
    eapply left_not_zero; [exact Hlc|by left]. }
  destruct (one_of [OP_bior; OP_bxor] op && (ival (GetValue c) =? 0)) eqn:Ebit; [|exact Hrebuild].
  apply andb_true_iff in Ebit as [Eop E0]. apply one_of_spec in Eop. apply Z.eqb_eq in E0. apply wpm_ret.
  eapply left_same; [exact Hlc|by right].
Qed.
End Node.
End Binary.
