(* ===== verification/ConstantFoldRight.v ===== *)
(** * Folding of a binary node with a constant on the right

    The folds of FoldBinary when the right operand is a constant and the left
    one is not: each leaves the value of the node. *)
From S2P Require Import Prelude.
From S2P Require Import PrimTypes.
From S2P Require Import Opcodes.
From S2P Require Import IntWords.
From S2P Require Import IntVal.
From S2P Require Import IntValFacts.
From S2P Require Import IntValArith.
From S2P Require Import IntValOrder.
From S2P Require Import IntValCount.
From S2P Require Import IntValDiv.
From S2P Require Import IntValSpec.
From S2P Require Import IntValTyped.
From S2P Require Import IntConst.
From S2P Require Import IntConstFacts.
From S2P Require Import ConstantFold.
From S2P Require Import ConstantFoldFacts.
From S2P Require Import ConstantFoldExpr.
From S2P Require Import ExprMem.
From S2P Require Import ExprTree.
From S2P Require Import ExprTreeFacts.
From S2P Require Import ExprMemFacts.
From S2P Require Import ConstantFoldTree.
From S2P Require Import ConstantFoldPair.
From S2P Require Import ConstantFoldUnary.
From S2P Require Import ConstantFoldValues.
From S2P Require Import ConstantFoldOperands.
From S2P Require Import ConstantFoldBinary.
From stdpp Require Import gmap.
#[local] Open Scope Z_scope.

Section Binary.
Context `{HT : Target}.
Context (typeTable : list (option MIRType)).
Context (Htt : TypeTable_init `prefix_of` typeTable).
Context (leaf : nat -> Z).
Implicit Types (st : Mem) (t : PrimType) (n a b : BaseNode) (F G : gset nat) (X : feature -> Prop).

#[local] Abbreviation grow := (grow typeTable).
#[local] Abbreviation change := (change typeTable).
#[local] Abbreviation mem_ok := (mem_ok typeTable).
#[local] Abbreviation value := (value leaf).
#[local] Abbreviation outcome := (outcome leaf).
#[local] Abbreviation fold_spec := (fold_spec typeTable leaf).
#[local] Abbreviation folded := (folded typeTable leaf).


#[local] Abbreviation side := (side leaf).
#[local] Abbreviation expr := (expr leaf).
#[local] Abbreviation bin_of := (bin_of leaf).

(** The binary node at [p] of the memory [st0], before its operands are folded *)
Section Node.
Context (st0 : Mem) (p q r : nat) (op : Opcode) (t : PrimType) (a b : BaseNode) (G G' : gset nat).
Context (Hwt : wt (objs st0) (BinaryNode op t a b)) (Hfold : binary_foldable op t a b).
Context (Hp : (p < size_of st0)%nat) (HpG : p ∉ G ∪ G').

#[local] Abbreviation N := (BinaryNode op t a b).
#[local] Abbreviation F := ({[p]} ∪ (G ∪ G')).


#[local] Abbreviation operands := (operands typeTable leaf st0 p q r op t a b G G').
#[local] Abbreviation bin_result := (bin_result typeTable leaf st0 p op t a b G G').

(** The left operand, not a constant, beside the constant [cp] *)
Definition right_const st (lp rp : pair) n Gn t2 cp Gm c : Prop :=
  operands st lp rp n Gn (ConstvalNode t2 cp) Gm /\ ~ is_const n /\ const_read leaf st t2 cp c.

Lemma right_fits st lp rp n Gn t2 cp Gm c :
  right_const st lp rp n Gn t2 cp Gm c -> is_shift op = false -> type_width t2 = type_width t \/ t2 = PTY_u1.
Proof using Htt Hwt Hfold Hp HpG.
  intros ((_ & _ & _ & _ & Hr & _) & _) Hsh. destruct Hr as (Hm & _ & Hfm & _).
  pose proof Hwt as (_ & _ & [E|Hfb] & _); [congruence|]. exact (fits_trans _ _ _ _ (proj2 Hm) Hfb Hfm).
Qed.

Lemma right_rebuild st lp rp n Gn t2 cp Gm c :
  right_const st lp rp n Gn t2 cp Gm c ->
  wpm (e ← PairToExpr typeTable (node_ptyp a) lp; z ← NewBinaryNode p op t e (fst rp); mret (z, None)) st
    (bin_result st).
Proof using Htt Hwt Hfold Hp HpG.
  intros (Hops & _ & _). pose proof Hops as (_ & _ & _ & _ & Hr & _). destruct Hr as (_ & _ & _ & _ & _ & Hcm & _).
  pose proof (rebuild_spec typeTable Htt leaf st0 p q r op t a b G G' Hwt Hfold Hp HpG _ _ _ _ _ _ _ Hops) as H.
  destruct rp as [z [v|]]; [discriminate (Hcm I)|]. exact H.
Qed.

(** The left operand in the type of the operation *)
Lemma right_other st lp rp n Gn t2 cp Gm c :
  right_const st lp rp n Gn t2 cp Gm c ->
  fits t n /\ sum_ok t (snd lp) /\
  wrap (type_width t) (value st n + opt_value (snd lp)) = wrap (type_width t) (value st0 a).
Proof using Htt Hwt Hfold Hp HpG.
  intros ((_ & _ & _ & Hl & _) & _). pose proof Hwt as (_ & Hfa & _).
  destruct (side_in_type leaf _ _ _ _ _ _ _ t (left_wt st0 op t a b Hwt) (node_small st0 op t a b Hwt) Hfa Hl)
    as (Hfm & Ev & Hs). done.
Qed.

Lemma right_modular st lp rp n Gn t2 cp Gm c :
  right_const st lp rp n Gn t2 cp Gm c -> modular op = true ->
  wrap (type_width t) (bin_of st0 op t a b)
  = wrap (type_width t) (default 0 (bin_value op t (value st n + opt_value (snd lp)) (ival (GetValue c)) (uval (GetValue c)))).
Proof using Htt Hwt Hfold Hp HpG.
  intros Hrc Hmod. destruct (right_other _ _ _ _ _ _ _ _ _ Hrc) as (_ & _ & Ev).
  destruct Hrc as (Hops & _ & Hc). rewrite (read_value _ _ _ _ _ Hc), (read_uval leaf _ _ _ _ Hc).
  rewrite (right_value typeTable leaf st0 p q r op t a b G G' Hwt Hfold _ _ _ _ _ _ _ Hops I).
  apply (bin_value_congr t (node_small st0 op t a b Hwt)); try done. by right.
Qed.

Lemma right_wf st lp rp n Gn t2 cp Gm c :
  right_const st lp rp n Gn t2 cp Gm c -> opt_wf (snd lp) /\ opt_wf (Some (GetValue c)).
Proof using Htt Hwt Hfold Hp HpG.
  intros ((_ & _ & _ & Hl & _) & _ & Hc). split; [by eapply side_opt_wf|apply (read_val _ _ _ _ _ Hc)].
Qed.

(** ** The cases *)

(** A constant of the type of the right one *)
Lemma right_new_const st lp rp n Gn t2 cp Gm c bits v :
  right_const st lp rp n Gn t2 cp Gm c -> is_shift op = false ->
  wrap (type_width t2) bits = wrap (type_width t2) v ->
  wrap (type_width t) (in_type t2 v) = wrap (type_width t) (bin_of st0 op t a b) ->
  wpm (z ← CreateIntConst typeTable bits (type_prim (GetType c)); mret (z, None)) st (bin_result st).
Proof using Htt Hwt Hfold Hp HpG.
  intros Hrc Hsh Eb Ev. pose proof (right_fits _ _ _ _ _ _ _ _ _ Hrc Hsh) as Hf.
  destruct Hrc as ((Hok & Hsize & _ & _ & Hr & _) & _ & Hc). rewrite (read_prim _ _ _ _ _ Hc).
  apply wpm_bind. eapply wpm_mono; [apply (CreateIntConst_spec typeTable Htt leaf st t2 bits v); try done; apply Hc|].
  intros st' z Hz. apply wpm_ret. eapply (result_const typeTable leaf st0 p op t a b G G' Hwt st t2 v); try done.
  intros x Hx. apply allowed_right. destruct Hr as (_ & _ & _ & _ & _ & _ & HX & _). apply HX. exact Hx.
Qed.

Lemma right_zero st lp rp n Gn t2 cp Gm c :
  right_const st lp rp n Gn t2 cp Gm c ->
  (In op [OP_mul; OP_band; OP_cand; OP_land] /\ ival (GetValue c) = 0) \/ (op = OP_rem /\ ival (GetValue c) = 1) ->
  wpm (z ← CreateIntConst typeTable 0 (type_prim (GetType c)); mret (z, None)) st (bin_result st).
Proof using Htt Hwt Hfold Hp HpG.
  intros Hrc Hor. pose proof Hrc as (Hops & _ & Hc).
  assert (is_shift op = false) as Hsh.
  { destruct Hor as [[Hop _]|[-> _]]; [|done]. cbn [In] in Hop. by destruct_or! Hop; rewrite <- Hop. }
  apply (right_new_const st lp rp n Gn t2 cp Gm c 0 0); try done.
  rewrite (right_value typeTable leaf st0 p q r op t a b G G' Hwt Hfold _ _ _ _ _ _ _ Hops I).
  rewrite <- (read_value _ _ _ _ _ Hc), (in_type_0 t2 (read_small _ _ _ _ _ Hc)). f_equal.
  destruct Hor as [[Hop ->]|[-> ->]]; [by rewrite bin_zero_right|]. rewrite bin_rem_one; [done|by eapply node_small].
Qed.

Lemma right_ones st lp rp n Gn t2 cp Gm c :
  right_const st lp rp n Gn t2 cp Gm c -> (swrap 64 (ival (GetValue c)) =? -1) = true -> op = OP_bior ->
  wpm (z ← CreateIntConst typeTable (wrap 64 (-1)) (type_prim (GetType c)); mret (z, None)) st (bin_result st).
Proof using Htt Hwt Hfold Hp HpG.
  intros Hrc E1 Eop. pose proof Hrc as (Hops & _ & Hc). pose proof (node_small st0 op t a b Hwt) as Ht.
  pose proof (small_width t Ht). pose proof (small_width t2 (read_small _ _ _ _ _ Hc)).
  assert (is_shift op = false) as Hsh by by rewrite Eop.
  pose proof (right_fits _ _ _ _ _ _ _ _ _ Hrc Hsh) as Hf.
  assert (type_width t2 = type_width t) as Ew by (destruct Hf as [|Eu]; [done|by apply (read_m1 leaf _ _ _ _ Hc) in E1]).
  apply (right_new_const st lp rp n Gn t2 cp Gm c (wrap 64 (-1)) (-1)); try done; [by apply wrap_wrap_le; lia|].
  rewrite (right_value typeTable leaf st0 p q r op t a b G G' Hwt Hfold _ _ _ _ _ _ _ Hops I).
  rewrite <- Ew, wrap_in_type, Ew by apply Hc. rewrite Eop. cbn [bin_value default]. symmetry.
  cbn. rewrite Z.lor_comm. apply wrap_lor_ones; [done|]. rewrite <- Ew. by apply (read_eq leaf st t2 cp c).
Qed.

Lemma right_one st lp rp n Gn t2 cp Gm c :
  right_const st lp rp n Gn t2 cp Gm c -> ival (GetValue c) <> 0 -> In op [OP_lior; OP_cior] ->
  wpm (z ← CreateIntConst typeTable 1 (type_prim (GetType c)); mret (z, None)) st (bin_result st).
Proof using Htt Hwt Hfold Hp HpG.
  intros Hrc Hne Hop. pose proof Hrc as (Hops & _ & Hc).
  assert (is_shift op = false) as Hsh by (cbn [In] in Hop; by destruct_or! Hop; rewrite <- Hop).
  apply (right_new_const st lp rp n Gn t2 cp Gm c 1 1); try done.
  rewrite (right_value typeTable leaf st0 p q r op t a b G G' Hwt Hfold _ _ _ _ _ _ _ Hops I).
  rewrite (in_type_1 t2 (read_small _ _ _ _ _ Hc)), <- (read_value _ _ _ _ _ Hc).
  apply Z.eqb_neq in Hne. cbn [In] in Hop.
  destruct_or! Hop; rewrite <- Hop; cbn [bin_value default]; cbn; by rewrite Hne, orb_true_r.
Qed.

(** The right constant is added to the one beside the left operand. *)
Lemma right_sum st lp rp n Gn t2 cp Gm c (isAdd : bool) :
  right_const st lp rp n Gn t2 cp Gm c -> op = (if isAdd then OP_add else OP_sub) ->
  wpm (s ← lift (AddSub (snd lp) (Some (GetValue c)) isAdd); mret (fst lp, s)) st (bin_result st).
Proof using Htt Hwt Hfold Hp HpG.
  intros Hrc Eop. pose proof (right_wf _ _ _ _ _ _ _ _ _ Hrc) as [W1 W2].
  assert (modular op = true) as Hmod by (rewrite Eop; by destruct isAdd).
  pose proof (right_modular _ _ _ _ _ _ _ _ _ Hrc Hmod) as Ev.
  assert (arith t) as Har by (pose proof (proj1 Hwt) as H; rewrite Eop in H; by destruct isAdd).
  apply wpm_bind, wpm_lift. eapply wp_mono; [by apply (AddSub_ok t)|]. intros s (Hs & _ & Es). apply wpm_ret.
  pose proof Hrc as (Hops & Hn & _).
  apply (keep_left typeTable leaf st0 p q r op t a b G G' Hwt st lp rp n Gn _ Gm s Hops); try done.
  rewrite Ev, Eop. cbn [opt_value] in *. rewrite <- wrap_add_r, Es, wrap_add_r. f_equal.
  destruct isAdd; cbn [bin_value default]; cbn; lia.
Qed.

(** The left operand is the result. *)
Lemma right_same st lp rp n Gn t2 cp Gm c :
  right_const st lp rp n Gn t2 cp Gm c ->
  (In op [OP_mul; OP_div] /\ ival (GetValue c) = 1) \/
  (In op [OP_ashr; OP_lshr; OP_shl; OP_bior; OP_bxor] /\ ival (GetValue c) = 0) \/
  (op = OP_band /\ (swrap 64 (ival (GetValue c)) =? -1) = true) ->
  bin_result st st (fst lp, snd lp).
Proof using Htt Hwt Hfold Hp HpG.
  intros Hrc Hor. pose proof (node_small st0 op t a b Hwt) as Ht.
  assert (modular op = true) as Hmod.
  { destruct Hor as [[Hop _]|[[Hop _]|[Eop _]]]; [| |by rewrite Eop];
      cbn [In] in Hop; by destruct_or! Hop; rewrite <- Hop. }
  pose proof (right_modular _ _ _ _ _ _ _ _ _ Hrc Hmod) as Ev.
  destruct (right_other _ _ _ _ _ _ _ _ _ Hrc) as (_ & Hs & _). pose proof Hrc as (Hops & Hn & Hc).
  apply (keep_left typeTable leaf st0 p q r op t a b G G' Hwt st lp rp n Gn _ Gm (snd lp) Hops); try done.
  rewrite Ev. symmetry. destruct Hor as [[Hop Ec]|[[Hop Ec]|[Eop Ec]]].
  - rewrite Ec. by apply bin_neutral_one.
  - rewrite (read_uval leaf _ _ _ _ Hc). unfold uread. rewrite <- (read_value _ _ _ _ _ Hc), Ec.
    change (wrap (type_width (node_ptyp (ConstvalNode t2 cp))) 0) with 0.
    by apply bin_neutral_zero.
  - assert (is_shift op = false) as Hsh by by rewrite Eop.
    assert (type_width t2 = type_width t) as Ew
      by (destruct (right_fits _ _ _ _ _ _ _ _ _ Hrc Hsh) as [|Eu]; [done|by apply (read_m1 leaf _ _ _ _ Hc) in Ec]).
    rewrite Eop. cbn [bin_value default]. apply wrap_land_ones; [done|].
    rewrite (read_value _ _ _ _ _ Hc), <- Ew. by apply (read_eq leaf st t2 cp c).
Qed.

(** x || 0 is x for a truth value. *)
Lemma right_same_logical st lp rp n Gn t2 cp Gm c :
  right_const st lp rp n Gn t2 cp Gm c -> In op [OP_lior; OP_cior] -> ival (GetValue c) = 0 ->
  bin_result st st (fst lp, snd lp).
Proof using Htt Hwt Hfold Hp HpG.
  intros Hrc Hop Ec. pose proof Hrc as (Hops & Hn & Hc).
  destruct (right_other _ _ _ _ _ _ _ _ _ Hrc) as (_ & Hs & Ev).
  assert (node_ptyp a = PTY_u1) as Ea.
  { apply (boolean_u1 (objs st0)); [exact (left_wt st0 op t a b Hwt)|]. cbn [In] in Hop.
    destruct_or! Hop; pose proof Hfold as Hb; rewrite <- Hop in Hb; apply Hb. }
  pose proof (u1_range leaf _ _ (left_wt st0 op t a b Hwt) Ea) as Hrg.
  apply (keep_left typeTable leaf st0 p q r op t a b G G' Hwt st lp rp n Gn _ Gm (snd lp) Hops); try done.
  rewrite (right_value typeTable leaf st0 p q r op t a b G G' Hwt Hfold _ _ _ _ _ _ _ Hops I).
  assert (value st0 a = 0 \/ value st0 a = 1) as Hv01 by (unfold ConstantFoldPair.value; lia).
  rewrite Ev, <- (read_value _ _ _ _ _ Hc), Ec. f_equal.
  cbn [In] in Hop. destruct_or! Hop; rewrite <- Hop; cbn [bin_value default]; cbn; by destruct Hv01 as [-> | ->].
Qed.

Lemma right_mul st lp rp n Gn t2 cp Gm c lc :
  right_const st lp rp n Gn t2 cp Gm c -> op = OP_mul -> cells st !! fst lp = Some lc ->
  wpm (s ← lift (opt_mul (snd lp) (Some (GetValue c)));
       e ← (if GetPrimTypeSize (GetPrimType lc) <? GetPrimTypeSize t
            then New (TypeCvtCell OP_cvt t PTY_i32 (fst lp)) else mret (fst lp));
       fc ← get e;
       if op_eqb (GetOpCode fc) OP_neg && (swrap 64 (ival (GetValue c)) =? -1)
       then x ← lift (Opnd fc 0); mret (x, s)
       else z ← NewBinaryNode p OP_mul t e (fst rp); mret (z, s)) st (bin_result st).
Proof using Htt Hwt Hfold Hp HpG.
  intros Hrc Eop Hlc. pose proof (right_wf _ _ _ _ _ _ _ _ _ Hrc) as [W1 W2].
  assert (is_shift op = false) as Hsh by by rewrite Eop. assert (modular op = true) as Hmod by by rewrite Eop.
  pose proof (right_modular _ _ _ _ _ _ _ _ _ Hrc Hmod) as Ev. pose proof (right_fits _ _ _ _ _ _ _ _ _ Hrc Hsh) as Hf2.
  destruct (right_other _ _ _ _ _ _ _ _ _ Hrc) as (Hfn & _ & _).
  assert (arith t) as Har by (pose proof (proj1 Hwt) as H; by rewrite Eop in H).
  pose proof (node_small st0 op t a b Hwt) as Ht.
  apply wpm_bind, wpm_lift. eapply wp_mono; [by apply (opt_mul_ok t)|]. intros s (Hs & Es).
  destruct Hrc as ((Hok & Hsize & Hc & (Hn & HGn & _ & _ & _ & _ & HXn & _) & (Hm & HGm & _ & _ & _ & _ & HXm & _) & Hd) & Hnc & Hrd).
  rewrite (own_type _ _ _ _ _ Hn Hlc). cbn [opt_value] in *.
  apply wpm_bind. eapply wpm_mono; [by apply (widen_spec typeTable leaf st (fst lp) n Gn t)|].
  intros st1 e (Hg & Hsame & k & Gk & Hk & HGk & Hfk & Ek & HXk).
  destruct (own_cell _ _ _ _ Hk) as (fc & Hfc & Efo & _). eapply wpm_bind, wpm_get; [exact Hfc|].
  assert (wrap (type_width t) (value st1 k * ival (GetValue c) + opt_value s)
    = wrap (type_width t) (bin_of st0 op t a b)) as Ev1.
  { rewrite Ev, Eop. cbn [bin_value default].
    transitivity (wrap (type_width t) (value st n * ival (GetValue c) + opt_value (snd lp) * ival (GetValue c)));
      [by apply (wrap_add_congr t); [by apply (wrap_mul_congr t)|]|]. f_equal. cbn; lia. }
  destruct (op_eqb (GetOpCode fc) OP_neg && _) eqn:Eneg.
  - apply andb_true_iff in Eneg as [En E1]. apply op_eqb_spec in En. rewrite Efo in En.
    assert (type_width t2 = type_width t) as Ew by (destruct Hf2 as [|Eu]; [done|by apply (read_m1 leaf _ _ _ _ Hrd) in E1]).
    destruct (own_neg _ _ _ _ Hk En) as (t' & x & y & Gy & -> & Hy & Hx & _ & HGy & Har' & Hfx).
    rewrite Hfc in Hy. injection Hy as ->. apply wpm_bind, wpm_lift, wp_ret, wpm_ret.
    assert (type_width t' = type_width t) as Ew' by (destruct Hfk as [|Eu]; [done|by destruct Har']).
    destruct Hsame as [[-> ->]|(c' & Hc' & Ecvt)]; [|rewrite Hfc in Hc'; injection Hc' as <-; done].
    apply (result_intro typeTable leaf st0 p op t a b G G' Hwt st st y x Gy s); try done.
    + apply within_left. intros z Hz. by apply (within_trans _ _ _ _ _ Hsize HGk HGn), HGy.
    + by eapply fits_congr.
    + rewrite <- Ev1. apply (wrap_add_congr t); [|done].
      rewrite (value_unary leaf st). cbn [unary_value default].
      transitivity (wrap (type_width t) (- value st x * (-1))).
      * f_equal. lia.
      * apply (wrap_mul_congr t); [|rewrite (read_value _ _ _ _ _ Hrd), <- Ew; symmetry; by apply (read_eq leaf st t2 cp c)].
        rewrite <- Ew'. symmetry. apply wrap_in_type, Har'.
    + intros Hx'. exfalso. destruct (HXk FNegConst) as [Hf|Hf]; [by right; right|done|exact (HXn FNegConst Hf)].
    + intros f Hf. destruct (HXk f) as [Hf'|Hf']; [by right; left|by apply allowed_op, op_has_type|by apply allowed_left, HXn].
  - apply wpm_bind. rewrite <- Eop.
    eapply wpm_mono; [apply (result_new typeTable leaf st0 p q r op t a b G G' Hwt Hp HpG st st1 e (fst rp)
      k Gk (ConstvalNode t2 cp) Gm s); try done|done].
    + by eapply cell_grow.
    + pose proof (own_grow typeTable _ _ _ _ _ Hm Hg) as Hm1. unfold joined. split_and?; try done.
      * by eapply within_trans.
      * eapply within_disjoint; [exact HGk|done|by eapply own_bound].
      * split; [exact (proj1 Hwt)|]. split; [exact Hfk|]. split; [by right|]. split; [apply Hk|apply Hm1].
      * intros x Hx. destruct (HXk x Hx) as [Hx'|Hx']; [by apply allowed_op, op_has_type|by apply allowed_left, HXn].
      * intros x Hx. by apply allowed_right, HXm.
      * by rewrite Eop.
    + rewrite <- Ev1. unfold ConstantFoldOperands.bin_of. rewrite Eop. cbn [bin_value default].
      by rewrite (value_grow typeTable leaf st st1 (ConstvalNode t2 cp) (proj2 Hm) Hg), <- (read_value _ _ _ _ _ Hrd).
Qed.
End Node.
End Binary.
