(* ===== verification/ConstantFoldBits.v ===== *)
(** * Masks and truth values

    The two folds of FoldBinary that replace the node by one of another class:
    a shift under a mask becomes an extraction of bits, and the negation of a
    converted truth value is done on the truth value. *)
From S2P Require Import Prelude.
From S2P Require Import PrimTypes.
From S2P Require Import Opcodes.
From S2P Require Import IntWords.
From S2P Require Import IntVal.
From S2P Require Import IntValFacts.
From S2P Require Import IntValArith.
From S2P Require Import IntValOrder.
From S2P Require Import IntValCount.
From S2P Require Import IntValDiv.
From S2P Require Import IntValSpec.
From S2P Require Import IntValTyped.
From S2P Require Import IntConst.
From S2P Require Import IntConstFacts.
From S2P Require Import ConstantFold.
From S2P Require Import ConstantFoldFacts.
From S2P Require Import ConstantFoldExpr.
From S2P Require Import ExprMem.
From S2P Require Import ExprTree.
From S2P Require Import ExprTreeFacts.
From S2P Require Import ExprMemFacts.
From S2P Require Import ConstantFoldTree.
From S2P Require Import ConstantFoldPair.
From S2P Require Import ConstantFoldUnary.
From S2P Require Import ConstantFoldExtract.
From S2P Require Import ConstantFoldValues.
From S2P Require Import ConstantFoldOperands.
From S2P Require Import ConstantFoldBinary.
From S2P Require Import ConstantFoldRight.
From stdpp Require Import gmap.
#[local] Open Scope Z_scope.

Section Binary.
Context `{HT : Target}.
Context (typeTable : list (option MIRType)).
Context (Htt : TypeTable_init `prefix_of` typeTable).
Context (leaf : nat -> Z).
Implicit Types (st : Mem) (t : PrimType) (n a b : BaseNode) (F G : gset nat) (X : feature -> Prop).

#[local] Abbreviation grow := (grow typeTable).
#[local] Abbreviation change := (change typeTable).
#[local] Abbreviation mem_ok := (mem_ok typeTable).
#[local] Abbreviation value := (value leaf).
#[local] Abbreviation outcome := (outcome leaf).
#[local] Abbreviation fold_spec := (fold_spec typeTable leaf).
#[local] Abbreviation folded := (folded typeTable leaf).


#[local] Abbreviation side := (side leaf).
#[local] Abbreviation expr := (expr leaf).
#[local] Abbreviation bin_of := (bin_of leaf).


(** ** A shift under a mask *)

Lemma count_bits_spec i : 1 <= i <= 64 -> count_bits (2 ^ i - 1) = Ret i.
Proof.
  intros Hi.
  assert (forallb (fun k => match count_bits (2 ^ Z.of_nat k - 1) with Ret m => m =? Z.of_nat k | _ => false end)
    (seq 1 64) = true) as H by (vm_compute; reflexivity).
  rewrite forallb_forall in H. specialize (H (Z.to_nat i)). rewrite Z2Nat.id in H by lia.
  destruct (count_bits (2 ^ i - 1)) as [m|]; [|discriminate H; apply in_seq; lia].
  f_equal. apply Z.eqb_eq, H, in_seq. lia.
Qed.

Lemma unsigned_arith t :
  arith t -> arith (GetUnsignedPrimType t) /\ type_width (GetUnsignedPrimType t) = type_width t /\
    IsSignedInteger (GetUnsignedPrimType t) = false.
Proof.
  intros [[Ht H128] Hu]. destruct t; try discriminate Ht; try discriminate H128; try done; by destruct HT.
Qed.

(** The value of the shift under the mask *)
Lemma mask_value t t' v i s z :
  small_int t -> type_width t' = type_width t -> 0 <= i -> 1 <= s -> i + s <= type_width t ->
  wrap (type_width t) z = wrap (type_width t) v ->
  wrap (type_width t) (Z.land (in_type t' (z / 2 ^ i)) (2 ^ s - 1))
  = wrap (type_width t) (extract_value OP_zext t i s v).
Proof.
  intros Ht Ew Hi Hs His E. pose proof (small_width t Ht). pose proof (pow2_pos s).
  rewrite Z.sub_1_r, <- Z.ones_equiv, Z.land_ones by lia. fold (wrap s (in_type t' (z / 2 ^ i))).
  unfold in_type. rewrite wrap_norm_le by lia.
  change (wrap s (z / 2 ^ i)) with (extract_value OP_zext t i s z). by rewrite (extract_value_congr t Ht OP_zext i s z v).
Qed.

Lemma own_binary_cell st p n F op t q r :
  own st p n F -> cells st !! p = Some (BinaryCell op t q r) ->
  exists a b G G', n = BinaryNode op t a b /\ own st q a G /\ own st r b G' /\ F = ({[p]} ∪ (G ∪ G')).
Proof.
  intros H Hc. pose proof H as [Hrep _].
  destruct n; cbn [rep] in Hrep;
    repeat match goal with E : _ /\ _ |- _ => destruct E | E : exists _, _ |- _ => destruct E end; simplify_eq.
  destruct (own_binary _ _ _ _ _ _ _ H) as (q' & r' & G & G' & Hp & Ha & Hb & _ & _ & ->).
  rewrite Hc in Hp. injection Hp as <- <-. by eexists _, _, G, G'.
Qed.

(** The shift count, when the code takes it for one of the width *)
Lemma shift_count st t k c w :
  const_read leaf st t k c -> 0 < w <= 64 -> wrap 64 (swrap 64 (ival (GetValue c))) < w ->
  exists i, 0 <= i < w /\ swrap 64 (ival (GetValue c)) = i /\ uread leaf st (ConstvalNode t k) = i.
Proof.
  intros Hc Hw Hlt. pose proof (read_val _ _ _ _ _ Hc) as Hv. pose proof (small_ival_range _ Hv) as Hr.
  rewrite <- (read_uval leaf _ _ _ _ Hc). rewrite swrap_congr in Hlt by lia. set (z := ival (GetValue c)) in *.
  assert (0 <= z < w) as Hz.
  { destruct (decide (0 <= z)); [rewrite wrap_small in Hlt; lia|].
    rewrite (wrap_unique 64 z (z + 2 ^ 64) (-1)) in Hlt; lia. }
  exists z. split; [done|]. split; [apply swrap_small; lia|].
  unfold z, ival in *. destruct (sign (GetValue c)); [|done].
  pose proof (wf_uval _ (proj1 Hv)) as Hu. pose proof (wf_width _ (proj1 Hv)) as Hww. unfold swrap in *.
  rewrite wrap_small in * by lia. destruct (Z.ltb_spec (uval (GetValue c)) (2 ^ (width (GetValue c) - 1))); [done|lia].
Qed.

(** What becomes of the mask [2 ^ s - 1] on the tree [n] *)
Definition masked st t n Gn s st' (e : nat) : Prop :=
  grow st st' /\ exists k Gk, own st' e k Gk /\ within (size_of st) Gk Gn /\ fits t k /\
    wrap (type_width t) (value st' k) = wrap (type_width t) (Z.land (value st n) (2 ^ s - 1)) /\
    forall x, has x k -> op_has x OP_band t \/ has x n.

(** The value of a shift by the constant [i] *)
Lemma shift_value st lop t' x k i :
  lop = OP_ashr \/ lop = OP_lshr -> small_int t' -> 0 <= i < type_width t' ->
  uread leaf st k = i ->
  exists z, wrap (type_width t') z = wrap (type_width t') (value st x) /\
    value st (BinaryNode lop t' x k) = in_type t' (z / 2 ^ i).
Proof.
  intros Hlop Ht' Hi Hu. pose proof (small_width t' Ht') as Hw.
  destruct Hlop as [-> | ->]; [exists (swrap (type_width t') (value st x))|exists (wrap (type_width t') (value st x))];
    (split; [apply swrap_congr || apply wrap_wrap; lia|]); rewrite value_bin; unfold ConstantFoldOperands.bin_of;
    rewrite Hu; cbn [bin_value default]; by rewrite Z.mod_small by lia.
Qed.

Lemma fold_to_extractbits_spec st t l n Gn cst s :
  mem_ok st -> small_int t -> own st l n Gn -> fits t n -> small_val cst -> uval cst = 2 ^ s - 1 -> 1 <= s <= 64 ->
  wpm (fold_to_extractbits t l cst) st (fun st' o =>
    match o with None => st' = st | Some e => masked st t n Gn s st' e end).
Proof.
  intros Hok Ht Hn Hf Hcst Hu Hs. unfold fold_to_extractbits.
  destruct (own_cell _ _ _ _ Hn) as (lc & Hlc & _). eapply wpm_bind, wpm_get; [exact Hlc|].
  destruct lc as [| | | |lop t' q r| |]; try by apply wpm_ret.
  destruct (own_binary_cell _ _ _ _ _ _ _ _ Hn Hlc) as (x & k & Gx & Gk & -> & Hx & Hk & ->).
  destruct (own_cell _ _ _ _ Hk) as (nc & Hnc & _). eapply wpm_bind, wpm_get; [exact Hnc|].
  destruct (one_of [OP_ashr; OP_lshr] lop) eqn:Elop; [|by apply wpm_ret].
  destruct (constval_of nc) as [kp|] eqn:Ekp; [|by apply wpm_ret].
  apply one_of_spec in Elop. assert (lop = OP_ashr \/ lop = OP_lshr) as Hlop by (cbn [In] in Elop; intuition congruence).
  destruct (own_constval _ _ _ _ _ _ Hk Hnc Ekp) as [tk ->]. destruct (const_reads leaf _ _ _ _ _ Hk) as [kc Hkc].
  pose proof Hn as [_ (Hty & Hfx & _ & _ & _)].
  assert (arith t') as Har' by (by destruct Hlop as [-> | ->]; apply Hty).
  pose proof (arith_small _ Har') as Ht'.
  assert (type_width t' = type_width t) as Ew by (destruct Hf as [|E]; [done|by destruct Har']).
  assert (arith t) as Har.
  { split; [done|]. intros ->. change (type_width PTY_u1) with 1 in Ew. pose proof (arith_width t' Har'). lia. }
  destruct (arith_width t Har) as [Hw Ebits].
  assert (GetPrimTypeSize t * 8 = type_width t) as Esize
    by (rewrite <- Ebits; unfold GetPrimTypeBitSize; rewrite Z.shiftl_mul_pow2 by lia; done).
  eapply wpm_bind, wpm_get_const; [exact (read_cell _ _ _ _ _ Hkc)|].
  rewrite GetExtValue_one by apply (read_val _ _ _ _ _ Hkc). apply wpm_bind, wpm_lift, wp_ret.
  rewrite GetZXTValue_one by done. apply wpm_bind, wpm_lift, wp_ret. rewrite Hu, count_bits_spec by done.
  apply wpm_bind, wpm_lift, wp_ret. cbv zeta. rewrite Esize.
  destruct (_ && _) eqn:Eb; [|by apply wpm_ret]. apply andb_true_iff in Eb as [E1 E2].
  apply Z.leb_le in E1. apply Z.ltb_lt in E2.
  pose proof (small_width t Ht) as Hw64.
  destruct (shift_count _ _ _ _ (type_width t) Hkc Hw64 E2) as (i & Hi & Ei & Eu). rewrite Ei in *.
  destruct (shift_value st lop t' x _ i Hlop Ht' ltac:(lia) Eu) as (z & Ez & Ev).
  destruct (unsigned_arith t Har) as (Haru & Ewu & Esu). rewrite !wrap_small by lia.
  apply wpm_bind, wpm_new, wpm_ret.
  assert (wt (objs st) (ExtractbitsNode OP_extractbits (GetUnsignedPrimType t) i s x)) as Hwx.
  { split; [by left|]. split; [done|]. split; [eapply fits_congr; [|exact Hfx]; congruence|].
    split; [lia|]. split; [lia|]. split; [lia|]. split; [done|apply Hx]. }
  pose proof (grow_new typeTable st (ExtractbitsCell OP_extractbits (GetUnsignedPrimType t) i s q) Hok) as Hg.
  split; [done|]. eexists _, _. split; [by apply own_new_extract|]. split_and?.
  - apply within_union; [by apply within_fresh|]. apply within_subset. intros y Hy.
    by apply elem_of_union_r, elem_of_union_l.
  - by left.
  - rewrite (value_grow typeTable leaf st), value_extract, Ev by done. rewrite mask_value with (v := value st x); try done; try lia; [|by rewrite <- Ew].
    rewrite <- Ewu, wrap_in_type by apply Haru. f_equal. unfold extract_value. cbn [extract_signed]. by rewrite Esu.
  - intros f [Hf'|Hf']; [left|right; by right; left]. destruct f; cbn [op_has] in *; try done; try (by destruct Hf'); try (by apply (proj2 Haru) in Hf'); by right.
Qed.
(** The binary node at [p] of the memory [st0], before its operands are folded *)
Section Node.
Context (st0 : Mem) (p q r : nat) (op : Opcode) (t : PrimType) (a b : BaseNode) (G G' : gset nat).
Context (Hwt : wt (objs st0) (BinaryNode op t a b)) (Hfold : binary_foldable op t a b).
Context (Hp : (p < size_of st0)%nat) (HpG : p ∉ G ∪ G').

#[local] Abbreviation N := (BinaryNode op t a b).
#[local] Abbreviation F := ({[p]} ∪ (G ∪ G')).


#[local] Abbreviation operands := (operands typeTable leaf st0 p q r op t a b G G').
#[local] Abbreviation bin_result := (bin_result typeTable leaf st0 p op t a b G G').
#[local] Abbreviation right_const := (right_const typeTable leaf st0 p q r op t a b G G').

Lemma right_mask st lp rp n Gn t2 cp Gm c :
  right_const st lp rp n Gn t2 cp Gm c -> op = OP_band -> opt_value (snd lp) = 0 ->
  ContiguousBitsOf1 (uval (GetValue c)) = true ->
  wpm (o ← fold_to_extractbits t (fst lp) (GetValue c);
       match o with
       | Some e => mret (e, None)
       | None => e ← PairToExpr typeTable (node_ptyp a) lp; z ← NewBinaryNode p op t e (fst rp); mret (z, None)
       end) st (bin_result st).
Proof using Htt Hwt Hfold Hp HpG.
  intros Hrc Eop Es Hmask. pose proof (node_small st0 op t a b Hwt) as Ht.
  pose proof (right_rebuild typeTable Htt leaf st0 p q r op t a b G G' Hwt Hfold Hp HpG _ _ _ _ _ _ _ _ _ Hrc) as Hrebuild.
  assert (modular op = true) as Hmod by by rewrite Eop.
  pose proof (right_modular typeTable Htt leaf st0 p q r op t a b G G' Hwt Hfold Hp HpG _ _ _ _ _ _ _ _ _ Hrc Hmod) as Ev.
  destruct (right_other typeTable Htt leaf st0 p q r op t a b G G' Hwt Hfold Hp HpG _ _ _ _ _ _ _ _ _ Hrc) as (Hfn & _ & _).
  assert (is_shift op = false) as Hsh by by rewrite Eop.
  pose proof (right_fits typeTable Htt leaf st0 p q r op t a b G G' Hwt Hfold Hp HpG _ _ _ _ _ _ _ _ _ Hrc Hsh) as Hf2.
  destruct Hrc as ((Hok & Hsize & _ & Hl & Hr & _) & Hnc & Hc).
  destruct Hl as (Hn & HGn & _ & _ & _ & _ & HXn & _). pose proof (read_val _ _ _ _ _ Hc) as Hv.
  pose proof (wf_uval _ (proj1 Hv)) as Hu. pose proof (Z.pow_le_mono_r 2 (width (GetValue c)) 64 ltac:(lia) (proj2 Hv)).
  destruct (proj1 (proj1 (word_tests_small (uval (GetValue c)) ltac:(lia))) Hmask) as (s & Hs & Eu).
  apply wpm_bind. eapply wpm_mono; [by apply (fold_to_extractbits_spec st t (fst lp) n Gn (GetValue c) s)|].
  intros st1 [e|]; [|by intros ->]. intros (Hg & k & Gk & Hk & HGk & Hfk & Ek & HXk). apply wpm_ret.
  apply (result_intro typeTable leaf st0 p op t a b G G' Hwt st st1 e k Gk None); try done.
  - apply within_left. by eapply within_trans.
  - rewrite Ev, Eop, Es. cbn [opt_value bin_value default]. rewrite !Z.add_0_r, Ek, <- Eu.
    apply (wrap_bitwise t Ht Z.land andb); [apply Z.land_spec|done|].
    destruct (read_type _ _ _ _ _ Hc) as [Ew Esg]. destruct Hf2 as [E|E].
    + rewrite <- (wrap_ival _ (proj1 Hv)), Ew, E. apply wrap_wrap. pose proof (small_width t Ht). lia.
    + unfold ival. by rewrite Esg, E.
  - intros x Hx. destruct (HXk x Hx) as [Hx'|Hx']; [apply allowed_op; by rewrite Eop|by apply allowed_left, HXn].
Qed.

(** ** The negation of a converted truth value *)

(** The recursive call *)
Context (fold : nat -> M pair) (Hatoms : forall y, atom y -> fold_spec fold y).

Lemma u1_atom objs y : wt objs y -> node_ptyp y = PTY_u1 -> ~ has FBool y -> atom y.
Proof using Type.
  intros Hw Et HB. destruct y as [| | | | | |]; try done; exfalso; apply HB; left; exact Et.
Qed.

Lemma own_cvt_op st z k Gk : own st z k Gk -> node_op k = OP_cvt ->
  exists t' f y g Gy, k = TypeCvtNode OP_cvt t' f y /\ cells st !! z = Some (TypeCvtCell OP_cvt t' f g) /\
    own st g y Gy /\ Gk = ({[z]} ∪ Gy) /\ small_int t' /\ small_int f.
Proof using Type.
  intros H Hop. pose proof H as [_ Hw]. destruct k as [|o t' y|o t' f y|o t' i s y|o t' x y|o t' ot x y|o t' i];
    cbn [node_op] in Hop; subst; try done; cbn [wt] in Hw; try (by destruct Hw).
  - destruct (own_cvt _ _ _ _ _ _ _ H) as (g & Gy & Hc & Hy & _ & E). exists t', f, y, g, Gy.
    destruct Hw as (_ & Ht' & Hf & _). done.
  - by destruct Hw as ([|[|]] & _).
  - destruct Hw as (_ & _ & Hno). exfalso. apply Hno. cbn. tauto.
Qed.

Lemma u1_features x : op_has x OP_bxor PTY_u1 -> x = FBool \/ x = FTruth.
Proof using Type.
  destruct x; cbn [op_has]; intros H; try (by left); try (by right); try discriminate H; destruct H as [H|H];
    try discriminate H. by destruct H.
Qed.

(** The new operator on the truth value [y], converted to the type of the node *)
Lemma bool_node st1 st2 lp n Gn g y Gy k s0 :
  side st0 a G st1 lp n Gn -> own st1 g y Gy -> Gy ⊆ Gn -> (forall x, has x y -> has x n) ->
  node_ptyp y = PTY_u1 -> op = OP_bxor -> t <> PTY_u1 -> grow st1 st2 -> mem_ok st2 ->
  (size_of st0 <= size_of st1)%nat -> cells st2 !! p = Some (BinaryCell op t q r) ->
  own st2 (size_of st1) (ConstvalNode PTY_u1 k) {[size_of st1]} -> value st2 (ConstvalNode PTY_u1 k) = 1 ->
  (forall st', grow st1 st' -> grow s0 st') ->
  wrap (type_width t) (Z.lxor (value st1 y) 1) = wrap (type_width t) (bin_of st0 op t a b) ->
  wpm (e ← NewBinaryNode p OP_bxor PTY_u1 g (size_of st1); New (TypeCvtCell OP_cvt t PTY_u1 e)) st2
    (fun st' z => bin_result s0 st' (z, None)).
Proof using Htt Hwt Hfold Hp HpG.
  intros (_ & HGn & _ & _ & _ & _ & HXn & _) Hy HGy HXy Ety Eop Hne Hg Hok2 Hsize Hc Hk Evk Hs0 Ev.
  pose proof (node_small st0 op t a b Hwt) as Ht. pose proof (own_grow typeTable _ _ _ _ _ Hy Hg) as Hy2.
  assert (wt (objs st2) (BinaryNode OP_bxor PTY_u1 y (ConstvalNode PTY_u1 k))) as Hw
    by (split; [done|split; [by right|split; [right; by right|split; [apply Hy2|apply Hk]]]]).
  assert (p ∉ Gy ∪ {[size_of st1]}) as Hpn.
  { apply not_elem_of_union in HpG as [H1 _]. apply not_elem_of_union. split.
    - intros H. apply (within_not_in _ _ _ _ HGn Hp H1). by apply HGy.
    - intros H. apply elem_of_singleton in H. lia. }
  assert (Gy ## {[size_of st1]}) as Hd by (apply disjoint_singleton_r; by eapply fresh_root).
  apply wpm_bind. eapply wpm_mono; [by apply (NewBinaryNode_spec typeTable st2 p op t q r OP_bxor PTY_u1 g (size_of st1)
    y (ConstvalNode PTY_u1 k) Gy {[size_of st1]})|].
  intros st3 e (Hg3 & F' & He & HF').
  eapply wpm_mono; [apply (new_cvt_spec typeTable leaf st3 e (BinaryNode OP_bxor PTY_u1 y (ConstvalNode PTY_u1 k)) F' t PTY_u1); [by eapply grow_ok|exact He|done|done|by left]|].
  intros st4 z (Hg4 & -> & Hz & Evz).
  assert (grow st1 st4) as Hg14 by (eapply grow_trans; [exact Hg|by eapply grow_trans]).
  pose proof (u1_range leaf _ _ (proj2 Hy) Ety) as Hrg.
  assert (value st1 y = 0 \/ value st1 y = 1) as Hv01 by (unfold ConstantFoldPair.value; lia).
  apply (result_intro typeTable leaf st0 p op t a b G G' Hwt s0 st4 _
    (TypeCvtNode OP_cvt t PTY_u1 (BinaryNode OP_bxor PTY_u1 y (ConstvalNode PTY_u1 k))) ({[size_of st3]} ∪ F') None);
    [by apply Hs0|exact Hz| |by left| |exact I|by intros []|].
  - assert (size_of st0 <= size_of st2)%nat as H02 by (etrans; [exact Hsize|by eapply grow_size]).
    apply within_union; [apply within_fresh; etrans; [exact H02|by eapply grow_size]|].
    eapply within_trans; [exact H02|exact HF'|]. apply within_union; [apply within_subset, union_subseteq_l|].
    apply within_union; [|by apply within_fresh]. apply within_left. intros x Hx. by apply HGn, HGy.
  - cbn [opt_value]. rewrite Z.add_0_r, Evz, wrap_in_type, <- Ev by done.
    rewrite (value_grow typeTable leaf st2 st3), value_bin by done. unfold ConstantFoldOperands.bin_of.
    rewrite Evk, (value_grow typeTable leaf st1 st2 y (proj2 Hy) Hg). cbn [bin_value default].
    by destruct Hv01 as [-> | ->].
  - assert (has FTruth a) as Htruth by exact (HXn FTruth (HXy FTruth (has_type_of FTruth y Ety))).
    intros x [Hx|[Hx|[Hx|[Hx|(-> & _ & _)]]]].
    + apply op_has_plain in Hx as [-> Hx]; [by apply allowed_op, op_has_type|done|done].
    + destruct (u1_features _ Hx) as [-> | ->]; [by apply allowed_truth|by apply (allowed_left op t a b FTruth)].
    + by apply allowed_left, HXn, HXy.
    + apply (op_has_type x OP_bxor) in Hx.
      destruct (u1_features _ Hx) as [-> | ->]; [by apply allowed_truth|by apply (allowed_left op t a b FTruth)].
    + by apply allowed_truth.
Qed.

Lemma right_bool st lp rp n Gn t2 cp Gm c :
  right_const st lp rp n Gn t2 cp Gm c -> op = OP_bxor -> value st (ConstvalNode t2 cp) = 1 -> t <> PTY_u1 ->
  wpm (e ← PairToExpr typeTable (node_ptyp a) lp; e' ← PairToExpr typeTable (node_ptyp b) rp;
       res ← NewBinaryNode p op t e e'; res ← fold_bxor_bool typeTable fold p t lp res; mret (res, None))
    st (bin_result st).
Proof using Htt Hwt Hfold Hp HpG Hatoms.
  intros Hrc Eop E1 Hne. assert (modular op = true) as Hmod by by rewrite Eop.
  pose proof (right_modular typeTable Htt leaf st0 p q r op t a b G G' Hwt Hfold Hp HpG _ _ _ _ _ _ _ _ _ Hrc Hmod) as Ev.
  destruct Hrc as (Hops & _ & Hc). rewrite (read_value _ _ _ _ _ Hc), E1 in Ev. apply wpm_seq3.
  eapply wpm_mono; [by apply (rebuild_node typeTable Htt leaf st0 p q r op t a b G G' Hwt Hfold Hp HpG _ _ _ _ _ _ _ Hops)|].
  intros st1 z Hz. pose proof Hz as [Hg _]. destruct Hops as (_ & Hsize & Hpc & Hl & _ & _).
  pose proof (cell_grow typeTable _ _ _ _ Hg Hpc) as Hpc1. pose proof (side_grow typeTable leaf _ _ _ _ _ _ _ _ Hl Hg) as Hl1.
  assert (size_of st0 <= size_of st1)%nat as Hsize1 by (etrans; [exact Hsize|by eapply grow_size]).
  rewrite <- (value_grow typeTable leaf st st1 n (proj2 (proj1 Hl)) Hg) in Ev.
  pose proof Hl1 as (Hn & HGn & _ & _ & Hs & _ & HXn & _).
  destruct (own_cell _ _ _ _ Hn) as (lc & Hlc & Elo & _). apply wpm_bind.
  assert (wpm (mret z) st1 (fun st' res => wpm (mret (res, None)) st' (bin_result st))) as Hsame by by apply wpm_ret.
  unfold fold_bxor_bool. eapply wpm_bind, wpm_get; [exact Hlc|].
  rewrite (none_or_zero_eq _ _ Hs). apply wpm_bind, wpm_lift, wp_ret.
  destruct (op_eqb (GetOpCode lc) OP_cvt && (opt_value (snd lp) =? 0)) eqn:E; [|exact Hsame].
  apply andb_true_iff in E as [E E0]. apply op_eqb_spec in E. apply Z.eqb_eq in E0. rewrite Elo in E.
  destruct (own_cvt_op _ _ _ _ Hn E) as (t' & f & y & g & Gy & -> & Hlc' & Hy & -> & Ht' & Hf).
  rewrite Hlc in Hlc'. injection Hlc' as ->. apply wpm_bind, wpm_lift, wp_ret.
  destruct (own_cell _ _ _ _ Hy) as (yc & Hyc & _ & Eyt & _). eapply wpm_bind, wpm_type; [exact Hyc|]. rewrite Eyt.
  destruct (pty_eqb (node_ptyp y) PTY_u1) eqn:Eu; [|exact Hsame]. apply pty_eqb_true in Eu. rewrite Eu.
  assert (forall x, has x y -> has x (TypeCvtNode OP_cvt t' f y)) as HXy by (intros x Hx; by right).
  assert (atom y) as Hat.
  { eapply u1_atom; [apply Hy|exact Eu|]. intros HB. pose proof (HXn FBool (HXy FBool HB)) as HBa.
    pose proof Hfold as Hb. rewrite Eop in Hb. by destruct Hb. }
  apply wpm_bind. eapply wpm_mono; [by apply (CreateIntConst_spec typeTable Htt leaf st1 PTY_u1 1 1); [eapply grow_ok|..]|].
  intros st2 k (Hg2 & -> & kc & Hk & Evk). apply wpm_bind.
  pose proof (own_grow typeTable _ _ _ _ _ Hy Hg2) as Hy2.
  eapply wpm_mono; [by apply (Hatoms y Hat st2 g Gy); [eapply grow_ok|]|].
  intros st3 r3 (_ & _ & _ & Hsame3 & _). destruct (Hsame3 Hat) as [-> ->].
  apply wpm_bind, wpm_ret.
  eapply wpm_mono; [apply (bool_node st1 st2 lp _ _ g y Gy kc st Hl1 Hy); try done|].
  - apply union_subseteq_r.
  - by eapply grow_ok.
  - by eapply cell_grow.
  - intros st' Hg'. by eapply grow_trans.
  - rewrite Ev, Eop, E0. cbn [bin_value default]. rewrite Z.add_0_r, (value_cvt leaf st1).
    pose proof (u1_range leaf _ _ (proj2 Hy) Eu) as Hrg.
    rewrite (in_type_bool f), (in_type_bool t') by done. done.
  - intros st4 res Hres. by apply wpm_ret.
Qed.
End Node.
End Binary.
