(* ===== verification/ConstantFoldNode.v ===== *)
(** * The fold of a binary node

    All the cases of FoldBinary put together: the value of the node is
    preserved, whatever the folded operands are. *)
From S2P Require Import Prelude.
From S2P Require Import PrimTypes.
From S2P Require Import Opcodes.
From S2P Require Import IntWords.
From S2P Require Import IntVal.
From S2P Require Import IntValFacts.
From S2P Require Import IntValArith.
From S2P Require Import IntValOrder.
From S2P Require Import IntValCount.
From S2P Require Import IntValDiv.
From S2P Require Import IntValSpec.
From S2P Require Import IntValTyped.
From S2P Require Import IntConst.
From S2P Require Import IntConstFacts.
From S2P Require Import ConstantFold.
From S2P Require Import ConstantFoldFacts.
From S2P Require Import ConstantFoldExpr.
From S2P Require Import ExprMem.
From S2P Require Import ExprTree.
From S2P Require Import ExprTreeFacts.
From S2P Require Import ExprMemFacts.
From S2P Require Import ConstantFoldTree.
From S2P Require Import ConstantFoldPair.
From S2P Require Import ConstantFoldUnary.
From S2P Require Import ConstantFoldValues.
From S2P Require Import ConstantFoldOperands.
From S2P Require Import ConstantFoldBinary.
From S2P Require Import ConstantFoldLeft.
From S2P Require Import ConstantFoldRight.
From S2P Require Import ConstantFoldBits.
From stdpp Require Import gmap.
#[local] Open Scope Z_scope.

Section Binary.
Context `{HT : Target}.
Context (typeTable : list (option MIRType)).
Context (Htt : TypeTable_init `prefix_of` typeTable).
Context (leaf : nat -> Z).
Implicit Types (st : Mem) (t : PrimType) (n a b : BaseNode) (F G : gset nat) (X : feature -> Prop).

#[local] Abbreviation grow := (grow typeTable).
#[local] Abbreviation change := (change typeTable).
#[local] Abbreviation mem_ok := (mem_ok typeTable).
#[local] Abbreviation value := (value leaf).
#[local] Abbreviation outcome := (outcome leaf).
#[local] Abbreviation fold_spec := (fold_spec typeTable leaf).
#[local] Abbreviation folded := (folded typeTable leaf).


#[local] Abbreviation side := (side leaf).
#[local] Abbreviation expr := (expr leaf).
#[local] Abbreviation bin_of := (bin_of leaf).

(** The binary node at [p] of the memory [st0], before its operands are folded *)
Section Node.
Context (st0 : Mem) (p q r : nat) (op : Opcode) (t : PrimType) (a b : BaseNode) (G G' : gset nat).
Context (Hwt : wt (objs st0) (BinaryNode op t a b)) (Hfold : binary_foldable op t a b).
Context (Hp : (p < size_of st0)%nat) (HpG : p ∉ G ∪ G').

#[local] Abbreviation N := (BinaryNode op t a b).
#[local] Abbreviation F := ({[p]} ∪ (G ∪ G')).


#[local] Abbreviation operands := (operands typeTable leaf st0 p q r op t a b G G').
#[local] Abbreviation bin_result := (bin_result typeTable leaf st0 p op t a b G G').
#[local] Abbreviation right_const := (right_const typeTable leaf st0 p q r op t a b G G').

(** The recursive call *)
Context (fold : nat -> M pair) (Hatoms : forall y, atom y -> fold_spec fold y).

(** ** A constant on the right *)

(** The tests on the operands, and what is left once they are made *)
Lemma rconst_tests st lp rp n Gn t2 cp Gm c lc (R : Mem -> pair -> Prop)
    (k : bool -> bool -> bool -> bool -> bool -> bool -> bool -> bool -> M pair) :
  right_const st lp rp n Gn t2 cp Gm c ->
  (forall isMin low,
     wpm (k (ival (GetValue c) =? 0) (swrap 64 (ival (GetValue c)) =? 1) (swrap 64 (ival (GetValue c)) =? -1)
            isMin (negb (opt_value (snd lp) =? 0)) (opt_value (snd lp) =? 0) low
            (op_eqb op OP_band && negb (ival (GetValue c) =? 0) && negb (swrap 64 (ival (GetValue c)) =? -1)
             && ContiguousBitsOf1 (uval (GetValue c)))) st R) ->
  cells st !! fst lp = Some lc ->
  wpm (is0 ← lift (op_eq_int64 (GetValue c) 0);
       is1 ← lift (op_eq_int64 (GetValue c) 1);
       isM1 ← lift (op_eq_int64 (GetValue c) (-1));
       isMin ← lift (if op_eqb op OP_sub then IsMinValue (GetValue c) else Ret false);
       nonzero ← lift (has_nonzero (snd lp));
       zero ← lift (none_or_zero (snd lp));
       low ← lift (match snd lp with
                   | Some v =>
                       if op_eqb op OP_mul && nonzero then x ← GetSXTValue v; Ret (- kMaxOffset <? x) else Ret false
                   | None => Ret false
                   end);
       mask ← lift (if op_eqb op OP_band && negb is0 && negb isM1
                    then z ← GetZXTValue (GetValue c); Ret (ContiguousBitsOf1 z) else Ret false);
       k is0 is1 isM1 isMin nonzero zero low mask) st R.
Proof using Htt Hwt Hfold Hp HpG.
  intros Hrc Hk Hlc. destruct Hrc as ((_ & _ & _ & Hl & _) & _ & Hc). pose proof (read_val _ _ _ _ _ Hc) as Hv.
  destruct Hl as (_ & _ & _ & _ & Hs & _). rewrite !op_eq_int64_small by done.
  rewrite (read_0 leaf _ _ _ _ Hc).
  apply wpm_bind, wpm_lift, wp_ret, wpm_bind, wpm_lift, wp_ret, wpm_bind, wpm_lift, wp_ret.
  assert (exists isMin, (if op_eqb op OP_sub then IsMinValue (GetValue c) else Ret false) = Ret isMin) as [isMin ->].
  { destruct (op_eqb op OP_sub); [|by eexists]. rewrite IsMinValue_eq by apply Hv. by eexists. }
  rewrite (has_nonzero_eq _ _ Hs), (none_or_zero_eq _ _ Hs).
  apply wpm_bind, wpm_lift, wp_ret, wpm_bind, wpm_lift, wp_ret, wpm_bind, wpm_lift, wp_ret.
  match goal with |- wpm (low ← lift ?m; _) _ _ => assert (exists low, m = Ret low) as [low ->] end.
  { destruct (snd lp) as [v|]; [|by eexists]. destruct (op_eqb op OP_mul && _); [|by eexists].
    destruct (GetSXTValue_returns v) as [x ->]; [apply Hs|]. by eexists. }
  rewrite GetZXTValue_one by done. apply wpm_bind, wpm_lift, wp_ret. apply wpm_bind, wpm_lift.
  specialize (Hk isMin low).
  destruct (op_eqb op OP_band && negb (ival (GetValue c) =? 0) && negb (swrap 64 (ival (GetValue c)) =? -1)); by apply wp_ret.
Qed.

Ltac node_lemma l := eapply (l typeTable Htt leaf st0 p q r op t a b G G' Hwt Hfold Hp HpG).

Lemma rconst_result_spec st lp rp n Gn t2 cp Gm :
  operands st lp rp n Gn (ConstvalNode t2 cp) Gm -> nonconst st (fst lp) ->
  wpm (rconst_result typeTable fold p op t (node_ptyp a) (node_ptyp b) lp rp cp) st (bin_result st).
Proof using Htt Hwt Hfold Hp HpG Hatoms.
  intros Hops Hnc. pose proof Hops as (Hok & _ & _ & Hl & Hr & _).
  destruct (const_reads leaf _ _ _ _ _ (proj1 Hr)) as [c Hc]. pose proof (read_val _ _ _ _ _ Hc) as Hv.
  assert (right_const st lp rp n Gn t2 cp Gm c) as Hrc
    by (split; [done|split; [exact (nonconst_tree _ _ _ _ Hnc (proj1 Hl))|done]]).
  pose proof Hl as (Hn & _ & _ & _ & Hs & _ & HXn & _). destruct (own_cell _ _ _ _ Hn) as (lc & Hlc & Elo & _ & _).
  unfold rconst_result. eapply wpm_bind, wpm_get_const; [exact (read_cell _ _ _ _ _ Hc)|].
  rewrite IntVal_copy_spec by apply Hv. apply wpm_bind, wpm_lift, wp_ret. eapply wpm_bind, wpm_get; [exact Hlc|].
  refine (rconst_tests st lp rp n Gn t2 cp Gm c lc _ _ Hrc _ Hlc). intros isMin low. cbv beta zeta.
  assert (wpm (e ← PairToExpr typeTable (node_ptyp a) lp; z ← NewBinaryNode p op t e (fst rp); mret (z, None)) st
    (bin_result st)) as Hrebuild by (node_lemma right_rebuild; exact Hrc).
  destruct (op_eqb op OP_add) eqn:Eadd.
  { apply op_eqb_spec in Eadd. apply wpm_bind.
    assert (exists over, match snd lp with
        | Some v => values_overflow op (type_prim (GetType c)) v (GetValue c) | None => Ret false end = Ret over) as [over ->].
    { destruct (snd lp) as [v|]; [|by eexists]. apply values_overflow_returns; [apply Hs|done]. }
    apply wpm_lift, wp_ret. destruct over; [by node_lemma rebuild_spec|by node_lemma right_sum]. }
  destruct (op_eqb op OP_sub && _) eqn:Esub.
  { apply andb_true_iff in Esub as [Esub _]. apply op_eqb_spec in Esub. by node_lemma right_sum. }
  destruct (one_of [OP_mul; OP_band; OP_cand; OP_land] op && (ival (GetValue c) =? 0)) eqn:Ezero.
  { apply andb_true_iff in Ezero as [Eop E0]. apply one_of_spec in Eop. apply Z.eqb_eq in E0.
    node_lemma right_zero; [exact Hrc|by left]. }
  destruct (one_of [OP_mul; OP_div] op && (swrap 64 (ival (GetValue c)) =? 1)) eqn:Eone.
  { apply andb_true_iff in Eone as [Eop E1]. apply one_of_spec in Eop. apply wpm_ret.
    node_lemma right_same; [exact Hrc|left]. split; [done|]. rewrite (read_value _ _ _ _ _ Hc). by eapply read_1. }
  destruct (op_eqb op OP_div && _ && _ && _ && _ && _) eqn:Ediv.
  { exfalso. repeat (apply andb_true_iff in Ediv as [Ediv ?]). apply op_eqb_spec in Ediv.
    assert (node_op n = OP_mul) as Emul by (rewrite <- Elo; by apply op_eqb_spec).
    pose proof Hfold as Hb. rewrite Ediv in Hb. apply (proj1 Hb). apply (HXn FMul). by eapply own_mul. }
  destruct (op_eqb op OP_mul && negb (opt_value (snd lp) =? 0) && low) eqn:Emul.
  { apply andb_true_iff in Emul as [Emul _]. apply andb_true_iff in Emul as [Emul _]. apply op_eqb_spec in Emul.
    by node_lemma right_mul. }
  destruct (op_eqb op OP_band && (swrap 64 (ival (GetValue c)) =? -1)) eqn:Eones.
  { apply andb_true_iff in Eones as [Eop E1]. apply op_eqb_spec in Eop. apply wpm_ret.
    node_lemma right_same; [exact Hrc|by right; right]. }
  destruct (op_eqb op OP_band && _ && (opt_value (snd lp) =? 0)) eqn:Emask.
  { apply andb_true_iff in Emask as [Emask Es]. apply andb_true_iff in Emask as [Eop Emask].
    apply op_eqb_spec in Eop. apply Z.eqb_eq in Es. apply andb_true_iff in Emask as [_ Emask].
    by node_lemma right_mask. }
  destruct (op_eqb op OP_bior && (swrap 64 (ival (GetValue c)) =? -1)) eqn:Ebior.
  { apply andb_true_iff in Ebior as [Eop E1]. apply op_eqb_spec in Eop. by node_lemma right_ones. }
  destruct (one_of [OP_lior; OP_cior] op) eqn:Eior.
  { apply one_of_spec in Eior. destruct (Z.eqb_spec (ival (GetValue c)) 0) as [E0|Hne].
    { apply wpm_ret. by node_lemma right_same_logical. }
    rewrite GetSignBit_spec by apply Hv. apply wpm_bind, wpm_lift, wp_ret.
    cbn [negb]. match goal with |- wpm (if ?b then _ else _) _ _ => destruct b end; [by node_lemma right_one|exact Hrebuild]. }
  destruct (one_of [OP_ashr; OP_lshr; OP_shl; OP_bior; OP_bxor] op && (ival (GetValue c) =? 0)) eqn:Eshift.
  { apply andb_true_iff in Eshift as [Eop E0]. apply one_of_spec in Eop. apply Z.eqb_eq in E0. apply wpm_ret.
    node_lemma right_same; [exact Hrc|by right; left]. }
  destruct (op_eqb op OP_bxor && _ && negb (pty_eqb t PTY_u1)) eqn:Ebxor.
  { apply andb_true_iff in Ebxor as [Ebxor Eu]. apply andb_true_iff in Ebxor as [Eop E1]. apply op_eqb_spec in Eop.
    eapply (right_bool typeTable Htt leaf st0 p q r op t a b G G' Hwt Hfold Hp HpG fold Hatoms); [exact Hrc|done| |].
    - by eapply read_1.
    - intros E. by rewrite E in Eu. }
  destruct (op_eqb op OP_rem && _) eqn:Erem; [|exact Hrebuild].
  apply andb_true_iff in Erem as [Eop E1]. apply op_eqb_spec in Eop.
  node_lemma right_zero; [exact Hrc|right]. split; [done|]. rewrite (read_value _ _ _ _ _ Hc). by eapply read_1.
Qed.

(** ** The fold after the operands *)

Lemma convert_result st m :
  (size_of st0 <= size_of st)%nat -> wpm m st (bin_result st) ->
  wpm (x ← m; e ← convert_to t (fst x); mret (e, snd x)) st (bin_result st).
Proof using Htt Hwt Hfold Hp HpG.
  intros Hsize Hm. apply wpm_bind. eapply wpm_mono; [exact Hm|]. intros st1 [z s] [Hg Ho]. cbn [fst snd].
  pose proof (node_small st0 op t a b Hwt) as Ht. apply wpm_bind. eapply wpm_mono.
  - apply (convert_to_spec typeTable leaf st1 (size_of st0) F t (value st0 N) (allowed N) z s);
      [by eapply grow_ok|done| |exact Ho|intros E; by apply (allowed_op op t a b FBool)|intros x Hx; by apply allowed_op, op_has_type].
    etrans; [exact Hsize|by eapply grow_size].
  - intros st2 z' [Hg2 Ho2]. apply wpm_ret. split; [by eapply grow_trans|exact Ho2].
Qed.

Lemma calm_no_neg k : calm k -> ~ has FNegConst k.
Proof using Type.
  induction k; cbn [calm has type_has op_has]; intros Hc H; try done.
  - destruct Hc as [Hop Hc]. destruct H as [H|[H|(_ & H & _)]]; [done|by apply IHk|done].
  - destruct H as [H|H]; [done|by apply IHk].
  - destruct Hc as [H1 H2]. destruct H as [H|[H|[H|[H _]]]]; [done|by apply IHk1|by apply IHk2|done].
  - destruct Hc as (_ & H1 & H2). destruct H as [H|[H|H]]; [done|by apply IHk1|by apply IHk2].
Qed.

(** x - (y - z) is left as it is. *)
Lemma unchanged_result st :
  mem_ok st0 -> own st0 p N F -> grow st0 st -> calm N -> bin_result st st (p, None).
Proof using Hwt.
  intros Hok Hn Hg Hc. split; [apply grow_refl; by eapply grow_ok|]. exists N, F.
  split_and?; [by eapply own_grow|apply within_refl|by left| |done|done|].
  - cbn [snd opt_value]. by rewrite Z.add_0_r, (value_grow typeTable leaf st0 st).
  - intros x Hx. destruct x; try exact Hx. by apply (calm_no_neg N).
Qed.

Lemma FoldBinary_folded_spec st lp rp n Gn m Gm :
  mem_ok st0 -> own st0 p N F -> operands st lp rp n Gn m Gm -> root_kept st r b ->
  (calm a -> calm b -> grow st0 st) ->
  wpm (FoldBinary_folded typeTable fold p op t (node_ptyp a) (node_ptyp b) r lp rp) st (bin_result st).
Proof using Htt Hwt Hfold Hp HpG Hatoms.
  intros Hok0 HN Hops (bc & Hbc & Ebo & _) Hcalm. pose proof Hops as (Hok & Hsize & _ & Hl & Hr & _).
  pose proof (node_small st0 op t a b Hwt) as Ht.
  pose proof Hl as (Hn & _ & _ & _ & _ & _ & _ & _). pose proof Hr as (Hm & _ & _ & _ & _ & _ & _ & _).
  destruct (own_cell _ _ _ _ Hn) as (lc & Hlc & _ & _ & _). destruct (own_cell _ _ _ _ Hm) as (rc & Hrc & _ & _ & _).
  unfold FoldBinary_folded. eapply wpm_bind, wpm_get; [exact Hlc|]. eapply wpm_bind, wpm_get; [exact Hrc|].
  rewrite (proj1 Ht). cbv zeta. cbn [andb].
  destruct (constval_of lc) as [pl|] eqn:El, (constval_of rc) as [pr|] eqn:Er.
  - destruct (own_constval _ _ _ _ _ _ Hn Hlc El) as [t1 ->], (own_constval _ _ _ _ _ _ Hm Hrc Er) as [t2 ->].
    by node_lemma FoldBinary_consts_spec.
  - destruct (own_constval _ _ _ _ _ _ Hn Hlc El) as [t1 ->]. apply convert_result; [done|].
    node_lemma lconst_result_spec; [exact Hops|by exists rc].
  - destruct (own_constval _ _ _ _ _ _ Hm Hrc Er) as [t2 ->]. apply convert_result; [done|].
    eapply rconst_result_spec; [exact Hops|by exists lc].
  - eapply wpm_bind, wpm_opcode; [exact Hbc|]. rewrite Ebo.
    destruct (op_eqb op OP_add) eqn:Eadd; [apply op_eqb_spec in Eadd; by apply (result_sum typeTable leaf st0 p q r op t a b G G' Hwt Hp HpG st lp rp n Gn m Gm true)|].
    destruct (op_eqb op OP_sub) eqn:Esub; [|by node_lemma rebuild_spec]. apply op_eqb_spec in Esub.
    destruct (op_eqb (node_op b) OP_sub && _) eqn:E;
      [|by apply (result_sum typeTable leaf st0 p q r op t a b G G' Hwt Hp HpG st lp rp n Gn m Gm false)].
    apply andb_true_iff in E as [E _]. apply op_eqb_spec in E. apply wpm_ret.
    pose proof Hfold as Hb. rewrite Esub in Hb. destruct (Hb E) as [Ha' Hb'].
    apply unchanged_result; try done. by apply Hcalm.
Qed.
End Node.

(** ** The whole fold *)

(** Two operands folded one after the other *)
Lemma two_folds fold st q r a b G G' (R : Mem -> pair -> pair -> Prop) :
  mem_ok st -> own st q a G -> own st r b G' -> G ## G' -> fold_spec fold a -> fold_spec fold b ->
  (forall st1 st2 lp rp n Gn m Gm,
     change G st st1 -> change G' st1 st2 -> folded st q G a st1 lp ->
     (calm a -> calm b -> grow st st2) -> root_kept st2 r b ->
     side st a G st2 lp n Gn -> side st b G' st2 rp m Gm -> Gn ## Gm -> R st2 lp rp) ->
  wpm (lp ← fold q; rp ← fold r; mret (lp, rp)) st (fun st' x => R st' (fst x) (snd x)).
Proof.
  intros Hok Ha Hb Hd Hfa Hfb HR. apply wpm_bind. eapply wpm_mono; [by apply Hfa|]. intros st1 lp Hl.
  pose proof Hl as (Hch1 & Hg1 & _). pose proof (change_ok _ _ _ _ Hch1) as Hok1.
  assert (own st1 r b G') as Hb1 by (eapply own_change; [exact Hb|exact Hch1|by symmetry]).
  apply wpm_bind. eapply wpm_mono; [by apply Hfb|]. intros st2 rp Hr. apply wpm_ret.
  pose proof Hr as (Hch2 & Hg2 & Hroot & _).
  destruct (folded_side typeTable leaf _ _ _ _ _ _ Ha Hl) as (n & Gn & Hsn).
  destruct (folded_side typeTable leaf _ _ _ _ _ _ Hb1 Hr) as (m & Gm & Hsm).
  pose proof Hsn as (Hn & HGn & _).
  assert (Gn ## G') as Hd1 by (eapply within_disjoint; [exact HGn|done|by eapply own_bound]).
  assert (Gn ## Gm) as Hd2.
  { symmetry. eapply within_disjoint; [apply Hsm|by symmetry|]. by eapply own_bound. }
  apply (HR st1 st2 lp rp n Gn m Gm); try done.
  - intros Ca Cb. eapply grow_trans; [by apply Hg1|by apply Hg2].
  - by eapply side_change.
  - destruct Hsm as (Hm & HGm & Hf & Ev & Hs & Hc & HX & Hat).
    pose proof (value_change typeTable leaf _ _ _ b (proj2 Hb) Hch1) as Eb. rewrite Eb in Ev.
    split; [done|]. split; [intros z Hz; destruct (HGm z Hz) as [|H]; [by left|right];
      pose proof (change_size _ _ _ _ Hch1); lia|]. split_and?; try done. intros H. rewrite <- Eb. by apply Hat.
Qed.

(** The rest of a fold, after the folds of its two operands *)
Lemma wpm_after_two (m m' : M pair) (k : pair -> pair -> M pair) st (R : Mem -> pair -> Prop) :
  wpm (lp ← m; rp ← m'; mret (lp, rp)) st (fun st' x => wpm (k (fst x) (snd x)) st' R) ->
  wpm (lp ← m; rp ← m'; k lp rp) st R.
Proof using Type.
  unfold wpm, mbind, M_bind, mret, M_ret. destruct (m st) as [[st1 lp]|]; [|done]. cbn [fst snd].
  by destruct (m' st1) as [[st2 rp]|].
Qed.

Lemma two_folds_then fold st q r a b G G' (k : pair -> pair -> M pair) (Q : Mem -> pair -> Prop) :
  mem_ok st -> own st q a G -> own st r b G' -> G ## G' -> fold_spec fold a -> fold_spec fold b ->
  (forall st1 st2 lp rp n Gn m Gm,
     change G st st1 -> change G' st1 st2 -> folded st q G a st1 lp ->
     (calm a -> calm b -> grow st st2) -> root_kept st2 r b ->
     side st a G st2 lp n Gn -> side st b G' st2 rp m Gm -> Gn ## Gm -> wpm (k lp rp) st2 Q) ->
  wpm (lp ← fold q; rp ← fold r; k lp rp) st Q.
Proof using Type.
  intros Hok Ha Hb Hd Hfa Hfb H. apply wpm_after_two.
  by apply (two_folds fold st q r a b G G' (fun st2 lp rp => wpm (k lp rp) st2 Q)).
Qed.

Lemma change_two G G' st st1 st2 : change G st st1 -> change G' st1 st2 -> change (G ∪ G') st st2.
Proof using Type.
  intros H1 H2. apply (change_sub _ _ (G ∪ G')) in H1; [|apply union_subseteq_l].
  eapply change_trans; [exact H1|exact H2|]. apply within_subset, union_subseteq_r.
Qed.

(** No type of the folded nodes is a floating-point type. *)
Lemma small_not_f128 t : small_int t -> pty_eqb t PTY_f128 = false.
Proof using Type. intros [Ht _]. apply bool_decide_eq_false_2. by intros ->. Qed.

Lemma FoldBinary_spec fold st p op t a b F :
  mem_ok st -> own st p (BinaryNode op t a b) F -> fold_spec fold a -> fold_spec fold b ->
  (forall y, atom y -> fold_spec fold y) -> binary_foldable op t a b ->
  wpm (FoldBinary typeTable fold p) st (folded st p F (BinaryNode op t a b)).
Proof using Htt.
  intros Hok Hn Hfa Hfb Hatoms Hfold. pose proof Hn as [_ Hwt].
  destruct (own_binary _ _ _ _ _ _ _ Hn) as (q & r & G & G' & Hc & Ha & Hb & Hd & HpG & ->).
  assert (p < size_of st)%nat as Hp by by eapply lookup_lt_Some.
  destruct (own_cell _ _ _ _ Ha) as (ac & Hac & _ & Eat & _), (own_cell _ _ _ _ Hb) as (bc & Hbc & _ & Ebt & _).
  unfold FoldBinary. eapply wpm_bind, wpm_get; [exact Hc|]. cbn [Opnd].
  apply wpm_bind, wpm_lift, wp_ret, wpm_bind, wpm_lift, wp_ret.
  eapply wpm_bind, wpm_type; [exact Hac|]. eapply wpm_bind, wpm_type; [exact Hbc|].
  cbn [ExprMem.GetPrimType GetOpCode]. rewrite Eat, Ebt.
  rewrite (small_not_f128 (node_ptyp a)), (small_not_f128 (node_ptyp b)), (small_not_f128 t);
    [|by eapply node_small|by eapply own_small..]. cbn [orb].
  eapply two_folds_then; [exact Hok|exact Ha|exact Hb|exact Hd|exact Hfa|exact Hfb|].
  intros st1 st2 lp rp n Gn m Gm Hch1 Hch2 _ Hcalm Hroot Hsn Hsm Hdn.
  pose proof (change_two _ _ _ _ _ Hch1 Hch2) as Hch.
  eapply wpm_mono.
  - apply (FoldBinary_folded_spec st p q r op t a b G G' Hwt Hfold Hp HpG fold Hatoms st2 lp rp n Gn m Gm Hok Hn); [|done..].
    split; [by eapply change_ok|]. split; [by eapply change_size|].
    split; [by eapply cell_kept|done].
  - intros st' z [Hg Ho]. eapply folded_intro; [exact Hn|exact Hc|exact HpG|apply union_subseteq_r|exact Hch| |exact Hg|by intros []|exact Ho].
    intros [Ca Cb]. by apply Hcalm.
Qed.
End Binary.
