(* ===== verification/ConstantFoldCompare.v ===== *)
(** * Comparisons of comparisons

    SimplifyDoubleCompare on a well-typed tree: a comparison of a cmp with 0
    compares the operands of the cmp, ne (x, 0) of a truth value is the truth
    value, and eq (x, 0) of a comparison changes the opcode of the comparison
    in place.  The value is preserved in each case. *)
From S2P Require Import Prelude.
From S2P Require Import PrimTypes.
From S2P Require Import Opcodes.
From S2P Require Import IntVal.
From S2P Require Import IntValFacts.
From S2P Require Import IntValSpec.
From S2P Require Import IntValTyped.
From S2P Require Import IntConst.
From S2P Require Import IntConstFacts.
From S2P Require Import ConstantFold.
From S2P Require Import ConstantFoldFacts.
From S2P Require Import ConstantFoldExpr.
From S2P Require Import ExprMem.
From S2P Require Import ExprTree.
From S2P Require Import ExprTreeFacts.
From S2P Require Import ExprMemFacts.
From S2P Require Import ConstantFoldTree.
From S2P Require Import ConstantFoldPair.
From S2P Require Import ConstantFoldUnary.
From S2P Require Import ConstantFoldValues.
From S2P Require Import ConstantFoldOperands.
From stdpp Require Import gmap.
#[local] Open Scope Z_scope.

Section Compare.
Context `{HT : Target}.
Context (typeTable : list (option MIRType)).
Context (leaf : nat -> Z).
Implicit Types (st : Mem) (t ot : PrimType) (n a b : BaseNode) (F G : gset nat) (X : feature -> Prop).

#[local] Abbreviation grow := (grow typeTable).
#[local] Abbreviation change := (change typeTable).
#[local] Abbreviation mem_ok := (mem_ok typeTable).
#[local] Abbreviation value := (value leaf).
#[local] Abbreviation outcome := (outcome leaf).
#[local] Abbreviation gives_node := (gives_node typeTable leaf).

(** ** The class of a node by its opcode *)

Lemma op_compare objs n :
  wt objs n -> In (node_op n) [OP_cmp; OP_eq; OP_ne] -> exists op t ot a b, n = CompareNode op t ot a b.
Proof.
  intros Hw Hop. destruct n as [t p|op t a|op t f a|op t o s a|op t a b|op t ot a b|op t i]; cbn [node_op wt] in *.
  - cbn [In] in Hop. by destruct_or! Hop.
  - destruct Hw as [Hw _]. cbn [In] in Hop. by destruct_or! Hop; subst op.
  - destruct Hw as [-> _]. cbn [In] in Hop. by destruct_or! Hop.
  - destruct Hw as [Hw _]. cbn [In] in Hop. destruct_or! Hop; subst op; by destruct Hw as [|[|]].
  - destruct Hw as [Hw _]. cbn [In] in Hop. by destruct_or! Hop; subst op.
  - by eexists _, _, _, _, _.
  - destruct Hw as (_ & _ & Hno). exfalso. apply Hno. cbn [In] in Hop. destruct_or! Hop; subst op; cbn; tauto.
Qed.

Lemma op_cvt objs n : wt objs n -> node_op n = OP_cvt -> exists t f a, n = TypeCvtNode OP_cvt t f a.
Proof.
  intros Hw Hop. destruct n as [t p|op t a|op t f a|op t o s a|op t a b|op t ot a b|op t i]; cbn [node_op wt] in *; try subst op.
  - done.
  - by destruct Hw.
  - by eexists _, _, _.
  - by destruct Hw as [[|[|]] _].
  - by destruct Hw.
  - by destruct Hw.
  - destruct Hw as (_ & _ & Hno). exfalso. apply Hno. cbn. tauto.
Qed.

Lemma op_constval objs n : wt objs n -> node_op n = OP_constval -> is_const n.
Proof.
  intros Hw Hop. destruct n as [t p|op t a|op t f a|op t o s a|op t a b|op t ot a b|op t i]; cbn [node_op wt] in *; try subst op.
  - done.
  - by destruct Hw.
  - by destruct Hw.
  - by destruct Hw as [[|[|]] _].
  - by destruct Hw.
  - by destruct Hw.
  - by destruct Hw as (_ & Hno & _).
Qed.

(** ** The value of a comparison *)

(** The comparison of [a] and [b] as values of the type [ot] *)
Definition cmp_of op ot (a b : Z) : Z := default 0 (compare_value op (in_type ot a) (in_type ot b)).

Lemma compare_node_value st op t ot a b :
  value st (CompareNode op t ot a b) = in_type t (cmp_of op ot (value st a) (value st b)).
Proof. done. Qed.

(** A truth value *)
Lemma relation_bool op (a b : Z) : op <> OP_cmp -> 0 <= default 0 (compare_value op a b) <= 1.
Proof.
  intros Hop. assert (compare_value op a b = Z.b2z <$> cmp_sem op a b) as -> by by destruct op.
  destruct (cmp_sem op a b) as [[]|]; cbn; lia.
Qed.

(** The order, as the result of cmp *)
Definition order (x y : Z) : Z := if y <? x then kGreater else if x =? y then kEqual else kLess.

Lemma order_zero op x y : op = OP_eq \/ op = OP_ne ->
  default 0 (compare_value op (order x y) 0) = default 0 (compare_value op x y) /\
  default 0 (compare_value op 0 (order x y)) = default 0 (compare_value op x y).
Proof.
  unfold order. intros Hop. destruct_or! Hop; subst op; cbn [compare_value cmp_sem fmap option_fmap option_map default];
    destruct (Z.ltb_spec y x), (Z.eqb_spec x y); try lia; done.
Qed.

Lemma order_sign op x y : op = OP_gt \/ op = OP_lt ->
  default 0 (compare_value op (order x y) 0) = default 0 (compare_value op x y) /\
  default 0 (compare_value op 0 (order x y)) = default 0 (compare_value op y x).
Proof.
  unfold order. intros Hop. destruct_or! Hop; subst op; cbn [compare_value cmp_sem fmap option_fmap option_map default];
    destruct (Z.ltb_spec y x), (Z.eqb_spec x y), (Z.ltb_spec x y); try lia; done.
Qed.

(** Whether a result of cmp is 0 does not depend on the types that hold it, and
    nor does its sign in a signed type. *)
Lemma order_range x y : - 1 <= order x y <= 1.
Proof. unfold order. destruct (y <? x), (x =? y); cbv; split; congruence. Qed.

Lemma in_type_order t ot c :
  arith t -> small_int ot -> type_width t = type_width ot -> - 1 <= c <= 1 ->
  (in_type ot (in_type t c) = 0 <-> c = 0) /\ (IsSignedInteger ot = true -> in_type ot (in_type t c) = c).
Proof.
  intros Ht Hot Ew Hc. destruct (arith_width t Ht) as [Hw _].
  assert (in_type ot (in_type t c) = in_type ot c) as ->.
  { apply in_type_congr. rewrite <- Ew. by apply wrap_in_type, arith_small. }
  pose proof (Z.pow_le_mono_r 2 7 (type_width t - 1)) as Hp.
  assert (IsSignedInteger ot = true -> in_type ot c = c) as Hs.
  { intros Hs. unfold in_type. rewrite Hs, <- Ew. apply swrap_small; lia. }
  split; [|done]. destruct (IsSignedInteger ot) eqn:E; [by rewrite (Hs eq_refl)|].
  split; [|intros ->; by apply in_type_bool]. intros E0. assert (wrap (type_width t) c = wrap (type_width t) 0) as Ec.
  { rewrite Ew, <- (wrap_in_type ot c), E0 by done. done. }
  assert (swrap (type_width t) c = swrap (type_width t) 0) as Esw by (by unfold swrap; rewrite Ec).
  rewrite !swrap_small in Esw by lia. exact Esw.
Qed.

Lemma compare_zero op c d : op = OP_eq \/ op = OP_ne -> (c = 0 <-> d = 0) ->
  compare_value op c 0 = compare_value op d 0 /\ compare_value op 0 c = compare_value op 0 d.
Proof.
  intros Hop H. destruct_or! Hop; subst op; cbn [compare_value cmp_sem fmap option_fmap option_map];
    destruct (Z.eqb_spec c 0), (Z.eqb_spec d 0), (Z.eqb_spec 0 c), (Z.eqb_spec 0 d); try lia; done.
Qed.

(** A cmp compared with 0; [swapped]: the cmp is the right operand. *)
Lemma order_compare op x y t ot :
  arith t -> small_int ot -> type_width t = type_width ot ->
  op = OP_eq \/ op = OP_ne \/ ((op = OP_gt \/ op = OP_lt) /\ IsSignedInteger ot = true) ->
  let c := in_type ot (in_type t (order x y)) in
  default 0 (compare_value op c 0) = default 0 (compare_value op x y) /\
  default 0 (compare_value op 0 c)
    = default 0 (if one_of [OP_gt; OP_lt] op then compare_value op y x else compare_value op x y).
Proof.
  intros Ht Hot Ew Hop c. destruct (in_type_order t ot (order x y) Ht Hot Ew (order_range x y)) as [H0 Hs].
  fold c in H0, Hs.
  assert ((op = OP_eq \/ op = OP_ne) \/ ((op = OP_gt \/ op = OP_lt) /\ IsSignedInteger ot = true)) as [He|[He Hsg]] by tauto.
  - destruct (compare_zero op c (order x y) He H0) as [-> ->]. destruct (order_zero op x y He) as [-> ->].
    split; [done|]. by destruct He as [-> | ->].
  - rewrite (Hs Hsg). destruct (order_sign op x y He) as [-> ->]. split; [done|]. by destruct He as [-> | ->].
Qed.

(** ** The rewrites *)

Lemma const_is_zero_spec st p n F c (Q : Mem -> bool -> Prop) :
  own st p n F -> cells st !! p = Some c ->
  (forall z, (z = true -> is_const n /\ value st n = 0) -> Q st z) -> wpm (const_is_zero c) st Q.
Proof.
  intros Hn Hc HQ. destruct c as [t k| | | | | |]; try (by apply wpm_ret, HQ).
  destruct (own_constval _ _ _ _ _ k Hn Hc eq_refl) as [t' ->].
  destruct (const_reads leaf _ _ _ _ _ Hn) as [c Hk]. unfold const_is_zero.
  eapply wpm_bind, wpm_get_const; [exact (read_cell _ _ _ _ _ Hk)|]. unfold IsZero.
  rewrite op_eq_int64_0 by exact (read_val _ _ _ _ _ Hk). apply wpm_lift, wp_ret, HQ. intros E. split; [done|].
  rewrite <- (read_value _ _ _ _ _ Hk). by apply Z.eqb_eq.
Qed.

(** A new comparison *)
Lemma new_compare st q r a b G G' F op t ot v X :
  mem_ok st -> own st q a G -> own st r b G' -> G ## G' -> within (size_of st) G F -> within (size_of st) G' F ->
  wt (objs st) (CompareNode op t ot a b) -> in_type t (cmp_of op ot (value st a) (value st b)) = in_type t v ->
  (forall x, has x (CompareNode op t ot a b) -> X x) ->
  wpm (New (CompareCell op t ot q r)) st (gives_node st F t v X).
Proof.
  intros Hok Ha Hb Hd HG HG' Hw Ev HX. apply wpm_new.
  assert (grow st (MkMem (cells st ++ [CompareCell op t ot q r]) (constants st))) as Hg by by apply grow_new.
  split; [done|]. exists (CompareNode op t ot a b), ({[size_of st]} ∪ (G ∪ G')). split_and?; try done.
  - by apply own_new_compare.
  - apply within_union; [by apply within_fresh|]. by apply within_union.
  - by left.
  - cbn [fst snd opt_value]. rewrite Z.add_0_r, (value_grow typeTable leaf st) by done.
    apply in_type_congr_iff; [exact (wt_small _ _ Hw)|]. rewrite compare_node_value, in_type_idem; [done|].
    exact (wt_small _ _ Hw).
Qed.

(** ** Truth values under conversions *)

(** find_bool follows conversions to a truth value of the same value. *)
Lemma find_bool_spec fuel l_ne_eq st p n F :
  own st p n F -> (height n <= fuel)%nat -> (l_ne_eq = true -> node_ptyp n = PTY_u1) ->
  wpm (find_bool fuel l_ne_eq p) st (fun st' o => st' = st /\
    match o with
    | Some y => exists n' F', own st y n' F' /\ F' ⊆ F /\ node_ptyp n' = PTY_u1 /\ value st n = value st n' /\
        (forall x, has x n' -> has x n)
    | None => True
    end).
Proof.
  revert l_ne_eq p n F. induction fuel as [|fuel IH]; intros l_ne_eq p n F Hn Hh Hl; [destruct n; cbn [height] in Hh; lia|].
  destruct (own_cell _ _ _ _ Hn) as (c & Hc & Eop & Et & _). cbn [find_bool]. eapply wpm_bind, wpm_get; [exact Hc|].
  rewrite Et, Eop. destruct (pty_eqb (node_ptyp n) PTY_u1 || l_ne_eq) eqn:E.
  { apply wpm_ret. split; [done|]. exists n, F. split_and?; try done.
    apply orb_true_iff in E as [E|E]; [by apply pty_eqb_true|by apply Hl]. }
  destruct (op_eqb (node_op n) OP_cvt) eqn:Ecvt; [|by apply wpm_ret].
  apply op_eqb_spec in Ecvt. destruct (op_cvt _ _ (proj2 Hn) Ecvt) as (t & f & a & ->).
  destruct (own_cvt _ _ _ _ _ _ _ Hn) as (q & G & Hq & Ha & _ & ->). rewrite Hc in Hq. injection Hq as ->.
  apply orb_false_iff in E as [_ ->]. cbn [Opnd]. apply wpm_bind, wpm_lift, wp_ret.
  eapply wpm_mono; [apply (IH false q a G Ha); [cbn [height] in Hh; lia|done]|].
  intros st' [y|] [-> Hy]; [|done]. split; [done|]. destruct Hy as (n' & F' & Hn' & HF' & Eu & Ev & HX).
  exists n', F'. split_and?; try done; [set_solver| |intros x Hx; right; by apply HX].
  destruct Hn as [_ (_ & Ht & Hf & _)]. pose proof (u1_range leaf _ _ (proj2 Hn') Eu) as Hr.
  change (value st (TypeCvtNode OP_cvt t f a)) with (in_type t (in_type f (value st a))). rewrite Ev.
  fold (value st n') in Hr. by rewrite (in_type_bool f), (in_type_bool t) by done.
Qed.

(** The comparison at [z], its operands at [q] and [r] *)
Section Node.
Context (st : Mem) (z q r : nat) (op : Opcode) (t ot : PrimType) (a b : BaseNode) (G G' : gset nat).
#[local] Abbreviation N := (CompareNode op t ot a b).
#[local] Abbreviation F := ({[z]} ∪ (G ∪ G')).
Context (Hok : mem_ok st) (Hz : cells st !! z = Some (CompareCell op t ot q r)).
Context (HN : own st z N F) (Ha : own st q a G) (Hb : own st r b G') (Hd : G ## G').

Lemma compare_small : small_int t.
Proof using HN. exact (own_small _ _ _ _ HN). Qed.

Lemma keep_compare : gives_node st F t (value st N) (fun x => has x N) st z.
Proof using Hok HN.
  eapply (gives_same typeTable leaf st F F); try done; [by left|]. cbn [opt_value]. by rewrite Z.add_0_r.
Qed.

(** What is needed of a cmp among the operands: its order must not be compared
    as unsigned. *)
Definition order_ok : Prop :=
  op = OP_eq \/ op = OP_ne \/
  ((op = OP_gt \/ op = OP_lt) /\ (IsSignedInteger ot = true \/ (~ has FCmp a /\ ~ has FCmp b))).

Lemma order_signed : order_ok -> has FCmp a \/ has FCmp b ->
  op = OP_eq \/ op = OP_ne \/ ((op = OP_gt \/ op = OP_lt) /\ IsSignedInteger ot = true).
Proof using Type.
  intros [H|[H|[H Hs]]] Hc; [by left|by right; left|]. right; right. split; [done|].
  destruct Hs as [Hs|[Ha' Hb']]; [done|]. by destruct Hc.
Qed.

Lemma cmp_facts p n Fn ct cot a' b' :
  own st p n Fn -> fits ot n -> small_int ot -> n = CompareNode OP_cmp ct cot a' b' ->
  has FCmp n /\ arith ct /\ type_width ct = type_width ot /\
  value st n = in_type ct (order (in_type cot (value st a')) (in_type cot (value st b'))).
Proof using Type.
  intros Hn Hf Hot ->. pose proof Hn as [_ (Hct & _)]. split; [by left|]. split; [done|].
  split; [|done]. destruct Hf as [E|E]; [done|]. by destruct Hct.
Qed.

(** The operands of the cmp, compared instead *)
Lemma cmp_operands p ct cot a' b' Fn x y X :
  own st p (CompareNode OP_cmp ct cot a' b') Fn -> cells st !! p = Some (CompareCell OP_cmp ct cot x y) ->
  Fn ⊆ F -> order_ok -> (forall v, has v (CompareNode OP_cmp ct cot a' b') -> has v N) -> compare_type op t ->
  forall (swapped : bool),
  in_type t (cmp_of op ot (value st a) (value st b))
    = in_type t (if swapped then cmp_of op cot (value st b') (value st a') else cmp_of op cot (value st a') (value st b')) ->
  (forall v, has v N -> X v) ->
  wpm (if swapped then New (CompareCell op t cot y x) else New (CompareCell op t cot x y)) st
    (gives_node st F t (value st N) X).
Proof using Hok Hz HN Ha Hb Hd.
  intros Hn Hp HF Hord HX Hct swapped Ev HXX. destruct (own_compare _ _ _ _ _ _ _ _ Hn) as (x' & y' & Gx & Gy & Hp' & Hx & Hy & Hdx & _ & ->).
  rewrite Hp in Hp'. injection Hp' as <- <-. destruct Hn as [_ (_ & Hcot & Hfa & Hfb & Hwa & Hwb)].
  assert (Gx ⊆ F /\ Gy ⊆ F) as [HGx HGy] by set_solver.
  assert (forall v, has v a' \/ has v b' -> X v) as HXs by (intros v [H|H]; apply HXX, HX; [by right; left|by right; right]).
  assert (forall v, op_has v op t -> X v) as HXo by (intros v H; apply HXX; by left).
  assert (in_type t (value st N) = in_type t (cmp_of op ot (value st a) (value st b))) as EN
    by (rewrite compare_node_value; apply in_type_idem; exact compare_small).
  destruct swapped.
  - eapply (new_compare st y x b' a' Gy Gx);
      [exact Hok|exact Hy|exact Hx|symmetry; exact Hdx|by apply within_subset..|exact (conj Hct (conj Hcot (conj Hfb (conj Hfa (conj Hwb Hwa)))))|by rewrite EN|].
    intros v [H|[H|H]]; [by apply HXo|by apply HXs; right|by apply HXs; left].
  - eapply (new_compare st x y a' b' Gx Gy);
      [exact Hok|exact Hx|exact Hy|exact Hdx|by apply within_subset..|exact (conj Hct (conj Hcot (conj Hfa (conj Hfb (conj Hwa Hwb)))))|by rewrite EN|].
    intros v [H|[H|H]]; [by apply HXo|by apply HXs; left|by apply HXs; right].
Qed.

Lemma SimplifyDoubleConstvalCompare_spec (isR gtlt : bool) :
  (if isR then node_op a = OP_cmp /\ is_const b else node_op b = OP_cmp /\ is_const a) ->
  order_ok -> gtlt = one_of [OP_gt; OP_lt] op ->
  wpm (SimplifyDoubleConstvalCompare z isR gtlt) st (gives_node st F t (value st N) (fun x => has x N)).
Proof using Hok Hz HN Ha Hb Hd.
  intros Hops Hord Egl. pose proof HN as [_ (Hct & Hot & Hfa & Hfb & Hwa & Hwb)].
  destruct (own_cell _ _ _ _ Ha) as (ac & Hac & Eao & _). destruct (own_cell _ _ _ _ Hb) as (bc & Hbc & Ebo & _).
  unfold SimplifyDoubleConstvalCompare. eapply wpm_bind, wpm_get; [exact Hz|]. cbn [Opnd].
  apply wpm_bind, wpm_lift, wp_ret, wpm_bind, wpm_lift, wp_ret.
  eapply wpm_bind, wpm_get; [exact Hac|]. eapply wpm_bind, wpm_get; [exact Hbc|]. cbn [GetOpCode ExprMem.GetPrimType].
  apply wpm_bind. destruct isR; cbn [negb andb].
  - apply (const_is_zero_spec st r b G' bc); [done|done|]. intros zero Hzero.
    destruct zero; [|apply wpm_ret, keep_compare]. destruct (Hzero eq_refl) as [_ E0].
    destruct (op_compare _ _ Hwa) as (op' & ct & cot & a' & b' & Ea); [rewrite (proj1 Hops); by left|].
    pose proof (proj1 Hops) as Eop. rewrite Ea in Eop. cbn [node_op] in Eop. subst op'.
    destruct (cmp_facts q a G ct cot a' b' Ha Hfa Hot Ea) as (Hcmp & Hca & Ew & Ev). pose proof Ha as Ha'. rewrite Ea in Ha', Eao.
    destruct (own_compare _ _ _ _ _ _ _ _ Ha') as (x & y & Gx & Gy & Hp & _). rewrite Hac in Hp. injection Hp as ->.
    apply (cmp_operands q ct cot a' b' G x y (fun v => has v N) Ha' Hac) with (swapped := false);
      [set_solver|exact Hord| |exact Hct| |done].
    + intros v Hv. right; left. by rewrite Ea.
    + f_equal. unfold cmp_of. rewrite Ev, E0, (in_type_bool ot 0 Hot) by done.
      by apply (order_compare op); [..|apply order_signed; [done|by left]].
  - apply (const_is_zero_spec st q a G ac); [done|done|]. intros zero Hzero.
    destruct zero; [|apply wpm_ret, keep_compare]. destruct (Hzero eq_refl) as [_ E0].
    destruct (op_compare _ _ Hwb) as (op' & ct & cot & a' & b' & Eb); [rewrite (proj1 Hops); by left|].
    pose proof (proj1 Hops) as Eop. rewrite Eb in Eop. cbn [node_op] in Eop. subst op'.
    destruct (cmp_facts r b G' ct cot a' b' Hb Hfb Hot Eb) as (Hcmp & Hca & Ew & Ev). pose proof Hb as Hb'. rewrite Eb in Hb', Ebo.
    destruct (own_compare _ _ _ _ _ _ _ _ Hb') as (x & y & Gx & Gy & Hp & _). rewrite Hbc in Hp. injection Hp as ->.
    apply (cmp_operands r ct cot a' b' G' x y (fun v => has v N) Hb' Hbc) with (swapped := gtlt);
      [set_solver|exact Hord| |exact Hct| |done].
    + intros v Hv. right; right. by rewrite Eb.
    + f_equal. unfold cmp_of. rewrite Ev, E0, (in_type_bool ot 0 Hot) by done. rewrite Egl.
      destruct (order_compare op (in_type cot (value st a')) (in_type cot (value st b')) ct ot Hca Hot Ew) as [_ ->];
        [apply order_signed; [done|by right]|]. by destruct (one_of [OP_gt; OP_lt] op).
Qed.

(** What the rewrites leave *)
Definition simplified st' (y : nat) : Prop :=
  (exists K, change K st st' /\ K ⊆ G ∪ G') /\ (op <> OP_eq -> grow st st') /\
  outcome st' (size_of st) F t (value st N) (fun x => has x N) (y, None).

Lemma simplified_grow st' y : gives_node st F t (value st N) (fun x => has x N) st' y -> simplified st' y.
Proof using Type.
  intros [Hg Ho]. split; [|done]. exists ∅. split; [by apply grow_change|]. intros v Hv. by apply not_elem_of_empty in Hv.
Qed.

Lemma relation_u1 : op = OP_eq \/ op = OP_ne -> t = PTY_u1.
Proof using HN. destruct HN as [_ (Ht & _)]. by intros [E|E]; rewrite E in Ht. Qed.

(** ne (x, 0) of a truth value *)
Lemma ne_zero y n Fn :
  op = OP_ne -> value st b = 0 -> own st y n Fn -> Fn ⊆ G -> node_ptyp n = PTY_u1 -> value st a = value st n ->
  (forall x, has x n -> has x a) -> gives_node st F t (value st N) (fun x => has x N) st y.
Proof using Hok HN.
  intros Eop Eb Hn HF Eu Ev HX. pose proof (relation_u1 (or_intror Eop)) as Et. pose proof HN as [_ (_ & Hot & _)].
  pose proof (u1_range leaf _ _ (proj2 Hn) Eu) as Hr.
  eapply (gives_same typeTable leaf st F Fn); [exact Hok|exact Hn| |left; congruence| |done|done|].
  - intros v Hv. apply elem_of_union_r, elem_of_union_l. by apply HF.
  - cbn [opt_value]. rewrite Z.add_0_r, compare_node_value, Et, Eb, Ev, Eop. f_equal. unfold cmp_of.
    rewrite (in_type_bool ot), (in_type_bool ot 0) by done. fold (value st n) in Hr.
    assert (value st n = 0 \/ value st n = 1) as [E|E] by lia; by rewrite E.
  - intros x Hx. right; left. by apply HX.
Qed.

(** eq (x, 0) of a comparison *)
Lemma eq_zero lop lt lot x y :
  op = OP_eq -> value st b = 0 -> lop = OP_ne \/ lop = OP_eq -> a = CompareNode lop lt lot x y ->
  wpm (_ ← SetOpCode q (if op_eqb lop OP_ne then OP_eq else OP_ne); mret q) st simplified.
Proof using Hok Hz HN Ha Hb Hd.
  intros Eop Eb Hlop Ea. pose proof (relation_u1 (or_introl Eop)) as Et. pose proof HN as [_ (_ & Hot & _)].
  pose proof Ha as Ha'. rewrite Ea in Ha'. destruct (own_compare _ _ _ _ _ _ _ _ Ha') as (q1 & q2 & G1 & G2 & Hq & H1 & H2 & Hd1 & Hn & EG).
  set (op' := if op_eqb lop OP_ne then OP_eq else OP_ne).
  apply wpm_bind. eapply wpm_modify; [exact Hq|]. cbn [set_OpCode]. apply wpm_ret.
  pose proof (change_cell typeTable st q (CompareCell op' lt lot q1 q2) Hok) as Hch. set (st' := MkMem _ _) in *.
  assert (lt = PTY_u1) as Elt by (destruct Ha' as [_ (Hlt & _)]; by destruct Hlop as [E|E]; rewrite E in Hlt).
  assert (own st' q (CompareNode op' lt lot x y) G) as Hown.
  { assert (own st' q1 x G1 /\ own st' q2 y G2) as [[R1 W1] [R2 W2]] by (split; eapply own_change; try done; set_solver).
    destruct Ha' as [_ (_ & Hlot & Hfx & Hfy & _)]. split.
    - exists q1, q2, G1, G2. split_and?; try done. cbn. apply list_lookup_insert_eq. by eapply lookup_lt_Some.
    - split_and?; try done. subst op'. by destruct Hlop as [-> | ->]. }
  split; [exists {[q]}; split; [exact Hch|set_solver]|]. split; [done|]. exists (CompareNode op' lt lot x y), G.
  split_and?; [exact Hown|apply within_subset; set_solver|left; cbn [node_ptyp]; congruence| |done|done|].
  - cbn [snd opt_value]. rewrite Z.add_0_r, !compare_node_value, Et, Elt, Eb, Eop. f_equal. f_equal.
    assert (value st a = in_type PTY_u1 (cmp_of lop lot (value st x) (value st y))) as -> by (by rewrite Ea, <- Elt).
    unfold value. change (objs st') with (objs st).
    assert (0 <= cmp_of lop lot (value st x) (value st y) <= 1) as Hr by (apply relation_bool; by destruct Hlop as [-> | ->]).
    unfold cmp_of at 2. rewrite !(in_type_bool _ (cmp_of lop _ _ _)), (in_type_bool ot 0) by done.
    fold (value st x) (value st y). subst op'. unfold cmp_of, value in *.
    by destruct Hlop as [-> | ->]; cbn; destruct (_ =? _).
  - intros v [Hv|[Hv|Hv]]; right; left; rewrite Ea; [left|by right; left|by right; right].
    subst op'. destruct Hlop as [-> | ->]; destruct v; cbn in Hv |- *; try exact Hv; try done; (destruct Hv as [Hv|Hv]; [by left|done]).
Qed.

Lemma simplified_same : wpm (mret z) st simplified.
Proof using Hok HN. apply wpm_ret, simplified_grow, keep_compare. Qed.

(** A comparison of a comparison with 0 *)
Lemma ne_zero_spec lc :
  op = OP_ne -> cells st !! q = Some lc -> value st b = 0 ->
  wpm (n ← memory_size; o ← find_bool n (one_of [OP_ne; OP_eq] (GetOpCode lc)) q;
       mret (match o with Some x => x | None => z end)) st simplified.
Proof using Hok HN Ha.
  intros Eop Hq Eb. apply wpm_bind. unfold wpm at 1, memory_size. cbn [fst snd]. apply wpm_bind.
  eapply wpm_mono; [apply (find_bool_spec _ _ st q a G Ha)|].
  - apply (rep_height_memory _ _ _ _ (proj1 Ha)).
  - rewrite (own_op _ _ _ _ _ Ha Hq). intros E. apply one_of_spec in E.
    destruct (op_compare _ _ (proj2 Ha)) as (lop & lt & lot & x & y & Ea); [right; cbn [In] in *; tauto|].
    pose proof (proj2 Ha) as Hwa. rewrite Ea in E, Hwa |- *. destruct Hwa as (Ht & _). cbn [node_op node_ptyp In] in *.
    by destruct_or! E; subst lop.
  - intros st' [y|] [-> Hy]; [|exact simplified_same].
    destruct Hy as (n' & F' & Hn' & HF' & Eu & Ev & HX). apply wpm_ret, simplified_grow.
    by apply (ne_zero y n' F').
Qed.

Lemma eq_zero_spec lc :
  op = OP_eq -> cells st !! q = Some lc -> value st b = 0 -> one_of [OP_ne; OP_eq] (GetOpCode lc) = true ->
  wpm (_ ← SetOpCode q (if op_eqb (GetOpCode lc) OP_ne then OP_eq else OP_ne); mret q) st simplified.
Proof using Hok Hz HN Ha Hb Hd.
  intros Eop Hq Eb E. rewrite (own_op _ _ _ _ _ Ha Hq) in *. apply one_of_spec in E.
  destruct (op_compare _ _ (proj2 Ha)) as (lop & lt & lot & x & y & Ea); [right; cbn [In] in *; tauto|].
  rewrite Ea in E |- *. cbn [node_op In] in E |- *. apply (eq_zero lop lt lot x y); [done|done|destruct E as [E|[E|[]]]; [by left|by right]|done].
Qed.

Lemma SimplifyDoubleCompare_spec :
  (op = OP_gt \/ op = OP_lt -> IsSignedInteger ot = true \/ (~ has FCmp a /\ ~ has FCmp b)) ->
  wpm (SimplifyDoubleCompare z) st simplified.
Proof using Hok Hz HN Ha Hb Hd.
  intros Hgl. destruct (own_cell _ _ _ _ Ha) as (lc & Hlc & Elo & _). destruct (own_cell _ _ _ _ Hb) as (rc & Hrc & Ero & _).
  unfold SimplifyDoubleCompare. eapply wpm_bind, wpm_get; [exact Hz|]. cbn [Opnd].
  apply wpm_bind, wpm_lift, wp_ret, wpm_bind, wpm_lift, wp_ret.
  eapply wpm_bind, wpm_get; [exact Hlc|]. eapply wpm_bind, wpm_get; [exact Hrc|]. cbv zeta. cbn [GetOpCode].
  set (l_cmp := op_eqb (GetOpCode lc) OP_cmp && op_eqb (GetOpCode rc) OP_constval).
  set (r_cmp := op_eqb (GetOpCode rc) OP_cmp && op_eqb (GetOpCode lc) OP_constval).
  assert (forall gtlt, l_cmp || r_cmp = true -> order_ok -> gtlt = one_of [OP_gt; OP_lt] op ->
    wpm (SimplifyDoubleConstvalCompare z l_cmp gtlt) st simplified) as Hdouble.
  { intros gtlt E Hord Eg. eapply wpm_mono; [apply SimplifyDoubleConstvalCompare_spec; [|exact Hord|exact Eg]|exact simplified_grow].
    destruct l_cmp eqn:El; [|cbn [orb] in E]; [clear E; rename El into E|]; apply andb_true_iff in E as [E1 E2];
      apply op_eqb_spec in E1, E2; rewrite ?Elo, ?Ero in *; (split; [done|]).
    - exact (op_constval _ _ (proj2 Hb) E2).
    - exact (op_constval _ _ (proj2 Ha) E2). }
  destruct (one_of [OP_ne; OP_eq] op) eqn:Ene.
  { apply one_of_spec in Ene. assert (op = OP_eq \/ op = OP_ne) as Hne by (destruct Ene as [E|[E|[]]]; [by right|by left]).
    destruct (l_cmp || r_cmp) eqn:Ecmp.
    { apply Hdouble; [done|destruct Hne; [by left|by right; left]|by destruct Hne as [-> | ->]]. }
    destruct (op_eqb op OP_ne && _) eqn:E.
    { apply andb_true_iff in E as [E _]. apply op_eqb_spec in E. apply wpm_bind.
      apply (const_is_zero_spec st r b G' rc); [done|done|]. intros [] Hzero; [|exact simplified_same].
      apply ne_zero_spec; [done|done|by apply Hzero]. }
    destruct (op_eqb op OP_eq && _) eqn:E'; [|exact simplified_same].
    apply andb_true_iff in E' as [E' _]. apply op_eqb_spec in E'. apply wpm_bind.
    apply (const_is_zero_spec st r b G' rc); [done|done|]. intros [] Hzero; [|exact simplified_same].
    cbn [andb]. destruct (one_of [OP_ne; OP_eq] (GetOpCode lc)) eqn:El; [|exact simplified_same].
    apply eq_zero_spec; [done|done|by apply Hzero|done]. }
  destruct (one_of [OP_gt; OP_lt] op) eqn:Egl; [|exact simplified_same].
  apply one_of_spec in Egl. assert (op = OP_gt \/ op = OP_lt) as Hop by (destruct Egl as [E|[E|[]]]; [by left|by right]).
  destruct (l_cmp || r_cmp) eqn:Ecmp; [|exact simplified_same].
  apply Hdouble; [done|right; right; by split; [|apply Hgl]|by destruct Hop as [-> | ->]].
Qed.
End Node.
End Compare.
