(* ===== verification/ConstantFoldRelation.v ===== *)
(** * The fold of a comparison

    FoldCompare: two constants are compared, a constant on the left goes to the
    right, and the comparison of other operands is rebuilt and simplified. *)
From S2P Require Import Prelude.
From S2P Require Import PrimTypes.
From S2P Require Import Opcodes.
From S2P Require Import IntVal.
From S2P Require Import IntValFacts.
From S2P Require Import IntValSpec.
From S2P Require Import IntValTyped.
From S2P Require Import IntConst.
From S2P Require Import IntConstFacts.
From S2P Require Import ConstantFold.
From S2P Require Import ConstantFoldFacts.
From S2P Require Import ConstantFoldExpr.
From S2P Require Import ExprMem.
From S2P Require Import ExprTree.
From S2P Require Import ExprTreeFacts.
From S2P Require Import ExprMemFacts.
From S2P Require Import ConstantFoldTree.
From S2P Require Import ConstantFoldPair.
From S2P Require Import ConstantFoldUnary.
From S2P Require Import ConstantFoldValues.
From S2P Require Import ConstantFoldOperands.
From S2P Require Import ConstantFoldNode.
From S2P Require Import ConstantFoldCompare.
From stdpp Require Import gmap.
#[local] Open Scope Z_scope.

Section Compare.
Context `{HT : Target}.
Context (typeTable : list (option MIRType)).
Context (Htt : TypeTable_init `prefix_of` typeTable).
Context (leaf : nat -> Z).
Implicit Types (st : Mem) (t ot : PrimType) (n a b : BaseNode) (F G : gset nat) (X : feature -> Prop).

#[local] Abbreviation grow := (grow typeTable).
#[local] Abbreviation change := (change typeTable).
#[local] Abbreviation mem_ok := (mem_ok typeTable).
#[local] Abbreviation value := (value leaf).
#[local] Abbreviation outcome := (outcome leaf).
#[local] Abbreviation fold_spec := (fold_spec typeTable leaf).
#[local] Abbreviation folded := (folded typeTable leaf).
#[local] Abbreviation side := (side leaf).
#[local] Abbreviation expr := (expr leaf).
#[local] Abbreviation stands := (stands leaf).

Section Node.
Context (st0 : Mem) (p q r : nat) (op : Opcode) (t ot : PrimType) (a b : BaseNode) (G G' : gset nat).
#[local] Abbreviation N := (CompareNode op t ot a b).
#[local] Abbreviation F := ({[p]} ∪ (G ∪ G')).
Context (Hwt : wt (objs st0) N) (Hp : (p < size_of st0)%nat) (HpG : p ∉ G ∪ G').
Context (Hgl : op = OP_gt \/ op = OP_lt -> IsSignedInteger ot = true \/ (~ has FCmp a /\ ~ has FCmp b)).

(** The folded operands in memory *)
Definition compare_operands st (lp rp : pair) n Gn m Gm : Prop :=
  mem_ok st /\ (size_of st0 <= size_of st)%nat /\ cells st !! p = Some (CompareCell op t ot q r) /\
  side st0 a G st lp n Gn /\ side st0 b G' st rp m Gm /\ Gn ## Gm.

(** What the fold leaves in [st'], when the folded operands were in [st] *)
Definition compare_result st st' (res : pair) : Prop :=
  (exists K, change K st st' /\ within (size_of st0) K (G ∪ G')) /\ (op <> OP_eq -> grow st st') /\
  outcome st' (size_of st0) F t (value st0 N) (allowed N) res.

Lemma compare_result_grow st st' res :
  grow st st' -> outcome st' (size_of st0) F t (value st0 N) (allowed N) res -> compare_result st st' res.
Proof using Type.
  intros Hg Ho. split; [|done]. exists ∅. split; [by apply grow_change|]. intros v Hv. by apply not_elem_of_empty in Hv.
Qed.

Lemma allowed_compare_op x : op_has x op t -> allowed N x.
Proof using Type. intros H. destruct x; cbn [allowed has]; exact H || (left; exact H). Qed.
Lemma allowed_compare_l x : allowed a x -> allowed N x.
Proof using Type. intros H. destruct x; cbn [allowed has] in *; exact H || (right; left; exact H). Qed.
Lemma allowed_compare_r x : allowed b x -> allowed N x.
Proof using Type. intros H. destruct x; cbn [allowed has] in *; exact H || (right; right; exact H). Qed.

(** Trees that stand for the operands compare as they do. *)
Lemma compare_stands st n m :
  stands st0 a st n -> stands st0 b st m ->
  wt (objs st) (CompareNode op t ot n m) /\
  value st (CompareNode op t ot n m) = value st0 N.
Proof using Hwt.
  intros Hn Hm. pose proof Hwt as (Hct & Hot & Hfa & Hfb & Hwa & Hwb).
  destruct (stands_value leaf _ _ _ _ ot Hwa Hn Hfa) as [Hfn En]. destruct (stands_value leaf _ _ _ _ ot Hwb Hm Hfb) as [Hfm Em].
  split; [exact (conj Hct (conj Hot (conj Hfn (conj Hfm (conj (proj1 Hn) (proj1 Hm))))))|].
  rewrite !compare_node_value. unfold cmp_of. by rewrite (in_type_congr ot _ _ En), (in_type_congr ot _ _ Em).
Qed.

(** ** Two constants *)

Lemma FoldConstComparison_spec st lp rp t1 pl Gn t2 pr Gm :
  compare_operands st lp rp (ConstvalNode t1 pl) Gn (ConstvalNode t2 pr) Gm ->
  wpm (FoldConstComparison typeTable op t ot pl pr) st (fun st' z => compare_result st st' (z, None)).
Proof using Htt Hwt Hp.
  intros (Hok & Hsize & _ & Hl & Hr & _). pose proof Hwt as (Hct & Hot & _). pose proof (wt_small _ _ Hwt : small_int t) as Ht.
  destruct (const_reads leaf _ _ _ _ _ (proj1 Hl)) as [c0 H0]. destruct (const_reads leaf _ _ _ _ _ (proj1 Hr)) as [c1 H1].
  destruct (side_alone leaf _ _ _ _ _ _ _ Hl (proj1 (proj2 (proj2 (proj2 (proj2 (proj2 Hl))))) I)) as (_ & _ & Hsn & _).
  destruct (side_alone leaf _ _ _ _ _ _ _ Hr (proj1 (proj2 (proj2 (proj2 (proj2 (proj2 Hr))))) I)) as (_ & _ & Hsm & _).
  destruct (compare_stands _ _ _ Hsn Hsm) as [_ Ev].
  unfold FoldConstComparison. rewrite (proj1 Hot). cbn [orb].
  eapply wpm_bind, wpm_get_const; [exact (read_cell _ _ _ _ _ H0)|]. eapply wpm_bind, wpm_get_const; [exact (read_cell _ _ _ _ _ H1)|].
  pose proof (fold_comparison_folds typeTable Htt (constants st) op t ot c0 c1 Hok (proj1 Ht) (proj1 Hot)
    (proj1 (read_val _ _ _ _ _ H0)) (proj1 (read_val _ _ _ _ _ H1)) (or_introl (proj2 (small_width ot Hot)))) as Hf.
  rewrite (read_value _ _ _ _ _ H0), (read_value _ _ _ _ _ H1) in Hf.
  destruct (relation_value op t (in_type ot (value st (ConstvalNode t1 pl))) (in_type ot (value st (ConstvalNode t2 pr))) Hct) as [v Hv].
  rewrite Hv in Hf. eapply wpm_mono; [apply (NewConstval_spec typeTable leaf st t _ _ Ht Hf)|].
  intros st' z Hnew. apply compare_result_grow; [apply Hnew|].
  eapply (new_const_outcome typeTable leaf st0 st st' F t t); [exact Hnew|exact Hsize|exact Ht|by left| |].
  - rewrite <- Ev, compare_node_value. unfold cmp_of. rewrite Hv. cbn [default]. f_equal. apply in_type_congr.
    apply wrap_norm_le. pose proof (small_width t Ht). lia.
  - intros x Hx. by apply allowed_compare_op, op_has_type.
Qed.

(** ** A constant on the left *)

Lemma reverse_result st lp rp n Gn m Gm :
  compare_operands st lp rp n Gn m Gm -> is_const n -> op <> OP_cmp ->
  wpm (z ← PairToExpr typeTable (node_ptyp b) rp; res ← FoldConstComparisonReverse op t ot (fst lp) z; mret (res, None)) st
    (compare_result st).
Proof using Htt Hwt Hp.
  intros (Hok & Hsize & _ & Hl & Hr & Hd) Hcn Hop.
  apply wpm_bind. eapply wpm_mono; [apply (side_expr typeTable Htt leaf st0 b G' st rp m Gm);
    [exact Hok|exact Hsize|eapply wt_small; apply Hwt|exact Hr]|].
  intros st1 z (Hg1 & m1 & Gm1 & He & Hw1). pose proof (side_grow typeTable leaf _ _ _ _ _ _ _ _ Hl Hg1) as Hl1.
  destruct (side_alone leaf _ _ _ _ _ _ _ Hl1 (proj1 (proj2 (proj2 (proj2 (proj2 (proj2 Hl1))))) Hcn)) as (Hn & HGn & Hsn & HXn).
  destruct He as (Hm & HGm & Hsm & HXm). destruct (compare_stands _ _ _ Hsn Hsm) as [Hw Ev].
  assert (Gn ## Gm1) as Hd1.
  { symmetry. eapply within_disjoint; [exact Hw1|symmetry; exact Hd|]. eapply own_bound. apply Hl. }
  apply wpm_bind. eapply wpm_mono; [apply (FoldConstComparisonReverse_spec typeTable leaf st1 op t ot (fst lp) z n m1 Gn Gm1
    (Gn ∪ Gm1) (allowed N)); [by eapply grow_ok|exact Hn|exact Hm|exact Hd1|apply union_subseteq_l|apply union_subseteq_r|exact Hw|exact Hop|]|].
  - intros x [Hx|[Hx|Hx]]; [by apply allowed_compare_op|by apply allowed_compare_l, HXn|by apply allowed_compare_r, HXm].
  - intros st2 res [Hg2 Ho]. apply wpm_ret. apply compare_result_grow; [by eapply grow_trans|].
    eapply outcome_weaken; [exact Ho| | |by rewrite Ev|done].
    + etrans; [exact Hsize|]. by eapply grow_size.
    + apply within_union; [eapply within_sub; [|exact HGn]|eapply within_sub; [|exact HGm]];
        intros v Hv; apply elem_of_union_r; [by apply elem_of_union_l|by apply elem_of_union_r].
Qed.

(** ** The comparison rebuilt *)

Lemma simplify_rebuilt st st1 z l l' n Gn m Gm :
  mem_ok st1 -> grow st st1 -> (size_of st0 <= size_of st)%nat ->
  cells st1 !! z = Some (CompareCell op t ot l l') ->
  own st1 z (CompareNode op t ot n m) ({[z]} ∪ (Gn ∪ Gm)) -> expr st0 a G st1 l n Gn -> expr st0 b G' st1 l' m Gm ->
  Gn ## Gm -> z = p \/ (size_of st0 <= z)%nat ->
  wpm (res ← SimplifyDoubleCompare z; mret (res, None)) st1 (compare_result st).
Proof using Hwt Hp Hgl.
  intros Hok Hg Hsize Hz HN (Hn & HGn & Hsn & HXn) (Hm & HGm & Hsm & HXm) Hd Hzp.
  destruct (compare_stands _ _ _ Hsn Hsm) as [_ Ev].
  apply wpm_bind. eapply wpm_mono.
  - apply (SimplifyDoubleCompare_spec typeTable leaf st1 z l l' op t ot n m Gn Gm Hok Hz HN Hn Hm Hd).
    intros Hop. destruct (Hgl Hop) as [|[Ha Hb]]; [by left|right].
    split; intros H; [by apply Ha, (HXn FCmp)|by apply Hb, (HXm FCmp)].
  - intros st2 y ((K & HK & HKs) & Hgrow & Ho). apply wpm_ret.
    assert (within (size_of st0) (Gn ∪ Gm) (G ∪ G')) as HW.
    { apply within_union; [eapply within_sub; [apply union_subseteq_l|exact HGn]|eapply within_sub; [apply union_subseteq_r|exact HGm]]. }
    split; [|split].
    + exists K. split; [|intros v Hv; by apply HW, HKs].
      pose proof (grow_change _ K _ _ Hg) as Hg'. eapply change_trans; [exact Hg'|exact HK|apply within_refl].
    + intros Hop. eapply grow_trans; [exact Hg|by apply Hgrow].
    + eapply outcome_weaken; [exact Ho| | |by rewrite Ev|].
      * etrans; [exact Hsize|by eapply grow_size].
      * apply within_union; [|eapply within_sub; [apply union_subseteq_r|exact HW]].
        destruct Hzp as [->|Hzp]; [apply within_subset, union_subseteq_l|by apply within_fresh].
      * intros x [Hx|[Hx|Hx]]; [by apply allowed_compare_op|by apply allowed_compare_l, HXn|by apply allowed_compare_r, HXm].
Qed.

Lemma rebuild_compare st lp rp n Gn m Gm qc rc :
  compare_operands st lp rp n Gn m Gm ->
  cells st !! q = Some qc -> GetPrimType qc = node_ptyp a -> cells st !! r = Some rc -> GetPrimType rc = node_ptyp b ->
  wpm (lt ← type_of_node q; l ← PairToExpr typeTable lt lp;
       rt ← type_of_node r; l' ← PairToExpr typeTable rt rp;
       result ← (if negb (l =? q)%nat || negb (l' =? r)%nat
                 then New (CompareCell op t ot l l') else mret p);
       result ← SimplifyDoubleCompare result;
       mret (result, None)) st (compare_result st).
Proof using Htt Hwt Hp Hgl HpG.
  intros (Hok & Hsize & Hc & Hl & Hr & Hd) Hqc Eqc Hrc Erc.
  eapply wpm_bind, wpm_type; [exact Hqc|]. rewrite Eqc.
  apply wpm_bind. eapply wpm_mono; [apply (side_expr typeTable Htt leaf st0 a G st lp n Gn);
    [exact Hok|exact Hsize|eapply wt_small; apply Hwt|exact Hl]|].
  intros st1 z (Hg1 & n1 & Gn1 & He1 & Hw1). pose proof (side_grow typeTable leaf _ _ _ _ _ _ _ _ Hr Hg1) as Hr1.
  assert (Gn1 ## Gm) as Hd1 by (eapply within_disjoint; [exact Hw1|exact Hd|eapply own_bound; apply Hr]).
  eapply wpm_bind, wpm_type; [by eapply cell_grow|]. rewrite Erc.
  apply wpm_bind. eapply wpm_mono; [apply (side_expr typeTable Htt leaf st0 b G' st1 rp m Gm);
    [by eapply grow_ok|etrans; [exact Hsize|by eapply grow_size]|eapply wt_small; apply Hwt|exact Hr1]|].
  intros st2 z' (Hg2 & m2 & Gm2 & He2 & Hw2). pose proof (expr_grow typeTable leaf _ _ _ _ _ _ _ _ He1 Hg2) as He1'.
  assert (Gn1 ## Gm2) as Hd2.
  { symmetry. eapply within_disjoint; [exact Hw2|symmetry; exact Hd1|]. eapply own_bound. apply He1. }
  assert (grow st st2) as Hg by (by eapply grow_trans). pose proof (grow_ok _ _ _ Hg) as Hok2.
  pose proof He1' as (Hn & HGn & Hsn & _). pose proof He2 as (Hm & HGm & Hsm & _).
  destruct (compare_stands _ _ _ Hsn Hsm) as [Hw _].
  destruct (negb (z =? q)%nat || negb (z' =? r)%nat) eqn:E.
  - apply wpm_bind, wpm_new.
    set (st3 := MkMem _ _). assert (grow st2 st3) as Hg3 by (by apply grow_new).
    apply (simplify_rebuilt st st3 _ z z' n1 Gn1 m2 Gm2).
    + exact Hok2.
    + by eapply grow_trans.
    + exact Hsize.
    + apply new_cell.
    + by apply own_new_compare.
    + by eapply expr_grow.
    + by eapply expr_grow.
    + exact Hd2.
    + right. etrans; [exact Hsize|]. by eapply grow_size.
  - apply orb_false_iff in E as [E1 E2]. apply negb_false_iff, Nat.eqb_eq in E1, E2. subst z z'.
    apply wpm_bind, wpm_ret. pose proof (cell_grow _ _ _ _ _ Hg Hc) as Hc2.
    assert (p ∉ Gn1 ∪ Gm2) as HpN.
    { apply not_elem_of_union in HpG as [H1 H2]. apply not_elem_of_union; split; by eapply within_not_in. }
    apply (simplify_rebuilt st st2 p q r n1 Gn1 m2 Gm2); [exact Hok2|exact Hg|exact Hsize|exact Hc2| |exact He1'|exact He2|exact Hd2|by left].
    split; [|exact Hw]. exists q, r, Gn1, Gm2. exact (conj Hc2 (conj (proj1 Hn) (conj (proj1 Hm) (conj Hd2 (conj HpN eq_refl))))).
Qed.
End Node.

(** ** The whole fold *)

Lemma FoldCompare_spec fold st p op t ot a b F :
  mem_ok st -> own st p (CompareNode op t ot a b) F -> fold_spec fold a -> fold_spec fold b ->
  (op = OP_gt \/ op = OP_lt -> IsSignedInteger ot = true \/ (~ has FCmp a /\ ~ has FCmp b)) ->
  wpm (FoldCompare typeTable fold p) st (folded st p F (CompareNode op t ot a b)).
Proof using Htt.
  intros Hok Hn Hfa Hfb Hgl. pose proof Hn as [_ Hwt].
  destruct (own_compare _ _ _ _ _ _ _ _ Hn) as (q & r & G & G' & Hc & Ha & Hb & Hd & HpG & ->).
  assert (p < size_of st)%nat as Hp by by eapply lookup_lt_Some.
  pose proof Hwt as (_ & Hot & _). pose proof (wt_small _ _ Hwt : small_int t) as Ht.
  unfold FoldCompare. eapply wpm_bind, wpm_get; [exact Hc|]. cbn [Opnd].
  apply wpm_bind, wpm_lift, wp_ret, wpm_bind, wpm_lift, wp_ret.
  eapply (two_folds_then typeTable leaf); [exact Hok|exact Ha|exact Hb|exact Hd|exact Hfa|exact Hfb|].
  intros st1 st2 lp rp n Gn m Gm Hch1 Hch2 Hfl Hcalm Hroot Hsn Hsm Hdn.
  pose proof (change_two _ _ _ _ _ _ Hch1 Hch2) as Hch.
  assert (compare_operands st p q r op t ot a b G G' st2 lp rp n Gn m Gm) as Hops.
  { split; [by eapply change_ok|]. split; [by eapply change_size|]. split; [by eapply cell_kept|done]. }
  destruct Hroot as (bc & Hbc & _ & Ebt). destruct Hfl as (_ & _ & (ac & Hac & _ & Eat) & _).
  assert (cells st2 !! q = Some ac) as Hac2.
  { eapply cell_kept; [exact Hch2|exact Hac|]. pose proof (own_root _ _ _ _ Ha). set_solver. }
  destruct (own_cell _ _ _ _ (proj1 Hsn)) as (lc & Hlc & _). destruct (own_cell _ _ _ _ (proj1 Hsm)) as (rc & Hrc & _).
  eapply wpm_bind, wpm_get; [exact Hlc|]. eapply wpm_bind, wpm_get; [exact Hrc|].
  rewrite (small_not_f128 ot), (small_not_f128 t) by done. cbn [orb].
  eapply (wpm_mono _ _ (compare_result st p op t ot a b G G' st2)).
  2:{ intros st' z ((K & HK & HKs) & Hgrow & Ho). pose proof (change_trans _ _ _ _ _ _ Hch HK HKs) as Hall.
      split; [eapply change_sub; [apply union_subseteq_r|exact Hall]|]. split; [|split; [|split; [by intros []|exact Ho]]].
      - intros (Hop & Ca & Cb). eapply grow_trans; [by apply Hcalm|by apply Hgrow].
      - exists (CompareCell op t ot q r). split; [|done]. by eapply cell_kept. }
  cbv zeta.
  destruct (constval_of lc) as [pl|] eqn:El.
  - destruct (own_constval _ _ _ _ _ _ (proj1 Hsn) Hlc El) as [t1 ->].
    destruct (constval_of rc) as [pr|] eqn:Er.
    + destruct (own_constval _ _ _ _ _ _ (proj1 Hsm) Hrc Er) as [t2 ->].
      assert (negb (IsPrimitiveDynType ot) = true) as -> by (destruct Hot as [Hot _]; by destruct ot).
      apply wpm_bind. eapply wpm_mono; [by eapply FoldConstComparison_spec|]. intros st' z Hz. exact Hz.
    + destruct (negb (op_eqb op OP_cmp)) eqn:Eop; [|by eapply rebuild_compare].
      eapply wpm_bind, wpm_type; [exact Hbc|]. rewrite Ebt.
      eapply reverse_result; [exact Hwt|exact Hp|exact Hops|done|]. intros ->. by rewrite op_eqb_refl in Eop.
  - by eapply rebuild_compare.
Qed.
End Compare.
