(* ===== verification/ConstantFoldSpec.v ===== *)
(** * Folding preserves the value of an expression

    The recursion of DispatchFold on a whole tree, and Fold, the entry point of
    the folder: with fuel for the height of the tree the fold ends without a
    fault, what it returns has the value of the tree, and nothing outside the
    tree is changed. *)
From S2P Require Import Prelude.
From S2P Require Import PrimTypes.
From S2P Require Import Opcodes.
From S2P Require Import IntVal.
From S2P Require Import IntValFacts.
From S2P Require Import IntValSpec.
From S2P Require Import IntValTyped.
From S2P Require Import IntConst.
From S2P Require Import IntConstFacts.
From S2P Require Import ConstantFold.
From S2P Require Import ConstantFoldFacts.
From S2P Require Import ConstantFoldExpr.
From S2P Require Import ExprMem.
From S2P Require Import ExprTree.
From S2P Require Import ExprTreeFacts.
From S2P Require Import ExprMemFacts.
From S2P Require Import ConstantFoldTree.
From S2P Require Import ConstantFoldPair.
From S2P Require Import ConstantFoldUnary.
From S2P Require Import ConstantFoldValues.
From S2P Require Import ConstantFoldOperands.
From S2P Require Import ConstantFoldBinary.
From S2P Require Import ConstantFoldExtract.
From S2P Require Import ConstantFoldNode.
From S2P Require Import ConstantFoldCompare.
From S2P Require Import ConstantFoldRelation.
From stdpp Require Import gmap.
#[local] Open Scope Z_scope.

(** ** The fuel of folding *)

(** DispatchFold with more fuel gives the same result, once it gives one: the folds
    of a node use the recursive call only through its results. *)

(** What [m] computes without a fault, [m'] computes too. *)
Definition refines {A : Type} (m m' : M A) : Prop := forall st r, m st = Ret r -> m' st = Ret r.

#[export] Instance refines_preorder {A : Type} : PreOrder (@refines A).
Proof. split; [by intros m st r|intros m1 m2 m3 H1 H2 st r H; by apply H2, H1]. Qed.

Lemma refines_bind {A B : Type} (m m' : M A) (k k' : A -> M B) :
  refines m m' -> (forall a, refines (k a) (k' a)) -> refines (m ≫= k) (m' ≫= k').
Proof.
  intros Hm Hk st r. unfold mbind, M_bind. destruct (m st) as [[st1 a]|] eqn:E; [|done].
  rewrite (Hm _ _ E). apply Hk.
Qed.

(** Two computations that differ in a recursive call *)
Ltac refines_step :=
  lazymatch goal with
  | |- refines ?m ?m => reflexivity
  | |- refines (_ ≫= _) (_ ≫= _) => apply refines_bind; [|intros ?]
  | |- refines (match ?x with _ => _ end) _ => destruct x
  | H : forall p, refines (?f p) (?g p) |- refines (?f _) (?g _) => apply H
  end.

Section Fuel.
Context `{HT : Target}.
Context (typeTable : list (option MIRType)).
Context (accessed : nat -> option (PrimType * Z)).

Section Calls.
Context (fold fold' : nat -> M pair) (Hfold : forall p, refines (fold p) (fold' p)).

Lemma FoldUnary_refines p : refines (FoldUnary typeTable fold p) (FoldUnary typeTable fold' p).
Proof using Hfold. unfold FoldUnary. repeat refines_step. Qed.

Lemma FoldTypeCvt_refines p : refines (FoldTypeCvt typeTable fold p) (FoldTypeCvt typeTable fold' p).
Proof using Hfold. unfold FoldTypeCvt. repeat refines_step. Qed.

Lemma FoldExtractbits_refines p :
  refines (FoldExtractbits typeTable accessed fold p) (FoldExtractbits typeTable accessed fold' p).
Proof using Hfold. unfold FoldExtractbits. repeat refines_step. Qed.

Lemma FoldBinary_refines p : refines (FoldBinary typeTable fold p) (FoldBinary typeTable fold' p).
Proof using Hfold.
  unfold FoldBinary, FoldBinary_folded, rconst_result, fold_bxor_bool. repeat refines_step.
Qed.

Lemma FoldCompare_refines p : refines (FoldCompare typeTable fold p) (FoldCompare typeTable fold' p).
Proof using Hfold. unfold FoldCompare. repeat refines_step. Qed.
End Calls.

Lemma DispatchFold_refines fuel k p :
  refines (DispatchFold typeTable accessed fuel p) (DispatchFold typeTable accessed (fuel + k) p).
Proof.
  revert p. induction fuel as [|fuel IH]; intros p; [intros st r H; discriminate H|].
  cbn [DispatchFold Nat.add]. apply refines_bind; [reflexivity|]. intros op.
  destruct (fold_unary_op op); [by apply FoldUnary_refines|]. destruct (fold_cvt_op op); [by apply FoldTypeCvt_refines|].
  destruct (is_extract op); [by apply FoldExtractbits_refines|]. destruct (fold_binary_op op); [by apply FoldBinary_refines|].
  destruct (fold_compare_op op); [by apply FoldCompare_refines|]. reflexivity.
Qed.
End Fuel.

(** ** The groups of the dispatch *)

Section Groups.
Context `{HT : Target}.

Lemma unary_dispatch op t : unary_type op t -> fold_unary_op op = true.
Proof. by destruct op. Qed.

Lemma extract_dispatch op :
  is_extract_op op -> fold_unary_op op = false /\ fold_cvt_op op = false /\ is_extract op = true.
Proof. by intros [-> |[-> | ->]]. Qed.

Lemma binary_dispatch op t : binary_type op t ->
  fold_unary_op op = false /\ fold_cvt_op op = false /\ is_extract op = false /\ fold_binary_op op = true.
Proof. by destruct op. Qed.

Lemma compare_dispatch op t : compare_type op t ->
  fold_unary_op op = false /\ fold_cvt_op op = false /\ is_extract op = false /\ fold_binary_op op = false /\
  fold_compare_op op = true.
Proof. by destruct op. Qed.

Lemma leaf_dispatch op : leaf_op op ->
  fold_unary_op op = false /\ fold_cvt_op op = false /\ is_extract op = false /\ fold_binary_op op = false /\
  fold_compare_op op = false /\ fold_other_op op = false.
Proof. intros [_ H]. destruct op; try done; exfalso; apply H; cbn; tauto. Qed.
End Groups.

Section Spec.
Context `{HT : Target}.
Context (typeTable : list (option MIRType)).
Context (Htt : TypeTable_init `prefix_of` typeTable).
Context (leaf : nat -> Z).
Context (accessed : nat -> option (PrimType * Z)).
Context (Hacc : accessed_ok leaf accessed).
Implicit Types (st : Mem) (t : PrimType) (n a b : BaseNode) (F G : gset nat).

#[local] Abbreviation grow := (grow typeTable).
#[local] Abbreviation change := (change typeTable).
#[local] Abbreviation mem_ok := (mem_ok typeTable).
#[local] Abbreviation value := (value leaf).
#[local] Abbreviation outcome := (outcome leaf).
#[local] Abbreviation fold_spec := (fold_spec typeTable leaf).
#[local] Abbreviation folded := (folded typeTable leaf).
#[local] Abbreviation DispatchFold := (DispatchFold typeTable accessed).

(** ** The recursion *)

Lemma atom_folded st p n F : mem_ok st -> own st p n F -> atom n -> folded st p F n st (p, None).
Proof.
  intros Hok Hn Hat. pose proof (grow_refl typeTable _ Hok) as Hg. split; [by apply grow_change|].
  split; [done|]. split; [destruct (own_cell _ _ _ _ Hn) as (c & Hc & E1 & E2 & _); by exists c|].
  split; [done|]. exists n, F. split_and?; [done|apply within_refl|by left| |done|done|].
  - cbn [snd opt_value]. by rewrite Z.add_0_r.
  - intros x Hx. destruct n; try done; destruct x; try exact Hx; by destruct Hx.
Qed.

Lemma DispatchFold_atom fuel n : (1 <= fuel)%nat -> atom n -> fold_spec (DispatchFold fuel) n.
Proof.
  intros Hf Hat st p F Hok Hn. destruct fuel as [|fuel]; [lia|].
  destruct (own_cell _ _ _ _ Hn) as (c & Hc & Eop & _). cbn [ConstantFoldTree.DispatchFold].
  eapply wpm_bind, wpm_opcode; [exact Hc|]. rewrite Eop.
  assert (wpm (FoldBase p) st (folded st p F n)) as Hbase by by apply wpm_ret, atom_folded.
  destruct n as [t k| | | | | |op t i]; try done.
  destruct Hn as [_ [_ Hleaf]]. cbn [node_op].
  by destruct (leaf_dispatch op Hleaf) as (-> & -> & -> & -> & -> & ->).
Qed.

Lemma DispatchFold_spec n : forall fuel, (height n <= fuel)%nat -> foldable n -> fold_spec (DispatchFold fuel) n.
Proof using Htt Hacc.
  induction n as [t k|op t a IHa|op t f a IHa|op t o s a IHa|op t a IHa b IHb|op t ot a IHa b IHb|op t i];
    intros fuel Hf Hfold; [by apply DispatchFold_atom| | | | | |by apply DispatchFold_atom];
    (destruct fuel as [|fuel]; [cbn [height] in Hf; lia|]); cbn [height foldable] in *;
    intros st p F Hok Hn; destruct (own_cell _ _ _ _ Hn) as (c & Hc & Eop & _); cbn [ConstantFoldTree.DispatchFold];
    (eapply wpm_bind, wpm_opcode; [exact Hc|]); rewrite Eop; cbn [node_op]; pose proof Hn as [_ Hwt]; cbn [wt] in Hwt.
  - rewrite (unary_dispatch op t) by apply Hwt. destruct Hfold as [Hfold Habs].
    by apply (FoldUnary_spec typeTable Htt leaf); [..|apply IHa; [lia|]|].
  - destruct Hwt as [-> _], Hfold as [Hfold Hu]. cbn.
    by apply (FoldTypeCvt_spec typeTable Htt leaf); [..|apply IHa; [lia|]|].
  - destruct Hwt as [Hop _], Hfold as (Hfold & Hext & Hsext & Hzext).
    destruct (extract_dispatch op Hop) as (-> & -> & ->).
    apply (FoldExtractbits_spec typeTable Htt leaf accessed Hacc); [done|done|by apply IHa; [lia|]|done|].
    destruct Hop as [-> |[-> | ->]]; cbn [extract_signed]; [done| |]; symmetry; [by apply Hsext|by apply Hzext].
  - destruct Hwt as [Hop _], Hfold as (Ha & Hb & Hbin). destruct (binary_dispatch op t Hop) as (-> & -> & -> & ->).
    apply (FoldBinary_spec typeTable Htt leaf);
      [done|done|by apply IHa; [lia|]|by apply IHb; [lia|]| |done].
    intros y Hy. apply DispatchFold_atom; [|done]. destruct a; cbn [height] in Hf; lia.
  - destruct Hwt as [Hop _], Hfold as (Ha & Hb & Hcmp). destruct (compare_dispatch op t Hop) as (-> & -> & -> & -> & ->).
    by apply (FoldCompare_spec typeTable Htt leaf); [..|apply IHa; [lia|]|apply IHb; [lia|]|].
Qed.

(** ** The entry point *)

(** The node that Fold leaves for the tree: the one it returns, or the old one *)
Definition fold_result (p : nat) (o : option nat) : nat := default p o.

Lemma Fold_spec st p n F fuel :
  mem_ok st -> own st p n F -> foldable n -> (height n <= fuel)%nat -> IsStmt (node_op n) = Ret false ->
  wpm (Fold typeTable accessed fuel p) st (fun st' o =>
    o <> Some p /\ change F st st' /\ (calm n -> grow st st') /\
    exists n' F', own st' (fold_result p o) n' F' /\ within (size_of st) F' F /\ fits (node_ptyp n) n' /\
      in_type (node_ptyp n) (value st' n') = value st n).
Proof using Htt Hacc.
  intros Hok Hn Hfold Hf Hst. unfold Fold. destruct (own_cell _ _ _ _ Hn) as (c & Hc & Eop & _).
  eapply wpm_bind, wpm_opcode; [exact Hc|]. rewrite Eop. eapply wpm_bind, wpm_lift_eq; [exact Hst|].
  apply wpm_bind. eapply wpm_mono; [by apply DispatchFold_spec|].
  intros st1 [z s] (Hch & Hcalm & (c1 & Hc1 & _ & Et) & _ & Ho).
  eapply wpm_bind, wpm_type; [exact Hc1|]. rewrite Et. apply wpm_bind.
  pose proof (own_small _ _ _ _ Hn) as Ht.
  eapply wpm_mono; [apply (pair_outcome typeTable Htt leaf st1 (size_of st) F (node_ptyp n) (value st n) (allowed n) z s);
    [by eapply change_ok|done|by eapply change_size|exact Ho|apply allowed_unsigned]|].
  intros st2 y (Hg & (n' & F' & Hn' & HF' & Hfit & Ev & _) & _). apply wpm_ret.
  split; [destruct (Nat.eqb_spec y p); congruence|]. split; [by eapply change_grow|].
  split; [intros C; eapply grow_trans; [by apply Hcalm|exact Hg]|].
  exists n', F'. split_and?; [|done|done|].
  - unfold fold_result. by destruct (Nat.eqb_spec y p) as [->|_].
  - cbn [snd opt_value] in Ev. rewrite Z.add_0_r in Ev. rewrite (in_type_congr _ _ _ Ev). by eapply value_own.
Qed.

(** ** A division that would trap *)

Lemma run_bind {A B : Type} (m : M A) (k : A -> M B) st st' x r :
  m st = Ret (st', x) -> k x st' = r -> (m ≫= k) st = r.
Proof. unfold mbind, M_bind. by intros ->. Qed.

Lemma run_get st p c : cells st !! p = Some c -> get p st = Ret (st, c).
Proof. unfold get. by intros ->. Qed.
Lemma run_get_const st k c : objs st !! k = Some c -> get_const k st = Ret (st, c).
Proof. intros Hc. unfold get_const. change (objects (constants st)) with (objs st). by rewrite Hc. Qed.
Lemma run_type st p c : cells st !! p = Some c -> type_of_node p st = Ret (st, GetPrimType c).
Proof. intros Hc. exact (run_bind _ _ _ _ _ _ (run_get _ _ _ Hc) eq_refl). Qed.

(** The step [H] of a computation *)
Ltac run H := apply (run_bind _ _ _ _ _ _ H).

Lemma DispatchFold_const fuel st q t k G :
  (1 <= fuel)%nat -> mem_ok st -> own st q (ConstvalNode t k) G -> DispatchFold fuel q st = Ret (st, (q, None)).
Proof.
  intros Hf Hok Hq.
  destruct (wpm_returns _ _ _ (DispatchFold_atom fuel (ConstvalNode t k) Hf I st q G Hok Hq)) as (st' & x & -> & _ & _ & _ & Hat & _).
  by destruct (Hat I) as [-> ->].
Qed.

(** The fold of an operator on two constants *)
Lemma DispatchFold_consts fuel st p op t t0 k0 t1 k1 F :
  mem_ok st -> own st p (BinaryNode op t (ConstvalNode t0 k0) (ConstvalNode t1 k1)) F -> (2 <= fuel)%nat ->
  exists q r, cells st !! p = Some (BinaryCell op t q r) /\
    DispatchFold fuel p st = FoldBinary_consts typeTable p op t q r k0 k1 st.
Proof.
  intros Hok Hn Hf. pose proof Hn as [_ Hwt].
  destruct (own_binary _ _ _ _ _ _ _ Hn) as (q & r & G & G' & Hc & Ha & Hb & _). exists q, r. split; [done|].
  destruct fuel as [|fuel]; [lia|]. cbn [ConstantFoldTree.DispatchFold].
  apply (run_bind _ _ _ st op); [exact (run_bind _ _ _ _ _ _ (run_get _ _ _ Hc) eq_refl)|].
  destruct (binary_dispatch op t (proj1 Hwt)) as (-> & -> & -> & ->).
  destruct (own_const_inv leaf _ _ _ _ _ Ha) as (Hqc & Ht0 & _), (own_const_inv leaf _ _ _ _ _ Hb) as (Hrc & Ht1 & _).
  unfold FoldBinary. run (run_get _ _ _ Hc). cbn [Opnd].
  apply (run_bind _ _ _ st q _ eq_refl), (run_bind _ _ _ st r _ eq_refl).
  run (run_type _ _ _ Hqc). run (run_type _ _ _ Hrc).
  cbn [ExprMem.GetPrimType GetOpCode].
  rewrite (small_not_f128 t0), (small_not_f128 t1), (small_not_f128 t) by (done || exact (wt_small _ _ Hwt)). cbn [orb].
  run (DispatchFold_const fuel st q t0 k0 G ltac:(lia) Hok Ha).
  run (DispatchFold_const fuel st r t1 k1 G' ltac:(lia) Hok Hb).
  run (run_get _ _ _ Hqc). run (run_get _ _ _ Hrc). done.
Qed.

(** Constants that cannot be divided *)
Lemma trapping_consts st p op t t0 k0 t1 k1 F c0 c1 :
  let a := ConstvalNode t0 k0 in let b := ConstvalNode t1 k1 in
  own st p (BinaryNode op t a b) F -> op = OP_div \/ op = OP_rem -> const_read leaf st t0 k0 c0 -> const_read leaf st t1 k1 c1 ->
  ~ div_ok_in t (value st a) (value st b) ->
  IsDivSafe c0 c1 t = Ret (negb (in_type t (value st b) =? 0) && IsUnsignedInteger t0).
Proof.
  intros a b [_ (Hty & Hfa & Hfb & _)] Hop H0 H1 Hno. subst a b.
  assert (arith t /\ (fits t (ConstvalNode t1 k1))) as [Har Hfb'].
  { destruct Hfb as [E|Hfb]; [by destruct Hop as [-> | ->]|]. split; [|done]. by destruct Hop as [-> | ->]. }
  pose proof (read_value _ _ _ _ _ H0) as E0. pose proof (read_value _ _ _ _ _ H1) as E1. rewrite <- E0, <- E1 in Hno. rewrite <- E1.
  apply (IsDivSafe_trap c0 c1 t t0 t1); try done; try apply H0; try apply H1;
    rewrite ?E0, ?E1; by apply in_type_idem, H0 || apply in_type_idem, H1.
Qed.

(** ** The properties of folding *)

(** C34: with fuel for its height, folding a well-typed integer expression that
    satisfies [foldable] ends without a fault, and the node that stands for the
    expression afterwards, the new one that Fold returns or the old one when it
    returns null, represents a tree with the value the expression had.  Beside
    types of at most 64 bits and operands that share no node, [foldable] asks of
    every node below that
    - the operands of abs, max and min are constants or leaves of exactly the
      type of the node;
    - a conversion to u1 is from u1 or from more than one byte;
    - an operand from which bits above the lowest are extracted, and the left
      operand of band, have no extractbits or band in them
      ([extraction_deleted] shows the bits that are lost otherwise);
    - sext has a signed type and zext an unsigned one;
    - the dividend of a division has no product in it, and that of a signed
      division or remainder no band and no node of an unsigned type but u1;
    - in x - (y - z) folding changes neither operand in place;
    - the operands of logical operators are comparisons ([land_drops_constant]);
    - bxor has the type u1 or no operator on truth values in its left operand;
    - gt and lt of unsigned operands have no cmp in them. *)
Theorem fold_preserves_value st p n F fuel :
  mem_ok st -> own st p n F -> foldable n -> (height n <= fuel)%nat -> IsStmt (node_op n) = Ret false ->
  wpm (Fold typeTable accessed fuel p) st (fun st' o =>
    o <> Some p /\ exists n' F', own st' (fold_result p o) n' F' /\ fits (node_ptyp n) n' /\
      in_type (node_ptyp n) (value st' n') = value st n).
Proof using Htt Hacc.
  intros Hok Hn Hfold Hf Hst. eapply wpm_mono; [by apply (Fold_spec st p n F)|].
  intros st' o (Ho & _ & _ & n' & F' & Hn' & _ & Hfit & Ev). split; [done|]. by exists n', F'.
Qed.

(** C35: folding an expression that satisfies [foldable], as C34 lists it,
    changes nodes of that expression only: an expression on other nodes is still there, with its value, and shares no
    node with the result; and when the expression has no negation, bit
    extraction or eq among its operators, no node at all is changed. *)
Theorem fold_changes_tree_only st p n F fuel r m G :
  mem_ok st -> own st p n F -> foldable n -> (height n <= fuel)%nat -> IsStmt (node_op n) = Ret false ->
  own st r m G -> F ## G ->
  wpm (Fold typeTable accessed fuel p) st (fun st' o =>
    own st' r m G /\ value st' m = value st m /\
    (exists n' F', own st' (fold_result p o) n' F' /\ F' ## G) /\
    (calm n -> cells st `prefix_of` cells st')).
Proof using Htt Hacc.
  intros Hok Hn Hfold Hf Hst Hm Hd. eapply wpm_mono; [by apply (Fold_spec st p n F)|].
  intros st' o (_ & Hch & Hcalm & n' & F' & Hn' & HF' & _).
  split; [eapply own_change; [exact Hm|exact Hch|by symmetry]|].
  split; [exact (value_change typeTable leaf _ _ _ _ (proj2 Hm) Hch)|]. split.
  - exists n', F'. split; [done|]. eapply within_disjoint; [exact HF'|exact Hd|by eapply own_bound].
  - intros C. by apply Hcalm.
Qed.

(** C36: a well-typed division or remainder of two constants that would trap, by
    zero or by overflow, is not folded: the node itself is the result, and
    neither the nodes nor the table of constants change.  The one exception is
    an overflow whose dividend is a constant of an unsigned type: IsDivSafe
    passes it, because it looks for the least value of the constant's own type,
    and the folding stops at the assertion of IntVal. *)
Theorem trapping_division_kept st p op t t0 k0 t1 k1 F fuel :
  let a := ConstvalNode t0 k0 in let b := ConstvalNode t1 k1 in
  mem_ok st -> own st p (BinaryNode op t a b) F -> op = OP_div \/ op = OP_rem ->
  ~ div_ok_in t (value st a) (value st b) -> (2 <= fuel)%nat ->
  DispatchFold fuel p st =
    (if negb (in_type t (value st b) =? 0) && IsUnsignedInteger t0 then Fault AssertFail else Ret (st, (p, None))).
Proof.
  intros a b Hok Hn Hop Hno Hf. destruct (DispatchFold_consts fuel st p op t t0 k0 t1 k1 F Hok Hn Hf) as (q & r & Hc & ->).
  destruct (own_binary _ _ _ _ _ _ _ Hn) as (q' & r' & G & G' & _ & Ha & Hb & _).
  destruct (const_reads leaf _ _ _ _ _ Ha) as [c0 H0]. destruct (const_reads leaf _ _ _ _ _ Hb) as [c1 H1].
  pose proof (trapping_consts st p op t t0 k0 t1 k1 F c0 c1 Hn Hop H0 H1 Hno) as Es. fold b in Es.
  pose proof (binary_type_small op t (proj1 (proj2 Hn))) as Ht. unfold FoldBinary_consts.
  pose proof (run_get_const _ _ _ (read_cell _ _ _ _ _ H0)) as R0. pose proof (run_get_const _ _ _ (read_cell _ _ _ _ _ H1)) as R1.
  run R0. run R1.
  rewrite (proj1 Ht), Es. assert (one_of [OP_div; OP_rem] op = true) as -> by (by destruct Hop as [-> | ->]).
  cbn [andb mbind res_bind]. apply (run_bind _ _ _ _ _ _ eq_refl).
  destruct (negb (in_type t (value st b) =? 0) && IsUnsignedInteger t0); cbn [negb].
  - unfold FoldConstBinary, mbind at 1, M_bind at 1. rewrite (proj1 Ht). cbn [orb].
    rewrite (run_bind _ _ _ _ _ _ R0 eq_refl), (run_bind _ _ _ _ _ _ R1 eq_refl). unfold NewConstval, in_table, mbind, M_bind.
    rewrite fold_binary_traps; try done; [apply H0|apply H1|].
    unfold a, b in Hno. rewrite <- (read_value _ _ _ _ _ H0), <- (read_value _ _ _ _ _ H1) in Hno. by destruct Hop as [-> | ->].
  - apply (run_bind _ _ _ st p); [|done]. run (run_get _ _ _ Hc).
    cbn iota beta. rewrite op_eqb_refl, !Nat.eqb_refl. assert (pty_eqb t t = true) as -> by by apply bool_decide_eq_true_2. done.
Qed.

(** C37: folding an expression that satisfies [foldable], as C34 lists it, comes
    to an end: from the height of the expression on, every amount of fuel gives
    one and the same result. *)
Theorem fold_terminates st p n F fuel :
  mem_ok st -> own st p n F -> foldable n -> (height n <= fuel)%nat -> IsStmt (node_op n) = Ret false ->
  exists r, Fold typeTable accessed (height n) p st = Ret r /\ Fold typeTable accessed fuel p st = Ret r.
Proof using Htt Hacc.
  intros Hok Hn Hfold Hf Hst.
  destruct (wpm_returns _ _ _ (Fold_spec st p n F (height n) Hok Hn Hfold (Nat.le_refl _) Hst)) as (st' & o & E & _).
  exists (st', o). split; [exact E|].
  assert (refines (Fold typeTable accessed (height n) p) (Fold typeTable accessed fuel p)) as H; [|by apply H].
  unfold Fold. apply refines_bind; [reflexivity|]. intros op. apply refines_bind; [reflexivity|]. intros [|]; [reflexivity|].
  apply refines_bind; [|reflexivity]. replace fuel with (height n + (fuel - height n))%nat by lia.
  apply DispatchFold_refines.
Qed.
End Spec.
