(* ===== verification/ConstantFoldExamples.v ===== *)
(** * Folding at work

    A concrete memory on which the theorems on folding are applied, and the
    trees that folding gets wrong. *)
From S2P Require Import Prelude.
From S2P Require Import PrimTypes.
From S2P Require Import Opcodes.
From S2P Require Import IntVal.
From S2P Require Import IntValFacts.
From S2P Require Import IntValSpec.
From S2P Require Import IntValTyped.
From S2P Require Import IntConst.
From S2P Require Import IntConstFacts.
From S2P Require Import ConstantFold.
From S2P Require Import ConstantFoldFacts.
From S2P Require Import ConstantFoldExpr.
From S2P Require Import ExprMem.
From S2P Require Import ExprTree.
From S2P Require Import ExprTreeFacts.
From S2P Require Import ExprMemFacts.
From S2P Require Import ConstantFoldTree.
From S2P Require Import ConstantFoldPair.
From S2P Require Import ConstantFoldUnary.
From S2P Require Import ConstantFoldValues.
From S2P Require Import ConstantFoldOperands.
From S2P Require Import ConstantFoldBinary.
From S2P Require Import ConstantFoldExtract.
From S2P Require Import ConstantFoldNode.
From S2P Require Import ConstantFoldCompare.
From S2P Require Import ConstantFoldRelation.
From S2P Require Import ConstantFoldSpec.
From stdpp Require Import gmap.
#[local] Open Scope Z_scope.

#[local] Instance lp64 : Target := false.

(** ** A memory with the constants of a list and given nodes *)

Fixpoint intern_all (s : IntConstTable) (l : list (PrimType * Z)) : res IntConstTable :=
  match l with
  | [] => Ret s
  | (t, v) :: l => type ← GetPrimType_of TypeTable_init t; r ← GetOrCreateIntConst s v type; intern_all (fst r) l
  end.

Definition memory (l : list (PrimType * Z)) (nodes : list Cell) : Mem :=
  MkMem nodes (match intern_all IntConstTable_empty l with Ret s => s | Fault _ => IntConstTable_empty end).

Lemma intern_all_ok s l :
  table_ok TypeTable_init s -> (forall t v, In (t, v) l -> small_int t) -> wp (intern_all s l) (table_ok TypeTable_init).
Proof.
  revert s. induction l as [|[t v] l IH]; intros s Hs Hl; [done|]. cbn [intern_all].
  assert (small_int t) as Ht by (apply (Hl t v); by left).
  rewrite (GetPrimType_of_spec TypeTable_init) by (done || apply integer_not_begin, Ht). cbn [mbind res_bind].
  apply wp_bind. eapply wp_mono; [apply (intern_spec TypeTable_init no_prefix); [done|apply Ht]|].
  intros r [Hr _]. apply IH; [done|]. intros t' v' H. apply (Hl t' v'). by right.
Qed.

Lemma memory_ok l nodes : (forall t v, In (t, v) l -> small_int t) -> mem_ok TypeTable_init (memory l nodes).
Proof.
  intros Hl. pose proof (intern_all_ok IntConstTable_empty l empty_ok Hl) as H. unfold mem_ok, memory. cbn [constants].
  destruct (intern_all IntConstTable_empty l); [done|apply empty_ok].
Qed.

Lemma mir_const objs p t v : small_int t -> objs !! p = Some (mir t v) -> const_at objs p (ty_of t) v.
Proof.
  intros Ht Hp. exists (mir t v). split; [done|]. split; [done|]. pose proof (small_valid t Ht) as Hw.
  split; [by apply repr_wf|]. split; [done|]. split; [done|]. by apply ival_repr.
Qed.

(** ** The theorems at work: (x + 3) + 4, beside -x and 7 / 0 *)

Definition I32 : PrimType := PTY_i32.

Definition example : Mem :=
  memory [(I32, 3); (I32, 4); (I32, 7); (I32, 0)]
    [ConstvalCell I32 0; ConstvalCell I32 1; LeafCell OP_dread I32 0; BinaryCell OP_add I32 2 0;
     BinaryCell OP_add I32 3 1; ConstvalCell I32 2; ConstvalCell I32 3; BinaryCell OP_div I32 5 6;
     LeafCell OP_dread I32 1; UnaryCell OP_neg I32 8].

Definition leaf_x : BaseNode := LeafNode OP_dread I32 0.
Definition sum_tree : BaseNode :=
  BinaryNode OP_add I32 (BinaryNode OP_add I32 leaf_x (ConstvalNode I32 0)) (ConstvalNode I32 1).
Definition div_tree : BaseNode := BinaryNode OP_div I32 (ConstvalNode I32 2) (ConstvalNode I32 3).
Definition neg_tree : BaseNode := UnaryNode OP_neg I32 (LeafNode OP_dread I32 1).

Definition sum_cells : gset nat := {[4%nat]} ∪ (({[3%nat]} ∪ ({[2%nat]} ∪ {[0%nat]})) ∪ {[1%nat]}).
Definition div_cells : gset nat := {[7%nat]} ∪ ({[5%nat]} ∪ {[6%nat]}).
Definition neg_cells : gset nat := {[9%nat]} ∪ {[8%nat]}.

Lemma i32_small : small_int I32.
Proof. done. Qed.

Lemma example_ok : mem_ok TypeTable_init example.
Proof. apply memory_ok. intros t v H. cbn [In] in H. destruct_or! H; by simplify_eq. Qed.

Lemma example_const p v : objs example !! p = Some (mir I32 v) -> wt (objs example) (ConstvalNode I32 p).
Proof. intros H. split; [done|]. exists v. by apply mir_const. Qed.

Lemma leaf_wt i : wt (objs example) (LeafNode OP_dread I32 i).
Proof. split; [done|]. split; [done|]. cbn. intros H. by destruct_or! H. Qed.

Lemma sum_own : own example 4 sum_tree sum_cells.
Proof.
  split.
  - eexists _, _, _, _. split_and!; [reflexivity| |by split| | |reflexivity]; [|set_solver|set_solver].
    eexists _, _, _, _. split_and!; [reflexivity|by split|by split|set_solver|set_solver|reflexivity].
  - split; [done|]. split; [by left|]. split; [right; by left|]. split; [|by apply (example_const 1 4)].
    split; [done|]. split; [by left|]. split; [right; by left|]. split; [apply leaf_wt|by apply (example_const 0 3)].
Qed.

Lemma div_own : own example 7 div_tree div_cells.
Proof.
  split.
  - eexists _, _, _, _. split_and!; [reflexivity|by split|by split|set_solver|set_solver|reflexivity].
  - split; [done|]. split; [by left|]. split; [right; by left|].
    split; [by apply (example_const 2 7)|by apply (example_const 3 0)].
Qed.

Lemma neg_own : own example 9 neg_tree neg_cells.
Proof.
  split; [|split; [done|split; [by left|apply leaf_wt]]].
  eexists _, _. split_and!; [reflexivity|by split|set_solver|reflexivity].
Qed.

(** No leaf reads a field *)
Definition no_access (i : nat) : option (PrimType * Z) := None.

Lemma no_access_ok leaf : accessed_ok leaf no_access.
Proof. done. Qed.

(** The leaves read 10 and 11. *)
Definition leaves (i : nat) : Z := 10 + Z.of_nat i.

Lemma pair_to_expr_witness :
  wpm (PairToExpr TypeTable_init I32 (9%nat, Some (repr 64 true 5))) example (fun st' p =>
    grow TypeTable_init example st' /\ (Some (repr 64 true 5) = None -> st' = example /\ p = 9%nat) /\
    exists n' F', own st' p n' F' /\
      wrap (type_width I32) (value leaves st' n')
        = wrap (type_width I32) (value leaves example neg_tree + opt_value (Some (repr 64 true 5)))).
Proof.
  apply (pair_to_expr TypeTable_init no_prefix leaves example I32 9%nat (Some (repr 64 true 5)) neg_tree neg_cells);
    [exact example_ok|done|exact neg_own|by left|].
  split; [done|]. split; [split; [apply repr_wf, valid_64|vm_compute; discriminate]|vm_compute; discriminate].
Defined.

Lemma comparison_reverse_witness :
  wpm (FoldConstComparisonReverse OP_gt PTY_u1 I32 6 9) example (fun st' p =>
    grow TypeTable_init example st' /\ exists n F', own st' p n F' /\
      wrap (type_width PTY_u1) (value leaves st' n)
        = wrap (type_width PTY_u1) (value leaves example (CompareNode OP_gt PTY_u1 I32 (ConstvalNode I32 3) neg_tree))).
Proof.
  assert (own example 6 (ConstvalNode I32 3) {[6%nat]}) as Hc
    by (split; [by split|by apply (example_const 3 0)]).
  apply (comparison_reverse TypeTable_init leaves example OP_gt PTY_u1 I32 6 9 (ConstvalNode I32 3) neg_tree _ _
    example_ok Hc neg_own); [set_solver|done|].
  split; [done|]. split; [done|]. split; [by left|]. split; [by left|]. split; [apply Hc|apply neg_own].
Defined.

Lemma fold_preserves_value_witness :
  wpm (Fold TypeTable_init no_access 3 4) example (fun st' o =>
    o <> Some 4%nat /\ exists n' F', own st' (fold_result 4 o) n' F' /\ fits (node_ptyp sum_tree) n' /\
      in_type (node_ptyp sum_tree) (value leaves st' n') = value leaves example sum_tree).
Proof.
  apply (fold_preserves_value TypeTable_init no_prefix leaves no_access (no_access_ok leaves) example 4 sum_tree sum_cells 3);
    [exact example_ok|exact sum_own|done|cbn; lia|done].
Defined.

Lemma fold_changes_tree_only_witness :
  wpm (Fold TypeTable_init no_access 2 9) example (fun st' o =>
    own st' 4 sum_tree sum_cells /\ value leaves st' sum_tree = value leaves example sum_tree /\
    (exists n' F', own st' (fold_result 9 o) n' F' /\ F' ## sum_cells) /\
    (calm neg_tree -> cells example `prefix_of` cells st')).
Proof.
  apply (fold_changes_tree_only TypeTable_init no_prefix leaves no_access (no_access_ok leaves) example 9 neg_tree neg_cells 2
    4 sum_tree sum_cells);
    [exact example_ok|exact neg_own|done|cbn; lia|done|exact sum_own|unfold sum_cells, neg_cells; set_solver].
Defined.

(** The least i32, written as a constant of type u32, divided by -1 *)
Definition overflow_mem : Mem :=
  memory [(PTY_u32, 2 ^ 31); (I32, 2 ^ 64 - 1)]
    [ConstvalCell PTY_u32 0; ConstvalCell I32 1; BinaryCell OP_div I32 0 1].
Definition overflow_cells : gset nat := {[2%nat]} ∪ ({[0%nat]} ∪ {[1%nat]}).

Lemma overflow_ok : mem_ok TypeTable_init overflow_mem.
Proof. apply memory_ok. intros t v H. cbn [In] in H. destruct_or! H; by simplify_eq. Qed.

Lemma overflow_own :
  own overflow_mem 2 (BinaryNode OP_div I32 (ConstvalNode PTY_u32 0) (ConstvalNode I32 1)) overflow_cells.
Proof.
  split.
  - eexists _, _, _, _. split_and!; [reflexivity|by split|by split|set_solver|set_solver|reflexivity].
  - split; [done|]. split; [by left|]. split; [right; by left|].
    split; (split; [done|]); [exists (2 ^ 31)|exists (2 ^ 64 - 1)]; by apply mir_const.
Qed.

Lemma trapping_division_kept_witness :
  DispatchFold TypeTable_init no_access 2 7 example = Ret (example, (7%nat, None)) /\
  DispatchFold TypeTable_init no_access 2 2 overflow_mem = Fault AssertFail.
Proof.
  split.
  - refine (trapping_division_kept TypeTable_init leaves no_access example 7 OP_div I32 I32 2 I32 3 div_cells 2
      example_ok div_own _ _ _); [by left| |lia].
    intros [H _]. by apply H.
  - refine (trapping_division_kept TypeTable_init leaves no_access overflow_mem 2 OP_div I32 PTY_u32 0 I32 1 overflow_cells 2
      overflow_ok overflow_own _ _ _); [by left| |lia].
    intros [_ H]. apply H. vm_compute. repeat split; reflexivity.
Defined.

Lemma fold_terminates_witness :
  exists r, Fold TypeTable_init no_access (height sum_tree) 4 example = Ret r /\ Fold TypeTable_init no_access 9 4 example = Ret r.
Proof.
  apply (fold_terminates TypeTable_init no_prefix leaves no_access (no_access_ok leaves) example 4 sum_tree sum_cells 9);
    [exact example_ok|exact sum_own|done|cbn; lia|done].
Defined.

(** (x + 3) + 4 becomes x + 7 on new nodes. *)
Example sum_folds :
  (r ← Fold TypeTable_init no_access 3 4 example; Ret (drop 10 (cells (fst r)), snd r))
  = Ret ([ConstvalCell I32 2; BinaryCell OP_add I32 2 10], Some 11%nat).
Proof. vm_compute. reflexivity. Qed.

(** ** Trees that folding gets wrong *)

(** The cells from the [k]-th on after folding the node [p], and what is returned *)
Definition folded_cells (k : nat) (st : Mem) (p : nat) : res (list Cell * option nat) :=
  r ← Fold TypeTable_init no_access (length (cells st)) p st; Ret (drop k (cells (fst r)), snd r).

(** 5 && (x + 3) becomes x != 0: the constant beside x is dropped. *)
Definition and_mem : Mem :=
  memory [(I32, 5); (I32, 3)]
    [ConstvalCell I32 0; LeafCell OP_dread I32 0; ConstvalCell I32 1; BinaryCell OP_add I32 1 2;
     BinaryCell OP_land I32 0 3].

Example land_drops_constant :
  folded_cells 5 and_mem 4 = Ret ([ConstvalCell I32 2; CompareCell OP_ne I32 I32 1 5], Some 6%nat).
Proof. vm_compute. reflexivity. Qed.

(** ((x != y) == 0) - (5 - z): the inner comparison becomes x == y in place, the
    outer ones are kept, so that the expression, for which nothing is returned,
    is now ((x == y) == 0) - (5 - z). *)
Definition ne_mem : Mem :=
  memory [(I32, 0); (I32, 5)]
    [LeafCell OP_dread I32 0; LeafCell OP_dread I32 1; CompareCell OP_ne PTY_u1 I32 0 1; ConstvalCell I32 0;
     CompareCell OP_eq I32 I32 2 3; ConstvalCell I32 1; LeafCell OP_dread I32 2; BinaryCell OP_sub I32 5 6;
     BinaryCell OP_sub I32 4 7].

Example changed_in_place :
  folded_cells 0 ne_mem 8 =
    Ret (<[2%nat := CompareCell OP_eq PTY_u1 I32 0 1]> (cells ne_mem) ++ [UnaryCell OP_neg I32 6], None).
Proof. vm_compute. reflexivity. Qed.

(** Bits 8 to 15 of bits 8 to 15 of y, which are 0, become bits 8 to 15 of y. *)
Definition bits_mem : Mem :=
  memory [] [LeafCell OP_dread PTY_u32 0; ExtractbitsCell OP_extractbits PTY_u32 8 8 0;
             ExtractbitsCell OP_extractbits PTY_u32 8 8 1].

Example extraction_deleted :
  folded_cells 0 bits_mem 2 =
    Ret (<[2%nat := ExtractbitsCell OP_extractbits PTY_u32 8 8 0]> (cells bits_mem), None).
Proof. vm_compute. reflexivity. Qed.
