(* ===== verification/BitValue.v ===== *)
(** * Known bits of expressions

    maple_util/include/bit_value.h, maple_util/src/bit_value.cpp and
    maple_me/src/me_expr_utils.cpp: the abstract domain of known bits, the
    computation of the known bits of an expression, and the simplification of
    the bitwise operators by the bits that are demanded of them.  An
    expression is a tree of the operators the code looks at over opaque leaves,
    and it stands for an unsigned integer of the width under analysis. *)
From S2P Require Import Prelude.
From S2P Require Import PrimTypes.
From S2P Require Import Opcodes.
From S2P Require Import IntWords.
From S2P Require Import IntWordsFacts.
From S2P Require Import IntDivFacts.
From S2P Require Import IntVal.
From S2P Require Import IntValFacts.
From S2P Require Import IntValArith.
From S2P Require Import IntValOrder.
From S2P Require Import IntValCount.
From S2P Require Import IntValDiv.
From S2P Require Import IntValSpec.

(** ** The domain *)

Record BitValue : Set := MkBitValue { zeroBits : IntVal; oneBits : IntVal }.

(** BitValue(uint32 bitwidth) and BitValue(IntVal zero, IntVal one) *)
Definition BitValue_width (bitwidth : Z) : res BitValue :=
  z ← IntVal_int 0 bitwidth false;
  o ← IntVal_int 0 bitwidth false;
  Ret (MkBitValue z o).

Definition BitValue_pair (zero one : IntVal) : res BitValue :=
  _ ← ASSERT (same_type zero one);
  Ret (MkBitValue zero one).

(** The implicit assignment: the one of IntVal, member by member. *)
Definition BitValue_assign (x other : BitValue) : res BitValue :=
  z ← assign_copy (zeroBits x) (zeroBits other);
  o ← assign_copy (oneBits x) (oneBits other);
  Ret (MkBitValue z o).

Definition IsConstant (x : BitValue) : res bool := v ← op_or (zeroBits x) (oneBits x); AreAllBitsOne v.
Definition HasConflict (x : BitValue) : res bool :=
  v ← op_and (zeroBits x) (oneBits x); z ← AreAllBitsZeros v; Ret (negb z).
Definition BitValue_GetBitWidth (x : BitValue) : res Z :=
  _ ← ASSERT (GetBitWidth (zeroBits x) =? GetBitWidth (oneBits x));
  Ret (GetBitWidth (zeroBits x)).

Definition BitValue_Extend (x : BitValue) (bitWidth : Z) : res BitValue :=
  let isSigned := IsSigned (zeroBits x) in
  newZero ← Extend_width (zeroBits x) bitWidth isSigned;
  newZero ← (if negb isSigned then SetBits newZero (GetBitWidth (oneBits x)) bitWidth
             else Ret newZero);
  newOne ← Extend_width (oneBits x) bitWidth isSigned;
  BitValue_pair newZero newOne.

Definition BitValue_Trunc (x : BitValue) (bitwidth : Z) : res BitValue :=
  let isSigned := IsSigned (zeroBits x) in
  z ← Trunc_width (zeroBits x) bitwidth isSigned;
  o ← Trunc_width (oneBits x) bitwidth isSigned;
  BitValue_pair z o.

Definition BitValue_TruncOrExtend (x : BitValue) (bitwidth : Z) : res BitValue :=
  w ← BitValue_GetBitWidth x;
  if w <? bitwidth then BitValue_Extend x bitwidth
  else if bitwidth <? w then BitValue_Trunc x bitwidth
  else Ret x.

Definition BitValue_and (x rhs : BitValue) : res BitValue :=
  z ← op_or (zeroBits x) (zeroBits rhs);
  o ← op_and (oneBits x) (oneBits rhs);
  BitValue_pair z o.

Definition BitValue_or (x rhs : BitValue) : res BitValue :=
  z ← op_and (zeroBits x) (zeroBits rhs);
  o ← op_or (oneBits x) (oneBits rhs);
  BitValue_pair z o.

Definition BitValue_xor (x rhs : BitValue) : res BitValue :=
  zz ← op_and (zeroBits x) (zeroBits rhs);
  oo ← op_and (oneBits x) (oneBits rhs);
  z ← op_or zz oo;
  zo ← op_and (zeroBits x) (oneBits rhs);
  oz ← op_and (oneBits x) (zeroBits rhs);
  o ← op_or zo oz;
  BitValue_pair z o.

Definition CreateFromConst (c : IntVal) (isSigned : bool) : res BitValue :=
  n ← op_not c;
  z ← IntVal_resign n isSigned;
  o ← IntVal_resign c isSigned;
  BitValue_pair z o.

(** ** Expressions *)

Inductive MeExpr : Set :=
  | ConstMeExpr (primType : PrimType) (constVal : IntVal)
  | OpMeExpr (op : Opcode) (primType : PrimType) (opnd0 opnd1 : MeExpr)
  | OtherMeExpr (exprID : nat) (primType : PrimType).

Definition GetPrimType (e : MeExpr) : PrimType :=
  match e with ConstMeExpr t _ | OpMeExpr _ t _ _ | OtherMeExpr _ t => t end.

(** The MIRIntConst of a constant expression, or null *)
Definition GetIntConst (e : MeExpr) : option IntVal :=
  match e with ConstMeExpr _ c => Some c | _ => None end.

(** The integer constant operand of a binary expression and its position *)
Definition GetIntConstOpndOfBinExpr (opnd0 opnd1 : MeExpr) : option IntVal * Z :=
  match GetIntConst opnd1 with
  | Some c => (Some c, 1)
  | None => match GetIntConst opnd0 with Some c => (Some c, 0) | None => (None, 0) end
  end.

Definition GetBitValueOfAndOrXorExpr (op : Opcode) (demandedBits : IntVal)
    (lhsKnown rhsKnown : BitValue) : res BitValue :=
  res0 ← BitValue_width (GetBitWidth demandedBits);
  match op with
  | OP_band => k ← BitValue_and lhsKnown rhsKnown; BitValue_assign res0 k
  | OP_bior => k ← BitValue_or lhsKnown rhsKnown; BitValue_assign res0 k
  | OP_bxor => k ← BitValue_xor lhsKnown rhsKnown; BitValue_assign res0 k
  | _ => Ret res0
  end.

(** [known] is the in-out argument; the result is its value on return.  The
    second recursive call writes lhsKnown, as the code does. *)
Fixpoint ComputeBitValueOfExpr (expr : MeExpr) (demandedBits : IntVal) (known : BitValue)
    : res BitValue :=
  bitWidth ← BitValue_GetBitWidth known;
  match expr with
  | ConstMeExpr _ c =>
      v ← TruncOrExtend_width c bitWidth false;
      k ← CreateFromConst v false;
      BitValue_assign known k
  | OpMeExpr op _ opnd0 opnd1 =>
      lhsKnown ← BitValue_width bitWidth;
      rhsKnown ← BitValue_width bitWidth;
      match op with
      | OP_band | OP_bior | OP_bxor =>
          lhsKnown ← ComputeBitValueOfExpr opnd0 demandedBits lhsKnown;
          lhsKnown ← ComputeBitValueOfExpr opnd1 demandedBits lhsKnown;
          k ← GetBitValueOfAndOrXorExpr op demandedBits lhsKnown rhsKnown;
          BitValue_assign known k
      | _ => Ret known
      end
  | OtherMeExpr _ _ => Ret known
  end.

Section Simplify.
Context `{Target}.

(** IRMap::CreateIntConstMeExpr(const IntVal &, PrimType) *)
Definition CreateIntConstMeExpr (value : IntVal) (pType : PrimType) : res MeExpr :=
  v ← GetExtValue value;
  c ← IntVal_typed (wrap 64 v) pType;
  Ret (ConstMeExpr pType c).

(** [demanded.IsSubsetOf(a | b)] *)
Definition demanded_in (demanded a b : IntVal) : res bool := m ← op_or a b; IsSubsetOf demanded m.

(** The simplified expression, or null, and the new value of [known] *)
Definition SimplifyBinOpByDemanded (op : Opcode) (type : PrimType) (opnd0 opnd1 : MeExpr)
    (demanded : IntVal) (known lhsKnown rhsKnown : BitValue) : res (option MeExpr * BitValue) :=
  c1 ← HasConflict lhsKnown;
  c2 ← (if negb c1 then HasConflict rhsKnown else Ret true);
  _ ← ASSERT (negb c1 && negb c2);
  match op with
  | OP_band =>
      k ← BitValue_and lhsKnown rhsKnown;
      known ← BitValue_assign known k;
      b ← demanded_in demanded (zeroBits known) (oneBits known);
      if b : bool then e ← CreateIntConstMeExpr (oneBits known) type; Ret (Some e, known)
      else
        b ← demanded_in demanded (zeroBits lhsKnown) (oneBits rhsKnown);
        if b : bool then Ret (Some opnd0, known)
        else
          b ← demanded_in demanded (zeroBits rhsKnown) (oneBits lhsKnown);
          Ret (if b : bool then Some opnd1 else None, known)
  | OP_bior =>
      k ← BitValue_or lhsKnown rhsKnown;
      known ← BitValue_assign known k;
      b ← demanded_in demanded (zeroBits known) (oneBits known);
      if b : bool then e ← CreateIntConstMeExpr (oneBits known) type; Ret (Some e, known)
      else
        b ← demanded_in demanded (oneBits lhsKnown) (zeroBits rhsKnown);
        if b : bool then Ret (Some opnd0, known)
        else
          b ← demanded_in demanded (oneBits rhsKnown) (zeroBits lhsKnown);
          Ret (if b : bool then Some opnd1 else None, known)
  | OP_bxor =>
      k ← BitValue_xor lhsKnown rhsKnown;
      known ← BitValue_assign known k;
      b ← demanded_in demanded (zeroBits known) (oneBits known);
      if b : bool then e ← CreateIntConstMeExpr (oneBits known) type; Ret (Some e, known)
      else
        b ← IsSubsetOf demanded (zeroBits rhsKnown);
        if b : bool then Ret (Some opnd0, known)
        else
          b ← IsSubsetOf demanded (zeroBits lhsKnown);
          Ret (if b : bool then Some opnd1 else None, known)
  | _ => Ret (None, known)
  end.

Definition SimplifyMultiUseByDemanded_bits (expr : MeExpr) (demanded : IntVal) (known : BitValue)
    : res (option MeExpr * BitValue) :=
  let bitWidth := GetBitWidth demanded in
  lhsKnown ← BitValue_width bitWidth;
  rhsKnown ← BitValue_width bitWidth;
  match expr with
  | OpMeExpr ((OP_band | OP_bior | OP_bxor) as op) type opnd0 opnd1 =>
      lhsKnown ← ComputeBitValueOfExpr opnd0 demanded lhsKnown;
      rhsKnown ← ComputeBitValueOfExpr opnd1 demanded rhsKnown;
      SimplifyBinOpByDemanded op type opnd0 opnd1 demanded known lhsKnown rhsKnown
  | _ => Ret (None, known)
  end.

Definition SimplifyMultiUseByDemanded (expr : MeExpr) : res (option MeExpr) :=
  let bitWidth := GetPrimTypeBitSize (GetPrimType expr) in
  demanded ← IntVal_int kAllOnes bitWidth false;
  known ← BitValue_width bitWidth;
  r ← SimplifyMultiUseByDemanded_bits expr demanded known;
  Ret (fst r).
End Simplify.
