(* ===== verification/BitValueFacts.v ===== *)
(** * Soundness of known bits and of the simplification by demanded bits *)
From S2P Require Import Prelude.
From S2P Require Import PrimTypes.
From S2P Require Import Opcodes.
From S2P Require Import IntWords.
From S2P Require Import IntWordsFacts.
From S2P Require Import IntDivFacts.
From S2P Require Import IntVal.
From S2P Require Import IntValFacts.
From S2P Require Import IntValArith.
From S2P Require Import IntValOrder.
From S2P Require Import IntValCount.
From S2P Require Import IntValDiv.
From S2P Require Import IntValSpec.
From S2P Require Import BitValue.

(** ** Unsigned bit vectors *)

Definition ubv (w : Z) (x : IntVal) : Prop := wf x /\ width x = w /\ sign x = false.


Lemma ubv_width w x : ubv w x -> valid_width w.
Proof. intros (Hx & <- & _). by apply wf_valid. Qed.

Lemma ubv_above w x i : ubv w x -> w <= i -> Z.testbit (uval x) i = false.
Proof. intros (Hx & <- & _) Hi. apply (testbit_above (width x)); [by apply wf_uval|done]. Qed.

Lemma ubv_repr w v : valid_width w -> 0 <= v < 2 ^ w -> ubv w (repr w false v) /\ uval (repr w false v) = v.
Proof.
  intros Hw Hv. split; [split; [by apply repr_wf|done]|]. rewrite uval_repr by done. by apply wrap_small.
Qed.

Lemma ubv_ext w x y : ubv w x -> ubv w y -> (forall i, 0 <= i < w -> Z.testbit (uval x) i = Z.testbit (uval y) i) -> x = y.
Proof.
  intros Hx Hy Hb. pose proof Hx as (Hwx & Ex & Sx). pose proof Hy as (Hwy & Ey & Sy).
  apply wf_inj; try congruence. apply bits_ext. intros i Hi. destruct (decide (i < w)); [by apply Hb|].
  rewrite (ubv_above w x), (ubv_above w y) by (done || lia). done.
Qed.

Section Ops.
Context (w : Z).

Lemma op_or_bits x y :
  ubv w x -> ubv w y ->
  wp (op_or x y) (fun r => ubv w r /\ forall i, 0 <= i -> Z.testbit (uval r) i = Z.testbit (uval x) i || Z.testbit (uval y) i).
Proof.
  intros Hx Hy. pose proof (ubv_width w x Hx) as Hw. pose proof (valid_width_range w Hw).
  destruct Hx as (Hx & Ex & Sx), Hy as (Hy & Ey & Sy).
  rewrite op_or_eq by (congruence || done). rewrite Ex, Sx. apply wp_ret.
  destruct (ubv_repr w (Z.lor (uval x) (uval y)) Hw) as [Hr E].
  { apply lor_in_word; [lia|rewrite <- Ex|rewrite <- Ey]; by apply wf_uval. }
  split; [done|]. intros i Hi. by rewrite E, Z.lor_spec.
Qed.

Lemma op_and_bits x y :
  ubv w x -> ubv w y ->
  wp (op_and x y) (fun r => ubv w r /\ forall i, 0 <= i -> Z.testbit (uval r) i = Z.testbit (uval x) i && Z.testbit (uval y) i).
Proof.
  intros Hx Hy. pose proof (ubv_width w x Hx) as Hw. pose proof (valid_width_range w Hw).
  destruct Hx as (Hx & Ex & Sx), Hy as (Hy & Ey & Sy).
  rewrite op_and_eq by (congruence || done). rewrite Ex, Sx. apply wp_ret.
  destruct (ubv_repr w (Z.land (uval x) (uval y)) Hw) as [Hr E].
  { apply land_word; [lia|rewrite <- Ex|rewrite <- Ey]; by apply wf_uval. }
  split; [done|]. intros i Hi. by rewrite E, Z.land_spec.
Qed.

Lemma op_not_bits x :
  ubv w x -> wp (op_not x) (fun r => ubv w r /\ forall i, 0 <= i < w -> Z.testbit (uval r) i = negb (Z.testbit (uval x) i)).
Proof.
  intros Hx. pose proof (ubv_width w x Hx) as Hw. pose proof (valid_width_range w Hw).
  destruct Hx as (Hx & Ex & Sx). rewrite op_not_eq by done. rewrite Ex, Sx. apply wp_ret.
  split; [split; [by apply repr_wf|done]|]. intros i Hi.
  rewrite uval_repr, testbit_wrap, Z.lnot_spec by (done || lia). bool_cases.
Qed.
End Ops.

(** ** Subset test *)

Lemma ldiff_word v r : 0 <= v < 2 ^ 64 -> Z.land v (notw 64 r) = Z.ldiff v r.
Proof.
  intros Hv. apply bits_ext. intros i Hi. rewrite Z.land_spec, Z.ldiff_spec.
  destruct (decide (i < 64)); [by rewrite notw_bits by lia|]. by rewrite (testbit_above 64 v) by lia.
Qed.

Lemma ldiff_zero a b : Z.ldiff a b = 0 <-> forall i, 0 <= i -> Z.testbit a i = true -> Z.testbit b i = true.
Proof.
  split.
  - intros E i Hi Ha. apply (f_equal (fun z => Z.testbit z i)) in E.
    rewrite Z.ldiff_spec, Ha, Z.testbit_0_l in E. by destruct (Z.testbit b i).
  - intros H. apply bits_ext. intros i Hi. rewrite Z.ldiff_spec, Z.testbit_0_l.
    specialize (H i Hi). by destruct (Z.testbit a i), (Z.testbit b i); try done; specialize (H eq_refl).
Qed.

Lemma wide_subset_loop n us vs :
  array_ok 64 n us -> array_ok 64 n vs ->
  wp (for_up n 0 (fun i (acc : bool) =>
        if acc then
          w ← rd us i;
          r ← rd vs i;
          Ret (Z.land w (notw 64 r) =? 0)
        else Ret false) true)
    (fun b => b = true <-> forall k, (k < n)%nat -> Z.ldiff us.[k] vs.[k] = 0).
Proof.
  intros Hus Hvs. apply (wp_for_up (fun i b => b = true <-> forall k, (k < i)%nat -> Z.ldiff us.[k] vs.[k] = 0)).
  { split; [lia|done]. }
  intros j b Hj Hb. destruct b.
  - apply wp_bind, wp_rd; [rewrite (proj2 Hus); lia|]. apply wp_bind, wp_rd; [rewrite (proj2 Hvs); lia|].
    apply wp_ret. rewrite ldiff_word by (by apply (array_ok_at 64 n)). rewrite Z.eqb_eq. split.
    + intros E k Hk. destruct (decide (k = j)) as [->|]; [done|]. apply Hb; [done|lia].
    + intros Hall. apply Hall. lia.
  - apply wp_ret. split; [done|]. intros Hall. apply Hb. intros. apply Hall. lia.
Qed.

Lemma IsSubsetOf_spec W x y :
  ubv W x -> ubv W y ->
  wp (IsSubsetOf x y) (fun b => b = true <-> forall i, 0 <= i -> Z.testbit (uval x) i = true -> Z.testbit (uval y) i = true).
Proof.
  intros (Hx & Ex & Sx) (Hy & Ey & Sy). unfold IsSubsetOf. rewrite same_type_intro by congruence.
  cbn [ASSERT mbind res_bind]. operands x y Hx Hy (eq_trans Ex (eq_sym Ey)) (eq_trans Sx (eq_sym Sy)).
  - rewrite IsOneWord_one by done. apply wp_ret. cbn [u_value u uval].
    rewrite ldiff_word by (by apply (word64 w)). by rewrite Z.eqb_eq, ldiff_zero.
  - rewrite IsOneWord_many by lia. unfold WideIsSubsetOf. cbn [u_pValue u mbind res_bind].
    rewrite numWords_many by lia. eapply wp_mono; [by apply wide_subset_loop|].
    intros b ->. cbn [uval u]. split.
    + intros Hall i Hi. rewrite !testbit_eval by (lia || apply Hus || apply Hvs). intros Hb.
      destruct (decide (Z.to_nat (i / 64) < n)%nat) as [Hk|Hk].
      * apply (proj1 (ldiff_zero _ _) (Hall _ Hk)); [apply Z.mod_pos_bound; lia|done].
      * rewrite at_over, Z.testbit_0_l in Hb by (rewrite (proj2 Hus); lia). done.
    + intros Hall k Hk. apply ldiff_zero. intros i Hi Hb. destruct (decide (i < 64)).
      * specialize (Hall (64 * Z.of_nat k + i) ltac:(lia)).
        rewrite !testbit_eval_at in Hall by (lia || apply Hus || apply Hvs). by apply Hall.
      * rewrite (testbit_above 64) in Hb by (lia || by apply (array_ok_at 64 n)). done.
Qed.

(** ** Known bits *)

(** [sound w k v]: every bit that [k] knows is the bit of [v]. *)
Definition known_ok (w : Z) (k : BitValue) : Prop := ubv w (zeroBits k) /\ ubv w (oneBits k).
Definition sound (w : Z) (k : BitValue) (v : Z) : Prop :=
  known_ok w k /\ forall i, 0 <= i < w ->
    (Z.testbit (uval (zeroBits k)) i = true -> Z.testbit v i = false) /\
    (Z.testbit (uval (oneBits k)) i = true -> Z.testbit v i = true).

Lemma BitValue_width_spec w :
  valid_width w -> wp (BitValue_width w) (fun k => known_ok w k /\ forall v, sound w k v).
Proof.
  intros Hw. unfold BitValue_width. rewrite IntVal_int_spec by done. cbn [mbind res_bind]. apply wp_ret.
  destruct (ubv_repr w 0 Hw) as [Hr E]; [pose proof (valid_width_range w Hw); pose proof (pow2_pos w); lia|].
  change (wrap 64 0) with 0. split; [by split|]. intros v. split; [by split|]. cbn [zeroBits oneBits].
  intros i Hi. by rewrite E, Z.testbit_0_l.
Qed.

Lemma BitValue_pair_spec w z o :
  ubv w z -> ubv w o -> BitValue_pair z o = Ret (MkBitValue z o).
Proof.
  intros (Hz & Ez & Sz) (Ho & Eo & So). unfold BitValue_pair. by rewrite same_type_intro by congruence.
Qed.

Lemma BitValue_assign_spec w x k : known_ok w x -> known_ok w k -> BitValue_assign x k = Ret k.
Proof.
  intros [(Hzx & Ezx & Szx) (Hox & Eox & Sox)] [(Hz & Ez & Sz) (Ho & Eo & So)].
  unfold BitValue_assign, assign_copy.
  rewrite !(same_type_intro _ _) by congruence. rewrite !Assign_spec by done.
  destruct (width (zeroBits x) =? 0), (width (oneBits x) =? 0); by destruct k.
Qed.

(** The three operators, on any pair of sound arguments. *)
Lemma BitValue_and_sound w j k a b :
  sound w j a -> sound w k b -> wp (BitValue_and j k) (fun r => sound w r (Z.land a b)).
Proof.
  intros [[Hjz Hjo] Hj] [[Hkz Hko] Hk]. unfold BitValue_and.
  apply wp_bind. eapply wp_mono; [by apply (op_or_bits w)|]. intros z [Hz Bz].
  apply wp_bind. eapply wp_mono; [by apply (op_and_bits w)|]. intros o [Ho Bo].
  rewrite (BitValue_pair_spec w) by done. split; [by split|]. cbn [zeroBits oneBits]. intros i Hi.
  rewrite Bz, Bo, Z.land_spec by lia. destruct (Hj i Hi) as [Hj1 Hj2], (Hk i Hi) as [Hk1 Hk2].
  split; intros E; [apply orb_true_iff in E as [E|E]|apply andb_true_iff in E as [E1 E2]].
  - by rewrite (Hj1 E).
  - by rewrite (Hk1 E), andb_false_r.
  - by rewrite (Hj2 E1), (Hk2 E2).
Qed.

Lemma BitValue_or_sound w j k a b :
  sound w j a -> sound w k b -> wp (BitValue_or j k) (fun r => sound w r (Z.lor a b)).
Proof.
  intros [[Hjz Hjo] Hj] [[Hkz Hko] Hk]. unfold BitValue_or.
  apply wp_bind. eapply wp_mono; [by apply (op_and_bits w)|]. intros z [Hz Bz].
  apply wp_bind. eapply wp_mono; [by apply (op_or_bits w)|]. intros o [Ho Bo].
  rewrite (BitValue_pair_spec w) by done. split; [by split|]. cbn [zeroBits oneBits]. intros i Hi.
  rewrite Bz, Bo, Z.lor_spec by lia. destruct (Hj i Hi) as [Hj1 Hj2], (Hk i Hi) as [Hk1 Hk2].
  split; intros E; [apply andb_true_iff in E as [E1 E2]|apply orb_true_iff in E as [E|E]].
  - by rewrite (Hj1 E1), (Hk1 E2).
  - by rewrite (Hj2 E).
  - by rewrite (Hk2 E), orb_true_r.
Qed.

Lemma BitValue_xor_sound w j k a b :
  sound w j a -> sound w k b -> wp (BitValue_xor j k) (fun r => sound w r (Z.lxor a b)).
Proof.
  intros [[Hjz Hjo] Hj] [[Hkz Hko] Hk]. unfold BitValue_xor.
  apply wp_bind. eapply wp_mono; [by apply (op_and_bits w)|]. intros zz [Hzz Bzz].
  apply wp_bind. eapply wp_mono; [by apply (op_and_bits w)|]. intros oo [Hoo Boo].
  apply wp_bind. eapply wp_mono; [by apply (op_or_bits w)|]. intros z [Hz Bz].
  apply wp_bind. eapply wp_mono; [by apply (op_and_bits w)|]. intros zo [Hzo Bzo].
  apply wp_bind. eapply wp_mono; [by apply (op_and_bits w)|]. intros oz [Hoz Boz].
  apply wp_bind. eapply wp_mono; [by apply (op_or_bits w)|]. intros o [Ho Bo].
  rewrite (BitValue_pair_spec w) by done. split; [by split|]. cbn [zeroBits oneBits]. intros i Hi.
  rewrite Bz, Bo, Bzz, Boo, Bzo, Boz, Z.lxor_spec by lia.
  destruct (Hj i Hi) as [Hj1 Hj2], (Hk i Hi) as [Hk1 Hk2].
  split; intros E; apply orb_true_iff in E as [E|E]; apply andb_true_iff in E as [E1 E2].
  - by rewrite (Hj1 E1), (Hk1 E2).
  - by rewrite (Hj2 E1), (Hk2 E2).
  - by rewrite (Hj1 E1), (Hk2 E2).
  - by rewrite (Hj2 E1), (Hk1 E2).
Qed.

(** The abstract operator of an opcode. *)
Definition bitop (op : Opcode) : option (Z -> Z -> Z) :=
  match op with
  | OP_band => Some Z.land | OP_bior => Some Z.lor | OP_bxor => Some Z.lxor | _ => None
  end.

(** ** The known bits of an expression *)

Section Meaning.
(** The value of the expressions the code does not look into. *)
Context (leaf : MeExpr -> Z).

(** The value of an expression, as an unsigned integer of [w] bits. *)
Fixpoint denote (w : Z) (e : MeExpr) : Z :=
  match e with
  | ConstMeExpr _ c => wrap w (ival c)
  | OpMeExpr OP_band _ a b => Z.land (denote w a) (denote w b)
  | OpMeExpr OP_bior _ a b => Z.lor (denote w a) (denote w b)
  | OpMeExpr OP_bxor _ a b => Z.lxor (denote w a) (denote w b)
  | _ => wrap w (leaf e)
  end.

Fixpoint wf_expr (e : MeExpr) : Prop :=
  match e with
  | ConstMeExpr _ c => wf c
  | OpMeExpr _ _ a b => wf_expr a /\ wf_expr b
  | OtherMeExpr _ _ => True
  end.

Lemma denote_range w e : 0 <= w -> 0 <= denote w e < 2 ^ w.
Proof.
  intros Hw. induction e as [t c|op t a IHa b IHb|n t]; cbn [denote].
  - by apply wrap_range.
  - destruct op; by (apply wrap_range || apply land_word || apply lor_in_word || apply lxor_in_word).
  - by apply wrap_range.
Qed.

Lemma CreateFromConst_sound w c v :
  ubv w c -> uval c = v ->
  wp (CreateFromConst c false) (fun k => sound w k v).
Proof.
  intros Hc <-. pose proof (ubv_width w c Hc) as Hw. unfold CreateFromConst.
  apply wp_bind. eapply wp_mono; [by apply op_not_bits|]. intros n [Hn Bn].
  rewrite (IntVal_resign_spec n) by apply Hn. cbn [mbind res_bind].
  rewrite (IntVal_resign_spec c) by apply Hc. cbn [mbind res_bind].
  pose proof Hn as (Hnw & En & Sn). pose proof Hc as (Hcw & Ec & Sc).
  rewrite <- Sn at 1. rewrite <- Sc. rewrite <- (repr_of_wf n Hnw), <- (repr_of_wf c Hcw).
  rewrite (BitValue_pair_spec w) by done. split; [by split|]. cbn [zeroBits oneBits]. intros i Hi.
  rewrite Bn by done. split; [apply negb_true_iff|done].
Qed.

Lemma GetBitValue_sound w op f demanded j k a b :
  bitop op = Some f -> width demanded = w -> valid_width w -> sound w j a -> sound w k b ->
  wp (GetBitValueOfAndOrXorExpr op demanded j k) (fun r => sound w r (f a b)).
Proof.
  intros Hop Hd Hw Hj Hk. unfold GetBitValueOfAndOrXorExpr, GetBitWidth. rewrite Hd.
  destruct (wp_returns _ _ (BitValue_width_spec w Hw)) as (k0 & -> & Hk0 & _). cbn [mbind res_bind].
  destruct op; inversion Hop; subst f; apply wp_bind;
    (eapply wp_mono; [by apply (BitValue_and_sound w) || apply (BitValue_or_sound w) || apply (BitValue_xor_sound w)|]);
    intros r Hr; by rewrite (BitValue_assign_spec w) by (done || apply Hr).
Qed.

Lemma bitop_facts op f t a b w :
  bitop op = Some f ->
  denote w (OpMeExpr op t a b) = f (denote w a) (denote w b) /\ forall x y, f x y = f y x.
Proof.
  intros Hop. destruct op; inversion Hop; subst f; split; try done;
    auto using Z.land_comm, Z.lor_comm, Z.lxor_comm.
Qed.

(** What a recursive call leaves in [known]: sound bits of the expression, or
    the bits it was given. *)
Lemma ComputeBitValueOfExpr_spec w demanded e known :
  width demanded = w -> wf_expr e -> known_ok w known ->
  wp (ComputeBitValueOfExpr e demanded known)
    (fun k => known_ok w k /\ (sound w k (denote w e) \/ k = known)).
Proof.
  intros Hd. revert known. induction e as [t c|op t a IHa b IHb|n t]; intros known He Hk;
    cbn [ComputeBitValueOfExpr]; pose proof Hk as [Hkz Hko];
    pose proof (ubv_width w _ Hkz) as Hw;
    unfold BitValue_GetBitWidth, GetBitWidth;
    rewrite (proj1 (proj2 Hkz)), (proj1 (proj2 Hko)), Z.eqb_refl; cbn [ASSERT mbind res_bind].
  - rewrite TruncOrExtend_width_eq by done. cbn [mbind res_bind]. apply wp_bind.
    eapply wp_mono; [apply (CreateFromConst_sound w _ (wrap w (ival c)))|].
    + split; [by apply repr_wf|done].
    + by apply uval_repr.
    + intros k Hs. rewrite (BitValue_assign_spec w) by (done || apply Hs). split; [apply Hs|by left].
  - destruct (wp_returns _ _ (BitValue_width_spec w Hw)) as (k0 & -> & Hk0 & Hany). cbn [mbind res_bind].
    assert (forall f, bitop op = Some f ->
      wp (lhsKnown ← ComputeBitValueOfExpr a demanded k0;
          lhsKnown ← ComputeBitValueOfExpr b demanded lhsKnown;
          k ← GetBitValueOfAndOrXorExpr op demanded lhsKnown k0;
          BitValue_assign known k)
        (fun k => known_ok w k /\ (sound w k (denote w (OpMeExpr op t a b)) \/ k = known))) as Hop.
    { intros f Hf. destruct (bitop_facts op f t a b w Hf) as [-> Hcomm]. destruct He as [Hea Heb].
      apply wp_bind. eapply wp_mono; [by apply IHa|]. intros k1 [Hk1 Hs1].
      apply wp_bind. eapply wp_mono; [by apply IHb|]. intros k2 [Hk2 Hs2].
      apply wp_bind. eapply wp_mono with (Q := fun r => sound w r (f (denote w a) (denote w b))).
      - destruct Hs2 as [Hs2| ->]; [rewrite Hcomm; by apply (GetBitValue_sound w)|].
        apply (GetBitValue_sound w); auto. by destruct Hs1 as [Hs1| ->].
      - intros r Hr. rewrite (BitValue_assign_spec w) by (done || apply Hr).
        split; [apply Hr|by left]. }
    destruct op; (by eapply Hop) || (apply wp_ret; split; [done|by right]).
  - apply wp_ret. split; [done|by right].
Qed.

(** Starting from nothing known, the result is sound for the expression. *)
Lemma ComputeBitValueOfExpr_fresh w demanded e k0 :
  width demanded = w -> wf_expr e -> known_ok w k0 -> (forall v, sound w k0 v) ->
  wp (ComputeBitValueOfExpr e demanded k0) (fun k => sound w k (denote w e)).
Proof.
  intros Hd He Hk0 Hany. eapply wp_mono; [by apply (ComputeBitValueOfExpr_spec w)|].
  intros k [_ [Hs| ->]]; auto.
Qed.

(** ** Simplification *)

(** A sound value has no conflict. *)
Lemma HasConflict_sound w k v : sound w k v -> HasConflict k = Ret false.
Proof.
  intros [[Hz Ho] Hs]. pose proof (ubv_width w _ Hz) as Hw. pose proof (valid_width_range w Hw).
  unfold HasConflict. destruct (wp_returns _ _ (op_and_bits w _ _ Hz Ho)) as (r & -> & Hr & Br).
  cbn [mbind res_bind]. rewrite AreAllBitsZeros_eq by apply Hr. cbn [mbind res_bind].
  assert (uval r = 0) as ->; [|done]. apply bits_ext. intros i Hi. rewrite Z.testbit_0_l.
  destruct (decide (i < w)); [|apply (ubv_above w); [done|lia]]. rewrite Br by done.
  destruct (Hs i ltac:(lia)) as [H1 H2].
  destruct (Z.testbit (uval (zeroBits k)) i), (Z.testbit (uval (oneBits k)) i); try done.
  rewrite H1 in H2 by done. by specialize (H2 eq_refl).
Qed.

(** Two values that agree on the demanded bits. *)
Definition agree (demanded : IntVal) (a b : Z) : Prop :=
  forall i, 0 <= i -> Z.testbit (uval demanded) i = true -> Z.testbit a i = Z.testbit b i.

Lemma demanded_in_spec w d x y :
  ubv w d -> ubv w x -> ubv w y ->
  wp (demanded_in d x y) (fun b => b = true ->
    forall i, 0 <= i -> Z.testbit (uval d) i = true -> i < w /\ (Z.testbit (uval x) i = true \/ Z.testbit (uval y) i = true)).
Proof.
  intros Hd Hx Hy. unfold demanded_in. apply wp_bind. eapply wp_mono; [by apply (op_or_bits w)|].
  intros m [Hm Bm]. eapply wp_mono; [by apply (IsSubsetOf_spec w)|]. intros b Hb Eb i Hi Hdi.
  pose proof (proj1 Hb Eb i Hi Hdi) as H. split.
  - apply Z.nle_gt. intros Hge. by rewrite (ubv_above w d) in Hdi.
  - rewrite Bm in H by done. by apply orb_true_iff.
Qed.

Section Rewrite.
Context `{Target} (w : Z) (t : PrimType).
Context (Hint : IsPrimitiveInteger t = true) (Htw : type_width t = w) (H64 : w <= 64).

Lemma CreateIntConstMeExpr_spec x :
  ubv w x -> wp (CreateIntConstMeExpr x t) (fun e => wf_expr e /\ denote w e = uval x).
Proof using Hint Htw H64.
  intros Hx. pose proof (ubv_width w x Hx) as Hw. pose proof (valid_width_range w Hw).
  destruct Hx as (Hx & Ex & Sx). unfold CreateIntConstMeExpr.
  rewrite GetExtValue_one by (done || lia). cbn [mbind res_bind].
  rewrite unsigned_ival by done. unfold IntVal_typed. rewrite Htw.
  rewrite IntVal_int_spec by done. cbn [mbind res_bind]. rewrite Hint. apply wp_ret.
  cbn [wf_expr denote]. split; [by apply repr_wf|]. rewrite ival_repr by done.
  pose proof (wf_uval x Hx) as Hu. rewrite Ex in Hu.
  assert (forall z, wrap w (if IsSignedInteger t then swrap w z else wrap w z) = wrap w z) as E1.
  { intros z. destruct (IsSignedInteger t); [apply swrap_congr|apply wrap_wrap]; lia. }
  assert (forall z, wrap w (if IsSignedInteger t then swrap 64 z else wrap 64 z) = wrap w z) as E2.
  { intros z. destruct (IsSignedInteger t); [|apply wrap_wrap_le; lia].
    rewrite <- (wrap_wrap_le w 64), swrap_congr, wrap_wrap_le by lia. done. }
  rewrite E1, E2. rewrite wrap_wrap_le by lia.
  rewrite <- (wrap_wrap_le w 64 (swrap 64 _)), swrap_congr, wrap_wrap_le by lia. by apply wrap_small.
Qed.

Context (a b : MeExpr) (d : IntVal) (known j k : BitValue).
Context (Ha : wf_expr a) (Hb : wf_expr b) (Hd : ubv w d) (Hknown : known_ok w known).
Context (Hj : sound w j (denote w a)) (Hk : sound w k (denote w b)).

(** The result of a simplification of [v]. *)
Definition simplified (v : Z) (r : option MeExpr * BitValue) : Prop :=
  sound w (snd r) v /\ forall e, fst r = Some e -> wf_expr e /\ agree d (denote w e) v.

(** All the demanded bits are known: the constant of the known ones. *)
Lemma known_constant kn v (rest : res (option MeExpr * BitValue)) :
  sound w kn v -> wp rest (simplified v) ->
  wp (x ← demanded_in d (zeroBits kn) (oneBits kn);
      if x : bool then e ← CreateIntConstMeExpr (oneBits kn) t; Ret (Some e, kn) else rest)
    (simplified v).
Proof using Hint Htw H64 Hd.
  intros Hs Hrest. pose proof Hs as [[Hz Ho] Hbits]. apply wp_bind.
  eapply wp_mono; [by apply (demanded_in_spec w)|]. intros x Hx. destruct x; [|done].
  specialize (Hx eq_refl). apply wp_bind. eapply wp_mono; [by apply CreateIntConstMeExpr_spec|].
  intros e [He Ee]. apply wp_ret. split; [done|]. cbn [fst]. intros e' [= <-]. split; [done|].
  intros i Hi Hdi. rewrite Ee. destruct (Hx i Hi Hdi) as [Hiw Hcase].
  destruct (Hbits i ltac:(lia)) as [H0 H1]. destruct (Z.testbit (uval (oneBits kn)) i).
  - symmetry. by apply H1.
  - destruct Hcase as [Hc|Hc]; [|done]. symmetry. by apply H0.
Qed.

(** An operand replaces the expression. *)
Lemma replace_operand e v kn (test : res bool) (rest : res (option MeExpr * BitValue)) :
  wf_expr e -> sound w kn v ->
  wp test (fun x => x = true -> agree d (denote w e) v) -> wp rest (simplified v) ->
  wp (x ← test; if x : bool then Ret (Some e, kn) else rest) (simplified v).
Proof using.
  intros He Hs Ht Hrest. apply wp_bind. eapply wp_mono; [exact Ht|]. intros x Hx.
  destruct x; [|done]. apply wp_ret. split; [done|]. cbn [fst]. intros e' [= <-]. auto.
Qed.

Lemma replace_last e v kn (test : res bool) :
  wf_expr e -> sound w kn v -> wp test (fun x => x = true -> agree d (denote w e) v) ->
  wp (x ← test; Ret (if x : bool then Some e else None, kn)) (simplified v).
Proof using.
  intros He Hs Ht. apply wp_bind. eapply wp_mono; [exact Ht|]. intros x Hx. apply wp_ret.
  split; [done|]. cbn [fst]. destruct x; [|done]. intros e' [= <-]. auto.
Qed.

(** A test on two masks that justifies the replacement bit by bit. *)
Lemma test_two x y u v :
  ubv w x -> ubv w y ->
  (forall i, 0 <= i < w -> Z.testbit (uval x) i = true \/ Z.testbit (uval y) i = true -> Z.testbit u i = Z.testbit v i) ->
  wp (demanded_in d x y) (fun c => c = true -> agree d u v).
Proof using Hd.
  intros Hx Hy Hbits. eapply wp_mono; [by apply (demanded_in_spec w)|]. intros c Hc Ec i Hi Hdi.
  destruct (Hc Ec i Hi Hdi). apply Hbits; [lia|done].
Qed.

Lemma test_one x u v :
  ubv w x -> (forall i, 0 <= i < w -> Z.testbit (uval x) i = true -> Z.testbit u i = Z.testbit v i) ->
  wp (IsSubsetOf d x) (fun c => c = true -> agree d u v).
Proof using Hd.
  intros Hx Hbits. eapply wp_mono; [by apply (IsSubsetOf_spec w)|]. intros c Hc Ec i Hi Hdi.
  pose proof (proj1 Hc Ec i Hi Hdi). destruct (decide (i < w)); [apply Hbits; auto; lia|].
  by rewrite (ubv_above w d) in Hdi by (done || lia).
Qed.

Lemma SimplifyBinOp_spec op f :
  bitop op = Some f ->
  wp (SimplifyBinOpByDemanded op t a b d known j k) (simplified (f (denote w a) (denote w b))).
Proof using All.
  intros Hop. unfold SimplifyBinOpByDemanded.
  rewrite (HasConflict_sound w j _ Hj), (HasConflict_sound w k _ Hk). cbn [negb andb ASSERT mbind res_bind].
  pose proof Hj as [[Hjz Hjo] Bj]. pose proof Hk as [[Hkz Hko] Bk].
  destruct op; inversion Hop; subst f; apply wp_bind.
  - eapply wp_mono; [by apply (BitValue_and_sound w)|]. intros kn Hs.
    rewrite (BitValue_assign_spec w) by (done || apply Hs). cbn [mbind res_bind].
    apply known_constant; [done|]. apply replace_operand; [done|done| |].
    2: apply replace_last; [done|done|].
    all: apply test_two; try done; intros i Hi Hc; rewrite Z.land_spec;
      destruct (Bj i Hi) as [J0 J1], (Bk i Hi) as [K0 K1];
      destruct Hc as [Hc|Hc]; rewrite ?(J0 Hc), ?(J1 Hc), ?(K0 Hc), ?(K1 Hc); by rewrite ?andb_true_r, ?andb_false_r.
  - eapply wp_mono; [by apply (BitValue_or_sound w)|]. intros kn Hs.
    rewrite (BitValue_assign_spec w) by (done || apply Hs). cbn [mbind res_bind].
    apply known_constant; [done|]. apply replace_operand; [done|done| |].
    2: apply replace_last; [done|done|].
    all: apply test_two; try done; intros i Hi Hc; rewrite Z.lor_spec;
      destruct (Bj i Hi) as [J0 J1], (Bk i Hi) as [K0 K1];
      destruct Hc as [Hc|Hc]; rewrite ?(J0 Hc), ?(J1 Hc), ?(K0 Hc), ?(K1 Hc); by rewrite ?orb_true_r, ?orb_false_r.
  - eapply wp_mono; [by apply (BitValue_xor_sound w)|]. intros kn Hs.
    rewrite (BitValue_assign_spec w) by (done || apply Hs). cbn [mbind res_bind].
    apply known_constant; [done|]. apply replace_operand; [done|done| |].
    2: apply replace_last; [done|done|].
    all: apply test_one; try done; intros i Hi Hc; rewrite Z.lxor_spec;
      destruct (Bj i Hi) as [J0 J1], (Bk i Hi) as [K0 K1];
      rewrite ?(J0 Hc), ?(K0 Hc); by rewrite ?xorb_false_r, ?xorb_false_l.
Qed.
End Rewrite.
End Meaning.

(** ** Claims *)

(** C15: from nothing known, ComputeBitValueOfExpr returns known bits that are
    right for the expression, whatever its opaque parts evaluate to. *)
Theorem known_bits_sound leaf w demanded e :
  valid_width w -> width demanded = w -> wf_expr e ->
  wp (k0 ← BitValue_width w; ComputeBitValueOfExpr e demanded k0) (fun k => sound w k (denote leaf w e)).
Proof.
  intros Hw Hd He. apply wp_bind. eapply wp_mono; [by apply BitValue_width_spec|].
  intros k0 [Hk0 Hany]. by apply ComputeBitValueOfExpr_fresh.
Qed.

Definition x_and_12 : MeExpr :=
  OpMeExpr OP_band PTY_u32 (OtherMeExpr 0 PTY_u32) (ConstMeExpr PTY_u32 (repr 32 false 12)).

Lemma valid_32 : valid_width 32.
Proof. left. lia. Qed.

Lemma known_bits_sound_witness :
  wp (k0 ← BitValue_width 32; ComputeBitValueOfExpr x_and_12 (repr 32 false (-1)) k0)
    (fun k => sound 32 k (denote (fun _ => 77) 32 x_and_12)).
Proof.
  apply (known_bits_sound (fun _ => 77) 32 (repr 32 false (-1)) x_and_12 valid_32 eq_refl).
  split; [done|]. apply repr_wf, valid_32.
Defined.

(** The demanded mask of the entry point covers every bit of the width. *)
Lemma all_ones_demanded w :
  0 < w <= 64 -> IntVal_int kAllOnes w false = Ret (repr w false (-1)).
Proof.
  intros Hw. rewrite IntVal_int_spec by (by left). f_equal. apply repr_congr; [by left|].
  rewrite wrap_wrap_le by lia. change kAllOnes with (-1 + 2 ^ 64 * 1).
  apply (wrap_congr _ _ _ (2 ^ (64 - w))); [lia|]. rewrite <- Z.pow_add_r by lia.
  replace (w + (64 - w)) with 64 by lia. lia.
Qed.

Lemma agree_all_ones w a b :
  0 < w <= 64 -> 0 <= a < 2 ^ w -> 0 <= b < 2 ^ w -> agree (repr w false (-1)) a b -> a = b.
Proof.
  intros Hw Ha Hb Hag. apply bits_ext. intros i Hi. destruct (decide (i < w)).
  - apply Hag; [done|]. rewrite uval_repr by (by left). rewrite testbit_wrap by lia.
    destruct (Z.ltb_spec i w); [|lia]. apply Z.bits_m1. lia.
  - by rewrite !(testbit_above w) by lia.
Qed.

(** C16: the expression that SimplifyMultiUseByDemanded returns for an integer
    operation of 8 to 64 bits has the value of the original one, whatever the
    opaque parts evaluate to; the function returns without reaching an
    assertion. *)
Theorem simplify_by_demanded_bits leaf `{Target} e :
  IsPrimitiveInteger (GetPrimType e) = true -> GetPrimType e <> PTY_u1 ->
  GetPrimTypeBitSize (GetPrimType e) <= 64 -> wf_expr e ->
  wp (SimplifyMultiUseByDemanded e) (fun r => forall e', r = Some e' ->
    wf_expr e' /\
    let w := GetPrimTypeBitSize (GetPrimType e) in denote leaf w e' = denote leaf w e).
Proof.
  intros Hint Hu1 H64 He. unfold SimplifyMultiUseByDemanded. remember (GetPrimType e) as t eqn:Et.
  assert (type_width t = GetPrimTypeBitSize t) as Htw.
  { unfold type_width, GetPrimTypeActualBitSize, pty_eqb. rewrite bool_decide_eq_false_2 by done.
    fold (GetPrimTypeBitSize t). apply wrap_small. clear. split; destruct t, H; vm_compute; done. }
  pose proof (type_width_valid t Hint) as Hw. rewrite Htw in Hw.
  pose proof (valid_width_range _ Hw).
  set (w := GetPrimTypeBitSize t) in *. rewrite all_ones_demanded by lia. cbn [mbind res_bind].
  destruct (wp_returns _ _ (BitValue_width_spec w Hw)) as (k0 & E0 & Hk0 & Hany).
  rewrite E0. cbn [mbind res_bind]. apply wp_bind. unfold SimplifyMultiUseByDemanded_bits, GetBitWidth.
  cbn [width repr]. rewrite E0. cbn [mbind res_bind].
  assert (ubv w (repr w false (-1))) as Hd by (split; [by apply repr_wf|done]).
  assert (forall op f a b, bitop op = Some f -> e = OpMeExpr op t a b ->
    wp (lhsKnown ← ComputeBitValueOfExpr a (repr w false (-1)) k0;
        rhsKnown ← ComputeBitValueOfExpr b (repr w false (-1)) k0;
        SimplifyBinOpByDemanded op t a b (repr w false (-1)) k0 lhsKnown rhsKnown)
      (fun r => wp (Ret (fst r)) (fun r => forall e', r = Some e' ->
         wf_expr e' /\ denote leaf w e' = denote leaf w e))) as Hcase.
  { intros op f a b Hop Ee. subst e. destruct He as [Ha Hb].
    destruct (bitop_facts leaf op f t a b w Hop) as [Ef _].
    apply wp_bind. eapply wp_mono; [by apply (ComputeBitValueOfExpr_fresh leaf w)|]. intros j Hj.
    apply wp_bind. eapply wp_mono; [by apply (ComputeBitValueOfExpr_fresh leaf w)|]. intros k Hk.
    eapply wp_mono; [by apply (SimplifyBinOp_spec leaf w t Hint Htw H64)|].
    intros r [_ Hr]. apply wp_ret. intros e' He'. destruct (Hr e' He') as [Hwf Hag]. split; [done|].
    apply (agree_all_ones w); [lia|apply denote_range; lia|apply denote_range; lia|by rewrite Ef]. }
  destruct e as [t0 c|op t0 a b|n t0]; cbn [GetPrimType] in Et; subst t0;
    [apply wp_ret, wp_ret; discriminate| |apply wp_ret, wp_ret; discriminate].
  destruct op; (by eapply Hcase) || (apply wp_ret, wp_ret; discriminate).
Qed.

(** (x & 12) & 15 is x & 12: the bits that 15 clears are known to be clear. *)
Definition x_and_12_and_15 : MeExpr :=
  OpMeExpr OP_band PTY_u32 x_and_12 (ConstMeExpr PTY_u32 (repr 32 false 15)).

Lemma simplify_by_demanded_bits_witness :
  @SimplifyMultiUseByDemanded false x_and_12_and_15 = Ret (Some x_and_12) /\
  denote (fun _ => 77) 32 x_and_12 = denote (fun _ => 77) 32 x_and_12_and_15.
Proof.
  assert (@SimplifyMultiUseByDemanded false x_and_12_and_15 = Ret (Some x_and_12)) as E by (vm_compute; reflexivity).
  split; [exact E|].
  assert (wf_expr x_and_12_and_15) as He by (repeat split; by apply repr_wf, valid_32).
  pose proof (simplify_by_demanded_bits (fun _ => 77) (H := false) x_and_12_and_15 eq_refl
    ltac:(discriminate) ltac:(vm_compute; discriminate) He) as Hs.
  rewrite E in Hs. exact (proj2 (Hs _ eq_refl)).
Defined.

(** The 128-bit mask of demanded bits is made from a 64-bit constant: the high
    half is not demanded, and [x & (2^64 - 1)] is replaced by [x]. *)
Definition x_and_low64 : MeExpr :=
  OpMeExpr OP_band PTY_u128 (OtherMeExpr 0 PTY_u128) (ConstMeExpr PTY_u128 (repr 128 false (2 ^ 64 - 1))).

Example demanded_bits_u128 :
  @SimplifyMultiUseByDemanded false x_and_low64 = Ret (Some (OtherMeExpr 0 PTY_u128)) /\
  denote (fun _ => 2 ^ 64) 128 x_and_low64 <> denote (fun _ => 2 ^ 64) 128 (OtherMeExpr 0 PTY_u128).
Proof. split; [reflexivity|]. vm_compute. discriminate. Qed.

(** ComputeBitValueOfExpr stores the known bits of the second operand where it
    stored those of the first: of [1 | 2] only bit 1 is known. *)
Example known_bits_of_first_operand_lost :
  (k0 ← BitValue_width 8;
   k ← ComputeBitValueOfExpr (OpMeExpr OP_bior PTY_u8 (ConstMeExpr PTY_u8 (repr 8 false 1))
         (ConstMeExpr PTY_u8 (repr 8 false 2))) (repr 8 false (-1)) k0;
   Ret (uval (zeroBits k), uval (oneBits k))) = Ret (0, 2).
Proof. reflexivity. Qed.
