(* ===== verification/UnionFind.v ===== *)
(** * Union-find: weighted quick union with path halving

    maple_me/include/union_find.h.  The two vectors are lists of unsigned ints;
    an access outside a vector is a fault.  The loop of [Root] has a fuel
    argument, the iterations it may still make. *)
From S2P Require Import Prelude.

Record UnionFind : Set := MkUnionFind {
  num : Z;                      (* the population size *)
  rootIDs : list Z;
  sizeOfClass : list Z
}.

Definition rdz (ws : list Z) (i : Z) : res Z := rd ws (Z.to_nat i).
Definition wrz (ws : list Z) (i x : Z) : res (list Z) := wr ws (Z.to_nat i) x.

(** UnionFind(MemPool &), UnionFind(MemPool &, uint32 siz) and Reinit *)
Definition UnionFind_empty : UnionFind := MkUnionFind 0 [] [].

Definition Reinit (x : UnionFind) : res UnionFind :=
  r ← for_up (Z.to_nat (num x)) 0 (fun i st =>
        roots ← wr (fst st) i (Z.of_nat i);
        sizes ← wr (snd st) i 1;
        Ret (roots, sizes)) (rootIDs x, sizeOfClass x);
  Ret (MkUnionFind (num x) (fst r) (snd r)).

Definition UnionFind_sized (siz : Z) : res UnionFind :=
  Reinit (MkUnionFind siz (replicate (Z.to_nat siz) 0) (replicate (Z.to_nat siz) 0)).

(** The debug check of the destructor *)
Definition sum_of_roots (x : UnionFind) : res Z :=
  for_up (Z.to_nat (num x)) 0 (fun i sum =>
    r ← rd (rootIDs x) i;
    if r =? Z.of_nat i then s ← rd (sizeOfClass x) i; Ret (sum + s) else Ret sum) 0.

(** unsigned int NewMember(), with its result *)
Definition NewMember (x : UnionFind) : UnionFind * Z :=
  let n := wrap 32 (num x + 1) in
  (MkUnionFind n (rootIDs x ++ [num x]) (sizeOfClass x ++ [1]), n).

(** unsigned int NewMember(size_t id) *)
Definition NewMember_id (x : UnionFind) (id : Z) : res (UnionFind * Z) :=
  let oldSize := Z.of_nat (length (rootIDs x)) in
  if oldSize <=? wrap 64 (id + 1) then
    let incNum := wrap 32 (wrap 64 (id + 2 - oldSize)) in
    let n := wrap 32 (num x + incNum) in
    let roots := rootIDs x ++ replicate (Z.to_nat incNum) 0 in
    let sizes := sizeOfClass x ++ replicate (Z.to_nat incNum) 1 in
    roots ← for_up (length roots - length (rootIDs x)) (length (rootIDs x))
              (fun i roots => wr roots i (wrap 32 (Z.of_nat i))) roots;
    Ret (MkUnionFind n roots sizes, n)
  else Ret (x, num x).

(** while (rootIDs[i] != i) { rootIDs[i] = rootIDs[rootIDs[i]]; i = rootIDs[i]; } *)
Fixpoint Root_loop (fuel : nat) (roots : list Z) (i : Z) : res (list Z * Z) :=
  r ← rdz roots i;
  if r =? i then Ret (roots, i)
  else
    match fuel with
    | O => Fault OutOfFuel
    | S fuel' =>
        rr ← rdz roots r;
        roots ← wrz roots i rr;
        i' ← rdz roots i;
        Root_loop fuel' roots i'
    end.

(** The iterations allowed: the binary logarithm of the population. *)
Definition root_fuel (x : UnionFind) : nat := Z.to_nat (Z.log2 (num x)).

Definition Root (x : UnionFind) (i : Z) : res (UnionFind * Z) :=
  r ← Root_loop (root_fuel x) (rootIDs x) i;
  Ret (MkUnionFind (num x) (fst r) (sizeOfClass x), snd r).

Definition Find (x : UnionFind) (p q : Z) : res (UnionFind * bool) :=
  r ← Root x p;
  s ← Root (fst r) q;
  Ret (fst s, snd r =? snd s).

Definition Union (x : UnionFind) (p q : Z) : res UnionFind :=
  r ← Root x p;
  let '(x, i) := r in
  r ← Root x q;
  let '(x, j) := r in
  if i =? j then Ret x
  else
    si ← rdz (sizeOfClass x) i;
    sj ← rdz (sizeOfClass x) j;
    if si <? sj then
      roots ← wrz (rootIDs x) i j;
      sizes ← wrz (sizeOfClass x) j (wrap 32 (sj + si));
      Ret (MkUnionFind (num x) roots sizes)
    else
      roots ← wrz (rootIDs x) j i;
      sizes ← wrz (sizeOfClass x) i (wrap 32 (si + sj));
      Ret (MkUnionFind (num x) roots sizes).

Definition GetElementsNumber (x : UnionFind) (i : Z) : res Z :=
  _ ← ASSERT (i <? Z.of_nat (length (sizeOfClass x)));
  rdz (sizeOfClass x) i.

Definition SingleMemberClass (x : UnionFind) (p : Z) : res (UnionFind * bool) :=
  r ← Root x p;
  let '(x, i) := r in
  _ ← ASSERT (i <? Z.of_nat (length (sizeOfClass x)));
  s ← rdz (sizeOfClass x) i;
  Ret (x, s =? 1).

(** bool Find(size_t id) const *)
Definition Find_id (x : UnionFind) (id : Z) : bool := id <? Z.of_nat (length (rootIDs x)).
