(* ===== verification/UnionFindFacts.v ===== *)
(** * Union-find maintains a partition

    The parent vector is a forest in which the size recorded for a member at
    least doubles from a member to its parent.  Hence [Root] needs at most
    log2(population) iterations, path halving and union keep the forest, and
    the classes are those of the least equivalence that contains the pairs
    that were united. *)
From stdpp Require Import relations.
From S2P Require Import Prelude.
From S2P Require Import UnionFind.

Definition par (ws : list Z) (i : Z) : Z := ws.[Z.to_nat i].

Lemma par_insert_eq ws i v : 0 <= i < Z.of_nat (length ws) -> par (<[Z.to_nat i := v]> ws) i = v.
Proof. intros. apply at_insert_eq. lia. Qed.
Lemma par_insert_ne ws i j v : 0 <= i -> 0 <= j -> i <> j -> par (<[Z.to_nat i := v]> ws) j = par ws j.
Proof. intros. apply at_insert_ne. lia. Qed.
Lemma wp_rdz ws i (Q : Z -> Prop) : 0 <= i < Z.of_nat (length ws) -> Q (par ws i) -> wp (rdz ws i) Q.
Proof. intros. apply wp_rd; [lia|done]. Qed.
Lemma wp_wrz ws i v (Q : list Z -> Prop) :
  0 <= i < Z.of_nat (length ws) -> Q (<[Z.to_nat i := v]> ws) -> wp (wrz ws i v) Q.
Proof. intros. apply wp_wr; [lia|done]. Qed.

(** ** Forests *)

Inductive root_of (roots : list Z) : Z -> Z -> Prop :=
  | root_here i : par roots i = i -> root_of roots i i
  | root_step i r : par roots i <> i -> root_of roots (par roots i) r -> root_of roots i r.

Record forest (n : Z) (roots sizes : list Z) : Prop := {
  forest_roots : Z.of_nat (length roots) = n;
  forest_sizes : Z.of_nat (length sizes) = n;
  forest_par i : 0 <= i < n -> 0 <= par roots i < n;
  forest_size i : 0 <= i < n -> 1 <= par sizes i <= n;
  forest_grow i : 0 <= i < n -> par roots i <> i -> 2 * par sizes i <= par sizes (par roots i)
}.

Lemma root_of_det roots i r r' : root_of roots i r -> root_of roots i r' -> r = r'.
Proof.
  intros H. revert r'. induction H as [i Hi|i r Hi H IH]; intros r' H'; inversion H'; subst; congruence || auto.
Qed.

Lemma root_of_root roots i r : root_of roots i r -> par roots r = r.
Proof. by induction 1. Qed.

Section Forest.
Context (n : Z) (roots sizes : list Z) (HF : forest n roots sizes).

Lemma root_total i : 0 <= i < n -> exists r, root_of roots i r.
Proof using HF.
  intros Hi. remember (Z.to_nat (n - par sizes i)) as k eqn:Ek. revert i Hi Ek.
  induction (lt_wf k) as [k _ IH]. intros i Hi Ek.
  destruct (decide (par roots i = i)) as [E|E]; [exists i; by apply root_here|].
  pose proof (forest_par _ _ _ HF i Hi) as Hp. pose proof (forest_size _ _ _ HF i Hi).
  pose proof (forest_size _ _ _ HF _ Hp). pose proof (forest_grow _ _ _ HF i Hi E).
  destruct (IH (Z.to_nat (n - par sizes (par roots i))) ltac:(lia) _ Hp eq_refl) as [r Hr].
  exists r. by apply root_step.
Qed.

Lemma root_range i r : 0 <= i < n -> root_of roots i r -> 0 <= r < n.
Proof using HF.
  intros Hi H. induction H as [i Hr|i r Hr H IH]; [done|]. apply IH. by apply (forest_par _ _ _ HF).
Qed.

(** The grandparent is at least as large as the parent. *)
Lemma grandparent i :
  0 <= i < n -> par roots i <> i ->
  2 * par sizes i <= par sizes (par roots (par roots i)) /\ par roots (par roots i) <> i.
Proof using HF.
  intros Hi Hne. pose proof (forest_par _ _ _ HF i Hi) as Hp.
  pose proof (forest_grow _ _ _ HF i Hi Hne). pose proof (forest_size _ _ _ HF i Hi).
  pose proof (forest_size _ _ _ HF _ Hp).
  destruct (decide (par roots (par roots i) = par roots i)) as [E|E].
  - rewrite E. done.
  - pose proof (forest_grow _ _ _ HF _ Hp E). split; [lia|]. intros E'. rewrite E' in *. lia.
Qed.

(** ** Path halving *)
Section Halve.
Context (i : Z) (Hi : 0 <= i < n) (Hne : par roots i <> i).
Let roots' : list Z := <[Z.to_nat i := par roots (par roots i)]> roots.

Lemma halve_par j : 0 <= j < n -> par roots' j = if j =? i then par roots (par roots i) else par roots j.
Proof using HF Hi.
  intros Hj. pose proof (forest_roots _ _ _ HF). subst roots'. destruct (Z.eqb_spec j i) as [->|].
  - apply par_insert_eq. lia.
  - apply par_insert_ne; lia.
Qed.

Lemma halve_forest : forest n roots' sizes.
Proof using HF Hi Hne.
  pose proof HF as [H1 H2 H3 H4 H5]. destruct (grandparent i Hi Hne) as [Hg Hgi].
  split; [unfold roots'; by rewrite length_insert|done| |done|].
  - intros j Hj. rewrite halve_par by done. destruct (j =? i); auto.
  - intros j Hj. rewrite halve_par by done. destruct (Z.eqb_spec j i) as [->|]; auto.
Qed.

Lemma halve_root_of_1 x r : 0 <= x < n -> root_of roots x r -> root_of roots' x r.
Proof using HF Hi Hne.
  intros Hx H. pose proof (forest_par _ _ _ HF i Hi) as Hp. destruct (grandparent i Hi Hne) as [_ Hgi].
  induction H as [x Hr|x r Hr H IH].
  - apply root_here. rewrite halve_par by done. destruct (Z.eqb_spec x i) as [->|]; [done|done].
  - specialize (IH (forest_par _ _ _ HF x Hx)). destruct (decide (x = i)) as [->|Hxi].
    + apply root_step; [rewrite halve_par, Z.eqb_refl by done; done|].
      rewrite halve_par, Z.eqb_refl by done.
      inversion IH as [? E|? ? E Hs]; subst.
      * rewrite halve_par in E by done. destruct (Z.eqb_spec (par roots i) i); [done|].
        by rewrite E.
      * rewrite halve_par in Hs by done. by destruct (Z.eqb_spec (par roots i) i).
    + apply root_step; rewrite halve_par by done; by destruct (Z.eqb_spec x i).
Qed.

Lemma halve_root_of x r : 0 <= x < n -> root_of roots' x r <-> root_of roots x r.
Proof using HF Hi Hne.
  intros Hx. split; [|by apply halve_root_of_1]. intros H.
  destruct (root_total x Hx) as [r0 H0].
  by rewrite (root_of_det _ _ _ _ H (halve_root_of_1 x r0 Hx H0)).
Qed.
End Halve.
End Forest.

(** ** Root *)

Lemma Root_loop_spec n sizes fuel roots i :
  forest n roots sizes -> 0 <= i < n -> n < par sizes i * 2 ^ Z.of_nat (S fuel) ->
  wp (Root_loop fuel roots i) (fun r =>
    forest n (fst r) sizes /\ root_of roots i (snd r) /\
    forall x y, 0 <= x < n -> root_of (fst r) x y <-> root_of roots x y).
Proof.
  revert roots i. induction fuel as [|fuel IH]; intros roots i HF Hi Hfuel; cbn [Root_loop];
    pose proof HF as [H1 H2 H3 H4 H5];
    (apply wp_bind, wp_rdz; [lia|]); destruct (Z.eqb_spec (par roots i) i) as [E|E].
  - apply wp_ret. cbn [fst snd]. split; [done|]. split; [by apply root_here|done].
  - exfalso. pose proof (H5 i Hi E). pose proof (H4 _ (H3 i Hi)). change (2 ^ Z.of_nat 1) with 2 in Hfuel. lia.
  - apply wp_ret. cbn [fst snd]. split; [done|]. split; [by apply root_here|done].
  - pose proof (H3 i Hi) as Hp. apply wp_bind, wp_rdz; [lia|]. apply wp_bind, wp_wrz; [lia|].
    destruct (grandparent n roots sizes HF i Hi E) as [Hg Hgi].
    pose proof (halve_forest n roots sizes HF i Hi E) as HF'.
    pose proof (halve_root_of n roots sizes HF i Hi E) as Hsame.
    set (roots' := <[_ := _]> roots) in *. apply wp_bind, wp_rdz; [rewrite (forest_roots _ _ _ HF'); lia|].
    assert (par roots' i = par roots (par roots i)) as Ei by (apply par_insert_eq; lia).
    rewrite Ei. eapply wp_mono; [apply IH; [done|by apply H3|]|].
    + eapply Z.lt_le_trans; [exact Hfuel|]. rewrite (Nat2Z.inj_succ (S fuel)), Z.pow_succ_r by lia.
      pose proof (pow2_pos (Z.of_nat (S fuel)) ltac:(lia)). nia.
    + intros r (HFr & Hroot & Hr). split; [done|]. split.
      * apply Hsame; [done|]. apply root_step; rewrite Ei; done.
      * intros x y Hx. rewrite Hr, Hsame by done. done.
Qed.

(** ** Classes *)

Lemma filter_ext_in (P Q : Z -> Prop) `{forall x, Decision (P x), forall x, Decision (Q x)} (l : list Z) :
  (forall x, x ∈ l -> P x <-> Q x) -> filter P l = filter Q l.
Proof.
  induction l as [|x l IH]; intros Hl; [done|]. setoid_rewrite elem_of_cons in Hl.
  rewrite !filter_cons, IH by auto. pose proof (Hl x ltac:(auto)). repeat case_decide; tauto.
Qed.

Lemma length_filter_or (P Q R : Z -> Prop)
    `{forall x, Decision (P x), forall x, Decision (Q x), forall x, Decision (R x)} (l : list Z) :
  (forall x, x ∈ l -> (R x <-> P x \/ Q x) /\ ~ (P x /\ Q x)) ->
  length (filter R l) = (length (filter P l) + length (filter Q l))%nat.
Proof.
  induction l as [|x l IH]; intros Hl; [done|]. setoid_rewrite elem_of_cons in Hl.
  rewrite !filter_cons. pose proof (Hl x ltac:(auto)).
  repeat case_decide; cbn [length]; rewrite IH by auto; tauto || lia.
Qed.

(** The root as a function. *)
Fixpoint chase (fuel : nat) (roots : list Z) (i : Z) : Z :=
  if par roots i =? i then i
  else match fuel with O => i | S fuel => chase fuel roots (par roots i) end.
Definition rep (roots : list Z) (i : Z) : Z := chase (length roots) roots i.

Lemma rep_root n roots sizes i : forest n roots sizes -> 0 <= i < n -> root_of roots i (rep roots i).
Proof.
  intros HF Hi. unfold rep.
  assert (n - par sizes i < Z.of_nat (S (length roots))) as Hfuel.
  { pose proof (forest_roots _ _ _ HF). pose proof (forest_size _ _ _ HF i Hi). lia. }
  revert i Hi Hfuel. induction (length roots) as [|k IH]; intros i Hi Hfuel; cbn [chase];
    (destruct (Z.eqb_spec (par roots i) i) as [E|E]; [by apply root_here|]);
    pose proof (forest_par _ _ _ HF i Hi) as Hp; pose proof (forest_grow _ _ _ HF i Hi E);
    pose proof (forest_size _ _ _ HF i Hi); pose proof (forest_size _ _ _ HF _ Hp); [lia|].
  apply root_step; [done|]. apply IH; [done|lia].
Qed.

Lemma rep_iff n roots sizes i r : forest n roots sizes -> 0 <= i < n -> rep roots i = r <-> root_of roots i r.
Proof.
  intros HF Hi. pose proof (rep_root n roots sizes i HF Hi) as H. split; [by intros <-|].
  intros H'. by apply (root_of_det roots i).
Qed.

Definition members (roots : list Z) : list Z := seqZ 0 (Z.of_nat (length roots)).
Definition class_of (roots : list Z) (r : Z) : list Z := filter (fun x => rep roots x = r) (members roots).
Definition class_size (roots : list Z) (r : Z) : Z := Z.of_nat (length (class_of roots r)).

Lemma elem_of_members roots x : x ∈ members roots <-> 0 <= x < Z.of_nat (length roots).
Proof. unfold members. rewrite elem_of_seqZ. lia. Qed.

Lemma length_members roots : length (members roots) = length roots.
Proof. unfold members. rewrite length_seqZ. lia. Qed.

(** ** The invariant *)

Record uf_inv (x : UnionFind) : Prop := {
  inv_num : num x < 2 ^ 32;
  inv_forest : forest (num x) (rootIDs x) (sizeOfClass x);
  inv_sizes r : 0 <= r < num x -> par (rootIDs x) r = r ->
    par (sizeOfClass x) r = class_size (rootIDs x) r
}.

(** Members [a] and [b] are in one class. *)
Definition same_class (x : UnionFind) (a b : Z) : Prop :=
  0 <= a < num x /\ 0 <= b < num x /\ rep (rootIDs x) a = rep (rootIDs x) b.

Lemma class_size_ext n roots roots' sizes sizes' r :
  forest n roots sizes -> forest n roots' sizes' ->
  (forall a, 0 <= a < n -> root_of roots' a r <-> root_of roots a r) ->
  class_size roots' r = class_size roots r.
Proof.
  intros HF HF' Hsame. unfold class_size, class_of, members. do 2 f_equal.
  rewrite (forest_roots _ _ _ HF), (forest_roots _ _ _ HF').
  apply filter_ext_in. intros a Ha. apply elem_of_seqZ in Ha.
  rewrite (rep_iff n roots' sizes'), (rep_iff n roots sizes) by (done || lia). apply Hsame. lia.
Qed.

(** ** Union: the root [i] is linked below the root [j], which is as large *)
Section Link.
Context (n : Z) (roots sizes : list Z) (HF : forest n roots sizes).
Context (i j : Z) (Hi : 0 <= i < n) (Hj : 0 <= j < n) (Hij : i <> j).
Context (Ri : par roots i = i) (Rj : par roots j = j).
Context (Hle : par sizes i <= par sizes j) (Hsum : par sizes i + par sizes j <= n).
Let roots' : list Z := <[Z.to_nat i := j]> roots.
Let sizes' : list Z := <[Z.to_nat j := par sizes i + par sizes j]> sizes.

Lemma link_par a : 0 <= a < n -> par roots' a = if a =? i then j else par roots a.
Proof using All.
  intros Ha. pose proof (forest_roots _ _ _ HF). subst roots'. destruct (Z.eqb_spec a i) as [->|].
  - apply par_insert_eq. lia.
  - apply par_insert_ne; lia.
Qed.

Lemma link_size a : 0 <= a < n -> par sizes' a = if a =? j then par sizes i + par sizes j else par sizes a.
Proof using All.
  intros Ha. pose proof (forest_sizes _ _ _ HF). subst sizes'. destruct (Z.eqb_spec a j) as [->|].
  - apply par_insert_eq. lia.
  - apply par_insert_ne; lia.
Qed.

Lemma link_forest : forest n roots' sizes'.
Proof using All.
  pose proof HF as [H1 H2 H3 H4 H5]. pose proof (H4 i Hi). pose proof (H4 j Hj).
  split; [unfold roots'; by rewrite length_insert|unfold sizes'; by rewrite length_insert| | |].
  - intros a Ha. rewrite link_par by done. destruct (a =? i); auto.
  - intros a Ha. rewrite link_size by done. pose proof (H4 a Ha). destruct (a =? j); lia.
  - intros a Ha. rewrite link_par by done. destruct (Z.eqb_spec a i) as [->|Hai]; intros Hp.
    + rewrite !link_size by done. rewrite Z.eqb_refl. destruct (Z.eqb_spec i j); [done|lia].
    + pose proof (H5 a Ha Hp). rewrite !link_size by auto.
      destruct (Z.eqb_spec a j) as [->|]; [done|].
      destruct (Z.eqb_spec (par roots a) j) as [E|]; [rewrite E in *|]; lia.
Qed.

Lemma link_root_of a r : 0 <= a < n -> root_of roots a r -> root_of roots' a (if r =? i then j else r).
Proof using All.
  intros Ha H. induction H as [a Hr|a r Hr H IH].
  - destruct (Z.eqb_spec a i) as [->|Hne].
    + apply root_step; rewrite link_par, Z.eqb_refl by done; [done|].
      apply root_here. rewrite link_par by done. by destruct (Z.eqb_spec j i).
    + apply root_here. rewrite link_par by done. by destruct (Z.eqb_spec a i).
  - assert (a <> i) as Hne by congruence.
    apply root_step; rewrite link_par by done; destruct (Z.eqb_spec a i); try done.
    apply IH. by apply (forest_par _ _ _ HF).
Qed.

Lemma link_rep a : 0 <= a < n -> rep roots' a = if rep roots a =? i then j else rep roots a.
Proof using All.
  intros Ha. apply (rep_iff n _ _ _ _ link_forest Ha). apply link_root_of; [done|].
  by apply (rep_root n roots sizes).
Qed.

Lemma link_class_size r :
  (r <> i -> r <> j -> class_size roots' r = class_size roots r) /\
  class_size roots' j = class_size roots i + class_size roots j.
Proof using All.
  unfold class_size, class_of, members.
  rewrite (forest_roots _ _ _ HF), (forest_roots _ _ _ link_forest). split.
  - intros Hri Hrj. do 2 f_equal. apply filter_ext_in. intros a Ha. apply elem_of_seqZ in Ha.
    rewrite link_rep by lia. destruct (Z.eqb_spec (rep roots a) i); [|done]. split; congruence.
  - rewrite <- Nat2Z.inj_add. f_equal. apply length_filter_or. intros a Ha. apply elem_of_seqZ in Ha.
    rewrite link_rep by lia. destruct (Z.eqb_spec (rep roots a) i); split; tauto || congruence || intuition congruence.
Qed.
End Link.

(** Two classes together are no larger than the population. *)
Lemma two_classes n roots sizes i j :
  forest n roots sizes -> i <> j -> class_size roots i + class_size roots j <= n.
Proof.
  intros HF Hij. pose proof (forest_roots _ _ _ HF) as Hl. unfold class_size, class_of.
  rewrite <- Nat2Z.inj_add. rewrite <- (length_filter_or _ _ (fun x => rep roots x = i \/ rep roots x = j)).
  - pose proof (length_filter (fun x => rep roots x = i \/ rep roots x = j) (members roots)) as H.
    rewrite length_members in H. lia.
  - intros a _. split; [done|]. intros [-> ?]. done.
Qed.

(** ** The operations *)

Lemma root_fuel_enough x i :
  uf_inv x -> 0 <= i < num x -> num x < par (sizeOfClass x) i * 2 ^ Z.of_nat (S (root_fuel x)).
Proof.
  intros [_ HF _] Hi. pose proof (forest_size _ _ _ HF i Hi). unfold root_fuel.
  rewrite Nat2Z.inj_succ, Z2Nat.id by apply Z.log2_nonneg.
  pose proof (Z.log2_spec (num x) ltac:(lia)). pose proof (pow2_pos (Z.succ (Z.log2 (num x)))). 
  pose proof (Z.log2_nonneg (num x)). nia.
Qed.

(** A state with the same population, sizes and classes. *)
Definition compressed (x x' : UnionFind) : Prop :=
  uf_inv x' /\ num x' = num x /\ sizeOfClass x' = sizeOfClass x /\
  forall a, 0 <= a < num x -> rep (rootIDs x') a = rep (rootIDs x) a.

Lemma compressed_same_class x x' a b : compressed x x' -> same_class x' a b <-> same_class x a b.
Proof.
  intros (_ & En & _ & Hrep). unfold same_class. rewrite En. split; intros (Ha & Hb & E).
  - by rewrite !Hrep in E.
  - by rewrite !Hrep.
Qed.

Lemma Root_spec x i :
  uf_inv x -> 0 <= i < num x ->
  wp (Root x i) (fun r => compressed x (fst r) /\ snd r = rep (rootIDs x) i /\ 0 <= snd r < num x /\
    par (rootIDs (fst r)) (snd r) = snd r).
Proof.
  intros Hx Hi. pose proof Hx as [Hn HF Hs]. unfold Root. apply wp_bind.
  eapply wp_mono; [apply (Root_loop_spec (num x) (sizeOfClass x)); [done|done|by apply root_fuel_enough]|].
  intros [roots r] (HF' & Hroot & Hsame). cbn [fst snd] in *. apply wp_ret. cbn [fst snd rootIDs].
  assert (forall a, 0 <= a < num x -> rep roots a = rep (rootIDs x) a) as Hrep.
  { intros a Ha. apply (rep_iff _ _ _ _ _ HF' Ha), Hsame; [done|]. by apply (rep_root _ _ _ _ HF). }
  assert (par roots r = r) as Hr.
  { apply (root_of_root roots i). by apply Hsame. }
  split; [split; [|done]|].
  - split; cbn [num rootIDs sizeOfClass]; [done|done|]. intros r' Hr' Hp.
    rewrite Hs; [|done|].
    + symmetry. by apply (class_size_ext (num x) _ _ (sizeOfClass x) (sizeOfClass x)); auto.
    + apply (root_of_root (rootIDs x) r'). apply Hsame; [done|]. by apply root_here.
  - split; [symmetry; by apply (rep_iff _ _ _ _ _ HF Hi)|]. split; [|done].
    by apply (root_range _ _ _ HF i).
Qed.

Lemma Find_spec x p q :
  uf_inv x -> 0 <= p < num x -> 0 <= q < num x ->
  wp (Find x p q) (fun r => compressed x (fst r) /\ (snd r = true <-> same_class x p q)).
Proof.
  intros Hx Hp Hq. unfold Find. apply wp_bind. eapply wp_mono; [by apply Root_spec|].
  intros [x1 r] (Hc1 & Er & _ & _). cbn [fst snd] in *. pose proof Hc1 as (Hx1 & En1 & Es1 & Hrep1).
  apply wp_bind. eapply wp_mono; [apply Root_spec; [done|by rewrite En1]|].
  intros [x2 s] (Hc2 & Es & _ & _). cbn [fst snd] in *. apply wp_ret. cbn [fst snd].
  destruct Hc2 as (Hx2 & En2 & Es2 & Hrep2). split.
  - split; [done|]. split; [congruence|]. split; [congruence|]. intros a Ha.
    rewrite Hrep2 by lia. by apply Hrep1.
  - rewrite Z.eqb_eq, Er, Es, Hrep1 by done. unfold same_class. tauto.
Qed.

(** Linking two distinct roots, on the whole state. *)
Lemma link_state x i j :
  uf_inv x -> 0 <= i < num x -> 0 <= j < num x -> i <> j ->
  par (rootIDs x) i = i -> par (rootIDs x) j = j ->
  par (sizeOfClass x) i <= par (sizeOfClass x) j ->
  wp (roots ← wrz (rootIDs x) i j;
      sizes ← wrz (sizeOfClass x) j (wrap 32 (par (sizeOfClass x) j + par (sizeOfClass x) i));
      Ret (MkUnionFind (num x) roots sizes))
    (fun x' => uf_inv x' /\ num x' = num x /\ forall a, 0 <= a < num x ->
       rep (rootIDs x') a = if rep (rootIDs x) a =? i then j else rep (rootIDs x) a).
Proof.
  intros [Hn HF Hs] Hi Hj Hij Ri Rj Hle. pose proof (forest_roots _ _ _ HF). pose proof (forest_sizes _ _ _ HF).
  pose proof (Hs i Hi Ri) as Ei. pose proof (Hs j Hj Rj) as Ej.
  pose proof (two_classes _ _ _ i j HF Hij) as Hsum. rewrite <- Ei, <- Ej in Hsum.
  pose proof (forest_size _ _ _ HF i Hi). pose proof (forest_size _ _ _ HF j Hj).
  apply wp_bind, wp_wrz; [lia|]. rewrite wrap_small, Z.add_comm by lia. apply wp_bind, wp_wrz; [lia|].
  pose proof (link_forest (num x) _ _ HF i j Hi Hj Hij Ri Rj Hle Hsum) as HF'.
  apply wp_ret. split; [|split; [done|]].
  - split; cbn [num rootIDs sizeOfClass]; [done|done|]. intros r Hr Hp.
    rewrite (link_par _ _ _ HF i j) in Hp by done. rewrite (link_size _ _ _ HF i j) by done.
    destruct (link_class_size (num x) _ _ HF i j Hi Hj Hij Ri Rj Hle Hsum r) as [Hother Hboth].
    destruct (Z.eqb_spec r i) as [->|Hri]; [congruence|].
    destruct (Z.eqb_spec r j) as [->|Hrj]; [rewrite Hboth; lia|]. rewrite Hother by done. by apply Hs.
  - intros a Ha. cbn [rootIDs]. by apply (link_rep (num x) _ _ HF i j Hi Hj Hij Ri Rj Hle Hsum).
Qed.

(** One class renamed to another is the union of the two. *)
Lemma merged_state x x' p q :
  num x' = num x -> 0 <= p < num x -> 0 <= q < num x ->
  (forall c, 0 <= c < num x -> rep (rootIDs x') c =
     if rep (rootIDs x) c =? rep (rootIDs x) p then rep (rootIDs x) q else rep (rootIDs x) c) ->
  forall a b, same_class x' a b <->
    same_class x a b \/ (same_class x a p /\ same_class x b q) \/ (same_class x a q /\ same_class x b p).
Proof.
  intros En Hp Hq Hrep a b. unfold same_class. rewrite En. split.
  - intros (Ha & Hb & E). rewrite !Hrep in E by done. revert E.
    destruct (Z.eqb_spec (rep (rootIDs x) a) (rep (rootIDs x) p)),
      (Z.eqb_spec (rep (rootIDs x) b) (rep (rootIDs x) p)); intros E; intuition congruence.
  - intros H. assert (0 <= a < num x /\ 0 <= b < num x) as [Ha Hb] by tauto.
    split; [done|]. split; [done|]. rewrite !Hrep by done.
    destruct (Z.eqb_spec (rep (rootIDs x) a) (rep (rootIDs x) p)),
      (Z.eqb_spec (rep (rootIDs x) b) (rep (rootIDs x) p)); intuition congruence.
Qed.

Lemma Union_spec x p q :
  uf_inv x -> 0 <= p < num x -> 0 <= q < num x ->
  wp (Union x p q) (fun x' => uf_inv x' /\ num x' = num x /\ forall a b,
    same_class x' a b <->
    same_class x a b \/ (same_class x a p /\ same_class x b q) \/ (same_class x a q /\ same_class x b p)).
Proof.
  intros Hx Hp Hq. unfold Union. apply wp_bind. eapply wp_mono; [by apply Root_spec|].
  intros [x1 i] (Hc1 & Ei & Hi & Ri). cbn [fst snd] in *. pose proof Hc1 as (Hx1 & En1 & _ & Hrep1).
  apply wp_bind. eapply wp_mono; [apply Root_spec; [done|by rewrite En1]|].
  intros [x2 j] (Hc2 & Ej & Hj & Rj). cbn [fst snd] in *. pose proof Hc2 as (Hx2 & En2 & Es2 & Hrep2).
  rewrite Hrep1 in Ej by done. rewrite En1 in *.
  assert (forall a, 0 <= a < num x -> rep (rootIDs x2) a = rep (rootIDs x) a) as Hrep.
  { intros a Ha. rewrite Hrep2 by lia. by apply Hrep1. }
  destruct (Z.eqb_spec i j) as [Eij|Hij].
  { apply wp_ret. split; [done|]. split; [done|]. intros a b. unfold same_class. rewrite En2.
    split; [intros (Ha & Hb & E); left; rewrite !Hrep in E by done; done|].
    intros H. assert (0 <= a < num x /\ 0 <= b < num x) as [Ha Hb] by tauto.
    split; [done|]. split; [done|]. rewrite !Hrep by done. intuition congruence. }
  assert (par (rootIDs x2) i = i) as Ri2.
  { assert (rep (rootIDs x2) p = i) as E by (rewrite Hrep; done).
    apply (root_of_root _ p). apply (rep_iff _ _ _ p i (inv_forest x2 Hx2)); [lia|done]. }
  pose proof (forest_sizes _ _ _ (inv_forest x2 Hx2)) as Hls. rewrite En2 in Hls.
  apply wp_bind, wp_rdz; [lia|]. apply wp_bind, wp_rdz; [lia|].
  destruct (Z.ltb_spec (par (sizeOfClass x2) i) (par (sizeOfClass x2) j)).
  - eapply wp_mono; [apply link_state; done || lia|]. intros x' (Hx' & En' & Hrep').
    split; [done|]. split; [congruence|]. apply (merged_state x x' p q); [congruence|done..|].
    intros c Hc. rewrite Hrep', Hrep by lia. by rewrite <- Ei, <- Ej.
  - eapply wp_mono; [apply link_state; done || lia|]. intros x' (Hx' & En' & Hrep').
    split; [done|]. split; [congruence|]. intros a b.
    rewrite (merged_state x x' q p); [tauto|congruence|done..|].
    intros c Hc. rewrite Hrep', Hrep by lia. by rewrite <- Ei, <- Ej.
Qed.

(** ** New members *)

Lemma length_filter_none (P : Z -> Prop) `{forall x, Decision (P x)} (l : list Z) :
  (forall x, x ∈ l -> ~ P x) -> length (filter P l) = 0%nat.
Proof.
  induction l as [|x l IH]; intros Hl; [done|]. setoid_rewrite elem_of_cons in Hl.
  rewrite filter_cons_False by auto. auto.
Qed.

Lemma length_filter_all (P : Z -> Prop) `{forall x, Decision (P x)} (l : list Z) :
  (forall x, x ∈ l -> P x) -> length (filter P l) = length l.
Proof.
  induction l as [|x l IH]; intros Hl; [done|]. setoid_rewrite elem_of_cons in Hl.
  rewrite filter_cons_True by auto. cbn [length]. auto.
Qed.

Lemma length_filter_one (P : Z -> Prop) `{forall x, Decision (P x)} (l : list Z) r :
  NoDup l -> r ∈ l -> (forall x, x ∈ l -> P x <-> x = r) -> length (filter P l) = 1%nat.
Proof.
  induction 1 as [|x l Hx Hl IH]; intros Hr HP; [by apply elem_of_nil in Hr|].
  setoid_rewrite elem_of_cons in HP. apply elem_of_cons in Hr as [->|Hr].
  - rewrite filter_cons_True by (by apply HP; auto). cbn [length]. f_equal.
    apply length_filter_none. intros y Hy Hp. apply HP in Hp; [|auto]. by subst.
  - rewrite filter_cons_False; [by apply IH; auto|]. intros Hp. apply HP in Hp; [|auto]. by subst.
Qed.

Section Extend.
Context (x x' : UnionFind) (k : nat) (Hx : uf_inv x).
Context (Hn' : num x' = num x + Z.of_nat k) (Hb : num x' < 2 ^ 32).
Context (Hlr : Z.of_nat (length (rootIDs x')) = num x') (Hls : Z.of_nat (length (sizeOfClass x')) = num x').
Context (Hold : forall i, 0 <= i < num x ->
  par (rootIDs x') i = par (rootIDs x) i /\ par (sizeOfClass x') i = par (sizeOfClass x) i).
Context (Hnew : forall i, num x <= i < num x' -> par (rootIDs x') i = i /\ par (sizeOfClass x') i = 1).
Context (H0 : 0 <= num x).

Lemma extend_forest : forest (num x') (rootIDs x') (sizeOfClass x').
Proof using All.
  pose proof (inv_forest x Hx) as [H1 H2 H3 H4 H5]. split; [done|done| | |].
  - intros i Hi. destruct (decide (i < num x)).
    + rewrite (proj1 (Hold i ltac:(lia))). pose proof (H3 i). lia.
    + rewrite (proj1 (Hnew i ltac:(lia))). done.
  - intros i Hi. destruct (decide (i < num x)).
    + rewrite (proj2 (Hold i ltac:(lia))). pose proof (H4 i). lia.
    + rewrite (proj2 (Hnew i ltac:(lia))). lia.
  - intros i Hi Hp. destruct (decide (i < num x)).
    + rewrite (proj1 (Hold i ltac:(lia))) in *. rewrite (proj2 (Hold i ltac:(lia))).
      rewrite (proj2 (Hold (par (rootIDs x) i) ltac:(apply H3; lia))). by apply H5; [lia|].
    + by rewrite (proj1 (Hnew i ltac:(lia))) in Hp.
Qed.

Lemma extend_rep_old a : 0 <= a < num x -> rep (rootIDs x') a = rep (rootIDs x) a.
Proof using All.
  intros Ha. apply (rep_iff _ _ _ _ _ extend_forest); [lia|].
  pose proof (rep_root _ _ _ a (inv_forest x Hx) Ha) as H. revert Ha.
  induction H as [i Hr|i r Hr H IH]; intros Ha.
  - apply root_here. by rewrite (proj1 (Hold i Ha)).
  - apply root_step; rewrite (proj1 (Hold i Ha)); [done|]. apply IH.
    by apply (forest_par _ _ _ (inv_forest x Hx)).
Qed.

Lemma extend_rep_new a : num x <= a < num x' -> rep (rootIDs x') a = a.
Proof using All.
  intros Ha. apply (rep_iff _ _ _ _ _ extend_forest); [lia|]. apply root_here. by apply Hnew.
Qed.

Lemma rep_below a : 0 <= a < num x -> 0 <= rep (rootIDs x) a < num x.
Proof using Hx.
  intros Ha. apply (root_range _ _ _ (inv_forest x Hx) a); [done|].
  by apply (rep_root _ _ _ _ (inv_forest x Hx)).
Qed.

Lemma extend_inv : uf_inv x'.
Proof using All.
  split; [done|exact extend_forest|]. intros r Hr Hp. unfold class_size, class_of, members.
  rewrite Hlr, Hn', seqZ_app, filter_app, length_app, Nat2Z.inj_add, Z.add_0_l by lia.
  destruct (decide (r < num x)) as [Hlt|Hge].
  - rewrite (proj2 (Hold r ltac:(lia))). rewrite (proj1 (Hold r ltac:(lia))) in Hp.
    rewrite (inv_sizes x Hx r) by (done || lia). unfold class_size, class_of, members.
    rewrite (forest_roots _ _ _ (inv_forest x Hx)).
    rewrite (length_filter_none _ (seqZ (num x) _)).
    2:{ intros a Ha. apply elem_of_seqZ in Ha. rewrite extend_rep_new by lia. lia. }
    rewrite Z.add_0_r. do 2 f_equal. apply filter_ext_in. intros a Ha. apply elem_of_seqZ in Ha.
    by rewrite extend_rep_old by lia.
  - rewrite (proj2 (Hnew r ltac:(lia))). rewrite length_filter_none.
    2:{ intros a Ha. apply elem_of_seqZ in Ha. rewrite extend_rep_old by lia.
        pose proof (rep_below a ltac:(lia)). lia. }
    rewrite (length_filter_one _ _ r); [done|apply NoDup_seqZ|apply elem_of_seqZ; lia|].
    intros a Ha. apply elem_of_seqZ in Ha. by rewrite extend_rep_new by lia.
Qed.

(** The old classes are kept, the new members are alone. *)
Lemma extend_same_class a b :
  same_class x' a b <-> same_class x a b \/ (num x <= a < num x' /\ a = b).
Proof using All.
  unfold same_class. split.
  - intros (Ha & Hb' & E). destruct (decide (a < num x)), (decide (b < num x)).
    + rewrite !extend_rep_old in E by lia. left. lia.
    + rewrite extend_rep_old, extend_rep_new in E by lia. pose proof (rep_below a). lia.
    + rewrite extend_rep_new, extend_rep_old in E by lia. pose proof (rep_below b). lia.
    + rewrite !extend_rep_new in E by lia. right. lia.
  - intros [(Ha & Hb' & E)|[Ha <-]]; [|lia]. rewrite !extend_rep_old by lia. lia.
Qed.
End Extend.

Lemma empty_inv : uf_inv UnionFind_empty.
Proof. split; cbn [num UnionFind_empty]; [lia| |lia]. split; cbn; intros; lia || done. Qed.

Lemma par_app_l us vs i : 0 <= i < Z.of_nat (length us) -> par (us ++ vs) i = par us i.
Proof. intros. unfold par. apply app_nth1. lia. Qed.
Lemma par_app_r us vs i :
  Z.of_nat (length us) <= i -> par (us ++ vs) i = par vs (i - Z.of_nat (length us)).
Proof. intros. unfold par. rewrite app_nth2 by lia. f_equal. lia. Qed.

Lemma num_nonneg x : uf_inv x -> 0 <= num x.
Proof. intros Hx. pose proof (forest_roots _ _ _ (inv_forest x Hx)). lia. Qed.

(** A freshly sized structure. *)
Definition discrete (n : Z) (x : UnionFind) : Prop :=
  uf_inv x /\ num x = n /\ forall a b, same_class x a b <-> 0 <= a < n /\ a = b.

(** Reinit of vectors of the size of the population *)
Lemma Reinit_spec x :
  0 <= num x < 2 ^ 32 -> length (rootIDs x) = Z.to_nat (num x) -> length (sizeOfClass x) = Z.to_nat (num x) ->
  wp (Reinit x) (discrete (num x)).
Proof.
  intros Hs Hlr Hls. set (siz := num x) in *. unfold Reinit. fold siz.
  apply wp_bind. eapply wp_mono; [apply (wp_for_up (fun i st =>
    length (fst st) = Z.to_nat siz /\ length (snd st) = Z.to_nat siz /\
    forall k, (k < i)%nat -> (fst st).[k] = Z.of_nat k /\ (snd st).[k] = 1))|].
  - cbn [fst snd]. split; [done|]. split; [done|lia].
  - intros j [roots sizes] Hj (Hr & Hz & Hk). cbn [fst snd] in *.
    apply wp_bind, wp_wr; [lia|]. apply wp_bind, wp_wr; [lia|]. apply wp_ret. cbn [fst snd].
    rewrite !length_insert. split; [done|]. split; [done|]. intros k Hkj.
    destruct (decide (k = j)) as [->|]; [by rewrite !at_insert_eq by lia|].
    rewrite !at_insert_ne by lia. apply Hk. lia.
  - intros [roots sizes] (Hr & Hz & Hk). apply wp_ret. cbn [fst snd] in *.
    set (x' := MkUnionFind siz roots sizes).
    assert (forall i, num UnionFind_empty <= i < num x' -> par (rootIDs x') i = i /\ par (sizeOfClass x') i = 1) as Hnew.
    { cbn. intros i Hi. unfold par. destruct (Hk (Z.to_nat i) ltac:(lia)) as [-> ->]. split; [lia|done]. }
    assert (num x' = num UnionFind_empty + Z.of_nat (Z.to_nat siz)) as En by (cbn; lia).
    assert (Z.of_nat (length (rootIDs x')) = num x') as E1 by (cbn; lia).
    assert (Z.of_nat (length (sizeOfClass x')) = num x') as E2 by (cbn; lia).
    split; [|split; [done|]].
    + apply (extend_inv UnionFind_empty x' (Z.to_nat siz)); auto using empty_inv; cbn; lia.
    + intros a b. rewrite (extend_same_class UnionFind_empty x' (Z.to_nat siz)) by
        (auto using empty_inv; cbn; lia).
      unfold same_class. cbn. lia.
Qed.

Lemma UnionFind_sized_spec siz : 0 <= siz < 2 ^ 32 -> wp (UnionFind_sized siz) (discrete siz).
Proof.
  intros Hs. apply (Reinit_spec (MkUnionFind siz _ _)); cbn [num rootIDs sizeOfClass];
    [done|by rewrite length_replicate..].
Qed.

Lemma NewMember_spec x :
  uf_inv x -> num x + 1 < 2 ^ 32 ->
  let '(x', r) := NewMember x in
  uf_inv x' /\ num x' = num x + 1 /\ r = num x' /\
  forall a b, same_class x' a b <-> same_class x a b \/ (a = num x /\ a = b).
Proof.
  intros Hx Hb. pose proof (num_nonneg x Hx). pose proof (inv_forest x Hx) as HF.
  pose proof (forest_roots _ _ _ HF). pose proof (forest_sizes _ _ _ HF).
  unfold NewMember. rewrite wrap_small by lia. set (x' := MkUnionFind _ _ _).
  assert (forall i, 0 <= i < num x ->
    par (rootIDs x') i = par (rootIDs x) i /\ par (sizeOfClass x') i = par (sizeOfClass x) i) as Hold.
  { intros i Hi. unfold x'. cbn [rootIDs sizeOfClass]. by rewrite !par_app_l by lia. }
  assert (forall i, num x <= i < num x' -> par (rootIDs x') i = i /\ par (sizeOfClass x') i = 1) as Hnew.
  { unfold x'. cbn [rootIDs sizeOfClass num]. intros i Hi. rewrite !par_app_r by lia. replace i with (num x) by lia.
    replace (num x - Z.of_nat (length (rootIDs x))) with 0 by lia.
    replace (num x - Z.of_nat (length (sizeOfClass x))) with 0 by lia. done. }
  assert (num x' = num x + Z.of_nat 1) as En by (cbn; lia).
  assert (Z.of_nat (length (rootIDs x')) = num x') as E1 by (unfold x'; cbn [rootIDs sizeOfClass num]; rewrite length_app; cbn; lia).
  assert (Z.of_nat (length (sizeOfClass x')) = num x') as E2 by (unfold x'; cbn [rootIDs sizeOfClass num]; rewrite length_app; cbn; lia).
  split; [|split; [done|split; [done|]]].
  - apply (extend_inv x x' 1); auto.
  - intros a b. rewrite (extend_same_class x x' 1) by (auto; cbn; lia).
    assert (num x <= a < num x' <-> a = num x) as -> by (cbn; lia). done.
Qed.

(** NewMember(id) on an unknown id adds the members up to [id + 1]. *)
Lemma NewMember_id_spec x id :
  uf_inv x -> 0 <= id -> id + 2 < 2 ^ 32 ->
  wp (NewMember_id x id) (fun r =>
    let n := if num x <=? id + 1 then id + 2 else num x in
    uf_inv (fst r) /\ num (fst r) = n /\ snd r = n /\
    forall a b, same_class (fst r) a b <-> same_class x a b \/ (num x <= a < n /\ a = b)).
Proof.
  intros Hx Hid Hb. pose proof (num_nonneg x Hx) as H0. pose proof (inv_forest x Hx) as HF.
  pose proof (forest_roots _ _ _ HF) as Hr. pose proof (forest_sizes _ _ _ HF) as Hs.
  pose proof (inv_num x Hx). unfold NewMember_id. rewrite Hr, (wrap_small 64 (id + 1)) by lia.
  destruct (Z.leb_spec (num x) (id + 1)) as [Hle|Hgt].
  2:{ apply wp_ret. cbn [fst snd]. split_and!; [done..|]. intros a b. split; [by left|intros [Hs'|[? _]]; [done|lia]]. }
  assert (wrap 32 (wrap 64 (id + 2 - num x)) = id + 2 - num x) as -> by (rewrite !wrap_small; rewrite ?wrap_small; lia).
  rewrite (wrap_small 32 (num x + _)) by lia. rewrite length_app, length_replicate.
  set (k := Z.to_nat (id + 2 - num x)). replace (length (rootIDs x) + k - length (rootIDs x))%nat with k by lia.
  apply wp_bind. eapply wp_mono; [apply (wp_for_up (fun i roots =>
    length roots = (length (rootIDs x) + k)%nat /\
    (forall j, (j < length (rootIDs x))%nat -> roots.[j] = (rootIDs x).[j]) /\
    forall j, (length (rootIDs x) <= j < i)%nat -> roots.[j] = Z.of_nat j))|].
  - rewrite length_app, length_replicate. split_and!; [done| |lia]. intros j Hj. by apply app_nth1.
  - intros j roots Hj (Hl & Hold & Hnew). apply wp_wr; [lia|]. rewrite length_insert, wrap_small by lia.
    split_and!; [done|intros m Hm; rewrite at_insert_ne by lia; by apply Hold|]. intros m Hm.
    destruct (decide (m = j)) as [->|]; [by rewrite at_insert_eq by lia|]. rewrite at_insert_ne by lia. apply Hnew. lia.
  - intros roots (Hl & Hold & Hnew). apply wp_ret. cbn [fst snd]. set (x' := MkUnionFind _ _ _).
    assert (num x' = num x + Z.of_nat k) as En by (cbn [num x']; lia).
    assert (num x' = id + 2) as En' by (cbn [num x']; lia).
    assert (Z.of_nat (length (rootIDs x')) = num x') as E1 by (cbn [rootIDs x' num]; lia).
    assert (Z.of_nat (length (sizeOfClass x')) = num x') as E2
      by (cbn [sizeOfClass x' num]; rewrite length_app, length_replicate; lia).
    assert (forall i, 0 <= i < num x ->
      par (rootIDs x') i = par (rootIDs x) i /\ par (sizeOfClass x') i = par (sizeOfClass x) i) as Ho.
    { intros i Hi. split; [apply Hold; lia|by apply par_app_l; lia]. }
    assert (forall i, num x <= i < num x' -> par (rootIDs x') i = i /\ par (sizeOfClass x') i = 1) as Hn.
    { intros i Hi. split; [unfold par; rewrite Hnew; lia|]. unfold x'. cbn [sizeOfClass].
      rewrite par_app_r by lia. apply at_replicate. lia. }
    split_and!; [by apply (extend_inv x x' k); auto; lia|done|lia|].
    intros a b. rewrite (extend_same_class x x' k) by (auto; lia). by rewrite En'.
Qed.

Lemma SingleMemberClass_spec x p :
  uf_inv x -> 0 <= p < num x ->
  wp (SingleMemberClass x p) (fun r => compressed x (fst r) /\
    (snd r = true <-> forall a, same_class x a p -> a = p)).
Proof.
  intros Hx Hp. unfold SingleMemberClass. apply wp_bind. eapply wp_mono; [by apply Root_spec|].
  intros [x1 i] (Hc & Ei & Hi & Ri). cbn [fst snd] in *. pose proof Hc as (Hx1 & En & Es & Hrep).
  pose proof (forest_sizes _ _ _ (inv_forest x1 Hx1)) as Hls. pose proof (forest_roots _ _ _ (inv_forest x1 Hx1)) as Hlr.
  apply wp_bind, wp_assert; [apply Z.ltb_lt; lia|]. apply wp_bind, wp_rdz; [lia|]. apply wp_ret. cbn [fst snd].
  split; [done|]. rewrite Z.eqb_eq, (inv_sizes x1 Hx1 i) by (done || lia). unfold class_size.
  assert (p ∈ class_of (rootIDs x1) i) as Hin.
  { apply list_elem_of_filter. split; [by rewrite Hrep|]. apply elem_of_members. lia. }
  assert (forall a, a ∈ class_of (rootIDs x1) i <-> same_class x a p) as Hcls.
  { intros a. unfold class_of. rewrite list_elem_of_filter, elem_of_members. unfold same_class.
    split; [intros [E Ha]; rewrite Hrep in E by lia|intros (Ha & _ & E); rewrite Hrep by lia]; split_and?; lia || congruence. }
  setoid_rewrite <- Hcls. assert (NoDup (class_of (rootIDs x1) i)) as Hnd by apply NoDup_filter, NoDup_seqZ.
  destruct (class_of (rootIDs x1) i) as [|b [|b' l]]; [by apply elem_of_nil in Hin| |].
  - apply list_elem_of_singleton in Hin as ->. split; [|done]. intros _ a. by rewrite list_elem_of_singleton.
  - split; [cbn [length]; lia|]. intros H. apply NoDup_cons in Hnd as [Hnd _]. destruct Hnd.
    rewrite (H b), (H b'); set_solver.
Qed.

Lemma GetElementsNumber_spec x i :
  uf_inv x -> 0 <= i < num x ->
  wp (GetElementsNumber x i) (fun s => par (rootIDs x) i = i -> s = class_size (rootIDs x) i).
Proof.
  intros Hx Hi. pose proof (forest_sizes _ _ _ (inv_forest x Hx)) as Hs. unfold GetElementsNumber.
  apply wp_bind, wp_assert; [apply Z.ltb_lt; lia|]. apply wp_rdz; [lia|]. by apply (inv_sizes x Hx).
Qed.

(** ** The sum over the roots *)

Lemma sum_of_roots_spec x : uf_inv x -> sum_of_roots x = Ret (num x).
Proof.
  intros Hx. pose proof (num_nonneg x Hx). pose proof (inv_forest x Hx) as HF.
  pose proof (forest_roots _ _ _ HF). pose proof (forest_sizes _ _ _ HF).
  apply wp_eq. unfold sum_of_roots. eapply wp_mono; [apply (wp_for_up (fun i sum =>
    sum = Z.of_nat (length (filter (fun a => rep (rootIDs x) a < Z.of_nat i) (members (rootIDs x))))))|].
  - rewrite length_filter_none; [done|]. intros a Ha. apply elem_of_members in Ha.
    pose proof (rep_below x Hx a). lia.
  - intros j sum Hj ->. apply wp_bind, wp_rd; [lia|].
    assert (length (filter (fun a => rep (rootIDs x) a < Z.of_nat (S j)) (members (rootIDs x))) =
      Nat.add (length (filter (fun a => rep (rootIDs x) a < Z.of_nat j) (members (rootIDs x))))
        (length (class_of (rootIDs x) (Z.of_nat j)))) as ->.
    { apply length_filter_or. intros a Ha. lia. }
    replace ((rootIDs x).[j]) with (par (rootIDs x) (Z.of_nat j)) by (unfold par; by rewrite Nat2Z.id).
    destruct (Z.eqb_spec (par (rootIDs x) (Z.of_nat j)) (Z.of_nat j)) as [E|E].
    + apply wp_bind, wp_rd; [lia|]. apply wp_ret. rewrite Nat2Z.inj_add. f_equal.
      replace ((sizeOfClass x).[j]) with (par (sizeOfClass x) (Z.of_nat j)) by (unfold par; by rewrite Nat2Z.id).
      apply (inv_sizes x Hx); [lia|done].
    + apply wp_ret. unfold class_of. rewrite (length_filter_none (fun a => rep (rootIDs x) a = Z.of_nat j)), Nat.add_0_r; [done|].
      intros a Ha Hr. apply elem_of_members in Ha. contradict E.
      apply (root_of_root _ a). apply (rep_iff _ _ _ _ _ HF); [lia|done].
  - intros sum ->. rewrite Nat.add_0_l, Z2Nat.id by lia.
    rewrite length_filter_all; [rewrite length_members; lia|].
    intros a Ha. apply elem_of_members in Ha. pose proof (rep_below x Hx a ltac:(lia)). lia.
Qed.

(** ** Sequences of unions *)

(** The least equivalence that contains the classes of [x] and the pairs. *)
Inductive connected (x : UnionFind) (pairs : list (Z * Z)) : Z -> Z -> Prop :=
  | conn_class a b : same_class x a b -> connected x pairs a b
  | conn_pair p q : In (p, q) pairs -> connected x pairs p q
  | conn_sym a b : connected x pairs a b -> connected x pairs b a
  | conn_trans a b c : connected x pairs a b -> connected x pairs b c -> connected x pairs a c.

(** The calls Union(p, q), in order. *)
Fixpoint run_unions (x : UnionFind) (pairs : list (Z * Z)) : res UnionFind :=
  match pairs with
  | [] => Ret x
  | (p, q) :: rest => x ← Union x p q; run_unions x rest
  end.

Lemma same_class_refl x a : 0 <= a < num x -> same_class x a a.
Proof. done. Qed.
Lemma same_class_sym x a b : same_class x a b -> same_class x b a.
Proof. unfold same_class. intuition congruence. Qed.
Lemma same_class_trans x a b c : same_class x a b -> same_class x b c -> same_class x a c.
Proof. unfold same_class. intuition congruence. Qed.

Lemma connected_nil x a b : connected x [] a b <-> same_class x a b.
Proof.
  split; [|by apply conn_class]. induction 1; eauto using same_class_sym, same_class_trans. done.
Qed.

Lemma connected_cons x x' p q rest :
  num x' = num x -> 0 <= p < num x -> 0 <= q < num x ->
  (forall a b, same_class x' a b <->
    same_class x a b \/ (same_class x a p /\ same_class x b q) \/ (same_class x a q /\ same_class x b p)) ->
  forall a b, connected x' rest a b <-> connected x ((p, q) :: rest) a b.
Proof.
  intros En Hp Hq Hm a b.
  assert (connected x ((p, q) :: rest) p q) as Hpq by (apply conn_pair; by left).
  split; induction 1 as [a b H|a b H|a b H IH|a b c H IH H' IH'];
    try (by eapply conn_sym); try (by eapply conn_trans).
  - apply Hm in H as [H|[[H1 H2]|[H1 H2]]]; [by apply conn_class| |].
    + eapply conn_trans; [by apply conn_class|]. eapply conn_trans; [exact Hpq|].
      by apply conn_class, same_class_sym.
    + eapply conn_trans; [by apply conn_class|]. eapply conn_trans; [by apply conn_sym|].
      by apply conn_class, same_class_sym.
  - apply conn_pair. by right.
  - apply conn_class, Hm. by left.
  - destruct H as [[= <- <-]|H]; [|by apply conn_pair].
    apply conn_class, Hm. right. left. auto using same_class_refl.
Qed.

Lemma run_unions_spec x pairs :
  uf_inv x -> Forall (fun pq => 0 <= fst pq < num x /\ 0 <= snd pq < num x) pairs ->
  wp (run_unions x pairs) (fun x' => uf_inv x' /\ num x' = num x /\
    forall a b, same_class x' a b <-> connected x pairs a b).
Proof.
  revert x. induction pairs as [|[p q] rest IH]; intros x Hx Hr; cbn [run_unions].
  - apply wp_ret. split; [done|]. split; [done|]. intros a b. symmetry. apply connected_nil.
  - apply Forall_cons in Hr as [[Hp Hq] Hr]. cbn [fst snd] in *. apply wp_bind.
    eapply wp_mono; [by apply Union_spec|]. intros x1 (Hx1 & En1 & Hm).
    eapply wp_mono; [apply IH; [done|by rewrite En1]|]. intros x2 (Hx2 & En2 & Hc).
    split; [done|]. split; [congruence|]. intros a b. rewrite Hc. by apply connected_cons.
Qed.

(** ** Claims *)

(** C17: Root returns within log2(population) iterations of its loop, with the
    root of the member; path halving leaves every class as it was. *)
Theorem root_logarithmic x i :
  uf_inv x -> 0 <= i < num x ->
  wp (Root x i) (fun r => snd r = rep (rootIDs x) i /\ uf_inv (fst r) /\
    forall a b, same_class (fst r) a b <-> same_class x a b).
Proof.
  intros Hx Hi. eapply wp_mono; [by apply Root_spec|]. intros r (Hc & Er & _).
  split; [done|]. split; [apply Hc|]. intros a b. by apply compressed_same_class.
Qed.

(** Four members, 0-1 and 2-3 united, then the two pairs. *)
Definition uf4 : UnionFind := MkUnionFind 4 [0; 0; 0; 2] [4; 1; 2; 1].

Lemma uf4_reached : (x ← UnionFind_sized 4; run_unions x [(0, 1); (2, 3); (1, 3)]) = Ret uf4.
Proof. reflexivity. Qed.

Lemma uf4_inv : uf_inv uf4.
Proof.
  destruct (wp_returns _ _ (UnionFind_sized_spec 4 ltac:(lia))) as (x & E & Hx & Hn & _).
  pose proof uf4_reached as Hr. rewrite E in Hr. cbn [mbind res_bind] in Hr.
  assert (wp (run_unions x [(0, 1); (2, 3); (1, 3)]) uf_inv) as H.
  { eapply wp_mono; [apply run_unions_spec; [done|rewrite Hn; repeat constructor; cbn; lia]|]. intros x' Hx'. apply Hx'. }
  by rewrite Hr in H.
Qed.

Lemma root_logarithmic_witness : wp (Root uf4 3) (fun r => snd r = 0).
Proof.
  eapply wp_mono; [exact (root_logarithmic uf4 3 uf4_inv ltac:(cbn; lia))|].
  intros r (E & _). exact E.
Defined.

(** The least equivalence on 0, ..., n - 1 that contains the pairs. *)
Inductive generated (n : Z) (pairs : list (Z * Z)) : Z -> Z -> Prop :=
  | gen_pair p q : In (p, q) pairs -> generated n pairs p q
  | gen_refl a : 0 <= a < n -> generated n pairs a a
  | gen_sym a b : generated n pairs a b -> generated n pairs b a
  | gen_trans a b c : generated n pairs a b -> generated n pairs b c -> generated n pairs a c.

Lemma connected_generated n x pairs a b :
  discrete n x -> connected x pairs a b <-> generated n pairs a b.
Proof.
  intros (_ & _ & Hd). split.
  - induction 1 as [a b H|a b H|a b H IH|a b c H IH H' IH'];
      [|by apply gen_pair|by apply gen_sym|by eapply gen_trans].
    apply Hd in H as [Ha <-]. by apply gen_refl.
  - induction 1 as [a b H|a H|a b H IH|a b c H IH H' IH'];
      [by apply conn_pair| |by apply conn_sym|by eapply conn_trans].
    by apply conn_class, Hd.
Qed.

(** C18: after any sequence of unions on a freshly sized structure, Find(p, q)
    answers whether p and q are related by the least equivalence that contains
    the united pairs. *)
Theorem union_find_partition n pairs p q :
  0 <= n < 2 ^ 32 -> Forall (fun pq => 0 <= fst pq < n /\ 0 <= snd pq < n) pairs ->
  0 <= p < n -> 0 <= q < n ->
  wp (x ← UnionFind_sized n; x ← run_unions x pairs; Find x p q) (fun r =>
    snd r = true <-> generated n pairs p q).
Proof.
  intros Hn Hpairs Hp Hq. apply wp_bind. eapply wp_mono; [by apply UnionFind_sized_spec|].
  intros x0 Hx0. pose proof Hx0 as (Hi & En & _). apply wp_bind.
  eapply wp_mono; [apply run_unions_spec; [done|by rewrite En]|].
  intros x1 (Hx1 & En1 & Hc). eapply wp_mono; [apply Find_spec; [done|lia|lia]|].
  intros r [_ ->]. rewrite Hc. by apply connected_generated.
Qed.

Lemma union_find_partition_witness :
  wp (x ← UnionFind_sized 4; x ← run_unions x [(0, 1); (2, 3)]; Find x 0 3) (fun r =>
    snd r = true <-> generated 4 [(0, 1); (2, 3)] 0 3).
Proof.
  apply (union_find_partition 4 [(0, 1); (2, 3)] 0 3); [lia| |lia|lia].
  repeat constructor; cbn; lia.
Defined.

(** C19: the invariant, by which the size of a root is the number of members of
    its class, holds of the empty structure and of a sized one, in which every
    member is alone, and every operation keeps it.  Reinit separates all members;
    Root, Find and SingleMemberClass change no class, and the last tells whether
    the class has one member; Union joins the classes of its arguments;
    NewMember, with or without an id, adds members that are alone.  Find of an id
    tells the members, and GetElementsNumber of a root is the size of its class;
    the sum over the roots that the destructor checks in debug builds is the
    population. *)
Theorem union_find_invariant :
  uf_inv UnionFind_empty /\
  (forall siz, 0 <= siz < 2 ^ 32 -> wp (UnionFind_sized siz) (discrete siz)) /\
  forall x, uf_inv x ->
  sum_of_roots x = Ret (num x) /\
  wp (Reinit x) (discrete (num x)) /\
  (forall i, 0 <= i < num x -> wp (Root x i) (fun r => compressed x (fst r)) /\
     wp (SingleMemberClass x i) (fun r => compressed x (fst r) /\
       (snd r = true <-> forall a, same_class x a i -> a = i))) /\
  (forall p q, 0 <= p < num x -> 0 <= q < num x ->
     wp (Find x p q) (fun r => compressed x (fst r) /\ (snd r = true <-> same_class x p q)) /\
     wp (Union x p q) (fun x' => uf_inv x' /\ num x' = num x /\ forall a b, same_class x' a b <->
       same_class x a b \/ (same_class x a p /\ same_class x b q) \/ (same_class x a q /\ same_class x b p))) /\
  (num x + 1 < 2 ^ 32 -> let '(x', r) := NewMember x in
     uf_inv x' /\ num x' = num x + 1 /\ r = num x' /\
     forall a b, same_class x' a b <-> same_class x a b \/ (a = num x /\ a = b)) /\
  (forall id, 0 <= id -> id + 2 < 2 ^ 32 -> wp (NewMember_id x id) (fun r =>
     let n := if num x <=? id + 1 then id + 2 else num x in
     uf_inv (fst r) /\ num (fst r) = n /\ snd r = n /\
     forall a b, same_class (fst r) a b <-> same_class x a b \/ (num x <= a < n /\ a = b))) /\
  (forall id, Find_id x id = (id <? num x)) /\
  (forall i, 0 <= i < num x -> wp (GetElementsNumber x i) (fun s =>
     par (rootIDs x) i = i -> s = class_size (rootIDs x) i)).
Proof.
  split; [exact empty_inv|]. split; [exact UnionFind_sized_spec|]. intros x Hx. split_and!.
  - by apply sum_of_roots_spec.
  - pose proof (num_nonneg x Hx). pose proof (inv_num x Hx). pose proof (inv_forest x Hx) as HF.
    pose proof (forest_roots _ _ _ HF). pose proof (forest_sizes _ _ _ HF). apply Reinit_spec; lia.
  - intros i Hi. split; [|by apply SingleMemberClass_spec]. eapply wp_mono; [by apply Root_spec|]. by intros r [H _].
  - intros p q Hp Hq. split; [by apply Find_spec|by apply Union_spec].
  - intros Hb. by apply NewMember_spec.
  - intros id Hid Hb. by apply NewMember_id_spec.
  - intros id. unfold Find_id. by rewrite (forest_roots _ _ _ (inv_forest x Hx)).
  - intros i Hi. by apply GetElementsNumber_spec.
Qed.

Lemma union_find_invariant_witness :
  sum_of_roots uf4 = Ret 4 /\
  wp (NewMember_id uf4 4) (fun r => num (fst r) = 6 /\ uf_inv (fst r)) /\
  wp (SingleMemberClass uf4 3) (fun r => snd r = false).
Proof.
  destruct union_find_invariant as (_ & _ & H). destruct (H uf4 uf4_inv) as (H1 & _ & H2 & _ & _ & H3 & _).
  split; [exact H1|]. split.
  - eapply wp_mono; [apply (H3 4); lia|]. intros r (Hr & E & _). split; [exact E|exact Hr].
  - eapply wp_mono; [refine (proj2 (H2 3 _)); cbn; lia|]. intros [x [|]] [_ E]; [|reflexivity].
    exfalso. assert (0 = 3) as E0; [|discriminate E0]. apply (proj1 E eq_refl). vm_compute. repeat split; discriminate.
Defined.
