(* ===== verification/A64Imm.v ===== *)
(** * AArch64 immediates

    Which constants fit the immediate field of an AArch64 instruction:
    [maple_be/src/cg/aarch64/aarch64_imm_valid.cpp] with the table it includes,
    [maple_be/include/cg/aarch64/aarch64_imm_valid.h], and
    [IsMoveWidableImmediate], [BetterUseMOVZ] of [maple_be/src/cg/operand.cpp].

    A [uint64] is a [Z] in [0, 2^64), an [int64] a signed [Z]; the cast from
    [int64] to [uint64] is [wrap 64].  The build with [DEBUG] and assertions is
    modelled: an [ASSERT] that fails is [Fault AssertFail]. *)

From S2P Require Import Prelude.
From S2P Require Import IntWords.
From S2P Require Import A64ImmTable.

(** ** The table of logical immediates

    [ValidBitmaskImmSet] is the [std::set] of the values listed; only
    membership ([find(x) != end()]) is used. *)
Definition in_ValidBitmaskImmSet (x : Z) : bool := existsb (Z.eqb x) valid_bitmask_imm.

Definition kMaxBitTableSize : Z := 5.
Definition kBitmaskImmMultTable : list Z :=
  [0x0000000100000001; 0x0001000100010001; 0x0101010101010101; 0x1111111111111111;
   0x5555555555555555].

(** ** Logical (bitmask) immediates *)

Definition IsBitmaskImmediate (val bitLen : Z) : res bool :=
  ASSERT (negb (val =? 0)) ;;
  ASSERT (negb (swrap 64 val =? -1)) ;;
  if (bitLen =? 32) && (swrap 32 val =? -1) then Ret false else
  let mask32 := 2 ^ 32 - 1 in
  let val2 := if bitLen =? 32 then Z.lor (shl 64 val 32) (Z.land val mask32) else val in
  let expectedOutcome := in_ValidBitmaskImmSet val2 in
  let val := if negb (Z.land val 1 =? 0) then notw 64 val else val in
  let val := if bitLen =? 32 then Z.lor (shl 64 val 32) (Z.land val mask32) else val in
  let tmpVal := wrap 64 (val + Z.land val (wrap 64 (2 ^ 64 - 1 - val + 1))) in
  let tmpVal := Z.land tmpVal (wrap 64 (tmpVal - 1)) in
  if tmpVal =? 0 then
    if negb expectedOutcome then Ret false
    else ASSERT expectedOutcome ;; Ret true
  else
  let p0 := builtin_ctz val in
  let p1 := builtin_ctz tmpVal in
  let diff := p1 - p0 in
  if negb (Z.land (wrap 64 diff) (wrap 64 (wrap 64 diff - 1)) =? 0) then
    ASSERT (negb expectedOutcome) ;; Ret false
  else
  let logDiff := builtin_ctz (wrap 64 diff) in
  let pattern := Z.land val (wrap 64 (shl 64 1 (wrap 64 diff) - 1)) in
  let ret := val =? wrap 64 (pattern * nth (Z.to_nat (kMaxBitTableSize - logDiff)) kBitmaskImmMultTable 0) in
  ASSERT (eqb expectedOutcome ret) ;; Ret ret.

(** ** Immediates of the move instructions *)

Definition IsMoveWidableImmediate (val bitLen : Z) : bool :=
  if bitLen =? 64 then
    if (Z.land val (shl 64 0xffff 48) =? val) || (Z.land val (shl 64 0xffff 32) =? val) then true
    else (Z.land val (shl 64 0xffff 16) =? val) || (Z.land val 0xffff =? val)
  else
    let val := Z.land val 0xffffffff in
    (Z.land val (shl 64 0xffff 16) =? val) || (Z.land val 0xffff =? val).

Definition IsMoveWidableImmediateCopy (val bitLen : Z) : bool :=
  if (val =? 0) || (val =? 0xffffffff) then true else
  if bitLen =? 64 then
    if (Z.land val (shl 64 0xffff 48) =? val) || (Z.land val (shl 64 0xffff 32) =? val) then true
    else (Z.land val (shl 64 0xffff 16) =? val) || (Z.land val 0xffff =? val)
  else
    let val := Z.land val 0xffffffff in
    if val =? 0 then false else
    (Z.land val (shl 64 0xffff 16) =? val) || (Z.land val 0xffff =? val).

Definition IsSingleInstructionMovable32 (value : Z) : res bool :=
  let high := Z.land (wrap 64 value) 0xffffffff00000000 in
  if negb (high =? 0) && negb (high =? 0xffffffff00000000) then Ret false else
  if IsMoveWidableImmediateCopy (wrap 64 value) 32 then Ret true else
  if IsMoveWidableImmediateCopy (notw 64 value) 32 then Ret true else
  IsBitmaskImmediate (wrap 64 value) 32.

Definition IsSingleInstructionMovable64 (value : Z) : res bool :=
  if IsMoveWidableImmediateCopy (wrap 64 value) 64 then Ret true else
  if IsMoveWidableImmediateCopy (notw 64 value) 64 then Ret true else
  IsBitmaskImmediate (wrap 64 value) 64.

(** The number of 16-bit chunks of [val] that are all zeros, all ones; the
    asserts on them hold when no single move loads [val]. *)
Definition chunk (val i : Z) : Z := Z.land (shr 64 val (16 * i)) 0xffff.

Definition BetterUseMOVZ (val : Z) : res bool :=
  let n16zerosChunks := length (filter (fun i => chunk val i = 0) [0; 1; 2; 3]) in
  let n16onesChunks :=
    length (filter (fun i => chunk val i ≠ 0 /\ chunk val i = 0xffff) [0; 1; 2; 3]) in
  ASSERT (n16zerosChunks <=? 2)%nat ;;
  ASSERT (n16onesChunks <=? 2)%nat ;;
  Ret (n16onesChunks <=? n16zerosChunks)%nat.

(** ** Immediates of a bit size *)

Definition IsBitSizeImmediate (val bitLen nLowerZeroBits : Z) : bool :=
  let mask1 := shl 64 0xffffffffffffffff bitLen in
  let mask2 := wrap 64 (shl 64 1 nLowerZeroBits - 1) in
  (Z.land mask2 val =? 0) && (Z.land mask1 (shr 64 val nLowerZeroBits) =? 0).

Definition kMaxImmVal5Bits : Z := 5.
Definition kMaxImmVal6Bits : Z := 6.
Definition kMaxImmVal12Bits : Z := 12.
Definition kMaxImmVal13Bits : Z := 13.
Definition kMaxImmVal16Bits : Z := 16.
Definition kMaxImmVal24Bits : Z := 24.

Definition Imm12BitValid (value : Z) : bool :=
  IsBitSizeImmediate (wrap 64 value) kMaxImmVal12Bits 0
  || IsBitSizeImmediate (wrap 64 value) kMaxImmVal12Bits kMaxImmVal12Bits.

Definition Imm12BitMaskValid (value : Z) : res bool :=
  if (value =? 0) || (value =? -1) then Ret false else IsBitmaskImmediate (wrap 64 value) 32.

Definition Imm13BitValid (value : Z) : bool :=
  IsBitSizeImmediate (wrap 64 value) kMaxImmVal13Bits 0
  || IsBitSizeImmediate (wrap 64 value) kMaxImmVal13Bits kMaxImmVal13Bits.

Definition Imm13BitMaskValid (value : Z) : res bool :=
  if (value =? 0) || (value =? -1) then Ret false else IsBitmaskImmediate (wrap 64 value) 64.

Definition Imm16BitValid (value : Z) : bool :=
  IsBitSizeImmediate (wrap 64 value) kMaxImmVal16Bits 0
  || IsBitSizeImmediate (wrap 64 value) kMaxImmVal12Bits kMaxImmVal12Bits.

(** The amount of a shifted register: [uint32] values. *)
Definition BitShift5BitValid (value : Z) : bool := IsBitSizeImmediate value kMaxImmVal5Bits 0.
Definition BitShift6BitValid (value : Z) : bool := IsBitSizeImmediate value kMaxImmVal6Bits 0.
Definition BitShift5BitValidImm (value : Z) : bool :=
  IsBitSizeImmediate (wrap 64 value) kMaxImmVal5Bits 0.
Definition BitShift6BitValidImm (value : Z) : bool :=
  IsBitSizeImmediate (wrap 64 value) kMaxImmVal6Bits 0.
Definition Imm16BitValidImm (value : Z) : bool :=
  IsBitSizeImmediate (wrap 64 value) kMaxImmVal16Bits 0.
Definition Nzcv4BitValid (value : Z) : bool := IsBitSizeImmediate (wrap 64 value) 4 0.
Definition Lsb5BitValid (value : Z) : bool := IsBitSizeImmediate (wrap 64 value) kMaxImmVal5Bits 0.
Definition Width5BitValid (value lsb : Z) : bool := (1 <=? value) && (value <=? 32 - lsb).
Definition Width5BitOnlyValid (value : Z) : bool := (1 <=? value) && (value <=? 32).
Definition Lsb6BitValid (value : Z) : bool := IsBitSizeImmediate (wrap 64 value) kMaxImmVal6Bits 0.
Definition Width6BitValid (value lsb : Z) : bool := (1 <=? value) && (value <=? 64 - lsb).
Definition Width6BitOnlyValid (value : Z) : bool := (1 <=? value) && (value <=? 64).
Definition ExtendShift0To4Valid (value : Z) : bool := value <=? 4.
Definition LeftShift12Valid (value : Z) : bool := (value =? 0) || (value =? 12).
Definition ImmShift32Valid (value : Z) : bool := (value =? 0) || (value =? 16).
Definition ImmShift64Valid (value : Z) : bool :=
  (value =? 0) || (value =? 16) || (value =? 32) || (value =? 48).

(** ** Offsets of loads and stores *)

Definition kMaxPimm : list Z := [4095; 8190; 16380; 32760; 65520].
Definition kMaxPairPimm : list Z := [256; 512; 512].
Definition kMaxSimm32 : Z := 255.
Definition kMaxSimm32Pair : Z := 252.
Definition kMinSimm32 : Z := -256.
Definition kMaxSimm64Pair : Z := 504.
Definition kMinSimm64 : Z := -512.

Definition IsSIMMValid (value : Z) : bool := (value <=? kMaxSimm32) && (kMinSimm32 <=? value).

Definition IsPIMMValid (value wordSize : Z) : bool :=
  if (0 <=? value) && (value <=? nth (Z.to_nat wordSize) kMaxPimm 0) then
    let mask := wrap 32 (shl 32 1 wordSize - 1) in
    if 0 <? Z.land (wrap 64 value) mask then false else true
  else false.

Definition StrLdrInsnSignedOfstValid (value wordSize : Z) (IsIntactIndexed : bool) : bool :=
  IsSIMMValid value || (IsPIMMValid value wordSize && IsIntactIndexed).

Definition StrLdrSignedOfstValid (value wordSize : Z) : bool :=
  IsSIMMValid value || IsPIMMValid value wordSize.

Definition StrLdr8ImmValid (value : Z) : bool := StrLdrSignedOfstValid value 0.
Definition StrLdr16ImmValid (value : Z) : bool := StrLdrSignedOfstValid value 1.
Definition StrLdr32ImmValid (value : Z) : bool := StrLdrSignedOfstValid value 2.
Definition StrLdr64ImmValid (value : Z) : bool := StrLdrSignedOfstValid value 3.
Definition StrLdr128ImmValid (value : Z) : bool := StrLdrSignedOfstValid value 4.

Definition StrLdr32PairImmValid (value : Z) : bool :=
  if (value <=? kMaxSimm32Pair) && (kMinSimm32 <=? value) then
    if 0 <? Z.land (wrap 64 value) 3 then false else true
  else false.

Definition StrLdr64PairImmValid (value : Z) : bool :=
  if (value <=? kMaxSimm64Pair) && (kMinSimm64 <=? value) then
    if 0 <? Z.land (wrap 64 value) 7 then false else true
  else false.

Definition StrLdr128PairImmValid (value : Z) : bool :=
  if (value <? 1024) && (-1024 <=? value) then
    if 0 <? Z.land (wrap 64 value) 0xf then false else true
  else false.
