(* ===== verification/A64ImmFacts.v ===== *)
(** * Facts about AArch64 immediates

    The logical immediates as the architecture defines them, and the proof that
    the table and the bit tricks of [IsBitmaskImmediate] accept exactly them. *)

From S2P Require Import Prelude.
From S2P Require Import IntWords.
From S2P Require Import IntWordsFacts.
From S2P Require Import A64ImmTable.
From S2P Require Import A64Imm.

(** A logical immediate of a 64-bit register: a pattern of [2 ^ k] bits, [len]
    ones rotated left by [rot] (not none, not all of the bits), repeated over
    the register. *)
Definition repeats (x k len rot : Z) : Prop :=
  1 <= k <= 6 /\ 0 < len < 2 ^ k /\ 0 <= rot < 2 ^ k /\
  forall i, 0 <= i < 64 -> Z.testbit x i = ((i - rot) mod 2 ^ k <? len).

Definition bitmask_imm (x : Z) : Prop :=
  0 <= x < 2 ^ 64 /\ exists k len rot, repeats x k len rot.

(** ** Bits of sums of a multiple and a remainder *)

Lemma testbit_split (a q r i : Z) :
  0 <= a -> 0 <= r < 2 ^ a -> 0 <= i ->
  Z.testbit (2 ^ a * q + r) i = if i <? a then Z.testbit r i else Z.testbit q (i - a).
Proof.
  intros Ha Hr Hi. pose proof (pow2_pos a Ha). destruct (Z.ltb_spec i a) as [Hia|Hia].
  - rewrite <- (Z.mod_pow2_bits_low (2 ^ a * q + r) a i) by lia.
    by rewrite Z.add_comm, Z.mul_comm, Z.mod_add, Z.mod_small by lia.
  - rewrite <- (Z.sub_add a i) at 1. rewrite <- Z.div_pow2_bits by lia.
    by rewrite Z.add_comm, Z.mul_comm, Z.div_add, Z.div_small by lia.
Qed.

Lemma word_ext (w x y : Z) :
  0 <= x < 2 ^ w -> 0 <= y < 2 ^ w ->
  (forall i, 0 <= i < w -> Z.testbit x i = Z.testbit y i) -> x = y.
Proof.
  intros Hx Hy H. apply bits_ext. intros i Hi. destruct (decide (i < w)); [by apply H; lia|].
  by rewrite !(testbit_above w) by lia.
Qed.

(** ** Trailing zeros *)

Lemma ctz_spec (x : Z) :
  0 < x -> 0 <= builtin_ctz x /\ Z.testbit x (builtin_ctz x) = true /\
  forall i, 0 <= i < builtin_ctz x -> Z.testbit x i = false.
Proof. destruct x as [|p|p]; try lia. intros _. apply pos_ctz_spec. Qed.

Lemma ctz_unique (x a : Z) :
  0 < x -> 0 <= a -> Z.testbit x a = true ->
  (forall i, 0 <= i < a -> Z.testbit x i = false) -> builtin_ctz x = a.
Proof.
  intros Hx Ha Hb Hl. destruct (ctz_spec x Hx) as (H0 & H1 & H2).
  destruct (Z.lt_trichotomy (builtin_ctz x) a) as [H|[H|H]]; [|done|].
  - rewrite Hl in H1 by lia. done.
  - rewrite H2 in Hb by lia. done.
Qed.

(** A positive number is a power of two times an odd number. *)
Lemma odd_part (x : Z) : 0 < x -> exists q, 0 <= q /\ x = 2 ^ builtin_ctz x * (2 * q + 1).
Proof.
  destruct x as [|p|p]; try lia. intros _. cbn [builtin_ctz].
  induction p as [p IH|p IH|]; cbn [pos_ctz].
  - exists (Zpos p). split; [lia|]. by rewrite Z.mul_1_l.
  - destruct IH as (q & Hq & E). exists q. split; [done|].
    rewrite Z.pow_add_r by (pose proof (proj1 (pos_ctz_spec p)); lia).
    change (Zpos p~0) with (2 * Zpos p). rewrite E at 1. ring.
  - exists 0. done.
Qed.

Lemma ctz_odd (a q : Z) : 0 <= a -> 0 <= q -> builtin_ctz (2 ^ a * (2 * q + 1)) = a.
Proof.
  intros Ha Hq. pose proof (pow2_pos a Ha). apply ctz_unique; [nia|done| |].
  - replace (2 ^ a * (2 * q + 1)) with (2 ^ (a + 1) * q + 2 ^ a) by (rewrite Z.pow_add_r by lia; ring).
    rewrite testbit_split by (rewrite ?Z.pow_add_r; lia).
    rewrite (proj2 (Z.ltb_lt a (a + 1))) by lia. by apply Z.pow2_bits_true.
  - intros i Hi. replace (2 ^ a * (2 * q + 1)) with (2 ^ a * (2 * q + 1) + 0) by ring.
    rewrite testbit_split by lia. rewrite (proj2 (Z.ltb_lt i a)) by lia. apply Z.testbit_0_l.
Qed.

(** [x & -x] is the lowest set bit, [x & (x - 1)] is [x] without it. *)
Lemma low_bit (a q : Z) :
  0 <= a -> Z.land (2 ^ a * (2 * q + 1)) (- (2 ^ a * (2 * q + 1))) = 2 ^ a.
Proof.
  intros Ha. pose proof (pow2_pos a Ha). apply bits_ext. intros i Hi.
  rewrite Z.land_spec.
  replace (2 ^ a * (2 * q + 1)) with (2 ^ a * (2 * q + 1) + 0) at 1 by ring.
  replace (- (2 ^ a * (2 * q + 1))) with (2 ^ a * (2 * (- q - 1) + 1) + 0) by ring.
  rewrite !testbit_split by lia. destruct (Z.ltb_spec i a).
  - by rewrite Z.testbit_0_l, Z.pow2_bits_false by lia.
  - destruct (decide (i = a)) as [->|].
    + rewrite Z.sub_diag, !Z.testbit_odd_0. by rewrite Z.pow2_bits_true by lia.
    + rewrite Z.pow2_bits_false by lia. replace (i - a) with (Z.succ (i - a - 1)) by lia.
      rewrite !Z.testbit_odd_succ by lia.
      replace (- q - 1) with (Z.lnot q) by (unfold Z.lnot; lia).
      rewrite Z.lnot_spec by lia. by destruct (Z.testbit q _).
Qed.

Lemma clear_low_bit (a q : Z) :
  0 <= a ->
  Z.land (2 ^ a * (2 * q + 1)) (2 ^ a * (2 * q + 1) - 1) = 2 ^ (a + 1) * q.
Proof.
  intros Ha. pose proof (pow2_pos a Ha). apply bits_ext. intros i Hi. rewrite Z.land_spec.
  rewrite Z.pow_add_r by lia.
  replace (2 ^ a * (2 * q + 1)) with (2 ^ a * (2 * q + 1) + 0) at 1 by ring.
  replace (2 ^ a * (2 * q + 1) - 1) with (2 ^ a * (2 * q) + (2 ^ a - 1)) by ring.
  replace (2 ^ a * 2 ^ 1 * q) with (2 ^ a * (2 * q) + 0) by ring.
  rewrite !testbit_split by lia. destruct (Z.ltb_spec i a); [by rewrite Z.testbit_0_l|].
  destruct (decide (i = a)) as [->|].
  - by rewrite Z.sub_diag, !Z.testbit_even_0, andb_false_r.
  - replace (i - a) with (Z.succ (i - a - 1)) by lia.
    rewrite Z.testbit_odd_succ, Z.testbit_even_succ by lia. by destruct (Z.testbit q _).
Qed.

(** The lowest run of ones of a positive number: [p] zeros, [len] ones, a zero,
    and the rest [w]. *)
Lemma first_run (v : Z) :
  0 < v -> exists len w, 0 < len /\ 0 <= w /\
    v = 2 ^ builtin_ctz v * (2 ^ len - 1 + 2 ^ (len + 1) * w).
Proof.
  intros Hv. destruct (odd_part v Hv) as (q & Hq & E).
  destruct (odd_part (q + 1) ltac:(lia)) as (w & Hw & E').
  pose proof (proj1 (ctz_spec (q + 1) ltac:(lia))) as Hc.
  exists (builtin_ctz (q + 1) + 1), w. split_and!; [lia|done|].
  rewrite E at 1. f_equal. rewrite !Z.pow_add_r by lia. nia.
Qed.

(** ** The logical immediates by their parameters *)

(** [len] ones rotated left by [rot] in [2 ^ k] bits. *)
Definition rot_ones (k len rot : Z) : Z :=
  Z.lor (wrap (2 ^ k) (Z.shiftl (Z.ones len) rot)) (Z.shiftr (Z.ones len) (2 ^ k - rot)).

(** A [d]-bit pattern doubled [n] times. *)
Fixpoint rep (n : nat) (d x : Z) : Z :=
  match n with O => x | S n' => rep n' (2 * d) (Z.lor x (Z.shiftl x d)) end.

Definition logical_imm (k len rot : Z) : Z :=
  rep (Z.to_nat (6 - k)) (2 ^ k) (rot_ones k len rot).

Definition logical_imms : list Z :=
  flat_map (fun k => flat_map (fun len => map (logical_imm k len) (seqZ 0 (2 ^ k)))
                              (seqZ 1 (2 ^ k - 1))) [1; 2; 3; 4; 5; 6].

(** The table lists them in order of period, length and rotation. *)
Lemma table_logical_imms : valid_bitmask_imm = logical_imms.
Proof. vm_compute. reflexivity. Qed.

Lemma testbit_double (d x i : Z) :
  0 < d -> 0 <= x < 2 ^ d -> 0 <= i < 2 * d ->
  Z.testbit (Z.lor x (Z.shiftl x d)) i = Z.testbit x (i mod d).
Proof.
  intros Hd Hx Hi. rewrite Z.lor_spec, Z.shiftl_spec by lia. destruct (decide (i < d)).
  - by rewrite (Z.testbit_neg_r x (i - d)), orb_false_r, Z.mod_small by lia.
  - rewrite (testbit_above d x i) by lia. cbn [orb]. f_equal.
    symmetry. rewrite <- (Z.mod_small (i - d) d) by lia.
    replace i with (i - d + 1 * d) at 1 by lia. by apply Z.mod_add; lia.
Qed.

Lemma double_range (d x : Z) :
  0 < d -> 0 <= x < 2 ^ d -> 0 <= Z.lor x (Z.shiftl x d) < 2 ^ (2 * d).
Proof.
  intros Hd Hx. apply in_word_bits; [lia| |].
  - apply Z.lor_nonneg. rewrite Z.shiftl_nonneg. lia.
  - intros i Hi. by rewrite Z.lor_spec, Z.shiftl_spec, !(testbit_above d) by lia.
Qed.

Lemma rep_spec (n : nat) : forall d x,
  0 < d -> 0 <= x < 2 ^ d ->
  0 <= rep n d x < 2 ^ (2 ^ Z.of_nat n * d) /\
  forall i, 0 <= i < 2 ^ Z.of_nat n * d -> Z.testbit (rep n d x) i = Z.testbit x (i mod d).
Proof.
  induction n as [|n IH]; intros d x Hd Hx.
  { cbn [rep]. change (2 ^ Z.of_nat 0) with 1. rewrite Z.mul_1_l. split; [done|].
    intros i Hi. by rewrite Z.mod_small by lia. }
  destruct (IH (2 * d) (Z.lor x (Z.shiftl x d)) ltac:(lia) (double_range d x Hd Hx)) as [Hr Hb].
  cbn [rep]. rewrite Nat2Z.inj_succ, Z.pow_succ_r by lia.
  replace (2 * 2 ^ Z.of_nat n * d) with (2 ^ Z.of_nat n * (2 * d)) by ring. split; [done|].
  intros i Hi. rewrite Hb by done. pose proof (Z.mod_pos_bound i (2 * d) ltac:(lia)).
  rewrite testbit_double by lia. f_equal.
  apply Z.mod_mod_divide. exists 2. ring.
Qed.

(** Rotated ones, bit by bit. *)
Lemma rot_ones_range (k len rot : Z) :
  0 <= k -> 0 < len < 2 ^ k -> 0 <= rot < 2 ^ k -> 0 <= rot_ones k len rot < 2 ^ (2 ^ k).
Proof.
  intros Hk Hl Hr. pose proof (pow2_pos k Hk). unfold rot_ones.
  apply lor_in_word; [lia|by apply wrap_range; lia|].
  apply shiftr_in_word; [lia|]. rewrite Z.ones_equiv.
  pose proof (Z.pow_lt_mono_r 2 len (2 ^ k) ltac:(lia) ltac:(lia) ltac:(lia)).
  pose proof (pow2_pos len ltac:(lia)). lia.
Qed.

Lemma testbit_rot_ones (k len rot i : Z) :
  0 <= k -> 0 < len < 2 ^ k -> 0 <= rot < 2 ^ k -> 0 <= i < 2 ^ k ->
  Z.testbit (rot_ones k len rot) i = ((i - rot) mod 2 ^ k <? len).
Proof.
  intros Hk Hl Hr Hi. unfold rot_ones.
  rewrite Z.lor_spec, testbit_wrap, testbit_shiftl, Z.shiftr_spec by lia.
  destruct (Z.ltb_spec i (2 ^ k)); [|lia]. cbn [andb].
  rewrite testbit_ones by lia. rewrite (testbit_ones len (i + _)) by lia.
  destruct (decide (rot <= i)).
  - rewrite Z.mod_small by lia. bool_cases.
  - rewrite <- (Z.mod_add _ 1), Z.mod_small by lia. bool_cases.
Qed.

Lemma pow2_six (k : Z) : 1 <= k <= 6 -> 2 ^ Z.of_nat (Z.to_nat (6 - k)) * 2 ^ k = 64.
Proof.
  intros Hk. rewrite Z2Nat.id, <- Z.pow_add_r by lia. by replace (6 - k + k) with 6 by lia.
Qed.

Lemma logical_imm_spec (k len rot : Z) :
  1 <= k <= 6 -> 0 < len < 2 ^ k -> 0 <= rot < 2 ^ k ->
  0 <= logical_imm k len rot < 2 ^ 64 /\ repeats (logical_imm k len rot) k len rot.
Proof.
  intros Hk Hl Hr. pose proof (pow2_pos k ltac:(lia)).
  pose proof (rot_ones_range k len rot ltac:(lia) Hl Hr) as Hx.
  destruct (rep_spec (Z.to_nat (6 - k)) (2 ^ k) _ H Hx) as [Hrange Hb].
  rewrite pow2_six in Hrange, Hb by done. split; [done|]. split; [done|]. split; [done|].
  split; [done|]. intros i Hi. unfold logical_imm. rewrite Hb by done.
  pose proof (Z.mod_pos_bound i (2 ^ k) H). rewrite testbit_rot_ones by lia.
  by rewrite Zminus_mod_idemp_l.
Qed.

Lemma repeats_unique (x y k len rot : Z) :
  0 <= x < 2 ^ 64 -> 0 <= y < 2 ^ 64 -> repeats x k len rot -> repeats y k len rot -> x = y.
Proof.
  intros Hx Hy (_ & _ & _ & Hbx) (_ & _ & _ & Hby). apply (word_ext 64); [done..|].
  intros i Hi. by rewrite Hbx, Hby.
Qed.

Lemma in_logical_imms (x : Z) :
  In x logical_imms <->
  exists k len rot, 1 <= k <= 6 /\ 0 < len < 2 ^ k /\ 0 <= rot < 2 ^ k /\ x = logical_imm k len rot.
Proof.
  unfold logical_imms. rewrite in_flat_map. split.
  - intros (k & Hk & Hx). apply in_flat_map in Hx as (len & Hl & Hx).
    apply in_map_iff in Hx as (rot & <- & Hr). apply list_elem_of_In in Hl, Hr.
    rewrite elem_of_seqZ in Hl, Hr. exists k, len, rot.
    assert (1 <= k <= 6) by (cbn in Hk; lia). split_and!; done || lia.
  - intros (k & len & rot & Hk & Hl & Hr & ->). exists k. split; [cbn; lia|].
    apply in_flat_map. exists len. rewrite <- list_elem_of_In, elem_of_seqZ. split; [lia|].
    apply in_map. rewrite <- list_elem_of_In, elem_of_seqZ. lia.
Qed.

(** The set of the code is the set of the logical immediates. *)
Lemma in_ValidBitmaskImmSet_spec (x : Z) :
  0 <= x < 2 ^ 64 -> in_ValidBitmaskImmSet x = true <-> bitmask_imm x.
Proof.
  intros Hx. unfold in_ValidBitmaskImmSet. rewrite existsb_exists, table_logical_imms.
  split.
  - intros (y & Hy & ->%Z.eqb_eq). apply in_logical_imms in Hy as (k & len & rot & Hk & Hl & Hr & ->).
    split; [done|]. exists k, len, rot. by apply logical_imm_spec.
  - intros (_ & k & len & rot & Hrep). exists x. split; [|apply Z.eqb_refl].
    apply in_logical_imms. pose proof Hrep as (Hk & Hl & Hr & _). exists k, len, rot.
    split_and!; try done; try lia. destruct (logical_imm_spec k len rot Hk Hl Hr) as [Hy Hrep'].
    by apply (repeats_unique _ _ k len rot).
Qed.

(** The complement of a logical immediate is one. *)
Lemma repeats_notw (x k len rot : Z) :
  repeats x k len rot ->
  repeats (notw 64 x) k (2 ^ k - len) ((rot + len) mod 2 ^ k).
Proof.
  intros (Hk & Hl & Hr & Hb). pose proof (pow2_pos k ltac:(lia)).
  split; [done|]. split; [lia|]. split; [by apply Z.mod_pos_bound|].
  intros i Hi. unfold notw. rewrite testbit_wrap, Z.lnot_spec, Hb by lia.
  destruct (Z.ltb_spec i 64); [|lia]. cbn [andb]. rewrite Zminus_mod_idemp_r.
  replace (i - (rot + len)) with (i - rot - len) by ring.
  rewrite <- (Zminus_mod_idemp_l (i - rot)).
  pose proof (Z.mod_pos_bound (i - rot) (2 ^ k) ltac:(lia)). set (m := (i - rot) mod 2 ^ k) in *.
  destruct (decide (len <= m)).
  - rewrite Z.mod_small by lia. bool_cases.
  - rewrite <- (Z.mod_add _ 1), Z.mod_small by lia. bool_cases.
Qed.

Lemma notw_notw (x : Z) : 0 <= x < 2 ^ 64 -> notw 64 (notw 64 x) = x.
Proof. intros Hx. rewrite !notw_spec by (lia || apply notw_range). lia. Qed.

Lemma bitmask_imm_notw (x : Z) : 0 <= x < 2 ^ 64 -> bitmask_imm (notw 64 x) <-> bitmask_imm x.
Proof.
  assert (forall y, 0 <= y < 2 ^ 64 -> bitmask_imm y -> bitmask_imm (notw 64 y)) as H.
  { intros y Hy (_ & k & len & rot & Hrep). split; [apply notw_range|].
    eexists _, _, _. by apply repeats_notw. }
  intros Hx. split; [|by apply H]. intros Hn. rewrite <- (notw_notw x) by done.
  apply H; [apply notw_range|done].
Qed.

(** ** The multiplication that repeats a pattern *)

Lemma double_mul (d x : Z) :
  0 < d -> 0 <= x < 2 ^ d -> Z.lor x (Z.shiftl x d) = x * (1 + 2 ^ d).
Proof.
  intros Hd Hx. apply bits_ext. intros i Hi.
  replace (x * (1 + 2 ^ d)) with (2 ^ d * x + x) by ring. rewrite testbit_split by lia.
  rewrite Z.lor_spec, Z.shiftl_spec by lia. destruct (Z.ltb_spec i d).
  - by rewrite (Z.testbit_neg_r x (i - d)), orb_false_r by lia.
  - by rewrite (testbit_above d x i) by lia.
Qed.

Fixpoint mult (n : nat) (d : Z) : Z :=
  match n with O => 1 | S n' => (1 + 2 ^ d) * mult n' (2 * d) end.

Lemma rep_mul (n : nat) : forall d x, 0 < d -> 0 <= x < 2 ^ d -> rep n d x = x * mult n d.
Proof.
  induction n as [|n IH]; intros d x Hd Hx; cbn [rep mult]; [lia|].
  rewrite IH by (lia || by apply double_range). rewrite double_mul by done. ring.
Qed.

Lemma mult_table (a : Z) :
  1 <= a <= 5 -> nth (Z.to_nat (5 - a)) kBitmaskImmMultTable 0 = mult (Z.to_nat (6 - a)) (2 ^ a).
Proof.
  intros Ha. assert (a = 1 \/ a = 2 \/ a = 3 \/ a = 4 \/ a = 5) as H by lia.
  by destruct H as [->|[->|[->|[->| ->]]]].
Qed.

(** [val == pattern * kBitmaskImmMultTable[...]] tests that [val] has period
    [2 ^ a]. *)
Lemma pattern_mult (v a : Z) :
  0 <= v < 2 ^ 64 -> 1 <= a <= 5 ->
  (v =? wrap 64 (wrap (2 ^ a) v * nth (Z.to_nat (5 - a)) kBitmaskImmMultTable 0)) = true <->
  forall i, 0 <= i < 64 -> Z.testbit v i = Z.testbit v (i mod 2 ^ a).
Proof.
  intros Hv Ha. pose proof (pow2_pos a ltac:(lia)).
  pose proof (wrap_range (2 ^ a) v ltac:(lia)) as Hx. rewrite mult_table by done.
  rewrite <- rep_mul by done. destruct (rep_spec (Z.to_nat (6 - a)) (2 ^ a) _ H Hx) as [Hr Hb].
  rewrite pow2_six in Hr, Hb by lia. rewrite wrap_small by done.
  assert (forall i, 0 <= i < 64 -> Z.testbit (rep (Z.to_nat (6 - a)) (2 ^ a) (wrap (2 ^ a) v)) i =
                                   Z.testbit v (i mod 2 ^ a)) as Hbits.
  { intros i Hi. rewrite Hb by done. pose proof (Z.mod_pos_bound i (2 ^ a) H).
    rewrite testbit_wrap by lia. by rewrite (proj2 (Z.ltb_lt _ _)) by lia. }
  rewrite Z.eqb_eq. split.
  - intros E i Hi. rewrite <- Hbits by done. by rewrite <- E.
  - intros E. apply (word_ext 64); [done..|]. intros i Hi. by rewrite E, Hbits.
Qed.

(** ** The runs of an even number *)

(** The lowest run of ones of [v], [p, e), the gap above it and the next run,
    which starts at [p1]. *)
Record runs (v p e p1 : Z) : Prop := {
  runs_order : 0 <= p < e /\ e < p1 < 64;
  runs_below : forall i, 0 <= i < p -> Z.testbit v i = false;
  runs_ones : forall i, p <= i < e -> Z.testbit v i = true;
  runs_gap : forall i, e <= i < p1 -> Z.testbit v i = false;
  runs_next : Z.testbit v p1 = true }.

Lemma land_wrap (w x y : Z) : 0 <= w -> 0 <= x < 2 ^ w -> Z.land x (wrap w y) = Z.land x y.
Proof.
  intros Hw Hx. apply bits_ext. intros i Hi. rewrite !Z.land_spec, testbit_wrap by done.
  destruct (Z.ltb_spec i w); [done|]. by rewrite (testbit_above w) by lia.
Qed.

Lemma testbit_first_run (p len w i : Z) :
  0 <= p -> 0 < len -> 0 <= i ->
  Z.testbit (2 ^ p * (2 ^ len - 1 + 2 ^ (len + 1) * w)) i =
  (p <=? i) && (if i <? p + len + 1 then i <? p + len else Z.testbit w (i - (p + len + 1))).
Proof.
  intros Hp Hl Hi. pose proof (pow2_pos len ltac:(lia)). rewrite <- (Z.add_0_r (2 ^ p * _)).
  rewrite testbit_split by (pose proof (pow2_pos p Hp); lia). rewrite Z.testbit_0_l.
  destruct (Z.ltb_spec i p); [by rewrite (proj2 (Z.leb_gt p i)) by lia|].
  rewrite (proj2 (Z.leb_le p i)) by lia. cbn [andb].
  rewrite Z.add_comm, testbit_split by (rewrite ?Z.pow_add_r; lia).
  destruct (Z.ltb_spec (i - p) (len + 1)), (Z.ltb_spec i (p + len + 1)); try lia.
  - replace (2 ^ len - 1) with (Z.ones len) by (rewrite Z.ones_equiv; lia).
    rewrite testbit_ones by lia. bool_cases.
  - f_equal. lia.
Qed.

(** Adding the lowest set bit and clearing the carry removes the first run. *)
Lemma first_run_removed (v : Z) :
  0 < v < 2 ^ 64 ->
  let tmp := wrap 64 (v + Z.land v (wrap 64 (2 ^ 64 - 1 - v + 1))) in
  let rest := Z.land tmp (wrap 64 (tmp - 1)) in
  rest = 0 \/ 0 < rest /\ exists e, runs v (builtin_ctz v) e (builtin_ctz rest).
Proof.
  intros Hv. destruct (first_run v ltac:(lia)) as (len & w & Hlen & Hw & E).
  destruct (odd_part v ltac:(lia)) as (q & Hq & Eq).
  pose proof (proj1 (ctz_spec v ltac:(lia))) as Hp. set (p := builtin_ctz v) in *.
  pose proof (pow2_pos p Hp) as Hpp. pose proof (pow2_pos len ltac:(lia)) as Hpl.
  assert (Z.land v (wrap 64 (2 ^ 64 - 1 - v + 1)) = 2 ^ p) as ->.
  { rewrite (wrap_congr 64 _ (- v) 1), land_wrap by lia. rewrite Eq at 1 2. by apply low_bit. }
  cbn zeta.
  assert (v + 2 ^ p = 2 ^ (p + len) * (2 * w + 1)) as Esum.
  { rewrite E at 1. rewrite !Z.pow_add_r by lia. ring. }
  destruct (decide (w = 0)) as [->|Hw0].
  { left. rewrite Esum, Z.mul_1_r. destruct (decide (2 ^ (p + len) < 2 ^ 64)).
    - pose proof (pow2_pos (p + len) ltac:(lia)). rewrite wrap_small by lia.
      rewrite wrap_small by lia. rewrite <- (Z.mul_1_r (2 ^ (p + len))).
      change 1 with (2 * 0 + 1) at 1 2. rewrite clear_low_bit by lia. apply Z.mul_0_r.
    - assert (64 <= p + len).
      { apply Z.nlt_ge. intros Hlt. apply (Z.pow_lt_mono_r 2) in Hlt; lia. }
      replace (p + len) with (64 + (p + len - 64)) by lia. rewrite Z.pow_add_r by lia.
      rewrite (wrap_congr 64 _ 0 (2 ^ (p + len - 64))) by lia. done. }
  right. pose proof (pow2_pos (p + len + 1) ltac:(lia)) as Hpe.
  assert (v = 2 ^ (p + len + 1) * w + (2 ^ (p + len) - 2 ^ p)) as Ev.
  { rewrite E at 1. rewrite !Z.pow_add_r by lia. ring. }
  pose proof (Z.pow_lt_mono_r 2 p (p + len) ltac:(lia) ltac:(lia) ltac:(lia)).
  assert (2 ^ (p + len + 1) * w < 2 ^ 64) as Hw64 by lia.
  assert (p + len + 1 < 64) as Hb64.
  { apply (Z.pow_lt_mono_r_iff 2); [lia..|nia]. }
  assert (2 ^ 64 = 2 ^ (p + len + 1) * 2 ^ (64 - (p + len + 1))) as E64.
  { rewrite <- Z.pow_add_r by lia. f_equal. lia. }
  assert (w < 2 ^ (64 - (p + len + 1))) by nia.
  assert (2 ^ (p + len + 1) = 2 * 2 ^ (p + len)) as Ehalf by (rewrite Z.pow_add_r by lia; lia).
  assert (2 ^ (p + len) * (2 * w + 1) < 2 ^ 64) as Ht64 by nia.
  rewrite Esum, (wrap_small 64 (2 ^ (p + len) * _)) by nia.
  rewrite wrap_small by nia. rewrite clear_low_bit by lia.
  split; [nia|]. exists (p + len).
  destruct (odd_part w ltac:(lia)) as (w2 & Hw2 & Ew). pose proof (ctz_spec w ltac:(lia)) as (Hc & Hc1 & Hc2).
  assert (builtin_ctz (2 ^ (p + len + 1) * w) = p + len + 1 + builtin_ctz w) as Ec.
  { rewrite Ew at 1. rewrite Z.mul_assoc, <- Z.pow_add_r by lia. apply ctz_odd; lia. }
  rewrite Ec. set (c := builtin_ctz w) in *.
  assert (forall i, 0 <= i -> Z.testbit v i = (p <=? i) &&
    (if i <? p + len + 1 then i <? p + len else Z.testbit w (i - (p + len + 1)))) as Hb.
  { intros i Hi. rewrite E at 1. by apply testbit_first_run. }
  assert (Z.testbit v (p + len + 1 + c) = true) as Hnext.
  { rewrite Hb by lia. rewrite (proj2 (Z.ltb_ge _ _)), (proj2 (Z.leb_le _ _)) by lia.
    cbn [andb]. rewrite <- Hc1. f_equal. lia. }
  split.
  - split; [lia|]. split; [lia|]. apply Z.nle_gt. intros Hge.
    rewrite (testbit_above 64) in Hnext by lia. done.
  - intros i Hi. rewrite Hb by lia. bool_cases.
  - intros i Hi. rewrite Hb by lia. bool_cases.
  - intros i Hi. rewrite Hb by lia. bool_cases. apply Hc2. lia.
  - done.
Qed.

Lemma runs_repeats (v p e p1 a : Z) :
  1 <= a <= 5 -> runs v p e p1 -> p1 - p = 2 ^ a ->
  (forall i, 0 <= i < 64 -> Z.testbit v i = Z.testbit v (i mod 2 ^ a)) ->
  repeats v a (e - p) (p mod 2 ^ a).
Proof.
  intros Ha [Ho Hbelow Hones Hgap Hnext] Hd Hper. pose proof (pow2_pos a ltac:(lia)).
  split; [lia|]. split; [lia|]. split; [by apply Z.mod_pos_bound|]. intros i Hi.
  rewrite Zminus_mod_idemp_r. pose proof (Z.mod_pos_bound (i - p) (2 ^ a) H) as Hm.
  rewrite Hper by lia. set (m := (i - p) mod 2 ^ a) in *.
  assert (i mod 2 ^ a = (p + m) mod 2 ^ a) as ->.
  { unfold m. rewrite Zplus_mod_idemp_r. f_equal. ring. }
  rewrite <- Hper by lia. destruct (Z.ltb_spec m (e - p)); [apply Hones|apply Hgap]; lia.
Qed.

Lemma repeats_runs (v p e p1 k len rot : Z) :
  Z.testbit v 0 = false -> repeats v k len rot -> runs v p e p1 -> p1 - p = 2 ^ k /\ k <= 5.
Proof.
  intros H0 (Hk & Hl & Hr & Hb) [Ho Hbelow Hones Hgap Hnext].
  assert (2 ^ k <= 64) as Hk64 by (change 64 with (2 ^ 6); apply Z.pow_le_mono_r; lia).
  assert (forall i, rot <= i < rot + 2 ^ k -> i < 64 -> Z.testbit v i = (i - rot <? len)) as Hw.
  { intros i Hi Hi64. rewrite Hb by lia. by rewrite Z.mod_small by lia. }
  assert (1 <= rot /\ rot + len <= 2 ^ k) as [Hrot1 Hrl].
  { rewrite Hb in H0 by lia. destruct (decide (rot = 0)) as [->|].
    - rewrite Z.mod_small in H0 by lia. apply Z.ltb_ge in H0. lia.
    - rewrite <- (Z.mod_add _ 1), Z.mod_small in H0 by lia. apply Z.ltb_ge in H0. lia. }
  assert (forall i, 0 <= i < rot -> Z.testbit v i = false) as Hlow.
  { intros i Hi. rewrite Hb by lia. rewrite <- (Z.mod_add _ 1), Z.mod_small by lia. apply Z.ltb_ge. lia. }
  assert (Z.testbit v rot = true) as Hrt by (rewrite Hw by lia; apply Z.ltb_lt; lia).
  assert (p = rot) as ->.
  { destruct (Z.lt_trichotomy p rot) as [H|[H|H]]; [|done|].
    - pose proof (Hones p ltac:(lia)). rewrite Hlow in * by lia. done.
    - rewrite Hbelow in Hrt by lia. done. }
  assert (e = rot + len) as ->.
  { destruct (Z.lt_trichotomy e (rot + len)) as [H|[H|H]]; [|done|].
    - pose proof (Hgap e ltac:(lia)) as Hf. rewrite Hw in Hf by lia. apply Z.ltb_ge in Hf. lia.
    - pose proof (Hones (rot + len) ltac:(lia)) as Hf. rewrite Hw in Hf by lia.
      apply Z.ltb_lt in Hf. lia. }
  assert (rot + 2 ^ k <= p1) as Hge.
  { apply Z.nlt_ge. intros H. rewrite Hw in Hnext by lia. apply Z.ltb_lt in Hnext. lia. }
  assert (p1 = rot + 2 ^ k) as ->.
  { destruct (decide (p1 = rot + 2 ^ k)) as [|Hne]; [done|].
    pose proof (Hgap (rot + 2 ^ k) ltac:(lia)) as Hf. rewrite Hb in Hf by lia.
    replace (rot + 2 ^ k - rot) with (2 ^ k) in Hf by ring. rewrite Z.mod_same in Hf by lia.
    apply Z.ltb_ge in Hf. lia. }
  split; [lia|]. apply Z.nlt_ge. intros H5. replace k with 6 in * by lia. lia.
Qed.

Lemma repeats_periodic (v k len rot : Z) :
  repeats v k len rot ->
  forall i, 0 <= i < 64 -> Z.testbit v i = Z.testbit v (i mod 2 ^ k).
Proof.
  intros (Hk & _ & _ & Hb) i Hi. pose proof (pow2_pos k ltac:(lia)).
  pose proof (Z.mod_pos_bound i (2 ^ k) ltac:(lia)).
  assert (2 ^ k <= 64) by (change 64 with (2 ^ 6); apply Z.pow_le_mono_r; lia).
  rewrite !Hb by lia. by rewrite Zminus_mod_idemp_l.
Qed.

(** [d & (d - 1) == 0] tests powers of two. *)
Lemma pow2_test (d : Z) :
  0 < d -> Z.land d (d - 1) = 0 <-> d = 2 ^ builtin_ctz d.
Proof.
  intros Hd. destruct (odd_part d Hd) as (q & Hq & E). pose proof (proj1 (ctz_spec d Hd)) as Hc.
  pose proof (pow2_pos (builtin_ctz d + 1) ltac:(lia)). rewrite E at 1 2. rewrite clear_low_bit by done.
  split; [intros H0|intros H1].
  - assert (q = 0) as -> by nia. lia.
  - assert (q = 0) as -> by nia. apply Z.mul_0_r.
Qed.

(** What the last steps of [IsBitmaskImmediate] decide for an even [val] with
    more than one run. *)
Lemma runs_decided (v p e p1 : Z) :
  0 <= v < 2 ^ 64 -> Z.testbit v 0 = false -> runs v p e p1 ->
  let d := p1 - p in
  bitmask_imm v <->
  d = 2 ^ builtin_ctz d /\
  (v =? wrap 64 (wrap d v * nth (Z.to_nat (5 - builtin_ctz d)) kBitmaskImmMultTable 0)) = true.
Proof.
  intros Hv H0 Hruns d. pose proof (runs_order _ _ _ _ Hruns) as Ho.
  assert (2 <= d < 64) as Hd by (unfold d; lia). split.
  - intros (_ & k & len & rot & Hrep). destruct (repeats_runs v p e p1 k len rot H0 Hrep Hruns) as [Ed Hk5].
    fold d in Ed. pose proof Hrep as (Hk & _).
    assert (builtin_ctz d = k) as Ek.
    { rewrite Ed, <- (Z.mul_1_r (2 ^ k)). change 1 with (2 * 0 + 1). apply ctz_odd; lia. }
    rewrite Ek. split; [done|]. rewrite Ed. apply pattern_mult; [done|lia|]. by apply (repeats_periodic _ _ len rot).
  - intros [Ed Hm]. pose proof (proj1 (ctz_spec d ltac:(lia))) as Hc. set (a := builtin_ctz d) in *.
    assert (1 <= a <= 5).
    { split; apply Z.nlt_ge; intros H.
      - replace a with 0 in Ed by lia. change (2 ^ 0) with 1 in Ed. lia.
      - pose proof (Z.pow_le_mono_r 2 6 a ltac:(lia) ltac:(lia)). change (2 ^ 6) with 64 in *. lia. }
    rewrite Ed in Hm at 1. pose proof (proj1 (pattern_mult v a Hv ltac:(lia)) Hm) as Hper.
    split; [done|]. exists a, (e - p), (p mod 2 ^ a). by apply (runs_repeats v p e p1).
Qed.

(** ** The 32-bit form *)

(** The low half of [x] in both halves of the register. *)
Definition twice32 (x : Z) : Z := Z.lor (shl 64 x 32) (Z.land x (2 ^ 32 - 1)).

Lemma twice32_eq (x : Z) : twice32 x = wrap 32 x * (1 + 2 ^ 32).
Proof.
  unfold twice32. rewrite <- (double_mul 32) by (lia || by apply wrap_range; lia).
  change (2 ^ 32 - 1) with (Z.ones 32). rewrite land_ones_wrap, Z.lor_comm by lia. f_equal.
  unfold shl. change (32 mod 64) with 32. apply bits_ext. intros i Hi.
  rewrite testbit_wrap, !Z.shiftl_spec, testbit_wrap by lia. f_equal. bool_cases.
Qed.

Lemma twice32_range (x : Z) : 0 <= twice32 x < 2 ^ 64.
Proof. rewrite twice32_eq. pose proof (wrap_range 32 x ltac:(lia)). lia. Qed.

Lemma testbit_twice32 (x i : Z) : 0 <= i < 64 -> Z.testbit (twice32 x) i = Z.testbit x (i mod 32).
Proof.
  intros Hi. rewrite twice32_eq, <- (double_mul 32) by (lia || by apply wrap_range; lia).
  rewrite testbit_double by (lia || by apply wrap_range; lia).
  pose proof (Z.mod_pos_bound i 32 ltac:(lia)). rewrite testbit_wrap by lia.
  by rewrite (proj2 (Z.ltb_lt _ _)) by lia.
Qed.

Lemma testbit_notw (x i : Z) : 0 <= i < 64 -> Z.testbit (notw 64 x) i = negb (Z.testbit x i).
Proof.
  intros Hi. unfold notw. rewrite testbit_wrap, Z.lnot_spec by lia.
  by rewrite (proj2 (Z.ltb_lt _ _)) by lia.
Qed.

Lemma twice32_notw (x : Z) : twice32 (notw 64 x) = notw 64 (twice32 x).
Proof.
  apply (word_ext 64); [apply twice32_range|apply notw_range|]. intros i Hi.
  pose proof (Z.mod_pos_bound i 32 ltac:(lia)).
  by rewrite testbit_notw, !testbit_twice32, testbit_notw by lia.
Qed.

(** The register value an immediate of an instruction of [bitLen] bits stands
    for. *)
Definition imm_pattern (bitLen val : Z) : Z := if bitLen =? 32 then twice32 val else val.

Lemma imm_pattern_range (bitLen val : Z) :
  0 <= val < 2 ^ 64 -> 0 <= imm_pattern bitLen val < 2 ^ 64.
Proof. unfold imm_pattern. destruct (_ =? _); [intros _; apply twice32_range|done]. Qed.

Lemma imm_pattern_notw (bitLen val : Z) :
  imm_pattern bitLen (notw 64 val) = notw 64 (imm_pattern bitLen val).
Proof. unfold imm_pattern. destruct (_ =? _); [apply twice32_notw|done]. Qed.

Lemma testbit0_imm_pattern (bitLen val : Z) :
  Z.testbit (imm_pattern bitLen val) 0 = Z.testbit val 0.
Proof. unfold imm_pattern. destruct (_ =? _); [by rewrite testbit_twice32 by lia|done]. Qed.

Lemma not_bitmask_ones : ~ bitmask_imm (2 ^ 64 - 1).
Proof.
  intros (_ & k & len & rot & Hk & Hl & Hr & Hb). pose proof (pow2_pos k ltac:(lia)).
  pose proof (Z.mod_pos_bound (rot + len) (2 ^ k) ltac:(lia)) as Hm.
  assert (2 ^ k <= 64) by (change 64 with (2 ^ 6); apply Z.pow_le_mono_r; lia).
  specialize (Hb ((rot + len) mod 2 ^ k) ltac:(lia)).
  rewrite Zminus_mod_idemp_l in Hb. replace (rot + len - rot) with len in Hb by ring.
  rewrite (Z.mod_small len), Z.ltb_irrefl in Hb by lia.
  change (2 ^ 64 - 1) with (Z.ones 64) in Hb. rewrite testbit_ones in Hb by lia.
  rewrite (proj2 (Z.leb_le _ _)), (proj2 (Z.ltb_lt _ _)) in Hb by lia. done.
Qed.

(** ** The decision procedure on an even pattern *)

Definition decide_runs (expectedOutcome : bool) (val : Z) : res bool :=
  let tmpVal := wrap 64 (val + Z.land val (wrap 64 (2 ^ 64 - 1 - val + 1))) in
  let tmpVal := Z.land tmpVal (wrap 64 (tmpVal - 1)) in
  if tmpVal =? 0 then
    if negb expectedOutcome then Ret false
    else ASSERT expectedOutcome ;; Ret true
  else
  let p0 := builtin_ctz val in
  let p1 := builtin_ctz tmpVal in
  let diff := p1 - p0 in
  if negb (Z.land (wrap 64 diff) (wrap 64 (wrap 64 diff - 1)) =? 0) then
    ASSERT (negb expectedOutcome) ;; Ret false
  else
  let logDiff := builtin_ctz (wrap 64 diff) in
  let pattern := Z.land val (wrap 64 (shl 64 1 (wrap 64 diff) - 1)) in
  let ret := val =? wrap 64 (pattern * nth (Z.to_nat (kMaxBitTableSize - logDiff)) kBitmaskImmMultTable 0) in
  ASSERT (eqb expectedOutcome ret) ;; Ret ret.

Lemma IsBitmaskImmediate_runs (val bitLen : Z) :
  0 <= val < 2 ^ 64 -> val <> 0 -> val <> 2 ^ 64 - 1 ->
  (bitLen =? 32) && (swrap 32 val =? -1) = false ->
  IsBitmaskImmediate val bitLen =
  decide_runs (in_ValidBitmaskImmSet (imm_pattern bitLen val))
    (if Z.testbit val 0 then notw 64 (imm_pattern bitLen val) else imm_pattern bitLen val).
Proof.
  intros Hv Hnz Hn1 H32. unfold IsBitmaskImmediate.
  rewrite (proj2 (Z.eqb_neq val 0)) by done.
  assert (swrap 64 val =? -1 = false) as ->.
  { unfold swrap. rewrite wrap_small by done. bool_cases. }
  cbn [negb ASSERT mbind res_bind]. rewrite H32. fold (twice32 val).
  assert (Z.land val 1 =? 0 = negb (Z.testbit val 0)) as ->.
  { change 1 with (Z.ones 1). rewrite Z.land_ones by lia. change (2 ^ 1) with 2.
    rewrite Zmod_odd, Z.bit0_odd. by destruct (Z.odd val). }
  rewrite negb_involutive. fold (imm_pattern bitLen val).
  assert ((if Z.testbit val 0 then notw 64 (imm_pattern bitLen val) else imm_pattern bitLen val) =
          imm_pattern bitLen (if Z.testbit val 0 then notw 64 val else val)) as ->.
  { destruct (Z.testbit val 0); [by rewrite imm_pattern_notw|done]. }
  reflexivity.
Qed.

Lemma decide_runs_spec (expected : bool) (v : Z) :
  0 <= v < 2 ^ 64 -> Z.testbit v 0 = false -> (expected = true <-> bitmask_imm v) ->
  decide_runs expected v = Ret expected.
Proof.
  intros Hv H0 Hexp. unfold decide_runs. destruct (decide (v = 0)) as [->|Hnz].
  { by destruct expected. }
  destruct (first_run_removed v ltac:(lia)) as [Hr|(Hr & e & Hruns)]; cbn zeta in *.
  { rewrite Hr. by destruct expected. }
  rewrite (proj2 (Z.eqb_neq _ 0)) by lia.
  set (rest := Z.land _ _) in *. set (p := builtin_ctz v) in *. set (p1 := builtin_ctz rest) in *.
  pose proof (runs_order _ _ _ _ Hruns) as Ho. pose proof (runs_decided v p e p1 Hv H0 Hruns) as Hdec.
  cbn zeta in Hdec. set (d := p1 - p) in *. assert (2 <= d < 64) by (unfold d; lia).
  rewrite !(wrap_small 64 d) by lia. rewrite (wrap_small 64 (d - 1)) by lia.
  pose proof (pow2_test d ltac:(lia)) as Hpow. unfold shl. rewrite Z.mod_small, Z.shiftl_1_l by lia.
  pose proof (Z.pow_lt_mono_r 2 d 64 ltac:(lia) ltac:(lia) ltac:(lia)). pose proof (pow2_pos d ltac:(lia)).
  rewrite (wrap_small 64 (2 ^ d)), (wrap_small 64 (2 ^ d - 1)) by lia.
  replace (2 ^ d - 1) with (Z.ones d) by (rewrite Z.ones_equiv; lia).
  rewrite land_ones_wrap by lia. change kMaxBitTableSize with 5.
  destruct (Z.eqb_spec (Z.land d (d - 1)) 0) as [Ep|Ep]; cbn [negb].
  - set (ret := v =? _) in *. assert (expected = ret) as <-.
    { apply eq_true_iff_eq. rewrite Hexp, Hdec. split; [by intros [_ Hm]|]. intros Hm.
      split; [by apply Hpow|done]. }
    by destruct expected.
  - destruct expected; [|done]. exfalso. apply Ep, Hpow. apply Hdec. by apply Hexp.
Qed.

(** The whole function: with the values the callers exclude left out, no
    assertion fails, and the answer is the architecture's. *)
Lemma IsBitmaskImmediate_eq (val bitLen : Z) :
  0 <= val < 2 ^ 64 -> val <> 0 -> val <> 2 ^ 64 - 1 ->
  exists b, IsBitmaskImmediate val bitLen = Ret b /\
            (b = true <-> bitmask_imm (imm_pattern bitLen val)).
Proof.
  intros Hv Hnz Hn1. pose proof (imm_pattern_range bitLen val Hv) as Hr.
  destruct ((bitLen =? 32) && (swrap 32 val =? -1)) eqn:E32.
  - exists false. unfold IsBitmaskImmediate. rewrite (proj2 (Z.eqb_neq val 0)) by done.
    assert (swrap 64 val =? -1 = false) as ->.
    { unfold swrap. rewrite wrap_small by done. bool_cases. }
    cbn [negb ASSERT mbind res_bind]. rewrite E32. split; [done|]. split; [done|].
    apply andb_true_iff in E32 as [E1 Es%Z.eqb_eq].
    intros Hb. exfalso. apply not_bitmask_ones. unfold imm_pattern in Hb. rewrite E1, twice32_eq in Hb.
    assert (wrap 32 val = 2 ^ 32 - 1) as E.
    { rewrite <- (swrap_congr 32) by lia. by rewrite Es. }
    by rewrite E in Hb.
  - rewrite IsBitmaskImmediate_runs by done. eexists.
    assert (in_ValidBitmaskImmSet (imm_pattern bitLen val) = true <-> bitmask_imm (imm_pattern bitLen val))
      as Hset by by apply in_ValidBitmaskImmSet_spec.
    split; [|exact Hset]. pose proof (testbit0_imm_pattern bitLen val) as H0.
    apply decide_runs_spec.
    + destruct (Z.testbit val 0); [apply notw_range|done].
    + destruct (Z.testbit val 0) eqn:E0; [by rewrite testbit_notw, H0 by lia|done].
    + rewrite Hset. destruct (Z.testbit val 0); [by rewrite bitmask_imm_notw|done].
Qed.
