(* ===== verification/A64MoveFacts.v ===== *)
(** * Which constants one move loads

    [IsSingleInstructionMovable32], [IsSingleInstructionMovable64] and
    [BetterUseMOVZ]: the constants they accept, and that none of their
    assertions fails. *)

From S2P Require Import Prelude.
From S2P Require Import IntWords.
From S2P Require Import IntWordsFacts.
From S2P Require Import A64Imm.
From S2P Require Import A64ImmFacts.

(** The constants of [movz]: a 16-bit chunk shifted by a multiple of 16. *)
Definition wide_imm (w x : Z) : Prop :=
  exists i h, 0 <= i < w / 16 /\ 0 <= h < 2 ^ 16 /\ x = h * 2 ^ (16 * i).

(** The constants of one [mov]: [movz], [movn] or [orr] with a logical
    immediate. *)
Definition movable64 (x : Z) : Prop :=
  wide_imm 64 x \/ wide_imm 64 (notw 64 x) \/ bitmask_imm x.

Definition movable32 (x : Z) : Prop :=
  wide_imm 32 x \/ wide_imm 32 (notw 32 x) \/ bitmask_imm (twice32 x).

(** ** [movz] *)

Lemma testbit_chunk_mask (s i : Z) :
  0 <= s -> 0 <= i -> Z.testbit (Z.shiftl (Z.ones 16) s) i = (s <=? i) && (i <? s + 16).
Proof.
  intros Hs Hi. rewrite testbit_shiftl by lia.
  destruct (Z.leb_spec s i); cbn [andb].
  - rewrite testbit_ones by lia. bool_cases.
  - by rewrite Z.testbit_neg_r by lia.
Qed.

Lemma land_chunk (x s : Z) :
  0 <= s -> (Z.land x (Z.shiftl (Z.ones 16) s) =? x) = true <->
            exists h, 0 <= h < 2 ^ 16 /\ x = h * 2 ^ s.
Proof.
  intros Hs. rewrite Z.eqb_eq. split.
  - intros E. exists (wrap 16 (Z.shiftr x s)). split; [by apply wrap_range|].
    rewrite <- Z.shiftl_mul_pow2 by lia. rewrite <- E at 1. apply bits_ext. intros i Hi.
    rewrite Z.land_spec, testbit_chunk_mask, Z.shiftl_spec by lia.
    destruct (Z.leb_spec s i); cbn [andb]; [|by rewrite andb_false_r, Z.testbit_neg_r by lia].
    rewrite testbit_wrap, Z.shiftr_spec by lia. replace (i - s + s) with i by ring. rewrite andb_comm. bool_cases.
  - intros (h & Hh & ->). rewrite <- Z.shiftl_mul_pow2 by lia. apply bits_ext. intros i Hi.
    rewrite Z.land_spec, testbit_chunk_mask, Z.shiftl_spec by lia.
    destruct (Z.leb_spec s i); cbn [andb]; [|by rewrite Z.testbit_neg_r by lia].
    destruct (Z.ltb_spec i (s + 16)); [by rewrite andb_true_r|].
    by rewrite (testbit_above 16) by lia.
Qed.

Lemma shl_ffff (i : Z) : 0 <= i <= 3 -> shl 64 0xffff (16 * i) = Z.shiftl (Z.ones 16) (16 * i).
Proof.
  intros Hi. assert (i = 0 \/ i = 1 \/ i = 2 \/ i = 3) as H by lia.
  by destruct H as [->|[->|[->| ->]]].
Qed.

Lemma IsMoveWidableImmediate_64 (x : Z) : IsMoveWidableImmediate x 64 = true <-> wide_imm 64 x.
Proof.
  unfold IsMoveWidableImmediate. change (64 =? 64) with true. cbv iota.
  change 0xffff with (shl 64 0xffff (16 * 0)) at 4. change 48 with (16 * 3).
  change 32 with (16 * 2). change (shl 64 65535 16) with (shl 64 65535 (16 * 1)).
  rewrite !shl_ffff by lia.
  transitivity (exists i, 0 <= i < 4 /\ (Z.land x (Z.shiftl (Z.ones 16) (16 * i)) =? x) = true).
  - destruct (_ || _) eqn:E; rewrite ?orb_true_iff, ?orb_false_iff in *.
    + split; [|done]. intros _. destruct E as [E|E]; [exists 3|exists 2]; split; done || lia.
    + split.
      * intros [H|H]; [exists 1|exists 0]; split; done || lia.
      * intros (i & Hi & H). assert (i = 0 \/ i = 1 \/ i = 2 \/ i = 3) as Hc by lia.
        destruct Hc as [->|[->|[->| ->]]]; destruct E; tauto || congruence.
  - unfold wide_imm. change (64 / 16) with 4. split.
    + intros (i & Hi & H). apply land_chunk in H as (h & Hh & H); [|lia]. by exists i, h.
    + intros (i & h & Hi & Hh & H). exists i. split; [done|]. apply land_chunk; [lia|]. by exists h.
Qed.

Lemma IsMoveWidableImmediate_32 (x : Z) :
  IsMoveWidableImmediate x 32 = true <-> wide_imm 32 (wrap 32 x).
Proof.
  unfold IsMoveWidableImmediate. change (32 =? 64) with false. cbv iota.
  change 0xffffffff with (Z.ones 32). rewrite land_ones_wrap by lia. cbn zeta.
  set (y := wrap 32 x). change 0xffff with (shl 64 0xffff (16 * 0)) at 2.
  change 16 with (16 * 1) at 1. rewrite !shl_ffff, orb_true_iff by lia.
  unfold wide_imm. change (32 / 16) with 2. rewrite !land_chunk by lia. split.
  - intros [(h & Hh & H)|(h & Hh & H)]; [exists 1, h|exists 0, h]; split_and!; done || lia.
  - intros (i & h & Hi & Hh & H). assert (i = 0 \/ i = 1) as Hc by lia.
    destruct Hc as [-> | ->]; [right|left]; by exists h.
Qed.

Lemma wide_imm_0 (w : Z) : 16 <= w -> wide_imm w 0.
Proof.
  intros Hw. exists 0, 0. split_and!; try lia. apply Z.div_str_pos. lia.
Qed.

Lemma notw_wrap (w x : Z) : 0 <= w -> notw w (wrap w x) = notw w x.
Proof. intros Hw. unfold notw, Z.lnot. rewrite <- !Z.sub_1_r, <- !(Z.sub_0_l (_ x)), <- (Z.sub_0_l x).
  rewrite <- !Z.sub_add_distr, !(Z.add_comm _ 1), !Z.sub_add_distr. by rewrite wrap_sub_r.
Qed.

(** ** One move for a 64-bit constant *)

Lemma bitmask_imm_half : bitmask_imm 0xffffffff.
Proof. apply in_ValidBitmaskImmSet_spec; [done|]. vm_compute. reflexivity. Qed.

Lemma IsMoveWidableImmediateCopy_64 (x : Z) :
  IsMoveWidableImmediateCopy x 64 = true <-> wide_imm 64 x \/ x = 0xffffffff.
Proof.
  rewrite <- IsMoveWidableImmediate_64. unfold IsMoveWidableImmediateCopy.
  destruct (Z.eqb_spec x 0) as [->|Hx]; [split; [by left|done]|].
  destruct (Z.eqb_spec x 0xffffffff) as [->|Hx']; [split; [by right|done]|].
  cbn [orb]. fold (IsMoveWidableImmediate x 64). tauto.
Qed.

Lemma IsSingleInstructionMovable64_eq (v : Z) :
  exists b, IsSingleInstructionMovable64 v = Ret b /\ (b = true <-> movable64 (wrap 64 v)).
Proof.
  unfold IsSingleInstructionMovable64, movable64. rewrite <- (notw_wrap 64 v) by lia.
  pose proof (wrap_range 64 v ltac:(lia)) as Hr. set (x := wrap 64 v) in *.
  destruct (IsMoveWidableImmediateCopy x 64) eqn:E1.
  { exists true. split; [done|]. split; [intros _|done].
    apply IsMoveWidableImmediateCopy_64 in E1 as [E1| ->]; [by left|]. right. right. apply bitmask_imm_half. }
  destruct (IsMoveWidableImmediateCopy (notw 64 x) 64) eqn:E2.
  { exists true. split; [done|]. split; [intros _|done].
    apply IsMoveWidableImmediateCopy_64 in E2 as [E2|E2]; [by right; left|].
    right. right. apply bitmask_imm_notw; [done|]. rewrite E2. apply bitmask_imm_half. }
  assert (~ wide_imm 64 x) as N1.
  { intros H. apply eq_true_false_abs in E1; [done|]. apply IsMoveWidableImmediateCopy_64. by left. }
  assert (~ wide_imm 64 (notw 64 x)) as N2.
  { intros H. apply eq_true_false_abs in E2; [done|]. apply IsMoveWidableImmediateCopy_64. by left. }
  assert (x <> 0) as H0 by (intros ->; apply N1, wide_imm_0; lia).
  assert (x <> 2 ^ 64 - 1) as H1 by (intros ->; apply N2; apply (wide_imm_0 64); lia).
  destruct (IsBitmaskImmediate_eq x 64 Hr H0 H1) as (b & -> & Hb). exists b. split; [done|].
  rewrite Hb. unfold imm_pattern. cbn [Z.eqb Pos.eqb]. tauto.
Qed.

(** ** One move for a 32-bit constant *)

Lemma IsMoveWidableImmediateCopy_32 (x : Z) :
  0 <= x < 2 ^ 64 ->
  IsMoveWidableImmediateCopy x 32 = true <->
  x = 0 \/ x = 0xffffffff \/ wrap 32 x <> 0 /\ wide_imm 32 (wrap 32 x).
Proof.
  intros Hx. rewrite <- IsMoveWidableImmediate_32. unfold IsMoveWidableImmediateCopy.
  destruct (Z.eqb_spec x 0) as [->|Hx0]; [split; [by left|done]|].
  destruct (Z.eqb_spec x 0xffffffff) as [->|Hx']; [split; [by right; left|done]|].
  cbn [orb]. unfold IsMoveWidableImmediate. change (32 =? 64) with false. cbv iota.
  change 0xffffffff with (Z.ones 32). rewrite land_ones_wrap by lia. cbn zeta.
  destruct (Z.eqb_spec (wrap 32 x) 0); [|tauto]. split; [done|]. tauto.
Qed.

Lemma notw_32_64 (x : Z) : notw 32 (wrap 32 x) = wrap 32 (notw 64 x).
Proof. rewrite notw_wrap by lia. unfold notw. by rewrite wrap_wrap_le by lia. Qed.

(** The high half of a 32-bit immediate is a zero or a sign extension. *)
Definition extended32 (v : Z) : Prop := - 2 ^ 32 <= v < 2 ^ 32.

Lemma high_half (x : Z) :
  0 <= x < 2 ^ 64 -> Z.land x 0xffffffff00000000 = x - wrap 32 x.
Proof.
  intros Hx. change 0xffffffff00000000 with (Z.shiftl (Z.ones 32) 32).
  replace (x - wrap 32 x) with (2 ^ 32 * (x / 2 ^ 32) + 0)
    by (rewrite wrap_quot by lia; ring).
  apply bits_ext. intros i Hi. rewrite Z.land_spec, testbit_shiftl, testbit_split by lia.
  rewrite testbit_ones, Z.testbit_0_l by lia.
  destruct (Z.ltb_spec i 32).
  - rewrite (proj2 (Z.leb_gt _ _)) by lia. apply andb_false_r.
  - rewrite Z.div_pow2_bits by lia. replace (i - 32 + 32) with i by ring. rewrite (proj2 (Z.leb_le _ _)) by lia. cbn [andb].
    destruct (Z.ltb_spec (i - 32) 32); [apply andb_true_r|].
    by rewrite (testbit_above 64) by lia.
Qed.

Lemma extended_high (v : Z) :
  - 2 ^ 63 <= v < 2 ^ 63 ->
  let high := Z.land (wrap 64 v) 0xffffffff00000000 in
  negb (high =? 0) && negb (high =? 0xffffffff00000000) = false <-> extended32 v.
Proof.
  intros Hv. cbn zeta. rewrite high_half by (apply wrap_range; lia).
  rewrite wrap_wrap_le by lia. unfold extended32. rewrite andb_false_iff, !negb_false_iff, !Z.eqb_eq.
  rewrite !wrap_quot by lia. destruct (decide (0 <= v)).
  - replace (v / 2 ^ 64) with 0 by (symmetry; apply Z.div_small; lia).
    pose proof (Z.mul_div_le v (2 ^ 32) ltac:(lia)). pose proof (Z.mul_succ_div_gt v (2 ^ 32) ltac:(lia)). lia.
  - replace (v / 2 ^ 64) with (-1) by (apply (Z.div_unique _ _ _ (v + 2 ^ 64)); lia).
    pose proof (Z.mul_div_le v (2 ^ 32) ltac:(lia)). pose proof (Z.mul_succ_div_gt v (2 ^ 32) ltac:(lia)). lia.
Qed.

(** The two special cases of [IsMoveWidableImmediateCopy] catch the halves whose
    32-bit pattern is 0. *)
Lemma IsMoveWidableImmediateCopy_ext (x : Z) :
  0 <= x < 2 ^ 32 \/ 2 ^ 64 - 2 ^ 32 <= x < 2 ^ 64 ->
  IsMoveWidableImmediateCopy x 32 || IsMoveWidableImmediateCopy (notw 64 x) 32 = true <->
  wide_imm 32 (wrap 32 x) \/ wide_imm 32 (wrap 32 (notw 64 x)).
Proof.
  intros Hx. rewrite orb_true_iff, !IsMoveWidableImmediateCopy_32 by (lia || apply notw_range).
  pose proof (wide_imm_0 32 ltac:(lia)) as H0. rewrite notw_spec by lia.
  assert (wrap 32 x = x \/ wrap 32 x = x - (2 ^ 64 - 2 ^ 32)) as Ex.
  { destruct Hx; [left|right]; [by apply wrap_small|].
    rewrite (wrap_congr 32 x (x - (2 ^ 64 - 2 ^ 32)) (2 ^ 32 - 1)), wrap_small by lia. done. }
  assert (wrap 32 (2 ^ 64 - 1 - x) = 2 ^ 32 - 1 - wrap 32 x) as En.
  { apply (wrap_unique 32 _ _ (if decide (x < 2 ^ 32) then 2 ^ 32 - 1 else 0)).
    - pose proof (wrap_range 32 x ltac:(lia)). lia.
    - pose proof (wrap_range 32 x ltac:(lia)). case_decide; lia. }
  rewrite En. pose proof (wrap_range 32 x ltac:(lia)) as Hy. set (y := wrap 32 x) in *. split.
  - intros [[->|[->|[_ H]]]|[H|[H|[_ H]]]]; try tauto.
    + right. by replace (2 ^ 32 - 1 - y) with 0 by lia.
    + left. by replace y with 0 by lia.
  - intros [H|H].
    + destruct (decide (y = 0)) as [E|E]; [|tauto].
      destruct Hx; [left; left; lia|right; right; left; lia].
    + destruct (decide (y = 2 ^ 32 - 1)) as [E|E]; [|right; right; right; split; [lia|done]].
      destruct Hx; [left; right; left; lia|right; left; lia].
Qed.

Lemma IsSingleInstructionMovable32_eq (v : Z) :
  - 2 ^ 63 <= v < 2 ^ 63 ->
  exists b, IsSingleInstructionMovable32 v = Ret b /\
            (b = true <-> extended32 v /\ movable32 (wrap 32 v)).
Proof.
  intros Hv. unfold IsSingleInstructionMovable32. pose proof (extended_high v Hv) as He. cbn zeta in *.
  destruct (negb _ && negb _).
  { exists false. split; [done|]. split; [done|]. intros [H _]. by apply He in H. }
  pose proof (proj1 He eq_refl) as Hext. clear He. unfold movable32, extended32 in *.
  rewrite <- (wrap_wrap_le 32 64 v), notw_32_64, <- (notw_wrap 64 v) by lia.
  assert (0 <= wrap 64 v < 2 ^ 32 \/ 2 ^ 64 - 2 ^ 32 <= wrap 64 v < 2 ^ 64) as Hx.
  { destruct (decide (0 <= v)); [left|right].
    - rewrite wrap_small by lia. lia.
    - rewrite (wrap_congr 64 v (v + 2 ^ 64) (-1)), wrap_small by lia. lia. }
  set (x := wrap 64 v) in *. pose proof (IsMoveWidableImmediateCopy_ext x Hx) as Hw.
  destruct (IsMoveWidableImmediateCopy x 32) eqn:E1; [exists true; tauto|].
  destruct (IsMoveWidableImmediateCopy (notw 64 x) 32) eqn:E2; [exists true; tauto|].
  cbn [orb] in Hw.
  assert (x <> 0) by (intros E; by rewrite E in E1).
  assert (x <> 2 ^ 64 - 1) by (intros E; by rewrite E in E2).
  destruct (IsBitmaskImmediate_eq x 32 ltac:(lia)) as (b & -> & Hb); [done..|]. exists b.
  split; [done|]. rewrite Hb. unfold imm_pattern. cbn [Z.eqb Pos.eqb].
  rewrite !twice32_eq, wrap_wrap by lia. split; [tauto|].
  intros [_ [H1|[H1|H1]]]; [..|done]; exfalso; by assert (false = true) by tauto.
Qed.

(** ** The chunks of a constant *)

Lemma chunk_spec (x i : Z) : 0 <= i <= 3 -> chunk x i = wrap 16 (Z.shiftr x (16 * i)).
Proof.
  intros Hi. unfold chunk, shr. rewrite Z.mod_small by lia.
  change 0xffff with (Z.ones 16). by apply land_ones_wrap.
Qed.

Lemma chunk_range (x i : Z) : 0 <= i <= 3 -> 0 <= chunk x i < 2 ^ 16.
Proof. intros Hi. rewrite chunk_spec by done. by apply wrap_range. Qed.

Lemma testbit_chunk (x i j : Z) :
  0 <= i <= 3 -> 0 <= j < 16 -> Z.testbit (chunk x i) j = Z.testbit x (16 * i + j).
Proof.
  intros Hi Hj. rewrite chunk_spec, testbit_wrap, Z.shiftr_spec by lia.
  rewrite (proj2 (Z.ltb_lt _ _)) by lia. cbn [andb]. f_equal. lia.
Qed.

Lemma chunks (x : Z) :
  0 <= x < 2 ^ 64 ->
  x = chunk x 0 + 2 ^ 16 * chunk x 1 + 2 ^ 32 * chunk x 2 + 2 ^ 48 * chunk x 3.
Proof.
  intros Hx. rewrite !chunk_spec by lia. unfold wrap. rewrite !Z.shiftr_div_pow2 by lia.
  change (16 * 0) with 0. change (16 * 1) with 16. change (16 * 2) with (16 + 16).
  change (16 * 3) with (16 + 16 + 16). rewrite !Z.pow_add_r, <- !Z.div_div by lia.
  rewrite Z.div_1_r. set (a := x / 2 ^ 16). set (b := a / 2 ^ 16). set (c := b / 2 ^ 16).
  pose proof (Z.div_mod x (2 ^ 16) ltac:(lia)) as E1. pose proof (Z.div_mod a (2 ^ 16) ltac:(lia)) as E2.
  pose proof (Z.div_mod b (2 ^ 16) ltac:(lia)) as E3. fold a in E1. fold b in E2. fold c in E3.
  assert (0 <= c < 2 ^ 16) as Hc.
  { unfold c, b, a. rewrite !Z.div_div by lia. split; [apply Z.div_pos; lia|].
    apply Z.div_lt_upper_bound; lia. }
  rewrite (Z.mod_small c) by done. lia.
Qed.

Lemma wide_chunk (x : Z) (i : Z) :
  0 <= x < 2 ^ 64 -> 0 <= i <= 3 ->
  (forall j, 0 <= j <= 3 -> j <> i -> chunk x j = 0) -> wide_imm 64 x.
Proof.
  intros Hx Hi H. exists i, (chunk x i). change (64 / 16) with 4. split; [lia|].
  split; [by apply chunk_range|]. rewrite (chunks x Hx) at 1.
  assert (i = 0 \/ i = 1 \/ i = 2 \/ i = 3) as Hc by lia.
  destruct Hc as [->|[->|[->| ->]]]; rewrite ?(H 0), ?(H 1), ?(H 2), ?(H 3) by lia; lia.
Qed.

Lemma chunk_notw (x i : Z) : 0 <= i <= 3 -> chunk (notw 64 x) i = 2 ^ 16 - 1 - chunk x i.
Proof.
  intros Hi. pose proof (chunk_range x i Hi). rewrite <- notw_spec by lia.
  apply (word_ext 16); [by apply chunk_range|unfold notw; by apply wrap_range|]. intros j Hj.
  rewrite testbit_chunk, testbit_notw by lia. unfold notw.
  rewrite testbit_wrap, Z.lnot_spec, testbit_chunk by lia. by rewrite (proj2 (Z.ltb_lt _ _)) by lia.
Qed.

(** At most two chunks of a constant that is not a [movz] are zero. *)
Lemma few_chunks (x v : Z) (l : list Z) :
  (forall i, 0 <= i <= 3 -> exists j, 0 <= j <= 3 /\ j <> i /\ chunk x j <> v) ->
  l = [0; 1; 2; 3] ->
  (length (filter (fun i => chunk x i = v) l) <= 2)%nat.
Proof.
  intros H ->. destruct (H 0 ltac:(lia)) as (a & Ha & Hna & Hca).
  assert (exists b, 0 <= b <= 3 /\ b <> a /\ chunk x b <> v) as (b & Hb & Hnb & Hcb) by (by apply H).
  assert (forall j, 0 <= j <= 3 -> j = 0 \/ j = 1 \/ j = 2 \/ j = 3) as Hcs by lia.
  apply Hcs in Ha, Hb.
  destruct Ha as [->|[->|[->| ->]]], Hb as [->|[->|[->| ->]]]; try done; cbn;
    repeat case_decide; cbn [length]; (lia || congruence).
Qed.

Lemma not_wide_chunks (x v : Z) :
  (forall i, 0 <= i <= 3 -> (forall j, 0 <= j <= 3 -> j <> i -> chunk x j = v) -> False) ->
  forall i, 0 <= i <= 3 -> exists j, 0 <= j <= 3 /\ j <> i /\ chunk x j <> v.
Proof.
  intros H i Hi.
  destruct (decide (Exists (fun j => j <> i /\ chunk x j <> v) [0; 1; 2; 3])) as [He|Hn].
  - apply Exists_exists in He as (j & Hj & Hne & Hc). exists j.
    split; [|done]. rewrite list_elem_of_In in Hj. cbn in Hj. lia.
  - exfalso. apply (H i Hi). intros j Hj Hne. destruct (decide (chunk x j = v)) as [|Hc]; [done|].
    exfalso. apply Hn, Exists_exists. exists j. split; [|done].
    rewrite list_elem_of_In. cbn. lia.
Qed.

(** [BetterUseMOVZ] is asked of constants that no single move loads. *)
Lemma BetterUseMOVZ_ok (x : Z) :
  0 <= x < 2 ^ 64 -> ~ wide_imm 64 x -> ~ wide_imm 64 (notw 64 x) -> exists b, BetterUseMOVZ x = Ret b.
Proof.
  intros Hx H0 H1. unfold BetterUseMOVZ.
  pose proof (few_chunks x 0 [0; 1; 2; 3]) as F0. pose proof (few_chunks x 0xffff [0; 1; 2; 3]) as F1.
  pose (zo := filter (fun i => chunk x i ≠ 0 /\ chunk x i = 0xffff) [0; 1; 2; 3]).
  pose (o := filter (fun i => chunk x i = 0xffff) [0; 1; 2; 3]).
  assert (length zo <= length o)%nat as Hle.
  { unfold zo, o. cbn. repeat case_decide; cbn [length]; try lia; tauto. }
  fold zo. pose (z := filter (fun i => chunk x i = 0) [0; 1; 2; 3]). fold z.
  assert (length z <= 2)%nat as Hz.
  { apply F0; [apply not_wide_chunks|done]. intros i Hi Hall. apply H0. by apply (wide_chunk x i). }
  assert (length o <= 2)%nat as Ho.
  { apply F1; [apply not_wide_chunks|done].
    intros i Hi Hall. apply H1. apply (wide_chunk _ i); [apply notw_range|done|].
    intros j Hj Hne. rewrite chunk_notw, Hall by done. done. }
  rewrite (proj2 (Nat.leb_le (length z) 2) Hz), (proj2 (Nat.leb_le (length zo) 2)) by lia. by eexists.
Qed.

(** ** Immediates of a bit size *)

Lemma land_high (b y : Z) :
  0 <= b < 64 -> 0 <= y < 2 ^ 64 ->
  (Z.land (shl 64 0xffffffffffffffff b) y =? 0) = (y <? 2 ^ b).
Proof.
  intros Hb Hy. change 0xffffffffffffffff with (Z.ones 64). unfold shl. rewrite (Z.mod_small b) by lia.
  rewrite Z.land_comm, land_wrap by lia. pose proof (pow2_pos b ltac:(lia)).
  assert (Z.land y (Z.shiftl (Z.ones 64) b) = 2 ^ b * (y / 2 ^ b)) as ->.
  { rewrite <- (Z.add_0_r (2 ^ b * _)). apply bits_ext. intros i Hi.
    rewrite Z.land_spec, testbit_shiftl, testbit_split, testbit_ones, Z.testbit_0_l by lia.
    destruct (Z.ltb_spec i b).
    - rewrite (proj2 (Z.leb_gt _ _)) by lia. apply andb_false_r.
    - rewrite (proj2 (Z.leb_le _ _)), Z.div_pow2_bits by lia. replace (i - b + b) with i by ring.
      destruct (Z.ltb_spec (i - b) 64); [apply andb_true_r|]. by rewrite (testbit_above 64) by lia. }
  destruct (Z.ltb_spec y (2 ^ b)).
  - by rewrite Z.div_small, Z.mul_0_r by lia.
  - apply Z.eqb_neq. pose proof (Z.div_le_lower_bound y (2 ^ b) 1 ltac:(lia) ltac:(lia)). lia.
Qed.

Lemma IsBitSizeImmediate_eq (x b n : Z) :
  0 <= b < 64 -> 0 <= n < 64 -> 0 <= x < 2 ^ 64 ->
  IsBitSizeImmediate x b n = (x mod 2 ^ n =? 0) && (x / 2 ^ n <? 2 ^ b).
Proof.
  intros Hb Hn Hx. pose proof (pow2_pos n ltac:(lia)).
  pose proof (Z.pow_lt_mono_r 2 n 64 ltac:(lia) ltac:(lia) ltac:(lia)).
  unfold IsBitSizeImmediate, shr. rewrite (Z.mod_small n 64), land_high.
  - f_equal; [|by rewrite Z.shiftr_div_pow2 by lia].
    unfold shl. rewrite Z.mod_small, Z.shiftl_1_l, !wrap_small by (rewrite ?wrap_small; lia).
    replace (2 ^ n - 1) with (Z.ones n) by (rewrite Z.ones_equiv; lia).
    by rewrite Z.land_comm, Z.land_ones by lia.
  - done.
  - by apply shiftr_in_word; lia.
  - done.
Qed.

Lemma IsBitSizeImmediate_low (x b : Z) :
  0 <= b < 64 -> 0 <= x < 2 ^ 64 -> IsBitSizeImmediate x b 0 = (x <? 2 ^ b).
Proof.
  intros Hb Hx. rewrite IsBitSizeImmediate_eq by lia. change (2 ^ 0) with 1.
  by rewrite Z.mod_1_r, Z.div_1_r.
Qed.

Lemma Imm12BitValid_eq (v : Z) :
  Imm12BitValid v = (wrap 64 v <? 2 ^ 12) || (wrap 12 v =? 0) && (wrap 64 v <? 2 ^ 24).
Proof.
  unfold Imm12BitValid, kMaxImmVal12Bits. pose proof (wrap_range 64 v ltac:(lia)) as Hr.
  rewrite IsBitSizeImmediate_low, IsBitSizeImmediate_eq by lia. f_equal.
  fold (wrap 12 (wrap 64 v)). rewrite wrap_wrap_le by lia. f_equal.
  pose proof (Z.mul_div_le (wrap 64 v) (2 ^ 12) ltac:(lia)).
  pose proof (Z.mul_succ_div_gt (wrap 64 v) (2 ^ 12) ltac:(lia)). bool_cases.
Qed.

Lemma Imm16BitValid_chunk (v : Z) : 0 <= v < 2 ^ 16 -> Imm16BitValid v = true.
Proof.
  intros Hv. unfold Imm16BitValid. rewrite wrap_small, IsBitSizeImmediate_low by (unfold kMaxImmVal16Bits; lia).
  unfold kMaxImmVal16Bits. by rewrite (proj2 (Z.ltb_lt _ _)) by lia.
Qed.
