(* ===== verification/A64Insn.v ===== *)
(** * AArch64 machine instructions

    Operands ([maple_be/include/cg/operand.h]), the part of the machine
    description ([aarch64_md.def], [operand.def]) that the immediate splits of
    [aarch64_mop_split.h] use, and the validity functions of
    [aarch64_mop_valid.h] behind [Insn::VerifySelf]. *)

From S2P Require Import Prelude.
From S2P Require Import IntWords.
From S2P Require Import A64Imm.

(** ** Operands *)

(** [enum AArch64reg]: R0 is 1, so R16 is 17; SP and ZR follow R31. *)
Definition R16 : Z := 17.
Definition RSP : Z := 33.
Definition RZR : Z := 34.

Record RegOperand : Type := mkReg { regNO : Z; reg_size : Z }.

Inductive VaryType : Type := kNotVary | kUnAdjustVary | kAdjustVary.

Record ImmOperand : Type := mkImm {
  imm_value : Z; imm_size : Z; isSigned : bool; isVary : VaryType }.

Inductive ShiftOp : Type := kUndef | kShiftLSL | kShiftLSR | kShiftASR | kShiftROR.

Record BitShiftOperand : Type := mkShift { shiftOp : ShiftOp; shiftAmount : Z; bitLength : Z }.

Inductive AArch64AddressingMode : Type :=
  | kAddrModeUndef | kBOI | kBOR | kBOE | kBOL | kLo12Li | kPreIndex | kPostIndex | kLiteral | kScale.

(** What the validity functions ask of the symbol of a [:lo12:] operand:
    [IsConst], [NeedGOT] and [GetSymbolAlign] under the code generator's
    options. *)
Record MemSymbol : Type := mkMemSymbol {
  sym_IsConst : bool; sym_NeedGOT : bool; sym_GetSymbolAlign : Z }.

Record MemOperand : Type := mkMem {
  mem_size : Z;
  baseOpnd : option RegOperand;
  offsetOpnd : option ImmOperand;
  symbol : option MemSymbol;
  addrMode : AArch64AddressingMode;
  isStackMem : bool }.

Inductive ConditionCode : Type :=
  | CC_EQ | CC_NE | CC_CS | CC_HS | CC_CC | CC_LO | CC_MI | CC_PL | CC_VS | CC_VC
  | CC_HI | CC_LS | CC_GE | CC_LT | CC_GT | CC_LE | CC_AL.

Inductive Operand : Type :=
  | OpdRegister (r : RegOperand)
  | OpdImmediate (i : ImmOperand)
  | OpdMem (m : MemOperand)
  | OpdCond (c : ConditionCode)
  | OpdShift (s : BitShiftOperand).

#[export] Instance addrMode_eq_dec : EqDecision AArch64AddressingMode.
Proof. solve_decision. Defined.
#[export] Instance VaryType_eq_dec : EqDecision VaryType.
Proof. solve_decision. Defined.

(** *** Operations of [ImmOperand] *)

Definition IsNegative (i : ImmOperand) : bool := isSigned i && (imm_value i <? 0).

Definition set_value (i : ImmOperand) (v : Z) : ImmOperand :=
  mkImm v (imm_size i) (isSigned i) (isVary i).

Definition Negate (i : ImmOperand) : ImmOperand := set_value i (swrap 64 (- imm_value i)).

Definition BitwiseNegate (i : ImmOperand) : ImmOperand :=
  set_value i (swrap 64 (Z.land (notw 64 (wrap 64 (imm_value i)))
                                (wrap 64 (shl 64 1 (imm_size i) - 1)))).

Definition ModuloByPow2 (i : ImmOperand) (shift : Z) : ImmOperand :=
  set_value i (swrap 64 (Z.land (wrap 64 (imm_value i)) (wrap 64 (shl 64 1 shift - 1)))).

Definition IsInBitSize (i : ImmOperand) (size nLowerZeroBits : Z) : bool :=
  IsBitSizeImmediate (wrap 64 (imm_value i)) size nLowerZeroBits.

Definition SetVary (i : ImmOperand) (v : VaryType) : ImmOperand :=
  mkImm (imm_value i) (imm_size i) (isSigned i) v.

(** *** Operations of [MemOperand] *)

Definition IsIntactIndexed (m : MemOperand) : bool :=
  negb (bool_decide (addrMode m = kPreIndex)) && negb (bool_decide (addrMode m = kPostIndex)).

Definition GetImmediateOffsetAlignment (dSize : Z) : res Z :=
  ASSERT (8 <=? dSize) ;;
  ASSERT (dSize <=? 128) ;;
  ASSERT (Z.land dSize (dSize - 1) =? 0) ;;
  Ret (IntWords.builtin_ctz dSize - 3).

Definition GetMaxPIMM (dSize : Z) : res Z :=
  let dSize := if 64 <? dSize then 64 else dSize in
  ASSERT (8 <=? dSize) ;;
  ASSERT (dSize <=? 128) ;;
  ASSERT (Z.land dSize (dSize - 1) =? 0) ;;
  alignment ← GetImmediateOffsetAlignment dSize;
  ASSERT (0 <=? alignment) ;;
  ASSERT (alignment <=? 4) ;;
  rd kMaxPimm (Z.to_nat alignment).

Definition GetMaxPairPIMM (dSize : Z) : res Z :=
  ASSERT (32 <=? dSize) ;;
  ASSERT (dSize <=? 128) ;;
  ASSERT (Z.land dSize (dSize - 1) =? 0) ;;
  alignment ← GetImmediateOffsetAlignment dSize;
  ASSERT (2 <=? alignment) ;;
  ASSERT (alignment <=? 4) ;;
  rd kMaxPairPimm (Z.to_nat (alignment - 2)).

Definition IsPIMMOffsetOutOfRange (offset dSize : Z) : res bool :=
  ASSERT (8 <=? dSize) ;;
  ASSERT (dSize <=? 128) ;;
  ASSERT (Z.land dSize (dSize - 1) =? 0) ;;
  if offset <? 0 then Ret true else
  maxPimm ← GetMaxPIMM dSize;
  Ret (maxPimm <? offset).

(** [AArch64isa::GetMemOpndOffsetValue], [GetTail0BitNum], [GetHead0BitNum]. *)
Definition GetMemOpndOffsetValue (m : MemOperand) : Z :=
  if decide (addrMode m = kBOR) then 0
  else match offsetOpnd m with Some o => imm_value o | None => 0 end.

Fixpoint bit_search (test : Z -> bool) (n : nat) (bitNum : Z) : Z :=
  match n with
  | O => -1
  | S n' => if test bitNum then bitNum else bit_search test n' (bitNum + 1)
  end.

Definition GetTail0BitNum (val : Z) : Z :=
  bit_search (fun bitNum => negb (Z.land (shl 64 1 bitNum) (wrap 64 val) =? 0)) 64 0.

Definition GetHead0BitNum (val : Z) : Z :=
  bit_search (fun bitNum => negb (Z.land (shr 64 0x8000000000000000 bitNum) (wrap 64 val) =? 0)) 64 0.

(** ** Opcodes and their description *)

Inductive MOperator : Type :=
  | MOP_wmovri32 | MOP_xmovri64
  | MOP_xmovzri16 | MOP_xmovnri16 | MOP_xmovkri16 | MOP_wmovkri16 | MOP_xbfirri6i6
  | MOP_xaddrrr | MOP_waddrrr | MOP_xaddrrrs | MOP_waddrrrs
  | MOP_xaddrri12 | MOP_waddrri12 | MOP_xaddrri24 | MOP_waddrri24
  | MOP_xsubrrr | MOP_wsubrrr | MOP_xsubrrrs | MOP_wsubrrrs
  | MOP_xsubrri12 | MOP_wsubrri12 | MOP_xsubrri24 | MOP_wsubrri24
  | MOP_xaddsrrr | MOP_waddsrrr | MOP_xaddsrri12 | MOP_waddsrri12
  | MOP_xsubsrrr | MOP_wsubsrrr | MOP_xsubsrri12 | MOP_wsubsrri12
  | MOP_wccmpriic | MOP_xccmpriic | MOP_wccmprric | MOP_xccmprric
  | MOP_wldrsb | MOP_xldrsb | MOP_wldrb | MOP_wldrsh | MOP_xldrsh | MOP_xldrsw | MOP_wldrh
  | MOP_wldr | MOP_xldr | MOP_bldr | MOP_hldr | MOP_sldr | MOP_dldr | MOP_qldr
  | MOP_wldp | MOP_xldp | MOP_xldpsw | MOP_sldp | MOP_dldp | MOP_qldp
  | MOP_wstrb | MOP_wstrh | MOP_wstr | MOP_xstr | MOP_sstr | MOP_dstr | MOP_qstr
  | MOP_wstp | MOP_xstp | MOP_sstp | MOP_dstp | MOP_qstp.

Record Insn : Type := mkInsn { mop : MOperator; opnds : list Operand }.

Inductive OpndDesc : Type :=
  | Mem8S | Mem8D | Mem16S | Mem16D | Mem32D | Mem32S | Mem64D | Mem64S | Mem128D | Mem128S
  | Reg8FD | Reg16FD | Reg32ID | Reg32IS | Reg32IDS | Reg64ID | Reg64IS | Reg64IDS
  | Reg32FS | Reg32FD | Reg64FS | Reg64FD | Reg128FD | Reg128VS
  | CCD | CCS | Cond | Imm4 | Imm5 | Imm6 | Imm12 | Imm16 | Imm32 | Imm64
  | Lsl5 | Lsl6 | Lsl12 | Bitshift32 | Bitshift64.

Definition OpndDesc_GetSize (d : OpndDesc) : Z :=
  match d with
  | Mem8S | Mem8D => 8 | Mem16S | Mem16D => 16 | Mem32D | Mem32S => 32
  | Mem64D | Mem64S => 64 | Mem128D | Mem128S => 128
  | Reg8FD => 8 | Reg16FD => 16 | Reg32ID | Reg32IS | Reg32IDS => 32
  | Reg64ID | Reg64IS | Reg64IDS => 64 | Reg32FS | Reg32FD => 32
  | Reg64FS | Reg64FD => 64 | Reg128FD | Reg128VS => 128
  | CCD | CCS => 1 | Cond => 4 | Imm4 => 4 | Imm5 => 5 | Imm6 => 6
  | Imm12 => 12 | Imm16 => 16 | Imm32 => 32 | Imm64 => 64
  | Lsl5 => 5 | Lsl6 => 6 | Lsl12 => 12 | Bitshift32 => 5 | Bitshift64 => 6
  end.

(** The operand descriptions ([DEFINE_MOP(mop, {...}, ...)]). *)
Definition opndMD (op : MOperator) : list OpndDesc :=
  match op with
  | MOP_wmovri32 => [Reg32ID; Imm32]
  | MOP_xmovri64 => [Reg64ID; Imm64]
  | MOP_xmovzri16 | MOP_xmovnri16 => [Reg64ID; Imm16; Lsl6]
  | MOP_xmovkri16 => [Reg64IDS; Imm16; Lsl6]
  | MOP_wmovkri16 => [Reg32IDS; Imm16; Lsl5]
  | MOP_xbfirri6i6 => [Reg64IDS; Reg64IS; Imm6; Imm6]
  | MOP_xaddrrr | MOP_xsubrrr => [Reg64ID; Reg64IS; Reg64IS]
  | MOP_waddrrr | MOP_wsubrrr => [Reg32ID; Reg32IS; Reg32IS]
  | MOP_xaddrrrs | MOP_xsubrrrs => [Reg64ID; Reg64IS; Reg64IS; Bitshift64]
  | MOP_waddrrrs | MOP_wsubrrrs => [Reg32ID; Reg32IS; Reg32IS; Bitshift32]
  | MOP_xaddrri12 | MOP_xsubrri12 => [Reg64ID; Reg64IS; Imm12]
  | MOP_waddrri12 | MOP_wsubrri12 => [Reg32ID; Reg32IS; Imm12]
  | MOP_xaddrri24 | MOP_xsubrri24 => [Reg64ID; Reg64IS; Imm12; Lsl12]
  | MOP_waddrri24 | MOP_wsubrri24 => [Reg32ID; Reg32IS; Imm12; Lsl12]
  | MOP_xaddsrrr | MOP_xsubsrrr => [CCD; Reg64ID; Reg64IS; Reg64IS]
  | MOP_waddsrrr | MOP_wsubsrrr => [CCD; Reg32ID; Reg32IS; Reg32IS]
  | MOP_xaddsrri12 | MOP_xsubsrri12 => [CCD; Reg64ID; Reg64IS; Imm12]
  | MOP_waddsrri12 | MOP_wsubsrri12 => [CCD; Reg32ID; Reg32IS; Imm12]
  | MOP_wccmpriic => [CCD; Reg32IS; Imm5; Imm4; Cond; CCS]
  | MOP_xccmpriic => [CCD; Reg64IS; Imm5; Imm4; Cond; CCS]
  | MOP_wccmprric => [CCD; Reg32IS; Reg32IS; Imm4; Cond; CCS]
  | MOP_xccmprric => [CCD; Reg64IS; Reg64IS; Imm4; Cond; CCS]
  | MOP_wldrsb | MOP_wldrb => [Reg32ID; Mem8S]
  | MOP_xldrsb => [Reg64ID; Mem8S]
  | MOP_wldrsh | MOP_wldrh => [Reg32ID; Mem16S]
  | MOP_xldrsh => [Reg64ID; Mem16S]
  | MOP_xldrsw => [Reg64ID; Mem32S]
  | MOP_wldr => [Reg32ID; Mem32S]
  | MOP_xldr => [Reg64ID; Mem64S]
  | MOP_bldr => [Reg8FD; Mem8S]
  | MOP_hldr => [Reg16FD; Mem16S]
  | MOP_sldr => [Reg32FD; Mem32S]
  | MOP_dldr => [Reg64FD; Mem64S]
  | MOP_qldr => [Reg128FD; Mem128S]
  | MOP_wldp => [Reg32ID; Reg32ID; Mem32S]
  | MOP_xldp => [Reg64ID; Reg64ID; Mem64S]
  | MOP_xldpsw => [Reg64ID; Reg64ID; Mem32S]
  | MOP_sldp => [Reg32FD; Reg32FD; Mem32S]
  | MOP_dldp => [Reg64FD; Reg64FD; Mem64S]
  | MOP_qldp => [Reg128FD; Reg128FD; Mem128S]
  | MOP_wstrb => [Reg32IS; Mem8D]
  | MOP_wstrh => [Reg32IS; Mem16D]
  | MOP_wstr => [Reg32IS; Mem32D]
  | MOP_xstr => [Reg64IS; Mem64D]
  | MOP_sstr => [Reg32FS; Mem32D]
  | MOP_dstr => [Reg64FS; Mem64D]
  | MOP_qstr => [Reg128VS; Mem128D]
  | MOP_wstp => [Reg32IS; Reg32IS; Mem32D]
  | MOP_xstp => [Reg64IS; Reg64IS; Mem64D]
  | MOP_sstp => [Reg32FS; Reg32FS; Mem32D]
  | MOP_dstp => [Reg64FS; Reg64FS; Mem64D]
  | MOP_qstp => [Reg128VS; Reg128VS; Mem128D]
  end.

(** ** Access to operands

    [GetOperand(i)] with the [static_cast] the code applies: a cast of an
    operand of another class is [Fault WrongMember]. *)
Definition GetOperand (ops : list Operand) (i : nat) : res Operand :=
  match ops !! i with Some o => Ret o | None => Fault OutOfBounds end.

Definition as_reg (o : Operand) : res RegOperand :=
  match o with OpdRegister r => Ret r | _ => Fault WrongMember end.
Definition as_imm (o : Operand) : res ImmOperand :=
  match o with OpdImmediate i => Ret i | _ => Fault WrongMember end.
Definition as_mem (o : Operand) : res MemOperand :=
  match o with OpdMem m => Ret m | _ => Fault WrongMember end.
Definition as_shift (o : Operand) : res BitShiftOperand :=
  match o with OpdShift s => Ret s | _ => Fault WrongMember end.

Definition get_reg (ops : list Operand) (i : nat) : res RegOperand := GetOperand ops i ≫= as_reg.
Definition get_imm (ops : list Operand) (i : nat) : res ImmOperand := GetOperand ops i ≫= as_imm.
Definition get_mem (ops : list Operand) (i : nat) : res MemOperand := GetOperand ops i ≫= as_mem.
Definition get_shift (ops : list Operand) (i : nat) : res BitShiftOperand :=
  GetOperand ops i ≫= as_shift.

(** ** Validity of the operands *)

Definition imm_valid (f : Z -> bool) (i : nat) (ops : list Operand) : res bool :=
  o ← get_imm ops i; Ret (f (imm_value o)).
Definition shift_valid (f : Z -> bool) (i : nat) (ops : list Operand) : res bool :=
  o ← get_shift ops i; Ret (f (shiftAmount o)).

Definition and_valid (v1 v2 : list Operand -> res bool) (ops : list Operand) : res bool :=
  b1 ← v1 ops; b2 ← v2 ops; Ret (b1 && b2).

Definition MOP_wmovri32Valid (ops : list Operand) : res bool :=
  o ← get_imm ops 1; IsSingleInstructionMovable32 (imm_value o).
Definition MOP_xmovri64Valid (ops : list Operand) : res bool :=
  o ← get_imm ops 1; IsSingleInstructionMovable64 (imm_value o).

Definition MOP_xmovkri16Valid : list Operand -> res bool :=
  and_valid (imm_valid Imm16BitValid 1) (shift_valid ImmShift64Valid 2).
Definition MOP_wmovkri16Valid : list Operand -> res bool :=
  and_valid (imm_valid Imm16BitValid 1) (shift_valid ImmShift32Valid 2).

Definition MOP_xbfirri6i6Valid (ops : list Operand) : res bool :=
  lsb ← get_imm ops 2; width ← get_imm ops 3;
  Ret (Lsb6BitValid (imm_value lsb) && Width6BitValid (imm_value width) (imm_value lsb)).

Definition MOP_xaddrrrsValid : list Operand -> res bool := shift_valid BitShift6BitValid 3.
Definition MOP_waddrrrsValid : list Operand -> res bool := shift_valid BitShift5BitValid 3.
Definition MOP_addrri12Valid : list Operand -> res bool := imm_valid Imm12BitValid 2.
Definition MOP_addrri24Valid : list Operand -> res bool :=
  and_valid (imm_valid Imm12BitValid 2) (shift_valid LeftShift12Valid 3).
Definition MOP_addsrri12Valid : list Operand -> res bool := imm_valid Imm12BitValid 3.
Definition MOP_ccmpriicValid : list Operand -> res bool :=
  and_valid (imm_valid BitShift5BitValidImm 2) (imm_valid Nzcv4BitValid 3).
Definition MOP_ccmprricValid : list Operand -> res bool := imm_valid Nzcv4BitValid 3.

Definition StrLdr8Valid (m : MemOperand) : bool :=
  bool_decide (addrMode m = kLo12Li)
  || StrLdrInsnSignedOfstValid (GetMemOpndOffsetValue m) 0 (IsIntactIndexed m).

(** [symAlign] of a [:lo12:] operand, a [uint8]. *)
Definition lo12_symAlign (m : MemOperand) : Z :=
  match symbol m with
  | Some s => if sym_IsConst s && negb (sym_NeedGOT s) then wrap 8 (shl 32 1 (sym_GetSymbolAlign s)) else 0
  | None => 0
  end.

(** [StrLdr16Valid], [StrLdr32Valid], [StrLdr64Valid], [StrLdr128Valid]: the
    same function with the mask 1, 3, 7, 15 and the word size 1, 2, 3, 4. *)
Definition StrLdrValid (mask wordSize : Z) (m : MemOperand) : bool :=
  if decide (addrMode m = kLo12Li) then
    Z.land (wrap 64 (lo12_symAlign m + wrap 64 (GetMemOpndOffsetValue m))) mask =? 0
  else StrLdrInsnSignedOfstValid (GetMemOpndOffsetValue m) wordSize (IsIntactIndexed m).

Definition StrLdr16Valid : MemOperand -> bool := StrLdrValid 1 1.
Definition StrLdr32Valid : MemOperand -> bool := StrLdrValid 3 2.
Definition StrLdr64Valid : MemOperand -> bool := StrLdrValid 7 3.
Definition StrLdr128Valid : MemOperand -> bool := StrLdrValid 15 4.

Definition StrLdr32PairValid (m : MemOperand) : bool := StrLdr32PairImmValid (GetMemOpndOffsetValue m).
Definition StrLdr64PairValid (m : MemOperand) : bool := StrLdr64PairImmValid (GetMemOpndOffsetValue m).
Definition StrLdr128PairValid (m : MemOperand) : bool := StrLdr128PairImmValid (GetMemOpndOffsetValue m).

Definition mem_valid (f : MemOperand -> bool) (i : nat) (ops : list Operand) : res bool :=
  m ← get_mem ops i; Ret (f m).

(** The [validFunc] of the machine description. *)
Definition validFunc (op : MOperator) : option (list Operand -> res bool) :=
  match op with
  | MOP_wmovri32 => Some MOP_wmovri32Valid
  | MOP_xmovri64 => Some MOP_xmovri64Valid
  | MOP_xmovzri16 | MOP_xmovnri16 | MOP_xmovkri16 => Some MOP_xmovkri16Valid
  | MOP_wmovkri16 => Some MOP_wmovkri16Valid
  | MOP_xbfirri6i6 => Some MOP_xbfirri6i6Valid
  | MOP_xaddrrr | MOP_waddrrr | MOP_xsubrrr | MOP_wsubrrr
  | MOP_xaddsrrr | MOP_waddsrrr | MOP_xsubsrrr | MOP_wsubsrrr => None
  | MOP_xaddrrrs | MOP_xsubrrrs => Some MOP_xaddrrrsValid
  | MOP_waddrrrs | MOP_wsubrrrs => Some MOP_waddrrrsValid
  | MOP_xaddrri12 | MOP_waddrri12 | MOP_xsubrri12 | MOP_wsubrri12 => Some MOP_addrri12Valid
  | MOP_xaddrri24 | MOP_waddrri24 | MOP_xsubrri24 | MOP_wsubrri24 => Some MOP_addrri24Valid
  | MOP_xaddsrri12 | MOP_waddsrri12 | MOP_xsubsrri12 | MOP_wsubsrri12 => Some MOP_addsrri12Valid
  | MOP_wccmpriic | MOP_xccmpriic => Some MOP_ccmpriicValid
  | MOP_wccmprric | MOP_xccmprric => Some MOP_ccmprricValid
  | MOP_wldrsb | MOP_xldrsb | MOP_wldrb | MOP_bldr | MOP_wstrb => Some (mem_valid StrLdr8Valid 1)
  | MOP_wldrsh | MOP_xldrsh | MOP_wldrh | MOP_hldr | MOP_wstrh => Some (mem_valid StrLdr16Valid 1)
  | MOP_xldrsw | MOP_wldr | MOP_sldr | MOP_wstr | MOP_sstr => Some (mem_valid StrLdr32Valid 1)
  | MOP_xldr | MOP_dldr | MOP_xstr | MOP_dstr => Some (mem_valid StrLdr64Valid 1)
  | MOP_qldr | MOP_qstr => Some (mem_valid StrLdr128Valid 1)
  | MOP_wldp | MOP_xldpsw | MOP_sldp | MOP_wstp | MOP_sstp => Some (mem_valid StrLdr32PairValid 2)
  | MOP_xldp | MOP_dldp | MOP_xstp | MOP_dstp => Some (mem_valid StrLdr64PairValid 2)
  | MOP_qldp | MOP_qstp => Some (mem_valid StrLdr128PairValid 2)
  end.

(** [Insn::VerifySelf], [InsnDesc::Verify]. *)
Definition VerifySelf (insn : Insn) : res bool :=
  match validFunc (mop insn) with
  | None => Ret true
  | Some f =>
      CHECK_FATAL (length (opnds insn) =? length (opndMD (mop insn)))%nat ;;
      f (opnds insn)
  end.
