(* ===== verification/A64Split.v ===== *)
(** * Splitting instructions whose immediate does not fit

    [maple_be/include/cg/aarch64/aarch64_mop_split.h]: the [splitFunc] of the
    machine description behind [Insn::SplitSelf].  A split function edits the
    basic block around its instruction; here it returns the instructions that
    take its place, in order.  The counter threaded through is the next virtual
    register number ([VregInfo::virtualRegCount]). *)

From S2P Require Import Prelude.
From S2P Require Import A64Imm.
From S2P Require Import A64Insn.

Definition SM (A : Type) : Type := Z -> res (A * Z).

Definition ret {A : Type} (a : A) : SM A := fun n => Ret (a, n).
Definition bind {A B : Type} (m : SM A) (k : A -> SM B) : SM B := fun n =>
  match m n with Ret (a, n') => k a n' | Fault f => Fault f end.
Notation "x '<~' m ; k" := (bind m (fun x => k))
  (at level 20, m at level 100, k at level 200, right associativity).

Definition lift {A : Type} (m : res A) : SM A := fun n =>
  match m with Ret a => Ret (a, n) | Fault f => Fault f end.

(** [OperandBuilder::CreateVReg]. *)
Definition CreateVReg (size : Z) : SM RegOperand := fun n => Ret (mkReg n size, n + 1).

Definition CreateImm (size value : Z) (signed : bool) : ImmOperand :=
  mkImm value size signed kNotVary.

Definition GetSplitBaseReg (isAfterRegAlloc is64Bits : bool) : SM RegOperand :=
  let size := if is64Bits then 64 else 32 in
  if negb isAfterRegAlloc then CreateVReg size else ret (mkReg R16 size).

Definition pick (is64Bits : bool) (x w : MOperator) : MOperator := if is64Bits then x else w.

(** ** Loads of constants *)

Definition MOP_wmovri32Split (curInsn : Insn) : SM (list Insn) :=
  immOpnd <~ lift (get_imm (opnds curInsn) 1);
  let immVal := Z.land (wrap 64 (imm_value immOpnd)) 0x00000000FFFFFFFF in
  let curInsn := mkInsn (mop curInsn) (<[1%nat := OpdImmediate (CreateImm 64 immVal true)]> (opnds curInsn)) in
  valid <~ lift (VerifySelf curInsn);
  if valid then ret [curInsn] else
  destReg <~ lift (get_reg (opnds curInsn) 0);
  let chunkVal0 := Z.land immVal 0xFFFF in
  let movInsn := mkInsn MOP_wmovri32
    [OpdRegister destReg; OpdImmediate (CreateImm 16 chunkVal0 false)] in
  let chunkVal1 := Z.land (shr 64 immVal 16) 0xFFFF in
  let movkInsn := mkInsn MOP_wmovkri16
    [OpdRegister destReg; OpdImmediate (CreateImm 16 chunkVal1 false); OpdShift (mkShift kShiftLSL 16 6)] in
  ret [movInsn; movkInsn].

(** The body of the loop of [MOP_xmovri64Split]: the instructions emitted so
    far and [useMovk]. *)
Definition mov_chunk (destReg : RegOperand) (immVal : Z) (useMovz : bool)
    (acc : list Insn * bool) (i : Z) : list Insn * bool :=
  let '(insns, useMovk) := acc in
  let sa := 16 * i in
  let chunkVal := Z.land (shr 64 (wrap 64 immVal) sa) 0xFFFF in
  if (if useMovz then chunkVal =? 0 else chunkVal =? 0xFFFF) then (insns, useMovk) else
  let src16 := CreateImm 16 chunkVal false in
  let lslOpnd := OpdShift (mkShift kShiftLSL sa 6) in
  if negb useMovk then
    let src16 := if negb useMovz then BitwiseNegate src16 else src16 in
    let mOpCode := if useMovz then MOP_xmovzri16 else MOP_xmovnri16 in
    (insns ++ [mkInsn mOpCode [OpdRegister destReg; OpdImmediate src16; lslOpnd]], true)
  else
    (insns ++ [mkInsn MOP_xmovkri16 [OpdRegister destReg; OpdImmediate src16; lslOpnd]], useMovk).

Definition MOP_xmovri64Split (curInsn : Insn) : SM (list Insn) :=
  valid <~ lift (VerifySelf curInsn);
  if valid then ret [curInsn] else
  destReg <~ lift (get_reg (opnds curInsn) 0);
  immOpnd <~ lift (get_imm (opnds curInsn) 1);
  let immVal := imm_value immOpnd in
  useMovz <~ lift (BetterUseMOVZ (wrap 64 immVal));
  let chunkLval := Z.land (wrap 64 immVal) 0xFFFFFFFF in
  let chunkHval := Z.land (shr 64 (wrap 64 immVal) 32) 0xFFFFFFFF in
  let maxLoopTime := if chunkLval =? chunkHval then 2%nat else 4%nat in
  let insns := fst (foldl (mov_chunk destReg immVal useMovz) ([], false) (take maxLoopTime [0; 1; 2; 3])) in
  let bfi := OpdImmediate (CreateImm 8 32 false) in
  ret (if (maxLoopTime =? 2)%nat
        then insns ++ [mkInsn MOP_xbfirri6i6 [OpdRegister destReg; OpdRegister destReg; bfi; bfi]]
        else insns).

(** ** Additions and subtractions *)

Section WithSplitSelf.
(** [Insn::SplitSelf] on the instructions a split function emits. *)
Variable SplitSelf : Insn -> SM (list Insn).

Definition split_if_invalid (insn : Insn) : SM (list Insn) :=
  valid <~ lift (VerifySelf insn);
  if negb valid then SplitSelf insn else ret [insn].

(** The branch of [AddInsnSplit] and [SubInsnSplit] that loads the immediate
    into a register.  [shifted_ok] is the condition on the first source in the
    form with a shifted register, [rrrs] and [rrr] the opcodes. *)
Definition load_and_apply (rrrs rrr : MOperator) (shifted_ok : Z -> bool)
    (is64Bits isAfterRegAlloc : bool) (opnd0 opnd1 : Operand) (immOpnd : ImmOperand) : SM (list Insn) :=
  let immVal := imm_value immOpnd in
  let tail0bitNum := GetTail0BitNum immVal in
  let head0bitNum := GetHead0BitNum immVal in
  let bitNum := 64 - head0bitNum - tail0bitNum in
  movOpnd <~ GetSplitBaseReg isAfterRegAlloc is64Bits;
  r1 <~ lift (as_reg opnd1);
  let mov := pick is64Bits MOP_xmovri64 MOP_wmovri32 in
  if (bitNum <=? 16) && shifted_ok (regNO r1) then
    let newImm := Z.land (shr 64 (wrap 64 immVal) (wrap 32 tail0bitNum)) 0xFFFF in
    let movInsn := mkInsn mov [OpdRegister movOpnd; OpdImmediate (CreateImm 16 newImm false)] in
    let bitLen := if is64Bits then 6 else 5 in
    let bitShiftOpnd := mkShift kShiftLSL (wrap 32 tail0bitNum) bitLen in
    ret [movInsn; mkInsn rrrs [opnd0; opnd1; OpdRegister movOpnd; OpdShift bitShiftOpnd]]
  else
    let movInsn := mkInsn mov [OpdRegister movOpnd; OpdImmediate immOpnd] in
    movs <~ split_if_invalid movInsn;
    ret (movs ++ [mkInsn rrr [opnd0; opnd1; OpdRegister movOpnd]]).

Definition AddInsnSplit (insn : Insn) (is64Bits isAfterRegAlloc : bool) : SM (list Insn) :=
  valid <~ lift (VerifySelf insn);
  if valid then ret [insn] else
  opnd0 <~ lift (GetOperand (opnds insn) 0);
  opnd1 <~ lift (GetOperand (opnds insn) 1);
  immOpnd <~ lift (get_imm (opnds insn) 2);
  if IsNegative immOpnd then
    split_if_invalid (mkInsn (pick is64Bits MOP_xsubrri12 MOP_wsubrri12)
                             (<[2%nat := OpdImmediate (Negate immOpnd)]> (opnds insn)))
  else if IsInBitSize immOpnd kMaxImmVal24Bits 0 then
    let addrri12 := pick is64Bits MOP_xaddrri12 MOP_waddrri12 in
    if negb (IsInBitSize immOpnd kMaxImmVal12Bits 0 || IsInBitSize immOpnd kMaxImmVal12Bits kMaxImmVal12Bits) then
      let immOpnd2 := CreateImm (imm_size immOpnd)
        (swrap 64 (shr 64 (wrap 64 (imm_value immOpnd)) kMaxImmVal12Bits)) (isSigned immOpnd) in
      tmpRes <~ GetSplitBaseReg isAfterRegAlloc is64Bits;
      let newInsn := mkInsn (pick is64Bits MOP_xaddrri24 MOP_waddrri24)
        [OpdRegister tmpRes; opnd1; OpdImmediate immOpnd2; OpdShift (mkShift kShiftLSL 12 64)] in
      _ <~ lift (v ← VerifySelf newInsn; ASSERT v);
      let immOpnd := ModuloByPow2 immOpnd kMaxImmVal12Bits in
      let newInsn2 := mkInsn addrri12 [opnd0; OpdRegister tmpRes; OpdImmediate immOpnd] in
      _ <~ lift (v ← VerifySelf newInsn2; ASSERT v);
      ret [newInsn; newInsn2]
    else
      let newInsn := mkInsn addrri12 [opnd0; opnd1; OpdImmediate immOpnd] in
      _ <~ lift (v ← VerifySelf newInsn; ASSERT v);
      ret [newInsn]
  else
    load_and_apply (pick is64Bits MOP_xaddrrrs MOP_waddrrrs) (pick is64Bits MOP_xaddrrr MOP_waddrrr)
      (fun regNO0 => negb (regNO0 =? RSP)) is64Bits isAfterRegAlloc opnd0 opnd1 immOpnd.

Definition kMaxPimm8 : Z := 4095.
Definition kMax12UnsignedImm : Z := 4096.

Definition SubInsnSplit (insn : Insn) (is64Bits isAfterRegAlloc : bool) : SM (list Insn) :=
  valid <~ lift (VerifySelf insn);
  if valid then ret [insn] else
  opnd0 <~ lift (GetOperand (opnds insn) 0);
  opnd1 <~ lift (GetOperand (opnds insn) 1);
  immOpnd <~ lift (get_imm (opnds insn) 2);
  if IsNegative immOpnd then
    split_if_invalid (mkInsn (pick is64Bits MOP_xaddrri12 MOP_waddrri12)
                             (<[2%nat := OpdImmediate (Negate immOpnd)]> (opnds insn)))
  else
  let higher12BitVal := swrap 64 (shr 64 (wrap 64 (imm_value immOpnd)) kMaxImmVal12Bits) in
  if IsInBitSize immOpnd kMaxImmVal24Bits 0 && (higher12BitVal + 1 <=? kMaxPimm8) then
    if negb (IsInBitSize immOpnd kMaxImmVal12Bits 0 || IsInBitSize immOpnd kMaxImmVal12Bits kMaxImmVal12Bits) then
      let immOpnd2 := CreateImm (imm_size immOpnd) (higher12BitVal + 1) (isSigned immOpnd) in
      resOpnd <~ GetSplitBaseReg isAfterRegAlloc is64Bits;
      let newInsn := mkInsn (pick is64Bits MOP_xsubrri24 MOP_wsubrri24)
        [OpdRegister resOpnd; opnd1; OpdImmediate immOpnd2; OpdShift (mkShift kShiftLSL 12 64)] in
      let immOpnd := ModuloByPow2 immOpnd kMaxImmVal12Bits in
      let immOpnd := set_value immOpnd (kMax12UnsignedImm - imm_value immOpnd) in
      ret [newInsn; mkInsn (pick is64Bits MOP_xaddrri12 MOP_waddrri12)
                            [opnd0; OpdRegister resOpnd; OpdImmediate immOpnd]]
    else
      ret [mkInsn (pick is64Bits MOP_xsubrri12 MOP_wsubrri12) [opnd0; opnd1; OpdImmediate immOpnd]]
  else
    load_and_apply (pick is64Bits MOP_xsubrrrs MOP_wsubrrrs) (pick is64Bits MOP_xsubrrr MOP_wsubrrr)
      (fun _ => true) is64Bits isAfterRegAlloc opnd0 opnd1 immOpnd.

Definition AddsSubsInsnSplit (insn : Insn) (isAdds is64Bits isAfterRegAlloc : bool) : SM (list Insn) :=
  valid <~ lift (VerifySelf insn);
  if valid then ret [insn] else
  opnd0 <~ lift (GetOperand (opnds insn) 0);
  opnd1 <~ lift (GetOperand (opnds insn) 1);
  opnd2 <~ lift (GetOperand (opnds insn) 2);
  immOpnd <~ lift (get_imm (opnds insn) 3);
  movOpnd <~ GetSplitBaseReg isAfterRegAlloc is64Bits;
  let movInsn := mkInsn (pick is64Bits MOP_xmovri64 MOP_wmovri32)
                        [OpdRegister movOpnd; OpdImmediate immOpnd] in
  let mOpCode := if isAdds then pick is64Bits MOP_xaddsrrr MOP_waddsrrr
                 else pick is64Bits MOP_xsubsrrr MOP_wsubsrrr in
  let newInsn := mkInsn mOpCode [opnd0; opnd1; opnd2; OpdRegister movOpnd] in
  movs <~ split_if_invalid movInsn;
  ret (movs ++ [newInsn]).

Definition AddSubWithLslSplit (insn : Insn) (isAdd is64Bits isAfterRegAlloc : bool) : SM (list Insn) :=
  valid <~ lift (VerifySelf insn);
  if valid then ret [insn] else
  let size := if is64Bits then 64 else 32 in
  immOpnd <~ lift (get_imm (opnds insn) 2);
  if negb (IsInBitSize immOpnd (size - 12) 0) then ret [insn] else
  let newImmOpnd := CreateImm size (swrap 64 (shl 64 (wrap 64 (imm_value immOpnd)) 12)) false in
  let mOpCode := if is64Bits then (if isAdd then MOP_xaddrri12 else MOP_xsubrri12)
                 else (if isAdd then MOP_waddrri12 else MOP_wsubrri12) in
  opnd0 <~ lift (GetOperand (opnds insn) 0);
  opnd1 <~ lift (GetOperand (opnds insn) 1);
  split_if_invalid (mkInsn mOpCode [opnd0; opnd1; OpdImmediate newImmOpnd]).

(** ** Loads and stores *)

Definition SplitGetRemained (memOpnd : MemOperand) (bitLen ofstVal : Z) (forPair : bool) : res ImmOperand :=
  maxPimm ← if negb forPair then GetMaxPIMM bitLen else GetMaxPairPIMM bitLen;
  ASSERT (negb (maxPimm =? 0)) ;;
  let q0 := Z.quot ofstVal maxPimm + (if ofstVal <? 0 then -1 else 0) in
  let addend := swrap 64 (q0 * maxPimm) in
  let r0 := wrap 64 (ofstVal - addend) in
  alignment ← GetImmediateOffsetAlignment bitLen;
  let low := wrap 32 (shl 32 1 alignment - 1) in
  let q1 := shr 64 r0 alignment in
  let r1 := Z.land r0 low in
  let remained := swrap 64 (shl 64 q1 alignment) in
  let addend := swrap 64 (addend + r1) in
  addend ←
    (if 0 <? addend then
       let suffixClear := if forPair then 0xff else 0xfff in
       let remainedTmp := swrap 64 (remained + Z.land (wrap 64 addend) suffixClear) in
       outOfRange ← IsPIMMOffsetOutOfRange (swrap 32 remainedTmp) bitLen;
       Ret (if negb outOfRange && (Z.land (wrap 64 remainedTmp) low =? 0)
            then swrap 64 (Z.land (wrap 64 addend) (notw 64 suffixClear)) else addend)
     else Ret addend);
  let immAddend := CreateImm 64 addend true in
  o ← (match offsetOpnd memOpnd with Some o => Ret o | None => Fault WrongMember end);
  Ret (if decide (isVary o = kUnAdjustVary) then SetVary immAddend kUnAdjustVary else immAddend).

Definition MemOfstSplitWithAdd (memOpnd : MemOperand) (bitLen : Z) (isAfterRegAlloc forPair : bool)
    : SM (list Insn * MemOperand) :=
  _ <~ lift (ASSERT (bool_decide (addrMode memOpnd = kBOI)));
  _ <~ lift (ASSERT (IsIntactIndexed memOpnd));
  ofstOpnd <~ lift (match offsetOpnd memOpnd with Some o => Ret o | None => Fault WrongMember end);
  let ofstVal := imm_value ofstOpnd in
  resOpnd <~ GetSplitBaseReg isAfterRegAlloc true;
  immAddend <~ lift (SplitGetRemained memOpnd bitLen ofstVal forPair);
  let remained := swrap 64 (ofstVal - imm_value immAddend) in
  origBaseReg <~ lift (match baseOpnd memOpnd with Some b => Ret b | None => Fault AssertFail end);
  let addInsn := mkInsn MOP_xaddrri12
    [OpdRegister resOpnd; OpdRegister origBaseReg; OpdImmediate immAddend] in
  adds <~ split_if_invalid addInsn;
  let remainedOpnd := CreateImm 32 remained true in
  ret (adds, mkMem bitLen (Some resOpnd) (Some remainedOpnd) None kBOI (isStackMem memOpnd)).

Definition LoadStoreInsnSplit (insn : Insn) (idx : nat) (forPair isAfterRegAlloc : bool) : SM (list Insn) :=
  valid <~ lift (VerifySelf insn);
  if valid then ret [insn] else
  memOpnd <~ lift (get_mem (opnds insn) idx);
  if negb (bool_decide (addrMode memOpnd = kBOI) && IsIntactIndexed memOpnd) then ret [insn] else
  bitLen <~ lift (match opndMD (mop insn) !! idx with
                 | Some d => Ret (OpndDesc_GetSize d) | None => Fault OutOfBounds end);
  split <~ MemOfstSplitWithAdd memOpnd bitLen isAfterRegAlloc forPair;
  let '(adds, newMemOpnd) := split in
  ret (adds ++ [mkInsn (mop insn) (<[idx := OpdMem newMemOpnd]> (opnds insn))]).

(** ** Conditional comparisons *)

Definition CondCompareInsnSplit (insn : Insn) (is64Bits isAfterRegAlloc : bool) : SM (list Insn) :=
  valid <~ lift (VerifySelf insn);
  if valid then ret [insn] else
  immOpnd <~ lift (get_imm (opnds insn) 1);
  movOpnd <~ GetSplitBaseReg isAfterRegAlloc is64Bits;
  let movInsn := mkInsn (pick is64Bits MOP_xmovri64 MOP_wmovri32)
                        [OpdRegister movOpnd; OpdImmediate immOpnd] in
  movs <~ split_if_invalid movInsn;
  ret (movs ++ [mkInsn (pick is64Bits MOP_xccmprric MOP_wccmprric)
                        (<[1%nat := OpdRegister movOpnd]> (opnds insn))]).

(** ** The [splitFunc] of the machine description *)

Definition splitFunc (op : MOperator) : option (Insn -> bool -> SM (list Insn)) :=
  match op with
  | MOP_wmovri32 => Some (fun insn _ => MOP_wmovri32Split insn)
  | MOP_xmovri64 => Some (fun insn _ => MOP_xmovri64Split insn)
  | MOP_xaddrri12 => Some (fun insn => AddInsnSplit insn true)
  | MOP_waddrri12 => Some (fun insn => AddInsnSplit insn false)
  | MOP_xsubrri12 => Some (fun insn => SubInsnSplit insn true)
  | MOP_wsubrri12 => Some (fun insn => SubInsnSplit insn false)
  | MOP_xaddsrri12 => Some (fun insn => AddsSubsInsnSplit insn true true)
  | MOP_waddsrri12 => Some (fun insn => AddsSubsInsnSplit insn true false)
  | MOP_xsubsrri12 => Some (fun insn => AddsSubsInsnSplit insn false true)
  | MOP_wsubsrri12 => Some (fun insn => AddsSubsInsnSplit insn false false)
  | MOP_xaddrri24 => Some (fun insn => AddSubWithLslSplit insn true true)
  | MOP_waddrri24 => Some (fun insn => AddSubWithLslSplit insn true false)
  | MOP_xsubrri24 => Some (fun insn => AddSubWithLslSplit insn false true)
  | MOP_wsubrri24 => Some (fun insn => AddSubWithLslSplit insn false false)
  | MOP_wccmpriic => Some (fun insn => CondCompareInsnSplit insn false)
  | MOP_xccmpriic => Some (fun insn => CondCompareInsnSplit insn true)
  | MOP_wldrsb | MOP_xldrsb | MOP_wldrb | MOP_wldrsh | MOP_xldrsh | MOP_xldrsw | MOP_wldrh
  | MOP_wldr | MOP_xldr | MOP_bldr | MOP_hldr | MOP_sldr | MOP_dldr | MOP_qldr
  | MOP_wstrb | MOP_wstrh | MOP_wstr | MOP_xstr | MOP_sstr | MOP_dstr | MOP_qstr =>
      Some (fun insn => LoadStoreInsnSplit insn 1 false)
  | MOP_wldp | MOP_xldp | MOP_xldpsw | MOP_sldp | MOP_dldp | MOP_qldp
  | MOP_wstp | MOP_xstp | MOP_sstp | MOP_dstp | MOP_qstp =>
      Some (fun insn => LoadStoreInsnSplit insn 2 true)
  | _ => None
  end.

(** [InsnDesc::Split]. *)
Definition Split (insn : Insn) (isAfterRegAlloc : bool) : SM (list Insn) :=
  match splitFunc (mop insn) with
  | Some f => f insn isAfterRegAlloc
  | None => ret [insn]
  end.
End WithSplitSelf.

(** [Insn::SplitSelf].  Splits nest: a load splits an addition, the addition
    becomes a subtraction, which splits the load of a constant. *)
Fixpoint SplitSelf (fuel : nat) (isAfterRegAlloc : bool) (insn : Insn) : SM (list Insn) :=
  match fuel with
  | O => lift (Fault OutOfFuel)
  | S fuel' => Split (SplitSelf fuel' isAfterRegAlloc) insn isAfterRegAlloc
  end.
