(* ===== verification/A64Sem.v ===== *)
(** * What the instructions do

    A machine for the instructions of [A64Insn]: registers (virtual registers
    are registers like the others; the zero register reads as 0 and ignores
    writes), the NZCV flags and byte-addressed memory, after the Arm
    architecture manual.  This is the specification against which the splits
    are proved; it gives a meaning to an immediate of any size, whether or not
    it can be encoded. *)

From S2P Require Import Prelude.
From S2P Require Import A64Imm.
From S2P Require Import A64Insn.

Record nzcv : Type := mkFlags { flagN : bool; flagZ : bool; flagC : bool; flagV : bool }.

Record mstate : Type := mkState { regs : Z -> Z; flags : nzcv; memory : Z -> Z }.

(** ** Registers *)

Definition read (w : Z) (s : mstate) (r : Z) : Z := wrap w (if r =? RZR then 0 else regs s r).

Definition set (s : mstate) (r v : Z) : mstate :=
  if r =? RZR then s
  else mkState (fun q => if q =? r then v else regs s q) (flags s) (memory s).

Definition set_flags (s : mstate) (f : nzcv) : mstate := mkState (regs s) f (memory s).

(** ** Flags *)

(** The pseudocode function [AddWithCarry]. *)
Definition AddWithCarry (w x y carry : Z) : Z * nzcv :=
  let usum := x + y + carry in
  let ssum := swrap w x + swrap w y + carry in
  let result := wrap w usum in
  (result, mkFlags (Z.testbit result (w - 1)) (result =? 0)
                   (negb (result =? usum)) (negb (swrap w result =? ssum))).

Definition ConditionHolds (c : ConditionCode) (f : nzcv) : bool :=
  match c with
  | CC_EQ => flagZ f | CC_NE => negb (flagZ f)
  | CC_CS | CC_HS => flagC f | CC_CC | CC_LO => negb (flagC f)
  | CC_MI => flagN f | CC_PL => negb (flagN f)
  | CC_VS => flagV f | CC_VC => negb (flagV f)
  | CC_HI => flagC f && negb (flagZ f) | CC_LS => negb (flagC f && negb (flagZ f))
  | CC_GE => eqb (flagN f) (flagV f) | CC_LT => negb (eqb (flagN f) (flagV f))
  | CC_GT => eqb (flagN f) (flagV f) && negb (flagZ f)
  | CC_LE => negb (eqb (flagN f) (flagV f) && negb (flagZ f))
  | CC_AL => true
  end.

(** The four bits of an immediate of [ccmp]. *)
Definition flags_of (v : Z) : nzcv :=
  mkFlags (Z.testbit v 3) (Z.testbit v 2) (Z.testbit v 1) (Z.testbit v 0).

(** ** Memory *)

Fixpoint load_bytes (m : Z -> Z) (a : Z) (n : nat) : Z :=
  match n with
  | O => 0
  | S n' => wrap 8 (m (wrap 64 a)) + 2 ^ 8 * load_bytes m (a + 1) n'
  end.

Fixpoint store_bytes (m : Z -> Z) (a v : Z) (n : nat) : Z -> Z :=
  match n with
  | O => m
  | S n' => store_bytes (fun q => if q =? wrap 64 a then wrap 8 v else m q) (a + 1) (Z.shiftr v 8) n'
  end.

(** ** Opcodes *)

(** Width [w] in bits; [sub] for subtraction. *)
Inductive sem : Type :=
  | Mov (w : Z) | Movz | Movn | Movk (w : Z) | Bfi
  | Alu (sub : bool) (w : Z) | AluS (sub : bool) (w : Z) | Ccmp (w : Z)
  | Load (bytes : nat) (sext : option Z) | LoadPair (bytes : nat) (sext : option Z)
  | Store (bytes : nat) | StorePair (bytes : nat).

Definition sem_of (op : MOperator) : sem :=
  match op with
  | MOP_wmovri32 => Mov 32 | MOP_xmovri64 => Mov 64
  | MOP_xmovzri16 => Movz | MOP_xmovnri16 => Movn
  | MOP_xmovkri16 => Movk 64 | MOP_wmovkri16 => Movk 32 | MOP_xbfirri6i6 => Bfi
  | MOP_xaddrrr | MOP_xaddrrrs | MOP_xaddrri12 | MOP_xaddrri24 => Alu false 64
  | MOP_waddrrr | MOP_waddrrrs | MOP_waddrri12 | MOP_waddrri24 => Alu false 32
  | MOP_xsubrrr | MOP_xsubrrrs | MOP_xsubrri12 | MOP_xsubrri24 => Alu true 64
  | MOP_wsubrrr | MOP_wsubrrrs | MOP_wsubrri12 | MOP_wsubrri24 => Alu true 32
  | MOP_xaddsrrr | MOP_xaddsrri12 => AluS false 64
  | MOP_waddsrrr | MOP_waddsrri12 => AluS false 32
  | MOP_xsubsrrr | MOP_xsubsrri12 => AluS true 64
  | MOP_wsubsrrr | MOP_wsubsrri12 => AluS true 32
  | MOP_wccmpriic | MOP_wccmprric => Ccmp 32
  | MOP_xccmpriic | MOP_xccmprric => Ccmp 64
  | MOP_wldrsb => Load 1 (Some 32) | MOP_xldrsb => Load 1 (Some 64)
  | MOP_wldrb | MOP_bldr => Load 1 None
  | MOP_wldrsh => Load 2 (Some 32) | MOP_xldrsh => Load 2 (Some 64)
  | MOP_wldrh | MOP_hldr => Load 2 None
  | MOP_xldrsw => Load 4 (Some 64) | MOP_wldr | MOP_sldr => Load 4 None
  | MOP_xldr | MOP_dldr => Load 8 None | MOP_qldr => Load 16 None
  | MOP_wldp | MOP_sldp => LoadPair 4 None | MOP_xldpsw => LoadPair 4 (Some 64)
  | MOP_xldp | MOP_dldp => LoadPair 8 None | MOP_qldp => LoadPair 16 None
  | MOP_wstrb => Store 1 | MOP_wstrh => Store 2 | MOP_wstr | MOP_sstr => Store 4
  | MOP_xstr | MOP_dstr => Store 8 | MOP_qstr => Store 16
  | MOP_wstp | MOP_sstp => StorePair 4 | MOP_xstp | MOP_dstp => StorePair 8
  | MOP_qstp => StorePair 16
  end.

(** ** Execution *)

Definition is_lsl (sh : BitShiftOperand) : bool :=
  match shiftOp sh with kShiftLSL => true | _ => false end.

(** The second source: a register or an immediate, possibly shifted left. *)
Definition op2_value (w : Z) (s : mstate) (ops : list Operand) : option Z :=
  match ops with
  | [OpdRegister m] => Some (read w s (regNO m))
  | [OpdRegister m; OpdShift sh] =>
      if is_lsl sh then Some (wrap w (Z.shiftl (read w s (regNO m)) (shiftAmount sh))) else None
  | [OpdImmediate v] => Some (wrap w (imm_value v))
  | [OpdImmediate v; OpdShift sh] =>
      if is_lsl sh then Some (wrap w (Z.shiftl (imm_value v) (shiftAmount sh))) else None
  | _ => None
  end.

(** An addition or subtraction with a shifted register has no stack pointer:
    register 31 is the zero register there.  (Up to 4 places the assembler takes
    the form with an extended register instead.) *)
Definition sp_encodable (d n : Z) (ops : list Operand) : bool :=
  match ops with
  | [OpdRegister _; OpdShift sh] => negb ((d =? RSP) || (n =? RSP)) || (shiftAmount sh <=? 4)
  | _ => true
  end.

Definition alu (sub : bool) (w x y : Z) : Z := wrap w (if sub then x - y else x + y).

Definition alu_flags (sub : bool) (w x y : Z) : Z * nzcv :=
  if sub then AddWithCarry w x (notw w y) 1 else AddWithCarry w x y 0.

Definition insert_bits (old lsb width v : Z) : Z :=
  let mask := Z.shiftl (Z.ones width) lsb in
  Z.lor (Z.ldiff old mask) (Z.land (Z.shiftl v lsb) mask).

Definition extend (bytes : nat) (sext : option Z) (v : Z) : Z :=
  match sext with Some w => wrap w (swrap (8 * Z.of_nat bytes) v) | None => v end.

Definition address (s : mstate) (m : MemOperand) : option Z :=
  match addrMode m, baseOpnd m, offsetOpnd m with
  | kBOI, Some b, Some o => Some (wrap 64 (read 64 s (regNO b) + imm_value o))
  | _, _, _ => None
  end.

Definition set_memory (s : mstate) (m : Z -> Z) : mstate := mkState (regs s) (flags s) m.

(** The data of a store: the zero register stores zeros. *)
Definition data (s : mstate) (r : Z) : Z := if r =? RZR then 0 else regs s r.

Definition exec_mem (k : sem) (ds : list Z) (a : Z) (s : mstate) : option mstate :=
  match k, ds with
  | Load n e, [d] => Some (set s d (extend n e (load_bytes (memory s) a n)))
  | LoadPair n e, [d1; d2] =>
      Some (set (set s d1 (extend n e (load_bytes (memory s) a n)))
                d2 (extend n e (load_bytes (memory s) (a + Z.of_nat n) n)))
  | Store n, [d] => Some (set_memory s (store_bytes (memory s) a (data s d) n))
  | StorePair n, [d1; d2] =>
      Some (set_memory s (store_bytes (store_bytes (memory s) a (data s d1) n)
                                      (a + Z.of_nat n) (data s d2) n))
  | _, _ => None
  end.

Definition exec (i : Insn) (s : mstate) : option mstate :=
  match sem_of (mop i), opnds i with
  | Mov w, [OpdRegister d; OpdImmediate v] => Some (set s (regNO d) (wrap w (imm_value v)))
  | Movz, [OpdRegister d; OpdImmediate v; OpdShift sh] =>
      Some (set s (regNO d) (wrap 64 (Z.shiftl (imm_value v) (shiftAmount sh))))
  | Movn, [OpdRegister d; OpdImmediate v; OpdShift sh] =>
      Some (set s (regNO d) (notw 64 (Z.shiftl (imm_value v) (shiftAmount sh))))
  | Movk w, [OpdRegister d; OpdImmediate v; OpdShift sh] =>
      Some (set s (regNO d) (insert_bits (read w s (regNO d)) (shiftAmount sh) 16 (imm_value v)))
  | Bfi, [OpdRegister d; OpdRegister n; OpdImmediate lsb; OpdImmediate width] =>
      Some (set s (regNO d)
        (insert_bits (read 64 s (regNO d)) (imm_value lsb) (imm_value width) (read 64 s (regNO n))))
  | Alu sub w, OpdRegister d :: OpdRegister n :: rest =>
      if sp_encodable (regNO d) (regNO n) rest then
        y ← op2_value w s rest;
        Some (set s (regNO d) (alu sub w (read w s (regNO n)) y))
      else None
  | AluS sub w, OpdRegister cc :: OpdRegister d :: OpdRegister n :: rest =>
      y ← op2_value w s rest;
      let '(r, f) := alu_flags sub w (read w s (regNO n)) y in
      Some (set_flags (set s (regNO d) r) f)
  | Ccmp w, [OpdRegister cc; OpdRegister n; o; OpdImmediate v; OpdCond c; OpdRegister cc'] =>
      y ← op2_value w s [o];
      Some (set_flags s (if ConditionHolds c (flags s)
                         then snd (alu_flags true w (read w s (regNO n)) y) else flags_of (imm_value v)))
  | k, [OpdRegister d; OpdMem m] => a ← address s m; exec_mem k [regNO d] a s
  | k, [OpdRegister d1; OpdRegister d2; OpdMem m] =>
      a ← address s m; exec_mem k [regNO d1; regNO d2] a s
  | _, _ => None
  end.

Fixpoint execs (l : list Insn) (s : mstate) : option mstate :=
  match l with
  | [] => Some s
  | i :: l' => s' ← exec i s; execs l' s'
  end.

(** Two states that agree on the registers of [P], the flags and memory. *)
Definition agree (P : Z -> Prop) (s t : mstate) : Prop :=
  (forall r, P r -> regs s r = regs t r) /\ flags s = flags t /\
  forall a, memory s a = memory t a.

(** ** Scratch registers *)

(** The scratch registers of a split: R16 once registers are allocated, before
    that the virtual registers not yet in use. *)
Definition scratch (isAfterRegAlloc : bool) (next r : Z) : Prop :=
  if isAfterRegAlloc then r = R16 else next <= r.
