(* ===== verification/A64MoveSplit.v ===== *)
(** * The splits of moves are correct

    [MOP_wmovri32Split] and [MOP_xmovri64Split]: the instructions they emit are
    valid and leave the constant in the destination. *)

From S2P Require Import Prelude.
From S2P Require Import IntWords.
From S2P Require Import IntWordsFacts.
From S2P Require Import A64Imm.
From S2P Require Import A64ImmFacts.
From S2P Require Import A64MoveFacts.
From S2P Require Import A64Insn.
From S2P Require Import A64Split.
From S2P Require Import A64Sem.

(** ** States that agree *)

Definition everywhere (r : Z) : Prop := True.

#[export] Instance agree_equivalence (P : Z -> Prop) : Equivalence (agree P).
Proof.
  split.
  - intros s. by split_and!.
  - intros s t (Hr & Hf & Hm). split_and!; [|done|]; intros; symmetry; auto.
  - intros s t u (Hr & Hf & Hm) (Hr' & Hf' & Hm').
    split_and!; [intros r HP; by rewrite Hr, Hr'|congruence|intros a; by rewrite Hm].
Qed.

Lemma agree_mono (P Q : Z -> Prop) (s t : mstate) :
  (forall r, Q r -> P r) -> agree P s t -> agree Q s t.
Proof. intros H (Hr & Hf & Hm). split_and!; auto. Qed.

(** Writing the same value into states that agree elsewhere. *)
Lemma agree_set (P Q : Z -> Prop) (s t : mstate) (d v : Z) :
  (forall r, Q r -> P r \/ r = d /\ d <> RZR) -> agree P s t -> agree Q (set s d v) (set t d v).
Proof.
  intros H (Hr & Hf & Hm). unfold set. destruct (Z.eqb_spec d RZR).
  - split_and!; [|done..]. intros r Hq. destruct (H r Hq); [auto|tauto].
  - split_and!; cbn; [|done..]. intros r Hq. destruct (Z.eqb_spec r d); [done|].
    destruct (H r Hq); [auto|tauto].
Qed.

(** A register is written twice. *)
Lemma agree_set_set (P : Z -> Prop) (s : mstate) (d u v : Z) :
  agree P (set (set s d u) d v) (set s d v).
Proof.
  unfold set. destruct (d =? RZR); [done|]. split_and!; cbn; [|done..].
  intros r _. by destruct (r =? d).
Qed.

Lemma read_set (w : Z) (s : mstate) (d v : Z) :
  0 <= w -> d <> RZR -> read w (set s d v) d = wrap w v.
Proof.
  intros Hw Hd. unfold read, set. rewrite (proj2 (Z.eqb_neq d RZR)) by done. cbn. by rewrite Z.eqb_refl.
Qed.

Lemma read_set_ne (w : Z) (s : mstate) (d v r : Z) : r <> d -> read w (set s d v) r = read w s r.
Proof.
  intros Hr. unfold read, set. destruct (d =? RZR); [done|]. cbn.
  by rewrite (proj2 (Z.eqb_neq r d)) by done.
Qed.

Lemma read_agree (P : Z -> Prop) (w : Z) (s t : mstate) (r : Z) :
  P r \/ r = RZR -> agree P s t -> read w s r = read w t r.
Proof.
  intros H (Hr & _). unfold read. destruct (Z.eqb_spec r RZR) as [|Hn]; [done|].
  destruct H as [H| ->]; [by rewrite Hr|done].
Qed.

Lemma execs_app (l k : list Insn) (s : mstate) : execs (l ++ k) s = (t ← execs l s; execs k t).
Proof.
  revert s. induction l as [|i l IH]; intros s; cbn; [done|].
  destruct (exec i s); cbn; [apply IH|done].
Qed.

Definition all_valid (l : list Insn) : Prop := Forall (fun i => VerifySelf i = Ret true) l.

(** The instructions [l] run from [s] and end in a state that agrees with [s']
    on the registers of [P]. *)
Definition runs_to (P : Z -> Prop) (l : list Insn) (s s' : mstate) : Prop :=
  exists t, execs l s = Some t /\ agree P s' t.

Lemma runs_to_one (P : Z -> Prop) (i : Insn) (s s' : mstate) :
  exec i s = Some s' -> runs_to P [i] s s'.
Proof. intros H. exists s'. cbn. by rewrite H. Qed.

Lemma runs_to_app (P Q : Z -> Prop) (l k : list Insn) (s s' s'' : mstate) :
  runs_to P l s s' -> (forall t, agree P s' t -> runs_to Q k t s'') -> runs_to Q (l ++ k) s s''.
Proof.
  intros (t & Hl & Ha) Hk. destruct (Hk t Ha) as (t' & Hk' & Ha'). exists t'.
  rewrite execs_app, Hl. done.
Qed.

(** ** The 16-bit chunks of a 64-bit move *)

Lemma testbit_insert_bits (old lsb width v i : Z) :
  0 <= lsb -> 0 <= width -> 0 <= i ->
  Z.testbit (insert_bits old lsb width v) i =
  if (lsb <=? i) && (i <? lsb + width) then Z.testbit v (i - lsb) else Z.testbit old i.
Proof.
  intros Hl Hw Hi. unfold insert_bits.
  rewrite Z.lor_spec, Z.ldiff_spec, Z.land_spec, !testbit_shiftl, testbit_ones by lia.
  assert ((0 <=? i - lsb) && (i - lsb <? width) = (lsb <=? i) && (i <? lsb + width)) as -> by bool_cases.
  destruct ((lsb <=? i) && _); cbn [negb].
  - by rewrite andb_false_r, andb_true_r.
  - by rewrite andb_true_r, andb_false_r, orb_false_r.
Qed.

Lemma insert_bits_range (w old lsb width v : Z) :
  0 <= lsb -> 0 <= width -> lsb + width <= w -> 0 <= old < 2 ^ w -> 0 <= v ->
  0 <= insert_bits old lsb width v < 2 ^ w.
Proof.
  intros Hl Hw Hlw Ho Hv. apply in_word_bits; [lia| |].
  - unfold insert_bits. apply Z.lor_nonneg. split.
    + apply Z.ldiff_nonneg. lia.
    + apply Z.land_nonneg. left. by apply Z.shiftl_nonneg.
  - intros i Hi. rewrite testbit_insert_bits by lia. rewrite (proj2 (Z.ltb_ge _ _)) by lia.
    rewrite andb_false_r. by apply (testbit_above w); lia.
Qed.

Lemma BitwiseNegate_chunk (c : Z) :
  0 <= c < 2 ^ 16 -> imm_value (BitwiseNegate (CreateImm 16 c false)) = 2 ^ 16 - 1 - c.
Proof.
  intros Hc. unfold BitwiseNegate, CreateImm, set_value. cbn [imm_value imm_size].
  change (wrap 64 (shl 64 1 16 - 1)) with (Z.ones 16). rewrite land_ones_wrap, notw_wrap by lia.
  pose proof (notw_spec 16 c ltac:(lia) Hc) as E. unfold notw in *. rewrite wrap_wrap_le, E by lia.
  apply swrap_small; lia.
Qed.

Lemma move_insn_valid (op : MOperator) (d : Operand) (c : ImmOperand) (i : Z) :
  op = MOP_xmovzri16 \/ op = MOP_xmovnri16 \/ op = MOP_xmovkri16 ->
  0 <= imm_value c < 2 ^ 16 -> 0 <= i <= 3 ->
  VerifySelf (mkInsn op [d; OpdImmediate c; OpdShift (mkShift kShiftLSL (16 * i) 6)]) = Ret true.
Proof.
  intros Hop Hc Hi. pose proof (Imm16BitValid_chunk _ Hc) as Hv.
  assert (ImmShift64Valid (16 * i) = true) as Hs.
  { assert (i = 0 \/ i = 1 \/ i = 2 \/ i = 3) as H by lia. by destruct H as [->|[->|[->| ->]]]. }
  destruct Hop as [->|[->| ->]]; cbn; by rewrite Hv, Hs.
Qed.

Section Chunks.
Context (destReg : RegOperand) (imm : Z) (useMovz : bool).
Context (dest_not_zr : regNO destReg <> RZR).

(** The bits of the chunks that need no instruction. *)
Definition fill : bool := negb useMovz.

(** After the chunks below [k]: the instructions load a word with the bits of
    the constant below bit [16 * k] and fill above, or there are none and these
    bits are all fill. *)
Definition loaded (k : Z) (acc : list Insn * bool) : Prop :=
  if snd acc then
    all_valid (fst acc) /\
    exists D, 0 <= D < 2 ^ 64 /\
      (forall i, 0 <= i < 64 -> Z.testbit D i = if i <? 16 * k then Z.testbit (wrap 64 imm) i else fill) /\
      forall s, runs_to everywhere (fst acc) s (set s (regNO destReg) D)
  else fst acc = [] /\ forall i, 0 <= i < 16 * k -> Z.testbit (wrap 64 imm) i = fill.

Lemma first_chunk (c i j : Z) :
  0 <= c < 2 ^ 16 -> 0 <= i <= 3 -> 0 <= j < 64 ->
  Z.testbit (if useMovz then wrap 64 (Z.shiftl c (16 * i))
             else notw 64 (Z.shiftl (2 ^ 16 - 1 - c) (16 * i))) j =
  if (16 * i <=? j) && (j <? 16 * i + 16) then Z.testbit c (j - 16 * i) else fill.
Proof.
  intros Hc Hi Hj. unfold fill. destruct useMovz; cbn [negb].
  - rewrite testbit_wrap, testbit_shiftl by lia. rewrite (proj2 (Z.ltb_lt j 64)) by lia. cbn [andb].
    destruct (Z.leb_spec (16 * i) j); cbn [andb]; [|by rewrite Z.testbit_neg_r by lia].
    destruct (Z.ltb_spec j (16 * i + 16)); [done|]. by apply (testbit_above 16); lia.
  - rewrite <- notw_spec by lia. unfold notw at 1.
    rewrite testbit_wrap, Z.lnot_spec, testbit_shiftl by lia. rewrite (proj2 (Z.ltb_lt j 64)) by lia. cbn [andb].
    destruct (Z.leb_spec (16 * i) j); cbn [andb]; [|by rewrite Z.testbit_neg_r by lia].
    unfold notw. rewrite testbit_wrap, Z.lnot_spec by lia.
    destruct (Z.ltb_spec j (16 * i + 16)), (Z.ltb_spec (j - 16 * i) 16); cbn [andb]; try done; try lia.
    apply negb_involutive.
Qed.

Lemma mov_chunk_loaded (k : Z) (acc : list Insn * bool) :
  0 <= k <= 3 -> loaded k acc -> loaded (k + 1) (mov_chunk destReg imm useMovz acc k).
Proof.
  intros Hk. destruct acc as [insns useMovk]. unfold mov_chunk. cbn zeta.
  fold (chunk (wrap 64 imm) k). pose proof (chunk_range (wrap 64 imm) k Hk) as Hc.
  assert (forall j, 0 <= j < 16 -> Z.testbit (chunk (wrap 64 imm) k) j = Z.testbit (wrap 64 imm) (16 * k + j))
    as Hbits by (intros; by apply testbit_chunk).
  set (c := chunk _ _) in *. set (u := wrap 64 imm) in *.
  destruct (if useMovz then c =? 0 else c =? 0xFFFF) eqn:Efill.
  { assert (forall j, 16 * k <= j < 16 * k + 16 -> Z.testbit u j = fill) as Hf.
    { intros j Hj. replace j with (16 * k + (j - 16 * k)) by ring. rewrite <- Hbits by lia.
      unfold fill. destruct useMovz; apply Z.eqb_eq in Efill; rewrite Efill; [apply Z.testbit_0_l|].
      change 0xFFFF with (Z.ones 16). rewrite testbit_ones by lia. bool_cases. }
    unfold loaded. cbn [fst snd]. destruct useMovk.
    - intros (Hv & D & HD & Hb & Hrun). split; [done|]. exists D. split; [done|]. split; [|done].
      intros j Hj. rewrite Hb by done. destruct (Z.ltb_spec j (16 * k)), (Z.ltb_spec j (16 * (k + 1)));
        try done; [lia|]. symmetry. apply Hf. lia.
    - intros [-> Hb]. split; [done|]. intros j Hj. destruct (decide (j < 16 * k)); [apply Hb|apply Hf]; lia. }
  unfold loaded. destruct useMovk; cbn [negb fst snd].
  - intros (Hv & D & HD & Hb & Hrun). split.
    { apply Forall_app. split; [done|]. constructor; [|done]. apply move_insn_valid; [tauto|done|done]. }
    exists (insert_bits D (16 * k) 16 c). split; [apply insert_bits_range; lia|]. split.
    + intros j Hj. rewrite testbit_insert_bits, Hb by lia.
      destruct (Z.leb_spec (16 * k) j), (Z.ltb_spec j (16 * k + 16)), (Z.ltb_spec j (16 * k)),
        (Z.ltb_spec j (16 * (k + 1))); cbn [andb]; try done; try lia.
      rewrite Hbits by lia. f_equal. lia.
    + intros s. eapply runs_to_app; [apply Hrun|]. intros t Ht. eexists. cbn.
      split; [done|]. rewrite <- (read_agree everywhere 64 _ t _ (or_introl I) Ht).
      rewrite read_set, wrap_small by (done || lia).
      etransitivity; [symmetry; apply agree_set_set|]. apply (agree_set everywhere); [by left|exact Ht].
  - intros [-> Hlow]. cbn [app].
    set (D := if useMovz then wrap 64 (Z.shiftl c (16 * k)) else notw 64 (Z.shiftl (2 ^ 16 - 1 - c) (16 * k))).
    pose proof (BitwiseNegate_chunk c Hc) as En. split.
    { constructor; [|done]. destruct useMovz; cbn [negb].
      - apply move_insn_valid; [tauto|exact Hc|done].
      - apply move_insn_valid; [tauto|rewrite En; lia|done]. }
    exists D. split; [unfold D; destruct useMovz; [by apply wrap_range|apply notw_range]|]. split.
    + intros j Hj. unfold D. rewrite first_chunk by lia.
      destruct (Z.leb_spec (16 * k) j), (Z.ltb_spec j (16 * k + 16)), (Z.ltb_spec j (16 * (k + 1)));
        cbn [andb]; try done; try lia.
      * rewrite Hbits by lia. f_equal. lia.
      * symmetry. apply Hlow. lia.
    + intros s. apply runs_to_one. unfold D. destruct useMovz; cbn [negb];
        [done|]. unfold exec. cbn [mop sem_of opnds shiftAmount]. by rewrite En.
Qed.
End Chunks.

(** ** Moves *)

Definition mov_insn (w : Z) (d : RegOperand) (i : ImmOperand) : Insn :=
  mkInsn (pick (w =? 64) MOP_xmovri64 MOP_wmovri32) [OpdRegister d; OpdImmediate i].

Lemma all_valid_app (l k : list Insn) : all_valid l -> all_valid k -> all_valid (l ++ k).
Proof. intros Hl Hk. by apply Forall_app. Qed.

Lemma all_valid_one (i : Insn) : VerifySelf i = Ret true -> all_valid [i].
Proof. intros H. by constructor. Qed.

(** Some bit of a constant that no single move loads is not fill. *)
Lemma not_all_fill (u : Z) (useMovz : bool) :
  0 <= u < 2 ^ 64 -> ~ wide_imm 64 u -> ~ wide_imm 64 (notw 64 u) ->
  ~ forall i, 0 <= i < 64 -> Z.testbit u i = fill useMovz.
Proof.
  intros Hu N0 N1 Hb. unfold fill in Hb. destruct useMovz; cbn [negb] in Hb.
  - apply N0. replace u with 0; [by apply wide_imm_0|].
    apply (word_ext 64); [lia|done|]. intros i Hi. rewrite Hb by lia. apply Z.testbit_0_l.
  - apply N1. replace (notw 64 u) with 0; [by apply wide_imm_0|].
    apply (word_ext 64); [lia|apply notw_range|]. intros i Hi.
    rewrite testbit_notw, Hb by lia. apply Z.testbit_0_l.
Qed.

(** All the chunks have been loaded. *)
Lemma loaded_all (d : RegOperand) (imm : Z) (useMovz : bool) (acc : list Insn * bool) :
  ~ wide_imm 64 (wrap 64 imm) -> ~ wide_imm 64 (notw 64 (wrap 64 imm)) ->
  loaded d imm useMovz 4 acc ->
  all_valid (fst acc) /\ forall s, runs_to everywhere (fst acc) s (set s (regNO d) (wrap 64 imm)).
Proof.
  intros N0 N1. unfold loaded. destruct (snd acc).
  - intros (Hv & D & HD & Hb & Hrun). split; [done|]. replace (wrap 64 imm) with D; [done|].
    apply (word_ext 64); [done|by apply wrap_range|]. intros i Hi. rewrite Hb by done. bool_cases.
  - intros [_ Hb]. by destruct (not_all_fill (wrap 64 imm) useMovz); [apply wrap_range|..].
Qed.

(** Two chunks and a copy of the low half into the high half. *)
Definition bfi_high (d : RegOperand) : Insn :=
  let bfi := OpdImmediate (CreateImm 8 32 false) in
  mkInsn MOP_xbfirri6i6 [OpdRegister d; OpdRegister d; bfi; bfi].

Lemma loaded_half (d : RegOperand) (imm : Z) (useMovz : bool) (acc : list Insn * bool) :
  regNO d <> RZR ->
  (forall i, 32 <= i < 64 -> Z.testbit (wrap 64 imm) i = Z.testbit (wrap 64 imm) (i - 32)) ->
  ~ wide_imm 64 (wrap 64 imm) -> ~ wide_imm 64 (notw 64 (wrap 64 imm)) ->
  loaded d imm useMovz 2 acc ->
  all_valid (fst acc ++ [bfi_high d]) /\
  forall s, runs_to everywhere (fst acc ++ [bfi_high d]) s (set s (regNO d) (wrap 64 imm)).
Proof.
  intros Hd Hhi N0 N1. pose proof (wrap_range 64 imm ltac:(lia)) as Hu.
  unfold loaded. set (u := wrap 64 imm) in *. destruct (snd acc).
  - intros (Hv & D & HD & Hb & Hrun). split; [by apply all_valid_app, all_valid_one|].
    intros s. eapply runs_to_app; [apply Hrun|]. intros t Ht. eexists. cbn. split; [done|].
    rewrite <- (read_agree everywhere 64 _ t _ (or_introl I) Ht), read_set, wrap_small by (done || lia).
    replace (insert_bits D 32 32 D) with u.
    + etransitivity; [symmetry; apply agree_set_set|]. apply (agree_set everywhere); [by left|exact Ht].
    + apply (word_ext 64); [done|by apply insert_bits_range; lia|]. intros i Hi.
      rewrite testbit_insert_bits by lia.
      destruct (Z.leb_spec 32 i), (Z.ltb_spec i (32 + 32)); cbn [andb]; try lia.
      * rewrite Hhi, Hb by lia. bool_cases.
      * rewrite Hb by lia. bool_cases.
  - intros [_ Hb]. destruct (not_all_fill u useMovz); [done..|]. intros i Hi.
    destruct (decide (i < 32)); [apply Hb; lia|]. rewrite Hhi by lia. apply Hb. lia.
Qed.

Lemma halves_equal (u : Z) :
  0 <= u < 2 ^ 64 -> Z.land u 0xFFFFFFFF = Z.land (shr 64 u 32) 0xFFFFFFFF ->
  forall i, 32 <= i < 64 -> Z.testbit u i = Z.testbit u (i - 32).
Proof.
  intros Hu E i Hi. change 0xFFFFFFFF with (Z.ones 32) in E. unfold shr in E.
  change (32 mod 64) with 32 in E. apply (f_equal (fun x => Z.testbit x (i - 32))) in E.
  rewrite !Z.land_spec, Z.shiftr_spec, testbit_ones in E by lia.
  rewrite (proj2 (Z.leb_le _ _)), (proj2 (Z.ltb_lt _ _)), !andb_true_r in E by lia.
  rewrite E. f_equal. lia.
Qed.

Lemma xmovri64_split (d : RegOperand) (i : ImmOperand) (n : Z) :
  regNO d <> RZR ->
  exists l, MOP_xmovri64Split (mov_insn 64 d i) n = Ret (l, n) /\ all_valid l /\
    forall s, runs_to everywhere l s (set s (regNO d) (wrap 64 (imm_value i))).
Proof.
  intros Hd. destruct (IsSingleInstructionMovable64_eq (imm_value i)) as (b & Hb & Hspec).
  unfold MOP_xmovri64Split, bind, lift.
  assert (VerifySelf (mov_insn 64 d i) = Ret b) as -> by exact Hb. destruct b.
  { eexists. split; [done|]. split; [by apply all_valid_one|]. intros s. by apply runs_to_one. }
  cbn [mov_insn pick Z.eqb Pos.eqb opnds get_reg get_imm GetOperand lookup list_lookup mbind res_bind as_reg as_imm].
  pose proof (wrap_range 64 (imm_value i) ltac:(lia)) as Hu. unfold movable64 in Hspec.
  assert (~ wide_imm 64 (wrap 64 (imm_value i))) as N0 by (intros H; by assert (false = true) by tauto).
  assert (~ wide_imm 64 (notw 64 (wrap 64 (imm_value i)))) as N1 by (intros H; by assert (false = true) by tauto).
  destruct (BetterUseMOVZ_ok _ Hu N0 N1) as (useMovz & ->).
  assert (loaded d (imm_value i) useMovz 0 ([], false)) as L0 by (split; [done|lia]).
  apply mov_chunk_loaded in L0 as L1; [|done|lia]. apply mov_chunk_loaded in L1 as L2; [|done|lia].
  destruct (Z.eqb_spec (Z.land (wrap 64 (imm_value i)) 0xFFFFFFFF)
              (Z.land (shr 64 (wrap 64 (imm_value i)) 32) 0xFFFFFFFF)) as [E|_].
  - eexists. split; [done|]. apply (loaded_half d (imm_value i) useMovz _ Hd); [by apply halves_equal|done..].
  - apply mov_chunk_loaded in L2 as L3; [|done|lia]. apply mov_chunk_loaded in L3 as L4; [|done|lia].
    eexists. split; [done|]. by apply (loaded_all d (imm_value i) useMovz).
Qed.

Lemma mov_chunk_valid (w : Z) (d : RegOperand) (i : ImmOperand) :
  w = 32 \/ w = 64 -> 0 <= imm_value i < 2 ^ 16 -> VerifySelf (mov_insn w d i) = Ret true.
Proof.
  intros Hw Hi.
  assert (forall w', 32 <= w' -> wide_imm w' (imm_value i)) as Hwide.
  { intros w' H. exists 0, (imm_value i). split_and!; try lia. apply Z.div_str_pos. lia. }
  destruct Hw as [-> | ->].
  - destruct (IsSingleInstructionMovable32_eq (imm_value i) ltac:(lia)) as (b & Hb & Hspec).
    assert (VerifySelf (mov_insn 32 d i) = Ret b) as -> by exact Hb. f_equal. apply Hspec.
    rewrite wrap_small by lia. split; [unfold extended32; lia|]. left. apply Hwide. lia.
  - destruct (IsSingleInstructionMovable64_eq (imm_value i)) as (b & Hb & Hspec).
    assert (VerifySelf (mov_insn 64 d i) = Ret b) as -> by exact Hb. f_equal. apply Hspec.
    rewrite wrap_small by lia. left. apply Hwide. lia.
Qed.

Lemma wmovri32_split (d : RegOperand) (i : ImmOperand) (n : Z) :
  regNO d <> RZR ->
  exists l, MOP_wmovri32Split (mov_insn 32 d i) n = Ret (l, n) /\ all_valid l /\
    forall s, runs_to everywhere l s (set s (regNO d) (wrap 32 (imm_value i))).
Proof.
  intros Hd. unfold MOP_wmovri32Split, bind, lift.
  cbn [mov_insn pick Z.eqb Pos.eqb opnds mop get_reg get_imm GetOperand lookup list_lookup mbind res_bind as_reg as_imm].
  change 0x00000000FFFFFFFF with (Z.ones 32). rewrite land_ones_wrap, wrap_wrap_le by lia.
  pose proof (wrap_range 32 (imm_value i) ltac:(lia)) as Hu.
  assert (forall s, set s (regNO d) (wrap 32 (imm_value i)) =
                    set s (regNO d) (wrap 32 (wrap 32 (imm_value i)))) as Eset
    by (intros; by rewrite wrap_wrap by lia).
  set (u := wrap 32 (imm_value i)) in *.
  destruct (IsSingleInstructionMovable32_eq u ltac:(lia)) as (b & Hb & Hspec).
  set (cur := mkInsn MOP_wmovri32 _).
  assert (VerifySelf cur = Ret b) as -> by exact Hb. destruct b.
  { eexists. split; [done|]. split; [apply all_valid_one; exact Hb|]. intros s.
    apply runs_to_one. rewrite Eset. done. }
  eexists. split; [done|].
  change 0xFFFF with (Z.ones 16). unfold shr. change (16 mod 64) with 16.
  rewrite !land_ones_wrap by lia.
  pose proof (wrap_range 16 u ltac:(lia)) as H0. pose proof (wrap_range 16 (Z.shiftr u 16) ltac:(lia)) as H1.
  split.
  - constructor; [apply (mov_chunk_valid 32 d (CreateImm 16 (wrap 16 u) false)); [tauto|done]|].
    apply all_valid_one. cbn. by rewrite Imm16BitValid_chunk by done.
  - intros s. eexists. cbn. split; [done|]. rewrite read_set by (done || lia).
    replace (insert_bits _ _ _ _) with u; [symmetry; apply agree_set_set|].
    rewrite (wrap_small 32 (wrap 16 u)) by lia. rewrite (wrap_small 32 (wrap 16 u)) by lia.
    apply (word_ext 32); [done|by apply insert_bits_range; lia|]. intros j Hj.
    rewrite testbit_insert_bits by lia. clearbody u.
    destruct (Z.leb_spec 16 j), (Z.ltb_spec j (16 + 16)); cbn [andb]; try lia; rewrite testbit_wrap by lia;
      rewrite (proj2 (Z.ltb_lt _ _)) by lia; cbn [andb]; [|done].
    rewrite Z.shiftr_spec by lia. f_equal. lia.
Qed.

(** Both widths, through [SplitSelf]. *)
Lemma mov_split (w : Z) (fuel : nat) (ara : bool) (d : RegOperand) (i : ImmOperand) (n : Z) :
  w = 32 \/ w = 64 -> regNO d <> RZR ->
  exists l, SplitSelf (S fuel) ara (mov_insn w d i) n = Ret (l, n) /\ all_valid l /\
    forall s, runs_to everywhere l s (set s (regNO d) (wrap w (imm_value i))).
Proof. intros [-> | ->] Hd; [by apply wmovri32_split|by apply xmovri64_split]. Qed.

(** [VerifySelf] never fails on a move, and a split follows when it says no. *)
Lemma mov_split_if_invalid (w : Z) (fuel : nat) (ara : bool) (d : RegOperand) (i : ImmOperand) (n : Z) :
  w = 32 \/ w = 64 -> regNO d <> RZR -> - 2 ^ 63 <= imm_value i < 2 ^ 63 ->
  exists l, split_if_invalid (SplitSelf (S fuel) ara) (mov_insn w d i) n = Ret (l, n) /\ all_valid l /\
    forall s, runs_to everywhere l s (set s (regNO d) (wrap w (imm_value i))).
Proof.
  intros Hw Hd Hi. unfold split_if_invalid, bind, lift.
  assert (exists b, VerifySelf (mov_insn w d i) = Ret b) as [b Hb].
  { destruct Hw as [-> | ->].
    - destruct (IsSingleInstructionMovable32_eq (imm_value i) Hi) as (b & Hb & _). by exists b.
    - destruct (IsSingleInstructionMovable64_eq (imm_value i)) as (b & Hb & _). by exists b. }
  rewrite Hb. destruct b; cbn [negb]; [|by apply mov_split].
  eexists. split; [done|]. split; [by apply all_valid_one|]. intros s. apply runs_to_one.
  by destruct Hw as [-> | ->].
Qed.
