(* ===== verification/A64SplitFacts.v ===== *)
(** * The splits of additions and subtractions are correct

    [AddInsnSplit], [SubInsnSplit] and their composition with the splits of
    moves: the instructions emitted are valid and compute what the instruction
    they replace computes, with an immediate of any size. *)

From S2P Require Import Prelude.
From S2P Require Import IntWords.
From S2P Require Import IntWordsFacts.
From S2P Require Import A64Imm.
From S2P Require Import A64ImmFacts.
From S2P Require Import A64MoveFacts.
From S2P Require Import A64Insn.
From S2P Require Import A64Split.
From S2P Require Import A64Sem.
From S2P Require Import A64MoveSplit.

(** ** Significant bits of an immediate *)

Lemma bit_search_spec (test : Z -> bool) (n : nat) : forall b,
  (exists i, b <= i < b + Z.of_nat n /\ test i = true) ->
  b <= bit_search test n b < b + Z.of_nat n /\ test (bit_search test n b) = true /\
  forall i, b <= i < bit_search test n b -> test i = false.
Proof.
  induction n as [|n IH]; intros b (i & Hi & Ht); [lia|]. cbn [bit_search].
  destruct (test b) eqn:E; [split_and!; [lia|lia|done|lia]|].
  destruct (IH (b + 1)) as (Hr & H1 & H2).
  - exists i. split; [|done]. destruct (decide (i = b)) as [->|]; [congruence|lia].
  - split_and!; [lia..|done|]. intros j Hj. destruct (decide (j = b)) as [->|]; [done|]. apply H2. lia.
Qed.

Lemma land_pow2_test (u i : Z) : 0 <= i -> negb (Z.land (2 ^ i) u =? 0) = Z.testbit u i.
Proof.
  intros Hi. destruct (Z.testbit u i) eqn:E.
  - apply negb_true_iff, Z.eqb_neq. intros H. apply (f_equal (fun x => Z.testbit x i)) in H.
    rewrite Z.land_spec, Z.pow2_bits_true, E, Z.testbit_0_l in H by lia. done.
  - apply negb_false_iff, Z.eqb_eq. apply bits_ext. intros j Hj.
    rewrite Z.land_spec, Z.testbit_0_l, Z.pow2_bits_eqb by lia.
    destruct (Z.eqb_spec i j) as [<-|]; [by rewrite E|done].
Qed.

Lemma has_bit (u : Z) : 0 < u < 2 ^ 64 -> exists i, 0 <= i < 64 /\ Z.testbit u i = true.
Proof.
  intros Hu. exists (builtin_ctz u). destruct (ctz_spec u ltac:(lia)) as (H0 & H1 & _). split; [|done].
  split; [done|]. apply Z.nle_gt. intros H. rewrite (testbit_above 64) in H1 by lia. done.
Qed.

Lemma GetTail0BitNum_spec (v : Z) :
  wrap 64 v <> 0 ->
  0 <= GetTail0BitNum v < 64 /\ Z.testbit (wrap 64 v) (GetTail0BitNum v) = true /\
  forall i, 0 <= i < GetTail0BitNum v -> Z.testbit (wrap 64 v) i = false.
Proof.
  intros Hv. pose proof (wrap_range 64 v ltac:(lia)) as Hr. set (u := wrap 64 v) in *.
  assert (forall i, 0 <= i < 64 -> negb (Z.land (shl 64 1 i) u =? 0) = Z.testbit u i) as Ht.
  { intros i Hi. unfold shl. rewrite Z.mod_small, Z.shiftl_1_l by lia.
    rewrite wrap_small by (split; [lia|apply Z.pow_lt_mono_r; lia]). apply land_pow2_test. lia. }
  unfold GetTail0BitNum. fold u. destruct (has_bit u ltac:(lia)) as (i & Hi & Hb).
  destruct (bit_search_spec (fun bitNum => negb (Z.land (shl 64 1 bitNum) u =? 0)) 64 0) as (H1 & H2 & H3).
  { exists i. split; [lia|]. cbv beta.
   by rewrite Ht by lia. }
  cbv beta in *. split; [lia|]. rewrite Ht in H2 by lia. split; [done|]. intros j Hj. rewrite <- Ht by lia. by apply H3.
Qed.

Lemma GetHead0BitNum_spec (v : Z) :
  wrap 64 v <> 0 ->
  0 <= GetHead0BitNum v < 64 /\ wrap 64 v < 2 ^ (64 - GetHead0BitNum v).
Proof.
  intros Hv. pose proof (wrap_range 64 v ltac:(lia)) as Hr. set (u := wrap 64 v) in *.
  assert (forall i, 0 <= i < 64 -> negb (Z.land (shr 64 0x8000000000000000 i) u =? 0) = Z.testbit u (63 - i)) as Ht.
  { intros i Hi. unfold shr. rewrite (Z.mod_small i), Z.shiftr_div_pow2 by lia.
    change 0x8000000000000000 with (2 ^ 63). rewrite <- Z.pow_sub_r by lia. apply land_pow2_test. lia. }
  unfold GetHead0BitNum. fold u. destruct (has_bit u ltac:(lia)) as (i & Hi & Hb).
  destruct (bit_search_spec (fun bitNum => negb (Z.land (shr 64 0x8000000000000000 bitNum) u =? 0)) 64 0)
    as (H1 & H2 & H3).
  { exists (63 - i). split; [lia|]. cbv beta. rewrite Ht by lia. by replace (63 - (63 - i)) with i by ring. }
  cbv beta in *. set (h := bit_search _ _ _) in *. split; [lia|]. apply in_word_bits; [lia|lia|]. intros j Hj.
  destruct (decide (j < 64)); [|by apply (testbit_above 64); lia].
  replace j with (63 - (63 - j)) by ring. rewrite <- Ht by lia. apply H3. lia.
Qed.

(** ** Additions and subtractions *)

Definition alu_op (sub : bool) (w : Z) : MOperator :=
  if sub then pick (w =? 64) MOP_xsubrri12 MOP_wsubrri12 else pick (w =? 64) MOP_xaddrri12 MOP_waddrri12.

Definition alu_insn (sub : bool) (w : Z) (d b : RegOperand) (i : ImmOperand) : Insn :=
  mkInsn (alu_op sub w) [OpdRegister d; OpdRegister b; OpdImmediate i].

(** The registers an instruction sequence with destination [d] must preserve:
    all but the scratch registers, and [d]. *)
Definition kept (ara : bool) (n d r : Z) : Prop := ~ scratch ara n r \/ r = d.

(** The immediates of an addition of [w] bits. *)
Definition imm_fits (w v : Z) : Prop :=
  - 2 ^ 63 <= v < 2 ^ 63 /\ (w = 64 \/ w = 32 /\ - 2 ^ 32 < v < 2 ^ 32).

Definition uses_sp (d b : RegOperand) : Prop := regNO d = RSP \/ regNO b = RSP.

Lemma VerifySelf_alu (sub : bool) (w : Z) (d b : RegOperand) (i : ImmOperand) :
  VerifySelf (alu_insn sub w d b i) = Ret (Imm12BitValid (imm_value i)).
Proof. unfold alu_insn, alu_op, pick. by destruct sub, (w =? 64). Qed.

Lemma exec_alu (sub : bool) (w : Z) (d b : RegOperand) (i : ImmOperand) (s : mstate) :
  w = 32 \/ w = 64 ->
  exec (alu_insn sub w d b i) s =
  Some (set s (regNO d) (alu sub w (read w s (regNO b)) (wrap w (imm_value i)))).
Proof. intros [-> | ->]; by destruct sub. Qed.

(** The scratch register the split takes. *)
Lemma GetSplitBaseReg_spec (ara is64 : bool) (n : Z) :
  200 <= n ->
  exists tmp n', GetSplitBaseReg ara is64 n = Ret (tmp, n') /\ n <= n' /\ scratch ara n (regNO tmp) /\
    regNO tmp <> RZR /\ regNO tmp <> RSP /\ ~ scratch ara n RZR /\
    (forall r, ~ scratch ara n r -> ~ scratch ara n' r) /\ (ara = false -> ~ scratch ara n' (regNO tmp)).
Proof.
  intros Hn. unfold GetSplitBaseReg, CreateVReg, ret, scratch, RZR, RSP, R16. destruct ara; cbn [negb].
  - eexists _, n. split; [done|]. cbn. split_and!; lia || done.
  - eexists _, (n + 1). split; [done|]. cbn. split_and!; lia || (intros; lia).
Qed.

Lemma wrap_alu (sub : bool) (w x y y' : Z) :
  wrap w y = wrap w y' -> alu sub w x y = alu sub w x y'.
Proof.
  intros E. unfold alu. destruct sub.
  - by rewrite <- wrap_sub_r, E, wrap_sub_r.
  - by rewrite <- wrap_add_r, E, wrap_add_r.
Qed.

(** A value computed into the scratch register changes nothing else. *)
Lemma agree_but_scratch (s t : mstate) (tmp v : Z) :
  agree everywhere (set s tmp v) t -> agree (fun r => r <> tmp) s t.
Proof.
  intros (Hr & Hf & Hm). unfold set in *. destruct (tmp =? RZR); [by split; [intros; apply Hr; exact I|split]|].
  cbn in *. split; [|by split]. intros r Hrne. rewrite <- (Hr r I).
  cbv beta in Hrne. by rewrite (proj2 (Z.eqb_neq r tmp) Hrne).
Qed.

(** Then the destination is written. *)
Lemma agree_kept_set (ara : bool) (n tmp d x : Z) (s t : mstate) :
  200 <= n -> scratch ara n tmp ->
  agree (fun r => r <> tmp) s t -> agree (kept ara n d) (set s d x) (set t d x).
Proof.
  intros Hn Htmp.
  assert (forall r, ~ scratch ara n r -> r <> tmp) as Hne by (intros r H ->; done).
  apply agree_set. intros r [Hr| ->]; [left; by apply Hne|].
  destruct (decide (d = RZR)) as [->|]; [|by right].
  left. apply Hne. unfold scratch, RZR, R16. destruct ara; lia.
Qed.

Lemma through_scratch (ara : bool) (n tmp d v x : Z) (l : list Insn) (i : Insn) (s : mstate) :
  200 <= n -> scratch ara n tmp ->
  runs_to everywhere l s (set s tmp v) ->
  (forall t, agree everywhere (set s tmp v) t -> exec i t = Some (set t d x)) ->
  runs_to (kept ara n d) (l ++ [i]) s (set s d x).
Proof.
  intros Hn Htmp Hl Hi. eapply runs_to_app; [exact Hl|]. intros t Ht. exists (set t d x).
  cbn. rewrite Hi by done. split; [done|]. apply (agree_kept_set _ _ tmp); [done..|].
  by apply (agree_but_scratch _ _ _ v).
Qed.

(** *** The immediate in a register *)

(** The immediate is 16 significant bits shifted left. *)
Lemma shifted_imm (w v : Z) :
  wrap 64 v <> 0 -> imm_fits w v -> 64 - GetHead0BitNum v - GetTail0BitNum v <= 16 ->
  let t := GetTail0BitNum v in
  let c := Z.land (shr 64 (wrap 64 v) (wrap 32 t)) 0xFFFF in
  0 <= c < 2 ^ 16 /\ 0 <= wrap 32 t < w /\
  wrap w (Z.shiftl (wrap w c) (wrap 32 t)) = wrap w v.
Proof.
  intros Hv Hfit Hbits t. pose proof (wrap_range 64 v ltac:(lia)) as Hr.
  destruct (GetTail0BitNum_spec v Hv) as (Ht & Hone & Hlow). fold t in Ht, Hone, Hlow, Hbits.
  destruct (GetHead0BitNum_spec v Hv) as (Hh & Htop). set (u := wrap 64 v) in *.
  rewrite (wrap_small 32 t) by lia. cbn zeta. unfold shr. rewrite (Z.mod_small t) by lia.
  assert (0 <= Z.shiftr u t < 2 ^ 16) as Hc.
  { pose proof (shiftr_in_word 64 u t ltac:(lia) Hr). split; [lia|].
    rewrite Z.shiftr_div_pow2 by lia. apply Z.div_lt_upper_bound; [apply pow2_pos; lia|].
    rewrite <- Z.pow_add_r by lia. eapply Z.lt_le_trans; [exact Htop|]. apply Z.pow_le_mono_r; lia. }
  change 0xFFFF with (Z.ones 16). rewrite land_ones_wrap, (wrap_small 16) by lia. split; [done|].
  assert (Z.shiftl (Z.shiftr u t) t = u) as Eu.
  { apply bits_ext. intros i Hi. rewrite testbit_shiftl by lia. destruct (decide (i < t)).
    - by rewrite Z.testbit_neg_r, Hlow by lia.
    - rewrite Z.shiftr_spec by lia. f_equal. lia. }
  assert (32 <= w <= 64 /\ t < w) as [Hw Htw].
  { destruct Hfit as [Hs [->|[-> Hf]]]; [lia|]. split; [lia|]. apply Z.nle_gt. intros H32.
    assert (u mod 2 ^ 32 = 0) as Hm.
    { apply bits_ext. intros i Hi. rewrite Z.testbit_0_l. destruct (decide (i < 32)).
      - rewrite Z.mod_pow2_bits_low by lia. apply Hlow. lia.
      - apply Z.mod_pow2_bits_high. lia. }
    unfold u, wrap in Hm. fold (wrap 64 v) in Hm. change ((wrap 64 v) mod 2 ^ 32) with (wrap 32 (wrap 64 v)) in Hm.
    rewrite wrap_wrap_le in Hm by lia. unfold wrap in Hm. apply Z.mod_divide in Hm as [q Hq]; [|lia].
    assert (v = 0) as -> by nia. done. }
  split; [lia|]. destruct (decide (w = 32)) as [->|]; rewrite (wrap_small _ (Z.shiftr u t)).
  - rewrite Eu. unfold u. apply wrap_wrap_le. lia.
  - lia.
  - rewrite Eu. unfold u. apply wrap_wrap_le. lia.
  - split; [lia|]. eapply Z.lt_le_trans; [apply Hc|]. apply Z.pow_le_mono_r; lia.
Qed.

Lemma scratch_ok (ara : bool) (n r : Z) : 200 <= n -> scratch ara n r -> r <> RZR /\ r <> RSP.
Proof. unfold scratch, RZR, RSP, R16. destruct ara; lia. Qed.

(** [load_and_apply] with the opcodes of an addition or a subtraction. *)
Definition rrrs (sub : bool) (w : Z) : MOperator :=
  if sub then pick (w =? 64) MOP_xsubrrrs MOP_wsubrrrs else pick (w =? 64) MOP_xaddrrrs MOP_waddrrrs.
Definition rrr (sub : bool) (w : Z) : MOperator :=
  if sub then pick (w =? 64) MOP_xsubrrr MOP_wsubrrr else pick (w =? 64) MOP_xaddrrr MOP_waddrrr.

Lemma shifted_insn_valid (sub : bool) (w : Z) (a b c : Operand) (sh : BitShiftOperand) :
  w = 32 \/ w = 64 -> 0 <= shiftAmount sh < w ->
  VerifySelf (mkInsn (rrrs sub w) [a; b; c; OpdShift sh]) = Ret true.
Proof.
  intros Hw Hs.
  assert (forall k, 0 <= k < 64 -> 0 <= shiftAmount sh < 2 ^ k ->
            IsBitSizeImmediate (shiftAmount sh) k 0 = true) as Hv.
  { intros k Hk Hr. pose proof (Z.pow_lt_mono_r 2 k 64 ltac:(lia) ltac:(lia) ltac:(lia)).
    rewrite IsBitSizeImmediate_low by lia. apply Z.ltb_lt. lia. }
  destruct Hw as [-> | ->]; destruct sub; cbn; unfold shift_valid; cbn; f_equal.
  all: first [apply (Hv 5); lia | apply (Hv 6); lia].
Qed.

Lemma load_and_apply_spec (sub : bool) (w : Z) (fuel : nat) (ara : bool) (shifted_ok : Z -> bool)
    (d b : RegOperand) (i : ImmOperand) (n : Z) :
  w = 32 \/ w = 64 -> 200 <= n -> ~ scratch ara n (regNO b) ->
  wrap 64 (imm_value i) <> 0 -> imm_fits w (imm_value i) ->
  (uses_sp d b -> 64 - GetHead0BitNum (imm_value i) - GetTail0BitNum (imm_value i) > 16) ->
  exists l n',
    load_and_apply (SplitSelf (S fuel) ara) (rrrs sub w) (rrr sub w) shifted_ok (w =? 64) ara
      (OpdRegister d) (OpdRegister b) i n = Ret (l, n') /\ n <= n' /\ all_valid l /\
    forall s, runs_to (kept ara n (regNO d)) l s
                (set s (regNO d) (alu sub w (read w s (regNO b)) (wrap w (imm_value i)))).
Proof.
  intros Hw Hn Hb Hnz Hfit Hsp. unfold load_and_apply, bind at 1.
  destruct (GetSplitBaseReg_spec ara (w =? 64) n Hn) as (tmp & n' & -> & Hnn & Htmp & Hzr & _).
  unfold bind at 1. cbn [lift as_reg]. fold (mov_insn w tmp i). set (v := imm_value i) in *.
  assert (regNO b <> regNO tmp) as Hne by (intros E; rewrite E in Hb; done).
  assert (forall s x t, agree everywhere (set s (regNO tmp) x) t ->
            read w t (regNO b) = read w s (regNO b) /\ read w t (regNO tmp) = wrap w x) as Hread.
  { intros s x t Ht. rewrite <- !(read_agree everywhere w _ t _ (or_introl I) Ht).
    rewrite read_set_ne, read_set by (done || lia). done. }
  destruct (Z.leb_spec (64 - GetHead0BitNum v - GetTail0BitNum v) 16) as [H16|H16]; cbn [andb];
    [destruct (shifted_ok (regNO b))|].
  1: { destruct (shifted_imm w v Hnz Hfit H16) as (Hc & Ht & Ev). cbn zeta in *.
       set (c := Z.land _ _) in *. set (k := wrap 32 (GetTail0BitNum v)) in *.
       eexists _, n'. split; [done|]. split; [done|]. split.
       - constructor; [by apply (mov_chunk_valid w tmp (CreateImm 16 c false))|].
         apply all_valid_one. by apply shifted_insn_valid.
       - intros s. apply (through_scratch _ _ (regNO tmp) _ (wrap w c) _ [_]); [done..| |].
         + apply runs_to_one. by destruct Hw as [-> | ->].
         + intros t Hat. destruct (Hread s _ t Hat) as [E1 E2]. unfold exec.
           assert (~ uses_sp d b) as Hnsp by (intros H; specialize (Hsp H); lia).
           assert (sem_of (rrrs sub w) = Alu sub w) as Esem by (by destruct Hw as [-> | ->]; destruct sub).
           cbn [mop opnds]. rewrite Esem. cbn [sp_encodable op2_value is_lsl shiftOp shiftAmount].
           unfold uses_sp in Hnsp. rewrite (proj2 (Z.eqb_neq _ RSP)), (proj2 (Z.eqb_neq (regNO b) RSP)) by tauto.
           cbn [orb negb mbind option_bind]. rewrite E1, E2, wrap_wrap by lia.
           by rewrite Ev. }
  all: unfold bind.
  all: destruct (mov_split_if_invalid w fuel ara tmp i n' Hw Hzr (proj1 Hfit)) as (l & -> & Hl & Hrun).
  all: eexists _, n'; split; [done|]; split; [done|].
  all: split; [apply all_valid_app; [done|]; apply all_valid_one; by destruct Hw as [-> | ->]; destruct sub|].
  all: intros s; apply (through_scratch _ _ (regNO tmp) _ (wrap w v)); [done..|].
  all: intros t Hat; destruct (Hread s _ t Hat) as [E1 E2]; unfold exec.
  all: assert (sem_of (rrr sub w) = Alu sub w) as Esem by (by destruct Hw as [-> | ->]; destruct sub).
  all: cbn [mop opnds]; rewrite Esem; cbn [sp_encodable op2_value mbind option_bind].
  all: by rewrite E1, E2, wrap_wrap by lia.
Qed.

(** *** Twelve bits at a time *)

Definition rri24 (sub : bool) (w : Z) : MOperator :=
  if sub then pick (w =? 64) MOP_xsubrri24 MOP_wsubrri24 else pick (w =? 64) MOP_xaddrri24 MOP_waddrri24.

Definition lsl12_insn (sub : bool) (w : Z) (tmp : RegOperand) (b : Operand) (i : ImmOperand) : Insn :=
  mkInsn (rri24 sub w) [OpdRegister tmp; b; OpdImmediate i; OpdShift (mkShift kShiftLSL 12 64)].

Lemma VerifySelf_lsl12 (sub : bool) (w : Z) (tmp : RegOperand) (b : Operand) (i : ImmOperand) :
  VerifySelf (lsl12_insn sub w tmp b i) = Ret (Imm12BitValid (imm_value i)).
Proof.
  unfold lsl12_insn, rri24, pick. destruct sub, (w =? 64); cbn; unfold and_valid, imm_valid, shift_valid; cbn;
    by rewrite andb_true_r.
Qed.

Lemma Imm12BitValid_small (v : Z) : 0 <= v < 2 ^ 12 -> Imm12BitValid v = true.
Proof. intros Hv. rewrite Imm12BitValid_eq, wrap_small by lia. by rewrite (proj2 (Z.ltb_lt _ _)) by lia. Qed.

Lemma alu_two (sub : bool) (w x q r v : Z) :
  0 <= w -> v = (if sub then q * 2 ^ 12 - r else q * 2 ^ 12 + r) ->
  alu false w (wrap w (alu sub w x (wrap w (Z.shiftl q 12)))) (wrap w r) = alu sub w x (wrap w v).
Proof.
  intros Hw ->. unfold alu. rewrite wrap_add_r, wrap_wrap, wrap_add_l, Z.shiftl_mul_pow2 by lia.
  destruct sub.
  - rewrite wrap_sub_r. rewrite <- (wrap_add_l w (x - _)), wrap_sub_r, wrap_add_l. f_equal. ring.
  - rewrite wrap_add_r. rewrite <- (wrap_add_l w (x + _)), wrap_add_r, wrap_add_l. f_equal. ring.
Qed.

(** The two instructions that add or subtract [q] shifted by 12 and then add [r]. *)
Lemma two_steps (sub : bool) (w : Z) (ara : bool) (d b tmp : RegOperand) (iq ir : ImmOperand) (v n : Z) :
  w = 32 \/ w = 64 -> 200 <= n -> ~ scratch ara n (regNO b) -> scratch ara n (regNO tmp) ->
  0 <= imm_value iq < 2 ^ 12 -> 0 <= imm_value ir < 2 ^ 12 ->
  v = (if sub then imm_value iq * 2 ^ 12 - imm_value ir else imm_value iq * 2 ^ 12 + imm_value ir) ->
  let l := [lsl12_insn sub w tmp (OpdRegister b) iq; alu_insn false w d tmp ir] in
  all_valid l /\
  forall s, runs_to (kept ara n (regNO d)) l s
              (set s (regNO d) (alu sub w (read w s (regNO b)) (wrap w v))).
Proof.
  intros Hw Hn Hb Htmp Hq Hr Ev. destruct (scratch_ok ara n _ Hn Htmp) as [Hzr _]. cbn zeta. split.
  - constructor; [|apply all_valid_one].
    + by rewrite VerifySelf_lsl12, Imm12BitValid_small.
    + by rewrite VerifySelf_alu, Imm12BitValid_small.
  - intros s.
    apply (through_scratch _ _ (regNO tmp) _
             (alu sub w (read w s (regNO b)) (wrap w (Z.shiftl (imm_value iq) 12))) _ [_]); [done..| |].
    + apply runs_to_one. by destruct Hw as [-> | ->]; destruct sub.
    + intros t Hat. rewrite exec_alu by done.
      rewrite <- (read_agree everywhere w _ t _ (or_introl I) Hat), read_set by (done || lia).
      by rewrite (alu_two sub w _ _ _ v) by (done || lia).
Qed.

(** What is known of an immediate that is not valid as it is. *)
Lemma invalid_imm (v : Z) :
  - 2 ^ 63 <= v < 2 ^ 63 -> Imm12BitValid v = false ->
  wrap 64 v <> 0 /\ (wrap 64 v < 2 ^ 24 -> 0 <= v < 2 ^ 24 /\ 0 < v mod 2 ^ 12).
Proof.
  intros Hv Hval. rewrite Imm12BitValid_eq in Hval. apply orb_false_iff in Hval as [H1%Z.ltb_ge H2].
  split; [lia|]. intros H24. rewrite (proj2 (Z.ltb_lt _ _)), andb_true_r in H2 by done. apply Z.eqb_neq in H2.
  assert (0 <= v) as H0.
  { apply Z.nlt_ge. intros Hneg.
    rewrite (wrap_congr 64 v (v + 2 ^ 64) (-1)), wrap_small in H24 by lia. lia. }
  rewrite wrap_small in H24 by lia. split; [lia|]. pose proof (wrap_range 12 v ltac:(lia)).
  unfold wrap in *. lia.
Qed.

(** The statement that the instructions [l] replace an addition or a
    subtraction. *)
Definition replaces_alu (sub : bool) (w : Z) (ara : bool) (n : Z) (d b : RegOperand) (v : Z)
    (m : res (list Insn * Z)) : Prop :=
  exists l n', m = Ret (l, n') /\ n <= n' /\ all_valid l /\
    forall s, runs_to (kept ara n (regNO d)) l s
                (set s (regNO d) (alu sub w (read w s (regNO b)) (wrap w v))).

Lemma replaces_alu_self (sub : bool) (w : Z) (ara : bool) (n : Z) (d b : RegOperand) (i : ImmOperand) :
  w = 32 \/ w = 64 -> Imm12BitValid (imm_value i) = true ->
  replaces_alu sub w ara n d b (imm_value i) (Ret ([alu_insn sub w d b i], n)).
Proof.
  intros Hw Hv. eexists _, n. split; [done|]. split; [lia|]. split.
  - apply all_valid_one. by rewrite VerifySelf_alu, Hv.
  - intros s. apply runs_to_one. by apply exec_alu.
Qed.

Lemma IsInBitSize_24 (i : ImmOperand) : IsInBitSize i kMaxImmVal24Bits 0 = (wrap 64 (imm_value i) <? 2 ^ 24).
Proof. apply IsBitSizeImmediate_low; [done|]. by apply wrap_range. Qed.

Lemma IsInBitSize_12 (i : ImmOperand) :
  IsInBitSize i kMaxImmVal12Bits 0 || IsInBitSize i kMaxImmVal12Bits kMaxImmVal12Bits =
  Imm12BitValid (imm_value i).
Proof. done. Qed.

Lemma ModuloByPow2_12 (i : ImmOperand) : imm_value (ModuloByPow2 i 12) = imm_value i mod 2 ^ 12.
Proof.
  unfold ModuloByPow2, set_value. cbn [imm_value]. change (wrap 64 (shl 64 1 12 - 1)) with (Z.ones 12).
  rewrite land_ones_wrap, wrap_wrap_le by lia. pose proof (wrap_range 12 (imm_value i) ltac:(lia)).
  rewrite swrap_small; unfold wrap in *; lia.
Qed.

Lemma high_part (v : Z) : 0 <= v < 2 ^ 24 -> swrap 64 (shr 64 (wrap 64 v) 12) = v / 2 ^ 12.
Proof.
  intros Hv. rewrite wrap_small by lia. unfold shr. change (12 mod 64) with 12.
  rewrite Z.shiftr_div_pow2 by lia. apply swrap_small; [lia|].
  pose proof (Z.div_pos v (2 ^ 12) ltac:(lia) ltac:(lia)).
  pose proof (Z.div_le_upper_bound v (2 ^ 12) (2 ^ 12) ltac:(lia) ltac:(lia)). lia.
Qed.

Lemma AddInsnSplit_nonneg (w : Z) (fuel : nat) (ara : bool) (d b : RegOperand) (i : ImmOperand) (n : Z) :
  w = 32 \/ w = 64 -> 200 <= n -> ~ scratch ara n (regNO b) ->
  IsNegative i = false -> imm_fits w (imm_value i) -> (uses_sp d b -> 0 <= imm_value i < 2 ^ 23) ->
  replaces_alu false w ara n d b (imm_value i)
    (AddInsnSplit (SplitSelf (S fuel) ara) (alu_insn false w d b i) (w =? 64) ara n).
Proof.
  intros Hw Hn Hb Hneg Hfit Hsp. unfold AddInsnSplit, bind at 1, lift at 1. rewrite VerifySelf_alu.
  destruct (Imm12BitValid (imm_value i)) eqn:Hval; [by apply replaces_alu_self|].
  destruct (invalid_imm _ (proj1 Hfit) Hval) as [Hnz H24].
  unfold alu_insn at 1 2 3. unfold bind at 1 2 3, lift at 1 2 3.
  cbn [opnds get_imm GetOperand lookup list_lookup mbind res_bind as_imm]. rewrite Hneg, IsInBitSize_24, IsInBitSize_12, Hval.
  destruct (Z.ltb_spec (wrap 64 (imm_value i)) (2 ^ 24)) as [Hs|Hs]; cbn [negb].
  - destruct (H24 Hs) as [Hv Hmod]. unfold bind at 1.
    destruct (GetSplitBaseReg_spec ara (w =? 64) n Hn) as (tmp & n' & -> & Hnn & Htmp & _).
    set (iq := CreateImm _ _ _). set (ir := ModuloByPow2 i kMaxImmVal12Bits).
    assert (imm_value iq = imm_value i / 2 ^ 12) as Eq by (by apply high_part).
    assert (imm_value ir = imm_value i mod 2 ^ 12) as Er by apply ModuloByPow2_12.
    pose proof (Z.mod_pos_bound (imm_value i) (2 ^ 12) ltac:(lia)).
    pose proof (Z.div_mod (imm_value i) (2 ^ 12) ltac:(lia)).
    assert (VerifySelf (lsl12_insn false w tmp (OpdRegister b) iq) = Ret true) as E1
      by (rewrite VerifySelf_lsl12, Imm12BitValid_small by lia; done).
    assert (VerifySelf (alu_insn false w d tmp ir) = Ret true) as E2
      by (rewrite VerifySelf_alu, Imm12BitValid_small by lia; done).
    cbn zeta. unfold bind, lift. unfold lsl12_insn, alu_insn, rri24, alu_op in E1, E2.
    rewrite E1. cbn [mbind res_bind ASSERT]. rewrite E2.
    destruct (two_steps false w ara d b tmp iq ir (imm_value i) n) as [Hl Hrun]; [done..|lia|lia|lia|].
    eexists _, n'. by split_and!.
  - apply (load_and_apply_spec false); [done..|]. intros Hu. specialize (Hsp Hu).
    rewrite wrap_small in Hs by lia. lia.
Qed.

Lemma SubInsnSplit_nonneg (w : Z) (fuel : nat) (ara : bool) (d b : RegOperand) (i : ImmOperand) (n : Z) :
  w = 32 \/ w = 64 -> 200 <= n -> ~ scratch ara n (regNO b) ->
  IsNegative i = false -> imm_fits w (imm_value i) -> (uses_sp d b -> 0 <= imm_value i < 2 ^ 23) ->
  replaces_alu true w ara n d b (imm_value i)
    (SubInsnSplit (SplitSelf (S fuel) ara) (alu_insn true w d b i) (w =? 64) ara n).
Proof.
  intros Hw Hn Hb Hneg Hfit Hsp. unfold SubInsnSplit, bind at 1, lift at 1. rewrite VerifySelf_alu.
  destruct (Imm12BitValid (imm_value i)) eqn:Hval; [by apply replaces_alu_self|].
  destruct (invalid_imm _ (proj1 Hfit) Hval) as [Hnz H24].
  unfold alu_insn at 1 2 3. unfold bind at 1 2 3, lift at 1 2 3.
  cbn [opnds get_imm GetOperand lookup list_lookup mbind res_bind as_imm]. rewrite Hneg, IsInBitSize_24, IsInBitSize_12, Hval.
  cbn zeta.
  destruct (Z.ltb_spec (wrap 64 (imm_value i)) (2 ^ 24)) as [Hs|Hs]; cbn [negb andb].
  - destruct (H24 Hs) as [Hv Hmod]. rewrite high_part by done.
    pose proof (Z.mod_pos_bound (imm_value i) (2 ^ 12) ltac:(lia)).
    pose proof (Z.div_mod (imm_value i) (2 ^ 12) ltac:(lia)).
    destruct (Z.leb_spec (imm_value i / 2 ^ 12 + 1) kMaxPimm8) as [Hp|Hp]; unfold kMaxPimm8 in Hp.
    + unfold bind at 1.
      destruct (GetSplitBaseReg_spec ara (w =? 64) n Hn) as (tmp & n' & -> & Hnn & Htmp & _).
      set (iq := CreateImm _ _ _). set (ir := set_value _ _).
      assert (imm_value iq = imm_value i / 2 ^ 12 + 1) as Eq by done.
      assert (imm_value ir = 2 ^ 12 - imm_value i mod 2 ^ 12) as Er.
      { unfold ir, kMaxImmVal12Bits. cbn [set_value imm_value]. by rewrite ModuloByPow2_12. }
      destruct (two_steps true w ara d b tmp iq ir (imm_value i) n) as [Hl Hrun]; [done..|lia|lia|lia|].
      eexists _, n'. by split_and!.
    + apply (load_and_apply_spec true); [done..|]. intros Hu. specialize (Hsp Hu). lia.
  - apply (load_and_apply_spec true); [done..|]. intros Hu. specialize (Hsp Hu).
    rewrite wrap_small in Hs by lia. lia.
Qed.

(** ** Both signs *)

(** The immediates the splits of an addition handle: not [INT64_MIN], whose
    negation is itself, and 23 bits next to the stack pointer. *)
Definition alu_ok (w : Z) (d b : RegOperand) (i : ImmOperand) : Prop :=
  imm_fits w (imm_value i) /\ (IsNegative i = true -> imm_value i <> - 2 ^ 63) /\
  (uses_sp d b -> - 2 ^ 23 < imm_value i < 2 ^ 23 /\ (isSigned i = true \/ 0 <= imm_value i)).

Lemma alu_neg (sub : bool) (w x v : Z) :
  alu (negb sub) w x (wrap w (- v)) = alu sub w x (wrap w v).
Proof.
  unfold alu. destruct sub; cbn [negb]; rewrite ?wrap_add_r, ?wrap_sub_r; f_equal; ring.
Qed.

Lemma alu_split_step (sub : bool) (w : Z) (fuel : nat) (ara : bool) (d b : RegOperand) (i : ImmOperand) :
  w = 32 \/ w = 64 ->
  SplitSelf (S fuel) ara (alu_insn sub w d b i) =
  if sub then SubInsnSplit (SplitSelf fuel ara) (alu_insn true w d b i) (w =? 64) ara
  else AddInsnSplit (SplitSelf fuel ara) (alu_insn false w d b i) (w =? 64) ara.
Proof. intros [-> | ->]; by destruct sub. Qed.

Lemma alu_split_nonneg (sub : bool) (w : Z) (fuel : nat) (ara : bool) (d b : RegOperand) (i : ImmOperand)
    (n : Z) :
  w = 32 \/ w = 64 -> 200 <= n -> ~ scratch ara n (regNO b) ->
  IsNegative i = false -> alu_ok w d b i ->
  replaces_alu sub w ara n d b (imm_value i) (SplitSelf (S (S fuel)) ara (alu_insn sub w d b i) n).
Proof.
  intros Hw Hn Hb Hneg (Hfit & _ & Hsp). rewrite alu_split_step by done.
  assert (uses_sp d b -> 0 <= imm_value i < 2 ^ 23) as Hsp'.
  { intros Hu. destruct (Hsp Hu) as [Hr Hs]. unfold IsNegative in Hneg.
    destruct Hs as [Hs|Hs]; [|lia]. rewrite Hs in Hneg. cbn in Hneg. apply Z.ltb_ge in Hneg. lia. }
  destruct sub; [by apply SubInsnSplit_nonneg|by apply AddInsnSplit_nonneg].
Qed.

(** A negative immediate: the opposite operation on its opposite. *)
Lemma Negate_ok (w : Z) (d b : RegOperand) (i : ImmOperand) :
  IsNegative i = true -> alu_ok w d b i ->
  imm_value (Negate i) = - imm_value i /\ IsNegative (Negate i) = false /\ alu_ok w d b (Negate i).
Proof.
  intros Hneg (Hfit & Hmin & Hsp). pose proof (Hmin Hneg) as Hm. unfold imm_fits in Hfit.
  pose proof Hneg as Hneg'. unfold IsNegative in Hneg'. apply andb_true_iff in Hneg' as [Hs Hlt%Z.ltb_lt].
  assert (imm_value (Negate i) = - imm_value i) as E by (cbn; apply swrap_small; lia).
  assert (IsNegative (Negate i) = false) as En.
  { unfold IsNegative. rewrite E. rewrite (proj2 (Z.ltb_ge _ _)) by lia. apply andb_false_r. }
  split; [done|]. split; [done|]. unfold alu_ok. rewrite E, En. split; [unfold imm_fits; lia|].
  split; [done|]. intros Hu. destruct (Hsp Hu). split; [lia|right; lia].
Qed.

Lemma alu_split_negative (sub : bool) (w : Z) (split : Insn -> SM (list Insn)) (ara : bool)
    (d b : RegOperand) (i : ImmOperand) (n : Z) :
  IsNegative i = true -> Imm12BitValid (imm_value i) = false ->
  (if sub then SubInsnSplit split (alu_insn true w d b i) (w =? 64) ara
   else AddInsnSplit split (alu_insn false w d b i) (w =? 64) ara) n =
  split_if_invalid split (alu_insn (negb sub) w d b (Negate i)) n.
Proof.
  intros Hneg Hval. destruct sub; [unfold SubInsnSplit|unfold AddInsnSplit];
    unfold bind at 1, lift at 1; rewrite VerifySelf_alu, Hval;
    unfold alu_insn at 1 2 3; unfold bind at 1 2 3, lift at 1 2 3;
    cbn [opnds get_imm GetOperand lookup list_lookup mbind res_bind as_imm]; by rewrite Hneg.
Qed.

(** Splitting an addition or a subtraction. *)
Lemma alu_split_correct (sub : bool) (w : Z) (fuel : nat) (ara : bool) (d b : RegOperand) (i : ImmOperand)
    (n : Z) :
  w = 32 \/ w = 64 -> 200 <= n -> ~ scratch ara n (regNO b) -> alu_ok w d b i ->
  replaces_alu sub w ara n d b (imm_value i) (SplitSelf (S (S (S fuel))) ara (alu_insn sub w d b i) n).
Proof.
  intros Hw Hn Hb Hok. destruct (IsNegative i) eqn:Hneg; [|by apply alu_split_nonneg].
  destruct (Imm12BitValid (imm_value i)) eqn:Hval.
  - rewrite alu_split_step by done. unfold SubInsnSplit, AddInsnSplit.
    destruct sub; unfold bind at 1, lift at 1; rewrite VerifySelf_alu, Hval; by apply replaces_alu_self.
  - rewrite alu_split_step, alu_split_negative by done.
    destruct (Negate_ok w d b i Hneg Hok) as (E & En & Hok'). unfold split_if_invalid, bind, lift.
    rewrite VerifySelf_alu.
    assert (forall m, replaces_alu (negb sub) w ara n d b (imm_value (Negate i)) m ->
                      replaces_alu sub w ara n d b (imm_value i) m) as Hflip.
    { intros m (l & n' & -> & Hnn & Hl & Hrun). eexists l, n'. split_and!; [done..|]. intros s.
      rewrite <- alu_neg, <- E. apply Hrun. }
    apply Hflip. destruct (Imm12BitValid (imm_value (Negate i))) eqn:Hval'; cbn [negb];
      [by apply replaces_alu_self|by apply alu_split_nonneg].
Qed.

Lemma alu_split_if_invalid (sub : bool) (w : Z) (fuel : nat) (ara : bool) (d b : RegOperand)
    (i : ImmOperand) (n : Z) :
  w = 32 \/ w = 64 -> 200 <= n -> ~ scratch ara n (regNO b) -> alu_ok w d b i ->
  replaces_alu sub w ara n d b (imm_value i)
    (split_if_invalid (SplitSelf (S (S (S fuel))) ara) (alu_insn sub w d b i) n).
Proof.
  intros Hw Hn Hb Hok. unfold split_if_invalid, bind, lift. rewrite VerifySelf_alu.
  destruct (Imm12BitValid _) eqn:Hval; cbn [negb]; [by apply replaces_alu_self|by apply alu_split_correct].
Qed.

(** ** Additions and subtractions that set the flags *)

Definition alus_op (sub : bool) (w : Z) : MOperator :=
  if sub then pick (w =? 64) MOP_xsubsrri12 MOP_wsubsrri12 else pick (w =? 64) MOP_xaddsrri12 MOP_waddsrri12.

Definition alus_insn (sub : bool) (w : Z) (cc d b : RegOperand) (i : ImmOperand) : Insn :=
  mkInsn (alus_op sub w) [OpdRegister cc; OpdRegister d; OpdRegister b; OpdImmediate i].

Definition alus_state (sub : bool) (w d x y : Z) (s : mstate) : mstate :=
  let '(r, f) := alu_flags sub w x y in set_flags (set s d r) f.

Lemma agree_set_flags (P : Z -> Prop) (s t : mstate) (f : nzcv) :
  agree P s t -> agree P (set_flags s f) (set_flags t f).
Proof. intros (Hr & Hf & Hm). by split_and!. Qed.

Lemma alus_split_correct (sub : bool) (w : Z) (fuel : nat) (ara : bool) (cc d b : RegOperand)
    (i : ImmOperand) (n : Z) :
  w = 32 \/ w = 64 -> 200 <= n -> ~ scratch ara n (regNO b) -> - 2 ^ 63 <= imm_value i < 2 ^ 63 ->
  exists l n', SplitSelf (S (S fuel)) ara (alus_insn sub w cc d b i) n = Ret (l, n') /\ n <= n' /\
    all_valid l /\
    forall s, runs_to (kept ara n (regNO d)) l s
                (alus_state sub w (regNO d) (read w s (regNO b)) (wrap w (imm_value i)) s).
Proof.
  intros Hw Hn Hb Hi.
  assert (SplitSelf (S (S fuel)) ara (alus_insn sub w cc d b i) =
          AddsSubsInsnSplit (SplitSelf (S fuel) ara) (alus_insn sub w cc d b i) (negb sub) (w =? 64) ara) as ->
    by (destruct Hw as [-> | ->]; by destruct sub).
  assert (VerifySelf (alus_insn sub w cc d b i) = Ret (Imm12BitValid (imm_value i))) as Hv
    by (destruct Hw as [-> | ->]; by destruct sub).
  unfold AddsSubsInsnSplit, bind at 1, lift at 1. rewrite Hv.
  destruct (Imm12BitValid (imm_value i)).
  { eexists _, n. split; [done|]. split; [lia|]. split; [by apply all_valid_one|]. intros s.
    apply runs_to_one. destruct Hw as [-> | ->]; by destruct sub. }
  unfold bind, lift. cbn [alus_insn opnds get_imm GetOperand lookup list_lookup mbind res_bind as_imm].
  destruct (GetSplitBaseReg_spec ara (w =? 64) n Hn) as (tmp & n' & -> & Hnn & Htmp & Hzr & _).
  fold (mov_insn w tmp i).
  destruct (mov_split_if_invalid w fuel ara tmp i n' Hw Hzr Hi) as (l & E & Hl & Hrun).
  unfold bind, lift in E. rewrite E. eexists _, n'. split; [done|]. split; [done|]. split.
  { apply all_valid_app; [done|]. apply all_valid_one. destruct Hw as [-> | ->]; by destruct sub. }
  intros s. eapply runs_to_app; [apply Hrun|]. intros t Hat.
  exists (alus_state sub w (regNO d) (read w s (regNO b)) (wrap w (imm_value i)) t). split.
  - assert (read w t (regNO b) = read w s (regNO b) /\ read w t (regNO tmp) = wrap w (imm_value i)) as [E1 E2].
    { assert (regNO b <> regNO tmp) by (intros H; rewrite H in Hb; done).
      rewrite <- !(read_agree everywhere w _ t _ (or_introl I) Hat).
      rewrite read_set_ne, read_set, wrap_wrap by (done || lia). done. }
    unfold alus_state. rewrite <- E1, <- E2. destruct Hw as [-> | ->]; by destruct sub.
  - unfold alus_state. destruct (alu_flags sub w _ _) as [r f]. apply agree_set_flags.
    apply (agree_kept_set _ _ (regNO tmp)); [done..|]. by apply agree_but_scratch in Hat.
Qed.

(** ** Additions and subtractions of a shifted immediate *)

Definition lsl_insn (sub : bool) (w : Z) (d b : RegOperand) (i : ImmOperand) (sh : BitShiftOperand) : Insn :=
  mkInsn (rri24 sub w) [OpdRegister d; OpdRegister b; OpdImmediate i; OpdShift sh].

Lemma lsl_split_correct (sub : bool) (w : Z) (fuel : nat) (ara : bool) (d b : RegOperand)
    (i : ImmOperand) (sh : BitShiftOperand) (n : Z) :
  w = 32 \/ w = 64 -> 200 <= n -> ~ scratch ara n (regNO b) ->
  shiftOp sh = kShiftLSL -> shiftAmount sh = 12 -> 0 <= imm_value i < 2 ^ (w - 12) ->
  (uses_sp d b -> imm_value i < 2 ^ 11) ->
  replaces_alu sub w ara n d b (Z.shiftl (imm_value i) 12)
    (SplitSelf (S (S (S (S fuel)))) ara (lsl_insn sub w d b i sh) n).
Proof.
  intros Hw Hn Hb Hop Hsh Hi Hsp.
  assert (SplitSelf (S (S (S (S fuel)))) ara (lsl_insn sub w d b i sh) =
          AddSubWithLslSplit (SplitSelf (S (S (S fuel))) ara) (lsl_insn sub w d b i sh) (negb sub) (w =? 64) ara)
    as -> by (destruct Hw as [-> | ->]; by destruct sub).
  assert (VerifySelf (lsl_insn sub w d b i sh) = Ret (Imm12BitValid (imm_value i))) as Hv.
  { destruct Hw as [-> | ->]; destruct sub; cbn; unfold and_valid, imm_valid, shift_valid; cbn;
      by rewrite Hsh, andb_true_r. }
  unfold AddSubWithLslSplit, bind at 1, lift at 1. rewrite Hv.
  destruct (Imm12BitValid (imm_value i)).
  { eexists _, n. split; [done|]. split; [lia|]. split; [by apply all_valid_one|]. intros s.
    apply runs_to_one. destruct Hw as [-> | ->]; destruct sub; unfold exec; cbn; unfold is_lsl; rewrite Hop, Hsh; done. }
  cbn zeta. unfold bind, lift.
  cbn [lsl_insn opnds get_imm GetOperand lookup list_lookup mbind res_bind as_imm].
  assert (0 <= imm_value i < 2 ^ 52) as H52 by (destruct Hw as [-> | ->]; lia).
  assert (IsInBitSize i ((if w =? 64 then 64 else 32) - 12) 0 = true) as ->.
  { unfold IsInBitSize. rewrite (wrap_small 64 (imm_value i)), IsBitSizeImmediate_low by (destruct (w =? 64); lia).
    apply Z.ltb_lt. destruct Hw as [-> | ->]; apply Hi. }
  cbn [negb]. set (j := CreateImm _ _ _).
  assert (wrap 64 (imm_value j) = Z.shiftl (imm_value i) 12) as Ej.
  { unfold j, CreateImm. cbn [imm_value]. rewrite swrap_congr by lia. unfold shl. change (12 mod 64) with 12.
    rewrite wrap_wrap, (wrap_small 64 (imm_value i)) by lia. apply wrap_small.
    rewrite Z.shiftl_mul_pow2 by lia. lia. }
  assert (- 2 ^ 63 <= imm_value j < 2 ^ 63) as Hj by (apply (swrap_range 64); lia).
  rewrite Z.shiftl_mul_pow2 in Ej by lia.
  assert (imm_value i < 2 ^ 20 -> imm_value j = imm_value i * 2 ^ 12) as Esmall.
  { intros Hs. rewrite <- (swrap_small 64 (imm_value j)), <- swrap_wrap, Ej by lia. apply swrap_small; lia. }
  assert (alu_ok w d b j) as Hok.
  { split; [|split; [done|]].
    - split; [done|]. destruct Hw as [-> | ->]; [right; split; [done|]|by left]. rewrite Esmall by lia. lia.
    - intros Hu. specialize (Hsp Hu). rewrite Esmall by lia. split; [lia|right; lia]. }
  assert (mkInsn (if w =? 64 then if negb sub then MOP_xaddrri12 else MOP_xsubrri12
                  else if negb sub then MOP_waddrri12 else MOP_wsubrri12)
            [OpdRegister d; OpdRegister b; OpdImmediate j] = alu_insn sub w d b j) as ->
    by (destruct Hw as [-> | ->]; by destruct sub).
  destruct (alu_split_if_invalid sub w fuel ara d b j n Hw Hn Hb Hok) as (l & n' & E & Hnn & Hl & Hrun).
  exists l, n'. split; [exact E|]. split_and!; [done..|]. intros s. rewrite Z.shiftl_mul_pow2, <- Ej by lia.
  rewrite wrap_wrap_le by (destruct Hw as [-> | ->]; lia). apply Hrun.
Qed.
