(* ===== verification/A64MemSplit.v ===== *)
(** * The splits of loads and stores are correct

    [SplitGetRemained], [MemOfstSplitWithAdd] and [LoadStoreInsnSplit]: an
    offset that does not fit is added to the base in part, and the rest fits. *)

From S2P Require Import Prelude.
From S2P Require Import IntWords.
From S2P Require Import IntWordsFacts.
From S2P Require Import A64Imm.
From S2P Require Import A64ImmFacts.
From S2P Require Import A64MoveFacts.
From S2P Require Import A64Insn.
From S2P Require Import A64Split.
From S2P Require Import A64Sem.
From S2P Require Import A64MoveSplit.
From S2P Require Import A64SplitFacts.

(** ** Opcodes *)

(** Whether the opcode accesses a pair, and the size of an access in bits. *)
Definition mem_form (op : MOperator) : option (bool * Z) :=
  match sem_of op, opndMD op with
  | (Load _ _ | Store _), [_; m] => Some (false, OpndDesc_GetSize m)
  | (LoadPair _ _ | StorePair _), [_; _; m] => Some (true, OpndDesc_GetSize m)
  | _, _ => None
  end.

Definition mem_sizes (pair : bool) : list Z := if pair then [32; 64; 128] else [8; 16; 32; 64; 128].

Definition mem_insn (op : MOperator) (ds : list RegOperand) (m : MemOperand) : Insn :=
  mkInsn op (map OpdRegister ds ++ [OpdMem m]).

Definition mem_arity (pair : bool) : nat := if pair then 2%nat else 1%nat.

(** The offsets the opcodes accept, with a base register and an offset. *)
Definition offset_valid (pair : bool) (size v : Z) : bool :=
  match pair, size with
  | false, _ => StrLdrInsnSignedOfstValid v (Z.log2 size - 3) true
  | true, 32 => StrLdr32PairImmValid v
  | true, 64 => StrLdr64PairImmValid v
  | true, _ => StrLdr128PairImmValid v
  end.

(** A base register plus an offset. *)
Definition based (m : MemOperand) (b : RegOperand) (o : ImmOperand) : Prop :=
  addrMode m = kBOI /\ baseOpnd m = Some b /\ offsetOpnd m = Some o.

Lemma based_offset (m : MemOperand) (b : RegOperand) (o : ImmOperand) :
  based m b o -> GetMemOpndOffsetValue m = imm_value o /\ IsIntactIndexed m = true.
Proof.
  intros (Ha & Hb & Ho). unfold GetMemOpndOffsetValue, IsIntactIndexed. rewrite Ha, Ho. done.
Qed.

Lemma mem_form_size (op : MOperator) (pair : bool) (size : Z) :
  mem_form op = Some (pair, size) -> In size (mem_sizes pair).
Proof. destruct op; intros [= <- <-]; cbn; tauto. Qed.

Lemma VerifySelf_mem (op : MOperator) (ds : list RegOperand) (m : MemOperand) (b : RegOperand)
    (o : ImmOperand) (pair : bool) (size : Z) :
  mem_form op = Some (pair, size) -> length ds = mem_arity pair -> based m b o ->
  VerifySelf (mem_insn op ds m) = Ret (offset_valid pair size (imm_value o)).
Proof.
  intros Hop Hds Hm. destruct (based_offset m b o Hm) as [Ev Ei]. destruct Hm as (Ha & _).
  destruct pair; [destruct ds as [|d [|d2 [|]]]; try done|destruct ds as [|d [|]]; try done].
  all: destruct op; try discriminate Hop; injection Hop as <-; cbn -[imm_value];
    unfold mem_valid, StrLdr8Valid, StrLdr16Valid, StrLdr32Valid, StrLdr64Valid, StrLdr128Valid, StrLdrValid,
      StrLdr32PairValid, StrLdr64PairValid, StrLdr128PairValid; cbn -[imm_value];
    rewrite ?Ev, ?Ei, ?Ha; done.
Qed.

Lemma SplitSelf_mem (fuel : nat) (ara : bool) (op : MOperator) (ds : list RegOperand) (m : MemOperand)
    (pair : bool) (size : Z) :
  mem_form op = Some (pair, size) -> length ds = mem_arity pair ->
  SplitSelf (S fuel) ara (mem_insn op ds m) =
  LoadStoreInsnSplit (SplitSelf fuel ara) (mem_insn op ds m) (mem_arity pair) pair ara.
Proof.
  intros Hop Hds. destruct op; try discriminate Hop; injection Hop as <- <-; done.
Qed.

Lemma mem_desc (op : MOperator) (pair : bool) (size : Z) :
  mem_form op = Some (pair, size) ->
  exists desc, opndMD op !! mem_arity pair = Some desc /\ OpndDesc_GetSize desc = size.
Proof. destruct op; intros [= <- <-]; by eexists. Qed.

Lemma exec_mem_insn (op : MOperator) (ds : list RegOperand) (m : MemOperand) (pair : bool) (size : Z)
    (s : mstate) :
  mem_form op = Some (pair, size) -> length ds = mem_arity pair ->
  exec (mem_insn op ds m) s = (a ← address s m; exec_mem (sem_of op) (map regNO ds) a s).
Proof.
  intros Hop Hds. destruct pair; [destruct ds as [|d [|d2 [|]]]; try done|destruct ds as [|d [|]]; try done].
  all: by destruct op; try discriminate Hop.
Qed.

(** ** The arithmetic of [SplitGetRemained] *)

(** The quotient by the largest offset, rounded down past negative offsets. *)
Definition q0_of (v M : Z) : Z := Z.quot v M + (if v <? 0 then -1 else 0).

Lemma q0_bounds (v M : Z) :
  0 < M -> 0 <= v - q0_of v M * M <= M /\
  (v - q0_of v M * M = M -> v < 0 /\ (M | v)) /\ Z.abs (q0_of v M * M) <= Z.abs v + M.
Proof.
  intros HM. unfold q0_of. pose proof (Z.quot_rem' v M) as E.
  destruct (Z.ltb_spec v 0) as [Hv|Hv].
  - pose proof (Z.rem_bound_pos_neg v M ltac:(lia) ltac:(lia)). rewrite Z.mul_add_distr_r.
    split_and!; try nia. intros He. split; [done|]. exists (Z.quot v M). lia.
  - pose proof (Z.rem_bound_pos v M ltac:(lia) ltac:(lia)). rewrite Z.add_0_r. split_and!; nia.
Qed.

Lemma offset_mask (a : Z) : 0 <= a <= 4 -> wrap 32 (shl 32 1 a - 1) = Z.ones a.
Proof.
  intros Ha. assert (a = 0 \/ a = 1 \/ a = 2 \/ a = 3 \/ a = 4) as H by lia.
  by destruct H as [->|[->|[->|[->| ->]]]].
Qed.

Lemma align_down (r a : Z) :
  0 <= a <= 4 -> 0 <= r < 2 ^ 32 -> swrap 64 (shl 64 (shr 64 r a) a) = r - wrap a r.
Proof.
  intros Ha Hr. unfold shr, shl. rewrite (Z.mod_small a), Z.shiftr_div_pow2, Z.shiftl_mul_pow2 by lia.
  pose proof (wrap_quot a r ltac:(lia)) as E. pose proof (wrap_range a r ltac:(lia)).
  assert (0 <= 2 ^ a * (r / 2 ^ a))
    by (apply Z.mul_nonneg_nonneg; [apply Z.pow_nonneg|apply Z.div_pos; [|apply pow2_pos]]; lia).
  replace (r / 2 ^ a * 2 ^ a) with (r - wrap a r) by lia.
  rewrite wrap_small by lia. apply swrap_small; lia.
Qed.

Lemma wrap_sub_wrap (a r : Z) : 0 <= a -> wrap a (r - wrap a r) = 0.
Proof. intros Ha. rewrite wrap_sub_r, Z.sub_diag. apply Z.mod_0_l. by apply pow2_nz. Qed.

(** Adding back the bits below the mask. *)
Lemma clear_suffix (x k : Z) :
  0 <= k < 64 -> 0 < x < 2 ^ 63 ->
  swrap 64 (Z.land (wrap 64 x) (notw 64 (Z.ones k))) = x - wrap k x.
Proof.
  intros Hk Hx. rewrite wrap_small by lia. rewrite Z.land_comm.
  assert (Z.land (notw 64 (Z.ones k)) x = Z.ldiff x (Z.ones k)) as ->.
  { apply bits_ext. intros i Hi. rewrite Z.land_spec, Z.ldiff_spec. destruct (decide (i < 64)).
    - by rewrite testbit_notw, andb_comm by lia.
    - by rewrite (testbit_above 63 x), andb_false_r by lia. }
  rewrite Z.ldiff_ones_r, Z.shiftr_div_pow2, Z.shiftl_mul_pow2 by lia.
  pose proof (wrap_quot k x ltac:(lia)). pose proof (wrap_range k x ltac:(lia)).
  assert (0 <= 2 ^ k * (x / 2 ^ k))
    by (apply Z.mul_nonneg_nonneg; [apply Z.pow_nonneg|apply Z.div_pos; [|apply pow2_pos]]; lia).
  rewrite swrap_small; lia.
Qed.

(** *** Which offsets are valid *)

Lemma offset_valid_single (size v a : Z) :
  a = Z.log2 size - 3 -> 0 <= a <= 4 -> 0 <= v <= nth (Z.to_nat a) kMaxPimm 0 -> wrap a v = 0 ->
  offset_valid false size v = true.
Proof.
  intros -> Ha Hv Hal. unfold offset_valid, StrLdrInsnSignedOfstValid. apply orb_true_iff. right.
  set (a := Z.log2 size - 3) in *. rewrite andb_true_r. unfold IsPIMMValid.
  rewrite (proj2 (Z.leb_le 0 v)), (proj2 (Z.leb_le v _)) by lia. cbn [andb].
  assert (nth (Z.to_nat a) kMaxPimm 0 < 2 ^ 63) as Hmax.
  { assert (a = 0 \/ a = 1 \/ a = 2 \/ a = 3 \/ a = 4) as H by lia.
    by destruct H as [->|[->|[->|[->| ->]]]]. }
  rewrite offset_mask, land_ones_wrap, (wrap_small 64), Hal by lia. done.
Qed.

Lemma offset_valid_pair (size v M : Z) :
  In (size, M) [(32, 256); (64, 512); (128, 512)] -> 0 <= v < M -> wrap (Z.log2 size - 3) v = 0 ->
  offset_valid true size v = true.
Proof.
  intros Hs Hv Hal.
  assert (forall k, 0 <= k -> wrap k v = 0 -> exists q, v = 2 ^ k * q) as Hq.
  { intros k Hk H. exists (v / 2 ^ k). pose proof (wrap_quot k v Hk). lia. }
  cbn in Hs. destruct Hs as [[= <- <-]|[[= <- <-]|[[= <- <-]|[]]]]; unfold offset_valid.
  - change (wrap 2 v = 0) in Hal. destruct (Hq 2 ltac:(lia) Hal) as [q E]. unfold StrLdr32PairImmValid, kMaxSimm32Pair, kMinSimm32.
    rewrite (proj2 (Z.leb_le v 252)), (proj2 (Z.leb_le (-256) v)) by lia. cbn [andb].
    change 3 with (Z.ones 2). by rewrite land_ones_wrap, wrap_wrap_le, Hal by lia.
  - change (wrap 3 v = 0) in Hal. destruct (Hq 3 ltac:(lia) Hal) as [q E]. unfold StrLdr64PairImmValid, kMaxSimm64Pair, kMinSimm64.
    rewrite (proj2 (Z.leb_le v 504)), (proj2 (Z.leb_le (-512) v)) by lia. cbn [andb].
    change 7 with (Z.ones 3). by rewrite land_ones_wrap, wrap_wrap_le, Hal by lia.
  - change (wrap 4 v = 0) in Hal. unfold StrLdr128PairImmValid.
    rewrite (proj2 (Z.ltb_lt v 1024)), (proj2 (Z.leb_le (-1024) v)) by lia. cbn [andb].
    change 0xf with (Z.ones 4). by rewrite land_ones_wrap, wrap_wrap_le, Hal by lia.
Qed.

(** *** The addend and the rest *)

(** The largest offset and the alignment of a size. *)
Definition maxPimm_of (pair : bool) (size : Z) : Z :=
  if pair then nth (Z.to_nat (Z.log2 size - 5)) kMaxPairPimm 0
  else nth (Z.to_nat (Z.log2 (Z.min size 64) - 3)) kMaxPimm 0.

Lemma out_of_range (pair : bool) (size off : Z) :
  In size (mem_sizes pair) ->
  IsPIMMOffsetOutOfRange off size = Ret ((off <? 0) || (maxPimm_of false size <? off)).
Proof.
  intros Hs. unfold IsPIMMOffsetOutOfRange.
  destruct pair; cbn in Hs; repeat destruct Hs as [<-|Hs]; try done; cbn; by destruct (off <? 0).
Qed.

Lemma size_params (pair : bool) (size : Z) :
  In size (mem_sizes pair) ->
  let M := maxPimm_of pair size in
  let a := Z.log2 size - 3 in
  (if negb pair then GetMaxPIMM size else GetMaxPairPIMM size) = Ret M /\
  GetImmediateOffsetAlignment size = Ret a /\ 0 <= a <= 4 /\ 0 < M < 2 ^ 16.
Proof.
  intros Hs. cbn zeta.
  destruct pair; cbn in Hs; repeat destruct Hs as [<-|Hs]; try done; cbn; split_and!; done || lia.
Qed.

Lemma single_params (size : Z) :
  In size (mem_sizes false) -> maxPimm_of false size <= nth (Z.to_nat (Z.log2 size - 3)) kMaxPimm 0.
Proof. intros Hs. cbn in Hs. repeat destruct Hs as [<-|Hs]; try done; cbn; lia. Qed.

Lemma pair_params (size : Z) :
  In size (mem_sizes true) ->
  In (size, maxPimm_of true size) [(32, 256); (64, 512); (128, 512)] /\ (2 ^ 8 | maxPimm_of true size).
Proof.
  intros Hs. cbn in Hs. repeat destruct Hs as [<-|Hs]; try done; cbn; (split; [tauto|]).
  - by exists 1.
  - by exists 2.
  - by exists 2.
Qed.

Lemma aligned_mul (a k q : Z) : 0 <= a <= k -> wrap a (2 ^ k * q) = 0.
Proof.
  intros Ha. replace k with (a + (k - a)) by ring. rewrite Z.pow_add_r by lia.
  rewrite (wrap_congr a _ 0 (2 ^ (k - a) * q)) by lia. apply Z.mod_0_l. apply pow2_nz. lia.
Qed.

(** A positive addend with its low bits moved to the rest is an offset too. *)
Lemma moved_suffix_valid (pair : bool) (size v x r : Z) :
  In size (mem_sizes pair) -> let M := maxPimm_of pair size in let a := Z.log2 size - 3 in
  let k := if pair then 8 else 12 in let q := q0_of v M in
  r = v - q * M -> (pair = true -> r < M) -> 0 <= r -> x = q * M + wrap a r ->
  r - wrap a r + wrap k x <= maxPimm_of false size -> wrap a (r - wrap a r + wrap k x) = 0 ->
  offset_valid pair size (r - wrap a r + wrap k x) = true.
Proof.
  intros Hs M a k q Hr Hlt H0 Hx Hle Hal. destruct (size_params pair size Hs) as (_ & _ & Ha & HM).
  fold M a in Ha, HM. pose proof (wrap_range k x ltac:(unfold k; destruct pair; lia)) as Hk.
  pose proof (wrap_range a r ltac:(lia)) as Hra.
  assert (wrap a r <= r) as Hle' by (apply Z.mod_le; [done|apply pow2_pos; lia]).
  destruct pair.
  - destruct (pair_params size Hs) as [HIn [c Hc]]. fold M in Hc, HIn.
    assert (2 ^ a <= 2 ^ 8) by (apply Z.pow_le_mono_r; lia).
    assert (wrap k x = wrap a r) as E.
    { unfold k. rewrite Hx, Hc. rewrite (wrap_congr 8 _ (wrap a r) (q * c)) by lia.
      apply wrap_small. lia. }
    rewrite E in *. replace (r - wrap a r + wrap a r) with r in * by ring.
    apply (offset_valid_pair size r M); [done|split; [done|auto]|done].
  - apply (offset_valid_single size _ a); [done|done| |done].
    pose proof (single_params size Hs). fold a in H. lia.
Qed.

Lemma rest_valid (pair : bool) (size r : Z) :
  In size (mem_sizes pair) -> let M := maxPimm_of pair size in let a := Z.log2 size - 3 in
  0 <= r <= M -> (pair = true -> r < M) -> offset_valid pair size (r - wrap a r) = true.
Proof.
  intros Hs M a Hr Hlt. destruct (size_params pair size Hs) as (_ & _ & Ha & HM). fold M a in Ha, HM.
  pose proof (wrap_range a r ltac:(lia)) as Hra. pose proof (wrap_sub_wrap a r ltac:(lia)) as Hal.
  assert (wrap a r <= r) as Hle' by (apply Z.mod_le; [lia|apply pow2_pos; lia]).
  destruct pair.
  - destruct (pair_params size Hs) as [HIn _]. apply (offset_valid_pair size _ M); [done| |done].
    specialize (Hlt eq_refl). lia.
  - apply (offset_valid_single size _ a); [done|done| |done].
    pose proof (single_params size Hs). fold a M in H. lia.
Qed.

Lemma SplitGetRemained_spec (m : MemOperand) (b : RegOperand) (o : ImmOperand) (pair : bool) (size v : Z) :
  based m b o -> In size (mem_sizes pair) -> - 2 ^ 62 <= v <= 2 ^ 62 ->
  (pair = true -> v < 0 -> ~ (maxPimm_of true size | v)) ->
  exists i, SplitGetRemained m size v pair = Ret i /\ isSigned i = true /\
    Z.abs (imm_value i) <= Z.abs v + 2 ^ 18 /\ offset_valid pair size (v - imm_value i) = true.
Proof.
  intros (_ & _ & Ho) Hs Hv Hpair. destruct (size_params pair size Hs) as (EM & Ea & Ha & HM).
  unfold SplitGetRemained. cbn zeta in EM, Ea, Ha, HM. rewrite EM, Ea, Ho. cbn [mbind res_bind].
  set (M := maxPimm_of pair size) in *. set (a := Z.log2 size - 3) in *.
  rewrite (proj2 (Z.eqb_neq M 0)) by lia. cbn [negb ASSERT mbind res_bind].
  fold (q0_of v M). destruct (q0_bounds v M ltac:(lia)) as (Hr & Hr' & Habs).
  rewrite (swrap_small 64 (q0_of v M * M)) by lia. set (q := q0_of v M) in *.
  rewrite (wrap_small 64 (v - q * M)) by lia. rewrite offset_mask, align_down, land_ones_wrap by lia.
  set (r := v - q * M) in *. pose proof (wrap_range a r ltac:(lia)) as Hra.
  assert (2 ^ a <= 2 ^ 4) by (apply Z.pow_le_mono_r; lia).
  assert (pair = true -> r < M) as Hlt.
  { intros Hp. destruct (decide (r = M)) as [E|]; [|lia]. destruct (Hr' E) as [Hn Hd].
    exfalso. unfold M in Hd. subst pair. by apply (Hpair eq_refl Hn). }
  rewrite (swrap_small 64 (q * M + wrap a r)) by lia. set (x := q * M + wrap a r) in *.
  assert (forall i, imm_value i = x -> offset_valid pair size (v - imm_value i) = true) as Hplain.
  { intros i ->. replace (v - x) with (r - wrap a r) by (unfold x, r; ring). by apply rest_valid. }
  assert (forall A (k : ImmOperand -> Prop), (forall vary, k (mkImm A 64 true vary)) ->
            exists i, Ret (if decide (isVary o = kUnAdjustVary) then SetVary (CreateImm 64 A true) kUnAdjustVary
                           else CreateImm 64 A true) = Ret i /\ k i) as Hret.
  { intros A k Hk. case_decide; eexists; (split; [done|apply Hk]). }
  assert (Z.abs x <= Z.abs v + 2 ^ 18) as Hx by (unfold x in *; lia).
  destruct (Z.ltb_spec 0 x) as [Hpos|Hpos]; cbn [mbind res_bind].
  2: { apply (Hret x). intros vary. split_and!; [done|exact Hx|by apply Hplain]. }
  set (k := if pair then 8 else 12).
  assert ((if pair then 0xff else 0xfff) = Z.ones k) as -> by (unfold k; by destruct pair).
  assert (0 <= k <= 12) as Hk by (unfold k; destruct pair; lia).
  assert (2 ^ k <= 2 ^ 12) by (apply Z.pow_le_mono_r; lia).
  pose proof (wrap_range k x ltac:(lia)) as Hkx.
  rewrite clear_suffix, !land_ones_wrap, (wrap_wrap_le k 64 x) by lia.
  assert (wrap a r <= r) as Hle' by (apply Z.mod_le; [lia|apply pow2_pos; lia]).
  rewrite (swrap_small 64 (r - wrap a r + wrap k x)), (swrap_small 32 (r - wrap a r + wrap k x)) by lia.
  rewrite (out_of_range pair) by done. cbn [mbind res_bind].
  rewrite (wrap_small 64 (r - wrap a r + wrap k x)) by lia.
  destruct (negb _ && _) eqn:E; cbn [mbind res_bind].
  - apply andb_true_iff in E as [E1 E2%Z.eqb_eq]. apply negb_true_iff, orb_false_iff in E1 as [_ E1%Z.ltb_ge].
    apply (Hret (x - wrap k x)). intros vary. cbn [imm_value isSigned]. split_and!; [done|lia|].
    replace (v - (x - wrap k x)) with (r - wrap a r + wrap k x) by (unfold x, r; ring).
    apply (moved_suffix_valid pair size v x r); done || lia.
  - apply (Hret x). intros vary. split_and!; [done|exact Hx|by apply Hplain].
Qed.

(** ** Memory in states that agree *)

Lemma load_bytes_ext (n : nat) : forall m m' a,
  (forall q, m q = m' q) -> load_bytes m a n = load_bytes m' a n.
Proof.
  induction n as [|n IH]; intros m m' a H; cbn [load_bytes]; [done|].
  by rewrite H, (IH m m').
Qed.

Lemma store_bytes_ext (n : nat) : forall m m' a v,
  (forall q, m q = m' q) -> forall q, store_bytes m a v n q = store_bytes m' a v n q.
Proof.
  induction n as [|n IH]; intros m m' a v H; cbn [store_bytes]; [done|].
  apply IH. intros q. by destruct (q =? _).
Qed.

Definition is_store (k : sem) : bool :=
  match k with Store _ | StorePair _ => true | _ => false end.

Lemma data_agree (P : Z -> Prop) (s t : mstate) (d : Z) :
  P d \/ d = RZR -> agree P s t -> data s d = data t d.
Proof.
  intros Hd (Hr & _). unfold data. destruct (Z.eqb_spec d RZR); [done|]. destruct Hd; [by apply Hr|done].
Qed.

Lemma agree_add_set (P : Z -> Prop) (s t : mstate) (d v : Z) :
  P RZR -> agree P s t -> agree (fun r => P r \/ r = d) (set s d v) (set t d v).
Proof.
  intros H0 Ha. apply (agree_set P); [|done]. intros r [Hr| ->]; [by left|].
  destruct (decide (d = RZR)) as [->|]; [by left|by right].
Qed.

Lemma exec_mem_agree (P : Z -> Prop) (k : sem) (ds : list Z) (a : Z) (s t s' : mstate) :
  P RZR -> agree P s t -> (is_store k = true -> Forall P ds) -> exec_mem k ds a s = Some s' ->
  exists t', exec_mem k ds a t = Some t' /\ agree (fun r => P r \/ is_store k = false /\ In r ds) s' t'.
Proof.
  intros H0 Ha Hst. pose proof Ha as (Hr & Hf & Hm).
  destruct k; cbn [exec_mem is_store] in *; try done; destruct ds as [|d1 [|d2 [|]]]; try done; intros [= <-].
  - eexists. split; [done|]. rewrite (load_bytes_ext _ _ (memory t)) by done.
    eapply agree_mono; [|by apply agree_add_set]. cbn. intros r [Hp|[_ [->|[]]]]; tauto.
  - eexists. split; [done|]. rewrite !(load_bytes_ext _ (memory s) (memory t)) by done.
    eapply agree_mono; [|by apply (agree_add_set (fun r => P r \/ r = d1)); [by left|apply agree_add_set]].
    cbn. intros r [Hp|[_ [->|[->|[]]]]]; tauto.
  - specialize (Hst eq_refl). apply Forall_cons in Hst as [H1 _]. eexists. split; [done|].
    rewrite (data_agree P s t) by tauto. split; [intros r [Hp|[? _]]; [by apply Hr|done]|]. split; [done|].
    cbn. by apply store_bytes_ext.
  - specialize (Hst eq_refl). apply Forall_cons in Hst as [H1 Hst]. apply Forall_cons in Hst as [H2 _].
    eexists. split; [done|]. rewrite !(data_agree P s t) by tauto.
    split; [intros r [Hp|[? _]]; [by apply Hr|done]|]. split; [done|].
    cbn. intros q. apply store_bytes_ext. by apply store_bytes_ext.
Qed.

(** ** Loads and stores *)

(** The offsets the splits handle: not an exact negative multiple of the largest
    offset of a pair, and 22 bits next to the stack pointer. *)
Definition offset_ok (op : MOperator) (b v : Z) : Prop :=
  - 2 ^ 61 <= v <= 2 ^ 61 /\ (b = RSP -> - 2 ^ 22 <= v <= 2 ^ 22) /\
  forall size, mem_form op = Some (true, size) -> v < 0 -> ~ (maxPimm_of true size | v).

Definition mem_kept (op : MOperator) (ara : bool) (n : Z) (ds : list RegOperand) (r : Z) : Prop :=
  ~ scratch ara n r \/ is_store (sem_of op) = false /\ In r (map regNO ds).

Lemma address_based (s : mstate) (m : MemOperand) (b : RegOperand) (o : ImmOperand) :
  based m b o -> address s m = Some (wrap 64 (read 64 s (regNO b) + imm_value o)).
Proof. intros (Ha & Hb & Ho). unfold address. by rewrite Ha, Hb, Ho. Qed.

Lemma alu_ok_addend (tmp b : RegOperand) (i : ImmOperand) (v : Z) :
  isSigned i = true -> Z.abs (imm_value i) <= Z.abs v + 2 ^ 18 -> - 2 ^ 62 <= v <= 2 ^ 62 ->
  regNO tmp <> RSP -> (regNO b = RSP -> - 2 ^ 22 <= v <= 2 ^ 22) -> alu_ok 64 tmp b i.
Proof.
  intros Hs Hi Hv Htmp Hsp. split; [split; [lia|by left]|]. split; [lia|].
  intros [H|H]; [done|]. specialize (Hsp H). split; [lia|by left].
Qed.

Lemma MemOfstSplitWithAdd_spec (fuel : nat) (ara : bool) (m : MemOperand) (b : RegOperand) (o : ImmOperand)
    (op : MOperator) (pair : bool) (size : Z) (n : Z) :
  200 <= n -> ~ scratch ara n (regNO b) -> mem_form op = Some (pair, size) -> based m b o ->
  offset_ok op (regNO b) (imm_value o) ->
  exists l n' m' tmp o' v,
    MemOfstSplitWithAdd (SplitSelf (S (S (S fuel))) ara) m size ara pair n = Ret ((l, m'), n') /\
    n <= n' /\ all_valid l /\ based m' tmp o' /\ scratch ara n (regNO tmp) /\
    imm_value o' = imm_value o - v /\ offset_valid pair size (imm_value o') = true /\
    forall s, runs_to (fun r => ~ scratch ara n r \/ r = regNO tmp) l s
                (set s (regNO tmp) (alu false 64 (read 64 s (regNO b)) (wrap 64 v))).
Proof.
  intros Hn Hb Hop Hm (Hv & Hsp & Hpair). pose proof (mem_form_size op pair size Hop) as Hs.
  destruct (based_offset m b o Hm) as [_ Hintact].
  destruct (SplitGetRemained_spec m b o pair size (imm_value o) Hm Hs ltac:(lia)) as (i & Ei & Hsi & Hi & Hvalid).
  { intros -> Hneg. by apply Hpair. }
  destruct Hm as (Ha & Hbase & Ho).
  unfold MemOfstSplitWithAdd. unfold bind at 1 2 3, lift at 1 2 3. rewrite Ha, Hintact, Ho.
  cbn [bool_decide decide_rel ASSERT]. rewrite bool_decide_true by done. cbn [ASSERT].
  unfold bind at 1. destruct (GetSplitBaseReg_spec ara true n Hn) as
    (tmp & n' & -> & Hnn & Htmp & Hzr & Hrsp & Hzrs & Hmono & _).
  unfold bind at 1, lift at 1. rewrite Ei. unfold bind at 1, lift at 1. rewrite Hbase. unfold bind at 1.
  assert (alu_ok 64 tmp b i) as Hok by by (apply (alu_ok_addend tmp b i (imm_value o)); done || lia).
  destruct (alu_split_if_invalid false 64 fuel ara tmp b i n' (or_intror eq_refl)) as
    (l & n'' & E & Hnn' & Hl & Hrun); [lia|by apply Hmono|done|].
  unfold alu_insn, alu_op in E. cbn [pick Z.eqb Pos.eqb] in E. rewrite E. cbn [ret].
  eexists l, n'', _, tmp, _, (imm_value i). split; [done|]. split; [lia|]. split; [done|].
  split; [done|]. split; [done|]. cbn [imm_value CreateImm].
  rewrite swrap_small by lia. split; [done|]. split; [done|]. intros s.
  destruct (Hrun s) as (t & Ht & Hag). exists t. split; [done|].
  eapply agree_mono; [|exact Hag]. intros r [H| ->]; [left; by apply Hmono|by right].
Qed.

Lemma mem_opnds (pair : bool) (ds : list RegOperand) (op : MOperator) (m m' : MemOperand) :
  length ds = mem_arity pair ->
  get_mem (opnds (mem_insn op ds m)) (mem_arity pair) = Ret m /\
  mkInsn op (<[mem_arity pair := OpdMem m']> (opnds (mem_insn op ds m))) = mem_insn op ds m'.
Proof. destruct pair; [destruct ds as [|d [|d2 [|]]]|destruct ds as [|d [|]]]; done. Qed.

Lemma agree_away (ara : bool) (n tmp x : Z) (s t : mstate) :
  scratch ara n tmp -> agree (fun r => ~ scratch ara n r \/ r = tmp) (set s tmp x) t ->
  agree (fun r => ~ scratch ara n r) s t.
Proof.
  intros Htmp (Hr & Hf & Hm). unfold set in *. destruct (tmp =? RZR); [by split; [auto|split]|].
  cbn in *. split; [|by split]. intros r Hns. rewrite <- (Hr r (or_introl Hns)).
  by rewrite (proj2 (Z.eqb_neq r tmp)) by (intros ->; done).
Qed.

Lemma mem_split_correct (fuel : nat) (ara : bool) (op : MOperator) (ds : list RegOperand)
    (m : MemOperand) (b : RegOperand) (o : ImmOperand) (pair : bool) (size : Z) (n : Z) :
  200 <= n -> ~ scratch ara n (regNO b) -> mem_form op = Some (pair, size) ->
  length ds = mem_arity pair -> based m b o -> offset_ok op (regNO b) (imm_value o) ->
  (is_store (sem_of op) = true -> Forall (fun d => ~ scratch ara n (regNO d)) ds) ->
  exists l n', SplitSelf (S (S (S (S fuel)))) ara (mem_insn op ds m) n = Ret (l, n') /\ n <= n' /\
    all_valid l /\
    forall s s', exec (mem_insn op ds m) s = Some s' -> runs_to (mem_kept op ara n ds) l s s'.
Proof.
  intros Hn Hb Hop Hds Hm Hok Hst. rewrite (SplitSelf_mem _ _ _ _ _ pair size) by done.
  pose proof (VerifySelf_mem op ds m b o pair size Hop Hds Hm) as Hval.
  unfold LoadStoreInsnSplit, bind at 1, lift at 1. rewrite Hval.
  destruct (offset_valid pair size (imm_value o)) eqn:Ev.
  { eexists _, n. split; [done|]. split; [lia|]. split; [by apply all_valid_one|].
    intros s s' H. by apply runs_to_one. }
  destruct (based_offset m b o Hm) as [_ Hintact]. destruct (mem_desc op pair size Hop) as (desc & Ed & Esz).
  unfold bind at 1, lift at 1. rewrite (proj1 (mem_opnds pair ds op m m Hds)).
  pose proof Hm as (Ha & _). rewrite Ha, Hintact, bool_decide_true by done. cbn [andb negb].
  unfold bind at 1, lift at 1. change (mop (mem_insn op ds m)) with op. rewrite Ed, Esz. unfold bind at 1.
  destruct (MemOfstSplitWithAdd_spec fuel ara m b o op pair size n Hn Hb Hop Hm Hok) as
    (l & n' & m' & tmp & o' & v & -> & Hnn & Hl & Hm' & Htmp & Eo & Hvalid & Hrun).
  rewrite (proj2 (mem_opnds pair ds op m m' Hds)).
  eexists _, n'. split; [done|]. split; [done|]. split.
  { apply all_valid_app; [done|]. apply all_valid_one.
    rewrite (VerifySelf_mem op ds m' tmp o' pair size) by done. by rewrite Hvalid. }
  intros s s' Hexec. rewrite (exec_mem_insn op ds m pair size) in Hexec by done.
  rewrite (address_based s m b o Hm) in Hexec. cbn [mbind option_bind] in Hexec.
  eapply runs_to_app; [apply Hrun|]. intros t Hag.
  destruct (scratch_ok ara n _ Hn Htmp) as [Hzr _].
  pose proof (agree_away ara n _ _ s t Htmp Hag) as Hst'.
  assert (~ scratch ara n RZR) as H0 by (unfold scratch, RZR, R16; destruct ara; lia).
  assert (is_store (sem_of op) = true -> Forall (fun r => ~ scratch ara n r) (map regNO ds)) as Hds'
    by (intros H; apply Forall_fmap; by apply Hst).
  destruct (exec_mem_agree _ _ _ _ s t s' H0 Hst' Hds' Hexec) as (t' & Ht' & Hag').
  exists t'. cbn [execs]. rewrite (exec_mem_insn op ds m' pair size) by done.
  rewrite (address_based t m' tmp o' Hm'). cbn [mbind option_bind].
  rewrite <- (read_agree _ 64 _ t (regNO tmp) (or_introl (or_intror eq_refl)) Hag), read_set by (done || lia).
  replace (wrap 64 (wrap 64 _ + imm_value o')) with (wrap 64 (read 64 s (regNO b) + imm_value o)).
  - rewrite Ht'. split; [done|]. exact Hag'.
  - unfold alu. rewrite Eo, wrap_add_r, wrap_wrap, wrap_add_l by lia. f_equal. ring.
Qed.
