(* ===== verification/A64SplitSpec.v ===== *)
(** * Splitting keeps the meaning of an instruction

    The theorem over all the kinds of instructions that [Insn::SplitSelf]
    splits, what [IsBitmaskImmediate] accepts, the inputs at which both are
    checked, and the instructions that are not split correctly. *)

From S2P Require Import Prelude.
From S2P Require Import IntWords.
From S2P Require Import IntWordsFacts.
From S2P Require Import A64Imm.
From S2P Require Import A64ImmFacts.
From S2P Require Import A64MoveFacts.
From S2P Require Import A64Insn.
From S2P Require Import A64Split.
From S2P Require Import A64Sem.
From S2P Require Import A64MoveSplit.
From S2P Require Import A64SplitFacts.
From S2P Require Import A64MemSplit.

(** ** The instructions that are split

    The instructions of which the splits are correct; the end of the file has one
    outside of each restriction whose split fails. *)

Inductive splittable (ara : bool) (n : Z) : Insn -> Prop :=
  | splittable_mov w d i :
      w = 32 \/ w = 64 -> regNO d <> RZR -> splittable ara n (mov_insn w d i)
  | splittable_alu sub w d b i :
      w = 32 \/ w = 64 -> ~ scratch ara n (regNO b) -> alu_ok w d b i ->
      splittable ara n (alu_insn sub w d b i)
  | splittable_alus sub w cc d b i :
      w = 32 \/ w = 64 -> ~ scratch ara n (regNO b) -> - 2 ^ 63 <= imm_value i < 2 ^ 63 ->
      splittable ara n (alus_insn sub w cc d b i)
  | splittable_lsl sub w d b i sh :
      w = 32 \/ w = 64 -> ~ scratch ara n (regNO b) ->
      shiftOp sh = kShiftLSL -> shiftAmount sh = 12 -> 0 <= imm_value i < 2 ^ (w - 12) ->
      (uses_sp d b -> imm_value i < 2 ^ 11) ->
      splittable ara n (lsl_insn sub w d b i sh)
  | splittable_mem op ds m b o pair size :
      mem_form op = Some (pair, size) -> length ds = mem_arity pair -> based m b o ->
      ~ scratch ara n (regNO b) -> offset_ok op (regNO b) (imm_value o) ->
      (is_store (sem_of op) = true -> Forall (fun d => ~ scratch ara n (regNO d)) ds) ->
      splittable ara n (mem_insn op ds m).

(** The registers an instruction writes. *)
Definition dests (i : Insn) : list Z :=
  match sem_of (mop i), opnds i with
  | (Mov _ | Alu _ _ | Load _ _), OpdRegister d :: _ => [regNO d]
  | AluS _ _, _ :: OpdRegister d :: _ => [regNO d]
  | LoadPair _ _, OpdRegister d1 :: OpdRegister d2 :: _ => [regNO d1; regNO d2]
  | _, _ => []
  end.

(** [l] replaces [i]: the instructions are valid, and from every state they
    reach one that agrees with the state after [i] on the flags, the memory, the
    registers that are not scratch and the registers [i] writes. *)
Definition replaces (ara : bool) (n : Z) (i : Insn) (l : list Insn) : Prop :=
  all_valid l /\
  forall s, exists s', exec i s = Some s' /\
    runs_to (fun r => ~ scratch ara n r \/ In r (dests i)) l s s'.

Lemma runs_to_mono (P Q : Z -> Prop) (l : list Insn) (s s' : mstate) :
  (forall r, Q r -> P r) -> runs_to P l s s' -> runs_to Q l s s'.
Proof. intros H (t & Ht & Ha). exists t. split; [done|]. by eapply agree_mono. Qed.

Lemma exec_mem_total (op : MOperator) (ds : list RegOperand) (m : MemOperand) (b : RegOperand)
    (o : ImmOperand) (pair : bool) (size : Z) (s : mstate) :
  mem_form op = Some (pair, size) -> length ds = mem_arity pair -> based m b o ->
  exists s', exec (mem_insn op ds m) s = Some s'.
Proof.
  intros Hop Hds Hm. rewrite (exec_mem_insn op ds m pair size), (address_based s m b o) by done.
  destruct pair; [destruct ds as [|d [|d2 [|]]]; try done|destruct ds as [|d [|]]; try done];
    destruct op; try discriminate Hop; by eexists.
Qed.

Lemma dests_mem (op : MOperator) (ds : list RegOperand) (m : MemOperand) (pair : bool) (size : Z) (r : Z) :
  mem_form op = Some (pair, size) -> length ds = mem_arity pair -> In r (dests (mem_insn op ds m)) ->
  is_store (sem_of op) = false /\ In r (map regNO ds).
Proof.
  intros Hop Hds. destruct pair; [destruct ds as [|d [|d2 [|]]]; try done|destruct ds as [|d [|]]; try done];
    destruct op; try discriminate Hop; cbn; tauto.
Qed.

(** The split of a splittable instruction ends, whatever fuel is left. *)
Lemma SplitSelf_replaces (ara : bool) (n : Z) (insn : Insn) (fuel : nat) :
  200 <= n -> splittable ara n insn ->
  exists l n', SplitSelf (4 + fuel) ara insn n = Ret (l, n') /\ n <= n' /\ replaces ara n insn l.
Proof.
  intros Hn Hsp. unfold replaces.
  destruct Hsp as [w d i Hw Hd|sub w d b i Hw Hb Hok|sub w cc d b i Hw Hb Hi|
                   sub w d b i sh Hw Hb Hop Hsh Hi Hsp|op ds m b o pair size Hop Hds Hm Hb Hok Hst].
  - destruct (mov_split w (3 + fuel) ara d i n Hw Hd) as (l & E & Hl & Hrun).
    exists l, n. split; [exact E|]. split; [lia|]. split; [done|]. intros s. eexists. split.
    { destruct Hw as [-> | ->]; done. }
    by eapply runs_to_mono; [|apply Hrun].
  - destruct (alu_split_correct sub w (1 + fuel) ara d b i n Hw Hn Hb Hok) as (l & n' & E & Hnn & Hl & Hrun).
    exists l, n'. split; [exact E|]. split; [done|]. split; [done|]. intros s. eexists.
    split; [by apply exec_alu|]. eapply runs_to_mono; [|apply Hrun].
    intros r [H|H]; [by left|right]. destruct Hw as [-> | ->], sub; cbn in H; tauto || (destruct H; [done|tauto]).
  - destruct (alus_split_correct sub w (2 + fuel) ara cc d b i n Hw Hn Hb Hi) as (l & n' & E & Hnn & Hl & Hrun).
    exists l, n'. split; [exact E|]. split; [done|]. split; [done|]. intros s.
    exists (alus_state sub w (regNO d) (read w s (regNO b)) (wrap w (imm_value i)) s).
    split; [by destruct Hw as [-> | ->], sub|]. eapply runs_to_mono; [|apply Hrun].
    intros r [H|H]; [by left|right]. destruct Hw as [-> | ->], sub; cbn in H; (destruct H; [done|tauto]).
  - destruct (lsl_split_correct sub w fuel ara d b i sh n Hw Hn Hb Hop Hsh Hi Hsp) as
      (l & n' & E & Hnn & Hl & Hrun).
    exists l, n'. split; [exact E|]. split; [done|]. split; [done|]. intros s. eexists. split.
    { destruct Hw as [-> | ->], sub; unfold exec; cbn; unfold is_lsl; rewrite Hop, Hsh; done. }
    eapply runs_to_mono; [|destruct Hw as [-> | ->], sub; apply Hrun].
    intros r [H|H]; [by left|right]. destruct Hw as [-> | ->], sub; cbn in H; (destruct H; [done|tauto]).
  - destruct (mem_split_correct fuel ara op ds m b o pair size n Hn Hb Hop Hds Hm Hok Hst) as
      (l & n' & E & Hnn & Hl & Hrun).
    exists l, n'. split; [exact E|]. split; [done|]. split; [done|]. intros s.
    destruct (exec_mem_total op ds m b o pair size s Hop Hds Hm) as (s' & Hs'). exists s'.
    split; [done|]. eapply runs_to_mono; [|by apply Hrun].
    intros r [H|H]; [by left|right]. by apply (dests_mem op ds m pair size).
Qed.

(** ** Fuel *)

(** [m'] gives the results of [m], and maybe results where [m] faults. *)
Definition below {A : Type} (m m' : SM A) : Prop := forall n x, m n = Ret x -> m' n = Ret x.

Lemma below_refl {A : Type} (m : SM A) : below m m.
Proof. by intros n x. Qed.

Lemma below_bind {A B : Type} (m m' : SM A) (k k' : A -> SM B) :
  below m m' -> (forall a, below (k a) (k' a)) -> below (bind m k) (bind m' k').
Proof.
  intros Hm Hk n x. unfold bind. destruct (m n) as [[a n1]|f] eqn:E; [|done].
  rewrite (Hm _ _ E). apply Hk.
Qed.

(** Down the binds and the branches of a split function. *)
Ltac below :=
  repeat match goal with
  | |- below (bind _ _) (bind _ _) => apply below_bind; [|intros ?]
  | |- below (match ?x with _ => _ end) _ => destruct x
  | |- below ?m ?m' => constr_eq m m'; apply below_refl
  end.

Section Monotone.
Context (f g : Insn -> SM (list Insn)) (below_fg : forall i, below (f i) (g i)).

Lemma split_if_invalid_below (i : Insn) : below (split_if_invalid f i) (split_if_invalid g i).
Proof. unfold split_if_invalid. below. apply below_fg. Qed.

Lemma load_and_apply_below rrrs rrr ok is64 ara o0 o1 i :
  below (load_and_apply f rrrs rrr ok is64 ara o0 o1 i) (load_and_apply g rrrs rrr ok is64 ara o0 o1 i).
Proof. unfold load_and_apply. below; apply split_if_invalid_below. Qed.

Lemma Split_below (i : Insn) (ara : bool) : below (Split f i ara) (Split g i ara).
Proof.
  unfold Split.
  assert (forall is64, below (AddInsnSplit f i is64 ara) (AddInsnSplit g i is64 ara)) as H1
    by (intros; unfold AddInsnSplit; below; apply split_if_invalid_below || apply load_and_apply_below).
  assert (forall is64, below (SubInsnSplit f i is64 ara) (SubInsnSplit g i is64 ara)) as H2
    by (intros; unfold SubInsnSplit; cbn zeta; below; apply split_if_invalid_below || apply load_and_apply_below).
  assert (forall s is64, below (AddsSubsInsnSplit f i s is64 ara) (AddsSubsInsnSplit g i s is64 ara)) as H3
    by (intros; unfold AddsSubsInsnSplit; below; apply split_if_invalid_below).
  assert (forall s is64, below (AddSubWithLslSplit f i s is64 ara) (AddSubWithLslSplit g i s is64 ara)) as H4
    by (intros; unfold AddSubWithLslSplit; below; apply split_if_invalid_below).
  assert (forall is64, below (CondCompareInsnSplit f i is64 ara) (CondCompareInsnSplit g i is64 ara)) as H5
    by (intros; unfold CondCompareInsnSplit; below; apply split_if_invalid_below).
  assert (forall k p, below (LoadStoreInsnSplit f i k p ara) (LoadStoreInsnSplit g i k p ara)) as H6
    by (intros; unfold LoadStoreInsnSplit, MemOfstSplitWithAdd; below; apply split_if_invalid_below).
  destruct (mop i); cbn [splitFunc];
    lazymatch goal with
    | |- below (AddInsnSplit _ _ _ _) _ => apply H1
    | |- below (SubInsnSplit _ _ _ _) _ => apply H2
    | |- below (AddsSubsInsnSplit _ _ _ _ _) _ => apply H3
    | |- below (AddSubWithLslSplit _ _ _ _ _) _ => apply H4
    | |- below (CondCompareInsnSplit _ _ _ _) _ => apply H5
    | |- below (LoadStoreInsnSplit _ _ _ _ _) _ => apply H6
    | |- _ => apply below_refl
    end.
Qed.
End Monotone.

Lemma SplitSelf_below (ara : bool) (k fuel : nat) : forall i,
  below (SplitSelf fuel ara i) (SplitSelf (fuel + k) ara i).
Proof.
  induction fuel as [|fuel IH]; intros i; [by intros n x|]. cbn [SplitSelf Nat.add]. by apply Split_below.
Qed.

(** ** The claims *)

(** C38: with the values its callers exclude left out, [IsBitmaskImmediate]
    stops at none of its assertions and accepts exactly the logical immediates
    of the architecture; a 32-bit immediate counts as its repetition in both
    halves of the register. *)
Theorem IsBitmaskImmediate_exact (val bitLen : Z) :
  0 <= val < 2 ^ 64 -> val <> 0 -> val <> 2 ^ 64 - 1 ->
  exists b, IsBitmaskImmediate val bitLen = Ret b /\
            (b = true <-> bitmask_imm (imm_pattern bitLen val)).
Proof. apply IsBitmaskImmediate_eq. Qed.

(** C39: one [mov] loads exactly the constants of [movz], [movn] and [orr] with
    a logical immediate; of the 32-bit immediates only zero and sign extensions
    are accepted.  No assertion fails, on any [int64], and for the constants
    that no single move loads [BetterUseMOVZ] has an answer. *)
Theorem single_move_exact (v : Z) :
  - 2 ^ 63 <= v < 2 ^ 63 ->
  (exists b, IsSingleInstructionMovable64 v = Ret b /\ (b = true <-> movable64 (wrap 64 v)) /\
             (b = false -> exists z, BetterUseMOVZ (wrap 64 v) = Ret z)) /\
  (exists b, IsSingleInstructionMovable32 v = Ret b /\
             (b = true <-> - 2 ^ 32 <= v < 2 ^ 32 /\ movable32 (wrap 32 v))).
Proof.
  intros Hv. split; [|by apply IsSingleInstructionMovable32_eq].
  destruct (IsSingleInstructionMovable64_eq v) as (b & Hb & Hspec). exists b. split_and!; [done..|].
  intros ->. unfold movable64 in Hspec.
  apply BetterUseMOVZ_ok; [by apply wrap_range|..]; intros H; by assert (false = true) by tauto.
Qed.

(** C40: [SplitSelf] of an instruction in [splittable], before or after register
    allocation, ends with one result whatever fuel is left from four nested
    splits on, stops at no assertion, and the instructions it leaves are all
    valid and do what the original does, up to scratch registers.  [splittable]
    has these instructions and no other:
    - a move of any immediate to a register other than the zero register;
    - an addition or subtraction of an immediate of its width, but INT64_MIN
      where the immediate counts as negative ([min_split_diverges]), and only
      within 23 bits and sign beside the stack pointer ([sub_sp_split]);
    - the addition or subtraction that sets the flags, of any 64-bit immediate;
    - the one with an immediate shifted by LSL #12, and by no other amount
      ([lsl0_split_wrong]), whose shifted value fits the width, and of at most
      11 bits beside the stack pointer;
    - a load or store, single or of a pair, at a base register plus an offset of
      at most 2^61, at most 2^22 from the stack pointer, where a pair has no
      offset that is a negative multiple of its largest one ([ldp_split_invalid]).
    The base, and the registers that are stored, are not scratch registers of
    the split.  Conditional compares are not in it ([ccmp_split_faults]). *)
Theorem SplitSelf_correct (ara : bool) (n : Z) (insn : Insn) :
  200 <= n -> splittable ara n insn ->
  exists l n', (forall fuel, SplitSelf (4 + fuel) ara insn n = Ret (l, n')) /\ n <= n' /\
               replaces ara n insn l.
Proof.
  intros Hn Hsp. destruct (SplitSelf_replaces ara n insn 0 Hn Hsp) as (l & n' & E & Hnn & Hr).
  exists l, n'. split; [|done]. intros fuel. by apply (SplitSelf_below ara fuel 4).
Qed.

(** ** Concrete instructions *)

Definition xreg (r : Z) : RegOperand := mkReg r 64.
Definition simm (v : Z) : ImmOperand := mkImm v 64 true kNotVary.
Definition at_offset (b v : Z) : MemOperand :=
  mkMem 64 (Some (xreg b)) (Some (simm v)) None kBOI false.

Lemma IsBitmaskImmediate_exact_witness :
  exists b, IsBitmaskImmediate 0x0ff00ff0 32 = Ret b /\ (b = true <-> bitmask_imm (imm_pattern 32 0x0ff00ff0)).
Proof. apply (IsBitmaskImmediate_exact 0x0ff00ff0 32); lia. Defined.

Lemma single_move_exact_witness :
  exists b, IsSingleInstructionMovable64 (-0x12340001) = Ret b /\
            (b = true <-> movable64 (wrap 64 (-0x12340001))).
Proof.
  destruct (single_move_exact (-0x12340001) ltac:(lia)) as [(b & Hb & Hs & _) _]. by exists b.
Defined.

(** [str x1, [x2, #0x12345678]] once registers are allocated. *)
Lemma SplitSelf_correct_witness :
  exists l n', (forall fuel, SplitSelf (4 + fuel) true (mem_insn MOP_xstr [xreg 1] (at_offset 2 0x12345678)) 200 =
                             Ret (l, n')) /\ 200 <= n' /\
               replaces true 200 (mem_insn MOP_xstr [xreg 1] (at_offset 2 0x12345678)) l.
Proof.
  apply (SplitSelf_correct true 200); [lia|].
  apply (splittable_mem true 200 _ _ _ (xreg 2) (simm 0x12345678) false 64); try done.
  intros _. by constructor.
Defined.

(** ** Instructions that are not split correctly *)

(** [ccmp]: the split reads the register operand as the immediate. *)
Definition ccmp_far : Insn :=
  mkInsn MOP_xccmpriic [OpdRegister (xreg 40); OpdRegister (xreg 1); OpdImmediate (simm 100);
                        OpdImmediate (simm 0); OpdCond CC_EQ; OpdRegister (xreg 40)].

Lemma ccmp_split_faults (fuel : nat) (ara : bool) (n : Z) :
  SplitSelf (S fuel) ara ccmp_far n = Fault WrongMember.
Proof. done. Qed.

(** [ldp x1, x2, [x3, #-1024]]: the rest of the offset is 512, one past the
    largest. *)
Lemma ldp_split_invalid :
  exists l, SplitSelf 4 true (mem_insn MOP_xldp [xreg 1; xreg 2] (at_offset 3 (-1024))) 200 = Ret (l, 200) /\
            map VerifySelf l = [Ret true; Ret false].
Proof. eexists. split; [vm_compute; reflexivity|]. vm_compute. reflexivity. Qed.

(** [sub sp, sp, #0x1000000]: a shifted register with the stack pointer. *)
Lemma sub_sp_split (s : mstate) :
  exists l, SplitSelf 4 true (alu_insn true 64 (xreg RSP) (xreg RSP) (simm 0x1000000)) 200 = Ret (l, 200) /\
            all_valid l /\ execs l s = None.
Proof.
  eexists. split; [vm_compute; reflexivity|]. split; [|done].
  constructor; [vm_compute; reflexivity|]. constructor; [vm_compute; reflexivity|done].
Qed.

(** [INT64_MIN] is its own negation: the addition becomes a subtraction and the
    subtraction an addition, without end. *)
Lemma min_split_diverges (fuel : nat) (ara : bool) (n : Z) : forall sub,
  SplitSelf fuel ara (alu_insn sub 64 (xreg 1) (xreg 2) (simm (- 2 ^ 63))) n = Fault OutOfFuel.
Proof.
  induction fuel as [|fuel IH]; intros sub; [done|]. rewrite alu_split_step by tauto.
  rewrite alu_split_negative by (vm_compute; reflexivity). unfold split_if_invalid, bind, lift.
  change (Negate (simm (- 2 ^ 63))) with (simm (- 2 ^ 63)).
  rewrite VerifySelf_alu. apply IH.
Qed.

(** [add x1, x2, #0x1001, lsl #0]: the split adds [0x1001 << 12]. *)
Lemma lsl0_split_wrong :
  exists l, SplitSelf 4 true (lsl_insn false 64 (xreg 1) (xreg 2) (simm 0x1001) (mkShift kShiftLSL 0 12)) 200 =
            Ret (l, 200) /\
    let s := mkState (fun _ => 0) (mkFlags false false false false) (fun _ => 0) in
    option_map (fun t => regs t 1) (execs l s) = Some 0x1001000.
Proof. eexists. split; [vm_compute; reflexivity|]. vm_compute. reflexivity. Qed.
