(* ===== verification/BinCodec.v ===== *)
(** * The binary form of MapleIR: bytes, numbers and the exporter's and importer's state

    maple_ir/src/bin_mpl_export.cpp and bin_mpl_import.cpp, the classes
    BinaryMplExport and BinaryMplImport: the buffer, the primitives that write
    and read bytes, little-endian words and LEB128 numbers, and back-patching.
    The state of both classes is a record with the buffer, the tables of strings
    and an extension [E] or [I], which holds the tables of the part of the format
    at hand; a primitive leaves the extension alone, whatever it is.

    The second half is a program logic for pairs of a writer and a reader:
    [sim P w r Q] says that [r], run on what [w] wrote, returns without a fault,
    consumes exactly these bytes, and leads from [P] to [Q]. *)
From stdpp Require Export gmap.
From S2P Require Export Prelude.
From S2P Require Import PrimTypes.

(** enum BinKind, the tags of the format *)
Definition kBinString : Z := 1.
Definition kBinUsrString : Z := kBinString.
Definition kBinInitConst : Z := 2.
Definition kBinKindTypeScalar : Z := 6.
Definition kBinKindTypeByName : Z := 7.
Definition kBinKindTypePointer : Z := 8.
Definition kBinKindTypeFArray : Z := 9.
Definition kBinKindTypeJarray : Z := 10.
Definition kBinKindTypeArray : Z := 11.
Definition kBinKindTypeFunction : Z := 12.
Definition kBinKindTypeParam : Z := 13.
Definition kBinKindTypeBitField : Z := 16.
Definition kBinKindTypeStruct : Z := 17.
Definition kBinEnumeration : Z := 44.
Definition kBinEnumStart : Z := 45.

(** ** State, and computations on it *)

(** [stringTableMap] finds the index of a string, [stringTable] the string. *)
Record StringTable : Type := MkStringTable {
  stringTable : list (list Z);
  stringTableMap : gmap (list Z) Z
}.

Record Exp (E : Type) : Type := MkExp {
  e_buf : list Z;
  gStrMark : gmap Z Z;
  uStrMark : gmap Z Z;
  e_ext : E
}.
Arguments MkExp {E} _ _ _ _.
Arguments e_buf {E} _.
Arguments gStrMark {E} _.
Arguments uStrMark {E} _.
Arguments e_ext {E} _.

Record Imp (I : Type) : Type := MkImp {
  buf : list Z;
  bufI : nat;
  gStrTab : list Z;
  uStrTab : list Z;
  StrTable : StringTable;
  UStrTable : StringTable;
  i_ext : I
}.
Arguments MkImp {I} _ _ _ _ _ _ _.
Arguments buf {I} _.
Arguments bufI {I} _.
Arguments gStrTab {I} _.
Arguments uStrTab {I} _.
Arguments StrTable {I} _.
Arguments UStrTable {I} _.
Arguments i_ext {I} _.

(** A computation on a state [S] *)
Definition ST (S A : Type) : Type := S -> res (A * S).

#[export] Instance st_ret S : MRet (ST S) := fun A a s => Ret (a, s).
#[export] Instance st_bind S : MBind (ST S) := fun A B k m s =>
  match m s with Ret (a, s') => k a s' | Fault f => Fault f end.

Definition lift {S A : Type} (m : res A) : ST S A := fun s =>
  match m with Ret a => Ret (a, s) | Fault f => Fault f end.
Definition gets {S A : Type} (f : S -> A) : ST S A := fun s => Ret (f s, s).
Definition update {S : Type} (f : S -> S) : ST S unit := fun s => Ret (tt, f s).
Definition fault_st {S A : Type} (f : fault) : ST S A := fun _ => Fault f.

(** A loop over the elements of a vector that writes each, and a loop that reads
    [n] elements and pushes them back on a vector *)
Fixpoint each {S A : Type} (f : A -> ST S unit) (l : list A) : ST S unit :=
  match l with
  | [] => mret tt
  | x :: l' => _ ← f x; each f l'
  end.

Fixpoint times {S B : Type} (n : nat) (r : ST S B) : ST S (list B) :=
  match n with
  | O => mret []
  | Datatypes.S n' => x ← r; l ← times n' r; mret (x :: l)
  end.

Definition set_buf {E : Type} (b : list Z) (e : Exp E) : Exp E :=
  MkExp b (gStrMark e) (uStrMark e) (e_ext e).
Definition set_ext {E : Type} (x : E) (e : Exp E) : Exp E :=
  MkExp (e_buf e) (gStrMark e) (uStrMark e) x.
Definition set_bufI {I : Type} (n : nat) (i : Imp I) : Imp I :=
  MkImp (buf i) n (gStrTab i) (uStrTab i) (StrTable i) (UStrTable i) (i_ext i).
Definition set_iext {I : Type} (x : I) (i : Imp I) : Imp I :=
  MkImp (buf i) (bufI i) (gStrTab i) (uStrTab i) (StrTable i) (UStrTable i) x.

(** ** Writing *)

Section Write.
Context {E : Type}.
Notation W := (ST (Exp E)).

Definition Write (b : Z) : W unit := update (fun e => set_buf (e_buf e ++ [b]) e).

Definition WriteInt (x : Z) : W unit :=
  _ ← Write (wrap 8 (Z.land (wrap 32 x) 0xFF));
  _ ← Write (wrap 8 (Z.land (shr 32 (wrap 32 x) 8) 0xFF));
  _ ← Write (wrap 8 (Z.land (shr 32 (wrap 32 x) 16) 0xFF));
  Write (wrap 8 (Z.land (shr 32 (wrap 32 x) 24) 0xFF)).

Definition ExpandFourBuffSize : W unit := WriteInt 0.

Definition buf_size : W Z := gets (fun e => Z.of_nat (length (e_buf e))).

(** The CHECK of Fixup only reports; a write outside the buffer is undefined. *)
Definition Fixup (i x : Z) : W unit := fun e =>
  match
    (b ← wr (e_buf e) (Z.to_nat i) (wrap 8 (Z.land x 0xFF));
     b ← wr b (Z.to_nat i + 1) (wrap 8 (Z.land (shr 32 x 8) 0xFF));
     b ← wr b (Z.to_nat i + 2) (wrap 8 (Z.land (shr 32 x 16) 0xFF));
     wr b (Z.to_nat i + 3) (wrap 8 (Z.land (shr 32 x 24) 0xFF)))
  with
  | Ret b => Ret (tt, set_buf b e)
  | Fault f => Fault f
  end.

Definition WriteInt64 (x : Z) : W unit :=
  _ ← WriteInt (swrap 32 (Z.land (wrap 64 x) 0xFFFFFFFF));
  WriteInt (swrap 32 (Z.land (shr 64 (wrap 64 x) 32) 0xFFFFFFFF)).

(** The loop of WriteNum; [fuel] bounds the bytes but the last. *)
Fixpoint WriteNum_loop (fuel : nat) (x : Z) : W unit :=
  if (x <? -0x40) || (0x40 <=? x) then
    match fuel with
    | O => fault_st OutOfFuel
    | Datatypes.S fuel' =>
        _ ← Write (wrap 8 (Z.land (wrap 64 x) 0x7F + 0x80));
        WriteNum_loop fuel' (Z.shiftr x 7)
    end
  else Write (wrap 8 (Z.land (wrap 64 x) 0x7F)).

Definition WriteNum (x : Z) : W unit := WriteNum_loop 9 x.

Definition WriteAsciiStr (str : list Z) : W unit :=
  _ ← WriteNum (swrap 64 (Z.of_nat (length str)));
  each (fun c => Write (wrap 8 c)) str.
End Write.

(** ** Reading *)

Section Read.
Context {I : Type}.
Notation R := (ST (Imp I)).

Definition Read : R Z := fun i =>
  match buf i !! bufI i with
  | Some b => Ret (b, set_bufI (Datatypes.S (bufI i)) i)
  | None => Fault CheckFatal
  end.

Definition ReadInt : R Z :=
  x0 ← Read; x1 ← Read; x2 ← Read; x3 ← Read;
  mret (swrap 32 (wrap 32 (shl 32 (wrap 32 (shl 32 (wrap 32 (shl 32 x3 8 + x2)) 8 + x1)) 8 + x0))).

Definition ReadInt64 : R Z :=
  r0 ← ReadInt; r1 ← ReadInt;
  mret (swrap 64 (wrap 64 (shl 64 (wrap 32 r1) 32 + wrap 32 r0))).

(** The loop of ReadNum; [y] is signed, but the additions are unsigned. *)
Fixpoint ReadNum_loop (fuel : nat) (n y b : Z) : R Z :=
  if 0x80 <=? b then
    match fuel with
    | O => fault_st OutOfFuel
    | Datatypes.S fuel' =>
        b' ← Read;
        ReadNum_loop fuel' (wrap 64 (n + 7))
          (swrap 64 (wrap 64 (wrap 64 y + shl 64 (b - 0x80) n))) b'
    end
  else
    mret (swrap 64 (wrap 64 (wrap 64 y + shl 64 (wrap 64 (Z.land b 0x3F - Z.land b 0x40)) n))).

Definition ReadNum : R Z :=
  size ← gets (fun i => length (buf i));
  b ← Read;
  ReadNum_loop size 0 0 b.

Definition ReadAsciiStr : R (list Z) :=
  n ← ReadNum;
  times (Z.to_nat n) Read.
End Read.

(** ** What a writer wrote, and what a reader has left to read *)

Definition written {E : Type} (e e' : Exp E) : list Z := drop (length (e_buf e)) (e_buf e').
Definition remaining {I : Type} (i : Imp I) : list Z := drop (bufI i) (buf i).

(** The marks an extension of the exporter has given out *)
Class Marks (E : Type) : Type := marks : E -> nat.

Definition mark_count {E : Type} `{Marks E} (e : Exp E) : nat :=
  size (gStrMark e) + size (uStrMark e) + marks (e_ext e).

(** Indices of strings and types are 32-bit numbers, so that an exporter has given
    out fewer marks than that. *)
Definition small {E : Type} `{Marks E} (e : Exp E) : Prop := Z.of_nat (mark_count e) < 2 ^ 31.

(** A writer appends to the buffer and takes back no mark. *)
Class Grows {E A : Type} `{Marks E} (m : ST (Exp E) A) : Prop :=
  grows : forall e a e', m e = Ret (a, e') ->
    e_buf e `prefix_of` e_buf e' /\ (mark_count e <= mark_count e')%nat.

#[export] Typeclasses Opaque mbind mret each lift gets fault_st update Write WriteInt WriteInt64
  WriteNum WriteAsciiStr ExpandFourBuffSize wrap shr.

Section Grows.
Context {E : Type} `{Marks E}.
Notation W := (ST (Exp E)).

#[export] Instance grows_ret {A} (a : A) : Grows (mret a : W A).
Proof. intros e b e' [= _ <-]. done. Qed.

#[export] Instance grows_fault {A} f : Grows (fault_st f : W A).
Proof. intros e b e'. done. Qed.

#[export] Instance grows_lift {A} (m : res A) : Grows (lift m : W A).
Proof. intros e b e'. unfold lift. destruct m; [|done]. intros [= _ <-]. done. Qed.

#[export] Instance grows_gets {A} (f : Exp E -> A) : Grows (gets f).
Proof. intros e b e' [= _ <-]. done. Qed.

#[export] Instance grows_bind {A B} (m : W A) (k : A -> W B) :
  Grows m -> (forall a, Grows (k a)) -> Grows (m ≫= k).
Proof.
  intros Hm Hk e b e2 Hb. unfold mbind, st_bind in Hb.
  destruct (m e) as [[a e1]|] eqn:H1; [|done].
  destruct (Hm _ _ _ H1) as [Hp1 Hc1], (Hk a _ _ _ Hb) as [Hp2 Hc2].
  split; [by etrans | lia].
Qed.

(** A look at the state, and a step that changes the tables *)
Lemma grows_gets_bind {A B} (f : Exp E -> A) (k : A -> W B) :
  (forall e a e', k (f e) e = Ret (a, e') ->
     e_buf e `prefix_of` e_buf e' /\ (mark_count e <= mark_count e')%nat) ->
  Grows (gets f ≫= k).
Proof. intros Hk e a e'. exact (Hk e a e'). Qed.

Lemma grows_update_bind {B} (f : Exp E -> Exp E) (k : unit -> W B) (e : Exp E) b e' :
  Grows (k tt) -> e_buf (f e) = e_buf e -> (mark_count e <= mark_count (f e))%nat ->
  (update f ≫= k) e = Ret (b, e') ->
  e_buf e `prefix_of` e_buf e' /\ (mark_count e <= mark_count e')%nat.
Proof.
  intros Hk Hb Hm Hrun. destruct (Hk (f e) b e' Hrun) as [Hp Hc]. rewrite Hb in Hp. split; [done|lia].
Qed.

#[export] Instance grows_each {A} (f : A -> W unit) (l : list A) :
  (forall x, Grows (f x)) -> Grows (each f l).
Proof. intros Hf. induction l as [|x l IH]; simpl; apply _. Qed.

#[export] Instance grows_if {A} (b : bool) (m1 m2 : W A) : Grows m1 -> Grows m2 -> Grows (if b then m1 else m2).
Proof. by destruct b. Qed.

#[export] Instance grows_Write b : Grows (Write b).
Proof. intros e a e' [= _ <-]. split; [by apply prefix_app_r | done]. Qed.

#[export] Instance grows_WriteInt x : Grows (WriteInt x).
Proof. unfold WriteInt. apply _. Qed.

#[export] Instance grows_ExpandFourBuffSize : Grows ExpandFourBuffSize.
Proof. unfold ExpandFourBuffSize. apply _. Qed.

#[export] Instance grows_WriteInt64 x : Grows (WriteInt64 x).
Proof. unfold WriteInt64. apply _. Qed.

#[export] Instance grows_WriteNum x : Grows (WriteNum x).
Proof.
  unfold WriteNum. generalize 9%nat as n. intros n. revert x.
  induction n as [|n IH]; intros x; simpl; apply _.
Qed.

#[export] Instance grows_WriteAsciiStr s : Grows (WriteAsciiStr s).
Proof. unfold WriteAsciiStr. apply _. Qed.
End Grows.

(** ** Writers and readers that match *)

Definition sim {E I A B : Type} `{Marks E} (P : Exp E -> Imp I -> Prop) (w : ST (Exp E) A)
    (r : ST (Imp I) B) (Q : A -> B -> Exp E -> Imp I -> Prop) : Prop :=
  forall e i a e' rest, P e i -> w e = Ret (a, e') -> small e' ->
    remaining i = written e e' ++ rest ->
    exists b i', r i = Ret (b, i') /\ remaining i' = rest /\ Q a b e' i'.

Lemma written_self {E} (e : Exp E) : written e e = [].
Proof. unfold written. apply drop_all. Qed.

Lemma written_trans {E} (e e1 e2 : Exp E) :
  e_buf e `prefix_of` e_buf e1 -> e_buf e1 `prefix_of` e_buf e2 ->
  written e e2 = written e e1 ++ written e1 e2.
Proof.
  intros [b1 H1] [b2 H2]. unfold written. rewrite H2, H1.
  rewrite (drop_app_length (e_buf e ++ b1)), <- (app_assoc _ b1), !drop_app_length. done.
Qed.

Section Sim.
Context {E I : Type} `{Marks E}.
Implicit Types (P : Exp E -> Imp I -> Prop).

Lemma sim_bind {A A' B B'} P (w : ST (Exp E) A) (k : A -> ST (Exp E) A')
    (r : ST (Imp I) B) (l : B -> ST (Imp I) B') Q Q' :
  Grows w -> (forall a, Grows (k a)) ->
  sim P w r Q -> (forall a b, sim (Q a b) (k a) (l b) Q') -> sim P (w ≫= k) (r ≫= l) Q'.
Proof.
  intros Gw Gk Hw Hk e i a e2 rest HP Hrun Hsm Hrest.
  unfold mbind, st_bind in Hrun. destruct (w e) as [[a1 e1]|] eqn:H1; [|done].
  destruct (Gw _ _ _ H1) as [Hp1 _], (Gk a1 _ _ _ Hrun) as [Hp2 Hc2].
  rewrite (written_trans _ _ _ Hp1 Hp2), <- app_assoc in Hrest.
  destruct (Hw e i a1 e1 _ HP H1 ltac:(unfold small in *; lia) Hrest) as (b1 & i1 & Hr1 & Hrem1 & HQ).
  destruct (Hk a1 b1 e1 i1 a e2 rest HQ Hrun Hsm Hrem1) as (b2 & i2 & Hr2 & Hrem2 & HQ').
  exists b2, i2. unfold mbind, st_bind. by rewrite Hr1.
Qed.

(** Steps of one side only, which leave the buffer *)
Lemma sim_right {A B B'} P (w : ST (Exp E) A) (f : ST (Imp I) B) (l : B -> ST (Imp I) B') (P' : B -> Exp E -> Imp I -> Prop) Q :
  (forall e i, P e i -> exists b i', f i = Ret (b, i') /\ remaining i' = remaining i /\ P' b e i') ->
  (forall b, sim (P' b) w (l b) Q) -> sim P w (f ≫= l) Q.
Proof.
  intros Hf Hl e i a e' rest HP Hrun Hsm Hrest.
  destruct (Hf e i HP) as (b & i' & Hfi & Hrem & HP').
  rewrite <- Hrem in Hrest.
  destruct (Hl b e i' a e' rest HP' Hrun Hsm Hrest) as (b' & i2 & Hr & Hrem2 & HQ).
  exists b', i2. unfold mbind, st_bind. by rewrite Hfi.
Qed.

Lemma sim_left {A A' B} P (f : ST (Exp E) A) (k : A -> ST (Exp E) A') (r : ST (Imp I) B) (P' : A -> Exp E -> Imp I -> Prop) Q :
  (forall e i a e', P e i -> f e = Ret (a, e') -> e_buf e' = e_buf e /\ P' a e' i) ->
  (forall a, sim (P' a) (k a) r Q) -> sim P (f ≫= k) r Q.
Proof.
  intros Hf Hk e i a e2 rest HP Hrun Hsm Hrest.
  unfold mbind, st_bind in Hrun. destruct (f e) as [[a1 e1]|] eqn:H1; [|done].
  destruct (Hf e i a1 e1 HP H1) as [Hbuf HP'].
  apply (Hk a1 e1 i a e2 rest HP' Hrun Hsm). rewrite Hrest. unfold written. by rewrite Hbuf.
Qed.

Lemma sim_ret {A B} P (a : A) (b : B) Q :
  (forall e i, P e i -> Q a b e i) -> sim P (mret a) (mret b) Q.
Proof.
  intros HQ e i a' e' rest HP [= <- <-] Hsm Hrest. rewrite written_self in Hrest.
  exists b, i. split_and!; [done | done | by apply HQ].
Qed.

Lemma sim_check {A B} P (c : bool) (w : ST (Exp E) A) (l : unit -> ST (Imp I) B) Q :
  (forall e i, P e i -> c = true) -> sim P w (l tt) Q -> sim P w (lift (CHECK_FATAL c) ≫= l) Q.
Proof.
  intros Hc Hl. apply (sim_right _ _ _ _ (fun _ => P)); [|by intros []].
  intros e i HP. exists tt, i. rewrite (Hc e i HP). done.
Qed.

Lemma sim_conseq {A B} (P P' : Exp E -> Imp I -> Prop) (w : ST (Exp E) A) (r : ST (Imp I) B) (Q Q' : A -> B -> Exp E -> Imp I -> Prop) :
  (forall e i, P' e i -> P e i) -> (forall a b e i, Q a b e i -> Q' a b e i) ->
  sim P w r Q -> sim P' w r Q'.
Proof.
  intros HP HQ Hs e i a e' rest HP' Hrun Hsm Hrest.
  destruct (Hs e i a e' rest (HP _ _ HP') Hrun Hsm Hrest) as (b & i' & ? & ? & ?). eauto 6.
Qed.

Lemma sim_weaken {A B} (P P' : Exp E -> Imp I -> Prop) (w : ST (Exp E) A) (r : ST (Imp I) B) Q :
  (forall e i, P' e i -> P e i) -> sim P w r Q -> sim P' w r Q.
Proof. intros HP. by apply sim_conseq. Qed.

Lemma sim_ext {A B} P (w w' : ST (Exp E) A) (r : ST (Imp I) B) Q :
  (forall e, w e = w' e) -> sim P w' r Q -> sim P w r Q.
Proof. intros Hw Hs e i a e' rest HP. rewrite Hw. by apply Hs. Qed.

Lemma sim_assoc {A B C D} P (w : ST (Exp E) A) (r : ST (Imp I) B) (f : B -> ST (Imp I) C) (g : C -> ST (Imp I) D) Q :
  sim P w (r ≫= fun x => f x ≫= g) Q -> sim P w ((r ≫= f) ≫= g) Q.
Proof.
  intros Hs e i a e' rest HP Hrun Hsm Hrest.
  destruct (Hs e i a e' rest HP Hrun Hsm Hrest) as (b & i' & Hr & H2).
  exists b, i'. split; [|done]. revert Hr. unfold mbind, st_bind. by destruct (r i) as [[x i1]|].
Qed.

(** A loop over one element, and the end of a function *)
Lemma sim_single {A B C} P (f : C -> ST (Exp E) unit) (x : C) (k : unit -> ST (Exp E) A) (r : ST (Imp I) B) Q :
  sim P (f x ≫= k) r Q -> sim P (each f [x] ≫= k) r Q.
Proof.
  apply sim_ext. intros e. unfold each, mbind, st_bind, mret, st_ret.
  by destruct (f x e) as [[[] e1]|].
Qed.

Lemma sim_end {A B} P (w : ST (Exp E) A) (r : ST (Imp I) B) Q :
  sim P (w ≫= mret) r Q -> sim P w r Q.
Proof.
  apply sim_ext. intros e. unfold mbind, st_bind, mret, st_ret. by destruct (w e) as [[a e1]|].
Qed.

(** A value that is read back as it is *)
Lemma sim_val_bind {A A' B B'} P (w : ST (Exp E) A) (k : A -> ST (Exp E) A')
    (r : ST (Imp I) B) (l : B -> ST (Imp I) B') (v : B) Q :
  Grows w -> (forall a, Grows (k a)) -> sim P w r (fun _ b e i => b = v /\ P e i) ->
  (forall a, sim P (k a) (l v) Q) -> sim P (w ≫= k) (r ≫= l) Q.
Proof.
  intros Gw Gk Hw Hk. eapply sim_bind; [done | done | exact Hw |].
  intros a b e i a' e' rest [-> HP]. by apply Hk.
Qed.

(** The reader goes on when the writer is done. *)
Lemma sim_then {A B B'} P (w : ST (Exp E) A) (r : ST (Imp I) B) (l : B -> ST (Imp I) B') Q Q' :
  sim P w r Q -> (forall a b, sim (Q a b) (mret a) (l b) Q') -> sim P w (r ≫= l) Q'.
Proof.
  intros Hw Hl e i a e' rest HP Hrun Hsm Hrest.
  destruct (Hw e i a e' rest HP Hrun Hsm Hrest) as (b & i' & Hr & Hrem & HQ).
  destruct (Hl a b e' i' a e' rest HQ eq_refl Hsm) as (b' & i2 & Hr2 & Hrem2 & HQ').
  { by rewrite written_self. }
  exists b', i2. unfold mbind, st_bind. by rewrite Hr.
Qed.

Lemma sim_val_then {A B B'} P (w : ST (Exp E) A) (r : ST (Imp I) B) (l : B -> ST (Imp I) B') (v : B) Q :
  sim P w r (fun _ b e i => b = v /\ P e i) -> (forall a, sim P (mret a) (l v) Q) -> sim P w (r ≫= l) Q.
Proof.
  intros Hw Hl. eapply sim_then; [exact Hw|].
  intros a b e i a' e' rest [-> HP]. by apply Hl.
Qed.

(** The pre-condition may use that the marks are few, *)
Lemma sim_small {A B} P (w : ST (Exp E) A) (r : ST (Imp I) B) Q (X : Prop) :
  Grows w -> (forall e i, P e i -> small e -> X) -> (X -> sim P w r Q) -> sim P w r Q.
Proof.
  intros Hg HX Hs e i a e' rest HP Hrun Hsm. destruct (Hg _ _ _ Hrun) as [_ Hc].
  apply (Hs (HX e i HP ltac:(unfold small in *; lia)) e i a e' rest HP Hrun Hsm).
Qed.

(** The pre-condition may mention what is known of the state. *)
Lemma sim_pre {A B} P (w : ST (Exp E) A) (r : ST (Imp I) B) Q (X : Prop) :
  (forall e i, P e i -> X) -> (X -> sim P w r Q) -> sim P w r Q.
Proof. intros HX Hs e i a e' rest HP. exact (Hs (HX e i HP) e i a e' rest HP). Qed.

(** ** Bytes and numbers *)

(** Assertions that do not depend on the buffers *)
Definition stable (P : Exp E -> Imp I -> Prop) : Prop :=
  forall e i b n, P e i -> P (set_buf b e) (set_bufI n i).

Lemma remaining_cons (i : Imp I) b rest :
  remaining i = b :: rest ->
  buf i !! bufI i = Some b /\ remaining (set_bufI (Datatypes.S (bufI i)) i) = rest.
Proof.
  unfold remaining, set_bufI; simpl. intros Hr.
  pose proof (lookup_drop (buf i) (bufI i) 0) as Hl. rewrite Nat.add_0_r in Hl.
  rewrite <- Hl, Hr. split; [done|].
  rewrite <- Nat.add_1_r, <- drop_drop, Hr. done.
Qed.

Lemma sim_byte P b :
  stable P -> sim P (Write b) Read (fun _ b' e i => b' = b /\ P e i).
Proof.
  intros HP e i a e' rest Pe [= <- <-] Hsm Hrest.
  unfold written in Hrest; simpl in Hrest. rewrite drop_app_length in Hrest.
  destruct (remaining_cons _ _ _ Hrest) as [Hb Hrem].
  exists b, (set_bufI (Datatypes.S (bufI i)) i). unfold Read. rewrite Hb.
  split_and!; [done|done|done|]. by apply HP.
Qed.
End Sim.

(** The bytes of a number *)
Fixpoint leb (fuel : nat) (x : Z) : list Z :=
  if (x <? -0x40) || (0x40 <=? x) then
    match fuel with
    | O => []
    | Datatypes.S fuel' => wrap 8 (Z.land (wrap 64 x) 0x7F + 0x80) :: leb fuel' (Z.shiftr x 7)
    end
  else [wrap 8 (Z.land (wrap 64 x) 0x7F)].

(** What is left of a 64-bit number after 9 - [fuel] groups of seven bits *)
Definition leb_range (fuel : nat) (x : Z) : Prop :=
  (fuel <= 9)%nat /\ - 2 ^ (7 * Z.of_nat fuel) <= x < 2 ^ (7 * Z.of_nat fuel).

Lemma leb_range_start (x : Z) : - 2 ^ 63 <= x < 2 ^ 63 -> leb_range 9 x.
Proof. by split. Qed.

Lemma leb_range_step (fuel : nat) (x : Z) :
  leb_range (Datatypes.S fuel) x -> leb_range fuel (Z.shiftr x 7).
Proof.
  intros [Hf Hx]. split; [lia|]. rewrite Z.shiftr_div_pow2 by lia.
  replace (7 * Z.of_nat (Datatypes.S fuel)) with (7 * Z.of_nat fuel + 7) in Hx by lia.
  rewrite Z.pow_add_r in Hx by lia. pose proof (pow2_pos (7 * Z.of_nat fuel) ltac:(lia)).
  change (2 ^ 7) with 128 in *. split; [apply Z.div_le_lower_bound | apply Z.div_lt_upper_bound]; lia.
Qed.

Lemma leb_range_end (x : Z) : leb_range 0 x -> (x <? -0x40) || (0x40 <=? x) = false.
Proof. intros [_ Hx]. simpl in Hx. bool_cases. Qed.

(** The two forms of a byte: seven bits with the flag, and the last seven bits *)
Lemma leb_byte_more (x : Z) : wrap 8 (Z.land (wrap 64 x) 0x7F + 0x80) = wrap 7 x + 0x80.
Proof.
  change 0x7F with (Z.ones 7). rewrite land_ones_wrap, wrap_wrap_le by lia.
  pose proof (wrap_range 7 x ltac:(lia)). apply wrap_small. lia.
Qed.

Lemma leb_byte_last (x : Z) : wrap 8 (Z.land (wrap 64 x) 0x7F) = wrap 7 x.
Proof.
  change 0x7F with (Z.ones 7). rewrite land_ones_wrap, (wrap_wrap_le 7) by lia.
  pose proof (wrap_range 7 x ltac:(lia)). apply wrap_small. lia.
Qed.

(** The reader's sign extension of the last byte *)
Lemma leb_sign (x : Z) :
  -0x40 <= x < 0x40 -> Z.land (wrap 7 x) 0x3F - Z.land (wrap 7 x) 0x40 = x.
Proof.
  intros Hx. unfold wrap. change (2 ^ 7) with 128.
  assert (Hall : forallb (fun v => Z.land (v mod 128) 0x3F - Z.land (v mod 128) 0x40 =? v)
                   (seqZ (-64) 128) = true) by reflexivity.
  rewrite forallb_forall in Hall. apply Z.eqb_eq, Hall.
  rewrite <- list_elem_of_In, elem_of_seqZ. lia.
Qed.

(** The reader's accumulation of a byte *)
Lemma swrap_add_l (x y : Z) : swrap 64 (swrap 64 x + y) = swrap 64 (x + y).
Proof.
  rewrite <- (swrap_wrap 64 (swrap 64 x + y)), <- (swrap_wrap 64 (x + y)) by lia.
  by rewrite <- (wrap_add_l 64 (swrap 64 x)), swrap_congr, wrap_add_l by lia.
Qed.

Lemma shl_mult (x n : Z) : 0 <= n < 64 -> shl 64 (wrap 64 x) n = wrap 64 (x * 2 ^ n).
Proof.
  intros Hn. unfold shl. rewrite Z.mod_small, Z.shiftl_mul_pow2 by lia. apply wrap_mul_l.
Qed.

Lemma leb_accumulate (b x y n : Z) :
  0 <= n < 64 -> wrap 64 b = wrap 64 x ->
  swrap 64 (wrap 64 (wrap 64 y + shl 64 (wrap 64 b) n)) = swrap 64 (y + x * 2 ^ n).
Proof.
  intros Hn ->. rewrite shl_mult, wrap_add_l, wrap_add_r, swrap_wrap by lia. done.
Qed.

Lemma leb_split (x n : Z) : 0 <= n -> wrap 7 x * 2 ^ n + Z.shiftr x 7 * 2 ^ (n + 7) = x * 2 ^ n.
Proof.
  intros Hn. rewrite Z.shiftr_div_pow2, Z.pow_add_r by lia. unfold wrap.
  pose proof (Z.div_mod x (2 ^ 7) ltac:(lia)). nia.
Qed.

Lemma leb_nonempty (fuel : nat) (x : Z) : leb_range fuel x -> (0 < length (leb fuel x))%nat.
Proof.
  intros Hx. destruct fuel; simpl; [rewrite (leb_range_end x Hx) | destruct (_ || _)]; simpl; lia.
Qed.

Section Leb.
Context {E I : Type} `{Marks E}.

Lemma WriteNum_loop_leb (fuel : nat) (x : Z) (e : Exp E) :
  leb_range fuel x -> WriteNum_loop fuel x e = Ret (tt, set_buf (e_buf e ++ leb fuel x) e).
Proof.
  revert x e. induction fuel as [|fuel IH]; intros x e Hx; simpl.
  - by rewrite (leb_range_end x Hx).
  - destruct (_ || _) eqn:Hc; [|done].
    unfold mbind, st_bind. simpl. rewrite IH by by apply leb_range_step.
    unfold set_buf; simpl. by rewrite <- app_assoc.
Qed.

Lemma Read_cons (i : Imp I) b rest :
  remaining i = b :: rest ->
  Read i = Ret (b, set_bufI (Datatypes.S (bufI i)) i) /\
  remaining (set_bufI (Datatypes.S (bufI i)) i) = rest.
Proof. intros Hr. destruct (remaining_cons _ _ _ Hr) as [Hb ?]. unfold Read. by rewrite Hb. Qed.

Lemma ReadNum_last (rf : nat) (x n y : Z) (i : Imp I) :
  -0x40 <= x < 0x40 -> 0 <= n < 64 ->
  ReadNum_loop rf n y (wrap 7 x) i = Ret (swrap 64 (y + x * 2 ^ n), i).
Proof.
  intros Hx Hn. pose proof (wrap_range 7 x ltac:(lia)) as Hr.
  assert (Hlt : (0x80 <=? wrap 7 x) = false) by (apply Z.leb_gt; lia).
  destruct rf; simpl; rewrite Hlt, leb_sign by done; by rewrite (leb_accumulate _ x).
Qed.

Lemma ReadNum_loop_leb (fuel rf : nat) (x n y : Z) (i : Imp I) (rest : list Z) :
  leb_range fuel x -> n + 7 * Z.of_nat fuel = 63 -> 0 <= n ->
  remaining i = leb fuel x ++ rest -> (length (leb fuel x) <= Datatypes.S rf)%nat ->
  exists k, (b ← Read; ReadNum_loop rf n y b) i = Ret (swrap 64 (y + x * 2 ^ n), set_bufI k i) /\
    remaining (set_bufI k i) = rest.
Proof.
  revert rf x n y i. induction fuel as [|fuel IH]; intros rf x n y i Hx Hn Hn0 Hrem Hlen;
    simpl in Hrem, Hlen.
  - pose proof (leb_range_end x Hx) as Hc. rewrite Hc, leb_byte_last in Hrem. simpl in Hrem.
    apply orb_false_elim in Hc as [?%Z.ltb_ge ?%Z.leb_gt].
    destruct (Read_cons _ _ _ Hrem) as [HR Hrem']. eexists. split; [|exact Hrem'].
    unfold mbind, st_bind. rewrite HR. apply ReadNum_last; lia.
  - destruct (_ || _) eqn:Hc.
    + rewrite leb_byte_more in Hrem. simpl in Hrem, Hlen.
      destruct (Read_cons _ _ _ Hrem) as [HR Hrem'].
      pose proof (leb_range_step _ _ Hx) as Hx'. pose proof (wrap_range 7 x ltac:(lia)) as Hr.
      destruct rf as [|rf].
      { pose proof (leb_nonempty fuel _ Hx'). lia. }
      destruct (IH rf _ (n + 7) (swrap 64 (y + wrap 7 x * 2 ^ n)) _ Hx' ltac:(lia) ltac:(lia) Hrem' ltac:(lia))
        as (k & Hrun & Hk).
      exists k. split; [|exact Hk]. unfold mbind, st_bind in *. rewrite HR. simpl.
      replace (0x80 <=? wrap 7 x + 0x80) with true by (symmetry; apply Z.leb_le; lia).
      rewrite Z.add_simpl_r, (wrap_small 64 (n + 7)) by lia.
      replace (shl 64 (wrap 7 x) n) with (shl 64 (wrap 64 (wrap 7 x)) n) by (rewrite (wrap_small 64); done || lia).
      rewrite (leb_accumulate _ (wrap 7 x)) by (done || lia). unfold mbind, st_bind.
      rewrite Hrun, swrap_add_l, <- Z.add_assoc, leb_split by done. done.
    + rewrite leb_byte_last in Hrem. simpl in Hrem.
      apply orb_false_elim in Hc as [?%Z.ltb_ge ?%Z.leb_gt].
      destruct (Read_cons _ _ _ Hrem) as [HR Hrem']. eexists. split; [|exact Hrem'].
      unfold mbind, st_bind. rewrite HR. apply ReadNum_last; lia.
Qed.
End Leb.

(** ** The rules of the primitives *)

Definition int64 (x : Z) : Prop := - 2 ^ 63 <= x < 2 ^ 63.

Lemma bytes_of_word (u : Z) :
  0 <= u < 2 ^ 32 ->
  let b k := wrap 8 (Z.land (shr 32 u k) 0xFF) in
  wrap 32 (shl 32 (wrap 32 (shl 32 (wrap 32 (shl 32 (b 24) 8 + b 16)) 8 + b 8)) 8 + b 0) = u.
Proof.
  intros Hu b.
  assert (Hb : forall k, 0 <= k < 32 -> b k = u / 2 ^ k mod 256).
  { intros k Hk. unfold b, shr. change 0xFF with (Z.ones 8).
    rewrite land_ones_wrap, (wrap_wrap 8), (Z.mod_small k), Z.shiftr_div_pow2 by lia. done. }
  assert (Hs : forall v, shl 32 v 8 = wrap 32 (v * 256)).
  { intros v. unfold shl. by rewrite Z.mod_small, Z.shiftl_mul_pow2 by lia. }
  rewrite !Hb, !Hs by lia. clear Hb Hs b.
  change (2 ^ 24) with (256 * (256 * 256)). change (2 ^ 16) with (256 * 256).
  change (2 ^ 8) with 256. rewrite Z.pow_0_r, Z.div_1_r, <- !Z.div_div by lia.
  pose proof (Z.div_mod u 256 ltac:(lia)).
  pose proof (Z.div_mod (u / 256) 256 ltac:(lia)).
  pose proof (Z.div_mod (u / 256 / 256) 256 ltac:(lia)).
  assert (u / 256 / 256 / 256 mod 256 = u / 256 / 256 / 256) as ->.
  { apply Z.mod_small. rewrite !Z.div_div by lia. split; [apply Z.div_pos; lia|].
    apply Z.div_lt_upper_bound; lia. }
  pose proof (Z.mod_pos_bound u 256 ltac:(lia)).
  pose proof (Z.mod_pos_bound (u / 256) 256 ltac:(lia)).
  pose proof (Z.mod_pos_bound (u / 256 / 256) 256 ltac:(lia)).
  repeat first [rewrite wrap_wrap by lia | rewrite wrap_add_l | rewrite wrap_mul_l].
  do 3 (match goal with |- context [wrap 32 ?v] =>
    lazymatch v with context [wrap] => fail | _ => rewrite (wrap_small 32 v) by lia end end).
  lia.
Qed.

(** What the writer of numbers appends, at most ten bytes *)
Lemma WriteNum_run {E : Type} (x : Z) (e : Exp E) :
  int64 x -> WriteNum x e = Ret (tt, set_buf (e_buf e ++ leb 9 x) e).
Proof. intros Hx. apply WriteNum_loop_leb, leb_range_start. exact Hx. Qed.


Lemma leb_length (fuel : nat) (x : Z) : (length (leb fuel x) <= Datatypes.S fuel)%nat.
Proof.
  revert x. induction fuel as [|fuel IH]; intros x; simpl; destruct (_ || _); simpl; try lia.
  pose proof (IH (Z.shiftr x 7)). lia.
Qed.

Lemma leb_bytes (fuel : nat) (x : Z) : Forall (fun b => 0 <= b < 256) (leb fuel x).
Proof.
  revert x. induction fuel as [|fuel IH]; intros x; simpl; destruct (_ || _); repeat constructor;
    try apply (wrap_range 8); try lia. apply IH.
Qed.

#[global] Opaque leb.

Lemma ReadNum_run {I : Type} (x : Z) (i : Imp I) (rest : list Z) :
  int64 x -> remaining i = leb 9 x ++ rest ->
  exists k, ReadNum i = Ret (x, set_bufI k i) /\ remaining (set_bufI k i) = rest.
Proof.
  intros Hx Hrem. pose proof (leb_length 9 x) as Hl.
  assert (Hle : (length (leb 9 x ++ rest) <= length (buf i))%nat).
  { rewrite <- Hrem. unfold remaining. rewrite length_drop. lia. }
  rewrite length_app in Hle.
  pose proof (ReadNum_loop_leb 9 (length (buf i)) x 0 0 i rest (leb_range_start x Hx) eq_refl
    (Z.le_refl 0)) as HR.
  revert Hrem Hl Hle HR. generalize (leb 9 x) as bs. intros bs Hrem Hl Hle HR.
  destruct (HR Hrem ltac:(lia)) as (k & Hread & Hk).
  exists k. split; [|done]. unfold ReadNum, mbind, st_bind, gets in *. rewrite Hread.
  rewrite Z.mul_1_r, Z.add_0_l, swrap_small by (unfold int64 in *; lia). done.
Qed.

Section Primitives.
Context {E I : Type} `{Marks E}.
Implicit Types (P : Exp E -> Imp I -> Prop).

Lemma sim_num P x :
  stable P -> int64 x -> sim P (WriteNum x) ReadNum (fun _ y e i => y = x /\ P e i).
Proof.
  intros HP Hx e i a e' rest Pe Hrun Hsm Hrest.
  rewrite WriteNum_run in Hrun by done. pose proof (ReadNum_run x i rest Hx) as HR.
  revert Hrun HR. generalize (leb 9 x) as bs. intros bs [= _ <-] HR.
  unfold written in Hrest. simpl in Hrest. rewrite drop_app_length in Hrest.
  destruct (HR Hrest) as (k & Hread & Hrem).
  exists x, (set_bufI k i). split_and!; [done|done|done|by apply HP].
Qed.

Lemma sim_num_bind {A B} P x (k : unit -> ST (Exp E) A) (l : Z -> ST (Imp I) B) Q :
  stable P -> int64 x -> (forall a, Grows (k a)) -> sim P (k tt) (l x) Q ->
  sim P (WriteNum x ≫= k) (ReadNum ≫= l) Q.
Proof.
  intros HP Hx Hk Hs. eapply sim_bind; [apply _ | done | by apply sim_num |].
  intros [] y e i a e' rest [-> Pe]. by apply Hs.
Qed.

Lemma sim_byte_bind {A B} P b (k : unit -> ST (Exp E) A) (l : Z -> ST (Imp I) B) Q :
  stable P -> (forall a, Grows (k a)) -> sim P (k tt) (l b) Q ->
  sim P (Write b ≫= k) (Read ≫= l) Q.
Proof.
  intros HP Hk Hs. eapply sim_bind; [apply _ | done | by apply sim_byte |].
  intros [] y e i a e' rest [-> Pe]. by apply Hs.
Qed.

Lemma sim_int P x :
  stable P -> sim P (WriteInt x) ReadInt (fun _ y e i => y = swrap 32 x /\ P e i).
Proof.
  intros HP. unfold WriteInt, ReadInt.
  do 3 (apply sim_byte_bind; [done | apply _ |]).
  pose proof (wrap_range 32 x ltac:(lia)) as Hx.
  pose proof (bytes_of_word (wrap 32 x) Hx) as Hw. simpl in Hw.
  intros e i a e' rest Pe Hrun Hsm Hrest.
  destruct (sim_byte P _ HP e i a e' rest Pe Hrun Hsm Hrest) as (b & i' & Hr & Hrem & -> & Pe').
  eexists _, i'. unfold mbind, st_bind. rewrite Hr. split_and!; [done|done| |done].
  replace (shr 32 (wrap 32 x) 0) with (wrap 32 x) in Hw by (unfold shr; by rewrite Z.mod_0_l, Z.shiftr_0_r).
  rewrite Hw. apply swrap_wrap. lia.
Qed.

Lemma sim_int_bind {A B} P x (k : unit -> ST (Exp E) A) (l : Z -> ST (Imp I) B) Q :
  stable P -> (forall a, Grows (k a)) -> sim P (k tt) (l (swrap 32 x)) Q ->
  sim P (WriteInt x ≫= k) (ReadInt ≫= l) Q.
Proof.
  intros HP Hk Hs. eapply sim_bind; [apply _ | done | by apply sim_int |].
  intros [] y e i a e' rest [-> Pe]. by apply Hs.
Qed.

(** Elements of a vector, under an invariant [J w] of a state [w] that grows *)
Lemma sim_each {W A B} (le : W -> W -> Prop) `{!PreOrder le} (J : W -> Exp E -> Imp I -> Prop)
    (rel : W -> A -> B -> Prop) (f : A -> ST (Exp E) unit) (r : ST (Imp I) B) (l : list A) (w : W) :
  (forall w w' x y, le w w' -> rel w x y -> rel w' x y) ->
  (forall x, Grows (f x)) ->
  (forall x w, x ∈ l -> sim (J w) (f x) r (fun _ y e i => exists w', le w w' /\ J w' e i /\ rel w' x y)) ->
  sim (J w) (each f l) (times (length l) r)
    (fun _ ys e i => exists w', le w w' /\ J w' e i /\ Forall2 (rel w') l ys).
Proof.
  intros Hmono Hg. revert w. induction l as [|x l IH]; intros w Hf; simpl.
  - apply sim_ret. intros e i HJ. exists w. done.
  - eapply sim_bind; [apply _ | apply _ | apply Hf; left |]. intros [] y. simpl.
    intros e i a e' rest (w1 & Hw1 & HJ1 & Hr1).
    revert e i a e' rest HJ1.
    assert (Hl : sim (J w1) (each f l ≫= mret) (times (length l) r ≫= fun l => mret (y :: l))
      (fun _ ys e i => exists w', le w w' /\ J w' e i /\ Forall2 (rel w') (x :: l) ys)).
    + eapply sim_bind; [apply _ | apply _ | apply IH; intros; apply Hf; by right |].
      intros [] ys. apply sim_ret. intros e i (w2 & Hw2 & HJ2 & Hr2).
      exists w2. split_and!; [by etrans | done |]. constructor; [by eapply Hmono | done].
    + intros e i a e' rest HJ1 Hrun. apply (Hl e i a e' rest HJ1).
      unfold mbind, st_bind. by rewrite Hrun.
Qed.

Lemma sim_each_pure {A B} P (g : A -> B) (f : A -> ST (Exp E) unit) (r : ST (Imp I) B) (l : list A) :
  (forall x, Grows (f x)) ->
  (forall x, x ∈ l -> sim P (f x) r (fun _ y e i => y = g x /\ P e i)) ->
  sim P (each f l) (times (length l) r) (fun _ ys e i => ys = map g l /\ P e i).
Proof.
  intros Hg Hf.
  eapply sim_conseq; [done | | apply (sim_each (fun _ _ : unit => True) (fun _ => P) (fun _ x y => y = g x) f r l tt); [done|done|]].
  - intros a ys e i (_ & _ & HP & Hall). split; [|done].
    induction Hall as [|x y l ys -> _ IH]; simpl; [done | f_equal; apply IH].
    intros z Hz. apply Hf. by right.
  - intros x _ Hx. eapply sim_conseq; [done | | by apply Hf]. intros a y e i [-> HP]. by exists tt.
Qed.
End Primitives.

Lemma sim_num_last {E I B : Type} `{Marks E} (P : Exp E -> Imp I -> Prop) x (l : Z -> ST (Imp I) B) Q :
  stable P -> int64 x -> sim P (mret tt) (l x) Q -> sim P (WriteNum x) (ReadNum ≫= l) Q.
Proof.
  intros HP Hx Hs. eapply sim_then; [by apply sim_num|].
  intros [] y e i a e' rest [-> Pe]. by apply Hs.
Qed.

(** A string of bytes that fits into memory *)
Definition byte_string (s : list Z) : Prop :=
  Forall (fun c => 0 <= c < 256) s /\ Z.of_nat (length s) < 2 ^ 62.

Lemma sim_str {E I : Type} `{Marks E} (P : Exp E -> Imp I -> Prop) (s : list Z) :
  stable P -> byte_string s ->
  sim P (WriteAsciiStr s) ReadAsciiStr (fun _ t e i => t = s /\ P e i).
Proof.
  intros HP [Hb Hl]. unfold WriteAsciiStr, ReadAsciiStr. rewrite swrap_small by lia.
  apply sim_num_bind; [done | unfold int64; lia | apply _ |]. rewrite Nat2Z.id.
  eapply sim_conseq; [done | | apply (sim_each_pure P id)].
  - intros a t e i. by rewrite map_id.
  - apply _.
  - intros c Hc. rewrite wrap_small; [by apply sim_byte|].
    rewrite Forall_forall in Hb. by apply Hb.
Qed.

(** What the writer of strings appends *)
Lemma each_Write_run {E : Type} (s : list Z) (e : Exp E) :
  each (fun c => Write (wrap 8 c)) s e = Ret (tt, set_buf (e_buf e ++ map (wrap 8) s) e).
Proof.
  revert e. induction s as [|c s IH]; intros e; simpl.
  - rewrite app_nil_r. by destruct e.
  - unfold mbind, st_bind, Write, update. rewrite IH. unfold set_buf; simpl. by rewrite <- app_assoc.
Qed.

Lemma WriteAsciiStr_run {E : Type} (s : list Z) (e : Exp E) :
  WriteAsciiStr s e =
  Ret (tt, set_buf (e_buf e ++ leb 9 (swrap 64 (Z.of_nat (length s))) ++ map (wrap 8) s) e).
Proof.
  unfold WriteAsciiStr, mbind, st_bind. rewrite WriteNum_run by exact (swrap_range 64 _ ltac:(lia)).
  rewrite each_Write_run. unfold set_buf; simpl. by rewrite <- app_assoc.
Qed.

(** C29: a 64-bit number survives the trip: WriteNum appends at least one and at
    most ten bytes, and ReadNum, where it meets these bytes, returns the number and
    moves just past them, whatever surrounds them. *)
Theorem num_roundtrip {E I : Type} (x : Z) (e : Exp E) (i : Imp I) (rest : list Z) :
  int64 x ->
  exists bytes,
    WriteNum x e = Ret (tt, set_buf (e_buf e ++ bytes) e) /\
    (1 <= length bytes <= 10)%nat /\ Forall (fun b => 0 <= b < 256) bytes /\
    (remaining i = bytes ++ rest ->
     exists k, ReadNum i = Ret (x, set_bufI k i) /\ remaining (set_bufI k i) = rest).
Proof.
  intros Hx. exists (leb 9 x). pose proof (leb_nonempty 9 x (leb_range_start x Hx)).
  pose proof (leb_length 9 x). split_and!; [exact (WriteNum_run x e Hx) | lia | lia | apply leb_bytes |].
  intros Hrem. by apply ReadNum_run.
Qed.

(** A number and the bytes of the exporter, read back by themselves *)
Lemma sim_run {E I A B : Type} `{Marks E} (P : Exp E -> Imp I -> Prop) (w : ST (Exp E) A)
    (r : ST (Imp I) B) Q (e : Exp E) (i : Imp I) (a : A) (e' : Exp E) :
  sim P w r Q -> P e i -> w e = Ret (a, e') -> small e' -> remaining i = written e e' ->
  wp (r i) (fun out => remaining (snd out) = [] /\ Q a (fst out) e' (snd out)).
Proof.
  intros Hs HP Hrun Hsm Hrem.
  destruct (Hs e i a e' [] HP Hrun Hsm) as (b & i' & -> & Hrest & HQ); [by rewrite app_nil_r|].
  done.
Qed.
