(* ===== verification/BinStrings.v ===== *)
(** * The binary form of MapleIR: strings

    StringTable of maple_ir/include/global_tables.h, and OutputStr, OutputUsrStr,
    ImportStr and ImportUsrStr of bin_mpl_export.cpp and bin_mpl_import.cpp.  A
    string is written once; later uses write the negated mark it got, that is the
    position at which the importer has pushed the index of the string.  The two
    tables of strings (GStrIdx and UStrIdx) have the same code on different
    members, which [StrKind] selects. *)
From S2P Require Import BinCodec.

(** ** StringTable *)

Definition GetStrIdxFromName (T : StringTable) (str : list Z) : Z :=
  default 0 (stringTableMap T !! str).

Definition GetOrCreateStrIdxFromName (T : StringTable) (str : list Z) : Z * StringTable :=
  let strIdx := GetStrIdxFromName T str in
  if strIdx =? 0 then
    let strIdx := wrap 32 (Z.of_nat (length (stringTable T))) in
    (strIdx, MkStringTable (stringTable T ++ [str]) (<[str := strIdx]> (stringTableMap T)))
  else (strIdx, T).

Definition GetStringFromStrIdx (T : StringTable) (strIdx : Z) : res (list Z) :=
  _ ← ASSERT (strIdx <? Z.of_nat (length (stringTable T)));
  match stringTable T !! Z.to_nat strIdx with
  | Some s => Ret s
  | None => Fault OutOfBounds
  end.

(** ** The members for a kind of string *)

Inductive StrKind : Set := GStr | UStr.

Section Members.
Context {E I : Type}.

Definition strMark (k : StrKind) (e : Exp E) : gmap Z Z :=
  match k with GStr => gStrMark e | UStr => uStrMark e end.

Definition set_strMark (k : StrKind) (m : gmap Z Z) (e : Exp E) : Exp E :=
  match k with
  | GStr => MkExp (e_buf e) m (uStrMark e) (e_ext e)
  | UStr => MkExp (e_buf e) (gStrMark e) m (e_ext e)
  end.

Definition strTab (k : StrKind) (i : Imp I) : list Z :=
  match k with GStr => gStrTab i | UStr => uStrTab i end.

Definition push_strTab (k : StrKind) (idx : Z) (i : Imp I) : Imp I :=
  match k with
  | GStr => MkImp (buf i) (bufI i) (gStrTab i ++ [idx]) (uStrTab i) (StrTable i) (UStrTable i) (i_ext i)
  | UStr => MkImp (buf i) (bufI i) (gStrTab i) (uStrTab i ++ [idx]) (StrTable i) (UStrTable i) (i_ext i)
  end.

Definition globalStr (k : StrKind) (i : Imp I) : StringTable :=
  match k with GStr => StrTable i | UStr => UStrTable i end.

Definition set_globalStr (k : StrKind) (T : StringTable) (i : Imp I) : Imp I :=
  match k with
  | GStr => MkImp (buf i) (bufI i) (gStrTab i) (uStrTab i) T (UStrTable i) (i_ext i)
  | UStr => MkImp (buf i) (bufI i) (gStrTab i) (uStrTab i) (StrTable i) T (i_ext i)
  end.

(** ** Writing and reading a string *)

(** [T] is the table of the exporting compiler. *)
Definition OutputStrOf (k : StrKind) (T : StringTable) (str : Z) : ST (Exp E) unit :=
  if str =? 0 then WriteNum 0
  else
    m ← gets (strMark k);
    match m !! str with
    | Some it => WriteNum (swrap 64 (- it))
    | None =>
        let mark := size m in
        _ ← update (set_strMark k (<[str := swrap 64 (Z.of_nat mark)]> m));
        _ ← WriteNum (match k with GStr => kBinString | UStr => kBinUsrString end);
        s ← lift (GetStringFromStrIdx T str);
        WriteAsciiStr s
    end.

Definition ImportStrOf (k : StrKind) : ST (Imp I) Z :=
  tag ← ReadNum;
  if tag =? 0 then mret 0
  else if tag <? 0 then
    tab ← gets (strTab k);
    _ ← lift (CHECK_FATAL (swrap 64 (- tag) <? Z.of_nat (length tab)));
    lift (rd tab (Z.to_nat (wrap 64 (- tag))))
  else
    _ ← lift (CHECK_FATAL (tag =? match k with GStr => kBinString | UStr => kBinUsrString end));
    str ← ReadAsciiStr;
    T ← gets (globalStr k);
    let (strIdx, T') := GetOrCreateStrIdxFromName T str in
    _ ← update (set_globalStr k T');
    _ ← update (push_strTab k strIdx);
    mret strIdx.

Definition OutputStr (T : StringTable) (gstr : Z) : ST (Exp E) unit := OutputStrOf GStr T gstr.
Definition OutputUsrStr (T : StringTable) (ustr : Z) : ST (Exp E) unit := OutputStrOf UStr T ustr.
Definition ImportStr : ST (Imp I) Z := ImportStrOf GStr.
Definition ImportUsrStr : ST (Imp I) Z := ImportStrOf UStr.
End Members.

(** ** Tables *)

(** Index 0 is the empty string of no name; the map finds the others. *)
Definition wf_table (T : StringTable) : Prop :=
  (0 < length (stringTable T))%nat /\
  forall s i, stringTableMap T !! s = Some i -> 0 < i /\ stringTable T !! Z.to_nat i = Some s.

Lemma GetOrCreateStrIdxFromName_spec (T T' : StringTable) (s : list Z) (i : Z) :
  wf_table T -> Z.of_nat (length (stringTable T)) < 2 ^ 32 ->
  GetOrCreateStrIdxFromName T s = (i, T') ->
  0 < i /\ stringTable T' !! Z.to_nat i = Some s /\ stringTable T `prefix_of` stringTable T' /\
  wf_table T' /\ (length (stringTable T') <= Datatypes.S (length (stringTable T)))%nat.
Proof.
  intros [H0 Hmap] Hlen. unfold GetOrCreateStrIdxFromName, GetStrIdxFromName.
  destruct (stringTableMap T !! s) as [j|] eqn:Hs; simpl.
  - destruct (Hmap s j Hs) as [Hj HTj]. replace (j =? 0) with false by (symmetry; apply Z.eqb_neq; lia).
    intros [= <- <-]. split_and!; [done | done | done | done | lia].
  - rewrite wrap_small by lia. intros [= <- <-]. simpl. rewrite Nat2Z.id.
    assert (Hnew : (stringTable T ++ [s]) !! length (stringTable T) = Some s).
    { by rewrite lookup_app_r, Nat.sub_diag by lia. }
    split_and!; [lia | done | by apply prefix_app_r | | rewrite length_app; simpl; lia].
    split; simpl; [rewrite length_app; simpl; lia|]. intros s' i'.
    rewrite lookup_insert_Some. intros [[<- <-]|[_ [Hi HT]%Hmap]].
    + rewrite Nat2Z.id. split; [lia | done].
    + split; [done|]. by apply lookup_app_l_Some.
Qed.

(** ** What exporter and importer know of each other *)

(** The strings written so far: the exporter's index and the importer's *)
Record SW : Type := MkSW { g_pairs : list (Z * Z); u_pairs : list (Z * Z) }.

Definition pairs (k : StrKind) (w : SW) : list (Z * Z) :=
  match k with GStr => g_pairs w | UStr => u_pairs w end.

Definition push_pair (k : StrKind) (p : Z * Z) (w : SW) : SW :=
  match k with
  | GStr => MkSW (g_pairs w ++ [p]) (u_pairs w)
  | UStr => MkSW (g_pairs w) (u_pairs w ++ [p])
  end.

Definition sw_le (w w' : SW) : Prop := forall k, pairs k w `prefix_of` pairs k w'.

#[export] Instance sw_le_preorder : PreOrder sw_le.
Proof. split; [by intros w k | intros w1 w2 w3 H1 H2 k; exact (transitivity (H1 k) (H2 k))]. Qed.

Lemma sw_le_push k p w : sw_le w (push_pair k p w).
Proof. intros k'. destruct k, k'; simpl; first [reflexivity | by apply prefix_app_r]. Qed.

(** Two indices name the same string. *)
Definition same_string (T T' : StringTable) (p : Z * Z) : Prop :=
  p = (0, 0) \/
  0 < p.1 /\ 0 < p.2 /\
  exists s, stringTable T !! Z.to_nat p.1 = Some s /\ stringTable T' !! Z.to_nat p.2 = Some s.

Record strings_match (T : StringTable) (m : gmap Z Z) (l : list (Z * Z)) (tab : list Z)
    (T' : StringTable) : Prop := {
  sm_tab : tab = map snd l;
  sm_size : size m = length l;
  sm_zero : l !! 0%nat = Some (0, 0);
  sm_mark : forall g v, m !! g = Some v -> 0 <= v /\ exists g', l !! Z.to_nat v = Some (g, g');
  sm_wf : wf_table T';
  sm_room : Z.of_nat (length (stringTable T')) < 2 ^ 31 + Z.of_nat (length l);
  sm_same : Forall (same_string T T') l
}.

Definition good_table (T : StringTable) : Prop := Forall byte_string (stringTable T).

Lemma same_string_grows (T T1 T2 : StringTable) (p : Z * Z) :
  stringTable T1 `prefix_of` stringTable T2 -> same_string T T1 p -> same_string T T2 p.
Proof.
  intros Hp [->|(H1 & H2 & s & Hs1 & Hs2)]; [by left | right].
  split_and!; [done|done|]. exists s. split; [done|]. by eapply prefix_lookup_Some.
Qed.

(** A new string, on both sides *)
Lemma strings_match_push (T T' T2 : StringTable) m l tab g i s :
  strings_match T m l tab T' -> m !! g = None -> 0 < g ->
  Z.of_nat (length l) < 2 ^ 31 -> stringTable T !! Z.to_nat g = Some s ->
  GetOrCreateStrIdxFromName T' s = (i, T2) ->
  strings_match T (<[g := Z.of_nat (length l)]> m) (l ++ [(g, i)]) (tab ++ [i]) T2.
Proof.
  intros [Htab Hsize H0 Hmark Hwf Hroom Hsame] Hg Hpos Hl Hs Hcreate.
  destruct (GetOrCreateStrIdxFromName_spec T' T2 s i Hwf ltac:(lia) Hcreate) as (Hi & Hs2 & Hp & Hwf2 & Hlen).
  constructor.
  - by rewrite Htab, map_app.
  - rewrite map_size_insert_None, Hsize, length_app by done. simpl. lia.
  - by apply lookup_app_l_Some.
  - intros g' v. rewrite lookup_insert_Some. intros [[<- <-]|[_ [Hv (g2 & Hl2)]%Hmark]].
    + rewrite Nat2Z.id. split; [lia|]. exists i. by rewrite lookup_app_r, Nat.sub_diag by lia.
    + split; [done|]. exists g2. by apply lookup_app_l_Some.
  - done.
  - rewrite length_app. simpl. lia.
  - apply Forall_app. split.
    + eapply Forall_impl; [exact Hsame|]. intros p. by apply same_string_grows.
    + constructor; [|done]. right. simpl. eauto 6.
Qed.

(** ** The string that is read is the string that was written *)

Section Strings.
Context {E I : Type} `{Marks E} (T : StrKind -> StringTable).
Hypothesis good : forall k, good_table (T k).
Implicit Types (F : E -> I -> Prop) (w : SW).

Definition SInv w (e : Exp E) (i : Imp I) : Prop :=
  forall k, strings_match (T k) (strMark k e) (pairs k w) (strTab k i) (globalStr k i).

Definition with_ext F w (e : Exp E) (i : Imp I) : Prop := SInv w e i /\ F (e_ext e) (i_ext i).

Lemma with_ext_stable F w : stable (with_ext F w).
Proof. intros e i b n [HS HF]. split; [|done]. intros k. destruct k; [apply (HS GStr) | apply (HS UStr)]. Qed.

#[export] Instance grows_OutputStrOf k (U : StringTable) g : Grows (E := E) (OutputStrOf k U g).
Proof.
  unfold OutputStrOf. destruct (g =? 0); [apply _|].
  apply grows_gets_bind. intros e a e'.
  destruct (strMark k e !! g) eqn:Hg; [apply grows_WriteNum|].
  apply grows_update_bind; [apply _ | by destruct k |].
  unfold mark_count. destruct k; simpl in *; rewrite map_size_insert_None by done; lia.
Qed.

(** The exporter has marked [g], the importer has not yet pushed it. *)
Definition half_marked (k : StrKind) (g : Z) F w (e : Exp E) (i : Imp I) : Prop :=
  exists m, strMark k e = <[g := Z.of_nat (length (pairs k w))]> m /\ m !! g = None /\
    with_ext F w (set_strMark k m e) i.

Lemma half_marked_stable k g F w : stable (half_marked k g F w).
Proof.
  intros e i b n (m & Hm & Hg & HP). exists m. split_and!; [by destruct k | done |].
  destruct k; [apply (with_ext_stable F w (set_strMark GStr m e) i b n HP)
    | apply (with_ext_stable F w (set_strMark UStr m e) i b n HP)].
Qed.

Lemma half_marked_push k g F w s :
  0 < g -> Z.of_nat (length (pairs k w)) < 2 ^ 31 -> stringTable (T k) !! Z.to_nat g = Some s ->
  sim (half_marked k g F w) (mret tt)
    (U ← gets (globalStr k);
     let (strIdx, U') := GetOrCreateStrIdxFromName U s in
     _ ← update (set_globalStr k U');
     _ ← update (push_strTab k strIdx);
     mret strIdx)
    (fun _ g' e i => exists w', sw_le w w' /\ with_ext F w' e i /\ (g, g') ∈ pairs k w').
Proof.
  intros Hg Hl Hs e i a e' rest (m & Hm & Hmg & HS & HF) [= <- <-] _ Hrest.
  unfold mbind, st_bind, gets, update, mret, st_ret.
  destruct (GetOrCreateStrIdxFromName (globalStr k i) s) as [j U] eqn:Hc.
  eexists j, _. split; [reflexivity|].
  rewrite written_self in Hrest. split; [by destruct k|].
  exists (push_pair k (g, j) w). split_and!.
  - apply sw_le_push.
  - split; [|by destruct k]. intros k'. specialize (HS k') as HS'.
    pose proof (HS k) as HSk.
    destruct k, k'; simpl in *; try exact HS'; rewrite Hm; by eapply strings_match_push.
  - destruct k; simpl; apply elem_of_app; right; by left.
Qed.

Lemma pairs_few k F w e i : with_ext F w e i -> small e -> Z.of_nat (length (pairs k w)) < 2 ^ 31.
Proof.
  intros [HS _] Hsm. rewrite <- (sm_size _ _ _ _ _ (HS k)).
  unfold small, mark_count in Hsm. destruct k; simpl; lia.
Qed.

(** The mark of a string that has been written *)
Lemma marked_string k F w e i g v :
  with_ext F w e i -> strMark k e !! g = Some v -> g <> 0 ->
  Z.of_nat (length (pairs k w)) < 2 ^ 31 ->
  0 < v < 2 ^ 31 /\ exists g', pairs k w !! Z.to_nat v = Some (g, g').
Proof.
  intros [HS _] Hm Hg Hfew. destruct (sm_mark _ _ _ _ _ (HS k) g v Hm) as [Hv (g' & Hl)].
  pose proof (lookup_lt_Some _ _ _ Hl) as Hlt.
  assert (v <> 0).
  { intros ->. rewrite (sm_zero _ _ _ _ _ (HS k) : pairs k w !! Z.to_nat 0 = _) in Hl.
    by injection Hl as ? _. }
  split; [lia | by exists g'].
Qed.

(** The importer follows a mark. *)
Lemma follow_mark k F w g v g' :
  0 < v < 2 ^ 31 -> pairs k w !! Z.to_nat v = Some (g, g') ->
  sim (with_ext F w) (mret tt)
    (tab ← gets (strTab k);
     _ ← lift (CHECK_FATAL (swrap 64 (- - v) <? Z.of_nat (length tab)));
     lift (rd tab (Z.to_nat (wrap 64 (- - v)))))
    (fun _ h e i => exists w', sw_le w w' /\ with_ext F w' e i /\ (g, h) ∈ pairs k w').
Proof.
  intros Hv Hl e i a e' rest HP [= <- <-] _ Hrest. rewrite written_self in Hrest.
  pose proof (lookup_lt_Some _ _ _ Hl) as Hlt.
  destruct (HP) as [HS _]. pose proof (sm_tab _ _ _ _ _ (HS k)) as Htab.
  exists g', i. split_and!; [| done |].
  - unfold mbind, st_bind, gets, lift. rewrite Z.opp_involutive, swrap_small, (wrap_small 64), Htab by lia.
    rewrite length_map. replace (v <? _) with true by (symmetry; apply Z.ltb_lt; lia).
    unfold rd. rewrite list_lookup_fmap, Hl. done.
  - exists w. split_and!; [done | done |]. by eapply list_elem_of_lookup_2.
Qed.

(** A string that is written for the first time *)
Lemma new_string k F w g m :
  0 < g -> m !! g = None -> Z.of_nat (length (pairs k w)) < 2 ^ 31 ->
  sim (fun e i => m = strMark k e /\ with_ext F w e i)
    (_ ← update (set_strMark k (<[g := swrap 64 (Z.of_nat (size m))]> m));
     _ ← WriteNum (match k with GStr => kBinString | UStr => kBinUsrString end);
     s ← lift (GetStringFromStrIdx (T k) g);
     WriteAsciiStr s)
    (ImportStrOf k)
    (fun _ g' e i => exists w', sw_le w w' /\ with_ext F w' e i /\ (g, g') ∈ pairs k w').
Proof.
  intros Hg Hm Hfew. apply (sim_left _ _ _ _ (fun _ => half_marked k g F w)).
  { intros e i [] e' [-> HP] [= <-]. split; [by destruct k|].
    destruct (HP) as [HS _]. exists (strMark k e).
    rewrite (sm_size _ _ _ _ _ (HS k)), swrap_small by lia.
    split_and!; [by destruct k | done | by destruct k]. }
  intros []. unfold ImportStrOf.
  apply sim_num_bind; [apply half_marked_stable | by destruct k | apply _ |].
  assert (Hk : match k with GStr => kBinString | UStr => kBinUsrString end = 1) by by destruct k.
  rewrite Hk. cbn [Z.eqb Z.ltb Z.compare Pos.eqb]. apply sim_check; [done|].
  apply (sim_left _ _ _ _ (fun s e i => stringTable (T k) !! Z.to_nat g = Some s /\ half_marked k g F w e i)).
  { intros e i s e' HP Hrun. unfold lift, GetStringFromStrIdx in Hrun.
    destruct (g <? _); simpl in Hrun; [|done].
    destruct (stringTable (T k) !! _) eqn:Hs; [|done]. by injection Hrun as <- <-. }
  intros s. eapply sim_pre; [by intros e i [Hs _]|]. intros Hs.
  apply (sim_weaken (half_marked k g F w)); [by intros e i [_ HP]|].
  eapply sim_then; [apply sim_str; [apply half_marked_stable|]|].
  - pose proof (good k) as Hgood. unfold good_table in Hgood. rewrite Forall_lookup in Hgood.
    by eapply Hgood.
  - intros [] t. eapply sim_pre; [by intros e i [Ht _]|]. intros ->.
    apply (sim_weaken (half_marked k g F w)); [by intros e i [_ HP]|].
    by apply half_marked_push.
Qed.

Lemma sim_OutputStrOf k F w g :
  0 <= g ->
  sim (with_ext F w) (OutputStrOf k (T k) g) (ImportStrOf k)
    (fun _ g' e i => exists w', sw_le w w' /\ with_ext F w' e i /\ (g, g') ∈ pairs k w').
Proof.
  intros Hg. eapply sim_small; [apply _ | apply (pairs_few k) |]. intros Hfew.
  unfold OutputStrOf. destruct (Z.eqb_spec g 0) as [->|Hg0].
  - apply sim_num_last; [apply with_ext_stable | done |]. simpl. apply sim_ret.
    intros e i HP. exists w. split_and!; [done | done |].
    destruct HP as [HS _]. apply list_elem_of_lookup. exists 0%nat. apply (HS k).
  - apply (sim_left _ _ _ _ (fun m e i => m = strMark k e /\ with_ext F w e i)).
    { intros e i m e' HP [= <- <-]. done. }
    intros m. destruct (m !! g) as [v|] eqn:Hm; [|apply new_string; lia || done].
    eapply sim_pre; [intros e i [-> HP]; exact (marked_string _ _ _ _ _ _ _ HP Hm Hg0 Hfew) |].
    intros (Hv & g' & Hl). apply (sim_weaken (with_ext F w)); [by intros e i [_ HP] |].
    rewrite swrap_small by lia. apply sim_num_last; [apply with_ext_stable | unfold int64; lia |].
    destruct (- v =? 0) eqn:H0; [lia|]. destruct (- v <? 0) eqn:H1; [|lia].
    by eapply follow_mark.
Qed.
End Strings.

(** ** A new exporter and a new importer *)

(** Tables of an importing compiler with room for what is imported *)
Definition room {A : Type} (l : list A) : Prop := Z.of_nat (length l) <= 2 ^ 31.

Lemma strings_match_start T T' :
  wf_table T' -> room (stringTable T') -> strings_match T {[ 0 := 0 ]} [(0, 0)] [0] T'.
Proof.
  intros Hwf Hroom. constructor; simpl; try done.
  - intros g v [<- <-]%lookup_singleton_Some. split; [done|]. by exists 0.
  - unfold room in Hroom. lia.
  - constructor; [by left | done].
Qed.

Section StringsSpec.
Context {E I : Type} `{Marks E}.

(** The string an index names is in the table. *)
Definition valid_index (T : StringTable) (g : Z) : Prop :=
  0 <= g < Z.of_nat (length (stringTable T)).

Lemma OutputStrOf_returns (k : StrKind) (T : StringTable) (g : Z) (e : Exp E) :
  valid_index T g -> exists e', OutputStrOf k T g e = Ret (tt, e') /\ e_ext e' = e_ext e.
Proof.
  intros Hg. unfold OutputStrOf. destruct (g =? 0).
  { rewrite WriteNum_run by done. eauto. }
  unfold mbind, st_bind, gets, update. destruct (strMark k e !! g).
  { rewrite WriteNum_run by exact (swrap_range 64 _ ltac:(lia)). eauto. }
  rewrite WriteNum_run by by destruct k. unfold lift, GetStringFromStrIdx.
  unfold valid_index in Hg. replace (g <? _) with true by lia. simpl.
  destruct (lookup_lt_is_Some_2 (stringTable T) (Z.to_nat g)) as [s ->]; [lia|].
  rewrite WriteAsciiStr_run. eexists. split; [reflexivity|]. by destruct k.
Qed.

Definition NewExp (x : E) : Exp E := MkExp [] {[ 0 := 0 ]} {[ 0 := 0 ]} x.
Definition NewImp (bytes : list Z) (T U : StringTable) (y : I) : Imp I := MkImp bytes 0 [0] [0] T U y.

(** C33: strings survive the trip, in any order and with repetitions: the export of
    a list of indices of either table of strings returns, and the import of what it
    wrote, in a compiler with tables of its own, reads exactly those bytes without a
    fault and gives indices of the same strings there. *)
Theorem str_roundtrip (k : StrKind) (T U T' U' : StringTable) (l : list Z) (x : E) (y : I) :
  let Tk := match k with GStr => T | UStr => U end in
  Forall (valid_index Tk) l -> good_table T -> good_table U ->
  wf_table T' -> wf_table U' -> room (stringTable T') -> room (stringTable U') ->
  exists e, each (OutputStrOf k Tk) l (NewExp x) = Ret (tt, e) /\
    (small e ->
     wp (times (length l) (ImportStrOf k) (NewImp (e_buf e) T' U' y))
       (fun out => remaining (snd out) = [] /\
          Forall2 (fun g g' => same_string Tk (globalStr k (snd out)) (g, g')) l (fst out) /\
          wf_table (globalStr k (snd out)))).
Proof.
  intros Tk Hl HgT HgU HT HU HrT HrU.
  assert (He : forall e : Exp E, exists e', each (OutputStrOf k Tk) l e = Ret (tt, e')).
  { induction Hl as [|g l Hg Hl IH]; intros e; simpl; [by exists e|]. unfold mbind, st_bind.
    destruct (OutputStrOf_returns k Tk g e Hg) as (e1 & -> & _). apply IH. }
  destruct (He (NewExp x)) as [e Hrun]. exists e. split; [done|]. intros Hsm.
  pose (TT k' := match k' with GStr => T | UStr => U end).
  assert (Hgood : forall k', good_table (TT k')) by by intros [].
  pose (F (_ : E) (_ : I) := True).
  pose proof (sim_each sw_le (with_ext TT F) (fun w g g' => (g, g') ∈ pairs k w)
    (OutputStrOf (E := E) k Tk) (ImportStrOf (I := I) k) l (MkSW [(0, 0)] [(0, 0)])) as Hs.
  eapply wp_mono.
  - eapply (sim_run _ _ _ _ (NewExp x) (NewImp (e_buf e) T' U' y)); [apply Hs | | exact Hrun | done |].
    + intros w w' g g' Hle Hin. destruct (Hle k) as [p ->]. apply elem_of_app. by left.
    + apply _.
    + intros g w Hin. apply (sim_OutputStrOf TT Hgood k F w g).
      rewrite Forall_forall in Hl. by apply Hl.
    + split; [|done]. intros []; by apply strings_match_start.
    + unfold written. simpl. by rewrite drop_0.
  - intros [gs i] (Hrem & w & _ & [HS _] & Hall). split; [done|].
    pose proof (sm_same _ _ _ _ _ (HS k)) as Hsame. rewrite Forall_forall in Hsame.
    split; [|apply (sm_wf _ _ _ _ _ (HS k))].
    eapply Forall2_impl; [exact Hall|]. intros g g' Hin. by apply (Hsame (g, g')).
Qed.
End StringsSpec.
