(* ===== verification/BinTypes.v ===== *)
(** * The binary form of MapleIR: types

    The types of maple_ir/include/mir_type.h as nodes of a table (global_tables.h),
    which refer to each other by index and may be recursive; the export of a type
    by OutputType and the functions below it (bin_mpl_export.cpp), and its import by
    ImportTypeNonJava (bin_mpl_import.cpp) with CreateMirTypeNodeAt
    (global_tables.cpp).  Classes, interfaces, generic instances and the member
    functions of structs are not modelled, nor is the import into Java modules. *)
From S2P Require Import PrimTypes.
From S2P Require Import BinCodec.
From S2P Require Import BinStrings.

(** ** Data *)

(** The number of a primitive type, which is also the index of its node *)
Definition code_of (p : PrimType) : Z :=
  match list_find (fun q => q = p) all_PrimType with Some (n, _) => Z.of_nat n | None => 0 end.

Definition kBitsOfU64 : Z := 64.
Definition kNumU64InFuncAttr : nat := 2.
Definition kMaxArrayDim : Z := 20.

(** SimpleBitSet<n>, as its words; the attributes of types and of fields take
    one word each (GetWordSize). *)
Definition kTypeAttrWords : nat := 1.
Definition kFieldAttrWords : nat := 1.

Record AttrBoundary : Type := MkAttrBoundary { isBytedLen : bool; lenParamIdx : Z; lenExprHash : Z }.
Definition AttrBoundary_default : AttrBoundary := MkAttrBoundary false (-1) 0.

Record TypeAttrs : Type := MkTypeAttrs {
  ta_attrFlag : list Z;
  ta_attrAlign : Z;
  ta_attrTypeAlign : Z;
  ta_attrPack : Z;
  ta_typeAliasList : list Z;
  ta_attrBoundary : AttrBoundary
}.
Definition TypeAttrs_default : TypeAttrs :=
  MkTypeAttrs (repeat 0 kTypeAttrWords) 0 0 (wrap 32 (-1)) [] AttrBoundary_default.

Record FieldAttrs : Type := MkFieldAttrs {
  fa_attrFlag : list Z;
  fa_attrAlign : Z;
  fa_attrTypeAlign : Z;
  fa_attrBoundary : AttrBoundary
}.
Definition FieldAttrs_default : FieldAttrs :=
  MkFieldAttrs (repeat 0 kFieldAttrWords) 0 0 AttrBoundary_default.

(** FieldAttrKind, the attributes the exporter asks for *)
Definition FLDATTR_final : nat := 1.
Definition FLDATTR_protected : nat := 5.
Definition FLDATTR_public : nat := 6.
Definition FLDATTR_static : nat := 7.

Definition FieldAttrs_GetAttr (fa : FieldAttrs) (x : nat) : bool :=
  Z.testbit ((fa_attrFlag fa).[x / 64]) (Z.of_nat (x mod 64)).

(** A static final field that is visible outside may have an initial value. *)
Definition may_have_init (fa : FieldAttrs) : bool :=
  FieldAttrs_GetAttr fa FLDATTR_static && FieldAttrs_GetAttr fa FLDATTR_final &&
  (FieldAttrs_GetAttr fa FLDATTR_public || FieldAttrs_GetAttr fa FLDATTR_protected).

(** [fn_attrFlag] is the std::bitset of 128 bits, as a number. *)
Record FuncAttrs : Type := MkFuncAttrs {
  fn_attrFlag : Z;
  aliasFuncName : list Z;
  prefixSectionName : list Z;
  fn_attrBoundary : AttrBoundary;
  constructorPriority : Z;
  destructorPriority : Z
}.
Definition FuncAttrs_default : FuncAttrs := MkFuncAttrs 0 [] [] AttrBoundary_default (-1) (-1).

Record FieldPair : Type := MkFieldPair { fp_name : Z; fp_tyIdx : Z; fp_attrs : FieldAttrs }.
Record MethodPair : Type := MkMethodPair { mp_stIdx : Z; mp_tyIdx : Z; mp_attrs : FuncAttrs }.

(** MIRTypeKind, the kinds of the types below with their numbers *)
Inductive StructKind : Set := kTypeStruct | kTypeUnion | kTypeStructIncomplete.
Definition StructKind_code (k : StructKind) : Z :=
  match k with kTypeStruct => 7 | kTypeUnion => 8 | kTypeStructIncomplete => 11 end.
Definition StructKind_of_code (z : Z) : res StructKind :=
  if z =? 7 then Ret kTypeStruct else if z =? 8 then Ret kTypeUnion
  else if z =? 11 then Ret kTypeStructIncomplete else Fault NotModelled.

#[export] Instance StructKind_eq_dec : EqDecision StructKind.
Proof. solve_decision. Defined.

(** The subclasses of MIRType with the members they add.  The members of a Java
    array that are computed on demand are left out. *)
Inductive TypeBody : Type :=
  | MIRScalarType
  | MIRPtrType (pointedTyIdx : Z)
  | MIRTypeByName
  | MIRFarrayType (elemTyIdx : Z)
  | MIRJarrayType (elemTyIdx : Z)
  | MIRArrayType (eTyIdx dim : Z) (sizeArray : list Z)
  | MIRFuncType (retTyIdx : Z) (funcAttrs : FuncAttrs) (paramTypeList : list Z)
      (paramAttrsList : list TypeAttrs) (retAttrs : TypeAttrs)
  | MIRTypeParam
  | MIRBitFieldType (fieldSize : Z)
  | MIRStructType (kind : StructKind) (isImported isCPlusPlus : bool)
      (fields staticFields parentFields : list FieldPair) (methods : list MethodPair).

Record MIRType : Type := MkMIRType {
  body : TypeBody;
  primType : Z;
  nameIsLocal : bool;
  tyIdx : Z;
  nameStrIdx : Z;
  typeAttrs : TypeAttrs
}.

(** The constructors the importer uses, for a type without index and attributes *)
Definition new_type (b : TypeBody) (pt : Z) (nameIsLocal : bool) (strIdx : Z) (ta : TypeAttrs) : MIRType :=
  MkMIRType b pt nameIsLocal 0 strIdx ta.

Definition is_function (ty : MIRType) : bool :=
  match body ty with MIRFuncType _ _ _ _ _ => true | _ => false end.

Notation TypeTable := (list (option MIRType)).

Definition GetTypeFromTyIdx (tbl : TypeTable) (t : Z) : res (option MIRType) :=
  _ ← CHECK_FATAL (t <? Z.of_nat (length tbl));
  match tbl !! Z.to_nat t with Some ty => Ret ty | None => Fault OutOfBounds end.

(** ** Exporter *)

(** What the exporter reads of its compiler: the two tables of strings, the types,
    and whether the global variable of a field has a UTF-16 string as its initial
    value *)
Record MIRModule : Type := MkMIRModule {
  mod_str : StringTable;
  mod_ustr : StringTable;
  mod_types : TypeTable;
  mod_str16 : Z -> bool
}.

Record TypMarks : Type := MkTypMarks { typMark : gmap Z Z; typeMarkOffset : Z }.

#[export] Instance TypMarks_marks : Marks TypMarks :=
  fun m => (size (typMark m) + Z.to_nat (typeMarkOffset m))%nat.

Section Exporter.
Variable (md : MIRModule).
Notation W := (ST (Exp TypMarks)).

Definition OutputTypeAttrs (ta : TypeAttrs) : W unit :=
  _ ← each (fun i => WriteNum (swrap 64 ((ta_attrFlag ta).[i]))) (seq 0 kTypeAttrWords);
  _ ← WriteNum (ta_attrAlign ta);
  WriteNum (ta_attrPack ta).

Definition ExtractAttrFlagElement (attrFlag : Z) (index : nat) : res Z :=
  _ ← CHECK_FATAL (index <? kNumU64InFuncAttr)%nat;
  Ret (Z.land (Z.shiftr attrFlag (Z.of_nat index * kBitsOfU64)) (Z.ones 64)).

Definition OutputFuncAttrFlag (attrFlag : Z) : W unit :=
  each (fun i => flagItem ← lift (ExtractAttrFlagElement attrFlag i); WriteNum (swrap 64 flagItem))
    (seq 0 kNumU64InFuncAttr).

Definition OutputTypeBase (type : MIRType) : W unit :=
  _ ← WriteNum (primType type);
  _ ← OutputStr (mod_str md) (nameStrIdx type);
  WriteNum (Z.b2z (nameIsLocal type)).

Section Recursion.
(** OutputType *)
Variable (OutputType : Z -> W unit).

Definition OutputFieldPair (fp : FieldPair) : W unit :=
  _ ← OutputStr (mod_str md) (fp_name fp);
  _ ← OutputType (fp_tyIdx fp);
  let fa := fp_attrs fp in
  _ ← each (fun i => WriteNum (swrap 64 ((fa_attrFlag fa).[i]))) (seq 0 kFieldAttrWords);
  _ ← WriteNum (fa_attrAlign fa);
  if may_have_init fa then
    if mod_str16 md (fp_name fp)
    then _ ← WriteNum kBinInitConst; fault_st NotModelled (* OutputConst *)
    else WriteNum 0
  else mret tt.

Definition OutputFieldsOfStruct (fields : list FieldPair) : W unit :=
  _ ← WriteNum (Z.of_nat (length fields));
  each OutputFieldPair fields.

Definition OutputMethodsOfStruct (methods : list MethodPair) : W unit :=
  _ ← WriteNum (Z.of_nat (length methods));
  each (fun _ => fault_st NotModelled (* OutputMethodPair *)) methods.

Definition OutputStructTypeData (fields staticFields parentFields : list FieldPair)
    (methods : list MethodPair) : W unit :=
  _ ← OutputFieldsOfStruct fields;
  _ ← OutputFieldsOfStruct staticFields;
  _ ← OutputFieldsOfStruct parentFields;
  OutputMethodsOfStruct methods.

(** GetSizeArrayItem *)
Definition GetSizeArrayItem (sizeArray : list Z) (n : nat) : res Z :=
  _ ← CHECK_FATAL (Z.of_nat n <? kMaxArrayDim);
  rd sizeArray n.

Definition OutputTypePointer (type : MIRType) (pointedTyIdx : Z) : W unit :=
  _ ← WriteNum kBinKindTypePointer;
  _ ← OutputTypeBase type;
  _ ← OutputTypeAttrs (typeAttrs type);
  OutputType pointedTyIdx.

Definition OutputTypeArray (type : MIRType) (eTyIdx dim : Z) (sizeArray : list Z) : W unit :=
  _ ← WriteNum kBinKindTypeArray;
  _ ← OutputTypeBase type;
  _ ← WriteNum dim;
  _ ← each (fun i => n ← lift (GetSizeArrayItem sizeArray i); WriteNum n) (seq 0 (Z.to_nat dim));
  _ ← OutputType eTyIdx;
  OutputTypeAttrs (typeAttrs type).

Definition OutputTypeFunction (type : MIRType) (retTyIdx : Z) (funcAttrs : FuncAttrs)
    (paramTypeList : list Z) (paramAttrsList : list TypeAttrs) : W unit :=
  _ ← WriteNum kBinKindTypeFunction;
  _ ← OutputTypeBase type;
  _ ← OutputType retTyIdx;
  _ ← OutputFuncAttrFlag (fn_attrFlag funcAttrs);
  _ ← WriteNum (Z.of_nat (length paramTypeList));
  _ ← each OutputType paramTypeList;
  _ ← WriteNum (Z.of_nat (length paramAttrsList));
  each OutputTypeAttrs paramAttrsList.

Definition OutputTypeStruct (type : MIRType) (kind : StructKind) (isImported : bool)
    (fields staticFields parentFields : list FieldPair) (methods : list MethodPair) : W unit :=
  _ ← WriteNum kBinKindTypeStruct;
  _ ← OutputTypeBase type;
  kind ← (if isImported
          then _ ← lift (CHECK_FATAL (negb (bool_decide (kind = kTypeUnion))));
               mret kTypeStructIncomplete
          else mret kind);
  _ ← WriteNum (StructKind_code kind);
  _ ← OutputTypeAttrs (typeAttrs type);
  if bool_decide (kind = kTypeStructIncomplete) then mret tt
  else OutputStructTypeData fields staticFields parentFields methods.

(** OutputTypeScalar, OutputTypeByName, OutputTypeParam: the tag and the base *)
Definition OutputTypeTagged (tag : Z) (type : MIRType) : W unit :=
  _ ← WriteNum tag;
  OutputTypeBase type.

(** OutputTypeFArray, OutputTypeJArray *)
Definition OutputTypeElems (tag : Z) (type : MIRType) (elemTyIdx : Z) : W unit :=
  _ ← WriteNum tag;
  _ ← OutputTypeBase type;
  OutputType elemTyIdx.

Definition OutputTypeBitField (type : MIRType) (fieldSize : Z) : W unit :=
  _ ← WriteNum kBinKindTypeBitField;
  _ ← OutputTypeBase type;
  WriteNum fieldSize.

(** The function that the factory has for the kind of the type *)
Definition OutputTypeFactory (type : MIRType) : W unit :=
  match body type with
  | MIRScalarType => OutputTypeTagged kBinKindTypeScalar type
  | MIRPtrType p => OutputTypePointer type p
  | MIRTypeByName => OutputTypeTagged kBinKindTypeByName type
  | MIRFarrayType e => OutputTypeElems kBinKindTypeFArray type e
  | MIRJarrayType e => OutputTypeElems kBinKindTypeJarray type e
  | MIRArrayType e dim sizes => OutputTypeArray type e dim sizes
  | MIRFuncType ret fa ps pas _ => OutputTypeFunction type ret fa ps pas
  | MIRTypeParam => OutputTypeTagged kBinKindTypeParam type
  | MIRBitFieldType n => OutputTypeBitField type n
  | MIRStructType kind imp _ fs sfs pfs ms => OutputTypeStruct type kind imp fs sfs pfs ms
  end.

Definition set_typMark (m : gmap Z Z) (e : Exp TypMarks) : Exp TypMarks :=
  set_ext (MkTypMarks m (typeMarkOffset (e_ext e))) e.
Definition incr_typeMarkOffset (e : Exp TypMarks) : Exp TypMarks :=
  set_ext (MkTypMarks (typMark (e_ext e)) (typeMarkOffset (e_ext e) + 1)) e.

(** OutputType, one level.  The table has one node for each index, so that the
    marks, which the code keeps by node, are kept by index here. *)
Definition OutputType_level (t : Z) : W unit :=
  if t =? 0 then WriteNum 0
  else
    oty ← lift (GetTypeFromTyIdx (mod_types md) t);
    match oty with
    | None => fault_st CheckFatal
    | Some ty =>
        m ← gets (fun e => typMark (e_ext e));
        match m !! t with
        | Some it =>
            if negb (is_function ty) then WriteNum (swrap 64 (- it))
            else _ ← update incr_typeMarkOffset; OutputTypeFactory ty
        | None =>
            _ ← update (fun e =>
              let mark := Z.of_nat (size m) + typeMarkOffset (e_ext e) in
              set_typMark (<[t := swrap 64 mark]> m) e);
            OutputTypeFactory ty
        end
    end.
End Recursion.

(** OutputType; [fuel] bounds the depth to which types nest. *)
Fixpoint OutputType (fuel : nat) (t : Z) : W unit :=
  match fuel with
  | O => fault_st OutOfFuel
  | Datatypes.S fuel' => OutputType_level (OutputType fuel') t
  end.
End Exporter.

(** Init: the marks of a new exporter *)
Definition prim_marks : gmap Z Z :=
  list_to_map (map (fun pti => (Z.of_nat pti, Z.of_nat pti)) (seq 0 (Z.to_nat (code_of PTY_end)))).

Definition Init : Exp TypMarks :=
  MkExp [] {[ 0 := 0 ]} {[ 0 := 0 ]} (MkTypMarks prim_marks 0).

(** ** Importer *)

(** typTab, and the tables of the importing compiler that the import of types
    changes: the type table with the maps of pointer types, and of the module the
    names of types and the order of their definition *)
Record TypTabs : Type := MkTypTabs {
  typTab : list Z;
  typeTable : TypeTable;
  ptrTypeMap : gmap Z Z;
  refTypeMap : gmap Z Z;
  gStrIdxToTyIdxMap : gmap Z Z;
  typeDefOrder : list Z
}.

Section Importer.
(** the member [imported] of the importer *)
Variable (imported : bool).
Notation R := (ST (Imp TypTabs)).

Definition ImportTypeAttrs : R TypeAttrs :=
  flag ← times kTypeAttrWords (x ← ReadNum; mret (wrap 64 x));
  align ← ReadNum;
  pack ← ReadNum;
  mret (MkTypeAttrs flag (wrap 8 align) 0 (wrap 32 pack) [] AttrBoundary_default).

(** InitAttrFlag *)
Definition InitAttrFlag (dataArr : list Z) : Z :=
  foldl (fun flag '(i, d) => Z.lor flag (wrap 128 (Z.shiftl d (Z.of_nat i * kBitsOfU64)))) 0
    (imap (fun i d => (i, d)) dataArr).

Definition ImportFuncAttrFlag : R Z :=
  dataArr ← times kNumU64InFuncAttr (x ← ReadNum; mret (wrap 64 x));
  mret (InitAttrFlag dataArr).

Definition ImportTypeBase : R (Z * Z * bool) :=
  primType ← ReadNum;
  strIdx ← ImportStr;
  nameIsLocal ← ReadNum;
  mret (wrap 32 primType, strIdx, negb (nameIsLocal =? 0)).

(** PushNull, with typTab.push_back of the new index *)
Definition set_types (f : TypTabs -> TypTabs) : R unit := update (fun i => set_iext (f (i_ext i)) i).

Definition PushNull : R unit :=
  set_types (fun t => MkTypTabs (typTab t) (typeTable t ++ [None]) (ptrTypeMap t) (refTypeMap t)
    (gStrIdxToTyIdxMap t) (typeDefOrder t)).
Definition push_typTab (y : Z) : R unit :=
  set_types (fun t => MkTypTabs (typTab t ++ [y]) (typeTable t) (ptrTypeMap t) (refTypeMap t)
    (gStrIdxToTyIdxMap t) (typeDefOrder t)).

(** operator== of TypeAttrs *)
Definition AttrBoundary_eqb (a b : AttrBoundary) : bool :=
  (lenExprHash a =? lenExprHash b) && (lenParamIdx a =? lenParamIdx b) &&
  eqb (isBytedLen a) (isBytedLen b).
Definition TypeAttrs_eqb (a b : TypeAttrs) : bool :=
  bool_decide (ta_attrFlag a = ta_attrFlag b) && (ta_attrAlign a =? ta_attrAlign b) &&
  AttrBoundary_eqb (ta_attrBoundary a) (ta_attrBoundary b).

(** FillinTypeMapOrHashTable; the hash table of types, which the import of a
    non-Java module does not read, is left out. *)
Definition FillinTypeMap (pType : MIRType) (nType : Z) (t : TypTabs) : TypTabs :=
  match body pType with
  | MIRPtrType pointed =>
      if TypeAttrs_eqb (typeAttrs pType) TypeAttrs_default then
        if negb (primType pType =? code_of PTY_ref)
        then MkTypTabs (typTab t) (typeTable t) (<[pointed := nType]> (ptrTypeMap t)) (refTypeMap t)
               (gStrIdxToTyIdxMap t) (typeDefOrder t)
        else MkTypTabs (typTab t) (typeTable t) (ptrTypeMap t) (<[pointed := nType]> (refTypeMap t))
               (gStrIdxToTyIdxMap t) (typeDefOrder t)
      else t
  | _ => t
  end.

Definition set_tyIdx (t : Z) (ty : MIRType) : MIRType :=
  MkMIRType (body ty) (primType ty) (nameIsLocal ty) t (nameStrIdx ty) (typeAttrs ty).

(** CreateMirTypeNodeAt, for a type that is not a class or interface *)
Definition CreateMirTypeNodeAt (pType : MIRType) (tyIdxUsed : Z) : R unit :=
  t ← gets i_ext;
  _ ← lift (if Z.to_nat tyIdxUsed <? length (typeTable t) then Ret tt else Fault OutOfBounds)%nat;
  _ ← set_types (fun t => MkTypTabs (typTab t)
    (<[Z.to_nat tyIdxUsed := Some (set_tyIdx tyIdxUsed pType)]> (typeTable t))
    (ptrTypeMap t) (refTypeMap t) (gStrIdxToTyIdxMap t) (typeDefOrder t));
  _ ← set_types (FillinTypeMap pType tyIdxUsed);
  let stridx := nameStrIdx pType in
  if negb (stridx =? 0) then
    set_types (fun t => MkTypTabs (typTab t) (typeTable t) (ptrTypeMap t) (refTypeMap t)
      (<[stridx := tyIdxUsed]> (gStrIdxToTyIdxMap t)) (typeDefOrder t ++ [stridx]))
  else mret tt.

Section Recursion.
(** ImportTypeNonJava *)
Variable (ImportTypeNonJava : R Z).

(** memcpy_s of a word over the first word of the flag *)
Definition SetAttrFlag_word (x : Z) : list Z := wrap 64 x :: repeat 0 (kFieldAttrWords - 1).

Definition ImportFieldPair : R FieldPair :=
  first ← ImportStr;
  second ← ImportTypeNonJava;
  flag ← ReadNum;
  align ← ReadNum;
  let fa := MkFieldAttrs (SetAttrFlag_word flag) (wrap 8 align) 0 AttrBoundary_default in
  _ ← (if may_have_init fa then
         tag ← ReadNum;
         if tag =? kBinInitConst then fault_st NotModelled (* ImportConst *) else mret tt
       else mret tt);
  mret (MkFieldPair first second fa).

(** ImportFieldsOfStructType into an empty vector of a type without methods *)
Definition ImportFieldsOfStructType : R (list FieldPair) :=
  size ← ReadNum;
  times (Z.to_nat size) ImportFieldPair.

Definition ImportMethodsOfStructType : R (list MethodPair) :=
  size ← ReadNum;
  times (Z.to_nat size) (fault_st NotModelled (* ImportMethodPair *)).

Definition ImportStructTypeData (kind : StructKind) : R TypeBody :=
  fields ← ImportFieldsOfStructType;
  staticFields ← ImportFieldsOfStructType;
  parentFields ← ImportFieldsOfStructType;
  methods ← ImportMethodsOfStructType;
  mret (MIRStructType kind imported false fields staticFields parentFields methods).

(** The cases of the switch, which compute the type that is put at the index *)
Definition ImportTypePointer (primType strIdx : Z) (nameIsLocal : bool) : R MIRType :=
  attrs ← ImportTypeAttrs;
  pointed ← ImportTypeNonJava;
  mret (new_type (MIRPtrType pointed) primType nameIsLocal strIdx attrs).

Definition ImportTypeElems (mk : Z -> TypeBody) (strIdx : Z) (nameIsLocal : bool) : R MIRType :=
  elem ← ImportTypeNonJava;
  mret (new_type (mk elem) (code_of PTY_agg) nameIsLocal strIdx TypeAttrs_default).

(** sizeArray has a fixed length, and its items are 32-bit words. *)
Definition fill_sizeArray (sizes : list Z) : list Z :=
  map (wrap 32) sizes ++ repeat 0 (Z.to_nat kMaxArrayDim - length sizes).

Definition ImportTypeArray (strIdx : Z) (nameIsLocal : bool) : R MIRType :=
  dim ← ReadNum;
  let dim := wrap 16 dim in
  _ ← lift (CHECK_FATAL (dim <? kMaxArrayDim));
  sizes ← times (Z.to_nat dim) ReadNum;
  elem ← ImportTypeNonJava;
  attrs ← ImportTypeAttrs;
  mret (new_type (MIRArrayType elem dim (fill_sizeArray sizes)) (code_of PTY_agg) nameIsLocal strIdx attrs).

Definition ImportTypeFunction (strIdx : Z) (nameIsLocal : bool) : R MIRType :=
  ret ← ImportTypeNonJava;
  attrFlag ← ImportFuncAttrFlag;
  size ← ReadNum;
  params ← times (Z.to_nat size) ImportTypeNonJava;
  size ← ReadNum;
  attrs ← times (Z.to_nat size) ImportTypeAttrs;
  mret (new_type
    (MIRFuncType ret (MkFuncAttrs attrFlag [] [] AttrBoundary_default (-1) (-1)) params attrs TypeAttrs_default)
    (code_of PTY_ptr) nameIsLocal strIdx TypeAttrs_default).

Definition ImportTypeBitField (primType strIdx : Z) (nameIsLocal : bool) : R MIRType :=
  fieldSize ← ReadNum;
  mret (new_type (MIRBitFieldType (wrap 8 fieldSize)) primType nameIsLocal strIdx TypeAttrs_default).

Definition ImportTypeStruct (strIdx : Z) (nameIsLocal : bool) : R MIRType :=
  kind ← ReadNum;
  kind ← lift (StructKind_of_code (wrap 8 kind));
  attrs ← ImportTypeAttrs;
  b ← (if bool_decide (kind = kTypeStructIncomplete)
       then mret (MIRStructType kind false false [] [] [] [])
       else ImportStructTypeData kind);
  mret (new_type b (code_of PTY_agg) nameIsLocal strIdx attrs).

(** The switch on the tag; the tags of the kinds that are not modelled end the
    model, the others are unexpected, kBinKindTypeByName among them. *)
Definition ImportType_switch (tag primType strIdx : Z) (nameIsLocal : bool) : R MIRType :=
  if tag =? kBinKindTypePointer then ImportTypePointer primType strIdx nameIsLocal
  else if tag =? kBinKindTypeFArray then ImportTypeElems MIRFarrayType strIdx nameIsLocal
  else if tag =? kBinKindTypeJarray then ImportTypeElems MIRJarrayType strIdx nameIsLocal
  else if tag =? kBinKindTypeArray then ImportTypeArray strIdx nameIsLocal
  else if tag =? kBinKindTypeFunction then ImportTypeFunction strIdx nameIsLocal
  else if tag =? kBinKindTypeParam then
    mret (new_type MIRTypeParam (code_of PTY_gen) nameIsLocal strIdx TypeAttrs_default)
  else if tag =? kBinKindTypeBitField then ImportTypeBitField primType strIdx nameIsLocal
  else if tag =? kBinKindTypeStruct then ImportTypeStruct strIdx nameIsLocal
  else if bool_decide (tag ∈ [14; 15; 18; 19]) then fault_st NotModelled
  else fault_st CheckFatal.

Definition ImportTypeNonJava_level : R Z :=
  tag ← ReadNum;
  if tag =? 0 then mret 0
  else if tag <? 0 then
    t ← gets i_ext;
    _ ← lift (CHECK_FATAL (wrap 64 (- tag) <? Z.of_nat (length (typTab t))));
    lift (rd (typTab t) (Z.to_nat (wrap 64 (- tag))))
  else
    base ← ImportTypeBase;
    let '(primType, strIdx, nameIsLocal) := base in
    t ← gets i_ext;
    let tyIdxUsed := wrap 32 (Z.of_nat (length (typeTable t))) in
    if tag =? kBinKindTypeScalar then mret primType
    else
      _ ← PushNull;
      _ ← push_typTab tyIdxUsed;
      type ← ImportType_switch tag primType strIdx nameIsLocal;
      _ ← CreateMirTypeNodeAt type tyIdxUsed;
      mret tyIdxUsed.
End Recursion.

(** ImportTypeNonJava; [fuel] bounds the depth to which types nest. *)
Fixpoint ImportTypeNonJava (fuel : nat) : R Z :=
  match fuel with
  | O => fault_st OutOfFuel
  | Datatypes.S fuel' => ImportTypeNonJava_level (ImportTypeNonJava fuel')
  end.
End Importer.

(** Reset: a new importer in a compiler with the tables [T], [U] and [types] *)
Definition Reset (bytes : list Z) (T U : StringTable) (types : TypeTable) : Imp TypTabs :=
  MkImp bytes 0 [0] [0] T U
    (MkTypTabs (map Z.of_nat (seq 0 (Z.to_nat (code_of PTY_end)))) types ∅ ∅ ∅ []).
