(* ===== verification/BinTypesFacts.v ===== *)
(** * The binary form of MapleIR: imported types are the exported ones

    The specification is a bisimulation: a relation between indices of the
    exporter's type table and indices of the importer's, under which related
    nodes have the same kind and data, names that are the same string, and
    related children.  What the format does not keep is explicit in
    [kept_TypeAttrs], [kept_FuncAttrs] and [body_match]. *)
From S2P Require Import PrimTypes.
From S2P Require Import BinCodec.
From S2P Require Import BinStrings.
From S2P Require Import BinTypes.

(** ** The specification *)

Definition kept_TypeAttrs (ta : TypeAttrs) : TypeAttrs :=
  MkTypeAttrs (ta_attrFlag ta) (ta_attrAlign ta) 0 (ta_attrPack ta) [] AttrBoundary_default.
Definition kept_FuncAttrs (fa : FuncAttrs) : FuncAttrs :=
  MkFuncAttrs (fn_attrFlag fa) [] [] AttrBoundary_default (-1) (-1).
Definition kept_FieldAttrs (fa : FieldAttrs) : FieldAttrs :=
  MkFieldAttrs (fa_attrFlag fa) (fa_attrAlign fa) 0 AttrBoundary_default.

(** Whether the attributes of a type are written *)
Definition has_attrs (b : TypeBody) : bool :=
  match b with MIRPtrType _ | MIRArrayType _ _ _ | MIRStructType _ _ _ _ _ _ _ => true | _ => false end.

(** The primitive type that the constructor of a class sets *)
Definition fixed_primType (b : TypeBody) : option PrimType :=
  match b with
  | MIRFarrayType _ | MIRJarrayType _ | MIRArrayType _ _ _ | MIRStructType _ _ _ _ _ _ _ => Some PTY_agg
  | MIRFuncType _ _ _ _ _ => Some PTY_ptr
  | MIRTypeParam => Some PTY_gen
  | _ => None
  end.

Section Match.
Variable (imported : bool) (names types : list (Z * Z)).

Definition child (a b : Z) : Prop := (a, b) ∈ types.

Definition field_match (f f' : FieldPair) : Prop :=
  (fp_name f, fp_name f') ∈ names /\ child (fp_tyIdx f) (fp_tyIdx f') /\
  fp_attrs f' = kept_FieldAttrs (fp_attrs f).

Inductive body_match : TypeBody -> TypeBody -> Prop :=
  | match_ptr p p' : child p p' -> body_match (MIRPtrType p) (MIRPtrType p')
  | match_farray e e' : child e e' -> body_match (MIRFarrayType e) (MIRFarrayType e')
  | match_jarray e e' : child e e' -> body_match (MIRJarrayType e) (MIRJarrayType e')
  | match_array e e' dim sizes sizes' :
      child e e' -> take (Z.to_nat dim) sizes' = take (Z.to_nat dim) sizes ->
      body_match (MIRArrayType e dim sizes) (MIRArrayType e' dim sizes')
  | match_func ret ret' fa ps ps' pas ra :
      child ret ret' -> Forall2 child ps ps' ->
      body_match (MIRFuncType ret fa ps pas ra)
        (MIRFuncType ret' (kept_FuncAttrs fa) ps' (map kept_TypeAttrs pas) TypeAttrs_default)
  | match_param : body_match MIRTypeParam MIRTypeParam
  | match_bitfield n : body_match (MIRBitFieldType n) (MIRBitFieldType n)
  | match_struct kind cpp fs fs' sfs sfs' pfs pfs' :
      kind <> kTypeStructIncomplete ->
      Forall2 field_match fs fs' -> Forall2 field_match sfs sfs' -> Forall2 field_match pfs pfs' ->
      body_match (MIRStructType kind false cpp fs sfs pfs [])
        (MIRStructType kind imported false fs' sfs' pfs' [])
  | match_incomplete kind imp cpp fs sfs pfs ms :
      kind = kTypeStructIncomplete \/ imp = true ->
      body_match (MIRStructType kind imp cpp fs sfs pfs ms)
        (MIRStructType kTypeStructIncomplete false false [] [] [] []).

(** [ty'] is the imported form of [ty], but for its index. *)
Definition node_match (ty ty' : MIRType) : Prop :=
  body_match (body ty) (body ty') /\ primType ty' = primType ty /\
  nameIsLocal ty' = nameIsLocal ty /\ (nameStrIdx ty, nameStrIdx ty') ∈ names /\
  typeAttrs ty' = if has_attrs (body ty) then kept_TypeAttrs (typeAttrs ty) else TypeAttrs_default.
End Match.

Lemma child_mono types types2 a b : types `prefix_of` types2 -> child types a b -> child types2 a b.
Proof. intros [l ->] Hab. apply elem_of_app. by left. Qed.

Lemma children_mono types types2 l l' :
  types `prefix_of` types2 -> Forall2 (child types) l l' -> Forall2 (child types2) l l'.
Proof. intros Hp Hl. eapply Forall2_impl; [exact Hl|]. intros a b. by apply child_mono. Qed.

Lemma field_match_mono names names2 types types2 f f' :
  names `prefix_of` names2 -> types `prefix_of` types2 ->
  field_match names types f f' -> field_match names2 types2 f f'.
Proof.
  intros Hn Ht (H1 & H2 & H3). split_and!; [|by eapply child_mono | done].
  by apply (child_mono names).
Qed.

Lemma fields_match_mono names names2 types types2 l l' :
  names `prefix_of` names2 -> types `prefix_of` types2 ->
  Forall2 (field_match names types) l l' -> Forall2 (field_match names2 types2) l l'.
Proof. intros Hn Ht Hl. eapply Forall2_impl; [exact Hl|]. intros f f'. by apply field_match_mono. Qed.

#[export] Hint Resolve child_mono children_mono fields_match_mono : bin.

Lemma node_match_mono imported names names2 types types2 ty ty' :
  names `prefix_of` names2 -> types `prefix_of` types2 ->
  node_match imported names types ty ty' -> node_match imported names2 types2 ty ty'.
Proof.
  intros Hn Ht (Hb & Hr & Hl & Hs & Ha). unfold node_match. split_and!; [|done|done| |done].
  - destruct Hb; constructor; eauto with bin.
  - by apply (child_mono names).
Qed.

(** ** Types that can be written *)

Definition word_list (n : nat) (l : list Z) : Prop :=
  length l = n /\ Forall (fun x => 0 <= x < 2 ^ 64) l.

Definition wf_TypeAttrs (ta : TypeAttrs) : Prop :=
  word_list kTypeAttrWords (ta_attrFlag ta) /\ 0 <= ta_attrAlign ta < 2 ^ 8 /\
  0 <= ta_attrPack ta < 2 ^ 32.

Definition short {A : Type} (l : list A) : Prop := Z.of_nat (length l) < 2 ^ 31.

Definition npty : nat := Z.to_nat (code_of PTY_end).

(** The types that an export reaches satisfy [used], which is closed under the
    parts of a type. *)
Section WellFormed.
Variables (md : MIRModule) (used : Z -> Prop).

(** A field without a UTF-16 string as the initial value of its variable *)
Definition wf_field (f : FieldPair) : Prop :=
  0 <= fp_name f /\ used (fp_tyIdx f) /\ word_list kFieldAttrWords (fa_attrFlag (fp_attrs f)) /\
  0 <= fa_attrAlign (fp_attrs f) < 2 ^ 8 /\ mod_str16 md (fp_name f) = false.

Definition wf_fields (l : list FieldPair) : Prop := short l /\ Forall wf_field l.

Definition wf_body (b : TypeBody) : Prop :=
  match b with
  | MIRScalarType | MIRTypeByName => False
  | MIRPtrType t | MIRFarrayType t | MIRJarrayType t => used t
  | MIRArrayType e dim sizes =>
      used e /\ 0 <= dim < kMaxArrayDim /\ length sizes = Z.to_nat kMaxArrayDim /\
      Forall (fun n => 0 <= n < 2 ^ 32) sizes
  | MIRFuncType ret fa ps pas _ =>
      used ret /\ 0 <= fn_attrFlag fa < 2 ^ 128 /\ short ps /\ Forall used ps /\
      short pas /\ Forall wf_TypeAttrs pas
  | MIRTypeParam => True
  | MIRBitFieldType n => 0 <= n < 2 ^ 8
  | MIRStructType _ _ _ fs sfs pfs ms => wf_fields fs /\ wf_fields sfs /\ wf_fields pfs /\ ms = []
  end.

Definition wf_type (ty : MIRType) : Prop :=
  wf_body (body ty) /\ 0 <= primType ty < 2 ^ 32 /\ 0 <= nameStrIdx ty /\
  wf_TypeAttrs (typeAttrs ty) /\
  match fixed_primType (body ty) with Some p => primType ty = code_of p | None => True end.

(** An index in use is 0, or that of a primitive type, or that of a type that can
    be written. *)
Definition wf_types : Prop :=
  forall t, used t -> 0 <= t /\
    (t = 0 \/ exists ty, mod_types md !! Z.to_nat t = Some (Some ty) /\
       if decide (Z.to_nat t < npty)%nat then is_function ty = false else wf_type ty).
End WellFormed.

(** ** What exporter and importer know of each other *)

Definition module_strings (md : MIRModule) (k : StrKind) : StringTable :=
  match k with GStr => mod_str md | UStr => mod_ustr md end.

(** Strings and types written so far, and the types that are being written *)
Record TW : Type := MkTW { tw_str : SW; tw_typ : list (Z * Z); tw_pend : list (Z * Z) }.

Definition tw_le (w w' : TW) : Prop :=
  sw_le (tw_str w) (tw_str w') /\ tw_typ w `prefix_of` tw_typ w' /\ tw_pend w = tw_pend w'.

#[export] Instance tw_le_preorder : PreOrder tw_le.
Proof.
  split.
  - intros w. split_and!; reflexivity.
  - intros w1 w2 w3 (H1 & H2 & H3) (H4 & H5 & H6). unfold tw_le. split_and!.
    + exact (transitivity H1 H4).
    + exact (transitivity H2 H5).
    + by rewrite H3.
Qed.

Section Appends.
Variables (md : MIRModule) (OutT : Z -> ST (Exp TypMarks) unit).
Context `{OutT_grows : !forall t, Grows (OutT t)}.

#[export] Instance grows_OutputStr T g : Grows (E := TypMarks) (OutputStr T g).
Proof. unfold OutputStr. apply _. Qed.
#[export] Instance grows_OutputTypeAttrs ta : Grows (OutputTypeAttrs ta).
Proof. unfold OutputTypeAttrs. apply _. Qed.
#[export] Instance grows_OutputFuncAttrFlag flag : Grows (OutputFuncAttrFlag flag).
Proof. unfold OutputFuncAttrFlag. apply _. Qed.
#[export] Instance grows_OutputTypeBase ty : Grows (OutputTypeBase md ty).
Proof. unfold OutputTypeBase. apply _. Qed.
#[export] Instance grows_OutputFieldPair f : Grows (OutputFieldPair md OutT f).
Proof. unfold OutputFieldPair. apply _. Qed.
#[export] Instance grows_OutputFieldsOfStruct l : Grows (OutputFieldsOfStruct md OutT l).
Proof. unfold OutputFieldsOfStruct. apply _. Qed.
#[export] Instance grows_OutputMethodsOfStruct l : Grows (OutputMethodsOfStruct l).
Proof. unfold OutputMethodsOfStruct. apply _. Qed.
#[export] Instance grows_OutputStructTypeData a b c d : Grows (OutputStructTypeData md OutT a b c d).
Proof. unfold OutputStructTypeData. apply _. Qed.

#[export] Instance grows_OutputTypeFactory ty : Grows (OutputTypeFactory md OutT ty).
Proof.
  unfold OutputTypeFactory, OutputTypeTagged, OutputTypePointer, OutputTypeElems, OutputTypeArray,
    OutputTypeFunction, OutputTypeBitField, OutputTypeStruct.
  destruct (body ty); apply _.
Qed.

#[export] Instance grows_OutputType_level t : Grows (OutputType_level md OutT t).
Proof.
  unfold OutputType_level. destruct (t =? 0); [apply _|].
  apply grows_bind; [apply _|]. intros [ty|]; [|apply _].
  apply grows_gets_bind. intros e a e'.
  destruct (typMark (e_ext e) !! t) eqn:Hm; [destruct (is_function ty); simpl|].
  - apply grows_update_bind; [apply _ | done |].
    unfold mark_count, marks, TypMarks_marks; simpl. lia.
  - apply grows_WriteNum.
  - apply grows_update_bind; [apply _ | done |].
    unfold mark_count, marks, TypMarks_marks; simpl. rewrite map_size_insert_None by done. lia.
Qed.
End Appends.

#[export] Instance grows_OutputType md fuel t : Grows (OutputType md fuel t).
Proof. revert t. induction fuel as [|fuel IH]; intros t; simpl; apply _. Qed.

Section Invariant.
Variable (md : MIRModule) (imported : bool).

(** A slot of typTab: its type is being read, or it is done. *)
Definition slot_ok (w : TW) (tbl : TypeTable) (p : Z * Z) : Prop :=
  p ∈ tw_pend w \/
  0 <= p.1 /\ 0 <= p.2 /\
  exists ty ty', mod_types md !! Z.to_nat p.1 = Some (Some ty) /\
    tbl !! Z.to_nat p.2 = Some (Some ty') /\ tyIdx ty' = p.2 /\
    node_match imported (pairs GStr (tw_str w)) (tw_typ w) ty ty'.

Record TInv (w : TW) (m : TypMarks) (t : TypTabs) : Prop := {
  ti_tab : typTab t = map snd (tw_typ w);
  ti_offset : 0 <= typeMarkOffset m;
  ti_count : Z.of_nat (size (typMark m)) + typeMarkOffset m = Z.of_nat (length (tw_typ w));
  ti_prim : take npty (tw_typ w) = map (fun k => (Z.of_nat k, Z.of_nat k)) (seq 0 npty);
  ti_keys : forall k, (k < npty)%nat -> typMark m !! Z.of_nat k = Some (Z.of_nat k);
  ti_mark : forall a v, typMark m !! a = Some v -> 0 <= v /\ exists b, tw_typ w !! Z.to_nat v = Some (a, b);
  ti_room : Z.of_nat (length (typeTable t)) < 2 ^ 31 + Z.of_nat (length (tw_typ w));
  ti_slots : Forall (slot_ok w (typeTable t)) (drop npty (tw_typ w));
  ti_pend : Forall (fun p => 0 <= p.2 /\ typeTable t !! Z.to_nat p.2 = Some None) (tw_pend w);
  ti_nodup : NoDup (map snd (tw_pend w))
}.

Definition TI (w : TW) : Exp TypMarks -> Imp TypTabs -> Prop := 
  with_ext (module_strings md) (TInv w) (tw_str w).
Lemma TI_stable w : stable (TI w).
Proof. apply with_ext_stable. Qed.

(** More strings keep the invariant of types. *)
Lemma slot_ok_mono w w' tbl p :
  tw_le w w' -> slot_ok w tbl p -> slot_ok w' tbl p.
Proof.
  intros (Hs & Ht & Hp) [Hpend|(H1 & H2 & ty & ty' & Hty & Hty' & Hidx & Hm)].
  - left. by rewrite <- Hp.
  - right. split_and!; [done|done|]. exists ty, ty'. split_and!; [done|done|done|].
    eapply node_match_mono; [apply (Hs GStr) | exact Ht | done].
Qed.

Lemma TInv_strings sw sw' tys pend m t :
  sw_le sw sw' -> TInv (MkTW sw tys pend) m t -> TInv (MkTW sw' tys pend) m t.
Proof.
  intros Hle []. constructor; try done. eapply Forall_impl; [done|].
  intros p. apply slot_ok_mono. by split_and!.
Qed.

(** ** Simulations under the invariant *)

Definition simw {A B} (w : TW) (m : ST (Exp TypMarks) A) (r : ST (Imp TypTabs) B)
    (rel : TW -> B -> Prop) : Prop :=
  sim (TI w) m r (fun _ b e i => exists w', tw_le w w' /\ TI w' e i /\ rel w' b).

Lemma simw_ret {A B} w (a : A) (b : B) (rel : TW -> B -> Prop) :
  rel w b -> simw w (mret a) (mret b) rel.
Proof. intros Hr. apply sim_ret. intros e i HI. exists w. done. Qed.

Lemma simw_bind {A A' B B'} w (m : ST (Exp TypMarks) A) (k : A -> ST (Exp TypMarks) A')
    (r : ST (Imp TypTabs) B) (l : B -> ST (Imp TypTabs) B') rel rel' :
  Grows m -> (forall a, Grows (k a)) -> simw w m r rel ->
  (forall a b w', tw_le w w' -> rel w' b -> simw w' (k a) (l b) rel') ->
  simw w (m ≫= k) (r ≫= l) rel'.
Proof.
  intros Gm Gk Hm Hk. eapply sim_bind; [done | done | exact Hm |].
  intros a b e i a' e' rest (w1 & Hw1 & HI & Hr) Hrun Hsm Hrest.
  destruct (Hk a b w1 Hw1 Hr e i a' e' rest HI Hrun Hsm Hrest)
    as (b' & i' & Hrun' & Hrem & w2 & Hw2 & HI2 & Hr2).
  exists b', i'. split_and!; [done|done|]. exists w2. split_and!; [|done|done].
  exact (transitivity Hw1 Hw2).
Qed.

(** The last writer of a function, followed by steps of the reader *)
Lemma simw_then {A B B'} w (m : ST (Exp TypMarks) A) (r : ST (Imp TypTabs) B)
    (l : B -> ST (Imp TypTabs) B') rel rel' :
  simw w m r rel ->
  (forall a b w', tw_le w w' -> rel w' b -> simw w' (mret a : ST (Exp TypMarks) A) (l b) rel') ->
  simw w m (r ≫= l) rel'.
Proof.
  intros Hm Hk. eapply sim_then; [exact Hm|].
  intros a b e i a' e' rest (w1 & Hw1 & HI & Hr) Hrun Hsm Hrest.
  destruct (Hk a b w1 Hw1 Hr e i a' e' rest HI Hrun Hsm Hrest)
    as (b' & i' & Hrun' & Hrem & w2 & Hw2 & HI2 & Hr2).
  exists b', i'. split_and!; [done|done|]. exists w2. split_and!; [|done|done].
  exact (transitivity Hw1 Hw2).
Qed.

Lemma simw_num {A B} w x (k : unit -> ST (Exp TypMarks) A) (l : Z -> ST (Imp TypTabs) B) rel :
  int64 x -> (forall a, Grows (k a)) -> simw w (k tt) (l x) rel ->
  simw w (WriteNum x ≫= k) (ReadNum ≫= l) rel.
Proof. intros Hx Hk Hs. by apply sim_num_bind; [apply TI_stable|..]. Qed.

Lemma simw_num_last {B} w x (l : Z -> ST (Imp TypTabs) B) rel :
  int64 x -> simw w (mret tt) (l x) rel -> simw w (WriteNum x) (ReadNum ≫= l) rel.
Proof. intros Hx Hs. by apply sim_num_last; [apply TI_stable|..]. Qed.

Lemma simw_check {A B} w (c : bool) (m : ST (Exp TypMarks) A) (l : unit -> ST (Imp TypTabs) B) rel :
  c = true -> simw w m (l tt) rel -> simw w m (lift (CHECK_FATAL c) ≫= l) rel.
Proof. intros -> Hs. by apply sim_check. Qed.

(** Writers and readers that give a value and do not depend on the tables *)
Lemma simw_pure {A B} w (m : ST (Exp TypMarks) A) (r : ST (Imp TypTabs) B) (v : B) :
  (forall P, stable P -> sim P m r (fun _ b e i => b = v /\ P e i)) -> simw w m r (fun _ b => b = v).
Proof.
  intros Hs. eapply sim_conseq; [done | | apply (Hs (TI w) (TI_stable w))].
  intros a b e i [-> HI]. by exists w.
Qed.

Lemma simw_each {A B} w (f : A -> ST (Exp TypMarks) unit) (r : ST (Imp TypTabs) B)
    (rel : TW -> A -> B -> Prop) (l : list A) :
  (forall w1 w2 x y, tw_le w1 w2 -> rel w1 x y -> rel w2 x y) -> (forall x, Grows (f x)) ->
  (forall x w', x ∈ l -> simw w' (f x) r (fun w2 => rel w2 x)) ->
  simw w (each f l) (times (length l) r) (fun w' ys => Forall2 (rel w') l ys).
Proof. intros Hmono Hg Hf. by apply (sim_each tw_le TI rel). Qed.

Hypothesis good : forall k, good_table (module_strings md k).
Variable used : Z -> Prop.

Lemma simw_str w g :
  0 <= g -> simw w (OutputStr (mod_str md) g) ImportStr
    (fun w' g' => (g, g') ∈ pairs GStr (tw_str w')).
Proof.
  intros Hg. eapply sim_conseq;
    [| | apply (sim_OutputStrOf (module_strings md) good GStr (TInv w) (tw_str w) g Hg)]; [done|].
  intros [] g' e i (sw & Hsw & [HS HF] & Hin). destruct w as [sw0 tys pend].
  exists (MkTW sw tys pend). split_and!; [by split_and! | split; [done|] | done].
  by apply (TInv_strings sw0).
Qed.

(** ** Attributes *)

Lemma sim_words {B} (P : Exp TypMarks -> Imp TypTabs -> Prop) (n : nat) (l : list Z) (f : Z -> B) :
  stable P -> word_list n l -> (forall x, f (swrap 64 x) = f x) ->
  sim P (each (fun i => WriteNum (swrap 64 l.[i])) (seq 0 n)) (times n (x ← ReadNum; mret (f x)))
    (fun _ ys e i => ys = map f l /\ P e i).
Proof.
  intros HP [Hlen Hl] Hf.
  pose proof (sim_each_pure P (fun i => f l.[i]) (fun i => WriteNum (swrap 64 l.[i])) (x ← ReadNum; mret (f x)) (seq 0 n)) as Hs.
  rewrite length_seq in Hs. eapply sim_conseq; [done | | apply Hs; [apply _|]].
  - intros a ys e i [-> HPi]. split; [|done]. apply list_eq. intros k.
    rewrite !list_lookup_fmap. destruct (decide (k < n)%nat) as [Hk|Hk].
    + rewrite lookup_seq_lt, at_lookup by lia. done.
    + rewrite (lookup_ge_None_2 (seq _ _)), (lookup_ge_None_2 l) by (rewrite ?length_seq; lia). done.
  - intros k Hk. apply sim_num_last; [done | |].
    + pose proof (swrap_range 64 (l.[k]) ltac:(lia)). unfold int64. done.
    + apply sim_ret. intros e i HPi. by rewrite Hf.
Qed.
Lemma map_wrap64 (l : list Z) : Forall (fun x => 0 <= x < 2 ^ 64) l -> map (wrap 64) l = l.
Proof. induction 1 as [|x l Hx _ IH]; simpl; [done|]. by rewrite wrap_small, IH. Qed.

Lemma wrap64_swrap (x : Z) : wrap 64 (swrap 64 x) = wrap 64 x.
Proof. by apply swrap_congr. Qed.

Lemma sim_TypeAttrs (P : Exp TypMarks -> Imp TypTabs -> Prop) ta :
  stable P -> wf_TypeAttrs ta ->
  sim P (OutputTypeAttrs ta) ImportTypeAttrs (fun _ b e i => b = kept_TypeAttrs ta /\ P e i).
Proof.
  intros HP (Hf & Ha & Hp). unfold OutputTypeAttrs, ImportTypeAttrs.
  eapply sim_val_bind; [apply _ | apply _ | apply sim_words; [done | done | apply wrap64_swrap] |].
  intros _. apply sim_num_bind; [done | unfold int64; lia | apply _ |].
  apply sim_num_last; [done | unfold int64; lia |]. apply sim_ret. intros e i HPi.
  unfold kept_TypeAttrs. rewrite map_wrap64, !wrap_small by (apply Hf || lia). done.
Qed.

Lemma simw_TypeAttrs w ta :
  wf_TypeAttrs ta -> simw w (OutputTypeAttrs ta) ImportTypeAttrs (fun _ b => b = kept_TypeAttrs ta).
Proof. intros Hta. apply simw_pure. intros P HP. by apply sim_TypeAttrs. Qed.

Lemma InitAttrFlag_words (flag : Z) :
  0 <= flag < 2 ^ 128 ->
  InitAttrFlag (map (fun i => Z.land (Z.shiftr flag (Z.of_nat i * kBitsOfU64)) (Z.ones 64)) [0; 1]%nat) = flag.
Proof.
  intros Hf. transitivity (Z.lor (Z.lor 0 (wrap 128 (Z.shiftl (Z.land (Z.shiftr flag 0) (Z.ones 64)) 0)))
    (wrap 128 (Z.shiftl (Z.land (Z.shiftr flag 64) (Z.ones 64)) 64))); [reflexivity|].
  apply bits_ext. intros i Hi.
  rewrite !Z.lor_spec, Z.bits_0, !testbit_wrap, !testbit_shiftl, !Z.land_spec, Z.sub_0_r,
    Z.shiftr_0_r, orb_false_l, !testbit_ones by lia.
  destruct (Z.leb_spec 0 (i - 64)) as [H64|H64].
  - rewrite Z.shiftr_spec, Z.sub_add by lia.
    destruct (Z.ltb_spec i 128); [|by rewrite (testbit_above 128 flag i) by lia].
    bool_cases. by rewrite !andb_true_r, andb_false_r.
  - bool_cases. by rewrite !andb_false_r, !andb_true_r, orb_false_r.
Qed.
Lemma sim_FuncAttrFlag (P : Exp TypMarks -> Imp TypTabs -> Prop) flag :
  stable P -> 0 <= flag < 2 ^ 128 ->
  sim P (OutputFuncAttrFlag flag) ImportFuncAttrFlag (fun _ b e i => b = flag /\ P e i).
Proof.
  intros HP Hf. unfold OutputFuncAttrFlag, ImportFuncAttrFlag.
  set (item := fun i => Z.land (Z.shiftr flag (Z.of_nat i * kBitsOfU64)) (Z.ones 64)).
  eapply (sim_val_then _ _ _ _ (map item (seq 0 kNumU64InFuncAttr))).
  - apply (sim_each_pure P item _ (x ← ReadNum; mret (wrap 64 x)) (seq 0 kNumU64InFuncAttr)); [apply _|].
    intros i Hi. apply elem_of_seq in Hi.
    assert (Hx : ExtractAttrFlagElement flag i = Ret (item i)).
    { unfold ExtractAttrFlagElement. by replace (i <? kNumU64InFuncAttr)%nat with true
        by (symmetry; apply Nat.ltb_lt; lia). }
    rewrite Hx. apply sim_num_last; [done | |].
    + pose proof (swrap_range 64 (item i) ltac:(lia)). unfold int64. done.
    + apply sim_ret. intros e i' HPi. split; [|done]. rewrite wrap64_swrap. apply wrap_small.
      unfold item. rewrite land_ones_wrap by lia. by apply wrap_range.
  - intros a. apply sim_ret. intros e i HPi. split; [|done]. by apply InitAttrFlag_words.
Qed.

(** ** Fields *)

Section Children.
Variables (OutT : Z -> ST (Exp TypMarks) unit) (ImpT : ST (Imp TypTabs) Z).
Hypothesis OutT_grows : forall t, Grows (OutT t).
Hypothesis OutT_sim : forall w t, used t -> simw w (OutT t) ImpT (fun w' b => child (tw_typ w') t b).


Lemma simw_field w f :
  wf_field md used f ->
  simw w (OutputFieldPair md OutT f) (ImportFieldPair ImpT)
    (fun w' f' => field_match (pairs GStr (tw_str w')) (tw_typ w') f f').
Proof.
  intros (Hn & Ht & [Hlen Hw] & Ha & H16). unfold OutputFieldPair, ImportFieldPair.
  eapply simw_bind; [apply _ | apply _ | by apply simw_str |]. intros _ n1 w1 Hw1 Hname.
  eapply simw_bind; [apply _ | apply _ | by apply OutT_sim |]. intros _ t1 w2 Hw2 Hchild.
  destruct (fp_attrs f) as [flag align talign bd] eqn:Hfa. simpl in *.
  destruct flag as [|x [|]]; try done. apply Forall_cons in Hw as [Hx _].
  apply sim_single, simw_num; [pose proof (swrap_range 64 x ltac:(lia)); done | apply _ |].
  apply simw_num; [unfold int64; lia | apply _ |].
  assert (Hflag : SetAttrFlag_word (swrap 64 x) = [x]).
  { unfold SetAttrFlag_word. rewrite wrap64_swrap, wrap_small by lia. done. }
  change ([x].[0]) with x. rewrite Hflag, (wrap_small 8) by lia.
  assert (Hf' : field_match (pairs GStr (tw_str w2)) (tw_typ w2) f
    (MkFieldPair n1 t1 (MkFieldAttrs [x] align 0 AttrBoundary_default))).
  { split_and!; [|done | by rewrite Hfa].
    by eapply (child_mono (pairs GStr (tw_str w1))); [apply Hw2 |]. }
  change (may_have_init (MkFieldAttrs [x] align 0 AttrBoundary_default))
    with (may_have_init (MkFieldAttrs [x] align talign bd)).
  destruct (may_have_init _).
  - rewrite H16. apply sim_assoc, simw_num_last; [done|]. by apply simw_ret.
  - by apply simw_ret.
Qed.
Definition fields_in (w : TW) (l l' : list FieldPair) : Prop :=
  Forall2 (field_match (pairs GStr (tw_str w)) (tw_typ w)) l l'.

Lemma fields_in_mono w w' l l' : tw_le w w' -> fields_in w l l' -> fields_in w' l l'.
Proof. intros (Hs & Ht & _). apply fields_match_mono; [apply (Hs GStr) | exact Ht]. Qed.

Lemma child_in_mono w w' a b : tw_le w w' -> child (tw_typ w) a b -> child (tw_typ w') a b.
Proof. intros (_ & Ht & _). by apply child_mono. Qed.

Lemma int64_length {A} (l : list A) : short l -> int64 (Z.of_nat (length l)).
Proof. unfold short, int64. lia. Qed.

Lemma simw_fields w l :
  wf_fields md used l ->
  simw w (OutputFieldsOfStruct md OutT l) (ImportFieldsOfStructType ImpT) (fun w' => fields_in w' l).
Proof.
  intros [Hl Hwf]. unfold OutputFieldsOfStruct, ImportFieldsOfStructType.
  apply simw_num; [by apply int64_length | apply _ |]. rewrite Nat2Z.id.
  apply simw_each.
  - intros w1 w2 f f' (Hs & Ht & _). apply field_match_mono; [apply (Hs GStr) | exact Ht].
  - apply _.
  - intros f w' Hf. rewrite Forall_forall in Hwf. by apply simw_field, Hwf.
Qed.

Lemma simw_struct_data w kind cpp fs sfs pfs :
  kind <> kTypeStructIncomplete -> wf_fields md used fs -> wf_fields md used sfs -> wf_fields md used pfs ->
  simw w (OutputStructTypeData md OutT fs sfs pfs []) (ImportStructTypeData imported ImpT kind)
    (fun w' b => body_match imported (pairs GStr (tw_str w')) (tw_typ w')
      (MIRStructType kind false cpp fs sfs pfs []) b).
Proof.
  intros Hk H1 H2 H3. unfold OutputStructTypeData, ImportStructTypeData.
  eapply simw_bind; [apply _ | apply _ | by apply simw_fields |]. intros _ l1 w1 Hw1 Hl1.
  eapply simw_bind; [apply _ | apply _ | by apply simw_fields |]. intros _ l2 w2 Hw2 Hl2.
  eapply simw_bind; [apply _ | apply _ | by apply simw_fields |]. intros _ l3 w3 Hw3 Hl3.
  unfold OutputMethodsOfStruct, ImportMethodsOfStructType. simpl.
  apply sim_assoc, simw_num; [done | apply _ |]. simpl.
  apply simw_ret. constructor; [done | | |done].
  - eapply fields_in_mono; [|exact Hl1]. by etrans.
  - by eapply fields_in_mono; [|exact Hl2].
Qed.

(** ** The kinds of types, after the tag and the base *)

(** [ty'] may be put at the index of [ty]. *)
Definition node_in (ty : MIRType) (w : TW) (ty' : MIRType) : Prop :=
  node_match imported (pairs GStr (tw_str w)) (tw_typ w) ty ty'.

(** What the base of a type said *)
Definition base_ok (ty : MIRType) (w : TW) (strIdx : Z) : Prop :=
  (nameStrIdx ty, strIdx) ∈ pairs GStr (tw_str w).

Lemma base_ok_mono ty w w' strIdx : tw_le w w' -> base_ok ty w strIdx -> base_ok ty w' strIdx.
Proof. intros (Hs & _ & _) Hb. by eapply (child_mono (pairs GStr (tw_str w))); [apply Hs|]. Qed.

Lemma simw_pointer w ty p strIdx :
  wf_type md used ty -> body ty = MIRPtrType p -> base_ok ty w strIdx ->
  simw w (_ ← OutputTypeAttrs (typeAttrs ty); OutT p)
    (ImportTypePointer ImpT (primType ty) strIdx (nameIsLocal ty)) (node_in ty).
Proof.
  intros (Hb & _ & _ & Hta & _) Hbody Hbase. rewrite Hbody in Hb. unfold ImportTypePointer.
  eapply simw_bind; [apply _ | apply _ | by apply simw_TypeAttrs |]. intros _ ta w1 Hw1 ->.
  eapply simw_then; [by apply OutT_sim |]. intros a p' w2 Hw2 Hp.
  apply simw_ret. unfold node_in, node_match; simpl. rewrite Hbody.
  split_and!; [by constructor | done | done | | done].
  eapply (base_ok_mono ty w); [by etrans | done].
Qed.

Lemma simw_elems w ty (mk : Z -> TypeBody) e strIdx :
  wf_type md used ty -> body ty = mk e -> used e -> has_attrs (mk e) = false ->
  fixed_primType (mk e) = Some PTY_agg ->
  (forall names types a b, child types a b -> body_match imported names types (mk a) (mk b)) ->
  base_ok ty w strIdx ->
  simw w (OutT e) (ImportTypeElems ImpT mk strIdx (nameIsLocal ty)) (node_in ty).
Proof.
  intros (_ & _ & _ & _ & Hpt) Hbody He Ha Hp Hm Hbase. rewrite Hbody, Hp in Hpt. unfold ImportTypeElems.
  eapply simw_then; [by apply OutT_sim |]. intros a e' w1 Hw1 Hc.
  apply simw_ret. unfold node_in, node_match; simpl. rewrite Hbody, Ha.
  split_and!; [by apply Hm | done | done | | done]. by eapply base_ok_mono.
Qed.

Lemma sim_sizes (P : Exp TypMarks -> Imp TypTabs -> Prop) sizes dim :
  stable P -> 0 <= dim < kMaxArrayDim -> length sizes = Z.to_nat kMaxArrayDim ->
  Forall (fun n => 0 <= n < 2 ^ 32) sizes ->
  sim P (each (fun i => n ← lift (GetSizeArrayItem sizes i); WriteNum n) (seq 0 (Z.to_nat dim)))
    (times (Z.to_nat dim) ReadNum) (fun _ b e i => b = take (Z.to_nat dim) sizes /\ P e i).
Proof.
  intros HP Hd Hl Hs.
  pose proof (sim_each_pure (E := TypMarks) (I := TypTabs) P (fun i => sizes.[i])
    (fun i => n ← lift (GetSizeArrayItem sizes i); WriteNum n) ReadNum (seq 0 (Z.to_nat dim))) as He.
  rewrite length_seq in He. eapply sim_conseq; [done | | apply He; [apply _|]].
  - intros a b e i [-> HPi]. split; [|done]. apply list_eq. intros k. rewrite list_lookup_fmap.
    destruct (decide (k < Z.to_nat dim)%nat) as [Hk|Hk].
    + rewrite lookup_seq_lt, lookup_take_lt, at_lookup by (unfold kMaxArrayDim in *; lia). done.
    + rewrite lookup_ge_None_2, (lookup_ge_None_2 (take _ _)); [done | |]; rewrite ?length_seq, ?length_take; lia.
  - intros k Hk. apply elem_of_seq in Hk. unfold GetSizeArrayItem, rd.
    rewrite at_lookup by (unfold kMaxArrayDim in *; lia).
    replace (Z.of_nat k <? kMaxArrayDim) with true by (symmetry; apply Z.ltb_lt; lia).
    assert (Hx : 0 <= sizes.[k] < 2 ^ 32).
    { rewrite Forall_lookup in Hs. eapply Hs, at_lookup. unfold kMaxArrayDim in *. lia. }
    apply sim_num; [done | unfold int64; lia].
Qed.

Lemma simw_array w ty e dim sizes strIdx :
  wf_type md used ty -> body ty = MIRArrayType e dim sizes -> base_ok ty w strIdx ->
  simw w
    (_ ← WriteNum dim;
     _ ← each (fun i => n ← lift (GetSizeArrayItem sizes i); WriteNum n) (seq 0 (Z.to_nat dim));
     _ ← OutT e;
     OutputTypeAttrs (typeAttrs ty))
    (ImportTypeArray ImpT strIdx (nameIsLocal ty)) (node_in ty).
Proof.
  intros (Hb & _ & _ & Hta & Hpt) Hbody Hbase. rewrite Hbody in Hb, Hpt. destruct Hb as (He & Hd & Hl & Hs).
  unfold ImportTypeArray. apply simw_num; [unfold int64, kMaxArrayDim in *; lia | apply _ |].
  rewrite wrap_small by (unfold kMaxArrayDim in *; lia).
  apply simw_check; [apply Z.ltb_lt; lia|].
  eapply simw_bind; [apply _ | apply _ | apply simw_pure; intros P HP; by apply sim_sizes |].
  intros _ b w1 Hw1 ->.
  eapply simw_bind; [apply _ | apply _ | by apply OutT_sim |]. intros _ e' w2 Hw2 Hc.
  eapply simw_then; [by apply simw_TypeAttrs |]. intros a ta w3 Hw3 ->.
  apply simw_ret. unfold node_in, node_match; simpl. rewrite Hbody. split_and!; [| done | done | | done].
  - constructor; [by eapply child_in_mono|]. unfold fill_sizeArray.
    rewrite take_app_le by (rewrite length_map, length_take; unfold kMaxArrayDim in *; lia).
    rewrite <- (take_drop (Z.to_nat dim) sizes) in Hs. apply Forall_app in Hs as [Hs _].
    assert (Hm : map (wrap 32) (take (Z.to_nat dim) sizes) = take (Z.to_nat dim) sizes).
    { induction Hs as [|x l Hx _ IH]; simpl; [done|]. by rewrite wrap_small, IH. }
    by rewrite Hm, take_take, Nat.min_id.
  - eapply (base_ok_mono ty w); [|done]. by etrans; [|etrans].
Qed.

Lemma simw_function w ty ret fa ps pas ra strIdx :
  wf_type md used ty -> body ty = MIRFuncType ret fa ps pas ra -> base_ok ty w strIdx ->
  simw w
    (_ ← OutT ret;
     _ ← OutputFuncAttrFlag (fn_attrFlag fa);
     _ ← WriteNum (Z.of_nat (length ps));
     _ ← each OutT ps;
     _ ← WriteNum (Z.of_nat (length pas));
     each OutputTypeAttrs pas)
    (ImportTypeFunction ImpT strIdx (nameIsLocal ty)) (node_in ty).
Proof.
  intros (Hb & _ & _ & _ & Hpt) Hbody Hbase. rewrite Hbody in Hb, Hpt.
  destruct Hb as (Hret & Hfa & Hlps & Hps & Hlpas & Hpas). unfold ImportTypeFunction.
  eapply simw_bind; [apply _ | apply _ | by apply OutT_sim |]. intros _ ret' w1 Hw1 Hc.
  eapply simw_bind; [apply _ | apply _ | apply simw_pure; intros P HP; by apply sim_FuncAttrFlag |].
  intros _ b w2 Hw2 ->.
  apply simw_num; [by apply int64_length | apply _ |]. rewrite Nat2Z.id.
  eapply simw_bind; [apply _ | apply _ | |].
  { apply (simw_each w2 OutT ImpT (fun w => child (tw_typ w))); [by intros ????; apply child_in_mono | apply _ |].
    intros t w' Ht. rewrite Forall_forall in Hps. by apply OutT_sim, Hps. }
  intros _ ps' w3 Hw3 Hps'. apply simw_num; [by apply int64_length | apply _ |]. rewrite Nat2Z.id.
  eapply simw_then.
  { apply simw_pure. intros P HP. apply (sim_each_pure P kept_TypeAttrs); [apply _|].
    intros ta Hta. rewrite Forall_forall in Hpas. by apply sim_TypeAttrs, Hpas. }
  intros a pas' w4 Hw4 ->. apply simw_ret. unfold node_in, node_match; simpl. rewrite Hbody.
  split_and!; [| done | done | | done].
  - constructor; [eapply child_in_mono; [|exact Hc]; by etrans; [|etrans]|].
    eapply Forall2_impl; [exact Hps'|]. intros x y. by apply child_in_mono.
  - eapply (base_ok_mono ty w); [|done]. etrans; [exact Hw1|]. by etrans; [|etrans].
Qed.

Lemma simw_bitfield w ty n strIdx :
  wf_type md used ty -> body ty = MIRBitFieldType n -> base_ok ty w strIdx ->
  simw w (WriteNum n) (ImportTypeBitField (primType ty) strIdx (nameIsLocal ty)) (node_in ty).
Proof.
  intros (Hb & _) Hbody Hbase. rewrite Hbody in Hb. simpl in Hb. unfold ImportTypeBitField.
  apply simw_num_last; [unfold int64; lia|]. rewrite wrap_small by lia.
  apply simw_ret. unfold node_in, node_match; simpl. rewrite Hbody.
  split_and!; [constructor | done | done | done | done].
Qed.

Lemma StructKind_code_roundtrip kind : StructKind_of_code (wrap 8 (StructKind_code kind)) = Ret kind.
Proof. by destruct kind. Qed.

(** The rest of a struct, once its kind is settled *)
Lemma simw_struct_rest w ty kind0 imp cpp fs sfs pfs kind strIdx :
  wf_type md used ty -> body ty = MIRStructType kind0 imp cpp fs sfs pfs [] -> base_ok ty w strIdx ->
  kind = (if imp then kTypeStructIncomplete else kind0) ->
  simw w
    (_ ← WriteNum (StructKind_code kind);
     _ ← OutputTypeAttrs (typeAttrs ty);
     if bool_decide (kind = kTypeStructIncomplete) then mret tt
     else OutputStructTypeData md OutT fs sfs pfs [])
    (ImportTypeStruct imported ImpT strIdx (nameIsLocal ty)) (node_in ty).
Proof.
  intros (Hb & _ & _ & Hta & Hpt) Hbody Hbase Hkind. rewrite Hbody in Hb, Hpt.
  destruct Hb as (Hfs & Hsfs & Hpfs & _). unfold ImportTypeStruct.
  apply simw_num; [by destruct kind | apply _ |].
  rewrite StructKind_code_roundtrip.
  change (simw w ?m (lift (Ret kind) ≫= ?l) ?r) with (simw w m (l kind) r).
  eapply simw_bind; [apply _ | apply _ | by apply simw_TypeAttrs |]. intros _ ta w1 Hw1 ->.
  assert (Hres : forall w2 b, tw_le w1 w2 ->
    body_match imported (pairs GStr (tw_str w2)) (tw_typ w2) (body ty) b ->
    node_in ty w2 (new_type b (code_of PTY_agg) (nameIsLocal ty) strIdx (kept_TypeAttrs (typeAttrs ty)))).
  { intros w2 b Hw2 Hm. unfold node_in, node_match; simpl. split_and!; [done | done | done | | by rewrite Hbody].
    eapply (base_ok_mono ty w); [by etrans | done]. }
  case_bool_decide as Hinc.
  - apply (simw_ret w1 tt). apply Hres; [done|]. rewrite Hbody, Hinc. constructor.
    destruct imp; [by right | left; congruence].
  - destruct imp; [done|]. subst kind0. eapply simw_then; [by apply (simw_struct_data w1 kind cpp) |].
    intros a b w2 Hw2 Hm. apply simw_ret, Hres; [done|]. by rewrite Hbody.
Qed.

Lemma simw_struct w ty kind imp cpp fs sfs pfs strIdx :
  wf_type md used ty -> body ty = MIRStructType kind imp cpp fs sfs pfs [] -> base_ok ty w strIdx ->
  simw w
    (kind ← (if imp
             then _ ← lift (CHECK_FATAL (negb (bool_decide (kind = kTypeUnion))));
                  mret kTypeStructIncomplete
             else mret kind);
     _ ← WriteNum (StructKind_code kind);
     _ ← OutputTypeAttrs (typeAttrs ty);
     if bool_decide (kind = kTypeStructIncomplete) then mret tt
     else OutputStructTypeData md OutT fs sfs pfs [])
    (ImportTypeStruct imported ImpT strIdx (nameIsLocal ty)) (node_in ty).
Proof.
  intros Hwf Hbody Hbase. destruct imp.
  - case_bool_decide as Hu; [by intros e i a e' rest _|].
    by apply (simw_struct_rest w ty kind true cpp fs sfs pfs kTypeStructIncomplete).
  - by apply (simw_struct_rest w ty kind false cpp fs sfs pfs kind).
Qed.

(** ** A type that is written *)

(** The exporter has counted a slot for type [t], the importer not yet. *)
Definition mark_step (w : TW) (t : Z) (m0 m1 : TypMarks) : Prop :=
  typMark m0 !! t = None /\
    m1 = MkTypMarks (<[t := Z.of_nat (length (tw_typ w))]> (typMark m0)) (typeMarkOffset m0) \/
  m1 = MkTypMarks (typMark m0) (typeMarkOffset m0 + 1).

Definition slot_counted (w : TW) (t : Z) (m : TypMarks) (tabs : TypTabs) : Prop :=
  exists m0, mark_step w t m0 m /\ TInv w m0 tabs.

Lemma sim_type_base (F : TypMarks -> TypTabs -> Prop) sw ty :
  wf_type md used ty ->
  sim (with_ext (module_strings md) F sw) (OutputTypeBase md ty) ImportTypeBase
    (fun _ b e i => exists sw' s, sw_le sw sw' /\ with_ext (module_strings md) F sw' e i /\
      b = (primType ty, s, nameIsLocal ty) /\ (nameStrIdx ty, s) ∈ pairs GStr sw').
Proof.
  intros (_ & Hpt & Hn & _). unfold OutputTypeBase, ImportTypeBase.
  apply sim_num_bind; [apply with_ext_stable | unfold int64; lia | apply _ |].
  eapply sim_bind; [apply _ | apply _ | by apply (sim_OutputStrOf (module_strings md) good GStr F sw) |].
  intros _ s e i a e' rest (sw' & Hsw & HI & Hs). revert e i a e' rest HI.
  apply (sim_num_last (with_ext (module_strings md) F sw')).
  - apply with_ext_stable.
  - unfold int64. destruct (nameIsLocal ty); simpl; lia.
  - apply sim_ret. intros e i HI. exists sw', s. split_and!; [done|done| |done].
    rewrite wrap_small by lia. by destruct (nameIsLocal ty).
Qed.

(** The slot is counted on both sides. *)
Lemma TInv_push w t m tabs ty :
  slot_counted w t m tabs -> Z.of_nat (length (tw_typ w)) < 2 ^ 31 -> 0 <= t ->
  mod_types md !! Z.to_nat t = Some (Some ty) ->
  let y := wrap 32 (Z.of_nat (length (typeTable tabs))) in
  TInv (MkTW (tw_str w) (tw_typ w ++ [(t, y)]) ((t, y) :: tw_pend w)) m
    (MkTypTabs (typTab tabs ++ [y]) (typeTable tabs ++ [None]) (ptrTypeMap tabs) (refTypeMap tabs)
      (gStrIdxToTyIdxMap tabs) (typeDefOrder tabs)).
Proof.
  intros (m0 & Hstep & []) Hfew Ht Hty y.
  assert (Hy : y = Z.of_nat (length (typeTable tabs))) by (apply wrap_small; lia).
  clearbody y. assert (Hlen : (npty <= length (tw_typ w))%nat).
  { assert (Hl : length (take npty (tw_typ w)) = npty) by by rewrite ti_prim0, length_map, length_seq.
    rewrite length_take in Hl. lia. }
  constructor; simpl.
  - by rewrite ti_tab0, map_app.
  - destruct Hstep as [[_ ->]| ->]; simpl; lia.
  - rewrite length_app. simpl. destruct Hstep as [[Hm ->]| ->]; simpl; [rewrite map_size_insert_None by done|]; lia.
  - by rewrite take_app_le by done.
  - intros k Hk. specialize (ti_keys0 k Hk). destruct Hstep as [[Hm ->]| ->]; simpl; [|done].
    rewrite lookup_insert_ne; [done|]. by intros ->; rewrite Hm in ti_keys0.
  - assert (Hold : forall a v, typMark m0 !! a = Some v -> 0 <= v /\ exists b, (tw_typ w ++ [(t, y)]) !! Z.to_nat v = Some (a, b)).
    { intros a v [Hv (b & Hb)]%ti_mark0. split; [done|]. exists b. by apply lookup_app_l_Some. }
    destruct Hstep as [[Hm ->]| ->]; simpl; [|done].
    intros a v. rewrite lookup_insert_Some. intros [[<- <-]|[_ Ha]]; [|by apply Hold].
    split; [lia|]. exists y. by rewrite Nat2Z.id, lookup_app_r, Nat.sub_diag by lia.
  - rewrite !length_app. simpl. lia.
  - rewrite drop_app_le by done. apply Forall_app. split.
    + eapply Forall_impl; [exact ti_slots0|]. intros p [Hp|(H1 & H2 & ty1 & ty' & Hty1 & Hty' & Hi & Hm)].
      * left. by right.
      * right. split_and!; [done|done|]. exists ty1, ty'. split_and!; [done | by apply lookup_app_l_Some | done |].
        eapply node_match_mono; [reflexivity | by apply prefix_app_r | exact Hm].
    + constructor; [|done]. left. by left.
  - constructor; simpl.
    + rewrite Hy, Nat2Z.id, lookup_app_r, Nat.sub_diag by lia. split; [lia | done].
    + eapply Forall_impl; [exact ti_pend0|]. intros p [Hp Hl]. split; [done|]. by apply lookup_app_l_Some.
  - constructor; [|done]. intros Hin. apply list_elem_of_fmap in Hin as (p & Hp & Hin).
    rewrite Forall_forall in ti_pend0. destruct (ti_pend0 p Hin) as [_ Hl].
    apply lookup_lt_Some in Hl. rewrite <- Hp, Hy, Nat2Z.id in Hl. lia.
Qed.

(** The node is put into its slot. *)
Lemma TInv_create sw tys pend t y m tabs ty ty' :
  TInv (MkTW sw tys ((t, y) :: pend)) m tabs ->
  node_in ty (MkTW sw tys ((t, y) :: pend)) ty' -> 0 <= t ->
  mod_types md !! Z.to_nat t = Some (Some ty) ->
  (Z.to_nat y < length (typeTable tabs))%nat /\
  forall pm rm tm od, TInv (MkTW sw tys pend) m
    (MkTypTabs (typTab tabs) (<[Z.to_nat y := Some (set_tyIdx y ty')]> (typeTable tabs)) pm rm tm od).
Proof.
  intros [] Hnode Ht Hty. simpl in *. apply Forall_cons in ti_pend0 as [[Hy Hnull] Hpend].
  apply NoDup_cons in ti_nodup0 as [Hnew Hnd].
  assert (Hlt : (Z.to_nat y < length (typeTable tabs))%nat) by by eapply lookup_lt_Some.
  split; [done|]. intros pm rm tm od. constructor; simpl; try done.
  - by rewrite length_insert.
  - rewrite Forall_forall in *. intros [a b] Hp. specialize (ti_slots0 _ Hp).
    destruct ti_slots0 as [Hin|(H1 & H2 & ty1 & ty1' & Hty1 & Hty1' & Hi & Hm)].
    + apply elem_of_cons in Hin as [[= -> ->]|Hin]; [|by left]. right. simpl.
      split_and!; [done|done|]. exists ty, (set_tyIdx y ty').
      split_and!; [done | by apply list_lookup_insert_eq | done | done].
    + right. simpl in *. split_and!; [done|done|]. exists ty1, ty1'. split_and!; [done | | done | done].
      rewrite list_lookup_insert_ne; [done|]. intros Heq. rewrite Heq, Hty1' in Hnull. done.
  - rewrite Forall_forall in *. intros p Hp. destruct (Hpend p Hp) as [H1 H2]. split; [done|].
    rewrite list_lookup_insert_ne; [done|]. intros Heq. apply Hnew.
    apply list_elem_of_fmap. exists p. simpl in *. split; [lia | done].
Qed.

Lemma FillinTypeMap_spec ty' y t :
  exists pm rm, FillinTypeMap ty' y t =
    MkTypTabs (typTab t) (typeTable t) pm rm (gStrIdxToTyIdxMap t) (typeDefOrder t).
Proof. unfold FillinTypeMap. destruct (body ty'), t; simpl; repeat case_match; by eexists _, _. Qed.

Lemma CreateMirTypeNodeAt_spec ty' y (i : Imp TypTabs) :
  (Z.to_nat y < length (typeTable (i_ext i)))%nat ->
  exists pm rm tm od, CreateMirTypeNodeAt ty' y i =
    Ret (tt, set_iext (MkTypTabs (typTab (i_ext i))
      (<[Z.to_nat y := Some (set_tyIdx y ty')]> (typeTable (i_ext i))) pm rm tm od) i).
Proof.
  intros Hlt. apply Nat.ltb_lt in Hlt. unfold CreateMirTypeNodeAt, set_types.
  unfold mbind, st_bind, gets, lift, update. rewrite Hlt. simpl.
  destruct (FillinTypeMap_spec ty' y (MkTypTabs (typTab (i_ext i))
    (<[Z.to_nat y := Some (set_tyIdx y ty')]> (typeTable (i_ext i))) (ptrTypeMap (i_ext i))
    (refTypeMap (i_ext i)) (gStrIdxToTyIdxMap (i_ext i)) (typeDefOrder (i_ext i)))) as (pm & rm & ->).
  destruct (negb _); eexists _, _, _, _; reflexivity.
Qed.

Lemma simw_create w sw tys pend t y ty ty' (e : Exp TypMarks) (i : Imp TypTabs) :
  w = MkTW sw tys ((t, y) :: pend) -> TI w e i -> node_in ty w ty' -> 0 <= t ->
  mod_types md !! Z.to_nat t = Some (Some ty) ->
  exists i', (_ ← CreateMirTypeNodeAt ty' y; mret y) i = Ret (y, i') /\
    remaining i' = remaining i /\ TI (MkTW sw tys pend) e i'.
Proof.
  intros -> [HS HT] Hnode Ht Hty.
  destruct (TInv_create _ _ _ _ _ _ _ _ _ HT Hnode Ht Hty) as [Hlt Hcreate].
  destruct (CreateMirTypeNodeAt_spec ty' y i Hlt) as (pm & rm & tm & od & Hc).
  eexists. unfold mbind, st_bind. rewrite Hc. split; [reflexivity|]. split; [reflexivity|].
  split; [exact HS | apply Hcreate].
Qed.

(** ** One level of OutputType *)

(** The importer's side, once the base of the type has been read *)
Lemma sim_emit_rest w sw t tag ty strIdx (K : ST (Exp TypMarks) unit) :
  tag <> kBinKindTypeScalar -> 0 <= t -> mod_types md !! Z.to_nat t = Some (Some ty) ->
  Z.of_nat (length (tw_typ w)) < 2 ^ 31 -> sw_le (tw_str w) sw ->
  (nameStrIdx ty, strIdx) ∈ pairs GStr sw ->
  (forall w2, base_ok ty w2 strIdx ->
     simw w2 K (ImportType_switch imported ImpT tag (primType ty) strIdx (nameIsLocal ty)) (node_in ty)) ->
  sim (with_ext (module_strings md) (slot_counted w t) sw) K
    (t ← gets i_ext;
     let tyIdxUsed := wrap 32 (Z.of_nat (length (typeTable t))) in
     if tag =? kBinKindTypeScalar then mret (primType ty)
     else
       _ ← PushNull;
       _ ← push_typTab tyIdxUsed;
       type ← ImportType_switch imported ImpT tag (primType ty) strIdx (nameIsLocal ty);
       _ ← CreateMirTypeNodeAt type tyIdxUsed;
       mret tyIdxUsed)
    (fun _ b e i => exists w', tw_le w w' /\ TI w' e i /\ child (tw_typ w') t b).
Proof.
  intros Hscalar%Z.eqb_neq Ht Hty Hfew Hsw Hs HK e i a e' rest [HS HC] Hrun Hsm Hrest.
  set (y := wrap 32 (Z.of_nat (length (typeTable (i_ext i))))).
  assert (HC' : slot_counted (MkTW sw (tw_typ w) (tw_pend w)) t (e_ext e) (i_ext i)).
  { destruct HC as (m0 & Hstep & HT), w. exists m0. split; [done|]. by eapply TInv_strings. }
  pose proof (TInv_push _ t _ _ ty HC' Hfew Ht Hty) as HT2. simpl in HT2. fold y in HT2.
  match type of HT2 with TInv ?v _ ?tabs => set (w2 := v) in *; set (i2 := set_iext tabs i) end.
  destruct (HK w2 Hs e i2 a e' rest (conj HS HT2) Hrun Hsm Hrest)
    as (ty' & i3 & Hr3 & Hrem3 & w3 & Hw3 & HI3 & Hnode).
  destruct w3 as [sw3 tys3 pend3], Hw3 as (Hsw3 & Htys3 & Hp). simpl in Hp. subst pend3.
  destruct (simw_create _ _ _ _ _ _ _ _ _ _ eq_refl HI3 Hnode Ht Hty) as (i4 & Hr4 & Hrem4 & HI4).
  exists y, i4. split_and!; [| by rewrite Hrem4 |].
  - unfold mbind, st_bind, gets. fold y. rewrite Hscalar.
    change (match ImportType_switch imported ImpT tag (primType ty) strIdx (nameIsLocal ty) i2 with
      | Ret (a, s') => (_ ← CreateMirTypeNodeAt a y; mret y) s'
      | Fault f => Fault f end = Ret (y, i4)). by rewrite Hr3.
  - exists (MkTW sw3 tys3 (tw_pend w)). split_and!; [|done|].
    + split_and!; [exact (transitivity Hsw Hsw3) | | done]. etrans; [|exact Htys3]. by apply prefix_app_r.
    + eapply child_mono; [exact Htys3|]. simpl. apply elem_of_app. right. by left.
Qed.

Lemma sim_emit w t tag ty (K : ST (Exp TypMarks) unit) :
  0 < tag < 2 ^ 62 -> tag <> kBinKindTypeScalar -> Grows K -> wf_type md used ty -> 0 <= t ->
  mod_types md !! Z.to_nat t = Some (Some ty) -> Z.of_nat (length (tw_typ w)) < 2 ^ 31 ->
  (forall w2 strIdx, base_ok ty w2 strIdx ->
     simw w2 K (ImportType_switch imported ImpT tag (primType ty) strIdx (nameIsLocal ty)) (node_in ty)) ->
  sim (with_ext (module_strings md) (slot_counted w t) (tw_str w))
    (_ ← WriteNum tag; _ ← OutputTypeBase md ty; K) (ImportTypeNonJava_level imported ImpT)
    (fun _ b e i => exists w', tw_le w w' /\ TI w' e i /\ child (tw_typ w') t b).
Proof.
  intros Htag Hscalar HK Hwf Ht Hty Hfew Hsw. unfold ImportTypeNonJava_level.
  apply sim_num_bind; [apply with_ext_stable | unfold int64; lia | apply _ |].
  replace (tag =? 0) with false by lia. replace (tag <? 0) with false by lia.
  eapply sim_bind; [apply _ | by intros | by apply sim_type_base |].
  intros _ b e i a e' rest (sw & s & Hsw' & HI & -> & Hs) Hrun Hsm Hrest.
  by apply (sim_emit_rest w sw t tag ty s K Hscalar Ht Hty Hfew Hsw' Hs (fun w2 => Hsw w2 s) e i a e' rest).
Qed.

(** Every kind of type *)
Lemma sim_factory w t ty :
  wf_type md used ty -> 0 <= t -> mod_types md !! Z.to_nat t = Some (Some ty) ->
  Z.of_nat (length (tw_typ w)) < 2 ^ 31 ->
  sim (with_ext (module_strings md) (slot_counted w t) (tw_str w))
    (OutputTypeFactory md OutT ty) (ImportTypeNonJava_level imported ImpT)
    (fun _ b e i => exists w', tw_le w w' /\ TI w' e i /\ child (tw_typ w') t b).
Proof.
  intros Hwf Ht Hty Hfew. pose proof (proj1 Hwf) as Hb. unfold OutputTypeFactory.
  destruct (body ty) as [|p| |e|e|e dim sizes|ret fa ps pas ra| |n|kind imp cpp fs sfs pfs ms] eqn:Hbody;
    simpl in Hb; try done.
  - apply sim_emit; try done; try apply _. intros w2 s Hs. by apply simw_pointer.
  - apply sim_emit; try done; try apply _. intros w2 s Hs. apply (simw_elems w2 ty MIRFarrayType); try done.
    by constructor.
  - apply sim_emit; try done; try apply _. intros w2 s Hs. apply (simw_elems w2 ty MIRJarrayType); try done.
    by constructor.
  - apply sim_emit; try done; try apply _. intros w2 s Hs. by apply simw_array.
  - apply sim_emit; try done; try apply _. intros w2 s Hs. by eapply simw_function.
  - unfold OutputTypeTagged.
    apply (sim_ext _ _ (_ ← WriteNum kBinKindTypeParam; _ ← OutputTypeBase md ty; mret tt)).
    { intros e. unfold mbind, st_bind. destruct (WriteNum _ e) as [[? e1]|]; [|done].
      by destruct (OutputTypeBase md ty e1) as [[[] e2]|]. }
    apply sim_emit; try done; try apply _. intros w2 s Hs. apply (simw_ret w2 tt).
    destruct Hwf as (_ & _ & _ & _ & Hpt). rewrite Hbody in Hpt. unfold node_in, node_match; simpl.
    rewrite Hbody. split_and!; [constructor | done | done | done | done].
  - apply sim_emit; try done; try apply _. intros w2 s Hs. by apply simw_bitfield.
  - destruct Hb as (_ & _ & _ & ->). apply sim_emit; try done; try apply _. intros w2 s Hs.
    by eapply simw_struct.
Qed.
Hypothesis wf : wf_types md used.

Lemma prim_slot w m tabs k : TInv w m tabs -> (k < npty)%nat -> tw_typ w !! k = Some (Z.of_nat k, Z.of_nat k).
Proof.
  intros [] Hk. rewrite <- (lookup_take_lt _ npty k Hk), ti_prim0, list_lookup_fmap, lookup_seq_lt; done.
Qed.

(** The importer follows the mark of a type. *)
Lemma follow_typMark w t v b :
  0 < v < 2 ^ 31 -> tw_typ w !! Z.to_nat v = Some (t, b) ->
  simw w (WriteNum (- v)) (ImportTypeNonJava_level imported ImpT) (fun w' b => child (tw_typ w') t b).
Proof.
  intros Hv Hl. unfold ImportTypeNonJava_level. apply simw_num_last; [unfold int64; lia|].
  replace (- v =? 0) with false by lia. replace (- v <? 0) with true by lia.
  intros e i a e' rest HI [= <- <-] _ Hrest. rewrite written_self in Hrest.
  pose proof (lookup_lt_Some _ _ _ Hl) as Hlt.
  exists b, i. split_and!; [|done|].
  - destruct HI as [_ HT]. unfold mbind, st_bind, gets, lift, rd.
    rewrite Z.opp_involutive, wrap_small, (ti_tab _ _ _ HT), length_map by lia.
    replace (v <? _) with true by lia. simpl. rewrite list_lookup_fmap, Hl. done.
  - exists w. split_and!; [done | done |]. by eapply list_elem_of_lookup_2.
Qed.

Lemma types_few w e i : TI w e i -> small e -> Z.of_nat (length (tw_typ w)) < 2 ^ 31.
Proof.
  intros [_ HT] Hsm. unfold small, mark_count, marks, TypMarks_marks in Hsm.
  pose proof (ti_count _ _ _ HT). pose proof (ti_offset _ _ _ HT). lia.
Qed.

Lemma used_type t ty :
  used t -> t <> 0 -> mod_types md !! Z.to_nat t = Some (Some ty) ->
  0 <= t /\ ((npty <= Z.to_nat t)%nat -> wf_type md used ty) /\
  (is_function ty = true -> (npty <= Z.to_nat t)%nat).
Proof.
  intros Hu Ht Hty. destruct (wf t Hu) as (H0 & [?|(ty' & Hty' & Hw)]); [done|].
  rewrite Hty in Hty'. injection Hty' as <-. split; [done|].
  destruct (decide _); split; intros; (done || lia || congruence).
Qed.

(** A type that has a mark: the mark, unless it is a function type *)
Lemma sim_marked w t ty v m :
  used t -> t <> 0 -> mod_types md !! Z.to_nat t = Some (Some ty) ->
  Z.of_nat (length (tw_typ w)) < 2 ^ 31 -> m !! t = Some v ->
  sim (fun e i => m = typMark (e_ext e) /\ TI w e i)
    (if negb (is_function ty) then WriteNum (swrap 64 (- v))
     else _ ← update incr_typeMarkOffset; OutputTypeFactory md OutT ty)
    (ImportTypeNonJava_level imported ImpT)
    (fun _ b e i => exists w', tw_le w w' /\ TI w' e i /\ child (tw_typ w') t b).
Proof.
  intros Hu Ht0 Hty Hfew Hm. destruct (used_type t ty Hu Ht0 Hty) as (Ht & Hwf & Hf).
  destruct (is_function ty) eqn:Hfun; simpl.
  - apply (sim_left _ _ _ _ (fun _ => with_ext (module_strings md) (slot_counted w t) (tw_str w))).
    { intros e i [] e' [-> [HS HT]] [= <-]. split; [done|]. split; [exact HS|].
      exists (e_ext e). split; [by right | done]. }
    intros []. apply sim_factory; [by apply Hwf, Hf | done..].
  - eapply (sim_pre _ _ _ _ (0 < v < 2 ^ 31 /\ exists b, tw_typ w !! Z.to_nat v = Some (t, b))).
    { intros e i [-> [_ HT]]. destruct (ti_mark _ _ _ HT t v Hm) as [Hv (b & Hb)].
      pose proof (lookup_lt_Some _ _ _ Hb). split; [|by exists b]. assert (v <> 0); [|lia].
      intros ->. pose proof (prim_slot w _ _ 0 HT ltac:(vm_compute; lia)) as H0.
      change (Z.to_nat 0) with 0%nat in Hb. rewrite H0 in Hb. by injection Hb as ? _. }
    intros [Hv (b & Hb)]. apply (sim_weaken (TI w)); [by intros e i [_ HI]|].
    rewrite swrap_small by lia. by eapply follow_typMark.
Qed.

(** A type that has none: it gets the number of the slot. *)
Lemma sim_unmarked w t ty m :
  used t -> t <> 0 -> mod_types md !! Z.to_nat t = Some (Some ty) ->
  Z.of_nat (length (tw_typ w)) < 2 ^ 31 -> m !! t = None ->
  sim (fun e i => m = typMark (e_ext e) /\ TI w e i)
    (_ ← update (fun e =>
       let mark := Z.of_nat (size m) + typeMarkOffset (e_ext e) in
       set_typMark (<[t := swrap 64 mark]> m) e);
     OutputTypeFactory md OutT ty)
    (ImportTypeNonJava_level imported ImpT)
    (fun _ b e i => exists w', tw_le w w' /\ TI w' e i /\ child (tw_typ w') t b).
Proof.
  intros Hu Ht0 Hty Hfew Hm. destruct (used_type t ty Hu Ht0 Hty) as (Ht & Hwf & _).
  eapply (sim_pre _ _ _ _ (npty <= Z.to_nat t)%nat).
  { intros e i [-> [_ HT]]. destruct (decide (Z.to_nat t < npty)%nat) as [Hlt|]; [|lia].
    pose proof (ti_keys _ _ _ HT _ Hlt) as Hk. rewrite Z2Nat.id in Hk by done. by rewrite Hk in Hm. }
  intros Hge. apply (sim_left _ _ _ _ (fun _ => with_ext (module_strings md) (slot_counted w t) (tw_str w))).
  { intros e i [] e' [-> [HS HT]] [= <-]. split; [done|]. split; [exact HS|].
    exists (e_ext e). split; [|done]. left. split; [done|].
    rewrite (ti_count _ _ _ HT), swrap_small by lia. done. }
  intros []. apply sim_factory; [by apply Hwf | done..].
Qed.

Lemma simw_level w t :
  used t ->
  simw w (OutputType_level md OutT t) (ImportTypeNonJava_level imported ImpT)
    (fun w' b => child (tw_typ w') t b).
Proof.
  intros Ht. eapply sim_small; [apply _ | apply types_few |]. intros Hfew.
  unfold OutputType_level. destruct (Z.eqb_spec t 0) as [->|Ht0].
  { eapply sim_pre; [intros e i [_ HT]; exact (prim_slot w _ _ 0 HT ltac:(vm_compute; lia))|].
    intros H0. unfold ImportTypeNonJava_level. apply simw_num_last; [done|]. simpl. apply simw_ret.
    by eapply list_elem_of_lookup_2. }
  apply (sim_left _ _ _ _ (fun oty e i => mod_types md !! Z.to_nat t = Some oty /\ TI w e i)).
  { intros e i oty e' HI Hrun. unfold lift, GetTypeFromTyIdx in Hrun.
    destruct (t <? _); simpl in Hrun; [|done].
    destruct (mod_types md !! Z.to_nat t) eqn:Hty; [|done]. by injection Hrun as <- <-. }
  intros [ty|]; [|by intros e i a e' rest _].
  eapply sim_pre; [by intros e i [Hty _]|]. intros Hty.
  apply (sim_weaken (TI w)); [by intros e i [_ HI]|].
  apply (sim_left _ _ _ _ (fun m e i => m = typMark (e_ext e) /\ TI w e i)).
  { intros e i m e' HI [= <- <-]. done. }
  intros m. destruct (m !! t) as [v|] eqn:Hm; [by eapply sim_marked | by apply sim_unmarked].
Qed.
End Children.

Lemma simw_OutputType fuel w t :
  wf_types md used -> used t ->
  simw w (OutputType md fuel t) (ImportTypeNonJava imported fuel)
    (fun w' b => child (tw_typ w') t b).
Proof.
  intros Hwf. revert w t. induction fuel as [|fuel IH]; intros w t Ht; simpl.
  - by intros e i a e' rest _.
  - apply simw_level; [apply _ | intros; by apply IH | done | done].
Qed.
End Invariant.
