(* ===== verification/BinTypesTotal.v ===== *)
(** * The binary form of MapleIR: the export of types comes to an end

    Types are a graph with cycles.  Each nested call of OutputType either marks a
    type that had no mark, or writes a function type once more; as no function type
    is a part of another one, a depth of twice the number of types without a mark
    is enough. *)
From S2P Require Import PrimTypes.
From S2P Require Import BinCodec.
From S2P Require Import BinStrings.
From S2P Require Import BinTypes.
From S2P Require Import BinTypesFacts.

(** ** Tables that can be exported *)

(** The parts of a type *)
Definition parts (b : TypeBody) : list Z :=
  match b with
  | MIRScalarType | MIRTypeByName | MIRTypeParam | MIRBitFieldType _ => []
  | MIRPtrType t | MIRFarrayType t | MIRJarrayType t | MIRArrayType t _ _ => [t]
  | MIRFuncType ret _ ps _ _ => ret :: ps
  | MIRStructType _ _ _ fs sfs pfs _ => map fp_tyIdx (fs ++ sfs ++ pfs)
  end.

Definition field_names (b : TypeBody) : list Z :=
  match b with MIRStructType _ _ _ fs sfs pfs _ => map fp_name (fs ++ sfs ++ pfs) | _ => [] end.

Definition function_at (md : MIRModule) (t : Z) : bool :=
  match mod_types md !! Z.to_nat t with Some (Some ty) => is_function ty | _ => false end.

(** The names of a type are in the table of strings, and no function type is a part
    of a function type; a union that is imported cannot be written. *)
Definition closed_type (md : MIRModule) (ty : MIRType) : Prop :=
  valid_index (mod_str md) (nameStrIdx ty) /\ Forall (valid_index (mod_str md)) (field_names (body ty)) /\
  (is_function ty = true -> Forall (fun t => function_at md t = false) (parts (body ty))) /\
  match body ty with MIRStructType kind imp _ _ _ _ _ => imp = true -> kind <> kTypeUnion | _ => True end.

Definition closed_types (md : MIRModule) (used : Z -> Prop) : Prop :=
  wf_types md used /\
  forall t ty, used t -> (npty <= Z.to_nat t)%nat -> mod_types md !! Z.to_nat t = Some (Some ty) -> closed_type md ty.

(** The parts of a type in use are in use. *)
Lemma wf_parts md used ty : wf_type md used ty -> Forall used (parts (body ty)).
Proof.
  intros [Hb _]. destruct (body ty) as [|p| |e|e|e dim sizes|ret fa ps pas ra| |n|kind imp cpp fs sfs pfs ms];
    simpl in *; try done; try (by constructor).
  - constructor; [by apply Hb | done].
  - constructor; [by apply Hb | by apply Hb].
  - destruct Hb as ([_ H1] & [_ H2] & [_ H3] & _). rewrite Forall_map, !Forall_app.
    split_and!; (eapply Forall_impl; [eassumption|]); intros f Hf; by apply Hf.
Qed.

(** ** Types without a mark *)

Definition unmarked (md : MIRModule) (m : gmap Z Z) : nat :=
  length (filter (fun k => m !! Z.of_nat k = None) (seq 0 (length (mod_types md)))).

Definition grown (m m' : gmap Z Z) : Prop := forall t, m' !! t = None -> m !! t = None.

#[export] Instance grown_preorder : PreOrder grown.
Proof. split; [by intros m t | intros m1 m2 m3 H1 H2 t Ht; exact (H1 t (H2 t Ht))]. Qed.

Lemma filter_length_mono {A} (P Q : A -> Prop) `{!forall x, Decision (P x), !forall x, Decision (Q x)} (l : list A) :
  (forall x, Q x -> P x) -> (length (filter Q l) <= length (filter P l))%nat.
Proof.
  intros HQP. induction l as [|x l IH]; [done|]. rewrite !filter_cons.
  destruct (decide (P x)), (decide (Q x)); simpl; [lia | lia | naive_solver | lia].
Qed.

Lemma filter_length_lt {A} (P Q : A -> Prop) `{!forall x, Decision (P x), !forall x, Decision (Q x)} (l : list A) x :
  (forall y, Q y -> P y) -> x ∈ l -> P x -> ~ Q x -> (length (filter Q l) < length (filter P l))%nat.
Proof.
  intros HQP Hx HP HQ. induction Hx as [x l|x y l Hx IH]; rewrite !filter_cons.
  - destruct (decide (P x)), (decide (Q x)); try done. simpl. pose proof (filter_length_mono P Q l HQP). lia.
  - specialize (IH HP HQ). destruct (decide (P y)), (decide (Q y)); simpl; [lia | lia | naive_solver | lia].
Qed.

Lemma unmarked_grown md m m' : grown m m' -> (unmarked md m' <= unmarked md m)%nat.
Proof. intros Hg. apply filter_length_mono. intros k. apply Hg. Qed.

Lemma unmarked_insert md m t v ty :
  0 <= t -> mod_types md !! Z.to_nat t = Some (Some ty) -> m !! t = None ->
  (unmarked md (<[t := v]> m) < unmarked md m)%nat.
Proof.
  intros Ht Hty Hm. apply (filter_length_lt _ _ _ (Z.to_nat t)).
  - intros k. rewrite lookup_insert_None. by intros [? _].
  - apply elem_of_seq. apply lookup_lt_Some in Hty. lia.
  - by rewrite Z2Nat.id.
  - rewrite Z2Nat.id, lookup_insert_eq by done. done.
Qed.

(** ** Writers that return *)

Section Total.
Variables (md : MIRModule) (used : Z -> Prop).
Notation W := (ST (Exp TypMarks)).

Definition marks_of (e : Exp TypMarks) : gmap Z Z := typMark (e_ext e).

(** A new exporter has marked the primitive types. *)
Definition prims_marked (m : gmap Z Z) : Prop := forall k, (k < npty)%nat -> m !! Z.of_nat k <> None.

(** [m] returns when at most [n] types have no mark, and takes no mark back. *)
Class Total {A} (n : nat) (m : W A) : Prop :=
  total : forall e, prims_marked (marks_of e) -> (unmarked md (marks_of e) <= n)%nat ->
    exists a e', m e = Ret (a, e') /\ grown (marks_of e) (marks_of e').

#[export] Instance total_ret {A} n (a : A) : Total n (mret a : W A).
Proof. intros e _ _. by exists a, e. Qed.

Lemma total_bind {A B} n (m : W A) (k : A -> W B) :
  Total n m -> (forall a, Total n (k a)) -> Total n (m ≫= k).
Proof.
  intros Hm Hk e Hp He. destruct (Hm e Hp He) as (a & e1 & H1 & Hg1).
  destruct (Hk a e1) as (b & e2 & H2 & Hg2).
  { intros j Hlt Hn. exact (Hp j Hlt (Hg1 _ Hn)). }
  { pose proof (unmarked_grown md _ _ Hg1). lia. }
  exists b, e2. unfold mbind, st_bind. rewrite H1. split; [done|]. by etrans.
Qed.

Lemma total_each {A} n (f : A -> W unit) (l : list A) :
  (forall x, x ∈ l -> Total n (f x)) -> Total n (each f l).
Proof.
  induction l as [|x l IH]; intros Hf; simpl; [apply _|].
  apply total_bind; [apply Hf; by left | intros _; apply IH; intros; apply Hf; by right].
Qed.

Lemma total_Write n b : Total n (Write b).
Proof. intros e _ _. eexists tt, _. split; [reflexivity | done]. Qed.

Lemma total_WriteNum n x : int64 x -> Total n (WriteNum x).
Proof.
  intros Hx e _ _. exists tt, (set_buf (e_buf e ++ leb 9 x) e). split; [|done].
  exact (WriteNum_run x e Hx).
Qed.

Lemma total_swrap n x : Total n (WriteNum (swrap 64 x)).
Proof. apply total_WriteNum. exact (swrap_range 64 x ltac:(lia)). Qed.

Lemma total_lift {A B} n (r : res A) (a : A) (k : A -> W B) :
  r = Ret a -> Total n (k a) -> Total n (lift r ≫= k).
Proof. intros -> Hk. exact Hk. Qed.

Lemma total_OutputStr n g : valid_index (mod_str md) g -> Total n (OutputStr (mod_str md) g).
Proof.
  intros Hg e _ _. destruct (OutputStrOf_returns GStr (mod_str md) g e Hg) as (e' & He & Hx).
  exists tt, e'. split; [exact He|]. unfold marks_of. by rewrite Hx.
Qed.

(** ** The parts of the format *)

Ltac total_step :=
  first [ apply total_ret | apply total_swrap | apply total_Write
        | apply total_WriteNum; unfold int64; lia
        | apply total_bind; [|intros _] ].

Lemma total_TypeAttrs n ta : wf_TypeAttrs ta -> Total n (OutputTypeAttrs ta).
Proof.
  intros (_ & Ha & Hp). unfold OutputTypeAttrs. total_step; [apply total_each; intros; total_step|].
  repeat total_step.
Qed.

Lemma total_FuncAttrFlag n flag : Total n (OutputFuncAttrFlag flag).
Proof.
  unfold OutputFuncAttrFlag. apply total_each. intros i Hi%elem_of_seq.
  eapply total_lift; [|apply total_swrap]. unfold ExtractAttrFlagElement.
  by replace (i <? kNumU64InFuncAttr)%nat with true by (symmetry; apply Nat.ltb_lt; lia).
Qed.

Lemma total_TypeBase n ty :
  0 <= primType ty < 2 ^ 32 -> valid_index (mod_str md) (nameStrIdx ty) -> Total n (OutputTypeBase md ty).
Proof.
  intros Hp Hn. unfold OutputTypeBase. total_step; [total_step|]. total_step; [by apply total_OutputStr|].
  apply total_WriteNum. unfold int64. destruct (nameIsLocal ty); simpl; lia.
Qed.

Section Factory.
Variables (n : nat) (OutT : Z -> W unit).

Lemma total_field f :
  wf_field md used f -> valid_index (mod_str md) (fp_name f) -> Total n (OutT (fp_tyIdx f)) ->
  Total n (OutputFieldPair md OutT f).
Proof.
  intros (_ & _ & _ & Ha & H16) Hn Ht. unfold OutputFieldPair.
  total_step; [by apply total_OutputStr|]. total_step; [done|].
  total_step; [apply total_each; intros; total_step|]. total_step; [total_step|].
  rewrite H16. destruct (may_have_init _); total_step.
Qed.

Lemma total_fields l :
  wf_fields md used l -> Forall (valid_index (mod_str md)) (map fp_name l) ->
  (forall t, t ∈ map fp_tyIdx l -> Total n (OutT t)) -> Total n (OutputFieldsOfStruct md OutT l).
Proof.
  intros [Hl Hwf] Hn Ht. unfold OutputFieldsOfStruct.
  total_step; [apply total_WriteNum; by apply int64_length|].
  rewrite Forall_map, Forall_forall in Hn. rewrite Forall_forall in Hwf.
  apply total_each. intros f Hf. apply total_field; [by apply Hwf | by apply Hn |].
  apply Ht, list_elem_of_fmap. by exists f.
Qed.

Lemma total_struct ty kind imp cpp fs sfs pfs :
  wf_type md used ty -> closed_type md ty -> body ty = MIRStructType kind imp cpp fs sfs pfs [] ->
  (forall t, t ∈ parts (body ty) -> Total n (OutT t)) ->
  Total n (OutputTypeStruct md OutT ty kind imp fs sfs pfs []).
Proof.
  intros (Hb & Hp & _ & Hta & _) (Hn & Hfn & _ & Hu) Hbody Ht. rewrite Hbody in *.
  destruct Hb as (Hfs & Hsfs & Hpfs & _). simpl in Hfn, Ht. rewrite !map_app in Hfn, Ht.
  apply Forall_app in Hfn as [Hn1 [Hn2 Hn3]%Forall_app].
  assert (Hrest : forall k, Total n (_ ← WriteNum (StructKind_code k); _ ← OutputTypeAttrs (typeAttrs ty);
    if bool_decide (k = kTypeStructIncomplete) then mret tt else OutputStructTypeData md OutT fs sfs pfs [])).
  { intros k. total_step; [apply total_WriteNum; by destruct k|].
    total_step; [by apply total_TypeAttrs|]. case_bool_decide; [total_step|]. unfold OutputStructTypeData.
    total_step; [apply total_fields; [done | done |] | total_step; [apply total_fields; [done | done |]
      | total_step; [apply total_fields; [done | done |]|]]];
      try (intros t Hin; apply Ht; rewrite !elem_of_app; tauto).
    unfold OutputMethodsOfStruct. apply total_bind; [by apply total_WriteNum | intros _; apply total_ret]. }
  unfold OutputTypeStruct. total_step; [by apply total_WriteNum|]. total_step; [by apply total_TypeBase|].
  destruct imp; [|apply Hrest].
  rewrite bool_decide_eq_false_2 by by apply Hu. apply Hrest.
Qed.

Lemma total_factory ty :
  wf_type md used ty -> closed_type md ty -> (forall t, t ∈ parts (body ty) -> Total n (OutT t)) ->
  Total n (OutputTypeFactory md OutT ty).
Proof.
  intros Hwf Hc Ht. pose proof Hwf as (Hb & Hp & _ & Hta & _). pose proof Hc as (Hn & _).
  pose proof (total_TypeBase n ty Hp Hn) as Hbase. unfold OutputTypeFactory.
  destruct (body ty) as [|p| |e|e|e dim sizes|ret fa ps pas ra| |k|kind imp cpp fs sfs pfs ms] eqn:Hbody;
    simpl in Hb; try done.
  - unfold OutputTypePointer. total_step; [by apply total_WriteNum|]. total_step; [done|].
    total_step; [by apply total_TypeAttrs | apply Ht; by left].
  - unfold OutputTypeElems. total_step; [by apply total_WriteNum|]. total_step; [done | apply Ht; by left].
  - unfold OutputTypeElems. total_step; [by apply total_WriteNum|]. total_step; [done | apply Ht; by left].
  - destruct Hb as (_ & Hd & Hl & Hs). unfold OutputTypeArray.
    total_step; [by apply total_WriteNum|]. total_step; [done|].
    total_step; [apply total_WriteNum; unfold int64, kMaxArrayDim in *; lia|].
    total_step; [|total_step; [apply Ht; by left | by apply total_TypeAttrs]].
    apply total_each. intros i Hi%elem_of_seq. unfold GetSizeArrayItem, rd.
    rewrite at_lookup by (unfold kMaxArrayDim in *; lia).
    replace (Z.of_nat i <? kMaxArrayDim) with true by lia. apply total_WriteNum.
    rewrite Forall_lookup in Hs.
    pose proof (Hs i _ (at_lookup sizes i ltac:(unfold kMaxArrayDim in *; lia))). unfold int64. lia.
  - destruct Hb as (_ & _ & Hlps & _ & Hlpas & Hpas). unfold OutputTypeFunction.
    total_step; [by apply total_WriteNum|]. total_step; [done|].
    total_step; [apply Ht; by left|]. total_step; [apply total_FuncAttrFlag|].
    total_step; [apply total_WriteNum; by apply int64_length|].
    total_step; [apply total_each; intros t Hin; apply Ht; by right|].
    total_step; [apply total_WriteNum; by apply int64_length|].
    rewrite Forall_forall in Hpas. apply total_each. intros ta Hin. by apply total_TypeAttrs, Hpas.
  - unfold OutputTypeTagged. total_step; [by apply total_WriteNum | done].
  - unfold OutputTypeBitField. total_step; [by apply total_WriteNum|]. total_step; [done | total_step].
  - destruct Hb as (_ & _ & _ & ->). eapply total_struct; try done. by rewrite Hbody.
Qed.
End Factory.

(** ** OutputType *)

Lemma total_level n fuel t :
  closed_types md used -> used t ->
  (2 * n + (if function_at md t then 1 else 0) < Datatypes.S fuel)%nat ->
  (forall n' c, used c -> (2 * n' + (if function_at md c then 1 else 0) < fuel)%nat ->
     Total n' (OutputType md fuel c)) ->
  Total n (OutputType_level md (OutputType md fuel) t).
Proof.
  intros (Hwf & Hclosed) Hu Hfuel IH. unfold OutputType_level.
  destruct (Z.eqb_spec t 0) as [->|Ht0]; [by apply total_WriteNum|].
  destruct (Hwf t Hu) as (Ht & [?|(ty & Hty & _)]); [done|].
  destruct (used_type md used Hwf t ty Hu Ht0 Hty) as (_ & Hwt & Hfn).
  apply (total_lift _ _ (Some ty)).
  { unfold GetTypeFromTyIdx. pose proof (lookup_lt_Some _ _ _ Hty). replace (t <? _) with true by lia.
    simpl. by rewrite Hty. }
  assert (Hfun : function_at md t = is_function ty) by (unfold function_at; by rewrite Hty).
  rewrite Hfun in Hfuel.
  assert (Hparts : forall n', (npty <= Z.to_nat t)%nat ->
    (forall c, c ∈ parts (body ty) -> (2 * n' + (if function_at md c then 1 else 0) < fuel)%nat) ->
    Total n' (OutputTypeFactory md (OutputType md fuel) ty)).
  { intros n' Hge Hc. apply total_factory; [by apply Hwt | by eapply Hclosed |].
    intros c Hin. apply IH; [|by apply Hc].
    pose proof (wf_parts _ _ _ (Hwt Hge)) as Hall. rewrite Forall_forall in Hall. by apply Hall. }
  intros e Hp He. unfold mbind, st_bind, gets, update.
  destruct (typMark (e_ext e) !! t) as [v|] eqn:Hm.
  - destruct (is_function ty) eqn:Hf; simpl; [|by apply (total_swrap n)].
    pose proof (Hfn eq_refl) as Hge.
    refine (Hparts n Hge _ (incr_typeMarkOffset e) Hp He). intros c Hc.
    destruct (Hclosed _ _ Hu Hge Hty) as (_ & _ & Hff & _). specialize (Hff Hf).
    rewrite Forall_forall in Hff. rewrite (Hff c Hc). lia.
  - assert (Hge : (npty <= Z.to_nat t)%nat).
    { destruct (decide (Z.to_nat t < npty)%nat) as [Hlt|]; [|lia].
      exfalso. apply (Hp _ Hlt). by rewrite Z2Nat.id. }
    set (e1 := set_typMark _ e).
    assert (Hlt : (unmarked md (marks_of e1) < unmarked md (marks_of e))%nat)
      by (eapply unmarked_insert; [exact Ht | exact Hty | exact Hm]).
    assert (Hg1 : grown (marks_of e) (marks_of e1)).
    { intros k. unfold marks_of; simpl. rewrite lookup_insert_None. by intros [? _]. }
    assert (Hp1 : prims_marked (marks_of e1)) by (intros k Hk Hn; exact (Hp k Hk (Hg1 _ Hn))).
    assert (Hc : forall c, c ∈ parts (body ty) -> (2 * (n - 1) + (if function_at md c then 1 else 0) < fuel)%nat)
      by (intros c _; destruct (function_at md c), (is_function ty); lia).
    destruct (Hparts (n - 1)%nat Hge Hc e1 Hp1 ltac:(lia)) as (a & e2 & H2 & Hg2).
    exists a, e2. split; [exact H2 | exact (transitivity Hg1 Hg2)].
Qed.

Lemma total_OutputType fuel n t :
  closed_types md used -> used t ->
  (2 * n + (if function_at md t then 1 else 0) < fuel)%nat -> Total n (OutputType md fuel t).
Proof.
  intros Hc. revert n t. induction fuel as [|fuel IH]; intros n t Ht Hf; [lia|].
  apply total_level; [done | done | done |]. intros n' c. apply IH.
Qed.

End Total.
