(* ===== verification/BinExamples.v ===== *)
(** * The binary form of MapleIR: examples

    A recursive struct on which the theorems of this part are applied, and inputs
    that do not survive the trip through the binary form. *)
From S2P Require Import PrimTypes.
From S2P Require Import BinCodec.
From S2P Require Import BinStrings.
From S2P Require Import BinTypes.
From S2P Require Import BinTypesFacts.
From S2P Require Import BinTypesTotal.
From S2P Require Import BinTypesSpec.

(** ** A module: a struct node with an i32 and a pointer to node, the pointer, and
    the type of a function on two of them *)

Definition plain_field (name t : Z) : FieldPair := MkFieldPair name t FieldAttrs_default.

Definition prim_table : TypeTable :=
  map (fun k => Some (MkMIRType MIRScalarType (Z.of_nat k) false (Z.of_nat k) 0 TypeAttrs_default)) (seq 0 npty).

Definition ex_types : TypeTable :=
  let n := Z.of_nat npty in
  prim_table ++
  [Some (MkMIRType (MIRStructType kTypeStruct false false
           [plain_field 2 (code_of PTY_i32); plain_field 3 (n + 1)] [] [] [])
         (code_of PTY_agg) false n 1 TypeAttrs_default);
   Some (MkMIRType (MIRPtrType n) (code_of PTY_ptr) false (n + 1) 0 TypeAttrs_default);
   Some (MkMIRType (MIRFuncType (code_of PTY_void) FuncAttrs_default [n + 1; n + 1]
           [TypeAttrs_default; TypeAttrs_default] TypeAttrs_default)
         (code_of PTY_ptr) false (n + 2) 0 TypeAttrs_default)].

(** "node", "v", "next" *)
Definition ex_strings : StringTable :=
  MkStringTable [[]; [110; 111; 100; 101]; [118]; [110; 101; 120; 116]] ∅.

Definition ex_module : MIRModule := MkMIRModule ex_strings ex_strings ex_types (fun _ => false).

Definition ex_used (t : Z) : Prop :=
  t ∈ [code_of PTY_void; code_of PTY_i32; Z.of_nat npty; Z.of_nat npty + 1; Z.of_nat npty + 2].

(** The strings of the importing compiler: "x" and "v" *)
Definition ex_table : StringTable :=
  MkStringTable [[]; [120]; [118]] {[ [120] := 1; [118] := 2 ]}.

Ltac in_list := simpl; unfold ex_used; apply (bool_decide_unpack _); vm_compute; exact I.

Lemma default_words n : word_list n (repeat 0 n).
Proof. split; [apply repeat_length|]. apply Forall_forall. intros x Hx%list_elem_of_In%repeat_spec; subst. lia. Qed.

Lemma default_attrs_wf : wf_TypeAttrs TypeAttrs_default.
Proof. split; [apply default_words|]. split; [simpl; lia|]. apply (wrap_range 32). lia. Qed.

Lemma default_field_wf n t : ex_used t -> 0 <= n -> wf_field ex_module ex_used (plain_field n t).
Proof.
  intros Hu Hn. split; [done|]. split; [done|]. split; [apply default_words|]. split; [simpl; lia | done].
Qed.

Lemma default_type_wf b p t n :
  wf_body ex_module ex_used b -> 0 <= n ->
  match fixed_primType b with Some q => p = q | None => True end ->
  wf_type ex_module ex_used (MkMIRType b (code_of p) false t n TypeAttrs_default).
Proof.
  intros Hb Hn Hf. split; [done|]. split; [|split; [done|]; split; [apply default_attrs_wf|]].
  - destruct p; vm_compute; split; congruence.
  - simpl. destruct (fixed_primType b); [by f_equal | done].
Qed.

Lemma ex_wf_types : wf_types ex_module ex_used.
Proof.
  intros t Ht. unfold ex_used in Ht. rewrite !elem_of_cons, elem_of_nil in Ht.
  destruct Ht as [->|[->|[->|[->|[->|[]]]]]]; (split; [by apply Z.leb_le|right]);
    eexists; (split; [reflexivity|]); try reflexivity; simpl; apply default_type_wf; try done.
  - split; [|split; [by split|by split]]. split; [by vm_compute|].
    constructor; [apply default_field_wf; [in_list | lia]|].
    constructor; [apply default_field_wf; [in_list | lia] | done].
  - in_list.
  - split; [in_list|]. split; [done|]. split; [by vm_compute|]. split; [|split; [by vm_compute|]].
    + constructor; [in_list|]. constructor; [in_list | done].
    + constructor; [apply default_attrs_wf|]. constructor; [apply default_attrs_wf | done].
Qed.

Lemma ex_closed_types : closed_types ex_module ex_used.
Proof.
  split; [exact ex_wf_types|]. intros t ty Ht Hge Hty. unfold ex_used in Ht.
  rewrite !elem_of_cons, elem_of_nil in Ht.
  destruct Ht as [->|[->|[->|[->|[->|[]]]]]]; try (exfalso; revert Hge; vm_compute; lia);
    injection Hty as <-; (split; [by vm_compute|]); (split; [|split; [|by vm_compute]]); simpl; intros;
    repeat (constructor; try by vm_compute); done.
Qed.

Lemma ex_strings_good : good_table ex_strings.
Proof.
  unfold good_table, byte_string. apply (bool_decide_unpack _). by vm_compute.
Qed.

Lemma ex_table_wf : wf_table ex_table.
Proof.
  split; [simpl; lia|]. intros s i. simpl. rewrite lookup_insert_Some.
  by intros [[<- <-]|[_ [<- <-]%lookup_singleton_Some]].
Qed.

(** ** The theorems at work *)

Definition ex_list : list Z := [Z.of_nat npty + 2; Z.of_nat npty; code_of PTY_i32; Z.of_nat npty + 2].

Definition ex_exp : Exp TypMarks :=
  match each (OutputType ex_module 100) ex_list Init with Ret (_, e) => e | Fault _ => Init end.

Lemma ex_list_used : Forall ex_used ex_list.
Proof. repeat (constructor; [in_list|]). constructor. Qed.

Lemma export_terminates_witness :
  exists e, each (OutputType ex_module 200) ex_list Init = Ret (tt, e).
Proof.
  apply (export_terminates ex_module ex_used 200 ex_list).
  - exact ex_closed_types.
  - exact ex_list_used.
  - apply Nat.leb_le. reflexivity.
Defined.

Lemma types_roundtrip_witness :
  wp (times 4 (ImportTypeNonJava false 100) (Reset (e_buf ex_exp) ex_table ex_table prim_table))
    (fun out => remaining (snd out) = [] /\
       exists names types, Forall2 (child types) ex_list (fst out) /\
         imported_as ex_module false names types (snd out)).
Proof.
  apply (types_roundtrip ex_module ex_used false 100 ex_list ex_exp ex_table ex_table prim_table).
  - split; [exact ex_wf_types | split; exact ex_strings_good].
  - split; [exact ex_table_wf | split; [exact ex_table_wf | split; [by vm_compute | split; by vm_compute]]].
  - exact ex_list_used.
  - vm_compute. reflexivity.
  - vm_compute. reflexivity.
Defined.

Lemma num_roundtrip_witness :
  let i : Imp unit := MkImp [0x80; 0x7F; 5] 0 [0] [0] ex_table ex_table tt in
  exists bytes,
    WriteNum (-128) (NewExp tt) = Ret (tt, set_buf (e_buf (NewExp tt) ++ bytes) (NewExp tt)) /\
    (1 <= length bytes <= 10)%nat /\ Forall (fun b => 0 <= b < 256) bytes /\
    (remaining i = bytes ++ [5] -> exists k, ReadNum i = Ret (-128, set_bufI k i) /\ remaining (set_bufI k i) = [5]).
Proof. intros i. apply (num_roundtrip (-128) (NewExp tt) i [5]). split; lia. Defined.

Lemma str_roundtrip_witness :
  exists e, each (OutputStrOf GStr ex_strings) [2; 0; 2; 1] (NewExp (E := TypMarks) (MkTypMarks prim_marks 0)) = Ret (tt, e) /\
    (small e ->
     wp (times 4 (ImportStrOf GStr) (NewImp (e_buf e) ex_table ex_table tt))
       (fun out => remaining (snd out) = [] /\
          Forall2 (fun g g' => same_string ex_strings (globalStr GStr (snd out)) (g, g')) [2; 0; 2; 1] (fst out) /\
          wf_table (globalStr GStr (snd out)))).
Proof.
  apply (str_roundtrip GStr ex_strings ex_strings ex_table ex_table [2; 0; 2; 1] (MkTypMarks prim_marks 0) tt).
  - repeat (constructor; [by vm_compute|]). constructor.
  - exact ex_strings_good.
  - exact ex_strings_good.
  - exact ex_table_wf.
  - exact ex_table_wf.
  - by vm_compute.
  - by vm_compute.
Defined.

(** ** What does not survive *)

Definition with_type (ty : MIRType) : MIRModule :=
  MkMIRModule ex_strings ex_strings (prim_table ++ [Some ty]) (fun _ => false).

Definition is_ret {A : Type} (m : res A) : bool := match m with Ret _ => true | Fault _ => false end.

(** Export of the type above, and import into [ex_table] *)
Definition export_type (ty : MIRType) : res (unit * Exp TypMarks) :=
  OutputType (with_type ty) 10 (Z.of_nat npty) Init.
Definition import_type (ty : MIRType) : res (option MIRType) :=
  '(_, e) ← export_type ty;
  '(t, i) ← ImportTypeNonJava false 10 (Reset (e_buf e) ex_table ex_table prim_table);
  GetTypeFromTyIdx (typeTable (i_ext i)) t.

Definition named_type (b : TypeBody) (p : PrimType) : MIRType :=
  MkMIRType b (code_of p) false (Z.of_nat npty) 1 TypeAttrs_default.

(** A type by name is written with a tag that the importer does not know. *)
Example type_by_name_lost :
  is_ret (export_type (named_type MIRTypeByName PTY_void)) = true /\
  import_type (named_type MIRTypeByName PTY_void) = Fault CheckFatal.
Proof. by vm_compute. Qed.

(** An array of kMaxArrayDim dimensions is written, but its import stops; one
    dimension less is read back. *)
Definition array_type (dim : Z) : MIRType :=
  named_type (MIRArrayType (code_of PTY_i32) dim (repeat 4 (Z.to_nat kMaxArrayDim))) PTY_agg.

Example max_array_lost :
  is_ret (export_type (array_type kMaxArrayDim)) = true /\
  import_type (array_type kMaxArrayDim) = Fault CheckFatal /\
  is_ret (import_type (array_type (kMaxArrayDim - 1))) = true.
Proof. by vm_compute. Qed.

(** A struct forgets that it is one of C++. *)
Example cplusplus_lost :
  exists ty, import_type (named_type (MIRStructType kTypeStruct false true [] [] [] []) PTY_agg) = Ret (Some ty) /\
    body ty = MIRStructType kTypeStruct false false [] [] [] [].
Proof. eexists. split; [by vm_compute | done]. Qed.
