(* ===== verification/Dominance.v ===== *)
(** * Dominators

    The class Dominance of maple_util/include/dominance.h, which the mid-end uses
    for dominators and, on the reversed graph, for post-dominators.  A node
    (base_graph_node.h) is its id, and a pointer to a node is an option.  The
    vectors and maps of the class are the fields of [Dominance]; reading a vector
    outside its bounds, [at] of a map without the key and using a null pointer are
    faults.

    The graph is a parameter: which entries of nodeVec are not null, and the
    virtual functions GetOutNodes and GetInNodes of its nodes. *)
From stdpp Require Import gmap sets sorting.
From S2P Require Import Prelude.

Record Graph : Type := MkGraph {
  nodeVec : list bool;
  GetOutNodes : nat -> list nat;
  GetInNodes : nat -> list nat;
  commonEntryNode : nat;
  commonExitNode : nat;
  isPdom : bool
}.

(** ** Vectors, maps and pointers *)

Definition vec {A : Type} (l : list A) (i : nat) : res A :=
  match l !! i with Some x => Ret x | None => Fault OutOfBounds end.
Definition vec_set {A : Type} (l : list A) (i : nat) (x : A) : res (list A) :=
  if (i <? length l)%nat then Ret (<[i := x]> l) else Fault OutOfBounds.
Definition deref (p : option nat) : res nat :=
  match p with Some n => Ret n | None => Fault OutOfBounds end.

(** doms; its operator[] enters a null pointer for a new key. *)
Notation Doms := (gmap nat (option nat)).
Definition doms_get (d : Doms) (k : nat) : option nat * Doms :=
  match d !! k with Some p => (p, d) | None => (None, <[k := None]> d) end.
Definition doms_at (d : Doms) (k : nat) : res (option nat) :=
  match d !! k with Some p => Ret p | None => Fault OutOfBounds end.

(** A loop over the elements of a container *)
Fixpoint for_each {A S : Type} (f : A -> S -> res S) (l : list A) (s : S) : res S :=
  match l with [] => Ret s | x :: l' => s' ← f x s; for_each f l' s' end.

(** MapleSet is an ordered set. *)
Definition in_order (s : gset nat) : list nat := merge_sort (≤)%nat (elements s).

Section Dominance.
Variable (g : Graph).

Definition GetNextNodesToVisit (node : nat) : list nat :=
  if isPdom g then GetInNodes g node else GetOutNodes g node.
Definition GetPrevNodesToVisit (node : nat) : list nat :=
  if isPdom g then GetOutNodes g node else GetInNodes g node.

(** ** Post-order numbers *)

Record Walk : Type := MkWalk {
  w_stack : list nat;
  w_pid : nat;
  w_visited : list bool;
  postOrderIDVec : list Z
}.

(** The loop over the successors, up to the first that has not been visited *)
Fixpoint first_unvisited (visited : list bool) (succs : list nat) : res (option nat) :=
  match succs with
  | [] => Ret None
  | succ :: succs' => v ← vec visited succ; if negb v then Ret (Some succ) else first_unvisited visited succs'
  end.

Definition walk_step (w : Walk) : res Walk :=
  match w_stack w with
  | [] => Ret w
  | node :: s =>
      live ← vec (nodeVec g) node;
      if negb live then Ret (MkWalk s (w_pid w) (w_visited w) (postOrderIDVec w))
      else
        _ ← ASSERT ((node <? length (w_visited w)) && (node <? length (postOrderIDVec w)))%nat;
        o ← first_unvisited (w_visited w) (GetNextNodesToVisit node);
        match o with
        | Some succ =>
            visited ← vec_set (w_visited w) succ true;
            Ret (MkWalk (succ :: w_stack w) (w_pid w) visited (postOrderIDVec w))
        | None =>
            ids ← vec_set (postOrderIDVec w) node (swrap 32 (Z.of_nat (w_pid w)));
            Ret (MkWalk s (w_pid w + 1) (w_visited w) ids)
        end
  end.

(** Every iteration pushes a node that has not been visited, or pops one. *)
Definition PostOrderWalk (root : nat) (visited : list bool) (ids : list Z) : res Walk :=
  visited ← vec_set visited root true;
  while_fuel (2 * length (nodeVec g) + 1) (fun w => negb (bool_decide (w_stack w = []))) walk_step
    (MkWalk [root] 0 visited ids).

(** The new places of reversePostOrder are null. *)
Definition GenPostOrderID : res (list Z * list (option nat)) :=
  _ ← ASSERT (negb (length (nodeVec g) =? 0)%nat);
  let n := length (nodeVec g) in
  w ← PostOrderWalk (commonEntryNode g) (replicate n false) (replicate n (-1));
  let ids := postOrderIDVec w in
  let maxPostOrderID := wrap 64 (Z.of_nat (w_pid w) - 1) in
  order ← for_up (length ids) 0 (fun i (order : list (option nat)) =>
    no ← vec ids i;
    if no =? -1 then Ret order
    else
      live ← vec (nodeVec g) i;
      vec_set order (Z.to_nat (wrap 64 (maxPostOrderID - wrap 32 no))) (if live : bool then Some i else None))
    (replicate (w_pid w) None);
  Ret (ids, order).

(** ** Immediate dominators *)

Section Order.
Variables (ids : list Z) (reversePostOrder : list (option nat)).

(** while (postOrderIDVec[p->GetID()] < postOrderIDVec[q->GetID()]) p = doms.at(p->GetID()) *)
Fixpoint climb (fuel : nat) (d : Doms) (p q : nat) : res nat :=
  a ← vec ids p; b ← vec ids q;
  if a <? b then
    match fuel with
    | O => Fault OutOfFuel
    | Datatypes.S fuel' => r ← doms_at d p; p' ← deref r; climb fuel' d p' q
    end
  else Ret p.

Fixpoint Intersect_loop (fuel : nat) (d : Doms) (ptrNode1 ptrNode2 : nat) : res nat :=
  if (ptrNode1 =? ptrNode2)%nat then Ret ptrNode1
  else
    match fuel with
    | O => Fault OutOfFuel
    | Datatypes.S fuel' =>
        p ← climb (length ids) d ptrNode1 ptrNode2;
        q ← climb (length ids) d ptrNode2 p;
        Intersect_loop fuel' d p q
    end.
Definition Intersect (d : Doms) (node1 node2 : nat) : res nat := Intersect_loop (length ids) d node1 node2.

Definition InitNodeIsPred (node : nat) : bool :=
  bool_decide (node ∈ GetNextNodesToVisit (commonEntryNode g)).

(** The while loop that looks for a predecessor with a dominator; [rest] are the
    predecessors from j on. *)
Fixpoint first_processed (d : Doms) (node pre : nat) (rest : list nat) : nat * list nat * Doms :=
  let '(p, d) := doms_get d pre in
  if bool_decide (p = None) || (pre =? node)%nat then
    match rest with [] => (pre, [], d) | q :: rest' => first_processed d node q rest' end
  else (pre, rest, d).

Fixpoint intersect_rest (d : Doms) (node newIDom : nat) (rest : list nat) : res (nat * Doms) :=
  match rest with
  | [] => Ret (newIDom, d)
  | pre :: rest' =>
      let '(p, d) := doms_get d pre in
      newIDom ← (if negb (bool_decide (p = None)) && negb (pre =? node)%nat
                 then Intersect d pre newIDom else Ret newIDom);
      intersect_rest d node newIDom rest'
  end.

(** The body of the for loop *)
Definition compute_dom (i : nat) (st : Doms * bool) : res (Doms * bool) :=
  let '(d, changed) := st in
  r ← vec reversePostOrder i;
  node ← deref r;
  let prevNodes := GetPrevNodesToVisit node in
  pre ← (if InitNodeIsPred node || (length prevNodes =? 0)%nat then Ret (commonEntryNode g)
         else vec prevNodes 0);
  let '(pre, rest, d) := first_processed d node pre (drop 1 prevNodes) in
  out ← intersect_rest d node pre rest;
  let '(newIDom, d) := out in
  let '(old, d) := doms_get d node in
  if bool_decide (old = Some newIDom) then Ret (d, changed) else Ret (<[node := Some newIDom]> d, true).

Definition dom_pass (d : Doms) : res (Doms * bool) :=
  for_up (length reversePostOrder - 1) 1 compute_dom (d, false).

(** do ... while (changed); [fuel] bounds the passes but the first. *)
Fixpoint dom_passes (fuel : nat) (d : Doms) : res Doms :=
  out ← dom_pass d;
  let '(d, changed) := out in
  if changed : bool then
    match fuel with O => Fault OutOfFuel | Datatypes.S fuel' => dom_passes fuel' d end
  else Ret d.

Definition dom_fuel : nat := length (nodeVec g) * length (nodeVec g) + 1.

Definition ComputeDominance : res Doms :=
  dom_passes dom_fuel {[ commonEntryNode g := Some (commonEntryNode g) ]}.
End Order.

(** ** Dominance frontiers *)

Section Frontier.
Variable (d : Doms).

(** The while loop of a runner *)
Fixpoint run_frontier (fuel : nat) (node : nat) (runner : option nat) (df : list (gset nat)) : res (list (gset nat)) :=
  stop ← doms_at d node;
  if bool_decide (runner = stop) || bool_decide (runner = Some (commonEntryNode g)) then Ret df
  else
    match fuel with
    | O => Fault OutOfFuel
    | Datatypes.S fuel' =>
        r ← deref runner;
        s ← vec df r;
        df ← vec_set df r ({[ node ]} ∪ s);
        runner ← doms_at d r;
        run_frontier fuel' node runner df
    end.

Definition node_frontier (i : nat) (df : list (gset nat)) : res (list (gset nat)) :=
  live ← vec (nodeVec g) i;
  if negb live || (i =? commonExitNode g)%nat then Ret df
  else
    let prevNodes := GetPrevNodesToVisit i in
    if (length prevNodes <? 2)%nat then Ret df
    else for_each (fun pre df => run_frontier (length (nodeVec g)) i (Some pre) df) prevNodes df.

Definition ComputeDomFrontiers : res (list (gset nat)) :=
  for_up (length (nodeVec g)) 0 node_frontier (replicate (length (nodeVec g)) ∅).

(** ** The dominator tree *)

Definition ComputeDomChildren (reversePostOrder : list (option nat)) : res (list (list nat)) :=
  for_each (fun p children =>
    match p with
    | None => Ret children
    | Some node =>
        parent ← doms_at d node;
        match parent with
        | None => Ret children
        | Some parent =>
            if (parent =? node)%nat then Ret children
            else l ← vec children parent; vec_set children parent (l ++ [node])
        end
    end) reversePostOrder (replicate (length (nodeVec g)) []).

(** true if node1 dominates node2 *)
Fixpoint Dominate_loop (fuel : nat) (node1 iDom : nat) : res bool :=
  if (iDom =? commonEntryNode g)%nat then Ret false
  else
    match d !! iDom with
    | None | Some None => Ret false
    | Some (Some p) =>
        if (p =? node1)%nat then Ret true
        else match fuel with O => Fault OutOfFuel | Datatypes.S fuel' => Dominate_loop fuel' node1 p end
    end.

Definition Dominate (node1 node2 : nat) : res bool :=
  if (node1 =? node2)%nat then Ret true else Dominate_loop (length (nodeVec g)) node1 node2.
End Frontier.

(** [fuel] bounds the height of the tree. *)
Fixpoint ComputeDtPreorder (fuel : nat) (domChildren : list (list nat)) (node : nat)
    (st : list nat * nat) : res (list nat * nat) :=
  match fuel with
  | O => Fault OutOfFuel
  | Datatypes.S fuel' =>
      let '(dtPreOrder, num) := st in
      _ ← CHECK_FATAL (num <? length dtPreOrder)%nat;
      dtPreOrder ← vec_set dtPreOrder num node;
      children ← vec domChildren node;
      for_each (fun k st =>
        live ← vec (nodeVec g) k;
        if live : bool then ComputeDtPreorder fuel' domChildren k st else Fault OutOfBounds)
        children (dtPreOrder, (num + 1)%nat)
  end.

Definition ComputeDtDfn (dtPreOrder : list nat) (dtDfn : list Z) : res (list Z) :=
  for_up (length dtPreOrder) 0 (fun i dfn =>
    n ← vec dtPreOrder i; vec_set dfn n (wrap 32 (Z.of_nat i))) dtDfn.

(** ** Iterated dominance frontiers *)

(** [iter] has the results for the nodes below [nodeIdMarker]; [fuel] bounds the
    nodes that have not been visited. *)
Fixpoint GetIterDomFrontier (fuel : nat) (df iter : list (gset nat)) (nodeIdMarker node : nat)
    (st : gset nat * list bool) : res (gset nat * list bool) :=
  let '(dfSet, visitedMap) := st in
  v ← vec visitedMap node;
  if v : bool then Ret st
  else
    match fuel with
    | O => Fault OutOfFuel
    | Datatypes.S fuel' =>
        visitedMap ← vec_set visitedMap node true;
        frontier ← vec df node;
        for_each (fun x st =>
          let '(dfSet, visitedMap) := st in
          let dfSet := {[ x ]} ∪ dfSet in
          if (x <? nodeIdMarker)%nat then s ← vec iter x; Ret (dfSet ∪ s, visitedMap)
          else
            live ← vec (nodeVec g) x;
            if negb live then Ret (dfSet, visitedMap)
            else GetIterDomFrontier fuel' df iter nodeIdMarker x (dfSet, visitedMap))
          (in_order frontier) (dfSet, visitedMap)
    end.

Definition ComputeIterDomFrontiers (df : list (gset nat)) : res (list (gset nat)) :=
  for_up (length (nodeVec g)) 0 (fun i iter =>
    live ← vec (nodeVec g) i;
    if negb live || (i =? commonExitNode g)%nat then Ret iter
    else
      s ← vec iter i;
      out ← GetIterDomFrontier (length (nodeVec g)) df iter i i (s, replicate (length (nodeVec g)) false);
      vec_set iter i (fst out)) (replicate (length (nodeVec g)) ∅).

(** The places of the nodes in reversePostOrder, computed when first asked for *)
Definition GetReversePostOrderId (reversePostOrder : list (option nat)) (reversePostOrderId : list Z) : res (list Z) :=
  if negb (length reversePostOrderId =? 0)%nat then Ret reversePostOrderId
  else
    for_up (length reversePostOrder) 0 (fun id ids =>
      r ← vec reversePostOrder id; node ← deref r; vec_set ids node (wrap 32 (Z.of_nat id)))
      (replicate (length (nodeVec g)) 0).

(** ** The analysis *)

Record Dominance : Type := MkDominance {
  postOrderIDs : list Z;
  reversePostOrder : list (option nat);
  doms : Doms;
  domFrontier : list (gset nat);
  domChildren : list (list nat);
  iterDomFrontier : list (gset nat);
  dtPreOrder : list nat;
  dtDfn : list Z
}.

Definition GetDom (d : Doms) (id : nat) : option nat := match d !! id with Some p => p | None => None end.

(** dtPreOrder.resize(num) *)
Definition Init : res Dominance :=
  out ← GenPostOrderID;
  let '(ids, order) := out in
  d ← ComputeDominance ids order;
  df ← ComputeDomFrontiers d;
  children ← ComputeDomChildren d order;
  iter ← ComputeIterDomFrontiers df;
  let n := length (nodeVec g) in
  out ← ComputeDtPreorder n children (commonEntryNode g) (replicate n 0%nat, 0%nat);
  let '(pre, num) := out in
  let pre := take num pre in
  dfn ← ComputeDtDfn pre (replicate n (wrap 32 (-1)));
  Ret (MkDominance ids order d df children iter pre dfn).
End Dominance.
