(* ===== verification/DominanceGraph.v ===== *)
(** * Dominators: the specification

    Paths of a graph from its common entry, dominance, and what the analysis
    relies on of the graph; then the consequences of a numbering of the nodes in
    which each node but the entry has a predecessor with a greater number, as a
    post-order is one. *)
From stdpp Require Import gmap sets.
From S2P Require Import Prelude.
From S2P Require Import Dominance.

Section Spec.
Variable (g : Graph).
Notation entry := (commonEntryNode g).

Definition edge (u v : nat) : Prop := v ∈ GetNextNodesToVisit g u.

(** [path l v]: the nodes of [l] are a path from the entry to [v]. *)
Inductive path : list nat -> nat -> Prop :=
  | path_start : path [entry] entry
  | path_edge l u v : path l u -> edge u v -> path (l ++ [v]) v.

Definition reachable (v : nat) : Prop := exists l, path l v.
Definition dominates (a v : nat) : Prop := forall l, path l v -> a ∈ l.
Definition strictly_dominates (a v : nat) : Prop := dominates a v /\ a <> v.

(** [a] is the immediate dominator of [v]. *)
Definition is_idom (a v : nat) : Prop :=
  strictly_dominates a v /\ forall c, strictly_dominates c v -> dominates c a.

(** What the graph has to satisfy.  The common entry may be missing among the
    predecessors of its successors, as it is in the mid-end's graphs. *)
Record good_graph : Prop := {
  gg_size : Z.of_nat (length (nodeVec g)) < 2 ^ 31;
  gg_live : forall v, reachable v -> nodeVec g !! v = Some true;
  gg_entry : GetPrevNodesToVisit g entry = [];
  gg_prev : forall u v, reachable v -> u ∈ GetPrevNodesToVisit g v -> edge u v;
  gg_next : forall u v, reachable u -> edge u v -> u = entry \/ u ∈ GetPrevNodesToVisit g v
}.

Lemma path_end l v : path l v -> v ∈ l.
Proof. destruct 1; [by left|]. apply elem_of_app. right. by left. Qed.

Lemma path_from_entry l v : path l v -> entry ∈ l.
Proof. induction 1; [by left|]. apply elem_of_app. by left. Qed.

Lemma reachable_entry : reachable entry.
Proof. exists [entry]. constructor. Qed.

Lemma reachable_edge u v : reachable u -> edge u v -> reachable v.
Proof. intros [l Hl] He. exists (l ++ [v]). by econstructor. Qed.

Lemma reachable_pred v : reachable v -> v = entry \/ exists u, reachable u /\ edge u v.
Proof. intros [l Hl]. destruct Hl as [|l u v Hl He]; [by left|]. right. exists u. split; [by exists l | done]. Qed.

Lemma dominates_refl v : dominates v v.
Proof. intros l. apply path_end. Qed.

Lemma dominates_entry v : dominates entry v.
Proof. intros l. apply path_from_entry. Qed.

Lemma reachable_lt v : good_graph -> reachable v -> (v < length (nodeVec g))%nat.
Proof. intros Hg Hv. eapply lookup_lt_Some, gg_live; done. Qed.

(** A strict dominator of a node dominates its predecessors. *)
Lemma dominates_pred a u v : edge u v -> strictly_dominates a v -> dominates a u.
Proof.
  intros He [Ha Hne] l Hl. specialize (Ha (l ++ [v])).
  rewrite elem_of_app, list_elem_of_singleton in Ha.
  destruct Ha as [?|?]; [by econstructor | done | done].
Qed.

(** ** Numberings *)

(** Numbers of the reachable nodes from 0 to [k] - 1, the entry having the
    greatest, and -1 for the others *)
Record numbering (ids : list Z) (k : nat) : Prop := {
  nb_length : length ids = length (nodeVec g);
  nb_count : (k <= length (nodeVec g))%nat;
  nb_reach : forall v, reachable v <-> exists j, ids !! v = Some j /\ 0 <= j;
  nb_range : forall v j, ids !! v = Some j -> j = -1 \/ 0 <= j < Z.of_nat k;
  nb_inj : forall u v j, ids !! u = Some j -> ids !! v = Some j -> 0 <= j -> u = v;
  nb_entry : ids !! entry = Some (Z.of_nat k - 1);
  nb_par : forall v, reachable v -> v <> entry ->
    exists u, reachable u /\ edge u v /\ nth v ids (-1) < nth u ids (-1)
}.

Section Numbering.
Context (ids : list Z) (k : nat) (Hg : good_graph) (Hn : numbering ids k).

Definition pn (v : nat) : Z := nth v ids (-1).

Lemma ids_pn v j : ids !! v = Some j -> pn v = j.
Proof. intros Hv. unfold pn. by apply nth_lookup_Some. Qed.

Lemma pn_lookup v : reachable v -> ids !! v = Some (pn v).
Proof. intros Hv. apply (nb_reach _ _ Hn) in Hv as (j & Hj & _). by rewrite (ids_pn v j). Qed.

Lemma reachable_pn v : 0 <= pn v -> reachable v.
Proof.
  intros Hv. apply (nb_reach _ _ Hn). exists (pn v). split; [|done].
  unfold pn in *. destruct (ids !! v) eqn:Hl; [by rewrite (nth_lookup_Some _ _ _ _ Hl)|].
  rewrite nth_overflow in Hv; [lia | by apply lookup_ge_None].
Qed.

Lemma pn_range v : reachable v -> 0 <= pn v < Z.of_nat k.
Proof.
  intros Hv. apply (nb_reach _ _ Hn) in Hv as (j & Hj & Hpos). rewrite (ids_pn v j) by done.
  destruct (nb_range _ _ Hn v j Hj); lia.
Qed.

Lemma pn_inj u v : reachable u -> reachable v -> pn u = pn v -> u = v.
Proof.
  intros Hu Hv Heq. pose proof (pn_range u Hu).
  apply (nb_inj _ _ Hn u v (pn u)); [by apply pn_lookup | rewrite Heq; by apply pn_lookup | lia].
Qed.

Lemma pn_entry : pn entry = Z.of_nat k - 1.
Proof. apply ids_pn, nb_entry, Hn. Qed.

Lemma pn_max v : reachable v -> pn v <= pn entry.
Proof. intros Hv. rewrite pn_entry. pose proof (pn_range v Hv). lia. Qed.

(** ** A spanning tree *)

(** A predecessor with a greater number *)
Definition is_par (v u : nat) : Prop := edge u v /\ pn v < pn u.
#[local] Instance is_par_dec v u : Decision (is_par v u).
Proof. unfold is_par, edge. apply _. Defined.

Definition par (v : nat) : nat :=
  match list_find (is_par v) (seq 0 (length (nodeVec g))) with Some (_, u) => u | None => entry end.

Lemma par_spec v : reachable v -> v <> entry -> reachable (par v) /\ edge (par v) v /\ pn v < pn (par v).
Proof.
  intros Hv Hne. destruct (nb_par _ _ Hn v Hv Hne) as (u & Hu & He & Hlt). unfold par.
  assert (Hin : u ∈ seq 0 (length (nodeVec g))).
  { apply elem_of_seq. pose proof (reachable_lt u Hg Hu). lia. }
  destruct (list_find_elem_of (is_par v) _ u Hin (conj He Hlt)) as [[i w] Hf].
  rewrite Hf. apply list_find_Some in Hf as (_ & [Hew Hlw] & _). split; [|done].
  apply reachable_pn. pose proof (pn_range v Hv). unfold pn in *. lia.
Qed.

(** [anc v a]: [a] is an ancestor of [v] in the tree. *)
Inductive anc : nat -> nat -> Prop :=
  | anc_refl v : reachable v -> anc v v
  | anc_up v a : reachable v -> v <> entry -> anc (par v) a -> anc v a.

Lemma anc_reachable v a : anc v a -> reachable v /\ reachable a.
Proof. induction 1; naive_solver. Qed.

Lemma anc_trans v a b : anc v a -> anc a b -> anc v b.
Proof. induction 1; intros; [done|]. constructor; auto. Qed.

Lemma anc_par v : reachable v -> v <> entry -> anc v (par v).
Proof. intros Hv Hne. constructor; [done..|]. constructor. by apply par_spec. Qed.

Lemma anc_pn v a : anc v a -> v = a \/ pn v < pn a.
Proof.
  induction 1 as [|v a Hv Hne _ IH]; [by left|]. right.
  destruct (par_spec v Hv Hne) as (_ & _ & Hlt). destruct IH as [<-|]; lia.
Qed.

(** The ancestors of a node are on a line. *)
Lemma anc_line v a b : anc v a -> anc v b -> pn a <= pn b -> anc a b.
Proof.
  intros Ha Hb. induction Ha as [v Hv|v a Hv Hne Ha IH]; intros Hle; [done|].
  destruct Hb as [v _|v b _ _ Hb]; [|by apply IH].
  pose proof (anc_pn _ _ Ha) as Hp. destruct (par_spec v Hv Hne) as (_ & _ & Hlt).
  destruct Hp as [<-|]; lia.
Qed.

Lemma anc_path v m l : anc v m -> path l m -> exists t, path (l ++ t) v /\ Forall (fun y => pn y < pn m) t.
Proof.
  intros Ha Hl. induction Ha as [v Hv|v m Hv Hne Ha IH].
  - exists []. by rewrite app_nil_r.
  - destruct (IH Hl) as (t & Ht & Hall). destruct (par_spec v Hv Hne) as (_ & He & Hlt).
    exists (t ++ [v]). rewrite app_assoc. split; [by econstructor|].
    apply Forall_app. split; [done|]. constructor; [|done].
    destruct (anc_pn _ _ Ha) as [<-|]; lia.
Qed.

(** A dominator of [v] above [m] dominates [m]. *)
Lemma dominates_anc a v m : dominates a v -> anc v m -> pn m <= pn a -> dominates a m.
Proof.
  intros Hd Ha Hle l Hl. destruct (anc_path v m l Ha Hl) as (t & Ht & Hall).
  specialize (Hd _ Ht). apply elem_of_app in Hd as [?|Hin]; [done|].
  rewrite Forall_forall in Hall. specialize (Hall a Hin). lia.
Qed.

(** Dominators are ancestors. *)
Lemma anc_to_entry v : reachable v -> anc v entry.
Proof.
  intros Hv. remember (Z.to_nat (Z.of_nat k - pn v)) as m eqn:Em.
  revert v Hv Em. induction m as [m IH] using lt_wf_ind. intros v Hv ->.
  destruct (decide (v = entry)) as [->|Hne]; [by constructor|].
  constructor; [done..|]. destruct (par_spec v Hv Hne) as (Hp & _ & Hlt).
  pose proof (pn_range v Hv). pose proof (pn_range _ Hp). eapply IH; [|done|done]. lia.
Qed.
End Numbering.
End Spec.
