(* ===== verification/DominanceWalk.v ===== *)
(** * Dominators: the post-order walk

    The iterative depth-first search numbers exactly the nodes that can be reached
    from the entry, each below the node it was found from, and ends after at most
    two steps for each node. *)
From stdpp Require Import gmap sets.
From S2P Require Import Prelude.
From S2P Require Import Dominance.
From S2P Require Import DominanceGraph.

(** ** Vectors *)

Lemma wp_vec {A} (l : list A) i x (Q : A -> Prop) : l !! i = Some x -> Q x -> wp (vec l i) Q.
Proof. intros Hl HQ. unfold vec. by rewrite Hl. Qed.

Lemma wp_vec_set {A} (l : list A) i x (Q : list A -> Prop) :
  (i < length l)%nat -> Q (<[i := x]> l) -> wp (vec_set l i x) Q.
Proof. intros Hl HQ. unfold vec_set. by rewrite (proj2 (Nat.ltb_lt _ _) Hl). Qed.

Definition count_false (l : list bool) : nat := length (filter (fun b => b = false) l).

Lemma count_false_set l i : l !! i = Some false -> (count_false (<[i := true]> l) + 1 = count_false l)%nat.
Proof.
  intros Hi. pose proof (take_drop_middle l i false Hi) as Hl.
  rewrite <- Hl at 2. rewrite insert_take_drop by by eapply lookup_lt_Some.
  unfold count_false. rewrite !filter_app, !length_app, !filter_cons. simpl. lia.
Qed.

Lemma count_false_replicate n : count_false (replicate n false) = n.
Proof. induction n as [|n IH]; [done|]. unfold count_false in *. simpl. by rewrite IH. Qed.

Lemma first_unvisited_spec (visited : list bool) (succs : list nat) :
  (forall s, s ∈ succs -> s < length visited)%nat ->
  wp (first_unvisited visited succs) (fun o =>
    match o with
    | Some s => s ∈ succs /\ visited !! s = Some false
    | None => forall s, s ∈ succs -> visited !! s = Some true
    end).
Proof.
  intros Hlt. induction succs as [|x succs IH]; simpl.
  - intros s Hs. by apply elem_of_nil in Hs.
  - destruct (lookup_lt_is_Some_2 visited x) as [b Hb]; [apply Hlt; by left|].
    apply wp_bind, (wp_vec _ _ _ _ Hb). destruct b; simpl.
    + eapply wp_mono; [apply IH; intros; apply Hlt; by right|].
      intros [s|]; [intros [Hs Hv]; split; [by right | done]|].
      intros Hall s [->|Hs]%elem_of_cons; [done | by apply Hall].
    + split; [by left | done].
Qed.

Section Walk.
Context (g : Graph) (Hg : good_graph g).
Notation entry := (commonEntryNode g).
Notation n := (length (nodeVec g)).

Definition numbered (ids : list Z) (v : nat) : Prop := exists j, ids !! v = Some j /\ 0 <= j.

Record WInv (w : Walk) : Prop := {
  wi_visited_length : length (w_visited w) = n;
  wi_ids_length : length (postOrderIDVec w) = n;
  wi_count : (count_false (w_visited w) + length (w_stack w) + w_pid w = n)%nat;
  wi_nodup : NoDup (w_stack w);
  wi_stack : forall v, v ∈ w_stack w -> reachable g v /\ postOrderIDVec w !! v = Some (-1);
  wi_visited : forall v, w_visited w !! v = Some true <-> v ∈ w_stack w \/ numbered (postOrderIDVec w) v;
  wi_edges : forall i u v, w_stack w !! i = Some v -> w_stack w !! Datatypes.S i = Some u -> edge g u v;
  wi_bottom : w_stack w = [] \/ last (w_stack w) = Some entry;
  wi_range : forall v j, postOrderIDVec w !! v = Some j -> j = -1 \/ 0 <= j < Z.of_nat (w_pid w);
  wi_surj : forall j, 0 <= j < Z.of_nat (w_pid w) -> exists v, postOrderIDVec w !! v = Some j;
  wi_inj : forall u v j, postOrderIDVec w !! u = Some j -> postOrderIDVec w !! v = Some j -> 0 <= j -> u = v;
  wi_closed : forall v s, numbered (postOrderIDVec w) v -> edge g v s -> w_visited w !! s = Some true;
  wi_reach : forall v, numbered (postOrderIDVec w) v -> reachable g v;
  wi_par : forall v j, postOrderIDVec w !! v = Some j -> 0 <= j -> v <> entry ->
    exists u, edge g u v /\ (u ∈ w_stack w \/ exists j', postOrderIDVec w !! u = Some j' /\ j < j');
  wi_entry : w_stack w = [] ->
    (0 < w_pid w)%nat /\ postOrderIDVec w !! entry = Some (Z.of_nat (w_pid w) - 1)
}.

Definition w_measure (w : Walk) : nat := 2 * count_false (w_visited w) + length (w_stack w).

Lemma edge_lt u v : reachable g u -> edge g u v -> (v < n)%nat.
Proof. intros Hu He. eapply reachable_lt; [done|]. by eapply reachable_edge. Qed.

(** A successor is pushed. *)
Lemma walk_push w node s succ :
  WInv w -> w_stack w = node :: s -> succ ∈ GetNextNodesToVisit g node ->
  w_visited w !! succ = Some false ->
  WInv (MkWalk (succ :: w_stack w) (w_pid w) (<[succ := true]> (w_visited w)) (postOrderIDVec w)).
Proof.
  intros [] Hs Hin Hv. pose proof (lookup_lt_Some _ _ _ Hv) as Hlt.
  destruct (wi_stack0 node) as [Hr _]; [rewrite Hs; by left|].
  pose proof (count_false_set _ _ Hv) as Hc.
  assert (Hnew : ~ (succ ∈ w_stack w \/ numbered (postOrderIDVec w) succ)).
  { rewrite <- wi_visited0, Hv. by intros [=]. }
  constructor; simpl; try done.
  - by rewrite length_insert.
  - lia.
  - constructor; [tauto | done].
  - intros v [->|Hin']%elem_of_cons; [|by apply wi_stack0]. split; [by eapply reachable_edge|].
    destruct (lookup_lt_is_Some_2 (postOrderIDVec w) succ) as [j Hj]; [lia|]. rewrite Hj. f_equal.
    destruct (wi_range0 _ _ Hj) as [?|?]; [done|]. exfalso. apply Hnew. right. exists j. split; [done|lia].
  - intros v. rewrite elem_of_cons. destruct (decide (v = succ)) as [->|Hne].
    + rewrite list_lookup_insert_eq by done. tauto.
    + rewrite list_lookup_insert_ne by done. rewrite wi_visited0. tauto.
  - intros [|i] u v.
    + intros [= <-]. rewrite Hs. by intros [= ->].
    + apply wi_edges0.
  - right. rewrite last_cons. destruct wi_bottom0 as [H0| ->]; [by rewrite Hs in H0 | done].
  - intros v t Hnv He. specialize (wi_closed0 v t Hnv He).
    destruct (decide (t = succ)) as [->|Hne]; [by rewrite list_lookup_insert_eq|].
    by rewrite list_lookup_insert_ne.
  - intros v j Hj Hpos Hne. destruct (wi_par0 v j Hj Hpos Hne) as (u & He & [Hu|Hu]); exists u.
    + split; [done|]. left. by right.
    + split; [done|]. by right.
Qed.
(** A node without a new successor gets its number. *)
Lemma walk_pop w node s :
  WInv w -> w_stack w = node :: s ->
  (forall t, t ∈ GetNextNodesToVisit g node -> w_visited w !! t = Some true) ->
  WInv (MkWalk s (w_pid w + 1) (w_visited w) (<[node := Z.of_nat (w_pid w)]> (postOrderIDVec w))).
Proof.
  intros [] Hs Hall. rewrite Hs in *.
  destruct (wi_stack0 node) as [Hr Hm]; [by left|]. pose proof (lookup_lt_Some _ _ _ Hm) as Hlt.
  apply NoDup_cons in wi_nodup0 as [Hnin Hnd].
  assert (Heq : <[node := Z.of_nat (w_pid w)]> (postOrderIDVec w) !! node = Some (Z.of_nat (w_pid w)))
    by by apply list_lookup_insert_eq.
  assert (Hother : forall v, v <> node ->
    <[node := Z.of_nat (w_pid w)]> (postOrderIDVec w) !! v = postOrderIDVec w !! v)
    by (intros v Hne; by apply list_lookup_insert_ne).
  assert (Hnum : forall v, numbered (<[node := Z.of_nat (w_pid w)]> (postOrderIDVec w)) v <->
    v = node \/ numbered (postOrderIDVec w) v).
  { intros v. unfold numbered. destruct (decide (v = node)) as [->|Hne].
    - rewrite Heq. split; [by left|]. intros _. eexists. split; [done|lia].
    - rewrite Hother by done. tauto. }
  constructor; simpl in *; try done.
  - by rewrite length_insert.
  - lia.
  - intros v Hv. assert (v <> node) by (intros ->; done). rewrite Hother by done. apply wi_stack0. by right.
  - intros v. rewrite Hnum, wi_visited0, elem_of_cons. tauto.
  - intros i u v. apply (wi_edges0 (Datatypes.S i)).
  - destruct s as [|x s]; [by left|]. right. destruct wi_bottom0 as [?|Hl]; [done|].
    by rewrite last_cons_cons in Hl.
  - intros v j. destruct (decide (v = node)) as [->|Hne]; [rewrite Heq | rewrite Hother by done].
    + intros [= <-]. right. lia.
    + intros Hj. destruct (wi_range0 _ _ Hj); [by left | right; lia].
  - intros j Hj. destruct (decide (j = Z.of_nat (w_pid w))) as [->|Hne]; [by exists node|].
    destruct (wi_surj0 j ltac:(lia)) as [v Hv]. exists v. rewrite Hother; [done|]. intros ->.
    rewrite Hm in Hv. injection Hv as <-. lia.
  - intros u v j. destruct (decide (u = node)) as [->|Hu], (decide (v = node)) as [->|Hv];
      rewrite ?Heq, ?Hother by done; [done| | |by apply wi_inj0].
    + intros [= <-] Hj _. destruct (wi_range0 _ _ Hj); lia.
    + intros Hj [= <-] _. destruct (wi_range0 _ _ Hj); lia.
  - intros v t [->|Hv]%Hnum He; [by apply Hall | by eapply wi_closed0].
  - intros v [->|Hv]%Hnum; [done | by apply wi_reach0].
  - intros v j. destruct (decide (v = node)) as [->|Hv]; [rewrite Heq | rewrite Hother by done].
    + intros [= <-] Hpos Hne. destruct s as [|u s].
      * exfalso. destruct wi_bottom0 as [?|Hl]; [done|]. injection Hl as ->. done.
      * exists u. split; [by apply (wi_edges0 0%nat)|]. left. by left.
    + intros Hj Hpos Hne. destruct (wi_par0 v j Hj Hpos Hne) as (u & He & Hu). exists u. split; [done|].
      rewrite elem_of_cons in Hu. destruct Hu as [[->|Hu]|(j' & Hj' & Hlt')].
      * right. eexists. rewrite Heq. split; [done|]. destruct (wi_range0 _ _ Hj); lia.
      * by left.
      * right. exists j'. split; [|done]. rewrite Hother; [done|]. intros ->. rewrite Hm in Hj'.
        injection Hj' as <-. lia.
  - intros ->. destruct wi_bottom0 as [?|Hl]; [done|]. injection Hl as ->. rewrite Heq.
    split; [lia|]. f_equal. lia.
Qed.

Lemma walk_step_spec w :
  WInv w -> w_stack w <> [] ->
  wp (walk_step g w) (fun w' => WInv w' /\ (w_measure w' < w_measure w)%nat).
Proof.
  intros Hw Hne. unfold walk_step. destruct (w_stack w) as [|node s] eqn:Hs; [done|].
  destruct (wi_stack w Hw node) as [Hr Hm]; [rewrite Hs; by left|].
  pose proof (reachable_lt _ node Hg Hr) as Hlt.
  apply wp_bind, (wp_vec _ _ true); [by apply gg_live|]. simpl.
  rewrite (wi_visited_length w Hw), (wi_ids_length w Hw), (proj2 (Nat.ltb_lt _ _) Hlt). simpl.
  eapply wp_bind, wp_mono; [apply first_unvisited_spec|].
  { intros t Ht. rewrite (wi_visited_length w Hw). by apply (edge_lt node). }
  intros [succ|] Ho.
  - destruct Ho as [Hin Hv]. apply wp_bind, wp_vec_set; [by eapply lookup_lt_Some|]. rewrite <- Hs. split.
    + by eapply walk_push.
    + unfold w_measure; simpl. pose proof (count_false_set _ _ Hv). lia.
  - apply wp_bind, wp_vec_set; [rewrite (wi_ids_length w Hw); done|].
    pose proof (wi_count w Hw). pose proof (gg_size g Hg).
    rewrite swrap_small by lia.
    split; [by eapply walk_pop|]. unfold w_measure; simpl. rewrite Hs. simpl. lia.
Qed.

(** At the end, the numbers are those of a post-order. *)
Lemma WInv_numbering w : WInv w -> w_stack w = [] -> numbering g (postOrderIDVec w) (w_pid w).
Proof.
  intros Hw Hs. destruct (wi_entry w Hw Hs) as [Hpid He].
  assert (Hall : forall v, reachable g v -> numbered (postOrderIDVec w) v).
  { intros v [l Hl]. induction Hl as [|l u v Hl IH Hedge].
    - eexists. split; [exact He | lia].
    - pose proof (wi_closed w Hw _ _ IH Hedge) as Hv. apply (wi_visited w Hw) in Hv.
      rewrite Hs, elem_of_nil in Hv. by destruct Hv. }
  constructor.
  - apply (wi_ids_length w Hw).
  - pose proof (wi_count w Hw). lia.
  - intros v. split; [apply Hall | apply (wi_reach w Hw)].
  - apply (wi_range w Hw).
  - apply (wi_inj w Hw).
  - done.
  - intros v Hv Hne. destruct (Hall v Hv) as (j & Hj & Hpos).
    destruct (wi_par w Hw v j Hj Hpos Hne) as (u & Hedge & [Hu|(j' & Hj' & Hlt)]);
      [by rewrite Hs, elem_of_nil in Hu|].
    exists u. split; [|split; [done|]].
    + apply (wi_reach w Hw). exists j'. split; [done | lia].
    + by rewrite (nth_lookup_Some _ _ _ _ Hj), (nth_lookup_Some _ _ _ _ Hj').
Qed.

(** ** The whole walk *)

Lemma WInv_start :
  WInv (MkWalk [entry] 0 (<[entry := true]> (replicate n false)) (replicate n (-1))).
Proof.
  pose proof (reachable_entry g) as Hr. pose proof (reachable_lt g entry Hg Hr) as Hlt.
  assert (Hf : replicate n false !! entry = Some false) by by apply lookup_replicate_2.
  assert (Hm : forall v j, replicate n (-1) !! v = Some j -> j = -1) by (by intros v j [-> _]%lookup_replicate).
  assert (Hnum : forall v, ~ numbered (replicate n (-1)) v) by (intros v (j & ->%Hm & ?); lia).
  pose proof (count_false_set _ _ Hf) as Hc. rewrite count_false_replicate in Hc.
  constructor; simpl; try done.
  - by rewrite length_insert, length_replicate.
  - by rewrite length_replicate.
  - lia.
  - apply NoDup_singleton.
  - intros v ->%list_elem_of_singleton. split; [done | by apply lookup_replicate_2].
  - intros v. rewrite list_elem_of_singleton. destruct (decide (v = entry)) as [->|Hne].
    + rewrite list_lookup_insert_eq by by rewrite length_replicate. naive_solver.
    + rewrite list_lookup_insert_ne by done. split; [by intros [? _]%lookup_replicate|].
      intros [?|?]; [done | by edestruct Hnum].
  - by right.
  - intros v j ->%Hm. by left.
  - intros j Hj. lia.
  - intros u v j ->%Hm. lia.
  - intros v t Hv. by edestruct Hnum.
  - intros v Hv. by edestruct Hnum.
  - intros v j ->%Hm. lia.
Qed.

Lemma PostOrderWalk_spec :
  wp (PostOrderWalk g entry (replicate n false) (replicate n (-1)))
    (fun w => WInv w /\ w_stack w = []).
Proof.
  pose proof (reachable_lt g entry Hg (reachable_entry g)) as Hlt. unfold PostOrderWalk.
  apply wp_bind, wp_vec_set; [by rewrite length_replicate|].
  eapply wp_mono; [apply (wp_while_fuel WInv w_measure)|].
  - apply WInv_start.
  - pose proof (wi_count _ WInv_start). unfold w_measure. simpl in *. lia.
  - intros t Ht Hc. apply walk_step_spec; [done|]. intros Hs. by rewrite Hs in Hc.
  - intros w [Hw Hc]. split; [done|]. apply negb_false_iff in Hc. by apply bool_decide_eq_true in Hc.
Qed.

(** ** Reverse post-order *)

(** The nodes that can be reached, by descending numbers *)
Definition ordering (ids : list Z) (order : list (option nat)) : Prop :=
  forall i, (i < length order)%nat -> exists v, order !! i = Some (Some v) /\
    ids !! v = Some (Z.of_nat (length order) - 1 - Z.of_nat i).

Theorem GenPostOrderID_spec :
  wp (GenPostOrderID g) (fun '(ids, order) => numbering g ids (length order) /\ ordering ids order).
Proof.
  pose proof (reachable_lt g entry Hg (reachable_entry g)) as Hlt. pose proof (gg_size g Hg) as Hsize.
  unfold GenPostOrderID. apply wp_bind, wp_assert; [apply negb_true_iff, Nat.eqb_neq; lia|].
  eapply wp_bind, wp_mono; [apply PostOrderWalk_spec|]. intros w [Hw Hs].
  pose proof (WInv_numbering w Hw Hs) as Hn. destruct (wi_entry w Hw Hs) as [Hpid _].
  pose proof (wi_count w Hw) as Hcount. pose proof (wi_ids_length w Hw) as Hlen.
  set (ids := postOrderIDVec w) in *.
  eapply wp_bind, wp_mono.
  - apply (wp_for_up (fun i order => length order = w_pid w /\
      forall v j, (v < i)%nat -> ids !! v = Some j -> 0 <= j ->
        order !! (w_pid w - 1 - Z.to_nat j)%nat = Some (Some v))).
    + split; [apply length_replicate|]. intros; lia.
    + intros i order Hi [Ho Hall]. 
      destruct (lookup_lt_is_Some_2 ids i ltac:(lia)) as [j Hj].
      apply wp_bind, (wp_vec _ _ _ _ Hj).
      destruct (Z.eqb_spec j (-1)) as [->|Hne].
      * split; [done|]. intros v j Hv Hvj Hpos. destruct (decide (v = i)) as [->|?]; [|apply Hall; lia || done].
        rewrite Hj in Hvj. injection Hvj as <-. lia.
      * destruct (nb_range _ _ _ Hn i j Hj) as [?|Hr]; [done|].
        assert (Hri : reachable g i) by (apply (nb_reach _ _ _ Hn); exists j; split; [done|lia]).
        apply wp_bind, (wp_vec _ _ true); [by apply gg_live|].
        rewrite (wrap_small 64 (_ - 1)), (wrap_small 32) by lia. rewrite wrap_small by lia.
        apply wp_vec_set; [lia|]. split; [by rewrite length_insert|].
        intros v j' Hv Hvj Hpos. replace (Z.to_nat (Z.of_nat (w_pid w) - 1 - j)) with (w_pid w - 1 - Z.to_nat j)%nat by lia.
        destruct (nb_range _ _ _ Hn v j' Hvj) as [?|Hr']; [lia|].
        destruct (decide (v = i)) as [->|Hvi].
        -- rewrite Hj in Hvj. injection Hvj as <-. apply list_lookup_insert_eq. lia.
        -- rewrite list_lookup_insert_ne; [by apply Hall; [lia|..]|].
           intros Heq. apply Hvi. apply (nb_inj _ _ _ Hn v i j); [|done|lia].
           rewrite Hvj. f_equal. lia.
  - intros order [Ho Hall]. simpl. rewrite Ho. split; [done|]. intros i Hi. rewrite Ho in *.
    destruct (wi_surj w Hw (Z.of_nat (w_pid w) - 1 - Z.of_nat i) ltac:(lia)) as [v Hv].
    exists v. split; [|done]. fold ids in Hv.
    pose proof (Hall v _ ltac:(apply lookup_lt_Some in Hv; lia) Hv ltac:(lia)) as Hi'.
    by replace (w_pid w - 1 - Z.to_nat (Z.of_nat (w_pid w) - 1 - Z.of_nat i))%nat with i in Hi' by lia.
Qed.
End Walk.
