(* ===== verification/DominanceTree.v ===== *)
(** * Dominators: the tree of immediate dominators so far

    The state of ComputeDominance as a function [D] from nodes to their dominator
    so far, which is null for nodes not yet processed.  [chain D v a] says that [a]
    is [v] or above [v] in this tree.  Intersect finds the lowest common node of two
    chains, and an iteration of the inner loop puts a node below the lowest common
    node of the chains of its processed predecessors. *)
From stdpp Require Import gmap sets.
From S2P Require Import Prelude.
From S2P Require Import Dominance.
From S2P Require Import DominanceGraph.
From S2P Require Import DominanceWalk.

Section Tree.
Context (g : Graph) (Hg : good_graph g) (ids : list Z) (k : nat) (Hn : numbering g ids k).
Notation entry := (commonEntryNode g).
Notation pn := (pn ids).
Notation par := (par g ids).
Notation anc := (anc g ids).

Section Chain.
Variable (D : nat -> option nat).

Inductive chain : nat -> nat -> Prop :=
  | chain_refl v : D v <> None -> chain v v
  | chain_up v p a : v <> entry -> D v = Some p -> chain p a -> chain v a.

Record tree_ok : Prop := {
  to_entry : D entry = Some entry;
  to_par : forall v p, D v = Some p -> v <> entry -> reachable g v /\ D p <> None /\ anc (par v) p
}.

Context (HD : tree_ok).

Lemma processed_reachable v : D v <> None -> reachable g v.
Proof.
  intros Hv. destruct (decide (v = entry)) as [->|Hne]; [apply reachable_entry|].
  destruct (D v) as [p|] eqn:Hp; [|done]. by destruct (to_par HD v p Hp Hne).
Qed.

Lemma chain_processed v a : chain v a -> D v <> None /\ D a <> None.
Proof. induction 1 as [|v p a Hne Hp _ IH]; [done|]. rewrite Hp. naive_solver. Qed.

Lemma chain_trans v a b : chain v a -> chain a b -> chain v b.
Proof. induction 1; intros; [done|]. econstructor; eauto. Qed.

Lemma chain_inv v a : chain v a -> v = a \/ v <> entry /\ exists p, D v = Some p /\ chain p a.
Proof. destruct 1; [by left | right; eauto]. Qed.

Lemma chain_entry_inv a : chain entry a -> a = entry.
Proof. intros Hc. by destruct (chain_inv _ _ Hc) as [->|[? _]]. Qed.

Lemma chain_anc v a : chain v a -> anc v a.
Proof.
  induction 1 as [v Hv|v p a Hne Hp Hc IH]; [constructor; by apply processed_reachable|].
  destruct (to_par HD v p Hp Hne) as (Hr & _ & Ha).
  constructor; [done..|]. by eapply anc_trans.
Qed.

Lemma chain_pn v a : chain v a -> v = a \/ pn v < pn a.
Proof. intros Hc. eapply anc_pn; [exact Hg | exact Hn|]. by apply chain_anc. Qed.

Lemma dom_pn v p : D v = Some p -> v <> entry -> pn v < pn p.
Proof.
  intros Hp Hne. destruct (to_par HD v p Hp Hne) as (Hr & _ & Ha).
  destruct (par_spec g ids k Hg Hn v Hr Hne) as (_ & _ & Hlt).
  destruct (anc_pn g ids k Hg Hn _ _ Ha) as [<-|]; lia.
Qed.

Lemma chain_to_entry v : D v <> None -> chain v entry.
Proof.
  intros Hv. remember (Z.to_nat (Z.of_nat k - pn v)) as m eqn:Em.
  revert v Hv Em. induction m as [m IH] using lt_wf_ind. intros v Hv ->.
  destruct (decide (v = entry)) as [->|Hne]; [by constructor|].
  destruct (D v) as [p|] eqn:Hp; [|done]. destruct (to_par HD v p Hp Hne) as (Hr & Hpp & _).
  econstructor; [done..|]. pose proof (dom_pn v p Hp Hne).
  pose proof (pn_range g ids k Hn p (processed_reachable p Hpp)). eapply IH; [|done|done]. lia.
Qed.

Lemma chain_line v a b : chain v a -> chain v b -> pn a <= pn b -> chain a b.
Proof.
  intros Ha Hb. induction Ha as [v Hv|v p a Hne Hp Ha IH]; intros Hle; [done|].
  destruct (chain_inv _ _ Hb) as [<-|(_ & p' & Hp' & Hb')].
  - pose proof (dom_pn v p Hp Hne). destruct (chain_pn _ _ Ha) as [<-|]; lia.
  - rewrite Hp in Hp'. injection Hp' as <-. by apply IH.
Qed.

(** ** Intersect *)

(** The map of the code has the dominators [D]. *)
Definition agree (d : Doms) : Prop := forall v, GetDom d v = D v.

Lemma doms_get_agree d v : agree d -> fst (doms_get d v) = D v /\ agree (snd (doms_get d v)).
Proof.
  intros Hd. unfold doms_get. rewrite <- (Hd v). unfold GetDom at 1.
  destruct (d !! v) as [p|] eqn:Hv; simpl; [done|]. split; [done|]. intros u. rewrite <- (Hd u).
  unfold GetDom. destruct (decide (u = v)) as [->|Hne]; [by rewrite lookup_insert_eq, Hv|].
  by rewrite lookup_insert_ne.
Qed.

Lemma doms_at_agree d v p (Q : option nat -> Prop) :
  agree d -> D v = Some p -> Q (Some p) -> wp (doms_at d v) Q.
Proof.
  intros Hd Hv HQ. unfold doms_at. specialize (Hd v). unfold GetDom in Hd. rewrite Hv in Hd.
  destruct (d !! v) as [[q|]|]; simplify_eq. done.
Qed.

Lemma climb_spec fuel d p q :
  agree d -> D p <> None -> reachable g q -> pn q - pn p <= Z.of_nat fuel ->
  wp (climb ids fuel d p q) (fun c => chain p c /\ pn q <= pn c /\
    forall a, chain p a -> pn q <= pn a -> chain c a).
Proof.
  intros Hd Hp Hq. revert p Hp. induction fuel as [|fuel IH]; intros p Hp Hf; simpl;
    apply wp_bind, (wp_vec _ _ _ _ (pn_lookup g ids k Hn p (processed_reachable p Hp)));
    apply wp_bind, (wp_vec _ _ _ _ (pn_lookup g ids k Hn q Hq));
    destruct (Z.ltb_spec (pn p) (pn q)) as [Hlt|Hge]; try lia;
    try by (split; [by constructor | done]).
  assert (Hne : p <> entry).
  { intros ->. pose proof (pn_max g ids k Hn q Hq). lia. }
  destruct (D p) as [r|] eqn:Hr; [|done]. destruct (to_par HD p r Hr Hne) as (_ & Hrp & _).
  apply wp_bind. eapply doms_at_agree; [done..|]. simpl.
  pose proof (dom_pn p r Hr Hne). eapply wp_mono; [apply IH; [done|lia]|].
  intros c (Hc & Hle & Hall). split; [by econstructor|]. split; [done|]. intros a Ha Hla.
  destruct (chain_inv _ _ Ha) as [<-|(_ & r' & Hr' & Ha')]; [lia|].
  rewrite Hr in Hr'. injection Hr' as <-. by apply Hall.
Qed.

(** The lowest common node of two chains *)
Definition is_nca (p q c : nat) : Prop :=
  chain p c /\ chain q c /\ forall a, chain p a -> chain q a -> chain c a.

Lemma Intersect_loop_spec fuel d p q :
  agree d -> D p <> None -> D q <> None -> Z.of_nat k - 1 - Z.min (pn p) (pn q) <= Z.of_nat fuel ->
  wp (Intersect_loop ids fuel d p q) (is_nca p q).
Proof.
  intros Hd. revert p q. induction fuel as [|fuel IH]; intros p q Hp Hq Hf; simpl;
    (destruct (Nat.eqb_spec p q) as [->|Hne]; [by split_and!; try by constructor|]);
    pose proof (processed_reachable p Hp) as Hrp; pose proof (processed_reachable q Hq) as Hrq;
    pose proof (pn_range g ids k Hn p Hrp); pose proof (pn_range g ids k Hn q Hrq);
    assert (Hpq : pn p <> pn q) by (intros He; by apply Hne, (pn_inj g ids k Hn)); [simpl; lia|].
  pose proof (nb_length _ _ _ Hn) as Hlen. pose proof (nb_count _ _ _ Hn) as Hk.
  eapply wp_bind, wp_mono; [apply climb_spec; [done..|lia]|]. intros p' (Hpp' & Hle & Hall).
  destruct (chain_processed _ _ Hpp') as [_ Hp'].
  pose proof (processed_reachable p' Hp') as Hrp'. pose proof (pn_range g ids k Hn p' Hrp').
  eapply wp_bind, wp_mono; [apply climb_spec; [done..|lia]|]. intros q' (Hqq' & Hle' & Hall').
  destruct (chain_processed _ _ Hqq') as [_ Hq'].
  pose proof (chain_pn _ _ Hpp') as Hpp. pose proof (chain_pn _ _ Hqq') as Hqq.
  eapply wp_mono; [apply IH; [done..|]|].
  - destruct Hpp as [<-|], Hqq as [<-|]; lia.
  - intros c (Hc1 & Hc2 & Hc). split_and!; [by eapply chain_trans..|].
    intros a Ha1 Ha2.
    assert (Ha : chain p' a).
    { apply Hall; [done|]. destruct (chain_pn _ _ Ha2) as [<-|]; lia. }
    apply Hc; [done|]. apply Hall'; [done|]. destruct (chain_pn _ _ Ha) as [<-|]; lia.
Qed.

Lemma Intersect_spec d p q :
  agree d -> D p <> None -> D q <> None -> wp (Intersect ids d p q) (is_nca p q).
Proof.
  intros Hd Hp Hq. apply Intersect_loop_spec; [done..|].
  pose proof (nb_length _ _ _ Hn). pose proof (nb_count _ _ _ Hn).
  pose proof (pn_range g ids k Hn p (processed_reachable p Hp)).
  pose proof (pn_range g ids k Hn q (processed_reachable q Hq)). lia.
Qed.

(** ** One node *)

(** The predecessors that count *)
Definition cand (node p : nat) : Prop := edge g p node /\ D p <> None /\ p <> node.

(** The lowest node on the chains of all of them *)
Definition best (node c : nat) : Prop :=
  (forall p, cand node p -> chain p c) /\
  (forall a, (forall p, cand node p -> chain p a) -> chain c a).

(** The predecessors in [l] that count *)
Definition counts (node : nat) (l : list nat) (p : nat) : Prop := p ∈ l /\ D p <> None /\ p <> node.

Lemma first_processed_spec d node pre rest :
  agree d -> (exists p, counts node (pre :: rest) p) ->
  let '(c, rest', d') := first_processed d node pre rest in
  agree d' /\ counts node (pre :: rest) c /\
  (forall p, counts node (pre :: rest) p <-> p = c \/ counts node rest' p).
Proof.
  intros Hd. revert d pre Hd. induction rest as [|q rest IH]; intros d pre Hd [p Hp]; simpl;
    destruct (doms_get_agree d pre Hd) as [Hget Hd']; destruct (doms_get d pre) as [o d1]; simpl in Hget, Hd';
    rewrite Hget; unfold counts in *.
  - destruct Hp as (->%list_elem_of_singleton & Hpp & Hne).
    rewrite bool_decide_eq_false_2 by done. rewrite (proj2 (Nat.eqb_neq _ _) Hne). simpl.
    split; [done|]. split; [split; [by left | done]|]. intros p'. rewrite list_elem_of_singleton, elem_of_nil.
    naive_solver.
  - destruct (bool_decide (D pre = None) || (pre =? node)%nat) eqn:Hskip.
    + assert (Hno : ~ (D pre <> None /\ pre <> node)).
      { apply orb_true_iff in Hskip as [H0%bool_decide_eq_true|H0%Nat.eqb_eq]; naive_solver. }
      specialize (IH d1 q Hd'). destruct (first_processed d1 node q rest) as [[c rest'] d2].
      destruct IH as (Hd2 & Hc & Hiff).
      { exists p. destruct Hp as ([->|Hin]%elem_of_cons & ? & ?); [tauto|]. done. }
      split; [done|]. split; [destruct Hc; split; [by right | done]|].
      intros p'. rewrite <- Hiff, (elem_of_cons (q :: rest)). naive_solver.
    + apply orb_false_iff in Hskip as [H0%bool_decide_eq_false H1%Nat.eqb_neq].
      split; [done|]. split; [split; [by left | done]|]. intros p'. rewrite (elem_of_cons (q :: rest)). naive_solver.
Qed.

Lemma intersect_rest_spec d node c0 rest :
  agree d -> D c0 <> None ->
  wp (intersect_rest ids d node c0 rest) (fun '(c, d') => agree d' /\ chain c0 c /\
    (forall p, counts node rest p -> chain p c) /\
    (forall a, chain c0 a -> (forall p, counts node rest p -> chain p a) -> chain c a)).
Proof.
  intros Hd. revert d c0 Hd. induction rest as [|p rest IH]; intros d c0 Hd Hc0; simpl.
  - split; [done|]. split; [by constructor|]. split; [|done]. by intros p (?%elem_of_nil & _).
  - destruct (doms_get_agree d p Hd) as [Hget Hd']. destruct (doms_get d p) as [o d1]. simpl in Hget, Hd'.
    rewrite Hget. destruct (negb (bool_decide (D p = None)) && negb (p =? node)%nat) eqn:Hcount.
    + apply andb_true_iff in Hcount as [H0%negb_true_iff%bool_decide_eq_false H1%negb_true_iff%Nat.eqb_neq].
      eapply wp_bind, wp_mono; [by apply Intersect_spec|]. intros c1 (Hp1 & Hc1 & Hlow).
      destruct (chain_processed _ _ Hc1) as [_ Hpc1].
      eapply wp_mono; [by apply IH|]. intros [c d2] (Hd2 & Hc & Hall & Hbest).
      split; [done|]. split; [by eapply chain_trans|]. split.
      * intros p' ([->|Hin]%elem_of_cons & Hp' & Hne); [by eapply chain_trans | by apply Hall].
      * intros a Ha Hpa. apply Hbest; [apply Hlow; [apply Hpa; split; [by left | done] | done]|].
        intros p' (Hin & ?). apply Hpa. split; [by right | done].
    + apply wp_bind. simpl. eapply wp_mono; [by apply IH|]. intros [c d2] (Hd2 & Hc & Hall & Hbest).
      assert (Hno : ~ (D p <> None /\ p <> node)).
      { apply andb_false_iff in Hcount as [H0%negb_false_iff%bool_decide_eq_true|H0%negb_false_iff%Nat.eqb_eq]; naive_solver. }
      split; [done|]. split; [done|]. split.
      * intros p' ([->|Hin]%elem_of_cons & Hp' & Hne); [tauto | by apply Hall].
      * intros a Ha Hpa. apply Hbest; [done|]. intros p' (Hin & ?). apply Hpa. split; [by right | done].
Qed.

(** The predecessor that the search starts from, and the others *)
Lemma compute_dom_spec (order : list (option nat)) i d changed node :
  agree d -> order !! i = Some (Some node) -> reachable g node -> node <> entry ->
  D (par node) <> None ->
  wp (compute_dom g ids order i (d, changed)) (fun '(d', ch') => exists c, best node c /\
    if decide (D node = Some c) then ch' = changed /\ agree d'
    else ch' = true /\ forall v, GetDom d' v = if decide (v = node) then Some c else D v).
Proof.
  intros Hd Ho Hr Hne Hpar. destruct (par_spec g ids k Hg Hn node Hr Hne) as (Hrp & Hep & Hlt).
  assert (Hpn : par node <> node) by (intros He; rewrite He in Hlt; lia).
  unfold compute_dom. apply wp_bind, (wp_vec _ _ _ _ Ho), wp_bind. simpl.
  set (prev := GetPrevNodesToVisit g node).
  (* the candidates: the start, and the rest *)
  eapply wp_bind, (wp_mono _ (fun pre => (exists p, counts node (pre :: drop 1 prev) p) /\
    ((pre = entry /\ edge g entry node) \/ (prev = pre :: drop 1 prev /\ ~ edge g entry node)))).
  { unfold InitNodeIsPred. case_bool_decide as Hinit; simpl.
    - split; [|by left]. exists entry. split; [by left|]. split; [by rewrite (to_entry HD) | done].
    - assert (Hin : par node ∈ prev).
      { destruct (gg_next g Hg _ _ Hrp Hep) as [He|]; [|done]. by rewrite He in Hep. }
      destruct prev as [|p0 prev']; [by apply elem_of_nil in Hin|]. simpl.
      split; [|by right]. exists (par node). done. }
  intros pre [Hex Hcase].
  assert (Hcand : forall p, cand node p <-> counts node (pre :: drop 1 prev) p \/ (counts node prev p /\ pre = entry)).
  { intros p. unfold cand, counts. split.
    - intros (He & Hp & Hpne). destruct (gg_next g Hg p node (processed_reachable p Hp) He) as [->|Hin].
      + destruct Hcase as [[-> _]|[_ Hno]]; [|done]. left. split; [by left | done].
      + destruct Hcase as [[-> _]|[Heq _]]; [by right|]. left. fold prev in Hin. by rewrite Heq in Hin.
    - assert (Hprev : forall p, p ∈ prev -> edge g p node) by (intros p' Hin; by apply gg_prev).
      intros [([->|Hin]%elem_of_cons & Hp & Hpne)|[(Hin & Hp & Hpne) _]]; split_and!; try done; try by apply Hprev.
      + destruct Hcase as [[-> He]|[Heq _]]; [done|]. apply Hprev. rewrite Heq. by left.
      + apply Hprev. destruct prev as [|p0 prev']; [by apply elem_of_nil in Hin|]. by right. }
  pose proof (first_processed_spec d node pre (drop 1 prev) Hd Hex) as Hfp.
  destruct (first_processed d node pre (drop 1 prev)) as [[c0 rest] d1].
  destruct Hfp as (Hd1 & (Hin0 & Hc0 & Hne0) & Hiff).
  eapply wp_bind, wp_mono; [by apply intersect_rest_spec|]. intros [c d2] (Hd2 & Hc & Hall & Hlow).
  assert (Hbest : best node c).
  { split.
    - intros p [Hp|[Hp ->]]%Hcand.
      + apply Hiff in Hp as [->|Hp]; [done | by apply Hall].
      + assert (c = entry) as ->; [|apply chain_to_entry; by destruct Hp as (_ & ? & _)].
        assert (He : counts node (entry :: drop 1 prev) entry)
          by (split; [by left|]; split; [by rewrite (to_entry HD) | done]).
        apply Hiff in He as [<-|He]; apply chain_entry_inv; [done | by apply Hall].
    - intros a Ha. apply Hlow.
      + apply Ha, Hcand. left. apply Hiff. by left.
      + intros p Hp. apply Ha, Hcand. left. apply Hiff. by right. }
  destruct (doms_get_agree d2 node Hd2) as [Hget Hd3]. destruct (doms_get d2 node) as [old d3].
  simpl in Hget, Hd3. rewrite Hget.
  destruct (decide (D node = Some c)) as [Heq|Hneq].
  - rewrite bool_decide_eq_true_2 by done. exists c. split; [done|]. by rewrite decide_True.
  - rewrite bool_decide_eq_false_2 by done. exists c. split; [done|]. rewrite decide_False by done.
    split; [done|]. intros v. unfold GetDom.
    destruct (decide (v = node)) as [->|Hv]; [by rewrite lookup_insert_eq|].
    rewrite lookup_insert_ne by done. apply Hd3.
Qed.
End Chain.
End Tree.
