(* ===== verification/DominanceFixpoint.v ===== *)
(** * Dominators: the iteration ends at the dominator tree

    The invariant of ComputeDominance in the middle of a pass.  Every dominator of a
    node stays on its chain; and a new dominator is always above the old one, since
    a node is never above the lowest common node of its predecessors' chains and,
    for the nodes still to come in a pass, the part of the chain that may still
    change is on the chain of the predecessor in the spanning tree as well.  Each
    change lowers [weight], so that the passes end, and then the chains are exactly
    the dominators. *)
From stdpp Require Import gmap sets.
From S2P Require Import Prelude.
From S2P Require Import Dominance.
From S2P Require Import DominanceGraph.
From S2P Require Import DominanceWalk.
From S2P Require Import DominanceTree.

Section Settling.
Context (g : Graph) (Hg : good_graph g) (ids : list Z) (k : nat) (Hn : numbering g ids k).
Notation entry := (commonEntryNode g).
Notation pn := (pn ids).
Notation par := (par g ids).
Notation chain := (chain g).
Notation best := (best g).
Notation tree_ok := (tree_ok g ids).

(** The place of a node in reverse post-order *)
Definition place (v : nat) : Z := Z.of_nat k - 1 - pn v.

Lemma chain_dec D v a : tree_ok D -> D v <> None -> chain D v a \/ ~ chain D v a.
Proof.
  intros HD. remember (Z.to_nat (Z.of_nat k - pn v)) as m eqn:Em.
  revert v Em. induction m as [m IH] using lt_wf_ind. intros v -> Hv.
  destruct (decide (v = a)) as [->|Hva]; [left; by constructor|].
  destruct (decide (v = entry)) as [->|Hne].
  { right. intros Hc. apply Hva. symmetry. by eapply chain_entry_inv. }
  destruct (D v) as [p|] eqn:Hp; [|done].
  pose proof (dom_pn g Hg ids k Hn D HD v p Hp Hne) as Hlt.
  destruct (to_par _ _ _ HD v p Hp Hne) as (_ & Hpp & _).
  pose proof (pn_range g ids k Hn p (processed_reachable g ids D HD p Hpp)) as Hr.
  destruct (IH (Z.to_nat (Z.of_nat k - pn p)) ltac:(lia) p eq_refl Hpp) as [Hc|Hc].
  - left. by econstructor.
  - right. intros [?|(_ & p' & Hp' & Hc')]%chain_inv; [done|]. rewrite Hp in Hp'. by injection Hp' as <-.
Qed.

(** ** A change *)

Definition upd (D : nat -> option nat) (r c : nat) : nat -> option nat :=
  fun v => if decide (v = r) then Some c else D v.

Section Update.
Context (D : nat -> option nat) (HD : tree_ok D) (r c : nat).
Hypothesis Hr : reachable g r.
Hypothesis Hre : r <> entry.
Hypothesis Hc : chain D (par r) c.
Notation D' := (upd D r c).

Lemma upd_eq : D' r = Some c.
Proof. unfold upd. by rewrite decide_True. Qed.

Lemma upd_ne v : v <> r -> D' v = D v.
Proof. intros Hne. unfold upd. by rewrite decide_False. Qed.

Lemma upd_processed v : D v <> None -> D' v <> None.
Proof. intros Hv. unfold upd. by case_decide. Qed.

Lemma c_processed : D c <> None.
Proof. by destruct (chain_processed g D _ _ Hc). Qed.

Lemma c_above : pn r < pn c.
Proof.
  destruct (par_spec g ids k Hg Hn r Hr Hre) as (_ & _ & Hlt).
  destruct (chain_pn g Hg ids k Hn D HD _ _ Hc) as [<-|]; lia.
Qed.

Lemma not_above_r v : pn r < pn v -> ~ chain D v r.
Proof. intros Hlt Hv. destruct (chain_pn g Hg ids k Hn D HD _ _ Hv) as [->|]; lia. Qed.

(** Chains that do not reach [r] *)
Lemma upd_same x a : D x <> None -> ~ chain D x r -> chain D' x a <-> chain D x a.
Proof.
  intros Hx Hnr. split.
  - intros Ha. induction Ha as [v Hv|v p a Hne Hp Ha IH]; [by constructor|].
    assert (v <> r) by (intros ->; apply Hnr; by constructor).
    rewrite upd_ne in Hp by done. destruct (to_par _ _ _ HD v p Hp Hne) as (_ & Hpp & _).
    econstructor; [done..|]. apply IH; [done|]. intros Hpr. apply Hnr. by econstructor.
  - intros Ha. induction Ha as [v Hv|v p a Hne Hp Ha IH]; [constructor; by apply upd_processed|].
    assert (v <> r) by (intros ->; apply Hnr; by constructor).
    destruct (to_par _ _ _ HD v p Hp Hne) as (_ & Hpp & _).
    econstructor; [done|by rewrite upd_ne|]. apply IH; [done|]. intros Hpr. apply Hnr. by econstructor.
Qed.

Lemma upd_c a : chain D' c a <-> chain D c a.
Proof. apply upd_same; [apply c_processed | apply not_above_r, c_above]. Qed.

Lemma upd_new a : chain D' r a <-> a = r \/ chain D c a.
Proof.
  split.
  - intros [<-|(_ & p & Hp & Ha)]%chain_inv; [by left|]. right.
    rewrite upd_eq in Hp. injection Hp as <-. by apply upd_c.
  - intros [->|Ha]; [constructor; by rewrite upd_eq|].
    econstructor; [done | apply upd_eq | by apply upd_c].
Qed.

(** Chains that reach [r]: up to it as before, and from there the new chain *)
Lemma upd_through x a :
  chain D x r -> chain D' x a <-> (chain D x a /\ chain D a r) \/ chain D' r a.
Proof.
  intros Hx. remember r as r0 eqn:Er in Hx. revert Er.
  induction Hx as [v Hv|v p b Hne Hp Hpb IH]; intros ->.
  - split; [by right|]. intros [[Ha1 Ha2]|Ha]; [|done].
    destruct (chain_pn g Hg ids k Hn D HD _ _ Ha1) as [<-|Hlt]; [constructor; by rewrite upd_eq|].
    destruct (chain_pn g Hg ids k Hn D HD _ _ Ha2) as [->|]; lia.
  - specialize (IH eq_refl).
    assert (Hvr : v <> r).
    { intros ->. pose proof (dom_pn g Hg ids k Hn D HD r p Hp Hne).
      destruct (chain_pn g Hg ids k Hn D HD _ _ Hpb) as [->|]; lia. }
    assert (Hvr' : chain D v r) by by econstructor.
    split.
    + intros [<-|(_ & p' & Hp' & Ha)]%chain_inv.
      * left. split; [|done]. by destruct (chain_processed g D _ _ Hvr'); constructor.
      * rewrite upd_ne, Hp in Hp' by done. injection Hp' as <-.
        apply IH in Ha as [[Ha1 Ha2]|Ha]; [|by right]. left. split; [by econstructor | done].
    + intros [[Ha1 Ha2]|Ha].
      * apply chain_inv in Ha1 as [<-|(_ & p' & Hp' & Ha1)].
        -- constructor. by rewrite upd_ne, Hp.
        -- rewrite Hp in Hp'. injection Hp' as <-. econstructor; [done | by rewrite upd_ne | apply IH; by left].
      * econstructor; [done | by rewrite upd_ne | apply IH; by right].
Qed.

Lemma upd_tree_ok : tree_ok D'.
Proof.
  constructor.
  - rewrite upd_ne by done. apply (to_entry _ _ _ HD).
  - intros v p Hp Hne. destruct (decide (v = r)) as [->|Hv].
    + rewrite upd_eq in Hp. injection Hp as <-. split; [done|]. split; [apply upd_processed, c_processed|].
      by eapply chain_anc.
    + rewrite upd_ne in Hp by done. destruct (to_par _ _ _ HD v p Hp Hne) as (? & ? & ?).
      split_and!; [done | by apply upd_processed | done].
Qed.

(** A chain that reached [r] keeps what is below [r], and what [r] keeps. *)
Lemma upd_keep x a :
  D x <> None -> chain D x a -> (chain D x r -> pn r < pn a -> chain D' r a) -> chain D' x a.
Proof.
  intros Hx Ha Hkeep. destruct (chain_dec D x r HD Hx) as [Hxr|Hxr]; [|by apply upd_same].
  apply upd_through; [done|]. destruct (Z.le_gt_cases (pn a) (pn r)) as [Hle|Hgt].
  - left. split; [done|]. by apply (chain_line g Hg ids k Hn D HD x).
  - right. apply Hkeep; [done | lia].
Qed.

(** Every dominator stays on the chain. *)
Lemma upd_sound :
  best D r c -> (forall v a, D v <> None -> dominates g a v -> chain D v a) ->
  forall v a, D' v <> None -> dominates g a v -> chain D' v a.
Proof.
  intros [_ Hlow] Hsound.
  assert (Hnew : forall a, dominates g a r -> chain D' r a).
  { intros a Ha. apply upd_new. destruct (decide (a = r)) as [->|Hne]; [by left|]. right. apply Hlow.
    intros q (He & Hq & _). apply Hsound; [done|]. by eapply dominates_pred. }
  intros v a Hv Ha. destruct (decide (v = r)) as [->|Hvr]; [by apply Hnew|].
  rewrite upd_ne in Hv by done. apply upd_keep; [done | by apply Hsound|].
  intros Hc' Hlt. apply Hnew. eapply (dominates_anc g ids k Hg Hn); [exact Ha | by eapply chain_anc | lia].
Qed.

(** Chains get shorter. *)
Lemma upd_shrink x a :
  (forall old, D r = Some old -> chain D old c) -> D x <> None -> chain D' x a -> chain D x a.
Proof.
  intros Hold Hx Ha. induction Ha as [v Hv|v p a Hne Hp Ha IH]; [by constructor|].
  destruct (decide (v = r)) as [->|Hvr].
  - rewrite upd_eq in Hp. injection Hp as <-. destruct (D r) as [old|] eqn:Hor; [|done].
    econstructor; [done..|]. eapply chain_trans; [by apply Hold | apply IH, c_processed].
  - rewrite upd_ne in Hp by done. destruct (to_par _ _ _ HD v p Hp Hne) as (_ & ? & _).
    econstructor; [done..|]. by apply IH.
Qed.
End Update.

(** ** The invariant *)

(** [i] is the place of the next node. *)
Record Pass (i : Z) (D : nat -> option nat) : Prop := {
  ps_tree : tree_ok D;
  ps_sound : forall v a, D v <> None -> dominates g a v -> chain D v a;
  ps_done : forall v, reachable g v -> place v < i -> D v <> None;
  ps_low : forall v p a, v <> entry -> D v = Some p ->
    (forall q, cand g D v q -> chain D q a) -> chain D p a;
  ps_par : forall v m, D v <> None -> v <> entry -> chain D v m -> m <> v ->
    place v < i \/ i <= place m -> chain D (par v) m
}.

Lemma par_cand D v : reachable g v -> v <> entry -> D (par v) <> None -> cand g D v (par v).
Proof.
  intros Hv Hne Hp. destruct (par_spec g ids k Hg Hn v Hv Hne) as (_ & He & Hlt).
  split; [done|]. split; [done|]. intros Heq. rewrite Heq in Hlt. lia.
Qed.

Lemma place_par v : reachable g v -> v <> entry -> place (par v) < place v.
Proof. intros Hv Hne. destruct (par_spec g ids k Hg Hn v Hv Hne) as (_ & _ & Hlt). unfold place. lia. Qed.

Lemma place_inj u v : reachable g u -> reachable g v -> place u = place v -> u = v.
Proof. intros Hu Hv He. apply (pn_inj g ids k Hn); [done..|]. unfold place in He. lia. Qed.

(** The node keeps its dominator. *)
Lemma Pass_same D r c :
  reachable g r -> r <> entry -> Pass (place r) D -> best D r c -> D r = Some c -> Pass (place r + 1) D.
Proof.
  intros Hr Hre [] Hbest Hrc.
  assert (Hp : D (par r) <> None).
  { apply ps_done0; [by apply (par_spec g ids k Hg Hn) | by apply place_par]. }
  constructor; [done..| | done |].
  - intros v Hv Hlt. destruct (decide (v = r)) as [->|Hne]; [by rewrite Hrc|].
    apply ps_done0; [done|]. assert (place v <> place r) by (intros He; by apply Hne, place_inj). lia.
  - intros v m Hv Hve Hm Hmv Hcase. destruct (decide (v = r)) as [->|Hne].
    + apply chain_inv in Hm as [?|(_ & p & Hp' & Hm)]; [done|]. rewrite Hrc in Hp'. injection Hp' as <-.
      eapply chain_trans; [by apply Hbest, par_cand | done].
    + apply ps_par0; [done..|].
      assert (place v <> place r); [|lia].
      intros He. apply Hne, place_inj; [|done..]. by eapply processed_reachable.
Qed.

(** The node gets another dominator. *)
Lemma Pass_upd D r c :
  reachable g r -> r <> entry -> Pass (place r) D -> best D r c ->
  (forall old, D r = Some old -> chain D old c) -> Pass (place r + 1) (upd D r c).
Proof.
  intros Hr Hre [] Hbest Hold.
  assert (Hp : D (par r) <> None).
  { apply ps_done0; [by apply (par_spec g ids k Hg Hn) | by apply place_par]. }
  pose proof (proj1 Hbest _ (par_cand D r Hr Hre Hp)) as Hc.
  assert (Hother : forall v, D v <> None -> v <> r -> place v <> place r).
  { intros v Hv Hne He. apply Hne, place_inj; [|done..]. by eapply processed_reachable. }
  constructor.
  - by apply upd_tree_ok.
  - by apply upd_sound.
  - intros v Hv Hlt. destruct (decide (v = r)) as [->|Hne]; [by rewrite upd_eq|].
    apply upd_processed, ps_done0; [done|]. assert (place v <> place r) by (intros He; by apply Hne, place_inj). lia.
  - intros v p a Hve Hvp Hall.
    assert (Hall' : forall q, cand g D v q -> chain D q a).
    { intros q (He & Hq & Hne). eapply upd_shrink; try done. apply Hall. split; [done|].
      split; [by apply upd_processed | done]. }
    destruct (decide (v = r)) as [->|Hne].
    + rewrite upd_eq in Hvp. injection Hvp as <-. apply upd_c; try done. by apply Hbest.
    + rewrite upd_ne in Hvp by done. pose proof (ps_low0 v p a Hve Hvp Hall') as Hpa.
      destruct (to_par _ _ _ ps_tree0 v p Hvp Hve) as (Hvr & Hpp & _).
      apply upd_keep; try done. intros Hpr Hlt.
      assert (Hpv : chain D (par v) r).
      { apply ps_par0; [by rewrite Hvp | done | by econstructor | done | right; lia]. }
      destruct (chain_processed g D _ _ Hpv) as [Hpp' _].
      destruct (par_cand D v Hvr Hve Hpp') as (He & _ & Hne').
      assert (Ha : chain (upd D r c) (par v) a)
        by (apply Hall; split; [done|]; split; [by apply upd_processed | done]).
      apply (upd_through D ps_tree0 r c Hre) in Ha as [[_ Har]|Ha]; [|done..].
      by destruct (not_above_r D ps_tree0 r Hre a Hlt Har).
  - intros v m Hv Hve Hm Hmv Hcase. destruct (decide (v = r)) as [->|Hne].
    + assert (Hpr : ~ chain D (par r) r)
        by (apply (not_above_r D); [done..|]; by apply (par_spec g ids k Hg Hn)).
      apply (upd_new D ps_tree0 r c Hr Hre Hc) in Hm as [?|Hm]; [done|].
      apply (upd_same D ps_tree0); [done..|]. by eapply chain_trans.
    + rewrite upd_ne in Hv by done. specialize (Hother v Hv Hne).
      pose proof (upd_shrink D ps_tree0 r c Hc v m Hold Hv Hm) as Hm'.
      assert (Hpm : chain D (par v) m) by (apply ps_par0; try done; lia).
      apply upd_keep; try done; [by destruct (chain_processed g D _ _ Hpm)|].
      intros Hpr Hlt. exfalso.
      pose proof (processed_reachable g ids D ps_tree0 v Hv) as Hrv.
      pose proof (place_par v Hrv Hve).
      destruct (chain_pn g Hg ids k Hn D ps_tree0 _ _ Hpr) as [Heq|Hlt']; unfold place in *; [|lia].
      rewrite Heq in *. lia.
Qed.

(** ** The measure *)

Definition node_weight (D : nat -> option nat) (v : nat) : nat :=
  match D v with Some p => Z.to_nat (place p) | None => k end.
Definition weight (D : nat -> option nat) : nat := sum_list_with (node_weight D) (seq 0 (length (nodeVec g))).

Lemma sum_list_with_le {A} (f h : A -> nat) (l : list A) :
  (forall x, x ∈ l -> f x <= h x)%nat -> (sum_list_with f l <= sum_list_with h l)%nat.
Proof.
  induction l as [|x l IH]; intros Hle; simpl; [lia|].
  pose proof (Hle x ltac:(by left)). specialize (IH ltac:(intros; apply Hle; by right)). lia.
Qed.

Lemma sum_list_with_lt {A} (f h : A -> nat) (l : list A) x :
  (forall x, x ∈ l -> f x <= h x)%nat -> x ∈ l -> (f x < h x)%nat ->
  (sum_list_with f l < sum_list_with h l)%nat.
Proof.
  intros Hle Hx Hlt. induction Hx as [x l|x y l Hx IH]; simpl.
  - pose proof (sum_list_with_le f h l ltac:(intros; apply Hle; by right)). lia.
  - pose proof (Hle y ltac:(by left)). specialize (IH ltac:(intros; apply Hle; by right) Hlt). lia.
Qed.

Lemma weight_bound D : (forall v p, D v = Some p -> 0 <= place p < Z.of_nat k) ->
  (weight D <= length (nodeVec g) * length (nodeVec g))%nat.
Proof.
  intros Hp. pose proof (nb_count _ _ _ Hn) as Hk. unfold weight.
  assert (Hl : forall l, (sum_list_with (node_weight D) l <= length l * length (nodeVec g))%nat);
    [|specialize (Hl (seq 0 (length (nodeVec g)))); by rewrite length_seq in Hl].
  induction l as [|v l IH]; simpl; [lia|].
  assert (node_weight D v <= k)%nat; [|lia]. unfold node_weight.
  destruct (D v) as [p|] eqn:Hv; [|lia]. pose proof (Hp v p Hv). lia.
Qed.

Lemma weight_upd D r c :
  tree_ok D -> reachable g r -> reachable g c -> D r <> Some c ->
  (forall old, D r = Some old -> chain D old c) -> (weight (upd D r c) < weight D)%nat.
Proof.
  intros HD Hr Hc Hne Hold. pose proof (pn_range g ids k Hn c Hc) as Hpc.
  assert (Hlt : (node_weight (upd D r c) r < node_weight D r)%nat).
  { unfold node_weight. rewrite upd_eq. unfold place. destruct (D r) as [old|] eqn:Hor; [|lia].
    specialize (Hold old eq_refl). destruct (chain_processed g D _ _ Hold) as [Ho _].
    pose proof (pn_range g ids k Hn old (processed_reachable g ids D HD old Ho)).
    destruct (chain_pn g Hg ids k Hn D HD _ _ Hold) as [->|]; [done | lia]. }
  apply (sum_list_with_lt _ _ _ r); [|apply elem_of_seq; pose proof (reachable_lt g r Hg Hr); lia | done].
  intros v _. destruct (decide (v = r)) as [->|Hv]; [lia|]. unfold node_weight. by rewrite upd_ne.
Qed.

(** ** Passes *)

Context (order : list (option nat)) (Hk : length order = k) (Ho : ordering ids order).

Lemma order_node i : (i < k)%nat -> exists v, order !! i = Some (Some v) /\ reachable g v /\ place v = Z.of_nat i.
Proof.
  intros Hi. destruct (Ho i ltac:(lia)) as (v & Hv & Hj). exists v. split; [done|].
  rewrite Hk in Hj. split.
  - apply (nb_reach _ _ _ Hn). eexists. split; [exact Hj | lia].
  - unfold place. rewrite (ids_pn ids v _ Hj). lia.
Qed.

Lemma place_entry : place entry = 0.
Proof. unfold place. rewrite (pn_entry g ids k Hn). lia. Qed.

(** The nodes before place [i] have the dominator that their predecessors give. *)
Definition settled (i : Z) (D : nat -> option nat) : Prop :=
  forall v, reachable g v -> v <> entry -> place v < i -> exists c, best D v c /\ D v = Some c.

(** The state in a pass that began with [D0] *)
Definition in_pass (D0 : nat -> option nat) (i : Z) (st : Doms * bool) : Prop :=
  exists D, agree D (fst st) /\ Pass i D /\
    if snd st then (weight D < weight D0)%nat else D = D0 /\ settled i D.

Lemma compute_dom_in_pass D0 i st :
  (1 <= i < k)%nat -> in_pass D0 (Z.of_nat i) st ->
  wp (compute_dom g ids order i st) (in_pass D0 (Z.of_nat i + 1)).
Proof.
  intros Hi (D & Hd & HP & Hst). destruct st as [d ch]. simpl in Hd, Hst.
  destruct (order_node i ltac:(lia)) as (r & Hor & Hr & Hpl). rewrite <- Hpl in *.
  assert (Hre : r <> entry) by (intros ->; rewrite place_entry in Hpl; lia).
  pose proof (ps_tree _ _ HP) as HD.
  assert (Hp : D (par r) <> None).
  { apply (ps_done _ _ HP); [by apply (par_spec g ids k Hg Hn) | by apply place_par]. }
  eapply wp_mono; [by apply (compute_dom_spec g Hg ids k Hn D HD order i d ch r)|].
  intros [d' ch'] (c & Hbest & Hres).
  pose proof (proj1 Hbest _ (par_cand D r Hr Hre Hp)) as Hc.
  assert (Hold : forall old, D r = Some old -> chain D old c).
  { intros old Hor'. apply (ps_low _ _ HP r old); [done..|]. apply Hbest. }
  destruct (decide (D r = Some c)) as [Heq|Hne].
  - destruct Hres as [-> Hd']. exists D. split; [done|]. split; [by eapply Pass_same|]. simpl.
    destruct ch; [done|]. destruct Hst as [-> Hset]. split; [done|]. intros v Hv Hve Hlt.
    destruct (decide (v = r)) as [->|Hvr]; [by exists c|]. apply Hset; [done..|].
    assert (place v <> place r) by (intros He; by apply Hvr, place_inj). lia.
  - destruct Hres as [-> Hd']. exists (upd D r c). split; [done|]. split; [by apply Pass_upd|]. simpl.
    assert (Hcr : reachable g c).
    { eapply processed_reachable; [exact HD|]. by destruct (chain_processed g D _ _ Hc). }
    pose proof (weight_upd D r c HD Hr Hcr Hne Hold). destruct ch; [lia|]. by destruct Hst as [-> _].
Qed.

Lemma dom_pass_spec D d :
  agree D d -> Pass 1 D -> wp (dom_pass g ids order d) (in_pass D (Z.of_nat k)).
Proof.
  intros Hd HP. pose proof (pn_range g ids k Hn entry (reachable_entry g)) as Hpos.
  unfold dom_pass. rewrite Hk. eapply wp_mono.
  - apply (wp_for_up (fun i => in_pass D (Z.of_nat i))).
    + exists D. split; [done|]. split; [done|]. simpl. split; [done|]. intros v Hv Hve Hlt.
      exfalso. apply Hve, place_inj; [done | apply reachable_entry |]. rewrite place_entry.
      pose proof (pn_range g ids k Hn v Hv). unfold place in *. lia.
    + intros i st Hi Hst. rewrite Nat2Z.inj_succ. apply compute_dom_in_pass; [lia | done].
  - intros st Hst. by replace (1 + (k - 1))%nat with k in Hst by lia.
Qed.

(** After a pass the invariant holds at the start of the next. *)
Lemma Pass_next D i : Pass (Z.of_nat k) D -> Pass i D.
Proof.
  intros []. assert (Hall : forall v, reachable g v -> place v < Z.of_nat k).
  { intros v Hv. pose proof (pn_range g ids k Hn v Hv). unfold place. lia. }
  constructor; try done.
  - intros v Hv _. by apply ps_done0, Hall.
  - intros v m Hv Hve Hm Hmv _. apply ps_par0; try done. left. apply Hall. by eapply processed_reachable.
Qed.

Lemma dom_passes_spec fuel D d :
  agree D d -> Pass 1 D -> (weight D <= fuel)%nat ->
  wp (dom_passes g ids order fuel d) (fun d' => exists D',
    agree D' d' /\ Pass (Z.of_nat k) D' /\ settled (Z.of_nat k) D').
Proof.
  revert D d. induction fuel as [|fuel IH]; intros D d Hd HP Hw; simpl;
    (eapply wp_bind, wp_mono; [by apply dom_pass_spec|]); intros [d' ch] (D' & Hd' & HP' & Hst);
    simpl in Hd', Hst; destruct ch.
  - lia.
  - exists D'. split_and!; [done..|]. by destruct Hst.
  - apply (IH D'); [done | by apply Pass_next | lia].
  - exists D'. split_and!; [done..|]. by destruct Hst.
Qed.

Lemma Pass_start : Pass 1 (fun v => if decide (v = entry) then Some entry else None).
Proof.
  set (D := fun v => if decide (v = entry) then Some entry else None).
  assert (He : D entry = Some entry) by (unfold D; by rewrite decide_True).
  assert (Hne : forall v, v <> entry -> D v = None) by (intros v Hv; unfold D; by rewrite decide_False).
  constructor.
  - constructor; [done|]. intros v p Hp Hv. by rewrite Hne in Hp.
  - intros v a Hv Ha. destruct (decide (v = entry)) as [->|Hv']; [|by rewrite Hne in Hv].
    specialize (Ha [entry] (path_start g)). apply list_elem_of_singleton in Ha as ->. by constructor.
  - intros v Hv Hlt. assert (v = entry) as ->; [|by rewrite He].
    apply place_inj; [done | apply reachable_entry |]. rewrite place_entry.
    pose proof (pn_range g ids k Hn v Hv). unfold place in *. lia.
  - intros v p a Hv Hp. by rewrite Hne in Hp.
  - intros v m Hv Hve. by rewrite Hne in Hv.
Qed.

Lemma ComputeDominance_settled :
  wp (ComputeDominance g ids order) (fun d => exists D,
    agree D d /\ Pass (Z.of_nat k) D /\ settled (Z.of_nat k) D).
Proof.
  apply (dom_passes_spec _ (fun v => if decide (v = entry) then Some entry else None)).
  - intros v. unfold GetDom. case_decide as Hv; [subst; by rewrite lookup_singleton_eq|].
    by rewrite lookup_singleton_ne by done.
  - apply Pass_start.
  - etrans; [apply weight_bound|unfold dom_fuel; lia].
    intros v p. case_decide; [|done]. intros [= <-]. rewrite place_entry.
    pose proof (pn_range g ids k Hn entry (reachable_entry g)). lia.
Qed.

(** ** Chains are dominators *)

Lemma settled_dominates D v a :
  Pass (Z.of_nat k) D -> settled (Z.of_nat k) D -> reachable g v -> chain D v a <-> dominates g a v.
Proof.
  intros HP Hset Hv.
  assert (Hall : forall u, reachable g u -> place u < Z.of_nat k).
  { intros u Hu. pose proof (pn_range g ids k Hn u Hu). unfold place. lia. }
  split; [|apply (ps_sound _ _ HP); by apply (ps_done _ _ HP), Hall].
  intros Ha l Hl. revert a Ha. induction Hl as [|l u v Hl IH He]; intros a Ha.
  - apply chain_entry_inv in Ha as ->. by left.
  - apply elem_of_app. destruct (decide (a = v)) as [->|Hav]; [right; by left|]. left.
    assert (Hu : reachable g u) by by exists l.
    destruct (decide (u = v)) as [->|Huv]; [by apply IH|].
    apply chain_inv in Ha as [?|(Hve & p & Hp & Ha)]; [done|].
    destruct (Hset v Hv Hve (Hall v Hv)) as (c & Hbest & Hvc). rewrite Hp in Hvc. injection Hvc as <-.
    apply IH; [done|]. eapply chain_trans; [|exact Ha]. apply Hbest.
    split; [done|]. split; [by apply (ps_done _ _ HP), Hall | done].
Qed.
End Settling.
