(* ===== verification/DominanceFrontier.v ===== *)
(** * Dominators: queries and frontiers

    What the rest of the analysis computes from the dominator tree: the test
    Dominate, and the dominance frontiers, for graphs in which every node can be
    reached. *)
From stdpp Require Import gmap sets.
From S2P Require Import Prelude.
From S2P Require Import Dominance.
From S2P Require Import DominanceGraph.
From S2P Require Import DominanceWalk.
From S2P Require Import DominanceTree.
From S2P Require Import DominanceFixpoint.

(** The dominator tree [D] is that of the graph. *)
Record dom_tree (g : Graph) (ids : list Z) (D : nat -> option nat) : Prop := {
  dt_ok : tree_ok g ids D;
  dt_all : forall v, reachable g v -> D v <> None;
  dt_chain : forall v a, reachable g v -> chain g D v a <-> dominates g a v
}.

Section Frontier.
Context (g : Graph) (Hg : good_graph g) (ids : list Z) (k : nat) (Hn : numbering g ids k).
Notation entry := (commonEntryNode g).
Notation pn := (pn ids).
Context (D : nat -> option nat) (HD : dom_tree g ids D) (d : Doms) (Hd : agree D d).
Notation chain := (chain g D).

Lemma dt_reachable v : D v <> None -> reachable g v.
Proof. by eapply processed_reachable, dt_ok. Qed.

Lemma dt_dom v : reachable g v -> v <> entry -> exists p, D v = Some p /\ reachable g p /\ pn v < pn p.
Proof.
  intros Hv Hne. pose proof (dt_all _ _ _ HD v Hv) as Hp. destruct (D v) as [p|] eqn:Hvp; [|done].
  destruct (to_par _ _ _ (dt_ok _ _ _ HD) v p Hvp Hne) as (_ & Hpp & _).
  exists p. split; [done|]. split; [by apply dt_reachable|]. by eapply dom_pn, Hne; [| | apply HD |].
Qed.

Lemma chain_step v p a : v <> entry -> D v = Some p -> chain v a <-> a = v \/ chain p a.
Proof.
  intros Hne Hp. split.
  - intros [->|(_ & p' & Hp' & Ha)]%chain_inv; [by left|]. right. rewrite Hp in Hp'. by injection Hp' as <-.
  - intros [->|Ha]; [constructor; by rewrite Hp | by econstructor].
Qed.

Lemma chain_antisym v a : chain v a -> chain a v -> v = a.
Proof.
  intros Hva Hav. pose proof (dt_ok _ _ _ HD) as Hok.
  destruct (chain_pn g Hg ids k Hn D Hok _ _ Hva), (chain_pn g Hg ids k Hn D Hok _ _ Hav); congruence || lia.
Qed.

(** The parent in the tree is the immediate dominator. *)
Lemma dt_strict v p a :
  reachable g v -> v <> entry -> D v = Some p -> strictly_dominates g a v <-> dominates g a p.
Proof.
  intros Hv Hne Hp. destruct (dt_dom v Hv Hne) as (p' & Hp' & Hrp & Hlt).
  rewrite Hp in Hp'. injection Hp' as <-. unfold strictly_dominates.
  rewrite <- (dt_chain _ _ _ HD v a Hv), <- (dt_chain _ _ _ HD p a Hrp), (chain_step v p a Hne Hp).
  split; [tauto|]. intros Ha. split; [by right|]. intros ->.
  destruct (chain_pn g Hg ids k Hn D (dt_ok _ _ _ HD) _ _ Ha) as [->|]; lia.
Qed.

Lemma dt_idom v : reachable g v -> v <> entry -> exists p, D v = Some p /\ is_idom g p v.
Proof.
  intros Hv Hne. destruct (dt_dom v Hv Hne) as (p & Hp & Hrp & Hlt). exists p. split; [done|].
  split; [apply (dt_strict v p p Hv Hne Hp), dominates_refl|].
  intros c Hc. by apply (dt_strict v p c Hv Hne Hp).
Qed.

(** ** Dominate *)

Lemma Dominate_loop_spec fuel a v :
  reachable g v -> Z.of_nat k - 1 - pn v <= Z.of_nat fuel ->
  wp (Dominate_loop g d fuel a v) (fun b => b = true <-> chain v a /\ a <> v).
Proof.
  revert v. induction fuel as [|fuel IH]; intros v Hv Hf; simpl;
    (destruct (Nat.eqb_spec v entry) as [->|Hne];
      [simpl; split; [done|]; by intros [->%chain_entry_inv ?] | ]);
    destruct (dt_dom v Hv Hne) as (p & Hp & Hrp & Hlt);
    pose proof (Hd v) as Hdv; unfold GetDom in Hdv; rewrite Hp in Hdv;
    destruct (d !! v) as [[q|]|]; simplify_eq;
    pose proof (pn_range g ids k Hn p Hrp); [lia|].
  assert (Hpv : p <> v) by (intros ->; lia).
  destruct (Nat.eqb_spec p a) as [<-|Hpa]; simpl.
  - split; [|done]. intros _. split; [|done]. apply (chain_step v p p Hne Hp). right. constructor.
    by apply (dt_all _ _ _ HD).
  - eapply wp_mono; [apply IH; [done | lia]|]. intros b Hb. rewrite Hb.
    rewrite (chain_step v p a Hne Hp). split; [|naive_solver].
    intros [Ha Hap]. split; [by right|]. intros ->.
    destruct (chain_pn g Hg ids k Hn D (dt_ok _ _ _ HD) _ _ Ha); [done | lia].
Qed.

Lemma Dominate_spec a v :
  reachable g v -> exists b, Dominate g d a v = Ret b /\ (b = true <-> dominates g a v).
Proof.
  intros Hv. setoid_rewrite <- (dt_chain _ _ _ HD v a Hv). unfold Dominate.
  destruct (Nat.eqb_spec a v) as [->|Hne].
  { exists true. split; [done|]. split; [|done]. intros _. constructor. by apply (dt_all _ _ _ HD). }
  pose proof (nb_count _ _ _ Hn). pose proof (pn_range g ids k Hn v Hv).
  pose proof (Dominate_loop_spec (length (nodeVec g)) a v Hv ltac:(lia)) as Hw.
  destruct (Dominate_loop g d (length (nodeVec g)) a v) as [b|]; [|done].
  exists b. split; [done|]. simpl in Hw. rewrite Hw. split; [tauto | done].
Qed.

(** ** Frontiers *)

(** The nodes that ComputeDomFrontiers looks at: joins, but for the common exit *)
Definition join (v : nat) : Prop :=
  nodeVec g !! v = Some true /\ v <> commonExitNode g /\ (2 <= length (GetPrevNodesToVisit g v))%nat.

(** Joins can be reached, and so can their predecessors; a successor of the common
    entry with one listed predecessor has no other. *)
Record frontier_graph : Prop := {
  fg_reach : forall v, join v -> reachable g v;
  fg_prev : forall v p, join v -> p ∈ GetPrevNodesToVisit g v -> reachable g p;
  fg_first : forall v, edge g entry v -> length (GetPrevNodesToVisit g v) = 1%nat -> entry ∈ GetPrevNodesToVisit g v;
  fg_entry : ~ edge g entry entry
}.

(** [y] is in the dominance frontier of [n]. *)
Definition in_frontier (n y : nat) : Prop :=
  exists p, reachable g p /\ edge g p y /\ dominates g n p /\ ~ strictly_dominates g n y.

Definition dfat (df : list (gset nat)) (n : nat) : gset nat := default ∅ (df !! n).

Lemma dfat_insert df n m s :
  (m < length df)%nat -> dfat (<[m := s]> df) n = if decide (n = m) then s else dfat df n.
Proof.
  intros Hm. unfold dfat. case_decide as Hnm; [subst; by rewrite list_lookup_insert_eq|].
  by rewrite list_lookup_insert_ne.
Qed.

Lemma vec_dfat df n (Q : gset nat -> Prop) : (n < length df)%nat -> Q (dfat df n) -> wp (vec df n) Q.
Proof.
  intros Hlt HQ. destruct (lookup_lt_is_Some_2 df n Hlt) as [s Hs].
  apply (wp_vec _ _ s); [done|]. unfold dfat in HQ. by rewrite Hs in HQ.
Qed.

(** The runner goes up to the dominator [s] of [y]. *)
Lemma run_frontier_spec fuel y s p df :
  D y = Some s -> reachable g p -> chain p s -> length df = length (nodeVec g) ->
  pn s - pn p <= Z.of_nat fuel ->
  wp (run_frontier g d fuel y (Some p) df) (fun df' => length df' = length df /\
    forall n z, z ∈ dfat df' n <-> z ∈ dfat df n \/ z = y /\ chain p n /\ ~ chain s n).
Proof.
  intros Hy. pose proof (dt_ok _ _ _ HD) as Hok.
  revert p df. induction fuel as [|fuel IH]; intros p df Hp Hps Hlen Hf; simpl;
    (apply wp_bind; eapply doms_at_agree; [done..|]);
    destruct (decide (p = s)) as [->|Hne].
  - rewrite bool_decide_eq_true_2 by done. simpl. split; [done|]. tauto.
  - destruct (chain_pn g Hg ids k Hn D Hok _ _ Hps); [done | lia].
  - rewrite bool_decide_eq_true_2 by done. simpl. split; [done|]. tauto.
  - rewrite bool_decide_eq_false_2 by congruence.
    assert (Hpe : p <> entry) by (intros ->; apply Hne; symmetry; by eapply chain_entry_inv).
    rewrite bool_decide_eq_false_2 by congruence. simpl.
    pose proof (reachable_lt g p Hg Hp) as Hlt.
    apply wp_bind, vec_dfat; [lia|]. apply wp_bind, wp_vec_set; [lia|].
    destruct (dt_dom p Hp Hpe) as (q & Hq & Hrq & Hlq).
    apply wp_bind. eapply doms_at_agree; [done..|]. simpl.
    assert (Hqs : chain q s) by (apply (chain_step p q s Hpe Hq) in Hps as [?|?]; [done | done]).
    eapply wp_mono; [apply IH; try done; [by rewrite length_insert | lia]|].
    intros df' [Hl Hall]. rewrite length_insert in Hl. split; [done|].
    intros n z. rewrite Hall, dfat_insert, (chain_step p q n Hpe Hq) by lia.
    assert (Hnps : ~ chain s p) by (intros Hsp; by apply Hne, chain_antisym).
    case_decide as Hnp; [subst n|].
    + rewrite elem_of_union, elem_of_singleton. split; [|tauto].
      intros [[->|?]|(-> & ? & ?)]; [right; split_and!; [done | by left | done] | by left | tauto].
    + tauto.
Qed.

Context (Hf : frontier_graph).

(** What the iteration for the node [y] enters *)
Definition enters (y n : nat) : Prop :=
  join y /\ exists p, p ∈ GetPrevNodesToVisit g y /\ chain p n /\ forall s, D y = Some s -> ~ chain s n.

Lemma node_frontier_spec y df :
  (y < length (nodeVec g))%nat -> length df = length (nodeVec g) ->
  wp (node_frontier g d y df) (fun df' => length df' = length df /\
    forall n z, z ∈ dfat df' n <-> z ∈ dfat df n \/ z = y /\ enters y n).
Proof.
  intros Hlt Hlen. destruct (lookup_lt_is_Some_2 _ _ Hlt) as [live Hlive].
  unfold node_frontier. apply wp_bind, (wp_vec _ _ _ _ Hlive).
  assert (Hskip : ~ join y -> forall n z, z ∈ dfat df n <-> z ∈ dfat df n \/ z = y /\ enters y n).
  { intros Hno n z. split; [by left|]. by intros [?|(_ & ? & _)]. }
  destruct live; simpl; [|split; [done | apply Hskip; intros (Hl & _); congruence]].
  destruct (Nat.eqb_spec y (commonExitNode g)) as [He|Hexit]; [split; [done | apply Hskip; by intros (_ & ? & _)]|].
  destruct (Nat.ltb_spec (length (GetPrevNodesToVisit g y)) 2) as [Hfew|Hmany];
    [split; [done | apply Hskip; intros (_ & _ & ?); lia]|].
  pose proof (conj Hlive (conj Hexit Hmany) : join y) as Hjoin. pose proof (fg_reach Hf y Hjoin) as Hr.
  assert (Hye : y <> entry) by (intros ->; rewrite (gg_entry g Hg) in Hmany; simpl in Hmany; lia).
  destruct (dt_dom y Hr Hye) as (s & Hs & Hrs & _).
  assert (Hloop : forall l df, length df = length (nodeVec g) -> (forall p, p ∈ l -> p ∈ GetPrevNodesToVisit g y) ->
    wp (for_each (fun pre df => run_frontier g d (length (nodeVec g)) y (Some pre) df) l df)
      (fun df' => length df' = length df /\
        forall n z, z ∈ dfat df' n <-> z ∈ dfat df n \/ z = y /\ exists p, p ∈ l /\ chain p n /\ ~ chain s n)).
  { clear df Hlen Hskip. induction l as [|p l IH]; intros df Hlen Hin; simpl.
    - split; [done|]. intros n z. setoid_rewrite elem_of_nil. naive_solver.
    - pose proof (Hin p ltac:(by left)) as Hp. pose proof (fg_prev Hf y p Hjoin Hp) as Hrp.
      eapply wp_bind, wp_mono; [apply (run_frontier_spec _ y s); try done|].
      + apply (dt_chain _ _ _ HD); [done|]. apply (dominates_pred g s p y); [by apply (gg_prev g Hg)|].
        apply (dt_strict y s s Hr Hye Hs), dominates_refl.
      + pose proof (pn_range g ids k Hn s Hrs). pose proof (pn_range g ids k Hn p Hrp).
        pose proof (nb_count _ _ _ Hn). lia.
      + intros df1 [Hl1 Hall1]. eapply wp_mono; [apply IH; [lia | intros; apply Hin; by right]|].
        intros df2 [Hl2 Hall2]. split; [lia|]. intros n z. rewrite Hall2, Hall1.
        setoid_rewrite elem_of_cons. naive_solver. }
  eapply wp_mono; [apply Hloop; done|]. intros df' [Hl Hall]. split; [done|].
  intros n z. rewrite Hall. unfold enters. naive_solver.
Qed.

Lemma ComputeDomFrontiers_enters :
  wp (ComputeDomFrontiers g d) (fun df => length df = length (nodeVec g) /\
    forall n z, z ∈ dfat df n <-> enters z n).
Proof.
  unfold ComputeDomFrontiers. eapply wp_mono.
  - apply (wp_for_up (fun i df => length df = length (nodeVec g) /\
      forall n z, z ∈ dfat df n <-> (z < i)%nat /\ enters z n)).
    + split; [apply length_replicate|]. intros n z. split; [|lia]. unfold dfat.
      destruct (replicate _ _ !! n) eqn:Hn'; [|done]. apply lookup_replicate in Hn' as [-> _]. done.
    + intros i df Hi [Hl Hall]. eapply wp_mono; [apply node_frontier_spec; lia|].
      intros df' [Hl' Hall']. split; [lia|]. intros n z. rewrite Hall', Hall.
      split; [intros [[? ?]|[-> ?]]; (split; [lia | done])|].
      intros [Hz ?]. destruct (decide (z = i)) as [->|]; [by right|]. left. split; [lia | done].
  - intros df [Hl Hall]. split; [done|]. intros n z. rewrite Hall. split; [tauto|]. intros He. split; [|done].
    destruct He as [[Hz _] _]. by eapply lookup_lt_Some.
Qed.

(** A node with one predecessor is dominated by its dominators. *)
Lemma single_pred y p n :
  reachable g y -> y <> entry -> GetPrevNodesToVisit g y = [p] -> p <> entry -> dominates g n p ->
  strictly_dominates g n y.
Proof.
  intros Hy Hye Hprev Hpe Hnp.
  assert (Honly : forall u, reachable g u -> edge g u y -> u = p).
  { intros u Hu He. destruct (gg_next g Hg u y Hu He) as [->|Hin].
    - pose proof (fg_first Hf y He ltac:(by rewrite Hprev)) as Hin. rewrite Hprev in Hin.
      by apply list_elem_of_singleton in Hin.
    - rewrite Hprev in Hin. by apply list_elem_of_singleton in Hin. }
  destruct (par_spec g ids k Hg Hn y Hy Hye) as (Hrp & Hep & Hlt).
  pose proof (Honly _ Hrp Hep) as Hpar. rewrite Hpar in Hrp, Hlt. clear Hpar Hep. split.
  - intros l Hl. inversion Hl as [|l' u v Hl' He]; subst; [done|].
    assert (Hup : u = p) by (apply Honly; [by exists l' | done]).
    apply elem_of_app. left. apply Hnp. by rewrite <- Hup.
  - intros ->. apply (dt_chain _ _ _ HD) in Hnp; [|done].
    destruct (chain_pn g Hg ids k Hn D (dt_ok _ _ _ HD) _ _ Hnp) as [->|]; lia.
Qed.

Lemma enters_in_frontier n y : enters y n <-> in_frontier n y /\ y <> commonExitNode g.
Proof.
  split.
  - intros (Hjoin & p & Hp & Hpn & Hs). pose proof (fg_reach Hf y Hjoin) as Hy.
    pose proof Hjoin as (Hlive & Hexit & Hmany). split; [|done].
    assert (Hye : y <> entry) by (intros ->; rewrite (gg_entry g Hg) in Hmany; simpl in Hmany; lia).
    pose proof (fg_prev Hf y p Hjoin Hp) as Hrp. destruct (dt_dom y Hy Hye) as (s & Hys & Hrs & _).
    exists p. split_and!; [done | by apply gg_prev | by apply (dt_chain _ _ _ HD) |].
    rewrite (dt_strict y s n Hy Hye Hys), <- (dt_chain _ _ _ HD s n Hrs). by apply Hs.
  - intros [(p & Hrp & He & Hnp & Hnot) Hexit]. pose proof (reachable_edge g p y Hrp He) as Hy.
    assert (Hye : y <> entry).
    { intros ->. destruct (gg_next g Hg p entry Hrp He) as [->|Hin]; [by apply (fg_entry Hf)|].
      by rewrite (gg_entry g Hg), elem_of_nil in Hin. }
    assert (Hpe : p <> entry).
    { intros ->. apply Hnot. apply (dt_chain _ _ _ HD) in Hnp; [|done]. apply chain_entry_inv in Hnp as ->.
      split; [apply dominates_entry | congruence]. }
    destruct (gg_next g Hg p y Hrp He) as [?|Hin]; [done|].
    split; [split_and!; [by apply (gg_live g Hg) | done |]|].
    + destruct (GetPrevNodesToVisit g y) as [|q [|q' l]] eqn:Hprev; simpl; [by apply elem_of_nil in Hin | | lia].
      apply list_elem_of_singleton in Hin as <-. exfalso. by eapply Hnot, single_pred.
    + exists p. split_and!; [done | by apply (dt_chain _ _ _ HD) |]. intros s Hys Hsn. apply Hnot.
      destruct (dt_dom y Hy Hye) as (s' & Hs' & Hrs & _). rewrite Hys in Hs'. injection Hs' as <-.
      apply (dt_strict y s n Hy Hye Hys). by apply (dt_chain _ _ _ HD).
Qed.
End Frontier.
