(* ===== verification/DominanceIterated.v ===== *)
(** * Dominators: iterated frontiers

    GetIterDomFrontier walks the nodes that the frontiers lead to, and takes what
    ComputeIterDomFrontiers has computed for the nodes before the one it is at:
    the result is the transitive closure of the frontiers. *)
From stdpp Require Import gmap sets sorting relations.
From S2P Require Import Prelude.
From S2P Require Import Dominance.
From S2P Require Import DominanceWalk.
From S2P Require Import DominanceFrontier.

Lemma elem_of_in_order s x : x ∈ in_order s <-> x ∈ s.
Proof. unfold in_order. by rewrite merge_sort_Permutation, elem_of_elements. Qed.

(** A loop over the elements of a container: [I] has the elements that are done. *)
Lemma wp_for_each_prefix {A S : Type} (I : list A -> S -> Prop) (f : A -> S -> res S) l s :
  I [] s -> (forall l1 x l2 s, l = l1 ++ x :: l2 -> I l1 s -> wp (f x s) (I (l1 ++ [x]))) ->
  wp (for_each f l s) (I l).
Proof.
  intros H0 Hstep.
  assert (Hgen : forall l2 l1 s, l = l1 ++ l2 -> I l1 s -> wp (for_each f l2 s) (I (l1 ++ l2))).
  { induction l2 as [|x l2 IH]; intros l1 t Hl Ht; simpl; [by rewrite app_nil_r|].
    eapply wp_bind, wp_mono; [by eapply Hstep|].
    intros t' Ht'. rewrite cons_middle, app_assoc. apply IH; [|done]. by rewrite <- app_assoc. }
  by apply (Hgen l [] s).
Qed.

Lemma wp_for_each {A S : Type} (I : list A -> S -> Prop) (f : A -> S -> res S) l s :
  I [] s -> (forall l1 x s, x ∈ l -> I l1 s -> wp (f x s) (I (l1 ++ [x]))) -> wp (for_each f l s) (I l).
Proof.
  intros H0 Hstep. apply wp_for_each_prefix; [done|]. intros l1 x l2 t ->. apply Hstep.
  apply elem_of_app. right. by left.
Qed.

Section Iterated.
Context (g : Graph) (df : list (gset nat)).
Notation n := (length (nodeVec g)).
Context (Hlen : length df = n).

(** [y] is in the frontier of [x]. *)
Definition leads (x y : nat) : Prop := y ∈ dfat df x.
Context (Hlive : forall x y, leads x y -> nodeVec g !! y = Some true /\ y <> commonExitNode g).

Definition covered (x : nat) : Prop := nodeVec g !! x = Some true /\ x <> commonExitNode g.

(** [iter] has the closures for the nodes before [m]. *)
Definition memo (iter : list (gset nat)) (m : nat) : Prop :=
  length iter = n /\
  forall x y, y ∈ dfat iter x <-> (x < m)%nat /\ covered x /\ tc leads x y.

Definition seen (visited : list bool) (x : nat) : Prop := visited !! x = Some true.

(** What has been entered for a node whose visit is over *)
Definition closed (m : nat) (s : gset nat) (visited : list bool) (w : nat) : Prop :=
  forall x, leads w x -> x ∈ s /\
    if decide (x < m)%nat then forall y, tc leads x y -> y ∈ s else seen visited x.

(** The states [st'] that a visit may reach from [st], for the frontier of [root] *)
Record visits (m root : nat) (st st' : gset nat * list bool) : Prop := {
  vi_length : length (snd st') = n;
  vi_count : (count_false (snd st') <= count_false (snd st))%nat;
  vi_seen : forall x, seen (snd st) x -> seen (snd st') x;
  vi_set : fst st ⊆ fst st';
  vi_sound : forall y, y ∈ fst st' -> y ∈ fst st \/ tc leads root y;
  vi_closed : forall x, seen (snd st') x -> seen (snd st) x \/ closed m (fst st') (snd st') x
}.

Lemma closed_mono m s s' v v' w :
  s ⊆ s' -> (forall x, seen v x -> seen v' x) -> closed m s v w -> closed m s' v' w.
Proof.
  intros Hs Hv Hc x Hx. destruct (Hc x Hx) as [Hin Hrest]. split; [set_solver|].
  case_decide; [intros y Hy; set_solver | by apply Hv].
Qed.

Lemma visits_refl m root st : length (snd st) = n -> visits m root st st.
Proof. intros Hl. by constructor; auto. Qed.

Lemma visits_trans m root st st' st'' :
  visits m root st st' -> visits m root st' st'' -> visits m root st st''.
Proof.
  intros [] []. constructor; [done | lia | auto | set_solver | |].
  - intros y Hy. edestruct vi_sound1 as [Hy'|]; [done | by apply vi_sound0 | by right].
  - intros x Hx. edestruct vi_closed1 as [Hx'|]; [done | | by right].
    apply vi_closed0 in Hx' as [|Hc]; [by left|]. right. by eapply closed_mono.
Qed.

Lemma visits_add m root st s :
  length (snd st) = n -> (forall y, y ∈ s -> tc leads root y) ->
  visits m root st (s ∪ fst st, snd st).
Proof. intros Hl Hs. constructor; simpl; auto; set_solver. Qed.

Context (iter : list (gset nat)) (m root : nat) (Hmemo : memo iter m).

Lemma GetIterDomFrontier_spec fuel node st :
  (node < n)%nat -> node = root \/ tc leads root node -> length (snd st) = n ->
  (count_false (snd st) <= fuel)%nat ->
  wp (GetIterDomFrontier g fuel df iter m node st) (fun st' => visits m root st st' /\ seen (snd st') node).
Proof.
  revert node st. induction fuel as [|fuel IH]; intros node [s visited] Hnode Hroot Hl Hfuel; simpl in Hl, Hfuel;
    destruct (lookup_lt_is_Some_2 visited node ltac:(lia)) as [b Hb];
    cbn [GetIterDomFrontier]; apply wp_bind, (wp_vec _ _ _ _ Hb); destruct b;
    try (split; [by apply visits_refl | done]).
  { pose proof (count_false_set _ _ Hb). lia. }
  pose proof (count_false_set _ _ Hb) as Hcount.
  apply wp_bind, wp_vec_set; [lia|]. apply wp_bind, vec_dfat; [lia|].
  set (visited1 := <[node := true]> visited).
  assert (Hstart : length visited1 = n) by (unfold visited1; by rewrite length_insert).
  assert (Hs1 : seen visited1 node) by (apply list_lookup_insert_eq; lia).
  eapply wp_mono.
  - apply (wp_for_each (fun l st' => visits m root (s, visited1) st' /\
      forall x, x ∈ l -> x ∈ fst st' /\ if decide (x < m)%nat then forall y, tc leads x y -> y ∈ fst st'
                                       else seen (snd st') x)).
    { split; [by apply visits_refl|]. intros x Hx. by apply elem_of_nil in Hx. }
    intros l x [s2 visited2] Hx [Hv Hall]. apply elem_of_in_order in Hx.
    destruct (Hlive node x Hx) as [Hxl Hxe].
    assert (Hrx : tc leads root x) by (destruct Hroot as [->|]; [by apply tc_once | by eapply tc_r]).
    assert (Hfin : forall st', visits m root (s2, visited2) st' -> x ∈ fst st' ->
      (if decide (x < m)%nat then forall y, tc leads x y -> y ∈ fst st' else seen (snd st') x) ->
      visits m root (s, visited1) st' /\ forall z, z ∈ l ++ [x] ->
        z ∈ fst st' /\ if decide (z < m)%nat then forall y, tc leads z y -> y ∈ fst st' else seen (snd st') z).
    { intros st' Hv' Hxs Hrest. split; [by eapply visits_trans|].
      intros z [Hz| ->%list_elem_of_singleton]%elem_of_app; [|by split].
      destruct (Hall z Hz) as [Hzs Hzr]. split; [by apply (vi_set _ _ _ _ Hv')|].
      case_decide; [intros y Hy; apply (vi_set _ _ _ _ Hv'); by apply Hzr | by apply (vi_seen _ _ _ _ Hv')]. }
    pose proof (vi_length _ _ _ _ Hv) as Hl2. simpl in Hl2.
    destruct (Nat.ltb_spec x m) as [Hxm|Hxm].
    + destruct Hmemo as [Hil Hi]. pose proof (lookup_lt_Some _ _ _ Hxl) as Hxn.
      apply wp_bind, vec_dfat; [lia|]. apply Hfin.
      * replace ({[x]} ∪ s2 ∪ dfat iter x) with (({[x]} ∪ dfat iter x) ∪ s2) by set_solver.
        apply (visits_add m root (s2, visited2)); [done|].
        intros y [->%elem_of_singleton|Hy]%elem_of_union; [done|].
        apply Hi in Hy as (_ & _ & Hy). by eapply tc_transitive.
      * simpl. set_solver.
      * rewrite decide_True by done. simpl. intros y Hy. apply elem_of_union. right. by apply Hi.
    + apply wp_bind, (wp_vec _ _ _ _ Hxl). simpl.
      assert (Hadd : visits m root (s2, visited2) ({[x]} ∪ s2, visited2)).
      { apply (visits_add m root (s2, visited2)); [done|]. by intros y ->%elem_of_singleton. }
      eapply wp_mono.
      * apply (IH x ({[x]} ∪ s2, visited2)); [by eapply lookup_lt_Some | by right | done |].
        pose proof (vi_count _ _ _ _ Hv). simpl in *. unfold visited1 in *. lia.
      * intros st' [Hv' Hsx]. apply Hfin; [by eapply visits_trans | apply (vi_set _ _ _ _ Hv'); simpl; set_solver |].
        by rewrite decide_False by lia.
  - intros [s' visited'] [Hv Hall]. split; [|by apply (vi_seen _ _ _ _ Hv)].
    destruct Hv as [H1 H2 H3 H4 H5 H6]. simpl in *. constructor; simpl; [done | unfold visited1 in *; lia | | done | done |].
    + intros x Hx. apply H3. unfold seen, visited1 in *.
      destruct (decide (x = node)) as [->|]; [done | by rewrite list_lookup_insert_ne].
    + intros x Hx. destruct (H6 x Hx) as [Hx1|Hc]; [|by right]. unfold seen, visited1 in Hx1.
      destruct (decide (x = node)) as [->|]; [|left; by rewrite list_lookup_insert_ne in Hx1].
      right. intros y Hy. apply Hall. by apply elem_of_in_order.
Qed.
End Iterated.

Section ComputeIterated.
Context (g : Graph) (df : list (gset nat)).
Notation n := (length (nodeVec g)).
Context (Hlen : length df = n).
Notation leads := (leads df).
Context (Hlive : forall x y, leads x y -> nodeVec g !! y = Some true /\ y <> commonExitNode g).

(** A finished visit of [root] has its closure. *)
Lemma closed_tc m s visited w y :
  (forall x, seen visited x -> closed df m s visited x) -> seen visited w -> tc leads w y -> y ∈ s.
Proof.
  intros Hc Hw Ht. revert Hw. induction Ht as [w y Hy|w x y Hx Ht IH]; intros Hw; [by apply (Hc w Hw)|].
  destruct (Hc w Hw x Hx) as [_ Hr]. case_decide; [by apply Hr | by apply IH].
Qed.

Theorem ComputeIterDomFrontiers_spec :
  wp (ComputeIterDomFrontiers g df) (fun iter => length iter = n /\
    forall x y, y ∈ dfat iter x <-> covered g x /\ tc leads x y).
Proof.
  unfold ComputeIterDomFrontiers. eapply wp_mono; [apply (wp_for_up (fun i iter => memo g df iter i))|].
  - split; [apply length_replicate|]. intros x y. split; [|lia]. unfold dfat.
    destruct (replicate _ _ !! x) eqn:Hx; [|done]. by apply lookup_replicate in Hx as [-> _].
  - intros i iter Hi Hm. pose proof Hm as [Hl Hall].
    destruct (lookup_lt_is_Some_2 (nodeVec g) i ltac:(lia)) as [live Hb].
    apply wp_bind, (wp_vec _ _ _ _ Hb).
    assert (Hskip : ~ covered g i -> memo g df iter (S i)).
    { intros Hno. split; [done|]. intros x y. rewrite Hall. split; [intros (? & ?); split; [lia | done]|].
      intros (Hlt & Hc & Ht). split; [|done]. destruct (decide (x = i)) as [->|]; [done | lia]. }
    destruct live; simpl; [|apply Hskip; intros [? _]; congruence].
    destruct (Nat.eqb_spec i (commonExitNode g)) as [He|He]; [apply Hskip; by intros [_ ?]|].
    apply wp_bind, vec_dfat; [lia|].
    assert (Hempty : dfat iter i = ∅) by (apply set_eq; intros y; rewrite Hall; split; [lia | set_solver]).
    rewrite Hempty. eapply wp_bind, wp_mono.
    + apply (GetIterDomFrontier_spec g df Hlen Hlive iter i i Hm); [lia | by left | apply length_replicate |].
      simpl. by rewrite count_false_replicate.
    + intros [s visited] [[_ _ _ _ Hs Hc] Hsi]. simpl in *. apply wp_vec_set; [lia|].
      assert (Hnone : forall x, ~ seen (replicate n false) x) by (intros x Hx; by apply lookup_replicate in Hx as [? _]).
      split; [by rewrite length_insert|]. intros x y. rewrite dfat_insert by lia.
      case_decide as Hxi; [subst x|].
      * split.
        -- intros Hy. split_and!; [lia | by split |]. destruct (Hs y Hy) as [?|?]; [set_solver | done].
        -- intros (_ & _ & Ht). eapply closed_tc; [|exact Hsi|exact Ht].
           intros x Hx. destruct (Hc x Hx) as [?|?]; [by destruct (Hnone x) | done].
      * rewrite Hall. split; intros (? & ? & ?); (split_and!; [lia | done..]).
  - intros iter [Hl Hall]. split; [done|]. intros x y. rewrite Hall. split; [by intros (_ & ? & ?)|].
    intros [Hc Ht]. split_and!; [|done..]. destruct Hc as [Hc _]. by eapply lookup_lt_Some.
Qed.
End ComputeIterated.
