(* ===== verification/DominanceOrder.v ===== *)
(** * Dominators: the tree in pre-order

    The children of the dominator tree, its nodes in pre-order, and their places
    in it: the nodes that a node dominates are next to each other. *)
From stdpp Require Import gmap sets.
From S2P Require Import Prelude.
From S2P Require Import Dominance.
From S2P Require Import DominanceGraph.
From S2P Require Import DominanceWalk.
From S2P Require Import DominanceTree.
From S2P Require Import DominanceFixpoint.
From S2P Require Import DominanceFrontier.
From S2P Require Import DominanceIterated.

(** The nodes of [order] whose parent is [p] *)
Definition kids (D : nat -> option nat) (p : nat) (order : list (option nat)) : list nat :=
  filter (fun v => D v = Some p /\ v <> p) (omap id order).

(** The tree below [v], in pre-order *)
Fixpoint subtree (D : nat -> option nat) (order : list (option nat)) (fuel v : nat) : list nat :=
  match fuel with
  | O => []
  | Datatypes.S fuel' => v :: (kids D v order ≫= subtree D order fuel')
  end.

Lemma kids_app D p l1 l2 : kids D p (l1 ++ l2) = kids D p l1 ++ kids D p l2.
Proof. unfold kids. by rewrite omap_app, filter_app. Qed.

Section Order.
Context (g : Graph) (Hg : good_graph g) (ids : list Z) (k : nat) (Hn : numbering g ids k).
Notation entry := (commonEntryNode g).
Notation pn := (pn ids).
Notation n := (length (nodeVec g)).
Context (D : nat -> option nat) (HD : dom_tree g ids D) (d : Doms) (Hd : agree D d).
Notation chain := (chain g D).
Context (order : list (option nat)) (Hk : length order = k) (Ho : ordering ids order).
Notation kids := (fun p => kids D p order).

(** ** The order *)

Lemma in_order_reachable p : p ∈ order -> exists v, p = Some v /\ reachable g v.
Proof.
  intros [i Hi]%list_elem_of_lookup. pose proof (lookup_lt_Some _ _ _ Hi).
  destruct (order_node g ids k Hn order Hk Ho i ltac:(lia)) as (v & Hv & Hr & _).
  exists v. split; [congruence | done].
Qed.

Lemma reachable_in_order v : reachable g v -> Some v ∈ order.
Proof.
  intros Hv. pose proof (pn_range g ids k Hn v Hv) as Hr.
  destruct (order_node g ids k Hn order Hk Ho (Z.to_nat (Z.of_nat k - 1 - pn v)) ltac:(lia)) as (u & Hu & Hru & Hp).
  rewrite (place_inj g ids k Hn v u Hv Hru) by (rewrite Hp; unfold place; lia).
  by eapply list_elem_of_lookup_2.
Qed.

Lemma order_NoDup : NoDup (omap id order).
Proof.
  assert (Hall : forall i l, drop i order = l -> NoDup (omap id l)); [|by apply (Hall 0%nat)].
  intros i l. revert i. induction l as [|p l IH]; intros i Hl; simpl; [constructor|].
  assert (Hi : order !! i = Some p) by (rewrite <- (Nat.add_0_r i), <- lookup_drop, Hl; done).
  assert (Hl' : drop (S i) order = l) by (by rewrite <- Nat.add_1_r, <- drop_drop, Hl).
  destruct (in_order_reachable p) as (v & -> & Hv); [by eapply list_elem_of_lookup_2|]. simpl.
  constructor; [|by eapply IH]. intros (q & Hq & Hqv)%list_elem_of_omap. simpl in Hqv. subst q.
  rewrite <- Hl' in Hq. apply list_elem_of_lookup in Hq as [j Hj]. rewrite lookup_drop in Hj.
  pose proof (lookup_lt_Some _ _ _ Hi). pose proof (lookup_lt_Some _ _ _ Hj).
  destruct (order_node g ids k Hn order Hk Ho i ltac:(lia)) as (v1 & Hv1 & _ & Hp1).
  destruct (order_node g ids k Hn order Hk Ho (S i + j) ltac:(lia)) as (v2 & Hv2 & _ & Hp2).
  assert (v1 = v2) as -> by congruence. lia.
Qed.

(** ** Children *)

Lemma elem_of_kids p v : v ∈ kids p <-> reachable g v /\ v <> entry /\ D v = Some p.
Proof.
  unfold DominanceOrder.kids. rewrite list_elem_of_filter, list_elem_of_omap. split.
  - intros ((Hv & Hne) & q & Hq & Hqv). simpl in Hqv. subst q. destruct (in_order_reachable _ Hq) as (v' & [= <-] & Hr).
    split_and!; [done | | done]. intros ->. apply Hne.
    rewrite (to_entry _ _ _ (dt_ok _ _ _ HD)) in Hv. congruence.
  - intros (Hr & Hve & Hv). split.
    + split; [done|]. intros ->. destruct (dt_dom g Hg ids k Hn D HD p Hr Hve) as (q & Hq & _ & Hlt).
      assert (p = q) as <- by congruence. lia.
    + exists (Some v). split; [by apply reachable_in_order | done].
Qed.

Lemma kids_NoDup p : NoDup (kids p).
Proof. apply NoDup_filter, order_NoDup. Qed.

Definition children_at (children : list (list nat)) (p : nat) : list nat := default [] (children !! p).

Lemma ComputeDomChildren_spec :
  wp (ComputeDomChildren g d order) (fun children => length children = n /\ forall p, children_at children p = kids p).
Proof.
  unfold ComputeDomChildren. apply (wp_for_each (fun l children => length children = n /\
    forall p, children_at children p = DominanceOrder.kids D p l)).
  { split; [apply length_replicate|]. intros p. unfold children_at.
    destruct (replicate _ _ !! p) eqn:Hp; [|done]. by apply lookup_replicate in Hp as [-> _]. }
  intros l q children Hq [Hl Hall]. destruct (in_order_reachable q Hq) as (v & -> & Hv).
  assert (Hsnoc : forall p, DominanceOrder.kids D p (l ++ [Some v]) =
    DominanceOrder.kids D p l ++ if decide (D v = Some p /\ v <> p) then [v] else []).
  { intros p. rewrite kids_app. f_equal. }
  destruct (D v) as [p|] eqn:Hp; [|by destruct (dt_all _ _ _ HD v Hv)].
  apply wp_bind. eapply doms_at_agree; [done..|].
  destruct (Nat.eqb_spec p v) as [->|Hpv].
  - split; [done|]. intros p. rewrite Hsnoc, Hall, decide_False by (intros [[= <-] ?]; done). by rewrite app_nil_r.
  - destruct (decide (v = entry)) as [->|Hve].
    { rewrite (to_entry _ _ _ (dt_ok _ _ _ HD)) in Hp. congruence. }
    destruct (dt_dom g Hg ids k Hn D HD v Hv Hve) as (p' & Hp' & Hrp & _). assert (p' = p) as -> by congruence.
    pose proof (reachable_lt g p Hg Hrp) as Hlt.
    destruct (lookup_lt_is_Some_2 children p ltac:(lia)) as [kl Hkl].
    apply wp_bind, (wp_vec _ _ _ _ Hkl), wp_vec_set; [lia|]. split; [by rewrite length_insert|].
    intros u. rewrite Hsnoc. unfold children_at in *. destruct (decide (u = p)) as [->|Hup].
    + rewrite list_lookup_insert_eq by lia. rewrite decide_True by done. simpl. rewrite <- Hall. by rewrite Hkl.
    + rewrite list_lookup_insert_ne by done. rewrite decide_False by (intros [? _]; congruence).
      by rewrite app_nil_r.
Qed.

(** ** The tree below a node *)

Notation subtree := (subtree D order).

Lemma chain_last w v : chain w v -> w = v \/ exists c, c ∈ kids v /\ chain w c.
Proof.
  induction 1 as [v Hv|w p v Hwe Hw Hp IH]; [by left|]. right.
  pose proof (dt_reachable g ids D HD w ltac:(congruence)) as Hr.
  destruct IH as [->|(c & Hc & Hpc)].
  - exists w. split; [by apply elem_of_kids | constructor; congruence].
  - exists c. split; [done | by econstructor].
Qed.

Lemma kid_props p c : c ∈ kids p -> reachable g c /\ pn c < pn p /\ forall a, chain c a <-> a = c \/ chain p a.
Proof.
  intros (Hr & Hce & Hc)%elem_of_kids. destruct (dt_dom g Hg ids k Hn D HD c Hr Hce) as (q & Hq & _ & Hlt).
  assert (q = p) as -> by congruence. split_and!; [done..|]. intros a. by apply chain_step.
Qed.

Lemma elem_of_subtree fuel v w :
  reachable g v -> pn v < Z.of_nat fuel -> w ∈ subtree fuel v <-> chain w v.
Proof.
  revert v w. induction fuel as [|fuel IH]; intros v w Hv Hf; simpl.
  { pose proof (pn_range g ids k Hn v Hv). lia. }
  rewrite elem_of_cons, list_elem_of_bind. split.
  - intros [->|(c & Hw & Hc)]; [constructor; by apply (dt_all _ _ _ HD)|].
    destruct (kid_props v c Hc) as (Hr & Hlt & Hch). apply IH in Hw; [|done|lia].
    apply (chain_trans g D w c v); [done|]. apply Hch. right. constructor. by apply (dt_all _ _ _ HD).
  - intros [->|(c & Hc & Hw)]%chain_last; [by left|]. right. exists c. split; [|done].
    destruct (kid_props v c Hc) as (Hr & Hlt & _). apply IH; [done | lia | done].
Qed.

Lemma kids_apart p a b w : a ∈ kids p -> b ∈ kids p -> chain w a -> chain w b -> a = b.
Proof.
  pose proof (dt_ok _ _ _ HD) as Hok.
  assert (Hle : forall a b, a ∈ kids p -> b ∈ kids p -> chain w a -> chain w b -> pn a <= pn b -> a = b).
  { clear a b. intros a b Ha Hb Hwa Hwb Hab. pose proof (chain_line g Hg ids k Hn D Hok _ _ _ Hwa Hwb Hab) as Hc.
    destruct (kid_props p a Ha) as (_ & _ & Hch). destruct (kid_props p b Hb) as (_ & Hlt & _).
    apply Hch in Hc as [->|Hc]; [done|]. destruct (chain_pn g Hg ids k Hn D Hok _ _ Hc) as [->|]; lia. }
  intros Ha Hb Hwa Hwb. destruct (Z.le_ge_cases (pn a) (pn b)); [by apply Hle | symmetry; by apply Hle].
Qed.

Lemma subtree_NoDup fuel v : reachable g v -> pn v < Z.of_nat fuel -> NoDup (subtree fuel v).
Proof.
  revert v. induction fuel as [|fuel IH]; intros v Hv Hf; simpl; [constructor|]. constructor.
  - intros (c & Hw & Hc)%list_elem_of_bind. destruct (kid_props v c Hc) as (Hr & Hlt & _).
    apply elem_of_subtree in Hw; [|done|lia].
    destruct (chain_pn g Hg ids k Hn D (dt_ok _ _ _ HD) _ _ Hw) as [->|]; lia.
  - apply NoDup_bind; [| |apply kids_NoDup].
    + intros a b w Ha Hb Hwa Hwb. destruct (kid_props v a Ha) as (Hra & ? & _), (kid_props v b Hb) as (Hrb & ? & _).
      apply elem_of_subtree in Hwa; [|done|lia]. apply elem_of_subtree in Hwb; [|done|lia].
      by apply (kids_apart v a b w).
    + intros c Hc. destruct (kid_props v c Hc) as (Hr & Hlt & _). apply IH; [done | lia].
Qed.

(** The tree below a node is a part of those above it. *)
Lemma subtree_split fuel v u :
  reachable g v -> pn v < Z.of_nat fuel -> u ∈ subtree fuel v ->
  exists f l1 l2, pn u < Z.of_nat f /\ subtree fuel v = l1 ++ subtree f u ++ l2.
Proof.
  revert v. induction fuel as [|fuel IH]; intros v Hv Hf Hu; [by apply elem_of_nil in Hu|].
  pose proof Hu as Hu'. simpl in Hu'. apply elem_of_cons in Hu' as [->|Hu'].
  { exists (S fuel), [], []. split; [done|]. by rewrite app_nil_r. }
  apply list_elem_of_bind in Hu' as (c & Hw & Hc). destruct (kid_props v c Hc) as (Hr & Hlt & _).
  destruct (IH c Hr ltac:(lia) Hw) as (f & l1 & l2 & Hfu & Hl).
  apply list_elem_of_split in Hc as (k1 & k2 & Hkk).
  exists f, (v :: (k1 ≫= subtree fuel) ++ l1), (l2 ++ (k2 ≫= subtree fuel)). split; [done|].
  simpl. rewrite Hkk, bind_app, bind_cons, Hl. by rewrite <- !app_assoc.
Qed.

Lemma subtree_length fuel v : reachable g v -> pn v < Z.of_nat fuel -> (length (subtree fuel v) <= n)%nat.
Proof.
  intros Hv Hf. rewrite <- (length_seq n 0). apply submseteq_length, NoDup_submseteq; [by apply subtree_NoDup|].
  intros w Hw%elem_of_subtree; [|done..]. apply elem_of_seq.
  destruct (chain_processed _ _ _ _ Hw) as [Hp _]. pose proof (reachable_lt g w Hg (dt_reachable g ids D HD w Hp)). lia.
Qed.

(** ** Pre-order *)

Lemma ComputeDtPreorder_spec children fuel v pre num :
  length children = n -> (forall p, children_at children p = kids p) ->
  reachable g v -> pn v < Z.of_nat fuel -> (num + length (subtree fuel v) <= length pre)%nat ->
  wp (ComputeDtPreorder g fuel children v (pre, num)) (fun '(pre', num') =>
    num' = (num + length (subtree fuel v))%nat /\ length pre' = length pre /\
    take num' pre' = take num pre ++ subtree fuel v).
Proof.
  intros Hl Hch. revert v pre num.
  induction fuel as [|fuel IH]; intros v pre num Hv Hf Hroom; [pose proof (pn_range g ids k Hn v Hv); lia|].
  cbn [ComputeDtPreorder]. simpl in Hroom.
  apply wp_bind, wp_check; [by apply Nat.ltb_lt; lia|]. apply wp_bind, wp_vec_set; [lia|].
  pose proof (reachable_lt g v Hg Hv) as Hlt.
  destruct (lookup_lt_is_Some_2 children v ltac:(lia)) as [cs Hcs].
  assert (Hkids : cs = kids v) by (rewrite <- Hch; unfold children_at; by rewrite Hcs).
  apply wp_bind, (wp_vec _ _ _ _ Hcs). subst cs.
  eapply wp_mono.
  - apply (wp_for_each_prefix (fun l '(pre', num') => num' = (num + 1 + length (l ≫= subtree fuel))%nat /\
      length pre' = length pre /\ take num' pre' = take num pre ++ v :: (l ≫= subtree fuel))).
    + split_and!; [simpl; lia | apply length_insert |]. simpl.
      rewrite Nat.add_1_r, (take_S_r _ _ v) by (by apply list_lookup_insert_eq; lia).
      by rewrite take_insert_ge.
    + intros l1 c l2 [pre' num'] Hsplit (-> & Hlen & Htake).
      assert (Hc : c ∈ kids v) by (rewrite Hsplit; apply elem_of_app; right; by left).
      destruct (kid_props v c Hc) as (Hr & Hltc & _).
      apply wp_bind, (wp_vec _ _ true); [by apply (gg_live g Hg)|]. simpl.
      rewrite Hsplit, bind_app, bind_cons, !length_app in Hroom.
      eapply wp_mono; [apply IH; [done | lia | lia]|]. intros [pre'' num''] (-> & Hlen' & Htake').
      rewrite bind_app, bind_cons, !length_app. simpl. rewrite app_nil_r.
      split_and!; [lia | lia |]. rewrite Htake', Htake. by rewrite <- app_assoc.
  - intros [pre' num'] (-> & Hlen & Htake). simpl. split_and!; [lia | done..].
Qed.
(** The getter of the places in reverse post-order *)
Lemma GetReversePostOrderId_spec :
  wp (GetReversePostOrderId g order []) (fun rpo => length rpo = n /\
    forall i v, order !! i = Some (Some v) -> rpo !! v = Some (Z.of_nat i)).
Proof.
  pose proof (nb_count _ _ _ Hn). pose proof (gg_size g Hg). unfold GetReversePostOrderId. simpl. eapply wp_mono.
  - apply (wp_for_up (fun i rpo => length rpo = n /\
      forall j v, (j < i)%nat -> order !! j = Some (Some v) -> rpo !! v = Some (Z.of_nat j))).
    + split; [apply length_replicate | intros; lia].
    + intros i rpo Hi [Hl Hall]. destruct (order_node g ids k Hn order Hk Ho i ltac:(lia)) as (u & Hu & Hr & Hpu).
      pose proof (reachable_lt g u Hg Hr) as Hlt. apply wp_bind, (wp_vec _ _ _ _ Hu). simpl.
      apply wp_vec_set; [lia|]. rewrite wrap_small by lia. split; [by rewrite length_insert|].
      intros j v Hj Hv. destruct (decide (j = i)) as [->|Hji].
      * rewrite Hu in Hv. injection Hv as ->. apply list_lookup_insert_eq. lia.
      * rewrite list_lookup_insert_ne; [apply Hall; [lia | done]|]. intros ->.
        destruct (order_node g ids k Hn order Hk Ho j ltac:(lia)) as (w & Hw & _ & Hpw).
        assert (w = v) as -> by congruence. lia.
  - intros rpo [Hl Hall]. split; [done|]. intros i v Hv. apply Hall; [|done]. by eapply lookup_lt_Some.
Qed.
End Order.

Lemma ComputeDtDfn_spec pre dfn :
  (forall v, v ∈ pre -> (v < length dfn)%nat) -> NoDup pre -> Z.of_nat (length pre) <= 2 ^ 32 ->
  wp (ComputeDtDfn pre dfn) (fun dfn' => length dfn' = length dfn /\
    (forall i v, pre !! i = Some v -> dfn' !! v = Some (Z.of_nat i)) /\
    forall v, v ∉ pre -> dfn' !! v = dfn !! v).
Proof.
  intros Hin Hnd Hsize. unfold ComputeDtDfn. eapply wp_mono.
  - apply (wp_for_up (fun i dfn' => length dfn' = length dfn /\
      (forall j v, (j < i)%nat -> pre !! j = Some v -> dfn' !! v = Some (Z.of_nat j)) /\
      forall v, v ∉ pre -> dfn' !! v = dfn !! v)).
    + split_and!; [done | intros; lia | done].
    + intros i dfn' Hi (Hl & Hdone & Hrest). destruct (lookup_lt_is_Some_2 pre i ltac:(lia)) as [u Hu].
      pose proof (list_elem_of_lookup_2 _ _ _ Hu) as Hup. pose proof (Hin u Hup).
      apply wp_bind, (wp_vec _ _ _ _ Hu), wp_vec_set; [lia|]. rewrite wrap_small by lia.
      split_and!; [by rewrite length_insert | |].
      * intros j v Hj Hv. destruct (decide (j = i)) as [->|Hji].
        -- rewrite Hu in Hv. injection Hv as ->. apply list_lookup_insert_eq. lia.
        -- rewrite list_lookup_insert_ne; [apply Hdone; [lia | done]|]. intros ->. apply Hji.
           by eapply NoDup_lookup.
      * intros v Hv. rewrite list_lookup_insert_ne; [by apply Hrest|]. by intros ->.
  - intros dfn' (Hl & Hdone & Hrest). split_and!; [done | | done]. intros i v Hv. apply Hdone; [|done].
    by eapply lookup_lt_Some.
Qed.
