(* ===== verification/DominanceSpec.v ===== *)
(** * Dominators: what the analysis promises

    The results of the class Dominance are those that the paths of the graph
    define: immediate dominators, dominance, frontiers and iterated frontiers, and
    a pre-order of the tree.  [check_good] and [check_joins] test the conditions on
    a concrete graph. *)
From stdpp Require Import gmap sets relations.
From S2P Require Import Prelude.
From S2P Require Import Dominance.
From S2P Require Import DominanceGraph.
From S2P Require Import DominanceWalk.
From S2P Require Import DominanceTree.
From S2P Require Import DominanceFixpoint.
From S2P Require Import DominanceFrontier.
From S2P Require Import DominanceIterated.
From S2P Require Import DominanceOrder.

Section Analysis.
Context (g : Graph) (Hg : good_graph g).
Notation entry := (commonEntryNode g).
Notation n := (length (nodeVec g)).

(** Dominators of a node that can be reached can be reached. *)
Lemma dominates_reachable a v : dominates g a v -> reachable g v -> reachable g a.
Proof.
  intros Ha [l Hl]. specialize (Ha l Hl). clear Hg. revert Ha. induction Hl as [|l u v Hl IH He]; intros Ha.
  - apply list_elem_of_singleton in Ha as ->. apply reachable_entry.
  - apply elem_of_app in Ha as [Ha|Ha]; [by apply IH|]. apply list_elem_of_singleton in Ha as ->.
    exists (l ++ [v]). by econstructor.
Qed.

Lemma dt_chain_both ids D v a : dom_tree g ids D -> chain g D v a <-> reachable g v /\ dominates g a v.
Proof.
  intros HT. split.
  - intros Hc. destruct (chain_processed _ _ _ _ Hc) as [Hv _].
    assert (Hr : reachable g v) by by eapply dt_reachable.
    split; [done|]. by apply (dt_chain _ _ _ HT).
  - intros [Hr Ha]. by apply (dt_chain _ _ _ HT).
Qed.

(** The dominators of the two first steps *)
Record solved (ids : list Z) (order : list (option nat)) (D : nat -> option nat) (d : Doms) : Prop := {
  sv_numbering : numbering g ids (length order);
  sv_ordering : ordering ids order;
  sv_tree : dom_tree g ids D;
  sv_agree : agree D d
}.

Lemma ComputeDominance_solved ids order :
  numbering g ids (length order) -> ordering ids order ->
  wp (ComputeDominance g ids order) (fun d => exists D, solved ids order D d).
Proof.
  intros Hn Ho. eapply wp_mono; [by eapply ComputeDominance_settled|].
  intros d (D & Hd & HP & Hs). exists D. constructor; try done. constructor.
  - apply HP.
  - intros v Hv. apply (ps_done _ _ _ _ _ HP); [done|].
    pose proof (pn_range g ids _ Hn v Hv). unfold place. lia.
  - intros v a Hv. by eapply settled_dominates.
Qed.

Lemma dominators_solved (Q : Doms -> Prop) :
  (forall ids order D d, solved ids order D d -> Q d) ->
  wp (out ← GenPostOrderID g; ComputeDominance g (fst out) (snd out)) Q.
Proof.
  intros HQ. eapply wp_bind, wp_mono; [by apply GenPostOrderID_spec|].
  intros [ids order] [Hn Ho]. eapply wp_mono; [by apply ComputeDominance_solved|].
  intros d [D HD]. by eapply HQ.
Qed.

Section Solved.
Context (ids : list Z) (order : list (option nat)) (D : nat -> option nat) (d : Doms).
Context (HS : solved ids order D d).

Lemma solved_unreachable v : ~ reachable g v -> D v = None.
Proof.
  intros Hv. destruct (D v) as [p|] eqn:Hp; [|done]. destruct Hv.
  eapply dt_reachable; [apply HS | congruence].
Qed.

Lemma solved_idom v p : reachable g v -> v <> entry -> D v = Some p <-> is_idom g p v.
Proof.
  intros Hv Hne. pose proof (sv_tree _ _ _ _ HS) as HT. pose proof (sv_numbering _ _ _ _ HS) as Hn.
  destruct (dt_idom g Hg ids _ Hn D HT v Hv Hne) as (q & Hq & Hidom). split; [congruence|].
  destruct (dt_dom g Hg ids _ Hn D HT v Hv Hne) as (q' & Hq' & Hr & _). assert (q' = q) as -> by congruence.
  intros Hp. rewrite Hq. f_equal. assert (Hpq : dominates g p q) by (apply Hidom, Hp).
  assert (Hqp : dominates g q p) by (apply Hp, Hidom).
  apply (dt_chain _ _ _ HT) in Hpq; [|done]. destruct (chain_processed _ _ _ _ Hpq) as [_ Hpp].
  apply (dt_chain _ _ _ HT) in Hqp; [|by eapply dt_reachable].
  by apply (chain_antisym g Hg ids _ Hn D HT).
Qed.

Lemma solved_Dominate a v :
  exists b, Dominate g d a v = Ret b /\ (b = true <-> a = v \/ reachable g v /\ dominates g a v).
Proof.
  pose proof (sv_tree _ _ _ _ HS) as HT. pose proof (sv_numbering _ _ _ _ HS) as Hn.
  pose proof (sv_agree _ _ _ _ HS) as Ha. pose proof (Ha v) as Hv. unfold GetDom in Hv.
  destruct (D v) as [p|] eqn:Hp.
  - assert (Hr : reachable g v) by (eapply dt_reachable; [exact HT | congruence]).
    destruct (Dominate_spec g Hg ids _ Hn D HT d Ha a v Hr) as (b & Hb & Hiff). exists b. split; [done|].
    rewrite Hiff. split; [by right|]. intros [->|[_ ?]]; [apply dominates_refl | done].
  - assert (Hr : ~ reachable g v) by (intros Hr; by destruct (dt_all _ _ _ HT v Hr)).
    unfold Dominate. destruct (Nat.eqb_spec a v) as [->|Hne]; [exists true; split; [done | tauto]|].
    exists false. split; [|split; [done | tauto]].
    assert (Hve : v <> entry) by (intros ->; apply Hr, reachable_entry).
    destruct (length (nodeVec g)); simpl; rewrite (proj2 (Nat.eqb_neq _ _) Hve);
      destruct (d !! v) as [[q|]|]; done.
Qed.
End Solved.

(** ** The whole analysis *)

(** [y] is in the frontier of [x] and is not the common exit. *)
Definition frontier (x y : nat) : Prop := in_frontier g x y /\ y <> commonExitNode g.

Record analysed (dm : Dominance) (D : nat -> option nat) : Prop := {
  an_solved : solved (postOrderIDs dm) (reversePostOrder dm) D (doms dm);
  an_frontier : forall x y, y ∈ dfat (domFrontier dm) x <-> frontier x y;
  an_children : forall p, children_at (domChildren dm) p = kids D p (reversePostOrder dm);
  an_iterated : forall x y, y ∈ dfat (iterDomFrontier dm) x <-> covered g x /\ tc frontier x y;
  an_preorder : dtPreOrder dm = subtree D (reversePostOrder dm) n entry;
  an_dfn : forall i v, dtPreOrder dm !! i = Some v -> dtDfn dm !! v = Some (Z.of_nat i);
  an_dfn_rest : forall v, (v < n)%nat -> v ∉ dtPreOrder dm -> dtDfn dm !! v = Some (2 ^ 32 - 1)
}.

Context (Hf : frontier_graph g).

Lemma Init_analysed : wp (Init g) (fun dm => exists D, analysed dm D).
Proof.
  pose proof (reachable_entry g) as Hre. pose proof (gg_size g Hg) as Hsize.
  unfold Init. eapply wp_bind, wp_mono; [by apply GenPostOrderID_spec|]. intros [ids order] [Hn Ho].
  eapply wp_bind, wp_mono; [by apply ComputeDominance_solved|]. intros d [D HS].
  pose proof (sv_tree _ _ _ _ HS) as HT. pose proof (sv_agree _ _ _ _ HS) as Ha.
  eapply wp_bind, wp_mono; [by eapply ComputeDomFrontiers_enters|]. intros df [Hdl Hdf].
  assert (Hfr : forall x y, y ∈ dfat df x <-> frontier x y).
  { intros x y. rewrite Hdf. by eapply enters_in_frontier. }
  eapply wp_bind, wp_mono; [by eapply ComputeDomChildren_spec|]. intros children [Hcl Hch].
  eapply wp_bind, wp_mono; [apply ComputeIterDomFrontiers_spec; [done|]|].
  { intros x y Hy. apply Hfr in Hy as [(p & Hp & He & _) Hexit]. split; [|done].
    apply (gg_live g Hg). by eapply reachable_edge. }
  intros iter [_ Hit].
  assert (Hfuel : pn ids entry < Z.of_nat n).
  { rewrite (pn_entry g ids _ Hn). pose proof (nb_count _ _ _ Hn). lia. }
  pose proof (subtree_length g Hg ids _ Hn D HT order eq_refl Ho n entry Hre Hfuel) as Hsub.
  eapply wp_bind, wp_mono.
  { apply (ComputeDtPreorder_spec g Hg ids _ Hn D HT order eq_refl Ho children); try done. by rewrite length_replicate. }
  intros [pre num] (-> & Hpl & Htake). rewrite Htake. simpl.
  eapply wp_bind, wp_mono.
  { apply ComputeDtDfn_spec; [|by apply (subtree_NoDup g Hg ids _ Hn D HT order eq_refl Ho)|lia].
    intros v Hv. rewrite length_replicate. apply (elem_of_subtree g Hg ids _ Hn D HT order eq_refl Ho) in Hv; [|done..].
    destruct (chain_processed _ _ _ _ Hv) as [Hp _]. eapply reachable_lt, dt_reachable; done. }
  intros dfn (_ & Hdfn & Hrest). exists D. constructor; simpl; try done.
  - intros x y. rewrite Hit. split; intros [? Ht]; (split; [done|]).
    + by eapply tc_congruence with (f := id), Ht; intros ? ? ?%Hfr.
    + by eapply tc_congruence with (f := id), Ht; intros ? ? ?%Hfr.
  - intros v Hv Hnot. rewrite Hrest by done. by rewrite lookup_replicate_2.
Qed.
End Analysis.

(** ** Concrete graphs *)

(** A graph whose nodes are all there *)
Definition graph_of (nexts prevs : list (list nat)) (entry exit : nat) (pdom : bool) : Graph :=
  MkGraph (replicate (length nexts) true) (fun v => default [] (nexts !! v)) (fun v => default [] (prevs !! v))
    entry exit pdom.

(** Nodes that can be reached in [fuel] steps *)
Fixpoint spread (g : Graph) (fuel : nat) : list nat :=
  match fuel with
  | O => [commonEntryNode g]
  | Datatypes.S fuel' => remove_dups (spread g fuel' ++ (spread g fuel' ≫= GetNextNodesToVisit g))
  end.

Lemma spread_reachable g fuel v : v ∈ spread g fuel -> reachable g v.
Proof.
  revert v. induction fuel as [|fuel IH]; intros v; simpl.
  - intros ->%list_elem_of_singleton. apply reachable_entry.
  - rewrite elem_of_remove_dups, elem_of_app, list_elem_of_bind.
    intros [Hv|(u & He & Hu)]; [by apply IH|]. apply (reachable_edge g u); [by apply IH | done].
Qed.

(** The edges do not leave the nodes of [spread], and are listed at both ends. *)
Definition edges_ok (g : Graph) (fuel : nat) : Prop :=
  Forall (fun u => nodeVec g !! u = Some true /\
    Forall (fun v => v ∈ spread g fuel /\ (u = commonEntryNode g \/ u ∈ GetPrevNodesToVisit g v))
      (GetNextNodesToVisit g u) /\
    Forall (fun p => u ∈ GetNextNodesToVisit g p) (GetPrevNodesToVisit g u)) (spread g fuel).
#[local] Instance edges_ok_dec g fuel : Decision (edges_ok g fuel).
Proof. unfold edges_ok. apply _. Defined.

Definition check_good (g : Graph) (fuel : nat) : bool :=
  (Z.of_nat (length (nodeVec g)) <? 2 ^ 31) && bool_decide (commonEntryNode g ∈ spread g fuel) &&
  bool_decide (GetPrevNodesToVisit g (commonEntryNode g) = []) && bool_decide (edges_ok g fuel).

Lemma check_good_sound g fuel : check_good g fuel = true -> good_graph g.
Proof.
  unfold check_good. rewrite !andb_true_iff, !bool_decide_eq_true, Z.ltb_lt.
  intros [[[Hsize Hentry] Hprev] Hedges]. unfold edges_ok in Hedges. rewrite Forall_forall in Hedges.
  setoid_rewrite Forall_forall in Hedges.
  assert (Hreach : forall v, reachable g v -> v ∈ spread g fuel).
  { intros v [l Hl]. induction Hl as [|l u v Hl IH He]; [done|].
    destruct (Hedges u IH) as (_ & Hnext & _). by apply Hnext. }
  constructor; [done| |done| |].
  - intros v Hv%Hreach. by apply Hedges.
  - intros u v Hv%Hreach Hu. destruct (Hedges v Hv) as (_ & _ & Hp). by apply Hp.
  - intros u v Hu%Hreach Hv. destruct (Hedges u Hu) as (_ & Hnext & _). by apply Hnext.
Qed.

Definition joins_ok (g : Graph) (fuel : nat) : Prop :=
  Forall (fun v => join g v -> v ∈ spread g fuel /\ Forall (.∈ spread g fuel) (GetPrevNodesToVisit g v))
    (seq 0 (length (nodeVec g))).
#[local] Instance join_dec g v : Decision (join g v).
Proof. unfold join. apply _. Defined.
#[local] Instance joins_ok_dec g fuel : Decision (joins_ok g fuel).
Proof. unfold joins_ok. apply _. Defined.

Definition check_joins (g : Graph) (fuel : nat) : bool :=
  bool_decide (joins_ok g fuel) &&
  bool_decide (Forall (fun v => length (GetPrevNodesToVisit g v) = 1%nat ->
    commonEntryNode g ∈ GetPrevNodesToVisit g v) (GetNextNodesToVisit g (commonEntryNode g))) &&
  bool_decide (commonEntryNode g ∉ GetNextNodesToVisit g (commonEntryNode g)).

Lemma check_joins_sound g fuel : check_joins g fuel = true -> frontier_graph g.
Proof.
  unfold check_joins. rewrite !andb_true_iff, !bool_decide_eq_true. intros [[Hjoins Hfirst] Hentry].
  unfold joins_ok in Hjoins. rewrite Forall_forall in Hjoins. rewrite Forall_forall in Hfirst.
  assert (Hj : forall v, join g v -> v ∈ spread g fuel /\ Forall (.∈ spread g fuel) (GetPrevNodesToVisit g v)).
  { intros v Hv. apply Hjoins; [|done]. destruct Hv as [Hv%lookup_lt_Some _]. apply elem_of_seq. lia. }
  constructor; [| |done..].
  - intros v [Hv _]%Hj. by eapply spread_reachable.
  - intros v p [_ Hv]%Hj Hp. rewrite Forall_forall in Hv. by eapply spread_reachable, Hv.
Qed.

(** A branch in a loop: 1 is the common exit, 3 the header, 6 the latch; and the
    same nodes for the post-dominators *)
Definition loop_nexts : list (list nat) := [[2]; []; [3]; [4; 5]; [6]; [6]; [3; 1]]%nat.
Definition loop_prevs : list (list nat) := [[]; [6]; []; [2; 6]; [3]; [3]; [4; 5]]%nat.
Definition loop_graph : Graph := graph_of loop_nexts loop_prevs 0 1 false.
Definition post_graph : Graph := graph_of loop_nexts loop_prevs 1 0 true.

(** ** Theorems *)

(** C9: On every graph that satisfies [good_graph], GenPostOrderID and
    ComputeDominance come to an end without a fault.  Then doms has the entry for
    itself, the immediate dominator for every other node that can be reached, and
    no node for those that cannot; and Dominate comes to an end and decides whether
    a node is on every path from the entry to another. *)
Theorem dominators_correct (g : Graph) (Hg : good_graph g) :
  wp (out ← GenPostOrderID g; ComputeDominance g (fst out) (snd out)) (fun d =>
    GetDom d (commonEntryNode g) = Some (commonEntryNode g) /\
    (forall v, v <> commonEntryNode g ->
      (reachable g v -> exists p, GetDom d v = Some p) /\
      forall p, GetDom d v = Some p <-> reachable g v /\ is_idom g p v) /\
    forall a v, exists b, Dominate g d a v = Ret b /\ (b = true <-> a = v \/ reachable g v /\ dominates g a v)).
Proof.
  apply (dominators_solved g Hg). intros ids order D d HS. pose proof (sv_tree _ _ _ _ _ HS) as HT.
  split_and!; [| |by intros a v; eapply solved_Dominate].
  { by rewrite (sv_agree _ _ _ _ _ HS), (to_entry _ _ _ (dt_ok _ _ _ HT)). }
  intros v Hv. rewrite (sv_agree _ _ _ _ _ HS). split.
  - intros Hr%(dt_all _ _ _ HT). destruct (D v) as [p|]; [by exists p | done].
  - intros p. split.
    + intros Hp. assert (Hr : reachable g v) by (eapply dt_reachable; [exact HT | congruence]).
      split; [done|]. by eapply solved_idom.
    + intros [Hr Hp]. by eapply solved_idom.
Qed.

(** C12: On every graph that satisfies [good_graph] and [frontier_graph], Init comes
    to an end without a fault, and y is in domFrontier of x exactly when y, which is
    not the common exit, is in the dominance frontier of x: x dominates a
    predecessor of y that can be reached and does not strictly dominate y. *)
Theorem frontiers_correct (g : Graph) (Hg : good_graph g) (Hf : frontier_graph g) :
  wp (Init g) (fun dm => forall x y,
    y ∈ dfat (domFrontier dm) x <-> in_frontier g x y /\ y <> commonExitNode g).
Proof. eapply wp_mono; [by apply Init_analysed|]. intros dm [D HA]. apply HA. Qed.

(** C26: iterDomFrontier of a node other than the common exit is the transitive
    closure of the dominance frontiers, although each is computed from the results
    for the nodes with smaller ids; that of the common exit is empty. *)
Theorem iterated_frontiers_correct (g : Graph) (Hg : good_graph g) (Hf : frontier_graph g) :
  wp (Init g) (fun dm => forall x y, y ∈ dfat (iterDomFrontier dm) x <->
    x <> commonExitNode g /\ tc (fun a b => in_frontier g a b /\ b <> commonExitNode g) x y).
Proof.
  eapply wp_mono; [by apply Init_analysed|]. intros dm [D HA] x y. rewrite (an_iterated _ _ _ HA).
  split; [intros [[_ ?] ?]; done|]. intros [Hx Ht]. split; [|done]. split; [|done]. apply (gg_live g Hg).
  assert (Hfr : exists z, in_frontier g x z) by (destruct Ht as [? z [? _]|? z ? [? _]]; by exists z).
  destruct Hfr as (z & p & Hp & _ & Hd & _). by eapply dominates_reachable.
Qed.

(** C27: domChildren has the nodes whose immediate dominator a node is; dtPreOrder
    has each node that can be reached once, with the nodes that a node dominates
    right after it; dtDfn has the places in dtPreOrder, and 2^32 - 1 for the
    nodes that cannot be reached. *)
Theorem dominator_tree_order (g : Graph) (Hg : good_graph g) (Hf : frontier_graph g) :
  wp (Init g) (fun dm =>
    (forall p v, v ∈ children_at (domChildren dm) p <-> reachable g v /\ v <> commonEntryNode g /\ is_idom g p v) /\
    NoDup (dtPreOrder dm) /\ (forall v, v ∈ dtPreOrder dm <-> reachable g v) /\
    (forall a, reachable g a -> exists l1 l l2, dtPreOrder dm = l1 ++ (a :: l) ++ l2 /\
      forall v, v ∈ a :: l <-> reachable g v /\ dominates g a v) /\
    (forall i v, dtPreOrder dm !! i = Some v -> dtDfn dm !! v = Some (Z.of_nat i)) /\
    forall v, (v < length (nodeVec g))%nat -> ~ reachable g v -> dtDfn dm !! v = Some (2 ^ 32 - 1)).
Proof.
  eapply wp_mono; [by apply Init_analysed|]. intros dm [D HA].
  pose proof (an_solved _ _ _ HA) as HS. pose proof (sv_numbering _ _ _ _ _ HS) as Hn.
  pose proof (sv_tree _ _ _ _ _ HS) as HT. pose proof (sv_ordering _ _ _ _ _ HS) as Ho.
  pose proof (reachable_entry g) as Hre.
  assert (Hfuel : pn (postOrderIDs dm) (commonEntryNode g) < Z.of_nat (length (nodeVec g))).
  { rewrite (pn_entry g _ _ Hn). pose proof (nb_count _ _ _ Hn). lia. }
  assert (Hall : forall v, v ∈ dtPreOrder dm <-> reachable g v).
  { intros v. rewrite (an_preorder _ _ _ HA).
    rewrite (elem_of_subtree g Hg _ _ Hn D HT _ eq_refl Ho) by done. split.
    - intros Hv. destruct (chain_processed _ _ _ _ Hv) as [Hp _]. by eapply dt_reachable.
    - intros Hr. apply (dt_chain _ _ _ HT); [done | apply dominates_entry]. }
  split_and!.
  - intros p v. rewrite (an_children _ _ _ HA), (elem_of_kids g Hg _ _ Hn D HT _ eq_refl Ho).
    split; intros (Hr & Hv & Hp); (split_and!; [done..|]); by eapply solved_idom.
  - rewrite (an_preorder _ _ _ HA). by apply (subtree_NoDup g Hg _ _ Hn D HT _ eq_refl Ho).
  - done.
  - intros a Ha. pose proof (proj2 (Hall a) Ha) as Hin. rewrite (an_preorder _ _ _ HA) in Hin |- *.
    destruct (subtree_split g Hg _ _ Hn D HT _ eq_refl Ho _ _ a Hre Hfuel Hin) as (f & l1 & l2 & Hfa & Hl).
    destruct f as [|f]; [pose proof (pn_range g _ _ Hn a Ha); lia|].
    eexists l1, _, l2. split; [exact Hl|]. intros v.
    rewrite <- (dt_chain_both g _ D v a HT).
    exact (elem_of_subtree g Hg _ _ Hn D HT _ eq_refl Ho (S f) a v Ha Hfa).
  - apply (an_dfn _ _ _ HA).
  - intros v Hv Hr. apply (an_dfn_rest _ _ _ HA); [done|]. by rewrite Hall.
Qed.

(** ** At concrete graphs *)

Lemma dominators_correct_witness :
  good_graph loop_graph /\
  wp (out ← GenPostOrderID loop_graph; ComputeDominance loop_graph (fst out) (snd out)) (fun d =>
    GetDom d 0 = Some 0%nat /\
    (forall v, v <> 0%nat ->
      (reachable loop_graph v -> exists p, GetDom d v = Some p) /\
      forall p, GetDom d v = Some p <-> reachable loop_graph v /\ is_idom loop_graph p v) /\
    forall a v, exists b, Dominate loop_graph d a v = Ret b /\
      (b = true <-> a = v \/ reachable loop_graph v /\ dominates loop_graph a v)).
Proof.
  assert (Hg : good_graph loop_graph) by (apply (check_good_sound _ 6); vm_compute; reflexivity).
  split; [exact Hg | exact (dominators_correct loop_graph Hg)].
Defined.

Lemma frontiers_correct_witness :
  good_graph loop_graph /\ frontier_graph loop_graph /\
  wp (Init loop_graph) (fun dm => forall x y,
    y ∈ dfat (domFrontier dm) x <-> in_frontier loop_graph x y /\ y <> 1%nat).
Proof.
  assert (Hg : good_graph loop_graph) by (apply (check_good_sound _ 6); vm_compute; reflexivity).
  assert (Hf : frontier_graph loop_graph) by (apply (check_joins_sound _ 6); vm_compute; reflexivity).
  split_and!; [exact Hg | exact Hf | exact (frontiers_correct loop_graph Hg Hf)].
Defined.

Lemma iterated_frontiers_correct_witness :
  good_graph post_graph /\ frontier_graph post_graph /\
  wp (Init post_graph) (fun dm => forall x y, y ∈ dfat (iterDomFrontier dm) x <->
    x <> 0%nat /\ tc (fun a b => in_frontier post_graph a b /\ b <> 0%nat) x y).
Proof.
  assert (Hg : good_graph post_graph) by (apply (check_good_sound _ 6); vm_compute; reflexivity).
  assert (Hf : frontier_graph post_graph) by (apply (check_joins_sound _ 6); vm_compute; reflexivity).
  split_and!; [exact Hg | exact Hf | exact (iterated_frontiers_correct post_graph Hg Hf)].
Defined.

Lemma dominator_tree_order_witness :
  good_graph loop_graph /\ frontier_graph loop_graph /\
  wp (Init loop_graph) (fun dm =>
    (forall p v, v ∈ children_at (domChildren dm) p <->
      reachable loop_graph v /\ v <> 0%nat /\ is_idom loop_graph p v) /\
    NoDup (dtPreOrder dm) /\ (forall v, v ∈ dtPreOrder dm <-> reachable loop_graph v) /\
    (forall a, reachable loop_graph a -> exists l1 l l2, dtPreOrder dm = l1 ++ (a :: l) ++ l2 /\
      forall v, v ∈ a :: l <-> reachable loop_graph v /\ dominates loop_graph a v) /\
    (forall i v, dtPreOrder dm !! i = Some v -> dtDfn dm !! v = Some (Z.of_nat i)) /\
    forall v, (v < 7)%nat -> ~ reachable loop_graph v -> dtDfn dm !! v = Some (2 ^ 32 - 1)).
Proof.
  assert (Hg : good_graph loop_graph) by (apply (check_good_sound _ 6); vm_compute; reflexivity).
  assert (Hf : frontier_graph loop_graph) by (apply (check_joins_sound _ 6); vm_compute; reflexivity).
  split_and!; [exact Hg | exact Hf | exact (dominator_tree_order loop_graph Hg Hf)].
Defined.

(** The results for a graph: dominators, frontiers, iterated frontiers, pre-order
    and the places in it *)
Definition results (g : Graph) : res (list (option nat) * list (list nat) * list (list nat) * list nat * list Z) :=
  dm ← Init g;
  Ret (map (GetDom (doms dm)) (seq 0 (length (nodeVec g))), map in_order (domFrontier dm),
       map in_order (iterDomFrontier dm), dtPreOrder dm, dtDfn dm).

Example loop_results : results loop_graph =
  Ret ([Some 0; Some 6; Some 0; Some 2; Some 3; Some 3; Some 3]%nat,
       [[]; []; []; [3]; [6]; [6]; [3]]%nat,
       [[]; []; []; [3]; [3; 6]; [3; 6]; [3]]%nat,
       [0; 2; 3; 5; 4; 6; 1]%nat, [0; 6; 1; 2; 4; 3; 5]).
Proof. by vm_compute. Qed.

Example post_results : results post_graph =
  Ret ([None; Some 1; Some 3; Some 6; Some 6; Some 6; Some 1]%nat,
       [[]; []; []; [6]; [3]; [3]; [6]]%nat,
       [[]; []; []; [6]; [3; 6]; [3; 6]; [6]]%nat,
       [1; 6; 5; 4; 3; 2]%nat, [2 ^ 32 - 1; 0; 5; 4; 3; 2; 1]).
Proof. by vm_compute. Qed.

(** The first node is the header of a loop and lists its latch only: it has no
    place in the frontiers, although it is in that of the latch. *)
Definition header_graph : Graph :=
  graph_of [[2]; []; [3]; [2; 4]; [1]]%nat [[]; [4]; [3]; [2]; [3]]%nat 0 1 false.

Example header_frontiers_empty :
  good_graph header_graph /\ in_frontier header_graph 3 2 /\
  exists dm, Init header_graph = Ret dm /\ map in_order (domFrontier dm) = [[]; []; []; []; []].
Proof.
  assert (Hg : good_graph header_graph) by (apply (check_good_sound _ 5); vm_compute; reflexivity).
  split_and!; [done| |eexists; split; [vm_compute; reflexivity | reflexivity]].
  assert (He : edge header_graph 3 2) by (unfold edge; simpl; by left).
  exists 3%nat. split_and!; [| exact He | apply dominates_refl |].
  - apply (spread_reachable _ 4). apply (bool_decide_unpack _). by vm_compute.
  - intros [Hd _].
    assert (Hp : path header_graph ([0%nat] ++ [2%nat]) 2).
    { eapply path_edge; [apply (path_start header_graph)|]. unfold edge. simpl. by left. }
    specialize (Hd _ Hp). simpl in Hd. rewrite !elem_of_cons, elem_of_nil in Hd. lia.
Qed.

(** A join with a predecessor that cannot be reached: its null dominator is used. *)
Example unreachable_predecessor :
  Init (graph_of [[2]; []; [4]; [4]; [1]]%nat [[]; [4]; []; []; [2; 3]]%nat 0 1 false) = Fault OutOfBounds.
Proof. by vm_compute. Qed.
