(* ===== verification/CfgMst.v ===== *)
(** * Edge profiles: the spanning tree and the instrumented blocks

    The classes CFGMST, BBUseEdge and PGOInstrumentTemplate of maple_pgo
    (cfg_mst.h, cfg_mst.cpp, instrument.h, instrument.cpp), instantiated with the
    blocks of the code generator.  The control-flow graph is a parameter: a block is
    its id, and the functions of [Cfg] are its members.

    BBUseEdge extends BBEdge by a count; the instantiation with BBEdge is the same
    without the last two fields.  The members condition and isBackEdge of BBEdge,
    which nothing here uses, are left out.  A pointer to an edge is its place in allEdges. *)
From stdpp Require Import gmap sets.
From S2P Require Import Prelude.

Inductive BBKind : Type :=
  | kBBFallthru | kBBIf | kBBGoto | kBBIgoto | kBBReturn | kBBNoReturn | kBBIntrinsic | kBBRangeGoto | kBBThrow.

#[export] Instance BBKind_eq_dec : EqDecision BBKind.
Proof. solve_decision. Defined.

(** [nextBBs] are the blocks that GetNext leads to from the first; the common exit
    is not one of them. *)
Record Cfg : Type := MkCfg {
  firstBB : nat;
  nextBBs : list nat;
  GetSuccs : nat -> list nat;
  GetPreds : nat -> list nat;
  GetKind : nat -> BBKind;
  commonExit : nat
}.

Definition bb_chain (c : Cfg) : list nat := firstBB c :: nextBBs c.

Record BBUseEdge : Type := MkBBUseEdge {
  srcBB : nat;
  destBB : nat;
  weight : Z;
  inMST : bool;
  isCritical : bool;
  isFake : bool;
  e_valid : bool;
  e_countValue : Z
}.

Definition BBEdge_new (src dest : nat) (w : Z) (critical fake : bool) : BBUseEdge :=
  MkBBUseEdge src dest w false critical fake false 0.
Definition SetWeight (w : Z) (e : BBUseEdge) : BBUseEdge :=
  MkBBUseEdge (srcBB e) (destBB e) w (inMST e) (isCritical e) (isFake e) (e_valid e) (e_countValue e).
Definition SetInMST (e : BBUseEdge) : BBUseEdge :=
  MkBBUseEdge (srcBB e) (destBB e) (weight e) true (isCritical e) (isFake e) (e_valid e) (e_countValue e).
Definition BBUseEdge_SetCount (value : Z) (e : BBUseEdge) : BBUseEdge :=
  MkBBUseEdge (srcBB e) (destBB e) (weight e) (inMST e) (isCritical e) (isFake e) true value.

Record CFGMST : Type := MkCFGMST {
  allEdges : list BBUseEdge;
  bbGroups : gmap nat nat;
  totalBB : Z
}.
Definition CFGMST_empty : CFGMST := MkCFGMST [] ∅ 0.

Definition kNormalEdgeWeight : Z := 2.
Definition kExitEdgeWeight : Z := 3.
Definition kFakeExitEdgeWeight : Z := 4.
Definition kCriticalEdgeWeight : Z := 4.

Section Cfg.
Variable (c : Cfg).

Definition IsCritialEdge (src dest : nat) : bool :=
  (1 <? length (GetSuccs c src))%nat && (1 <? length (GetPreds c dest))%nat.

(** ** Edges *)

Definition joins (src dest : nat) (e : BBUseEdge) : bool := (srcBB e =? src)%nat && (destBB e =? dest)%nat.

Definition AddEdge (src dest : nat) (w : Z) (critical fake : bool) (m : CFGMST) : CFGMST :=
  let es := allEdges m in
  MkCFGMST
    (if existsb (joins src dest) es
     then map (fun e => if joins src dest e then SetWeight (wrap 64 (weight e + 1)) e else e) es
     else es ++ [BBEdge_new src dest w critical fake])
    (bbGroups m) (totalBB m).

Definition AddSucc (curbb : nat) (m : CFGMST) (succBB : nat) : CFGMST :=
  if bool_decide (GetKind c succBB = kBBReturn) then AddEdge curbb succBB kExitEdgeWeight false false m
  else if IsCritialEdge curbb succBB then AddEdge curbb succBB kCriticalEdgeWeight true false m
  else AddEdge curbb succBB kNormalEdgeWeight false false m.

Definition SetGroup (bb : nat) (m : CFGMST) : CFGMST :=
  MkCFGMST (allEdges m) (<[bb := bb]> (bbGroups m)) (totalBB m).

(** The body of the loop over the blocks *)
Definition AddBlock (m : CFGMST) (curbb : nat) : CFGMST :=
  let m := SetGroup curbb m in
  if (curbb =? commonExit c)%nat then m
  else foldl (AddSucc curbb) (MkCFGMST (allEdges m) (bbGroups m) (wrap 32 (totalBB m + 1))) (GetSuccs c curbb).

Definition BuildEdges : CFGMST :=
  let m := foldl AddBlock CFGMST_empty (bb_chain c) in
  let m := foldl (fun m bb => AddEdge bb (commonExit c) kFakeExitEdgeWeight false true m) m (GetPreds c (commonExit c)) in
  AddEdge (commonExit c) (firstBB c) (2 ^ 64 - 1) false true (SetGroup (commonExit c) m).

(** A stable sort by descending weights *)
Fixpoint insert_edge (e : BBUseEdge) (es : list BBUseEdge) : list BBUseEdge :=
  match es with
  | [] => [e]
  | e' :: es' => if weight e' >? weight e then e' :: insert_edge e es' else e :: es
  end.
Definition stable_sort (es : list BBUseEdge) : list BBUseEdge := foldr insert_edge [] es.

Definition SortEdges (m : CFGMST) : CFGMST := MkCFGMST (stable_sort (allEdges m)) (bbGroups m) (totalBB m).
End Cfg.

(** ** Groups of blocks *)

Fixpoint FindGroup (fuel : nat) (bbId : nat) (groups : gmap nat nat) : res (nat * gmap nat nat) :=
  match groups !! bbId with
  | None => Fault CheckFatal
  | Some g =>
      if (g =? bbId)%nat then Ret (bbId, groups)
      else
        match fuel with
        | O => Fault OutOfFuel
        | Datatypes.S fuel' =>
            out ← FindGroup fuel' g groups;
            let '(r, groups) := out in
            Ret (r, <[bbId := r]> groups)
        end
  end.

(** The chain to the representative is shorter than the number of blocks. *)
Definition UnionGroups (srcId destId : nat) (groups : gmap nat nat) : res (bool * gmap nat nat) :=
  out ← FindGroup (size groups) srcId groups;
  let '(srcGroupId, groups) := out in
  out ← FindGroup (size groups) destId groups;
  let '(destGroupId, groups) := out in
  if (srcGroupId =? destGroupId)%nat then Ret (false, groups)
  else Ret (true, <[srcGroupId := destGroupId]> groups).

(** The loop over the sorted edges *)
Fixpoint MarkEdges (es : list BBUseEdge) (groups : gmap nat nat) : res (list BBUseEdge * gmap nat nat) :=
  match es with
  | [] => Ret ([], groups)
  | e :: es' =>
      out ← UnionGroups (srcBB e) (destBB e) groups;
      let '(joined, groups) := out in
      let e := if joined : bool then SetInMST e else e in
      out ← MarkEdges es' groups;
      let '(es', groups) := out in
      Ret (e :: es', groups)
  end.

Definition ComputeMST (c : Cfg) : res CFGMST :=
  let m := SortEdges (BuildEdges c) in
  if (length (allEdges m) =? 1)%nat then Ret m
  else
    out ← MarkEdges (allEdges m) (bbGroups m);
    let '(es, groups) := out in
    Ret (MkCFGMST es groups (totalBB m)).

(** ** The instrumented blocks *)

Definition GetInstrumentEdges (m : CFGMST) : list BBUseEdge := filter (fun e => inMST e = false) (allEdges m).

(** The state of the loop is bbs and visitedBBs. *)
Definition InstrumentEdge (c : Cfg) (e : BBUseEdge) (st : list nat * gset nat) : res (list nat * gset nat) :=
  let '(bbs, visitedBBs) := st in
  let src := srcBB e in
  let dest := destBB e in
  if (length (GetSuccs c src) <=? 1)%nat then
    Ret (bbs ++ [if (src =? firstBB c)%nat then dest else src], visitedBBs)
  else if negb (isCritical e) then Ret (bbs ++ [dest], visitedBBs)
  else if bool_decide (GetKind c src = kBBIgoto) then
    if bool_decide (dest ∈ visitedBBs) then Ret st else Ret (bbs ++ [dest], {[ dest ]} ∪ visitedBBs)
  else Fault CheckFatal.

Fixpoint InstrumentEdges (c : Cfg) (es : list BBUseEdge) (st : list nat * gset nat) : res (list nat * gset nat) :=
  match es with
  | [] => Ret st
  | e :: es' => st ← InstrumentEdge c e st; InstrumentEdges c es' st
  end.

Definition GetInstrumentBBs (c : Cfg) (m : CFGMST) : res (list nat) :=
  st ← InstrumentEdges c (GetInstrumentEdges m) ([], ∅); Ret (fst st).

(** The blocks whose executions are counted: PrepareInstrumentInfo, then
    GetInstrumentBBs *)
Definition InstrumentedBBs (c : Cfg) : res (list nat) := m ← ComputeMST c; GetInstrumentBBs c m.
