(* ===== verification/CfgMstFacts.v ===== *)
(** * Edge profiles: the spanning tree is one

    FindGroup and UnionGroups maintain the classes that the edges in the tree link,
    so MarkEdges marks exactly the edges that join two classes ([kruskal]).  The
    marked edges are then a forest that links what the edges link, and no forest
    among the edges weighs more.

    A forest is a list of pairs in which no edge joins nodes that the edges before
    it already link; every tree of it has a leaf apart from any given node, and
    every edge is a bridge. *)
From stdpp Require Import gmap sets relations sorting.
From S2P Require Import Prelude.
From S2P Require Import CfgMst.

(** ** Forests *)

Section Forest.
Context {A : Type} `{EqDecision A}.
Implicit Types (F : list (A * A)) (x y a b u v : A).

Definition adj F x y : Prop := (x, y) ∈ F \/ (y, x) ∈ F.
Definition linked F : A -> A -> Prop := rtc (adj F).

Inductive forest : list (A * A) -> Prop :=
  | forest_nil : forest []
  | forest_snoc F a b : forest F -> ~ linked F a b -> forest (F ++ [(a, b)]).

Definition touches x (e : A * A) : Prop := fst e = x \/ snd e = x.
#[global] Instance touches_dec x e : Decision (touches x e).
Proof. unfold touches. apply _. Defined.
Definition degree F x : nat := length (filter (touches x) F).

Lemma linked_refl F x : linked F x x.
Proof. constructor. Qed.

Lemma linked_edge F a b : (a, b) ∈ F -> linked F a b.
Proof. intros Hin. apply rtc_once. by left. Qed.

Lemma linked_sym F x y : linked F x y -> linked F y x.
Proof.
  induction 1 as [x|x y z Hxy _ IH]; [constructor|]. eapply rtc_r; [exact IH|]. destruct Hxy; [by right | by left].
Qed.

Lemma linked_trans F x y z : linked F x y -> linked F y z -> linked F x z.
Proof. apply rtc_trans. Qed.

Lemma linked_mono F F' x y : F ⊆ F' -> linked F x y -> linked F' x y.
Proof. intros Hsub. apply rtc_subrel. intros u v [Hin|Hin]; [left | right]; by apply Hsub. Qed.

(** What one more edge links *)
Lemma linked_snoc F a b x y :
  linked (F ++ [(a, b)]) x y <->
  linked F x y \/ linked F x a /\ linked F b y \/ linked F x b /\ linked F a y.
Proof.
  assert (Hmono : forall u v, linked F u v -> linked (F ++ [(a, b)]) u v).
  { intros u v. apply linked_mono. set_solver. }
  assert (Hab : linked (F ++ [(a, b)]) a b) by (apply linked_edge; set_solver).
  split.
  - induction 1 as [x|x z y Hxz _ IH]; [left; constructor|].
    assert (Hstep : adj F x z \/ x = a /\ z = b \/ x = b /\ z = a) by (unfold adj in *; set_solver).
    destruct Hstep as [Hs|[[-> ->]|[-> ->]]].
    + destruct IH as [IH|[[IH ?]|[IH ?]]]; [left | right; left; split | right; right; split];
        try done; (eapply rtc_l; [exact Hs | exact IH]).
    + destruct IH as [IH|[[IH IH']|[IH IH']]]; [right; left; split; [constructor | done] | right; left |].
      * split; [constructor | done].
      * left. done.
    + destruct IH as [IH|[[IH IH']|[IH IH']]]; [right; right; split; [constructor | done] | |].
      * left. done.
      * right; right. split; [constructor | done].
  - intros [Hl|[[H1 H2]|[H1 H2]]]; [by apply Hmono| |].
    + eapply linked_trans; [by apply Hmono|]. eapply linked_trans; [exact Hab | by apply Hmono].
    + eapply linked_trans; [by apply Hmono|]. eapply linked_trans; [apply linked_sym, Hab | by apply Hmono].
Qed.

Lemma forest_filter (P : A * A -> Prop) `{forall e, Decision (P e)} F : forest F -> forest (filter P F).
Proof.
  induction 1 as [|F a b HF IH Hab]; [constructor|]. rewrite filter_app, filter_cons, filter_nil.
  case_decide; [|by rewrite app_nil_r]. constructor; [done|]. contradict Hab.
  eapply linked_mono; [|exact Hab]. intros e He. by apply list_elem_of_filter in He as [_ He].
Qed.

Lemma forest_prefix F F' : forest (F ++ F') -> forest F.
Proof.
  induction F' as [|e F' IH] using rev_ind; [by rewrite app_nil_r|]. rewrite app_assoc. intros Hf. apply IH.
  inversion Hf as [Hnil|F0 a b HF _ Heq]; [by destruct (F ++ F')|]. by apply app_inj_tail in Heq as [-> _].
Qed.

Lemma forest_no_loop F a : forest F -> (a, a) ∉ F.
Proof.
  induction 1 as [|F x y HF IH Hxy]; [by intros ?%elem_of_nil|].
  intros [Hin|Hin%list_elem_of_singleton]%elem_of_app; [done|]. injection Hin as -> ->. by destruct Hxy.
Qed.

(** ** Leaves *)

Lemma degree_snoc F a b x : degree (F ++ [(a, b)]) x = (degree F x + if decide (a = x \/ b = x) then 1 else 0)%nat.
Proof.
  unfold degree. rewrite filter_app, length_app, filter_cons, filter_nil.
  destruct (decide (touches x (a, b))) as [Ht|Ht]; [by rewrite decide_True | by rewrite decide_False].
Qed.

Lemma degree_linked F x : degree F x <> 0%nat -> exists y, adj F x y.
Proof.
  unfold degree. destruct (filter (touches x) F) as [|[a b] l] eqn:Hf; [done|]. intros _.
  assert (Hin : (a, b) ∈ filter (touches x) F) by (rewrite Hf; by left).
  apply list_elem_of_filter in Hin as [[<-|<-] Hin]; simpl in *; [exists b; by left | exists a; by right].
Qed.

Lemma linked_dec F x y : linked F x y \/ ~ linked F x y.
Proof.
  revert x y. induction F as [|[a b] F IH] using rev_ind; intros x y.
  - destruct (decide (x = y)) as [->|Hne]; [left; constructor|]. right. intros Hl.
    inversion Hl as [|? z ? [?%elem_of_nil|?%elem_of_nil] _]; done.
  - rewrite linked_snoc. pose proof (IH x y). pose proof (IH x a). pose proof (IH x b).
    pose proof (IH a y). pose proof (IH b y). tauto.
Qed.

Notation extra a b u := (if decide (a = u \/ b = u) then 1%nat else 0%nat).

(** Across a new edge from the tree of [v] there is a leaf, if only the other end. *)
Lemma leaf_beyond F a b v :
  (forall v, degree F v <> 0%nat -> exists u, u <> v /\ linked F v u /\ degree F u = 1%nat) ->
  ~ linked F a b -> linked F v a ->
  exists u, u <> v /\ linked F b u /\ (degree F u + extra a b u = 1)%nat.
Proof.
  intros IH Hab Hva. destruct (decide (degree F b = 0%nat)) as [Hb|Hb].
  - exists b. split; [intros ->; by apply Hab, linked_sym|]. split; [constructor|].
    by rewrite Hb, decide_True by (by right).
  - destruct (IH b Hb) as (u & Hub & Hlu & Hdu). exists u. split; [|split; [done|]].
    + intros ->. apply Hab. eapply linked_trans; [by apply linked_sym|]. by apply linked_sym.
    + rewrite Hdu, decide_False; [done|]. intros [->| ->]; [by apply Hab, linked_sym | done].
Qed.

Lemma leaf F v : forest F -> degree F v <> 0%nat -> exists u, u <> v /\ linked F v u /\ degree F u = 1%nat.
Proof.
  intros HF. revert v. induction HF as [|F a b HF IH Hab]; intros v Hv; [done|].
  destruct (linked_dec F v a) as [Hva|Hva].
  { destruct (leaf_beyond F a b v IH Hab Hva) as (u & Hne & Hu & Hd). exists u. rewrite degree_snoc.
    split_and!; [done | | done]. apply linked_snoc. right. by left. }
  destruct (linked_dec F v b) as [Hvb|Hvb].
  { destruct (leaf_beyond F b a v IH) as (u & Hne & Hu & Hd); [by intros ?%linked_sym | done |].
    exists u. rewrite degree_snoc. split_and!; [done | apply linked_snoc; right; by right |].
    rewrite <- Hd. f_equal. case_decide as H1; case_decide as H2; (done || tauto). }
  assert (Hne : forall u, linked F v u -> ~ (a = u \/ b = u)) by (intros u Hu [->| ->]; done).
  rewrite degree_snoc, decide_False, Nat.add_0_r in Hv by (apply Hne; constructor).
  destruct (IH v Hv) as (u & Huv & Hu & Hd). exists u. rewrite degree_snoc, decide_False by (by apply Hne).
  split_and!; [done | apply linked_snoc; by left | lia].
Qed.

(** ** Bridges *)

Lemma bridge F a b : forest F -> (a, b) ∈ F -> ~ linked (filter (fun e => e <> (a, b)) F) a b.
Proof.
  intros HF. induction HF as [|F x y HF IH Hxy]; [by intros ?%elem_of_nil|].
  rewrite filter_app, filter_cons, filter_nil. intros Hin Hl.
  assert (Hmono : forall u v, linked (filter (fun e => e <> (a, b)) F) u v -> linked F u v).
  { intros u v. apply linked_mono. intros e He. by apply list_elem_of_filter in He as [_ He]. }
  case_decide as He.
  - apply elem_of_app in Hin as [Hin|Hin%list_elem_of_singleton]; [|by apply He].
    apply linked_snoc in Hl as [Hl|[[H1 H2]|[H1 H2]]]; [by apply IH| |]; apply Hxy.
    + eapply linked_trans; [apply linked_sym, Hmono, H1|]. eapply linked_trans; [by apply linked_edge|].
      by apply linked_sym, Hmono.
    + eapply linked_trans; [apply Hmono, H2|]. eapply linked_trans; [apply linked_sym; by apply linked_edge|].
      by apply Hmono.
  - rewrite app_nil_r in Hl. assert (Heq : (x, y) = (a, b)) by (destruct (decide ((x, y) = (a, b))); tauto).
    injection Heq as -> ->. by apply Hxy, Hmono.
Qed.
End Forest.

(** ** Images *)

Definition both {A B : Type} (h : A -> B) (e : A * A) : B * B := (h (fst e), h (snd e)).

Lemma linked_map {A B} (h : A -> B) (F : list (A * A)) x y : linked F x y -> linked (map (both h) F) (h x) (h y).
Proof.
  induction 1 as [x|x z y Hxz _ IH]; [constructor|]. eapply rtc_l; [|exact IH].
  destruct Hxz as [Hin|Hin]; [left | right]; by apply (list_elem_of_fmap_2 (both h)) in Hin.
Qed.

(** Splitting nodes keeps a forest. *)
Lemma forest_unmap {A B} (h : A -> B) (F : list (A * A)) : forest (map (both h) F) -> forest F.
Proof.
  induction F as [|[a b] F IH] using rev_ind; [constructor|]. rewrite map_app. intros Hf.
  inversion Hf as [Hnil|F' a' b' HF' Hab Heq]; [by destruct (map (both h) F)|].
  apply app_inj_tail in Heq as [-> [= -> ->]]. constructor; [by apply IH|].
  contradict Hab. by apply (linked_map h).
Qed.

(** ** Groups *)

(** [rooted g k x r]: the representative of [x] is [r], [k] steps up. *)
Inductive rooted (g : gmap nat nat) : nat -> nat -> nat -> Prop :=
  | rooted_root r : g !! r = Some r -> rooted g 0 r r
  | rooted_up k x y r : g !! x = Some y -> y <> x -> rooted g k y r -> rooted g (S k) x r.

Definition root (g : gmap nat nat) (x r : nat) : Prop := exists k, rooted g k x r.

Lemma rooted_det g k k' x r r' : rooted g k x r -> rooted g k' x r' -> k = k' /\ r = r'.
Proof.
  intros H. revert k' r'. induction H as [r Hr|k x y r Hx Hne _ IH]; intros k' r' H'; inversion H'; subst; simplify_eq.
  - done.
  - split; [f_equal|]; by eapply IH.
Qed.

Lemma root_det g x r r' : root g x r -> root g x r' -> r = r'.
Proof. intros [k H] [k' H']. by destruct (rooted_det _ _ _ _ _ _ H H'). Qed.

Lemma rooted_last g k x r : rooted g k x r -> g !! r = Some r.
Proof. by induction 1. Qed.

Lemma root_self g x r : root g x r -> root g r r.
Proof. intros [k H%rooted_last]. exists 0%nat. by constructor. Qed.

Lemma root_dom g x r : root g x r -> x ∈ dom g /\ r ∈ dom g.
Proof. intros [k H]. pose proof (rooted_last _ _ _ _ H). split; apply elem_of_dom; [destruct H|]; by eexists. Qed.

(** The chain to a representative does not repeat a block. *)
Lemma rooted_size g k x r : rooted g k x r -> (k < size g)%nat.
Proof.
  assert (Hchain : rooted g k x r ->
    exists l, length l = S k /\ NoDup l /\ forall y, y ∈ l -> exists j, (j <= k)%nat /\ rooted g j y r).
  { induction 1 as [r Hr|k x y r Hx Hne Hy IH].
    - exists [r]. split_and!; [done | apply NoDup_singleton |]. intros y ->%list_elem_of_singleton.
      exists 0%nat. split; [done | by constructor].
    - destruct IH as (l & Hl & Hnd & Hall). exists (x :: l). split_and!; [by simpl; rewrite Hl | |].
      + constructor; [|done]. intros (j & Hj & Hr)%Hall.
        destruct (rooted_det _ _ _ _ _ _ Hr (rooted_up _ _ _ _ _ Hx Hne Hy)). lia.
      + intros z [->|(j & Hj & Hr)%Hall]%elem_of_cons; [|exists j; split; [lia | done]].
        exists (S k). split; [done | by econstructor]. }
  intros H. destruct (Hchain H) as (l & Hl & Hnd & Hall). rewrite <- size_dom.
  enough (S k <= size (dom g))%nat by lia. rewrite <- Hl, <- (size_list_to_set (C:=gset nat) l Hnd).
  apply subseteq_size. intros y Hy%elem_of_list_to_set. destruct (Hall y Hy) as (j & _ & Hr).
  by apply (root_dom g y r); exists j.
Qed.

(** Path compression *)
Lemma root_compress g x r y s : root g x r -> root (<[x := r]> g) y s <-> root g y s.
Proof.
  intros Hx. pose proof (root_self _ _ _ Hx) as Hr. destruct (decide (x = r)) as [->|Hxr].
  { rewrite insert_id; [done|]. destruct Hx as [k Hx]. by eapply rooted_last. }
  split; intros [k H].
  - induction H as [s Hs|k y z s Hy Hne _ IH].
    + rewrite lookup_insert_ne in Hs by (intros ->; rewrite lookup_insert_eq in Hs; congruence).
      exists 0%nat. by constructor.
    + destruct IH as [j IH]. destruct (decide (x = y)) as [->|Hxy].
      * rewrite lookup_insert_eq in Hy. injection Hy as <-.
        by rewrite <- (root_det g r r s Hr (ex_intro _ j IH)).
      * rewrite lookup_insert_ne in Hy by done. exists (S j). by econstructor.
  - induction H as [s Hs|k y z s Hy Hne Hz IH].
    + exists 0%nat. constructor. rewrite lookup_insert_ne; [done|]. intros ->. apply Hxr.
      apply (root_det g s); [exists 0%nat; by constructor | done].
    + destruct (decide (x = y)) as [->|Hxy].
      * assert (s = r) as ->.
        { apply (root_det g y); [exists (S k); by econstructor | done]. }
        exists 1%nat. apply (rooted_up _ 0 y r r); [by rewrite lookup_insert_eq | done |]. constructor.
        rewrite lookup_insert_ne by done. destruct Hr as [j Hr]. by eapply rooted_last.
      * destruct IH as [j IH]. exists (S j). econstructor; [|exact Hne|exact IH]. by rewrite lookup_insert_ne.
Qed.

Definition same_roots (g g' : gmap nat nat) : Prop := dom g' = dom g /\ forall y s, root g' y s <-> root g y s.

Lemma FindGroup_spec fuel g k x r :
  rooted g k x r -> (k <= fuel)%nat ->
  wp (FindGroup fuel x g) (fun '(r', g') => r' = r /\ same_roots g g').
Proof.
  revert k x. induction fuel as [|fuel IH]; intros k x H Hk; destruct H as [r Hr|k x y r Hx Hne Hy]; simpl.
  - rewrite Hr, Nat.eqb_refl. by split.
  - lia.
  - rewrite Hr, Nat.eqb_refl. by split.
  - rewrite Hx, (proj2 (Nat.eqb_neq _ _) Hne). eapply wp_bind, wp_mono; [apply (IH k); [done | lia]|].
    intros [r' g'] (-> & Hdom & Hroots). split; [done|].
    assert (Hxr : root g' x r) by (apply Hroots; exists (S k); by econstructor).
    split.
    + rewrite dom_insert_L, Hdom. apply elem_of_dom_2 in Hx. set_solver.
    + intros z s. rewrite (root_compress g' x r z s Hxr). apply Hroots.
Qed.

(** The union of two classes *)
Lemma root_union g rx ry y s :
  g !! rx = Some rx -> g !! ry = Some ry -> rx <> ry ->
  root (<[rx := ry]> g) y s <-> exists t, root g y t /\ s = if decide (t = rx) then ry else t.
Proof.
  intros Hrx Hry Hne. split.
  - intros [k H]. induction H as [s Hs|k y z s Hy Hyz _ IH].
    + assert (Hsr : rx <> s) by (intros ->; rewrite lookup_insert_eq in Hs; congruence).
      rewrite lookup_insert_ne in Hs by done.
      exists s. split; [exists 0%nat; by constructor|]. by rewrite decide_False.
    + destruct IH as (t & [j Ht] & Hs). destruct (decide (rx = y)) as [->|Hxy].
      * rewrite lookup_insert_eq in Hy. injection Hy as <-.
        assert (t = ry) as -> by (eapply root_det; [by exists j | exists 0%nat; by constructor]).
        rewrite decide_False in Hs by congruence. exists y. split; [exists 0%nat; by constructor|].
        by rewrite decide_True.
      * rewrite lookup_insert_ne in Hy by done. exists t. split; [|done]. exists (S j). by econstructor.
  - intros (t & [k H] & ->). induction H as [t Ht|k y z t Hy Hyz _ IH].
    + case_decide as Htx.
      * subst t. exists 1%nat. apply (rooted_up _ 0 rx ry ry); [by rewrite lookup_insert_eq | done |].
        constructor. by rewrite lookup_insert_ne.
      * exists 0%nat. constructor. by rewrite lookup_insert_ne.
    + destruct IH as [j IH]. exists (S j). econstructor; [|exact Hyz|exact IH].
      rewrite lookup_insert_ne; [done|]. intros ->. congruence.
Qed.

(** The classes of [g] are what the edges of [F] link. *)
Record groups_ok (g : gmap nat nat) (F : list (nat * nat)) : Prop := {
  go_root : forall x, x ∈ dom g -> exists r, root g x r;
  go_ends : forall a b, (a, b) ∈ F -> a ∈ dom g /\ b ∈ dom g;
  go_class : forall x y r s, root g x r -> root g y s -> r = s <-> linked F x y
}.

Lemma same_roots_ok g g' F : same_roots g g' -> groups_ok g F -> groups_ok g' F.
Proof.
  intros [Hdom Hroots] [H1 H2 H3]. constructor.
  - intros x. rewrite Hdom. intros [r Hr]%H1. exists r. by apply Hroots.
  - intros a b. rewrite Hdom. apply H2.
  - intros x y r s Hx%Hroots Hy%Hroots. by apply H3.
Qed.

Lemma union_ok g F src dst rx ry :
  groups_ok g F -> root g src rx -> root g dst ry -> rx <> ry ->
  ~ linked F src dst /\ groups_ok (<[rx := ry]> g) (F ++ [(src, dst)]).
Proof.
  intros [H1 H2 H3] Hx Hy Hne. split; [by rewrite <- (H3 src dst rx ry)|].
  pose proof Hx as [kx Hrx%rooted_last]. pose proof Hy as [ky Hry%rooted_last].
  destruct (root_dom _ _ _ Hx) as [Hdx Hdrx], (root_dom _ _ _ Hy) as [Hdy _].
  assert (Hdom : dom (<[rx := ry]> g) = dom g) by (rewrite dom_insert_L; set_solver).
  constructor.
  - intros x. rewrite Hdom. intros [r Hr]%H1. eexists. apply root_union; [done..|]. by exists r.
  - intros a b. rewrite Hdom. intros [Hin|Hin%list_elem_of_singleton]%elem_of_app; [by apply H2|].
    by injection Hin as -> ->.
  - intros x y r s Hr Hs. apply root_union in Hr as (t & Ht & ->); [|done..].
    apply root_union in Hs as (t' & Ht' & ->); [|done..].
    rewrite linked_snoc, <- (H3 x y t t' Ht Ht'), <- (H3 x src t rx Ht Hx), <- (H3 dst y ry t' Hy Ht'),
      <- (H3 x dst t ry Ht Hy), <- (H3 src y rx t' Hx Ht').
    repeat case_decide; naive_solver.
Qed.

Lemma UnionGroups_spec g F src dst :
  groups_ok g F -> src ∈ dom g -> dst ∈ dom g ->
  wp (UnionGroups src dst g) (fun '(joined, g') => dom g' = dom g /\
    if joined : bool then ~ linked F src dst /\ groups_ok g' (F ++ [(src, dst)])
    else linked F src dst /\ groups_ok g' F).
Proof.
  intros Hg Hsrc Hdst. destruct (go_root _ _ Hg src Hsrc) as [rx Hx], (go_root _ _ Hg dst Hdst) as [ry Hy].
  unfold UnionGroups. pose proof Hx as [kx Hkx]. pose proof (rooted_size _ _ _ _ Hkx).
  eapply wp_bind, wp_mono; [eapply FindGroup_spec; [exact Hkx | lia]|].
  intros [? g1] (-> & Hsame1). pose proof (same_roots_ok _ _ _ Hsame1 Hg) as Hg1. destruct Hsame1 as [Hd1 Hr1].
  assert (Hy1 : root g1 dst ry) by by apply Hr1. pose proof Hy1 as [ky Hky]. pose proof (rooted_size _ _ _ _ Hky).
  eapply wp_bind, wp_mono; [eapply FindGroup_spec; [exact Hky | lia]|].
  intros [? g2] (-> & Hsame2). pose proof (same_roots_ok _ _ _ Hsame2 Hg1) as Hg2. destruct Hsame2 as [Hd2 Hr2].
  assert (Hx2 : root g2 src rx) by by apply Hr2, Hr1. assert (Hy2 : root g2 dst ry) by by apply Hr2.
  destruct (Nat.eqb_spec rx ry) as [->|Hne].
  - split; [congruence|]. split; [|done]. by eapply go_class.
  - split; [|by apply union_ok]. rewrite dom_insert_L, Hd2, Hd1. apply root_dom in Hx as [_ Hx]. set_solver.
Qed.

(** ** Marking *)

Definition ends (e : BBUseEdge) : nat * nat := (srcBB e, destBB e).
Definition tree (es : list BBUseEdge) : list (nat * nat) := map ends (filter (fun e => inMST e = true) es).

(** An edge is in the tree exactly if those before it do not link its ends. *)
Inductive kruskal : list BBUseEdge -> Prop :=
  | kruskal_nil : kruskal []
  | kruskal_in es e : kruskal es -> inMST e = true -> ~ linked (tree es) (srcBB e) (destBB e) -> kruskal (es ++ [e])
  | kruskal_out es e : kruskal es -> inMST e = false -> linked (tree es) (srcBB e) (destBB e) -> kruskal (es ++ [e]).

Lemma tree_snoc es e : tree (es ++ [e]) = tree es ++ if inMST e then [ends e] else [].
Proof.
  unfold tree. rewrite filter_app, map_app, filter_cons, filter_nil. f_equal. by destruct (inMST e).
Qed.

Lemma kruskal_forest es : kruskal es -> forest (tree es).
Proof.
  induction 1 as [|es e _ IH Hin Hl|es e _ IH Hin Hl]; [constructor| |]; rewrite tree_snoc, Hin.
  - by constructor.
  - by rewrite app_nil_r.
Qed.

Lemma kruskal_spans es e : kruskal es -> e ∈ es -> linked (tree es) (srcBB e) (destBB e).
Proof.
  intros Hk. revert e. induction Hk as [|es e' _ IH Hin Hl|es e' _ IH Hin Hl]; intros e He;
    [by apply elem_of_nil in He| |]; rewrite tree_snoc, Hin; [|rewrite app_nil_r];
    apply elem_of_app in He as [He|He%list_elem_of_singleton]; subst.
  - eapply linked_mono, IH, He. set_solver.
  - apply linked_edge. set_solver.
  - by apply IH.
  - done.
Qed.

Lemma kruskal_prefix es es' : kruskal (es ++ es') -> kruskal es.
Proof.
  induction es' as [|e es' IH] using rev_ind; [by rewrite app_nil_r|]. rewrite app_assoc. intros Hk. apply IH.
  inversion Hk as [Hnil|l e' ? ? ? Heq|l e' ? ? ? Heq]; [by destruct (es ++ es')| |];
    by apply app_inj_tail in Heq as [-> _].
Qed.

(** An edge that is not in the tree is linked by those before it. *)
Lemma kruskal_before es e es' :
  kruskal (es ++ e :: es') -> inMST e = false -> linked (tree es) (srcBB e) (destBB e).
Proof.
  rewrite cons_middle, app_assoc. intros Hk%kruskal_prefix He.
  inversion Hk as [Hnil|l e' ? ? ? Heq|l e' ? ? ? Heq]; [by destruct es| |];
    apply app_inj_tail in Heq as [-> ->]; [congruence | done].
Qed.

(** What MarkEdges may change *)
Definition marked (e e' : BBUseEdge) : Prop := e' = e \/ e' = SetInMST e.

Lemma marked_ends e e' : marked e e' -> ends e' = ends e /\ weight e' = weight e /\ isCritical e' = isCritical e /\
  e_valid e' = e_valid e /\ e_countValue e' = e_countValue e.
Proof. by intros [->| ->]. Qed.

Lemma MarkEdges_spec es : forall before g,
  groups_ok g (tree before) -> kruskal before ->
  Forall (fun e => inMST e = false /\ srcBB e ∈ dom g /\ destBB e ∈ dom g) es ->
  wp (MarkEdges es g) (fun '(es', _) => kruskal (before ++ es') /\ Forall2 marked es es').
Proof.
  induction es as [|e es IH]; intros before g Hg Hk Hes; simpl; [by rewrite app_nil_r|].
  apply Forall_cons in Hes as [(Hout & Hs & Hd) Hes].
  eapply wp_bind, wp_mono; [by apply UnionGroups_spec|]. intros [joined g'] [Hdom Hj].
  eapply wp_bind, wp_mono.
  - apply (IH (before ++ [if joined then SetInMST e else e]) g').
    + rewrite tree_snoc. destruct joined; simpl; [apply Hj|]. rewrite Hout, app_nil_r. apply Hj.
    + destruct joined; destruct Hj as [Hl _]; [by apply kruskal_in | by apply kruskal_out].
    + eapply Forall_impl; [exact Hes|]. intros e'. by rewrite Hdom.
  - intros [es' g''] [Hk' Hm]. simpl. rewrite cons_middle, app_assoc. split; [done|]. constructor; [|done].
    destruct joined; [by right | by left].
Qed.

(** ** No forest is larger *)

(** What a forest [F] within the span of [G] leaves of [G] *)
Lemma exchange {A} `{EqDecision A} (F G : list (A * A)) :
  forest F -> (forall e, e ∈ F -> linked G (fst e) (snd e)) ->
  exists G', (length F + length G' = length G)%nat /\
    forall e, e ∈ G -> linked (F ++ G') (fst e) (snd e).
Proof.
  intros HF. induction HF as [|F a b HF IH Hab]; intros Hspan.
  { exists G. split; [done|]. intros [x y] He. by apply linked_edge. }
  destruct IH as (G' & Hlen & HG); [intros e He; apply Hspan; set_solver|].
  assert (Hl : linked (F ++ G') a b).
  { assert (Hsub : forall x y, linked G x y -> linked (F ++ G') x y).
    { induction 1 as [|x y z [Hxy|Hxy] _ Hyz]; [constructor| |].
      - eapply linked_trans; [exact (HG (x, y) Hxy) | exact Hyz].
      - eapply linked_trans; [exact (linked_sym _ _ _ (HG (y, x) Hxy)) | exact Hyz]. }
    apply Hsub. apply (Hspan (a, b)). set_solver. }
  (* the first edge of [G'] after which [a] and [b] are linked *)
  assert (Hfirst : exists G1 x y G2, G' = G1 ++ (x, y) :: G2 /\ ~ linked (F ++ G1) a b /\ linked (F ++ G1 ++ [(x, y)]) a b).
  { clear -Hl Hab EqDecision0. induction G' as [|[x y] G' IH] using rev_ind; [by rewrite app_nil_r in Hl|].
    destruct (linked_dec (F ++ G') a b) as [H|H].
    - destruct (IH H) as (G1 & u & v & G2 & -> & ? & ?). exists G1, u, v, (G2 ++ [(x, y)]).
      by rewrite <- app_assoc.
    - by exists G', x, y, []. }
  destruct Hfirst as (G1 & x & y & G2 & -> & Hno & Hyes). exists (G1 ++ G2). split.
  { rewrite !length_app in *. simpl in *. lia. }
  intros e He. apply HG in He. revert He. generalize (fst e) (snd e). intros u v Huv.
  assert (Hxy : linked ((F ++ [(a, b)]) ++ G1 ++ G2) x y).
  { assert (Hm : forall p q, linked (F ++ G1) p q -> linked ((F ++ [(a, b)]) ++ G1 ++ G2) p q).
    { intros p q. apply linked_mono. set_solver. }
    assert (Hab' : linked ((F ++ [(a, b)]) ++ G1 ++ G2) a b) by (apply linked_edge; set_solver).
    rewrite app_assoc in Hyes. apply linked_snoc in Hyes as [?|[[H1 H2]|[H1 H2]]]; [done| |].
    - eapply linked_trans; [apply Hm, linked_sym, H1|]. eapply linked_trans; [exact Hab'|]. by apply Hm, linked_sym.
    - eapply linked_trans; [apply Hm, H2|]. eapply linked_trans; [apply linked_sym, Hab'|]. by apply Hm. }
  induction Huv as [|u w v Hstep _ IHv]; [constructor|]. eapply linked_trans; [|exact IHv].
  assert (Hcase : adj ((F ++ [(a, b)]) ++ G1 ++ G2) u w \/ u = x /\ w = y \/ u = y /\ w = x)
    by (unfold adj in *; set_solver).
  destruct Hcase as [H|[[-> ->]|[-> ->]]]; [by apply rtc_once | done | by apply linked_sym].
Qed.

Lemma forest_length {A} `{EqDecision A} (F G : list (A * A)) :
  forest F -> (forall e, e ∈ F -> linked G (fst e) (snd e)) -> (length F <= length G)%nat.
Proof. intros HF Hspan. destruct (exchange F G HF Hspan) as (G' & Hlen & _). lia. Qed.

(** The weight of the edges that [sel] selects *)
Definition picked (sel : BBUseEdge -> bool) (es : list BBUseEdge) : list BBUseEdge := filter (fun e => sel e = true) es.
Definition total_weight (es : list BBUseEdge) : Z := foldr Z.add 0 (map weight es).

Lemma total_weight_app es es' : total_weight (es ++ es') = total_weight es + total_weight es'.
Proof. unfold total_weight. rewrite map_app. induction es as [|e es IH]; simpl; lia. Qed.

Lemma picked_snoc sel es e : picked sel (es ++ [e]) = picked sel es ++ if sel e then [e] else [].
Proof. unfold picked. rewrite filter_app, filter_cons, filter_nil. f_equal. by destruct (sel e). Qed.

Lemma weight_step (w we a b x y te se : Z) :
  w <= we -> 0 <= x + te - (y + se) -> we * (x - y) <= a - b ->
  w * (x + te - (y + se)) <= a + we * te - (b + we * se).
Proof.
  intros Hw HD Hab. assert (Hle : w * (x + te - (y + se)) <= we * (x + te - (y + se))).
  { apply Z.mul_le_mono_nonneg_r; lia. }
  lia.
Qed.

(** If of each prefix of a descending list at least as many edges are picked, then
    they weigh at least as much. *)
Lemma weight_by_counts s t es w :
  StronglySorted (fun e e' => weight e' <= weight e) es -> Forall (fun e => w <= weight e) es ->
  (forall P Q, es = P ++ Q -> (length (picked s P) <= length (picked t P))%nat) ->
  w * (Z.of_nat (length (picked t es)) - Z.of_nat (length (picked s es)))
    <= total_weight (picked t es) - total_weight (picked s es).
Proof.
  intros Hs. revert w. induction es as [|e es IH] using rev_ind; intros w Hw Hc; [unfold total_weight; simpl; lia|].
  apply StronglySorted_app in Hs as (Hall & Hs & _). apply Forall_app in Hw as [Hw [He _]%Forall_cons].
  pose proof (IH Hs (weight e)) as Hi. pose proof (Hc (es ++ [e]) [] ltac:(by rewrite app_nil_r)) as Hd.
  assert (Hpre : Forall (fun e' => weight e <= weight e') es).
  { apply Forall_forall. intros e' He'. apply Hall; [done | by left]. }
  specialize (Hi Hpre). rewrite !picked_snoc, !length_app, !total_weight_app in *.
  assert (Hi' : weight e * (Z.of_nat (length (picked t es)) - Z.of_nat (length (picked s es)))
    <= total_weight (picked t es) - total_weight (picked s es)).
  { apply Hi. intros P Q HPQ. apply (Hc P (Q ++ [e])). rewrite HPQ. by rewrite app_assoc. }
  assert (Hone : forall r : BBUseEdge -> bool, let x := if r e then 1 else 0 in
    Z.of_nat (length (if r e then [e] else [])) = x /\ total_weight (if r e then [e] else []) = weight e * x).
  { intros r. unfold total_weight. destruct (r e); simpl; lia. }
  destruct (Hone s) as [Hs1 Hs2], (Hone t) as [Ht1 Ht2]. rewrite Hs2, Ht2, !Nat2Z.inj_add, Hs1, Ht1.
  apply weight_step; [done | lia | done].
Qed.

Lemma kruskal_maximal sel es :
  kruskal es -> StronglySorted (fun e e' => weight e' <= weight e) es -> Forall (fun e => 0 <= weight e) es ->
  forest (map ends (picked sel es)) ->
  total_weight (picked sel es) <= total_weight (picked inMST es).
Proof.
  intros Hk Hs Hw Hf.
  assert (Hc : forall P Q, es = P ++ Q -> (length (picked sel P) <= length (picked inMST P))%nat).
  { intros P Q ->. rewrite <- (length_map ends (picked sel P)), <- (length_map ends (picked inMST P)).
    apply kruskal_prefix in Hk. apply forest_length.
    - apply (forest_prefix _ (map ends (picked sel Q))). unfold picked. rewrite <- map_app, <- filter_app. exact Hf.
    - intros [a b] (e & Heq & He)%list_elem_of_fmap. injection Heq as -> ->.
      apply list_elem_of_filter in He as [_ He]. by apply (kruskal_spans P e). }
  pose proof (weight_by_counts sel inMST es 0 Hs Hw Hc). lia.
Qed.

(** ** Sorting *)

Definition descending : list BBUseEdge -> Prop := StronglySorted (fun e e' => weight e' <= weight e).

Lemma insert_edge_perm e es : insert_edge e es ≡ₚ e :: es.
Proof.
  induction es as [|e' es IH]; simpl; [done|]. case (weight e' >? weight e); [|done].
  rewrite IH. by rewrite Permutation_swap.
Qed.

Lemma stable_sort_perm es : stable_sort es ≡ₚ es.
Proof. induction es as [|e es IH]; simpl; [done|]. by rewrite insert_edge_perm, IH. Qed.

Lemma insert_edge_descending e es : descending es -> descending (insert_edge e es).
Proof.
  unfold descending. induction 1 as [|e' es Hs IH He]; simpl; [repeat constructor|].
  rewrite Z.gtb_ltb. destruct (Z.ltb_spec (weight e) (weight e')) as [Hlt|Hge].
  - constructor; [done|]. apply Forall_forall. intros x Hx. rewrite insert_edge_perm in Hx.
    apply elem_of_cons in Hx as [->|Hx]; [lia|]. rewrite Forall_forall in He. by apply He.
  - constructor; [by constructor|]. constructor; [done|]. eapply Forall_impl; [exact He|]. simpl. lia.
Qed.

Lemma stable_sort_descending es : descending (stable_sort es).
Proof. induction es as [|e es IH]; simpl; [constructor | by apply insert_edge_descending]. Qed.

(** Only heavier edges come before one that is inserted first. *)
Lemma insert_edge_split e es :
  exists P Q, insert_edge e es = P ++ e :: Q /\ Forall (fun e' => weight e < weight e') P.
Proof.
  induction es as [|e' es IH]; simpl; [by exists [], []|].
  rewrite Z.gtb_ltb. destruct (Z.ltb_spec (weight e) (weight e')) as [Hlt|Hge]; [|by exists [], (e' :: es)].
  destruct IH as (P & Q & -> & HP). exists (e' :: P), Q. by repeat constructor.
Qed.

(** ** The edges of a graph *)

Lemma foldl_inv {A B : Type} (P : B -> Prop) (f : B -> A -> B) (l : list A) b :
  P b -> (forall b x, x ∈ l -> P b -> P (f b x)) -> P (foldl f b l).
Proof.
  revert b. induction l as [|x l IH]; intros b Hb Hf; simpl; [done|].
  apply IH; [apply Hf; [by left | done]|]. intros b' y Hy. apply Hf. by right.
Qed.

Section Build.
Context (c : Cfg).
Notation exit := (commonExit c).
Notation chain := (bb_chain c).

(** The successors of the blocks and the predecessors of the common exit are
    blocks of the function. *)
Record registered : Prop := {
  rg_succs : forall v s, v ∈ chain -> v <> exit -> s ∈ GetSuccs c v -> s ∈ chain \/ s = exit;
  rg_preds : forall p, p ∈ GetPreds c exit -> p ∈ chain \/ p = exit
}.

Definition block_ids : gset nat := {[ exit ]} ∪ list_to_set chain.

Lemma elem_of_block_ids v : v ∈ block_ids <-> v = exit \/ v ∈ chain.
Proof. unfold block_ids. by rewrite elem_of_union, elem_of_singleton, elem_of_list_to_set. Qed.

(** A new edge between blocks *)
Definition fresh (e : BBUseEdge) : Prop :=
  inMST e = false /\ 0 <= weight e /\ e_valid e = false /\ e_countValue e = 0 /\
  srcBB e ∈ block_ids /\ destBB e ∈ block_ids.

Lemma AddEdge_fresh src dst w cr fk m :
  Forall fresh (allEdges m) -> 0 <= w -> src ∈ block_ids -> dst ∈ block_ids ->
  Forall fresh (allEdges (AddEdge src dst w cr fk m)).
Proof.
  intros Hm Hw Hs Hd. unfold AddEdge. simpl. case (existsb (joins src dst) (allEdges m)).
  - apply Forall_map. eapply Forall_impl; [exact Hm|]. intros e (H1 & H2 & H3). case (joins src dst e); [|done].
    split; [done|]. split; [apply Z.mod_pos_bound; lia | done].
  - apply Forall_app. split; [done|]. by repeat constructor.
Qed.

Lemma AddSucc_fresh v m s :
  Forall fresh (allEdges m) -> v ∈ block_ids -> s ∈ block_ids -> Forall fresh (allEdges (AddSucc c v m s)).
Proof.
  intros. unfold AddSucc. case (bool_decide (GetKind c s = kBBReturn)); [by apply AddEdge_fresh|].
  case (IsCritialEdge c v s); by apply AddEdge_fresh.
Qed.

Lemma AddSucc_groups v m s : bbGroups (AddSucc c v m s) = bbGroups m.
Proof.
  unfold AddSucc. case (bool_decide (GetKind c s = kBBReturn)); [done|]. by case (IsCritialEdge c v s).
Qed.

Lemma foldl_groups {A} (f : CFGMST -> A -> CFGMST) (l : list A) m :
  (forall m x, bbGroups (f m x) = bbGroups m) -> bbGroups (foldl f m l) = bbGroups m.
Proof. intros Hf. apply (foldl_inv (fun m' => bbGroups m' = bbGroups m)); [done|]. intros m' x _ <-. apply Hf. Qed.

Lemma AddBlock_groups m v : bbGroups (AddBlock c m v) = <[v := v]> (bbGroups m).
Proof.
  unfold AddBlock. case (v =? exit)%nat; [done|]. rewrite foldl_groups; [done | apply AddSucc_groups].
Qed.

Lemma BuildEdges_groups : bbGroups (BuildEdges c) = set_to_map (fun v => (v, v)) block_ids.
Proof.
  unfold BuildEdges, AddEdge at 1, SetGroup. cbn [bbGroups]. rewrite foldl_groups by done.
  apply map_eq. intros v.
  assert (Hl : forall l m, bbGroups (foldl (AddBlock c) m l) !! v = if decide (v ∈ l) then Some v else bbGroups m !! v).
  { induction l as [|u l IH]; intros m; [done|]. cbn [foldl]. rewrite IH, AddBlock_groups.
    destruct (decide (v ∈ l)); [by rewrite decide_True by (by right)|].
    destruct (decide (u = v)) as [->|Hne].
    - rewrite lookup_insert_eq. by rewrite decide_True by (by left).
    - rewrite lookup_insert_ne by done. rewrite decide_False; [done|]. intros [?|?]%elem_of_cons; congruence. }
  assert (Hset : (set_to_map (fun v => (v, v)) block_ids : gmap nat nat) !! v = if decide (v ∈ block_ids) then Some v else None).
  { case_decide as Hv.
    - apply lookup_set_to_map; [by intros ? ? _ _ [= ->]|]. by exists v.
    - apply eq_None_not_Some. intros [u Hu]. apply lookup_set_to_map in Hu; [|by intros ? ? _ _ [= ->]].
      destruct Hu as (w & Hw & [= -> ->]). done. }
  rewrite Hset. destruct (decide (exit = v)) as [<-|Hne].
  - rewrite lookup_insert_eq, decide_True; [done|]. apply elem_of_block_ids. by left.
  - rewrite lookup_insert_ne by done. rewrite Hl.
    destruct (decide (v ∈ chain)) as [Hv|Hv].
    + rewrite decide_True; [done|]. apply elem_of_block_ids. by right.
    + rewrite decide_False; [by apply lookup_empty|]. rewrite elem_of_block_ids. by intros [->|?].
Qed.

Lemma BuildEdges_fresh : registered -> Forall fresh (allEdges (BuildEdges c)).
Proof.
  intros [Hs Hp]. assert (Hin : forall v, v ∈ chain \/ v = exit -> v ∈ block_ids) by (intros v; rewrite elem_of_block_ids; tauto).
  unfold BuildEdges. apply AddEdge_fresh; [|lia| apply Hin; by right | apply Hin; left; by left].
  unfold SetGroup. cbn [allEdges]. apply (foldl_inv (fun m => Forall fresh (allEdges m))).
  - apply (foldl_inv (fun m => Forall fresh (allEdges m))); [constructor|].
    intros m v Hv Hm. unfold AddBlock. destruct (Nat.eqb_spec v exit) as [|Hne]; [done|].
    apply (foldl_inv (fun m => Forall fresh (allEdges m))); [done|].
    intros m' s Hsv Hm'. apply AddSucc_fresh; [done | apply Hin; by left | by eapply Hin, Hs].
  - intros m p Hpp Hm. apply AddEdge_fresh; [done | unfold kFakeExitEdgeWeight; lia | by apply Hin, Hp | apply Hin; by right].
Qed.

Lemma groups_start : groups_ok (bbGroups (BuildEdges c)) [].
Proof.
  rewrite BuildEdges_groups.
  assert (Hid : forall x y, (set_to_map (fun v => (v, v)) block_ids : gmap nat nat) !! x = Some y -> x = y).
  { intros x y Hx. apply lookup_set_to_map in Hx; [|by intros ? ? _ _ [= ->]]. by destruct Hx as (w & _ & [= -> ->]). }
  assert (Hroot : forall x r, root (set_to_map (fun v => (v, v)) block_ids) x r -> x = r).
  { intros x r [k [r' Hr|k' x' y r' Hx Hne _]]; [done|]. by apply Hid in Hx. }
  constructor.
  - intros x [y Hy]%elem_of_dom. pose proof (Hid _ _ Hy) as ->. exists y, 0%nat. by constructor.
  - intros a b Hin. by apply elem_of_nil in Hin.
  - intros x y r s <-%Hroot <-%Hroot. split; [intros ->; constructor|].
    induction 1 as [|? ? ? [Hin|Hin] _ _]; [done| |]; by apply elem_of_nil in Hin.
Qed.

(** The edges of the result are those of BuildEdges, sorted and marked. *)
Lemma ComputeMST_spec :
  registered ->
  wp (ComputeMST c) (fun m => Forall2 marked (stable_sort (allEdges (BuildEdges c))) (allEdges m) /\
    (length (allEdges m) <> 1%nat -> kruskal (allEdges m))).
Proof.
  intros Hr. unfold ComputeMST, SortEdges. cbn [allEdges bbGroups totalBB].
  set (es := stable_sort (allEdges (BuildEdges c))).
  destruct (Nat.eqb_spec (length es) 1) as [Hone|Hmany].
  - split; [|done]. cbn [allEdges]. generalize es. clear. induction es as [|e es IH]; constructor; [by left | done].
  - eapply wp_bind, wp_mono.
    + apply (MarkEdges_spec es [] _ groups_start kruskal_nil).
      unfold es. rewrite stable_sort_perm. eapply Forall_impl; [by apply BuildEdges_fresh|].
      intros e (H1 & _ & _ & _ & Hs & Hd). rewrite BuildEdges_groups.
      assert (Hdom : forall v, v ∈ block_ids -> v ∈ dom (set_to_map (fun v => (v, v)) block_ids : gmap nat nat)).
      { intros v Hv. apply elem_of_dom. exists v. apply lookup_set_to_map; [by intros ? ? _ _ [= ->]|]. by exists v. }
      split_and!; [done | by apply Hdom..].
    + intros [es' g'] [Hk Hm]. split; [done|]. intros _. exact Hk.
Qed.
End Build.
