(* ===== verification/CfgMstEdges.v ===== *)
(** * Edge profiles: the edges of a function

    For functions without critical edges: which edges BuildEdges enters, which
    blocks GetInstrumentBBs takes, and that what their counts leave open is a
    forest, if a counted block is taken apart into the side of its predecessors and
    that of its successors. *)
From stdpp Require Import gmap sets relations sorting.
From S2P Require Import Prelude.
From S2P Require Import CfgMst.
From S2P Require Import CfgMstFacts.

(** What is asked of the graph: the lists of successors and predecessors agree, the
    first block has successors and no predecessor, the predecessors of the common exit end the
    function, and no edge is critical. *)
Record wf_cfg (c : Cfg) : Prop := {
  wc_chain : NoDup (bb_chain c);
  wc_exit : commonExit c ∉ bb_chain c;
  wc_succs : forall v s, v ∈ bb_chain c -> s ∈ GetSuccs c v -> s ∈ bb_chain c /\ v ∈ GetPreds c s;
  wc_preds : forall v p, v ∈ bb_chain c -> p ∈ GetPreds c v -> p ∈ bb_chain c /\ v ∈ GetSuccs c p;
  wc_simple : forall v, v ∈ bb_chain c -> NoDup (GetSuccs c v);
  wc_entry : GetPreds c (firstBB c) = [] /\ GetSuccs c (firstBB c) <> [];
  wc_exits : NoDup (GetPreds c (commonExit c)) /\ GetPreds c (commonExit c) <> [];
  wc_last : forall p, p ∈ GetPreds c (commonExit c) -> p ∈ bb_chain c /\ GetSuccs c p = [] /\ GetPreds c p <> [];
  wc_critical : forall v s, v ∈ bb_chain c -> s ∈ GetSuccs c v -> IsCritialEdge c v s = false;
  wc_size : Z.of_nat (length (allEdges (BuildEdges c)) + length (bb_chain c)) < 2 ^ 31
}.

Section Edges.
Context (c : Cfg) (Hc : wf_cfg c).
Notation exit := (commonExit c).
Notation first := (firstBB c).
Notation chain := (bb_chain c).

Lemma wf_registered : registered c.
Proof.
  constructor.
  - intros v s Hv _ Hs. left. by apply (wc_succs _ Hc v).
  - intros p Hp. left. by apply (wc_last _ Hc).
Qed.

(** ** BuildEdges *)

Definition succ_weight (s : nat) : Z := if decide (GetKind c s = kBBReturn) then kExitEdgeWeight else kNormalEdgeWeight.
Definition succ_edge (v s : nat) : BBUseEdge := BBEdge_new v s (succ_weight s) false false.
Definition block_edges (v : nat) : list BBUseEdge := map (succ_edge v) (GetSuccs c v).
Definition exit_edge (p : nat) : BBUseEdge := BBEdge_new p exit kFakeExitEdgeWeight false true.
Definition back_edge : BBUseEdge := BBEdge_new exit first (2 ^ 64 - 1) false true.
Definition build_edges : list BBUseEdge := (chain ≫= block_edges) ++ map exit_edge (GetPreds c exit) ++ [back_edge].

Lemma AddEdge_new src dst w cr fk m :
  (src, dst) ∉ map ends (allEdges m) ->
  AddEdge src dst w cr fk m = MkCFGMST (allEdges m ++ [BBEdge_new src dst w cr fk]) (bbGroups m) (totalBB m).
Proof.
  intros Hnew. unfold AddEdge. destruct (existsb (joins src dst) (allEdges m)) eqn:Hex; [|done].
  destruct Hnew. apply existsb_exists in Hex as (e & He & Hj). unfold joins in Hj.
  apply andb_true_iff in Hj as [<-%Nat.eqb_eq <-%Nat.eqb_eq].
  apply list_elem_of_fmap. exists e. split; [done|]. by apply list_elem_of_In.
Qed.

(** Edges between new pairs of blocks are added in their order. *)
Lemma foldl_AddEdge {A : Type} (f : CFGMST -> A -> CFGMST) (h : A -> BBUseEdge) (l : list A) m :
  (forall m x, x ∈ l -> ends (h x) ∉ map ends (allEdges m) -> allEdges (f m x) = allEdges m ++ [h x]) ->
  NoDup (map ends (allEdges m ++ map h l)) ->
  allEdges (foldl f m l) = allEdges m ++ map h l.
Proof.
  revert m. induction l as [|x l IH]; intros m Hf Hnd; cbn [foldl map]; [by rewrite app_nil_r|].
  assert (Hx : allEdges (f m x) = allEdges m ++ [h x]).
  { apply Hf; [by left|]. rewrite map_app in Hnd. apply NoDup_app in Hnd as (_ & Hdis & _).
    intros Hin. apply (Hdis _ Hin). simpl. by left. }
  rewrite IH, Hx, <- app_assoc; [done| |].
  - intros m' y Hy. apply Hf. by right.
  - by rewrite Hx, <- app_assoc.
Qed.

Lemma AddSucc_new v s m :
  v ∈ chain -> s ∈ GetSuccs c v -> ends (succ_edge v s) ∉ map ends (allEdges m) ->
  allEdges (AddSucc c v m s) = allEdges m ++ [succ_edge v s].
Proof.
  intros Hv Hs Hnew. unfold AddSucc, succ_edge, succ_weight.
  destruct (decide (GetKind c s = kBBReturn)) as [Hk|Hk].
  - rewrite bool_decide_eq_true_2 by done. by rewrite AddEdge_new.
  - rewrite bool_decide_eq_false_2 by done. rewrite (wc_critical _ Hc) by done. by rewrite AddEdge_new.
Qed.

Lemma foldl_AddBlock l m :
  l ⊆ chain -> NoDup (map ends (allEdges m ++ (l ≫= block_edges))) ->
  allEdges (foldl (AddBlock c) m l) = allEdges m ++ (l ≫= block_edges).
Proof.
  revert m. induction l as [|v l IH]; intros m Hl Hnd; [simpl; by rewrite app_nil_r|].
  cbn [foldl]. rewrite bind_cons in Hnd |- *. rewrite app_assoc in Hnd |- *.
  assert (Hv : v ∈ chain) by (apply Hl; by left).
  assert (Hx : allEdges (AddBlock c m v) = allEdges m ++ block_edges v).
  { unfold AddBlock. destruct (Nat.eqb_spec v exit) as [->|_]; [by destruct (wc_exit _ Hc)|].
    etrans; [apply (foldl_AddEdge (AddSucc c v) (succ_edge v))|done].
    - intros m' s Hs. by apply AddSucc_new.
    - cbn [allEdges SetGroup]. rewrite map_app in Hnd. by apply NoDup_app in Hnd as (? & _ & _). }
  rewrite IH; [by rewrite Hx | | by rewrite Hx]. intros u Hu. apply Hl. by right.
Qed.

(** The pairs of blocks that edges join *)
Definition is_edge (v s : nat) : Prop :=
  v ∈ chain /\ s ∈ GetSuccs c v \/ v ∈ GetPreds c exit /\ s = exit \/ v = exit /\ s = first.

Lemma elem_of_build_edges e :
  e ∈ build_edges <->
  (exists v s, v ∈ chain /\ s ∈ GetSuccs c v /\ e = succ_edge v s) \/
  (exists p, p ∈ GetPreds c exit /\ e = exit_edge p) \/ e = back_edge.
Proof.
  unfold build_edges. rewrite !elem_of_app, list_elem_of_bind, list_elem_of_singleton, list_elem_of_fmap.
  unfold block_edges. setoid_rewrite list_elem_of_fmap. naive_solver.
Qed.

Lemma first_in_chain : first ∈ chain.
Proof. by left. Qed.

Lemma exit_not_succ v s : v ∈ chain -> s ∈ GetSuccs c v -> s <> exit.
Proof. intros Hv Hs ->. apply (wc_exit _ Hc). by apply (wc_succs _ Hc v). Qed.

Lemma first_not_succ v : v ∈ chain -> first ∉ GetSuccs c v.
Proof. intros Hv Hs. destruct (wc_succs _ Hc v first Hv Hs) as [_ Hp]. by rewrite (proj1 (wc_entry _ Hc)) in Hp; apply elem_of_nil in Hp. Qed.

Lemma build_edges_NoDup : NoDup (map ends build_edges).
Proof.
  unfold build_edges. rewrite !map_app. apply NoDup_app. split_and!.
  - assert (Hgen : forall l, NoDup l -> l ⊆ chain -> NoDup (map ends (l ≫= block_edges))).
    { induction l as [|v l IH]; intros Hnd Hl; [constructor|]. apply NoDup_cons in Hnd as [Hv Hnd].
      rewrite bind_cons, map_app. apply NoDup_app. split_and!.
      - unfold block_edges. rewrite map_map. apply NoDup_fmap_2_strong; [by intros ? ? _ _ [= ->]|].
        apply (wc_simple _ Hc), Hl. by left.
      - intros p (e & -> & He)%list_elem_of_fmap (e' & Heq & He')%list_elem_of_fmap.
        apply list_elem_of_fmap in He as (s & -> & _). apply list_elem_of_bind in He' as (u & He' & Hu).
        apply list_elem_of_fmap in He' as (s' & -> & _). injection Heq as -> _. done.
      - apply IH; [done|]. intros u Hu. apply Hl. by right. }
    apply Hgen; [apply Hc | done].
  - intros p (e & -> & He)%list_elem_of_fmap Hin. apply list_elem_of_bind in He as (v & He & Hv).
    apply list_elem_of_fmap in He as (s & -> & Hs).
    pose proof (exit_not_succ v s Hv Hs) as Hne.
    apply elem_of_app in Hin as [(e' & Heq & (p & -> & _)%list_elem_of_fmap)%list_elem_of_fmap|Hin].
    + injection Heq as _ ->. done.
    + apply list_elem_of_singleton in Hin. injection Hin as -> _. by apply (wc_exit _ Hc).
  - apply NoDup_app. split_and!; [|  | apply NoDup_singleton].
    + rewrite map_map. apply NoDup_fmap_2_strong; [by intros ? ? _ _ [= ->]|]. apply (wc_exits _ Hc).
    + intros p (e & -> & (q & -> & _)%list_elem_of_fmap)%list_elem_of_fmap Hin%list_elem_of_singleton.
      injection Hin as _ Hx. apply (wc_exit _ Hc). rewrite Hx. by left.
Qed.

Lemma BuildEdges_edges : allEdges (BuildEdges c) = build_edges.
Proof.
  pose proof build_edges_NoDup as Hnd. unfold build_edges in Hnd. rewrite app_assoc, map_app in Hnd.
  apply NoDup_app in Hnd as (Hnd & Hback & _). unfold BuildEdges.
  assert (Hblocks : allEdges (foldl (AddBlock c) CFGMST_empty chain) = chain ≫= block_edges).
  { apply (foldl_AddBlock chain CFGMST_empty); [done|]. rewrite map_app in Hnd. by apply NoDup_app in Hnd as (? & _ & _). }
  assert (Hexits : allEdges (foldl (fun m bb => AddEdge bb exit kFakeExitEdgeWeight false true m)
    (foldl (AddBlock c) CFGMST_empty chain) (GetPreds c exit)) = (chain ≫= block_edges) ++ map exit_edge (GetPreds c exit)).
  { rewrite <- Hblocks. apply (foldl_AddEdge _ exit_edge).
    - intros m p _ Hnew. by rewrite AddEdge_new.
    - by rewrite Hblocks. }
  rewrite AddEdge_new; unfold SetGroup; cbn [allEdges]; rewrite Hexits.
  - unfold build_edges. by rewrite app_assoc.
  - intros Hin. apply (Hback _ Hin). by left.
Qed.

Lemma is_edge_build v s : is_edge v s <-> (v, s) ∈ map ends build_edges.
Proof.
  unfold is_edge. rewrite list_elem_of_fmap. setoid_rewrite elem_of_build_edges. split.
  - intros [[Hv Hs]|[[Hv ->]|[-> ->]]].
    + exists (succ_edge v s). split; [done|]. left. by exists v, s.
    + exists (exit_edge v). split; [done|]. right. left. by exists v.
    + exists back_edge. split; [done|]. by right; right.
  - intros (e & Heq & [(v' & s' & Hv & Hs & ->)|[(p & Hp & ->)| ->]]); injection Heq as -> ->; tauto.
Qed.

(** ** The sorted edges *)

Definition edge_weight (v s : nat) : Z :=
  if decide (v = exit) then 2 ^ 64 - 1 else if decide (s = exit) then kFakeExitEdgeWeight else succ_weight s.

Lemma marked_map es1 es2 : Forall2 marked es1 es2 -> map ends es2 = map ends es1.
Proof. induction 1 as [|e e' es1 es2 [He _]%marked_ends _ IH]; simpl; [done|]. by rewrite He, IH. Qed.

Lemma marked_Forall (P : BBUseEdge -> Prop) es1 es2 :
  (forall e e', marked e e' -> P e -> P e') -> Forall2 marked es1 es2 -> Forall P es1 -> Forall P es2.
Proof.
  intros HP. induction 1 as [|e e' es1 es2 Hee _ IH]; intros Hall; [constructor|].
  apply Forall_cons in Hall as [He Hall]. constructor; [by eapply HP | by apply IH].
Qed.

Lemma marked_descending es1 es2 : Forall2 marked es1 es2 -> descending es1 -> descending es2.
Proof.
  unfold descending. induction 1 as [|e e' es1 es2 Hee Hes IH]; intros Hd; [constructor|].
  inversion Hd as [|? ? Hs Hall]; subst. constructor; [by apply IH|].
  destruct (marked_ends _ _ Hee) as (_ & -> & _). eapply marked_Forall; [|exact Hes|exact Hall].
  intros x x' Hx. by destruct (marked_ends _ _ Hx) as (_ & -> & _).
Qed.

Section Marked.
Context (m : CFGMST) (Hm : Forall2 marked (stable_sort build_edges) (allEdges m)) (Hk : kruskal (allEdges m)).
Notation es := (allEdges m).

Lemma es_NoDup : NoDup (map ends es).
Proof. rewrite (marked_map _ _ Hm), (stable_sort_perm build_edges). apply build_edges_NoDup. Qed.

Lemma is_edge_es v s : is_edge v s <-> exists e, e ∈ es /\ ends e = (v, s).
Proof.
  rewrite is_edge_build. rewrite <- (stable_sort_perm build_edges), <- (marked_map _ _ Hm), list_elem_of_fmap.
  split; intros (e & ? & ?); by exists e.
Qed.

(** What the marks leave of a new edge *)
Definition plain (e : BBUseEdge) : Prop :=
  is_edge (srcBB e) (destBB e) /\ isCritical e = false /\ weight e = edge_weight (srcBB e) (destBB e) /\
  e_valid e = false /\ e_countValue e = 0.

Lemma build_plain e : e ∈ build_edges -> plain e.
Proof.
  intros He. split; [apply is_edge_build, list_elem_of_fmap; by exists e|]. unfold edge_weight.
  apply elem_of_build_edges in He as [(v & s & Hv & Hs & ->)|[(p & Hp & ->)| ->]]; cbn.
  - rewrite decide_False by (intros ->; by apply (wc_exit _ Hc)).
    by rewrite decide_False by (by eapply exit_not_succ).
  - rewrite decide_False by (intros ->; apply (wc_exit _ Hc); by apply (wc_last _ Hc)). by rewrite decide_True.
  - by rewrite decide_True.
Qed.

Lemma es_plain e : e ∈ es -> plain e.
Proof.
  intros He. assert (Hall : Forall plain es); [|rewrite Forall_forall in Hall; by apply Hall].
  assert (Hsorted : Forall plain (stable_sort build_edges)).
  { rewrite stable_sort_perm. apply Forall_forall. apply build_plain. }
  eapply marked_Forall; [|exact Hm|exact Hsorted]. intros e1 e2 Hee (H1 & H2 & H3 & H4 & H5).
  destruct (marked_ends _ _ Hee) as (Hends & Hw & Hcr & Hv & Hcount). injection Hends as Hs Hd.
  unfold plain. by rewrite Hs, Hd, Hw, Hcr, Hv, Hcount.
Qed.

(** ** The edge from the common exit is in the tree *)

Lemma back_in_tree e : e ∈ es -> srcBB e = exit -> inMST e = true.
Proof.
  intros He Hsrc. destruct (inMST e) eqn:Hin; [done|].
  destruct (list_elem_of_split _ _ He) as (P & Q & Hsplit).
  pose proof Hk as Hk'. rewrite Hsplit in Hk'. pose proof (kruskal_before _ _ _ Hk' Hin) as Hl.
  assert (Hdst : destBB e = first).
  { destruct (es_plain e He) as ([[Hv _]|[[Hp _]|[_ ?]]] & _); [| |done]; rewrite Hsrc in *.
    - by destruct (wc_exit _ Hc).
    - destruct (wc_exit _ Hc). by apply (wc_last _ Hc). }
  assert (HP : P = []).
  { destruct P as [|e' P]; [done|]. exfalso.
    assert (He' : e' ∈ es) by (rewrite Hsplit; by left).
    assert (Hw : weight e <= weight e').
    { pose proof (marked_descending _ _ Hm (stable_sort_descending build_edges)) as Hd. unfold descending in Hd. rewrite Hsplit in Hd. inversion Hd as [|? ? _ Hall]; subst.
      rewrite Forall_forall in Hall. apply Hall. apply elem_of_app. right. by left. }
    destruct (es_plain e He) as (_ & _ & Hwe & _), (es_plain e' He') as (Hie & _ & Hwe' & _).
    rewrite Hwe, Hwe' in Hw. unfold edge_weight in Hw. rewrite (decide_True _ _ Hsrc) in Hw.
    destruct (decide (srcBB e' = exit)) as [Hsrc'|Hsrc'].
    - assert (Hends : ends e' = ends e).
      { destruct Hie as [[Hv _]|[[Hp _]|[_ Hd]]].
        - rewrite Hsrc' in Hv. by destruct (wc_exit _ Hc).
        - rewrite Hsrc' in Hp. destruct (wc_exit _ Hc). by apply (wc_last _ Hc).
        - unfold ends. by rewrite Hsrc, Hsrc', Hdst, Hd. }
      pose proof es_NoDup as Hnd. rewrite Hsplit in Hnd. simpl in Hnd. apply NoDup_cons in Hnd as [Hnd _].
      apply Hnd. rewrite Hends. apply list_elem_of_fmap. exists e. split; [done|]. apply elem_of_app. right. by left.
    - unfold kFakeExitEdgeWeight, succ_weight, kExitEdgeWeight, kNormalEdgeWeight in Hw.
      repeat case_decide; lia. }
  subst P. rewrite Hsrc, Hdst in Hl.
  assert (Hef : exit = first).
  { inversion Hl as [Heq|? ? ? [?%elem_of_nil|?%elem_of_nil] _]; [congruence | done..]. }
  destruct (wc_exit _ Hc). rewrite Hef. by left.
Qed.

(** ** The instrumented blocks *)

Definition pick_bb (e : BBUseEdge) : nat :=
  if (length (GetSuccs c (srcBB e)) <=? 1)%nat then if (srcBB e =? first)%nat then destBB e else srcBB e else destBB e.
Definition iBBs : list nat := map pick_bb (GetInstrumentEdges m).

Lemma GetInstrumentBBs_picks : GetInstrumentBBs c m = Ret iBBs.
Proof.
  unfold GetInstrumentBBs, iBBs.
  assert (Hgen : forall l bbs vis, (forall e, e ∈ l -> isCritical e = false) ->
    InstrumentEdges c l (bbs, vis) = Ret (bbs ++ map pick_bb l, vis)).
  { induction l as [|e l IH]; intros bbs vis Hl; [simpl; by rewrite app_nil_r|]. cbn [InstrumentEdges].
    assert (He : InstrumentEdge c e (bbs, vis) = Ret (bbs ++ [pick_bb e], vis)).
    { unfold InstrumentEdge, pick_bb. rewrite (Hl e) by (by left). by destruct (length (GetSuccs c (srcBB e)) <=? 1)%nat. }
    rewrite He. cbn. rewrite IH by (intros e' He'; apply Hl; by right). by rewrite <- app_assoc. }
  rewrite Hgen; [done|]. intros e He. apply list_elem_of_filter in He as [_ He]. by apply es_plain.
Qed.

Lemma exit_not_counted : exit ∉ iBBs.
Proof.
  intros (e & Hpick & He)%list_elem_of_fmap. apply list_elem_of_filter in He as [Hout He].
  assert (Hsrc : srcBB e <> exit) by (intros Hs; rewrite (back_in_tree e He Hs) in Hout; done).
  unfold pick_bb in Hpick. destruct (es_plain e He) as ([[Hv Hs]|[[Hp Hd]|[? _]]] & _); [| |done].
  - pose proof (exit_not_succ _ _ Hv Hs). repeat case_match; congruence.
  - destruct (wc_last _ Hc _ Hp) as (_ & Hsucc & Hpred). rewrite Hsucc in Hpick. simpl in Hpick.
    destruct (Nat.eqb_spec (srcBB e) first) as [Hf|]; [|congruence]. rewrite Hf, (proj1 (wc_entry _ Hc)) in Hpred. done.
Qed.

Lemma short_list {A} (l : list A) x y : (length l <= 1)%nat -> x ∈ l -> y ∈ l -> x = y.
Proof.
  destruct l as [|a [|b l]]; simpl; intros Hl Hx Hy; [by apply elem_of_nil in Hx| |lia].
  apply list_elem_of_singleton in Hx, Hy. congruence.
Qed.

(** How the count of an edge that is not in the tree is known *)
Lemma counted e :
  e ∈ es -> inMST e = false ->
  (srcBB e ∈ iBBs /\ forall s, is_edge (srcBB e) s -> s = destBB e) \/
  (destBB e ∈ iBBs /\ forall v, is_edge v (destBB e) -> v = srcBB e) \/
  (srcBB e = first /\ GetSuccs c first = [destBB e] /\ destBB e ∈ iBBs).
Proof.
  intros He Hout. assert (Hsrc : srcBB e <> exit) by (intros Hs; rewrite (back_in_tree e He Hs) in Hout; done).
  assert (Hin : pick_bb e ∈ iBBs).
  { apply list_elem_of_fmap. exists e. split; [done|]. by apply list_elem_of_filter. }
  unfold pick_bb in Hin. destruct (es_plain e He) as ([[Hv Hs]|[[Hp Hd]|[? _]]] & _); [| |done].
  - destruct (Nat.leb_spec (length (GetSuccs c (srcBB e))) 1) as [Hfew|Hmany].
    + destruct (Nat.eqb_spec (srcBB e) first) as [Hf|Hf].
      * right. right. split_and!; [done | | done]. rewrite Hf in Hs, Hfew.
        destruct (GetSuccs c first) as [|a [|b l]]; [by apply elem_of_nil in Hs | | simpl in Hfew; lia].
        apply list_elem_of_singleton in Hs. by rewrite Hs.
      * left. split; [done|]. intros s [[_ Hs']|[[Hp _]|[? _]]]; [by eapply short_list | | done].
        destruct (wc_last _ Hc _ Hp) as (_ & Hnil & _). rewrite Hnil in Hs. by apply elem_of_nil in Hs.
    + right. left. split; [done|]. pose proof (wc_critical _ Hc _ _ Hv Hs) as Hcr. unfold IsCritialEdge in Hcr.
      apply andb_false_iff in Hcr as [Hcr%Nat.ltb_ge|Hcr%Nat.ltb_ge]; [lia|].
      intros v [[Hv' Hs']|[[_ Hd]|[_ Hd]]].
      * apply (short_list (GetPreds c (destBB e))); [done | by apply (wc_succs _ Hc v) | by apply (wc_succs _ Hc)].
      * by destruct (exit_not_succ _ _ Hv Hs).
      * rewrite Hd in Hs. by destruct (first_not_succ _ Hv).
  - destruct (wc_last _ Hc _ Hp) as (_ & Hnil & Hpred). rewrite Hnil in Hin. simpl in Hin.
    destruct (Nat.eqb_spec (srcBB e) first) as [Hf|]; [rewrite Hf, (proj1 (wc_entry _ Hc)) in Hpred; done|].
    left. split; [done|]. intros s [[_ Hs]|[[_ ->]|[? _]]]; [|done..]. rewrite Hnil in Hs. by apply elem_of_nil in Hs.
Qed.

(** ** The unknown edges are a forest *)

Lemma split_unique {A B} (f : A -> B) P P' x y Q Q' :
  NoDup (map f (P ++ x :: Q)) -> P ++ x :: Q = P' ++ y :: Q' -> f x = f y -> P = P' /\ x = y.
Proof.
  intros Hnd Heq Hf. assert (Hlen : length P = length P').
  { change (NoDup (f <$> (P ++ x :: Q))) in Hnd.
    apply (NoDup_lookup _ _ _ (f x) Hnd); rewrite list_lookup_fmap; [|rewrite Heq, Hf];
      rewrite lookup_app_r, Nat.sub_diag by done; done. }
  apply app_inj_1 in Heq as [-> [= -> _]]; done.
Qed.

(** If the only edge from the first block is not in the tree, then it comes before
    the other edges to its block. *)
Lemma entry_edge_first P e Q g :
  es = P ++ e :: Q -> srcBB e = first -> GetSuccs c first = [destBB e] -> g ∈ P -> destBB g <> destBB e.
Proof.
  intros Hsplit Hsrc Hsucc Hg Hdst.
  assert (Hin : destBB e ∈ GetSuccs c first) by (rewrite Hsucc; by left).
  assert (Hbuild : exists rest, build_edges = succ_edge first (destBB e) :: rest).
  { unfold build_edges, bb_chain. rewrite bind_cons. unfold block_edges at 1. rewrite Hsucc. by eexists. }
  destruct Hbuild as [rest Hrest]. pose proof Hm as Hm'. rewrite Hrest in Hm'. cbn [stable_sort foldr] in Hm'.
  destruct (insert_edge_split (succ_edge first (destBB e)) (foldr insert_edge [] rest)) as (P0 & Q0 & Hins & Hheavy).
  rewrite Hins in Hm'. apply Forall2_app_inv_l in Hm' as (P1 & tl & HP & Htl & Hes).
  apply Forall2_cons_inv_l in Htl as (e1 & Q1 & He1 & _ & ->).
  destruct (marked_ends _ _ He1) as (Hends & _).
  pose proof es_NoDup as Hnd. rewrite Hsplit in Hnd.
  destruct (split_unique ends P P1 e e1 Q Q1 Hnd) as [-> _].
  { by rewrite <- Hsplit. }
  { rewrite Hends. unfold ends. by rewrite Hsrc. }
  assert (Hw : weight (succ_edge first (destBB e)) < weight g).
  { assert (Hall : Forall (fun e' => weight (succ_edge first (destBB e)) < weight e') P1).
    { eapply marked_Forall; [|exact HP|exact Hheavy]. intros x x' Hx. by destruct (marked_ends _ _ Hx) as (_ & -> & _). }
    rewrite Forall_forall in Hall. by apply Hall. }
  assert (Hges : g ∈ es) by (rewrite Hsplit; apply elem_of_app; by left).
  destruct (es_plain g Hges) as (Hedge & _ & Hwg & _). rewrite Hwg in Hw. unfold edge_weight in Hw.
  pose proof (exit_not_succ first _ first_in_chain Hin) as Hne.
  rewrite Hdst, (decide_False (P := destBB e = exit)) in Hw by done. cbn in Hw.
  case_decide as Hs; [|lia]. rewrite Hs, Hdst in Hedge.
  destruct Hedge as [[Hv _]|[[Hp _]|[_ Hd]]].
  - by destruct (wc_exit _ Hc).
  - destruct (wc_exit _ Hc). by apply (wc_last _ Hc).
  - rewrite Hd in Hin. by destruct (first_not_succ first first_in_chain).
Qed.

(** A counted block has two sides. *)
Definition node : Type := nat * option bool.
Definition out_node (v : nat) : node := (v, if decide (v ∈ iBBs) then Some true else None).
Definition in_node (v : nat) : node := (v, if decide (v ∈ iBBs) then Some false else None).
Definition sides (e : nat * nat) : node * node := (out_node (fst e), in_node (snd e)).

Lemma sides_fst X : map (both fst) (map sides X) = X.
Proof. rewrite map_map. rewrite <- (list_fmap_id X) at 2. apply list_fmap_ext. by intros i [a b] _. Qed.

Lemma in_node_counted a v : a ∈ iBBs -> in_node v = in_node a -> v = a.
Proof. intros _ [= ? _]. done. Qed.

Lemma out_node_not_in a v : a ∈ iBBs -> out_node v <> in_node a.
Proof.
  intros Ha. unfold out_node, in_node. rewrite (decide_True (P := a ∈ iBBs)) by done. intros [= -> Hx]. revert Hx.
  by case_decide.
Qed.

(** A path to the side of the predecessors of a counted block has a last edge. *)
Lemma last_edge X x a :
  a ∈ iBBs -> linked (map sides X) x (in_node a) -> x <> in_node a ->
  exists b, (b, a) ∈ X /\ linked (filter (fun e => snd e <> a) X) (fst x) b.
Proof.
  intros Ha. remember (in_node a) as y eqn:Hy. induction 1 as [|x z y Hxz Hzy IH]; intros Hne; [done|]. subst y.
  assert (Hends : exists u v, (u, v) ∈ X /\ (x = out_node u /\ z = in_node v \/ z = out_node u /\ x = in_node v)).
  { destruct Hxz as [Hin|Hin]; apply list_elem_of_fmap in Hin as ([u v] & Heq & Hin); injection Heq as -> ->;
      exists u, v; split; [done | by left | done | by right]. }
  destruct Hends as (u & v & Huv & Hcase).
  destruct (decide (z = in_node a)) as [Hz|Hz].
  - destruct Hcase as [[-> ->]|[-> _]]; [|by destruct (out_node_not_in a u Ha)].
    apply in_node_counted in Hz as ->; [|done]. exists u. split; [done | constructor].
  - destruct (IH eq_refl Hz) as (b & Hb & Hl). exists b. split; [done|].
    assert (Hva : v <> a) by (intros ->; destruct Hcase as [[_ ?]|[_ ?]]; done).
    assert (Hstep : adj (filter (fun e => snd e <> a) X) (fst x) (fst z)).
    { destruct Hcase as [[-> ->]|[-> ->]]; [left | right]; by apply list_elem_of_filter. }
    eapply rtc_l; [exact Hstep | exact Hl].
Qed.

(** The edge from the first block whose count nothing gives directly *)
Definition entry_edge (p : nat * nat) : Prop := fst p = first /\ GetSuccs c first = [snd p] /\ snd p ∈ iBBs.

Lemma entry_edge_apart (X : list (nat * nat)) e :
  (forall p, p ∈ X -> p ∈ tree es) -> e ∈ es -> inMST e = false -> entry_edge (ends e) ->
  ~ linked (map sides X) (out_node (srcBB e)) (in_node (destBB e)).
Proof.
  intros HX He Hout (Hsrc & Hsucc & Hcnt) Hl. cbn [ends fst snd] in *.
  apply last_edge in Hl as (b & Hb & Hl); [|done | by apply out_node_not_in]. cbn [out_node fst] in Hl.
  pose proof (kruskal_forest _ Hk) as Hforest.
  apply (bridge _ b (destBB e) Hforest (HX _ Hb)).
  destruct (list_elem_of_split _ _ He) as (P & Q & Hsplit).
  pose proof Hk as Hk'. rewrite Hsplit in Hk'. pose proof (kruskal_before _ _ _ Hk' Hout) as Hbefore.
  eapply linked_trans; [apply linked_sym; eapply linked_mono, Hl | eapply linked_mono, Hbefore].
  - intros [u v] [Hv Hin]%list_elem_of_filter. apply list_elem_of_filter. split; [|by apply HX].
    intros [= -> ->]. by apply Hv.
  - intros [u v] Huv. apply list_elem_of_fmap in Huv as (g & Hg & Hin). injection Hg as -> ->.
    apply list_elem_of_filter in Hin as [Hgm Hgp]. apply list_elem_of_filter. split.
    + intros [= _ Hd]. by apply (entry_edge_first P e Q g Hsplit Hsrc Hsucc Hgp).
    + apply list_elem_of_fmap. exists g. split; [done|]. apply list_elem_of_filter. split; [done|].
      rewrite Hsplit. apply elem_of_app. by left.
Qed.

(** If an edge is unknown, then some side of a block other than the common exit has
    exactly one. *)
Lemma one_unknown (unknown : nat * nat -> Prop) `{forall p, Decision (unknown p)} :
  (forall e, e ∈ es -> unknown (ends e) -> inMST e = true \/ entry_edge (ends e)) ->
  (exists e, e ∈ es /\ unknown (ends e)) ->
  exists u e, u <> in_node exit /\ u <> out_node exit /\ e ∈ es /\ unknown (ends e) /\ touches u (sides (ends e)) /\
    forall e', e' ∈ es -> unknown (ends e') -> touches u (sides (ends e')) -> ends e' = ends e.
Proof.
  intros Hopen (e0 & He0 & Hu0).
  (* the unknown edges, those of the tree first *)
  set (X := filter unknown (tree es)). set (Y := filter (fun e => inMST e = false /\ unknown (ends e)) es).
  assert (HX : forall p, p ∈ X -> p ∈ tree es) by (intros p [_ ?]%list_elem_of_filter; done).
  assert (HY : exists Y', (forall e, e ∈ Y -> ends e ∈ Y') /\ (forall p, p ∈ Y' -> exists e, e ∈ Y /\ ends e = p) /\
    forest (map sides (X ++ Y'))).
  { assert (HfX : forest (map sides X)).
    { apply (forest_unmap fst). rewrite sides_fst. apply forest_filter, kruskal_forest, Hk. }
    destruct Y as [|e Y0] eqn:HYe.
    - exists []. split_and!; [intros e He; by apply elem_of_nil in He | intros p Hp; by apply elem_of_nil in Hp |].
      by rewrite app_nil_r.
    - assert (HeY : e ∈ Y) by (rewrite HYe; by left). apply list_elem_of_filter in HeY as [[Hout Hun] Hees].
      destruct (Hopen e Hees Hun) as [?|Hentry]; [congruence|].
      exists [ends e]. split_and!.
      + intros e' He'. rewrite <- HYe in He'. apply list_elem_of_filter in He' as [[Hout' Hun'] Hees'].
        destruct (Hopen e' Hees' Hun') as [?|Hentry']; [congruence|]. destruct Hentry as (H1 & H2 & _), Hentry' as (H3 & H4 & _).
        apply list_elem_of_singleton. destruct (ends e), (ends e'). simpl in *. congruence.
      + intros p ->%list_elem_of_singleton. exists e. split; [by left | done].
      + rewrite map_app. apply forest_snoc; [done|]. by apply entry_edge_apart. }
  destruct HY as (Y' & HY1 & HY2 & Hforest).
  assert (Hall : forall p, p ∈ X ++ Y' <-> exists e, e ∈ es /\ unknown (ends e) /\ ends e = p).
  { intros p. rewrite elem_of_app. split.
    - intros [[Hp Hin]%list_elem_of_filter|(e & [[_ Hun] Hin]%list_elem_of_filter & <-)%HY2]; [|by exists e].
      apply list_elem_of_fmap in Hin as (e & -> & [_ Hin]%list_elem_of_filter). by exists e.
    - intros (e & Hin & Hun & <-). destruct (inMST e) eqn:Hmst.
      + left. apply list_elem_of_filter. split; [done|]. apply list_elem_of_fmap. exists e. split; [done|].
        by apply list_elem_of_filter.
      + right. apply HY1. by apply list_elem_of_filter. }
  set (Z0 := X ++ Y') in *.
  (* a leaf that is not the common exit *)
  assert (Hleaf : exists u, u <> in_node exit /\ degree (map sides Z0) u = 1%nat).
  { assert (Hsome : forall v, degree (map sides Z0) v <> 0%nat ->
      exists u, u <> v /\ linked (map sides Z0) v u /\ degree (map sides Z0) u = 1%nat) by (intros v; by apply leaf).
    destruct (decide (degree (map sides Z0) (in_node exit) = 0%nat)) as [Hz|Hz].
    - destruct (Hsome (in_node (destBB e0))) as (u & _ & _ & Hd).
      + unfold degree. intros Hlen%length_zero_iff_nil. assert (Hin : sides (ends e0) ∈ filter (touches (in_node (destBB e0))) (map sides Z0)).
        { apply list_elem_of_filter. split; [by right|]. apply list_elem_of_fmap_2, Hall. by exists e0. }
        rewrite Hlen in Hin. by apply elem_of_nil in Hin.
      + exists u. split; [intros ->; lia | done].
    - destruct (Hsome _ Hz) as (u & Hne & _ & Hd). by exists u. }
  destruct Hleaf as (u & Hu & Hd). unfold degree in Hd.
  destruct (filter (touches u) (map sides Z0)) as [|q [|? ?]] eqn:Hf; [done | | done].
  assert (Hq : q ∈ filter (touches u) (map sides Z0)) by (rewrite Hf; by left).
  apply list_elem_of_filter in Hq as [Ht Hq]. apply list_elem_of_fmap in Hq as (p & -> & Hp).
  apply Hall in Hp as (e & He & Hun & <-). exists u, e.
  split_and!; [done | | done..|].
  - intros ->. unfold in_node, out_node in Hu. destruct (decide (exit ∈ iBBs)); [by apply exit_not_counted | done].
  - intros e' He' Hun' Ht'. assert (Hq' : sides (ends e') ∈ filter (touches u) (map sides Z0)).
    { apply list_elem_of_filter. split; [done|]. apply list_elem_of_fmap_2, Hall. by exists e'. }
    rewrite Hf in Hq'. apply list_elem_of_singleton in Hq'.
    destruct (ends e'), (ends e). unfold sides, out_node, in_node in Hq'. simpl in Hq'. by injection Hq' as -> _ -> _.
Qed.
End Marked.
End Edges.
