(* ===== verification/ProfUse.v ===== *)
(** * Edge profiles: counts from the profile

    The part of the class CGProfUse (maple_be/src/cg/cg_pgo_use.cpp) that reads the
    counts of the instrumented blocks and computes those of all blocks and edges,
    with BBUseInfo of maple_pgo/include/instrument.h.  The layout of the blocks
    that follows is not modelled.

    The state has the edges of allEdges and the map bbProfileInfo; the lists of
    edges in a BBUseInfo are places in allEdges. *)
From stdpp Require Import gmap sets.
From S2P Require Import Prelude.
From S2P Require Import CfgMst.

Record BBUseInfo : Type := MkBBUseInfo {
  valid : bool;
  countValue : Z;
  unknownInEdges : Z;
  unknownOutEdges : Z;
  inEdges : list nat;
  outEdges : list nat
}.
Definition BBUseInfo_new : BBUseInfo := MkBBUseInfo false 0 0 0 [] [].

Definition BBUseInfo_SetCount (value : Z) (i : BBUseInfo) : BBUseInfo :=
  MkBBUseInfo true value (unknownInEdges i) (unknownOutEdges i) (inEdges i) (outEdges i).
Definition AddOutEdge (n : nat) (known : bool) (i : BBUseInfo) : BBUseInfo :=
  MkBBUseInfo (valid i) (countValue i) (unknownInEdges i)
    (if known then unknownOutEdges i else wrap 32 (unknownOutEdges i + 1)) (inEdges i) (outEdges i ++ [n]).
Definition AddInEdge (n : nat) (known : bool) (i : BBUseInfo) : BBUseInfo :=
  MkBBUseInfo (valid i) (countValue i) (if known then unknownInEdges i else wrap 32 (unknownInEdges i + 1))
    (unknownOutEdges i) (inEdges i ++ [n]) (outEdges i).
Definition DecreaseUnKnownOutEdges (i : BBUseInfo) : BBUseInfo :=
  MkBBUseInfo (valid i) (countValue i) (unknownInEdges i) (wrap 32 (unknownOutEdges i - 1)) (inEdges i) (outEdges i).
Definition DecreaseUnKnownInEdges (i : BBUseInfo) : BBUseInfo :=
  MkBBUseInfo (valid i) (countValue i) (wrap 32 (unknownInEdges i - 1)) (unknownOutEdges i) (inEdges i) (outEdges i).

Record ProfState : Type := MkProfState {
  useEdges : list BBUseEdge;
  bbProfileInfo : gmap nat BBUseInfo
}.

Definition edge_at (st : ProfState) (n : nat) : res BBUseEdge :=
  match useEdges st !! n with Some e => Ret e | None => Fault OutOfBounds end.
Definition put_edge (n : nat) (e : BBUseEdge) (st : ProfState) : ProfState :=
  MkProfState (<[n := e]> (useEdges st)) (bbProfileInfo st).
Definition put_info (bb : nat) (i : BBUseInfo) (st : ProfState) : ProfState :=
  MkProfState (useEdges st) (<[bb := i]> (bbProfileInfo st)).

(** A new info is entered into the map by the [put_info] of the caller. *)
Definition GetOrCreateBBUseInfo (bb : nat) (notCreate : bool) (st : ProfState) : res BBUseInfo :=
  match bbProfileInfo st !! bb with
  | Some i => Ret i
  | None => _ ← CHECK_FATAL (negb notCreate); Ret BBUseInfo_new
  end.

Definition update_info (bb : nat) (notCreate : bool) (f : BBUseInfo -> BBUseInfo) (st : ProfState) : res ProfState :=
  i ← GetOrCreateBBUseInfo bb notCreate st; Ret (put_info bb (f i) st).

Fixpoint SumEdgesCount (st : ProfState) (edges : list nat) (count : Z) : res Z :=
  match edges with
  | [] => Ret count
  | n :: edges' => e ← edge_at st n; SumEdgesCount st edges' (wrap 64 (count + e_countValue e))
  end.

(** GetOnlyUnknownOutEdges and GetOnlyUnknownInEdges *)
Fixpoint GetOnlyUnknownEdges (st : ProfState) (edges : list nat) (ouEdge : option nat) : res (option nat) :=
  match edges with
  | [] => Ret ouEdge
  | n :: edges' =>
      e ← edge_at st n;
      if e_valid e then GetOnlyUnknownEdges st edges' ouEdge
      else _ ← CHECK_FATAL (bool_decide (ouEdge = None)); GetOnlyUnknownEdges st edges' (Some n)
  end.

Definition SetEdgeCount (n : nat) (count : Z) (st : ProfState) : res ProfState :=
  e ← edge_at st n;
  if e_valid e then Ret st
  else
    let st := put_edge n (BBUseEdge_SetCount count e) st in
    st ← update_info (srcBB e) true DecreaseUnKnownOutEdges st;
    update_info (destBB e) true DecreaseUnKnownInEdges st.

(** ** The edges that are not in the tree *)

Definition AddToInfos (n : nat) (st : ProfState) : res ProfState :=
  e ← edge_at st n;
  st ← update_info (srcBB e) false (AddOutEdge n (e_valid e)) st;
  update_info (destBB e) false (AddInEdge n (e_valid e)) st.

Definition InitEdge (n : nat) (st : ProfState) : res ProfState :=
  e ← edge_at st n;
  if inMST e then Ret st
  else
    s ← GetOrCreateBBUseInfo (srcBB e) true st;
    d ← GetOrCreateBBUseInfo (destBB e) true st;
    st ← (if valid s && (length (outEdges s) =? 1)%nat then SetEdgeCount n (countValue s) st
          else if valid d && (length (inEdges d) =? 1)%nat then SetEdgeCount n (countValue d) st
          else Ret st);
    e ← edge_at st n;
    if e_valid e then Ret st
    else
      s ← GetOrCreateBBUseInfo (srcBB e) true st;
      d ← GetOrCreateBBUseInfo (destBB e) true st;
      if valid s || valid d then Ret st else SetEdgeCount n 0 st.

Definition InitBBEdgeInfo (st : ProfState) : res ProfState :=
  st ← for_up (length (useEdges st)) 0 AddToInfos st;
  for_up (length (useEdges st)) 0 InitEdge st.

(** ** The other edges *)

(** Change is true if a count was set. *)
Definition ComputeBBFreq (bb : nat) (st : ProfState) (change : bool) : res (ProfState * bool) :=
  i ← GetOrCreateBBUseInfo bb true st;
  if valid i then Ret (st, change)
  else if unknownOutEdges i =? 0 then
    count ← SumEdgesCount st (outEdges i) 0; Ret (put_info bb (BBUseInfo_SetCount count i) st, true)
  else if unknownInEdges i =? 0 then
    count ← SumEdgesCount st (inEdges i) 0; Ret (put_info bb (BBUseInfo_SetCount count i) st, true)
  else Ret (st, change).

(** The only unknown edge of [edges] gets what the others leave of the count. *)
Definition SetOnlyUnknown (count : Z) (edges : list nat) (st : ProfState) : res ProfState :=
  sum ← SumEdgesCount st edges 0;
  let total := if sum <? count then wrap 64 (count - sum) else 0 in
  _ ← CHECK_FATAL (negb (count <? sum));
  ouEdge ← GetOnlyUnknownEdges st edges None;
  match ouEdge with Some n => SetEdgeCount n total st | None => Fault OutOfBounds end.

Definition ComputeBlock (c : Cfg) (bb : nat) (s : ProfState * bool) : res (ProfState * bool) :=
  let '(st, change) := s in
  if (length (GetSuccs c bb) =? 0)%nat && (length (GetPreds c bb) =? 0)%nat then Ret (st, change)
  else
    out ← ComputeBBFreq bb st change;
    let '(st, change) := out in
    useInfo ← GetOrCreateBBUseInfo bb true st;
    if negb (valid useInfo) then Ret (st, change)
    else
      out ← (if unknownOutEdges useInfo =? 1
             then st ← SetOnlyUnknown (countValue useInfo) (outEdges useInfo) st; Ret (st, true)
             else Ret (st, change));
      let '(st, change) := out in
      useInfo ← GetOrCreateBBUseInfo bb true st;
      if unknownInEdges useInfo =? 1
      then st ← SetOnlyUnknown (countValue useInfo) (inEdges useInfo) st; Ret (st, true)
      else Ret (st, change).

Fixpoint ComputeBlocks (c : Cfg) (bbs : list nat) (s : ProfState * bool) : res (ProfState * bool) :=
  match bbs with [] => Ret s | bb :: bbs' => s ← ComputeBlock c bb s; ComputeBlocks c bbs' s end.

(** [fuel] bounds the passes but the first. *)
Fixpoint ComputePasses (c : Cfg) (fuel : nat) (times : Z) (st : ProfState) : res ProfState :=
  let times := wrap 64 (times + 1) in
  _ ← CHECK_FATAL (negb (times =? 2 ^ 32 - 1));
  out ← ComputeBlocks c (bb_chain c) (st, false);
  let '(st, change) := out in
  if change : bool then
    match fuel with O => Fault OutOfFuel | Datatypes.S fuel' => ComputePasses c fuel' times st end
  else Ret st.

Definition ComputeEdgeFreq (c : Cfg) (st : ProfState) : res ProfState :=
  ComputePasses c (length (useEdges st) + size (bbProfileInfo st)) 0 st.

(** ** The blocks *)

(** The members frequency and succsFreq of a block *)
Record BBFreq : Type := MkBBFreq {
  frequency : Z;
  succsFreq : list Z
}.
Definition bb_freq (fs : gmap nat BBFreq) (bb : nat) : BBFreq := default (MkBBFreq 0 []) (fs !! bb).

Definition SetFrequency (bb : nat) (arg : Z) (fs : gmap nat BBFreq) : gmap nat BBFreq :=
  <[bb := MkBBFreq arg (succsFreq (bb_freq fs bb))]> fs.
Definition InitEdgeFreq (c : Cfg) (bb : nat) (fs : gmap nat BBFreq) : gmap nat BBFreq :=
  let f := bb_freq fs bb in
  let n := length (GetSuccs c bb) in
  <[bb := MkBBFreq (frequency f) (take n (succsFreq f) ++ replicate (n - length (succsFreq f)) 0)]> fs.

(** std::find *)
Fixpoint succ_index (bb : nat) (succs : list nat) : option nat :=
  match succs with
  | [] => None
  | s :: succs' => if (s =? bb)%nat then Some O else option_map Datatypes.S (succ_index bb succs')
  end.

Definition SetEdgeFreq (c : Cfg) (bb dest : nat) (freq : Z) (fs : gmap nat BBFreq) : res (gmap nat BBFreq) :=
  match succ_index dest (GetSuccs c bb) with
  | None => Fault CheckFatal
  | Some idx =>
      let f := bb_freq fs bb in
      _ ← CHECK_FATAL (length (GetSuccs c bb) =? length (succsFreq f))%nat;
      Ret (<[bb := MkBBFreq (frequency f) (<[idx := freq]> (succsFreq f))]> fs)
  end.

Fixpoint ApplyEdges (c : Cfg) (st : ProfState) (bb : nat) (outs : list nat) (fs : gmap nat BBFreq) : res (gmap nat BBFreq) :=
  match outs with
  | [] => Ret fs
  | n :: outs' =>
      e ← edge_at st n;
      fs ← (if (destBB e =? commonExit c)%nat then Ret fs else SetEdgeFreq c bb (destBB e) (e_countValue e) fs);
      ApplyEdges c st bb outs' fs
  end.

Definition ApplyBlock (c : Cfg) (st : ProfState) (bb : nat) (fs : gmap nat BBFreq) : res (gmap nat BBFreq) :=
  if (length (GetSuccs c bb) =? 0)%nat && (length (GetPreds c bb) =? 0)%nat then Ret fs
  else
    useInfo ← GetOrCreateBBUseInfo bb true st;
    let fs := SetFrequency bb (wrap 32 (countValue useInfo)) fs in
    if (bb =? commonExit c)%nat then Ret fs
    else ApplyEdges c st bb (outEdges useInfo) (InitEdgeFreq c bb fs).

Fixpoint ApplyOnBB (c : Cfg) (st : ProfState) (bbs : list nat) (fs : gmap nat BBFreq) : res (gmap nat BBFreq) :=
  match bbs with [] => Ret fs | bb :: bbs' => fs ← ApplyBlock c st bb fs; ApplyOnBB c st bbs' fs end.

(** ** The profile of a function *)

Record BBInfo : Type := MkBBInfo {
  funcHash : Z;
  counter : list Z;
  verified : bool * bool
}.

Definition kMaxPimm8 : Z := 4095.

(** [cfgHash] is the result of CGCFG::ComputeCFGHash. *)
Definition VerifyProfileData (iBBs : list nat) (cfgHash : Z) (bbInfo : BBInfo) : bool * BBInfo :=
  let ok := (length (counter bbInfo) =? length iBBs)%nat && (funcHash bbInfo =? cfgHash) in
  (ok, MkBBInfo (funcHash bbInfo) (counter bbInfo) (true, ok)).

Fixpoint SetCounts (iBBs : list nat) (counts : list Z) (st : ProfState) : res ProfState :=
  match iBBs with
  | [] => Ret st
  | bb :: iBBs' =>
      match counts with
      | [] => Fault OutOfBounds
      | n :: counts' => st ← update_info bb false (BBUseInfo_SetCount n) st; SetCounts iBBs' counts' st
      end
  end.

(** [bbInfo] is the result of GetFuncBBProf, [doVerify] the option of the same name. *)
Definition ApplyPGOData (c : Cfg) (bbInfo : option BBInfo) (cfgHash : Z) (doVerify : bool) (fs : gmap nat BBFreq) :
    res (bool * option BBInfo * gmap nat BBFreq) :=
  m ← ComputeMST c;
  iBBs ← GetInstrumentBBs c m;
  if kMaxPimm8 <? Z.of_nat (length iBBs) then Ret (false, bbInfo, fs)
  else
    match bbInfo with
    | None => Fault CheckFatal
    | Some bbInfo =>
        let '(ok, bbInfo) := VerifyProfileData iBBs cfgHash bbInfo in
        if negb ok then _ ← CHECK_FATAL (negb doVerify); Ret (false, Some bbInfo, fs)
        else
          st ← SetCounts iBBs (counter bbInfo) (MkProfState (allEdges m) ∅);
          st ← InitBBEdgeInfo st;
          st ← ComputeEdgeFreq c st;
          fs ← ApplyOnBB c st (bb_chain c) fs;
          Ret (true, Some bbInfo, fs)
    end.
