(* ===== verification/ProfUseFacts.v ===== *)
(** * Edge profiles: the counts are those of the flow

    A flow gives each edge a count and each block the sum of its incoming and of its
    outgoing edges.  Whatever CGProfUse sets is then what the flow says ([sound]);
    every pass sets something or leaves all blocks stuck; and if all blocks are
    stuck, nothing is unknown, because the unknown edges are a forest. *)
From stdpp Require Import gmap sets.
From S2P Require Import Prelude.
From S2P Require Import CfgMst.
From S2P Require Import ProfUse.
From S2P Require Import CfgMstFacts.
From S2P Require Import CfgMstEdges.

(** ** Counting *)

Lemma filter_length_le {A} (P Q : A -> Prop) `{forall x, Decision (P x)} `{forall x, Decision (Q x)} (l : list A) :
  (forall x, x ∈ l -> P x -> Q x) -> (length (filter P l) <= length (filter Q l))%nat.
Proof.
  induction l as [|x l IH]; intros Hpq; [done|]. rewrite !filter_cons.
  assert (Hl : forall y, y ∈ l -> P y -> Q y) by (intros y Hy; apply Hpq; by right).
  specialize (IH Hl). repeat case_decide; simpl; try lia. exfalso. naive_solver set_solver.
Qed.

Lemma filter_length_less {A} (P Q : A -> Prop) `{forall x, Decision (P x)} `{forall x, Decision (Q x)} (l : list A) x :
  (forall x, x ∈ l -> P x -> Q x) -> x ∈ l -> Q x -> ~ P x -> (length (filter P l) < length (filter Q l))%nat.
Proof.
  intros Hpq Hx HQ HP. induction l as [|y l IH]; [by apply elem_of_nil in Hx|]. rewrite !filter_cons.
  assert (Hl : forall z, z ∈ l -> P z -> Q z) by (intros z Hz; apply Hpq; by right).
  pose proof (filter_length_le P Q l Hl) as Hle.
  apply elem_of_cons in Hx as [->|Hx].
  - rewrite decide_False, decide_True by done. simpl. lia.
  - specialize (IH Hl Hx). repeat case_decide; simpl; try lia. exfalso. naive_solver set_solver.
Qed.

Lemma filter_length_one {A} (P : A -> Prop) `{forall x, Decision (P x)} (l : list A) x :
  NoDup l -> x ∈ l -> P x -> (forall y, y ∈ l -> P y -> y = x) -> length (filter P l) = 1%nat.
Proof.
  intros Hnd Hx HP Hone. assert (Hf : filter P l ≡ₚ [x]); [|by rewrite Hf].
  apply NoDup_Permutation; [by apply NoDup_filter | apply NoDup_singleton |]. intros y.
  rewrite list_elem_of_filter, list_elem_of_singleton. split; [intros [? ?]; by apply Hone | by intros ->].
Qed.

Section Flow.
Context (c : Cfg) (Hc : wf_cfg c) (m : CFGMST).
Context (Hm : Forall2 marked (stable_sort (build_edges c)) (allEdges m)) (Hk : kruskal (allEdges m)).
Notation es := (allEdges m).
Notation n := (length es).
Notation exit := (commonExit c).
Notation chain := (bb_chain c).
Notation iBBs := (iBBs c m).

(** The places of the edges of a block *)
Definition outs_to (k v : nat) : list nat := filter (fun i => (srcBB <$> es !! i) = Some v) (seq 0 k).
Definition ins_to (k v : nat) : list nat := filter (fun i => (destBB <$> es !! i) = Some v) (seq 0 k).
Notation outs := (outs_to n).
Notation ins := (ins_to n).

Context (flow : nat -> nat -> Z) (visits : nat -> Z).
Definition cnt (i : nat) : Z := match es !! i with Some e => flow (srcBB e) (destBB e) | None => 0 end.
Definition total (l : list nat) : Z := foldr Z.add 0 (map cnt l).

(** What is in goes out, in blocks that are executed less than 2^32 times. *)
Record conserved : Prop := {
  cs_flow : forall v s, 0 <= flow v s;
  cs_visits : forall v, v ∈ chain -> 0 <= visits v < 2 ^ 32;
  cs_out : forall v, v ∈ chain -> total (outs v) = visits v;
  cs_in : forall v, v ∈ chain -> total (ins v) = visits v
}.
Context (Hflow : conserved).

Lemma elem_of_outs k v i : i ∈ outs_to k v <-> (i < k)%nat /\ exists e, es !! i = Some e /\ srcBB e = v.
Proof.
  unfold outs_to. rewrite list_elem_of_filter, elem_of_seq. split.
  - intros [Hs Hi]. split; [lia|]. by apply fmap_Some in Hs as (e & He & ->); exists e.
  - intros [Hi (e & -> & <-)]. split; [done | lia].
Qed.

Lemma elem_of_ins k v i : i ∈ ins_to k v <-> (i < k)%nat /\ exists e, es !! i = Some e /\ destBB e = v.
Proof.
  unfold ins_to. rewrite list_elem_of_filter, elem_of_seq. split.
  - intros [Hs Hi]. split; [lia|]. by apply fmap_Some in Hs as (e & He & ->); exists e.
  - intros [Hi (e & -> & <-)]. split; [done | lia].
Qed.

Lemma outs_NoDup k v : NoDup (outs_to k v).
Proof. apply NoDup_filter, NoDup_seq. Qed.
Lemma ins_NoDup k v : NoDup (ins_to k v).
Proof. apply NoDup_filter, NoDup_seq. Qed.

(** Places with the same ends are the same. *)
Lemma edge_place_inj i j e e' : es !! i = Some e -> es !! j = Some e' -> ends e = ends e' -> i = j.
Proof.
  intros Hi Hj He. pose proof (es_NoDup c Hc m Hm) as Hnd. change (NoDup (ends <$> es)) in Hnd.
  apply (NoDup_lookup _ _ _ (ends e) Hnd); rewrite list_lookup_fmap; [by rewrite Hi | by rewrite Hj, He].
Qed.

Lemma n_small : Z.of_nat n + Z.of_nat (length chain) < 2 ^ 31.
Proof.
  pose proof (wc_size _ Hc) as Hs. rewrite (BuildEdges_edges c Hc) in Hs.
  pose proof (Forall2_length _ _ _ Hm) as Hl. rewrite (stable_sort_perm (build_edges c)) in Hl. lia.
Qed.

(** ** The state *)

Definition known (st : ProfState) (i : nat) : bool :=
  match useEdges st !! i with Some e => e_valid e | None => true end.
Definition unknowns (st : ProfState) (l : list nat) : nat := length (filter (fun i => known st i = false) l).
Definition is_set (st : ProfState) (v : nat) : Prop := (valid <$> bbProfileInfo st !! v) = Some true.

(** A block that an edge joins *)
Definition joined (v : nat) : Prop := exists s, is_edge c v s \/ is_edge c s v.

Record sound (st : ProfState) : Prop := {
  so_edges : Forall2 (fun e0 e => ends e = ends e0 /\ inMST e = inMST e0 /\
    e_countValue e = if e_valid e then flow (srcBB e0) (destBB e0) else 0) es (useEdges st);
  so_info : forall v, joined v -> exists i, bbProfileInfo st !! v = Some i /\
    outEdges i = outs v /\ inEdges i = ins v /\
    unknownOutEdges i = Z.of_nat (unknowns st (outs v)) /\ unknownInEdges i = Z.of_nat (unknowns st (ins v)) /\
    (valid i = true -> countValue i = visits v)
}.

Lemma sound_edge st i e0 :
  sound st -> es !! i = Some e0 ->
  exists e, useEdges st !! i = Some e /\ ends e = ends e0 /\ inMST e = inMST e0 /\
    e_countValue e = (if e_valid e then cnt i else 0) /\ known st i = e_valid e.
Proof.
  intros Hst Hi. destruct (Forall2_lookup_l _ _ _ _ _ (so_edges _ Hst) Hi) as (e & He & H1 & H2 & H3).
  exists e. unfold cnt, known. by rewrite Hi, He.
Qed.

Lemma edge_joined i e : es !! i = Some e -> joined (srcBB e) /\ joined (destBB e).
Proof.
  intros Hi. assert (He : is_edge c (srcBB e) (destBB e)).
  { apply (es_plain c Hc m Hm). by eapply list_elem_of_lookup_2. }
  split; [exists (destBB e); by left | exists (srcBB e); by right].
Qed.

Lemma unknowns_le st l : (unknowns st l <= length l)%nat.
Proof. unfold unknowns. apply length_filter. Qed.

Lemma outs_length v : (length (outs v) <= n)%nat.
Proof. unfold outs_to. etrans; [apply length_filter|]. by rewrite length_seq. Qed.
Lemma ins_length v : (length (ins v) <= n)%nat.
Proof. unfold ins_to. etrans; [apply length_filter|]. by rewrite length_seq. Qed.

(** ** SetEdgeCount *)

(** Only the edge at [i] becomes known. *)
Record sets (i : nat) (st st' : ProfState) : Prop := {
  st_known : forall j, known st' j = if decide (j = i) then true else known st j;
  st_set : forall v, (valid <$> bbProfileInfo st' !! v) = (valid <$> bbProfileInfo st !! v);
  st_sound : sound st'
}.

Lemma unknowns_set st st' i l :
  NoDup l -> known st i = false -> (forall j, known st' j = if decide (j = i) then true else known st j) ->
  Z.of_nat (unknowns st l) = Z.of_nat (unknowns st' l) + if decide (i ∈ l) then 1 else 0.
Proof.
  intros Hnd Hi Hk'. unfold unknowns. induction Hnd as [|j l Hj Hnd IH]; [done|]. rewrite !filter_cons, Hk'.
  destruct (decide (j = i)) as [->|Hne].
  - rewrite (decide_True (P := known st i = false)), decide_False by done.
    rewrite (decide_True (P := i ∈ i :: l)) by (by left). rewrite (decide_False (P := i ∈ l)) in IH by done. simpl. lia.
  - assert (Hin : i ∈ j :: l <-> i ∈ l) by (rewrite elem_of_cons; naive_solver).
    destruct (decide (i ∈ l)) as [H|H]; [rewrite (decide_True (P := i ∈ j :: l)) by tauto | rewrite (decide_False (P := i ∈ j :: l)) by tauto];
      case_decide; simpl; lia.
Qed.

Lemma SetEdgeCount_spec st i e0 x :
  sound st -> es !! i = Some e0 -> x = cnt i -> wp (SetEdgeCount i x st) (sets i st).
Proof.
  intros Hst Hi ->. destruct (sound_edge st i e0 Hst Hi) as (e & He & Hends & Hmst & Hcount & Hknown).
  unfold SetEdgeCount, edge_at. rewrite He. cbn. destruct (e_valid e) eqn:Hv.
  { constructor; [|done|done]. intros j. case_decide; [by subst | done]. }
  assert (Hsrc : srcBB e = srcBB e0) by (unfold ends in Hends; congruence).
  assert (Hdst : destBB e = destBB e0) by (unfold ends in Hends; congruence).
  destruct (edge_joined i e0 Hi) as [Hjs Hjd].
  destruct (so_info _ Hst _ Hjs) as (si & Hsi & _). destruct (so_info _ Hst _ Hjd) as (di & Hdi & _).
  unfold update_info, GetOrCreateBBUseInfo, put_info, put_edge. cbn [bbProfileInfo useEdges].
  rewrite Hsrc, Hdst, Hsi. cbn.
  set (s1 := <[srcBB e0 := DecreaseUnKnownOutEdges si]> (bbProfileInfo st)).
  assert (Hd1 : exists di1, s1 !! destBB e0 = Some di1 /\ valid di1 = valid di).
  { unfold s1. destruct (decide (srcBB e0 = destBB e0)) as [Hsd|Hsd].
    - rewrite Hsd, lookup_insert_eq. eexists. split; [done|]. simpl. rewrite Hsd in Hsi. congruence.
    - rewrite lookup_insert_ne by done. by exists di. }
  destruct Hd1 as (di1 & Hd1 & Hvd1). rewrite Hd1. cbn.
  set (st' := MkProfState (<[i:=BBUseEdge_SetCount (cnt i) e]> (useEdges st)) (<[destBB e0:=DecreaseUnKnownInEdges di1]> s1)).
  assert (Hk' : forall j, known st' j = if decide (j = i) then true else known st j).
  { intros j. unfold known. cbn [st' useEdges]. destruct (decide (j = i)) as [->|Hne].
    - by rewrite list_lookup_insert_eq by (by eapply lookup_lt_Some).
    - by rewrite list_lookup_insert_ne. }
  constructor; [exact Hk' | |].
  - intros v. cbn [st' bbProfileInfo]. destruct (decide (v = destBB e0)) as [->|Hvd].
    + rewrite lookup_insert_eq, Hdi. simpl. by rewrite Hvd1.
    + rewrite lookup_insert_ne by done. unfold s1. destruct (decide (v = srcBB e0)) as [->|Hvs].
      * by rewrite lookup_insert_eq, Hsi.
      * by rewrite lookup_insert_ne.
  - assert (Hun : known st i = false) by done. constructor.
    + cbn [st' useEdges]. apply Forall2_lookup. intros j. pose proof (proj1 (Forall2_lookup _ _ _) (so_edges _ Hst) j) as Hj.
      destruct (decide (j = i)) as [->|Hne].
      * rewrite list_lookup_insert_eq by (by eapply lookup_lt_Some). rewrite Hi. constructor.
        cbn. split; [done|]. split; [done|]. unfold cnt. by rewrite Hi.
      * by rewrite list_lookup_insert_ne.
    + intros v Hjv. destruct (so_info _ Hst v Hjv) as (vi & Hvi & H1 & H2 & H3 & H4 & H5).
      pose proof n_small as Hsmall. pose proof (outs_length v) as Hol. pose proof (ins_length v) as Hil.
      pose proof (unknowns_le st' (outs v)). pose proof (unknowns_le st' (ins v)).
      pose proof (unknowns_set st st' i (outs v) (outs_NoDup _ _) Hun Hk') as Ho.
      pose proof (unknowns_set st st' i (ins v) (ins_NoDup _ _) Hun Hk') as Hin.
      assert (Hio : i ∈ outs v <-> v = srcBB e0).
      { rewrite elem_of_outs. split; [intros (_ & e' & He' & <-); congruence|]. intros ->.
        split; [by eapply lookup_lt_Some | by exists e0]. }
      assert (Hii : i ∈ ins v <-> v = destBB e0).
      { rewrite elem_of_ins. split; [intros (_ & e' & He' & <-); congruence|]. intros ->.
        split; [by eapply lookup_lt_Some | by exists e0]. }
      cbn [st' bbProfileInfo].
      assert (Hs1v : exists vi1, s1 !! v = Some vi1 /\ valid vi1 = valid vi /\ countValue vi1 = countValue vi /\
        inEdges vi1 = inEdges vi /\ outEdges vi1 = outEdges vi /\ unknownInEdges vi1 = unknownInEdges vi /\
        unknownOutEdges vi1 = Z.of_nat (unknowns st' (outs v))).
      { unfold s1. destruct (decide (v = srcBB e0)) as [Hvs|Hvs].
        - rewrite Hvs, lookup_insert_eq. eexists. split; [done|]. rewrite <- Hvs. rewrite Hvs, Hsi in Hvi. injection Hvi as <-.
          cbn. split_and!; try done. rewrite H3, Ho, (decide_True (P := i ∈ outs v)) by tauto. rewrite wrap_small by lia. lia.
        - rewrite lookup_insert_ne by done. exists vi. split_and!; try done.
          rewrite H3, Ho, (decide_False (P := i ∈ outs v)) by tauto. lia. }
      destruct Hs1v as (vi1 & Hv1 & Ha & Hb & Hcc & Hd & Hee & Hff).
      destruct (decide (v = destBB e0)) as [Hvd|Hvd].
      * rewrite Hvd, lookup_insert_eq. eexists. split; [done|]. rewrite <- Hvd. rewrite Hvd, Hd1 in Hv1. injection Hv1 as ->.
        cbn. split_and!; try congruence.
        -- rewrite Hee, H4, Hin, (decide_True (P := i ∈ ins v)) by tauto. rewrite wrap_small by lia. lia.
        -- rewrite Ha, Hb. done.
      * rewrite lookup_insert_ne by done. exists vi1. split_and!; try congruence.
        -- rewrite Hee, H4, Hin, (decide_False (P := i ∈ ins v)) by tauto. lia.
        -- rewrite Ha, Hb. done.
Qed.

(** ** Sums *)

Definition known_sum (st : ProfState) (l : list nat) : Z :=
  foldr Z.add 0 (map (fun i => if known st i then cnt i else 0) l).

Lemma cnt_nonneg i : 0 <= cnt i.
Proof. unfold cnt. destruct (es !! i); [apply (cs_flow Hflow) | done]. Qed.

Lemma total_nonneg l : 0 <= total l.
Proof. unfold total. induction l as [|i l IH]; simpl; [done|]. pose proof (cnt_nonneg i). lia. Qed.

Lemma known_sum_le st l : 0 <= known_sum st l <= total l.
Proof.
  unfold known_sum, total. induction l as [|i l IH]; simpl; [done|]. pose proof (cnt_nonneg i).
  destruct (known st i); lia.
Qed.

Lemma SumEdgesCount_spec st l a :
  sound st -> Forall (fun i => (i < n)%nat) l -> 0 <= a -> a + total l < 2 ^ 64 ->
  SumEdgesCount st l a = Ret (a + known_sum st l).
Proof.
  intros Hst. revert a. induction l as [|i l IH]; intros a Hl Ha Hb; simpl; [by rewrite Z.add_0_r|].
  apply Forall_cons in Hl as [Hi Hl]. destruct (lookup_lt_is_Some_2 _ _ Hi) as [e0 He0].
  destruct (sound_edge st i e0 Hst He0) as (e & He & _ & _ & Hcount & Hknown).
  unfold edge_at. rewrite He. cbn. unfold total in Hb. cbn in Hb. fold (total l) in Hb.
  pose proof (cnt_nonneg i). pose proof (total_nonneg l).
  assert (Hv : e_countValue e = if known st i then cnt i else 0) by by rewrite Hknown.
  assert (Hr : 0 <= e_countValue e <= cnt i) by (rewrite Hv; destruct (known st i); lia).
  rewrite wrap_small by lia. rewrite IH; [|done|lia|lia]. f_equal. unfold known_sum. simpl. rewrite <- Hv. lia.
Qed.

Lemma unknowns_none st l : unknowns st l = 0%nat -> known_sum st l = total l.
Proof.
  unfold unknowns, known_sum, total. induction l as [|i l IH]; [done|]. rewrite filter_cons.
  destruct (known st i) eqn:Hi; [|by rewrite decide_True]. rewrite decide_False by done. intros Hl. simpl.
  rewrite Hi, IH; done.
Qed.

(** The only unknown edge, and what it leaves of the sum *)
Lemma GetOnlyUnknownEdges_spec st l :
  sound st -> Forall (fun i => (i < n)%nat) l -> unknowns st l = 1%nat ->
  exists i, GetOnlyUnknownEdges st l None = Ret (Some i) /\ i ∈ l /\ known st i = false /\
    known_sum st l + cnt i = total l.
Proof.
  intros Hst Hl Hone.
  assert (Hrest : forall l o, Forall (fun i => (i < n)%nat) l -> unknowns st l = 0%nat -> GetOnlyUnknownEdges st l o = Ret o).
  { clear l Hl Hone. induction l as [|i l IH]; intros o Hl Hz; [done|]. apply Forall_cons in Hl as [Hi Hl].
    destruct (lookup_lt_is_Some_2 _ _ Hi) as [e0 He0].
    destruct (sound_edge st i e0 Hst He0) as (e & He & _ & _ & _ & Hknown).
    unfold unknowns in Hz. rewrite filter_cons in Hz. cbn [GetOnlyUnknownEdges]. unfold edge_at. rewrite He. cbn.
    rewrite <- Hknown. destruct (known st i); [|by rewrite decide_True in Hz].
    rewrite decide_False in Hz by done. by apply IH. }
  induction l as [|i l IH]; [done|]. apply Forall_cons in Hl as [Hi Hl].
  destruct (lookup_lt_is_Some_2 _ _ Hi) as [e0 He0].
  destruct (sound_edge st i e0 Hst He0) as (e & He & _ & _ & _ & Hknown).
  unfold unknowns in Hone. rewrite filter_cons in Hone. cbn [GetOnlyUnknownEdges]. unfold edge_at. rewrite He. cbn.
  rewrite <- Hknown. unfold known_sum, total. cbn. fold (known_sum st l). fold (total l).
  destruct (known st i) eqn:Hki.
  - rewrite decide_False in Hone by done. destruct (IH Hl Hone) as (j & -> & Hj & Hkj & Hsum).
    exists j. split_and!; [done | by right | done | lia].
  - rewrite decide_True in Hone by done. simpl in Hone. assert (Hz : unknowns st l = 0%nat) by (unfold unknowns; lia).
    cbn. rewrite Hrest by done. exists i. split_and!; [done | by left | done |]. rewrite (unknowns_none st l Hz). lia.
Qed.

Lemma SetOnlyUnknown_spec st l count :
  sound st -> Forall (fun i => (i < n)%nat) l -> unknowns st l = 1%nat -> count = total l -> total l < 2 ^ 64 ->
  wp (SetOnlyUnknown count l st) (fun st' => exists i, (i < n)%nat /\ known st i = false /\ sets i st st').
Proof.
  intros Hst Hl Hone -> Hb. pose proof (total_nonneg l). pose proof (known_sum_le st l) as Hle.
  destruct (GetOnlyUnknownEdges_spec st l Hst Hl Hone) as (i & Hget & Hi & Hki & Hsum).
  pose proof (cnt_nonneg i). unfold SetOnlyUnknown. rewrite (SumEdgesCount_spec st l 0) by (done || lia).
  rewrite Z.add_0_l, Hget. cbn [mbind res_bind].
  rewrite (proj2 (Z.ltb_ge (total l) (known_sum st l))) by lia. cbn.
  rewrite Forall_forall in Hl. destruct (lookup_lt_is_Some_2 _ _ (Hl i Hi)) as [e0 He0].
  eapply wp_mono; [apply (SetEdgeCount_spec st i e0); [done | done |]|].
  - destruct (Z.ltb_spec (known_sum st l) (total l)); [rewrite wrap_small by lia; lia | lia].
  - intros st' Hst'. exists i. split_and!; [by apply Hl | done | done].
Qed.

(** ** One block *)

(** [st'] knows all that [st] knows, and the blocks are the same. *)
Record grows (st st' : ProfState) : Prop := {
  gr_known : forall i, known st i = true -> known st' i = true;
  gr_set : forall v, is_set st v -> is_set st' v;
  gr_dom : dom (bbProfileInfo st') = dom (bbProfileInfo st)
}.

Lemma grows_refl st : grows st st.
Proof. by constructor. Qed.
Lemma grows_trans st st' st'' : grows st st' -> grows st' st'' -> grows st st''.
Proof. intros [] []. constructor; [auto.. | congruence]. Qed.

Lemma sets_grows i st st' : sets i st st' -> grows st st'.
Proof.
  intros [Hk' Hs _]. constructor.
  - intros j Hj. rewrite Hk'. by case_decide.
  - intros v. unfold is_set. by rewrite Hs.
  - apply set_eq. intros v. rewrite !elem_of_dom. specialize (Hs v).
    destruct (bbProfileInfo st !! v), (bbProfileInfo st' !! v); simplify_eq/=; split; intros [? ?]; done || by eexists.
Qed.

(** What is still to be set; [vs] are the blocks. *)
Definition todo (vs : list nat) (st : ProfState) : nat :=
  unknowns st (seq 0 n) + length (filter (fun v => (valid <$> bbProfileInfo st !! v) = Some false) vs).

Lemma unset_grows st st' v :
  grows st st' -> (valid <$> bbProfileInfo st' !! v) = Some false -> (valid <$> bbProfileInfo st !! v) = Some false.
Proof.
  intros Hg Hv. assert (Hin : v ∈ dom (bbProfileInfo st)).
  { rewrite <- (gr_dom _ _ Hg). apply elem_of_dom. destruct (bbProfileInfo st' !! v); [by eexists | done]. }
  apply elem_of_dom in Hin as [i Hi]. pose proof (gr_set _ _ Hg v) as Hs. unfold is_set in Hs. rewrite Hi in *. simpl in *.
  destruct (valid i); [|done]. rewrite Hs in Hv by done. done.
Qed.

Lemma todo_grows vs st st' : grows st st' -> (todo vs st' <= todo vs st)%nat.
Proof.
  intros Hg. unfold todo, unknowns. apply Nat.add_le_mono; apply filter_length_le.
  - intros i _ Hi. destruct (known st i) eqn:Hki; [|done]. by rewrite (gr_known _ _ Hg i Hki) in Hi.
  - intros v _. by apply unset_grows.
Qed.

Lemma todo_edge vs st st' i :
  grows st st' -> (i < n)%nat -> known st i = false -> known st' i = true -> (todo vs st' < todo vs st)%nat.
Proof.
  intros Hg Hi Hk0 Hk1. unfold todo, unknowns. apply Nat.add_lt_le_mono.
  - apply (filter_length_less _ _ _ i); [|apply elem_of_seq; lia | done | by rewrite Hk1].
    intros j _ Hj. destruct (known st j) eqn:Hkj; [|done]. by rewrite (gr_known _ _ Hg j Hkj) in Hj.
  - apply filter_length_le. intros v _. by apply unset_grows.
Qed.

Lemma todo_block vs st st' v :
  grows st st' -> v ∈ vs -> (valid <$> bbProfileInfo st !! v) = Some false -> is_set st' v -> (todo vs st' < todo vs st)%nat.
Proof.
  intros Hg Hv H0 H1. unfold todo, unknowns. apply Nat.add_le_lt_mono.
  - apply filter_length_le. intros i _ Hi. destruct (known st i) eqn:Hki; [|done]. by rewrite (gr_known _ _ Hg i Hki) in Hi.
  - apply (filter_length_less _ _ _ v); [|done|done|]; [intros u _; by apply unset_grows|].
    unfold is_set in H1. by rewrite H1.
Qed.

(** Nothing can be set at the block. *)
Definition stuck (st : ProfState) (v : nat) : Prop :=
  is_set st v /\ unknowns st (outs v) <> 1%nat /\ unknowns st (ins v) <> 1%nat \/
  ~ is_set st v /\ unknowns st (outs v) <> 0%nat /\ unknowns st (ins v) <> 0%nat.

(** A block that ComputeEdgeFreq looks at *)
Definition busy (v : nat) : Prop := v ∈ chain /\ ~ (GetSuccs c v = [] /\ GetPreds c v = []).

Lemma busy_joined v : busy v -> joined v.
Proof.
  intros [Hv Hne]. destruct (GetSuccs c v) as [|s l] eqn:Hs.
  - destruct (GetPreds c v) as [|p l'] eqn:Hp; [by destruct Hne|]. exists p. right. left.
    apply (wc_preds _ Hc v p Hv). rewrite Hp. by left.
  - exists s. left. left. split; [done|]. rewrite Hs. by left.
Qed.

Lemma joined_busy v : joined v -> v <> exit -> busy v.
Proof.
  intros [s [[[Hv Hs]|[[Hp ->]|[? _]]]|[[Hv Hs]|[[_ ?]|[_ ->]]]]] Hne; try done.
  - split; [done|]. intros [Hnil _]. rewrite Hnil in Hs. by apply elem_of_nil in Hs.
  - destruct (wc_last _ Hc v Hp) as (Hv & _ & Hpred). split; [done|]. by intros [_ ?].
  - destruct (wc_succs _ Hc s v Hv Hs) as [Hch Hp]. split; [done|]. intros [_ Hnil]. rewrite Hnil in Hp. by apply elem_of_nil in Hp.
  - split; [by left|]. intros [Hnil _]. by apply (wc_entry _ Hc).
Qed.

Lemma outs_places v : Forall (fun i => (i < n)%nat) (outs v).
Proof. apply Forall_forall. intros i Hi. by apply elem_of_outs in Hi as [? _]. Qed.
Lemma ins_places v : Forall (fun i => (i < n)%nat) (ins v).
Proof. apply Forall_forall. intros i Hi. by apply elem_of_ins in Hi as [? _]. Qed.

Lemma set_block_sound st v i x :
  sound st -> bbProfileInfo st !! v = Some i -> x = visits v ->
  sound (put_info v (BBUseInfo_SetCount x i) st) /\ grows st (put_info v (BBUseInfo_SetCount x i) st) /\
  is_set (put_info v (BBUseInfo_SetCount x i) st) v.
Proof.
  intros Hst Hi ->. set (st' := put_info v (BBUseInfo_SetCount (visits v) i) st).
  assert (Hlook : forall u, u <> v -> bbProfileInfo st' !! u = bbProfileInfo st !! u).
  { intros u Hu. unfold st', put_info. cbn. by rewrite lookup_insert_ne. }
  assert (Hself : bbProfileInfo st' !! v = Some (BBUseInfo_SetCount (visits v) i)) by apply lookup_insert_eq.
  split_and!.
  - constructor; [apply (so_edges _ Hst)|]. intros u Hu. destruct (so_info _ Hst u Hu) as (ui & Hui & H1 & H2 & H3 & H4 & H5).
    destruct (decide (u = v)) as [->|Hne].
    + exists (BBUseInfo_SetCount (visits v) i). rewrite Hi in Hui. injection Hui as ->. by split_and!.
    + exists ui. rewrite Hlook by done. by split_and!.
  - constructor; [done| |].
    + intros u. unfold is_set. destruct (decide (u = v)) as [->|Hne]; [by rewrite Hself | by rewrite Hlook].
    + unfold st', put_info. cbn. rewrite dom_insert_L. apply elem_of_dom_2 in Hi. set_solver.
  - unfold is_set. by rewrite Hself.
Qed.

(** The sums of a block are its executions. *)
Lemma visits_small v : v ∈ chain -> total (outs v) < 2 ^ 64 /\ total (ins v) < 2 ^ 64.
Proof.
  intros Hv. rewrite (cs_out Hflow), (cs_in Hflow) by done. pose proof (cs_visits Hflow v Hv). lia.
Qed.

Lemma ComputeBBFreq_spec vs st v ch :
  busy v -> v ∈ vs -> sound st ->
  wp (ComputeBBFreq v st ch) (fun '(st', ch') => sound st' /\ grows st st' /\
    (st' = st /\ ch' = ch /\ (is_set st v \/ unknowns st (outs v) <> 0%nat /\ unknowns st (ins v) <> 0%nat) \/
     ch' = true /\ is_set st' v /\ (todo vs st' < todo vs st)%nat)).
Proof.
  intros Hv Hvs Hst. destruct (so_info _ Hst v (busy_joined v Hv)) as (i & Hi & Ho & Hin & Huo & Hui & Hval).
  destruct Hv as [Hv _]. destruct (visits_small v Hv) as [Hso Hsi].
  unfold ComputeBBFreq, GetOrCreateBBUseInfo. rewrite Hi. cbn. destruct (valid i) eqn:Hvi.
  { split_and!; [done | apply grows_refl | left]. split_and!; [done..|]. left. unfold is_set. rewrite Hi. cbn. by rewrite Hvi. }
  assert (Hun : (valid <$> bbProfileInfo st !! v) = Some false) by (rewrite Hi; cbn; by rewrite Hvi).
  rewrite Huo, Hui, Ho, Hin.
  destruct (Z.eqb_spec (Z.of_nat (unknowns st (outs v))) 0) as [H0|H0].
  { rewrite SumEdgesCount_spec; [|done|apply outs_places|done|lia]. cbn.
    assert (Hx : known_sum st (outs v) = visits v) by (rewrite unknowns_none by lia; by apply (cs_out Hflow)).
    destruct (set_block_sound st v i _ Hst Hi Hx) as (H1 & H2 & H3).
    split_and!; [done..|]. right. split_and!; [done..|]. by apply (todo_block vs _ _ v). }
  destruct (Z.eqb_spec (Z.of_nat (unknowns st (ins v))) 0) as [H1|H1].
  { rewrite SumEdgesCount_spec; [|done|apply ins_places|done|lia]. cbn.
    assert (Hx : known_sum st (ins v) = visits v) by (rewrite unknowns_none by lia; by apply (cs_in Hflow)).
    destruct (set_block_sound st v i _ Hst Hi Hx) as (H2 & H3 & H4).
    split_and!; [done..|]. right. split_and!; [done..|]. by apply (todo_block vs _ _ v). }
  split_and!; [done | apply grows_refl | left]. split_and!; [done..|]. right. lia.
Qed.

Lemma GetOrCreate_some st v i b : bbProfileInfo st !! v = Some i -> GetOrCreateBBUseInfo v b st = Ret i.
Proof. intros Hi. unfold GetOrCreateBBUseInfo. by rewrite Hi. Qed.

(** The step for one side of a block *)
Definition side_step (vs : list nat) (count : Z) (l : list nat) (once : bool) (s : ProfState * bool) : res (ProfState * bool) :=
  let '(st, change) := s in
  if once then st' ← SetOnlyUnknown count l st; Ret (st', true) else Ret (st, change).

Lemma side_step_spec vs count l st ch :
  sound st -> Forall (fun i => (i < n)%nat) l -> count = total l -> total l < 2 ^ 64 ->
  wp (side_step vs count l (bool_decide (unknowns st l = 1%nat)) (st, ch)) (fun '(st', ch') => sound st' /\ grows st st' /\
    (forall v, (valid <$> bbProfileInfo st' !! v) = (valid <$> bbProfileInfo st !! v)) /\
    (st' = st /\ ch' = ch /\ unknowns st l <> 1%nat \/ ch' = true /\ (todo vs st' < todo vs st)%nat)).
Proof.
  intros Hst Hl Hcount Hb. unfold side_step. case_bool_decide as Hone.
  - eapply wp_bind, wp_mono; [by apply SetOnlyUnknown_spec|]. intros st' (i & Hi & Hki & Hs).
    pose proof (sets_grows i st st' Hs) as Hg. split_and!; [apply Hs | done | apply Hs | right]. split; [done|].
    apply (todo_edge vs st st' i Hg Hi Hki). rewrite (st_known _ _ _ Hs). by rewrite decide_True.
  - split_and!; [done | apply grows_refl | done | left]. done.
Qed.

(** The step changes nothing and leaves the block stuck, or sets something. *)
Definition progress (vs : list nat) (v : nat) (st : ProfState) (ch : bool) (st' : ProfState) (ch' : bool) : Prop :=
  sound st' /\ grows st st' /\
  (st' = st /\ ch' = ch /\ (busy v -> stuck st v) \/ ch' = true /\ (todo vs st' < todo vs st)%nat).

Lemma ComputeBlock_spec vs v st ch :
  v ∈ chain -> v ∈ vs -> sound st ->
  wp (ComputeBlock c v (st, ch)) (fun '(st', ch') => progress vs v st ch st' ch').
Proof.
  intros Hv Hvs Hst. unfold ComputeBlock.
  destruct ((length (GetSuccs c v) =? 0)%nat && (length (GetPreds c v) =? 0)%nat) eqn:Hiso.
  { apply andb_true_iff in Hiso as [Hs%Nat.eqb_eq%length_zero_iff_nil Hp%Nat.eqb_eq%length_zero_iff_nil].
    split_and!; [done | apply grows_refl | left]. split_and!; [done..|]. intros [_ Hb]. by destruct Hb. }
  assert (Hbusy : busy v).
  { split; [done|]. intros [Hs Hp]. by rewrite Hs, Hp in Hiso. }
  destruct (visits_small v Hv) as [Hso Hsi].
  eapply wp_bind, wp_mono; [by apply (ComputeBBFreq_spec vs)|]. intros [st1 ch1] (Hst1 & Hg1 & Hcase1).
  destruct (so_info _ Hst1 v (busy_joined v Hbusy)) as (i1 & Hi1 & Ho1 & Hin1 & Huo1 & Hui1 & Hval1).
  rewrite (GetOrCreate_some _ _ _ _ Hi1). cbn [mbind res_bind].
  destruct (valid i1) eqn:Hv1; cbn [negb].
  2:{ split_and!; [done..|]. destruct Hcase1 as [(-> & -> & Hs)|(_ & Hset & _)].
      - left. split_and!; [done..|]. intros _. right.
        assert (Hns : ~ is_set st v) by (unfold is_set; rewrite Hi1; cbn; rewrite Hv1; by intros [=]).
        destruct Hs as [?|[? ?]]; [done|]. by split_and!.
      - unfold is_set in Hset. rewrite Hi1 in Hset. cbn in Hset. congruence. }
  rewrite Huo1, Ho1, Hval1 by done.
  assert (Hone : forall st l, (Z.of_nat (unknowns st l) =? 1) = bool_decide (unknowns st l = 1%nat)).
  { intros st0 l. case_bool_decide as H; [rewrite H; done | apply Z.eqb_neq; lia]. }
  rewrite Hone.
  pose proof (side_step_spec vs (visits v) (outs v) st1 ch1 Hst1 (outs_places v) ltac:(by rewrite (cs_out Hflow)) Hso) as Hout.
  eapply wp_bind, wp_mono; [exact Hout|]. intros [st2 ch2] (Hst2 & Hg2 & Hvalid2 & Hcase2).
  destruct (so_info _ Hst2 v (busy_joined v Hbusy)) as (i2 & Hi2 & Ho2 & Hin2 & Huo2 & Hui2 & Hval2).
  assert (Hset2 : valid i2 = true).
  { specialize (Hvalid2 v). rewrite Hi1, Hi2 in Hvalid2. cbn in Hvalid2. congruence. }
  rewrite (GetOrCreate_some _ _ _ _ Hi2). cbn [mbind res_bind]. rewrite Hui2, Hin2, Hval2, Hone by done.
  pose proof (side_step_spec vs (visits v) (ins v) st2 ch2 Hst2 (ins_places v) ltac:(by rewrite (cs_in Hflow)) Hsi) as Hinn.
  eapply wp_mono; [exact Hinn|]. intros [st3 ch3] (Hst3 & Hg3 & _ & Hcase3).
  split_and!; [done | by eapply grows_trans, Hg3; eapply grows_trans |].
  pose proof (todo_grows vs _ _ Hg1). pose proof (todo_grows vs _ _ Hg2). pose proof (todo_grows vs _ _ Hg3).
  destruct Hcase3 as [(-> & -> & Hn3)|(-> & Hlt)]; [|right; split; [done | lia]].
  destruct Hcase2 as [(-> & -> & Hn2)|(-> & Hlt)]; [|right; split; [done | lia]].
  destruct Hcase1 as [(-> & -> & Hn1)|(-> & _ & Hlt)]; [|right; split; [done | lia]].
  left. split_and!; [done..|]. intros _. left. split_and!; [|done..]. unfold is_set. rewrite Hi2. cbn. by rewrite Hset2.
Qed.

Lemma ComputeBlocks_spec vs l st ch :
  l ⊆ chain -> l ⊆ vs -> sound st ->
  wp (ComputeBlocks c l (st, ch)) (fun '(st', ch') => sound st' /\ grows st st' /\
    (st' = st /\ ch' = ch /\ (forall v, v ∈ l -> busy v -> stuck st v) \/ ch' = true /\ (todo vs st' < todo vs st)%nat)).
Proof.
  revert st ch. induction l as [|v l IH]; intros st ch Hl Hvs Hst; cbn [ComputeBlocks].
  { split_and!; [done | apply grows_refl | left]. split_and!; [done..|]. intros v Hv. by apply elem_of_nil in Hv. }
  eapply wp_bind, wp_mono; [apply (ComputeBlock_spec vs); [apply Hl; by left | apply Hvs; by left | done]|].
  intros [st1 ch1] (Hst1 & Hg1 & Hcase1).
  eapply wp_mono; [apply IH; [intros u Hu; apply Hl; by right | intros u Hu; apply Hvs; by right | done]|].
  intros [st2 ch2] (Hst2 & Hg2 & Hcase2). pose proof (todo_grows vs _ _ Hg1). pose proof (todo_grows vs _ _ Hg2).
  split_and!; [done | by eapply grows_trans |].
  destruct Hcase2 as [(-> & -> & Hn2)|(-> & Hlt)]; [|right; split; [done | lia]].
  destruct Hcase1 as [(-> & -> & Hn1)|(-> & Hlt)]; [|right; split; [done | lia]].
  left. split_and!; [done..|]. intros u [->|Hu]%elem_of_cons; [done | by apply Hn2].
Qed.

Lemma ComputePasses_spec vs fuel times st :
  chain ⊆ vs -> sound st -> (todo vs st <= fuel)%nat -> 0 <= times -> times + Z.of_nat fuel < 2 ^ 32 - 2 ->
  wp (ComputePasses c fuel times st) (fun st' => sound st' /\ grows st st' /\ forall v, busy v -> stuck st' v).
Proof.
  intros Hvs. revert times st. induction fuel as [|fuel IH]; intros times st Hst Hf Ht Hb; cbn [ComputePasses];
    rewrite wrap_small by lia;
    (apply wp_bind, wp_check; [apply negb_true_iff, Z.eqb_neq; lia|]);
    (eapply wp_bind, wp_mono; [by apply (ComputeBlocks_spec vs)|]);
    intros [st1 ch1] (Hst1 & Hg1 & Hcase1);
    (destruct Hcase1 as [(-> & -> & Hn)|(-> & Hlt)];
      [split_and!; [done..|]; intros v Hv; apply Hn; [apply Hv | done] |]).
  - lia.
  - eapply wp_mono; [apply IH; [done | lia..]|]. intros st2 (Hst2 & Hg2 & Hstuck).
    split_and!; [done | by eapply grows_trans | done].
Qed.

(** ** Nothing stays unknown *)

(** An edge between the places of the edges of a block is the only one. *)
Lemma unknowns_one st l i :
  NoDup l -> i ∈ l -> known st i = false -> (forall j, j ∈ l -> known st j = false -> j = i) -> unknowns st l = 1%nat.
Proof. intros. by apply (filter_length_one _ _ i). Qed.

Lemma unknowns_zero st l : (forall j, j ∈ l -> known st j = true) -> unknowns st l = 0%nat.
Proof.
  unfold unknowns. induction l as [|i l IH]; intros Hall; [done|]. rewrite filter_cons, decide_False.
  - apply IH. intros j Hj. apply Hall. by right.
  - rewrite Hall by (by left). done.
Qed.
End Flow.
