(* ===== verification/ProfUseTotal.v ===== *)
(** * Edge profiles: every count is found

    From the counts of the instrumented blocks InitBBEdgeInfo and ComputeEdgeFreq
    find those of all blocks and edges.  ApplyOnBB gives every block its executions
    and every edge its traversals, and with that what ApplyPGOData does for the
    counts of a flow. *)
From stdpp Require Import gmap sets.
From S2P Require Import Prelude.
From S2P Require Import CfgMst.
From S2P Require Import ProfUse.
From S2P Require Import CfgMstFacts.
From S2P Require Import CfgMstEdges.
From S2P Require Import ProfUseFacts.

Section Total.
Context (c : Cfg) (Hc : wf_cfg c) (m : CFGMST).
Context (Hm : Forall2 marked (stable_sort (build_edges c)) (allEdges m)) (Hk : kruskal (allEdges m)).
Notation es := (allEdges m).
Notation n := (length es).
Notation exit := (commonExit c).
Notation chain := (bb_chain c).
Notation iBBs := (iBBs c m).
Notation outs := (outs_to m n).
Notation ins := (ins_to m n).
Context (flow : nat -> nat -> Z) (visits : nat -> Z) (Hflow : conserved c m flow visits).
Notation sound := (sound c m flow visits).
Notation cnt := (cnt m flow).

(** ** Stuck blocks leave nothing unknown *)

(** What may be unknown after the counts of the blocks are used *)
Definition open (st : ProfState) : Prop :=
  forall i e, es !! i = Some e -> known st i = false -> inMST e = true \/ entry_edge c m (ends e).

Lemma edge_block v : joined c v -> v <> exit -> v ∈ chain.
Proof. intros Hj Hv. by apply (joined_busy c Hc). Qed.

Lemma open_no_loop st i e : open st -> es !! i = Some e -> known st i = false -> srcBB e <> destBB e.
Proof.
  intros Hopen Hi Hki Heq. destruct (Hopen i e Hi Hki) as [Hin|(Hf & Hs & _)].
  - apply (forest_no_loop (tree es) (srcBB e) (kruskal_forest _ Hk)).
    apply list_elem_of_fmap. exists e. split; [unfold ends; by rewrite Heq at 2|].
    apply list_elem_of_filter. split; [done | by eapply list_elem_of_lookup_2].
  - cbn in Hf, Hs. apply (first_not_succ c Hc (firstBB c)); [by left|]. rewrite Hs, <- Heq, Hf. by left.
Qed.

Lemma stuck_all_known st :
  (forall v, v ∈ iBBs -> is_set st v) -> open st -> (forall v, busy c v -> stuck m st v) ->
  forall i, known st i = false -> es !! i = None.
Proof.
  intros Hcounted Hopen Hstuck i Hki. destruct (es !! i) as [e0|] eqn:Hi; [|done]. exfalso.
  set (unknown := fun p : nat * nat => Exists (fun j => known st j = false /\ (ends <$> es !! j) = Some p) (seq 0 n)).
  assert (Hun : forall e, e ∈ es -> unknown (ends e) <-> exists j, es !! j = Some e /\ known st j = false).
  { intros e He. unfold unknown. rewrite Exists_exists. split.
    - intros (j & _ & Hkj & Hj). apply fmap_Some in Hj as (e' & Hj & Heq). apply list_elem_of_lookup in He as [j' Hj'].
      rewrite (edge_place_inj c Hc m Hm j' j e e' Hj' Hj Heq) in Hj'. by exists j.
    - intros (j & Hj & Hkj). exists j. split; [|split; [done | by rewrite Hj]].
      apply elem_of_seq. apply lookup_lt_Some in Hj. lia. }
  destruct (one_unknown c Hc m Hm Hk unknown) as (u & e & Hu1 & Hu2 & He & Heun & Ht & Hone).
  { intros e He (j & Hj & Hkj)%Hun; [|done]. by apply (Hopen j). }
  { exists e0. pose proof (list_elem_of_lookup_2 _ _ _ Hi) as He0. split; [done|]. apply Hun; [done|]. by exists i. }
  apply Hun in Heun as (k & Hek & Hkk); [|done].
  pose proof (open_no_loop st k e Hopen Hek Hkk) as Hloop. pose proof (lookup_lt_Some _ _ _ Hek) as Hkn.
  destruct (edge_joined c Hc m Hm k e Hek) as [Hjs Hjd].
  (* an unknown edge on the side [u] is that at [k] *)
  assert (Huniq : forall j e', es !! j = Some e' -> known st j = false -> touches u (sides c m (ends e')) -> j = k).
  { intros j e' Hj Hkj Ht'. pose proof (list_elem_of_lookup_2 _ _ _ Hj) as He'.
    apply (edge_place_inj c Hc m Hm j k e' e Hj Hek). apply Hone; [done | apply Hun; [done | by exists j] | done]. }
  assert (Houts : forall v, out_node c m v = u -> k ∈ outs v -> unknowns st (outs v) = 1%nat).
  { intros v Hv Hin. apply (unknowns_one st _ k); [apply outs_NoDup | done..|].
    intros j (_ & e' & Hj & <-)%elem_of_outs Hkj. apply (Huniq j e' Hj Hkj). by left. }
  assert (Hins : forall v, in_node c m v = u -> k ∈ ins v -> unknowns st (ins v) = 1%nat).
  { intros v Hv Hin. apply (unknowns_one st _ k); [apply ins_NoDup | done..|].
    intros j (_ & e' & Hj & <-)%elem_of_ins Hkj. apply (Huniq j e' Hj Hkj). by right. }
  assert (Hko : forall v, k ∈ outs v <-> v = srcBB e).
  { intros v. rewrite elem_of_outs. split; [intros (_ & e' & He' & <-); congruence | intros ->; split; [done | by exists e]]. }
  assert (Hki' : forall v, k ∈ ins v <-> v = destBB e).
  { intros v. rewrite elem_of_ins. split; [intros (_ & e' & He' & <-); congruence | intros ->; split; [done | by exists e]]. }
  (* the other side of a block that is not counted has no unknown edge *)
  assert (Hnouts : forall v, out_node c m v = u -> k ∉ outs v -> unknowns st (outs v) = 0%nat).
  { intros v Hv Hnot. apply unknowns_zero. intros j Hj. destruct (known st j) eqn:Hkj; [done|]. exfalso.
    pose proof Hj as (_ & e' & Hej & Hsrc)%elem_of_outs. apply Hnot.
    rewrite <- (Huniq j e' Hej Hkj); [done|]. left. cbn. by rewrite Hsrc. }
  assert (Hnins : forall v, in_node c m v = u -> k ∉ ins v -> unknowns st (ins v) = 0%nat).
  { intros v Hv Hnot. apply unknowns_zero. intros j Hj. destruct (known st j) eqn:Hkj; [done|]. exfalso.
    pose proof Hj as (_ & e' & Hej & Hdst)%elem_of_ins. apply Hnot.
    rewrite <- (Huniq j e' Hej Hkj); [done|]. right. cbn. by rewrite Hdst. }
  assert (Hnodes : forall v, v ∉ iBBs -> out_node c m v = in_node c m v).
  { intros v Hv. unfold out_node, in_node. by rewrite !(decide_False (P := v ∈ iBBs)). }
  destruct Ht as [Ht|Ht]; cbn in Ht.
  - assert (Hv : busy c (srcBB e)).
    { apply (joined_busy c Hc); [done|]. intros Hx. by rewrite Hx in Ht. }
    pose proof (Houts _ Ht (proj2 (Hko _) eq_refl)) as Ho1.
    destruct (Hstuck _ Hv) as [(_ & Ho & _)|(Hns & _ & Hi0)]; [done|].
    destruct (decide (srcBB e ∈ iBBs)) as [Hcnt|Hcnt]; [by apply Hns, Hcounted|].
    apply Hi0, Hnins; [by rewrite <- Hnodes|]. rewrite Hki'. done.
  - assert (Hv : busy c (destBB e)).
    { apply (joined_busy c Hc); [done|]. intros Hx. by rewrite Hx in Ht. }
    pose proof (Hins _ Ht (proj2 (Hki' _) eq_refl)) as Hi1.
    destruct (Hstuck _ Hv) as [(_ & _ & Hi0)|(Hns & Ho & _)]; [done|].
    destruct (decide (destBB e ∈ iBBs)) as [Hcnt|Hcnt]; [by apply Hns, Hcounted|].
    apply Ho, Hnouts; [by rewrite Hnodes|]. rewrite Hko. congruence.
Qed.

(** The state in which all is known *)
Definition complete (st : ProfState) : Prop :=
  sound st /\ (forall i e, es !! i = Some e -> known st i = true) /\ forall v, busy c v -> is_set st v.

Lemma stuck_complete st :
  sound st -> (forall v, v ∈ iBBs -> is_set st v) -> open st -> (forall v, busy c v -> stuck m st v) -> complete st.
Proof.
  intros Hst Hcounted Hopen Hstuck. pose proof (stuck_all_known st Hcounted Hopen Hstuck) as Hall.
  assert (Hknown : forall i e, es !! i = Some e -> known st i = true).
  { intros i e Hi. destruct (known st i) eqn:Hki; [done|]. by rewrite (Hall i Hki) in Hi. }
  split_and!; [done..|]. intros v Hv. destruct (Hstuck v Hv) as [[? _]|(_ & Ho & _)]; [done|].
  destruct Ho. apply unknowns_zero. intros j (_ & e & Hj & _)%elem_of_outs. by eapply Hknown.
Qed.

Lemma dom_size st : dom (bbProfileInfo st) ⊆ block_ids c -> (size (bbProfileInfo st) <= length chain + 1)%nat.
Proof.
  intros Hdom%subseteq_size. rewrite size_dom in Hdom. etrans; [exact Hdom|]. unfold block_ids.
  rewrite size_union_alt, size_singleton.
  assert (Hs : (size (list_to_set chain ∖ {[ exit ]} : gset nat) <= size (list_to_set chain : gset nat))%nat).
  { apply subseteq_size. set_solver. }
  rewrite size_list_to_set in Hs by apply Hc. lia.
Qed.

Lemma ComputeEdgeFreq_complete st :
  sound st -> (forall v, v ∈ iBBs -> is_set st v) -> open st -> dom (bbProfileInfo st) ⊆ block_ids c ->
  wp (ComputeEdgeFreq c st) complete.
Proof.
  intros Hst Hcounted Hopen Hdom. pose proof (n_small c Hc m Hm) as Hsmall. pose proof (dom_size st Hdom) as Hsize.
  assert (Hlen : length (useEdges st) = n) by (symmetry; eapply Forall2_length, Hst).
  set (vs := elements (dom (bbProfileInfo st) ∪ list_to_set chain)).
  unfold ComputeEdgeFreq. eapply wp_mono.
  - apply (ComputePasses_spec c Hc m Hm Hk flow visits Hflow vs).
    + intros v Hv. apply elem_of_elements, elem_of_union. right. by apply elem_of_list_to_set.
    + done.
    + unfold todo. rewrite Hlen. apply Nat.add_le_mono.
      { etrans; [apply unknowns_le|]. by rewrite length_seq. }
      rewrite <- size_dom. apply submseteq_length, NoDup_submseteq; [apply NoDup_filter, NoDup_elements|].
      intros v [Hv _]%list_elem_of_filter. apply elem_of_elements, elem_of_dom.
      destruct (bbProfileInfo st !! v); [by eexists | done].
    + lia.
    + rewrite Hlen. lia.
  - intros st' (Hst' & Hg & Hstuck). apply stuck_complete; [done | | |done].
    + intros v Hv. by apply (gr_set _ _ Hg), Hcounted.
    + intros i e Hi Hki. apply (Hopen i e Hi). destruct (known st i) eqn:Hkn; [|done].
      by rewrite (gr_known _ _ Hg i Hkn) in Hki.
Qed.

(** ** The start *)

(** The infos after the counts are set and the first [k] edges entered *)
Record started (k : nat) (st : ProfState) : Prop := {
  sd_edges : useEdges st = es;
  sd_info : forall v, default BBUseInfo_new (bbProfileInfo st !! v) =
    MkBBUseInfo (bool_decide (v ∈ iBBs)) (if decide (v ∈ iBBs) then visits v else 0)
      (Z.of_nat (length (ins_to m k v))) (Z.of_nat (length (outs_to m k v))) (ins_to m k v) (outs_to m k v);
  sd_dom : dom (bbProfileInfo st) ⊆ block_ids c;
  sd_in : forall i e, (i < k)%nat -> es !! i = Some e -> srcBB e ∈ dom (bbProfileInfo st) /\ destBB e ∈ dom (bbProfileInfo st)
}.

Lemma edge_ends_blocks e : e ∈ es -> srcBB e ∈ block_ids c /\ destBB e ∈ block_ids c.
Proof.
  intros He. rewrite !elem_of_block_ids. destruct (es_plain c Hc m Hm e He) as ([[Hv Hs]|[[Hp ->]|[-> ->]]] & _).
  - split; right; [done|]. by apply (wc_succs _ Hc (srcBB e)).
  - split; [right | by left]. by apply (wc_last _ Hc).
  - split; [by left | right; by left].
Qed.

Lemma counted_block v : v ∈ iBBs -> v ∈ block_ids c.
Proof.
  intros (e & -> & He)%list_elem_of_fmap. apply list_elem_of_filter in He as [_ He].
  destruct (edge_ends_blocks e He). unfold pick_bb. by repeat case_match.
Qed.

(** Updating the info of one block *)
Lemma update_info_spec v b f st :
  b = false \/ v ∈ dom (bbProfileInfo st) ->
  update_info v b f st = Ret (put_info v (f (default BBUseInfo_new (bbProfileInfo st !! v))) st).
Proof.
  intros Hb. unfold update_info, GetOrCreateBBUseInfo. destruct (bbProfileInfo st !! v) as [i|] eqn:Hv; [done|].
  destruct Hb as [->|Hin]; [done|]. by apply elem_of_dom in Hin as [? ?]; congruence.
Qed.

Lemma SetCounts_started l st :
  useEdges st = es -> (forall v, v ∈ l -> v ∈ iBBs) -> dom (bbProfileInfo st) ⊆ block_ids c ->
  (forall v, default BBUseInfo_new (bbProfileInfo st !! v) = BBUseInfo_new \/
     v ∈ iBBs /\ bbProfileInfo st !! v = Some (MkBBUseInfo true (visits v) 0 0 [] [])) ->
  (forall v, v ∈ iBBs -> v ∈ l \/ bbProfileInfo st !! v = Some (MkBBUseInfo true (visits v) 0 0 [] [])) ->
  wp (SetCounts l (map visits l) st) (started 0).
Proof.
  revert st. induction l as [|v l IH]; intros st He Hl Hdom Hnew Hdone; cbn [SetCounts map].
  - constructor; [done | | done | intros; lia]. intros v.
    assert (Hz : ins_to m 0 v = [] /\ outs_to m 0 v = []) by done. destruct Hz as [-> ->].
    destruct (decide (v ∈ iBBs)) as [Hv|Hv].
    + destruct (Hdone v Hv) as [Hin| ->]; [by apply elem_of_nil in Hin|]. by rewrite bool_decide_eq_true_2.
    + rewrite bool_decide_eq_false_2 by done. by destruct (Hnew v) as [->|[? _]].
  - rewrite update_info_spec by (by left). cbn [mbind res_bind].
    assert (Hv : v ∈ iBBs) by (apply Hl; by left).
    assert (Hput : BBUseInfo_SetCount (visits v) (default BBUseInfo_new (bbProfileInfo st !! v)) =
      MkBBUseInfo true (visits v) 0 0 [] []).
    { destruct (Hnew v) as [->|[_ ->]]; done. }
    rewrite Hput. apply IH.
    + done.
    + intros u Hu. apply Hl. by right.
    + unfold put_info. cbn. rewrite dom_insert_L. pose proof (counted_block v Hv). set_solver.
    + intros u. unfold put_info. cbn. destruct (decide (u = v)) as [->|Hne].
      * right. by rewrite lookup_insert_eq.
      * by rewrite lookup_insert_ne.
    + intros u Hu. unfold put_info. cbn. destruct (decide (u = v)) as [->|Hne].
      * right. by rewrite lookup_insert_eq.
      * rewrite lookup_insert_ne by done. destruct (Hdone u Hu) as [[->|?]%elem_of_cons|?]; [done | by left | by right].
Qed.

Lemma seq_filter_snoc (P : nat -> Prop) `{forall i, Decision (P i)} k :
  filter P (seq 0 (S k)) = filter P (seq 0 k) ++ if decide (P k) then [k] else [].
Proof. rewrite seq_S, filter_app, filter_cons, filter_nil. done. Qed.

Lemma AddToInfos_started k st :
  (k < n)%nat -> started k st -> wp (AddToInfos k st) (started (S k)).
Proof.
  intros Hkn [He Hi Hd Hin]. destruct (lookup_lt_is_Some_2 _ _ Hkn) as [e Hek].
  pose proof (list_elem_of_lookup_2 _ _ _ Hek) as Hees. destruct (edge_ends_blocks e Hees) as [Hsb Hdb].
  destruct (es_plain c Hc m Hm e Hees) as (_ & _ & _ & Hvalid & _).
  unfold AddToInfos, edge_at. rewrite He, Hek. cbn [mbind res_bind]. rewrite Hvalid.
  rewrite update_info_spec by (by left). cbn [mbind res_bind]. rewrite update_info_spec by (by left).
  pose proof (n_small c Hc m Hm) as Hsmall.
  assert (Ho : forall v, outs_to m (S k) v = outs_to m k v ++ if decide (srcBB e = v) then [k] else []).
  { intros v. unfold outs_to. rewrite seq_filter_snoc. f_equal. rewrite Hek. cbn.
    destruct (decide (srcBB e = v)) as [->|Hne]; [by rewrite decide_True | rewrite decide_False; congruence]. }
  assert (Hii : forall v, ins_to m (S k) v = ins_to m k v ++ if decide (destBB e = v) then [k] else []).
  { intros v. unfold ins_to. rewrite seq_filter_snoc. f_equal. rewrite Hek. cbn.
    destruct (decide (destBB e = v)) as [->|Hne]; [by rewrite decide_True | rewrite decide_False; congruence]. }
  assert (Hbo : forall v, (length (outs_to m k v) <= k)%nat).
  { intros v. unfold outs_to. etrans; [apply length_filter|]. by rewrite length_seq. }
  assert (Hbi : forall v, (length (ins_to m k v) <= k)%nat).
  { intros v. unfold ins_to. etrans; [apply length_filter|]. by rewrite length_seq. }
  set (s1 := put_info (srcBB e) (AddOutEdge k false (default BBUseInfo_new (bbProfileInfo st !! srcBB e))) st).
  assert (H1 : forall v, default BBUseInfo_new (bbProfileInfo s1 !! v) =
    MkBBUseInfo (bool_decide (v ∈ iBBs)) (if decide (v ∈ iBBs) then visits v else 0)
      (Z.of_nat (length (ins_to m k v))) (Z.of_nat (length (outs_to m (S k) v))) (ins_to m k v) (outs_to m (S k) v)).
  { intros v. unfold s1, put_info. cbn [bbProfileInfo]. rewrite Ho. destruct (decide (srcBB e = v)) as [<-|Hne].
    - rewrite lookup_insert_eq, Hi. unfold AddOutEdge. cbn [from_option id valid countValue unknownInEdges unknownOutEdges inEdges outEdges].
      rewrite length_app. cbn [length]. specialize (Hbo (srcBB e)). rewrite wrap_small by lia. cbn. f_equal. lia.
    - by rewrite lookup_insert_ne, Hi, app_nil_r by done. }
  constructor; [done | | |].
  - intros v. unfold put_info. cbn [bbProfileInfo]. rewrite Hii. destruct (decide (destBB e = v)) as [<-|Hne].
    + rewrite lookup_insert_eq, H1. unfold AddInEdge. cbn [from_option id valid countValue unknownInEdges unknownOutEdges inEdges outEdges].
      rewrite length_app. cbn [length]. specialize (Hbi (destBB e)). rewrite wrap_small by lia. cbn. f_equal. lia.
    + rewrite lookup_insert_ne by done. rewrite app_nil_r. apply H1.
  - unfold s1, put_info. cbn. rewrite !dom_insert_L. set_solver.
  - intros i e' Hlt He'. unfold s1, put_info. cbn. rewrite !dom_insert_L.
    destruct (decide (i = k)) as [->|Hne]; [rewrite Hek in He'; injection He' as <-; set_solver|].
    destruct (Hin i e' ltac:(lia) He'). set_solver.
Qed.

Lemma started_sound st : started n st -> sound st.
Proof.
  intros [He Hi Hd Hin]. constructor.
  - rewrite He. apply Forall2_lookup. intros i. destruct (es !! i) as [e|] eqn:Hei; constructor.
    destruct (es_plain c Hc m Hm e (list_elem_of_lookup_2 _ _ _ Hei)) as (_ & _ & _ & Hv & Hcount).
    by rewrite Hv, Hcount.
  - intros v Hj. assert (Hdom : v ∈ dom (bbProfileInfo st)).
    { destruct Hj as [s [Hs|Hs]]; apply (is_edge_es c m Hm) in Hs as (e & He' & Hends);
        apply list_elem_of_lookup in He' as [i Hei]; destruct (Hin i e (lookup_lt_Some _ _ _ Hei) Hei) as [Hs Hd'];
        unfold ends in Hends; congruence. }
    apply elem_of_dom in Hdom as [i Hvi]. exists i. specialize (Hi v). rewrite Hvi in Hi. cbn in Hi.
    assert (Hall : forall l, (forall j, j ∈ l -> (j < n)%nat) -> unknowns st l = length l).
    { unfold unknowns. induction l as [|j l IH]; intros Hl; [done|]. rewrite filter_cons, decide_True.
      - simpl. f_equal. apply IH. intros k Hkl. apply Hl. by right.
      - unfold known. rewrite He. destruct (lookup_lt_is_Some_2 es j) as [e Hej]; [apply Hl; by left|].
        rewrite Hej. by apply (es_plain c Hc m Hm e (list_elem_of_lookup_2 _ _ _ Hej)). }
    rewrite Hi. cbn [outEdges inEdges unknownOutEdges unknownInEdges valid countValue].
    rewrite !Hall; [|by intros j [? _]%elem_of_ins|by intros j [? _]%elem_of_outs].
    split_and!; [by rewrite Hvi, Hi|done..|]. intros Hv%bool_decide_eq_true. by rewrite decide_True.
Qed.

(** ** The counts of the edges that are not in the tree *)

Lemma single_out v i : (forall s, is_edge c v s -> exists e, es !! i = Some e /\ ends e = (v, s)) -> (exists e, es !! i = Some e /\ srcBB e = v) -> outs v = [i].
Proof.
  intros Hall (e & Hi & Hs). apply Permutation_singleton_r. apply NoDup_Permutation; [apply outs_NoDup | apply NoDup_singleton |].
  intros j. rewrite list_elem_of_singleton, elem_of_outs. apply and_comm. split.
  - intros ->. split; [by eapply lookup_lt_Some | by exists e].
  - intros (_ & e' & Hj & Hs'). destruct (Hall (destBB e')) as (e'' & Hi' & Hends).
    + rewrite <- Hs'. apply (es_plain c Hc m Hm). by eapply list_elem_of_lookup_2.
    + apply (edge_place_inj c Hc m Hm j i e' e'' Hj Hi'). rewrite Hends. unfold ends. by rewrite Hs'.
Qed.

Lemma single_in v i : (forall s, is_edge c s v -> exists e, es !! i = Some e /\ ends e = (s, v)) -> (exists e, es !! i = Some e /\ destBB e = v) -> ins v = [i].
Proof.
  intros Hall (e & Hi & Hs). apply Permutation_singleton_r. apply NoDup_Permutation; [apply ins_NoDup | apply NoDup_singleton |].
  intros j. rewrite list_elem_of_singleton, elem_of_ins. apply and_comm. split.
  - intros ->. split; [by eapply lookup_lt_Some | by exists e].
  - intros (_ & e' & Hj & Hs'). destruct (Hall (srcBB e')) as (e'' & Hi' & Hends).
    + rewrite <- Hs'. apply (es_plain c Hc m Hm). by eapply list_elem_of_lookup_2.
    + apply (edge_place_inj c Hc m Hm j i e' e'' Hj Hi'). rewrite Hends. unfold ends. by rewrite Hs'.
Qed.

(** A block with one edge on a side gives it its count. *)
Lemma only_edge l i v : v ∈ chain -> i ∈ l -> length l = 1%nat -> total m flow l = visits v -> cnt i = visits v.
Proof.
  intros Hv Hi Hl Ht. destruct l as [|j [|? ?]]; [done | | done]. apply list_elem_of_singleton in Hi as ->.
  unfold total in Ht. cbn in Ht. lia.
Qed.

(** What holds between the steps of InitEdge *)
Record initial (k : nat) (st : ProfState) : Prop := {
  il_sound : sound st;
  il_set : forall v, v ∈ iBBs -> is_set st v;
  il_only : forall v, is_set st v -> v ∈ chain;
  il_dom : dom (bbProfileInfo st) ⊆ block_ids c;
  il_open : forall i e, (i < k)%nat -> es !! i = Some e -> known st i = false -> inMST e = true \/ entry_edge c m (ends e)
}.

Lemma initial_sets k i st st' :
  initial k st -> sets c m flow visits i st st' -> initial k st'.
Proof.
  intros [H1 H2 H3 H4 H5] Hs. pose proof (sets_grows _ _ _ _ _ _ _ Hs) as Hg. constructor.
  - apply Hs.
  - intros v Hv. by apply (gr_set _ _ Hg), H2.
  - intros v. unfold is_set. rewrite (st_set _ _ _ _ _ _ _ Hs). apply H3.
  - by rewrite (gr_dom _ _ Hg).
  - intros j e Hj He Hkj. apply (H5 j e Hj He). destruct (known st j) eqn:Hk0; [|done].
    by rewrite (gr_known _ _ Hg j Hk0) in Hkj.
Qed.

Lemma initial_next k e st :
  initial k st -> es !! k = Some e -> (known st k = false -> inMST e = true \/ entry_edge c m (ends e)) -> initial (S k) st.
Proof.
  intros [H1 H2 H3 H4 H5] He Hnext. constructor; try done. intros i e' Hi He' Hki.
  destruct (decide (i = k)) as [->|Hne]; [|by apply (H5 i e'); [lia|..]].
  rewrite He in He'. injection He' as <-. by apply Hnext.
Qed.

Lemma edge_at_some st i e : useEdges st !! i = Some e -> edge_at st i = Ret e.
Proof. intros He. unfold edge_at. by rewrite He. Qed.

Lemma InitEdge_initial k st : (k < n)%nat -> initial k st -> wp (InitEdge k st) (initial (S k)).
Proof.
  intros Hkn Hini. destruct (lookup_lt_is_Some_2 _ _ Hkn) as [e0 He0]. pose proof (il_sound _ _ Hini) as Hst.
  destruct (sound_edge c m flow visits st k e0 Hst He0) as (e & He & Hends & Hmst & _ & Hknown).
  assert (Hsrc : srcBB e = srcBB e0) by (unfold ends in Hends; congruence).
  assert (Hdst : destBB e = destBB e0) by (unfold ends in Hends; congruence).
  unfold InitEdge. rewrite (edge_at_some _ _ _ He). cbn [mbind res_bind]. rewrite Hmst.
  destruct (inMST e0) eqn:Hin; [apply (initial_next k e0 st Hini He0); by left|].
  destruct (edge_joined c Hc m Hm k e0 He0) as [Hjs Hjd].
  destruct (so_info _ _ _ _ _ Hst _ Hjs) as (si & Hsi & Hso & _ & _ & _ & Hsv).
  destruct (so_info _ _ _ _ _ Hst _ Hjd) as (di & Hdi & _ & Hdn & _ & _ & Hdv).
  rewrite Hsrc, Hdst, (GetOrCreate_some _ _ _ _ Hsi). cbn [mbind res_bind].
  rewrite (GetOrCreate_some _ _ _ _ Hdi). cbn [mbind res_bind]. rewrite Hso, Hdn.
  (* once the count is set, the rest of the step does nothing *)
  assert (Hrest : forall st', sets c m flow visits k st st' ->
    wp (e ← edge_at st' k; if e_valid e then Ret st' else
        s ← GetOrCreateBBUseInfo (srcBB e) true st'; d ← GetOrCreateBBUseInfo (destBB e) true st';
        if valid s || valid d then Ret st' else SetEdgeCount k 0 st') (initial (S k))).
  { intros st' Hs. pose proof (initial_sets k k st st' Hini Hs) as Hini'.
    destruct (sound_edge c m flow visits st' k e0 (st_sound _ _ _ _ _ _ _ Hs) He0) as (e' & He' & _ & _ & _ & Hk').
    rewrite (st_known _ _ _ _ _ _ _ Hs), decide_True in Hk' by done.
    rewrite (edge_at_some _ _ _ He'). cbn [mbind res_bind]. rewrite <- Hk'.
    apply (initial_next k e0 st' Hini' He0). rewrite (st_known _ _ _ _ _ _ _ Hs), decide_True by done. done. }
  assert (Hko : k ∈ outs (srcBB e0)) by (apply elem_of_outs; split; [done | by exists e0]).
  assert (Hki : k ∈ ins (destBB e0)) by (apply elem_of_ins; split; [done | by exists e0]).
  assert (Hset : forall v i, bbProfileInfo st !! v = Some i -> valid i = true -> v ∈ chain).
  { intros v i Hi Hv. apply (il_only _ _ Hini). unfold is_set. rewrite Hi. cbn. by rewrite Hv. }
  destruct (valid si && (length (outs (srcBB e0)) =? 1)%nat) eqn:Hs.
  { apply andb_true_iff in Hs as [Hvs Hl%Nat.eqb_eq]. pose proof (Hset _ _ Hsi Hvs) as Hch.
    eapply wp_bind, wp_mono; [|exact Hrest]. apply (SetEdgeCount_spec c Hc m Hm flow visits st k e0); [done..|].
    rewrite Hsv by done. symmetry. apply (only_edge (outs (srcBB e0)) k (srcBB e0)); try done. by apply (cs_out _ _ _ _ Hflow). }
  destruct (valid di && (length (ins (destBB e0)) =? 1)%nat) eqn:Hd.
  { apply andb_true_iff in Hd as [Hvd Hl%Nat.eqb_eq]. pose proof (Hset _ _ Hdi Hvd) as Hch.
    eapply wp_bind, wp_mono; [|exact Hrest]. apply (SetEdgeCount_spec c Hc m Hm flow visits st k e0); [done..|].
    rewrite Hdv by done. symmetry. apply (only_edge (ins (destBB e0)) k (destBB e0)); try done. by apply (cs_in _ _ _ _ Hflow). }
  cbn [mbind res_bind]. rewrite (edge_at_some _ _ _ He). cbn [mbind res_bind].
  destruct (e_valid e) eqn:Hve; [apply (initial_next k e0 st Hini He0); congruence|].
  assert (Hcnt : forall v i, v ∈ iBBs -> bbProfileInfo st !! v = Some i -> valid i = true).
  { intros v i Hv Hi. pose proof (il_set _ _ Hini v Hv) as Hs'. unfold is_set in Hs'. rewrite Hi in Hs'. by injection Hs'. }
  destruct (counted c Hc m Hm Hk e0 (list_elem_of_lookup_2 _ _ _ He0) Hin) as [[Hc1 Hu]|[[Hc1 Hu]|(Hf & Hs1 & Hc1)]].
  - exfalso. rewrite (Hcnt _ _ Hc1 Hsi), (single_out (srcBB e0) k) in Hs; [done | | by exists e0].
    intros s Hs'. exists e0. split; [done|]. unfold ends. by rewrite (Hu s Hs').
  - exfalso. rewrite (Hcnt _ _ Hc1 Hdi), (single_in (destBB e0) k) in Hd; [done | | by exists e0].
    intros v Hv. exists e0. split; [done|]. unfold ends. by rewrite (Hu v Hv).
  - rewrite Hsrc, Hdst, (GetOrCreate_some _ _ _ _ Hsi). cbn [mbind res_bind]. rewrite (GetOrCreate_some _ _ _ _ Hdi). cbn [mbind res_bind].
    rewrite (Hcnt _ _ Hc1 Hdi), orb_true_r. apply (initial_next k e0 st Hini He0). intros _. by right.
Qed.

Lemma InitBBEdgeInfo_initial st : started 0 st -> wp (InitBBEdgeInfo st) (initial n).
Proof.
  intros Hst. unfold InitBBEdgeInfo. rewrite (sd_edges _ _ Hst). eapply wp_bind, wp_mono.
  - apply (wp_for_up started); [done|]. intros k st' Hkn Hs. apply AddToInfos_started; [lia | done].
  - intros st1 Hst1. simpl in Hst1. rewrite (sd_edges _ _ Hst1).
    apply (wp_for_up initial); [|intros k st' Hkn; apply InitEdge_initial; lia].
    pose proof (sd_info _ _ Hst1) as Hinfo.
    constructor; [by apply started_sound | | | apply Hst1 | intros; lia].
    + intros v Hv. specialize (Hinfo v). unfold is_set. destruct (bbProfileInfo st1 !! v) as [i|] eqn:Hi; cbn in Hinfo.
      * rewrite Hinfo. cbn. by rewrite bool_decide_eq_true_2.
      * apply (f_equal valid) in Hinfo. cbn in Hinfo. by rewrite bool_decide_eq_true_2 in Hinfo.
    + intros v Hv. specialize (Hinfo v). unfold is_set in Hv. destruct (bbProfileInfo st1 !! v) as [i|] eqn:Hi; [|done].
      cbn in Hinfo, Hv. rewrite Hinfo in Hv. cbn in Hv. injection Hv as Hv%bool_decide_eq_true.
      pose proof (counted_block v Hv) as [->|?]%elem_of_block_ids; [by destruct (exit_not_counted c Hc m Hm Hk) | done].
Qed.

(** The counts of the instrumented blocks give all others. *)
Lemma counts_complete :
  wp (st ← SetCounts iBBs (map visits iBBs) (MkProfState es ∅);
      st ← InitBBEdgeInfo st; ComputeEdgeFreq c st) complete.
Proof.
  eapply wp_bind, wp_mono.
  - apply SetCounts_started; [done | done | set_solver | | by left]. intros v. left. cbn. by rewrite lookup_empty.
  - intros st1 Hst1. eapply wp_bind, wp_mono; [by apply InitBBEdgeInfo_initial|].
    intros st2 [H1 H2 _ H4 H5]. apply ComputeEdgeFreq_complete; try done.
    intros i e Hi. by apply H5; [eapply lookup_lt_Some|].
Qed.
End Total.

(** ** The counts of the blocks *)

Lemma index_of_spec d succs :
  d ∈ succs -> exists k, succ_index d succs = Some k /\ succs !! k = Some d.
Proof.
  induction succs as [|s succs IH]; [by intros ?%elem_of_nil|]. cbn [succ_index].
  destruct (Nat.eqb_spec s d) as [->|Hne]; [by exists O|].
  intros [->|(k & -> & Hk)%IH]%elem_of_cons; [done|]. by exists (S k).
Qed.

Definition isolated (c : Cfg) (v : nat) : bool :=
  (length (GetSuccs c v) =? 0)%nat && (length (GetPreds c v) =? 0)%nat.

Lemma isolated_spec c v : isolated c v = true <-> GetSuccs c v = [] /\ GetPreds c v = [].
Proof. unfold isolated. by rewrite andb_true_iff, !Nat.eqb_eq, !length_zero_iff_nil. Qed.

Section Apply.
Context (c : Cfg) (Hc : wf_cfg c) (m : CFGMST).
Context (Hm : Forall2 marked (stable_sort (build_edges c)) (allEdges m)) (Hk : kruskal (allEdges m)).
Notation es := (allEdges m).
Notation n := (length es).
Notation chain := (bb_chain c).
Notation outs := (outs_to m n).
Context (flow : nat -> nat -> Z) (visits : nat -> Z) (Hflow : conserved c m flow visits).
Context (st : ProfState) (Hst : complete c m flow visits st).

(** An edge of the block, with its count *)
Lemma out_edge v i :
  v ∈ chain -> i ∈ outs v ->
  exists e0 e, es !! i = Some e0 /\ edge_at st i = Ret e /\ destBB e = destBB e0 /\ e_countValue e = flow v (destBB e0) /\
    (destBB e0 = commonExit c \/ destBB e0 <> commonExit c /\ destBB e0 ∈ GetSuccs c v).
Proof.
  intros Hv (_ & e0 & Hi & <-)%elem_of_outs. destruct Hst as (Hsound & Hall & _).
  destruct (sound_edge c m flow visits st i e0 Hsound Hi) as (e & He & Hends & _ & Hcount & Hknown).
  exists e0, e. rewrite Hcount, <- Hknown, (Hall i e0 Hi). unfold cnt. rewrite Hi.
  split_and!; [done | by apply edge_at_some | unfold ends in Hends; congruence | done |].
  destruct (es_plain c Hc m Hm e0 (list_elem_of_lookup_2 _ _ _ Hi)) as ([[_ Hs]|[[_ ->]|[Hx _]]] & _).
  - right. split; [|done]. by eapply exit_not_succ.
  - by left.
  - destruct (wc_exit _ Hc). by rewrite <- Hx.
Qed.

(** A block with the frequency [f] and those of its edges *)
Definition has_freqs (v : nat) (f : Z) (fs : gmap nat BBFreq) (sf : list Z) : Prop :=
  bb_freq fs v = MkBBFreq f sf /\ length sf = length (GetSuccs c v).

Lemma SetEdgeFreq_spec v d f fs sf :
  v ∈ chain -> d ∈ GetSuccs c v -> has_freqs v f fs sf ->
  exists sf', SetEdgeFreq c v d (flow v d) fs = Ret (<[v := MkBBFreq f sf']> fs) /\
    length sf' = length (GetSuccs c v) /\
    forall j x, GetSuccs c v !! j = Some x -> x = d \/ sf !! j = Some (flow v x) -> sf' !! j = Some (flow v x).
Proof.
  intros Hv Hd [Hf Hlen]. destruct (index_of_spec d _ Hd) as (k & Hidx & Hkd). unfold SetEdgeFreq. rewrite Hidx, Hf.
  cbn [succsFreq frequency]. rewrite Hlen, Nat.eqb_refl. cbn [CHECK_FATAL mbind res_bind].
  exists (<[k := flow v d]> sf). split_and!; [done | by rewrite length_insert|].
  intros j x Hj Hx. destruct (decide (j = k)) as [->|Hne].
  - rewrite Hkd in Hj. injection Hj as ->. apply list_lookup_insert_eq. rewrite Hlen. by eapply lookup_lt_Some.
  - rewrite list_lookup_insert_ne by done. destruct Hx as [->|Hx]; [|done].
    destruct Hne. by eapply (NoDup_lookup (GetSuccs c v)), Hkd; [apply (wc_simple _ Hc)|].
Qed.

Lemma ApplyEdges_spec v f l fs sf :
  v ∈ chain -> (forall i, i ∈ l -> i ∈ outs v) -> has_freqs v f fs sf -> fs !! v = Some (MkBBFreq f sf) ->
  exists sf', ApplyEdges c st v l fs = Ret (<[v := MkBBFreq f sf']> fs) /\ length sf' = length (GetSuccs c v) /\
    forall j x, GetSuccs c v !! j = Some x ->
      (exists i e, i ∈ l /\ es !! i = Some e /\ destBB e = x) \/ sf !! j = Some (flow v x) -> sf' !! j = Some (flow v x).
Proof.
  intros Hv. revert fs sf. induction l as [|i l IH]; intros fs sf Hl Hf Hfs; cbn [ApplyEdges].
  { exists sf. split; [by rewrite insert_id|]. split; [apply Hf|]. intros j x _ [(i & ? & Hi & _)|Hx]; [|done].
    by apply elem_of_nil in Hi. }
  assert (Hi : i ∈ outs v) by (apply Hl; by left).
  assert (Hl' : forall j, j ∈ l -> j ∈ outs v) by (intros j Hj; apply Hl; by right).
  destruct (out_edge v i Hv Hi) as (e0 & e & He0 & -> & Hde & Hcount & Hd). cbn [mbind res_bind]. rewrite Hde, Hcount.
  destruct Hd as [Hexit|[Hne Hsucc]].
  - rewrite Hexit, Nat.eqb_refl. cbn [mbind res_bind]. destruct (IH fs sf Hl' Hf Hfs) as (sf' & -> & Hlen & Hall).
    exists sf'. split_and!; [done..|]. intros j x Hj [(i' & e' & Hi' & He' & Hx)|Hx]; [|by apply Hall; [|right]].
    apply Hall; [done|]. left. exists i', e'. apply elem_of_cons in Hi' as [->|Hi']; [|done]. exfalso.
    rewrite He0 in He'. injection He' as <-. apply (exit_not_succ c Hc v x); [done | by eapply list_elem_of_lookup_2 | congruence].
  - destruct (Nat.eqb_spec (destBB e0) (commonExit c)) as [?|_]; [done|].
    destruct (SetEdgeFreq_spec v (destBB e0) f fs sf Hv Hsucc Hf) as (sf1 & -> & Hlen1 & Hall1). cbn [mbind res_bind].
    destruct (IH (<[v := MkBBFreq f sf1]> fs) sf1) as (sf' & -> & Hlen & Hall); [done | | by rewrite lookup_insert_eq|].
    { split; [|done]. unfold bb_freq. by rewrite lookup_insert_eq. }
    exists sf'. rewrite insert_insert_eq. split_and!; [done..|]. intros j x Hj Hx. apply Hall; [done|].
    destruct Hx as [(i' & e' & Hi' & He' & Hx)|Hx]; [|by right; apply Hall1; [|right]].
    apply elem_of_cons in Hi' as [->|Hi']; [|left; by exists i', e']. right. apply Hall1; [done|]. left. congruence.
Qed.

(** What ApplyOnBB leaves at a block *)
Definition block_freq (v : nat) : BBFreq := MkBBFreq (visits v) (map (flow v) (GetSuccs c v)).

Lemma ApplyBlock_spec v fs :
  v ∈ chain -> ApplyBlock c st v fs = Ret (if isolated c v then fs else <[v := block_freq v]> fs).
Proof.
  intros Hv. unfold ApplyBlock. fold (isolated c v). destruct (isolated c v) eqn:Hiso; [done|].
  assert (Hbusy : busy c v).
  { split; [done|]. intros Hnil%isolated_spec. congruence. }
  destruct Hst as (Hsound & _ & Hset).
  destruct (so_info _ _ _ _ _ Hsound v (busy_joined c Hc v Hbusy)) as (i & Hi & Ho & _ & _ & _ & Hcount).
  rewrite (GetOrCreate_some _ _ _ _ Hi). cbn [mbind res_bind].
  assert (Hvalid : valid i = true).
  { pose proof (Hset v Hbusy) as Hs. unfold is_set in Hs. rewrite Hi in Hs. by injection Hs. }
  rewrite Hcount, wrap_small by (done || apply (cs_visits _ _ _ _ Hflow); done).
  destruct (Nat.eqb_spec v (commonExit c)) as [->|_]; [by destruct (wc_exit _ Hc)|].
  rewrite Ho. unfold InitEdgeFreq, SetFrequency, bb_freq at 1. rewrite lookup_insert_eq, insert_insert_eq.
  cbn [from_option id frequency succsFreq].
  set (sf := take _ _ ++ _).
  destruct (ApplyEdges_spec v (visits v) (outs v) (<[v := MkBBFreq (visits v) sf]> fs) sf) as (sf' & Happ & Hlen & Hall).
  - done.
  - done.
  - split; [unfold bb_freq; by rewrite lookup_insert_eq|]. unfold sf. rewrite length_app, length_take, length_replicate. lia.
  - by rewrite lookup_insert_eq.
  - rewrite Happ, insert_insert_eq. unfold block_freq. replace (map (flow v) (GetSuccs c v)) with sf'; [done|].
    eapply list_eq_same_length; [apply length_map | done|].
    intros j x y _ Hx Hy. rewrite list_lookup_fmap in Hy. apply fmap_Some in Hy as (d & Hd & ->).
    rewrite (Hall j d Hd) in Hx; [by injection Hx|]. left.
    assert (He : is_edge c v d) by (left; split; [done | by eapply list_elem_of_lookup_2]).
    apply (is_edge_es c m Hm) in He as (e & He & Hends). apply list_elem_of_lookup in He as [k Hkk].
    unfold ends in Hends. injection Hends as Hs Hdst. exists k, e. split_and!; [|done..].
    apply elem_of_outs. split; [by eapply lookup_lt_Some | by exists e].
Qed.

Lemma ApplyOnBB_spec l fs :
  l ⊆ chain ->
  exists fs', ApplyOnBB c st l fs = Ret fs' /\
    forall v, fs' !! v = if decide (v ∈ l /\ isolated c v = false) then Some (block_freq v) else fs !! v.
Proof.
  revert fs. induction l as [|v l IH]; intros fs Hl; cbn [ApplyOnBB].
  { exists fs. split; [done|]. intros v. rewrite decide_False; [done|]. by intros [?%elem_of_nil _]. }
  rewrite ApplyBlock_spec by (apply Hl; by left). cbn [mbind res_bind].
  destruct (IH (if isolated c v then fs else <[v := block_freq v]> fs)) as (fs' & -> & Hfs'); [intros u Hu; apply Hl; by right|].
  exists fs'. split; [done|]. intros u. rewrite Hfs'.
  pose proof (elem_of_cons l u v) as Hin. destruct (decide (u = v)) as [->|Hne].
  - destruct (isolated c v) eqn:Hiso; [by rewrite !decide_False by (intros [_ ?]; done)|].
    rewrite (decide_True (P := v ∈ v :: l /\ _)) by tauto. case_decide; [done | by rewrite lookup_insert_eq].
  - destruct (isolated c v); [|rewrite lookup_insert_ne by done]; repeat case_decide; naive_solver.
Qed.
End Apply.
