(* ===== verification/ProfSpec.v ===== *)
(** * Edge profiles: what the instrumentation and the use of a profile promise

    The tree is a spanning forest of the greatest weight, so the blocks that are
    counted are those the heaviest edges need not pay for; and the counts of these
    blocks give back the executions of all blocks and the traversals of all edges.
    A run is the list of the blocks it executes: the blocks that the runs execute
    and the edges they take are a flow. *)
From stdpp Require Import gmap sets.
From S2P Require Import Prelude.
From S2P Require Import CfgMst.
From S2P Require Import ProfUse.
From S2P Require Import CfgMstFacts.
From S2P Require Import CfgMstEdges.
From S2P Require Import ProfUseFacts.
From S2P Require Import ProfUseTotal.

(** ** The runs of a function *)

Definition occurrences {A : Type} `{EqDecision A} (x : A) (l : list A) : nat := length (filter (fun y => y = x) l).

Lemma filter_length_map {A B : Type} (f : A -> B) (P : B -> Prop) `{forall y, Decision (P y)} (l : list A) :
  length (filter P (map f l)) = length (filter (fun x => P (f x)) l).
Proof.
  induction l as [|x l IH]; [done|]. cbn [map]. rewrite !filter_cons.
  destruct (decide (P (f x))); simpl; by rewrite IH.
Qed.

Lemma occurrences_app {A : Type} `{EqDecision A} (x : A) l1 l2 :
  occurrences x (l1 ++ l2) = (occurrences x l1 + occurrences x l2)%nat.
Proof. unfold occurrences. by rewrite filter_app, length_app. Qed.

(** Each element of [T] is counted once. *)
Lemma occurrences_sum {A : Type} `{EqDecision A} (P : A -> Prop) `{forall x, Decision (P x)} (ps T : list A) :
  NoDup ps -> T ⊆ ps -> sum_list (map (fun p => occurrences p T) (filter P ps)) = length (filter P T).
Proof.
  intros Hnd. induction T as [|t T IH]; intros Hsub.
  - induction (filter P ps); simpl; auto.
  - assert (HT : T ⊆ ps) by (intros x Hx; apply Hsub; by right). rewrite filter_cons.
    assert (Hgen : forall qs, NoDup qs -> sum_list (map (fun p => occurrences p (t :: T)) qs) =
      (sum_list (map (fun p => occurrences p T) qs) + if decide (t ∈ qs) then 1 else 0)%nat).
    { induction qs as [|q qs IHq]; intros Hq; [done|]. apply NoDup_cons in Hq as [Hq Hqs]. cbn [map sum_list].
      rewrite IHq by done. unfold occurrences at 1. rewrite filter_cons. fold (occurrences q T).
      destruct (decide (t = q)) as [->|Hne].
      - rewrite (decide_False (P := q ∈ qs)) by done. rewrite decide_True by (by left). unfold occurrences. cbn. lia.
      - assert (Hiff : t ∈ q :: qs <-> t ∈ qs) by (rewrite elem_of_cons; naive_solver).
        fold (occurrences q T). destruct (decide (t ∈ qs)).
        + rewrite decide_True by tauto. unfold occurrences. lia.
        + rewrite decide_False by tauto. unfold occurrences. lia. }
    rewrite Hgen by (by apply NoDup_filter). rewrite IH by done.
    assert (Ht : t ∈ filter P ps <-> P t) by (rewrite list_elem_of_filter; split; [tauto|]; intros; split; [done | apply Hsub; by left]).
    destruct (decide (P t)); [rewrite decide_True by tauto | rewrite decide_False by tauto]; simpl; lia.
Qed.

Section Runs.
Context (c : Cfg).
Notation exit := (commonExit c).
Notation first := (firstBB c).
Notation chain := (bb_chain c).

(** The rest of a run after the block [v] *)
Fixpoint path (v : nat) (r : list nat) : Prop :=
  match r with [] => v ∈ GetPreds c exit | s :: r' => s ∈ GetSuccs c v /\ path s r' end.
Definition run (r : list nat) : Prop := match r with [] => False | v :: r' => v = first /\ path v r' end.

(** The edges from [v] through the blocks of [r] to the common exit *)
Fixpoint steps (v : nat) (r : list nat) : list (nat * nat) :=
  match r with [] => [(v, exit)] | s :: r' => (v, s) :: steps s r' end.

(** The executions of a block and the traversals of an edge *)
Definition executions (rs : list (list nat)) (v : nat) : Z := Z.of_nat (occurrences v (concat rs)).
Definition traversals (rs : list (list nat)) (v s : nat) : Z := Z.of_nat (occurrences (v, s) (rs ≫= steps exit)).

Lemma steps_fst v r : map fst (steps v r) = v :: r.
Proof. revert v. induction r as [|s r IH]; intros v; simpl; [done|]. by rewrite IH. Qed.
Lemma steps_snd v r : map snd (steps v r) = r ++ [exit].
Proof. revert v. induction r as [|s r IH]; intros v; simpl; [done|]. by rewrite IH. Qed.

Context (Hc : wf_cfg c).

Lemma path_edges v r : v ∈ chain -> path v r -> forall p, p ∈ steps v r -> is_edge c (fst p) (snd p).
Proof.
  revert v. induction r as [|s r IH]; intros v Hv Hp p Hin; cbn [path steps] in *.
  - apply list_elem_of_singleton in Hin as ->. right. by left.
  - destruct Hp as [Hs Hp]. apply elem_of_cons in Hin as [->|Hin]; [by left|].
    apply (IH s); [by apply (wc_succs _ Hc v) | done..].
Qed.

Lemma run_edges r : run r -> forall p, p ∈ steps exit r -> is_edge c (fst p) (snd p).
Proof.
  destruct r as [|v r]; [done|]. intros [-> Hp] p Hin. cbn [steps] in Hin.
  apply elem_of_cons in Hin as [->|Hin]; [by right; right|]. apply (path_edges first r); [by left | done..].
Qed.

(** A block other than the common exit is left and entered once for each execution. *)
Lemma steps_out v rs : v <> exit -> length (filter (fun p => fst p = v) (rs ≫= steps exit)) = occurrences v (concat rs).
Proof.
  intros Hv. induction rs as [|r rs IH]; [done|]. rewrite bind_cons, filter_app, length_app, IH. cbn [concat].
  rewrite occurrences_app. f_equal.
  etrans; [symmetry; exact (filter_length_map fst (fun u => u = v) (steps exit r))|]. rewrite steps_fst.
  unfold occurrences. rewrite filter_cons. by rewrite decide_False.
Qed.

Lemma steps_in v rs : v <> exit -> length (filter (fun p => snd p = v) (rs ≫= steps exit)) = occurrences v (concat rs).
Proof.
  intros Hv. induction rs as [|r rs IH]; [done|]. rewrite bind_cons, filter_app, length_app, IH. cbn [concat].
  rewrite occurrences_app. f_equal.
  etrans; [symmetry; exact (filter_length_map snd (fun u => u = v) (steps exit r))|]. rewrite steps_snd.
  unfold occurrences. rewrite filter_app, length_app. rewrite filter_cons, decide_False by done. cbn. lia.
Qed.

Section Marked.
Context (m : CFGMST) (Hm : Forall2 marked (stable_sort (build_edges c)) (allEdges m)).
Notation es := (allEdges m).
Notation n := (length es).

(** The sum of the counts at the places of the edges that satisfy [P] *)
Lemma total_filter flow (P : BBUseEdge -> Prop) `{forall e, Decision (P e)} (f : BBUseEdge -> nat) v :
  (forall e, P e <-> f e = v) ->
  total m flow (filter (fun i => (f <$> es !! i) = Some v) (seq 0 n)) =
  foldr Z.add 0 (map (fun e => flow (srcBB e) (destBB e)) (filter P es)).
Proof.
  intros HP. assert (Hgen : forall k, (k <= n)%nat ->
    map (cnt m flow) (filter (fun i => (f <$> es !! i) = Some v) (seq 0 k)) =
    map (fun e => flow (srcBB e) (destBB e)) (filter P (take k es))).
  { induction k as [|k IH]; intros Hk; [done|]. destruct (lookup_lt_is_Some_2 es k Hk) as [e He].
    rewrite seq_filter_snoc, (take_S_r _ _ _ He), map_app, IH, filter_app, map_app by lia. f_equal.
    rewrite filter_cons, filter_nil, He. cbn. destruct (decide (P e)) as [Hp|Hp].
    - rewrite decide_True by (f_equal; by apply HP). cbn. unfold cnt. by rewrite He.
    - rewrite decide_False; [done|]. intros [= Hf]. by apply Hp, HP. }
  unfold total. rewrite Hgen by done. by rewrite take_ge.
Qed.

Lemma sum_traversals rs (P : nat * nat -> Prop) `{forall p, Decision (P p)} :
  Forall run rs ->
  foldr Z.add 0 (map (fun e => traversals rs (srcBB e) (destBB e)) (filter (fun e => P (ends e)) es)) =
  Z.of_nat (length (filter P (rs ≫= steps exit))).
Proof.
  intros Hrs. rewrite <- (occurrences_sum P (map ends es)).
  - assert (Hf : forall l, filter P (map ends l) = map ends (filter (fun e => P (ends e)) l)).
    { induction l as [|e l IH]; [done|]. cbn [map]. rewrite !filter_cons, IH. by destruct (decide (P (ends e))). }
    rewrite Hf, map_map. induction (filter _ es) as [|e l IH]; [done|]. cbn [map foldr sum_list]. rewrite IH.
    rewrite Nat2Z.inj_add. done.
  - by apply (es_NoDup c Hc).
  - intros p Hp. apply list_elem_of_bind in Hp as (r & Hp & Hr). rewrite Forall_forall in Hrs.
    pose proof (run_edges r (Hrs r Hr) p Hp) as He. apply (is_edge_es c m Hm) in He as (e & He & Hends).
    apply list_elem_of_fmap. exists e. split; [|done]. rewrite Hends. by destruct p.
Qed.

(** The runs are a flow. *)
Lemma runs_conserved rs :
  Forall run rs -> (forall v, v ∈ chain -> executions rs v < 2 ^ 32) -> conserved c m (traversals rs) (executions rs).
Proof.
  intros Hrs Hsmall. assert (Hexit : forall v, v ∈ chain -> v <> exit) by (intros v Hv ->; by apply (wc_exit _ Hc)).
  constructor.
  - intros v s. unfold traversals. lia.
  - intros v Hv. split; [unfold executions; lia | by apply Hsmall].
  - intros v Hv. unfold outs_to. rewrite (total_filter _ (fun e => fst (ends e) = v) srcBB) by done.
    etrans; [exact (sum_traversals rs (fun p => fst p = v) Hrs)|]. by rewrite steps_out by auto.
  - intros v Hv. unfold ins_to. rewrite (total_filter _ (fun e => snd (ends e) = v) destBB) by done.
    etrans; [exact (sum_traversals rs (fun p => snd p = v) Hrs)|]. by rewrite steps_in by auto.
Qed.
End Marked.
End Runs.

(** ** A check of the hypotheses *)

Definition wf_check (c : Cfg) : bool :=
  bool_decide (NoDup (bb_chain c)) && bool_decide (commonExit c ∉ bb_chain c) &&
  bool_decide (Forall (fun v => Forall (fun s => s ∈ bb_chain c /\ v ∈ GetPreds c s /\ IsCritialEdge c v s = false) (GetSuccs c v)) (bb_chain c)) &&
  bool_decide (Forall (fun v => Forall (fun p => p ∈ bb_chain c /\ v ∈ GetSuccs c p) (GetPreds c v)) (bb_chain c)) &&
  bool_decide (Forall (fun v => NoDup (GetSuccs c v)) (bb_chain c)) &&
  bool_decide (GetPreds c (firstBB c) = [] /\ GetSuccs c (firstBB c) <> []) &&
  bool_decide (NoDup (GetPreds c (commonExit c)) /\ GetPreds c (commonExit c) <> []) &&
  bool_decide (Forall (fun p => p ∈ bb_chain c /\ GetSuccs c p = [] /\ GetPreds c p <> []) (GetPreds c (commonExit c))) &&
  (Z.of_nat (length (allEdges (BuildEdges c)) + length (bb_chain c)) <? 2 ^ 31).

Lemma wf_check_ok c : wf_check c = true -> wf_cfg c.
Proof.
  unfold wf_check. rewrite !andb_true_iff, !bool_decide_eq_true, !Forall_forall, Z.ltb_lt.
  intros [[[[[[[[H1 H2] H3] H4] H5] H6] H7] H8] H9].
  assert (H3' : forall v s, v ∈ bb_chain c -> s ∈ GetSuccs c v -> s ∈ bb_chain c /\ v ∈ GetPreds c s /\ IsCritialEdge c v s = false).
  { intros v s Hv Hs. specialize (H3 v Hv). rewrite Forall_forall in H3. by apply H3. }
  constructor; try done.
  - intros v s Hv Hs. by destruct (H3' v s Hv Hs) as (? & ? & _).
  - intros v p Hv Hp. specialize (H4 v Hv). rewrite Forall_forall in H4. by apply H4.
  - intros v s Hv Hs. by destruct (H3' v s Hv Hs) as (_ & _ & ?).
Qed.

(** A loop with a branch in its body: the entry is 1, the head of the loop 2, the
    common exit 0. *)
Definition loop_cfg : Cfg :=
  MkCfg 1 [2; 3; 4; 5; 6; 7]%nat
    (fun v => match v with 1 => [2] | 2 => [3; 7] | 3 => [4; 5] | 4 => [6] | 5 => [6] | 6 => [2] | _ => [] end)%nat
    (fun v => match v with 0 => [7] | 2 => [1; 6] | 3 => [2] | 4 => [3] | 5 => [3] | 6 => [4; 5] | 7 => [2] | _ => [] end)%nat
    (fun v => match v with 2 => kBBIf | 3 => kBBIf | 7 => kBBReturn | _ => kBBFallthru end)%nat
    0%nat.

Definition loop_runs : list (list nat) := [[1; 2; 3; 4; 6; 2; 3; 5; 6; 2; 3; 4; 6; 2; 7]; [1; 2; 7]]%nat.

Example loop_cfg_wf : wf_check loop_cfg = true.
Proof. vm_compute. reflexivity. Qed.
Example loop_instrumented : InstrumentedBBs loop_cfg = Ret [2; 5; 6]%nat.
Proof. vm_compute. reflexivity. Qed.
Example loop_profile :
  match ApplyPGOData loop_cfg (Some (MkBBInfo 77 (map (executions loop_runs) [2; 5; 6]%nat) (false, false))) 77 false ∅ with
  | Ret (ok, _, fs) => ok = true /\ bb_freq fs 3 = MkBBFreq 3 [2; 1] /\ bb_freq fs 2 = MkBBFreq 5 [3; 2] /\ bb_freq fs 1 = MkBBFreq 2 [2]
  | Fault _ => False
  end.
Proof. vm_compute. auto. Qed.

(** A branch whose sides are executed 2^31 times each: the frequency of the block,
    which SetFrequency takes as 32 bits, is lost. *)
Definition branch_cfg : Cfg :=
  MkCfg 1 [2; 3; 4]%nat
    (fun v => match v with 1 => [2; 3] | 2 => [4] | 3 => [4] | _ => [] end)%nat
    (fun v => match v with 0 => [4] | 2 => [1] | 3 => [1] | 4 => [2; 3] | _ => [] end)%nat
    (fun v => match v with 1 => kBBIf | 4 => kBBReturn | _ => kBBFallthru end)%nat
    0%nat.

Example frequency_truncated :
  wf_check branch_cfg = true /\ InstrumentedBBs branch_cfg = Ret [2; 3]%nat /\
  match ApplyPGOData branch_cfg (Some (MkBBInfo 77 [2 ^ 31; 2 ^ 31] (false, false))) 77 false ∅ with
  | Ret (ok, _, fs) => ok = true /\ bb_freq fs 1 = MkBBFreq 0 [2 ^ 31; 2 ^ 31]
  | Fault _ => False
  end.
Proof. vm_compute. auto. Qed.

Lemma wf_many c : wf_cfg c -> (length (allEdges (BuildEdges c)) <> 1)%nat.
Proof.
  intros Hc. rewrite (BuildEdges_edges c Hc). unfold build_edges, bb_chain. rewrite bind_cons.
  destruct (wc_entry _ Hc) as [_ Hne]. unfold block_edges at 1.
  destruct (GetSuccs c (firstBB c)); [done|]. rewrite !length_app. simpl. lia.
Qed.

Lemma marked_length es es' : Forall2 marked (stable_sort es) es' -> length es' = length es.
Proof. intros H. rewrite <- (Forall2_length _ _ _ H). by rewrite stable_sort_perm. Qed.

(** The spanning tree of a graph as [wf_cfg] asks for it *)
Lemma wf_ComputeMST c :
  wf_cfg c -> exists m, ComputeMST c = Ret m /\ Forall2 marked (stable_sort (build_edges c)) (allEdges m) /\ kruskal (allEdges m).
Proof.
  intros Hc. pose proof (ComputeMST_spec c (wf_registered c Hc)) as Hspec.
  destruct (ComputeMST c) as [m|]; [|done]. destruct Hspec as [Hm Hk]. exists m. split; [done|].
  rewrite <- (BuildEdges_edges c Hc). split; [done|]. apply Hk. rewrite (marked_length _ _ Hm). by apply wf_many.
Qed.

(** C21: ComputeMST marks a spanning forest of the greatest weight: it returns the
    edges that BuildEdges enters, sorted, of which the marked ones have no cycle,
    link the ends of every edge and weigh at least as much as any other edges
    without a cycle.  The hypothesis is that the edges join blocks of the function. *)
Theorem spanning_forest c :
  registered c -> (length (allEdges (BuildEdges c)) <> 1)%nat ->
  exists m, ComputeMST c = Ret m /\ Forall2 marked (stable_sort (allEdges (BuildEdges c))) (allEdges m) /\
    forest (tree (allEdges m)) /\
    (forall e, e ∈ allEdges m -> linked (tree (allEdges m)) (srcBB e) (destBB e)) /\
    forall sel, forest (map ends (picked sel (allEdges m))) ->
      total_weight (picked sel (allEdges m)) <= total_weight (picked inMST (allEdges m)).
Proof.
  intros Hr Hmany. pose proof (ComputeMST_spec c Hr) as Hspec.
  destruct (ComputeMST c) as [m|]; [|done]. destruct Hspec as [Hm Hk]. exists m.
  rewrite (marked_length _ _ Hm) in Hk. specialize (Hk Hmany). split_and!; [done..| | |].
  - by apply kruskal_forest.
  - intros e He. by apply kruskal_spans.
  - intros sel Hsel. apply kruskal_maximal; [done | | |done].
    + eapply marked_descending; [exact Hm | apply stable_sort_descending].
    + eapply marked_Forall; [|exact Hm|].
      * intros e e' Hee. destruct (marked_ends _ _ Hee) as (_ & -> & _). exact id.
      * rewrite stable_sort_perm. eapply Forall_impl; [by apply BuildEdges_fresh|]. by intros e (_ & Hw & _).
Qed.

Lemma spanning_forest_witness :
  exists m, ComputeMST loop_cfg = Ret m /\ Forall2 marked (stable_sort (allEdges (BuildEdges loop_cfg))) (allEdges m) /\
    forest (tree (allEdges m)) /\
    (forall e, e ∈ allEdges m -> linked (tree (allEdges m)) (srcBB e) (destBB e)) /\
    forall sel, forest (map ends (picked sel (allEdges m))) ->
      total_weight (picked sel (allEdges m)) <= total_weight (picked inMST (allEdges m)).
Proof.
  apply (spanning_forest loop_cfg).
  - apply wf_registered, wf_check_ok. vm_compute. reflexivity.
  - vm_compute. discriminate.
Defined.

(** C8: A profile gives back the run of the function: for a function as [wf_cfg]
    asks for it and any runs that execute no block 2^32 times, if the counters are
    the executions of the instrumented blocks and the hash is that of the function,
    ApplyPGOData succeeds, gives every block that is not isolated its executions and
    every edge its traversals, and leaves the other blocks as they are. *)
Theorem profile_recovered c rs cfgHash seen doVerify fs :
  wf_cfg c -> Forall (run c) rs -> (forall v, v ∈ bb_chain c -> executions rs v < 2 ^ 32) ->
  exists bbs, InstrumentedBBs c = Ret bbs /\
    (Z.of_nat (length bbs) <= kMaxPimm8 ->
     exists fs', ApplyPGOData c (Some (MkBBInfo cfgHash (map (executions rs) bbs) seen)) cfgHash doVerify fs =
         Ret (true, Some (MkBBInfo cfgHash (map (executions rs) bbs) (true, true)), fs') /\
       forall v, fs' !! v = if decide (v ∈ bb_chain c /\ isolated c v = false)
         then Some (MkBBFreq (executions rs v) (map (traversals c rs v) (GetSuccs c v))) else fs !! v).
Proof.
  intros Hc Hrs Hsmall. destruct (wf_ComputeMST c Hc) as (m & Hmst & Hm & Hk).
  pose proof (runs_conserved c Hc m Hm rs Hrs Hsmall) as Hflow. exists (iBBs c m).
  assert (Hbbs : GetInstrumentBBs c m = Ret (iBBs c m)) by (by apply GetInstrumentBBs_picks).
  unfold InstrumentedBBs. rewrite Hmst. split; [done|]. intros Hfew.
  pose proof (counts_complete c Hc m Hm Hk _ _ Hflow) as Hall.
  unfold ApplyPGOData. rewrite Hmst. cbn [mbind res_bind]. rewrite Hbbs. cbn [mbind res_bind].
  destruct (Z.ltb_spec kMaxPimm8 (Z.of_nat (length (iBBs c m)))) as [?|_]; [lia|].
  unfold VerifyProfileData. cbn [counter funcHash]. rewrite length_map, Nat.eqb_refl, Z.eqb_refl. cbn [andb negb].
  destruct (SetCounts _ _ _) as [st1|]; [|done]. cbn [mbind res_bind] in *.
  destruct (InitBBEdgeInfo st1) as [st2|]; [|done]. cbn [mbind res_bind] in *.
  destruct (ComputeEdgeFreq c st2) as [st3|]; [|done]. cbn [mbind res_bind].
  destruct (ApplyOnBB_spec c Hc m Hm _ _ Hflow st3 Hall (bb_chain c) fs) as (fs' & -> & Hfs'); [done|]. by exists fs'.
Qed.

Lemma profile_recovered_witness :
  exists bbs, InstrumentedBBs loop_cfg = Ret bbs /\
    (Z.of_nat (length bbs) <= kMaxPimm8 ->
     exists fs', ApplyPGOData loop_cfg (Some (MkBBInfo 77 (map (executions loop_runs) bbs) (false, false))) 77 true ∅ =
         Ret (true, Some (MkBBInfo 77 (map (executions loop_runs) bbs) (true, true)), fs') /\
       forall v, fs' !! v = if decide (v ∈ bb_chain loop_cfg /\ isolated loop_cfg v = false)
         then Some (MkBBFreq (executions loop_runs v) (map (traversals loop_cfg loop_runs v) (GetSuccs loop_cfg v)))
         else (∅ : gmap nat BBFreq) !! v).
Proof.
  apply (profile_recovered loop_cfg loop_runs 77 (false, false) true ∅).
  - apply wf_check_ok. vm_compute. reflexivity.
  - repeat constructor; set_solver.
  - intros v Hv. apply Z.le_lt_trans with (Z.of_nat (length (concat loop_runs))); [|done].
    unfold executions, occurrences. apply inj_le, length_filter.
Defined.

(** A profile that does not fit the function is not used: with too many blocks to
    count nothing happens, without a profile compilation stops, and one of another
    length or hash is marked as refuted. *)
Theorem profile_rejected c bbs bbInfo cfgHash doVerify fs :
  InstrumentedBBs c = Ret bbs ->
  (kMaxPimm8 < Z.of_nat (length bbs) -> ApplyPGOData c bbInfo cfgHash doVerify fs = Ret (false, bbInfo, fs)) /\
  (Z.of_nat (length bbs) <= kMaxPimm8 -> ApplyPGOData c None cfgHash doVerify fs = Fault CheckFatal) /\
  (Z.of_nat (length bbs) <= kMaxPimm8 -> forall i, length (counter i) <> length bbs \/ funcHash i <> cfgHash ->
   ApplyPGOData c (Some i) cfgHash doVerify fs =
     if doVerify then Fault CheckFatal else Ret (false, Some (MkBBInfo (funcHash i) (counter i) (true, false)), fs)).
Proof.
  unfold InstrumentedBBs, ApplyPGOData. destruct (ComputeMST c) as [m|]; [|done]. cbn [mbind res_bind].
  intros Hbbs. rewrite Hbbs. cbn [mbind res_bind]. destruct (Z.ltb_spec kMaxPimm8 (Z.of_nat (length bbs))).
  - split_and!; [done | lia..].
  - split_and!; [lia | done|]. intros _ i Hi. unfold VerifyProfileData.
    replace (_ && _) with false; [by destruct doVerify|]. symmetry. apply andb_false_iff.
    destruct Hi as [Hi|Hi]; [left; by apply Nat.eqb_neq | right; by apply Z.eqb_neq].
Qed.
