(* ===== verification/Scc.v ===== *)
(** * Strongly connected components

    The templates SCCNode and BuildSCC of mpl2mpl/include/scc.h, which the call graph
    and the mid-end use.  A node of the graph (base_graph_node.h) is its id; the
    graph is the function GetOutNodes, whose pointers are not null, since
    BuildSCCDFS uses them without a test.  An object SCCNode is a place in [sccs],
    and the member sccNode of a node, with GetSCCNode and SetSCCNode, an entry of
    [sccNode].  [at] and operator[] outside a vector are faults. *)
From stdpp Require Import gmap sets.
From S2P Require Import Prelude.
From S2P Require Import Dominance.

(** The Comparator of the sets inScc and outScc compares ids, so these are maps from
    ids to objects. *)
Record SCCNode : Type := MkSCCNode {
  scc_id : Z;
  scc_nodes : list nat;
  inScc : gmap Z nat;
  outScc : gmap Z nat
}.
Definition SCCNode_new (index : Z) : SCCNode := MkSCCNode index [] ∅ ∅.

(** The state that outlives the search *)
Record SccHeap : Type := MkSccHeap {
  sccs : list SCCNode;
  sccNode : gmap nat nat;
  topologicalVec : list nat
}.
Definition SccHeap_empty : SccHeap := MkSccHeap [] ∅ [].

Definition kShiftSccUniqueIDNum : Z := 16.
Definition GetUniqueID (scc : SCCNode) : Z := wrap 32 (shl 32 (scc_id scc) kShiftSccUniqueIDNum).

Definition scc_at (h : SccHeap) (p : nat) : res SCCNode := vec (sccs h) p.
Definition put_scc (p : nat) (scc : SCCNode) (h : SccHeap) : SccHeap :=
  MkSccHeap (<[p := scc]> (sccs h)) (sccNode h) (topologicalVec h).

Definition SetSCCNode (node : nat) (p : option nat) (h : SccHeap) : SccHeap :=
  MkSccHeap (sccs h) (match p with Some p => <[node := p]> (sccNode h) | None => delete node (sccNode h) end)
    (topologicalVec h).
Definition AddNode (node : nat) (p : nat) (h : SccHeap) : res SccHeap :=
  scc ← scc_at h p;
  Ret (put_scc p (MkSCCNode (scc_id scc) (scc_nodes scc ++ [node]) (inScc scc) (outScc scc)) h).

(** std::set::insert leaves an element that the Comparator finds equal. *)
Definition set_insert (id : Z) (p : nat) (s : gmap Z nat) : gmap Z nat :=
  match s !! id with Some _ => s | None => <[id := p]> s end.
Definition InsertOut (p q : nat) (h : SccHeap) : res SccHeap :=
  scc ← scc_at h p; scc' ← scc_at h q;
  Ret (put_scc p (MkSCCNode (scc_id scc) (scc_nodes scc) (inScc scc) (set_insert (scc_id scc') q (outScc scc))) h).
Definition InsertIn (p q : nat) (h : SccHeap) : res SccHeap :=
  scc ← scc_at h p; scc' ← scc_at h q;
  Ret (put_scc p (MkSCCNode (scc_id scc) (scc_nodes scc) (set_insert (scc_id scc') q (inScc scc)) (outScc scc)) h).
Definition RemoveInScc (p q : nat) (h : SccHeap) : res SccHeap :=
  scc ← scc_at h p; scc' ← scc_at h q;
  Ret (put_scc p (MkSCCNode (scc_id scc) (scc_nodes scc) (delete (scc_id scc') (inScc scc)) (outScc scc)) h).
Definition HasInScc (scc : SCCNode) : bool := negb (bool_decide (inScc scc = ∅)).

(** ** The search

    [stack] (s in the code) and [parent] are the local stacks and [secondTimeVisited] the local vector
    of BuildSCCDFS; the other members are its reference parameters.  The head of
    the list [visitStack] is the back of the vector. *)
Record Search : Type := MkSearch {
  heap : SccHeap;
  numOfSccs : Z;
  visitIndex : Z;
  id2Node : list (option nat);
  visitedOrder : list Z;
  lowestOrder : list Z;
  inStack : list bool;
  visitStack : list nat;
  stack : list nat;
  parent : list (option nat);
  secondTimeVisited : list bool
}.

Definition set_heap (h : SccHeap) (st : Search) : Search :=
  MkSearch h (numOfSccs st) (visitIndex st) (id2Node st) (visitedOrder st) (lowestOrder st) (inStack st) (visitStack st)
    (stack st) (parent st) (secondTimeVisited st).
Definition set_lowest (l : list Z) (st : Search) : Search :=
  MkSearch (heap st) (numOfSccs st) (visitIndex st) (id2Node st) (visitedOrder st) l (inStack st) (visitStack st)
    (stack st) (parent st) (secondTimeVisited st).
Definition set_inStack (l : list bool) (st : Search) : Search :=
  MkSearch (heap st) (numOfSccs st) (visitIndex st) (id2Node st) (visitedOrder st) (lowestOrder st) l (visitStack st)
    (stack st) (parent st) (secondTimeVisited st).
Definition set_visitStack (l : list nat) (st : Search) : Search :=
  MkSearch (heap st) (numOfSccs st) (visitIndex st) (id2Node st) (visitedOrder st) (lowestOrder st) (inStack st) l
    (stack st) (parent st) (secondTimeVisited st).
Definition set_second (l : list bool) (st : Search) : Search :=
  MkSearch (heap st) (numOfSccs st) (visitIndex st) (id2Node st) (visitedOrder st) (lowestOrder st) (inStack st)
    (visitStack st) (stack st) (parent st) l.
Definition set_stacks (l : list nat) (ps : list (option nat)) (st : Search) : Search :=
  MkSearch (heap st) (numOfSccs st) (visitIndex st) (id2Node st) (visitedOrder st) (lowestOrder st) (inStack st)
    (visitStack st) l ps (secondTimeVisited st).

(** lowestOrder.at(id) = std::min(lowestOrder.at(id), x) *)
Definition lower (id : nat) (x : Z) (st : Search) : res Search :=
  lo ← vec (lowestOrder st) id; l ← vec_set (lowestOrder st) id (Z.min lo x); Ret (set_lowest l st).

Definition visit_succ (node succId : nat) (st : Search) : res Search :=
  on ← vec (inStack st) succId;
  vo ← vec (visitedOrder st) succId;
  if on : bool then lower node vo st
  else if vo =? 0 then Ret (set_stacks (succId :: stack st) (Some node :: parent st) st)
  else Ret st.

Section BuildSCC.
Variable (GetOutNodes : nat -> list nat).

(** The first, forward visit of a node *)
Definition forward (node : nat) (st : Search) : res Search :=
  nodes ← vec_set (id2Node st) node (Some node);
  let index := wrap 32 (visitIndex st + 1) in
  vo ← vec_set (visitedOrder st) node index;
  lo ← vec_set (lowestOrder st) node index;
  on ← vec_set (inStack st) node true;
  for_each (visit_succ node) (rev (GetOutNodes node))
    (MkSearch (heap st) (numOfSccs st) index nodes vo lo on (visitStack st) (stack st) (parent st) (secondTimeVisited st)).

(** The loop that takes the members of a component off visitStack *)
Fixpoint pop_members (id p : nat) (vs : list nat) (st : Search) : res Search :=
  match vs with
  | [] => Ret (set_visitStack [] st)
  | stackTopId :: vs' =>
      a ← vec (visitedOrder st) stackTopId;
      b ← vec (visitedOrder st) id;
      if a <? b then Ret (set_visitStack vs st)
      else
        on ← vec_set (inStack st) stackTopId false;
        o ← vec (id2Node st) stackTopId;
        topNode ← deref o;
        h ← AddNode topNode p (SetSCCNode topNode (Some p) (heap st));
        pop_members id p vs' (set_inStack on (set_heap h st))
  end.

Definition new_scc (id : nat) (st : Search) : res Search :=
  let h := heap st in
  let p := length (sccs h) in
  let h := MkSccHeap (sccs h ++ [SCCNode_new (numOfSccs st)]) (sccNode h) (topologicalVec h) in
  h ← AddNode id p (SetSCCNode id (Some p) h);
  on ← vec_set (inStack st) id false;
  let st := MkSearch h (wrap 32 (numOfSccs st + 1)) (visitIndex st) (id2Node st) (visitedOrder st) (lowestOrder st) on
    (visitStack st) (stack st) (parent st) (secondTimeVisited st) in
  st ← pop_members id p (visitStack st) st;
  let h := heap st in
  Ret (set_heap (MkSccHeap (sccs h) (sccNode h) (topologicalVec h ++ [p])) st).

(** The later, backward visits of the node at the top of the stack *)
Definition backward (node : nat) (st : Search) : res Search :=
  match stack st, parent st with
  | _ :: s', parentNode :: parent' =>
      let st := set_stacks s' parent' st in
      again ← vec (secondTimeVisited st) node;
      if again : bool then Ret st
      else
        second ← vec_set (secondTimeVisited st) node true;
        let st := set_second second st in
        lo ← vec (lowestOrder st) node;
        st ← match parentNode with Some parentId => lower parentId lo st | None => Ret st end;
        lo ← vec (lowestOrder st) node;
        vo ← vec (visitedOrder st) node;
        if lo =? vo then new_scc node st
        else Ret (set_visitStack (node :: visitStack st) st)
  | _, _ => Fault OutOfBounds
  end.

Definition dfs_step (st : Search) : res Search :=
  match stack st with
  | [] => Ret st
  | node :: _ => vo ← vec (visitedOrder st) node; if vo =? 0 then forward node st else backward node st
  end.

(** Every node is visited forward once and taken off the stack once for each edge
    to it. *)
Definition dfs_fuel (n : nat) : nat := (n + 1 + sum_list_with (fun v => length (GetOutNodes v)) (seq 0 n))%nat.

Definition BuildSCCDFS (rootNode : nat) (st : Search) : res Search :=
  while_fuel (dfs_fuel (length (id2Node st))) (fun st => negb (bool_decide (stack st = []))) dfs_step
    (set_second (replicate (length (id2Node st)) false) (set_stacks [rootNode] [None] st)).

(** ** After the search *)

Definition Verify (p : nat) (h : SccHeap) : res unit :=
  scc ← scc_at h p;
  _ ← CHECK_FATAL (negb (bool_decide (scc_nodes scc = [])));
  CHECK_FATAL (forallb (fun node => bool_decide (sccNode h !! node = Some p)) (scc_nodes scc)).

Definition Setup_edge (p outNode : nat) (h : SccHeap) : res SccHeap :=
  let outNodeScc := sccNode h !! outNode in
  if bool_decide (outNodeScc = Some p) then Ret h
  else q ← deref outNodeScc; h ← InsertOut p q h; InsertIn q p h.

Definition Setup (p : nat) (h : SccHeap) : res SccHeap :=
  scc ← scc_at h p;
  for_each (fun node h => for_each (Setup_edge p) (GetOutNodes node) h) (scc_nodes scc) h.

Definition HasRecursion (scc : SCCNode) : bool :=
  match scc_nodes scc with
  | [] => false
  | [node] => existsb (fun outNode => (node =? outNode)%nat) (GetOutNodes node)
  | _ => true
  end.

(** VerifySCC *)
Definition VerifySCC (nodes : list nat) (h : SccHeap) : res unit :=
  CHECK_FATAL (forallb (fun node => negb (bool_decide (sccNode h !! node = None))) nodes).

Definition search_node (node : nat) (st : Search) : res Search :=
  if bool_decide (sccNode (heap st) !! node = None) then BuildSCCDFS node st else Ret st.

(** The dump of a debug run is left out. *)
Definition BuildSCC (numOfNodes : nat) (allNodes : list nat) (clearOld : bool) (h : SccHeap) : res (Z * SccHeap) :=
  let h := if clearOld then foldl (fun h node => SetSCCNode node None h) h allNodes else h in
  st ← for_each search_node allNodes
    (MkSearch h 0 1 (replicate numOfNodes None) (replicate numOfNodes 0) (replicate numOfNodes 0)
      (replicate numOfNodes false) [] [] [] []);
  h ← for_each (fun p h => _ ← Verify p h; Setup p h) (topologicalVec (heap st)) (heap st);
  Ret (numOfSccs st, MkSccHeap (sccs h) (sccNode h) (rev (topologicalVec h))).
End BuildSCC.

(** CallGraph::RecomputeSCC of mpl2mpl/src/call_graph.cpp *)
Definition RecomputeSCC (GetOutNodes : nat -> list nat) (numOfNodes : nat) (allNodes : list nat) (h : SccHeap) :
    res (Z * SccHeap) :=
  BuildSCC GetOutNodes numOfNodes allNodes false (MkSccHeap (sccs h) (sccNode h) []).
