(* ===== verification/SccTarjan.v ===== *)
(** * Strongly connected components: the invariant of the search

    Tarjan's invariant, on numberings of the nodes: [num] is the order of the first
    visits, 0 before them, [low] the lowest order found, [dn] the nodes that have a
    component, [gs] the nodes that are being explored, the latest first, and [vs]
    the visit stack.  The three steps keep it, and a node whose two numbers agree
    when its exploration ends is the first of a component. *)
From stdpp Require Import sets relations sorting.
From S2P Require Import Prelude.

Lemma sorted_impl {A} (R R' : A -> A -> Prop) (l : list A) :
  (forall a b, a ∈ l -> b ∈ l -> R a b -> R' a b) -> StronglySorted R l -> StronglySorted R' l.
Proof.
  intros HR Hs. induction Hs as [|a l Hs IH Hall]; constructor.
  - apply IH. intros x y Hx Hy. apply HR; by right.
  - rewrite Forall_forall in Hall. apply Forall_forall. intros b Hb. apply HR; [by left | by right | by apply Hall].
Qed.

Section Tarjan.
Context (GetOutNodes : nat -> list nat).
Definition edge (u v : nat) : Prop := v ∈ GetOutNodes u.
Definition reach : nat -> nat -> Prop := rtc edge.
Definition connected (u v : nat) : Prop := reach u v /\ reach v u.

Lemma connected_sym u v : connected u v -> connected v u.
Proof. intros []. by split. Qed.
Lemma connected_trans u v w : connected u v -> connected v w -> connected u w.
Proof. intros [] []. split; by etrans. Qed.

Definition opened (num : nat -> Z) (dn : nat -> bool) (v : nat) : Prop := num v <> 0 /\ dn v = false.

(** The latest node that is being explored and was visited before [u] *)
Definition closest (num : nat -> Z) (gs : list nat) (g u : nat) : Prop :=
  g ∈ gs /\ num g <= num u /\ forall g', g' ∈ gs -> num g' <= num u -> num g' <= num g.

Record tarjan (num low : nat -> Z) (dn : nat -> bool) (gs vs : list nat) : Prop := {
  tj_dn : forall v, dn v = true -> num v <> 0;
  tj_pos : forall v, 0 <= num v;
  tj_inj : forall u v, num u = num v -> num u <> 0 -> u = v;
  tj_gs : forall g, g ∈ gs -> opened num dn g;
  tj_sorted : StronglySorted (fun a b => num b < num a) gs;
  tj_black : forall u w, num u <> 0 -> u ∉ gs -> edge u w -> num w <> 0;
  tj_closed : forall u w, dn u = true -> edge u w -> dn w = true;
  tj_reach : forall g u, g ∈ gs -> opened num dn u -> num g <= num u -> reach g u;
  tj_low_le : forall u, opened num dn u -> low u <= num u;
  tj_low : forall u, opened num dn u -> exists w, opened num dn w /\ low u = num w /\ reach u w;
  tj_low_black : forall u, opened num dn u -> u ∉ gs -> low u < num u;
  tj_seg : forall g u, opened num dn u -> closest num gs g u ->
    low g <= low u /\ forall w, edge u w -> opened num dn w -> low g <= num w;
  tj_bottom : forall u, opened num dn u -> exists g, g ∈ gs /\ num g <= num u;
  tj_vs : forall v, v ∈ vs <-> opened num dn v /\ v ∉ gs;
  tj_vs_NoDup : NoDup vs;
  tj_vs_order : forall g, g ∈ gs -> StronglySorted (fun a b => ~ (num a < num g < num b)) vs
}.

Section Invariant.
Context (num low : nat -> Z) (dn : nat -> bool) (vs : list nat).

Lemma top_max v gs g : tarjan num low dn (v :: gs) vs -> g ∈ gs -> num g < num v.
Proof.
  intros Ht Hg. pose proof (tj_sorted _ _ _ _ _ Ht) as Hs. inversion Hs as [|? ? _ Hall]; subst.
  rewrite Forall_forall in Hall. by apply Hall.
Qed.

Lemma dn_reach gs u w : tarjan num low dn gs vs -> dn u = true -> reach u w -> dn w = true.
Proof. intros Ht Hu. induction 1 as [|u w x Huw _ IH]; [done|]. by apply IH, (tj_closed _ _ _ _ _ Ht u). Qed.

(** ** A component is complete *)

Section Root.
Context (v : nat) (gs : list nat) (Ht : tarjan num low dn (v :: gs) vs).
Context (Hall : forall w, edge v w -> num w <> 0).
Definition members (u : nat) : Prop := opened num dn u /\ num v <= num u.

Lemma members_closest u : members u -> closest num (v :: gs) v u.
Proof.
  intros [_ Hu]. split; [by left|]. split; [done|]. intros g [->|Hg]%elem_of_cons _; [done|].
  pose proof (top_max _ _ _ Ht Hg). lia.
Qed.

Lemma members_black u : members u -> u = v \/ u ∉ v :: gs.
Proof.
  intros [_ Hu]. destruct (decide (u = v)) as [->|Hne]; [by left|]. right. intros [?|Hg]%elem_of_cons; [done|].
  pose proof (top_max _ _ _ Ht Hg). lia.
Qed.

Context (Hlow : low v = num v).

Lemma members_closed u w : members u -> edge u w -> members w \/ dn w = true.
Proof.
  intros Hu Huw. destruct (tj_seg _ _ _ _ _ Ht v u (proj1 Hu) (members_closest u Hu)) as [_ Hseg].
  assert (Hw : num w <> 0).
  { destruct (members_black u Hu) as [->|Hb]; [by apply Hall|].
    apply (tj_black _ _ _ _ _ Ht u w); [apply Hu | done..]. }
  destruct (dn w) eqn:Hd; [by right|]. left. split; [done|]. rewrite <- Hlow. by apply Hseg.
Qed.

Lemma members_reach u : members u -> reach u v.
Proof.
  remember (Z.to_nat (num u)) as k eqn:Hk. revert u Hk. induction k as [k IH] using lt_wf_ind. intros u -> Hu.
  destruct (members_black u Hu) as [->|Hb]; [constructor|]. destruct Hu as [Hu Hvu].
  destruct (tj_low _ _ _ _ _ Ht u Hu) as (w & Hw & Hlw & Hrw).
  pose proof (tj_low_black _ _ _ _ _ Ht u Hu Hb) as Hlt.
  destruct (tj_seg _ _ _ _ _ Ht v u Hu (members_closest u (conj Hu Hvu))) as [Hle _].
  pose proof (tj_pos _ _ _ _ _ Ht w). etrans; [exact Hrw|].
  apply (IH (Z.to_nat (num w))); [lia | done | split; [done | lia]].
Qed.

Lemma members_of_reach u : reach v u -> members u \/ dn u = true.
Proof.
  intros Hr. assert (Hgen : forall x y, reach x y -> members x \/ dn x = true -> members y \/ dn y = true).
  { induction 1 as [|x y z Hxy _ IH]; [done|]. intros [Hx|Hx]; apply IH.
    - by eapply members_closed.
    - right. by apply (tj_closed _ _ _ _ _ Ht x). }
  apply (Hgen v u Hr). left. split; [|done]. apply (tj_gs _ _ _ _ _ Ht). by left.
Qed.

(** The open nodes from [v] on are a component. *)
Lemma members_component u : members u <-> connected v u.
Proof.
  split.
  - intros Hu. split; [|by apply members_reach]. destruct Hu as [Hu Hvu]. by apply (tj_reach _ _ _ _ _ Ht); [left|..].
  - intros [Hvu Huv]. destruct (members_of_reach u Hvu) as [?|Hd]; [done|]. exfalso.
    assert (Hv : dn v = true) by (by eapply dn_reach). destruct (tj_gs _ _ _ _ _ Ht v) as [_ Hdv]; [by left|]. by rewrite Hdv in Hv.
Qed.
End Root.
End Invariant.

(** ** The steps *)

Section Visit.
Context (num low : nat -> Z) (dn : nat -> bool) (gs vs : list nat) (num' low' : nat -> Z) (v : nat) (k : Z).
Context (Ht : tarjan num low dn gs vs) (Hv0 : num v = 0) (Hk : 0 < k) (Hmax : forall u, num u < k) (Hdv : dn v = false).
Context (Hhead : forall g, head gs = Some g -> edge g v).
Context (Hnum : forall u, num' u = if decide (u = v) then k else num u) (Hlow : forall u, u <> v -> low' u = low u).

Lemma visit_new : num' v = k.
Proof. by rewrite Hnum, decide_True. Qed.
Lemma visit_old u : u <> v -> num' u = num u.
Proof. intros Hu. by rewrite Hnum, decide_False. Qed.

Lemma visit_opened u : opened num' dn u <-> u = v \/ opened num dn u.
Proof.
  unfold opened. destruct (decide (u = v)) as [->|Hne].
  - rewrite visit_new. split; [by left|]. intros _. split; [lia | done].
  - rewrite visit_old by done. naive_solver.
Qed.

Lemma opened_ne u : opened num dn u -> u <> v.
Proof. by intros [Hu _] ->. Qed.
Lemma gs_ne g : g ∈ gs -> g <> v.
Proof. intros Hg. by apply opened_ne, (tj_gs _ _ _ _ _ Ht). Qed.
Lemma visit_before u : opened num dn u -> num' u = num u /\ num' u < num' v.
Proof. intros Hu. rewrite visit_new, visit_old by (by apply opened_ne). by split. Qed.

Lemma visit_reach g : g ∈ gs -> reach g v.
Proof.
  intros Hg. destruct gs as [|h gs']; [by apply elem_of_nil in Hg|].
  apply rtc_r with h; [|by apply Hhead]. apply (tj_reach _ _ _ _ _ Ht); [done | apply (tj_gs _ _ _ _ _ Ht); by left|].
  apply elem_of_cons in Hg as [->|Hg]; [done|]. pose proof (top_max _ _ _ _ _ _ _ Ht Hg). lia.
Qed.

Lemma visit_closest g u : opened num dn u -> closest num' (v :: gs) g u -> closest num gs g u.
Proof.
  intros Hu (Hg & Hgu & Hmost). destruct (visit_before u Hu) as [Hnu Hlt]. apply elem_of_cons in Hg as [->|Hg]; [lia|].
  rewrite Hnu, (visit_old g) in * by (by apply gs_ne). split_and!; [done..|]. intros g' Hg' Hle.
  rewrite <- (visit_old g') by (by apply gs_ne). apply Hmost; [by right|]. by rewrite visit_old by (by apply gs_ne).
Qed.

Context (Hlk : low' v <= k) (Hsucc : forall w, edge v w -> opened num' dn w -> low' v <= num' w).
Context (Hlv : low' v = k \/ exists w, edge v w /\ opened num' dn w /\ low' v = num' w).

Lemma visit_seg g u : opened num' dn u -> closest num' (v :: gs) g u ->
  low' g <= low' u /\ forall w, edge u w -> opened num' dn w -> low' g <= num' w.
Proof.
  intros [->|Hu]%visit_opened Hcl.
  - destruct Hcl as (Hg & _ & Hmost). apply elem_of_cons in Hg as [->|Hg]; [by split|].
    specialize (Hmost v ltac:(by left) ltac:(done)). rewrite visit_new, visit_old in Hmost by (by apply gs_ne).
    specialize (Hmax g). lia.
  - pose proof (visit_closest g u Hu Hcl) as Hcl'. destruct (tj_seg _ _ _ _ _ Ht g u Hu Hcl') as [Hle Hedge].
    assert (Hg : g ∈ gs) by apply Hcl'. rewrite !Hlow by (first [by apply gs_ne | by apply opened_ne]).
    split; [done|]. intros w Huw [->|Hw]%visit_opened.
    + rewrite visit_new. pose proof (tj_low_le _ _ _ _ _ Ht g (tj_gs _ _ _ _ _ Ht g Hg)). specialize (Hmax g). lia.
    + rewrite (proj1 (visit_before w Hw)). by apply Hedge.
Qed.

Lemma visit_low u : opened num' dn u -> exists w, opened num' dn w /\ low' u = num' w /\ reach u w.
Proof.
  intros [->|Hu]%visit_opened.
  - destruct Hlv as [->|(w & Hvw & Hw & ->)]; [exists v | exists w].
    + split_and!; [apply visit_opened; by left | by rewrite visit_new | constructor].
    + split_and!; [done..|]. by apply rtc_once.
  - destruct (tj_low _ _ _ _ _ Ht u Hu) as (w & Hw & Hlw & Hr). exists w.
    rewrite Hlow, visit_old by (by apply opened_ne). split_and!; [apply visit_opened; by right | done | done].
Qed.

Lemma visit_vs_order g : g ∈ v :: gs -> StronglySorted (fun a b => ~ (num' a < num' g < num' b)) vs.
Proof.
  intros Hg. assert (Hvs : forall u, u ∈ vs -> num' u = num u /\ num' u < num' v).
  { intros u Hu. by apply visit_before, (tj_vs _ _ _ _ _ Ht). }
  apply elem_of_cons in Hg as [->|Hg].
  - assert (Hs : StronglySorted (fun _ _ : nat => True) vs).
    { generalize vs. clear. induction vs; constructor; [done|]. by apply Forall_true. }
    eapply sorted_impl, Hs. intros a b _ Hb _. pose proof (proj2 (Hvs b Hb)). lia.
  - eapply sorted_impl, (tj_vs_order _ _ _ _ _ Ht g Hg). intros a b Ha Hb.
    rewrite (proj1 (Hvs a Ha)), (proj1 (Hvs b Hb)), visit_old by (by apply gs_ne). done.
Qed.

(** The first visit: [k] is the new number, and [low'] takes the open successors
    into account. *)
Lemma tarjan_visit : tarjan num' low' dn (v :: gs) vs.
Proof.
  constructor.
  - intros u Hu. destruct (decide (u = v)) as [->|Huv]; [congruence|].
    rewrite visit_old by done. by apply (tj_dn _ _ _ _ _ Ht).
  - intros u. rewrite Hnum. case_decide; [lia | apply (tj_pos _ _ _ _ _ Ht)].
  - intros u w. rewrite !Hnum. pose proof (Hmax u). pose proof (Hmax w). repeat case_decide; subst; try done; try lia.
    apply (tj_inj _ _ _ _ _ Ht).
  - intros g [->|Hg]%elem_of_cons; apply visit_opened; [by left | right; by apply (tj_gs _ _ _ _ _ Ht)].
  - constructor; [|apply Forall_forall; intros g Hg; rewrite visit_new, visit_old by (by apply gs_ne); apply Hmax].
    eapply sorted_impl, (tj_sorted _ _ _ _ _ Ht). intros a b Ha Hb. by rewrite !visit_old by (by apply gs_ne).
  - intros u w Hu [Huv Hug]%not_elem_of_cons Huw. rewrite visit_old in Hu by done.
    rewrite Hnum. case_decide; [lia|]. by apply (tj_black _ _ _ _ _ Ht u).
  - apply (tj_closed _ _ _ _ _ Ht).
  - intros g u Hg [->|Hu]%visit_opened Hgu.
    + apply elem_of_cons in Hg as [->|Hg]; [constructor | by apply visit_reach].
    + destruct (visit_before u Hu) as [Hnu Hltu]. apply elem_of_cons in Hg as [->|Hg]; [lia|].
      apply (tj_reach _ _ _ _ _ Ht); [done..|]. by rewrite <- (visit_old g), <- Hnu by (by apply gs_ne).
  - intros u [->|Hu]%visit_opened; [by rewrite visit_new|].
    rewrite visit_old, Hlow by (by apply opened_ne). by apply (tj_low_le _ _ _ _ _ Ht).
  - exact visit_low.
  - intros u [->|Hu]%visit_opened [Hne Hug]%not_elem_of_cons; [done|].
    rewrite visit_old, Hlow by done. by apply (tj_low_black _ _ _ _ _ Ht).
  - exact visit_seg.
  - intros u [->|Hu]%visit_opened; [exists v; split; [by left | done]|].
    destruct (tj_bottom _ _ _ _ _ Ht u Hu) as (g & Hg & Hgu). exists g. split; [by right|].
    by rewrite visit_old, (proj1 (visit_before u Hu)) by (by apply gs_ne).
  - intros u. rewrite (tj_vs _ _ _ _ _ Ht), visit_opened, not_elem_of_cons. split; [|naive_solver].
    intros [Hu Hug]. split; [by right|]. split; [by apply opened_ne | done].
  - apply (tj_vs_NoDup _ _ _ _ _ Ht).
  - exact visit_vs_order.
Qed.
End Visit.

(** *** The end of the exploration of a node *)

Section End_of_node.
Context (num low : nat -> Z) (dn : nat -> bool) (gs vs : list nat) (v : nat).
Context (Ht : tarjan num low dn (v :: gs) vs) (Hall : forall w, edge v w -> num w <> 0).
(** The order of the node before [v] is lowered to that of [v]. *)
Context (low' : nat -> Z) (Hp : forall p, head gs = Some p -> low' p = Z.min (low p) (low v)).
Context (Hlow : forall u, Some u <> head gs -> low' u = low u).

Lemma below_top g : g ∈ gs -> num g < num v.
Proof. by apply (top_max _ _ _ _ _ _ _ Ht). Qed.

Lemma end_closest g u : closest num gs g u -> closest num (v :: gs) g u \/ num v <= num u /\ head gs = Some g.
Proof.
  intros (Hg & Hgu & Hmost). destruct (decide (num v <= num u)) as [Hvu|Hvu].
  - right. split; [done|]. destruct gs as [|p gs']; [by apply elem_of_nil in Hg|]. cbn. f_equal.
    pose proof (top_max _ _ _ _ _ _ p Ht ltac:(by left)). specialize (Hmost p ltac:(by left) ltac:(lia)).
    apply elem_of_cons in Hg as [->|Hg]; [done|]. pose proof (tj_sorted _ _ _ _ _ Ht) as Hs.
    inversion Hs as [|? ? Hs' _]; subst. inversion Hs' as [|? ? _ Hf]; subst. rewrite Forall_forall in Hf.
    specialize (Hf g Hg). simpl in Hf. lia.
  - left. split_and!; [by right | done|]. intros g' [->|Hg']%elem_of_cons; [lia | by apply Hmost].
Qed.

Lemma end_low_le u : low' u <= low u.
Proof.
  destruct (decide (head gs = Some u)) as [Hu|Hu]; [rewrite (Hp u Hu); lia | by rewrite Hlow by congruence].
Qed.

Lemma end_seg g u : opened num dn u -> closest num gs g u ->
  low' g <= low' u /\ forall w, edge u w -> opened num dn w -> low' g <= num w.
Proof.
  intros Hu Hcl. pose proof (end_low_le g) as Hle. assert (Hg : g ∈ gs) by apply Hcl.
  destruct (end_closest g u Hcl) as [Hcl'|[Hvu Hhd]].
  - destruct (tj_seg _ _ _ _ _ Ht g u Hu Hcl') as [H1 H2].
    split; [|intros w Huw Hw; specialize (H2 w Huw Hw); lia].
    destruct (decide (head gs = Some u)) as [Hhu|Hhu]; [|rewrite (Hlow u) by congruence; lia].
    assert (Hug : u ∈ gs) by (by apply head_Some_elem_of in Hhu).
    destruct Hcl as (_ & Hgu & Hmost). specialize (Hmost u Hug ltac:(done)).
    rewrite (tj_inj _ _ _ _ _ Ht g u); [done | lia | by apply (tj_gs _ _ _ _ _ Ht); right].
  - destruct (tj_seg _ _ _ _ _ Ht v u Hu) as [H1 H2].
    { split_and!; [by left | done|]. intros g' [->|Hg']%elem_of_cons _; [done|]. pose proof (below_top g' Hg'). lia. }
    rewrite (Hp g Hhd). split; [|intros w Huw Hw; specialize (H2 w Huw Hw); lia].
    rewrite (Hlow u); [lia|]. rewrite Hhd. intros [= ->]. pose proof (below_top g Hg). lia.
Qed.

Lemma end_low u : opened num dn u -> exists w, opened num dn w /\ low' u = num w /\ reach u w.
Proof.
  intros Hu. destruct (tj_low _ _ _ _ _ Ht u Hu) as (w & Hw & Hlw & Hr).
  destruct (decide (head gs = Some u)) as [Hhu|Hhu]; [|exists w; by rewrite Hlow by congruence].
  rewrite (Hp u Hhu). destruct (Z.min_spec (low u) (low v)) as [[_ ->]|[_ ->]]; [by exists w|].
  assert (Hv : opened num dn v) by (apply (tj_gs _ _ _ _ _ Ht); by left).
  destruct (tj_low _ _ _ _ _ Ht v Hv) as (x & Hx & Hlx & Hrx). exists x. split_and!; [done..|].
  assert (Hug : u ∈ gs) by (by apply head_Some_elem_of in Hhu). pose proof (below_top u Hug).
  etrans; [|exact Hrx]. apply (tj_reach _ _ _ _ _ Ht); [by right | done | lia].
Qed.

Lemma end_black u w : num u <> 0 -> u ∉ gs -> edge u w -> num w <> 0.
Proof.
  intros Hu Hug Huw. destruct (decide (u = v)) as [->|Hne]; [by apply Hall|].
  apply (tj_black _ _ _ _ _ Ht u w Hu); [|done]. by apply not_elem_of_cons.
Qed.

Lemma end_sorted : StronglySorted (fun a b => num b < num a) gs.
Proof. pose proof (tj_sorted _ _ _ _ _ Ht) as Hs. by inversion Hs. Qed.

(** A node whose order is lower goes to the visit stack. *)
Lemma tarjan_push : low v <> num v -> tarjan num low' dn gs (v :: vs) /\ gs <> [].
Proof.
  intros Hne. assert (Hv : opened num dn v) by (apply (tj_gs _ _ _ _ _ Ht); by left).
  pose proof (tj_low_le _ _ _ _ _ Ht v Hv) as Hlv. assert (Hvg : v ∉ gs) by (intros Hg; pose proof (below_top v Hg); lia).
  assert (Hbot : forall u, opened num dn u -> num u < num v -> exists g, g ∈ gs /\ num g <= num u).
  { intros u Hu Huv. destruct (tj_bottom _ _ _ _ _ Ht u Hu) as (g & [->|Hg]%elem_of_cons & Hgu); [lia | by exists g]. }
  assert (Hlower : exists g, g ∈ gs /\ num g < num v).
  { destruct (tj_low _ _ _ _ _ Ht v Hv) as (w & Hw & Hlw & _). destruct (Hbot w Hw ltac:(lia)) as (g & Hg & Hgw).
    exists g. split; [done | lia]. }
  split; [|destruct Hlower as (g & Hg & _); intros ->; by apply elem_of_nil in Hg].
  constructor.
  - apply (tj_dn _ _ _ _ _ Ht).
  - apply (tj_pos _ _ _ _ _ Ht).
  - apply (tj_inj _ _ _ _ _ Ht).
  - intros g Hg. apply (tj_gs _ _ _ _ _ Ht). by right.
  - exact end_sorted.
  - exact end_black.
  - apply (tj_closed _ _ _ _ _ Ht).
  - intros g u Hg. apply (tj_reach _ _ _ _ _ Ht). by right.
  - intros u Hu. pose proof (end_low_le u). pose proof (tj_low_le _ _ _ _ _ Ht u Hu). lia.
  - exact end_low.
  - intros u Hu Hug. rewrite Hlow by (intros Hh; by apply Hug, head_Some_elem_of).
    destruct (decide (u = v)) as [->|Hne']; [lia|]. apply (tj_low_black _ _ _ _ _ Ht); [done | by apply not_elem_of_cons].
  - exact end_seg.
  - intros u Hu. destruct (decide (num u < num v)) as [Huv|Huv]; [by apply Hbot|].
    destruct Hlower as (g & Hg & Hgv). exists g. split; [done | lia].
  - intros u. rewrite elem_of_cons, (tj_vs _ _ _ _ _ Ht), not_elem_of_cons. split; [intros [->|(Hu & _ & Hug)]; by split|].
    intros [Hu Hug]. destruct (decide (u = v)) as [->|?]; [by left | right; by split_and!].
  - constructor; [|apply (tj_vs_NoDup _ _ _ _ _ Ht)]. intros [_ Hin]%(tj_vs _ _ _ _ _ Ht). apply Hin. by left.
  - intros g Hg. constructor; [apply (tj_vs_order _ _ _ _ _ Ht); by right|].
    apply Forall_forall. intros b _. pose proof (below_top g Hg). lia.
Qed.

(** A node whose two numbers agree takes its component off the visit stack. *)
Lemma tarjan_close dn' vs1 vs2 :
  low v = num v -> vs = vs1 ++ vs2 -> Forall (fun u => num v < num u) vs1 -> Forall (fun u => num u < num v) vs2 ->
  (forall u, dn' u = true <-> dn u = true \/ members num dn v u) ->
  tarjan num low' dn' gs vs2.
Proof.
  intros Hroot Hsplit H1 H2 Hdn. rewrite Forall_forall in H1, H2.
  assert (Hop : forall u, opened num dn' u <-> opened num dn u /\ num u < num v).
  { intros u. specialize (Hdn u). unfold members in Hdn. unfold opened in *. split.
    - intros [Hu Hd]. assert (Hdu : dn u = false) by (destruct (dn u); [by rewrite (proj2 Hdn (or_introl eq_refl)) in Hd | done]).
      split; [done|]. destruct (Z_lt_le_dec (num u) (num v)) as [?|Hle]; [done|].
      by rewrite (proj2 Hdn (or_intror (conj (conj Hu Hdu) Hle))) in Hd.
    - intros [[Hu Hd] Hlt]. split; [done|]. destruct (dn' u) eqn:Hd'; [|done].
      destruct (proj1 Hdn eq_refl) as [?|[_ ?]]; [congruence | lia]. }
  constructor.
  - intros u [Hu|[[Hu _] _]]%Hdn; [by apply (tj_dn _ _ _ _ _ Ht) | done].
  - apply (tj_pos _ _ _ _ _ Ht).
  - apply (tj_inj _ _ _ _ _ Ht).
  - intros g Hg. apply Hop. split; [apply (tj_gs _ _ _ _ _ Ht); by right | by apply below_top].
  - exact end_sorted.
  - exact end_black.
  - intros u w [Hu|Hu]%Hdn Huw; apply Hdn; [left; by apply (tj_closed _ _ _ _ _ Ht u)|].
    destruct (members_closed num low dn _ v gs Ht Hall Hroot u w Hu Huw) as [?|?]; [by right | by left].
  - intros g u Hg [Hu _]%Hop. apply (tj_reach _ _ _ _ _ Ht); [by right | done].
  - intros u [Hu _]%Hop. pose proof (end_low_le u). pose proof (tj_low_le _ _ _ _ _ Ht u Hu). lia.
  - intros u [Hu Huv]%Hop. destruct (end_low u Hu) as (w & Hw & Hlw & Hr). exists w. split_and!; [|done..].
    apply Hop. split; [done|]. pose proof (end_low_le u). pose proof (tj_low_le _ _ _ _ _ Ht u Hu). lia.
  - intros u [Hu Huv]%Hop Hug. rewrite Hlow by (intros Hh; by apply Hug, head_Some_elem_of).
    apply (tj_low_black _ _ _ _ _ Ht); [done|]. apply not_elem_of_cons. split; [intros ->; lia | done].
  - intros g u [Hu _]%Hop Hcl. destruct (end_seg g u Hu Hcl) as [Hle Hedge]. split; [done|].
    intros w Huw [Hw _]%Hop. by apply Hedge.
  - intros u [Hu Huv]%Hop. destruct (tj_bottom _ _ _ _ _ Ht u Hu) as (g & [->|Hg]%elem_of_cons & Hgu); [lia | by exists g].
  - intros u. rewrite Hop. pose proof (tj_vs _ _ _ _ _ Ht u) as Hvs. rewrite Hsplit, elem_of_app, not_elem_of_cons in Hvs. split.
    + intros Hu. destruct (proj1 Hvs (or_intror Hu)) as (Ho & _ & Hug). specialize (H2 u Hu). by split_and!.
    + intros ((Ho & Huv) & Hug). destruct (proj2 Hvs) as [Hu|Hu]; [|specialize (H1 u Hu); lia | done].
      split_and!; [done | intros ->; lia | done].
  - pose proof (tj_vs_NoDup _ _ _ _ _ Ht) as Hnd. rewrite Hsplit in Hnd. by apply NoDup_app in Hnd as (_ & _ & Hnd).
  - intros g Hg. pose proof (tj_vs_order _ _ _ _ _ Ht g ltac:(by right)) as Hs. rewrite Hsplit in Hs. by apply StronglySorted_app_1_r in Hs.
Qed.

(** The visit stack has the other members before the nodes of earlier components. *)
Lemma vs_split : exists vs1 vs2, vs = vs1 ++ vs2 /\ Forall (fun u => num v < num u) vs1 /\ Forall (fun u => num u < num v) vs2.
Proof.
  pose proof (tj_vs_order _ _ _ _ _ Ht v ltac:(by left)) as Hs.
  assert (Hne : Forall (fun u => num u <> num v) vs).
  { apply Forall_forall. intros u [[Hu _] Hug]%(tj_vs _ _ _ _ _ Ht) Heq. apply Hug.
    rewrite (tj_inj _ _ _ _ _ Ht u v); [by left | done..]. }
  revert Hs Hne. generalize vs. clear. intros l Hs. induction Hs as [|u l _ IH Hf]; intros Hne; [by exists [], []|].
  apply Forall_cons in Hne as [Hu Hne]. destruct (Z_lt_le_dec (num v) (num u)) as [Hlt|Hle].
  - destruct (IH Hne) as (vs1 & vs2 & -> & H1 & H2). exists (u :: vs1), vs2. split_and!; [done | by constructor | done].
  - exists [], (u :: l). split_and!; [done | constructor|]. rewrite Forall_forall in Hf, Hne.
    constructor; [lia|]. apply Forall_forall. intros w Hw. specialize (Hf w Hw). specialize (Hne w Hw). lia.
Qed.
End End_of_node.
End Tarjan.
