(* ===== verification/SccSearch.v ===== *)
(** * Strongly connected components: the search

    BuildSCCDFS keeps the invariant of [SccTarjan] and its two stacks in step with
    the nodes that are being explored, and makes one object for each component. *)
From stdpp Require Import gmap sets relations sorting.
From S2P Require Import Prelude.
From S2P Require Import Dominance.
From S2P Require Import Scc.
From S2P Require Import SccTarjan.

Lemma vec_some {A} (l : list A) i x : l !! i = Some x -> vec l i = Ret x.
Proof. unfold vec. by intros ->. Qed.
Lemma vec_set_lt {A} (l : list A) i x : (i < length l)%nat -> vec_set l i x = Ret (<[i := x]> l).
Proof. intros Hi. unfold vec_set. by rewrite (proj2 (Nat.ltb_lt _ _) Hi). Qed.

Lemma rev_elements {A} (x : A) l : x ∈ rev l <-> x ∈ l.
Proof. by rewrite !list_elem_of_In, <- in_rev. Qed.

(** ** The search stack *)

(** [gs] are the nodes that are being explored, and an entry is a node with its
    parent: one of [gs], or one that waits to be explored from the head of [gs]. *)
Inductive stk (GetOutNodes : nat -> list nat) : list (nat * option nat) -> list nat -> Prop :=
  | stk_nil : stk GetOutNodes [] []
  | stk_wait v es gs : stk GetOutNodes es gs -> v ∉ gs -> (forall g, head gs = Some g -> edge GetOutNodes g v) ->
      stk GetOutNodes ((v, head gs) :: es) gs
  | stk_open v es gs : stk GetOutNodes es gs -> v ∉ gs -> (forall g, head gs = Some g -> edge GetOutNodes g v) ->
      stk GetOutNodes ((v, head gs) :: es) (v :: gs).

Lemma stk_parent GetOutNodes es gs w g : stk GetOutNodes es gs -> (w, Some g) ∈ es -> g ∈ gs.
Proof.
  induction 1 as [|v es gs _ IH _ _|v es gs _ IH _ _]; [by intros ?%elem_of_nil| |];
    (intros [[= -> Hg]|Hin]%elem_of_cons; [|try (right; by apply IH); by apply IH]).
  - by apply head_Some_elem_of.
  - right. by apply head_Some_elem_of.
Qed.

Lemma stk_wait_all GetOutNodes es g gs l :
  stk GetOutNodes es (g :: gs) -> (forall w, w ∈ l -> w ∉ g :: gs /\ edge GetOutNodes g w) ->
  stk GetOutNodes (zip l (replicate (length l) (Some g)) ++ es) (g :: gs).
Proof.
  intros Hes. induction l as [|w l IH]; intros Hl; [done|]. cbn.
  destruct (Hl w ltac:(by left)) as [Hw Hgw]. apply (stk_wait _ w _ (g :: gs)); [|done|by intros h [= <-]].
  apply IH. intros u Hu. apply Hl. by right.
Qed.

Lemma elem_of_zip_const {A B} (x : A) (y : B) l p : (x, y) ∈ zip l (replicate (length l) p) <-> x ∈ l /\ y = p.
Proof.
  induction l as [|z l IH]; cbn; [split; [by intros ?%elem_of_nil | by intros [?%elem_of_nil _]]|].
  rewrite !elem_of_cons, IH. split; [intros [[= -> ->]|[? ->]]; tauto | intros [[->|?] ->]; tauto].
Qed.

(** ** The objects of the components *)

Section Objects.
Context (old : list SCCNode).
Notation p0 := (length old).
Definition scc_objs (cs : list (list nat)) : list SCCNode :=
  old ++ imap (fun i c => MkSCCNode (Z.of_nat i) c ∅ ∅) cs.

Lemma scc_objs_snoc cs c : scc_objs (cs ++ [c]) = scc_objs cs ++ [MkSCCNode (Z.of_nat (length cs)) c ∅ ∅].
Proof. unfold scc_objs. rewrite imap_app, <- app_assoc. simpl. by rewrite Nat.add_0_r. Qed.
Lemma scc_objs_length cs : length (scc_objs cs) = (p0 + length cs)%nat.
Proof. unfold scc_objs. by rewrite length_app, length_imap. Qed.

Lemma AddNode_last cs c node m vec :
  AddNode node (p0 + length cs) (MkSccHeap (scc_objs (cs ++ [c])) m vec) =
  Ret (MkSccHeap (scc_objs (cs ++ [c ++ [node]])) m vec).
Proof.
  unfold AddNode, scc_at, put_scc. cbn [sccs sccNode topologicalVec]. rewrite !scc_objs_snoc.
  rewrite (vec_some _ _ (MkSCCNode (Z.of_nat (length cs)) c ∅ ∅)).
  - cbn [mbind res_bind scc_id scc_nodes inScc outScc]. do 2 f_equal.
    rewrite insert_app_r_alt by (rewrite scc_objs_length; lia). by rewrite scc_objs_length, Nat.sub_diag.
  - rewrite lookup_app_r by (rewrite scc_objs_length; lia). by rewrite scc_objs_length, Nat.sub_diag.
Qed.

(** The components so far are [cs]; the objects of [old] are those of earlier
    calls. *)
Record built (GetOutNodes : nat -> list nat) (cs : list (list nat)) (h : SccHeap) : Prop := {
  bu_sccs : sccs h = scc_objs cs;
  bu_vec : topologicalVec h = seq p0 (length cs);
  bu_node : forall v p, sccNode h !! v = Some p <-> exists i c, cs !! i = Some c /\ v ∈ c /\ p = (p0 + i)%nat;
  bu_NoDup : Forall (fun c => NoDup c /\ c <> []) cs;
  bu_comp : forall i c v u, cs !! i = Some c -> v ∈ c -> u ∈ c <-> connected GetOutNodes v u;
  bu_order : forall i j c d u w, cs !! i = Some c -> cs !! j = Some d -> u ∈ c -> w ∈ d -> edge GetOutNodes u w -> (j <= i)%nat
}.

Lemma lookup_snoc_or {A} (l : list A) x i y : (l ++ [x]) !! i = Some y <-> l !! i = Some y \/ i = length l /\ y = x.
Proof.
  rewrite lookup_app_Some. split.
  - intros [?|[Hle Hi]]; [by left|]. right. apply list_lookup_singleton_Some in Hi as [? ->]. split; [lia | done].
  - intros [?|[-> ->]]; [by left | right]. split; [done|]. by rewrite Nat.sub_diag.
Qed.

Lemma built_snoc GetOutNodes cs h c h' :
  built GetOutNodes cs h ->
  NoDup c -> c <> [] -> (forall v, v ∈ c -> sccNode h !! v = None) ->
  (forall v u, v ∈ c -> u ∈ c <-> connected GetOutNodes v u) ->
  (forall u w, is_Some (sccNode h !! u) -> edge GetOutNodes u w -> is_Some (sccNode h !! w)) ->
  sccs h' = scc_objs (cs ++ [c]) -> topologicalVec h' = topologicalVec h ++ [p0 + length cs]%nat ->
  (forall v, sccNode h' !! v = if decide (v ∈ c) then Some (p0 + length cs)%nat else sccNode h !! v) ->
  built GetOutNodes (cs ++ [c]) h'.
Proof.
  intros [Hs Hv Hn Hnd Hcomp Hord] Hc Hne Hnew Hcon Hcl Hs' Hv' Hn'. constructor.
  - done.
  - rewrite Hv', Hv, length_app. simpl. by rewrite Nat.add_1_r, seq_S.
  - intros v p. rewrite Hn'. setoid_rewrite lookup_snoc_or. case_decide as Hin.
    + split; [intros [= <-]; exists (length cs), c; by split_and!; [right|..]|].
      intros (i & d & [Hi|[-> ->]] & Hd & ->); [|done]. exfalso.
      assert (Hsome : sccNode h !! v = Some (p0 + i)%nat) by (apply Hn; by exists i, d). by rewrite Hnew in Hsome.
    + rewrite Hn. split; intros (i & d & Hi & Hd & ->); exists i, d; [by split_and!; [left|..]|].
      destruct Hi as [?|[-> ->]]; done.
  - apply Forall_app. split; [done|]. by apply Forall_singleton.
  - intros i d v u [Hi|[-> ->]]%lookup_snoc_or Hd; [by apply (Hcomp i) | by apply Hcon].
  - intros i j d e u w [Hi|[-> ->]]%lookup_snoc_or [Hj|[-> ->]]%lookup_snoc_or Hu Hw Huw; [by eapply Hord| | |done].
    + destruct (Hcl u w) as [p Hp]; [|done|by rewrite Hnew in Hp]. exists (p0 + i)%nat. apply Hn. by exists i, d.
    + apply lookup_lt_Some in Hj. lia.
Qed.
End Objects.

(** ** One step of the search *)

Section Search.
Context (GetOutNodes : nat -> list nat) (n : nat).
Context (Hout : forall v w, (v < n)%nat -> w ∈ GetOutNodes v -> (w < n)%nat) (Hn : Z.of_nat n + 1 < 2 ^ 32).
Context (old : list SCCNode) (roots : list nat).
Notation edge := (edge GetOutNodes).
Notation reach := (reach GetOutNodes).

Definition num (st : Search) (v : nat) : Z := default 0 (visitedOrder st !! v).
Definition low (st : Search) (v : nat) : Z := default 0 (lowestOrder st !! v).
Definition dn (st : Search) (v : nat) : bool := bool_decide (is_Some (sccNode (heap st) !! v)).
Definition again (st : Search) (v : nat) : bool := default false (secondTimeVisited st !! v).
Definition visited (st : Search) : list nat := filter (fun v => num st v <> 0) (seq 0 n).
Definition entries (st : Search) : list (nat * option nat) := zip (stack st) (parent st).
Definition from_roots (v : nat) : Prop := exists r, r ∈ roots /\ reach r v.

#[local] Instance opened_dec nm d v : Decision (opened nm d v).
Proof. unfold opened. apply _. Defined.

(** Between two steps; [idle] is what holds between two searches. *)
Record idle (cs : list (list nat)) (gs : list nat) (st : Search) : Prop := {
  id_order : length (visitedOrder st) = n;
  id_lowest : length (lowestOrder st) = n;
  id_inStack : length (inStack st) = n;
  id_nodes : length (id2Node st) = n;
  id_tarjan : tarjan GetOutNodes (num st) (low st) (dn st) gs (visitStack st);
  id_on : forall v, (v < n)%nat -> inStack st !! v = Some (bool_decide (opened (num st) (dn st) v));
  id_node : forall v, num st v <> 0 -> id2Node st !! v = Some (Some v);
  id_index : visitIndex st = 1 + Z.of_nat (length (visited st));
  id_num : forall v, num st v <> 0 -> 1 < num st v <= visitIndex st;
  id_from : forall v, num st v <> 0 -> from_roots v;
  id_built : built old GetOutNodes cs (heap st);
  id_count : numOfSccs st = Z.of_nat (length cs);
  id_size : (length cs + length gs <= length (visited st))%nat
}.

Record searching (cs : list (list nat)) (gs : list nat) (st : Search) : Prop := {
  se_idle : idle cs gs st;
  se_second : length (secondTimeVisited st) = n;
  se_parent : length (parent st) = length (stack st);
  se_stk : stk GetOutNodes (entries st) gs;
  se_lt : forall v, v ∈ stack st -> (v < n)%nat;
  se_from : forall v, v ∈ stack st -> from_roots v;
  se_seen : forall v, v ∈ stack st -> num st v <> 0 -> v ∈ gs \/ again st v = true;
  se_again : forall v, again st v = true -> num st v <> 0 /\ v ∉ gs;
  se_wait : forall g w, g ∈ gs -> edge g w -> num st w <> 0 \/ (w, Some g) ∈ entries st
}.

Lemma num_lt st v : length (visitedOrder st) = n -> num st v <> 0 -> (v < n)%nat.
Proof.
  intros Hl Hv. unfold num in Hv. destruct (visitedOrder st !! v) eqn:Hlk; [|done].
  apply lookup_lt_Some in Hlk. lia.
Qed.

Lemma visited_room st v : (v < n)%nat -> num st v = 0 -> (length (visited st) < n)%nat.
Proof.
  intros Hv H0. pose proof (length_filter_lt (fun v => num st v <> 0) (seq 0 n) v) as Hlt. rewrite length_seq in Hlt.
  apply Hlt; [apply elem_of_seq; lia | by intros H].
Qed.

(** ** The first visit *)

Definition fold_low (st : Search) (l : list nat) (x : Z) : Z :=
  foldl (fun m w => if default false (inStack st !! w) then Z.min m (num st w) else m) x l.

Lemma fold_low_spec st l x :
  fold_low st l x <= x /\ (forall w, w ∈ l -> inStack st !! w = Some true -> fold_low st l x <= num st w) /\
  (fold_low st l x = x \/ exists w, w ∈ l /\ inStack st !! w = Some true /\ fold_low st l x = num st w).
Proof.
  unfold fold_low. revert x. induction l as [|u l IH]; intros x; cbn [foldl].
  { split_and!; [done | by intros w ?%elem_of_nil | by left]. }
  set (y := if default false (inStack st !! u) then Z.min x (num st u) else x).
  destruct (IH y) as (H1 & H2 & H3). assert (Hyx : y <= x) by (unfold y; case_match; lia). split_and!.
  - lia.
  - intros w [->|Hw]%elem_of_cons Hon; [|by apply H2]. unfold y in H1 |- *. rewrite Hon in H1 |- *. cbn in *. lia.
  - destruct H3 as [->|(w & Hw & Hon & ->)]; [|right; exists w; by split_and!; [right|..]]. unfold y.
    destruct (inStack st !! u) as [[|]|] eqn:Hon; cbn; [|by left|by left].
    destruct (Z.min_spec x (num st u)) as [[_ ->]|[_ ->]]; [by left|]. right. exists u. by split_and!; [left|..].
Qed.

Definition unseen (st : Search) (l : list nat) : list nat :=
  filter (fun w => inStack st !! w <> Some true /\ num st w = 0) l.

Lemma app_cons_replicate {A} k (x : A) l : replicate k x ++ x :: l = x :: replicate k x ++ l.
Proof. induction k as [|k IH]; [done|]. simpl. by rewrite IH. Qed.

(** The loop over the successors *)
Lemma visit_succs v l st :
  length (visitedOrder st) = n -> length (inStack st) = n -> (v < length (lowestOrder st))%nat -> Forall (fun w => (w < n)%nat) l ->
  for_each (visit_succ v) l st =
    Ret (set_stacks (rev (unseen st l) ++ stack st) (replicate (length (unseen st l)) (Some v) ++ parent st)
      (set_lowest (<[v := fold_low st l (low st v)]> (lowestOrder st)) st)).
Proof.
  intros Hvo Hon Hv. revert st Hvo Hon Hv. induction l as [|w l IH]; intros st Hvo Hon Hv Hl; cbn [for_each].
  { unfold unseen, fold_low, low. cbn. rewrite list_insert_id; [by destruct st|].
    destruct (lookup_lt_is_Some_2 _ _ Hv) as [x Hx]. by rewrite Hx. }
  apply Forall_cons in Hl as [Hw Hl]. unfold visit_succ.
  destruct (lookup_lt_is_Some_2 (inStack st) w) as [b Hb]; [lia|]. rewrite (vec_some _ _ _ Hb). cbn [mbind res_bind].
  destruct (lookup_lt_is_Some_2 (visitedOrder st) w) as [x Hx]; [lia|]. rewrite (vec_some _ _ _ Hx). cbn [mbind res_bind].
  assert (Hnum : num st w = x) by (unfold num; by rewrite Hx).
  unfold unseen, fold_low. rewrite filter_cons. cbn [foldl]. rewrite Hb. cbn [default from_option id].
  destruct b.
  - rewrite decide_False by (intros [? _]; done). unfold lower.
    destruct (lookup_lt_is_Some_2 _ _ Hv) as [lo Hlo]. rewrite (vec_some _ _ _ Hlo). cbn [mbind res_bind].
    rewrite vec_set_lt by done. cbn [mbind res_bind]. rewrite IH; [|done|done|cbn; by rewrite length_insert|done].
    unfold set_lowest, set_stacks, unseen, fold_low, low. cbn [lowestOrder stack parent].
    rewrite list_lookup_insert_eq, list_insert_insert_eq, Hlo by done. cbn [default from_option id].
    by rewrite Hnum.
  - destruct (Z.eqb_spec x 0) as [->|Hx0].
    + rewrite decide_True by (split; [done | by rewrite Hnum]). cbn [mbind res_bind]. rewrite IH by done.
      unfold set_lowest, set_stacks, unseen, fold_low, low. cbn [lowestOrder stack parent].
      cbn [rev length replicate]. rewrite <- app_assoc. cbn [app]. do 2 f_equal.
      apply (app_cons_replicate (length (unseen st l))).
    + rewrite decide_False by (intros [_ ?]; congruence). cbn [mbind res_bind]. by rewrite IH.
Qed.

Lemma default_insert {A} (d : A) (l : list A) i j x :
  (i < length l)%nat -> default d (<[i := x]> l !! j) = if decide (j = i) then x else default d (l !! j).
Proof. intros Hi. case_decide as Hj; [subst; by rewrite list_lookup_insert_eq | by rewrite list_lookup_insert_ne]. Qed.

(** The first entry is not being explored if it has not been visited. *)
Lemma wait_top cs gs st v s' :
  searching cs gs st -> stack st = v :: s' -> num st v = 0 ->
  exists ps, parent st = head gs :: ps /\ entries st = (v, head gs) :: zip s' ps /\ length ps = length s' /\
    stk GetOutNodes (zip s' ps) gs /\ v ∉ gs /\ (forall g, head gs = Some g -> edge g v).
Proof.
  intros Hse Hs Hv. pose proof (se_stk _ _ _ Hse) as Hstk. pose proof (se_parent _ _ _ Hse) as Hlen.
  unfold entries in *. rewrite Hs in *. destruct (parent st) as [|p ps]; [done|]. cbn [zip zip_with] in *.
  exists ps. inversion Hstk as [|v' es gs' Hes Hvg Hhd|v' es gs' Hes Hvg Hhd]; subst.
  - split_and!; try done. by injection Hlen.
  - exfalso. destruct (tj_gs _ _ _ _ _ _ (id_tarjan _ _ _ (se_idle _ _ _ Hse)) v) as [? _]; [by left | done].
Qed.

Definition forwarded (st : Search) (v : nat) : Search :=
  let st1 := MkSearch (heap st) (numOfSccs st) (visitIndex st + 1) (<[v := Some v]> (id2Node st))
    (<[v := visitIndex st + 1]> (visitedOrder st)) (<[v := visitIndex st + 1]> (lowestOrder st))
    (<[v := true]> (inStack st)) (visitStack st) (stack st) (parent st) (secondTimeVisited st) in
  let l := rev (GetOutNodes v) in
  set_stacks (rev (unseen st1 l) ++ stack st) (replicate (length (unseen st1 l)) (Some v) ++ parent st)
    (set_lowest (<[v := fold_low st1 l (visitIndex st + 1)]> (lowestOrder st)) st1).

Section Forward.
Context (cs : list (list nat)) (gs : list nat) (st : Search) (v : nat) (s' : list nat).
Context (Hse : searching cs gs st) (Hs : stack st = v :: s') (Hv : num st v = 0).
Notation st' := (forwarded st v).
Notation k := (visitIndex st + 1).
Let Hid := se_idle _ _ _ Hse.

Lemma fw_lt : (v < n)%nat.
Proof. apply (se_lt _ _ _ Hse). rewrite Hs. by left. Qed.

Lemma fw_index : 1 < k < 2 ^ 32.
Proof.
  rewrite (id_index _ _ _ Hid). pose proof (visited_room st v fw_lt Hv). lia.
Qed.

Lemma forward_eq : forward GetOutNodes v st = Ret st'.
Proof.
  pose proof fw_lt as Hlt. pose proof fw_index as Hk. unfold forward.
  rewrite (vec_set_lt (id2Node st)) by (by rewrite (id_nodes _ _ _ Hid)). cbn [mbind res_bind].
  rewrite wrap_small by lia.
  rewrite (vec_set_lt (visitedOrder st)) by (by rewrite (id_order _ _ _ Hid)). cbn [mbind res_bind].
  rewrite (vec_set_lt (lowestOrder st)) by (by rewrite (id_lowest _ _ _ Hid)). cbn [mbind res_bind].
  rewrite (vec_set_lt (inStack st)) by (by rewrite (id_inStack _ _ _ Hid)). cbn [mbind res_bind].
  rewrite visit_succs; cbn [visitedOrder inStack lowestOrder]; rewrite ?length_insert.
  - unfold forwarded, set_lowest, set_stacks, low. cbn [lowestOrder stack parent].
    rewrite list_lookup_insert_eq, list_insert_insert_eq by (by rewrite (id_lowest _ _ _ Hid)). done.
  - apply (id_order _ _ _ Hid).
  - apply (id_inStack _ _ _ Hid).
  - by rewrite (id_lowest _ _ _ Hid).
  - apply Forall_forall. intros w Hw. apply (Hout v w Hlt). by apply rev_elements.
Qed.

Lemma fw_num u : num st' u = if decide (u = v) then k else num st u.
Proof. unfold num, forwarded. cbn. apply default_insert. rewrite (id_order _ _ _ Hid). exact fw_lt. Qed.
Lemma fw_low u : low st' u = if decide (u = v) then low st' v else low st u.
Proof.
  unfold low, forwarded, set_lowest. cbn. rewrite !default_insert by (rewrite (id_lowest _ _ _ Hid); exact fw_lt).
  by rewrite (decide_True (P := v = v)).
Qed.
Lemma fw_opened u : opened (num st') (dn st') u <-> u = v \/ opened (num st) (dn st) u.
Proof.
  unfold opened. change (dn st') with (dn st). rewrite fw_num. pose proof fw_index. case_decide as Hu; [|tauto].
  subst. split; [by left|]. intros _. split; [lia|]. destruct (dn st v) eqn:Hd; [|done].
  by apply (tj_dn _ _ _ _ _ _ (id_tarjan _ _ _ Hid)) in Hd.
Qed.
Lemma fw_on u : (u < n)%nat -> inStack st' !! u = Some (bool_decide (opened (num st') (dn st') u)).
Proof.
  intros Hu. rewrite (bool_decide_ext _ _ (fw_opened u)). unfold forwarded. cbn. destruct (decide (u = v)) as [->|Hne].
  - rewrite list_lookup_insert_eq by (by rewrite (id_inStack _ _ _ Hid)). by rewrite bool_decide_eq_true_2 by (by left).
  - rewrite list_lookup_insert_ne by done. rewrite (id_on _ _ _ Hid u Hu). f_equal. apply bool_decide_ext. tauto.
Qed.

Lemma fw_tarjan : tarjan GetOutNodes (num st') (low st') (dn st') (v :: gs) (visitStack st').
Proof.
  destruct (wait_top cs gs st v s' Hse Hs Hv) as (ps & _ & _ & _ & _ & _ & Hhead).
  pose proof fw_index as Hk. pose proof (id_tarjan _ _ _ Hid) as Ht.
  set (st1 := MkSearch (heap st) (numOfSccs st) k (<[v := Some v]> (id2Node st)) (<[v := k]> (visitedOrder st))
    (<[v := k]> (lowestOrder st)) (<[v := true]> (inStack st)) (visitStack st) (stack st) (parent st) (secondTimeVisited st)).
  assert (Hlv : low st' v = fold_low st1 (rev (GetOutNodes v)) k).
  { unfold low, forwarded, set_lowest. cbn. rewrite list_lookup_insert_eq; [done|]. rewrite (id_lowest _ _ _ Hid). exact fw_lt. }
  assert (Hsucc : forall w, w ∈ rev (GetOutNodes v) <-> edge v w).
  { intros w. unfold edge. by rewrite rev_elements. }
  assert (Hon : forall w, edge v w -> inStack st1 !! w = Some true <-> opened (num st') (dn st') w).
  { intros w Hw. change (inStack st1) with (inStack st'). rewrite fw_on by (by apply (Hout v w fw_lt)).
    split; [by intros [= ?%bool_decide_eq_true] | intros Ho; by rewrite bool_decide_eq_true_2]. }
  destruct (fold_low_spec st1 (rev (GetOutNodes v)) k) as (H1 & H2 & H3). rewrite <- Hlv in H1, H2, H3.
  change (num st1) with (num st') in *.
  apply (tarjan_visit GetOutNodes (num st) (low st) (dn st) gs (visitStack st) (num st') (low st') v k); try done.
  - lia.
  - intros u. destruct (decide (num st u = 0)) as [->|Hu]; [lia|]. pose proof (id_num _ _ _ Hid u Hu). lia.
  - destruct (dn st v) eqn:Hd; [|done]. by apply (tj_dn _ _ _ _ _ _ Ht) in Hd.
  - exact fw_num.
  - intros u Hu. by rewrite fw_low, decide_False.
  - intros w Hw Ho. apply H2; [by apply Hsucc | by apply Hon].
  - destruct H3 as [?|(w & Hw & Ho & ?)]; [by left|]. right. exists w. apply Hsucc in Hw. by split_and!; [|apply Hon|].
Qed.

Lemma fw_visited : length (visited st') = S (length (visited st)).
Proof.
  assert (Hp : visited st' ≡ₚ v :: visited st); [|by rewrite Hp].
  apply NoDup_Permutation; [apply NoDup_filter, NoDup_seq | |].
  - constructor; [|apply NoDup_filter, NoDup_seq]. by intros [? _]%list_elem_of_filter.
  - intros u. unfold visited. rewrite elem_of_cons, !list_elem_of_filter, fw_num, !elem_of_seq. pose proof fw_lt. pose proof fw_index.
    destruct (decide (u = v)) as [->|]; [|tauto]. split; [by left|]. intros _. split; [lia|]. lia.
Qed.

Lemma fw_idle : idle cs (v :: gs) st'.
Proof.
  pose proof fw_lt as Hlt. constructor; try (unfold forwarded; cbn; rewrite ?length_insert; apply Hid; fail).
  - exact fw_tarjan.
  - exact fw_on.
  - intros u. rewrite fw_num. unfold forwarded. cbn. case_decide as Hu.
    + intros _. subst. apply list_lookup_insert_eq. by rewrite (id_nodes _ _ _ Hid).
    + rewrite list_lookup_insert_ne by done. apply (id_node _ _ _ Hid).
  - rewrite fw_visited. unfold forwarded. cbn. rewrite (id_index _ _ _ Hid). lia.
  - intros u. rewrite fw_num. unfold forwarded. cbn. pose proof fw_index. case_decide; [lia|].
    intros Hu. pose proof (id_num _ _ _ Hid u Hu). lia.
  - intros u. rewrite fw_num. case_decide as Hu; [|by apply (id_from _ _ _ Hid)].
    intros _. subst. apply (se_from _ _ _ Hse). rewrite Hs. by left.
  - rewrite fw_visited. pose proof (id_size _ _ _ Hid). simpl. lia.
Qed.

Notation st1 := (MkSearch (heap st) (numOfSccs st) k (<[v := Some v]> (id2Node st)) (<[v := k]> (visitedOrder st))
    (<[v := k]> (lowestOrder st)) (<[v := true]> (inStack st)) (visitStack st) (stack st) (parent st) (secondTimeVisited st)).
Notation new := (rev (unseen st1 (rev (GetOutNodes v)))).

Lemma fw_new w : w ∈ new <-> edge v w /\ num st' w = 0.
Proof.
  rewrite rev_elements. unfold unseen. rewrite list_elem_of_filter, rev_elements. unfold edge.
  change (num st1 w) with (num st' w). change (inStack st1) with (inStack st'). split; [tauto|]. intros [Hw H0]. split_and!; [|done..].
  rewrite fw_on by (by apply (Hout v w fw_lt)). intros [= [Ho _]%bool_decide_eq_true]. done.
Qed.

Lemma fw_entries : entries st' = zip new (replicate (length new) (Some v)) ++ entries st.
Proof.
  unfold entries, forwarded, set_stacks. cbn [stack parent]. rewrite zip_with_app by (by rewrite length_rev, length_replicate).
  by rewrite length_rev.
Qed.

Lemma fw_searching : searching cs (v :: gs) st'.
Proof.
  destruct (wait_top cs gs st v s' Hse Hs Hv) as (ps & Hps & Hent & Hlen & Hstk & Hvg & Hhead).
  assert (Hstack : forall u, u ∈ stack st' -> u ∈ new \/ u ∈ stack st) by (intros u Hu; by apply elem_of_app in Hu).
  assert (Hvs : v ∈ stack st) by (rewrite Hs; by left).
  assert (Hold : forall u, num st u <> 0 -> num st' u <> 0).
  { intros u Hu. rewrite fw_num. pose proof fw_index. case_decide; [lia | done]. }
  constructor.
  - exact fw_idle.
  - apply (se_second _ _ _ Hse).
  - unfold forwarded, set_stacks. cbn [stack parent]. rewrite !length_app, length_rev, length_replicate. by rewrite (se_parent _ _ _ Hse).
  - rewrite fw_entries, Hent. apply stk_wait_all; [by apply stk_open|]. intros w [Hvw Hw]%fw_new. split; [|done].
    intros Hin. destruct (tj_gs _ _ _ _ _ _ fw_tarjan w Hin). done.
  - intros u [[Hu _]%fw_new|Hu]%Hstack; [by apply (Hout v u fw_lt) | by apply (se_lt _ _ _ Hse)].
  - intros u [[Hu _]%fw_new|Hu]%Hstack; [|by apply (se_from _ _ _ Hse)].
    destruct (se_from _ _ _ Hse v Hvs) as (r & Hr & Hrv). exists r. split; [done|]. by eapply rtc_r.
  - intros u [[_ Hu]%fw_new|Hu]%Hstack Hnu; [done|]. destruct (decide (u = v)) as [->|Hne]; [left; by left|].
    rewrite fw_num, decide_False in Hnu by done.
    destruct (se_seen _ _ _ Hse u Hu Hnu) as [?|?]; [left; by right | by right].
  - intros u Hu. destruct (se_again _ _ _ Hse u Hu) as [Hnu Hug]. split; [by apply Hold|].
    apply not_elem_of_cons. split; [intros ->; done | done].
  - intros g w Hg Hgw. destruct (decide (num st' w = 0)) as [H0|?]; [right | by left]. rewrite fw_entries, elem_of_app.
    apply elem_of_cons in Hg as [->|Hg]; [left; apply elem_of_zip_const; split; [by apply fw_new | done]|].
    destruct (se_wait _ _ _ Hse g w Hg Hgw) as [Hw|?]; [by apply Hold in Hw | by right].
Qed.
End Forward.

(** ** The length of the search *)

Definition unvisited (st : Search) : list nat := filter (fun v => num st v = 0) (seq 0 n).
Definition left_over (st : Search) : nat :=
  (length (stack st) + sum_list_with (fun v => S (length (GetOutNodes v))) (unvisited st))%nat.

Lemma fw_measure cs gs st v s' :
  searching cs gs st -> stack st = v :: s' -> num st v = 0 -> (left_over (forwarded st v) < left_over st)%nat.
Proof.
  intros Hse Hs Hv. pose proof (fw_lt cs gs st v s' Hse Hs) as Hlt. pose proof (fw_index cs gs st v s' Hse Hs Hv) as Hk.
  assert (Hp : unvisited st ≡ₚ v :: unvisited (forwarded st v)).
  { apply NoDup_Permutation; [apply NoDup_filter, NoDup_seq | constructor; [|apply NoDup_filter, NoDup_seq]|].
    - intros [H0 _]%list_elem_of_filter. rewrite (fw_num cs gs st v s' Hse Hs), decide_True in H0 by done. lia.
    - intros u. unfold unvisited. rewrite elem_of_cons, !list_elem_of_filter, !elem_of_seq, (fw_num cs gs st v s' Hse Hs).
      destruct (decide (u = v)) as [->|]; [|tauto]. split; [by left|]. intros _. split; [done | lia]. }
  unfold left_over. rewrite Hp. cbn [sum_list_with]. unfold forwarded, set_stacks. cbn [stack].
  rewrite length_app, length_rev.
  match goal with |- context [unseen ?a ?b] => assert (Hle : (length (unseen a b) <= length b)%nat) by apply length_filter end.
  rewrite length_rev in Hle. unfold unvisited, num in *. cbn in *. lia.
Qed.

(** ** The later visits *)

Lemma num_lookup st v : length (visitedOrder st) = n -> (v < n)%nat -> visitedOrder st !! v = Some (num st v).
Proof. intros Hl Hv. unfold num. by destruct (lookup_lt_is_Some_2 (visitedOrder st) v ltac:(lia)) as [x ->]. Qed.
Lemma low_lookup st v : length (lowestOrder st) = n -> (v < n)%nat -> lowestOrder st !! v = Some (low st v).
Proof. intros Hl Hv. unfold low. by destruct (lookup_lt_is_Some_2 (lowestOrder st) v ltac:(lia)) as [x ->]. Qed.
Lemma again_lookup st v : length (secondTimeVisited st) = n -> (v < n)%nat -> secondTimeVisited st !! v = Some (again st v).
Proof. intros Hl Hv. unfold again. by destruct (lookup_lt_is_Some_2 (secondTimeVisited st) v ltac:(lia)) as [x ->]. Qed.

(** An entry whose node has been explored is dropped. *)
Lemma backward_again cs gs st v s' :
  searching cs gs st -> stack st = v :: s' -> num st v <> 0 -> again st v = true ->
  wp (backward v st) (fun st' => searching cs gs st' /\ (stack st' = s' /\ visitedOrder st' = visitedOrder st) /\
    (left_over st' < left_over st)%nat).
Proof.
  intros Hse Hs Hv Hag. pose proof (se_parent _ _ _ Hse) as Hlen. pose proof (se_stk _ _ _ Hse) as Hstk.
  assert (Hlt : (v < n)%nat) by (apply (se_lt _ _ _ Hse); rewrite Hs; by left).
  unfold backward. rewrite Hs in *. destruct (parent st) as [|p ps] eqn:Hps; [done|]. cbn [secondTimeVisited set_stacks].
  rewrite (vec_some _ _ _ (again_lookup st v (se_second _ _ _ Hse) Hlt)). cbn [mbind res_bind]. rewrite Hag.
  unfold entries in Hstk. rewrite Hs, Hps in Hstk. cbn in Hstk.
  assert (Hes : stk GetOutNodes (zip s' ps) gs).
  { inversion Hstk as [|v' es gs' Hes Hvg Hhd|v' es gs' Hes Hvg Hhd]; subst; [done|].
    destruct (se_again _ _ _ Hse v Hag) as [_ Hno]. destruct Hno. by left. }
  split; [|split; [done|]; unfold left_over, set_stacks; cbn; rewrite Hs; simpl; by apply Nat.lt_succ_diag_r].
  destruct Hse as [Hid Hsec _ _ Hl Hf Hseen Hagn Hw]. rewrite Hs in *. constructor; try done.
  - by destruct Hid.
  - cbn. by injection Hlen.
  - intros u Hu. apply Hl. by right.
  - intros u Hu. apply Hf. by right.
  - intros u Hu. apply Hseen. by right.
  - intros g w Hg Hgw. destruct (Hw g w Hg Hgw) as [?|Hin]; [by left|]. unfold entries in *. rewrite Hs, Hps in Hin. cbn in Hin.
    apply elem_of_cons in Hin as [[= -> _]|Hin]; [by left | by right].
Qed.

Lemma foldl_insert_map (p : nat) l (m : gmap nat nat) u :
  foldl (fun m w => <[w := p]> m) m l !! u = if decide (u ∈ l) then Some p else m !! u.
Proof.
  revert m. induction l as [|w l IH]; intros m; cbn [foldl]; [by rewrite decide_False by (by intros ?%elem_of_nil)|].
  rewrite IH. destruct (decide (u = w)) as [->|Hne].
  - rewrite (decide_True (P := w ∈ w :: l)) by (by left). case_decide; [done | by rewrite lookup_insert_eq].
  - rewrite lookup_insert_ne by done. destruct (decide (u ∈ l)) as [Hu|Hu].
    + by rewrite decide_True by (by right).
    + by rewrite decide_False by (by intros [?|?]%elem_of_cons).
Qed.

Lemma foldl_insert_list {A} (x : A) l (L : list A) u :
  (u < length L)%nat -> foldl (fun L w => <[w := x]> L) L l !! u = if decide (u ∈ l) then Some x else L !! u.
Proof.
  revert L. induction l as [|w l IH]; intros L Hu; cbn [foldl]; [by rewrite decide_False by (by intros ?%elem_of_nil)|].
  rewrite IH by (by rewrite length_insert). destruct (decide (u = w)) as [->|Hne].
  - rewrite (decide_True (P := w ∈ w :: l)) by (by left). case_decide; [done | by rewrite list_lookup_insert_eq].
  - rewrite list_lookup_insert_ne by done. destruct (decide (u ∈ l)) as [Hu'|Hu'].
    + by rewrite decide_True by (by right).
    + by rewrite decide_False by (by intros [?|?]%elem_of_cons).
Qed.
Lemma foldl_insert_length {A} (x : A) l (L : list A) : length (foldl (fun L w => <[w := x]> L) L l) = length L.
Proof. revert L. induction l as [|w l IH]; intros L; cbn [foldl]; [done|]. by rewrite IH, length_insert. Qed.

Lemma pop_members_eq cs c id vs1 vs2 st m tv :
  length (visitedOrder st) = n -> length (inStack st) = n -> (id < n)%nat ->
  heap st = MkSccHeap (scc_objs old (cs ++ [c])) m tv ->
  Forall (fun u => (u < n)%nat /\ num st id < num st u /\ id2Node st !! u = Some (Some u)) vs1 ->
  Forall (fun u => (u < n)%nat /\ num st u < num st id) vs2 ->
  pop_members id (length old + length cs) (vs1 ++ vs2) st =
    Ret (set_visitStack vs2 (set_inStack (foldl (fun L u => <[u := false]> L) (inStack st) vs1)
      (set_heap (MkSccHeap (scc_objs old (cs ++ [c ++ vs1])) (foldl (fun m u => <[u := length old + length cs]> m)%nat m vs1) tv) st))).
Proof.
  intros Hvo Hon Hid. revert c st m Hvo Hon. induction vs1 as [|u vs1 IH]; intros c st m Hvo Hon Hh H1 H2.
  - cbn [foldl app]. rewrite app_nil_r, <- Hh. assert (Hst : set_visitStack vs2 (set_inStack (inStack st) (set_heap (heap st) st)) = set_visitStack vs2 st) by (by destruct st).
    rewrite Hst. destruct vs2 as [|u vs2]; [done|]. apply Forall_cons in H2 as [[Hu Hlt] _]. cbn [pop_members].
    rewrite (vec_some _ _ _ (num_lookup st u Hvo Hu)). cbn [mbind res_bind].
    rewrite (vec_some _ _ _ (num_lookup st id Hvo Hid)). cbn [mbind res_bind]. by rewrite (proj2 (Z.ltb_lt _ _) Hlt).
  - apply Forall_cons in H1 as [(Hu & Hlt & Hnode) H1]. cbn [app pop_members foldl].
    rewrite (vec_some _ _ _ (num_lookup st u Hvo Hu)). cbn [mbind res_bind].
    rewrite (vec_some _ _ _ (num_lookup st id Hvo Hid)). cbn [mbind res_bind].
    rewrite (proj2 (Z.ltb_ge _ _)) by lia. rewrite vec_set_lt by (by rewrite Hon). cbn [mbind res_bind].
    rewrite (vec_some _ _ _ Hnode). cbn [mbind res_bind deref]. rewrite Hh. unfold SetSCCNode. cbn [sccs sccNode topologicalVec].
    rewrite AddNode_last. cbn [mbind res_bind].
    rewrite (IH (c ++ [u]) _ (<[u := (length old + length cs)%nat]> m)); [|done|cbn; by rewrite length_insert|done|done|done].
    by rewrite <- app_assoc.
Qed.

Section Backward.
Context (cs : list (list nat)) (gs0 : list nat) (st : Search) (v : nat) (s' : list nat).
Context (Hse : searching cs gs0 st) (Hs : stack st = v :: s') (Hv : num st v <> 0) (Hag : again st v = false).
Let Hid := se_idle _ _ _ Hse.

(** The entry is that of the latest node being explored, and its successors have
    been visited. *)
Lemma bw_top : exists gs ps, gs0 = v :: gs /\ parent st = head gs :: ps /\ length ps = length s' /\
  stk GetOutNodes (zip s' ps) gs /\ v ∉ gs /\ (forall w, edge v w -> num st w <> 0).
Proof.
  pose proof (se_parent _ _ _ Hse) as Hlen. pose proof (se_stk _ _ _ Hse) as Hstk.
  destruct (se_seen _ _ _ Hse v) as [Hg|?]; [rewrite Hs; by left | done | | congruence].
  pose proof (se_wait _ _ _ Hse v) as Hw. unfold entries in *. rewrite Hs in *.
  destruct (parent st) as [|p ps]; [done|]. cbn [zip zip_with] in *.
  inversion Hstk as [|v' es gs' Hes Hvg Hhd|v' es gs' Hes Hvg Hhd]; subst; [done|].
  exists gs', ps. split_and!; try done; [by injection Hlen|].
  intros w Hvw. destruct (Hw w Hg Hvw) as [?|Hin]; [done|]. exfalso. apply Hvg. apply elem_of_cons in Hin as [[= _ Hp]|Hin].
  - by apply head_Some_elem_of.
  - by eapply stk_parent.
Qed.

Context (gs : list nat) (ps : list (option nat)).
Context (Hgs : gs0 = v :: gs) (Hps : parent st = head gs :: ps) (Hlen : length ps = length s').
Context (Hstk : stk GetOutNodes (zip s' ps) gs) (Hvg : v ∉ gs) (Hall : forall w, edge v w -> num st w <> 0).

Definition low_parent : list Z :=
  match head gs with Some p => <[p := Z.min (low st p) (low st v)]> (lowestOrder st) | None => lowestOrder st end.
Notation st2 := (set_lowest low_parent (set_second (<[v := true]> (secondTimeVisited st)) (set_stacks s' ps st))).

Lemma bw_lt : (v < n)%nat.
Proof. apply (se_lt _ _ _ Hse). rewrite Hs. by left. Qed.
Lemma bw_tarjan : tarjan GetOutNodes (num st) (low st) (dn st) (v :: gs) (visitStack st).
Proof. rewrite <- Hgs. apply (id_tarjan _ _ _ Hid). Qed.
Lemma bw_gs_lt g : g ∈ gs -> (g < n)%nat.
Proof.
  intros Hg. apply (num_lt st); [apply (id_order _ _ _ Hid)|]. apply (tj_gs _ _ _ _ _ _ bw_tarjan). by right.
Qed.

Lemma bw_low_parent p : head gs = Some p -> low st2 p = Z.min (low st p) (low st v).
Proof.
  intros Hp. unfold low at 1, set_lowest, low_parent. cbn. rewrite Hp.
  rewrite list_lookup_insert_eq; [done|]. rewrite (id_lowest _ _ _ Hid). by apply bw_gs_lt, head_Some_elem_of.
Qed.
Lemma bw_low_other u : Some u <> head gs -> low st2 u = low st u.
Proof.
  intros Hu. unfold low, set_lowest, low_parent. cbn. destruct (head gs) as [p|] eqn:Hp; [|done].
  rewrite list_lookup_insert_ne; [done | congruence].
Qed.
Lemma bw_low_v : low st2 v = low st v.
Proof. apply bw_low_other. intros Hh. by apply Hvg, head_Some_elem_of. Qed.
Lemma low_parent_length : length low_parent = n.
Proof. unfold low_parent. destruct (head gs); rewrite ?length_insert; apply (id_lowest _ _ _ Hid). Qed.

Lemma backward_eq :
  backward v st = if low st v =? num st v then new_scc v st2 else Ret (set_visitStack (v :: visitStack st) st2).
Proof.
  pose proof bw_lt as Hlt. unfold backward. rewrite Hs, Hps.
  rewrite (vec_some _ _ _ (again_lookup (set_stacks s' ps st) v (se_second _ _ _ Hse) Hlt)). cbn [mbind res_bind].
  change (again (set_stacks s' ps st) v) with (again st v). rewrite Hag.
  rewrite vec_set_lt by (cbn; by rewrite (se_second _ _ _ Hse)). cbn [mbind res_bind].
  set (sa := set_second _ _).
  rewrite (vec_some _ _ _ (low_lookup sa v (id_lowest _ _ _ Hid) Hlt)). cbn [mbind res_bind].
  assert (Hst2 : (match head gs with Some parentId => lower parentId (low sa v) sa | None => Ret sa end) = Ret st2).
  { unfold low_parent. destruct (head gs) as [p|] eqn:Hp; [|by destruct st].
    assert (Hpn : (p < n)%nat) by (by apply bw_gs_lt, head_Some_elem_of). unfold lower.
    rewrite (vec_some _ _ _ (low_lookup sa p (id_lowest _ _ _ Hid) Hpn)). cbn [mbind res_bind].
    rewrite vec_set_lt by (cbn; by rewrite (id_lowest _ _ _ Hid)). done. }
  rewrite Hst2. cbn [mbind res_bind].
  rewrite (vec_some _ _ _ (low_lookup st2 v low_parent_length Hlt)). cbn [mbind res_bind]. rewrite bw_low_v.
  rewrite (vec_some _ _ _ (num_lookup st2 v (id_order _ _ _ Hid) Hlt)). cbn [mbind res_bind]. done.
Qed.

(** What both ends of a node have in common: the new state has the stacks, the
    numbers and the flags of [st2]. *)
Lemma bw_searching cs' st' :
  idle cs' gs st' -> visitedOrder st' = visitedOrder st -> secondTimeVisited st' = secondTimeVisited st2 ->
  stack st' = s' -> parent st' = ps ->
  searching cs' gs st' /\ (left_over st' < left_over st)%nat.
Proof.
  intros Hid' Hvo Hsec Hst Hpar.
  assert (Hnum : forall u, num st' u = num st u) by (intros u; unfold num; by rewrite Hvo).
  assert (Hagn : forall u, again st' u = if decide (u = v) then true else again st u).
  { intros u. unfold again. rewrite Hsec. cbn. apply default_insert. rewrite (se_second _ _ _ Hse). exact bw_lt. }
  split; [|unfold left_over, unvisited, num; rewrite Hst, Hs, Hvo; simpl; lia].
  constructor.
  - done.
  - rewrite Hsec. cbn. rewrite length_insert. apply (se_second _ _ _ Hse).
  - by rewrite Hst, Hpar.
  - unfold entries. by rewrite Hst, Hpar.
  - intros u Hu. apply (se_lt _ _ _ Hse). rewrite Hst in Hu. rewrite Hs. by right.
  - intros u Hu. apply (se_from _ _ _ Hse). rewrite Hst in Hu. rewrite Hs. by right.
  - intros u Hu Hnu. rewrite Hagn. case_decide as Huv; [by right|]. rewrite Hnum in Hnu.
    destruct (se_seen _ _ _ Hse u) as [Hg|?]; [rewrite Hs; rewrite Hst in Hu; by right | done | | by right].
    rewrite Hgs in Hg. apply elem_of_cons in Hg as [?|Hg]; [done | by left].
  - intros u. rewrite Hagn, Hnum. case_decide as Huv; [intros _; by subst|]. intros Hu.
    destruct (se_again _ _ _ Hse u Hu) as [? Hug]. split; [done|]. rewrite Hgs in Hug. by apply not_elem_of_cons in Hug as [_ ?].
  - intros g w Hg Hgw. rewrite Hnum. destruct (se_wait _ _ _ Hse g w) as [?|Hin]; [rewrite Hgs; by right | done | by left|].
    unfold entries in *. rewrite Hs, Hps in Hin. rewrite Hst, Hpar. cbn in Hin. apply elem_of_cons in Hin as [[= -> _]|Hin]; [by left | by right].
Qed.

Lemma bw_push : low st v <> num st v ->
  searching cs gs (set_visitStack (v :: visitStack st) st2) /\
  (left_over (set_visitStack (v :: visitStack st) st2) < left_over st)%nat.
Proof.
  intros Hne. apply bw_searching; try done.
  destruct (tarjan_push GetOutNodes (num st) (low st) (dn st) gs (visitStack st) v bw_tarjan Hall (low st2)
    bw_low_parent bw_low_other Hne) as [Ht _].
  destruct Hid as [H1 H2 H3 H4 H5 H6 H7 H8 H9 H10 H11 H12 H13]. constructor; try done.
  - apply low_parent_length.
  - rewrite Hgs in H13. simpl in H13. unfold visited, num in *. cbn in *. lia.
Qed.

(** *** A new component *)

Definition closed_state (vs1 vs2 : list nat) : Search :=
  let p := (length old + length cs)%nat in
  MkSearch (MkSccHeap (scc_objs old (cs ++ [v :: vs1])) (foldl (fun m u => <[u := p]> m) (sccNode (heap st)) (v :: vs1))
      (topologicalVec (heap st) ++ [p]))
    (numOfSccs st + 1) (visitIndex st) (id2Node st) (visitedOrder st) low_parent
    (foldl (fun L u => <[u := false]> L) (inStack st) (v :: vs1)) vs2 s' ps (<[v := true]> (secondTimeVisited st)).

Lemma vs_open u : u ∈ visitStack st -> (u < n)%nat /\ num st u <> 0.
Proof.
  intros [[Hu _] _]%(tj_vs _ _ _ _ _ _ bw_tarjan). split; [|done]. by apply (num_lt st); [apply (id_order _ _ _ Hid)|].
Qed.

Lemma new_scc_eq vs1 vs2 :
  visitStack st = vs1 ++ vs2 -> Forall (fun u => num st v < num st u) vs1 -> Forall (fun u => num st u < num st v) vs2 ->
  new_scc v st2 = Ret (closed_state vs1 vs2).
Proof.
  intros Hvs H1 H2. rewrite Forall_forall in H1, H2. pose proof bw_lt as Hlt. unfold new_scc. cbn [heap set_lowest set_second set_stacks].
  destruct (heap st) as [ss m tv] eqn:Hh. pose proof (id_built _ _ _ Hid) as Hb. rewrite Hh in Hb.
  pose proof (bu_sccs _ _ _ _ Hb) as Hss. cbn in Hss. subst ss. cbn [sccs sccNode topologicalVec]. rewrite scc_objs_length.
  assert (Hnew : scc_objs old cs ++ [SCCNode_new (numOfSccs st)] = scc_objs old (cs ++ [[]])).
  { rewrite scc_objs_snoc. unfold SCCNode_new. by rewrite (id_count _ _ _ Hid). }
  unfold SetSCCNode, set_lowest, set_second, set_stacks.
  cbn [numOfSccs visitIndex id2Node visitedOrder lowestOrder inStack visitStack stack parent secondTimeVisited sccs sccNode topologicalVec].
  rewrite Hnew, AddNode_last. cbn [mbind res_bind app].
  cbn [inStack]. rewrite vec_set_lt by (by rewrite (id_inStack _ _ _ Hid)). cbn [mbind res_bind visitStack].
  rewrite Hvs. erewrite (pop_members_eq cs [v] v vs1 vs2); cbn [visitedOrder inStack heap id2Node]; rewrite ?length_insert.
  - cbn [mbind res_bind]. unfold closed_state. rewrite Hh. unfold set_visitStack, set_inStack, set_heap.
    cbn [heap numOfSccs visitIndex id2Node visitedOrder lowestOrder inStack visitStack stack parent secondTimeVisited sccs sccNode topologicalVec foldl app].
    rewrite wrap_small; [done|]. rewrite (id_count _ _ _ Hid).
    pose proof (id_size _ _ _ Hid) as Hsz. rewrite Hgs in Hsz. simpl in Hsz.
    assert (Hvl : (length (visited st) <= n)%nat) by (etrans; [apply length_filter | by rewrite length_seq]). lia.
  - apply (id_order _ _ _ Hid).
  - apply (id_inStack _ _ _ Hid).
  - done.
  - done.
  - apply Forall_forall. intros u Hu. destruct (vs_open u) as [Hun Hnu]; [rewrite Hvs; apply elem_of_app; by left|].
    split_and!; [done | by apply H1 | by apply (id_node _ _ _ Hid)].
  - apply Forall_forall. intros u Hu. destruct (vs_open u) as [Hun _]; [rewrite Hvs; apply elem_of_app; by right|].
    split; [done | by apply H2].
Qed.

Section Close.
Context (vs1 vs2 : list nat) (Hlow : low st v = num st v) (Hvs : visitStack st = vs1 ++ vs2).
Context (H1 : Forall (fun u => num st v < num st u) vs1) (H2 : Forall (fun u => num st u < num st v) vs2).
Notation st' := (closed_state vs1 vs2).

Lemma close_members u : u ∈ v :: vs1 <-> members (num st) (dn st) v u.
Proof.
  rewrite Forall_forall in H1, H2. pose proof bw_tarjan as Ht. rewrite elem_of_cons. split.
  - intros [->|Hu]; [split; [apply (tj_gs _ _ _ _ _ _ Ht); by left | done]|]. specialize (H1 u Hu). split; [|lia].
    apply (tj_vs _ _ _ _ _ _ Ht). rewrite Hvs. apply elem_of_app. by left.
  - intros Hu. destruct (members_black GetOutNodes _ _ _ _ _ _ Ht u Hu) as [->|Hb]; [by left | right].
    assert (Hin : u ∈ visitStack st) by (apply (tj_vs _ _ _ _ _ _ Ht); split; [apply Hu | done]).
    rewrite Hvs in Hin. apply elem_of_app in Hin as [?|Hin]; [done|]. specialize (H2 u Hin). destruct Hu. lia.
Qed.

Lemma close_sccNode u :
  sccNode (heap st') !! u = if decide (u ∈ v :: vs1) then Some (length old + length cs)%nat else sccNode (heap st) !! u.
Proof. unfold closed_state. cbn [heap sccNode]. apply foldl_insert_map. Qed.

Lemma close_dn u : dn st' u = true <-> dn st u = true \/ members (num st) (dn st) v u.
Proof.
  rewrite <- close_members. unfold dn. rewrite !bool_decide_eq_true, close_sccNode. case_decide; [|tauto].
  split; [by right | by eexists].
Qed.

Lemma close_built : built old GetOutNodes (cs ++ [v :: vs1]) (heap st').
Proof.
  pose proof bw_tarjan as Ht. assert (Hb : built old GetOutNodes cs (heap st)) by apply (id_built _ _ _ Hid).
  assert (Hm : forall u, u ∈ v :: vs1 <-> connected GetOutNodes v u).
  { intros u. rewrite close_members. by apply (members_component _ _ _ _ _ _ _ Ht Hall Hlow). }
  apply (built_snoc old GetOutNodes cs (heap st) (v :: vs1)); [done| |done| | | |done|done|exact close_sccNode].
  - constructor.
    + intros Hin. rewrite Forall_forall in H1. specialize (H1 v Hin). lia.
    + pose proof (tj_vs_NoDup _ _ _ _ _ _ Ht) as Hnd. rewrite Hvs in Hnd. by apply NoDup_app in Hnd as (? & _).
  - intros u [[_ Hd] _]%close_members. unfold dn in Hd. apply bool_decide_eq_false in Hd. by apply eq_None_not_Some.
  - intros a u Ha. apply Hm in Ha. rewrite Hm. split; intros Hu.
    + eapply connected_trans; [by apply connected_sym | done].
    + by eapply connected_trans.
  - intros u w Hu Huw. pose proof (tj_closed _ _ _ _ _ _ Ht u w) as Hcl. unfold dn in Hcl. rewrite !bool_decide_eq_true in Hcl. by apply Hcl.
Qed.

Lemma close_opened u : opened (num st) (dn st') u <-> opened (num st) (dn st) u /\ u ∉ v :: vs1.
Proof.
  unfold opened. pose proof (close_dn u) as Hd. rewrite <- close_members in Hd.
  rewrite <- !not_true_iff_false. tauto.
Qed.

Lemma close_idle : idle (cs ++ [v :: vs1]) gs st'.
Proof.
  pose proof bw_tarjan as Ht. destruct Hid as [I1 I2 I3 I4 I5 I6 I7 I8 I9 I10 I11 I12 I13]. constructor; try done.
  - apply low_parent_length.
  - unfold closed_state. cbn [inStack]. by rewrite foldl_insert_length.
  - apply (tarjan_close GetOutNodes (num st) (low st) (dn st) gs (visitStack st) v Ht Hall (low st2) bw_low_parent bw_low_other
      (dn st') vs1 vs2 Hlow Hvs H1 H2 close_dn).
  - intros u Hu. rewrite (bool_decide_ext _ _ (close_opened u)). unfold closed_state. cbn [inStack].
    rewrite foldl_insert_list by (by rewrite I3). rewrite (I6 u Hu). case_decide as Hin.
    + by rewrite bool_decide_eq_false_2 by (by intros [_ ?]).
    + f_equal. apply bool_decide_ext. tauto.
  - apply close_built.
  - unfold closed_state. cbn [numOfSccs]. rewrite length_app, I12. simpl. lia.
  - rewrite Hgs in I13. rewrite length_app. simpl in *. unfold visited, num in *. cbn in *. lia.
Qed.
End Close.
End Backward.

(** A node on the stack stays there until it has been visited. *)
Definition seen (st : Search) (u : nat) : Prop := u ∈ stack st \/ num st u <> 0.

Lemma seen_pop st st' v s' :
  stack st = v :: s' -> num st v <> 0 -> stack st' = s' -> visitedOrder st' = visitedOrder st -> forall u, seen st u -> seen st' u.
Proof.
  unfold seen, num. intros Hs Hv Hs' Hvo u. rewrite Hs, Hs', Hvo. intros [[->|?]%elem_of_cons|?]; [by right | by left | by right].
Qed.

(** One step of the loop *)
Lemma dfs_step_spec cs gs st :
  searching cs gs st -> stack st <> [] ->
  wp (dfs_step GetOutNodes st) (fun st' => (exists cs' gs', searching cs' gs' st' /\ forall u, seen st u -> seen st' u) /\
    (left_over st' < left_over st)%nat).
Proof.
  intros Hse Hne. destruct (stack st) as [|v s'] eqn:Hs; [done|]. unfold dfs_step. rewrite Hs.
  assert (Hlt : (v < n)%nat) by (apply (se_lt _ _ _ Hse); rewrite Hs; by left).
  pose proof (id_order _ _ _ (se_idle _ _ _ Hse)) as Hvo.
  rewrite (vec_some _ _ _ (num_lookup st v Hvo Hlt)). cbn [mbind res_bind]. destruct (Z.eqb_spec (num st v) 0) as [H0|Hv].
  { rewrite (forward_eq cs gs st v s' Hse Hs H0). cbn. split; [|by eapply fw_measure].
    exists cs, (v :: gs). split; [by apply (fw_searching cs gs st v s')|]. intros u [Hu|Hu].
    - left. apply elem_of_app. by right.
    - right. rewrite (fw_num cs gs st v s' Hse Hs). pose proof (fw_index cs gs st v s' Hse Hs H0). case_decide; [lia | done]. }
  destruct (again st v) eqn:Hag.
  { eapply wp_mono; [by eapply backward_again|]. intros st' (H & Hpop & ?). split; [|done]. exists cs, gs. split; [done|].
    destruct Hpop. by apply (seen_pop st st' v s'). }
  destruct (bw_top cs gs st v s' Hse Hs Hv Hag) as (gs1 & ps & Hgs & Hps & Hlen & Hstk & Hvg & Hall).
  rewrite (backward_eq cs gs st v s' Hse Hs Hv Hag gs1 ps Hgs Hps Hvg Hall). destruct (Z.eqb_spec (low st v) (num st v)) as [Hroot|Hlow].
  - pose proof (bw_tarjan cs gs st v Hse gs1 Hgs) as Ht.
    destruct (vs_split _ _ _ _ _ _ _ Ht) as (vs1 & vs2 & Hvs & H1 & H2).
    rewrite (new_scc_eq cs gs st v s' Hse Hs gs1 ps Hgs Hlen vs1 vs2 Hvs H1 H2). cbn.
    destruct (bw_searching cs gs st v s' Hse Hs Hv gs1 ps Hgs Hps Hlen Hstk Hvg (cs ++ [v :: vs1])
      (closed_state cs st v s' gs1 ps vs1 vs2)) as [Hse' Hm]; try done.
    + by eapply close_idle.
    + split; [|done]. exists (cs ++ [v :: vs1]), gs1. split; [done|]. by apply (seen_pop st _ v s').
  - destruct (bw_push cs gs st v s' Hse Hs Hv gs1 ps Hgs Hps Hlen Hstk Hvg Hall Hlow) as [Hse' Hm].
    split; [|done]. exists cs, gs1. split; [done|]. by apply (seen_pop st _ v s').
Qed.

Lemma idle_dn cs st v : idle cs [] st -> num st v <> 0 -> dn st v = true.
Proof.
  intros Hid Hv. destruct (dn st v) eqn:Hd; [done|]. exfalso.
  destruct (tj_bottom _ _ _ _ _ _ (id_tarjan _ _ _ Hid) v) as (g & Hg & _); [by split | by apply elem_of_nil in Hg].
Qed.

Lemma BuildSCCDFS_spec cs st v :
  idle cs [] st -> (v < n)%nat -> v ∈ roots -> dn st v = false ->
  wp (BuildSCCDFS GetOutNodes v st) (fun st' => exists cs', idle cs' [] st' /\ dn st' v = true /\
    forall u, dn st u = true -> dn st' u = true).
Proof.
  intros Hid Hv Hr Hdv. unfold BuildSCCDFS. rewrite (id_nodes _ _ _ Hid).
  set (st0 := set_second _ _). assert (Hv0 : num st v = 0).
  { destruct (decide (num st v = 0)) as [?|Hnv]; [done|]. by rewrite (idle_dn cs st v Hid Hnv) in Hdv. }
  assert (Hse : searching cs [] st0).
  { constructor.
    - by destruct Hid.
    - unfold st0. cbn. apply length_replicate.
    - done.
    - apply (stk_wait _ v [] []); [constructor | by intros ?%elem_of_nil | done].
    - intros u Hu. apply list_elem_of_singleton in Hu as ->. done.
    - intros u Hu. apply list_elem_of_singleton in Hu as ->. exists v. split; [done | constructor].
    - intros u Hu. apply list_elem_of_singleton in Hu as ->. done.
    - intros u. unfold again, st0. cbn. destruct (decide (u < n)%nat); [by rewrite lookup_replicate_2|].
      by rewrite lookup_ge_None_2 by (rewrite length_replicate; lia).
    - intros g w Hg. by apply elem_of_nil in Hg. }
  eapply wp_mono; [apply (wp_while_fuel (fun st => (exists cs gs, searching cs gs st) /\ forall u, seen st0 u -> seen st u) left_over)|].
  - split; [by exists cs, [] | done].
  - unfold left_over, dfs_fuel, st0. cbn [stack set_second set_stacks length].
    assert (Hsum : forall l, (sum_list_with (fun v => S (length (GetOutNodes v))) l <=
      length l + sum_list_with (fun v => length (GetOutNodes v)) l)%nat).
    { induction l as [|u l IH]; simpl; lia. }
    assert (Hsub : forall l, (sum_list_with (fun v => S (length (GetOutNodes v))) (filter (fun v => num st v = 0%Z) l) <=
      sum_list_with (fun v => S (length (GetOutNodes v))) l)%nat).
    { induction l as [|u l IH]; [done|]. rewrite filter_cons. case_decide; simpl; lia. }
    specialize (Hsub (seq 0 n)). specialize (Hsum (seq 0 n)). rewrite length_seq in Hsum.
    unfold unvisited. change (num (set_second _ _)) with (num st). lia.
  - intros t [(cs1 & gs1 & Ht) Hseen] Hne. apply negb_true_iff, bool_decide_eq_false in Hne.
    eapply wp_mono; [by eapply dfs_step_spec|]. intros t' [(cs2 & gs2 & Ht' & Hs') Hm].
    split; [|done]. split; [by exists cs2, gs2|]. intros u Hu. by apply Hs', Hseen.
  - intros t [[(cs1 & gs1 & Ht) Hseen] Hend]. apply negb_false_iff, bool_decide_eq_true in Hend.
    pose proof (se_stk _ _ _ Ht) as Hstk. unfold entries in Hstk. rewrite Hend in Hstk. cbn in Hstk. inversion Hstk; subst.
    exists cs1. pose proof (se_idle _ _ _ Ht) as Hi. split; [done|].
    assert (Hdone : forall u, seen st0 u -> dn t u = true).
    { intros u Hu. apply (idle_dn cs1 t u Hi). destruct (Hseen u Hu) as [Hin|?]; [|done]. rewrite Hend in Hin. by apply elem_of_nil in Hin. }
    split; [apply Hdone; left; by left|]. intros u Hu. apply Hdone. right. by apply (tj_dn _ _ _ _ _ _ (id_tarjan _ _ _ Hid)).
Qed.
End Search.
