(* ===== verification/SccSpec.v ===== *)
(** * Strongly connected components: what BuildSCC promises

    The objects that BuildSCC makes are the strongly connected components of the
    nodes that its list reaches; topologicalVec has them in the order of the edges
    between them, and inScc and outScc are these edges. *)
From stdpp Require Import gmap sets relations.
From S2P Require Import Prelude.
From S2P Require Import Dominance.
From S2P Require Import Scc.
From S2P Require Import SccTarjan.
From S2P Require Import SccSearch.

(** A loop that collects pairs *)
Lemma for_each_collect {A S : Type} (f : A -> S -> res S) (I : (nat -> nat -> Prop) -> S -> Prop) (E : A -> nat -> nat -> Prop) l :
  (forall D D' s, (forall i j, D i j <-> D' i j) -> I D s -> I D' s) ->
  (forall x D s, x ∈ l -> I D s -> wp (f x s) (I (fun i j => D i j \/ E x i j))) ->
  forall D s, I D s -> wp (for_each f l s) (I (fun i j => D i j \/ exists x, x ∈ l /\ E x i j)).
Proof.
  intros Hext. induction l as [|x l IH]; intros Hf D s Hs; cbn [for_each].
  - apply wp_ret. eapply Hext, Hs. intros i j. split; [by left|]. intros [?|(x & Hx & _)]; [done | by apply elem_of_nil in Hx].
  - eapply wp_bind, wp_mono; [apply Hf; [by left | exact Hs]|]. intros s' Hs'.
    eapply wp_mono; [apply IH, Hs'; intros y D' t Hy; apply Hf; by right|]. intros t Ht. eapply Hext, Ht.
    intros i j. split.
    + intros [[?|?]|(y & Hy & ?)]; [by left | right; exists x; split; [by left | done] | right; exists y; split; [by right | done]].
    + intros [?|(y & [->|Hy]%elem_of_cons & ?)]; [by left; left | by left; right | right; by exists y].
Qed.

Section After.
Context (GetOutNodes : nat -> list nat) (old : list SCCNode) (cs : list (list nat)).
Notation p0 := (length old).
Notation edge := (edge GetOutNodes).

(** The pairs [D] of components have been entered into inScc and outScc. *)
Record objects (D : nat -> nat -> Prop) (h : SccHeap) : Prop := {
  ob_vec : topologicalVec h = seq p0 (length cs);
  ob_node : forall v p, sccNode h !! v = Some p <-> exists i c, cs !! i = Some c /\ v ∈ c /\ p = (p0 + i)%nat;
  ob_sccs : forall i c, cs !! i = Some c -> exists ins outs,
    sccs h !! (p0 + i)%nat = Some (MkSCCNode (Z.of_nat i) c ins outs) /\
    (forall z q, outs !! z = Some q <-> exists j, z = Z.of_nat j /\ q = (p0 + j)%nat /\ D i j) /\
    (forall z q, ins !! z = Some q <-> exists j, z = Z.of_nat j /\ q = (p0 + j)%nat /\ D j i)
}.

Lemma objects_ext D D' h : (forall i j, D i j <-> D' i j) -> objects D h -> objects D' h.
Proof.
  intros HD [H1 H2 H3]. constructor; [done..|]. intros i c Hi. destruct (H3 i c Hi) as (ins & outs & Hp & Ho & Hin).
  exists ins, outs. split; [done|]. split; intros z q; [rewrite Ho | rewrite Hin]; by setoid_rewrite HD.
Qed.

Lemma built_objects h : built old GetOutNodes cs h -> objects (fun _ _ => False) h.
Proof.
  intros [H1 H2 H3 _ _ _]. constructor; [done..|]. intros i c Hi. exists ∅, ∅. rewrite H1. split; [|by split; intros z q; rewrite lookup_empty; naive_solver].
  unfold scc_objs. rewrite lookup_app_r by lia. replace (p0 + i - p0)%nat with i by lia. rewrite list_lookup_imap, Hi. done.
Qed.

Lemma ob_unique D h i j c d w : objects D h -> cs !! i = Some c -> w ∈ c -> cs !! j = Some d -> w ∈ d -> j = i.
Proof.
  intros Hob Hi Hc Hj Hd. assert (H1 : sccNode h !! w = Some (p0 + i)%nat) by (apply (ob_node _ _ Hob); by exists i, c).
  assert (H2 : sccNode h !! w = Some (p0 + j)%nat) by (apply (ob_node _ _ Hob); by exists j, d). rewrite H1 in H2.
  injection H2. lia.
Qed.

Lemma set_insert_spec (s : gmap Z nat) (P : nat -> Prop) k :
  (forall z q, s !! z = Some q <-> exists j, z = Z.of_nat j /\ q = (p0 + j)%nat /\ P j) ->
  forall z q, set_insert (Z.of_nat k) (p0 + k)%nat s !! z = Some q <-> exists j, z = Z.of_nat j /\ q = (p0 + j)%nat /\ (P j \/ j = k).
Proof.
  intros Hs z q. unfold set_insert. destruct (s !! Z.of_nat k) as [r|] eqn:Hk.
  - rewrite Hs. apply Hs in Hk as (j & Hj & _ & HP). apply Nat2Z.inj in Hj as <-.
    split; intros (j & -> & -> & Hj); exists j; split_and!; try done; [by left|]. by destruct Hj as [?| ->].
  - destruct (decide (z = Z.of_nat k)) as [->|Hne].
    + rewrite lookup_insert_eq. split; [intros [= <-]; exists k; by split_and!; [..|right]|].
      by intros (j & <-%Nat2Z.inj & -> & _).
    + rewrite lookup_insert_ne, Hs by done. split; intros (j & -> & -> & Hj); exists j; split_and!; try done; [by left|].
      by destruct Hj as [?| ->].
Qed.

Lemma Setup_edge_objects D h i j c d w :
  objects D h -> cs !! i = Some c -> cs !! j = Some d -> w ∈ d ->
  wp (Setup_edge (p0 + i)%nat w h) (objects (fun a b => D a b \/ (i <> j /\ a = i /\ b = j))).
Proof.
  intros Hob Hi Hj Hw. unfold Setup_edge.
  assert (Hnode : sccNode h !! w = Some (p0 + j)%nat) by (apply (ob_node _ _ Hob); by exists j, d). rewrite Hnode.
  destruct (decide (i = j)) as [->|Hij].
  { rewrite bool_decide_eq_true_2 by done. apply wp_ret. eapply objects_ext, Hob. naive_solver. }
  rewrite bool_decide_eq_false_2 by (intros [= ?]; lia). cbn [deref mbind res_bind].
  destruct (ob_sccs _ _ Hob i c Hi) as (ins & outs & Hp & Ho & Hin), (ob_sccs _ _ Hob j d Hj) as (ins' & outs' & Hq & Ho' & Hin').
  assert (Hli : (p0 + i < length (sccs h))%nat) by (by eapply lookup_lt_Some). assert (Hlj : (p0 + j < length (sccs h))%nat) by (by eapply lookup_lt_Some).
  unfold InsertOut, scc_at. rewrite (vec_some _ _ _ Hp), (vec_some _ _ _ Hq). cbn [mbind res_bind scc_id scc_nodes inScc outScc].
  unfold InsertIn, scc_at, put_scc. cbn [sccs sccNode topologicalVec].
  rewrite (vec_some _ (p0 + j) (MkSCCNode (Z.of_nat j) d ins' outs')) by (rewrite list_lookup_insert_ne by lia; done).
  cbn [mbind res_bind]. rewrite (vec_some _ (p0 + i) _ (list_lookup_insert_eq _ _ _ Hli)).
  cbn [mbind res_bind scc_id scc_nodes inScc outScc]. apply wp_ret. constructor; cbn [sccs sccNode topologicalVec]; [apply Hob..|].
  intros k e Hk. destruct (decide (k = j)) as [->|Hkj]; [|destruct (decide (k = i)) as [->|Hki]].
  - rewrite list_lookup_insert_eq by (by rewrite length_insert). rewrite Hj in Hk. injection Hk as <-.
    eexists _, _. split; [done|]. split; intros z q.
    + rewrite Ho'. split; intros (a & -> & -> & Ha); exists a; split_and!; naive_solver.
    + rewrite (set_insert_spec _ _ i Hin'). split; intros (a & -> & -> & Ha); exists a; split_and!; naive_solver.
  - rewrite list_lookup_insert_ne, list_lookup_insert_eq by (done || lia). rewrite Hi in Hk. injection Hk as <-.
    eexists _, _. split; [done|]. split; intros z q.
    + rewrite (set_insert_spec _ _ j Ho). split; intros (a & -> & -> & Ha); exists a; split_and!; naive_solver.
    + rewrite Hin. split; intros (a & -> & -> & Ha); exists a; split_and!; naive_solver.
  - rewrite !list_lookup_insert_ne by lia. destruct (ob_sccs _ _ Hob k e Hk) as (ins2 & outs2 & Hp2 & Ho2 & Hin2).
    exists ins2, outs2. split; [done|]. split; intros z q.
    + rewrite Ho2. split; intros (a & -> & -> & Ha); exists a; split_and!; naive_solver.
    + rewrite Hin2. split; intros (a & -> & -> & Ha); exists a; split_and!; naive_solver.
Qed.

(** The edges between two components *)
Definition scc_edge (i j : nat) : Prop :=
  i <> j /\ exists c d u w, cs !! i = Some c /\ cs !! j = Some d /\ u ∈ c /\ w ∈ d /\ edge u w.

Context (Hne : Forall (fun c => NoDup c /\ c <> []) cs).
Context (Hcl : forall i c u w, cs !! i = Some c -> u ∈ c -> edge u w -> exists j d, cs !! j = Some d /\ w ∈ d).

Lemma Setup_objects D h i c :
  objects D h -> cs !! i = Some c ->
  wp (_ ← Verify (p0 + i)%nat h; Setup GetOutNodes (p0 + i)%nat h) (objects (fun a b => D a b \/ (a = i /\ scc_edge a b))).
Proof.
  intros Hob Hi. destruct (ob_sccs _ _ Hob i c Hi) as (ins & outs & Hp & _).
  assert (Hc : c <> []) by (rewrite Forall_lookup in Hne; by apply (Hne i)).
  unfold Verify, Setup, scc_at. rewrite (vec_some _ _ _ Hp). cbn [mbind res_bind scc_nodes].
  rewrite bool_decide_eq_false_2 by done. cbn [negb CHECK_FATAL mbind res_bind].
  replace (forallb _ c) with true.
  2:{ symmetry. apply forallb_forall. intros v Hv. apply bool_decide_eq_true, (ob_node _ _ Hob). exists i, c.
      split_and!; [done | by apply list_elem_of_In | done]. }
  cbn [CHECK_FATAL mbind res_bind].
  set (Ew := fun w (a b : nat) => a = i /\ i <> b /\ exists d, cs !! b = Some d /\ w ∈ d).
  eapply wp_mono; [apply (for_each_collect _ objects (fun u a b => exists w, w ∈ GetOutNodes u /\ Ew w a b) c objects_ext) with (D := D)|].
  - intros u D' h' Hu Hob'. apply (for_each_collect _ objects Ew (GetOutNodes u) objects_ext); [|done].
    intros w D2 h2 Hw Hob2. destruct (Hcl i c u w Hi Hu Hw) as (j & d & Hj & Hwd).
    eapply wp_mono; [by eapply (Setup_edge_objects D2 h2 i j c d w)|]. intros h3 Hob3. eapply objects_ext, Hob3.
    intros a b. split; [intros [?|(? & -> & ->)]; [by left | right; by split_and!; [..|exists d]]|].
    intros [?|(-> & Hib & e & He & Hwe)]; [by left | right].
    rewrite (ob_unique _ _ j b d e w Hob2 Hj Hwd He Hwe) in Hib |- *. done.
  - done.
  - intros h' Hob'. eapply objects_ext, Hob'. intros a b. split.
    + intros [?|(u & Hu & w & Hw & -> & Hib & d & Hb & Hwd)]; [by left | right]. split; [done|]. split; [done|].
      by exists c, d, u, w.
    + intros [?|(-> & Hib & c' & d & u & w & Hi' & Hb & Hu & Hw & Huw)]; [by left | right].
      rewrite Hi in Hi'. injection Hi' as <-. exists u. split; [done|]. exists w. split; [done|]. split_and!; [done..|]. by exists d.
Qed.

(** The loop over the components *)
Lemma Setup_all h :
  objects (fun _ _ => False) h ->
  wp (for_each (fun p h => _ ← Verify p h; Setup GetOutNodes p h) (topologicalVec h) h) (objects scc_edge).
Proof.
  intros Hob. rewrite (ob_vec _ _ Hob).
  eapply wp_mono; [apply (for_each_collect _ objects (fun p a b => p = (p0 + a)%nat /\ scc_edge a b) _ objects_ext)|].
  - intros p D h' Hp Hob'. apply elem_of_seq in Hp as [Hle Hlt]. destruct (lookup_lt_is_Some_2 cs (p - p0)) as [c Hc]; [lia|].
    replace p with (p0 + (p - p0))%nat by lia. eapply wp_mono; [by eapply Setup_objects|]. intros h2 Hob2.
    eapply objects_ext, Hob2. intros a b. split; (intros [?|[Ha ?]]; [by left | right]); split; try done; lia.
  - exact Hob.
  - intros h' Hob'. eapply objects_ext, Hob'. intros a b. split; [intros [?|(p & _ & _ & ?)]; done|].
    intros Hab. right. exists (p0 + a)%nat. split_and!; [|done|done]. destruct Hab as (_ & c & d & u & w & Ha & _).
    apply elem_of_seq. apply lookup_lt_Some in Ha. lia.
Qed.
End After.

(** ** The whole of BuildSCC *)

(** The ids of the nodes and of their successors are below [n], no component is on
    topologicalVec, and none is left at a node when the search begins. *)
Record good_call (GetOutNodes : nat -> list nat) (n : nat) (allNodes : list nat) (clearOld : bool) (h : SccHeap) : Prop := {
  gc_out : forall v w, (v < n)%nat -> w ∈ GetOutNodes v -> (w < n)%nat;
  gc_size : Z.of_nat n + 1 < 2 ^ 32;
  gc_nodes : forall v, v ∈ allNodes -> (v < n)%nat;
  gc_vec : topologicalVec h = [];
  gc_fresh : forall v, is_Some (sccNode h !! v) -> clearOld = true /\ v ∈ allNodes
}.

Section Whole.
Context (GetOutNodes : nat -> list nat) (n : nat) (allNodes : list nat) (clearOld : bool) (h : SccHeap).
Context (Hgc : good_call GetOutNodes n allNodes clearOld h).
Notation reach := (reach GetOutNodes).
Notation edge := (edge GetOutNodes).
Notation idle := (idle GetOutNodes n (sccs h) allNodes).

Definition cleared : SccHeap := if clearOld then foldl (fun h node => SetSCCNode node None h) h allNodes else h.
Definition first_state : Search :=
  MkSearch cleared 0 1 (replicate n None) (replicate n 0) (replicate n 0) (replicate n false) [] [] [] [].

Lemma foldl_clear l h0 :
  let h1 := foldl (fun h node => SetSCCNode node None h) h0 l in
  sccs h1 = sccs h0 /\ topologicalVec h1 = topologicalVec h0 /\
  forall v, sccNode h1 !! v = if decide (v ∈ l) then None else sccNode h0 !! v.
Proof.
  revert h0. induction l as [|u l IH]; intros h0; cbn [foldl].
  { split_and!; [done..|]. intros v. by rewrite decide_False by (by intros ?%elem_of_nil). }
  destruct (IH (SetSCCNode u None h0)) as (H1 & H2 & H3). split_and!; [by rewrite H1 | by rewrite H2|].
  intros v. rewrite H3. unfold SetSCCNode. cbn [sccNode]. pose proof (elem_of_cons l v u) as Hin.
  destruct (decide (v = u)) as [->|Hne]; [rewrite lookup_delete_eq | rewrite lookup_delete_ne by done]; repeat case_decide; tauto.
Qed.

Lemma cleared_spec : sccs cleared = sccs h /\ topologicalVec cleared = [] /\ forall v, sccNode cleared !! v = None.
Proof.
  unfold cleared. pose proof (gc_fresh _ _ _ _ _ Hgc) as Hfr. rewrite <- (gc_vec _ _ _ _ _ Hgc). destruct clearOld.
  - destruct (foldl_clear allNodes h) as (H1 & H2 & H3). split_and!; [done..|]. intros v. rewrite H3. case_decide as Hin; [done|].
    apply eq_None_not_Some. intros Hs. by apply Hin, Hfr.
  - split_and!; [done..|]. intros v. apply eq_None_not_Some. by intros [? _]%Hfr.
Qed.

Lemma first_idle : idle [] [] first_state.
Proof.
  destruct cleared_spec as (H1 & H2 & H3).
  assert (Hnum : forall v, num first_state v = 0).
  { intros v. unfold num, first_state. cbn. destruct (decide (v < n)%nat); [by rewrite lookup_replicate_2|].
    by rewrite lookup_ge_None_2 by (rewrite length_replicate; lia). }
  assert (Hvis : visited n first_state = []).
  { destruct (visited n first_state) as [|v l] eqn:Hl; [done|].
    assert (Hv : v ∈ visited n first_state) by (rewrite Hl; by left). by apply list_elem_of_filter in Hv as [Hv _]; rewrite Hnum in Hv. }
  assert (Hop : forall v, ~ opened (num first_state) (dn first_state) v) by (intros v [? _]; by rewrite Hnum in *).
  constructor; try apply length_replicate.
  - constructor; try (intros; exfalso; by eapply Hop); try (intros ? ?%elem_of_nil; done); try (intros ? ? ?%elem_of_nil; done).
    + intros v. unfold dn. cbn. rewrite H3, bool_decide_eq_true. by intros [].
    + intros v. by rewrite Hnum.
    + intros u v _. by rewrite Hnum.
    + constructor.
    + intros u w. by rewrite Hnum.
    + intros u w. unfold dn. cbn. rewrite H3, bool_decide_eq_true. by intros [].
    + intros v. split; [by intros ?%elem_of_nil | by intros [?%Hop _]].
    + constructor.
  - intros v Hv. rewrite bool_decide_eq_false_2 by apply Hop. unfold first_state. cbn. by apply lookup_replicate_2.
  - intros v. by rewrite Hnum.
  - by rewrite Hvis.
  - intros v. by rewrite Hnum.
  - intros v. by rewrite Hnum.
  - constructor; cbn; try (intros; simplify_eq; fail).
    + rewrite H1. unfold scc_objs. simpl. by rewrite app_nil_r.
    + done.
    + intros v p. rewrite H3. split; [done|]. by intros (i & c & ? & _).
    + constructor.
  - done.
  - simpl. lia.
Qed.

Lemma search_all : wp (for_each (search_node GetOutNodes) allNodes first_state)
  (fun st => exists cs, idle cs [] st /\ forall v, v ∈ allNodes -> dn st v = true).
Proof.
  assert (Hgen : forall l st cs, (forall v, v ∈ l -> v ∈ allNodes) -> idle cs [] st ->
    wp (for_each (search_node GetOutNodes) l st) (fun st' => exists cs', idle cs' [] st' /\
      (forall v, v ∈ l -> dn st' v = true) /\ forall v, dn st v = true -> dn st' v = true)).
  { induction l as [|u l IH]; intros st cs Hl Hid; cbn [for_each].
    - exists cs. split_and!; [done | by intros v ?%elem_of_nil | done].
    - assert (Hu : u ∈ allNodes) by (apply Hl; by left). eapply wp_bind, wp_mono with (Q := fun st' => exists cs', idle cs' [] st' /\
        dn st' u = true /\ forall v, dn st v = true -> dn st' v = true).
      + unfold search_node. case_bool_decide as Hnone.
        * apply (BuildSCCDFS_spec GetOutNodes n (gc_out _ _ _ _ _ Hgc) (gc_size _ _ _ _ _ Hgc) (sccs h) allNodes cs st u Hid).
          -- by apply (gc_nodes _ _ _ _ _ Hgc).
          -- done.
          -- unfold dn. apply bool_decide_eq_false. rewrite Hnone. by intros [].
        * exists cs. split_and!; [done | | done]. unfold dn. apply bool_decide_eq_true. by apply not_eq_None_Some.
      + intros st1 (cs1 & Hid1 & Hdu & Hmon). eapply wp_mono; [apply (IH st1 cs1); [intros v Hv; apply Hl; by right | done]|].
        intros st2 (cs2 & Hid2 & Hdl & Hmon2). exists cs2. split_and!; [done | | auto].
        intros v [->|Hv]%elem_of_cons; auto. }
  eapply wp_mono; [apply (Hgen allNodes first_state []); [done | exact first_idle]|]. intros st (cs & ? & ? & _). by exists cs.
Qed.

(** The result of BuildSCC for the components [cs] *)
Record result (cs : list (list nat)) (h' : SccHeap) : Prop := {
  re_objects : objects (sccs h) cs (scc_edge GetOutNodes cs) (MkSccHeap (sccs h') (sccNode h') (rev (topologicalVec h')));
  re_NoDup : Forall (fun c => NoDup c /\ c <> []) cs;
  re_comp : forall i c v u, cs !! i = Some c -> v ∈ c -> u ∈ c <-> connected GetOutNodes v u;
  re_order : forall i j c d u w, cs !! i = Some c -> cs !! j = Some d -> u ∈ c -> w ∈ d -> edge u w -> (j <= i)%nat;
  re_from : forall v, is_Some (sccNode h' !! v) <-> exists r, r ∈ allNodes /\ reach r v
}.

Lemma BuildSCC_result :
  exists cs h', BuildSCC GetOutNodes n allNodes clearOld h = Ret (Z.of_nat (length cs), h') /\ result cs h'.
Proof.
  pose proof search_all as Hall. unfold BuildSCC. fold cleared. change (MkSearch cleared 0 1 _ _ _ _ _ _ _ _) with first_state.
  destruct (for_each _ allNodes first_state) as [st|]; [|done]. destruct Hall as (cs & Hid & Hroots). cbn [mbind res_bind].
  pose proof (id_built _ _ _ _ _ _ _ Hid) as Hb. pose proof (id_tarjan _ _ _ _ _ _ _ Hid) as Ht.
  assert (Hsome : forall v, dn st v = true <-> exists i c, cs !! i = Some c /\ v ∈ c).
  { intros v. unfold dn. rewrite bool_decide_eq_true. split.
    - intros [p (i & c & Hi & Hv & _)%(bu_node _ _ _ _ Hb)]. by exists i, c.
    - intros (i & c & Hi & Hv). exists (length (sccs h) + i)%nat. apply (bu_node _ _ _ _ Hb). by exists i, c. }
  pose proof (Setup_all GetOutNodes (sccs h) cs (bu_NoDup _ _ _ _ Hb)) as Hset.
  specialize (Hset ltac:(intros i c u w Hi Hu Huw; apply Hsome, (tj_closed _ _ _ _ _ _ Ht u w); [apply Hsome; by exists i, c | done])).
  specialize (Hset (heap st) (built_objects _ _ _ _ Hb)).
  destruct (for_each _ (topologicalVec (heap st)) (heap st)) as [h1|]; [|done]. cbn in Hset. cbn [mbind res_bind].
  exists cs, (MkSccHeap (sccs h1) (sccNode h1) (rev (topologicalVec h1))).
  rewrite (id_count _ _ _ _ _ _ _ Hid). split; [done|]. constructor; cbn [sccs sccNode topologicalVec].
  - rewrite rev_involutive. by destruct h1.
  - apply (bu_NoDup _ _ _ _ Hb).
  - apply (bu_comp _ _ _ _ Hb).
  - apply (bu_order _ _ _ _ Hb).
  - intros v. assert (Hdn : is_Some (sccNode h1 !! v) <-> dn st v = true).
    { rewrite Hsome. split.
      - intros [p (i & c & Hi & Hv & _)%(ob_node _ _ _ _ Hset)]. by exists i, c.
      - intros (i & c & Hi & Hv). exists (length (sccs h) + i)%nat. apply (ob_node _ _ _ _ Hset). by exists i, c. }
    rewrite Hdn. split.
    + intros Hv. apply (id_from _ _ _ _ _ _ _ Hid). by apply (tj_dn _ _ _ _ _ _ Ht).
    + intros (r & Hr & Hrv). eapply dn_reach; [exact Ht | by apply Hroots | done].
Qed.
End Whole.

(** ** The theorems *)

(** C7: BuildSCC finds the strongly connected components: it ends without a fault
    and gives exactly the nodes that its list reaches a component; two nodes have
    the same if and only if each reaches the other; topologicalVec has as many
    objects as the result says, each once, and the nodes of an object are, without
    repetition, those that have it as their component. *)
Theorem components_correct GetOutNodes n allNodes clearOld h :
  good_call GetOutNodes n allNodes clearOld h ->
  exists h', BuildSCC GetOutNodes n allNodes clearOld h = Ret (Z.of_nat (length (topologicalVec h')), h') /\
    (forall v, is_Some (sccNode h' !! v) <-> exists r, r ∈ allNodes /\ reach GetOutNodes r v) /\
    (forall u v p q, sccNode h' !! u = Some p -> sccNode h' !! v = Some q -> p = q <-> connected GetOutNodes u v) /\
    NoDup (topologicalVec h') /\
    (forall v p, sccNode h' !! v = Some p -> p ∈ topologicalVec h') /\
    (forall p, p ∈ topologicalVec h' -> exists scc, sccs h' !! p = Some scc /\ NoDup (scc_nodes scc) /\ scc_nodes scc <> [] /\
      forall v, v ∈ scc_nodes scc <-> sccNode h' !! v = Some p).
Proof.
  intros Hgc. destruct (BuildSCC_result _ _ _ _ _ Hgc) as (cs & h' & Hret & [Hob Hnd Hcomp _ Hfrom]).
  exists h'. pose proof (ob_vec _ _ _ _ Hob) as Hvec. cbn in Hvec.
  assert (Hlen : length (topologicalVec h') = length cs) by (by rewrite <- (length_rev (topologicalVec h')), Hvec, length_seq).
  assert (Hin : forall p, p ∈ topologicalVec h' <-> exists i c, cs !! i = Some c /\ p = (length (sccs h) + i)%nat).
  { intros p. rewrite <- rev_elements, Hvec, elem_of_seq. split.
    - intros [Hle Hlt]. destruct (lookup_lt_is_Some_2 cs (p - length (sccs h))) as [c Hc]; [lia|].
      eexists _, c. split; [exact Hc | lia].
    - intros (i & c & Hi & ->). apply lookup_lt_Some in Hi. lia. }
  pose proof (ob_node _ _ _ _ Hob) as Hnode. cbn in Hnode. split_and!.
  - by rewrite Hlen.
  - done.
  - intros u v p q (i & c & Hi & Hu & ->)%Hnode (j & d & Hj & Hv & ->)%Hnode. rewrite <- (Hcomp i c u v Hi Hu). split.
    + intros Heq. assert (i = j) as -> by lia. congruence.
    + intros Hvc. by rewrite (ob_unique _ _ _ _ i j c d v Hob Hi Hvc Hj Hv).
  - rewrite <- (rev_involutive (topologicalVec h')), Hvec. apply NoDup_ListNoDup, List.NoDup_rev, NoDup_ListNoDup, NoDup_seq.
  - intros v p (i & c & Hi & Hv & ->)%Hnode. apply Hin. by exists i, c.
  - intros p (i & c & Hi & ->)%Hin. destruct (ob_sccs _ _ _ _ Hob i c Hi) as (ins & outs & Hp & _). eexists. split; [exact Hp|].
    cbn [scc_nodes]. rewrite Forall_lookup in Hnd. destruct (Hnd i c Hi) as [? ?]. split_and!; [done..|].
    intros v. rewrite Hnode. split; [intros Hv; by exists i, c|]. intros (j & d & Hj & Hv & Heq).
    assert (i = j) as -> by lia. congruence.
Qed.

(** An edge leads from the component [p] to another, [q]. *)
Definition leads (GetOutNodes : nat -> list nat) (h : SccHeap) (p q : nat) : Prop :=
  p <> q /\ exists u w, sccNode h !! u = Some p /\ sccNode h !! w = Some q /\ edge GetOutNodes u w.

Lemma leads_scc_edge GetOutNodes n allNodes clearOld h cs h' p q :
  result GetOutNodes allNodes h cs h' -> good_call GetOutNodes n allNodes clearOld h ->
  leads GetOutNodes h' p q <->
  exists i j, p = (length (sccs h) + i)%nat /\ q = (length (sccs h) + j)%nat /\ scc_edge GetOutNodes cs i j.
Proof.
  intros [Hob _ _ _ _] _. pose proof (ob_node _ _ _ _ Hob) as Hnode. cbn in Hnode. unfold leads, scc_edge. split.
  - intros (Hne & u & w & (i & c & Hi & Hu & ->)%Hnode & (j & d & Hj & Hw & ->)%Hnode & Huw). exists i, j.
    split_and!; [done..| |by exists c, d, u, w]. intros ->. done.
  - intros (i & j & -> & -> & Hne & c & d & u & w & Hi & Hj & Hu & Hw & Huw). split; [lia|]. exists u, w.
    split_and!; [apply Hnode; by exists i, c | apply Hnode; by exists j, d | done].
Qed.

Lemma HasRecursion_spec GetOutNodes scc :
  NoDup (scc_nodes scc) -> (forall v u, v ∈ scc_nodes scc -> u ∈ scc_nodes scc <-> connected GetOutNodes v u) ->
  HasRecursion GetOutNodes scc = true <-> exists v, v ∈ scc_nodes scc /\ tc (edge GetOutNodes) v v.
Proof.
  intros Hnd Hcon. unfold HasRecursion. destruct (scc_nodes scc) as [|v [|u l]].
  - split; [done|]. by intros (v & ?%elem_of_nil & _).
  - rewrite existsb_exists. split.
    + intros (w & Hw & ->%Nat.eqb_eq). exists w. split; [by left|]. apply tc_once. by apply list_elem_of_In.
    + intros (x & ->%list_elem_of_singleton & Hv). exists v. split; [|by apply Nat.eqb_eq]. apply list_elem_of_In.
      assert (Hstep : exists w, edge GetOutNodes v w /\ reach GetOutNodes w v).
      { inversion Hv as [? Hvv|? w ? Hvw Hwv]; subst; [exists v | exists w]; (split; [done|]); [constructor | by apply tc_rtc]. }
      destruct Hstep as (w & Hvw & Hwv). assert (Hw : w ∈ [v]).
      { apply (Hcon v w); [by left|]. split; [by apply rtc_once | done]. }
      by apply list_elem_of_singleton in Hw as ->.
  - split; [|done]. intros _. exists v. split; [by left|].
    assert (Hne : v <> u) by (intros ->; apply NoDup_cons in Hnd as [Hnd _]; apply Hnd; by left).
    destruct (proj1 (Hcon v u ltac:(by left)) ltac:(right; by left)) as [Hvu Huv].
    apply rtc_tc in Hvu as [?|Hvu]; [done|]. eapply tc_rtc_r; [exact Hvu | exact Huv].
Qed.

Lemma rev_seq_lookup l p0 k i p : rev l = seq p0 k -> l !! i = Some p -> (i < k)%nat /\ (p + i + 1 = p0 + k)%nat.
Proof.
  intros Hl Hi. assert (Hlen : length l = k) by (by rewrite <- (length_rev l), Hl, length_seq).
  pose proof (lookup_lt_Some _ _ _ Hi) as Hlt. rewrite <- (rev_involutive l), Hl, rev_alt in Hi.
  change (rev_append (seq p0 k) []) with (reverse (seq p0 k)) in Hi.
  rewrite reverse_lookup in Hi by (rewrite length_seq; lia). rewrite length_seq in Hi. apply lookup_seq in Hi. lia.
Qed.

(** C20: The components are in topological order, and know their neighbours: in
    topologicalVec no edge leads back; outScc and inScc of a component are the
    others that its edges lead to and come from; and HasRecursion decides whether
    one of its nodes lies on a cycle. *)
Theorem components_ordered GetOutNodes n allNodes clearOld h :
  good_call GetOutNodes n allNodes clearOld h ->
  exists k h', BuildSCC GetOutNodes n allNodes clearOld h = Ret (k, h') /\
    (forall i j p q, topologicalVec h' !! i = Some p -> topologicalVec h' !! j = Some q -> leads GetOutNodes h' p q -> (i < j)%nat) /\
    (forall p, p ∈ topologicalVec h' -> exists scc, sccs h' !! p = Some scc /\
      (forall z q, outScc scc !! z = Some q <-> leads GetOutNodes h' p q /\ exists scc', sccs h' !! q = Some scc' /\ z = scc_id scc') /\
      (forall z q, inScc scc !! z = Some q <-> leads GetOutNodes h' q p /\ exists scc', sccs h' !! q = Some scc' /\ z = scc_id scc') /\
      (HasRecursion GetOutNodes scc = true <-> exists v, sccNode h' !! v = Some p /\ tc (edge GetOutNodes) v v)).
Proof.
  intros Hgc. destruct (BuildSCC_result _ _ _ _ _ Hgc) as (cs & h' & Hret & Hre).
  eexists _, h'. split; [exact Hret|]. pose proof (fun p q => leads_scc_edge _ _ _ _ _ _ _ p q Hre Hgc) as Hleads.
  destruct Hre as [Hob Hnd Hcomp Hord _]. pose proof (ob_vec _ _ _ _ Hob) as Hvec. cbn in Hvec.
  pose proof (ob_node _ _ _ _ Hob) as Hnode. cbn in Hnode. split.
  - intros i j p q Hi Hj (a & b & -> & -> & Hne & c & d & u & w & Ha & Hb & Hu & Hw & Huw)%Hleads.
    apply (rev_seq_lookup _ _ _ _ _ Hvec) in Hi, Hj. pose proof (Hord a b c d u w Ha Hb Hu Hw Huw). lia.
  - intros p Hp. rewrite <- rev_elements, Hvec, elem_of_seq in Hp.
    destruct (lookup_lt_is_Some_2 cs (p - length (sccs h))) as [c Hc]; [lia|].
    remember (p - length (sccs h))%nat as i eqn:Hpi. assert (p = length (sccs h) + i)%nat as -> by lia. clear Hpi Hp.
    destruct (ob_sccs _ _ _ _ Hob i c Hc) as (ins & outs & Hi & Ho & Hin). cbn in Hi. eexists. split; [exact Hi|]. cbn [outScc inScc].
    assert (Hother : forall a b j, scc_edge GetOutNodes cs a b -> j = a \/ j = b ->
      exists x, sccs h' !! (length (sccs h) + j)%nat = Some x /\ scc_id x = Z.of_nat j).
    { intros a b j (_ & ca & cb & _ & _ & Ha & Hb & _) Hj.
      assert (Hlook : exists e, cs !! j = Some e) by (destruct Hj as [-> | ->]; [by exists ca | by exists cb]). destruct Hlook as [e He].
      destruct (ob_sccs _ _ _ _ Hob j e He) as (? & ? & Hx & _). eexists. split; [exact Hx | done]. }
    split_and!.
    + intros z q. rewrite Ho, Hleads. split.
      * intros (j & -> & -> & Hij). destruct (Hother i j j Hij) as (x & Hx & Hid); [by right|]. split; [by exists i, j | by exists x].
      * intros ((a & b & Ha & -> & Hab) & x & Hx & ->). assert (a = i) as -> by lia.
        destruct (Hother i b b Hab) as (y & Hy & Hid); [by right|]. exists b. split_and!; [congruence | done..].
    + intros z q. rewrite Hin, Hleads. split.
      * intros (j & -> & -> & Hij). destruct (Hother j i j Hij) as (x & Hx & Hid); [by left|]. split; [by exists j, i | by exists x].
      * intros ((a & b & -> & Hb & Hab) & x & Hx & ->). assert (b = i) as -> by lia.
        destruct (Hother a i a Hab) as (y & Hy & Hid); [by left|]. exists a. split_and!; [congruence | done..].
    + rewrite Forall_lookup in Hnd. destruct (Hnd i c Hc) as [Hndc _].
      rewrite HasRecursion_spec; cbn [scc_nodes]; [|done|by intros v u; apply (Hcomp i)].
      split; intros (v & Hv & Htc); exists v; (split; [|done]).
      * apply Hnode. by exists i, c.
      * apply Hnode in Hv as (j & d & Hj & Hv & Heq). assert (j = i) as -> by lia. congruence.
Qed.

(** ** Examples *)

Definition call_check (GetOutNodes : nat -> list nat) (n : nat) (allNodes : list nat) : bool :=
  bool_decide (Forall (fun v => Forall (fun w => (w < n)%nat) (GetOutNodes v)) (seq 0 n)) &&
  (Z.of_nat n + 1 <? 2 ^ 32) && bool_decide (Forall (fun v => (v < n)%nat) allNodes).

Lemma call_check_ok GetOutNodes n allNodes clearOld :
  call_check GetOutNodes n allNodes = true -> good_call GetOutNodes n allNodes clearOld SccHeap_empty.
Proof.
  unfold call_check. rewrite !andb_true_iff, !bool_decide_eq_true, Z.ltb_lt, !Forall_forall. intros [[H1 H2] H3].
  constructor; try done.
  - intros v w Hv Hw. specialize (H1 v). rewrite elem_of_seq, Forall_forall in H1. apply H1; [lia | done].
  - intros v [p Hp]. cbn in Hp. by rewrite lookup_empty in Hp.
Qed.

(** Two loops, 1 3 and 2 4, of which the first is called from the second *)
Definition calls (v : nat) : list nat :=
  match v with 0 => [1; 2] | 1 => [3] | 2 => [1; 4; 2] | 3 => [1; 5] | 4 => [2] | 6 => [0] | _ => [] end%nat.

Example calls_components :
  match BuildSCC calls 7 (seq 0 7) false SccHeap_empty with
  | Ret (k, h) => k = 5 /\ map (fun p => scc_nodes <$> sccs h !! p) (topologicalVec h) = [Some [6]; Some [0]; Some [2; 4]; Some [1; 3]; Some [5]]%nat
  | Fault _ => False
  end.
Proof. vm_compute. auto. Qed.

Lemma components_correct_witness :
  exists h', BuildSCC calls 7 (seq 0 7) true SccHeap_empty = Ret (Z.of_nat (length (topologicalVec h')), h') /\
    (forall v, is_Some (sccNode h' !! v) <-> exists r, r ∈ seq 0 7 /\ reach calls r v) /\
    (forall u v p q, sccNode h' !! u = Some p -> sccNode h' !! v = Some q -> p = q <-> connected calls u v) /\
    NoDup (topologicalVec h') /\
    (forall v p, sccNode h' !! v = Some p -> p ∈ topologicalVec h') /\
    (forall p, p ∈ topologicalVec h' -> exists scc, sccs h' !! p = Some scc /\ NoDup (scc_nodes scc) /\ scc_nodes scc <> [] /\
      forall v, v ∈ scc_nodes scc <-> sccNode h' !! v = Some p).
Proof. apply (components_correct calls 7 (seq 0 7) true SccHeap_empty). apply call_check_ok. vm_compute. reflexivity. Defined.

Lemma components_ordered_witness :
  exists k h', BuildSCC calls 7 [6; 5]%nat false SccHeap_empty = Ret (k, h') /\
    (forall i j p q, topologicalVec h' !! i = Some p -> topologicalVec h' !! j = Some q -> leads calls h' p q -> (i < j)%nat) /\
    (forall p, p ∈ topologicalVec h' -> exists scc, sccs h' !! p = Some scc /\
      (forall z q, outScc scc !! z = Some q <-> leads calls h' p q /\ exists scc', sccs h' !! q = Some scc' /\ z = scc_id scc') /\
      (forall z q, inScc scc !! z = Some q <-> leads calls h' q p /\ exists scc', sccs h' !! q = Some scc' /\ z = scc_id scc') /\
      (HasRecursion calls scc = true <-> exists v, sccNode h' !! v = Some p /\ tc (edge calls) v v)).
Proof. apply (components_ordered calls 7 [6; 5]%nat false SccHeap_empty). apply call_check_ok. vm_compute. reflexivity. Defined.

(** RecomputeSCC empties topologicalVec but does not take the components off the
    nodes, so BuildSCC skips all of them. *)
Theorem recompute_empty GetOutNodes n allNodes h :
  (forall v, v ∈ allNodes -> is_Some (sccNode h !! v)) ->
  RecomputeSCC GetOutNodes n allNodes h = Ret (0, MkSccHeap (sccs h) (sccNode h) []).
Proof.
  intros Hall. unfold RecomputeSCC, BuildSCC. cbn [sccs sccNode topologicalVec].
  set (st := MkSearch _ _ _ _ _ _ _ _ _ _ _).
  assert (Hloop : forall l, (forall v, v ∈ l -> v ∈ allNodes) -> for_each (search_node GetOutNodes) l st = Ret st).
  { induction l as [|v l IH]; intros Hl; [done|]. cbn [for_each].
    assert (Hv : search_node GetOutNodes v st = Ret st).
    { unfold search_node. change (sccNode (heap st)) with (sccNode h). destruct (Hall v (Hl v ltac:(by left))) as [p ->]. done. }
    rewrite Hv. cbn [mbind res_bind].
    apply IH. intros u Hu. apply Hl. by right. }
  by rewrite Hloop.
Qed.

Example recompute_loses_components :
  match BuildSCC calls 7 (seq 0 7) false SccHeap_empty with
  | Ret (_, h) => match RecomputeSCC calls 7 (seq 0 7) h with Ret (k, h') => k = 0 /\ topologicalVec h' = [] | Fault _ => False end
  | Fault _ => False
  end.
Proof. vm_compute. auto. Qed.

(** The 32 bits of GetUniqueID have room for 16 bits of the id. *)
Example unique_ids_collide : GetUniqueID (SCCNode_new 65536) = GetUniqueID (SCCNode_new 0).
Proof. vm_compute. reflexivity. Qed.
